(* ===== verification/_CoqProject ===== *)
-Q . S2P
Prelude.v
Tlv.v
Name.v
NameUri.v
KeyCodec.v
BTree.v
Float64.v
Face.v
FwdCore.v
Trie.v
Evict.v
DeadNonce.v
Packet.v
Lp.v
Encode.v
Reassembly.v
Reliability.v
ReplayGuard.v
Pit.v
PitStage.v
DecodeStage.v
LinkService.v
LruCs.v
Svs.v
SvsSync.v
Rib.v
Mgmt.v
Dataset.v
MgmtServer.v
Flash.v
Lvs.v
LvsCorrect.v
Measure.v
Strategy.v
StrategyStage.v
Reflexive.v
Stages.v
PathControl.v
Dispatcher.v
Forwarder.v
Egress.v
Ble.v
Psync.v
PsyncSync.v
