(* ===== verification/Prelude.v ===== *)
(** * ndn-rs: a verification development

    ndn-rs is a Named Data Networking stack in Rust.  Consumers send Interests
    for names, forwarders route them by longest-prefix match and remember where
    they came from, and the Data that answers them retraces the path.  The crates
    under [src/crates] stack up as

    - [core/ndn-tlv], [core/ndn-foundation-types], [core/ndn-packet]: the wire
      format, names, Interest and Data packets, the link protocol NDNLPv2;
    - [core/ndn-transport]: faces, link services, link reliability;
    - [forwarding/ndn-fwd-core]: the forwarding decisions without I/O;
    - [forwarding/ndn-store]: the tables of a forwarder (FIB, strategy table,
      PIT, dead nonce list, content stores);
    - [forwarding/ndn-strategy], [core/ndn-signals-core]: the strategies and what
      they decide on;
    - [forwarding/ndn-engine]: the pipeline whose stages use all of these, the
      RIB, and the dispatcher that runs the stages;
    - [core/ndn-mgmt-wire], [forwarding/ndn-mgmt]: management;
    - [protocols/ndn-svs-core], [protocols/ndn-sync]: State Vector Sync;
    - [security/ndn-security]: the replay guard, trust schemas and policies;
    - [core/ndn-storage]: storage backends, among them a log on flash memory;
    - certificates, discovery, applications and tools around them.

    A frame comes in on a face, is reassembled and decoded ([TlvDecodeStage]) and
    handed to the dispatcher.  An Interest goes through [PitCheckStage], which asks
    the replay guard, the dead nonce list and the PIT, then to the content store
    ([CsLookupStage]), then along a reverse route or to the strategy
    ([StrategyStage]).  Data goes through [PitMatchStage], which finds the pending
    Interests it satisfies, debits subscriptions and feeds the dead nonce list,
    then to validation ([ValidationStage]) and the content store
    ([CsInsertStage]).  What the stages decide, the dispatcher puts on the send
    queues of faces, where the link service frames it.  Management changes the RIB,
    from which the FIB is computed, the strategies and the policies.

    ** Files

    Foundations:
    - [Prelude]: results and option binds ([let?], [let!]), state with errors
      ([SM], [do?]), machine integers, byte strings, big-endian integers, the
      tactics and the hint databases [ndn] and [zlen].
    - [BTree], [Float64]: ordered maps, and binary floating point, as the code uses
      them of the standard library.

    Wire format and links:
    - [Tlv]: [ndn-tlv], VAR-NUMBERs, [TlvReader], [TlvWriter].
    - [Name], [NameUri]: [ndn-foundation-types/src/name.rs], components, the
      canonical order, the TLV form; the URI form with its parser and printer.
    - [Packet], [Encode]: [ndn-packet], [interest.rs], [data.rs], [signature.rs],
      [meta_info.rs], [subscription.rs]; the builders and signers of [encode/].
    - [Lp], [Reassembly]: [ndn-packet/src/lp], [nack.rs], [fragment.rs].
    - [Face], [Reliability], [LinkService]: [ndn-transport], [face.rs], the face
      options and tables, [reliability.rs], [link_service/].

    Tables and pipeline:
    - [FwdCore]: [ndn-fwd-core], the longest-match rule, freshness, the built-in
      strategies, the storage traits as classes (the laws of a PIT are a class
      [PitStoreLaws], against which the observed PIT and the Data path are
      proved), the decisions and the conformance vectors.
    - [Trie]: [ndn-store/src/trie.rs], [fib.rs], [strategy_table.rs]; a trie
      refines a finite map, and its walk is [FwdCore]'s rule.
    - [KeyCodec]: [ndn-store/src/cs_keycodec.rs], the keys and values of the
      disk-backed stores.
    - [Evict], [DeadNonce], [ReplayGuard]: [dead_nonce_list.rs],
      [ndn-security/src/replay_guard.rs], and what they share.
    - [Pit], [PitStage]: [ndn-store/src/pit.rs]; [ndn-engine/src/stages/pit.rs] and
      [pipeline/], the two PIT stages on their shared state ([Shared]).
    - [LruCs]: [ndn-store/src/content_store.rs], [lru_cs.rs], [sharded_cs.rs].
    - [DecodeStage]: [stages/decode.rs].
    - [Measure], [Strategy], [StrategyStage]: the signals, measurements and
      congestion feedback; every strategy of [ndn-strategy] and its registry;
      [stages/strategy.rs].
    - [Reflexive], [Stages]: [reflexive.rs]; [stages/cs.rs], [stages/validation.rs].
    - [PathControl]: [ndn-pathcontrol] and the engine's [path_control.rs], the
      messages that walk a path with the Interests, and their handler.
    - [Dispatcher], [Forwarder]: [dispatcher/pipeline.rs], [dispatcher/outbound.rs]
      with the policies and hooks they consult; the stages composed, and what holds
      of the whole.
    - [Egress]: [egress.rs], the schedulers of a face's send queue.
    - [Rib]: [fib.rs], [rib.rs], [readvertise.rs] of the engine.

    Around the forwarder:
    - [Mgmt], [Dataset], [MgmtServer]: [ndn-mgmt-wire]; [ndn-mgmt], the gate for
      commands, the router, the rib, fib, strategy and content-store modules.
    - [Svs], [SvsSync]: [ndn-svs-core] and [svs_local.rs]; [dialect.rs],
      [security.rs], [protocol.rs], [svs_sync.rs] of [ndn-sync].
    - [Psync], [PsyncSync]: [murmur3.rs], [psync.rs]; [psync_sync.rs] of [ndn-sync].
    - [Lvs], [LvsCorrect]: [lvs.rs], [lvs_compile.rs], [trust_schema.rs],
      [validation_policy.rs] of [ndn-security].
    - [Flash]: [ndn-storage/src/flash.rs].
    - [Ble]: [ndn-ble-framing].

    A struct is a [Record] with the fields of the code, an enum an [Inductive]
    with its variants (renamed where two enums of one file clash), a trait a
    [Class] or a record of its methods, a method a function that takes [self] and
    returns it after.  A [Result] is [result], an error path a value of it; a panic
    is [None], [Panic] or [Panicked], and the theorems show it is not reached where
    the code relies on that.  A [usize] or [u64] is an integer, with wrapping,
    saturating or checked arithmetic written out where the code has it.

    ** What the theorems show

    - The forwarder as a whole: under best-route a fetch goes to the cheapest next
      hop and the Data back to the consumer with its token; whatever bytes arrive,
      only Data somebody vouches for enters the content store, and nothing under
      [/localhost] leaves the host by way of the pipelines, except on the three
      paths that do not check the scope: a delayed forward, the failover after a
      Nack ([nack_failover_leaves_host]) and the walk of a path-control message
      ([path_control_leaves_host]).  The stages: the
      admission of an Interest on every branch; Data goes back exactly to those who
      asked; each subscriber gets its budget of Data of its own name; an Interest
      leaves only as its strategy, or the tag that overrides it, decided; reverse
      routes lead back where they came from and are bounded; what validation does
      with Data, verdict by verdict, and with the Data it holds.
    - The wire format: Interests and link packets are accepted exactly when they
      are well formed; what builders write is read back; signatures cover what they
      are taken to cover; the ways to write Data agree.
    - Links: decoding terminates and fragments are delivered, in any order and
      interleaving, the sweep of stale groups included; reassembly refines a set of
      indices; reliability keeps its invariant, bounds retransmission and repairs
      lost frames ([lost_fragments_repaired]: a frame that is not acknowledged is
      sent again, and the packet is delivered from what arrives); the schedulers lose
      and reorder nothing within a class, and round robin starves none; BLE frames
      of interleaved senders are reassembled.
    - The tables: the FIB implements the RIB; the trie's match is the linear rule;
      the LRU store keeps its accounts and evicts the least recently used.
    - Management: commands change things only when authorised, and once (of the
      modules that are not modelled it is assumed that their public datasets are
      reads and that they do not turn required signatures off); what the rib module
      does to the routes and to a FIB that others write too; parameters and datasets
      round-trip, and which readers terminate.
    - Sync: exchanges of vectors agree, publications are offered and reach peers;
      PSync finds the difference of two sets and an exchange brings a node up to
      date.
    - Trust schemas: what is compiled accepts what the source says; what the
      evaluator accepts; what reading a schema establishes.
    - The flash log: every mount after any failure finds what was acknowledged, and
      a device that works accepts what fits.

    Where the code and what it says of itself part, the development states what
    the code does, in lemmas and runs of their own: among them
    [data_trailing_bytes], [hop_limit_trailing_byte], [exact_subscription_starved],
    [replace_breaks_accounts], [sharded_root_prefix], [from_locator_collides],
    [acks_lost], [congestion_mark_order], [failed_write_loses_next],
    [long_literal_truncated], [push_diverges], [measured_ping_pong],
    [expired_route_hides], [unfragmented_swallowed], [decode_diverges],
    [old_version_kept], [psdc_not_last_accepted], [unregister_unmounts], and the runs
    at the end of [Forwarder].

    ** Fuel

    Loops that are not structural take fuel, a bound each definition computes
    from its input: the length of the bytes left for TLV walks (every turn
    consumes at least one byte), twice the bytes of the frame and of the buffered
    fragments for the decode stage ([decode_fuel]: every nesting strips a header),
    the in-records for the drain loop of [PitStage] (every turn removes a record or
    advances), the cache for the eviction loops of [LruCs] (every turn removes an
    entry), the log's length for the replay of [Flash], eight turns for every quantum
    in the bytes queued for the round robin of [Egress].  The theorems are stated of
    the functions with that fuel, so running out is excluded by proof and not by
    assumption.  The readers of FIB and RIB datasets do not terminate on every
    input; they take a bound on their steps, and [dataset_termination] says when it
    is reached.  Nor does the peeling of [Psync]: its fuel is an argument, one more
    than the keys of both sets is enough for tables that sets give, and
    [decode_diverges] has one for which none is.

    ** Parameters and what is not modelled

    The hash function of the standard library is the class [Hasher] (a component
    hash for [ShardedCs]); freedom from collisions is assumed only where a
    statement says so.  The order an unstable sort gives to equal keys, and the
    order a hash map is walked in, are parameters, and the theorems hold of every
    function that sorts, or lists what is in the map.  The [lru] crate is the class
    [LruCache] with the laws of its documentation; SHA-256, HMAC and the signing
    callbacks, zlib, the clocks and random draws, the verdicts of validators, the user
    functions of schemas and the plug-ins of the dispatcher (rate limiter,
    discovery, name classifier) are arguments.

    Concurrent maps are finite maps and a method is one step: the locks of the
    tables, and interleavings inside a method, are not modelled; of the dispatcher's
    two runtimes the one that handles packets in order is.  The WebAssembly
    variants are not, where they differ.  Tracing and metrics are not, except the
    fan-out events of [PitMatchStage] and the counters of faces and stages.

    Not modelled, because they are input and output or bindings to it: sockets and
    the other transports, the runtimes and their tasks, the construction of a
    forwarder, the databases behind the persistent stores, applications, tools,
    configuration and telemetry.  Not modelled, because what they compute is
    cryptography or rests on fetching over the network: the walk along certificate
    chains, key stores, certificate issuance, identities.  Not modelled although
    pure logic, for extent: partial PSync and the publishing layers of sync, neighbour
    discovery, the emitters of path-control messages, the filters that wrap
    strategies, the face and routing modules of management, clock estimation. *)

From stdpp Require Export prelude list list_numbers gmap sorting strings.
From Stdlib Require Export ZArith Lia.

#[global] Open Scope Z_scope.

(** ** Errors as values

    A Rust [Result<A, E>]; [Err] carries the error. *)
Inductive result (A E : Type) : Type :=
| Ok (a : A)
| Err (e : E).
Arguments Ok {A E} a.
Arguments Err {A E} e.

#[export] Instance result_eq_dec {A E} `{EqDecision A, EqDecision E} :
  EqDecision (result A E).
Proof. solve_decision. Defined.

Declare Scope ndn_scope.
Delimit Scope ndn_scope with ndn.
#[global] Open Scope ndn_scope.

(** The [?] operator on a [Result]. *)
Notation "'let?' x ':=' e 'in' k" :=
  (match e with Ok x => k | Err er => Err er end)
  (at level 10, x pattern, e at level 200, k at level 200) : ndn_scope.

(** The [?] operator on an [Option]. *)
Notation "'let!' x ':=' e 'in' k" :=
  (match e with Some x => k | None => None end)
  (at level 10, x pattern, e at level 200, k at level 200) : ndn_scope.

Definition map_err {A E F} (f : E -> F) (r : result A E) : result A F :=
  match r with Ok a => Ok a | Err e => Err (f e) end.

Definition ok_or {A E} (o : option A) (e : E) : result A E :=
  match o with Some a => Ok a | None => Err e end.

(** A [&mut self] method that returns a [Result]: the state after the call is
    returned on both branches, because Rust keeps the mutations an erring
    method made before it erred. *)
Definition SM (S E A : Type) : Type := S -> result A E * S.

Definition sm_ret {S E A} (a : A) : SM S E A := fun s => (Ok a, s).
Definition sm_err {S E A} (e : E) : SM S E A := fun s => (Err e, s).
Definition sm_bind {S E A B} (m : SM S E A) (k : A -> SM S E B) : SM S E B :=
  fun s => match m s with
           | (Ok a, s') => k a s'
           | (Err e, s') => (Err e, s')
           end.

Notation "'do?' x ':=' m 'in' k" := (sm_bind m (fun x => k))
  (at level 10, x pattern, m at level 200, k at level 200) : ndn_scope.

(** ** Machine integers *)

Definition u8_max : Z := 2 ^ 8 - 1.
Definition u16_max : Z := 2 ^ 16 - 1.
Definition u32_max : Z := 2 ^ 32 - 1.
Definition u64_max : Z := 2 ^ 64 - 1.
(** [usize] on the 64-bit targets the forwarder runs on. *)
Definition usize_max : Z := u64_max.

Definition is_u8 (z : Z) : Prop := 0 <= z <= u8_max.
Definition is_u16 (z : Z) : Prop := 0 <= z <= u16_max.
Definition is_u32 (z : Z) : Prop := 0 <= z <= u32_max.
Definition is_u64 (z : Z) : Prop := 0 <= z <= u64_max.

(** [as uN] casts and [wrapping_*] arithmetic. *)
Definition wrap (w : Z) (z : Z) : Z := z mod 2 ^ w.
Lemma wrap_small w z : 0 <= z < 2 ^ w -> wrap w z = z.
Proof. apply Z.mod_small. Qed.
(** [saturating_add], [saturating_sub], [saturating_mul] at 64 bits. *)
Definition sat_add64 (a b : Z) : Z := Z.min (a + b) u64_max.
Definition sat_sub (a b : Z) : Z := Z.max (a - b) 0.
Definition sat_mul64 (a b : Z) : Z := Z.min (a * b) u64_max.
(** [usize::checked_add]. *)
Definition checked_add (a b : Z) : option Z :=
  if a + b <=? usize_max then Some (a + b) else None.

(** An unchecked addition that overflows: a panic when overflow checks are on;
    without them the sum wraps and the code goes on with a wrong offset.  Either
    way it is outside what the code means to do, so it is an error of its own. *)
Inductive Panicked : Type := ArithmeticOverflow.

(** Unfold the bounds so that [lia] sees numerals. *)
Ltac unfold_bounds :=
  unfold is_u8, is_u16, is_u32, is_u64, usize_max, u8_max, u16_max, u32_max,
    u64_max in *.

(** Case analysis on every boolean integer test in sight. *)
Ltac bcase_step :=
  match goal with
  | H : context [?a <? ?b] |- _ => destruct (Z.ltb_spec a b)
  | H : context [?a <=? ?b] |- _ => destruct (Z.leb_spec a b)
  | H : context [?a =? ?b] |- _ => destruct (Z.eqb_spec a b)
  | |- context [?a <? ?b] => destruct (Z.ltb_spec a b)
  | |- context [?a <=? ?b] => destruct (Z.leb_spec a b)
  | |- context [?a =? ?b] => destruct (Z.eqb_spec a b)
  end.
Ltac bcase := repeat bcase_step; simplify_eq/=.

(** ** Byte strings

    A byte is an integer in [0..255]; a [Bytes]/[&[u8]]/[Vec<u8>] is a list of
    them. *)
Abbreviation bytes := (list Z).
Definition wf_bytes (bs : bytes) : Prop := Forall is_u8 bs.

(** [len()] of a slice, at [usize]. *)
Definition zlen {A} (l : list A) : Z := Z.of_nat (length l).

(** [l[a..b]] for in-range bounds. *)
Definition slice {A} (l : list A) (a b : Z) : list A :=
  take (Z.to_nat (b - a)) (drop (Z.to_nat a) l).

(** [l[a..]]. *)
Definition slice_from_ {A} (l : list A) (a : Z) : list A := drop (Z.to_nat a) l.

(** [uN::to_be_bytes], most significant byte first, [n] bytes. *)
Fixpoint be_encode (n : nat) (v : Z) : bytes :=
  match n with
  | O => []
  | S n' => be_encode n' (v / 256) ++ [v mod 256]
  end.

(** [uN::from_be_bytes]. *)
Definition be_decode (bs : bytes) : Z := fold_left (fun acc b => acc * 256 + b) bs 0.

(** *** Lengths and slices *)

Lemma zlen_nonneg {A} (l : list A) : 0 <= zlen l.
Proof. unfold zlen. lia. Qed.
Lemma zlen_nil {A} : zlen (@nil A) = 0.
Proof. done. Qed.
Lemma zlen_cons {A} (x : A) l : zlen (x :: l) = 1 + zlen l.
Proof. unfold zlen. simpl. lia. Qed.
Lemma zlen_app {A} (l k : list A) : zlen (l ++ k) = zlen l + zlen k.
Proof. unfold zlen. rewrite length_app. lia. Qed.
Lemma zlen_take {A} (l : list A) n : zlen (take n l) = Z.min (Z.of_nat n) (zlen l).
Proof. unfold zlen. rewrite length_take. lia. Qed.
Lemma zlen_drop {A} (l : list A) n : zlen (drop n l) = Z.max 0 (zlen l - Z.of_nat n).
Proof. unfold zlen. rewrite length_drop. lia. Qed.
Lemma zlen_0_nil {A} (l : list A) : zlen l = 0 -> l = [].
Proof. unfold zlen. destruct l; [done|simpl; lia]. Qed.

Create HintDb ndn discriminated.
Create Rewrite HintDb zlen.
#[export] Hint Resolve zlen_nonneg : ndn.
#[export] Hint Rewrite @zlen_nil @zlen_cons @zlen_app @zlen_take @zlen_drop : zlen.

(** Normalise lengths, then decide the linear goal. *)
Ltac zlen_norm := autorewrite with zlen in *.
Ltac zlen_lia :=
  zlen_norm;
  repeat match goal with
  | |- context [zlen ?l] =>
      lazymatch goal with H : 0 <= zlen l |- _ => fail | _ => pose proof (zlen_nonneg l) end
  | _ : context [zlen ?l] |- _ =>
      lazymatch goal with H : 0 <= zlen l |- _ => fail | _ => pose proof (zlen_nonneg l) end
  end;
  unfold_bounds; lia.

Lemma drop_0_app {A} (l k : list A) n : n = length l -> drop n (l ++ k) = k.
Proof. intros ->. by rewrite drop_app_length. Qed.
Lemma take_0_app {A} (l k : list A) n : n = length l -> take n (l ++ k) = l.
Proof. intros ->. by rewrite take_app_length. Qed.

Lemma slice_from_app {A} (l k : list A) : slice_from_ (l ++ k) (zlen l) = k.
Proof. unfold slice_from_, zlen. apply drop_0_app. lia. Qed.
Lemma slice_mid {A} (l m k : list A) a b :
  a = zlen l -> b = zlen l + zlen m -> slice (l ++ m ++ k) a b = m.
Proof.
  unfold slice, zlen. intros -> ->.
  rewrite drop_0_app by lia. apply take_0_app. lia.
Qed.
Lemma slice_app_l {A} (a b : list A) n : n = zlen a -> slice (a ++ b) 0 n = a.
Proof. intros ->. by apply (slice_mid [] a b). Qed.
Lemma slice_app_r {A} (a b : list A) n k : n = zlen a -> k = zlen a + zlen b -> slice (a ++ b) n k = b.
Proof. intros -> ->. rewrite <- (app_nil_r b) at 1. by apply (slice_mid a b []). Qed.
Lemma slice_from_app_eq {A} (a b : list A) n : n = zlen a -> slice_from_ (a ++ b) n = b.
Proof. intros ->. apply slice_from_app. Qed.
Lemma zlen_slice {A} (l : list A) a b :
  0 <= a <= b -> b <= zlen l -> zlen (slice l a b) = b - a.
Proof. intros. unfold slice. zlen_lia. Qed.

(** [wf_bytes] by evaluation. *)
Lemma wf_bytes_check bs : forallb (fun b => (0 <=? b) && (b <=? 255)) bs = true -> wf_bytes bs.
Proof.
  intros H. apply List.Forall_forall. intros b Hb. rewrite List.forallb_forall in H. apply H in Hb.
  unfold is_u8, u8_max. lia.
Qed.
Lemma wf_bytes_app bs cs : wf_bytes (bs ++ cs) <-> wf_bytes bs /\ wf_bytes cs.
Proof. apply Forall_app. Qed.
Lemma wf_bytes_slice bs a b : wf_bytes bs -> wf_bytes (slice bs a b).
Proof. intros. by apply Forall_take, Forall_drop. Qed.
Lemma wf_bytes_slice_from bs a : wf_bytes bs -> wf_bytes (slice_from_ bs a).
Proof. intros. by apply Forall_drop. Qed.
#[export] Hint Resolve wf_bytes_slice wf_bytes_slice_from : ndn.

(** *** Big-endian integers *)

Lemma length_be_encode n v : length (be_encode n v) = n.
Proof. revert v. induction n; intros v; simpl; [done|]. rewrite length_app, IHn. simpl. lia. Qed.

Lemma zlen_be_encode n v : zlen (be_encode n v) = Z.of_nat n.
Proof. unfold zlen. by rewrite length_be_encode. Qed.
#[export] Hint Rewrite zlen_be_encode : zlen.

Lemma wf_be_encode n v : wf_bytes (be_encode n v).
Proof.
  revert v. induction n; intros v; simpl; [constructor|].
  apply wf_bytes_app. split; [done|].
  constructor; [|constructor]. pose proof (Z.mod_pos_bound v 256 ltac:(lia)). unfold_bounds. lia.
Qed.
#[export] Hint Resolve wf_be_encode : ndn.

Lemma be_decode_snoc bs b : be_decode (bs ++ [b]) = be_decode bs * 256 + b.
Proof. unfold be_decode. by rewrite fold_left_app. Qed.

Lemma be_decode_bound bs : wf_bytes bs -> 0 <= be_decode bs < 256 ^ zlen bs.
Proof.
  induction bs as [|b bs IH] using rev_ind; intros Hwf; [done|].
  apply wf_bytes_app in Hwf as [Hwf Hb]. apply Forall_cons in Hb as [Hb _].
  specialize (IH Hwf). rewrite be_decode_snoc, zlen_app. change (zlen [b]) with 1.
  rewrite Z.pow_add_r by (pose proof (zlen_nonneg bs); lia).
  unfold_bounds. change (256 ^ 1) with 256. lia.
Qed.

Lemma be_decode_encode n v : be_decode (be_encode n v) = v mod 256 ^ Z.of_nat n.
Proof.
  revert v. induction n as [|n IH]; intros v; [by rewrite Z.mod_1_r|].
  cbn [be_encode]. rewrite be_decode_snoc, IH.
  replace (256 ^ Z.of_nat (S n)) with (256 * 256 ^ Z.of_nat n)
    by (rewrite Nat2Z.inj_succ, Z.pow_succ_r; lia).
  rewrite Z.rem_mul_r; lia.
Qed.

Lemma be_encode_decode bs : wf_bytes bs -> be_encode (length bs) (be_decode bs) = bs.
Proof.
  induction bs as [|b bs IH] using rev_ind; intros Hwf; [done|].
  apply wf_bytes_app in Hwf as [Hwf Hb]. apply Forall_cons in Hb as [Hb _].
  rewrite length_app, Nat.add_1_r. cbn [be_encode]. rewrite be_decode_snoc.
  unfold_bounds.
  rewrite Z.div_add_l, Z.div_small, Z.add_0_r by lia.
  rewrite Z.add_comm, Z.mod_add, Z.mod_small by lia.
  by rewrite IH.
Qed.

Lemma be_decode_app bs cs : be_decode (bs ++ cs) = be_decode bs * 256 ^ zlen cs + be_decode cs.
Proof.
  induction cs as [|c cs IH] using rev_ind.
  - rewrite app_nil_r, zlen_nil. change (be_decode []) with 0. lia.
  - rewrite app_assoc, !be_decode_snoc, IH, zlen_app. change (zlen [c]) with 1.
    rewrite Z.pow_add_r by (pose proof (zlen_nonneg cs); lia).
    change (256 ^ 1) with 256. lia.
Qed.

Lemma be_decode_inj bs cs :
  wf_bytes bs -> wf_bytes cs -> length bs = length cs -> be_decode bs = be_decode cs -> bs = cs.
Proof.
  intros Hb Hc Hl Hd.
  rewrite <- (be_encode_decode bs), <- (be_encode_decode cs) by done. by rewrite Hl, Hd.
Qed.

#[global] Arguments be_encode : simpl never.
#[global] Arguments be_decode : simpl never.
#[global] Arguments zlen : simpl never.
#[global] Arguments slice : simpl never.

(** A boolean test of [wf_bytes], for concrete byte strings. *)
Definition wf_bytesb (bs : bytes) : bool := forallb (fun b => (0 <=? b) && (b <=? 255)) bs.

Lemma wf_bytesb_sound bs : wf_bytesb bs = true -> wf_bytes bs.
Proof.
  unfold wf_bytesb, wf_bytes. rewrite forallb_forall, Forall_forall.
  intros H x Hx%list_elem_of_In. specialize (H x Hx).
  apply andb_true_iff in H as [H1%Z.leb_le H2%Z.leb_le]. unfold_bounds. lia.
Qed.

(** Discharges closed bounds by evaluation. *)
Ltac solve_closed :=
  repeat split; try (apply wf_bytesb_sound); vm_compute; first [reflexivity | discriminate].

(** Splits conjunctions, and neither equivalences nor definitions. *)
Ltac split_conj := repeat match goal with |- _ /\ _ => split end.

(** A property of bytes checked by enumeration. *)
Lemma u8_forall (P : Z -> bool) :
  forallb P (seqZ 0 256) = true -> forall b, is_u8 b -> P b = true.
Proof.
  rewrite forallb_forall. intros H b Hb. apply H. apply list_elem_of_In, elem_of_seqZ.
  unfold_bounds. lia.
Qed.

(** A filter that keeps everything. *)
Lemma filter_all {A} (P : A -> Prop) `{forall x, Decision (P x)} (l : list A) :
  (forall x, x ∈ l -> P x) -> filter P l = l.
Proof.
  induction l as [|x l IH]; intros Hall; [done|]. rewrite filter_cons_True by (apply Hall; left).
  f_equal. apply IH. intros y Hy. apply Hall. by right.
Qed.
