(* ===== verification/Tlv.v ===== *)
(** * The NDN TLV codec ([crates/core/ndn-tlv])

    VAR-NUMBERs ([read_varu64], [write_varu64], [varu64_size] of [lib.rs]), the
    cursor reader ([TlvReader], [reader.rs]) and the append-only writer
    ([TlvWriter], [tlv_size], [writer.rs]).

    A reader method takes the reader and returns the result together with the
    reader after the call.  [Bytes] slices share their allocation in the code;
    the model returns the bytes of the slice. *)

From S2P Require Import Prelude.
#[local] Open Scope Z_scope.

(** [TlvError] of [error.rs].  The field name of [MissingField] is a static
    string, kept as the bytes of the string. *)
Inductive TlvError : Type :=
| UnexpectedEof
| UnknownCriticalType (typ : Z)
| InvalidLength (typ expected got : Z)
| InvalidUtf8 (typ : Z)
| MissingField (name : bytes)
| DuplicateField (typ : Z)
| NonMinimalVarNumber
| TypeOutOfRange.

#[export] Instance TlvError_eq_dec : EqDecision TlvError.
Proof. solve_decision. Defined.

(** ** VAR-NUMBERs *)

Definition read_varu64 (buf : bytes) : result (Z * Z) TlvError :=
  match buf with
  | [] => Err UnexpectedEof
  | first :: _ =>
      if first <=? 252 then Ok (first, 1)
      else if first =? 253 then
        if zlen buf <? 3 then Err UnexpectedEof
        else let v := be_decode (slice buf 1 3) in
             if v <? 253 then Err NonMinimalVarNumber else Ok (v, 3)
      else if first =? 254 then
        if zlen buf <? 5 then Err UnexpectedEof
        else let v := be_decode (slice buf 1 5) in
             if v <? 0x10000 then Err NonMinimalVarNumber else Ok (v, 5)
      else
        if zlen buf <? 9 then Err UnexpectedEof
        else let v := be_decode (slice buf 1 9) in
             if v <? 0x100000000 then Err NonMinimalVarNumber else Ok (v, 9)
  end.

(** [buf[i..i + src.len()].copy_from_slice(src)]; [None] is the panic on an
    out-of-range index. *)
Definition copy_at (buf : bytes) (i : Z) (src : bytes) : option bytes :=
  if i + zlen src <=? zlen buf
  then Some (take (Z.to_nat i) buf ++ src ++ drop (Z.to_nat (i + zlen src)) buf)
  else None.

(** [write_varu64]: the buffer after the call and the bytes written; [None] is
    a panic (the buffer is too short). *)
Definition write_varu64 (buf : bytes) (value : Z) : option (bytes * Z) :=
  if value <? 253 then
    let! b := copy_at buf 0 [wrap 8 value] in Some (b, 1)
  else if value <? 0x10000 then
    let! b := copy_at buf 0 [0xFD] in
    let! b := copy_at b 1 (be_encode 2 (wrap 16 value)) in Some (b, 3)
  else if value <? 0x100000000 then
    let! b := copy_at buf 0 [0xFE] in
    let! b := copy_at b 1 (be_encode 4 (wrap 32 value)) in Some (b, 5)
  else
    let! b := copy_at buf 0 [0xFF] in
    let! b := copy_at b 1 (be_encode 8 value) in Some (b, 9).

Definition varu64_size (value : Z) : Z :=
  if value <? 253 then 1
  else if value <? 0x10000 then 3
  else if value <? 0x100000000 then 5
  else 9.

(** ** Reader *)

Module TlvReader.

Record TlvReader : Type := mk { buf : bytes; pos : Z }.

Definition new (b : bytes) : TlvReader := mk b 0.

Definition remaining (r : TlvReader) : Z := zlen (buf r) - pos r.

Definition is_empty (r : TlvReader) : bool := zlen (buf r) <=? pos r.

Definition position (r : TlvReader) : Z := pos r.

Definition set_pos (r : TlvReader) (p : Z) : TlvReader := mk (buf r) p.

Definition read_type : SM TlvReader TlvError Z := fun r =>
  match read_varu64 (slice_from_ (buf r) (pos r)) with
  | Err e => (Err e, r)
  | Ok (v, n) =>
      if (n =? 9) || (u32_max <? v) then (Err TypeOutOfRange, r)
      else (Ok v, set_pos r (pos r + n))
  end.

Definition read_length : SM TlvReader TlvError Z := fun r =>
  match read_varu64 (slice_from_ (buf r) (pos r)) with
  | Err e => (Err e, r)
  | Ok (v, n) =>
      let r := set_pos r (pos r + n) in
      if remaining r <? v then (Err UnexpectedEof, r) else (Ok v, r)
  end.

Definition read_bytes (len : Z) : SM TlvReader TlvError bytes := fun r =>
  match checked_add (pos r) len with
  | None => (Err UnexpectedEof, r)
  | Some end_ =>
      if zlen (buf r) <? end_ then (Err UnexpectedEof, r)
      else (Ok (slice (buf r) (pos r) end_), set_pos r end_)
  end.

Definition read_tlv : SM TlvReader TlvError (Z * bytes) :=
  do? typ := read_type in
  do? len := read_length in
  do? val := read_bytes len in
  sm_ret (typ, val).

Definition peek_type (r : TlvReader) : result Z TlvError :=
  let? (v, _) := read_varu64 (slice_from_ (buf r) (pos r)) in Ok v.

Definition skip_unknown (typ : Z) : SM TlvReader TlvError unit :=
  if (typ <=? 31) || (Z.land typ 1 =? 1) then sm_err (UnknownCriticalType typ)
  else
    do? len := read_length in
    fun r =>
      match checked_add (pos r) len with
      | None => (Err UnexpectedEof, r)
      | Some end_ =>
          if zlen (buf r) <? end_ then (Err UnexpectedEof, r)
          else (Ok tt, set_pos r end_)
      end.

Definition scoped (len : Z) : SM TlvReader TlvError TlvReader :=
  do? s := read_bytes len in sm_ret (new s).

Definition as_bytes (r : TlvReader) : bytes := slice_from_ (buf r) (pos r).

(** The cursor stays inside the buffer, whose length fits [usize] and whose
    elements are bytes: what makes every slice the reader takes in range. *)
Definition wf (r : TlvReader) : Prop :=
  wf_bytes (buf r) /\ 0 <= pos r <= zlen (buf r) /\ zlen (buf r) <= usize_max.

End TlvReader.

(** ** Writer *)

Module TlvWriter.

Record TlvWriter : Type := mk { buf : bytes }.

Definition new : TlvWriter := mk [].

(** The 9-byte scratch array holds every VAR-NUMBER, so the panic branch is
    dead ([write_varu64_total] below). *)
Definition write_varu64_inner (w : TlvWriter) (value : Z) : TlvWriter :=
  match write_varu64 (replicate 9 0) value with
  | Some (tmp, n) => mk (buf w ++ take (Z.to_nat n) tmp)
  | None => w
  end.

Definition write_tlv (w : TlvWriter) (typ : Z) (value : bytes) : TlvWriter :=
  let w := write_varu64_inner w typ in
  let w := write_varu64_inner w (zlen value) in
  mk (buf w ++ value).

Definition write_nested (w : TlvWriter) (typ : Z) (f : TlvWriter -> TlvWriter) : TlvWriter :=
  let inner := f new in
  let inner_bytes := buf inner in
  let w := write_varu64_inner w typ in
  let w := write_varu64_inner w (zlen inner_bytes) in
  mk (buf w ++ inner_bytes).

Definition write_varu64 (w : TlvWriter) (value : Z) : TlvWriter := write_varu64_inner w value.

Definition write_raw (w : TlvWriter) (data : bytes) : TlvWriter := mk (buf w ++ data).

Definition slice_from (w : TlvWriter) (start : Z) : bytes := slice_from_ (buf w) start.

Definition finish (w : TlvWriter) : bytes := buf w.

Definition len (w : TlvWriter) : Z := zlen (buf w).

Definition is_empty (w : TlvWriter) : bool := zlen (buf w) =? 0.

End TlvWriter.

Definition tlv_size (typ value_len : Z) : Z :=
  varu64_size typ + varu64_size value_len + value_len.

(** ** Specification of the wire form *)

(** The minimal VAR-NUMBER form of a value. *)
Definition varu64_bytes (v : Z) : bytes :=
  if v <? 253 then [v]
  else if v <? 0x10000 then 0xFD :: be_encode 2 v
  else if v <? 0x100000000 then 0xFE :: be_encode 4 v
  else 0xFF :: be_encode 8 v.

(** One TLV element. *)
Definition tlv_bytes (typ : Z) (value : bytes) : bytes :=
  varu64_bytes typ ++ varu64_bytes (zlen value) ++ value.

Lemma zlen_varu64_bytes v : zlen (varu64_bytes v) = varu64_size v.
Proof. unfold varu64_bytes, varu64_size. bcase; zlen_norm; lia. Qed.
#[export] Hint Rewrite zlen_varu64_bytes : zlen.

Lemma varu64_size_range v : 1 <= varu64_size v <= 9.
Proof. unfold varu64_size. bcase; lia. Qed.

Lemma varu64_bytes_nonempty v : varu64_bytes v <> [].
Proof. unfold varu64_bytes. by bcase. Qed.

Lemma wf_varu64_bytes v : 0 <= v -> wf_bytes (varu64_bytes v).
Proof.
  intros. unfold varu64_bytes.
  bcase; (apply Forall_cons; split; [unfold_bounds; lia|]); first [apply Forall_nil_2 | apply wf_be_encode].
Qed.
#[export] Hint Resolve wf_varu64_bytes : ndn.

Lemma copy_at_0 buf src :
  zlen src <= zlen buf -> copy_at buf 0 src = Some (src ++ drop (length src) buf).
Proof.
  intros. unfold copy_at. rewrite Z.add_0_l. bcase; [|lia].
  simpl. unfold zlen. by rewrite Nat2Z.id.
Qed.

Lemma copy_at_1 b buf src :
  zlen src <= zlen buf ->
  copy_at (b :: buf) 1 src = Some (b :: src ++ drop (length src) buf).
Proof.
  intros. unfold copy_at. rewrite zlen_cons. bcase; [|lia].
  change (Z.to_nat 1) with 1%nat. unfold zlen.
  replace (Z.to_nat (1 + Z.of_nat (length src))) with (S (length src)) by lia. done.
Qed.

(** [write_varu64] leaves the minimal form at the head of the buffer, keeps
    the rest, and never panics on a 9-byte buffer. *)
Lemma write_varu64_total buf v :
  is_u64 v -> 9 <= zlen buf ->
  write_varu64 buf v
  = Some (varu64_bytes v ++ drop (Z.to_nat (varu64_size v)) buf, varu64_size v).
Proof.
  intros Hv Hl. unfold_bounds. unfold write_varu64, varu64_bytes, varu64_size, wrap.
  destruct buf as [|b0 buf]; [zlen_lia|]. rewrite zlen_cons in Hl.
  bcase; rewrite copy_at_0 by zlen_lia; simpl;
    rewrite ?copy_at_1 by (rewrite ?zlen_be_encode, ?drop_0; simpl; lia);
    rewrite ?length_be_encode, ?drop_0, ?Z.mod_small by lia; done.
Qed.

Lemma slice_cons_app (f : Z) (bs rest : bytes) a :
  a = 1 + zlen bs -> slice (f :: bs ++ rest) 1 a = bs.
Proof. intros ->. apply (slice_mid [f] bs rest); done. Qed.

Lemma read_varu64_bytes v rest :
  is_u64 v -> read_varu64 (varu64_bytes v ++ rest) = Ok (v, varu64_size v).
Proof.
  intros Hv. unfold_bounds. pose proof (zlen_nonneg rest).
  assert (forall k, 0 <= v < 256 ^ Z.of_nat k -> be_decode (be_encode k v) = v) as Hd
    by (intros k ?; rewrite be_decode_encode; by apply Z.mod_small).
  unfold varu64_bytes, varu64_size.
  repeat bcase_step; cbn [app]; unfold read_varu64; [bcase; (done || lia)|..];
    cbn [Z.leb Z.eqb Z.compare Pos.compare Pos.compare_cont Pos.eqb];
    rewrite zlen_cons, zlen_app, zlen_be_encode;
    (rewrite slice_cons_app by (rewrite zlen_be_encode; done));
    rewrite Hd by lia; repeat bcase_step; first [done | lia].
Qed.

(** The payload of a wide form of [k] bytes behind the marker byte [b]. *)
Lemma wide_payload b buf k :
  wf_bytes buf -> 1 <= k -> k <= zlen buf ->
  slice (b :: buf) 1 (1 + k) = take (Z.to_nat k) buf /\
  0 <= be_decode (take (Z.to_nat k) buf) < 256 ^ k /\
  be_encode (Z.to_nat k) (be_decode (take (Z.to_nat k) buf)) = take (Z.to_nat k) buf.
Proof.
  intros Hwf Hk1 Hk2.
  assert (length (take (Z.to_nat k) buf) = Z.to_nat k) as Hlen
    by (rewrite length_take; unfold zlen in Hk2; lia).
  assert (wf_bytes (take (Z.to_nat k) buf)) as Hwt by by apply Forall_take.
  split; [|split].
  - unfold slice. change (Z.to_nat 1) with 1%nat. simpl. f_equal. lia.
  - pose proof (be_decode_bound _ Hwt) as Hd. unfold zlen in Hd.
    by rewrite Hlen, Z2Nat.id in Hd by lia.
  - pose proof (be_encode_decode _ Hwt) as He. by rewrite Hlen in He.
Qed.

(** One wide branch of [read_varu64]: [k] payload bytes, at least [lo]. *)
Lemma wide_branch b buf k lo v n :
  wf_bytes buf -> 1 <= k ->
  (if 1 + zlen buf <? 1 + k then Err UnexpectedEof
   else let v := be_decode (slice (b :: buf) 1 (1 + k)) in
        if v <? lo then Err NonMinimalVarNumber else Ok (v, 1 + k)) = Ok (v, n) ->
  n = 1 + k /\ lo <= v < 256 ^ k /\
  b :: buf = b :: be_encode (Z.to_nat k) v ++ drop (Z.to_nat n) (b :: buf).
Proof.
  intros Hwf Hk. destruct (Z.ltb_spec (1 + zlen buf) (1 + k)); [done|].
  destruct (wide_payload b buf k) as (-> & Hr & Hd); [done|lia..|]. cbn zeta.
  destruct (Z.ltb_spec (be_decode (take (Z.to_nat k) buf)) lo); [done|]. intros [= <- <-].
  split_and!; try lia. rewrite Hd. replace (Z.to_nat (1 + k)) with (S (Z.to_nat k)) by lia.
  simpl. by rewrite take_drop.
Qed.

(** The converse: whatever [read_varu64] accepts is the minimal form. *)
Lemma read_varu64_canonical buf v n :
  wf_bytes buf -> read_varu64 buf = Ok (v, n) ->
  is_u64 v /\ n = varu64_size v /\ buf = varu64_bytes v ++ drop (Z.to_nat n) buf.
Proof.
  intros Hwf. unfold read_varu64.
  destruct buf as [|b buf]; [done|].
  apply Forall_cons in Hwf as [Hb Hwf]. unfold_bounds.
  rewrite zlen_cons. unfold varu64_bytes, varu64_size.
  pose proof (fun k lo => wide_branch b buf k lo v n Hwf) as Hw.
  destruct (Z.leb_spec b 252);
    [intros [= <- <-]; repeat bcase_step; split_and!; (done || lia)|].
  destruct (Z.eqb_spec b 253) as [->|]; [|destruct (Z.eqb_spec b 254) as [->|]; [|assert (b = 255) as -> by lia]].
  - intros (-> & Hv & Heq)%(Hw 2); [|lia]. repeat bcase_step; split_and!; (done || lia).
  - intros (-> & Hv & Heq)%(Hw 4); [|lia]. repeat bcase_step; split_and!; (done || lia).
  - intros (-> & Hv & Heq)%(Hw 8); [|lia]. repeat bcase_step; split_and!; (done || lia).
Qed.

(** ** The writer emits the wire form *)

Section writer.
Import TlvWriter.

Lemma buf_write_varu64_inner w v :
  is_u64 v -> buf (write_varu64_inner w v) = buf w ++ varu64_bytes v.
Proof.
  intros Hv. unfold write_varu64_inner.
  rewrite (write_varu64_total (replicate 9 0)) by done. simpl. f_equal.
  apply take_0_app. pose proof (zlen_varu64_bytes v). unfold zlen in *. lia.
Qed.

Lemma buf_write_tlv w typ value :
  is_u64 typ -> zlen value <= u64_max ->
  buf (write_tlv w typ value) = buf w ++ tlv_bytes typ value.
Proof.
  intros. pose proof (zlen_nonneg value). unfold write_tlv, tlv_bytes. simpl.
  rewrite !buf_write_varu64_inner by (unfold is_u64 in *; lia). by rewrite <- !app_assoc.
Qed.

Lemma buf_write_nested w typ f :
  is_u64 typ -> zlen (buf (f new)) <= u64_max ->
  buf (write_nested w typ f) = buf w ++ tlv_bytes typ (buf (f new)).
Proof. apply buf_write_tlv. Qed.

End writer.

Lemma zlen_tlv_bytes typ value : zlen (tlv_bytes typ value) = tlv_size typ (zlen value).
Proof. unfold tlv_bytes, tlv_size. zlen_norm. lia. Qed.
#[export] Hint Rewrite zlen_tlv_bytes : zlen.

Lemma tlv_size_bounds typ n : 0 <= n -> n + 2 <= tlv_size typ n <= n + 18.
Proof.
  intros. unfold tlv_size. pose proof (varu64_size_range typ). pose proof (varu64_size_range n). lia.
Qed.

Lemma wf_tlv_bytes typ value : 0 <= typ -> wf_bytes value -> wf_bytes (tlv_bytes typ value).
Proof.
  intros. unfold tlv_bytes. rewrite !wf_bytes_app. split_and!; auto with ndn.
Qed.
#[export] Hint Resolve wf_tlv_bytes : ndn.

(** ** The reader and the wire form *)

Section reader.
Import TlvReader.

(** What the reader has not consumed yet, after a VAR-NUMBER. *)
Lemma slice_from_add (l : bytes) p n :
  0 <= p -> 0 <= n -> slice_from_ l (p + n) = drop (Z.to_nat n) (slice_from_ l p).
Proof. intros. unfold slice_from_. rewrite drop_drop. f_equal. lia. Qed.

Lemma zlen_slice_from (l : bytes) p : 0 <= p <= zlen l -> zlen (slice_from_ l p) = zlen l - p.
Proof. intros. unfold slice_from_. zlen_lia. Qed.

(** Reading one VAR-NUMBER of a well-formed reader. *)
Lemma read_varu64_at r v n :
  wf r -> read_varu64 (as_bytes r) = Ok (v, n) ->
  is_u64 v /\ n = varu64_size v /\ 1 <= n /\ n <= remaining r /\
  as_bytes r = varu64_bytes v ++ as_bytes (set_pos r (pos r + n)) /\
  wf (set_pos r (pos r + n)).
Proof.
  intros (Hb & Hp & Hl) Hr.
  pose proof (read_varu64_canonical _ _ _ (wf_bytes_slice_from _ _ Hb) Hr) as (Hv & -> & Heq).
  pose proof (varu64_size_range v). pose proof (zlen_varu64_bytes v).
  assert (varu64_size v <= remaining r).
  { unfold remaining. rewrite <- (zlen_slice_from (buf r) (pos r)) by done.
    rewrite Heq, zlen_app. zlen_lia. }
  split_and!; try done; try lia.
  - rewrite Heq at 1. unfold as_bytes. simpl. by rewrite slice_from_add by lia.
  - unfold wf, remaining in *. simpl. split_and!; [done|lia..].
Qed.

(** Every method keeps the cursor in range, on its error branches too: no
    slice the reader takes can be out of bounds. *)
Lemma read_type_wf r : wf r -> wf (read_type r).2.
Proof.
  intros Hr. unfold read_type.
  destruct (read_varu64 _) as [[v n]|] eqn:Hv; [|done].
  destruct (_ || _); [done|]. by apply read_varu64_at in Hv as (_ & _ & _ & _ & _ & ?).
Qed.

Lemma read_length_wf r : wf r -> wf (read_length r).2.
Proof.
  intros Hr. unfold read_length.
  destruct (read_varu64 _) as [[v n]|] eqn:Hv; [|done].
  apply read_varu64_at in Hv as (_ & _ & _ & _ & _ & ?); [|done]. by destruct (_ <? _).
Qed.

Lemma set_pos_end_wf r len :
  wf r -> 0 <= len -> (zlen (buf r) <? pos r + len) = false -> wf (set_pos r (pos r + len)).
Proof. intros (? & ? & ?) ? ?%Z.ltb_ge. unfold wf. simpl. split_and!; [done|lia..]. Qed.

Lemma read_bytes_wf r len : wf r -> 0 <= len -> wf (read_bytes len r).2.
Proof.
  intros Hr Hl. unfold read_bytes, checked_add. destruct (_ <=? _); [|done].
  destruct (zlen (buf r) <? pos r + len) eqn:E; [done|]. by apply set_pos_end_wf.
Qed.

Lemma sm_bind_state {S E A B} (P : S -> Prop) (m : SM S E A) (k : A -> SM S E B) s :
  P (m s).2 -> (forall a, (m s).1 = Ok a -> P (m s).2 -> P (k a (m s).2).2) ->
  P (sm_bind m k s).2.
Proof. unfold sm_bind. destruct (m s) as [[a|e] s']; naive_solver. Qed.

Lemma read_length_nonneg r v : wf r -> (read_length r).1 = Ok v -> 0 <= v.
Proof.
  intros Hr. unfold read_length.
  destruct (read_varu64 _) as [[v' n]|] eqn:Hv; [|done].
  apply read_varu64_at in Hv as (? & _); [|done]. unfold_bounds.
  destruct (_ <? _); simpl; [done|]. intros [= <-]. lia.
Qed.

Lemma read_tlv_wf r : wf r -> wf (read_tlv r).2.
Proof.
  intros Hr. unfold read_tlv.
  apply sm_bind_state; [by apply read_type_wf|]. intros typ _ Hr1.
  apply sm_bind_state; [by apply read_length_wf|]. intros len Hlen Hr2.
  apply sm_bind_state; [|done]. apply read_bytes_wf; [done|]. exact (read_length_nonneg _ _ Hr1 Hlen).
Qed.

Lemma skip_unknown_wf r typ : wf r -> wf (skip_unknown typ r).2.
Proof.
  intros Hr. unfold skip_unknown. destruct (_ || _); [done|].
  apply sm_bind_state; [by apply read_length_wf|]. intros len Hlen Hr2.
  unfold checked_add. destruct (_ <=? _); [|done].
  destruct (zlen _ <? _) eqn:E; [done|].
  apply set_pos_end_wf; [done| |done]. exact (read_length_nonneg _ _ Hr Hlen).
Qed.

Lemma is_empty_spec r : wf r -> is_empty r = true <-> as_bytes r = [].
Proof.
  intros (_ & Hp & _). unfold is_empty, as_bytes. rewrite Z.leb_le. split; intros H.
  - apply zlen_0_nil. rewrite zlen_slice_from; lia.
  - apply (f_equal zlen) in H. rewrite zlen_slice_from, zlen_nil in H by done. lia.
Qed.

Lemma new_wf b : wf_bytes b -> zlen b <= usize_max -> wf (new b).
Proof. intros. unfold wf, new. simpl. split_and!; [done|zlen_lia..]. Qed.

Lemma as_bytes_new b : as_bytes (new b) = b.
Proof. done. Qed.

Lemma zlen_as_bytes r : wf r -> zlen (as_bytes r) <= usize_max.
Proof. intros (_ & ? & ?). unfold as_bytes. rewrite zlen_slice_from; lia. Qed.

(** Moving the cursor of a well-formed reader over a prefix of what is left. *)
Lemma advance r pre rest :
  wf r -> as_bytes r = pre ++ rest ->
  as_bytes (set_pos r (pos r + zlen pre)) = rest /\ wf (set_pos r (pos r + zlen pre)) /\
  zlen pre <= remaining r.
Proof.
  intros (Hb & Hp & Hl) Heq. pose proof (zlen_nonneg pre). pose proof (zlen_nonneg rest).
  assert (zlen (buf r) - pos r = zlen pre + zlen rest) as Hlen.
  { rewrite <- zlen_app, <- Heq. unfold as_bytes. by rewrite zlen_slice_from. }
  split; [|split].
  - unfold as_bytes in *. simpl. rewrite slice_from_add, Heq by lia.
    apply drop_0_app. unfold zlen. lia.
  - unfold wf. simpl. split_and!; [done|lia..].
  - unfold remaining. lia.
Qed.

Lemma read_type_ok r t rest :
  wf r -> is_u32 t -> as_bytes r = varu64_bytes t ++ rest ->
  read_type r = (Ok t, set_pos r (pos r + varu64_size t)).
Proof.
  intros Hr Ht Heq. unfold read_type. fold (as_bytes r).
  rewrite Heq, read_varu64_bytes by (unfold_bounds; lia).
  unfold_bounds. replace (varu64_size t =? 9) with false
    by (symmetry; unfold varu64_size; repeat bcase_step; lia).
  by destruct (Z.ltb_spec (2 ^ 32 - 1) t); [lia|].
Qed.

Lemma read_length_ok r n rest :
  wf r -> is_u64 n -> n <= zlen rest -> as_bytes r = varu64_bytes n ++ rest ->
  read_length r = (Ok n, set_pos r (pos r + varu64_size n)).
Proof.
  intros Hr Hn Hle Heq. unfold read_length. fold (as_bytes r).
  rewrite Heq, read_varu64_bytes by done.
  destruct (advance _ _ _ Hr Heq) as (Has & (_ & Hp & _) & _). rewrite zlen_varu64_bytes in *.
  rewrite <- Has in Hle. unfold as_bytes in Hle. simpl in Hle, Hp.
  rewrite zlen_slice_from in Hle by done. unfold remaining. simpl.
  by destruct (Z.ltb_spec (zlen (buf r) - (pos r + varu64_size n)) n); [lia|].
Qed.

Lemma read_bytes_ok r v rest :
  wf r -> as_bytes r = v ++ rest ->
  read_bytes (zlen v) r = (Ok v, set_pos r (pos r + zlen v)).
Proof.
  intros Hr Heq. destruct (advance _ _ _ Hr Heq) as (_ & _ & Hle).
  destruct Hr as (Hb & Hp & Hl). unfold remaining in Hle. pose proof (zlen_nonneg v).
  unfold read_bytes, checked_add.
  destruct (Z.leb_spec (pos r + zlen v) usize_max); [|lia].
  destruct (Z.ltb_spec (zlen (buf r)) (pos r + zlen v)); [lia|].
  repeat f_equal. unfold slice. fold (slice_from_ (buf r) (pos r)).
  unfold as_bytes in Heq. rewrite Heq. apply take_0_app. unfold zlen. lia.
Qed.

(** A successful [read_bytes] returns the next [len] bytes. *)
Lemma read_bytes_inv r len v r' :
  wf r -> 0 <= len -> read_bytes len r = (Ok v, r') ->
  as_bytes r = v ++ as_bytes r' /\ wf r' /\ zlen v = len.
Proof.
  intros Hr Hlen H. pose proof (read_bytes_wf r len Hr Hlen) as Hwf. rewrite H in Hwf.
  revert H. unfold read_bytes, checked_add. destruct (_ <=? _); [|done].
  destruct (Z.ltb_spec (zlen (buf r)) (pos r + len)); [done|]. intros [= <- <-].
  destruct Hr as (_ & Hp & _). split_and!; [|done|].
  - unfold as_bytes. simpl. rewrite slice_from_add by lia. unfold slice.
    replace (pos r + len - pos r) with len by lia. by rewrite take_drop.
  - rewrite zlen_slice; lia.
Qed.

Lemma read_type_inv r t r' :
  wf r -> read_type r = (Ok t, r') ->
  is_u32 t /\ as_bytes r = varu64_bytes t ++ as_bytes r' /\ wf r'.
Proof.
  intros Hr. unfold read_type. fold (as_bytes r).
  destruct (read_varu64 (as_bytes r)) as [[v n]|] eqn:Hv; [|done].
  apply read_varu64_at in Hv as (? & -> & _ & _ & Heq & ?); [|done].
  destruct (_ || _) eqn:E; [done|]. apply orb_false_iff in E as [_ E%Z.ltb_ge].
  intros [= <- <-]. unfold_bounds. split_and!; (done || lia).
Qed.

Lemma read_length_inv r n r' :
  wf r -> read_length r = (Ok n, r') ->
  0 <= n /\ as_bytes r = varu64_bytes n ++ as_bytes r' /\ wf r'.
Proof.
  intros Hr. unfold read_length. fold (as_bytes r).
  destruct (read_varu64 (as_bytes r)) as [[v k]|] eqn:Hv; [|done].
  apply read_varu64_at in Hv as (? & -> & _ & _ & Heq & ?); [|done].
  destruct (_ <? _); [done|]. intros [= <- <-]. unfold_bounds. split_and!; (done || lia).
Qed.

Lemma read_tlv_ok r t v rest :
  wf r -> is_u32 t -> as_bytes r = tlv_bytes t v ++ rest ->
  exists r', read_tlv r = (Ok (t, v), r') /\ as_bytes r' = rest /\ wf r'.
Proof.
  unfold tlv_bytes. rewrite <- !app_assoc. intros Hr Ht Heq.
  destruct (advance _ _ _ Hr Heq) as (H1 & W1 & _). rewrite zlen_varu64_bytes in *.
  destruct (advance _ _ _ W1 H1) as (H2 & W2 & L2). rewrite zlen_varu64_bytes in *.
  destruct (advance _ _ _ W2 H2) as (H3 & W3 & _).
  pose proof (zlen_nonneg v). pose proof (zlen_nonneg rest).
  assert (is_u64 (zlen v)).
  { pose proof (zlen_as_bytes _ Hr) as Hl. rewrite Heq in Hl.
    pose proof (varu64_size_range t). pose proof (varu64_size_range (zlen v)). zlen_lia. }
  unfold read_tlv, sm_bind. rewrite (read_type_ok r t _ Hr Ht Heq).
  rewrite (read_length_ok _ (zlen v) (v ++ rest) W1) by (done || zlen_lia).
  rewrite (read_bytes_ok _ v rest W2 H2). unfold sm_ret. eauto.
Qed.

Lemma read_tlv_inv r t v r' :
  wf r -> read_tlv r = (Ok (t, v), r') ->
  as_bytes r = tlv_bytes t v ++ as_bytes r' /\ is_u32 t /\ wf r'.
Proof.
  intros Hr. unfold read_tlv, sm_bind, sm_ret.
  destruct (read_type r) as [[t'|] r1] eqn:E1; [|done].
  destruct (read_type_inv _ _ _ Hr E1) as (? & H1 & W1).
  destruct (read_length r1) as [[n|] r2] eqn:E2; [|done].
  destruct (read_length_inv _ _ _ W1 E2) as (? & H2 & W2).
  destruct (read_bytes n r2) as [[v'|] r3] eqn:E3; [|done].
  destruct (read_bytes_inv _ _ _ _ W2 ltac:(done) E3) as (H3 & W3 & <-).
  intros [= <- <- <-]. split_and!; try done.
  rewrite H1, H2, H3. unfold tlv_bytes. by rewrite <- !app_assoc.
Qed.

Lemma as_bytes_wf r : wf r -> wf_bytes (as_bytes r).
Proof. intros (Hb & _ & _). by apply wf_bytes_slice_from. Qed.

Lemma read_tlv_value_wf r t v r' : wf r -> read_tlv r = (Ok (t, v), r') -> wf_bytes v.
Proof.
  intros Hr H. pose proof (as_bytes_wf r Hr) as Hb.
  destruct (read_tlv_inv _ _ _ _ Hr H) as (Heq & _ & _). rewrite Heq in Hb.
  unfold tlv_bytes in Hb. rewrite !wf_bytes_app in Hb. tauto.
Qed.

(** An element takes at least two bytes: what bounds the decoding loops. *)
Lemma read_tlv_shorter r t v r' :
  wf r -> read_tlv r = (Ok (t, v), r') ->
  (length (as_bytes r') + 2 <= length (as_bytes r))%nat.
Proof.
  intros Hr H. destruct (read_tlv_inv _ _ _ _ Hr H) as (-> & _ & _).
  pose proof (zlen_tlv_bytes t v). pose proof (tlv_size_bounds t (zlen v) (zlen_nonneg v)).
  pose proof (zlen_nonneg v). rewrite length_app. unfold zlen in *. lia.
Qed.

End reader.

Lemma tlv_bytes_nonempty t v rest : tlv_bytes t v ++ rest <> [].
Proof. unfold tlv_bytes. pose proof (varu64_bytes_nonempty t). by destruct (varu64_bytes t). Qed.

(** ** The wire form is self-delimiting *)

Lemma varu64_bytes_inj_app v v' r r' :
  is_u64 v -> is_u64 v' -> varu64_bytes v ++ r = varu64_bytes v' ++ r' -> v = v' /\ r = r'.
Proof.
  intros Hv Hv' H. pose proof (read_varu64_bytes v r Hv) as H1.
  rewrite H, read_varu64_bytes in H1 by done. injection H1 as -> _. by simplify_list_eq.
Qed.

Lemma tlv_bytes_inj_app t v r t' v' r' :
  is_u64 t -> is_u64 t' -> zlen v <= u64_max -> zlen v' <= u64_max ->
  tlv_bytes t v ++ r = tlv_bytes t' v' ++ r' -> t = t' /\ v = v' /\ r = r'.
Proof.
  intros ???? H. pose proof (zlen_nonneg v). pose proof (zlen_nonneg v').
  unfold tlv_bytes in H. rewrite <- !app_assoc in H.
  apply varu64_bytes_inj_app in H as [-> H]; [|done..].
  apply varu64_bytes_inj_app in H as [Hl H]; [|split; lia..].
  apply app_inj_1 in H as [-> ->]; [done|]. unfold zlen in Hl. lia.
Qed.

(** ** Properties *)

(** [write_varu64] and [read_varu64] are inverse on every [u64]: written at
    the head of any buffer of at least 9 bytes, with whatever the buffer held
    behind it, the value reads back with exactly the number of bytes written,
    which is [varu64_size]; the write never panics. *)
Theorem varu64_roundtrip (buf : bytes) (v : Z) :
  is_u64 v -> 9 <= zlen buf ->
  exists buf', write_varu64 buf v = Some (buf', varu64_size v) /\
    zlen buf' = zlen buf /\
    read_varu64 buf' = Ok (v, varu64_size v) /\
    read_varu64 (take (Z.to_nat (varu64_size v)) buf') = Ok (v, varu64_size v).
Proof.
  intros Hv Hl. rewrite write_varu64_total by done. eexists. split; [done|].
  pose proof (varu64_size_range v).
  split_and!; [zlen_lia|by apply read_varu64_bytes|].
  rewrite take_0_app by (pose proof (zlen_varu64_bytes v); unfold zlen in *; lia).
  rewrite <- (app_nil_r (varu64_bytes v)). by apply read_varu64_bytes.
Qed.

Lemma varu64_roundtrip_witness :
  exists buf', write_varu64 (replicate 9 7) 65536 = Some (buf', varu64_size 65536) /\
    zlen buf' = zlen (replicate 9 7) /\
    read_varu64 buf' = Ok (65536, varu64_size 65536) /\
    read_varu64 (take (Z.to_nat (varu64_size 65536)) buf') = Ok (65536, varu64_size 65536).
Proof. apply (varu64_roundtrip (replicate 9 7) 65536); [split; vm_compute; discriminate|vm_compute; discriminate]. Defined.

(** The reader accepts exactly the canonical encodings.  From a well-formed
    reader, [read_tlv] returns [(t, v)] and leaves [rest] unread if and only if
    the unread bytes are the minimal encoding of that element followed by
    [rest] and the type fits [u32]; so no element has a second accepted wire
    form, and every canonical element is accepted. *)
Theorem read_tlv_iff (r : TlvReader.TlvReader) (t : Z) (v rest : bytes) :
  TlvReader.wf r ->
  ((TlvReader.read_tlv r).1 = Ok (t, v) /\
   TlvReader.as_bytes (TlvReader.read_tlv r).2 = rest)
  <-> (TlvReader.as_bytes r = tlv_bytes t v ++ rest /\ is_u32 t).
Proof.
  intros Hr. split.
  - destruct (TlvReader.read_tlv r) as [o r'] eqn:E. simpl. intros [-> <-].
    by destruct (read_tlv_inv _ _ _ _ Hr E) as (? & ? & _).
  - intros [Heq Ht]. destruct (read_tlv_ok r t v rest Hr Ht Heq) as (r' & -> & ? & _). done.
Qed.

Lemma read_tlv_iff_witness :
  ((TlvReader.read_tlv (TlvReader.new [8; 2; 97; 98; 21; 0])).1 = Ok (8, [97; 98]) /\
   TlvReader.as_bytes (TlvReader.read_tlv (TlvReader.new [8; 2; 97; 98; 21; 0])).2 = [21; 0]).
Proof.
  apply (read_tlv_iff (TlvReader.new [8; 2; 97; 98; 21; 0]) 8 [97; 98] [21; 0]).
  - apply new_wf; [|vm_compute; discriminate].
    repeat (apply Forall_cons; split; [split; vm_compute; discriminate|]). apply Forall_nil_2.
  - split; [reflexivity|split; vm_compute; discriminate].
Defined.

(** Memory safety of the reader on hostile input.  Whatever the bytes and
    whatever the outcome, every method leaves the cursor inside the buffer and
    the buffer unchanged, so no slice it takes is out of range and no length
    field can make it read past the end. *)
Theorem reader_stays_in_bounds (r : TlvReader.TlvReader) (typ len : Z) :
  TlvReader.wf r -> 0 <= len ->
  TlvReader.wf (TlvReader.read_type r).2 /\
  TlvReader.wf (TlvReader.read_length r).2 /\
  TlvReader.wf (TlvReader.read_bytes len r).2 /\
  TlvReader.wf (TlvReader.read_tlv r).2 /\
  TlvReader.wf (TlvReader.skip_unknown typ r).2 /\
  (forall inner r', TlvReader.scoped len r = (Ok inner, r') -> TlvReader.wf inner /\ TlvReader.wf r').
Proof.
  intros Hr Hl. split_and!.
  - by apply read_type_wf.
  - by apply read_length_wf.
  - by apply read_bytes_wf.
  - by apply read_tlv_wf.
  - by apply skip_unknown_wf.
  - intros inner r'. unfold TlvReader.scoped, sm_bind, sm_ret.
    destruct (TlvReader.read_bytes len r) as [[v|] r1] eqn:E; [|done]. intros [= <- <-].
    destruct (read_bytes_inv _ _ _ _ Hr Hl E) as (Heq & Hw & _). split; [|done].
    pose proof (zlen_as_bytes _ Hr) as Hz. rewrite Heq, zlen_app in Hz.
    apply new_wf; [|zlen_lia]. destruct Hr as (Hb & _ & _).
    apply (wf_bytes_slice_from _ (TlvReader.pos r)) in Hb. unfold TlvReader.as_bytes in Heq.
    rewrite Heq in Hb. by apply wf_bytes_app in Hb as [? _].
Qed.

Lemma reader_stays_in_bounds_witness :
  TlvReader.wf (TlvReader.read_tlv (TlvReader.new [5; 255; 255; 255; 255; 255; 255; 255; 255; 255])).2.
Proof.
  refine (proj1 (proj2 (proj2 (proj2 (reader_stays_in_bounds
    (TlvReader.new [5; 255; 255; 255; 255; 255; 255; 255; 255; 255]) 0 0 _ _))))); [|lia].
  apply new_wf; [|vm_compute; discriminate].
  repeat (apply Forall_cons; split; [split; vm_compute; discriminate|]). apply Forall_nil_2.
Defined.
