(* ===== verification/Name.v ===== *)
(** * Names ([crates/core/ndn-foundation-types/src/name.rs])

    [NameComponent] and [Name], the canonical order, prefixes, and the TLV form
    of a name.  A [Name] is its component list (the [SmallVec] of the code).
    The URI form is in [NameUri]. *)

From S2P Require Import Prelude Tlv.
#[local] Open Scope Z_scope.

(** [tlv_type] of [lib.rs]. *)
Module tlv_type.
Definition NAME : Z := 0x07.
Definition GENERIC_NAME_COMPONENT : Z := 0x08.
Definition IMPLICIT_SHA256 : Z := 0x01.
Definition PARAMETERS_SHA256 : Z := 0x02.
Definition SEGMENT : Z := 0x32.
Definition KEYWORD : Z := 0x20.
Definition BYTE_OFFSET : Z := 0x34.
Definition VERSION : Z := 0x36.
Definition TIMESTAMP : Z := 0x38.
Definition SEQUENCE_NUM : Z := 0x3A.
Definition KEY_LOCATOR : Z := 0x1c.
Definition KEY_DIGEST : Z := 0x1d.
Definition SIGNATURE_VALUE : Z := 0x17.
End tlv_type.

(** [NameError(&'static str)]. *)
Inductive NameError : Type := NameErr (msg : string).

#[export] Instance NameError_eq_dec : EqDecision NameError.
Proof. solve_decision. Defined.

Record NameComponent : Type := mkComponent { typ : Z; value : bytes }.

#[export] Instance NameComponent_eq_dec : EqDecision NameComponent.
Proof. solve_decision. Defined.

#[export] Instance NameComponent_countable : Countable NameComponent.
Proof.
  refine (inj_countable' (fun c => (typ c, value c)) (fun p => mkComponent p.1 p.2) _).
  by intros [].
Defined.

(** [Name { components }]. *)
Abbreviation Name := (list NameComponent).

(** ** Ordering *)

(** [Ordering::then_with]. *)
Definition then_with (c d : comparison) : comparison :=
  match c with Eq => d | _ => c end.

(** [Ord::cmp] on slices and [Iterator::cmp]: lexicographic, a proper prefix
    is less. *)
Fixpoint lex_cmp {A} (cmp : A -> A -> comparison) (l k : list A) : comparison :=
  match l, k with
  | [], [] => Eq
  | [], _ :: _ => Lt
  | _ :: _, [] => Gt
  | x :: l, y :: k => then_with (cmp x y) (lex_cmp cmp l k)
  end.

Definition bytes_cmp : bytes -> bytes -> comparison := lex_cmp Z.compare.

Module NameComponent.
Definition cmp (a b : NameComponent) : comparison :=
  then_with (Z.compare (typ a) (typ b))
    (then_with (Z.compare (zlen (value a)) (zlen (value b)))
       (bytes_cmp (value a) (value b))).
End NameComponent.

(** ** NonNegativeInteger values *)

Definition encode_nonneg_integer (v : Z) : bytes :=
  let b := be_encode 8 v in
  if v <=? 0xFF then slice_from_ b 7
  else if v <=? 0xFFFF then slice_from_ b 6
  else if v <=? 0xFFFFFFFF then slice_from_ b 4
  else b.

(** [(val << 8) | b] at 64 bits: the shift drops the bits it pushes out. *)
Definition decode_nonnegative_integer (bs : bytes) : Z :=
  fold_left (fun val b => Z.lor (wrap 64 (Z.shiftl val 8)) b) bs 0.

Definition canonical_nonneg_integer (bs : bytes) : option Z :=
  if negb (bool_decide (zlen bs ∈ [1; 2; 4; 8])) then None
  else
    let v := decode_nonnegative_integer bs in
    if bool_decide (encode_nonneg_integer v = bs) then Some v else None.

(** ** Components *)

Module Component.

Definition new (t : Z) (v : bytes) : NameComponent := mkComponent t v.
Definition generic (v : bytes) : NameComponent := mkComponent tlv_type.GENERIC_NAME_COMPONENT v.
Definition keyword (v : bytes) : NameComponent := new tlv_type.KEYWORD v.
Definition byte_offset (offset : Z) : NameComponent :=
  new tlv_type.BYTE_OFFSET (encode_nonneg_integer offset).
Definition version (v : Z) : NameComponent := new tlv_type.VERSION (encode_nonneg_integer v).
Definition timestamp (ts : Z) : NameComponent := new tlv_type.TIMESTAMP (encode_nonneg_integer ts).
Definition sequence_num (seq : Z) : NameComponent :=
  new tlv_type.SEQUENCE_NUM (encode_nonneg_integer seq).

Definition as_typed (t : Z) (c : NameComponent) : option Z :=
  if typ c =? t then Some (decode_nonnegative_integer (value c)) else None.
Definition as_segment (c : NameComponent) : option Z := as_typed tlv_type.SEGMENT c.
Definition as_byte_offset (c : NameComponent) : option Z := as_typed tlv_type.BYTE_OFFSET c.
Definition as_version (c : NameComponent) : option Z := as_typed tlv_type.VERSION c.
Definition as_timestamp (c : NameComponent) : option Z := as_typed tlv_type.TIMESTAMP c.
Definition as_sequence_num (c : NameComponent) : option Z := as_typed tlv_type.SEQUENCE_NUM c.

End Component.

(** ** Names *)

Module NameOps.

Definition root : Name := [].

Definition cmp (a b : Name) : comparison := lex_cmp NameComponent.cmp a b.

Definition len (n : Name) : Z := zlen n.
Definition is_empty (n : Name) : bool := zlen n =? 0.

(** [iter().zip(..).all(|(a, b)| a == b)]. *)
Definition zip_all_eq (a b : Name) : bool :=
  forallb (fun p => bool_decide (p.1 = p.2)) (zip a b).

Definition has_prefix (self prefix : Name) : bool :=
  if len self <? len prefix then false else zip_all_eq self prefix.

(** The [while !reader.is_empty()] loop of [Name::decode]; [None] when [fuel]
    runs out.  Every turn consumes at least two bytes. *)
Fixpoint decode_loop (fuel : nat) (r : TlvReader.TlvReader) (components : Name)
    : option (result Name NameError) :=
  match fuel with
  | O => None
  | S fuel =>
      if TlvReader.is_empty r then Some (Ok components)
      else match TlvReader.read_tlv r with
           | (Err _, _) => Some (Err (NameErr "TLV read error"))
           | (Ok (t, v), r) => decode_loop fuel r (components ++ [Component.new t v])
           end
  end.

(** The number of bytes plus one is enough fuel ([decode_terminates]). *)
Definition decode (v : bytes) : result Name NameError :=
  match decode_loop (S (length v)) (TlvReader.new v) [] with
  | Some res => res
  | None => Err (NameErr "unreachable")
  end.

Definition append (n : Name) (v : bytes) : Name := n ++ [Component.generic v].
Definition append_component (n : Name) (c : NameComponent) : Name := n ++ [c].
Definition append_segment (n : Name) (seg : Z) : Name :=
  append_component n (Component.new tlv_type.SEGMENT (encode_nonneg_integer seg)).
Definition append_version (n : Name) (v : Z) : Name := append_component n (Component.version v).
Definition append_implicit_digest (n : Name) (digest : bytes) : Name :=
  append_component n (Component.new tlv_type.IMPLICIT_SHA256 digest).
Definition append_timestamp (n : Name) (ts : Z) : Name := append_component n (Component.timestamp ts).
Definition append_sequence_num (n : Name) (seq : Z) : Name :=
  append_component n (Component.sequence_num seq).
Definition append_byte_offset (n : Name) (off : Z) : Name :=
  append_component n (Component.byte_offset off).

Definition write_components (n : Name) (w : TlvWriter.TlvWriter) : TlvWriter.TlvWriter :=
  fold_left (fun w c => TlvWriter.write_tlv w (typ c) (value c)) n w.

Definition encode_to_tlv (n : Name) : bytes :=
  TlvWriter.finish (TlvWriter.write_nested TlvWriter.new tlv_type.NAME (write_components n)).

Definition decode_from_tlv (b : bytes) : result Name NameError :=
  match (TlvReader.read_tlv (TlvReader.new b)).1 with
  | Err _ => Err (NameErr "TLV read error")
  | Ok (t, inner) =>
      if negb (t =? tlv_type.NAME) then Err (NameErr "expected NAME TLV type 7")
      else decode inner
  end.

End NameOps.

(** ** Comparison functions that are total orders *)

Class CmpOrder {A} (cmp : A -> A -> comparison) : Prop := {
  cmp_eq : forall a b, cmp a b = Eq <-> a = b;
  cmp_opp : forall a b, cmp a b = CompOpp (cmp b a);
  cmp_trans : forall a b c, cmp a b = Lt -> cmp b c = Lt -> cmp a c = Lt
}.

#[export] Instance Z_compare_order : CmpOrder Z.compare.
Proof.
  split; [apply Z.compare_eq_iff| |].
  - intros a b. apply Z.compare_antisym.
  - intros a b c. rewrite !Z.compare_lt_iff. lia.
Qed.

Lemma then_with_eq c d : then_with c d = Eq <-> c = Eq /\ d = Eq.
Proof. destruct c; naive_solver. Qed.
Lemma then_with_lt c d : then_with c d = Lt <-> c = Lt \/ c = Eq /\ d = Lt.
Proof. destruct c; naive_solver. Qed.
Lemma then_with_opp c d : CompOpp (then_with c d) = then_with (CompOpp c) (CompOpp d).
Proof. by destruct c. Qed.

(** Two comparisons in sequence, each on a projection: transitivity. *)
Lemma then_with_trans {A B} (f : A -> B) (cmp : B -> B -> comparison) (d : A -> A -> comparison)
    `{!CmpOrder cmp} a b c :
  (d a b = Lt -> d b c = Lt -> d a c = Lt) ->
  then_with (cmp (f a) (f b)) (d a b) = Lt ->
  then_with (cmp (f b) (f c)) (d b c) = Lt ->
  then_with (cmp (f a) (f c)) (d a c) = Lt.
Proof.
  rewrite !then_with_lt, !cmp_eq. intros Hd [?|[-> ?]] [?|[<- ?]]; [left|left|left|right];
    eauto using cmp_trans.
Qed.

#[export] Instance lex_cmp_order {A} (cmp : A -> A -> comparison) `{!CmpOrder cmp} :
  CmpOrder (lex_cmp cmp).
Proof.
  split.
  - induction a as [|x a IH]; intros [|y b]; simpl; try done.
    rewrite then_with_eq, cmp_eq, IH. naive_solver.
  - induction a as [|x a IH]; intros [|y b]; simpl; try done.
    by rewrite then_with_opp, <- cmp_opp, <- IH.
  - induction a as [|x a IH]; intros [|y b] [|z c]; simpl; try done.
    rewrite !then_with_lt, !cmp_eq. intros [?|[-> ?]] [?|[<- ?]]; eauto using cmp_trans.
Qed.

#[export] Instance component_cmp_order : CmpOrder NameComponent.cmp.
Proof.
  split.
  - intros [t v] [t' v']. unfold NameComponent.cmp. simpl.
    rewrite !then_with_eq, !cmp_eq. naive_solver.
  - intros a b. unfold NameComponent.cmp. rewrite !then_with_opp. by rewrite <- !cmp_opp.
  - intros a b c. unfold NameComponent.cmp.
    apply (then_with_trans typ Z.compare (fun x y =>
      then_with (Z.compare (zlen (value x)) (zlen (value y))) (bytes_cmp (value x) (value y)))).
    apply (then_with_trans (fun x => zlen (value x)) Z.compare
             (fun x y => bytes_cmp (value x) (value y))).
    apply cmp_trans.
Qed.

#[export] Instance name_cmp_order : CmpOrder NameOps.cmp.
Proof. apply lex_cmp_order, component_cmp_order. Qed.

Lemma lex_cmp_prefix {A} (cmp : A -> A -> comparison) `{!CmpOrder cmp} l k :
  lex_cmp cmp l (l ++ k) = match k with [] => Eq | _ => Lt end.
Proof.
  induction l as [|x l IH]; simpl; [by destruct k|].
  by rewrite (proj2 (cmp_eq x x) eq_refl).
Qed.

(** ** Prefixes *)

Lemma zip_all_eq_spec a b :
  (length b <= length a)%nat -> NameOps.zip_all_eq a b = true <-> b `prefix_of` a.
Proof.
  unfold NameOps.zip_all_eq. revert b. induction a as [|x a IH]; intros [|y b]; simpl; intros Hl.
  - split; [|done]. intros _. apply prefix_nil.
  - lia.
  - split; [|done]. intros _. apply prefix_nil.
  - rewrite andb_true_iff, bool_decide_eq_true, IH by lia. split.
    + intros [-> ?]. by apply prefix_cons.
    + intros H. split; [|by eapply prefix_cons_inv_2]. symmetry. by eapply prefix_cons_inv_1.
Qed.

Lemma has_prefix_spec n p : NameOps.has_prefix n p = true <-> p `prefix_of` n.
Proof.
  unfold NameOps.has_prefix, NameOps.len, zlen.
  destruct (Z.ltb_spec (Z.of_nat (length n)) (Z.of_nat (length p))).
  - split; [done|]. intros Hp%prefix_length. lia.
  - apply zip_all_eq_spec. lia.
Qed.

(** ** NonNegativeIntegers *)

Lemma shift_or_step val b :
  0 <= val -> is_u8 b -> val * 256 + b <= u64_max ->
  Z.lor (wrap 64 (Z.shiftl val 8)) b = val * 256 + b.
Proof.
  intros Hv Hb Hle. unfold_bounds. unfold wrap. rewrite Z.shiftl_mul_pow2 by lia.
  change (2 ^ 8) with 256. rewrite Z.mod_small by lia.
  rewrite <- Z.add_lor_land. enough (Z.land (val * 256) b = 0) by lia.
  change 256 with (2 ^ 8). rewrite <- Z.shiftl_mul_pow2 by lia.
  apply Z.bits_inj'. intros i Hi. rewrite Z.land_spec, Z.bits_0.
  destruct (Z.ltb_spec i 8).
  - by rewrite Z.shiftl_spec_low.
  - rewrite (Z.bits_above_log2 b i), andb_false_r; [done|lia|].
    destruct (decide (b = 0)) as [->|]; [simpl; lia|].
    enough (Z.log2 b < 8) by lia. apply Z.log2_lt_pow2; lia.
Qed.

Lemma decode_nonneg_be bs :
  wf_bytes bs -> zlen bs <= 8 -> decode_nonnegative_integer bs = be_decode bs.
Proof.
  induction bs as [|b bs IH] using rev_ind; intros Hwf Hl; [done|].
  pose proof (be_decode_bound _ Hwf) as Hb. rewrite be_decode_snoc in Hb |- *.
  apply wf_bytes_app in Hwf as [Hwf [Hb1 _]%Forall_cons].
  rewrite zlen_app in Hl, Hb. change (zlen [b]) with 1 in *.
  unfold decode_nonnegative_integer in *. rewrite fold_left_app. simpl.
  rewrite IH by (done || lia). apply shift_or_step; [|done|].
  - by apply be_decode_bound.
  - assert (256 ^ (zlen bs + 1) <= 256 ^ 8) by (apply Z.pow_le_mono_r; lia).
    unfold_bounds. lia.
Qed.

Lemma drop_be_encode_8 k v :
  (k <= 8)%nat -> is_u64 v -> v < 256 ^ Z.of_nat k -> drop (8 - k) (be_encode 8 v) = be_encode k v.
Proof.
  intros Hk Hv Hlt. unfold_bounds.
  apply be_decode_inj; [apply Forall_drop; apply wf_be_encode|apply wf_be_encode|..].
  - rewrite length_drop, !length_be_encode. lia.
  - rewrite be_decode_encode, Z.mod_small by lia.
    pose proof (be_decode_app (take (8 - k) (be_encode 8 v)) (drop (8 - k) (be_encode 8 v))) as H.
    rewrite take_drop, be_decode_encode, Z.mod_small in H by (simpl; lia).
    pose proof (be_decode_bound (take (8 - k) (be_encode 8 v))
      ltac:(apply Forall_take, wf_be_encode)) as Hb.
    pose proof (be_decode_bound (drop (8 - k) (be_encode 8 v))
      ltac:(apply Forall_drop, wf_be_encode)) as Hb'.
    rewrite zlen_drop, zlen_be_encode in H, Hb'.
    replace (Z.max 0 (Z.of_nat 8 - Z.of_nat (8 - k))) with (Z.of_nat k) in H, Hb' by lia.
    set (T := be_decode (take _ _)) in *. set (B := 256 ^ Z.of_nat k) in *.
    assert (T = 0) as HT by (destruct (Z.lt_trichotomy T 0) as [?|[?|?]]; [lia|done|nia]).
    rewrite HT in H. lia.
Qed.

(** The minimal width of a NonNegativeInteger. *)
Definition nonneg_width (v : Z) : nat :=
  if v <=? 0xFF then 1 else if v <=? 0xFFFF then 2 else if v <=? 0xFFFFFFFF then 4 else 8.

Lemma encode_nonneg_be v : is_u64 v -> encode_nonneg_integer v = be_encode (nonneg_width v) v.
Proof.
  intros Hv. pose proof (fun k => drop_be_encode_8 k v) as Hd. unfold_bounds.
  unfold encode_nonneg_integer, nonneg_width, slice_from_.
  repeat bcase_step; [apply (Hd 1%nat)|apply (Hd 2%nat)|apply (Hd 4%nat)|done]; simpl; lia.
Qed.

Lemma zlen_encode_nonneg v : is_u64 v -> zlen (encode_nonneg_integer v) = Z.of_nat (nonneg_width v).
Proof. intros. by rewrite encode_nonneg_be, zlen_be_encode. Qed.

Lemma wf_encode_nonneg v : wf_bytes (encode_nonneg_integer v).
Proof.
  unfold encode_nonneg_integer. repeat case_match; auto using wf_bytes_slice_from, wf_be_encode.
Qed.

Lemma nonneg_roundtrip v : is_u64 v -> decode_nonnegative_integer (encode_nonneg_integer v) = v.
Proof.
  intros Hv. rewrite encode_nonneg_be by done. rewrite decode_nonneg_be; [|apply wf_be_encode|].
  - rewrite be_decode_encode, Z.mod_small; [done|]. unfold_bounds. unfold nonneg_width.
    repeat bcase_step; simpl; lia.
  - rewrite zlen_be_encode. unfold nonneg_width. repeat case_match; lia.
Qed.

Lemma as_typed_roundtrip t v :
  is_u64 v -> Component.as_typed t (Component.new t (encode_nonneg_integer v)) = Some v.
Proof.
  intros Hv. unfold Component.as_typed. simpl. rewrite Z.eqb_refl. f_equal. by apply nonneg_roundtrip.
Qed.

Lemma canonical_nonneg_spec bs v :
  wf_bytes bs -> canonical_nonneg_integer bs = Some v <-> is_u64 v /\ bs = encode_nonneg_integer v.
Proof.
  intros Hwf. unfold canonical_nonneg_integer. split.
  - case_bool_decide as Hl; [|done]. simpl. case_bool_decide as He; [|done]. intros [= <-].
    split; [|done]. rewrite decode_nonneg_be; [|done|set_unfold; lia].
    pose proof (be_decode_bound bs Hwf). set_unfold in Hl.
    unfold_bounds. destruct Hl as [Hl|[Hl|[Hl|[Hl|[]]]]]; rewrite Hl in *; simpl in *; lia.
  - intros [Hv ->]. rewrite bool_decide_true; [|].
    + simpl. by rewrite nonneg_roundtrip, bool_decide_true.
    + rewrite zlen_encode_nonneg by done. unfold nonneg_width. repeat case_match; set_solver.
Qed.

(** ** The TLV form of a name *)

(** A component that can go on the wire: its type fits [u32], its value is a
    byte string. *)
Definition wf_component (c : NameComponent) : Prop := is_u32 (typ c) /\ wf_bytes (value c).
Definition wf_name (n : Name) : Prop := Forall wf_component n.

(** The concatenated component elements: the value of a NAME TLV. *)
Definition name_wire (n : Name) : bytes := concat (map (fun c => tlv_bytes (typ c) (value c)) n).

(** A name whose encoding fits in memory with its outer header. *)
Definition name_fits (n : Name) : Prop := wf_name n /\ zlen (name_wire n) + 18 <= usize_max.

Lemma name_wire_cons c n : name_wire (c :: n) = tlv_bytes (typ c) (value c) ++ name_wire n.
Proof. done. Qed.
Lemma name_wire_app n m : name_wire (n ++ m) = name_wire n ++ name_wire m.
Proof. unfold name_wire. by rewrite map_app, concat_app. Qed.

Lemma wf_name_wire n : wf_name n -> wf_bytes (name_wire n).
Proof.
  induction 1 as [|c n [Ht Hv] _ IH]; [constructor|]. rewrite name_wire_cons, wf_bytes_app.
  split; [|done]. apply wf_tlv_bytes; [|done]. unfold_bounds. lia.
Qed.

(** A component the writer can encode without truncating its length. *)
Definition comp_sized (c : NameComponent) : Prop := is_u64 (typ c) /\ zlen (value c) <= u64_max.

Lemma wire_comps_sized n :
  wf_name n -> zlen (name_wire n) <= usize_max -> Forall comp_sized n.
Proof.
  induction 1 as [|c n [Ht Hv] _ IH]; [constructor|].
  rewrite name_wire_cons, zlen_app, zlen_tlv_bytes. intros Hl.
  pose proof (tlv_size_bounds (typ c) (zlen (value c)) (zlen_nonneg _)).
  pose proof (zlen_nonneg (name_wire n)). pose proof (zlen_nonneg (value c)).
  unfold usize_max, comp_sized in *.
  constructor; [split; [unfold_bounds|]; lia|apply IH; lia].
Qed.

Lemma buf_write_components n w :
  Forall comp_sized n ->
  TlvWriter.buf (NameOps.write_components n w) = TlvWriter.buf w ++ name_wire n.
Proof.
  unfold NameOps.write_components. intros H. revert w.
  induction H as [|c n [Ht Hv] _ IH]; intros w; simpl; [by rewrite app_nil_r|].
  rewrite IH, buf_write_tlv by done. by rewrite name_wire_cons, <- app_assoc.
Qed.

Lemma encode_to_tlv_spec n :
  name_fits n -> NameOps.encode_to_tlv n = tlv_bytes tlv_type.NAME (name_wire n).
Proof.
  intros [Hwf Hl]. unfold NameOps.encode_to_tlv, TlvWriter.finish.
  assert (TlvWriter.buf (NameOps.write_components n TlvWriter.new) = name_wire n) as Hw
    by (rewrite buf_write_components; [done|apply wire_comps_sized; [done|lia]]).
  rewrite buf_write_nested; rewrite ?Hw; [done|solve_closed|unfold_bounds; lia].
Qed.

(** The wire form is self-delimiting: its byte prefixes at component
    boundaries are exactly the name prefixes. *)
Lemma name_wire_prefix p n :
  Forall comp_sized p -> Forall comp_sized n ->
  name_wire p `prefix_of` name_wire n <-> p `prefix_of` n.
Proof.
  intros Hp Hn. split.
  - revert n Hn. induction Hp as [|c p [Hct Hcv] _ IH]; intros n Hn [rest Hr]; [apply prefix_nil|].
    rewrite name_wire_cons, <- app_assoc in Hr. destruct n as [|d n].
    + by destruct (tlv_bytes_nonempty (typ c) (value c) (name_wire p ++ rest)).
    + apply Forall_cons in Hn as [[Hdt Hdv] Hn]. rewrite name_wire_cons in Hr.
      apply tlv_bytes_inj_app in Hr as (Ht & Hv & Hr); [|done..].
      destruct c, d; simpl in *; subst. apply prefix_cons. apply IH; [done|]. by exists rest.
  - intros [k ->]. rewrite name_wire_app. by apply prefix_app_r.
Qed.

Lemma name_wire_nil n : name_wire n = [] -> n = [].
Proof.
  destruct n as [|c n]; [done|]. rewrite name_wire_cons.
  by intros ?%tlv_bytes_nonempty.
Qed.

Lemma name_wire_inj n m :
  Forall comp_sized n -> Forall comp_sized m -> name_wire n = name_wire m -> n = m.
Proof.
  intros Hn Hm Heq. assert (n `prefix_of` m) as [k ->]
    by (apply name_wire_prefix; [done..|by rewrite Heq]).
  rewrite name_wire_app in Heq. rewrite (name_wire_nil k); [by rewrite app_nil_r|].
  apply (app_inv_head (name_wire n)). by rewrite app_nil_r.
Qed.

(** The decoding loop consumes the wire form component by component, and the
    length of the input is enough fuel. *)
Lemma decode_loop_spec fuel r acc :
  TlvReader.wf r -> (length (TlvReader.as_bytes r) < fuel)%nat ->
  exists res, NameOps.decode_loop fuel r acc = Some res /\
  match res with
  | Ok n => exists n', n = acc ++ n' /\ TlvReader.as_bytes r = name_wire n' /\ wf_name n'
  | Err e => e = NameErr "TLV read error" /\ forall n', wf_name n' -> TlvReader.as_bytes r <> name_wire n'
  end.
Proof.
  revert r acc. induction fuel as [|fuel IH]; intros r acc Hr Hf; [lia|]. simpl.
  destruct (TlvReader.is_empty r) eqn:He.
  { apply is_empty_spec in He; [|done]. eexists; split; [done|].
    exists []. rewrite app_nil_r. split_and!; [done..|constructor]. }
  assert (TlvReader.as_bytes r <> []) as Hne by (intros H%is_empty_spec; [congruence|done]).
  destruct (TlvReader.read_tlv r) as [[[t v]|e] r'] eqn:Hrd.
  - pose proof (read_tlv_inv _ _ _ _ Hr Hrd) as (Heq & Ht & Hr').
    pose proof (read_tlv_shorter _ _ _ _ Hr Hrd).
    destruct (IH r' (acc ++ [Component.new t v]) Hr') as (res & -> & Hres); [lia|].
    eexists; split; [done|]. destruct res as [n|e].
    + destruct Hres as (n' & -> & Heq' & Hwf'). exists (Component.new t v :: n').
      rewrite <- app_assoc. split_and!; [done|by rewrite name_wire_cons, Heq, Heq'|].
      constructor; [|done]. split; [done|]. exact (read_tlv_value_wf _ _ _ _ Hr Hrd).
    + destruct Hres as [-> Hres]. split; [done|].
      intros [|c n'] Hwf' Hw; [done|]. rewrite name_wire_cons in Hw.
      apply Forall_cons in Hwf' as [[Hc1 Hc2] Hwf'].
      destruct (read_tlv_ok r _ _ _ Hr Hc1 Hw) as (r2 & Hrd2 & Heq2 & _).
      rewrite Hrd in Hrd2. injection Hrd2 as -> -> <-. by apply (Hres n').
  - eexists; split; [done|]. split; [done|].
    intros [|c n'] Hwf' Hw; [done|]. rewrite name_wire_cons in Hw.
    apply Forall_cons in Hwf' as [[Hc1 _] _].
    destruct (read_tlv_ok r _ _ _ Hr Hc1 Hw) as (r2 & Hrd2 & _). congruence.
Qed.

(** [Name::decode] terminates and accepts exactly the wire forms of names. *)
Lemma decode_spec v :
  wf_bytes v -> zlen v <= usize_max ->
  match NameOps.decode v with
  | Ok n => v = name_wire n /\ wf_name n
  | Err e => e = NameErr "TLV read error" /\ forall n, wf_name n -> v <> name_wire n
  end.
Proof.
  intros Hv Hl. unfold NameOps.decode.
  destruct (decode_loop_spec (S (length v)) (TlvReader.new v) []) as (res & -> & Hres);
    [by apply new_wf|rewrite as_bytes_new; lia|].
  rewrite as_bytes_new in Hres. destruct res; [|done]. by destruct Hres as (n' & -> & ? & ?).
Qed.

Lemma decode_wire n : wf_name n -> zlen (name_wire n) <= usize_max -> NameOps.decode (name_wire n) = Ok n.
Proof.
  intros Hn Hl. pose proof (decode_spec _ (wf_name_wire n Hn) Hl) as H.
  destruct (NameOps.decode (name_wire n)) as [m|e]; [|by destruct (proj2 H n Hn)].
  destruct H as [Heq Hm]. f_equal. symmetry. apply name_wire_inj; [..|done].
  - by apply wire_comps_sized.
  - apply wire_comps_sized; [done|by rewrite <- Heq].
Qed.

(** ** Properties *)

(** The TLV form of a name is a bijection on its image.  Encoding then
    decoding gives the name back whatever bytes follow it, and conversely
    whatever [decode_from_tlv] accepts is the encoding of its result followed
    by ignored trailing bytes: decoding never invents, drops or rewrites a
    component. *)
Theorem name_tlv_iff (b : bytes) (n : Name) :
  wf_bytes b -> zlen b <= usize_max ->
  NameOps.decode_from_tlv b = Ok n <->
  exists rest, wf_name n /\ b = tlv_bytes tlv_type.NAME (name_wire n) ++ rest /\
    (zlen (name_wire n) + 18 <= usize_max -> b = NameOps.encode_to_tlv n ++ rest).
Proof.
  intros Hb Hl. unfold NameOps.decode_from_tlv.
  assert (TlvReader.wf (TlvReader.new b)) as Hr by by apply new_wf. split.
  - destruct (TlvReader.read_tlv (TlvReader.new b)) as [[[t v]|] r] eqn:E; [|done]. simpl.
    destruct (Z.eqb_spec t tlv_type.NAME) as [->|]; [|done]. simpl. intros Hd.
    pose proof (read_tlv_value_wf _ _ _ _ Hr E) as Hv.
    destruct (read_tlv_inv _ _ _ _ Hr E) as (Heq & _ & _). rewrite as_bytes_new in Heq.
    pose proof Hl as Hl2. rewrite Heq, zlen_app, zlen_tlv_bytes in Hl2.
    pose proof (tlv_size_bounds tlv_type.NAME (zlen v) (zlen_nonneg v)).
    pose proof (zlen_nonneg (TlvReader.as_bytes r)).
    pose proof (decode_spec v Hv ltac:(lia)) as Hspec. rewrite Hd in Hspec.
    destruct Hspec as [-> Hn]. exists (TlvReader.as_bytes r). split_and!; [done..|].
    intros ?. by rewrite encode_to_tlv_spec.
  - intros (rest & Hn & Heq & _).
    assert (zlen (name_wire n) <= usize_max).
    { rewrite Heq, zlen_app, zlen_tlv_bytes in Hl.
      pose proof (tlv_size_bounds tlv_type.NAME (zlen (name_wire n)) (zlen_nonneg _)).
      pose proof (zlen_nonneg rest). lia. }
    destruct (read_tlv_ok (TlvReader.new b) tlv_type.NAME (name_wire n) rest Hr) as (r' & -> & _);
      [solve_closed|done|]. simpl. by apply decode_wire.
Qed.

Lemma name_tlv_iff_witness :
  NameOps.decode_from_tlv [7; 6; 8; 1; 97; 8; 1; 98; 21; 0]
  = Ok [Component.generic [97]; Component.generic [98]].
Proof.
  apply (name_tlv_iff [7; 6; 8; 1; 97; 8; 1; 98; 21; 0]); [solve_closed|solve_closed|].
  exists [21; 0]. split_and!; [|reflexivity|reflexivity].
  repeat constructor; solve_closed.
Defined.

(** The canonical name order is a total order, equal exactly on equal
    names, in which a proper prefix precedes its extensions; and [has_prefix]
    decides the prefix relation. *)
Theorem name_order_total (a b c : Name) :
  (NameOps.cmp a b = Eq <-> a = b) /\
  NameOps.cmp a b = CompOpp (NameOps.cmp b a) /\
  (NameOps.cmp a b = Lt -> NameOps.cmp b c = Lt -> NameOps.cmp a c = Lt) /\
  (NameOps.has_prefix b a = true <-> a `prefix_of` b) /\
  (NameOps.has_prefix b a = true -> NameOps.cmp a b <> Gt).
Proof.
  unfold NameOps.cmp. split_conj.
  - apply cmp_eq.
  - apply cmp_opp.
  - apply cmp_trans.
  - apply has_prefix_spec.
  - intros [k ->]%has_prefix_spec. rewrite (lex_cmp_prefix NameComponent.cmp). by destruct k.
Qed.

(** NonNegativeInteger components.  Every [u64] decodes back to itself
    through the typed component constructors and accessors, and
    [canonical_nonneg_integer] accepts exactly the minimal encodings. *)
Theorem nonneg_component_roundtrip (v : Z) (bs : bytes) :
  is_u64 v -> wf_bytes bs ->
  Component.as_version (Component.version v) = Some v /\
  Component.as_timestamp (Component.timestamp v) = Some v /\
  Component.as_sequence_num (Component.sequence_num v) = Some v /\
  Component.as_byte_offset (Component.byte_offset v) = Some v /\
  (Component.as_segment <$> last (NameOps.append_segment [] v)) = Some (Some v) /\
  (canonical_nonneg_integer bs = Some v <-> bs = encode_nonneg_integer v).
Proof.
  intros Hv Hbs. pose proof (fun t => as_typed_roundtrip t v Hv) as Ht.
  split_conj; try apply Ht.
  - unfold NameOps.append_segment, NameOps.append_component. simpl. f_equal. apply Ht.
  - rewrite canonical_nonneg_spec by done. naive_solver.
Qed.

Lemma nonneg_component_roundtrip_witness :
  Component.as_version (Component.version 65536) = Some 65536 /\
  Component.as_timestamp (Component.timestamp 65536) = Some 65536 /\
  Component.as_sequence_num (Component.sequence_num 65536) = Some 65536 /\
  Component.as_byte_offset (Component.byte_offset 65536) = Some 65536 /\
  (Component.as_segment <$> last (NameOps.append_segment [] 65536)) = Some (Some 65536) /\
  (canonical_nonneg_integer [0; 1; 0; 0] = Some 65536 <-> [0; 1; 0; 0] = encode_nonneg_integer 65536).
Proof. apply (nonneg_component_roundtrip 65536 [0; 1; 0; 0]); solve_closed. Defined.
