(* ===== verification/NameUri.v ===== *)
(** * The URI form of names ([crates/core/ndn-foundation-types/src/name.rs])

    [FromStr for Name] and [Display for Name] with their helpers.  A [&str] is
    the list of its UTF-8 bytes. *)

From S2P Require Import Prelude Tlv Name.
#[local] Open Scope Z_scope.

(** The bytes of a string literal. *)
Definition str (s : string) : bytes :=
  map (fun a => Z.of_N (Ascii.N_of_ascii a)) (String.list_ascii_of_string s).

(** ** Standard-library string operations *)

(** [str::strip_prefix]. *)
Fixpoint strip_prefix (pre s : bytes) : option bytes :=
  match pre, s with
  | [], _ => Some s
  | p :: pre, c :: s => if p =? c then strip_prefix pre s else None
  | _ :: _, [] => None
  end.

(** [u8::is_ascii_digit]. *)
Definition is_ascii_digit (b : Z) : bool := (48 <=? b) && (b <=? 57).

(** [u8::is_ascii_alphanumeric]. *)
Definition is_ascii_alphanumeric (b : Z) : bool :=
  is_ascii_digit b || ((65 <=? b) && (b <=? 90)) || ((97 <=? b) && (b <=? 122)).

(** The digits of [u64::from_str]: [checked_mul(10)] then [checked_add]. *)
Fixpoint parse_digits (acc : Z) (s : bytes) : option Z :=
  match s with
  | [] => Some acc
  | c :: s =>
      if is_ascii_digit c then
        let acc := acc * 10 + (c - 48) in
        if acc <=? u64_max then parse_digits acc s else None
      else None
  end.

(** [str::parse::<u64>]: a leading [+] is accepted, the empty string is not. *)
Definition parse_u64 (s : bytes) : option Z :=
  match s with
  | [] => None
  | c :: rest => if (c =? 43) && negb (zlen rest =? 0) then parse_digits 0 rest else parse_digits 0 s
  end.

(** [format!("{}", v)] for a [u64]; 20 digits hold every [u64]. *)
Fixpoint dec_digits (fuel : nat) (v : Z) : bytes :=
  match fuel with
  | O => []
  | S fuel => if v <? 10 then [48 + v] else dec_digits fuel (v / 10) ++ [48 + v mod 10]
  end.
Definition dec (v : Z) : bytes := dec_digits 20 v.

(** One digit of [{b:02X}] and [{b:02x}]. *)
Definition hex_upper (d : Z) : Z := if d <? 10 then 48 + d else 55 + d.
Definition hex_lower (d : Z) : Z := if d <? 10 then 48 + d else 87 + d.

(** The UTF-8 encodings of the characters [char::is_whitespace] accepts. *)
Definition WHITESPACE : list bytes :=
  [[9]; [10]; [11]; [12]; [13]; [32]; [0xC2; 0x85]; [0xC2; 0xA0]; [0xE1; 0x9A; 0x80];
   [0xE2; 0x80; 0x80]; [0xE2; 0x80; 0x81]; [0xE2; 0x80; 0x82]; [0xE2; 0x80; 0x83];
   [0xE2; 0x80; 0x84]; [0xE2; 0x80; 0x85]; [0xE2; 0x80; 0x86]; [0xE2; 0x80; 0x87];
   [0xE2; 0x80; 0x88]; [0xE2; 0x80; 0x89]; [0xE2; 0x80; 0x8A]; [0xE2; 0x80; 0xA8];
   [0xE2; 0x80; 0xA9]; [0xE2; 0x80; 0xAF]; [0xE2; 0x81; 0x9F]; [0xE3; 0x80; 0x80]].

(** The first pattern that strips off. *)
Fixpoint strip_any (pats : list bytes) (s : bytes) : option bytes :=
  match pats with
  | [] => None
  | p :: pats => match strip_prefix p s with Some r => Some r | None => strip_any pats s end
  end.

Fixpoint strip_all (fuel : nat) (pats : list bytes) (s : bytes) : bytes :=
  match fuel with
  | O => s
  | S fuel => match strip_any pats s with Some r => strip_all fuel pats r | None => s end
  end.

(** [str::trim]: whitespace off the front, then off the back. *)
Definition trim (s : bytes) : bytes :=
  let s := strip_all (length s) WHITESPACE s in
  rev (strip_all (length s) (map (@rev Z) WHITESPACE) (rev s)).

(** [str::split('/')]. *)
Fixpoint split_slash (s : bytes) : list bytes :=
  match s with
  | [] => [[]]
  | c :: s =>
      if c =? 47 then [] :: split_slash s
      else match split_slash s with
           | [] => [[c]]
           | p :: ps => (c :: p) :: ps
           end
  end.

(** ** Parsing *)

(** [hex_digit], and [char::to_digit(16)] on the same characters. *)
Definition hex_digit (b : Z) : option Z :=
  if (48 <=? b) && (b <=? 57) then Some (b - 48)
  else if (65 <=? b) && (b <=? 70) then Some (b - 65 + 10)
  else if (97 <=? b) && (b <=? 102) then Some (b - 97 + 10)
  else None.

(** The loop over [chunks(2)]. *)
Fixpoint parse_hex_chunks (s : bytes) : option bytes :=
  match s with
  | a :: b :: s =>
      let! hi := hex_digit a in
      let! lo := hex_digit b in
      let! out := parse_hex_chunks s in
      Some (wrap 8 (Z.lor (Z.shiftl hi 4) lo) :: out)
  | _ => Some []
  end.

Definition parse_hex (s : bytes) : option bytes :=
  if negb (zlen s mod 2 =? 0) then None else parse_hex_chunks s.

(** [part.find('=')] and [split_at]: the head and what follows the sign. *)
Fixpoint split_at_eq (s : bytes) : option (bytes * bytes) :=
  match s with
  | [] => None
  | c :: s => if c =? 61 then Some ([], s)
              else let! (h, t) := split_at_eq s in Some (c :: h, t)
  end.

Definition split_typed_prefix (part : bytes) : option (bytes * bytes) :=
  let! (head, tail) := split_at_eq part in
  if negb (zlen head =? 0) && forallb is_ascii_digit head then Some (head, tail) else None.

Fixpoint percent_decode (s : bytes) : result bytes unit :=
  match s with
  | [] => Ok []
  | c :: rest =>
      if c =? 37 then
        match rest with
        | a :: b :: rest =>
            let? hi := ok_or (hex_digit a) tt in
            let? lo := ok_or (hex_digit b) tt in
            let? out := percent_decode rest in
            Ok (wrap 8 (Z.lor (Z.shiftl hi 4) lo) :: out)
        | _ => Err tt
        end
      else let? out := percent_decode rest in Ok (c :: out)
  end.

(** [value.iter().all(|&b| b == b'.')]. *)
Definition all_periods (v : bytes) : bool := forallb (fun b => b =? 46) v.

Definition decode_uri_value (s : bytes) : result bytes NameError :=
  let? decoded := map_err (fun _ => NameErr "invalid percent-encoding") (percent_decode s) in
  if all_periods decoded then
    if zlen decoded <? 3 then Err (NameErr "component of one or two periods is illegal")
    else Ok (slice_from_ decoded 3)
  else Ok decoded.

Definition parse_integer_prefix (part pre : bytes) (t : Z) : option (result NameComponent unit) :=
  let! rest := strip_prefix pre part in
  Some (match parse_u64 rest with
        | Some n => Ok (Component.new t (encode_nonneg_integer n))
        | None => let? d := percent_decode part in Ok (Component.generic d)
        end).

Definition INTEGER_PREFIXES : list (bytes * Z) :=
  [(str "seg=", tlv_type.SEGMENT); (str "v=", tlv_type.VERSION);
   (str "off=", tlv_type.BYTE_OFFSET); (str "t=", tlv_type.TIMESTAMP);
   (str "seq=", tlv_type.SEQUENCE_NUM)].

(** The [for] loop over [INTEGER_PREFIXES]: the first prefix that matches. *)
Fixpoint try_integer_prefixes (part : bytes) (ps : list (bytes * Z))
    : option (result NameComponent unit) :=
  match ps with
  | [] => None
  | (pre, t) :: ps =>
      match parse_integer_prefix part pre t with
      | Some r => Some r
      | None => try_integer_prefixes part ps
      end
  end.

Definition parse_component (part : bytes) : result NameComponent NameError :=
  match try_integer_prefixes part INTEGER_PREFIXES with
  | Some r => map_err (fun _ => NameErr "invalid percent-encoding") r
  | None =>
  match strip_prefix (str "sha256digest=") part with
  | Some hex =>
      let? v := ok_or (parse_hex hex) (NameErr "invalid sha256digest hex") in
      Ok (Component.new tlv_type.IMPLICIT_SHA256 v)
  | None =>
  match strip_prefix (str "params-sha256=") part with
  | Some hex =>
      let? v := ok_or (parse_hex hex) (NameErr "invalid params-sha256 hex") in
      Ok (Component.new tlv_type.PARAMETERS_SHA256 v)
  | None =>
  match strip_prefix (str "keyword=") part with
  | Some rest =>
      let? v := map_err (fun _ => NameErr "invalid percent-encoding") (percent_decode rest) in
      Ok (Component.new tlv_type.KEYWORD v)
  | None =>
  match split_typed_prefix part with
  | Some (typ_str, val_str) =>
      let? t := ok_or (parse_u64 typ_str) (NameErr "invalid typed-component TLV-TYPE") in
      let? v := decode_uri_value val_str in
      Ok (Component.new t v)
  | None => let? v := decode_uri_value part in Ok (Component.generic v)
  end end end end end.

Fixpoint parse_parts (parts : list bytes) : result Name NameError :=
  match parts with
  | [] => Ok []
  | p :: parts =>
      if zlen p =? 0 then parse_parts parts
      else let? c := parse_component p in
           let? n := parse_parts parts in
           Ok (c :: n)
  end.

Definition from_str (s : bytes) : result Name NameError :=
  let s := trim s in
  if (zlen s =? 0) || bool_decide (s = str "/") then Ok NameOps.root
  else match s with
       | 47 :: rest => parse_parts (split_slash rest)
       | _ => Err (NameErr "name must start with '/'")
       end.

(** [From<&str> for Name]: the root on error. *)
Definition from (s : bytes) : Name :=
  match from_str s with Ok n => n | Err _ => NameOps.root end.

(** ** Printing *)

Definition unreserved (b : Z) : bool :=
  is_ascii_alphanumeric b || (b =? 45) || (b =? 46) || (b =? 95) || (b =? 126).

Definition percent_encode_component (v : bytes) : bytes :=
  concat (map (fun b => if unreserved b then [b]
                        else [37; hex_upper (b / 16); hex_upper (b mod 16)]) v).

Definition write_uri_value (v : bytes) : bytes :=
  if all_periods v then replicate (length v + 3) 46 else percent_encode_component v.

Definition write_hex (v : bytes) : bytes :=
  concat (map (fun b => [hex_lower (b / 16); hex_lower (b mod 16)]) v).

(** [write!(f, "{}=", c.typ)?; write_uri_value(f, &c.value)?]. *)
Definition write_typed (c : NameComponent) : bytes :=
  dec (typ c) ++ [61] ++ write_uri_value (value c).

Definition display_component (c : NameComponent) : bytes :=
  let t := typ c in
  if t =? tlv_type.IMPLICIT_SHA256 then str "sha256digest=" ++ write_hex (value c)
  else if t =? tlv_type.PARAMETERS_SHA256 then str "params-sha256=" ++ write_hex (value c)
  else if t =? tlv_type.KEYWORD then str "keyword=" ++ percent_encode_component (value c)
  else if (t =? tlv_type.SEGMENT) || (t =? tlv_type.BYTE_OFFSET) || (t =? tlv_type.VERSION)
          || (t =? tlv_type.TIMESTAMP) || (t =? tlv_type.SEQUENCE_NUM) then
    match canonical_nonneg_integer (value c) with
    | Some n =>
        (if t =? tlv_type.SEGMENT then str "seg"
         else if t =? tlv_type.BYTE_OFFSET then str "off"
         else if t =? tlv_type.VERSION then str "v"
         else if t =? tlv_type.TIMESTAMP then str "t"
         else str "seq") ++ [61] ++ dec n
    | None => write_typed c
    end
  else if t =? tlv_type.GENERIC_NAME_COMPONENT then write_uri_value (value c)
  else write_typed c.

(** The [enumerate] loop: a separator before every component but the first. *)
Fixpoint display_components (first : bool) (n : Name) : bytes :=
  match n with
  | [] => []
  | c :: n => (if first then [] else [47]) ++ display_component c ++ display_components false n
  end.

Definition display (n : Name) : bytes := [47] ++ display_components true n.

(** ** Round-trip lemmas *)

Definition hex_pair_ok (b : Z) : bool := bool_decide (
  hex_digit (hex_upper (b / 16)) = Some (b / 16) /\
  hex_digit (hex_upper (b mod 16)) = Some (b mod 16) /\
  hex_digit (hex_lower (b / 16)) = Some (b / 16) /\
  hex_digit (hex_lower (b mod 16)) = Some (b mod 16) /\
  wrap 8 (Z.lor (Z.shiftl (b / 16) 4) (b mod 16)) = b).

Lemma hex_pair b :
  is_u8 b ->
  hex_digit (hex_upper (b / 16)) = Some (b / 16) /\
  hex_digit (hex_upper (b mod 16)) = Some (b mod 16) /\
  hex_digit (hex_lower (b / 16)) = Some (b / 16) /\
  hex_digit (hex_lower (b mod 16)) = Some (b mod 16) /\
  wrap 8 (Z.lor (Z.shiftl (b / 16) 4) (b mod 16)) = b.
Proof.
  revert b.
  assert (forall b, is_u8 b -> hex_pair_ok b = true) as H
    by (apply u8_forall; vm_compute; reflexivity).
  intros b Hb. by specialize (H b Hb) as H'%bool_decide_eq_true.
Qed.

Lemma parse_hex_write_hex v : wf_bytes v -> parse_hex (write_hex v) = Some v.
Proof.
  intros Hv. unfold parse_hex.
  replace (zlen (write_hex v) mod 2) with 0; [simpl|].
  - induction Hv as [|b v Hb _ IH]; [done|]. unfold write_hex in *. cbn [map concat app parse_hex_chunks].
    destruct (hex_pair b Hb) as (_ & _ & -> & -> & Hw). by rewrite IH, Hw.
  - clear Hv. induction v as [|b v IH]; [done|]. unfold write_hex in *. cbn [map concat app].
    rewrite !zlen_cons. replace (1 + (1 + zlen (concat (map (fun b0 => [hex_lower (b0 / 16); hex_lower (b0 mod 16)]) v))))
      with (zlen (concat (map (fun b0 => [hex_lower (b0 / 16); hex_lower (b0 mod 16)]) v)) + 1 * 2) by lia.
    by rewrite Z.mod_add.
Qed.

Lemma percent_decode_encode v : wf_bytes v -> percent_decode (percent_encode_component v) = Ok v.
Proof.
  induction 1 as [|b v Hb _ IH]; [done|].
  unfold percent_encode_component in *. cbn [map concat].
  destruct (unreserved b) eqn:Hu; cbn [app percent_decode].
  - replace (b =? 37) with false; [by rewrite IH|].
    symmetry. apply Z.eqb_neq. by intros ->.
  - destruct (hex_pair b Hb) as (-> & -> & _ & _ & Hw). simpl. by rewrite IH, Hw.
Qed.

Lemma percent_decode_periods n : percent_decode (replicate n 46) = Ok (replicate n 46).
Proof. induction n as [|n IH]; [done|]. simpl. by rewrite IH. Qed.

Lemma all_periods_replicate v : all_periods v = true -> v = replicate (length v) 46.
Proof.
  induction v as [|b v IH]; [done|]. simpl. intros [->%Z.eqb_eq H]%andb_true_iff. by rewrite <- IH.
Qed.
Lemma all_periods_rep n : all_periods (replicate n 46) = true.
Proof. by induction n. Qed.

Lemma decode_write_uri_value v : wf_bytes v -> decode_uri_value (write_uri_value v) = Ok v.
Proof.
  intros Hv. unfold decode_uri_value, write_uri_value. destruct (all_periods v) eqn:Hp.
  - rewrite percent_decode_periods. simpl map_err. cbv beta iota. rewrite all_periods_rep.
    destruct (Z.ltb_spec (zlen (replicate (length v + 3) 46)) 3) as [Hl|_].
    { unfold zlen in Hl. rewrite length_replicate in Hl. lia. }
    unfold slice_from_. change (Z.to_nat 3) with 3%nat. rewrite drop_replicate.
    replace (length v + 3 - 3)%nat with (length v) by lia. by rewrite <- all_periods_replicate.
  - rewrite percent_decode_encode by done. simpl. by rewrite Hp.
Qed.

(** *** Decimal numbers *)

Lemma dec_digits_ascii fuel v :
  (0 < fuel)%nat -> 0 <= v ->
  Forall (fun c => is_ascii_digit c = true) (dec_digits fuel v) /\ dec_digits fuel v <> [].
Proof.
  revert v. induction fuel as [|fuel IH]; intros v Hf Hv; [lia|]. simpl.
  assert (forall d, 0 <= d < 10 -> is_ascii_digit (48 + d) = true) as Hd.
  { intros d ?. unfold is_ascii_digit. repeat bcase_step; (done || lia). }
  destruct (Z.ltb_spec v 10); [split; [repeat constructor; apply Hd; lia|done]|].
  pose proof (Z.mod_pos_bound v 10 ltac:(lia)).
  split; [|by destruct (dec_digits fuel (v / 10))].
  apply Forall_app. split; [|repeat constructor; apply Hd; lia].
  destruct fuel; [constructor|]. apply IH; [lia|]. apply Z.div_pos; lia.
Qed.

Lemma parse_digits_app acc s t :
  parse_digits acc (s ++ t) = let! a := parse_digits acc s in parse_digits a t.
Proof. revert acc. induction s as [|c s IH]; intros acc; simpl; [done|].
  destruct (is_ascii_digit c); [|done]. by destruct (_ <=? _). Qed.

Lemma parse_dec_digits fuel v :
  0 <= v <= u64_max -> v < 10 ^ Z.of_nat fuel -> parse_digits 0 (dec_digits fuel v) = Some v.
Proof.
  revert v. induction fuel as [|fuel IH]; intros v Hv Hlt; [simpl in *; by replace v with 0 by lia|].
  assert (forall a d, 0 <= d < 10 -> 0 <= a -> a * 10 + d <= u64_max ->
    parse_digits a [48 + d] = Some (a * 10 + d)) as Hd.
  { intros a d ???. simpl. unfold is_ascii_digit. repeat bcase_step; simpl; try (f_equal; lia). 
    all: exfalso; lia. }
  simpl. destruct (Z.ltb_spec v 10); [rewrite Hd by lia; f_equal; lia|].
  rewrite parse_digits_app. rewrite Nat2Z.inj_succ, Z.pow_succ_r in Hlt by lia.
  pose proof (Z.div_mod v 10 ltac:(lia)). pose proof (Z.mod_pos_bound v 10 ltac:(lia)).
  rewrite IH; [rewrite Hd; [f_equal| |..]; lia| |]; lia.
Qed.

Lemma dec_ascii v : 0 <= v ->
  Forall (fun c => is_ascii_digit c = true) (dec v) /\ dec v <> [].
Proof. apply dec_digits_ascii. lia. Qed.

Lemma parse_u64_dec v : is_u64 v -> parse_u64 (dec v) = Some v.
Proof.
  intros Hv. assert (0 <= v) as H0 by (unfold_bounds; lia). destruct (dec_ascii v H0) as [Hd Hne].
  assert (parse_digits 0 (dec v) = Some v) as Hp.
  { apply parse_dec_digits; [done|]. unfold_bounds. change (10 ^ Z.of_nat 20) with 100000000000000000000. lia. }
  unfold parse_u64. destruct (dec v) as [|c rest]; [done|].
  apply Forall_cons in Hd as [Hc _]. destruct (Z.eqb_spec c 43) as [->|]; done.
Qed.

(** *** The characters of a printed component *)

Definition pct_char (b : Z) : bool := unreserved b || (b =? 37).
Definition uri_char (b : Z) : bool := pct_char b || (b =? 61).

Lemma pct_char_range b : pct_char b = true -> 37 <= b <= 126 /\ b <> 47 /\ b <> 61.
Proof. unfold pct_char, unreserved, is_ascii_alphanumeric, is_ascii_digit. lia. Qed.

Lemma uri_char_range b : uri_char b = true -> 37 <= b <= 126 /\ b <> 47.
Proof. unfold uri_char. intros [?%pct_char_range|?%Z.eqb_eq]%orb_true_iff; lia. Qed.

Lemma digit_pct_char b : is_ascii_digit b = true -> pct_char b = true.
Proof. unfold pct_char, unreserved, is_ascii_alphanumeric. by intros ->. Qed.

Abbreviation all_pct := (Forall (fun b => pct_char b = true)).
Abbreviation all_uri := (Forall (fun b => uri_char b = true)).

Lemma all_pct_uri s : all_pct s -> all_uri s.
Proof. intros H. eapply Forall_impl; [exact H|]. intros b Hb. unfold uri_char. by rewrite Hb. Qed.

Definition byte_chars_ok (b : Z) : bool :=
  forallb pct_char (if unreserved b then [b] else [37; hex_upper (b / 16); hex_upper (b mod 16)])
  && forallb pct_char [hex_lower (b / 16); hex_lower (b mod 16)].

Lemma byte_chars b : is_u8 b -> byte_chars_ok b = true.
Proof. revert b. apply u8_forall. vm_compute. reflexivity. Qed.

Lemma forallb_all_pct s : forallb pct_char s = true -> all_pct s.
Proof. rewrite forallb_forall, Forall_forall. intros H x Hx. by apply H, list_elem_of_In. Qed.

Lemma percent_encode_chars v : wf_bytes v -> all_pct (percent_encode_component v).
Proof.
  induction 1 as [|b v Hb _ IH]; [constructor|]. apply Forall_app. split; [|done].
  pose proof (byte_chars b Hb) as [H _]%andb_true_iff. by apply forallb_all_pct.
Qed.

Lemma write_hex_chars v : wf_bytes v -> all_pct (write_hex v).
Proof.
  induction 1 as [|b v Hb _ IH]; [constructor|]. apply Forall_app. split; [|done].
  pose proof (byte_chars b Hb) as [_ H]%andb_true_iff. by apply forallb_all_pct.
Qed.

Lemma write_uri_value_chars v : wf_bytes v -> all_pct (write_uri_value v) /\ write_uri_value v <> [].
Proof.
  intros Hv. unfold write_uri_value. destruct (all_periods v) eqn:Hp; split.
  - apply Forall_replicate. done.
  - by rewrite Nat.add_comm.
  - by apply percent_encode_chars.
  - destruct v as [|b v]; [done|]. unfold percent_encode_component. cbn. by destruct (unreserved b).
Qed.

Lemma dec_chars v : 0 <= v -> all_pct (dec v).
Proof. intros [H _]%dec_ascii. eapply Forall_impl; [exact H|]. apply digit_pct_char. Qed.

(** A component the URI form can carry: any [u64] type, any bytes. *)
Definition uri_component (c : NameComponent) : Prop := is_u64 (typ c) /\ wf_bytes (value c).

Lemma write_typed_chars c : uri_component c -> all_uri (write_typed c) /\ write_typed c <> [].
Proof.
  intros [Ht Hv]. assert (0 <= typ c) as H0 by (unfold_bounds; lia).
  unfold write_typed. split; [|by destruct (dec (typ c))].
  rewrite !Forall_app. split_and!; [by apply all_pct_uri, dec_chars|by repeat constructor|].
  by apply all_pct_uri, write_uri_value_chars.
Qed.

Lemma lit_chars s : forallb uri_char (str s) = true -> all_uri (str s).
Proof. rewrite forallb_forall, Forall_forall. intros H x Hx. by apply H, list_elem_of_In. Qed.

Lemma display_component_chars c :
  uri_component c -> all_uri (display_component c) /\ display_component c <> [].
Proof.
  intros Hc. pose proof Hc as [_ Hv]. unfold display_component.
  destruct (typ c =? tlv_type.IMPLICIT_SHA256).
  { split; [|done]. apply Forall_app. split; [by apply lit_chars|by apply all_pct_uri, write_hex_chars]. }
  destruct (typ c =? tlv_type.PARAMETERS_SHA256).
  { split; [|done]. apply Forall_app. split; [by apply lit_chars|by apply all_pct_uri, write_hex_chars]. }
  destruct (typ c =? tlv_type.KEYWORD).
  { split; [|done]. apply Forall_app. split; [by apply lit_chars|by apply all_pct_uri, percent_encode_chars]. }
  destruct (_ || _).
  - destruct (canonical_nonneg_integer (value c)) as [n|] eqn:Hn; [|by apply write_typed_chars].
    apply canonical_nonneg_spec in Hn as [Hn _]; [|done]. assert (0 <= n) as H0 by (unfold_bounds; lia).
    split; [|by repeat case_match].
    rewrite !Forall_app. split_and!; [|by repeat constructor|by apply all_pct_uri, dec_chars].
    repeat case_match; by apply lit_chars.
  - destruct (typ c =? tlv_type.GENERIC_NAME_COMPONENT); [|by apply write_typed_chars].
    destruct (write_uri_value_chars _ Hv). split; [by apply all_pct_uri|done].
Qed.

(** *** Splitting and trimming a printed name *)

Lemma split_slash_app s rest :
  all_uri s -> split_slash (s ++ 47 :: rest) = s :: split_slash rest.
Proof.
  induction 1 as [|c s Hc _ IH]; [done|]. simpl. rewrite IH.
  by destruct (Z.eqb_spec c 47) as [->|]; [|done].
Qed.

Lemma split_slash_one s : all_uri s -> split_slash s = [s].
Proof.
  induction 1 as [|c s Hc _ IH]; [done|]. simpl. rewrite IH.
  by destruct (Z.eqb_spec c 47) as [->|]; [|done].
Qed.

Lemma split_display n :
  n <> [] -> Forall uri_component n ->
  split_slash (display_components true n) = map display_component n.
Proof.
  intros Hne Hn. destruct Hn as [|c n Hc Hn]; [done|]. clear Hne. simpl.
  revert c Hc. induction Hn as [|d n Hd _ IH]; intros c Hc; simpl.
  - rewrite app_nil_r. apply split_slash_one. by apply display_component_chars.
  - rewrite split_slash_app by by apply display_component_chars. by rewrite IH.
Qed.

Lemma strip_any_none pats s :
  Forall (fun p => match p with [] => False | c :: _ => c <> hd 0 s end) pats -> strip_any pats s = None.
Proof.
  induction 1 as [|p pats Hp _ IH]; [done|]. simpl. destruct p as [|c p]; [done|].
  simpl. destruct s as [|d s]; [done|]. simpl in Hp. by destruct (Z.eqb_spec c d).
Qed.

Lemma trim_graphic s :
  (33 <= hd 0 s <= 126) -> (33 <= hd 0 (rev s) <= 126) -> trim s = s.
Proof.
  intros H1 H2. unfold trim.
  assert (forall fuel pats s, strip_any pats s = None -> strip_all fuel pats s = s) as Hall
    by (intros [|fuel] pats s' H; simpl; [done|by rewrite H]).
  rewrite (Hall _ WHITESPACE s), (Hall _ _ (rev s)); [by rewrite rev_involutive|..];
    apply strip_any_none; unfold WHITESPACE; cbn [map rev app];
    repeat (apply Forall_cons; split; [lia|]); apply Forall_nil_2.
Qed.

(** *** One component *)

Lemma strip_prefix_app p s : strip_prefix p (p ++ s) = Some s.
Proof. induction p as [|c p IH]; [done|]. simpl. by rewrite Z.eqb_refl. Qed.

(** A pattern with an [=] in it never strips off a text without one. *)
Lemma strip_prefix_no_eq p s : 61 ∈ p -> all_pct s -> strip_prefix p s = None.
Proof.
  revert s. induction p as [|c p IH]; intros s Hp Hs; [by apply elem_of_nil in Hp|].
  destruct Hs as [|d s Hd Hs]; [done|]. simpl. destruct (Z.eqb_spec c d) as [->|]; [|done].
  apply IH; [|done]. apply elem_of_cons in Hp as [<-|]; [|done].
  apply pct_char_range in Hd. lia.
Qed.

(** A pattern that does not start with a digit never strips off a text that does. *)
Lemma strip_prefix_digit p s :
  match p with [] => False | c :: _ => is_ascii_digit c = false end ->
  match s with [] => False | d :: _ => is_ascii_digit d = true end ->
  strip_prefix p s = None.
Proof.
  destruct p as [|c p]; [done|]. destruct s as [|d s]; [done|]. simpl.
  destruct (Z.eqb_spec c d) as [->|]; [congruence|done].
Qed.

Lemma split_at_eq_app h t : all_pct h -> split_at_eq (h ++ 61 :: t) = Some (h, t).
Proof.
  induction 1 as [|c h Hc _ IH]; [done|]. simpl. rewrite IH.
  destruct (Z.eqb_spec c 61) as [->|]; [apply pct_char_range in Hc; lia|done].
Qed.

Lemma split_at_eq_none s : all_pct s -> split_at_eq s = None.
Proof.
  induction 1 as [|c s Hc _ IH]; [done|]. simpl. rewrite IH.
  destruct (Z.eqb_spec c 61) as [->|]; [apply pct_char_range in Hc; lia|done].
Qed.

(** Everything before the typed-prefix test falls through. *)
Lemma parse_component_fallthrough part :
  (all_pct part \/ match part with [] => False | d :: _ => is_ascii_digit d = true end) ->
  parse_component part =
  match split_typed_prefix part with
  | Some (typ_str, val_str) =>
      let? t := ok_or (parse_u64 typ_str) (NameErr "invalid typed-component TLV-TYPE") in
      let? v := decode_uri_value val_str in
      Ok (Component.new t v)
  | None => let? v := decode_uri_value part in Ok (Component.generic v)
  end.
Proof.
  intros Hpart.
  assert (forall p, existsb (fun b => b =? 61) p && negb (is_ascii_digit (hd 48 p)) = true ->
    strip_prefix p part = None) as Hnone.
  { intros p [(x & Hin & ->%Z.eqb_eq)%existsb_exists H2%negb_true_iff]%andb_true_iff.
    destruct Hpart; [apply strip_prefix_no_eq; [by apply list_elem_of_In|done]|].
    apply strip_prefix_digit; [|done]. by destruct p. }
  unfold parse_component, INTEGER_PREFIXES, try_integer_prefixes, parse_integer_prefix.
  by rewrite !Hnone by reflexivity.
Qed.

Lemma parse_write_typed c : uri_component c -> parse_component (write_typed c) = Ok c.
Proof.
  intros [Ht Hv]. assert (0 <= typ c) as H0 by (unfold_bounds; lia).
  destruct (dec_ascii (typ c) H0) as [Hd Hne].
  unfold write_typed. change ([61] ++ ?x) with (61 :: x).
  rewrite parse_component_fallthrough.
  - unfold split_typed_prefix. rewrite split_at_eq_app by by apply dec_chars.
    replace (zlen (dec (typ c)) =? 0) with false
      by (symmetry; apply Z.eqb_neq; intros ?%zlen_0_nil; done).
    replace (forallb is_ascii_digit (dec (typ c))) with true.
    2:{ symmetry. apply forallb_forall. intros x Hx%list_elem_of_In.
        rewrite Forall_forall in Hd. by apply Hd. }
    simpl. rewrite parse_u64_dec, decode_write_uri_value by done. by destruct c.
  - right. destruct (dec (typ c)) as [|d ?]; [done|]. by apply Forall_cons in Hd as [? _].
Qed.

(** Two literals that differ at some position. *)
Fixpoint mismatch (p q : bytes) : bool :=
  match p, q with
  | c :: p, d :: q => if c =? d then mismatch p q else true
  | _, _ => false
  end.

Lemma strip_prefix_mismatch p q s : mismatch p q = true -> strip_prefix p (q ++ s) = None.
Proof.
  revert q. induction p as [|c p IH]; intros [|d q]; simpl; try done. destruct (c =? d); auto.
Qed.

(** Decides every literal prefix test of [parse_component] on [lit ++ s]. *)
Ltac strip_literals :=
  unfold parse_component, INTEGER_PREFIXES, try_integer_prefixes, parse_integer_prefix;
  repeat rewrite strip_prefix_mismatch by reflexivity;
  rewrite strip_prefix_app; cbv beta iota.

Lemma parse_integer_sugar t p n :
  In (p, t) INTEGER_PREFIXES -> is_u64 n ->
  parse_component (p ++ dec n) = Ok (Component.new t (encode_nonneg_integer n)).
Proof.
  intros Hin Hn. unfold INTEGER_PREFIXES in Hin.
  repeat destruct Hin as [[= <- <-]|Hin]; [..|done];
    strip_literals; by rewrite parse_u64_dec.
Qed.

Lemma parse_display_component c : uri_component c -> parse_component (display_component c) = Ok c.
Proof.
  intros Hc. pose proof Hc as [_ Hv]. destruct c as [t v].
  unfold display_component. cbn [typ value] in *.
  destruct (Z.eqb_spec t tlv_type.IMPLICIT_SHA256) as [->|_];
    [strip_literals; by rewrite parse_hex_write_hex|].
  destruct (Z.eqb_spec t tlv_type.PARAMETERS_SHA256) as [->|_];
    [strip_literals; by rewrite parse_hex_write_hex|].
  destruct (Z.eqb_spec t tlv_type.KEYWORD) as [->|_];
    [strip_literals; by rewrite percent_decode_encode|].
  destruct (_ || _) eqn:Hint.
  - destruct (canonical_nonneg_integer v) as [n|] eqn:Hn; [|by apply parse_write_typed].
    apply canonical_nonneg_spec in Hn as [Hn ->]; [|done].
    rewrite !orb_true_iff, !Z.eqb_eq in Hint. rewrite app_assoc.
    destruct Hint as [[[[->| ->]| ->]| ->]| ->];
      (apply parse_integer_sugar; [vm_compute; tauto|done]).
  - destruct (Z.eqb_spec t tlv_type.GENERIC_NAME_COMPONENT) as [->|]; [|by apply parse_write_typed].
    destruct (write_uri_value_chars _ Hv) as [Hch _].
    rewrite parse_component_fallthrough by by left.
    unfold split_typed_prefix. rewrite split_at_eq_none by done.
    by rewrite decode_write_uri_value.
Qed.

Lemma display_last n :
  n <> [] -> Forall uri_component n -> 33 <= hd 0 (rev (display n)) <= 126.
Proof.
  intros Hne Hn. unfold display.
  assert (exists s b, [47] ++ display_components true n = s ++ [b] /\ uri_char b = true) as (s & b & -> & Hb).
  2:{ rewrite rev_app_distr. simpl. apply uri_char_range in Hb. lia. }
  assert (forall f m, m <> [] -> Forall uri_component m ->
    exists s b, display_components f m = s ++ [b] /\ uri_char b = true) as Hlast.
  { intros f m. revert f. induction m as [|c m IH]; intros f Hm Huri; [done|].
    apply Forall_cons in Huri as [Hc Huri]. simpl. destruct m as [|d m].
    - destruct (display_component_chars c Hc) as [Hch Hcne]. simpl. rewrite app_nil_r.
      destruct (exists_last Hcne) as (s & b & Heq). rewrite Heq in Hch |- *.
      apply Forall_app in Hch as [_ [Hb _]%Forall_cons].
      exists ((if f then [] else [47]) ++ s), b. by rewrite app_assoc.
    - destruct (IH false ltac:(done) Huri) as (s & b & Heq & Hb). rewrite Heq.
      exists ((if f then [] else [47]) ++ display_component c ++ s), b. by rewrite !app_assoc. }
  destruct (Hlast true n Hne Hn) as (s & b & -> & Hb). exists (47 :: s), b. done.
Qed.

Lemma parse_parts_display n :
  Forall uri_component n -> parse_parts (map display_component n) = Ok n.
Proof.
  induction 1 as [|c n Hc _ IH]; [done|]. simpl.
  destruct (display_component_chars c Hc) as [_ Hne].
  destruct (Z.eqb_spec (zlen (display_component c)) 0) as [?%zlen_0_nil|_]; [done|].
  by rewrite parse_display_component, IH.
Qed.

(** ** Properties *)

(** The URI form is faithful: printing any name, whatever the component
    types (any [u64]) and bytes, and parsing the result gives the same name.
    In particular a component value that looks like a typed prefix, a number,
    a path separator or a run of periods is never re-read as something else. *)
Theorem uri_roundtrip (n : Name) :
  Forall uri_component n -> from_str (display n) = Ok n.
Proof.
  intros Hn. destruct (decide (n = [])) as [->|Hne]; [reflexivity|].
  unfold from_str. rewrite trim_graphic; [|vm_compute; split; discriminate|by apply display_last].
  destruct (display n) as [|c s] eqn:Hd; [done|]. unfold display in Hd. injection Hd as <- <-.
  destruct (orb _ _) eqn:E.
  - exfalso. apply orb_true_iff in E as [E|E].
    + apply Z.eqb_eq, zlen_0_nil in E. done.
    + apply bool_decide_eq_true in E. assert (display_components true n = []) as E' by by injection E.
      pose proof (split_display n Hne Hn) as Hs. rewrite E' in Hs.
      destruct Hn as [|c n Hc Hn]; [done|]. destruct n; [|done]. injection Hs as Hs.
      by destruct (display_component_chars c Hc) as [_ []].
  - rewrite split_display by done. by apply parse_parts_display.
Qed.

Lemma uri_roundtrip_witness :
  from_str (display [Component.generic (str "v=1"); Component.version 300;
                     mkComponent 50 [0; 1; 2]; Component.generic [46]; mkComponent 70000 [255]])
  = Ok [Component.generic (str "v=1"); Component.version 300;
        mkComponent 50 [0; 1; 2]; Component.generic [46]; mkComponent 70000 [255]].
Proof.
  apply (uri_roundtrip [Component.generic (str "v=1"); Component.version 300;
                     mkComponent 50 [0; 1; 2]; Component.generic [46]; mkComponent 70000 [255]]).
  repeat (apply Forall_cons; split; [solve_closed|]). apply Forall_nil_2.
Defined.
