(* ===== verification/KeyCodec.v ===== *)
(** * Keys of the persistent content stores ([crates/forwarding/ndn-store/src/cs_keycodec.rs])

    The byte-string keys and packed values the disk-backed stores use.  Keys
    are compared as byte strings by the databases, so [CanBePrefix] lookups
    become range scans only if the codec preserves the canonical name order and
    the prefix relation: both are proved here. *)

From S2P Require Import Prelude Tlv Name.
#[local] Open Scope Z_scope.

Definition STALE_AT_LEN : Z := 8.

(** [write_var] appends to a growable [Vec]. *)
Definition write_var (buf : bytes) (val : Z) : bytes :=
  if val <? 253 then buf ++ [wrap 8 val]
  else if val <=? 0xFFFF then buf ++ [253] ++ be_encode 2 (wrap 16 val)
  else if val <=? 0xFFFFFFFF then buf ++ [254] ++ be_encode 4 (wrap 32 val)
  else buf ++ [255] ++ be_encode 8 val.

(** [read_var]: unlike [read_varu64] it does not reject non-minimal forms. *)
Definition read_var (buf : bytes) : option (Z * Z) :=
  match buf with
  | [] => None
  | v :: _ =>
      if v <=? 252 then Some (v, 1)
      else if v =? 253 then
        if zlen buf <? 3 then None else Some (be_decode (slice buf 1 3), 3)
      else if v =? 254 then
        if zlen buf <? 5 then None else Some (be_decode (slice buf 1 5), 5)
      else
        if zlen buf <? 9 then None else Some (be_decode (slice buf 1 9), 9)
  end.

Definition name_to_key (n : Name) : bytes :=
  fold_left (fun key c => write_var (write_var key (typ c)) (zlen (value c)) ++ value c) n [].

(** The [while pos < key.len()] loop; [Err] is an
    overflow of [pos + len] (a hostile length), [Ok None] the [?] and
    the explicit [return None].  Out of fuel is [Ok None] too; the number of
    bytes plus one is enough, since every turn consumes at least two. *)
Fixpoint key_to_name_loop (fuel : nat) (key : bytes) (pos : Z) (components : Name)
    : result (option Name) Panicked :=
  match fuel with
  | O => Ok None
  | S fuel =>
      if zlen key <=? pos then Ok (Some components)
      else match read_var (slice_from_ key pos) with
      | None => Ok None
      | Some (t, consumed) =>
          let pos := pos + consumed in
          match read_var (slice_from_ key pos) with
          | None => Ok None
          | Some (len, consumed) =>
              let pos := pos + consumed in
              match checked_add pos len with
              | None => Err ArithmeticOverflow
              | Some e =>
                  if zlen key <? e then Ok None
                  else key_to_name_loop fuel key e
                         (components ++ [Component.new t (slice key pos e)])
              end
          end
      end
  end.

Definition key_to_name (key : bytes) : result (option Name) Panicked :=
  key_to_name_loop (S (length key)) key 0 [].

(** The [while let Some(last) = end.last_mut()] loop, on the reversed list. *)
Fixpoint upper_bound_loop (rev_end : bytes) : option bytes :=
  match rev_end with
  | [] => None
  | last :: rest => if last <? 0xFF then Some (rev (last + 1 :: rest)) else upper_bound_loop rest
  end.

Definition prefix_upper_bound (prefix : bytes) : option bytes := upper_bound_loop (rev prefix).

Definition encode_value (stale_at : Z) (data : bytes) : bytes := be_encode 8 stale_at ++ data.

Definition decode_value (val : bytes) : option (Z * bytes) :=
  if zlen val <? STALE_AT_LEN then None
  else Some (be_decode (slice val 0 STALE_AT_LEN), slice_from_ val STALE_AT_LEN).

(** ** The key is the name's wire form *)

Lemma write_var_spec buf v : is_u64 v -> write_var buf v = buf ++ varu64_bytes v.
Proof.
  intros Hv. unfold_bounds. unfold write_var, varu64_bytes, wrap.
  repeat bcase_step; rewrite ?Z.mod_small by lia; first [done | lia].
Qed.

Lemma name_to_key_spec n : Forall comp_sized n -> name_to_key n = name_wire n.
Proof.
  intros H. unfold name_to_key. rewrite <- (app_nil_l (name_wire n)). generalize (@nil Z) as acc.
  induction H as [|c n [Ht Hv] _ IH]; intros acc; simpl; [by rewrite app_nil_r|].
  pose proof (zlen_nonneg (value c)).
  rewrite IH, !write_var_spec by (done || (unfold is_u64 in *; lia)).
  rewrite name_wire_cons. unfold tlv_bytes. by rewrite <- !app_assoc.
Qed.

Lemma read_var_bytes v rest :
  is_u64 v -> read_var (varu64_bytes v ++ rest) = Some (v, varu64_size v).
Proof.
  intros Hv. pose proof (read_varu64_bytes v rest Hv) as H. unfold read_varu64, read_var in *.
  destruct (varu64_bytes v ++ rest) as [|b buf]; [done|]. cbn zeta in H. revert H.
  repeat match goal with |- context [if ?c then _ else _] => destruct c end;
    congruence.
Qed.

Lemma key_to_name_loop_spec fuel pre n acc :
  Forall comp_sized n -> zlen (pre ++ name_wire n) <= usize_max ->
  (length (name_wire n) < fuel)%nat ->
  key_to_name_loop fuel (pre ++ name_wire n) (zlen pre) acc = Ok (Some (acc ++ n)).
Proof.
  intros Hn. revert pre fuel acc. induction Hn as [|c n [Ht Hv] Hn IH]; intros pre fuel acc Hl Hf.
  - destruct fuel as [|fuel]; [lia|]. simpl. change (name_wire []) with (@nil Z).
    rewrite !app_nil_r. by rewrite (proj2 (Z.leb_le _ _)) by lia.
  - destruct fuel as [|fuel]; [lia|]. cbn [key_to_name_loop].
    rewrite name_wire_cons in *. pose proof (zlen_nonneg (value c)). pose proof (zlen_nonneg (name_wire n)).
    pose proof (varu64_size_range (typ c)). pose proof (varu64_size_range (zlen (value c))).
    destruct (Z.leb_spec (zlen (pre ++ tlv_bytes (typ c) (value c) ++ name_wire n)) (zlen pre)) as [Hle|_].
    { rewrite !zlen_app, zlen_tlv_bytes in Hle. unfold tlv_size in Hle. lia. }
    rewrite slice_from_app. unfold tlv_bytes. rewrite <- !app_assoc.
    rewrite read_var_bytes by done. rewrite (app_assoc pre), <- zlen_varu64_bytes, <- zlen_app.
    rewrite slice_from_app, read_var_bytes by (split; lia).
    rewrite (app_assoc (pre ++ _)), <- zlen_varu64_bytes, <- zlen_app.
    unfold checked_add. rewrite !zlen_app, !zlen_tlv_bytes in *. unfold tlv_size in *.
    rewrite !zlen_varu64_bytes in *.
    destruct (Z.leb_spec (zlen pre + varu64_size (typ c) + varu64_size (zlen (value c)) + zlen (value c)) usize_max);
      [|lia].
    match goal with |- context [if ?x <? ?y then _ else _] => destruct (Z.ltb_spec x y); [lia|] end.
    rewrite (slice_mid _ (value c)) by (rewrite !zlen_app, !zlen_varu64_bytes; lia).
    specialize (IH (pre ++ varu64_bytes (typ c) ++ varu64_bytes (zlen (value c)) ++ value c) fuel
      (acc ++ [Component.new (typ c) (value c)])).
    rewrite <- !app_assoc in *.
    replace (zlen pre + varu64_size (typ c) + varu64_size (zlen (value c)) + zlen (value c))
      with (zlen (pre ++ varu64_bytes (typ c) ++ varu64_bytes (zlen (value c)) ++ value c))
      by (rewrite !zlen_app, !zlen_varu64_bytes; lia).
    rewrite IH; [by destruct c|rewrite !zlen_app, !zlen_varu64_bytes; lia|].
    pose proof (zlen_tlv_bytes (typ c) (value c)) as Hs. unfold tlv_size in Hs.
    rewrite length_app in Hf. unfold zlen in Hs at 1. lia.
Qed.

(** ** Byte order and name order *)

(** Equal-length heads decide before the tails. *)
Lemma bytes_cmp_app (a b r s : bytes) :
  length a = length b ->
  bytes_cmp (a ++ r) (b ++ s) = then_with (bytes_cmp a b) (bytes_cmp r s).
Proof.
  unfold bytes_cmp. revert b. induction a as [|x a IH]; intros [|y b]; try done.
  simpl. intros [= Hl]. rewrite IH by done. by destruct (Z.compare x y).
Qed.

Lemma be_decode_cons b bs : be_decode (b :: bs) = b * 256 ^ zlen bs + be_decode bs.
Proof.
  change (b :: bs) with ([b] ++ bs). rewrite be_decode_app.
  change (be_decode [b]) with (0 * 256 + b). f_equal.
Qed.

(** Byte strings of one length compare as the integers they encode. *)
Lemma bytes_cmp_be (a b : bytes) :
  wf_bytes a -> wf_bytes b -> length a = length b ->
  bytes_cmp a b = Z.compare (be_decode a) (be_decode b).
Proof.
  unfold bytes_cmp. intros Ha. revert b. induction Ha as [|x a Hx Ha IH]; intros b Hb Hl.
  { by destruct b. }
  destruct Hb as [|y b Hy Hb]; [done|]. injection Hl as Hl. simpl. rewrite IH by done.
  rewrite !be_decode_cons. assert (zlen a = zlen b) as -> by (unfold zlen; lia).
  pose proof (be_decode_bound _ Ha) as H1. pose proof (be_decode_bound _ Hb) as H2.
  assert (zlen a = zlen b) as Heq by (unfold zlen; lia). rewrite Heq in H1.
  destruct (Z.compare_spec x y) as [->|?|?]; simpl.
  - by rewrite Z.add_compare_mono_l.
  - symmetry. apply Z.compare_lt_iff. nia.
  - symmetry. apply Z.compare_gt_iff. nia.
Qed.

Lemma be_encode_cmp k v w r s :
  0 <= v < 256 ^ Z.of_nat k -> 0 <= w < 256 ^ Z.of_nat k ->
  bytes_cmp (be_encode k v ++ r) (be_encode k w ++ s) = then_with (Z.compare v w) (bytes_cmp r s).
Proof.
  intros Hv Hw. rewrite bytes_cmp_app by by rewrite !length_be_encode.
  rewrite bytes_cmp_be by (rewrite ?length_be_encode; auto using wf_be_encode).
  by rewrite !be_decode_encode, !Z.mod_small.
Qed.

(** Minimal VAR-NUMBERs of different widths are ordered by their first byte,
    of one width by their payload. *)
Lemma varu64_cmp v w r s :
  is_u64 v -> is_u64 w ->
  bytes_cmp (varu64_bytes v ++ r) (varu64_bytes w ++ s) = then_with (Z.compare v w) (bytes_cmp r s).
Proof.
  intros Hv Hw. unfold_bounds.
  assert (forall b (t u : bytes), bytes_cmp (b :: t) (b :: u) = bytes_cmp t u) as Hsame
    by (intros; unfold bytes_cmp; simpl; by rewrite Z.compare_refl).
  assert (forall a b (t u : bytes), a < b -> bytes_cmp (a :: t) (b :: u) = Lt) as Hlt.
  { intros a b t u H. unfold bytes_cmp. simpl. by rewrite (proj2 (Z.compare_lt_iff a b) H). }
  assert (forall a b (t u : bytes), b < a -> bytes_cmp (a :: t) (b :: u) = Gt) as Hgt.
  { intros a b t u H. unfold bytes_cmp. simpl. by rewrite (proj2 (Z.compare_gt_iff a b) H). }
  unfold varu64_bytes. repeat bcase_step; cbn [app].
  all: try (rewrite Hsame; apply be_encode_cmp; simpl; lia).
  all: try (rewrite Hlt by lia; by rewrite (proj2 (Z.compare_lt_iff v w)) by lia).
  all: try (rewrite Hgt by lia; by rewrite (proj2 (Z.compare_gt_iff v w)) by lia).
  done.
Qed.

Lemma name_wire_cmp a b :
  Forall comp_sized a -> Forall comp_sized b -> wf_name a -> wf_name b ->
  bytes_cmp (name_wire a) (name_wire b) = NameOps.cmp a b.
Proof.
  intros Ha. revert b. induction Ha as [|c a [Hct Hcv] Ha IH]; intros b Hb Hwa Hwb.
  - destruct b as [|d b]; [done|]. rewrite name_wire_cons. simpl.
    pose proof (tlv_bytes_nonempty (typ d) (value d) (name_wire b)).
    by destruct (tlv_bytes _ _ ++ _).
  - destruct Hb as [|d b [Hdt Hdv] Hb]; rewrite name_wire_cons.
    + pose proof (tlv_bytes_nonempty (typ c) (value c) (name_wire a)).
      by destruct (tlv_bytes _ _ ++ _).
    + apply Forall_cons in Hwa as [_ Hwa]. apply Forall_cons in Hwb as [_ Hwb].
      rewrite name_wire_cons. unfold tlv_bytes. rewrite <- !app_assoc.
      pose proof (zlen_nonneg (value c)). pose proof (zlen_nonneg (value d)).
      rewrite !varu64_cmp by (done || (split; lia)).
      unfold NameOps.cmp in *. simpl. rewrite <- IH by done. unfold NameComponent.cmp.
      destruct (Z.compare (typ c) (typ d)); simpl; try done.
      destruct (Z.compare_spec (zlen (value c)) (zlen (value d))); simpl; try done.
      apply bytes_cmp_app. unfold zlen in *. lia.
Qed.


(** ** Range scans *)

Definition bytes_le (a b : bytes) : Prop := bytes_cmp a b <> Gt.
Definition bytes_lt (a b : bytes) : Prop := bytes_cmp a b = Lt.

(** A key lies in the scanned range [start..end], open above; no upper bound
    means the scan runs to the end of the table. *)
Definition in_range (p k : bytes) : Prop :=
  bytes_le p k /\ match prefix_upper_bound p with Some u => bytes_lt k u | None => True end.

Lemma upper_bound_loop_snoc rp b :
  upper_bound_loop (rp ++ [b]) =
    match upper_bound_loop rp with
    | Some u => Some (b :: u)
    | None => if b <? 255 then Some [b + 1] else None
    end.
Proof.
  induction rp as [|x rp IH]; simpl; [by destruct (b <? 255)|].
  destruct (x <? 255); [|done]. by rewrite rev_app_distr.
Qed.

(** The loop drops trailing [0xFF]s; seen from the front it is a recursion on
    the prefix. *)
Lemma prefix_upper_bound_cons b p :
  prefix_upper_bound (b :: p) =
    match prefix_upper_bound p with
    | Some u => Some (b :: u)
    | None => if b <? 255 then Some [b + 1] else None
    end.
Proof. unfold prefix_upper_bound. simpl. apply upper_bound_loop_snoc. Qed.

Lemma bytes_cmp_cons a b (s t : bytes) :
  bytes_cmp (a :: s) (b :: t) = then_with (Z.compare a b) (bytes_cmp s t).
Proof. done. Qed.

Lemma in_range_iff p k : wf_bytes p -> wf_bytes k -> in_range p k <-> p `prefix_of` k.
Proof.
  intros Hp. revert k. unfold in_range, bytes_le, bytes_lt.
  induction Hp as [|b p Hb Hp IH]; intros k Hk.
  { split; [intros _; apply prefix_nil|]. intros _. split; [by destruct k|done]. }
  rewrite prefix_upper_bound_cons.
  destruct Hk as [|c k Hc Hk].
  { split; [by intros [[] _]|]. by intros ?%prefix_nil_inv. }
  rewrite bytes_cmp_cons. specialize (IH k Hk).
  unfold_bounds. destruct (Z.compare_spec b c) as [->|Hlt|Hgt]; simpl.
  - split.
    + intros [H1 H2]. apply prefix_cons, IH. split; [done|].
      destruct (prefix_upper_bound p) as [u|]; [|done].
      rewrite bytes_cmp_cons, Z.compare_refl in H2. done.
    + intros H%prefix_cons_inv_2. apply IH in H as [H1 H2]. split; [done|].
      destruct (prefix_upper_bound p) as [u|]; [by rewrite bytes_cmp_cons, Z.compare_refl|].
      destruct (Z.ltb_spec c 255); [|done].
      rewrite bytes_cmp_cons, (proj2 (Z.compare_lt_iff c (c + 1))) by lia. done.
  - split; [intros [_ H]; exfalso|intros H%prefix_cons_inv_1; lia].
    destruct (prefix_upper_bound p) as [u|].
    + by rewrite bytes_cmp_cons, (proj2 (Z.compare_gt_iff c b)) in H by lia.
    + destruct (Z.ltb_spec b 255); [|lia]. rewrite bytes_cmp_cons in H.
      destruct (Z.compare_spec c (b + 1)); simpl in H; [|lia|done]. by destruct k.
  - split; [by intros [[] _]|intros H%prefix_cons_inv_1; lia].
Qed.

(** ** Properties *)

(** The keys of a persistent store fit in memory. *)
Definition key_ok (n : Name) : Prop :=
  wf_name n /\ Forall comp_sized n /\ zlen (name_wire n) <= usize_max.

(** A stored key decodes to the name it was made from: [key_to_name] after
    [name_to_key] neither fails nor panics and returns the name. *)
Theorem key_roundtrip n : key_ok n -> key_to_name (name_to_key n) = Ok (Some n).
Proof.
  intros (_ & Hs & Hl). unfold key_to_name. rewrite name_to_key_spec by done.
  pose proof (key_to_name_loop_spec (S (length (name_wire n))) [] n [] Hs) as H.
  apply H; simpl; [done|lia].
Qed.

(** A range scan over the keys is a prefix query: the key of [n] lies
    between the key of [p], included, and its [prefix_upper_bound], excluded
    (or unbounded when there is none), exactly when [p] is a prefix of [n];
    and the keys are ordered as the names are. *)
Theorem key_range_scan p n :
  key_ok p -> key_ok n ->
  (in_range (name_to_key p) (name_to_key n) <-> NameOps.has_prefix n p = true) /\
  bytes_cmp (name_to_key p) (name_to_key n) = NameOps.cmp p n.
Proof.
  intros (Hwp & Hsp & _) (Hwn & Hsn & _). rewrite !name_to_key_spec by done.
  split; [|by apply name_wire_cmp].
  rewrite in_range_iff by by apply wf_name_wire.
  rewrite has_prefix_spec. by apply name_wire_prefix.
Qed.

(** The packed value of an entry gives back its staleness time and its
    bytes; anything shorter than the 8-byte header is refused. *)
Theorem cs_value_roundtrip stale_at data :
  is_u64 stale_at ->
  decode_value (encode_value stale_at data) = Some (stale_at, data) /\
  forall val, zlen val < 8 -> decode_value val = None.
Proof.
  intros Hs. unfold decode_value, encode_value, STALE_AT_LEN. split.
  - pose proof (zlen_nonneg data). rewrite zlen_app, zlen_be_encode. bcase_step; [lia|].
    assert (slice (be_encode 8 stale_at ++ data) 0 8 = be_encode 8 stale_at) as ->
      by (apply (slice_mid [] _ data); [done|by rewrite zlen_be_encode]).
    assert (slice_from_ (be_encode 8 stale_at ++ data) 8 = data) as ->
      by (rewrite <- (slice_from_app (be_encode 8 stale_at) data) at 2; by rewrite zlen_be_encode).
    rewrite be_decode_encode.
    rewrite Z.mod_small; [done|]. unfold_bounds. simpl. lia.
  - intros val ?. by rewrite (proj2 (Z.ltb_lt _ _)).
Qed.

Definition key_example : Name := [Component.generic [97]; Component.generic [255; 255]].

Lemma key_example_ok : key_ok key_example.
Proof.
  unfold key_ok, wf_name. split_conj; [| |solve_closed].
  all: unfold key_example.
  all: repeat (apply Forall_cons_2; [solve_closed|]); apply Forall_nil_2.
Qed.

Lemma key_roundtrip_witness : key_to_name (name_to_key key_example) = Ok (Some key_example).
Proof. apply key_roundtrip, key_example_ok. Defined.

Lemma key_range_scan_witness :
  in_range (name_to_key key_example) (name_to_key key_example).
Proof.
  apply (key_range_scan key_example key_example key_example_ok key_example_ok). reflexivity.
Defined.

Lemma cs_value_roundtrip_witness : decode_value (encode_value 258 [1; 2]) = Some (258, [1; 2]).
Proof. apply (cs_value_roundtrip 258 [1; 2]). solve_closed. Defined.
