(* ===== verification/BTree.v ===== *)
(** * Ordered maps

    [BTreeMap] as the list of its entries in ascending key order, for any key
    comparison that is a total order ([CmpOrder] of [Name]).  The operations are
    those the components use of the standard library: lookup, insertion (which
    replaces), removal; iteration is the list itself, [pop_first] its tail.
    [bt_wf] is the ordering; every operation keeps it. *)

From S2P Require Import Prelude Name.
#[local] Open Scope Z_scope.

Section btree.
Context {K V : Type} (cmp : K -> K -> comparison) `{!CmpOrder cmp}.

Fixpoint bt_get (k : K) (m : list (K * V)) : option V :=
  match m with
  | [] => None
  | (k', v) :: m => match cmp k k' with Eq => Some v | _ => bt_get k m end
  end.

Fixpoint bt_insert (k : K) (v : V) (m : list (K * V)) : list (K * V) :=
  match m with
  | [] => [(k, v)]
  | (k', v') :: m' =>
      match cmp k k' with
      | Lt => (k, v) :: m
      | Eq => (k, v) :: m'
      | Gt => (k', v') :: bt_insert k v m'
      end
  end.

Fixpoint bt_remove (k : K) (m : list (K * V)) : list (K * V) :=
  match m with
  | [] => []
  | (k', v') :: m' => match cmp k k' with Eq => m' | _ => (k', v') :: bt_remove k m' end
  end.

Definition bt_lt (a b : K * V) : Prop := cmp a.1 b.1 = Lt.
Definition bt_wf (m : list (K * V)) : Prop := StronglySorted bt_lt m.

Lemma cmp_refl k : cmp k k = Eq.
Proof. by apply cmp_eq. Qed.

Lemma cmp_gt k k' : cmp k k' = Gt <-> cmp k' k = Lt.
Proof. rewrite (cmp_opp k k'). by destruct (cmp k' k). Qed.

Lemma cmp_irrefl k k' : cmp k k' = Lt -> k <> k'.
Proof. intros H ->. by rewrite cmp_refl in H. Qed.

Lemma bt_wf_cons k v m : bt_wf ((k, v) :: m) <-> Forall (fun e => cmp k e.1 = Lt) m /\ bt_wf m.
Proof. split; [intros H; by apply StronglySorted_inv in H as [? ?]|intros [? ?]; by constructor]. Qed.

(** Membership is lookup. *)
Lemma bt_elem_of k v m : bt_wf m -> (k, v) ∈ m <-> bt_get k m = Some v.
Proof.
  induction m as [|[k' v'] m IH]; intros Hwf; [split; [by intros ?%not_elem_of_nil|done]|].
  apply bt_wf_cons in Hwf as [Hlt Hwf]. specialize (IH Hwf). rewrite elem_of_cons. cbn [bt_get].
  destruct (cmp k k') eqn:E.
  - apply cmp_eq in E as <-. split; [|intros [= ->]; by left]. intros [[= ->]|Hin]; [done|].
    rewrite Forall_forall in Hlt. specialize (Hlt _ Hin). cbn in Hlt. by rewrite cmp_refl in Hlt.
  - rewrite <- IH. split; [|by right]. intros [[= -> ->]|?]; [by rewrite cmp_refl in E|done].
  - rewrite <- IH. split; [|by right]. intros [[= -> ->]|?]; [by rewrite cmp_refl in E|done].
Qed.

Lemma bt_get_none_below k m : Forall (fun e => cmp k e.1 = Lt) m -> bt_get k m = None.
Proof. induction 1 as [|[k' v'] m Hlt _ IH]; [done|]. cbn in *. by rewrite Hlt. Qed.

Lemma bt_insert_forall (P : K * V -> Prop) k v m : P (k, v) -> Forall P m -> Forall P (bt_insert k v m).
Proof.
  intros Hk. induction 1 as [|[k' v'] m Hx Hm IH]; cbn [bt_insert]; [by constructor|].
  destruct (cmp k k'); repeat constructor; done.
Qed.

Lemma bt_insert_wf k v m : bt_wf m -> bt_wf (bt_insert k v m).
Proof.
  induction m as [|[k' v'] m IH]; intros Hwf; [repeat constructor|]. cbn [bt_insert].
  pose proof Hwf as Hwf0. apply bt_wf_cons in Hwf as [Hlt Hwf]. destruct (cmp k k') eqn:E.
  - apply cmp_eq in E as <-. by apply bt_wf_cons.
  - apply bt_wf_cons. split; [|done]. constructor; [done|]. eapply Forall_impl; [exact Hlt|].
    intros e He. by eapply cmp_trans.
  - apply bt_wf_cons. split; [|by apply IH]. apply bt_insert_forall; [by apply cmp_gt|done].
Qed.

Lemma bt_get_insert k v k' m : bt_wf m ->
  bt_get k' (bt_insert k v m) = match cmp k' k with Eq => Some v | _ => bt_get k' m end.
Proof.
  induction m as [|[x y] m IH]; intros Hwf; cbn [bt_insert bt_get]; [done|].
  apply bt_wf_cons in Hwf as [Hlt Hwf]. destruct (cmp k x) eqn:E; cbn [bt_get].
  - apply cmp_eq in E as <-. by destruct (cmp k' k).
  - done.
  - rewrite IH by done. destruct (cmp k' x) eqn:E'; [|done..].
    apply cmp_eq in E' as ->. apply cmp_gt in E. by rewrite E.
Qed.

Lemma bt_remove_forall (P : K * V -> Prop) k m : Forall P m -> Forall P (bt_remove k m).
Proof.
  induction 1 as [|[k' v'] m Hx Hm IH]; cbn [bt_remove]; [done|]. destruct (cmp k k'); [done|by constructor..].
Qed.

Lemma bt_remove_wf k m : bt_wf m -> bt_wf (bt_remove k m).
Proof.
  induction m as [|[k' v'] m IH]; intros Hwf; [done|]. cbn [bt_remove]. apply bt_wf_cons in Hwf as [Hlt Hwf].
  destruct (cmp k k'); [done|..]; (apply bt_wf_cons; split; [by apply bt_remove_forall|by apply IH]).
Qed.

Lemma bt_get_remove k k' m : bt_wf m ->
  bt_get k' (bt_remove k m) = match cmp k' k with Eq => None | _ => bt_get k' m end.
Proof.
  induction m as [|[x y] m IH]; intros Hwf; cbn [bt_remove bt_get]; [by destruct (cmp k' k)|].
  apply bt_wf_cons in Hwf as [Hlt Hwf]. destruct (cmp k x) eqn:E; cbn [bt_get].
  - apply cmp_eq in E as <-. destruct (cmp k' k) eqn:E'; [|done..].
    apply cmp_eq in E' as ->. by apply bt_get_none_below.
  - rewrite IH by done. destruct (cmp k' x) eqn:E'; [|done..]. apply cmp_eq in E' as ->.
    destruct (cmp x k) eqn:E'; [|done..]. apply cmp_eq in E' as ->. by rewrite cmp_refl in E.
  - rewrite IH by done. destruct (cmp k' x) eqn:E'; [|done..]. apply cmp_eq in E' as ->.
    destruct (cmp x k) eqn:E'; [|done..]. apply cmp_eq in E' as ->. by rewrite cmp_refl in E.
Qed.

Lemma bt_remove_length k m :
  zlen (bt_remove k m) = zlen m - match bt_get k m with Some _ => 1 | None => 0 end.
Proof.
  induction m as [|[x y] m IH]; [done|]. cbn [bt_remove bt_get].
  destruct (cmp k x); rewrite ?zlen_cons, ?IH; destruct (bt_get k m); lia.
Qed.

Lemma bt_insert_length k v m : bt_wf m ->
  zlen (bt_insert k v m) = zlen m + match bt_get k m with Some _ => 0 | None => 1 end.
Proof.
  induction m as [|[x y] m IH]; intros Hwf; [done|]. apply bt_wf_cons in Hwf as [Hlt Hwf]. cbn [bt_insert bt_get].
  destruct (cmp k x) eqn:E; rewrite ?zlen_cons.
  - lia.
  - rewrite bt_get_none_below; [lia|]. eapply Forall_impl; [exact Hlt|]. intros e He. by eapply cmp_trans.
  - rewrite IH by done. lia.
Qed.

(** The keys of the entries that satisfy a test. *)
Lemma bt_keys_nodup (f : K * V -> bool) m : bt_wf m -> NoDup (map fst (List.filter f m)).
Proof.
  induction m as [|[x y] m IH]; intros Hwf; [constructor|]. apply bt_wf_cons in Hwf as [Hlt Hwf]. cbn [List.filter].
  destruct (f (x, y)); [|by apply IH]. cbn [map fst]. constructor; [|by apply IH].
  intros ([k v] & Hk & Hin)%list_elem_of_fmap. cbn in Hk. subst k. apply list_elem_of_In, filter_In in Hin as [Hin _].
  apply list_elem_of_In in Hin. rewrite Forall_forall in Hlt. specialize (Hlt _ Hin). cbn in Hlt. by rewrite cmp_refl in Hlt.
Qed.

Lemma bt_keys_elem (f : K * V -> bool) m k : bt_wf m -> k ∈ map fst (List.filter f m) -> exists v, bt_get k m = Some v /\ f (k, v) = true.
Proof.
  intros Hwf ([k' v] & -> & Hin)%list_elem_of_fmap. apply list_elem_of_In, filter_In in Hin as [Hin Hf].
  exists v. split; [|done]. apply bt_elem_of; [done|]. by apply list_elem_of_In.
Qed.

Lemma bt_wf_filter (f : K * V -> bool) m : bt_wf m -> bt_wf (List.filter f m).
Proof.
  induction m as [|[x y] m IH]; intros Hwf; [done|]. apply bt_wf_cons in Hwf as [Hlt Hwf]. cbn [List.filter].
  destruct (f (x, y)); [|by apply IH]. apply bt_wf_cons. split; [|by apply IH].
  apply List.Forall_forall. intros e He. apply filter_In in He as [He _]. by eapply List.Forall_forall in Hlt.
Qed.

(** A map of the values that leaves the keys alone. *)
Lemma bt_get_map (f : K -> V -> V) k m : bt_get k (map (fun e => (e.1, f e.1 e.2)) m) = f k <$> bt_get k m.
Proof.
  induction m as [|[x y] m IH]; [done|]. cbn [map bt_get fst snd]. destruct (cmp k x) eqn:E; [|done..].
  by apply cmp_eq in E as ->.
Qed.
Lemma bt_wf_map (f : K -> V -> V) m : bt_wf m -> bt_wf (map (fun e => (e.1, f e.1 e.2)) m).
Proof.
  induction m as [|[x y] m IH]; intros Hwf; [done|]. apply bt_wf_cons in Hwf as [Hlt Hwf]. cbn [map fst snd].
  apply bt_wf_cons. split; [|by apply IH]. apply Forall_map. exact Hlt.
Qed.
End btree.
