(* ===== verification/Float64.v ===== *)
(** * IEEE 754 binary64 and binary32 arithmetic

    The [f64] and [f32] operations the program uses, on the Standard Library's
    executable specification of floating point: 53 bits of precision and exponents
    up to 1024, or 24 bits and 128; rounding to nearest even.  Conversions are those
    of [as]: an integer is rounded, a float is truncated and saturates at the bounds
    of [u64] or [i64]. *)

From S2P Require Import Prelude.
From Stdlib Require Import SpecFloat.
#[local] Open Scope Z_scope.

Abbreviation f64 := spec_float.

Definition f64_of (z : Z) : f64 := binary_normalize 53 1024 z 0 false.
(** [m * 2^e]. *)
Definition f64_scaled (m e : Z) : f64 := binary_normalize 53 1024 m e false.

Definition f64_add : f64 -> f64 -> f64 := SFadd 53 1024.
Definition f64_sub : f64 -> f64 -> f64 := SFsub 53 1024.
Definition f64_mul : f64 -> f64 -> f64 := SFmul 53 1024.
Definition f64_div : f64 -> f64 -> f64 := SFdiv 53 1024.
Definition f64_abs : f64 -> f64 := SFabs.
Definition f64_eqb : f64 -> f64 -> bool := SFeqb.
Definition f64_ltb : f64 -> f64 -> bool := SFltb.

(** [f64::max]: a NaN operand is ignored. *)
Definition f64_max (x y : f64) : f64 :=
  match x, y with
  | S754_nan, _ => y
  | _, S754_nan => x
  | _, _ => if SFltb x y then y else x
  end.

(** [x as u64]. *)
Definition f64_as_u64 (x : f64) : Z :=
  match x with
  | S754_nan | S754_zero _ | S754_infinity true | S754_finite true _ _ => 0
  | S754_infinity false => u64_max
  | S754_finite false m e => Z.min (if 0 <=? e then Z.pos m * 2 ^ e else Z.pos m / 2 ^ (- e)) u64_max
  end.

(** [m * 2^e] rounded towards zero, as the truncation of a finite float. *)
Lemma float_magnitude_nonneg m e : 0 <= if 0 <=? e then Z.pos m * 2 ^ e else Z.pos m / 2 ^ (- e).
Proof.
  destruct (Z.leb_spec 0 e); [pose proof (Z.pow_nonneg 2 e); nia|]. apply Z.div_pos; [lia|].
  apply Z.pow_pos_nonneg; lia.
Qed.

Lemma f64_as_u64_range x : is_u64 (f64_as_u64 x).
Proof.
  unfold f64_as_u64. destruct x as [s|s| |s m e]; try destruct s; try (unfold_bounds; lia).
  pose proof (float_magnitude_nonneg m e). unfold_bounds. lia.
Qed.

(** [x as i64]: truncates, saturates, and a NaN is 0. *)
Definition float_as_i64 (x : spec_float) : Z :=
  match x with
  | S754_nan | S754_zero _ => 0
  | S754_infinity false => 2 ^ 63 - 1
  | S754_infinity true => - 2 ^ 63
  | S754_finite false m e => Z.min (if 0 <=? e then Z.pos m * 2 ^ e else Z.pos m / 2 ^ (- e)) (2 ^ 63 - 1)
  | S754_finite true m e => Z.max (- (if 0 <=? e then Z.pos m * 2 ^ e else Z.pos m / 2 ^ (- e))) (- 2 ^ 63)
  end.

(** ** Binary32 *)

Abbreviation f32 := spec_float.
Definition f32_of (z : Z) : f32 := binary_normalize 24 128 z 0 false.
Definition f32_scaled (m e : Z) : f32 := binary_normalize 24 128 m e false.
Definition f32_add : f32 -> f32 -> f32 := SFadd 24 128.
Definition f32_sub : f32 -> f32 -> f32 := SFsub 24 128.
Definition f32_mul : f32 -> f32 -> f32 := SFmul 24 128.
Definition f32_div : f32 -> f32 -> f32 := SFdiv 24 128.

Lemma float_as_i64_range x : - 2 ^ 63 <= float_as_i64 x <= 2 ^ 63 - 1.
Proof.
  unfold float_as_i64. destruct x as [s|s| |s m e]; try destruct s; try lia;
    pose proof (float_magnitude_nonneg m e); lia.
Qed.
