(* ===== verification/Face.v ===== *)
(** * Faces ([crates/core/ndn-transport]: [face.rs], [face_options.rs], [face_table.rs], [face_pair_table.rs])

    Face kinds with their textual form, the locality of a face, which decides
    whether [/localhost] may cross it, the options of a face, and the two tables:
    faces by identifier, and the transmit face of an asymmetric pair.

    A [Face] here is what the tables and the stages read of one: its identifier,
    kind, addresses, link type, framing and scope; sending and receiving are
    asynchronous input and output.  A [&str] is the list of its bytes, and the
    parsing of internet addresses is that of the standard library.  A table is
    seen by one thread at a time. *)

From S2P Require Import Prelude Tlv Name NameUri.
#[local] Open Scope Z_scope.

(** ** Standard-library string and address parsing *)

(** [str::split] by a nonempty pattern. *)
Fixpoint split_str (fuel : nat) (pat s : bytes) : list bytes :=
  match fuel with
  | O => [s]
  | S fuel =>
      match strip_prefix pat s with
      | Some r => [] :: split_str fuel pat r
      | None =>
          match s with
          | [] => [[]]
          | c :: s => match split_str fuel pat s with [] => [[c]] | p :: ps => (c :: p) :: ps end
          end
      end
  end.

(** What comes before the first character that satisfies the test. *)
Fixpoint until (stop : Z -> bool) (s : bytes) : bytes :=
  match s with
  | [] => []
  | c :: s => if stop c then [] else c :: until stop s
  end.

(** [rsplit_once(c)]: what comes before the last [c]. *)
Fixpoint before_last (c : Z) (s : bytes) : option bytes :=
  match s with
  | [] => None
  | x :: s => match before_last c s with
              | Some h => Some (x :: h)
              | None => if x =? c then Some [] else None
              end
  end.

Definition to_ascii_lowercase (b : Z) : Z := if (65 <=? b) && (b <=? 90) then b + 32 else b.
Definition eq_ignore_ascii_case (s t : bytes) : bool :=
  bool_decide (map to_ascii_lowercase s = map to_ascii_lowercase t).

(** [char::to_digit]. *)
Definition to_digit (radix b : Z) : option Z :=
  let d := if is_ascii_digit b then b - 48
           else if (97 <=? b) && (b <=? 122) then b - 87
           else if (65 <=? b) && (b <=? 90) then b - 55
           else 36 in
  if d <? radix then Some d else None.

(** A step of the address parser: a value and what is left to read. *)
Abbreviation parser A := (bytes -> option (A * bytes)).

(** The digits of [read_number]: value, count. *)
Fixpoint read_digits (radix max_value : Z) (s : bytes) (acc count : Z) : option (Z * Z * bytes) :=
  match s with
  | [] => Some (acc, count, [])
  | b :: s' =>
      match to_digit radix b with
      | None => Some (acc, count, s)
      | Some d => if max_value <? acc * radix + d then None
                  else read_digits radix max_value s' (acc * radix + d) (count + 1)
      end
  end.

Definition read_number (radix max_digits max_value : Z) (allow_zero_prefix : bool) : parser Z := fun s =>
  match read_digits radix max_value s 0 0 with
  | None => None
  | Some (v, count, s') =>
      if (count =? 0) || (max_digits <? count) then None
      else if negb allow_zero_prefix && (hd 0 s =? 48) && (1 <? count) then None
      else Some (v, s')
  end.

Definition read_given_char (c : Z) : parser unit := fun s =>
  match s with x :: s => if x =? c then Some (tt, s) else None | [] => None end.

Definition read_separator {A} (sep : Z) (index : nat) (p : parser A) : parser A := fun s =>
  match index with
  | O => p s
  | S _ => match read_given_char sep s with Some (_, s) => p s | None => None end
  end.

(** The four octets. *)
Definition read_ipv4_addr : parser (list Z) := fun s =>
  let octet i := read_separator 46 i (read_number 10 3 255 false) in
  match octet 0%nat s with
  | None => None
  | Some (a, s) => match octet 1%nat s with
    | None => None
    | Some (b, s) => match octet 2%nat s with
      | None => None
      | Some (c, s) => match octet 3%nat s with
        | None => None
        | Some (d, s) => Some ([a; b; c; d], s)
        end
      end
    end
  end.

(** [read_groups]: the groups read from index [i] on, of [todo] slots, and
    whether they ended in an IPv4 address. *)
Fixpoint read_groups (todo i : nat) (s : bytes) : list Z * bool * bytes :=
  match todo with
  | O => ([], false, s)
  | S todo =>
      let v4 := match todo with O => None | S _ => read_separator 58 i read_ipv4_addr s end in
      match v4 with
      | Some ([a; b; c; d], s) => ([a * 256 + b; c * 256 + d], true, s)
      | _ => match read_separator 58 i (read_number 16 4 65535 true) s with
             | None => ([], false, s)
             | Some (g, s) => let '(gs, v4, s) := read_groups todo (S i) s in (g :: gs, v4, s)
             end
      end
  end.

(** The eight groups. *)
Definition read_ipv6_addr : parser (list Z) := fun s =>
  let '(head, head_v4, s) := read_groups 8 0 s in
  if (length head =? 8)%nat then Some (head, s)
  else if head_v4 then None
  else match read_given_char 58 s with
  | None => None
  | Some (_, s) => match read_given_char 58 s with
    | None => None
    | Some (_, s) =>
        let '(tail, _, s) := read_groups (8 - (length head + 1)) 0 s in
        Some (head ++ replicate (8 - length head - length tail) 0 ++ tail, s)
    end
  end.

Inductive IpAddr : Type := V4 (octets : list Z) | V6 (groups : list Z).

(** [str::parse::<IpAddr>]: all of the input is an address. *)
Definition parse_ip (s : bytes) : option IpAddr :=
  match read_ipv4_addr s with
  | Some (a, []) => Some (V4 a)
  | Some _ => None
  | None => match read_ipv6_addr s with Some (a, []) => Some (V6 a) | _ => None end
  end.

Definition is_loopback (ip : IpAddr) : bool :=
  match ip with
  | V4 octets => hd 0 octets =? 127
  | V6 groups => bool_decide (groups = [0; 0; 0; 0; 0; 0; 0; 1])
  end.

(** ** [face.rs] *)

(** [ip_face_uri] of an IPv4 socket address. *)
Definition ip_face_uri (scheme_base : bytes) (a b c d port : Z) : bytes :=
  scheme_base ++ str "4" ++ str "://" ++ dec a ++ str "." ++ dec b ++ str "." ++ dec c ++ str "." ++ dec d
    ++ str ":" ++ dec port.

Definition INVALID : Z := u64_max.
Definition CONTENT_STORE : Z := 254.

Inductive ScopePolicy : Type := AlwaysLocal | AlwaysNonLocal | ByRemoteAddress.
#[export] Instance ScopePolicy_eq_dec : EqDecision ScopePolicy.
Proof. solve_decision. Defined.

Module FaceKind.

Inductive FaceKind : Type :=
| Udp | Tcp | Unix | Ethernet | EtherMulticast | App | Shm | Serial | Bluetooth | Wfb | WifiAware | WifiDirect
| InfraTunnel | Compute | Internal | Multicast | WebSocket | WebTransport | Quic | WebRtc | Management.

#[global] Instance FaceKind_eq_dec : EqDecision FaceKind.
Proof. solve_decision. Defined.

Definition display (k : FaceKind) : bytes :=
  match k with
  | Udp => str "udp"
  | Tcp => str "tcp"
  | Unix => str "unix"
  | Ethernet => str "ethernet"
  | EtherMulticast => str "ether-multicast"
  | App => str "app"
  | Shm => str "shm"
  | Serial => str "serial"
  | Bluetooth => str "bluetooth"
  | Wfb => str "wfb"
  | WifiAware => str "wifi-aware"
  | WifiDirect => str "wifi-direct"
  | InfraTunnel => str "infra-tunnel"
  | Compute => str "compute"
  | Internal => str "internal"
  | Multicast => str "multicast"
  | WebSocket => str "web-socket"
  | WebTransport => str "web-transport"
  | WebRtc => str "web-rtc"
  | Quic => str "quic"
  | Management => str "management"
  end.

(** The arms of [from_str], in order. *)
Definition FROM_STR : list (bytes * FaceKind) :=
  [(str "udp", Udp); (str "tcp", Tcp); (str "unix", Unix); (str "ethernet", Ethernet);
   (str "ether-multicast", EtherMulticast); (str "app", App); (str "shm", Shm); (str "serial", Serial);
   (str "bluetooth", Bluetooth); (str "wfb", Wfb); (str "wifi-aware", WifiAware); (str "wifi-direct", WifiDirect);
   (str "compute", Compute); (str "internal", Internal); (str "multicast", Multicast); (str "web-socket", WebSocket);
   (str "web-transport", WebTransport); (str "quic", Quic); (str "management", Management)].

Definition from_str (s : bytes) : result FaceKind unit :=
  match List.find (fun arm => bool_decide (arm.1 = s)) FROM_STR with Some arm => Ok arm.2 | None => Err tt end.

Definition scope_policy (k : FaceKind) : ScopePolicy :=
  match k with
  | Unix | App | Shm | Internal | Compute | Management => AlwaysLocal
  | Ethernet | EtherMulticast | Serial | Bluetooth | Wfb | WifiAware | WifiDirect | Multicast => AlwaysNonLocal
  | Udp | Tcp | WebSocket | WebTransport | WebRtc | InfraTunnel | Quic => ByRemoteAddress
  end.

Definition uses_lp_framing (k : FaceKind) : bool :=
  match k with
  | Unix | App | Shm | Internal | Compute | Management => false
  | Udp | Tcp | Ethernet | EtherMulticast | Serial | Bluetooth | Wfb | WifiAware | WifiDirect | Multicast
  | WebSocket | WebTransport | WebRtc | InfraTunnel | Quic => true
  end.

Definition is_management (k : FaceKind) : bool := bool_decide (k = Management).

End FaceKind.
Export FaceKind (FaceKind, scope_policy).

Inductive FaceScope : Type := Local | NonLocal.
#[export] Instance FaceScope_eq_dec : EqDecision FaceScope.
Proof. solve_decision. Defined.

Definition host_of (authority : bytes) : bytes :=
  match strip_prefix (str "[") authority with
  | Some rest => until (Z.eqb 93) rest
  | None => match before_last 58 authority with Some h => h | None => authority end
  end.

Definition host_is_loopback (uri : bytes) : bool :=
  let after_scheme := match split_str (S (length uri)) (str "://") uri with _ :: s :: _ => s | _ => uri end in
  let authority := until (fun c => (c =? 47) || (c =? 63)) after_scheme in
  let host := host_of authority in
  if eq_ignore_ascii_case host (str "localhost") then true
  else match parse_ip host with Some ip => is_loopback ip | None => false end.

Definition resolve_scope (kind : FaceKind) (remote_uri : option bytes) : FaceScope :=
  match scope_policy kind with
  | AlwaysLocal => Local
  | AlwaysNonLocal => NonLocal
  | ByRemoteAddress => match host_is_loopback <$> remote_uri with Some true => Local | _ => NonLocal end
  end.

(** The deadline in nanoseconds. *)
Inductive CongestionPolicy : Type := DropWhenFull | Backpressure (deadline : Z).

Definition default_for_scope (s : FaceScope) : CongestionPolicy :=
  match s with Local => Backpressure 100000000 | NonLocal => DropWhenFull end.

Inductive FacePersistency : Type := OnDemand | Persistent | Permanent.

Definition FacePersistency_from_u64 (v : Z) : option FacePersistency :=
  if v =? 0 then Some OnDemand else if v =? 1 then Some Persistent else if v =? 2 then Some Permanent else None.

Inductive LinkType : Type := PointToPoint | MultiAccess | AdHoc.
#[export] Instance LinkType_eq_dec : EqDecision LinkType.
Proof. solve_decision. Defined.

(** [Face::new] resolves the scope once. *)
Record Face : Type := mkFace {
  f_id : Z;
  f_kind : FaceKind;
  remote_uri : option bytes;
  local_uri : option bytes;
  link_type : LinkType;
  lp_framed : bool;
  scope : FaceScope
}.

Definition Face_new (id : Z) (kind : FaceKind) (remote local : option bytes) (lt : LinkType) (lp : bool) : Face :=
  mkFace id kind remote local lt lp (resolve_scope kind remote).

(** With [default_link_service_for_kind]. *)
Definition from_transport (id : Z) (kind : FaceKind) (remote local : option bytes) (lt : LinkType) : Face :=
  Face_new id kind remote local lt (FaceKind.uses_lp_framing kind).

(** ** [face_options.rs] *)

Inductive ContentHashTarget : Type := WholeContent | InnerTlvType (t : Z).

Record FaceOptions : Type := mkOptions {
  opt_content_hash_target : option ContentHashTarget;
  opt_local_fields : bool;
  opt_lp_reliability : bool;
  opt_congestion_marking : bool;
  opt_effective_mtu : option Z;
  opt_base_congestion_marking_interval : option Z;
  opt_default_congestion_threshold : option Z;
  opt_persistency : option FacePersistency
}.

Definition default_for_kind (kind : FaceKind) : FaceOptions :=
  mkOptions (if bool_decide (scope_policy kind = AlwaysLocal) then Some WholeContent else None)
    false false false None None None None.

(** ** [face_table.rs] *)

Record FaceTable : Type := mkFaceTable { faces : gmap Z Face; next_id : Z }.

Record FaceInfo : Type := mkFaceInfo {
  info_id : Z; info_kind : FaceKind; info_remote_uri : option bytes; info_local_uri : option bytes }.

Module FaceTable.

Definition new : FaceTable := mkFaceTable ∅ 1.

(** [fetch_add] wraps. *)
Definition alloc_id (t : FaceTable) : Z * FaceTable :=
  (next_id t, mkFaceTable (faces t) (wrap 64 (next_id t + 1))).

(** [None]: [id.0 + 1] overflows. *)
Definition insert_arc (face : Face) (t : FaceTable) : option (Z * FaceTable) :=
  if u64_max <? f_id face + 1 then None
  else Some (f_id face, mkFaceTable (<[f_id face := face]> (faces t)) (Z.max (next_id t) (f_id face + 1))).

Definition insert_face := insert_arc.

Definition insert (id : Z) (kind : FaceKind) (remote local : option bytes) (lt : LinkType) (t : FaceTable)
    : option (Z * FaceTable) := insert_face (from_transport id kind remote local lt) t.

Definition get (id : Z) (t : FaceTable) : option Face := faces t !! id.
Definition remove (id : Z) (t : FaceTable) : FaceTable := mkFaceTable (delete id (faces t)) (next_id t).
Definition len (t : FaceTable) : Z := Z.of_nat (size (faces t)).
Definition is_empty (t : FaceTable) : bool := bool_decide (faces t = ∅).

(** The order in which a [DashMap] is iterated is unspecified: any permutation
    of these. *)
Definition face_ids (t : FaceTable) : list Z := map fst (map_to_list (faces t)).
Definition face_entries (t : FaceTable) : list (Z * FaceKind) :=
  map (fun kf => (f_id kf.2, f_kind kf.2)) (map_to_list (faces t)).
Definition face_info (t : FaceTable) : list FaceInfo :=
  map (fun kf => mkFaceInfo (f_id kf.2) (f_kind kf.2) (remote_uri kf.2) (local_uri kf.2)) (map_to_list (faces t)).

End FaceTable.

(** ** [face_pair_table.rs] *)

Module FacePairTable.
Definition FacePairTable : Type := gmap Z Z.
Definition new : FacePairTable := ∅.
Definition insert (rx tx : Z) (t : FacePairTable) : FacePairTable := <[rx := tx]> t.
Definition get_tx_for_rx (rx : Z) (t : FacePairTable) : option Z := t !! rx.
Definition remove (rx : Z) (t : FacePairTable) : FacePairTable := delete rx t.
Definition len (t : FacePairTable) : Z := Z.of_nat (size t).
Definition is_empty (t : FacePairTable) : bool := bool_decide (t = ∅).
End FacePairTable.

(** ** Identifiers are never given twice *)

(** What happens to a table: an identifier is allocated, a face inserted at one
    (no other than those of the last representable identifier), a face removed. *)
Inductive TableOp : Type := Alloc | Insert (face : Face) | Remove (id : Z).

(** The identifier the operation hands out or takes, and the table after it. *)
Definition table_step (op : TableOp) (t : FaceTable) : option (option Z * FaceTable) :=
  match op with
  | Alloc => let '(id, t) := FaceTable.alloc_id t in Some (Some id, t)
  | Insert f => match FaceTable.insert_arc f t with Some (id, t) => Some (Some id, t) | None => None end
  | Remove id => Some (None, FaceTable.remove id t)
  end.

Fixpoint table_run (ops : list TableOp) (t : FaceTable) : option (list (option Z) * FaceTable) :=
  match ops with
  | [] => Some ([], t)
  | op :: ops =>
      match table_step op t with
      | None => None
      | Some (o, t) => match table_run ops t with Some (os, t) => Some (o :: os, t) | None => None end
      end
  end.

(** Every face is below the counter. *)
Definition below (t : FaceTable) : Prop :=
  0 <= next_id t /\ forall id f, faces t !! id = Some f -> f_id f = id /\ id < next_id t.

Lemma table_step_below op t o t' B :
  below t -> next_id t <= B -> B + 1 <= u64_max ->
  match op with Insert f => 0 <= f_id f /\ f_id f + 1 <= B | _ => True end -> table_step op t = Some (o, t') ->
  below t' /\ next_id t <= next_id t' <= B + 1 /\ (forall id, o = Some id -> id < next_id t').
Proof.
  intros [H0 Hb] HB Hm Hf Hs. destruct op as [|f|id]; cbn in Hs.
  - simplify_eq. unfold below. cbn. rewrite wrap_small by (unfold_bounds; lia).
    split_conj; [lia| |lia|lia|intros; simplify_eq; lia]. intros id f Hid. destruct (Hb id f Hid). split; [done|lia].
  - unfold FaceTable.insert_arc in Hs. destruct (Z.ltb_spec u64_max (f_id f + 1)); [done|]. simplify_eq. unfold below. cbn.
    split_conj; [lia| |lia|lia|intros; simplify_eq; lia]. intros id f' Hid. destruct (decide (f_id f = id)) as [<-|Hne].
    + rewrite lookup_insert_eq in Hid. simplify_eq. split; [done|lia].
    + rewrite lookup_insert_ne in Hid by done. destruct (Hb id f' Hid). split; [done|lia].
  - simplify_eq. unfold below. cbn. split_conj; [done| |lia|lia|done].
    intros id' f Hid. apply lookup_delete_Some in Hid as [_ Hid]. by apply Hb.
Qed.

Lemma table_run_below ops : forall t os t' B,
  below t -> next_id t <= B -> B + zlen ops <= u64_max ->
  Forall (fun op => match op with Insert f => 0 <= f_id f /\ f_id f + 1 <= B | _ => True end) ops ->
  table_run ops t = Some (os, t') ->
  below t' /\ next_id t <= next_id t' /\ (forall id, Some id ∈ os -> id < next_id t').
Proof.
  induction ops as [|op ops IH]; intros t os t' B Hb HB Hm Hf Hr; cbn in Hr.
  - simplify_eq. split_conj; [done|done|]. by intros id ?%not_elem_of_nil.
  - apply Forall_cons in Hf as [Hop Hops]. rewrite zlen_cons in Hm. pose proof (zlen_nonneg ops).
    destruct (table_step op t) as [[o t1]|] eqn:Hs; [|done].
    destruct (table_run ops t1) as [[os1 t2]|] eqn:Hr'; [|done]. simplify_eq.
    destruct (table_step_below op t o t1 B Hb HB ltac:(lia) Hop Hs) as (Hb1 & Hn1 & Ho).
    destruct (IH t1 os1 t' (B + 1) Hb1 ltac:(lia) ltac:(lia)) as (Hb2 & Hn2 & Hos); [|done|].
    { eapply Forall_impl; [exact Hops|]. intros [|f|]; [done| |done]. lia. }
    split_conj; [done|lia|]. intros id [Heq|Hin]%elem_of_cons; [|by apply Hos].
    specialize (Ho id (eq_sym Heq)). lia.
Qed.

(** ** Loopback addresses *)

(** Every octet is read back from its decimal form: checked on all of them. *)
Definition reads_octet (a : Z) : bool :=
  bool_decide (read_number 10 3 255 false (dec a) = Some (a, []) /\ hd 0 (dec a) <> 91).

Lemma read_octet_end a : 0 <= a <= 255 -> read_number 10 3 255 false (dec a) = Some (a, []) /\ hd 0 (dec a) <> 91.
Proof.
  intros Ha. assert (forallb reads_octet (map Z.of_nat (seq 0 256)) = true) as Hall by (vm_compute; reflexivity).
  rewrite forallb_forall in Hall. specialize (Hall a). unfold reads_octet in Hall.
  apply bool_decide_eq_true in Hall; [done|]. apply in_map_iff. exists (Z.to_nat a). split; [lia|]. apply in_seq. lia.
Qed.

Lemma read_digits_dot r s : forall acc n v k,
  read_digits 10 255 s acc n = Some (v, k, []) -> read_digits 10 255 (s ++ 46 :: r) acc n = Some (v, k, 46 :: r).
Proof.
  induction s as [|b s IH]; intros acc n v k; cbn [read_digits app]; [by intros [= -> ->]|].
  destruct (to_digit 10 b); [|done]. destruct (_ <? _); [done|]. apply IH.
Qed.

Lemma read_octet_dot a r :
  0 <= a <= 255 -> read_number 10 3 255 false (dec a ++ 46 :: r) = Some (a, 46 :: r).
Proof.
  intros Ha. destruct (read_octet_end a Ha) as [H _]. unfold read_number in *.
  destruct (read_digits 10 255 (dec a) 0 0) as [[[v k] s]|] eqn:E; [|done].
  assert (hd 0 (dec a ++ 46 :: r) = hd 0 (dec a)) as Hh.
  { destruct (dec a); [|done]. cbn in E. by simplify_eq. }
  destruct ((k =? 0) || (3 <? k)) eqn:Hk; [done|]. destruct (negb false && _ && _) eqn:Hz; [done|]. simplify_eq.
  rewrite (read_digits_dot r _ _ _ _ _ E), Hh. by rewrite Hk, Hz.
Qed.

Lemma read_ipv4_dec a b c d :
  0 <= a <= 255 -> 0 <= b <= 255 -> 0 <= c <= 255 -> 0 <= d <= 255 ->
  read_ipv4_addr (dec a ++ 46 :: dec b ++ 46 :: dec c ++ 46 :: dec d) = Some ([a; b; c; d], []).
Proof.
  intros Ha Hb Hc Hd. unfold read_ipv4_addr, read_separator, read_given_char. rewrite read_octet_dot by done.
  change (46 =? 46) with true. cbn iota. rewrite read_octet_dot by done. change (46 =? 46) with true. cbn iota.
  rewrite read_octet_dot by done. change (46 =? 46) with true. cbn iota. by rewrite (proj1 (read_octet_end d Hd)).
Qed.

Lemma dec_chars_range v : 0 <= v -> Forall (fun c => 48 <= c <= 57) (dec v).
Proof.
  intros Hv. eapply Forall_impl; [by apply dec_ascii|]. unfold is_ascii_digit. intros c Hc.
  apply andb_true_iff in Hc as [?%Z.leb_le ?%Z.leb_le]. lia.
Qed.

Lemma dec_nonempty v : 0 <= v -> exists c s, dec v = c :: s.
Proof. intros [_ Hd]%dec_ascii. destruct (dec v); [done|by eexists _, _]. Qed.

(** No slash: nothing to split. *)
Lemma strip_scheme_slash s r : strip_prefix (str "://") s = Some r -> 47 ∈ s.
Proof.
  change (str "://") with [58; 47; 47]. intros H. destruct s as [|x s]; [done|]. cbn [strip_prefix] in H.
  destruct (58 =? x); [|done]. destruct s as [|y s]; [done|]. destruct (Z.eqb_spec 47 y) as [<-|]; [|done]. right. left.
Qed.

Lemma split_str_none fuel s : (length s < fuel)%nat -> 47 ∉ s -> split_str fuel (str "://") s = [s].
Proof.
  revert s. induction fuel as [|fuel IH]; intros s Hf Hs; [done|]. cbn [split_str].
  destruct (strip_prefix _ s) as [r|] eqn:E; [by apply strip_scheme_slash in E|].
  destruct s as [|c s]; [done|]. simpl in Hf. rewrite IH; [done|lia|]. intros Hin. apply Hs. by right.
Qed.

Lemma split_str_scheme pre s : forall fuel,
  (length pre + 3 + length s < fuel)%nat -> 58 ∉ pre -> 47 ∉ s ->
  split_str fuel (str "://") (pre ++ str "://" ++ s) = [pre; s].
Proof.
  induction pre as [|c pre IH]; intros [|fuel] Hf Hp Hs; try (simpl in Hf; lia).
  - change (str "://") with [58; 47; 47]. cbn [split_str app strip_prefix]. change (58 =? 58) with true.
    change (47 =? 47) with true. cbn iota. change [58; 47; 47] with (str "://").
    rewrite split_str_none; [done|simpl in Hf; lia|done].
  - simpl in Hf. cbn [app split_str]. destruct (strip_prefix _ (c :: _)) as [r|] eqn:E.
    + exfalso. change (str "://") with [58; 47; 47] in E. cbn [strip_prefix] in E.
      destruct (Z.eqb_spec 58 c) as [<-|]; [|done]. by apply Hp; left.
    + rewrite IH; [done|lia|intros ?; apply Hp; by right|done].
Qed.

Lemma until_none stop s : Forall (fun c => stop c = false) s -> until stop s = s.
Proof. induction 1 as [|c s Hc _ IH]; simpl; [done|]. by rewrite Hc, IH. Qed.

Lemma before_last_none c s : c ∉ s -> before_last c s = None.
Proof.
  induction s as [|x s IH]; intros Hs; [done|]. cbn. rewrite IH by (intros ?; apply Hs; by right).
  destruct (Z.eqb_spec x c) as [->|]; [|done]. by destruct Hs; left.
Qed.
Lemma before_last_app c h t : c ∉ t -> before_last c (h ++ c :: t) = Some h.
Proof.
  intros Ht. induction h as [|x h IH]; cbn; [|by rewrite IH]. rewrite before_last_none by done. by rewrite Z.eqb_refl.
Qed.

(** The characters of a printed address. *)
Definition quad (a b c d : Z) : bytes := dec a ++ 46 :: dec b ++ 46 :: dec c ++ 46 :: dec d.

Lemma quad_chars a b c d : 0 <= a -> 0 <= b -> 0 <= c -> 0 <= d -> Forall (fun x => 46 = x \/ 48 <= x <= 57) (quad a b c d).
Proof.
  intros. assert (forall v, 0 <= v -> Forall (fun x => 46 = x \/ 48 <= x <= 57) (dec v)) as Hd.
  { intros v Hv. eapply Forall_impl; [by apply dec_chars_range|]. intros x Hx. by right. }
  unfold quad. rewrite !Forall_app, !Forall_cons, !Forall_app, !Forall_cons, !Forall_app, !Forall_cons. auto 10.
Qed.

Lemma host_of_quad a b c d port :
  0 <= a <= 255 -> 0 <= b <= 255 -> 0 <= c <= 255 -> 0 <= d <= 255 -> 0 <= port ->
  host_of (quad a b c d ++ 58 :: dec port) = quad a b c d.
Proof.
  intros Ha Hb Hc Hd Hp. unfold host_of. destruct (strip_prefix (str "[") _) as [rest|] eqn:E.
  - exfalso. destruct (read_octet_end a Ha) as [_ Hh]. destruct (dec_nonempty a ltac:(lia)) as (x & s & Hx).
    unfold quad in E. rewrite Hx in E, Hh. cbn in E, Hh. by destruct x as [|p|]; try done; repeat (destruct p; try done).
  - rewrite before_last_app; [done|]. intros Hin. pose proof (dec_chars_range port Hp) as Hf.
    rewrite Forall_forall in Hf. specialize (Hf _ Hin). lia.
Qed.

Lemma quad_not_localhost a b c d : 0 <= a <= 255 -> eq_ignore_ascii_case (quad a b c d) (str "localhost") = false.
Proof.
  intros Ha. unfold eq_ignore_ascii_case. apply bool_decide_eq_false. intros H.
  destruct (dec_nonempty a ltac:(lia)) as (x & s & Hx). pose proof (dec_chars_range a ltac:(lia)) as Hf. rewrite Hx in Hf.
  apply Forall_inv in Hf. unfold quad in H. rewrite Hx in H. cbn [app map] in H.
  apply (f_equal (hd 0)) in H. cbn [hd] in H. unfold to_ascii_lowercase at 1 in H.
  destruct ((65 <=? x) && (x <=? 90)) eqn:Hc; [apply andb_true_iff in Hc as [?%Z.leb_le _]; lia|].
  change (hd 0 (map to_ascii_lowercase (str "localhost"))) with 108 in H. lia.
Qed.

(** The locality of an internet face is that of its peer.  For the URI of
    any IPv4 socket address, a face whose kind goes by the remote address is
    local exactly when the address is in 127.0.0.0/8; without a remote address
    it is not local. *)
Theorem scope_of_ipv4_peer (kind : FaceKind) (scheme : bytes) (a b c d port : Z) :
  scope_policy kind = ByRemoteAddress -> 58 ∉ scheme ->
  0 <= a <= 255 -> 0 <= b <= 255 -> 0 <= c <= 255 -> 0 <= d <= 255 -> 0 <= port ->
  (resolve_scope kind (Some (ip_face_uri scheme a b c d port)) = Local <-> a = 127) /\
  resolve_scope kind None = NonLocal.
Proof.
  intros Hk Hs Ha Hb Hc Hd Hp. unfold resolve_scope. rewrite Hk. split; [|done]. cbn [fmap option_fmap option_map].
  assert (host_is_loopback (ip_face_uri scheme a b c d port) = (a =? 127)) as ->.
  2:{ destruct (Z.eqb_spec a 127); naive_solver. }
  set (rest := quad a b c d ++ 58 :: dec port).
  assert (Forall (fun x => 46 = x \/ 48 <= x <= 58) rest) as Hch.
  { apply Forall_app. split; [eapply Forall_impl; [apply (quad_chars a b c d); lia|]; simpl; lia|].
    constructor; [lia|]. eapply Forall_impl; [by apply dec_chars_range|]. simpl; lia. }
  assert (ip_face_uri scheme a b c d port = (scheme ++ [52]) ++ str "://" ++ rest) as ->.
  { unfold ip_face_uri, rest, quad. change (str ".") with [46]. change (str ":") with [58]. change (str "4") with [52].
    repeat (rewrite <- app_assoc; cbn [app]). done. }
  unfold host_is_loopback. rewrite split_str_scheme.
  - rewrite until_none.
    + unfold rest. rewrite host_of_quad, quad_not_localhost by done. unfold parse_ip, quad. by rewrite read_ipv4_dec.
    + eapply Forall_impl; [exact Hch|]. intros x Hx. cbn beta in *. destruct (Z.eqb_spec x 47), (Z.eqb_spec x 63); lia || done.
  - rewrite !length_app. simpl. lia.
  - intros [?|Hin]%elem_of_app; [done|]. apply list_elem_of_singleton in Hin. lia.
  - intros Hin. rewrite Forall_forall in Hch. specialize (Hch _ Hin). lia.
Qed.

(** Identifiers are not recycled.  Whatever faces are allocated, inserted
    and removed, below the end of the counter's range, a newly allocated
    identifier is greater than every identifier handed out or inserted before,
    and no face of the table has it. *)
Theorem face_id_fresh (ops : list TableOp) (os : list (option Z)) (t : FaceTable) (B : Z) :
  1 <= B -> B + zlen ops <= u64_max ->
  Forall (fun op => match op with Insert f => 0 <= f_id f /\ f_id f + 1 <= B | _ => True end) ops ->
  table_run ops FaceTable.new = Some (os, t) ->
  let id := (FaceTable.alloc_id t).1 in
  (forall x, Some x ∈ os -> x < id) /\ FaceTable.get id t = None.
Proof.
  intros HB Hm Hf Hr id. destruct (table_run_below ops FaceTable.new os t B) as (Hb & _ & Hos); try done.
  split; [exact Hos|]. destruct (FaceTable.get id t) as [f|] eqn:E; [|done]. apply Hb in E as [_ Hlt].
  unfold id in Hlt. cbn in Hlt. lia.
Qed.

(** The identifier reserved for the content store is handed out like any other:
    it is the 254th. *)
Lemma alloc_reaches_content_store :
  exists os t, table_run (replicate 253 Alloc) FaceTable.new = Some (os, t) /\
    (FaceTable.alloc_id t).1 = CONTENT_STORE.
Proof. eexists _, _. split; vm_compute; reflexivity. Qed.

(** [INVALID] cannot be inserted: its successor overflows. *)
Lemma insert_invalid f t : f_id f = INVALID -> FaceTable.insert_arc f t = None.
Proof. intros Hf. unfold FaceTable.insert_arc. by rewrite Hf. Qed.

(** Two kinds are printed but not read back. *)
Lemma face_kind_roundtrip k :
  FaceKind.from_str (FaceKind.display k) = Ok k <-> k <> FaceKind.InfraTunnel /\ k <> FaceKind.WebRtc.
Proof. destruct k; vm_compute; naive_solver. Qed.

(** ** Witnesses *)

Lemma scope_of_ipv4_peer_witness :
  resolve_scope FaceKind.Udp (Some (ip_face_uri (str "udp") 127 0 0 1 6363)) = Local.
Proof.
  apply (scope_of_ipv4_peer FaceKind.Udp (str "udp") 127 0 0 1 6363); try lia; [reflexivity|].
  change (str "udp") with [117; 100; 112]. intros H. apply list_elem_of_In in H. destruct H as [?|[?|[?|[]]]]; discriminate.
Defined.

Definition example_face : Face := from_transport 7 FaceKind.Udp None None PointToPoint.

Lemma face_id_fresh_witness :
  exists os t, table_run [Alloc; Insert example_face; Remove 7] FaceTable.new = Some (os, t) /\
    FaceTable.get (FaceTable.alloc_id t).1 t = None.
Proof.
  eexists _, _. split; [reflexivity|].
  apply (face_id_fresh [Alloc; Insert example_face; Remove 7] [Some 1; Some 7; None] _ 8).
  - lia.
  - vm_compute. discriminate.
  - repeat (apply Forall_cons_2; [vm_compute; first [exact I | split; discriminate]|]). apply Forall_nil_2.
  - reflexivity.
Defined.
