(* ===== verification/FwdCore.v ===== *)
(** * The sans-IO forwarding core ([crates/forwarding/ndn-fwd-core])

    The decisions both forwarders share: the longest-prefix selection rule
    ([lpm.rs]), the two freshness predicates ([freshness.rs]), the trivial
    strategies ([strategy.rs]), the storage traits with their no-op and
    observing implementations ([store.rs]), the Interest and Data decisions
    ([pipeline.rs]) and the conformance vectors ([conformance.rs]).

    A trait is a [Class] of its operations, its documented promises a second
    class of laws.  A callback parameter ([emit], [send_to]) is the list of the
    arguments it is called with, in order. *)

From S2P Require Import Prelude.
#[local] Open Scope Z_scope.

(** A name as the core sees it: its component byte-slices. *)
Abbreviation Components := (list bytes).

(** ** [lpm.rs] *)

(** The body of the [for] loop of [longest_match]. *)
Definition longest_match_step {T} (name_len : Z) (best : option (Z * T)) (c : Z * T)
    : option (Z * T) :=
  if name_len <? c.1 then best
  else match best with
       | None => Some c
       | Some (b, _) => if b <? c.1 then Some c else best
       end.

Definition longest_match {T} (name_len : Z) (candidates : list (Z * T)) : option T :=
  snd <$> fold_left (longest_match_step name_len) candidates None.

(** ** [freshness.rs] *)

Definition fresh_until (now stale_at : Z) : bool := now <? stale_at.

Definition fresh_for (now stored period : Z) : bool :=
  if period =? 0 then false else wrap 32 (now - stored) <? period.

(** ** [pipeline.rs]: decision vocabulary *)

Inductive DropReason : Type :=
| HopLimitExceeded
| DuplicateNonce
| NoRoute
| SplitHorizon.

Inductive ForwardAction (F : Type) : Type :=
| Now (face : F)
| After (face : F) (delay_ms : Z).
Arguments Now {F} face.
Arguments After {F} face delay_ms.

Inductive InterestDecision (F : Type) : Type :=
| Drop (reason : DropReason)
| Forward (nexthop : F) (decrement_hop_limit : bool).
Arguments Drop {F} reason.
Arguments Forward {F} nexthop decrement_hop_limit.

Inductive DataDecision : Type :=
| Satisfied
| Unsolicited.

#[export] Instance DropReason_eq_dec : EqDecision DropReason.
Proof. solve_decision. Defined.
#[export] Instance DataDecision_eq_dec : EqDecision DataDecision.
Proof. solve_decision. Defined.
#[export] Instance ForwardAction_eq_dec {F} `{EqDecision F} : EqDecision (ForwardAction F).
Proof. solve_decision. Defined.
#[export] Instance InterestDecision_eq_dec {F} `{EqDecision F} : EqDecision (InterestDecision F).
Proof. solve_decision. Defined.

Record InterestInputs (F : Type) : Type := mkInterestInputs {
  hop_limit : option Z;
  duplicate_nonce : bool;
  nexthop : option F;
  incoming_face : F
}.
Arguments mkInterestInputs {F}.
Arguments hop_limit {F}.
Arguments duplicate_nonce {F}.
Arguments nexthop {F}.
Arguments incoming_face {F}.

Definition decide_interest {F} `{EqDecision F} (inputs : InterestInputs F) : InterestDecision F :=
  if duplicate_nonce inputs then Drop DuplicateNonce
  else if bool_decide (hop_limit inputs = Some 0) then Drop HopLimitExceeded
  else match nexthop inputs with
  | None => Drop NoRoute
  | Some nexthop =>
      if decide (nexthop = incoming_face inputs) then Drop SplitHorizon
      else Forward nexthop (match hop_limit inputs with Some _ => true | None => false end)
  end.

(** ** [strategy.rs] *)

(** [signals], a trait object the two strategies never read, has an arbitrary
    type. *)
Record DecideCtx (F Signals : Type) : Type := mkDecideCtx {
  components : Components;
  nexthops : list F;
  incoming : F;
  now_ms : Z;
  signals : Signals
}.
Arguments mkDecideCtx {F Signals}.
Arguments components {F Signals}.
Arguments nexthops {F Signals}.
Arguments incoming {F Signals}.
Arguments now_ms {F Signals}.
Arguments signals {F Signals}.

(** [Strategy]: the state of a strategy is [S]; the two observation hooks
    default to doing nothing. *)
Class Strategy (S F Signals : Type) : Type := {
  strategy_decide : S -> DecideCtx F Signals -> list (ForwardAction F);
  observe_data : S -> Components -> Z -> S;
  observe_neighbor : S -> F -> Components -> Z -> S
}.

Inductive BestRoute : Type := mkBestRoute.
Inductive Multicast : Type := mkMulticast.

Definition BestRoute_decide {F Signals} `{EqDecision F} (ctx : DecideCtx F Signals)
    : list (ForwardAction F) :=
  match list_find (fun f => f <> incoming ctx) (nexthops ctx) with
  | Some (_, nh) => [Now nh]
  | None => []
  end.

Definition Multicast_decide {F Signals} `{EqDecision F} (ctx : DecideCtx F Signals)
    : list (ForwardAction F) :=
  Now <$> filter (fun f => f <> incoming ctx) (nexthops ctx).

#[export] Instance BestRoute_strategy {F Signals} `{EqDecision F} : Strategy BestRoute F Signals := {
  strategy_decide := fun _ ctx => BestRoute_decide ctx;
  observe_data := fun s _ _ => s;
  observe_neighbor := fun s _ _ _ => s
}.

#[export] Instance Multicast_strategy {F Signals} `{EqDecision F} : Strategy Multicast F Signals := {
  strategy_decide := fun _ ctx => Multicast_decide ctx;
  observe_data := fun s _ _ => s;
  observe_neighbor := fun s _ _ _ => s
}.

(** ** [store.rs]: the storage traits *)

Class FibStore (T F : Type) : Type := {
  fib_lpm : T -> Components -> option F
}.

Class PitStore (P F : Type) : Type := {
  has_nonce : P -> Z -> bool;
  (** components, incoming face, nonce, lifetime_ms, created_ms *)
  record_pending : P -> Components -> F -> Z -> Z -> Z -> P;
  (** the faces handed to [send_to], whether anything matched *)
  satisfy : P -> Components -> list F * bool * P;
  discard_pending : P -> Components -> bool * P
}.

Class CsStore (C : Type) : Type := {
  cs_lookup : C -> Components -> Z -> option bytes;
  (** components, wire, freshness_ms, now_ms *)
  cs_admit : C -> Components -> bytes -> Z -> Z -> C;
  cs_len : C -> Z
}.
Definition cs_is_empty {C} `{CsStore C} (cs : C) : bool := cs_len cs =? 0.

Class NameTableObserver (O : Type) : Type := {
  on_pit_insert : O -> Components -> O;
  on_pit_remove : O -> Components -> O;
  on_cs_admit : O -> Components -> O
}.

Inductive NoCs : Type := mkNoCs.
#[export] Instance NoCs_store : CsStore NoCs := {
  cs_lookup := fun _ _ _ => None;
  cs_admit := fun cs _ _ _ _ => cs;
  cs_len := fun _ => 0
}.

#[export] Instance unit_observer : NameTableObserver unit := {
  on_pit_insert := fun o _ => o;
  on_pit_remove := fun o _ => o;
  on_cs_admit := fun o _ => o
}.

Record ObservedPit (P O : Type) : Type := mkObservedPit { pit_inner : P; pit_observer : O }.
Arguments mkObservedPit {P O}.
Arguments pit_inner {P O}.
Arguments pit_observer {P O}.

Record ObservedCs (C O : Type) : Type := mkObservedCs { cs_inner : C; cs_observer : O }.
Arguments mkObservedCs {C O}.
Arguments cs_inner {C O}.
Arguments cs_observer {C O}.

(** The statements of the [ObservedPit] methods, one state change each, so that
    the states between them can be named. *)
Module ObservedPit.
Section methods.
Context {P F O : Type} `{PitStore P F, NameTableObserver O}.

Definition notify_insert (s : ObservedPit P O) (k : Components) : ObservedPit P O :=
  mkObservedPit (pit_inner s) (on_pit_insert (pit_observer s) k).

Definition notify_remove (s : ObservedPit P O) (k : Components) : ObservedPit P O :=
  mkObservedPit (pit_inner s) (on_pit_remove (pit_observer s) k).

(** [record_pending]: the states after each statement. *)
Definition record_pending_states (s : ObservedPit P O) (k : Components) (face : F)
    (nonce lifetime_ms created_ms : Z) : list (ObservedPit P O) :=
  let s1 := notify_insert s k in
  let s2 := mkObservedPit (record_pending (pit_inner s1) k face nonce lifetime_ms created_ms)
              (pit_observer s1) in
  [s1; s2].

Definition satisfy_states (s : ObservedPit P O) (k : Components)
    : list F * bool * list (ObservedPit P O) :=
  let '(sent, hit, p') := satisfy (pit_inner s) k in
  let s1 := mkObservedPit p' (pit_observer s) in
  (sent, hit, if hit then [s1; notify_remove s1 k] else [s1]).

Definition discard_pending_states (s : ObservedPit P O) (k : Components)
    : bool * list (ObservedPit P O) :=
  let '(hit, p') := discard_pending (F := F) (pit_inner s) k in
  let s1 := mkObservedPit p' (pit_observer s) in
  (hit, if hit then [s1; notify_remove s1 k] else [s1]).
End methods.
End ObservedPit.

#[export] Instance ObservedPit_store {P F O} `{PitStore P F, NameTableObserver O} :
    PitStore (ObservedPit P O) F := {
  has_nonce := fun s nonce => has_nonce (F := F) (pit_inner s) nonce;
  record_pending := fun s k face nonce lifetime_ms created_ms =>
    List.last (ObservedPit.record_pending_states s k face nonce lifetime_ms created_ms) s;
  satisfy := fun s k =>
    let '(sent, hit, ss) := ObservedPit.satisfy_states s k in (sent, hit, List.last ss s);
  discard_pending := fun s k =>
    let '(hit, ss) := ObservedPit.discard_pending_states (F := F) s k in (hit, List.last ss s)
}.

#[export] Instance ObservedCs_store {C O} `{CsStore C, NameTableObserver O} :
    CsStore (ObservedCs C O) := {
  cs_lookup := fun s k now => cs_lookup (cs_inner s) k now;
  cs_admit := fun s k wire freshness_ms now =>
    let o' := on_cs_admit (cs_observer s) k in
    mkObservedCs (cs_admit (cs_inner s) k wire freshness_ms now) o';
  cs_len := fun s => cs_len (cs_inner s)
}.

(** ** [pipeline.rs]: the store-driven decisions *)

Definition decide_interest_with {Fib Pit F} `{EqDecision F, FibStore Fib F, PitStore Pit F}
    (fib : Fib) (pit : Pit) (comps : Components) (hop_limit : option Z) (nonce : Z)
    (incoming : F) : InterestDecision F :=
  decide_interest {|
    hop_limit := hop_limit;
    duplicate_nonce := negb (nonce =? 0) && has_nonce (F := F) pit nonce;
    nexthop := fib_lpm fib comps;
    incoming_face := incoming
  |}.

(** The faces handed to [send_to], the decision, and both stores after it. *)
Definition decide_data {Pit Cs F} `{PitStore Pit F, CsStore Cs}
    (pit : Pit) (cs : Cs) (comps : Components) (wire : bytes) (freshness_ms now : Z)
    : list F * DataDecision * Pit * Cs :=
  let '(sent, hit, pit') := satisfy pit comps in
  if hit then (sent, Satisfied, pit', cs_admit cs comps wire freshness_ms now)
  else (sent, Unsolicited, pit', cs).

(** ** [conformance.rs] *)

Record FreshForCase : Type := mkFreshForCase {
  ffc_now : Z; ffc_stored : Z; ffc_period : Z; ffc_fresh : bool
}.

Record InterestDecisionCase : Type := mkInterestDecisionCase {
  idc_hop_limit : option Z;
  idc_duplicate_nonce : bool;
  idc_has_route : bool;
  idc_route_to_incoming : bool;
  idc_expect_forward : bool
}.

Definition INTEREST_DECISION_CASES : list InterestDecisionCase :=
  [ mkInterestDecisionCase None false true false true;
    mkInterestDecisionCase (Some 5) false true false true;
    mkInterestDecisionCase (Some 5) false false false false;
    mkInterestDecisionCase (Some 0) false true false false;
    mkInterestDecisionCase None false true true false ].

Definition FRESH_FOR_CASES : list FreshForCase :=
  [ mkFreshForCase 50 0 100 true;
    mkFreshForCase 100 0 100 false;
    mkFreshForCase 0 0 0 false;
    mkFreshForCase 5 (u32_max - 4) 100 true ].

(** The face convention of the vectors: the Interest arrives on face 1, a route
    that is not back to it points at face 2. *)
Definition case_inputs (c : InterestDecisionCase) : InterestInputs Z := {|
  hop_limit := idc_hop_limit c;
  duplicate_nonce := idc_duplicate_nonce c;
  nexthop := if idc_has_route c then Some (if idc_route_to_incoming c then 1 else 2) else None;
  incoming_face := 1
|}.

Definition is_forward {F} (d : InterestDecision F) : bool :=
  match d with Forward _ _ => true | Drop _ => false end.

(** ** The selection rule *)

(** Candidate [i], of length [l] and value [v], wins: it is eligible, nothing
    eligible is longer, and among equals it comes first. *)
Definition wins {T} (n : Z) (cs : list (Z * T)) (i : nat) (l : Z) (v : T) : Prop :=
  cs !! i = Some (l, v) /\ l <= n /\
  forall j l' v', cs !! j = Some (l', v') -> l' <= n -> l' < l \/ (l' = l /\ (i <= j)%nat).

Definition fold_best {T} n (cs : list (Z * T)) := fold_left (longest_match_step n) cs None.

Lemma fold_best_snoc {T} n (cs : list (Z * T)) c :
  fold_best n (cs ++ [c]) = longest_match_step n (fold_best n cs) c.
Proof. unfold fold_best. by rewrite fold_left_app. Qed.

Lemma fold_best_spec {T} n (cs : list (Z * T)) :
  match fold_best n cs with
  | Some (l, v) => exists i, wins n cs i l v
  | None => Forall (fun c => n < c.1) cs
  end.
Proof.
  induction cs as [|[l v] cs IH] using rev_ind; [constructor|].
  rewrite fold_best_snoc. unfold longest_match_step. cbn [fst].
  destruct (Z.ltb_spec n l) as [Hnl|Hnl].
  - destruct (fold_best n cs) as [[b w]|].
    + destruct IH as (i & Hi & Hb & Hmax). exists i. split_and!; [by apply lookup_app_l_Some|done|].
      intros j l' v' Hj Hl'. apply lookup_app_Some in Hj as [Hj|[_ Hj]]; [by eapply Hmax|].
      apply list_lookup_singleton_Some in Hj as [_ [= <- <-]]. lia.
    + apply Forall_app. split; [done|]. by apply Forall_singleton.
  - assert (forall b, (forall j l' v', cs !! j = Some (l', v') -> l' <= n -> l' <= b) -> b < l ->
      wins n (cs ++ [(l, v)]) (length cs) l v) as Hwin.
    { intros b Hmax Hbl. split_and!; [by rewrite list_lookup_middle|done|].
      intros j l' v' Hj Hl'. apply lookup_app_Some in Hj as [Hj|[? Hj]].
      - left. specialize (Hmax _ _ _ Hj Hl'). lia.
      - apply list_lookup_singleton_Some in Hj as [? [= <- <-]]. right. split; [done|lia]. }
    destruct (fold_best n cs) as [[b w]|].
    + destruct IH as (i & Hi & Hb & Hmax). destruct (Z.ltb_spec b l) as [Hbl|Hbl].
      * exists (length cs). apply (Hwin b); [|done]. intros j l' v' Hj Hl'.
        specialize (Hmax _ _ _ Hj Hl'). lia.
      * exists i. pose proof (lookup_lt_Some _ _ _ Hi).
        split_and!; [by apply lookup_app_l_Some|done|].
        intros j l' v' Hj Hl'. apply lookup_app_Some in Hj as [Hj|[? Hj]]; [by eapply Hmax|].
        apply list_lookup_singleton_Some in Hj as [_ [= <- <-]].
        destruct (decide (l = b)); [right; lia|left; lia].
    + exists (length cs). apply (Hwin (l - 1)); [|lia]. intros j l' v' Hj Hl'.
      rewrite Forall_lookup in IH. specialize (IH _ _ Hj). simpl in IH. lia.
Qed.

Lemma wins_unique {T} n (cs : list (Z * T)) i l v i' l' v' :
  wins n cs i l v -> wins n cs i' l' v' -> i = i' /\ l = l' /\ v = v'.
Proof.
  intros (Hi & Hl & Hmax) (Hi' & Hl' & Hmax').
  specialize (Hmax _ _ _ Hi' Hl'). specialize (Hmax' _ _ _ Hi Hl).
  assert (i = i') as -> by lia. rewrite Hi in Hi'. naive_solver.
Qed.

(** [longest_match] returns the value of exactly the winning candidate:
    the longest prefix that fits in the name, the first of them on a tie; it
    returns nothing exactly when every candidate is longer than the name. *)
Theorem longest_match_selects {T} (n : Z) (cs : list (Z * T)) (v : T) :
  (longest_match n cs = Some v <-> exists i l, wins n cs i l v) /\
  (longest_match n cs = None <-> Forall (fun c => n < c.1) cs).
Proof.
  unfold longest_match. pose proof (fold_best_spec n cs) as H. fold (fold_best n cs).
  destruct (fold_best n cs) as [[l w]|]; simpl.
  - destruct H as [i Hw]. split_conj; split.
    + intros [= <-]. eauto.
    + intros (i' & l' & Hw'). by destruct (wins_unique _ _ _ _ _ _ _ _ Hw Hw') as (_ & _ & ->).
    + done.
    + destruct Hw as (Hi & Hl & _). rewrite Forall_lookup. intros Hall.
      specialize (Hall _ _ Hi). simpl in Hall. lia.
  - split_conj; split; try done.
    intros (i & l & Hi & Hl & _). rewrite Forall_lookup in H. specialize (H _ _ Hi). simpl in H. lia.
Qed.

(** ** Freshness *)

(** The 32-bit freshness test is right on a clock that wraps: for true
    millisecond times whose difference is below 2^32, it answers whether the
    age is below the period, whatever the clock read; and a wrap of the clock
    later the same stored Data counts as fresh again. *)
Theorem fresh_for_wrapping (t_now t_stored period : Z) :
  t_stored <= t_now -> is_u32 period ->
  (t_now - t_stored < 2 ^ 32 ->
    fresh_for (wrap 32 t_now) (wrap 32 t_stored) period = (t_now - t_stored <? period)) /\
  fresh_for (wrap 32 (t_now + 2 ^ 32)) (wrap 32 t_stored) period
    = fresh_for (wrap 32 t_now) (wrap 32 t_stored) period.
Proof.
  intros Hle Hp. unfold fresh_for, wrap. split.
  - intros Hage. rewrite <- Zminus_mod. rewrite (Z.mod_small (t_now - t_stored)) by lia.
    bcase; (done || lia).
  - rewrite <- Z.add_mod_idemp_r, Z.mod_same, Z.add_0_r by lia. done.
Qed.

Lemma fresh_for_wrapping_witness :
  fresh_for (wrap 32 (2 ^ 32 + 5)) (wrap 32 (2 ^ 32 - 5)) 100 = true.
Proof.
  refine (proj1 (fresh_for_wrapping (2 ^ 32 + 5) (2 ^ 32 - 5) 100 _ _) _); [lia|solve_closed|lia].
Defined.

(** ** Decisions *)

(** The Interest decision on every branch: an Interest is forwarded
    exactly when its nonce is new, its hop limit is not zero and its route
    leads to another face, to that face and with the hop limit flagged for
    decrement iff it carries one; a drop names the first check that failed, in
    the order loop, hop limit, route, split horizon. *)
Theorem decide_interest_spec {F} `{EqDecision F} (i : InterestInputs F) (f : F) (d : bool) (r : DropReason) :
  (decide_interest i = Forward f d <->
    duplicate_nonce i = false /\ hop_limit i <> Some 0 /\ nexthop i = Some f /\
    f <> incoming_face i /\ (d = true <-> is_Some (hop_limit i))) /\
  (decide_interest i = Drop r <->
    match r with
    | DuplicateNonce => duplicate_nonce i = true
    | HopLimitExceeded => duplicate_nonce i = false /\ hop_limit i = Some 0
    | NoRoute => duplicate_nonce i = false /\ hop_limit i <> Some 0 /\ nexthop i = None
    | SplitHorizon => duplicate_nonce i = false /\ hop_limit i <> Some 0 /\
                      nexthop i = Some (incoming_face i)
    end).
Proof.
  unfold decide_interest. destruct i as [[h|] [] [n|] inc]; simpl;
    repeat case_bool_decide; repeat case_decide; destruct r, d; naive_solver.
Qed.

(** The shared cross-implementation vectors hold of these definitions:
    every freshness case, and every Interest decision case. *)
Example conformance_vectors_hold :
  Forall (fun c => fresh_for (ffc_now c) (ffc_stored c) (ffc_period c) = ffc_fresh c) FRESH_FOR_CASES /\
  Forall (fun c => is_forward (decide_interest (case_inputs c)) = idc_expect_forward c) INTEREST_DECISION_CASES.
Proof. split; repeat (apply Forall_cons_2; [reflexivity|]); apply Forall_nil_2. Qed.

(** [BestRoute] sends to the first nexthop that is not the incoming face
    and to nothing else; [Multicast] to every such nexthop, in FIB order; both
    suppress exactly when the incoming face is the only one; neither ever
    sends back to it. *)
Theorem strategies_split_horizon {F S} `{EqDecision F} (ctx : DecideCtx F S) :
  (forall a, a ∈ Multicast_decide ctx <-> exists f, a = Now f /\ f ∈ nexthops ctx /\ f <> incoming ctx) /\
  BestRoute_decide ctx = take 1 (Multicast_decide ctx) /\
  (BestRoute_decide ctx = [] <-> Forall (fun f => f = incoming ctx) (nexthops ctx)).
Proof.
  unfold BestRoute_decide, Multicast_decide. split_conj.
  - intros a. rewrite list_elem_of_fmap. setoid_rewrite list_elem_of_filter. naive_solver.
  - induction (nexthops ctx) as [|f l IH]; [done|]. simpl. rewrite filter_cons.
    case_decide; [done|]. rewrite <- IH. by destruct (list_find _ l) as [[]|].
  - induction (nexthops ctx) as [|f l IH]; simpl.
    + split; [constructor|done].
    + rewrite Forall_cons. case_decide as Hf; [naive_solver|].
      destruct (list_find _ l) as [[]|]; simpl in *; [|by destruct (decide (f = incoming ctx)); naive_solver].
      split; [done|]. intros [_ HF]. by apply IH in HF.
Qed.

(** ** The observed PIT mirrors the table *)

(** What the [PitStore] documentation promises of a table, in terms of the
    keys that have an entry: recording adds no other key (a bounded table may
    refuse or evict), satisfying and discarding report whether there was an
    entry, and drop it. *)
Class PitStoreLaws (P F : Type) `{PitStore P F} : Type := {
  has_entry : P -> Components -> bool;
  record_entry : forall p k face nonce lt now k',
    has_entry (record_pending p k face nonce lt now) k' = true -> k' = k \/ has_entry p k' = true;
  satisfy_hit : forall p k sent hit p',
    satisfy p k = (sent, hit, p') -> hit = has_entry p k;
  satisfy_entry : forall p k sent hit p' k',
    satisfy p k = (sent, hit, p') -> has_entry p' k' = true -> k' <> k /\ has_entry p k' = true;
  discard_hit : forall p k hit p',
    discard_pending (F := F) p k = (hit, p') -> hit = has_entry p k;
  discard_entry : forall p k hit p' k',
    discard_pending (F := F) p k = (hit, p') -> has_entry p' k' = true -> k' <> k /\ has_entry p k' = true
}.

(** The events an observer receives, oldest last. *)
Inductive Event : Type :=
| PitInsert (k : Components)
| PitRemove (k : Components)
| CsAdmit (k : Components).

#[export] Instance log_observer : NameTableObserver (list Event) := {
  on_pit_insert := fun log k => PitInsert k :: log;
  on_pit_remove := fun log k => PitRemove k :: log;
  on_cs_admit := fun log k => CsAdmit k :: log
}.

(** A counting filter: the counter of [k] after the events. *)
Fixpoint counter (k : Components) (log : list Event) : Z :=
  match log with
  | [] => 0
  | PitInsert k' :: log => (if decide (k = k') then 1 else 0) + counter k log
  | PitRemove k' :: log => counter k log - (if decide (k = k') then 1 else 0)
  | CsAdmit _ :: log => counter k log
  end.

Inductive PitOp (F : Type) : Type :=
| OpRecord (k : Components) (face : F) (nonce lifetime_ms created_ms : Z)
| OpSatisfy (k : Components)
| OpDiscard (k : Components).
Arguments OpRecord {F}.
Arguments OpSatisfy {F}.
Arguments OpDiscard {F}.

Section mirror.
Context {P F : Type} `{PitStoreLaws P F}.

(** The states one call passes through, the last being the state it returns. *)
Definition op_states (s : ObservedPit P (list Event)) (op : PitOp F) : list (ObservedPit P (list Event)) :=
  match op with
  | OpRecord k face nonce lt now => ObservedPit.record_pending_states s k face nonce lt now
  | OpSatisfy k => snd (ObservedPit.satisfy_states (F := F) s k)
  | OpDiscard k => snd (ObservedPit.discard_pending_states (F := F) s k)
  end.

(** Every state that calls made one after the other pass through. *)
Fixpoint run_states (s : ObservedPit P (list Event)) (ops : list (PitOp F))
    : list (ObservedPit P (list Event)) :=
  s :: match ops with
       | [] => []
       | op :: ops => op_states s op ++ run_states (List.last (op_states s op) s) ops
       end.

(** The filter admits every name the table waits for. *)
Definition covered (s : ObservedPit P (list Event)) : Prop :=
  forall k, 0 <= counter k (pit_observer s) /\
            (has_entry (pit_inner s) k = true -> 1 <= counter k (pit_observer s)).

(** The tail [satisfy] and [discard_pending] share: the table has dropped the
    entry of [k], then the observer hears of it if there was one. *)
Lemma removal_covered s k p' :
  covered s ->
  (forall k', has_entry p' k' = true -> k' <> k /\ has_entry (pit_inner s) k' = true) ->
  let s1 := mkObservedPit p' (pit_observer s) in
  let ss := if has_entry (pit_inner s) k then [s1; ObservedPit.notify_remove s1 k] else [s1] in
  Forall covered ss /\ covered (List.last ss s).
Proof.
  intros Hs Hp s1 ss.
  assert (covered s1) as H1.
  { intros k'. simpl. specialize (Hs k'). split; [lia|]. intros [_ ?]%Hp. tauto. }
  subst ss. destruct (has_entry (pit_inner s) k) eqn:Hk; simpl.
  - assert (covered (ObservedPit.notify_remove s1 k)) as H2.
    { intros k'. simpl. pose proof (Hs k') as [? Hk']. case_decide as Hkk; [subst k'|].
      - specialize (Hk' Hk). split; [lia|]. by intros [? _]%Hp.
      - split; [lia|]. intros [_ ?%Hk']%Hp. lia. }
    split; [|done]. by repeat apply Forall_cons_2.
  - split; [|done]. by repeat apply Forall_cons_2.
Qed.

Lemma op_states_covered s op :
  covered s -> Forall covered (op_states s op) /\ covered (List.last (op_states s op) s).
Proof.
  intros Hs. destruct op as [k face nonce lt now|k|k]; simpl.
  - unfold ObservedPit.record_pending_states. simpl.
    assert (covered (ObservedPit.notify_insert s k)) as H1.
    { intros k'. simpl. pose proof (Hs k') as [? Hk']. case_decide; (split; [lia|]); intros ?%Hk'; lia. }
    assert (covered (mkObservedPit (record_pending (pit_inner s) k face nonce lt now)
              (PitInsert k :: pit_observer s))) as H2.
    { intros k'. simpl. pose proof (Hs k') as [? Hk']. case_decide; (split; [lia|]);
        intros [->|?%Hk']%record_entry; done || lia. }
    split; [|done]. by repeat apply Forall_cons_2.
  - unfold ObservedPit.satisfy_states. destruct (satisfy (pit_inner s) k) as [[sent hit] p'] eqn:He.
    rewrite (satisfy_hit _ _ _ _ _ He). simpl. apply removal_covered; [done|].
    intros k'. exact (satisfy_entry _ _ _ _ _ k' He).
  - unfold ObservedPit.discard_pending_states. destruct (discard_pending (pit_inner s) k) as [hit p'] eqn:He.
    rewrite (discard_hit _ _ _ _ He). simpl. apply removal_covered; [done|].
    intros k'. exact (discard_entry _ _ _ _ k' He).
Qed.

Lemma run_states_covered s ops : covered s -> Forall covered (run_states s ops).
Proof.
  revert s. induction ops as [|op ops IH]; intros s Hs; simpl; apply Forall_cons_2; try done.
  destruct (op_states_covered s op Hs) as [H1 H2]. apply Forall_app. auto.
Qed.

(** The observed PIT keeps its mirror correct: over any sequence of
    calls, from an empty table with an empty log, at every moment inside and
    between the calls, the counting filter fed by the events has a positive
    counter for every name with a pending entry, and no counter is ever
    negative. *)
Theorem observed_pit_mirror (p0 : P) (ops : list (PitOp F)) :
  (forall k, has_entry p0 k = false) ->
  Forall (fun s => forall k, 0 <= counter k (pit_observer s) /\
                    (has_entry (pit_inner s) k = true -> 1 <= counter k (pit_observer s)))
    (run_states (mkObservedPit p0 []) ops).
Proof.
  intros Hempty. apply run_states_covered. intros k. simpl. split; [lia|]. by rewrite Hempty.
Qed.
End mirror.

(** *** A reference table

    The table of the [PitStore] documentation with no bound: one list of
    [(key, face, nonce)] records. *)
Module RefPit.
Definition t : Type := list (Components * Z * Z).
Definition entry_of (k : Components) (r : Components * Z * Z) : Prop := r.1.1 = k.
#[global] Instance entry_of_dec k r : Decision (entry_of k r) := decide (r.1.1 = k).

Definition remove (p : t) (k : Components) : t := filter (fun r => r.1.1 <> k) p.

#[global] Instance store : PitStore t Z := {
  has_nonce := fun p nonce => existsb (fun r => r.2 =? nonce) p;
  record_pending := fun p k face nonce _ _ => p ++ [(k, face, nonce)];
  satisfy := fun p k =>
    let hits := filter (entry_of k) p in
    (map (fun r => r.1.2) hits, negb (bool_decide (hits = [])), remove p k);
  discard_pending := fun p k => (negb (bool_decide (filter (entry_of k) p = [])), remove p k)
}.

Definition has (p : t) (k : Components) : bool := negb (bool_decide (filter (entry_of k) p = [])).

Lemma has_iff p k : has p k = true <-> exists r, r ∈ p /\ r.1.1 = k.
Proof.
  unfold has. rewrite negb_true_iff, bool_decide_eq_false. split.
  - destruct (filter (entry_of k) p) as [|r l] eqn:Hf; [done|]. intros _.
    assert (r ∈ filter (entry_of k) p) as [? ?]%list_elem_of_filter by (rewrite Hf; left). eauto.
  - intros (r & Hr & Hk) Hf. assert (r ∈ filter (entry_of k) p) by by apply list_elem_of_filter.
    rewrite Hf in *. set_solver.
Qed.

Lemma has_remove p k k' : has (remove p k) k' = true -> k' <> k /\ has p k' = true.
Proof.
  rewrite !has_iff. intros (r & [? ?]%list_elem_of_filter & <-). eauto.
Qed.

#[global] Instance laws : PitStoreLaws t Z.
Proof.
  refine {| has_entry := has |}.
  - intros p k face nonce lt now k'. rewrite !has_iff.
    intros (r & [?|Hr%list_elem_of_singleton]%elem_of_app & <-); [eauto|subst r; by left].
  - by intros p k sent hit p' [= <- <- <-].
  - intros p k sent hit p' k' [= <- <- <-]. apply has_remove.
  - by intros p k hit p' [= <- <-].
  - intros p k hit p' k' [= <- <-]. apply has_remove.
Defined.
End RefPit.

Lemma observed_pit_mirror_witness :
  Forall (fun s => forall k, 0 <= counter k (pit_observer s) /\
                    (has_entry (P := RefPit.t) (F := Z) (pit_inner s) k = true -> 1 <= counter k (pit_observer s)))
    (run_states (P := RefPit.t) (F := Z) (mkObservedPit [] [])
      [OpRecord [[97]] 1 7 4000 0; OpRecord [[97]] 2 8 4000 1; OpSatisfy [[97]]; OpDiscard [[98]]]).
Proof. apply observed_pit_mirror. reflexivity. Defined.

(** On the Data path, over any lawful PIT and any CS: the Data is
    satisfied, and cached, exactly when its name has a pending entry, which is
    then gone; unsolicited Data leaves the cache as it was; and no other name
    becomes pending. *)
Theorem decide_data_solicited {P F C} `{PitStoreLaws P F, CsStore C} (p : P) (cs : C) k wire fresh now :
  let '(sent, d, p', cs') := decide_data (F := F) p cs k wire fresh now in
  (d = Satisfied <-> has_entry p k = true) /\
  cs' = (if has_entry p k then cs_admit cs k wire fresh now else cs) /\
  has_entry p' k = false /\
  (forall k', has_entry p' k' = true -> has_entry p k' = true).
Proof.
  unfold decide_data. destruct (satisfy p k) as [[sent hit] p'] eqn:Hs.
  pose proof (fun k' => satisfy_entry _ _ _ _ _ k' Hs) as Hp'.
  rewrite (satisfy_hit _ _ _ _ _ Hs). assert (has_entry p' k = false) as Hk.
  { destruct (has_entry p' k) eqn:Hk; [|done]. by destruct (Hp' k Hk). }
  destruct (has_entry p k) eqn:Hpk; split_conj; try done; intros k' Hk'; by destruct (Hp' k' Hk').
Qed.
