(* ===== verification/Trie.v ===== *)
(** * The name trie, the FIB and the strategy table

    [crates/forwarding/ndn-store/src/trie.rs], [fib.rs] and [strategy_table.rs].

    A node is an optional entry and its children, an association list in the
    iteration order of the [HashMap] (arbitrary, so nothing below depends on it;
    [wf_node] says that a key occurs once).  The walks from the root are
    recursions on the name; the locks, taken one node at a time, are not
    modelled, so these are the operations of one thread.

    The table a trie stands for is [abs], a finite map from names; every
    operation is proved to be the corresponding map operation, and the trie's
    longest-prefix match to be the forwarding core's [longest_match] rule over
    the stored prefixes. *)

From S2P Require Import Prelude Tlv Name NameUri FwdCore.
#[local] Open Scope Z_scope.

Inductive TrieNode (V : Type) : Type :=
| mkTrieNode (entry : option V) (children : list (NameComponent * TrieNode V)).
Arguments mkTrieNode {V} entry children.

Module NameTrie.
Section trie.
Context {V : Type}.
#[local] Abbreviation node := (TrieNode V).

Definition entry (n : node) : option V := let 'mkTrieNode e _ := n in e.
Definition children (n : node) : list (NameComponent * node) := let 'mkTrieNode _ cs := n in cs.

(** [TrieNode::new]; a [NameTrie] is its root node. *)
Definition TrieNode_new : node := mkTrieNode None [].

(** [HashMap::get] and [HashMap::insert] on the children. *)
Fixpoint child (cs : list (NameComponent * node)) (c : NameComponent) : option node :=
  match cs with
  | [] => None
  | (c', x) :: cs => if decide (c' = c) then Some x else child cs c
  end.

Fixpoint set_child (cs : list (NameComponent * node)) (c : NameComponent) (x : node)
    : list (NameComponent * node) :=
  match cs with
  | [] => [(c, x)]
  | (c', y) :: cs => if decide (c' = c) then (c', x) :: cs else (c', y) :: set_child cs c x
  end.

(** The [for component in name.components()] loop of [lpm]. *)
Fixpoint lpm_loop (current : node) (name : Name) (best : option V) : option V :=
  match name with
  | [] => best
  | component :: rest =>
      match child (children current) component with
      | None => best
      | Some c => lpm_loop c rest (match entry c with Some v => Some v | None => best end)
      end
  end.

Definition lpm (root : node) (name : Name) : option V := lpm_loop root name (entry root).

(** The read-only walk [get], [descendants] and [first_descendant] share. *)
Fixpoint descend (current : node) (name : Name) : option node :=
  match name with
  | [] => Some current
  | component :: rest => let! c := child (children current) component in descend c rest
  end.

Definition get (root : node) (name : Name) : option V :=
  match descend root name with Some n => entry n | None => None end.

(** The walk that creates missing children, then [f] on the leaf's entry. *)
Fixpoint update (current : node) (name : Name) (f : option V -> option V) : node :=
  match name with
  | [] => mkTrieNode (f (entry current)) (children current)
  | component :: rest =>
      let c := default TrieNode_new (child (children current) component) in
      mkTrieNode (entry current) (set_child (children current) component (update c rest f))
  end.

Definition insert (root : node) (name : Name) (value : V) : node :=
  update root name (fun _ => Some value).

(** A missing child ends [remove]; nodes are never deleted. *)
Fixpoint remove (current : node) (name : Name) : node :=
  match name with
  | [] => mkTrieNode None (children current)
  | component :: rest =>
      match child (children current) component with
      | None => current
      | Some c =>
          mkTrieNode (entry current) (set_child (children current) component (remove c rest))
      end
  end.

(** [out] is the vector being pushed to, [path] the stack of components. *)
Fixpoint dump_subtree (n : node) (path : Name) (out : list (Name * V)) : list (Name * V) :=
  let 'mkTrieNode e cs := n in
  let out := match e with Some v => out ++ [(path, v)] | None => out end in
  fold_left (fun out p => dump_subtree p.2 (path ++ [p.1]) out) cs out.

Definition dump (root : node) : list (Name * V) := dump_subtree root [] [].

Fixpoint collect_subtree (n : node) (out : list V) : list V :=
  let 'mkTrieNode e cs := n in
  let out := match e with Some v => out ++ [v] | None => out end in
  fold_left (fun out p => collect_subtree p.2 out) cs out.

Definition descendants (root : node) (prefix : Name) : list V :=
  match descend root prefix with None => [] | Some n => collect_subtree n [] end.

(** [for x in l { if let Some(v) = f(x) { return Some(v) } } None]. *)
Definition find_map {A B} (f : A -> option B) : list A -> option B :=
  fix go l := match l with
              | [] => None
              | x :: l => match f x with Some b => Some b | None => go l end
              end.

Fixpoint first_in_subtree (n : node) : option V :=
  let 'mkTrieNode e cs := n in
  match e with
  | Some v => Some v
  | None => find_map (fun p => first_in_subtree p.2) cs
  end.

Definition first_descendant (root : node) (prefix : Name) : option V :=
  let! n := descend root prefix in first_in_subtree n.

(** ** Structure *)

(** The keys of a [HashMap] are distinct. *)
Inductive wf_node : node -> Prop :=
| wf_node_intro e cs :
    NoDup cs.*1 -> Forall (fun p => wf_node p.2) cs -> wf_node (mkTrieNode e cs).

Fixpoint node_ind' (P : node -> Prop)
    (H : forall e cs, Forall (fun p => P p.2) cs -> P (mkTrieNode e cs)) (n : node) : P n :=
  let 'mkTrieNode e cs := n in
  H e cs ((fix go cs : Forall (fun p => P p.2) cs :=
             match cs with
             | [] => Forall_nil_2 _
             | p :: cs => Forall_cons_2 _ p cs (node_ind' P H p.2) (go cs)
             end) cs).

Lemma child_set_child cs c x c' :
  child (set_child cs c x) c' = if decide (c = c') then Some x else child cs c'.
Proof.
  induction cs as [|[d y] cs IH]; simpl; [done|].
  destruct (decide (d = c)) as [->|]; simpl; repeat case_decide; naive_solver.
Qed.

Lemma child_elem cs c x : child cs c = Some x -> (c, x) ∈ cs.
Proof.
  induction cs as [|[d y] cs IH]; simpl; [done|].
  case_decide; [intros [= ->]; subst; left|right; auto].
Qed.

Lemma child_NoDup cs c x : NoDup cs.*1 -> (c, x) ∈ cs -> child cs c = Some x.
Proof.
  induction cs as [|[d y] cs IH]; simpl; [by intros _ ?%not_elem_of_nil|].
  intros [Hd Hnd]%NoDup_cons [[= -> ->]|Hin]%elem_of_cons; [by rewrite decide_True|].
  rewrite decide_False; [auto|]. intros ->. apply Hd. apply list_elem_of_fmap. by exists (c, x).
Qed.

Lemma set_child_keys cs c x d : d ∈ (set_child cs c x).*1 <-> d = c \/ d ∈ cs.*1.
Proof.
  induction cs as [|[e y] cs IH]; simpl; [set_solver|].
  case_decide; subst; simpl; rewrite !elem_of_cons; [tauto|]. rewrite IH. tauto.
Qed.

Lemma wf_set_child cs c x :
  NoDup cs.*1 -> Forall (fun p => wf_node p.2) cs -> wf_node x ->
  NoDup (set_child cs c x).*1 /\ Forall (fun p => wf_node p.2) (set_child cs c x).
Proof.
  induction cs as [|[d y] cs IH]; simpl; intros Hnd Hwf Hx.
  - split; [apply NoDup_singleton|by apply Forall_singleton].
  - apply NoDup_cons in Hnd as [Hd Hnd]. apply Forall_cons in Hwf as [Hy Hwf].
    case_decide as Hdc; simpl.
    + split; [by apply NoDup_cons|by apply Forall_cons].
    + destruct (IH Hnd Hwf Hx). split; [|by apply Forall_cons].
      apply NoDup_cons. split; [|done]. rewrite set_child_keys. naive_solver.
Qed.

Lemma wf_new : wf_node TrieNode_new.
Proof. constructor; constructor. Qed.

Lemma wf_child n c x : wf_node n -> child (children n) c = Some x -> wf_node x.
Proof.
  destruct 1 as [e cs _ Hwf]. simpl. intros Hin%child_elem.
  by rewrite Forall_forall in Hwf; apply (Hwf (c, x)).
Qed.

Lemma wf_update n name f : wf_node n -> wf_node (update n name f).
Proof.
  revert n. induction name as [|c name IH]; intros n Hn; simpl.
  - destruct Hn. by constructor.
  - assert (wf_node (default TrieNode_new (child (children n) c))) as Hc.
    { destruct (child (children n) c) eqn:Hc; [by eapply wf_child|apply wf_new]. }
    destruct Hn as [e cs Hnd Hwf]. simpl in *.
    destruct (wf_set_child cs c _ Hnd Hwf (IH _ Hc)). by constructor.
Qed.

Lemma wf_remove n name : wf_node n -> wf_node (remove n name).
Proof.
  revert n. induction name as [|c name IH]; intros n Hn; simpl.
  - destruct Hn. by constructor.
  - destruct (child (children n) c) as [x|] eqn:Hc; [|done].
    pose proof (IH _ (wf_child _ _ _ Hn Hc)) as Hx. destruct Hn as [e cs Hnd Hwf]. simpl in *.
    destruct (wf_set_child cs c _ Hnd Hwf Hx). by constructor.
Qed.

(** ** Reading back what was written *)

Lemma get_cons n c name :
  get n (c :: name) = match child (children n) c with Some x => get x name | None => None end.
Proof. unfold get. simpl. by destruct (child (children n) c). Qed.

Lemma get_new name : get TrieNode_new name = None.
Proof. by destruct name. Qed.

Lemma get_update n name f name' :
  get (update n name f) name' = if decide (name = name') then f (get n name) else get n name'.
Proof.
  revert n name'. induction name as [|c name IH]; intros n name'.
  - by destruct name'.
  - destruct name' as [|c' name']; [done|]. simpl update.
    rewrite get_cons. cbn [children]. rewrite child_set_child, !get_cons.
    destruct (decide (c = c')) as [<-|Hne].
    + rewrite IH. destruct (child (children n) c); simpl; rewrite ?get_new;
        repeat case_decide; congruence.
    + rewrite decide_False by congruence. done.
Qed.

Lemma get_remove n name name' :
  get (remove n name) name' = if decide (name = name') then None else get n name'.
Proof.
  revert n name'. induction name as [|c name IH]; intros n name'.
  - by destruct name'.
  - simpl remove. destruct (child (children n) c) as [x|] eqn:Hc.
    + destruct name' as [|c' name']; [done|].
      rewrite get_cons. cbn [children]. rewrite child_set_child, !get_cons.
      destruct (decide (c = c')) as [<-|Hne].
      * rewrite IH, Hc. repeat case_decide; congruence.
      * rewrite decide_False by congruence. done.
    + case_decide; [|done]. subst. by rewrite get_cons, Hc.
Qed.

(** ** Walking the whole tree *)

Definition under (c : NameComponent) (nv : Name * V) : Name * V := (c :: nv.1, nv.2).

(** The stored pairs of a subtree, in the order the walks visit them. *)
Fixpoint entries (n : node) : list (Name * V) :=
  let 'mkTrieNode e cs := n in
  match e with Some v => [([], v)] | None => [] end
  ++ concat (map (fun p => under p.1 <$> entries p.2) cs).

Definition child_entries (cs : list (NameComponent * node)) : list (Name * V) :=
  concat (map (fun p => under p.1 <$> entries p.2) cs).

Lemma dump_subtree_entries n path out :
  dump_subtree n path out = out ++ ((fun nv => (path ++ nv.1, nv.2)) <$> entries n).
Proof.
  revert path out. induction n as [e cs IH] using node_ind'. intros path out. simpl.
  assert (forall out', fold_left (fun out p => dump_subtree p.2 (path ++ [p.1]) out) cs out' =
    out' ++ ((fun nv => (path ++ nv.1, nv.2)) <$> child_entries cs)) as Hcs.
  { induction IH as [|[c x] cs Hx _ IHcs]; intros out'; simpl; [by rewrite app_nil_r|].
    rewrite IHcs. simpl in Hx. rewrite Hx, <- app_assoc. f_equal.
    unfold child_entries. simpl. rewrite fmap_app. f_equal.
    rewrite <- list_fmap_compose. apply list_fmap_ext. intros i [m v] _. unfold under. simpl.
    by rewrite <- app_assoc. }
  rewrite Hcs. destruct e as [v|]; simpl; [|done]. by rewrite <- app_assoc, app_nil_r.
Qed.

Lemma dump_entries n : dump n = entries n.
Proof.
  unfold dump. rewrite dump_subtree_entries. simpl. rewrite <- (list_fmap_id (entries n)) at 2.
  apply list_fmap_ext. by intros i [] _.
Qed.

Lemma collect_subtree_entries n out : collect_subtree n out = out ++ (entries n).*2.
Proof.
  revert out. induction n as [e cs IH] using node_ind'. intros out. simpl.
  assert (forall out', fold_left (fun out p => collect_subtree p.2 out) cs out' =
    out' ++ (child_entries cs).*2) as Hcs.
  { induction IH as [|[c x] cs Hx _ IHcs]; intros out'; simpl; [by rewrite app_nil_r|].
    rewrite IHcs. simpl in Hx. rewrite Hx, <- app_assoc. f_equal.
    unfold child_entries. simpl. rewrite fmap_app. f_equal.
    rewrite <- list_fmap_compose. by apply list_fmap_ext. }
  rewrite Hcs, fmap_app, app_assoc. by destruct e; simpl; rewrite ?app_nil_r.
Qed.

Lemma first_in_subtree_entries n : first_in_subtree n = head (entries n).*2.
Proof.
  induction n as [e cs IH] using node_ind'. simpl. destruct e as [v|]; simpl; [done|].
  induction IH as [|[c x] cs Hx _ IHcs]; simpl; [done|].
  simpl in Hx. rewrite Hx. destruct (entries x) as [|[m v] l]; simpl; [|done]. apply IHcs.
Qed.

Lemma elem_child_entries cs m v :
  (m, v) ∈ child_entries cs <-> exists c x m', (c, x) ∈ cs /\ m = c :: m' /\ (m', v) ∈ entries x.
Proof.
  unfold child_entries. rewrite list_elem_of_In, in_concat. split.
  - intros (l & ([c x] & <- & Hin)%in_map_iff & Hm). simpl in Hm.
    apply list_elem_of_In, list_elem_of_fmap in Hm as ([m' v'] & [= -> ->] & Hm).
    exists c, x, m'. split_and!; [by apply list_elem_of_In|done|done].
  - intros (c & x & m' & Hin & -> & Hm). exists (under c <$> entries x). split.
    + apply in_map_iff. exists (c, x). split; [done|by apply list_elem_of_In].
    + apply list_elem_of_In, list_elem_of_fmap. by exists (m', v).
Qed.

Lemma elem_entries n m v : wf_node n -> (m, v) ∈ entries n <-> get n m = Some v.
Proof.
  revert m. induction n as [e cs IH] using node_ind'. intros m Hwf.
  inversion Hwf as [e' cs' Hnd Hcs]; subst. simpl. fold (child_entries cs).
  rewrite elem_of_app, elem_child_entries. rewrite Forall_forall in IH, Hcs.
  destruct m as [|c m].
  - unfold get. simpl. destruct e as [w|]; [|set_solver]. rewrite list_elem_of_singleton. naive_solver.
  - rewrite get_cons. simpl. split.
    + intros [H|(d & x & m' & Hin & [= <- <-] & Hm)]; [destruct e; set_solver|].
      rewrite (child_NoDup _ _ _ Hnd Hin). apply (IH _ Hin); [|done]. by apply (Hcs _ Hin).
    + intros H. right. destruct (child cs c) as [x|] eqn:Hc; [|done].
      pose proof (child_elem _ _ _ Hc) as Hin. exists c, x, m. split_and!; [done..|].
      apply (IH _ Hin); [|done]. by apply (Hcs _ Hin).
Qed.

Lemma NoDup_entries n : wf_node n -> NoDup (entries n).*1.
Proof.
  induction n as [e cs IH] using node_ind'. intros Hwf.
  inversion Hwf as [e' cs' Hnd Hcs]; subst. clear Hwf.
  assert (NoDup (child_entries cs).*1) as Hce.
  { induction IH as [|[c x] cs Hx _ IHcs]; [constructor|].
    apply NoDup_cons in Hnd as [Hc Hnd]. apply Forall_cons in Hcs as [Hwx Hcs].
    unfold child_entries. simpl. rewrite fmap_app. apply NoDup_app. split_and!.
    - rewrite <- list_fmap_compose.
      change (NoDup (cons c ∘ fst <$> entries x)).
      rewrite (list_fmap_compose fst (cons c)). apply NoDup_fmap_2; [|by apply Hx].
      intros ? ? [= ->]. done.
    - intros m Hm Hm'. apply list_elem_of_fmap in Hm as ([m1 v1] & -> & Hm).
      apply list_elem_of_fmap in Hm as ([m2 v2] & [= -> ->] & _).
      apply list_elem_of_fmap in Hm' as ([m3 v3] & Heq & Hm').
      apply elem_child_entries in Hm' as (c' & x' & m' & Hin & -> & _). simpl in Heq.
      injection Heq as -> _. apply Hc, list_elem_of_fmap. by exists (c', x').
    - by apply IHcs. }
  simpl. fold (child_entries cs). destruct e as [v|]; simpl; [|done].
  apply NoDup_cons. split; [|done]. intros ([m w] & Heq & Hm)%list_elem_of_fmap.
  apply elem_child_entries in Hm as (c & x & m' & _ & -> & _). done.
Qed.

(** ** The table a trie stands for *)

Definition abs (n : node) : gmap Name V := list_to_map (dump n).

Lemma lookup_abs n m : wf_node n -> abs n !! m = get n m.
Proof.
  intros Hwf. unfold abs. rewrite dump_entries. apply option_eq. intros v.
  rewrite <- elem_of_list_to_map by by apply NoDup_entries. by apply elem_entries.
Qed.

(** [lpm] without its accumulator. *)
Lemma lpm_loop_best n m best :
  lpm_loop n m best = match lpm_loop n m None with Some v => Some v | None => best end.
Proof.
  revert n best. induction m as [|c m IH]; intros n best; simpl; [done|].
  destruct (child (children n) c) as [x|]; [|done].
  rewrite (IH x (match entry x with Some v => Some v | None => best end)),
    (IH x (match entry x with Some v => Some v | None => None end)).
  by destruct (lpm_loop x m None), (entry x).
Qed.

Lemma lpm_cons n c m :
  lpm n (c :: m) =
    match child (children n) c with
    | Some x => match lpm x m with Some v => Some v | None => entry n end
    | None => entry n
    end.
Proof.
  unfold lpm. simpl. destruct (child (children n) c) as [x|]; [|done].
  rewrite lpm_loop_best, (lpm_loop_best x m (entry x)).
  by destruct (lpm_loop x m None), (entry x).
Qed.

(** [v] is stored at the prefix of [m] of length [k], and nothing at a longer
    prefix of [m]. *)
Definition longest_stored (n : node) (m : Name) (k : nat) (v : V) : Prop :=
  (k <= length m)%nat /\ get n (take k m) = Some v /\
  forall j, (k < j <= length m)%nat -> get n (take j m) = None.

Lemma lpm_spec n m :
  match lpm n m with
  | Some v => exists k, longest_stored n m k v
  | None => forall j, (j <= length m)%nat -> get n (take j m) = None
  end.
Proof.
  revert n. induction m as [|c m IH]; intros n.
  { unfold lpm. simpl. destruct (entry n) as [v|] eqn:He.
    - exists 0%nat. split_and!; [simpl; lia|done|simpl; lia].
    - intros j Hj. by rewrite take_nil. }
  assert (forall v, entry n = Some v -> (forall j, (j <= length m)%nat -> get n (c :: take j m) = None) ->
    exists k, longest_stored n (c :: m) k v) as Hentry.
  { intros v Hv Hnone. exists 0%nat. split_and!; [lia|done|]. intros [|j] Hj; [lia|].
    apply Hnone. simpl in Hj. lia. }
  assert (entry n = None -> (forall j, (j <= length m)%nat -> get n (c :: take j m) = None) ->
    forall j, (j <= length (c :: m))%nat -> get n (take j (c :: m)) = None) as Hnothing.
  { intros He Hnone [|j] Hj; [done|]. apply Hnone. simpl in Hj. lia. }
  rewrite lpm_cons. setoid_rewrite get_cons in Hentry. setoid_rewrite get_cons in Hnothing.
  destruct (child (children n) c) as [x|] eqn:Hc.
  - specialize (IH x). destruct (lpm x m) as [v|].
    + destruct IH as (k & Hk & Hg & Hmax). exists (S k). split_and!; [simpl; lia| |].
      * simpl. by rewrite get_cons, Hc.
      * intros [|j] Hj; [lia|]. simpl. rewrite get_cons, Hc. apply Hmax. simpl in Hj. lia.
    + destruct (entry n) as [v|]; auto.
  - destruct (entry n) as [v|]; auto.
Qed.

(** The stored prefixes of [m], with their lengths: what a linear table hands
    to the forwarding core. *)
Definition candidates (n : node) (m : Name) : list (Z * V) :=
  (fun pv => (NameOps.len pv.1, pv.2)) <$> filter (fun pv => NameOps.has_prefix m pv.1 = true) (dump n).

Lemma elem_candidates n m l v :
  wf_node n ->
  (l, v) ∈ candidates n m <->
    exists k, (k <= length m)%nat /\ l = Z.of_nat k /\ get n (take k m) = Some v.
Proof.
  intros Hwf. unfold candidates. rewrite dump_entries, list_elem_of_fmap. split.
  - intros ([p w] & [= -> ->] & [[r Heq]%has_prefix_spec Hp]%list_elem_of_filter). simpl in *. subst m.
    exists (length p). rewrite take_app_length, length_app. split_and!; [lia|done|].
    by apply elem_entries.
  - intros (k & Hk & -> & Hg). exists (take k m, v). split.
    + unfold NameOps.len, zlen. simpl. rewrite length_take. do 2 f_equal. lia.
    + apply list_elem_of_filter. split; [|by apply elem_entries].
      apply has_prefix_spec. exists (drop k m). simpl. by rewrite take_drop.
Qed.

Lemma descend_get n p x m : descend n p = Some x -> get n (p ++ m) = get x m.
Proof.
  revert n. induction p as [|c p IH]; intros n; simpl; [by intros [= ->]|].
  destruct (child (children n) c) as [y|] eqn:Hc; [|done]. intros Hd.
  rewrite get_cons, Hc. by apply IH.
Qed.

Lemma descend_None n p m : descend n p = None -> get n (p ++ m) = None.
Proof.
  revert n. induction p as [|c p IH]; intros n; simpl; [done|]. rewrite get_cons.
  destruct (child (children n) c) as [y|]; [apply IH|done].
Qed.

Lemma wf_descend n p x : wf_node n -> descend n p = Some x -> wf_node x.
Proof.
  revert n. induction p as [|c p IH]; intros n Hn; simpl; [by intros [= <-]|].
  destruct (child (children n) c) as [y|] eqn:Hc; [|done]. apply IH. by eapply wf_child.
Qed.

(** The entries below a prefix, with their full names. *)
Lemma descendants_entries n p :
  wf_node n -> descendants n p ≡ₚ (filter (fun pv => p `prefix_of` pv.1) (dump n)).*2.
Proof.
  intros Hwf. unfold descendants. rewrite dump_entries.
  destruct (descend n p) as [x|] eqn:Hd.
  - rewrite collect_subtree_entries. simpl. pose proof (wf_descend _ _ _ Hwf Hd) as Hx.
    assert ((fun nv => (p ++ nv.1, nv.2)) <$> entries x ≡ₚ
            filter (fun pv => p `prefix_of` pv.1) (entries n)) as <-.
    { apply NoDup_Permutation.
      - apply NoDup_fmap_2; [intros [m1 v1] [m2 v2]; simpl; intros [= ?%app_inv_head ->]; congruence|].
        by eapply NoDup_fmap_1, NoDup_entries.
      - apply NoDup_filter. by eapply NoDup_fmap_1, NoDup_entries.
      - intros [m v]. rewrite list_elem_of_fmap, list_elem_of_filter, elem_entries by done. split.
        + intros ([m' v'] & [= -> ->] & Hm%elem_entries); [|done]. simpl.
          split; [by exists m'|]. by rewrite (descend_get _ _ _ _ Hd).
        + intros [[m' Heq] Hg]. simpl in Heq. subst m. rewrite (descend_get _ _ _ _ Hd) in Hg.
          exists (m', v). split; [done|]. by apply elem_entries. }
    rewrite <- list_fmap_compose. by apply Permutation_refl', list_fmap_ext.
  - assert (filter (fun pv => p `prefix_of` pv.1) (entries n) = []) as ->; [|done].
    destruct (filter _ _) as [|[m v] l] eqn:Hf; [done|]. exfalso.
    assert ((m, v) ∈ filter (fun pv => p `prefix_of` pv.1) (entries n)) as Hin by (rewrite Hf; left).
    apply list_elem_of_filter in Hin as [[m' Heq] Hin%elem_entries]; [|done].
    simpl in Heq. subst m. by rewrite (descend_None _ _ _ Hd) in Hin.
Qed.

(** The trie is a finite map from names: from the empty trie on,
    [insert], [update] and [remove] keep it well formed and act on the stored
    table as the map operations, and [get] and [dump] read that table. *)
Theorem trie_refines_map (t : node) (name : Name) (v : V) (f : option V -> option V) :
  wf_node t ->
  wf_node TrieNode_new /\ abs TrieNode_new = ∅ /\
  wf_node (insert t name v) /\ abs (insert t name v) = <[name := v]> (abs t) /\
  wf_node (update t name f) /\ abs (update t name f) = partial_alter f name (abs t) /\
  wf_node (remove t name) /\ abs (remove t name) = delete name (abs t) /\
  get t name = abs t !! name /\ map_to_list (abs t) ≡ₚ dump t.
Proof.
  intros Hwf. pose proof (wf_update t name (fun _ => Some v) Hwf). pose proof (wf_update t name f Hwf).
  pose proof (wf_remove t name Hwf).
  split_and!; try done; try apply wf_new.
  - apply map_eq. intros m. rewrite lookup_abs by done. unfold insert. rewrite get_update.
    rewrite lookup_insert, lookup_abs by done. repeat case_decide; congruence.
  - apply map_eq. intros m. rewrite lookup_abs, get_update by done.
    rewrite lookup_partial_alter, !lookup_abs by done. repeat case_decide; congruence.
  - apply map_eq. intros m. rewrite lookup_abs, get_remove by done.
    rewrite lookup_delete, lookup_abs by done. repeat case_decide; congruence.
  - by rewrite lookup_abs.
  - unfold abs. apply map_to_list_to_map. rewrite dump_entries. by apply NoDup_entries.
Qed.

(** C39: The trie's longest-prefix match is the forwarding core's rule applied
    to the stored prefixes of the name: the walk and a linear scan of the table
    return the same value. *)
Theorem trie_lpm_longest_match (t : node) (name : Name) :
  wf_node t -> lpm t name = longest_match (NameOps.len name) (candidates t name).
Proof.
  intros Hwf. unfold longest_match. fold (fold_best (NameOps.len name) (candidates t name)).
  pose proof (fold_best_spec (NameOps.len name) (candidates t name)) as Hb.
  pose proof (lpm_spec t name) as Hl.
  destruct (fold_best _ _) as [[l w]|]; simpl.
  - destruct Hb as (i & Hi & Hle & Hmax).
    apply list_elem_of_lookup_2, elem_candidates in Hi as (k & Hk & -> & Hg); [|done].
    destruct (lpm t name) as [v|]; [|by rewrite Hl in Hg by done].
    destruct Hl as (k' & Hk' & Hg' & Hmax').
    assert ((Z.of_nat k', v) ∈ candidates t name) as Hin by (apply elem_candidates; eauto).
    apply list_elem_of_lookup in Hin as [j Hj].
    assert (Z.of_nat k' <= Z.of_nat k).
    { destruct (Hmax _ _ _ Hj) as [|[]]; [unfold NameOps.len, zlen; lia|lia|lia]. }
    destruct (decide (k = k')) as [<-|]; [congruence|]. rewrite Hmax' in Hg by lia. done.
  - destruct (lpm t name) as [v|]; [|done]. destruct Hl as (k & Hk & Hg & _). exfalso.
    assert ((Z.of_nat k, v) ∈ candidates t name) as Hin by (apply elem_candidates; eauto).
    rewrite Forall_forall in Hb. specialize (Hb _ Hin). unfold NameOps.len, zlen in Hb.
    simpl in Hb. lia.
Qed.

(** [descendants] returns the values of exactly the stored names under the
    prefix, each once; [first_descendant] is the first of them, so it finds one
    whenever there is one. *)
Theorem trie_descendants (t : node) (prefix : Name) :
  wf_node t ->
  descendants t prefix ≡ₚ (filter (fun pv => prefix `prefix_of` pv.1) (map_to_list (abs t))).*2 /\
  first_descendant t prefix = head (descendants t prefix).
Proof.
  intros Hwf. split.
  - rewrite (descendants_entries t prefix Hwf). apply fmap_Permutation, filter_Permutation.
    unfold abs. symmetry. apply map_to_list_to_map. rewrite dump_entries. by apply NoDup_entries.
  - unfold first_descendant, descendants. destruct (descend t prefix) as [x|]; [|done].
    by rewrite collect_subtree_entries, first_in_subtree_entries.
Qed.
End trie.
End NameTrie.

(** ** [fib.rs] *)

Record FibNexthop : Type := mkFibNexthop { face_id : Z; cost : Z }.
Record FibEntry : Type := mkFibEntry { nexthops : list FibNexthop }.

#[export] Instance FibNexthop_eq_dec : EqDecision FibNexthop.
Proof. solve_decision. Defined.
#[export] Instance FibEntry_eq_dec : EqDecision FibEntry.
Proof. solve_decision. Defined.

Module Fib.
Definition Fib : Type := TrieNode FibEntry.
Definition new : Fib := NameTrie.TrieNode_new.
Definition lpm (self : Fib) (name : Name) : option FibEntry := NameTrie.lpm self name.
Definition get (self : Fib) (prefix : Name) : option FibEntry := NameTrie.get self prefix.
Definition insert (self : Fib) (prefix : Name) (entry : FibEntry) : Fib :=
  NameTrie.insert self prefix entry.
Definition add_nexthop (self : Fib) (prefix : Name) (nexthop : FibNexthop) : Fib :=
  NameTrie.update self prefix (fun slot =>
    Some (mkFibEntry (match slot with
                      | Some existing => nexthops existing ++ [nexthop]
                      | None => [nexthop]
                      end))).
Definition remove (self : Fib) (prefix : Name) : Fib := NameTrie.remove self prefix.
End Fib.

(** ** [strategy_table.rs] *)

Module StrategyTable.
Section table.
Context {S : Type}.
Definition StrategyTable : Type := TrieNode S.
Definition new : StrategyTable := NameTrie.TrieNode_new.
Definition lpm (self : StrategyTable) (name : Name) : option S := NameTrie.lpm self name.
Definition insert (self : StrategyTable) (prefix : Name) (strategy : S) : StrategyTable :=
  NameTrie.insert self prefix strategy.
Definition remove (self : StrategyTable) (prefix : Name) : StrategyTable := NameTrie.remove self prefix.
Definition dump (self : StrategyTable) : list (Name * S) := NameTrie.dump self.
End table.
End StrategyTable.

(** ** FIB programs

    A FIB is reached by a sequence of management operations. *)
Inductive FibOp : Type :=
| FibInsert (prefix : Name) (e : FibEntry)
| FibAddNexthop (prefix : Name) (nh : FibNexthop)
| FibRemove (prefix : Name).

Definition fib_step (t : Fib.Fib) (op : FibOp) : Fib.Fib :=
  match op with
  | FibInsert p e => Fib.insert t p e
  | FibAddNexthop p nh => Fib.add_nexthop t p nh
  | FibRemove p => Fib.remove t p
  end.
Definition fib_run (ops : list FibOp) : Fib.Fib := fold_left fib_step ops Fib.new.

(** The same operations on a table without a tree. *)
Definition table_step (m : gmap Name FibEntry) (op : FibOp) : gmap Name FibEntry :=
  match op with
  | FibInsert p e => <[p := e]> m
  | FibAddNexthop p nh => <[p := mkFibEntry (from_option nexthops [] (m !! p) ++ [nh])]> m
  | FibRemove p => delete p m
  end.
Definition table_run (ops : list FibOp) : gmap Name FibEntry := fold_left table_step ops ∅.

Lemma fib_run_refines ops :
  NameTrie.wf_node (fib_run ops) /\ forall p, Fib.get (fib_run ops) p = table_run ops !! p.
Proof.
  unfold fib_run, table_run. induction ops as [|op ops [Hwf IH]] using rev_ind.
  - split; [apply NameTrie.wf_new|]. intros p. by apply NameTrie.get_new.
  - rewrite !fold_left_app. simpl. unfold Fib.get in *. split.
    + destruct op; [by apply NameTrie.wf_update..|by apply NameTrie.wf_remove].
    + intros q. destruct op as [p e|p nh|p]; simpl.
      * unfold Fib.insert, NameTrie.insert. rewrite NameTrie.get_update, lookup_insert, IH.
        repeat case_decide; congruence.
      * unfold Fib.add_nexthop. rewrite NameTrie.get_update, lookup_insert, !IH.
        repeat case_decide; try congruence. subst. by destruct (_ !! q).
      * unfold Fib.remove. rewrite NameTrie.get_remove, lookup_delete, IH.
        repeat case_decide; congruence.
Qed.

(** After any sequence of FIB operations, a lookup returns the entry of
    the longest prefix of the name in the table those operations build, and
    nothing exactly when the table holds no prefix of the name (the root prefix
    is a default route). *)
Theorem fib_lookup_correct (ops : list FibOp) (name : Name) :
  match Fib.lpm (fib_run ops) name with
  | Some e => exists p, p `prefix_of` name /\ table_run ops !! p = Some e /\
                forall q, q `prefix_of` name -> is_Some (table_run ops !! q) -> q `prefix_of` p
  | None => forall q, q `prefix_of` name -> table_run ops !! q = None
  end.
Proof.
  destruct (fib_run_refines ops) as [Hwf Hget]. unfold Fib.get in Hget.
  pose proof (NameTrie.lpm_spec (fib_run ops) name) as H. unfold Fib.lpm.
  assert (forall q, q `prefix_of` name -> q = take (length q) name /\ (length q <= length name)%nat) as Hpre.
  { intros q [r ->]. rewrite take_app_length, length_app. split; [done|lia]. }
  destruct (NameTrie.lpm (fib_run ops) name) as [e|].
  - destruct H as (k & Hk & Hg & Hmax). exists (take k name). split_and!.
    + exists (drop k name). by rewrite take_drop.
    + by rewrite <- Hget.
    + intros q Hq [e' He']. destruct (Hpre q Hq) as [Heq Hl].
      destruct (decide (length q <= k)%nat) as [Hle|Hgt].
      * rewrite Heq. exists (drop (length q) (take k name)).
        rewrite <- (take_drop (length q) (take k name)) at 1. by rewrite take_take, Nat.min_l.
      * rewrite <- Hget, Heq, Hmax in He' by lia. done.
  - intros q Hq. destruct (Hpre q Hq) as [Heq Hl]. rewrite <- Hget, Heq. by apply H.
Qed.

(** The vectors of [conformance.rs]: routes, and queries with the nexthop the
    rule must select. *)
Definition LPM_ROUTES : list (string * Z) :=
  [("/ndn", 1); ("/ndn/edu", 2); ("/ndn/edu/ucla", 3)]%string.

Definition LPM_CASES : list (string * option Z) :=
  [("/ndn/edu/ucla/data", Some 3); ("/ndn/edu/mit", Some 2); ("/ndn/other", Some 1);
   ("/ndn", Some 1); ("/com/example", None)]%string.

Definition conformance_fib : Fib.Fib :=
  fib_run (map (fun r => FibAddNexthop (from (str r.1)) (mkFibNexthop r.2 0)) LPM_ROUTES).

(** The longest-prefix-match vectors shared with the constrained
    forwarder hold of the trie-based FIB, the names parsed from their URIs. *)
Example lpm_vectors_hold :
  Forall (fun c => (match Fib.lpm conformance_fib (from (str c.1)) with
                    | Some e => face_id <$> head (nexthops e)
                    | None => None
                    end) = c.2) LPM_CASES.
Proof. repeat (apply Forall_cons_2; [vm_compute; reflexivity|]); apply Forall_nil_2. Qed.

Definition example_trie : TrieNode Z :=
  NameTrie.insert (NameTrie.insert NameTrie.TrieNode_new [Component.generic [97]] 1)
    [Component.generic [97]; Component.generic [98]] 2.

Lemma example_trie_wf : NameTrie.wf_node example_trie.
Proof. apply NameTrie.wf_update, NameTrie.wf_update, NameTrie.wf_new. Qed.

Lemma trie_refines_map_witness :
  NameTrie.get example_trie [Component.generic [97]] = NameTrie.abs example_trie !! [Component.generic [97]].
Proof.
  apply (NameTrie.trie_refines_map example_trie [Component.generic [97]] 0 (fun _ => None) example_trie_wf).
Defined.

Lemma trie_lpm_longest_match_witness :
  NameTrie.lpm example_trie [Component.generic [97]; Component.generic [98]; Component.generic [99]]
  = longest_match 3 [(1, 1); (2, 2)].
Proof.
  etransitivity; [apply NameTrie.trie_lpm_longest_match, example_trie_wf|]. vm_compute. reflexivity.
Defined.

Lemma trie_descendants_witness :
  NameTrie.first_descendant example_trie [Component.generic [97]] = Some 1.
Proof.
  etransitivity; [apply NameTrie.trie_descendants, example_trie_wf|]. vm_compute. reflexivity.
Defined.
