(* ===== verification/Evict.v ===== *)
(** * Evicting the oldest entries of a map

    Two tables bound their size the same way ([DeadNonceList] in [ndn-store],
    [ReplayGuard] in [ndn-security]): collect [(age, key)] pairs, sort them by
    age, remove the first [n] keys.  The iteration order of the map and the order
    [sort_unstable_by_key] gives to equal ages are not fixed by the language, so
    the sort is an argument, and the lemmas hold of every function that sorts. *)

From S2P Require Import Prelude.
#[local] Open Scope Z_scope.

Section evict.
Context `{Countable K} {V : Type}.

(** [for key in keys { map.remove(&key) }]. *)
Definition remove_all (es : gmap K V) (ks : list K) : gmap K V :=
  fold_left (fun es k => delete k es) ks es.

(** What the source uses of [sort_unstable_by_key(|(age, _)| *age)]. *)
Definition sorts_by_age (sort : list (Z * K) -> list (Z * K)) : Prop :=
  forall l, sort l ≡ₚ l /\ StronglySorted (fun a b => a.1 <= b.1) (sort l).

Lemma lookup_remove_all es ks k :
  remove_all es ks !! k = if decide (k ∈ ks) then None else es !! k.
Proof.
  unfold remove_all. revert es. induction ks as [|x ks IH]; intros es; cbn [fold_left].
  - by rewrite decide_False by set_solver.
  - rewrite IH, lookup_delete. repeat case_decide; set_solver.
Qed.

Lemma remove_all_size es ks :
  NoDup ks -> (forall k, k ∈ ks -> is_Some (es !! k)) ->
  (size (remove_all es ks) + length ks = size es)%nat.
Proof.
  unfold remove_all. revert es. induction ks as [|x ks IH]; intros es; simpl; [lia|].
  intros [Hx Hnd]%NoDup_cons Hin. specialize (IH (delete x es) Hnd).
  pose proof (Hin x ltac:(left)) as Hsome. rewrite (map_size_delete_Some _ _ Hsome) in IH.
  assert (size es <> 0%nat) as Hne.
  { intros ->%map_size_empty_inv. destruct Hsome as [? Hs]. by rewrite lookup_empty in Hs. }
  rewrite <- Nat.add_succ_comm, Nat.add_succ_l, IH; [lia|].
  intros k Hk. rewrite lookup_delete_ne by set_solver. apply Hin. by right.
Qed.

Context (sort : list (Z * K) -> list (Z * K)) (Hsort : sorts_by_age sort) (age : V -> Z).

Definition by_age (es : gmap K V) : list (Z * K) :=
  sort ((fun p => (age p.2, p.1)) <$> map_to_list es).

Lemma by_age_perm es : by_age es ≡ₚ (fun p => (age p.2, p.1)) <$> map_to_list es.
Proof. apply Hsort. Qed.

Lemma elem_by_age es a k : (a, k) ∈ by_age es <-> exists v, es !! k = Some v /\ age v = a.
Proof.
  rewrite by_age_perm, list_elem_of_fmap. setoid_rewrite <- elem_of_map_to_list. split.
  - intros ([k' v] & [= -> ->] & ?). eauto.
  - intros (v & Hv & <-). by exists (k, v).
Qed.

Lemma NoDup_by_age es : NoDup (by_age es).*2.
Proof. rewrite by_age_perm, <- list_fmap_compose. apply (NoDup_fst_map_to_list es). Qed.

Lemma length_by_age es : length (by_age es) = size es.
Proof. rewrite by_age_perm, length_fmap. apply length_map_to_list. Qed.

(** The map without its [n] oldest entries. *)
Definition evict (n : nat) (es : gmap K V) : gmap K V := remove_all es (take n (by_age es)).*2.

(** What is evicted is no younger than what stays. *)
Lemma evict_oldest es n k v k' v' :
  es !! k = Some v -> evict n es !! k = None -> evict n es !! k' = Some v' -> age v <= age v'.
Proof.
  unfold evict. intros He Hgone Hkept. rewrite lookup_remove_all in Hgone, Hkept.
  destruct (decide (k ∈ (take n (by_age es)).*2)) as [Hin|]; [|congruence].
  destruct (decide (k' ∈ (take n (by_age es)).*2)) as [|Hout]; [done|].
  apply list_elem_of_fmap in Hin as ([a k0] & -> & Hin). simpl in *.
  assert (a = age v) as ->.
  { assert ((a, k0) ∈ by_age es) as Hb by (apply elem_of_take in Hin as (? & ? & _); by eapply list_elem_of_lookup_2).
    apply elem_by_age in Hb as (v0 & Hv0 & <-). congruence. }
  assert ((age v', k') ∈ by_age es) as Hk by (apply elem_by_age; eauto).
  rewrite <- (take_drop n (by_age es)) in Hk. apply elem_of_app in Hk as [Hk|Hk].
  - destruct Hout. apply list_elem_of_fmap. by exists (age v', k').
  - pose proof (proj2 (Hsort ((fun p => (age p.2, p.1)) <$> map_to_list es))) as Hss.
    fold (by_age es) in Hss. rewrite <- (take_drop n (by_age es)) in Hss.
    exact (StronglySorted_app_1_elem_of _ _ _ _ _ Hss Hin Hk).
Qed.

Lemma evict_size es n : (n <= size es)%nat -> (size (evict n es) + n = size es)%nat.
Proof.
  intros Hn. unfold evict. rewrite <- (remove_all_size es (take n (by_age es)).*2).
  - rewrite length_fmap, length_take, length_by_age. lia.
  - rewrite fmap_take. eapply sublist_NoDup; [apply NoDup_by_age|apply sublist_take].
  - intros k ([a k'] & -> & (i & Hi & _)%elem_of_take)%list_elem_of_fmap.
    apply list_elem_of_lookup_2, elem_by_age in Hi as (v & Hv & _). by exists v.
Qed.

Lemma evict_subseteq es n k v : evict n es !! k = Some v -> es !! k = Some v.
Proof. unfold evict. rewrite lookup_remove_all. by case_decide. Qed.

(** Eviction short of the whole map spares a strictly youngest entry. *)
Lemma evict_spares_youngest es n k v :
  es !! k = Some v -> (forall k' v', es !! k' = Some v' -> k' <> k -> age v' < age v) ->
  (n < size es)%nat -> evict n es !! k = Some v.
Proof.
  intros Hk Hyoung Hn. pose proof (evict_size es n ltac:(lia)) as Hsz.
  destruct (evict n es !! k) as [v0|] eqn:He; [apply evict_subseteq in He; congruence|]. exfalso.
  destruct (decide (evict n es = ∅)) as [Hemp|Hne]; [rewrite Hemp, map_size_empty in Hsz; lia|].
  apply map_choose in Hne as (k' & v' & Hk').
  pose proof (evict_oldest _ _ _ _ _ _ Hk He Hk') as Hle.
  assert (k' <> k) as Hkk by congruence.
  specialize (Hyoung _ _ (evict_subseteq _ _ _ _ Hk') Hkk). lia.
Qed.
End evict.

(** One function that sorts. *)
Definition age_le {K} (a b : Z * K) : Prop := a.1 <= b.1.
#[export] Instance age_le_dec {K} (a b : Z * K) : Decision (age_le a b) := decide (a.1 <= b.1).
#[export] Instance age_le_total {K} : Total (@age_le K).
Proof. intros a b. unfold age_le. lia. Qed.
#[export] Instance age_le_trans {K} : Transitive (@age_le K).
Proof. intros a b c. unfold age_le. lia. Qed.

Lemma merge_sort_sorts {K} : sorts_by_age (merge_sort (@age_le K)).
Proof. intros l. split; [apply merge_sort_Permutation|apply (StronglySorted_merge_sort age_le)]. Qed.
