(* ===== verification/DeadNonce.v ===== *)
(** * The Dead Nonce List ([crates/forwarding/ndn-store/src/dead_nonce_list.rs])

    Loop detection across PIT lifetimes: [(name hash, nonce)] fingerprints with
    an expiry time, bounded in number.

    The concurrent map is a [gmap]; its iteration order and the order
    [sort_unstable_by_key] gives to equal keys are not fixed by the language, so
    eviction takes the sort as an argument, and the theorems hold of every
    function that sorts. *)

From S2P Require Import Prelude Evict.
#[local] Open Scope Z_scope.

(** 6 s, in nanoseconds. *)
Definition DEFAULT_DEAD_NONCE_LIFETIME : Z := 6 * 10 ^ 9.
Definition DEFAULT_DEAD_NONCE_CAPACITY : Z := Z.shiftl 1 20.

Record NonceFingerprint : Type := mkNonceFingerprint { name_hash : Z; nonce : Z }.

#[export] Instance NonceFingerprint_eq_dec : EqDecision NonceFingerprint.
Proof. solve_decision. Defined.
#[export] Instance NonceFingerprint_countable : Countable NonceFingerprint.
Proof.
  refine (inj_countable' (fun f => (name_hash f, nonce f)) (fun p => mkNonceFingerprint p.1 p.2) _).
  by intros [].
Defined.

Record DeadNonceList : Type := mkDeadNonceList {
  dnl_entries : gmap NonceFingerprint Z;
  lifetime_ns : Z;
  capacity : Z
}.

Module DeadNonceList.

(** [lifetime.as_nanos() as u64] truncates; [capacity] is at least 1. *)
Definition with_lifetime_and_capacity (lifetime_nanos capacity : Z) : DeadNonceList :=
  mkDeadNonceList ∅ (wrap 64 lifetime_nanos) (Z.max capacity 1).
Definition with_lifetime (lifetime_nanos : Z) : DeadNonceList :=
  with_lifetime_and_capacity lifetime_nanos DEFAULT_DEAD_NONCE_CAPACITY.
Definition new : DeadNonceList := with_lifetime DEFAULT_DEAD_NONCE_LIFETIME.

Definition set_entries (self : DeadNonceList) (es : gmap NonceFingerprint Z) : DeadNonceList :=
  mkDeadNonceList es (lifetime_ns self) (capacity self).

Definition len (self : DeadNonceList) : Z := Z.of_nat (size (dnl_entries self)).
Definition is_empty (self : DeadNonceList) : bool := len self =? 0.

Definition contains (self : DeadNonceList) (fp : NonceFingerprint) (now_ns : Z) : bool :=
  match dnl_entries self !! fp with Some e => now_ns <? e | None => false end.

(** The number removed, and the list after. *)
Definition purge_expired (self : DeadNonceList) (now_ns : Z) : Z * DeadNonceList :=
  let stale := (filter (fun p => p.2 <= now_ns) (map_to_list (dnl_entries self))).*1 in
  (zlen stale, set_entries self (remove_all (dnl_entries self) stale)).

Section eviction.
Variable sort_unstable_by_key : list (Z * NonceFingerprint) -> list (Z * NonceFingerprint).

Definition enforce_capacity (self : DeadNonceList) (now_ns : Z) : DeadNonceList :=
  let self := snd (purge_expired self now_ns) in
  if len self <=? capacity self then self
  else
    let target := capacity self - capacity self / 10 in
    let to_remove := len self - target in
    let by_expiry := sort_unstable_by_key ((fun p => (p.2, p.1)) <$> map_to_list (dnl_entries self)) in
    set_entries self (remove_all (dnl_entries self) (take (Z.to_nat to_remove) by_expiry).*2).

Definition insert (self : DeadNonceList) (fp : NonceFingerprint) (now_ns : Z) : DeadNonceList :=
  let expiry := sat_add64 now_ns (lifetime_ns self) in
  let self := set_entries self (<[fp := expiry]> (dnl_entries self)) in
  if capacity self <? len self then enforce_capacity self now_ns else self.
End eviction.
End DeadNonceList.

(** ** Lemmas *)

Lemma purge_expired_lookup d now fp :
  dnl_entries (snd (DeadNonceList.purge_expired d now)) !! fp =
    match dnl_entries d !! fp with Some e => if e <=? now then None else Some e | None => None end.
Proof.
  simpl. rewrite lookup_remove_all.
  assert (fp ∈ (filter (fun p : NonceFingerprint * Z => p.2 <= now) (map_to_list (dnl_entries d))).*1 <->
    exists e, dnl_entries d !! fp = Some e /\ e <= now) as Hin.
  { rewrite list_elem_of_fmap. setoid_rewrite list_elem_of_filter. split.
    - intros ([k e] & -> & ? & ?%elem_of_map_to_list). simpl in *. eauto.
    - intros (e & He & Hle). exists (fp, e). by rewrite elem_of_map_to_list. }
  destruct (dnl_entries d !! fp) as [e|] eqn:He; case_decide as Hd; rewrite Hin in Hd;
    try done; destruct (Z.leb_spec e now); naive_solver lia.
Qed.

Section enforce.
Context (sort : list (Z * NonceFingerprint) -> list (Z * NonceFingerprint)) (Hsort : sorts_by_age sort).

(** The list after enforcement: what it keeps, what it drops. *)
Lemma enforce_capacity_spec d now :
  1 <= capacity d ->
  let d' := DeadNonceList.enforce_capacity sort d now in
  lifetime_ns d' = lifetime_ns d /\ capacity d' = capacity d /\
  DeadNonceList.len d' <= capacity d /\
  (forall fp e, dnl_entries d' !! fp = Some e -> dnl_entries d !! fp = Some e /\ now < e) /\
  (forall fp e, dnl_entries d !! fp = Some e -> dnl_entries d' !! fp = None -> now < e ->
     capacity d < DeadNonceList.len (snd (DeadNonceList.purge_expired d now)) /\
     forall fp' e', dnl_entries d' !! fp' = Some e' -> e <= e').
Proof.
  intros Hcap. unfold DeadNonceList.enforce_capacity.
  pose proof (purge_expired_lookup d now) as Hp.
  set (p := snd (DeadNonceList.purge_expired d now)) in *.
  assert (capacity p = capacity d) as Hcp by done. assert (lifetime_ns p = lifetime_ns d) as Hlp by done.
  assert (forall fp e, dnl_entries p !! fp = Some e <-> dnl_entries d !! fp = Some e /\ now < e) as Hiff.
  { intros fp e. rewrite Hp. destruct (dnl_entries d !! fp) as [e0|]; [|naive_solver].
    destruct (Z.leb_spec e0 now); naive_solver lia. }
  clearbody p. rewrite Hcp. destruct (Z.leb_spec (DeadNonceList.len p) (capacity d)) as [Hle|Hgt].
  - split_conj; [done..| |]; intros fp e; [by apply Hiff|].
    intros He Hnone Hnow. assert (dnl_entries p !! fp = Some e) by by apply Hiff. congruence.
  - set (k := Z.to_nat _).
    change (remove_all (dnl_entries p) _) with (evict sort (fun z => z) k (dnl_entries p)).
    pose proof (Z.mul_div_le (capacity d) 10 ltac:(lia)). pose proof (Z.div_pos (capacity d) 10 ltac:(lia) ltac:(lia)).
    assert (k <= size (dnl_entries p))%nat as Hk by (unfold DeadNonceList.len in *; lia).
    pose proof (evict_size sort Hsort (fun z => z) _ _ Hk) as Hsz.
    unfold DeadNonceList.len in *. simpl.
    split_conj; [done..|lia| |].
    + intros fp e He%evict_subseteq. by apply Hiff.
    + intros fp e He Hnone Hnow. split; [done|]. intros fp' e' Hkept.
      refine (evict_oldest sort Hsort (fun z => z) _ _ fp e fp' e' _ Hnone Hkept). by apply Hiff.
Qed.
End enforce.

Lemma insert_cases sort d fp now :
  let e0 := sat_add64 now (lifetime_ns d) in
  let d1 := DeadNonceList.set_entries d (<[fp := e0]> (dnl_entries d)) in
  DeadNonceList.insert sort d fp now =
    if capacity d <? DeadNonceList.len d1 then DeadNonceList.enforce_capacity sort d1 now else d1.
Proof. done. Qed.

(** ** Properties *)

(** The list stays within its capacity and forgets the right nonces.
    After an insertion, whatever the sort does with ties: the list holds at most
    [capacity] entries; what it holds is what it held, with the new expiry for
    the inserted fingerprint; and an unexpired entry is lost only when more than
    [capacity] unexpired entries compete, and then it expires no later than any
    entry that stays. *)
Theorem dnl_insert_bounded sort (d : DeadNonceList) (fp : NonceFingerprint) (now : Z) :
  sorts_by_age sort -> 1 <= capacity d ->
  let table := <[fp := sat_add64 now (lifetime_ns d)]> (dnl_entries d) in
  let d' := DeadNonceList.insert sort d fp now in
  DeadNonceList.len d' <= capacity d /\
  (forall k e, dnl_entries d' !! k = Some e -> table !! k = Some e) /\
  (forall k e, table !! k = Some e -> dnl_entries d' !! k = None ->
     e <= now \/
     (capacity d < Z.of_nat (size (filter (fun p => now < p.2) table)) /\
      forall k' e', dnl_entries d' !! k' = Some e' -> e <= e')).
Proof.
  intros Hs Hcap table d'. subst d'. rewrite insert_cases. fold table.
  set (d1 := DeadNonceList.set_entries d table).
  destruct (Z.ltb_spec (capacity d) (DeadNonceList.len d1)) as [Hlt|Hge].
  - destruct (enforce_capacity_spec sort Hs d1 now Hcap) as (_ & _ & Hlen & Hsub & Hlost).
    split_conj; [done| |].
    + intros k e He. by apply Hsub.
    + intros k e He Hnone. destruct (Z.le_gt_cases e now) as [|Hnow]; [by left|]. right.
      destruct (Hlost k e He Hnone Hnow) as [Hover Hmin]. split; [|done].
      eapply Z.lt_le_trans; [apply Hover|]. unfold DeadNonceList.len. apply Nat2Z.inj_le.
      apply Nat.eq_le_incl. f_equal. apply map_eq. intros k'.
      rewrite purge_expired_lookup, map_lookup_filter. simpl. destruct (table !! k') as [e'|]; [|done].
      simpl. case_guard; simpl in *; bcase; done || lia.
  - split_conj; [done| |]; intros k e He; [done|]. simpl. congruence.
Qed.

(** Operations of the list in the order they happen. *)
Inductive DnlOp : Type :=
| DnlInsert (fp : NonceFingerprint) (now : Z)
| DnlPurge (now : Z).
Definition op_time (op : DnlOp) : Z := match op with DnlInsert _ t => t | DnlPurge t => t end.

Definition dnl_step sort (d : DeadNonceList) (op : DnlOp) : DeadNonceList :=
  match op with
  | DnlInsert fp now => DeadNonceList.insert sort d fp now
  | DnlPurge now => snd (DeadNonceList.purge_expired d now)
  end.
Definition dnl_run sort (d : DeadNonceList) (ops : list DnlOp) : DeadNonceList :=
  fold_left (dnl_step sort) ops d.

(** The fingerprints inserted, and when each was inserted last. *)
Definition inserted (ops : list DnlOp) : gset NonceFingerprint :=
  list_to_set (omap (fun op => match op with DnlInsert fp _ => Some fp | _ => None end) ops).
Definition last_inserted (fp : NonceFingerprint) (ops : list DnlOp) : option Z :=
  fold_left (fun last op => match op with
                            | DnlInsert fp' t => if decide (fp' = fp) then Some t else last
                            | DnlPurge _ => last
                            end) ops None.

(** Every fingerprint is remembered until it expires, and no other is there. *)
Definition remembers (lifetime T : Z) (ops : list DnlOp) (d : DeadNonceList) : Prop :=
  forall fp, match last_inserted fp ops with
    | Some t => dnl_entries d !! fp = Some (sat_add64 t lifetime) \/
                (dnl_entries d !! fp = None /\ sat_add64 t lifetime <= T)
    | None => dnl_entries d !! fp = None
    end.

Lemma last_inserted_snoc fp ops op :
  last_inserted fp (ops ++ [op]) =
    match op with
    | DnlInsert fp' t => if decide (fp' = fp) then Some t else last_inserted fp ops
    | DnlPurge _ => last_inserted fp ops
    end.
Proof. unfold last_inserted. by rewrite fold_left_app. Qed.

Lemma inserted_snoc ops op :
  inserted (ops ++ [op]) =
    match op with DnlInsert fp _ => {[fp]} ∪ inserted ops | DnlPurge _ => inserted ops end.
Proof.
  unfold inserted. rewrite omap_app, list_to_set_app_L. destruct op; simpl; set_solver.
Qed.

Lemma dnl_run_remembers sort life cap ops T :
  0 <= life <= u64_max ->
  Z.of_nat (size (inserted ops)) <= cap -> Forall (fun op => op_time op <= T) ops ->
  let d := dnl_run sort (mkDeadNonceList ∅ life cap) ops in
  lifetime_ns d = life /\ capacity d = cap /\ dom (dnl_entries d) ⊆ inserted ops /\
  remembers life T ops d.
Proof.
  intros Hlife. induction ops as [|op ops IH] using rev_ind; intros Hcap HT; simpl.
  { split_and!; [done..|set_solver|]. intros fp. simpl. apply lookup_empty. }
  apply Forall_app in HT as [HT Hop]. apply Forall_cons in Hop as [Hop _]. rewrite inserted_snoc in *.
  assert (Z.of_nat (size (inserted ops)) <= cap) as Hcap'.
  { destruct op; [|done]. etrans; [|apply Hcap]. apply inj_le, subseteq_size. set_solver. }
  specialize (IH Hcap' HT). unfold dnl_run in *. rewrite fold_left_app. cbn [fold_left].
  set (d := fold_left _ ops _) in *. destruct IH as (Hl & Hc & Hdom & Hrem).
  destruct op as [fp t|t]; cbn [op_time dnl_step] in Hop |- *.
  - set (d1 := DeadNonceList.set_entries d (<[fp := sat_add64 t (lifetime_ns d)]> (dnl_entries d))).
    assert (dom (dnl_entries d1) ⊆ {[fp]} ∪ inserted ops) as Hdom1.
    { simpl. rewrite dom_insert. set_solver. }
    assert (DeadNonceList.insert sort d fp t = d1) as ->.
    { rewrite insert_cases. fold d1. rewrite (proj2 (Z.ltb_ge _ _)); [done|].
      rewrite Hc. etrans; [|apply Hcap]. unfold DeadNonceList.len. apply inj_le.
      rewrite <- size_dom. by apply subseteq_size. }
    split_and!; [done..|]. intros fp'. rewrite last_inserted_snoc. cbn. rewrite Hl.
    case_decide as Hfp; [rewrite <- Hfp; left; by rewrite lookup_insert_eq|].
    rewrite lookup_insert_ne by done. apply Hrem.
  - split_and!; [done..| |].
    + intros fp. rewrite elem_of_dom. intros [e He]. rewrite purge_expired_lookup in He. apply Hdom, elem_of_dom.
      by destruct (dnl_entries d !! fp).
    + intros fp. rewrite last_inserted_snoc, purge_expired_lookup. specialize (Hrem fp).
      destruct (last_inserted fp ops) as [t0|]; [|by rewrite Hrem].
      destruct Hrem as [He|[He Hle]]; rewrite He; [|by right].
      destruct (Z.leb_spec (sat_add64 t0 life) t); [right; split; [done|lia]|by left].
Qed.

(** The dead nonce list detects exactly the loops of its window: after
    insertions and purges of at most [capacity] distinct fingerprints, at any
    later time, [contains] holds of exactly the fingerprints whose last insertion
    is younger than the lifetime. *)
Theorem dnl_window sort (d : DeadNonceList) ops fp now :
  dnl_entries d = ∅ -> is_u64 (lifetime_ns d) ->
  Z.of_nat (size (inserted ops)) <= capacity d ->
  Forall (fun op => op_time op <= now) ops ->
  DeadNonceList.contains (dnl_run sort d ops) fp now = true <->
  exists t, last_inserted fp ops = Some t /\ now < sat_add64 t (lifetime_ns d).
Proof.
  destruct d as [es life cap]. simpl. intros -> Hlife Hcap HT.
  destruct (dnl_run_remembers sort life cap ops now Hlife Hcap HT) as (_ & _ & _ & Hrem).
  specialize (Hrem fp). unfold DeadNonceList.contains.
  destruct (last_inserted fp ops) as [t|].
  - destruct Hrem as [He|[He Hle]]; rewrite He; [rewrite Z.ltb_lt|]; naive_solver lia.
  - rewrite Hrem. naive_solver.
Qed.

(** *** Witnesses *)

Definition fp1 : NonceFingerprint := mkNonceFingerprint 11 1.
Definition fp2 : NonceFingerprint := mkNonceFingerprint 22 2.

Lemma dnl_insert_bounded_witness :
  DeadNonceList.len (DeadNonceList.insert (merge_sort age_le)
    (mkDeadNonceList {[fp1 := 50]} 100 1) fp2 7) <= 1.
Proof.
  apply (dnl_insert_bounded (merge_sort age_le) (mkDeadNonceList {[fp1 := 50]} 100 1) fp2 7);
    [apply merge_sort_sorts|simpl; lia].
Defined.

Lemma dnl_window_witness :
  DeadNonceList.contains (dnl_run (merge_sort age_le) DeadNonceList.new
    [DnlInsert fp1 0; DnlInsert fp2 5; DnlPurge 9]) fp1 10 = true.
Proof.
  apply (dnl_window (merge_sort age_le) DeadNonceList.new).
  - reflexivity.
  - solve_closed.
  - by vm_compute.
  - repeat apply Forall_cons_2; try apply Forall_nil_2; simpl; lia.
  - exists 0. split; [reflexivity|vm_compute; reflexivity].
Defined.
