(* ===== verification/Packet.v ===== *)
(** * Interest and Data packets ([crates/core/ndn-packet])

    The wire decoders of [interest.rs], [data.rs], [signature.rs],
    [meta_info.rs] and [subscription.rs], with the integer helpers of [lib.rs].

    A packet keeps its wire bytes; the accessors decode from them on demand, so
    an accessor is a function of the bytes (the [OnceLock] only caches it).
    [.ok().flatten()] on a decoder turns its errors into [None].

    The many [while !reader.is_empty() { let (typ, val) = reader.read_tlv()?; .. }]
    loops are instances of one combinator, [scan]; its two lemmas relate each of
    them to a fold over the list of elements the bytes encode. *)

From S2P Require Import Prelude Tlv Name.
#[local] Open Scope Z_scope.

Module packet_type.
Definition INTEREST : Z := 0x05.
Definition DATA : Z := 0x06.
Definition CAN_BE_PREFIX : Z := 0x21.
Definition MUST_BE_FRESH : Z := 0x12.
Definition FORWARDING_HINT : Z := 0x1e.
Definition NONCE : Z := 0x0a.
Definition INTEREST_LIFETIME : Z := 0x0c.
Definition HOP_LIMIT : Z := 0x22.
Definition APP_PARAMETERS : Z := 0x24.
Definition META_INFO : Z := 0x14.
Definition CONTENT : Z := 0x15.
Definition SIGNATURE_INFO : Z := 0x16.
Definition SIGNATURE_VALUE : Z := 0x17.
Definition CONTENT_TYPE : Z := 0x18.
Definition FRESHNESS_PERIOD : Z := 0x19.
Definition FINAL_BLOCK_ID : Z := 0x1a.
Definition SIGNATURE_TYPE : Z := 0x1b.
Definition KEY_LOCATOR : Z := 0x1c.
Definition KEY_DIGEST : Z := 0x1d.
Definition REFLEXIVE_NAME : Z := 0x0402.
Definition VALIDITY_PERIOD : Z := 0xFD.
Definition INTEREST_SIGNATURE_INFO : Z := 0x2C.
Definition INTEREST_SIGNATURE_VALUE : Z := 0x2E.
Definition SIGNATURE_NONCE : Z := 0x26.
Definition SIGNATURE_TIME : Z := 0x28.
Definition SIGNATURE_SEQ_NUM : Z := 0x2A.
End packet_type.

(** The formatted messages keep their fixed text only. *)
Inductive PacketError : Type :=
| Tlv (e : TlvError)
| UnknownPacketType (t : Z)
| MalformedPacket (msg : string)
| KeyLocatorRule (sig_type_code : Z).

Definition from_name_error (e : NameError) : PacketError :=
  let 'NameErr msg := e in MalformedPacket msg.

(** [Name::decode(..)?] and [reader.read_tlv()?] with the error converted. *)
Definition decode_name (v : bytes) : result Name PacketError :=
  map_err from_name_error (NameOps.decode v).

Definition first_tlv (b : bytes) : result (Z * bytes * TlvReader.TlvReader) PacketError :=
  match TlvReader.read_tlv (TlvReader.new b) with
  | (Ok (t, v), r) => Ok (t, v, r)
  | (Err e, _) => Err (Tlv e)
  end.

(** [.ok().flatten()]. *)
Definition ok_flatten {A E} (r : result (option A) E) : option A :=
  match r with Ok o => o | Err _ => None end.

(** ** The element loop

    The body of a loop either goes on with new local variables or returns from
    the function. *)
Inductive Flow (S A : Type) : Type :=
| Next (s : S)
| Return (a : A).
Arguments Next {S A} s.
Arguments Return {S A} a.

Fixpoint tlv_while {S A} (fuel : nat) (body : S -> Z -> bytes -> result (Flow S A) PacketError)
    (r : TlvReader.TlvReader) (s : S) : option (result (Flow S A) PacketError) :=
  match fuel with
  | O => None
  | Datatypes.S fuel =>
      if TlvReader.is_empty r then Some (Ok (Next s))
      else match TlvReader.read_tlv r with
           | (Err e, _) => Some (Err (Tlv e))
           | (Ok (t, v), r) =>
               match body s t v with
               | Err e => Some (Err e)
               | Ok (Return a) => Some (Ok (Return a))
               | Ok (Next s) => tlv_while fuel body r s
               end
           end
  end.

(** An element takes at least two bytes, so this fuel is enough ([scan_total]). *)
Definition scan {S A} (body : S -> Z -> bytes -> result (Flow S A) PacketError) (b : bytes) (s : S)
    : result (Flow S A) PacketError :=
  match tlv_while (Datatypes.S (length b)) body (TlvReader.new b) s with
  | Some res => res
  | None => Err (MalformedPacket "unreachable")
  end.

(** A loop that only searches: [Ok None] when it runs to the end. *)
Definition search {A} (f : Z -> bytes -> result (option (option A)) PacketError) (b : bytes)
    : result (option A) PacketError :=
  let? fl := scan (fun (_ : unit) t v =>
               let? o := f t v in
               Ok (match o with Some a => Return a | None => Next tt end)) b tt in
  Ok (match fl with Return a => a | Next _ => None end).

(** ** [lib.rs] *)

Definition is_critical_tlv_type (typ : Z) : bool := (typ <=? 31) || (Z.land typ 1 =? 1).

Definition decode_nni (buf : bytes) : result Z PacketError :=
  let n := zlen buf in
  if (n =? 1) || (n =? 2) || (n =? 4) || (n =? 8) then Ok (be_decode buf)
  else Err (MalformedPacket "NonNegativeInteger must be 1/2/4/8 octets").

(** ** [signature.rs] *)

Inductive SignatureType : Type :=
| DigestSha256
| SignatureSha256WithRsa
| SignatureSha256WithEcdsa
| SignatureHmacWithSha256
| SignatureEd25519
| OtherSig (c : Z).

Module SignatureType.
Definition code (t : SignatureType) : Z :=
  match t with
  | DigestSha256 => 0
  | SignatureSha256WithRsa => 1
  | SignatureSha256WithEcdsa => 3
  | SignatureHmacWithSha256 => 4
  | SignatureEd25519 => 5
  | OtherSig c => c
  end.

Definition from_code (c : Z) : SignatureType :=
  if c =? 0 then DigestSha256
  else if c =? 1 then SignatureSha256WithRsa
  else if c =? 3 then SignatureSha256WithEcdsa
  else if c =? 4 then SignatureHmacWithSha256
  else if c =? 5 then SignatureEd25519
  else OtherSig c.

Definition required_signature_value_len (t : SignatureType) : option Z :=
  match t with
  | DigestSha256 => Some 32
  | SignatureHmacWithSha256 => Some 32
  | SignatureEd25519 => Some 64
  | OtherSig c => if c =? 6 then Some 32 else if c =? 7 then Some 32 else None
  | SignatureSha256WithRsa => None
  | SignatureSha256WithEcdsa => None
  end.
End SignatureType.

Inductive KeyLocator : Type :=
| LocatorName (n : Name)
| KeyDigest (b : bytes).

Record SignatureInfo : Type := mkSignatureInfo {
  sig_type : SignatureType;
  key_locator : option KeyLocator;
  sig_nonce : option bytes;
  sig_time : option Z;
  sig_seq_num : option Z
}.

Module SignatureInfo.
(** The mutable locals of [decode]. *)
Record locals : Type := mkLocals {
  l_sig_type : option SignatureType;
  l_key_locator : option KeyLocator;
  l_sig_nonce : option bytes;
  l_sig_time : option Z;
  l_sig_seq_num : option Z
}.

Definition key_locator_of (val : bytes) (old : option KeyLocator)
    : result (option KeyLocator) PacketError :=
  if zlen val =? 0 then Ok old
  else
    let? (kt, kv, _) := first_tlv val in
    if kt =? tlv_type.NAME then
      let? n := decode_name kv in Ok (Some (LocatorName n))
    else if kt =? packet_type.KEY_DIGEST then Ok (Some (KeyDigest kv))
    else Ok old.

Definition decode_body (l : locals) (typ : Z) (val : bytes) : result (Flow locals Empty_set) PacketError :=
  let '(mkLocals st kl nonce time seq) := l in
  if typ =? packet_type.SIGNATURE_TYPE then
    let? code := decode_nni val in
    Ok (Next (mkLocals (Some (SignatureType.from_code code)) kl nonce time seq))
  else if typ =? packet_type.KEY_LOCATOR then
    let? kl := key_locator_of val kl in Ok (Next (mkLocals st kl nonce time seq))
  else if typ =? packet_type.SIGNATURE_NONCE then
    Ok (Next (mkLocals st kl (Some val) time seq))
  else if typ =? packet_type.SIGNATURE_TIME then
    let? ms := decode_nni val in Ok (Next (mkLocals st kl nonce (Some ms) seq))
  else if typ =? packet_type.SIGNATURE_SEQ_NUM then
    let? n := decode_nni val in Ok (Next (mkLocals st kl nonce time (Some n)))
  else if typ =? packet_type.VALIDITY_PERIOD then Ok (Next l)
  else if is_critical_tlv_type typ then
    Err (MalformedPacket "unknown critical TLV-TYPE in SignatureInfo body")
  else Ok (Next l).

(** The KeyLocator presence rules: does the type forbid or demand one? *)
Definition locator_rule_broken (st : SignatureType) (kl : option KeyLocator) : bool :=
  let c := SignatureType.code st in
  match kl with
  | Some _ => (c =? 0) || (c =? 6)
  | None => (c =? 1) || (c =? 3) || (c =? 4) || (c =? 5) || (c =? 7)
  end.

Definition decode (value : bytes) : result SignatureInfo PacketError :=
  let? fl := scan decode_body value (mkLocals None None None None None) in
  match fl with
  | Return e => match e with end
  | Next l =>
      match l_sig_type l with
      | Some st =>
          if locator_rule_broken st (l_key_locator l) then Err (KeyLocatorRule (SignatureType.code st))
          else Ok (mkSignatureInfo st (l_key_locator l) (l_sig_nonce l) (l_sig_time l) (l_sig_seq_num l))
      | None =>
          Ok (mkSignatureInfo (OtherSig 0) (l_key_locator l) (l_sig_nonce l) (l_sig_time l) (l_sig_seq_num l))
      end
  end.
End SignatureInfo.

(** ** [meta_info.rs] *)

Inductive ContentType : Type :=
| Blob | Link | Key | NackContent | Manifest | PrefixAnn | OtherContent (c : Z).

Definition ContentType_code (t : ContentType) : Z :=
  match t with
  | Blob => 0 | Link => 1 | Key => 2 | NackContent => 3 | Manifest => 4 | PrefixAnn => 5
  | OtherContent c => c
  end.

Definition ContentType_from_code (c : Z) : ContentType :=
  if c =? 0 then Blob else if c =? 1 then Link else if c =? 2 then Key
  else if c =? 3 then NackContent else if c =? 4 then Manifest else if c =? 5 then PrefixAnn
  else OtherContent c.

(** [freshness_period] in milliseconds. *)
Record MetaInfo : Type := mkMetaInfo {
  content_type : ContentType;
  freshness_period : option Z;
  final_block_id : option bytes
}.

Module MetaInfo.
Definition decode_body (info : MetaInfo) (typ : Z) (val : bytes)
    : result (Flow MetaInfo Empty_set) PacketError :=
  let '(mkMetaInfo ct fp fb) := info in
  if typ =? packet_type.CONTENT_TYPE then
    let? code := decode_nni val in Ok (Next (mkMetaInfo (ContentType_from_code code) fp fb))
  else if typ =? packet_type.FRESHNESS_PERIOD then
    let? ms := decode_nni val in Ok (Next (mkMetaInfo ct (Some ms) fb))
  else if typ =? packet_type.FINAL_BLOCK_ID then Ok (Next (mkMetaInfo ct fp (Some val)))
  else if is_critical_tlv_type typ then
    Err (MalformedPacket "unknown critical TLV-TYPE in MetaInfo body")
  else Ok (Next info).

Definition decode (value : bytes) : result MetaInfo PacketError :=
  let? fl := scan decode_body value (mkMetaInfo Blob None None) in
  match fl with Next info => Ok info | Return e => match e with end end.

Definition final_block_component (self : MetaInfo) : option (result NameComponent PacketError) :=
  let! raw := final_block_id self in
  Some (let? (t, v, _) := first_tlv raw in Ok (mkComponent t v)).
End MetaInfo.

(** ** [subscription.rs] *)

Definition TLV_SUBSCRIPTION_REQUEST : Z := 0x230.
Definition MAX_PERSISTENT_LIFETIME_SECS : Z := 3600.
Definition MAX_SUBSCRIPTION_ID_LEN : Z := 32.

Record SubscriptionRequest : Type := mkSubscriptionRequest {
  version : Z;
  max_data_count : Z;
  max_lifetime_secs : Z;
  subscription_id : option bytes
}.

Module SubscriptionRequest.
Definition HEADER_LEN : Z := 9.

Definition decode_value (b : bytes) : option SubscriptionRequest :=
  if (zlen b <? HEADER_LEN) || (HEADER_LEN + MAX_SUBSCRIPTION_ID_LEN <? zlen b) then None
  else Some {|
    version := be_decode (slice b 0 1);
    max_data_count := be_decode (slice b 1 5);
    max_lifetime_secs := be_decode (slice b 5 9);
    subscription_id := if HEADER_LEN <? zlen b then Some (slice_from_ b HEADER_LEN) else None
  |}.

Definition find_in (app_params : bytes) : option SubscriptionRequest :=
  ok_flatten (search (fun typ val =>
    Ok (if typ =? TLV_SUBSCRIPTION_REQUEST then Some (decode_value val) else None)) app_params).

Definition encode_value (self : SubscriptionRequest) : bytes :=
  [version self] ++ be_encode 4 (max_data_count self) ++ be_encode 4 (max_lifetime_secs self)
  ++ match subscription_id self with
     | Some id => slice id 0 (Z.min (zlen id) MAX_SUBSCRIPTION_ID_LEN)
     | None => []
     end.

Definition encode (self : SubscriptionRequest) : bytes :=
  TlvWriter.finish (TlvWriter.write_tlv TlvWriter.new TLV_SUBSCRIPTION_REQUEST (encode_value self)).
End SubscriptionRequest.

(** ** [interest.rs] *)

Record Selector : Type := mkSelector { can_be_prefix : bool; must_be_fresh : bool }.
Definition Selector_default : Selector := mkSelector false false.

#[export] Instance Selector_eq_dec : EqDecision Selector.
Proof. solve_decision. Defined.

Record Interest : Type := mkInterest { i_raw : bytes; i_name : Name }.

Module Interest.

Definition elem_index (typ : Z) : option Z :=
  if typ =? packet_type.CAN_BE_PREFIX then Some 2
  else if typ =? packet_type.MUST_BE_FRESH then Some 3
  else if typ =? packet_type.FORWARDING_HINT then Some 4
  else if typ =? packet_type.NONCE then Some 5
  else if typ =? packet_type.INTEREST_LIFETIME then Some 6
  else if typ =? packet_type.HOP_LIMIT then Some 7
  else if typ =? packet_type.APP_PARAMETERS then Some 8
  else if typ =? packet_type.INTEREST_SIGNATURE_INFO then Some 9
  else if typ =? packet_type.INTEREST_SIGNATURE_VALUE then Some 10
  else None.

(** The locals are [last_element] and [has_app_params]. *)
Definition validate_body (s : Z * bool) (typ : Z) (val : bytes)
    : result (Flow (Z * bool) Empty_set) PacketError :=
  let '(last_element, has_app_params) := s in
  match elem_index typ with
  | Some elem =>
      if elem <=? last_element then
        Err (MalformedPacket "Interest body element out of spec order or duplicated")
      else
        let has_app_params := (typ =? packet_type.APP_PARAMETERS) || has_app_params in
        if (typ =? packet_type.NONCE) && negb (zlen val =? 4) then
          Err (MalformedPacket "Interest Nonce must be exactly 4 bytes")
        else if typ =? packet_type.INTEREST_SIGNATURE_INFO then
          let? _ := SignatureInfo.decode val in Ok (Next (elem, has_app_params))
        else Ok (Next (elem, has_app_params))
  | None =>
      if is_critical_tlv_type typ then
        Err (MalformedPacket "unknown critical TLV-TYPE in Interest body")
      else Ok (Next s)
  end.

Definition validate_interest_body_structure (body : bytes) : result bool PacketError :=
  let? fl := scan validate_body body (1, false) in
  match fl with Next s => Ok (snd s) | Return e => match e with end end.

Definition psdc_count (name : Name) : Z :=
  zlen (filter (fun c => typ c = tlv_type.PARAMETERS_SHA256) name).

Definition validate_psdc_structure (name : Name) (has_app_params : bool) : result unit PacketError :=
  if 1 <? psdc_count name then
    Err (MalformedPacket "Interest Name has more than one ParametersSha256DigestComponent")
  else if has_app_params && (psdc_count name =? 0) then
    Err (MalformedPacket
      "Interest with ApplicationParameters must contain a ParametersSha256DigestComponent")
  else Ok tt.

Definition decode (raw : bytes) : result Interest PacketError :=
  let? (typ, value, _) := first_tlv raw in
  if negb (typ =? packet_type.INTEREST) then Err (UnknownPacketType typ)
  else
    let? (name_typ, name_val, inner) := first_tlv value in
    if negb (name_typ =? tlv_type.NAME) then Err (UnknownPacketType name_typ)
    else
      let? name := decode_name name_val in
      if NameOps.is_empty name then
        Err (MalformedPacket "Interest Name must have at least one component")
      else
        let? has_app_params := validate_interest_body_structure (TlvReader.as_bytes inner) in
        let? _ := validate_psdc_structure name has_app_params in
        Ok (mkInterest raw name).

(** The lazily decoded fields.  Each function skips the outer header and scans
    the elements, the name included. *)
Definition body_of (raw : bytes) : result bytes PacketError :=
  let? (_, value, _) := first_tlv raw in Ok value.

Definition decode_selectors (raw : bytes) : result Selector PacketError :=
  let? value := body_of raw in
  let? fl := scan (fun sel typ (_ : bytes) =>
    Ok (Next (A := Empty_set)
      (if typ =? packet_type.CAN_BE_PREFIX then mkSelector true (must_be_fresh sel)
       else if typ =? packet_type.MUST_BE_FRESH then mkSelector (can_be_prefix sel) true
       else sel))) value Selector_default in
  match fl with Next sel => Ok sel | Return e => match e with end end.

Definition decode_nonce (raw : bytes) : result (option Z) PacketError :=
  let? value := body_of raw in
  search (fun typ val =>
    if typ =? packet_type.NONCE then
      if negb (zlen val =? 4) then Err (MalformedPacket "Interest Nonce must be exactly 4 bytes")
      else Ok (Some (Some (be_decode val)))
    else Ok None) value.

(** [Ok(None)] on an unencoded Interest. *)
Definition guarded {A} (raw : bytes) (k : bytes -> result (option A) PacketError)
    : result (option A) PacketError :=
  if zlen raw =? 0 then Ok None else let? value := body_of raw in k value.

Definition decode_app_params (raw : bytes) : result (option bytes) PacketError :=
  guarded raw (search (fun typ val =>
    Ok (if typ =? packet_type.APP_PARAMETERS then Some (Some val) else None))).

Definition delegations_body (names : list Name) (t : Z) (v : bytes)
    : result (Flow (list Name) Empty_set) PacketError :=
  if t =? tlv_type.NAME then let? n := decode_name v in Ok (Next (names ++ [n]))
  else Ok (Next names).

Definition decode_forwarding_hint (raw : bytes) : result (option (list Name)) PacketError :=
  guarded raw (search (fun typ val =>
    if typ =? packet_type.FORWARDING_HINT then
      let? fl := scan delegations_body val [] in
      match fl with
      | Next names => Ok (Some (if zlen names =? 0 then None else Some names))
      | Return e => match e with end
      end
    else Ok None)).

Definition decode_reflexive_name (raw : bytes) : result (option Name) PacketError :=
  guarded raw (search (fun typ val =>
    if typ =? packet_type.REFLEXIVE_NAME then
      let? name := decode_name val in
      Ok (Some (if NameOps.is_empty name then None else Some name))
    else Ok None)).

Definition decode_hop_limit (raw : bytes) : result (option Z) PacketError :=
  guarded raw (search (fun typ val =>
    Ok (if typ =? packet_type.HOP_LIMIT
        then Some (match val with [h] => Some h | _ => None end)
        else None))).

Definition decode_interest_sig_info (raw : bytes) : result (option SignatureInfo) PacketError :=
  guarded raw (search (fun typ val =>
    if typ =? packet_type.INTEREST_SIGNATURE_INFO then
      let? si := SignatureInfo.decode val in Ok (Some (Some si))
    else Ok None)).

Definition decode_interest_sig_value (raw : bytes) : result (option bytes) PacketError :=
  guarded raw (search (fun typ val =>
    Ok (if typ =? packet_type.INTEREST_SIGNATURE_VALUE then Some (Some val) else None))).

(** Milliseconds, clamped to the ceiling of persistent Interests. *)
Definition decode_lifetime (raw : bytes) : result (option Z) PacketError :=
  let? value := body_of raw in
  search (fun typ val =>
    if typ =? packet_type.INTEREST_LIFETIME then
      let max_ms := MAX_PERSISTENT_LIFETIME_SECS * 1000 in
      let? ms := decode_nni val in Ok (Some (Some (Z.min ms max_ms)))
    else Ok None) value.

Definition selectors (i : Interest) : Selector :=
  match decode_selectors (i_raw i) with Ok s => s | Err _ => Selector_default end.
Definition nonce (i : Interest) : option Z := ok_flatten (decode_nonce (i_raw i)).
Definition lifetime (i : Interest) : option Z := ok_flatten (decode_lifetime (i_raw i)).
Definition app_parameters (i : Interest) : option bytes := ok_flatten (decode_app_params (i_raw i)).
Definition forwarding_hint (i : Interest) : option (list Name) :=
  ok_flatten (decode_forwarding_hint (i_raw i)).
Definition reflexive_name (i : Interest) : option Name := ok_flatten (decode_reflexive_name (i_raw i)).
Definition hop_limit (i : Interest) : option Z := ok_flatten (decode_hop_limit (i_raw i)).
Definition sig_info (i : Interest) : option SignatureInfo :=
  ok_flatten (decode_interest_sig_info (i_raw i)).
Definition sig_value (i : Interest) : option bytes := ok_flatten (decode_interest_sig_value (i_raw i)).

(** *** Hop-limit decrement

    The [while pos < body.len()] loop of [decrement_hop_limit], on the bytes
    [wire] from offset [base]; the index of the byte to decrement. *)
Fixpoint find_hop_limit (fuel : nat) (wire : bytes) (pos : Z) : result (option Z) Panicked :=
  match fuel with
  | O => Ok None
  | S fuel =>
      if zlen wire <=? pos then Ok None
      else
        let rest := slice_from_ wire pos in
        match read_varu64 rest with
        | Err _ => Ok None
        | Ok (typ, type_len) =>
            match read_varu64 (slice_from_ rest type_len) with
            | Err _ => Ok None
            | Ok (len, len_len) =>
                let val_off := type_len + len_len in
                match checked_add (pos + val_off) len with
                | None => Err ArithmeticOverflow
                | Some e =>
                    if zlen wire <? e then Ok None
                    else if (typ =? packet_type.HOP_LIMIT) && (len =? 1) then Ok (Some (pos + val_off))
                    else find_hop_limit fuel wire e
                end
            end
        end
  end.

(** [out[i] = out[i].saturating_sub(1)], with the new value. *)
Definition decrement_at (wire : bytes) (i : Z) : bytes * Z :=
  let new := sat_sub (nth (Z.to_nat i) wire 0) 1 in
  (<[Z.to_nat i := new]> wire, new).

(** The offsets are relative to the body, which [header_len] is meant to skip
    to; the fuel is the number of bytes plus one, every turn passes two. *)
Definition decrement_hop_limit (raw : bytes) : result (option (bytes * Z)) Panicked :=
  if zlen raw =? 0 then Ok None
  else match first_tlv raw with
  | Err _ => Ok None
  | Ok (_, value, _) =>
      let header_len := zlen raw - zlen value in
      let body := slice_from_ raw header_len in
      let? found := find_hop_limit (S (length body)) body 0 in
      Ok (match found with
          | Some i => Some (decrement_at raw (header_len + i))
          | None => None
          end)
  end.

(** The buffer after the call, and the new hop limit. *)
Definition decrement_hop_limit_in_place (wire : bytes) : result (bytes * option Z) Panicked :=
  if zlen wire =? 0 then Ok (wire, None)
  else match read_varu64 wire with
  | Err _ => Ok (wire, None)
  | Ok (_, type_len) =>
      match read_varu64 (slice_from_ wire type_len) with
      | Err _ => Ok (wire, None)
      | Ok (_, len_len) =>
          let? found := find_hop_limit (S (length wire)) wire (type_len + len_len) in
          Ok (match found with
              | Some i => let '(w, h) := decrement_at wire i in (w, Some h)
              | None => (wire, None)
              end)
      end
  end.
End Interest.

(** ** [data.rs] *)

Record Data : Type := mkData {
  d_raw : bytes;
  signed_start : Z;
  signed_end : Z;
  sig_value_start : Z;
  sig_value_end : Z;
  d_name : Name
}.

Module Data.

Definition elem_index (typ : Z) : option Z :=
  if typ =? packet_type.META_INFO then Some 2
  else if typ =? packet_type.CONTENT then Some 3
  else if typ =? packet_type.SIGNATURE_INFO then Some 4
  else if typ =? packet_type.SIGNATURE_VALUE then Some 5
  else None.

(** The locals are [last_element] and [last_sig_type]. *)
Definition validate_body (s : Z * option SignatureType) (typ : Z) (val : bytes)
    : result (Flow (Z * option SignatureType) Empty_set) PacketError :=
  let '(last_element, last_sig_type) := s in
  match elem_index typ with
  | Some elem =>
      if elem <=? last_element then
        Err (MalformedPacket "Data body element out of spec order or duplicated")
      else
        let? last_sig_type :=
          if typ =? packet_type.SIGNATURE_INFO then
            let? info := SignatureInfo.decode val in Ok (Some (sig_type info))
          else Ok last_sig_type in
        let bad_len :=
          (typ =? packet_type.SIGNATURE_VALUE) &&
          match last_sig_type with
          | Some st => match SignatureType.required_signature_value_len st with
                       | Some expected => negb (zlen val =? expected)
                       | None => false
                       end
          | None => false
          end in
        if bad_len then Err (MalformedPacket "SignatureValue length")
        else Ok (Next (elem, last_sig_type))
  | None =>
      if is_critical_tlv_type typ then
        Err (MalformedPacket "unknown critical TLV-TYPE in Data body")
      else Ok (Next s)
  end.

Definition validate_data_body_structure (body : bytes) : result unit PacketError :=
  let? fl := scan validate_body body (1, None) in
  match fl with Next _ => Ok tt | Return e => match e with end end.

(** [scan_for_sig_value] over [raw.slice(start..)]: the offsets it writes, which
    stay 0 when it finds nothing or errs; [off] counts the bytes read. *)
Fixpoint scan_for_sig_value (fuel : nat) (start : Z) (r : TlvReader.TlvReader) : Z * Z :=
  match fuel with
  | O => (0, 0)
  | S fuel =>
      if TlvReader.is_empty r then (0, 0)
      else
        let pos := start + TlvReader.position r in
        match TlvReader.read_tlv r with
        | (Err _, _) => (0, 0)
        | (Ok (typ, _), r) =>
            if typ =? packet_type.SIGNATURE_VALUE then (pos, start + TlvReader.position r)
            else scan_for_sig_value fuel start r
        end
  end.

Definition decode (raw : bytes) : result Data PacketError :=
  let? (typ, value, _) := first_tlv raw in
  if negb (typ =? packet_type.DATA) then Err (UnknownPacketType typ)
  else
    let outer_header_len := zlen raw - zlen value in
    let? (name_typ, name_val, inner) := first_tlv value in
    if negb (name_typ =? tlv_type.NAME) then Err (UnknownPacketType name_typ)
    else
      let? name := decode_name name_val in
      if NameOps.is_empty name then
        Err (MalformedPacket "Data Name must have at least one component")
      else
        let? _ := validate_data_body_structure (TlvReader.as_bytes inner) in
        let scanned := slice_from_ raw outer_header_len in
        let '(sig_start, sig_end) :=
          scan_for_sig_value (S (length scanned)) outer_header_len (TlvReader.new scanned) in
        Ok {| d_raw := raw;
              signed_start := outer_header_len;
              signed_end := if 0 <? sig_start then sig_start else zlen raw;
              sig_value_start := sig_start;
              sig_value_end := sig_end;
              d_name := name |}.

Definition signed_region (d : Data) : bytes := slice (d_raw d) (signed_start d) (signed_end d).

Definition sig_value (d : Data) : bytes :=
  if (sig_value_start d =? 0) || (sig_value_end d =? 0) then []
  else match first_tlv (slice (d_raw d) (sig_value_start d) (sig_value_end d)) with
       | Ok (_, val, _) => slice (d_raw d) (sig_value_end d - zlen val) (sig_value_end d)
       | Err _ => []
       end.

Definition body_of (raw : bytes) : result bytes PacketError :=
  let? (_, value, _) := first_tlv raw in Ok value.

Definition decode_content (raw : bytes) : result (option bytes) PacketError :=
  let? value := body_of raw in
  search (fun typ val => Ok (if typ =? packet_type.CONTENT then Some (Some val) else None)) value.

Definition decode_meta_info (raw : bytes) : result (option MetaInfo) PacketError :=
  let? value := body_of raw in
  search (fun typ val =>
    if typ =? packet_type.META_INFO then let? mi := MetaInfo.decode val in Ok (Some (Some mi))
    else Ok None) value.

Definition decode_sig_info (raw : bytes) : result (option SignatureInfo) PacketError :=
  let? value := body_of raw in
  search (fun typ val =>
    if typ =? packet_type.SIGNATURE_INFO then let? si := SignatureInfo.decode val in Ok (Some (Some si))
    else Ok None) value.

Definition content (d : Data) : option bytes := ok_flatten (decode_content (d_raw d)).
Definition meta_info (d : Data) : option MetaInfo := ok_flatten (decode_meta_info (d_raw d)).
Definition sig_info (d : Data) : option SignatureInfo := ok_flatten (decode_sig_info (d_raw d)).

Definition link_delegations (d : Data) : option (list Name) :=
  let! mi := meta_info d in
  match content_type mi with
  | Link =>
      let! c := content d in
      match scan Interest.delegations_body c [] with
      | Ok (Next names) => if zlen names =? 0 then None else Some names
      | _ => None
      end
  | _ => None
  end.
End Data.

(** ** Elements *)

Abbreviation elem := (Z * bytes)%type.
Definition wf_elem (e : elem) : Prop := is_u32 e.1 /\ wf_bytes e.2.
Definition elems_wire (es : list elem) : bytes := concat (map (fun e => tlv_bytes e.1 e.2) es).

Lemma elems_wire_cons e es : elems_wire (e :: es) = tlv_bytes e.1 e.2 ++ elems_wire es.
Proof. done. Qed.
Lemma elems_wire_app es fs : elems_wire (es ++ fs) = elems_wire es ++ elems_wire fs.
Proof. unfold elems_wire. by rewrite map_app, concat_app. Qed.
Lemma elems_wire_one e : elems_wire [e] = tlv_bytes e.1 e.2.
Proof. apply app_nil_r. Qed.

Lemma wf_elems_wire es : Forall wf_elem es -> wf_bytes (elems_wire es).
Proof.
  induction 1 as [|[t v] es [Ht Hv] _ IH]; [constructor|].
  rewrite elems_wire_cons. apply wf_bytes_app. split; [|done].
  apply wf_tlv_bytes; [unfold_bounds; simpl in *; lia|done].
Qed.

Lemma length_elems_wire es : (length es <= length (elems_wire es))%nat.
Proof.
  induction es as [|[t v] es IH]; [done|]. rewrite elems_wire_cons, length_app. simpl.
  pose proof (zlen_tlv_bytes t v) as H. pose proof (tlv_size_bounds t (zlen v) (zlen_nonneg v)).
  pose proof (zlen_nonneg v). unfold zlen in *. lia.
Qed.

(** The loop, on the list of elements. *)
Fixpoint fold_flow {S A} (body : S -> Z -> bytes -> result (Flow S A) PacketError)
    (es : list elem) (s : S) : result (Flow S A) PacketError :=
  match es with
  | [] => Ok (Next s)
  | (t, v) :: es =>
      match body s t v with
      | Ok (Next s) => fold_flow body es s
      | other => other
      end
  end.

Lemma fold_flow_app {S A} (body : S -> Z -> bytes -> result (Flow S A) PacketError) es fs s :
  fold_flow body (es ++ fs) s =
    match fold_flow body es s with Ok (Next s) => fold_flow body fs s | other => other end.
Proof.
  revert s. induction es as [|[t v] es IH]; intros s; simpl; [done|].
  destruct (body s t v) as [[s'|a]|e]; [apply IH|done|done].
Qed.

Lemma tlv_while_elems {S A} (body : S -> Z -> bytes -> result (Flow S A) PacketError) es fuel r s :
  TlvReader.wf r -> TlvReader.as_bytes r = elems_wire es -> Forall wf_elem es -> (length es < fuel)%nat ->
  tlv_while fuel body r s = Some (fold_flow body es s).
Proof.
  intros Hr Heq Hes. revert fuel r s Hr Heq.
  induction Hes as [|[t v] es [Ht Hv] _ IH]; intros [|fuel] r s Hr Heq Hf; simpl in *; try lia.
  - by rewrite (proj2 (is_empty_spec r Hr) Heq).
  - rewrite elems_wire_cons in Heq. destruct (TlvReader.is_empty r) eqn:He.
    { apply is_empty_spec in He; [|done]. rewrite He in Heq. symmetry in Heq.
      by destruct (tlv_bytes_nonempty t v (elems_wire es)). }
    destruct (read_tlv_ok r t v (elems_wire es) Hr Ht Heq) as (r' & -> & Heq' & Hr').
    destruct (body s t v) as [[s'|a]|e]; [|done..]. apply IH; [done..|lia].
Qed.

Lemma scan_elems {S A} (body : S -> Z -> bytes -> result (Flow S A) PacketError) es s :
  Forall wf_elem es -> zlen (elems_wire es) <= usize_max ->
  scan body (elems_wire es) s = fold_flow body es s.
Proof.
  intros Hes Hl. unfold scan.
  rewrite (tlv_while_elems body es); [done| |done|done|].
  - apply new_wf; [by apply wf_elems_wire|done].
  - pose proof (length_elems_wire es). lia.
Qed.

(** The loop always ends; when it runs to the end of its input, that input is a
    list of elements. *)
Lemma tlv_while_total {S A} (body : S -> Z -> bytes -> result (Flow S A) PacketError) fuel r s :
  TlvReader.wf r -> (length (TlvReader.as_bytes r) < fuel)%nat ->
  exists res, tlv_while fuel body r s = Some res /\
    forall s', res = Ok (Next s') ->
      exists es, Forall wf_elem es /\ TlvReader.as_bytes r = elems_wire es /\ fold_flow body es s = Ok (Next s').
Proof.
  revert r s. induction fuel as [|fuel IH]; intros r s Hr Hf; simpl; [lia|].
  destruct (TlvReader.is_empty r) eqn:He.
  { exists (Ok (Next s)). split; [done|]. intros s' [= <-]. exists [].
    split_and!; [constructor|by apply is_empty_spec|done]. }
  destruct (TlvReader.read_tlv r) as [[[t v]|e] r'] eqn:Hread; [|eexists; split; [done|]; congruence].
  destruct (read_tlv_inv _ _ _ _ Hr Hread) as (Heq & Ht & Hr').
  pose proof (read_tlv_shorter _ _ _ _ Hr Hread) as Hlen.
  pose proof (read_tlv_value_wf _ _ _ _ Hr Hread) as Hv.
  destruct (body s t v) as [[s1|a]|e] eqn:Hb; [|eexists; split; [done|]; congruence..].
  destruct (IH r' s1 Hr') as (res & -> & Hres); [lia|]. exists res. split; [done|].
  intros s' ->. destruct (Hres s' eq_refl) as (es & Hes & Hr'eq & Hfold).
  exists ((t, v) :: es). split_and!.
  - by apply Forall_cons.
  - by rewrite elems_wire_cons, Heq, Hr'eq.
  - simpl. by rewrite Hb.
Qed.

Lemma scan_total {S A} (body : S -> Z -> bytes -> result (Flow S A) PacketError) b s s' :
  wf_bytes b -> zlen b <= usize_max -> scan body b s = Ok (Next s') ->
  exists es, Forall wf_elem es /\ b = elems_wire es /\ fold_flow body es s = Ok (Next s').
Proof.
  intros Hb Hl. unfold scan.
  destruct (tlv_while_total body (Datatypes.S (length b)) (TlvReader.new b) s) as (res & -> & Hres);
    [by apply new_wf|rewrite as_bytes_new; lia|].
  intros ->. by apply Hres.
Qed.

(** *** Searches *)

Definition find_elem (t : Z) (es : list elem) : option bytes :=
  match list_find (fun e => e.1 = t) es with Some (_, e) => Some e.2 | None => None end.

Lemma find_elem_cons t e es :
  find_elem t (e :: es) = if decide (e.1 = t) then Some e.2 else find_elem t es.
Proof.
  unfold find_elem. simpl. destruct (decide (e.1 = t)); [done|].
  by destruct (list_find _ es) as [[]|].
Qed.

Lemma search_elems {A} f T (g : bytes -> result (option A) PacketError) es :
  (forall t v, f t v = if t =? T then let? x := g v in Ok (Some x) else Ok None) ->
  Forall wf_elem es -> zlen (elems_wire es) <= usize_max ->
  search f (elems_wire es) = match find_elem T es with Some v => g v | None => Ok None end.
Proof.
  intros Hf Hes Hl. unfold search. rewrite scan_elems by done. clear Hes Hl.
  induction es as [|[t v] es IH]; [done|]. simpl. rewrite Hf, find_elem_cons. simpl.
  destruct (Z.eqb_spec t T) as [->|Hne].
  - rewrite decide_True by done. by destruct (g v) as [o|e].
  - rewrite decide_False by done. apply IH.
Qed.

(** *** The outer structure *)

Lemma first_tlv_ok t v rest :
  is_u32 t -> wf_bytes (tlv_bytes t v ++ rest) -> zlen (tlv_bytes t v ++ rest) <= usize_max ->
  exists r, first_tlv (tlv_bytes t v ++ rest) = Ok (t, v, r) /\ TlvReader.as_bytes r = rest.
Proof.
  intros Ht Hwf Hl. unfold first_tlv.
  destruct (read_tlv_ok (TlvReader.new (tlv_bytes t v ++ rest)) t v rest)
    as (r & -> & Hr & _); [by apply new_wf|done|done|]. eauto.
Qed.

Lemma first_tlv_inv b t v r :
  wf_bytes b -> zlen b <= usize_max -> first_tlv b = Ok (t, v, r) ->
  b = tlv_bytes t v ++ TlvReader.as_bytes r /\ is_u32 t /\ wf_bytes v /\ wf_bytes (TlvReader.as_bytes r) /\
  zlen v <= usize_max /\ zlen (TlvReader.as_bytes r) <= usize_max.
Proof.
  intros Hb Hl. unfold first_tlv. pose proof (new_wf b Hb Hl) as Hr.
  destruct (TlvReader.read_tlv (TlvReader.new b)) as [[[t' v']|e] r'] eqn:E; [|done].
  intros [= -> -> ->]. destruct (read_tlv_inv _ _ _ _ Hr E) as (Heq & Ht & Hr').
  pose proof (read_tlv_value_wf _ _ _ _ Hr E) as Hv.
  rewrite as_bytes_new in Heq. split_conj; [done..| | |].
  - by apply as_bytes_wf.
  - rewrite Heq, zlen_app, zlen_tlv_bytes in Hl.
    pose proof (tlv_size_bounds t (zlen v) (zlen_nonneg v)).
    pose proof (zlen_nonneg (TlvReader.as_bytes r)). lia.
  - by apply zlen_as_bytes.
Qed.

Lemma decode_name_ok n :
  wf_name n -> zlen (name_wire n) <= usize_max -> decode_name (name_wire n) = Ok n.
Proof. intros Hn Hl. unfold decode_name. by rewrite decode_wire. Qed.

Lemma decode_name_inv v n :
  wf_bytes v -> zlen v <= usize_max -> decode_name v = Ok n -> v = name_wire n /\ wf_name n.
Proof.
  intros Hv Hl. unfold decode_name. pose proof (decode_spec v Hv Hl) as H.
  destruct (NameOps.decode v) as [m|e]; simpl; [|done]. by intros [= <-].
Qed.

(** ** What a decoded Interest is *)

(** The spec position of an element: [None] for extension elements. *)
Abbreviation known_indices es := (omap (fun e : elem => Interest.elem_index e.1) es).

(** A well-formed element by itself. *)
Definition interest_elem_ok (e : elem) : Prop :=
  (Interest.elem_index e.1 = None -> is_critical_tlv_type e.1 = false) /\
  (e.1 = packet_type.NONCE -> zlen e.2 = 4) /\
  (e.1 = packet_type.INTEREST_SIGNATURE_INFO -> exists si, SignatureInfo.decode e.2 = Ok si).

(** Known elements in strictly increasing spec order (hence once each),
    extensions anywhere among them. *)
Definition interest_body_ok (last : Z) (es : list elem) : Prop :=
  Sorted Z.lt (last :: known_indices es) /\ Forall interest_elem_ok es.

Definition has_elem (t : Z) (es : list elem) : bool := existsb (fun e => e.1 =? t) es.

(** Case analysis on the element type. *)
Lemma elem_index_some t i :
  Interest.elem_index t = Some i ->
  (t = packet_type.APP_PARAMETERS <-> i = 8) /\
  (t = packet_type.NONCE <-> i = 5) /\ (t = packet_type.INTEREST_SIGNATURE_INFO <-> i = 9).
Proof.
  unfold Interest.elem_index. intros H. repeat bcase_step; simplify_eq; vm_compute; naive_solver.
Qed.

Lemma validate_body_step l h t v s' :
  Interest.validate_body (l, h) t v = Ok (Next s') <->
  interest_elem_ok (t, v) /\
  match Interest.elem_index t with
  | Some i => l < i /\ s' = (i, (t =? packet_type.APP_PARAMETERS) || h)
  | None => s' = (l, h)
  end.
Proof.
  unfold Interest.validate_body, interest_elem_ok. cbn [fst snd].
  destruct (Interest.elem_index t) as [i|] eqn:Hi.
  - pose proof (elem_index_some t i Hi) as (_ & _ & _).
    destruct (Z.leb_spec i l); [naive_solver lia|].
    destruct (Z.eqb_spec t packet_type.NONCE) as [->|Hn]; cbn [andb].
    + destruct (Z.eqb_spec (zlen v) 4) as [H4|H4]; cbn [negb]; [|naive_solver].
      replace (packet_type.NONCE =? packet_type.INTEREST_SIGNATURE_INFO) with false by done.
      split; [|naive_solver]. intros [= <-]. split_conj; [done|done|done|done|done].
    + destruct (Z.eqb_spec t packet_type.INTEREST_SIGNATURE_INFO) as [->|Hs].
      * destruct (SignatureInfo.decode v) as [si|e]; [|naive_solver].
        split; [intros [= <-]; split_conj; eauto; done|naive_solver].
      * split; [intros [= <-]; split_conj; done|naive_solver].
  - destruct (is_critical_tlv_type t) eqn:Hc.
    + split; [done|]. intros [[H _] _]. by specialize (H eq_refl).
    + split; [|naive_solver]. intros [= <-]. split_conj; [done| | |done].
      * intros ->. by vm_compute in Hi.
      * intros ->. by vm_compute in Hi.
Qed.

Lemma interest_body_ok_cons l e es :
  interest_body_ok l (e :: es) <->
  interest_elem_ok e /\
  match Interest.elem_index e.1 with
  | Some i => l < i /\ interest_body_ok i es
  | None => interest_body_ok l es
  end.
Proof.
  unfold interest_body_ok. rewrite Forall_cons. simpl.
  destruct (Interest.elem_index e.1) as [i|]; simpl; [|tauto].
  split.
  - intros [Hs ?]. inversion Hs as [|? ? Hs' Hhd]; subst. inversion Hhd; subst. tauto.
  - intros (? & ? & ? & ?). split; [|done]. constructor; [done|by constructor].
Qed.

Lemma validate_fold l h es h' :
  (exists l', fold_flow Interest.validate_body es (l, h) = Ok (Next (l', h'))) <->
  interest_body_ok l es /\ h' = has_elem packet_type.APP_PARAMETERS es || h.
Proof.
  revert l h. induction es as [|[t v] es IH]; intros l h; cbn [fold_flow].
  - unfold interest_body_ok. simpl. split.
    + intros [l' [= <- <-]]. split_conj; [by repeat constructor|constructor|done..].
    + intros [_ ->]. eauto.
  - rewrite interest_body_ok_cons. cbn [fst]. pose proof (validate_body_step l h t v) as Hstep.
    assert (has_elem packet_type.APP_PARAMETERS ((t, v) :: es) =
      (t =? packet_type.APP_PARAMETERS) || has_elem packet_type.APP_PARAMETERS es) as -> by done.
    split.
    + intros [l' H]. destruct (Interest.validate_body (l, h) t v) as [[s1|[]]|e]; [|done].
      destruct (proj1 (Hstep s1) eq_refl) as [He Hs1].
      destruct (Interest.elem_index t) as [i|] eqn:Hi.
      * destruct Hs1 as [Hlt ->]. destruct (proj1 (IH i _) (ex_intro _ l' H)) as [Hok ->].
        split; [done|]. by destruct (t =? _), (has_elem _ es), h.
      * subst s1. destruct (proj1 (IH l h) (ex_intro _ l' H)) as [Hok ->].
        split; [done|]. destruct (Z.eqb_spec t packet_type.APP_PARAMETERS) as [->|]; [|done].
        by vm_compute in Hi.
    + intros [[He Hs] ->]. destruct (Interest.elem_index t) as [i|] eqn:Hi.
      * destruct Hs as [Hlt Hok]. rewrite (proj2 (Hstep _) (conj He (conj Hlt eq_refl))).
        apply IH. split; [done|]. by destruct (t =? _), (has_elem _ es), h.
      * rewrite (proj2 (Hstep _) (conj He eq_refl)). apply IH. split; [done|].
        destruct (Z.eqb_spec t packet_type.APP_PARAMETERS) as [->|]; [|done]. by vm_compute in Hi.
Qed.

Lemma validate_interest_body_iff es h :
  Forall wf_elem es -> zlen (elems_wire es) <= usize_max ->
  Interest.validate_interest_body_structure (elems_wire es) = Ok h <->
  interest_body_ok 1 es /\ h = has_elem packet_type.APP_PARAMETERS es.
Proof.
  intros Hes Hl. unfold Interest.validate_interest_body_structure. rewrite scan_elems by done.
  pose proof (validate_fold 1 false es h) as H. rewrite orb_false_r in H. rewrite <- H.
  destruct (fold_flow _ _ _) as [[[l' h']|[]]|e]; simpl.
  - split; [intros [= <-]; eauto|]. by intros [l'' [= _ <-]].
  - split; [done|by intros []].
Qed.

Lemma validate_psdc_iff n h :
  Interest.validate_psdc_structure n h = Ok tt <->
  Interest.psdc_count n <= 1 /\ (h = true -> Interest.psdc_count n = 1).
Proof.
  unfold Interest.validate_psdc_structure.
  assert (0 <= Interest.psdc_count n) by apply zlen_nonneg.
  destruct (Z.ltb_spec 1 (Interest.psdc_count n)); [naive_solver lia|].
  destruct h; simpl; [destruct (Z.eqb_spec (Interest.psdc_count n) 0)|]; naive_solver lia.
Qed.

(** The shape of an Interest on the wire: its name, its other elements, and
    whatever follows it in the buffer. *)
Record interest_shape (raw : bytes) (n : Name) (es : list elem) (rest : bytes) : Prop := {
  shape_raw : raw = tlv_bytes packet_type.INTEREST (tlv_bytes tlv_type.NAME (name_wire n) ++ elems_wire es) ++ rest;
  shape_name : wf_name n;
  shape_nonempty : n <> [];
  shape_elems : Forall wf_elem es;
  shape_order : interest_body_ok 1 es;
  shape_psdc : Interest.psdc_count n <= 1 /\
    (has_elem packet_type.APP_PARAMETERS es = true -> Interest.psdc_count n = 1)
}.

Lemma zlen_body_le t v rest : zlen (tlv_bytes t v ++ rest) <= usize_max -> zlen v + 2 <= usize_max.
Proof.
  rewrite zlen_app, zlen_tlv_bytes. pose proof (tlv_size_bounds t (zlen v) (zlen_nonneg v)).
  pose proof (zlen_nonneg rest). lia.
Qed.

Lemma name_is_empty_false (n : Name) : NameOps.is_empty n = false <-> n <> [].
Proof. by destruct n. Qed.

Lemma interest_decode_shape raw n :
  wf_bytes raw -> zlen raw <= usize_max ->
  Interest.decode raw = Ok (mkInterest raw n) <-> exists es rest, interest_shape raw n es rest.
Proof.
  intros Hwf Hl. unfold Interest.decode. split.
  - destruct (first_tlv raw) as [[[t value] r]|e] eqn:E1; [|done].
    destruct (first_tlv_inv _ _ _ _ Hwf Hl E1) as (Hraw & _ & Hvwf & _ & Hvl & _).
    destruct (Z.eqb_spec t packet_type.INTEREST) as [->|]; [|done]. cbn [negb].
    destruct (first_tlv value) as [[[t' nv] inner]|e] eqn:E2; [|done].
    destruct (first_tlv_inv _ _ _ _ Hvwf Hvl E2) as (Hval & _ & Hnwf & Hiwf & Hnl & Hil).
    destruct (Z.eqb_spec t' tlv_type.NAME) as [->|]; [|done]. cbn [negb].
    destruct (decode_name nv) as [m|e] eqn:E3; [|done].
    destruct (decode_name_inv _ _ Hnwf Hnl E3) as [-> Hm].
    destruct (NameOps.is_empty m) eqn:E4; [done|]. apply name_is_empty_false in E4.
    destruct (Interest.validate_interest_body_structure (TlvReader.as_bytes inner)) as [h|e] eqn:E5; [|done].
    destruct (Interest.validate_psdc_structure m h) as [[]|e] eqn:E6; [|done].
    intros [= <-]. pose proof E5 as E5'. unfold Interest.validate_interest_body_structure in E5.
    destruct (scan _ (TlvReader.as_bytes inner) _) as [[s'|[]]|e] eqn:Es; [|done].
    destruct (scan_total _ _ _ _ Hiwf Hil Es) as (es & Hes & Hin & _). rewrite Hin in *.
    apply validate_interest_body_iff in E5' as [Hok ->]; [|done..].
    exists es, (TlvReader.as_bytes r). constructor; try done; [by rewrite Hval in Hraw|].
    by apply validate_psdc_iff.
  - intros (es & rest & [Hraw Hn Hne Hes Hok Hpsdc]). subst raw.
    pose proof (zlen_body_le _ _ _ Hl) as Hl1. pose proof (proj1 (proj1 (wf_bytes_app _ _) Hwf)) as Hwf1.
    unfold tlv_bytes at 1 in Hwf1. rewrite !wf_bytes_app in Hwf1. destruct Hwf1 as (_ & _ & Hwf1).
    pose proof (zlen_body_le tlv_type.NAME (name_wire n) (elems_wire es) ltac:(rewrite zlen_app; rewrite !zlen_app in Hl1; lia)) as Hl2.
    destruct (first_tlv_ok packet_type.INTEREST _ rest ltac:(solve_closed) Hwf Hl) as (r & -> & _).
    destruct (first_tlv_ok tlv_type.NAME (name_wire n) (elems_wire es)) as (r' & -> & Hr');
      [solve_closed|by apply wf_bytes_app|lia|]. cbn [negb Z.eqb].
    rewrite decode_name_ok by (done || lia). apply name_is_empty_false in Hne. simpl.
    rewrite Hne, Hr'.
    assert (Interest.validate_interest_body_structure (elems_wire es) = Ok (has_elem packet_type.APP_PARAMETERS es)) as ->.
    { apply validate_interest_body_iff; [done| |done]. pose proof (zlen_nonneg (tlv_bytes tlv_type.NAME (name_wire n))).
      rewrite zlen_app in Hl1. lia. }
    by rewrite (proj2 (validate_psdc_iff _ _) Hpsdc).
Qed.

(** ** The accessors of a decoded Interest *)

Section accessors.
Context (raw : bytes) (n : Name) (es : list elem) (rest : bytes).
Context (Hwf : wf_bytes raw) (Hl : zlen raw <= usize_max) (Hshape : interest_shape raw n es rest).

Definition with_name : list elem := (tlv_type.NAME, name_wire n) :: es.

Lemma shape_sizes :
  zlen (elems_wire with_name) <= usize_max /\ Forall wf_elem with_name.
Proof.
  destruct Hshape as [-> Hn _ Hes _ _]. unfold with_name. rewrite elems_wire_cons. cbn [fst snd].
  pose proof (zlen_body_le _ _ _ Hl). split; [lia|].
  apply Forall_cons. split; [|done]. split; [solve_closed|by apply wf_name_wire].
Qed.

Lemma shape_body : Interest.body_of raw = Ok (elems_wire with_name).
Proof.
  destruct Hshape as [Hraw _ _ _ _ _]. unfold Interest.body_of. revert Hwf Hl. rewrite Hraw. intros.
  destruct (first_tlv_ok packet_type.INTEREST _ rest ltac:(solve_closed) Hwf Hl) as (r & -> & _). done.
Qed.

Lemma find_elem_with_name t : t <> tlv_type.NAME -> find_elem t with_name = find_elem t es.
Proof. intros Ht. unfold with_name. rewrite find_elem_cons. by rewrite decide_False. Qed.

Lemma search_body {A} f T (g : bytes -> result (option A) PacketError) :
  T <> tlv_type.NAME ->
  (forall t v, f t v = if t =? T then let? x := g v in Ok (Some x) else Ok None) ->
  (let? value := Interest.body_of raw in search f value) =
    match find_elem T es with Some v => g v | None => Ok None end.
Proof.
  intros HT Hf. destruct shape_sizes. rewrite shape_body, (search_elems f T g), find_elem_with_name; done.
Qed.

Lemma raw_nonempty : (zlen raw =? 0) = false.
Proof.
  destruct Hshape as [-> _ _ _ _ _]. apply Z.eqb_neq. rewrite zlen_app, zlen_tlv_bytes.
  match goal with |- tlv_size ?t (zlen ?v) + zlen ?r <> 0 =>
    pose proof (tlv_size_bounds t (zlen v) (zlen_nonneg v)); pose proof (zlen_nonneg v);
    pose proof (zlen_nonneg r) end. lia.
Qed.

Lemma guarded_search_body {A} f T (g : bytes -> result (option A) PacketError) :
  T <> tlv_type.NAME ->
  (forall t v, f t v = if t =? T then let? x := g v in Ok (Some x) else Ok None) ->
  Interest.guarded raw (search f) = match find_elem T es with Some v => g v | None => Ok None end.
Proof. intros HT Hf. unfold Interest.guarded. rewrite raw_nonempty. by apply search_body. Qed.

Lemma selectors_fold l sel :
  fold_flow (fun sel typ (_ : bytes) =>
    Ok (Next (A := Empty_set)
      (if typ =? packet_type.CAN_BE_PREFIX then mkSelector true (must_be_fresh sel)
       else if typ =? packet_type.MUST_BE_FRESH then mkSelector (can_be_prefix sel) true
       else sel))) l sel =
  Ok (Next (mkSelector (can_be_prefix sel || has_elem packet_type.CAN_BE_PREFIX l)
                       (must_be_fresh sel || has_elem packet_type.MUST_BE_FRESH l))).
Proof.
  revert sel. induction l as [|[t v] l IH]; intros [c m].
  - simpl. by rewrite !orb_false_r.
  - cbn [fold_flow]. rewrite IH. unfold has_elem. cbn [existsb fst].
    destruct (Z.eqb_spec t packet_type.CAN_BE_PREFIX) as [->|]; simpl; [by rewrite orb_true_r|].
    destruct (Z.eqb_spec t packet_type.MUST_BE_FRESH) as [->|]; simpl; [by rewrite orb_true_r|done].
Qed.

Lemma accessor_selectors :
  Interest.selectors (mkInterest raw n) =
    mkSelector (has_elem packet_type.CAN_BE_PREFIX es) (has_elem packet_type.MUST_BE_FRESH es).
Proof.
  unfold Interest.selectors, Interest.decode_selectors. simpl. destruct shape_sizes.
  rewrite shape_body, scan_elems, selectors_fold by done. done.
Qed.

Lemma find_elem_ok t v : find_elem t es = Some v -> exists e, e ∈ es /\ e.1 = t /\ e.2 = v.
Proof.
  unfold find_elem. destruct (list_find _ es) as [[i e]|] eqn:Hf; [|done]. intros [= <-].
  apply list_find_Some in Hf as (Hi & He & _). exists e. split_and!; [by eapply list_elem_of_lookup_2|done..].
Qed.

Lemma elem_ok t v :
  find_elem t es = Some v -> interest_elem_ok (t, v) /\ wf_elem (t, v).
Proof.
  intros ([t' v'] & He & <- & <-)%find_elem_ok. destruct Hshape as [_ _ _ Hes [_ Hok] _].
  rewrite Forall_forall in Hok, Hes. split; [by apply Hok|by apply Hes].
Qed.

Lemma accessor_nonce : Interest.nonce (mkInterest raw n) = be_decode <$> find_elem packet_type.NONCE es.
Proof.
  unfold Interest.nonce, Interest.decode_nonce. simpl.
  rewrite (search_body _ packet_type.NONCE (fun v => if negb (zlen v =? 4)
    then Err (MalformedPacket "Interest Nonce must be exactly 4 bytes") else Ok (Some (be_decode v))));
    [|done|].
  - destruct (find_elem packet_type.NONCE es) as [v|] eqn:Hf; [|done].
    destruct (elem_ok _ _ Hf) as [(_ & H4 & _) _]. simpl in H4. by rewrite H4.
  - intros t v. destruct (t =? packet_type.NONCE); [|done]. by destruct (negb (zlen v =? 4)).
Qed.

Lemma accessor_app_parameters :
  Interest.app_parameters (mkInterest raw n) = find_elem packet_type.APP_PARAMETERS es.
Proof.
  unfold Interest.app_parameters, Interest.decode_app_params. simpl.
  rewrite (guarded_search_body _ packet_type.APP_PARAMETERS (fun v => Ok (Some v))); [|done|].
  - by destruct (find_elem _ es).
  - intros t v. by destruct (t =? packet_type.APP_PARAMETERS).
Qed.

Lemma accessor_hop_limit :
  Interest.hop_limit (mkInterest raw n) =
    match find_elem packet_type.HOP_LIMIT es with Some [h] => Some h | _ => None end.
Proof.
  unfold Interest.hop_limit, Interest.decode_hop_limit. simpl.
  rewrite (guarded_search_body _ packet_type.HOP_LIMIT
    (fun v => Ok (match v with [h] => Some h | _ => None end))); [|done|].
  - by destruct (find_elem _ es) as [[|h []]|].
  - intros t v. by destruct (t =? packet_type.HOP_LIMIT).
Qed.

Lemma accessor_lifetime :
  Interest.lifetime (mkInterest raw n) =
    match find_elem packet_type.INTEREST_LIFETIME es with
    | Some v => match decode_nni v with Ok ms => Some (Z.min ms 3600000) | Err _ => None end
    | None => None
    end.
Proof.
  unfold Interest.lifetime, Interest.decode_lifetime. simpl.
  rewrite (search_body _ packet_type.INTEREST_LIFETIME
    (fun v => let? ms := decode_nni v in Ok (Some (Z.min ms 3600000)))); [|done|].
  - destruct (find_elem _ es) as [v|]; [|done]. by destruct (decode_nni v).
  - intros t v. destruct (t =? packet_type.INTEREST_LIFETIME); [|done]. by destruct (decode_nni v).
Qed.

Lemma accessor_sig_info :
  match find_elem packet_type.INTEREST_SIGNATURE_INFO es with
  | Some v => exists si, SignatureInfo.decode v = Ok si /\ Interest.sig_info (mkInterest raw n) = Some si
  | None => Interest.sig_info (mkInterest raw n) = None
  end.
Proof.
  unfold Interest.sig_info, Interest.decode_interest_sig_info. simpl.
  rewrite (guarded_search_body _ packet_type.INTEREST_SIGNATURE_INFO
    (fun v => let? si := SignatureInfo.decode v in Ok (Some si))); [|done|].
  - destruct (find_elem _ es) as [v|] eqn:Hf; [|done].
    destruct (elem_ok _ _ Hf) as [(_ & _ & Hsi) _]. destruct (Hsi eq_refl) as [si Hd].
    exists si. simpl in Hd. by rewrite Hd.
  - intros t v. destruct (t =? packet_type.INTEREST_SIGNATURE_INFO); [|done].
    by destruct (SignatureInfo.decode v).
Qed.
End accessors.

Lemma decode_i_raw raw i : Interest.decode raw = Ok i -> i = mkInterest raw (i_name i).
Proof.
  unfold Interest.decode. intros Hdec.
  repeat match type of Hdec with (match ?x with _ => _ end) = _ => destruct x; try done end.
  injection Hdec as <-. done.
Qed.

(** ** Properties of Interests *)

(** C40: [Interest::decode] accepts exactly these buffers: an Interest with a
    non-empty name that has at most one parameters digest, one when there are
    application parameters, then the known elements in strictly increasing spec
    order, extension elements that are not critical, a four-byte nonce and a
    SignatureInfo that obeys the key-locator rules.  The digest may stand anywhere
    in the name, as ndn-cxx has it: the rule that it is the last component, which
    the packet specification and the doc of [validate_psdc_structure] state, is not
    one of decoding.  Anything may follow the Interest in the buffer. *)
Theorem interest_decode_iff (raw : bytes) (n : Name) :
  wf_bytes raw -> zlen raw <= usize_max ->
  Interest.decode raw = Ok (mkInterest raw n) <->
  exists es rest,
    raw = tlv_bytes packet_type.INTEREST (tlv_bytes tlv_type.NAME (name_wire n) ++ elems_wire es) ++ rest /\
    wf_name n /\ n <> [] /\ Forall wf_elem es /\
    Sorted Z.lt (1 :: omap (fun e => Interest.elem_index e.1) es) /\ Forall interest_elem_ok es /\
    Interest.psdc_count n <= 1 /\
    (has_elem packet_type.APP_PARAMETERS es = true -> Interest.psdc_count n = 1).
Proof.
  intros Hwf Hl. rewrite (interest_decode_shape raw n Hwf Hl). split.
  - intros (es & rest & [Hraw Hn Hne Hes [Hs Ho] [Hp1 Hp2]]). exists es, rest. by split_conj.
  - intros (es & rest & Hraw & Hn & Hne & Hes & Hs & Ho & Hp1 & Hp2). exists es, rest. by constructor.
Qed.

(** The lazy accessors of a decoded Interest never fail silently: each
    returns what the element of its type holds and nothing when there is none.
    The nonce is a [u32], a SignatureInfo is always readable, and the lifetime is
    clamped to one hour (an ill-sized lifetime reads as absent). *)
Theorem interest_accessors (raw : bytes) (i : Interest) :
  wf_bytes raw -> zlen raw <= usize_max -> Interest.decode raw = Ok i ->
  exists es rest,
    raw = tlv_bytes packet_type.INTEREST (tlv_bytes tlv_type.NAME (name_wire (i_name i)) ++ elems_wire es) ++ rest /\
    Interest.selectors i =
      mkSelector (has_elem packet_type.CAN_BE_PREFIX es) (has_elem packet_type.MUST_BE_FRESH es) /\
    Interest.nonce i = be_decode <$> find_elem packet_type.NONCE es /\
    (forall v, Interest.nonce i = Some v -> is_u32 v) /\
    Interest.app_parameters i = find_elem packet_type.APP_PARAMETERS es /\
    Interest.hop_limit i = match find_elem packet_type.HOP_LIMIT es with Some [h] => Some h | _ => None end /\
    (is_Some (Interest.sig_info i) <-> is_Some (find_elem packet_type.INTEREST_SIGNATURE_INFO es)) /\
    Interest.lifetime i =
      match find_elem packet_type.INTEREST_LIFETIME es with
      | Some v => match decode_nni v with Ok ms => Some (Z.min ms 3600000) | Err _ => None end
      | None => None
      end.
Proof.
  intros Hwf Hl Hdec.
  pose proof (decode_i_raw _ _ Hdec) as Hi.
  rewrite Hi in Hdec. apply interest_decode_shape in Hdec as (es & rest & Hs); [|done..].
  exists es, rest. rewrite Hi. cbn [i_name]. split_conj.
  - apply Hs.
  - by eapply accessor_selectors.
  - by eapply accessor_nonce.
  - intros v Hv. rewrite (accessor_nonce raw _ es rest) in Hv by done.
    destruct (find_elem packet_type.NONCE es) as [b|] eqn:Hf; [|done]. injection Hv as <-.
    destruct (elem_ok raw _ es rest Hs _ _ Hf) as [(_ & H4 & _) [_ Hb]].
    pose proof (be_decode_bound b Hb) as Hbd. simpl in H4. rewrite H4 in Hbd by done.
    unfold_bounds. simpl in Hbd. lia.
  - by eapply accessor_app_parameters.
  - by eapply accessor_hop_limit.
  - pose proof (accessor_sig_info raw _ es rest Hwf Hl Hs) as H.
    destruct (find_elem _ es) as [v|]; [destruct H as (si & _ & ->); by split|].
    rewrite H. split; by intros [].
  - by eapply accessor_lifetime.
Qed.

(** ** Hop-limit decrement *)

(** The offset of the byte the loop stops at. *)
Fixpoint hop_offset (es : list elem) : option Z :=
  match es with
  | [] => None
  | (t, v) :: es =>
      if (t =? packet_type.HOP_LIMIT) && (zlen v =? 1) then Some (varu64_size t + varu64_size (zlen v))
      else Z.add (zlen (tlv_bytes t v)) <$> hop_offset es
  end.

Lemma find_hop_limit_elems fuel pre es :
  Forall wf_elem es -> zlen (pre ++ elems_wire es) <= usize_max -> (length es < fuel)%nat ->
  Interest.find_hop_limit fuel (pre ++ elems_wire es) (zlen pre) = Ok (Z.add (zlen pre) <$> hop_offset es).
Proof.
  intros Hes. revert pre fuel. induction Hes as [|[t v] es [Ht Hv] Hes IH]; intros pre [|fuel] Hl Hf;
    simpl in Hf; try lia.
  - cbn [Interest.find_hop_limit]. change (elems_wire []) with (@nil Z). rewrite app_nil_r.
    by rewrite (proj2 (Z.leb_le _ _)) by lia.
  - cbn [Interest.find_hop_limit hop_offset fst snd] in *. rewrite elems_wire_cons in *. cbn [fst snd] in *.
    pose proof (zlen_nonneg v). pose proof (zlen_nonneg (elems_wire es)). pose proof (zlen_nonneg pre).
    pose proof (tlv_size_bounds t (zlen v) (zlen_nonneg v)).
    assert (is_u64 t) by (unfold_bounds; lia).
    assert (zlen pre + tlv_size t (zlen v) + zlen (elems_wire es) <= usize_max) as Hl'
      by (rewrite !zlen_app, zlen_tlv_bytes in Hl; lia).
    assert (is_u64 (zlen v)) by (unfold_bounds; lia).
    match goal with |- context [if ?a <=? ?b then _ else _] => destruct (Z.leb_spec a b) as [Hle|_] end.
    { rewrite !zlen_app, zlen_tlv_bytes in Hle. lia. }
    rewrite slice_from_app. unfold tlv_bytes at 1. rewrite <- !app_assoc, read_varu64_bytes by done.
    unfold tlv_bytes at 1. rewrite <- !app_assoc.
    rewrite <- (zlen_varu64_bytes t), slice_from_app, zlen_varu64_bytes, read_varu64_bytes by done.
    unfold checked_add. rewrite (proj2 (Z.leb_le _ _)) by (unfold tlv_size in *; lia).
    match goal with |- context [if ?a <? ?b then _ else _] => destruct (Z.ltb_spec a b) as [Hlt|_] end.
    { rewrite !zlen_app, zlen_tlv_bytes in Hlt. unfold tlv_size in *. lia. }
    destruct ((t =? packet_type.HOP_LIMIT) && (zlen v =? 1)); [done|].
    specialize (IH (pre ++ tlv_bytes t v) fuel).
    rewrite <- !app_assoc, !zlen_app, zlen_tlv_bytes in IH.
    replace (zlen pre + (varu64_size t + varu64_size (zlen v)) + zlen v)
      with (zlen pre + tlv_size t (zlen v)) by (unfold tlv_size; lia).
    rewrite IH by (rewrite ?zlen_app, ?zlen_tlv_bytes; lia). rewrite zlen_tlv_bytes.
    destruct (hop_offset es); simpl; [|done]. do 2 f_equal. lia.
Qed.

Lemma hop_split es :
  match hop_offset es with
  | Some off => exists es1 h es2,
      es = es1 ++ (packet_type.HOP_LIMIT, [h]) :: es2 /\ off = zlen (elems_wire es1) + 2
  | None => forall v, (packet_type.HOP_LIMIT, v) ∈ es -> zlen v <> 1
  end.
Proof.
  induction es as [|[t v] es IH]; simpl; [by intros v ?%not_elem_of_nil|].
  destruct (Z.eqb_spec t packet_type.HOP_LIMIT) as [->|Ht]; [destruct (Z.eqb_spec (zlen v) 1) as [Hv|Hv]|]; simpl.
  - destruct v as [|h [|x v]]; [done| |zlen_norm; pose proof (zlen_nonneg v); lia].
    by exists [], h, es.
  - destruct (hop_offset es) as [off|]; simpl.
    + destruct IH as (es1 & h & es2 & -> & ->). exists ((packet_type.HOP_LIMIT, v) :: es1), h, es2.
      split; [done|]. rewrite elems_wire_cons, zlen_app. simpl. lia.
    + intros v' [[= ->]|]%elem_of_cons; [done|by apply IH].
  - destruct (hop_offset es) as [off|]; simpl.
    + destruct IH as (es1 & h & es2 & -> & ->). exists ((t, v) :: es1), h, es2.
      split; [done|]. rewrite elems_wire_cons, zlen_app. simpl. lia.
    + intros v' [[= <- ->]|]%elem_of_cons; [done|by apply IH].
Qed.

Lemma decrement_at_mid pre h post :
  Interest.decrement_at (pre ++ h :: post) (zlen pre) = (pre ++ sat_sub h 1 :: post, sat_sub h 1).
Proof.
  unfold Interest.decrement_at, zlen. rewrite Nat2Z.id.
  assert (nth (length pre) (pre ++ h :: post) 0 = h) as ->.
  { rewrite app_nth2 by lia. by rewrite Nat.sub_diag. }
  f_equal. rewrite insert_app_r_alt by lia. by rewrite Nat.sub_diag.
Qed.

Lemma tlv_hop h : tlv_bytes packet_type.HOP_LIMIT [h] = [34; 1; h].
Proof. done. Qed.

(** A known element occurs once. *)
Lemma known_unique l es1 e es2 i :
  interest_body_ok l (es1 ++ e :: es2) -> Interest.elem_index e.1 = Some i ->
  find_elem e.1 (es1 ++ e :: es2) = Some e.2 /\
  forall e', e' ∈ es1 ++ e :: es2 -> e'.1 = e.1 -> e' = e.
Proof.
  intros [Hs _] Hi. rewrite omap_app in Hs. simpl in Hs. rewrite Hi in Hs.
  apply Sorted_StronglySorted in Hs; [|intros ???; lia].
  apply StronglySorted_inv in Hs as [Hs _]. apply StronglySorted_app in Hs as (Hlt & _ & Hs2).
  apply StronglySorted_inv in Hs2 as [_ Hgt]. rewrite Forall_forall in Hgt.
  assert (forall e', e' ∈ es1 -> e'.1 <> e.1) as Hno1.
  { intros e' He' Heq. assert (i ∈ known_indices es1) as Hin.
    { apply list_elem_of_omap. exists e'. by rewrite Heq. }
    specialize (Hlt i i Hin ltac:(left)). lia. }
  split.
  - induction es1 as [|e1 es1 IH]; simpl; rewrite find_elem_cons; [by rewrite decide_True|].
    rewrite decide_False by (apply Hno1; left). apply IH; [|intros; apply Hno1; by right].
    intros x1 x2 H1. apply Hlt. simpl. destruct (Interest.elem_index e1.1); [by right|done].
  - intros e' [He'|[->|He']%elem_of_cons]%elem_of_app Heq; [by destruct (Hno1 e')|done|].
    assert (i ∈ known_indices es2) as Hin.
    { apply list_elem_of_omap. exists e'. by rewrite Heq. }
    specialize (Hgt i Hin). lia.
Qed.

Definition outer_header (value : bytes) : bytes :=
  varu64_bytes packet_type.INTEREST ++ varu64_bytes (zlen value).

Lemma outer_header_spec value :
  tlv_bytes packet_type.INTEREST value = outer_header value ++ value.
Proof. unfold tlv_bytes, outer_header. by rewrite <- app_assoc. Qed.

(** Both decrements find the byte the elements say. *)
Lemma decrement_hop_limit_elems es :
  Forall wf_elem es -> zlen (tlv_bytes packet_type.INTEREST (elems_wire es)) <= usize_max ->
  Interest.decrement_hop_limit (tlv_bytes packet_type.INTEREST (elems_wire es)) =
    Ok ((fun off => Interest.decrement_at (tlv_bytes packet_type.INTEREST (elems_wire es))
                      (zlen (outer_header (elems_wire es)) + off)) <$> hop_offset es).
Proof.
  intros Hes Hl. unfold Interest.decrement_hop_limit. set (value := elems_wire es) in *.
  assert (wf_bytes (tlv_bytes packet_type.INTEREST value)) as Hwf
    by (apply wf_tlv_bytes; [done|by apply wf_elems_wire]).
  assert (zlen value + 2 <= usize_max) as Hl' by (apply (zlen_body_le packet_type.INTEREST _ []); by rewrite app_nil_r).
  destruct (Z.eqb_spec (zlen (tlv_bytes packet_type.INTEREST value)) 0) as [H0|_].
  { rewrite zlen_tlv_bytes in H0. pose proof (tlv_size_bounds packet_type.INTEREST (zlen value) (zlen_nonneg _)).
    pose proof (zlen_nonneg value). lia. }
  destruct (first_tlv_ok packet_type.INTEREST value []) as (r & Hf & _);
    [solve_closed|by rewrite app_nil_r..|]. rewrite app_nil_r in Hf. rewrite Hf.
  rewrite outer_header_spec, zlen_app.
  replace (zlen (outer_header value) + zlen value - zlen value) with (zlen (outer_header value)) by lia.
  rewrite slice_from_app. subst value.
  rewrite (find_hop_limit_elems _ [] es Hes) by (simpl; pose proof (length_elems_wire es); lia).
  simpl. by destruct (hop_offset es).
Qed.

Lemma decrement_in_place_elems es :
  Forall wf_elem es -> zlen (tlv_bytes packet_type.INTEREST (elems_wire es)) <= usize_max ->
  let raw := tlv_bytes packet_type.INTEREST (elems_wire es) in
  Interest.decrement_hop_limit_in_place raw =
    Ok (match hop_offset es with
        | Some off => let '(w, h) := Interest.decrement_at raw (zlen (outer_header (elems_wire es)) + off) in (w, Some h)
        | None => (raw, None)
        end).
Proof.
  intros Hes Hl raw. unfold Interest.decrement_hop_limit_in_place.
  assert (zlen (elems_wire es) + 2 <= usize_max) as Hl'
    by (apply (zlen_body_le packet_type.INTEREST _ []); by rewrite app_nil_r).
  pose proof (zlen_nonneg (elems_wire es)).
  destruct (Z.eqb_spec (zlen raw) 0) as [H0|_].
  { subst raw. rewrite zlen_tlv_bytes in H0.
    pose proof (tlv_size_bounds packet_type.INTEREST (zlen (elems_wire es)) (zlen_nonneg _)). lia. }
  assert (read_varu64 raw = Ok (packet_type.INTEREST, varu64_size packet_type.INTEREST)) as ->
    by (apply read_varu64_bytes; solve_closed).
  assert (slice_from_ raw (varu64_size packet_type.INTEREST) = varu64_bytes (zlen (elems_wire es)) ++ elems_wire es) as ->
    by (subst raw; unfold tlv_bytes; rewrite <- zlen_varu64_bytes; by rewrite slice_from_app).
  rewrite read_varu64_bytes by (unfold_bounds; lia).
  replace (varu64_size packet_type.INTEREST + varu64_size (zlen (elems_wire es)))
    with (zlen (outer_header (elems_wire es))) by (unfold outer_header; by rewrite zlen_app, !zlen_varu64_bytes).
  subst raw. rewrite outer_header_spec in *.
  rewrite find_hop_limit_elems by (try done; pose proof (length_elems_wire es); rewrite length_app; lia).
  simpl. by destruct (hop_offset es).
Qed.

Lemma decrement_hop_value es1 h es2 :
  let es := es1 ++ (packet_type.HOP_LIMIT, [h]) :: es2 in
  let es' := es1 ++ (packet_type.HOP_LIMIT, [sat_sub h 1]) :: es2 in
  zlen (elems_wire es') = zlen (elems_wire es) /\
  Interest.decrement_at (tlv_bytes packet_type.INTEREST (elems_wire es))
    (zlen (outer_header (elems_wire es)) + (zlen (elems_wire es1) + 2)) =
  (tlv_bytes packet_type.INTEREST (elems_wire es'), sat_sub h 1).
Proof.
  intros es es'.
  assert (zlen (elems_wire es') = zlen (elems_wire es)) as Hlen.
  { subst es es'. by rewrite !elems_wire_app, !elems_wire_cons, !zlen_app, !zlen_tlv_bytes. }
  split; [done|]. rewrite !outer_header_spec.
  assert (outer_header (elems_wire es') = outer_header (elems_wire es)) as -> by (unfold outer_header; by rewrite Hlen).
  pose proof (decrement_at_mid (outer_header (elems_wire es) ++ elems_wire es1 ++ [34; 1]) h (elems_wire es2)) as H.
  rewrite !zlen_app in H. change (zlen [34; 1]) with 2 in H.
  revert H. generalize (outer_header (elems_wire es)) as o. intros o H.
  subst es es'. rewrite !elems_wire_app, !elems_wire_cons. cbn [fst snd]. rewrite !tlv_hop.
  rewrite <- !app_assoc in H. exact H.
Qed.

(** Replacing the hop limit keeps the shape. *)
Lemma shape_set_hop raw n es1 h h' es2 :
  is_u8 h' ->
  interest_shape raw n (es1 ++ (packet_type.HOP_LIMIT, [h]) :: es2) [] ->
  let es' := es1 ++ (packet_type.HOP_LIMIT, [h']) :: es2 in
  interest_shape (tlv_bytes packet_type.INTEREST (tlv_bytes tlv_type.NAME (name_wire n) ++ elems_wire es')) n es' [].
Proof.
  intros Hh [_ Hn Hne Hes [Hs Ho] Hp] es'. constructor; try done.
  - by rewrite app_nil_r.
  - apply Forall_app in Hes as [H1 [_ H2]%Forall_cons]. apply Forall_app. split; [done|].
    apply Forall_cons. split; [|done]. split; [solve_closed|]. by apply Forall_singleton.
  - split.
    + subst es'. rewrite omap_app in *. done.
    + apply Forall_app in Ho as [H1 [_ H2]%Forall_cons]. apply Forall_app. split; [done|].
      apply Forall_cons. split; [|done]. repeat split; done.
  - subst es'. unfold has_elem in *. rewrite existsb_app in *. done.
Qed.

Lemma shape_exact raw n es rest value :
  zlen raw <= usize_max -> interest_shape raw n es rest -> raw = tlv_bytes packet_type.INTEREST value -> rest = [].
Proof.
  intros Hl Hs Hval. pose proof (shape_raw _ _ _ _ Hs) as Hraw. rewrite Hraw in Hval, Hl.
  apply zlen_body_le in Hl as Hl1. rewrite Hval in Hl. rewrite <- (app_nil_r (tlv_bytes _ value)) in Hval, Hl.
  apply zlen_body_le in Hl. unfold usize_max in *.
  by apply tlv_bytes_inj_app in Hval as (_ & _ & ->); [|solve_closed..|lia|lia].
Qed.

Section hop.
Context (raw : bytes) (n : Name).

Lemma shape_raw_elems es :
  interest_shape raw n es [] -> raw = tlv_bytes packet_type.INTEREST (elems_wire (with_name n es)).
Proof. intros Hs. rewrite (shape_raw _ _ _ _ Hs). by rewrite app_nil_r. Qed.

(** Where the hop limit is, in the elements and in the wire. *)
Lemma decrement_shape es :
  wf_bytes raw -> zlen raw <= usize_max -> interest_shape raw n es [] ->
  let off_of off := zlen (outer_header (elems_wire (with_name n es)))
                    + (zlen (tlv_bytes tlv_type.NAME (name_wire n)) + off) in
  Interest.decrement_hop_limit raw = Ok ((fun off => Interest.decrement_at raw (off_of off)) <$> hop_offset es) /\
  Interest.decrement_hop_limit_in_place raw =
    Ok (match hop_offset es with
        | Some off => let '(w, h) := Interest.decrement_at raw (off_of off) in (w, Some h)
        | None => (raw, None)
        end).
Proof.
  intros Hwf Hl Hs off_of. destruct (shape_sizes raw n es [] Hwf Hl Hs) as [_ Hwn].
  pose proof (shape_raw_elems es Hs) as Hraw. rewrite Hraw in Hl.
  pose proof (decrement_hop_limit_elems _ Hwn Hl) as Hd1. pose proof (decrement_in_place_elems _ Hwn Hl) as Hd2.
  cbv zeta in Hd2. rewrite <- Hraw in *. rewrite Hd1, Hd2.
  assert (hop_offset (with_name n es) = Z.add (zlen (tlv_bytes tlv_type.NAME (name_wire n))) <$> hop_offset es) as -> by done.
  by destruct (hop_offset es).
Qed.

(** The wire with a new hop limit. *)
Lemma set_hop_wire es1 h es2 :
  wf_bytes raw -> zlen raw <= usize_max ->
  interest_shape raw n (es1 ++ (packet_type.HOP_LIMIT, [h]) :: es2) [] ->
  let es' := es1 ++ (packet_type.HOP_LIMIT, [sat_sub h 1]) :: es2 in
  let raw' := tlv_bytes packet_type.INTEREST (elems_wire (with_name n es')) in
  interest_shape raw' n es' [] /\ wf_bytes raw' /\ zlen raw' <= usize_max /\
  Interest.decrement_at raw
    (zlen (outer_header (elems_wire (with_name n (es1 ++ (packet_type.HOP_LIMIT, [h]) :: es2))))
     + (zlen (tlv_bytes tlv_type.NAME (name_wire n)) + (zlen (elems_wire es1) + 2))) = (raw', sat_sub h 1).
Proof.
  intros Hwf Hl Hs es' raw'.
  assert (is_u8 (sat_sub h 1)) as Hh'.
  { pose proof (shape_elems _ _ _ _ Hs) as Hes. apply Forall_app in Hes as [_ [[_ Hh] _]%Forall_cons].
    apply Forall_cons in Hh as [Hh _]. unfold sat_sub. unfold_bounds. lia. }
  destruct (decrement_hop_value ((tlv_type.NAME, name_wire n) :: es1) h es2) as [Hlen Hat]. cbv zeta in Hlen, Hat.
  pose proof (shape_set_hop raw n es1 h (sat_sub h 1) es2 Hh' Hs) as Hs'. cbv zeta in Hs'.
  change (interest_shape raw' n es' []) in Hs'. split_conj; [done| | |].
  - apply wf_tlv_bytes; [done|]. apply wf_elems_wire. apply Forall_cons. split.
    + split; [solve_closed|apply wf_name_wire, Hs].
    + apply Hs'.
  - subst raw'. rewrite (shape_raw_elems _ Hs) in Hl. rewrite zlen_tlv_bytes in *.
    change (elems_wire (with_name n es')) with (elems_wire (((tlv_type.NAME, name_wire n) :: es1)
      ++ (packet_type.HOP_LIMIT, [sat_sub h 1]) :: es2)). by rewrite Hlen.
  - rewrite (shape_raw_elems _ Hs). rewrite elems_wire_cons, zlen_app in Hat. cbn [fst snd] in Hat.
    rewrite <- Z.add_assoc in Hat. exact Hat.
Qed.

Lemma hop_limit_at es1 h es2 :
  wf_bytes raw -> zlen raw <= usize_max ->
  interest_shape raw n (es1 ++ (packet_type.HOP_LIMIT, [h]) :: es2) [] ->
  Interest.hop_limit (mkInterest raw n) = Some h.
Proof.
  intros Hwf Hl Hs. rewrite (accessor_hop_limit _ _ _ _ Hwf Hl Hs).
  destruct (known_unique 1 es1 (packet_type.HOP_LIMIT, [h]) es2 7 (shape_order _ _ _ _ Hs) eq_refl) as [Hfind _].
  cbn [fst snd] in Hfind. by rewrite Hfind.
Qed.
End hop.

(** The hop limit is decremented exactly when there is one.  For an
    Interest that fills its buffer, both variants agree; they change nothing
    when no hop limit can be read; otherwise they rewrite one byte of a wire of
    the same length, which decodes to the same name with the hop limit one lower
    (zero stays zero); the walk neither overflows nor runs out. *)
Theorem hop_limit_decrement (raw : bytes) (i : Interest) :
  wf_bytes raw -> zlen raw <= usize_max -> Interest.decode raw = Ok i ->
  (exists value, raw = tlv_bytes packet_type.INTEREST value) ->
  match Interest.hop_limit i with
  | None => Interest.decrement_hop_limit raw = Ok None /\
            Interest.decrement_hop_limit_in_place raw = Ok (raw, None)
  | Some h => exists raw' k,
      Interest.decrement_hop_limit raw = Ok (Some (raw', sat_sub h 1)) /\
      Interest.decrement_hop_limit_in_place raw = Ok (raw', Some (sat_sub h 1)) /\
      raw' = <[k := sat_sub h 1]> raw /\
      Interest.decode raw' = Ok (mkInterest raw' (i_name i)) /\
      Interest.hop_limit (mkInterest raw' (i_name i)) = Some (sat_sub h 1)
  end.
Proof.
  intros Hwf Hl Hdec [value Hval]. rewrite (decode_i_raw _ _ Hdec) in Hdec |- *. cbn [i_name].
  apply interest_decode_shape in Hdec as (es & rest & Hs); [|done..]. revert Hs.
  generalize (i_name i) as n. intros n Hs.
  assert (rest = []) as -> by by eapply shape_exact.
  destruct (decrement_shape raw n es Hwf Hl Hs) as [-> ->].
  pose proof (hop_split es) as Hsplit.
  destruct (hop_offset es) as [off|]; cbn [fmap option_fmap option_map].
  - destruct Hsplit as (es1 & h & es2 & -> & ->). rewrite (hop_limit_at raw n es1 h es2 Hwf Hl Hs).
    destruct (set_hop_wire raw n es1 h es2 Hwf Hl Hs) as (Hs' & Hwf' & Hl' & Hat). rewrite Hat.
    eexists _, _. split_conj; [done|done| | |].
    + unfold Interest.decrement_at in Hat. injection Hat as Hraw' Hnew. rewrite Hnew in Hraw'.
      symmetry. exact Hraw'.
    + apply interest_decode_shape; eauto.
    + exact (hop_limit_at _ n es1 _ es2 Hwf' Hl' Hs').
  - rewrite (accessor_hop_limit raw n es [] Hwf Hl Hs).
    destruct (find_elem packet_type.HOP_LIMIT es) as [[|h []]|] eqn:Hf; try done.
    apply find_elem_ok in Hf as ([t v] & Hin & Ht & Hv). simpl in Ht, Hv. subst t v.
    by destruct (Hsplit _ Hin).
Qed.

(** ** Data packets *)

(** The reader's methods only move its cursor. *)
Lemma read_type_buf r : TlvReader.buf (TlvReader.read_type r).2 = TlvReader.buf r.
Proof. unfold TlvReader.read_type. destruct (read_varu64 _) as [[]|]; [by case_match|done]. Qed.
Lemma read_length_buf r : TlvReader.buf (TlvReader.read_length r).2 = TlvReader.buf r.
Proof. unfold TlvReader.read_length. destruct (read_varu64 _) as [[]|]; [by case_match|done]. Qed.
Lemma read_bytes_buf len r : TlvReader.buf (TlvReader.read_bytes len r).2 = TlvReader.buf r.
Proof. unfold TlvReader.read_bytes. destruct (checked_add _ _); [by case_match|done]. Qed.

Lemma read_tlv_buf r t v r' :
  TlvReader.read_tlv r = (Ok (t, v), r') -> TlvReader.buf r' = TlvReader.buf r.
Proof.
  intros H. assert (TlvReader.buf (TlvReader.read_tlv r).2 = TlvReader.buf r) as Hb; [|by rewrite H in Hb].
  clear H. unfold TlvReader.read_tlv.
  apply (sm_bind_state (fun r' => TlvReader.buf r' = TlvReader.buf r)); [apply read_type_buf|].
  intros t' _ <-. match goal with |- context [(sm_bind _ _ ?r1).2] => generalize r1 end. intros r1.
  apply (sm_bind_state (fun r' => TlvReader.buf r' = TlvReader.buf r1)); [apply read_length_buf|].
  intros n _ <-. match goal with |- context [(sm_bind _ _ ?r2).2] => generalize r2 end. intros r2.
  apply (sm_bind_state (fun r' => TlvReader.buf r' = TlvReader.buf r2)); [apply read_bytes_buf|done].
Qed.

Lemma read_tlv_pos r t v r' :
  TlvReader.wf r -> TlvReader.read_tlv r = (Ok (t, v), r') ->
  TlvReader.position r' = TlvReader.position r + zlen (tlv_bytes t v).
Proof.
  intros Hr H. pose proof (read_tlv_buf _ _ _ _ H) as Hb.
  destruct (read_tlv_inv _ _ _ _ Hr H) as (Heq & _ & Hr').
  destruct Hr as (_ & Hp & _), Hr' as (_ & Hp' & _). apply (f_equal zlen) in Heq.
  rewrite zlen_app in Heq. unfold TlvReader.as_bytes, TlvReader.position in *.
  rewrite !zlen_slice_from in Heq by done. rewrite Hb in *. lia.
Qed.

(** Where the signature value is found, if the bytes are elements up to it. *)
Lemma scan_for_sig_value_found fuel start r pre sv rest :
  TlvReader.wf r -> Forall wf_elem pre -> Forall (fun e => e.1 <> packet_type.SIGNATURE_VALUE) pre ->
  TlvReader.as_bytes r = elems_wire pre ++ tlv_bytes packet_type.SIGNATURE_VALUE sv ++ rest ->
  (length pre < fuel)%nat ->
  Data.scan_for_sig_value fuel start r =
    (start + TlvReader.position r + zlen (elems_wire pre),
     start + TlvReader.position r + zlen (elems_wire pre) + zlen (tlv_bytes packet_type.SIGNATURE_VALUE sv)).
Proof.
  intros Hr Hpre. revert fuel r Hr. induction Hpre as [|[t v] pre [Ht Hv] Hpre IH];
    intros [|fuel] r Hr Hno Heq Hf; simpl in Hf; try lia; cbn [Data.scan_for_sig_value].
  - replace (zlen (elems_wire [])) with 0 by done. change (elems_wire []) with (@nil Z) in Heq.
    rewrite app_nil_l in Heq.
    destruct (TlvReader.is_empty r) eqn:He.
    { apply is_empty_spec in He; [|done]. rewrite He in Heq. symmetry in Heq. by apply tlv_bytes_nonempty in Heq. }
    assert (is_u32 packet_type.SIGNATURE_VALUE) as Ht by solve_closed.
    destruct (read_tlv_ok r _ sv rest Hr Ht Heq) as (r' & Hread & _). rewrite Hread.
    rewrite (read_tlv_pos _ _ _ _ Hr Hread). simpl. f_equal; lia.
  - apply Forall_cons in Hno as [Hnt Hno]. rewrite elems_wire_cons, <- app_assoc in Heq. cbn [fst snd] in *.
    destruct (TlvReader.is_empty r) eqn:He.
    { apply is_empty_spec in He; [|done]. rewrite He in Heq. symmetry in Heq. by apply tlv_bytes_nonempty in Heq. }
    destruct (read_tlv_ok r t v _ Hr Ht Heq) as (r' & Hread & Heq' & Hr'). rewrite Hread.
    rewrite (proj2 (Z.eqb_neq _ _) Hnt), (IH fuel r' Hr' Hno Heq') by lia.
    rewrite (read_tlv_pos _ _ _ _ Hr Hread), elems_wire_cons, zlen_app. simpl. f_equal; lia.
Qed.

Lemma scan_for_sig_value_none fuel start r es :
  TlvReader.wf r -> Forall wf_elem es -> Forall (fun e => e.1 <> packet_type.SIGNATURE_VALUE) es ->
  TlvReader.as_bytes r = elems_wire es -> (length es < fuel)%nat ->
  Data.scan_for_sig_value fuel start r = (0, 0).
Proof.
  intros Hr Hes. revert fuel r Hr. induction Hes as [|[t v] es [Ht Hv] Hes IH];
    intros [|fuel] r Hr Hno Heq Hf; simpl in Hf; try lia; cbn [Data.scan_for_sig_value].
  - by rewrite (proj2 (is_empty_spec r Hr) Heq).
  - apply Forall_cons in Hno as [Hnt Hno]. rewrite elems_wire_cons in Heq. cbn [fst snd] in *.
    destruct (TlvReader.is_empty r) eqn:He.
    { apply is_empty_spec in He; [|done]. rewrite He in Heq. symmetry in Heq. by apply tlv_bytes_nonempty in Heq. }
    destruct (read_tlv_ok r t v _ Hr Ht Heq) as (r' & -> & Heq' & Hr').
    rewrite (proj2 (Z.eqb_neq _ _) Hnt). apply IH; [done..|lia].
Qed.

(** What [Data::decode] makes of the element's value alone. *)
Definition data_name_of (value : bytes) : result Name PacketError :=
  let? (name_typ, name_val, inner) := first_tlv value in
  if negb (name_typ =? tlv_type.NAME) then Err (UnknownPacketType name_typ)
  else
    let? name := decode_name name_val in
    if NameOps.is_empty name then
      Err (MalformedPacket "Data Name must have at least one component")
    else
      let? _ := Data.validate_data_body_structure (TlvReader.as_bytes inner) in Ok name.

(** And of the whole buffer: the value decides acceptance and the name; the
    signed region starts at the buffer's length less the value's. *)
Lemma data_decode_unfold value rest :
  wf_bytes (tlv_bytes packet_type.DATA value ++ rest) ->
  zlen (tlv_bytes packet_type.DATA value ++ rest) <= usize_max ->
  let raw := tlv_bytes packet_type.DATA value ++ rest in
  let start := zlen raw - zlen value in
  let scanned := slice_from_ raw start in
  Data.decode raw =
    let? name := data_name_of value in
    let '(s, e) := Data.scan_for_sig_value (S (length scanned)) start (TlvReader.new scanned) in
    Ok (mkData raw start (if 0 <? s then s else zlen raw) s e name).
Proof.
  intros Hwf Hl raw start scanned. unfold Data.decode, data_name_of.
  destruct (first_tlv_ok packet_type.DATA value rest ltac:(solve_closed) Hwf Hl) as (r & Hf & _).
  fold raw in Hf. rewrite Hf. cbn [negb Z.eqb]. fold start scanned.
  replace (negb (packet_type.DATA =? packet_type.DATA)) with false by done.
  destruct (first_tlv value) as [[[t nv] inner]|]; [|done].
  destruct (negb (t =? tlv_type.NAME)); [done|].
  destruct (decode_name nv) as [m|]; [|done].
  destruct (NameOps.is_empty m); [done|].
  by destruct (Data.validate_data_body_structure (TlvReader.as_bytes inner)).
Qed.

Lemma data_body_of value rest :
  wf_bytes (tlv_bytes packet_type.DATA value ++ rest) ->
  zlen (tlv_bytes packet_type.DATA value ++ rest) <= usize_max ->
  Data.body_of (tlv_bytes packet_type.DATA value ++ rest) = Ok value.
Proof.
  intros Hwf Hl. unfold Data.body_of.
  by destruct (first_tlv_ok packet_type.DATA value rest ltac:(solve_closed) Hwf Hl) as (r & -> & _).
Qed.

(** The two regions of the buffer, once the scan has found the signature
    value after [a] bytes of the signed part. *)
Lemma data_regions pre a sv post name :
  zlen (pre ++ a ++ tlv_bytes packet_type.SIGNATURE_VALUE sv ++ post) <= usize_max -> pre <> [] ->
  wf_bytes (tlv_bytes packet_type.SIGNATURE_VALUE sv) ->
  let raw := pre ++ a ++ tlv_bytes packet_type.SIGNATURE_VALUE sv ++ post in
  let s := zlen pre + zlen a in
  let e := s + zlen (tlv_bytes packet_type.SIGNATURE_VALUE sv) in
  let d := mkData raw (zlen pre) (if 0 <? s then s else zlen raw) s e name in
  Data.signed_region d = a /\ Data.sig_value d = sv.
Proof.
  intros Hl Hpre Hwf raw s e d.
  assert (0 < zlen pre) by (destruct pre; [done|zlen_norm; pose proof (zlen_nonneg pre); lia]).
  pose proof (zlen_nonneg a). pose proof (zlen_nonneg sv). pose proof (zlen_nonneg post).
  set (tlv := tlv_bytes packet_type.SIGNATURE_VALUE sv) in *.
  assert (zlen sv + 2 <= zlen tlv) as Htlv.
  { subst tlv. rewrite zlen_tlv_bytes.
    pose proof (tlv_size_bounds packet_type.SIGNATURE_VALUE (zlen sv) (zlen_nonneg sv)). lia. }
  assert (0 < s) by (unfold s; lia). split.
  - unfold Data.signed_region, d. cbn [d_raw signed_start signed_end].
    rewrite (proj2 (Z.ltb_lt 0 s)) by done. by apply slice_mid.
  - unfold Data.sig_value, d. cbn [d_raw sig_value_start sig_value_end].
    rewrite (proj2 (Z.eqb_neq s 0)), (proj2 (Z.eqb_neq e 0)) by (unfold e; lia). cbn [orb].
    assert (slice raw s e = tlv) as ->.
    { subst raw. rewrite app_assoc. apply slice_mid; unfold e, s; rewrite zlen_app; lia. }
    assert (zlen tlv <= usize_max) by (unfold raw in Hl; rewrite !zlen_app in Hl; lia).
    destruct (first_tlv_ok packet_type.SIGNATURE_VALUE sv []) as (r & Hf & _);
      [solve_closed|by rewrite app_nil_r..|]. rewrite app_nil_r in Hf. fold tlv in Hf. rewrite Hf.
    assert (tlv = (varu64_bytes packet_type.SIGNATURE_VALUE ++ varu64_bytes (zlen sv)) ++ sv) as Hsplit
      by (subst tlv; unfold tlv_bytes; by rewrite <- app_assoc).
    set (h := varu64_bytes packet_type.SIGNATURE_VALUE ++ varu64_bytes (zlen sv)) in *.
    unfold raw, e, s. rewrite Hsplit, zlen_app, <- app_assoc, (app_assoc a), (app_assoc pre).
    apply slice_mid; rewrite !zlen_app; lia.
Qed.

Lemma find_elem_split t es :
  match find_elem t es with
  | Some v => exists pre post, es = pre ++ (t, v) :: post /\ Forall (fun e => e.1 <> t) pre
  | None => Forall (fun e => e.1 <> t) es
  end.
Proof.
  induction es as [|[t' v'] es IH]; [constructor|]. rewrite find_elem_cons. cbn [fst snd].
  destruct (decide (t' = t)) as [->|Hne]; [by exists [], es|].
  destruct (find_elem t es) as [v|]; [|by apply Forall_cons].
  destruct IH as (pre & post & -> & Hpre). exists ((t', v') :: pre), post. split; [done|by apply Forall_cons].
Qed.

(** Nothing the spec knows follows a signature value. *)
Lemma after_sig_value post st s' :
  fold_flow Data.validate_body post (5, st) = Ok (Next s') ->
  Forall (fun e => Data.elem_index e.1 = None) post.
Proof.
  revert st. induction post as [|[t v] post IH]; intros st; cbn [fold_flow]; [constructor|].
  unfold Data.validate_body at 1. destruct (Data.elem_index t) as [i|] eqn:Hi.
  - assert (i <= 5) as Hle by (unfold Data.elem_index in Hi; repeat bcase_step; simplify_eq; lia).
    by rewrite (proj2 (Z.leb_le _ _) Hle).
  - destruct (is_critical_tlv_type t); [done|]. intros H. apply Forall_cons. eauto.
Qed.

Lemma validate_body_sig_value s sv s' :
  Data.validate_body s packet_type.SIGNATURE_VALUE sv = Ok (Next s') -> exists st, s' = (5, st).
Proof.
  destruct s as [l st]. unfold Data.validate_body.
  change (Data.elem_index packet_type.SIGNATURE_VALUE) with (Some 5). cbn iota.
  destruct (5 <=? l); [done|].
  change (packet_type.SIGNATURE_VALUE =? packet_type.SIGNATURE_INFO) with false. cbn iota.
  match goal with |- (if ?c then _ else _) = _ -> _ => destruct c end; [done|]. intros [= <-]. eauto.
Qed.

Lemma data_name_of_inv value n :
  wf_bytes value -> zlen value <= usize_max -> data_name_of value = Ok n ->
  exists es s, value = elems_wire (with_name n es) /\ Forall wf_elem (with_name n es) /\ n <> [] /\
    fold_flow Data.validate_body es (1, None) = Ok (Next s).
Proof.
  intros Hwf Hl. unfold data_name_of.
  destruct (first_tlv value) as [[[t nv] inner]|] eqn:E; [|done].
  destruct (first_tlv_inv _ _ _ _ Hwf Hl E) as (Hval & _ & Hnwf & Hiwf & Hnl & Hil).
  destruct (Z.eqb_spec t tlv_type.NAME) as [->|]; [|done]. cbn [negb].
  destruct (decode_name nv) as [m|] eqn:Em; [|done].
  destruct (decode_name_inv _ _ Hnwf Hnl Em) as [-> Hm].
  destruct (NameOps.is_empty m) eqn:Ee; [done|]. apply name_is_empty_false in Ee.
  unfold Data.validate_data_body_structure.
  destruct (scan _ (TlvReader.as_bytes inner) _) as [[s|[]]|] eqn:Es; [|done]. intros [= <-].
  destruct (scan_total _ _ _ _ Hiwf Hil Es) as (es & Hes & Hin & Hfold). rewrite Hin in Hval.
  exists es, s. split_conj; [done| |done|done].
  apply Forall_cons. split; [|done]. split; [solve_closed|done].
Qed.

Definition data_header (value : bytes) : bytes :=
  varu64_bytes packet_type.DATA ++ varu64_bytes (zlen value).
Lemma data_header_spec value : tlv_bytes packet_type.DATA value = data_header value ++ value.
Proof. unfold tlv_bytes, data_header. by rewrite <- app_assoc. Qed.
Lemma data_header_nonempty value : data_header value <> [].
Proof. unfold data_header. pose proof (varu64_bytes_nonempty packet_type.DATA). by destruct (varu64_bytes packet_type.DATA). Qed.

(** The same, for a packet that fills its buffer. *)
Definition exact_data (value : bytes) (name : Name) : Data :=
  let raw := data_header value ++ value in
  let '(s, e) := Data.scan_for_sig_value (S (length value)) (zlen (data_header value)) (TlvReader.new value) in
  mkData raw (zlen (data_header value)) (if 0 <? s then s else zlen raw) s e name.

Lemma data_decode_exact value d :
  wf_bytes (tlv_bytes packet_type.DATA value) -> zlen (tlv_bytes packet_type.DATA value) <= usize_max ->
  Data.decode (tlv_bytes packet_type.DATA value) = Ok d ->
  exists es s, value = elems_wire (with_name (d_name d) es) /\ Forall wf_elem (with_name (d_name d) es) /\
    d_name d <> [] /\ fold_flow Data.validate_body es (1, None) = Ok (Next s) /\ wf_bytes value /\ zlen value <= usize_max /\
    d = exact_data value (d_name d).
Proof.
  intros Hwf Hl Hdec. pose proof (data_decode_unfold value []) as Hunf. rewrite app_nil_r in Hunf.
  specialize (Hunf Hwf Hl). cbv zeta in Hunf. rewrite Hdec in Hunf. clear Hdec.
  assert (zlen value + 2 <= usize_max) as Hvl by (apply (zlen_body_le packet_type.DATA _ []); by rewrite app_nil_r).
  assert (wf_bytes value) as Hvwf by (unfold tlv_bytes in Hwf; rewrite !wf_bytes_app in Hwf; tauto).
  destruct (data_name_of value) as [n|] eqn:Hn; [|done].
  destruct (data_name_of_inv _ _ Hvwf ltac:(lia) Hn) as (es & s & Hval & Hes & Hne & Hfold).
  rewrite data_header_spec, zlen_app in Hunf.
  replace (zlen (data_header value) + zlen value - zlen value) with (zlen (data_header value)) in Hunf by lia.
  rewrite slice_from_app in Hunf. unfold exact_data. rewrite zlen_app.
  destruct (Data.scan_for_sig_value _ _ _) as [s0 e0]. injection Hunf as ->. cbn [d_name].
  exists es, s. split_conj; try done. lia.
Qed.

(** For a Data packet that fills its buffer, the signed region is what the
    signature must cover: the name and every element up to the signature value,
    nothing of which the format knows comes after it, and [sig_value] is its
    content; without a signature value the region is the whole packet value. *)
Theorem data_signed_region (value : bytes) (d : Data) :
  wf_bytes (tlv_bytes packet_type.DATA value) -> zlen (tlv_bytes packet_type.DATA value) <= usize_max ->
  Data.decode (tlv_bytes packet_type.DATA value) = Ok d ->
  exists es,
    value = tlv_bytes tlv_type.NAME (name_wire (d_name d)) ++ elems_wire es /\ d_name d <> [] /\
    match find_elem packet_type.SIGNATURE_VALUE es with
    | Some sv => exists pre post,
        es = pre ++ (packet_type.SIGNATURE_VALUE, sv) :: post /\
        Forall (fun e => Data.elem_index e.1 = None) post /\
        Data.signed_region d = tlv_bytes tlv_type.NAME (name_wire (d_name d)) ++ elems_wire pre /\
        Data.sig_value d = sv
    | None => Data.signed_region d = value /\ Data.sig_value d = []
    end.
Proof.
  intros Hwf Hl Hdec. destruct (data_decode_exact _ _ Hwf Hl Hdec) as (es & s & Hval & Hes & Hne & Hfold & Hvwf & Hvl & Hd).
  unfold exact_data in Hd. revert Hval Hes Hne Hd. generalize (d_name d) as n. intros n Hval Hes Hne Hd.
  pose proof (new_wf value Hvwf Hvl) as Hr. exists es.
  pose proof (find_elem_split packet_type.SIGNATURE_VALUE es) as Hsplit.
  pose proof (length_elems_wire (with_name n es)) as Hlen. rewrite <- Hval in Hlen. unfold with_name in Hlen.
  destruct (find_elem packet_type.SIGNATURE_VALUE es) as [sv|].
  - destruct Hsplit as (pre & post & -> & Hno). unfold with_name in Hes. rewrite app_comm_cons in Hes.
    pose proof (proj1 (Forall_app _ _ _) Hes) as [Hpre [[_ Hsv] _]%Forall_cons].
    assert (value = elems_wire (with_name n pre) ++ tlv_bytes packet_type.SIGNATURE_VALUE sv ++ elems_wire post) as Hval'.
    { rewrite Hval. unfold with_name. by rewrite app_comm_cons, elems_wire_app, elems_wire_cons. }
    rewrite (scan_for_sig_value_found _ _ _ (with_name n pre) sv (elems_wire post)) in Hd;
      [|done|done|by apply Forall_cons|by rewrite as_bytes_new|rewrite app_comm_cons, length_app in Hlen; simpl in *; lia].
    cbn [TlvReader.position TlvReader.pos TlvReader.new] in Hd. rewrite Z.add_0_r in Hd.
    assert (data_header value ++ value = data_header value ++ elems_wire (with_name n pre)
      ++ tlv_bytes packet_type.SIGNATURE_VALUE sv ++ elems_wire post) as Hraw by (rewrite Hval' at 2; done).
    rewrite data_header_spec in Hl. rewrite Hraw in Hl, Hd.
    destruct (data_regions (data_header value) (elems_wire (with_name n pre)) sv (elems_wire post) n
      Hl (data_header_nonempty value) ltac:(by apply wf_tlv_bytes)) as [Hreg Hsig].
    rewrite <- Hd in Hreg, Hsig.
    split_conj; [done|done|]. exists pre, post. split_conj; [done| |done|done].
    rewrite fold_flow_app in Hfold. destruct (fold_flow _ pre _) as [[s1|[]]|]; [|done].
    cbn [fold_flow] in Hfold. destruct (Data.validate_body s1 _ sv) as [[s2|[]]|] eqn:Hv; [|done].
    apply validate_body_sig_value in Hv as [st ->]. by eapply after_sig_value.
  - rewrite (scan_for_sig_value_none _ _ _ (with_name n es)) in Hd;
      [|done|done|by apply Forall_cons|by rewrite as_bytes_new|unfold with_name; simpl in *; lia].
    rewrite Hd. split_conj; [done|done| |done].
    unfold Data.signed_region. cbn [d_raw signed_start signed_end Z.ltb].
    rewrite zlen_app, <- (app_nil_r (data_header value ++ value)), <- app_assoc. by apply slice_mid.
Qed.

(** Trailing bytes move the signed region off the packet.  A Data packet
    whose buffer holds, after it, as many bytes again that spell the elements of
    another packet, still decodes: its name, content and SignatureInfo are its
    own, but the signed region and the signature value are the other packet's.
    A verifier that trusts them accepts the first packet's content under the
    second one's signature. *)
Theorem data_trailing_bytes (value : bytes) (d0 : Data) (pre : list elem) (sv : bytes) :
  let trailing := elems_wire pre ++ tlv_bytes packet_type.SIGNATURE_VALUE sv in
  let raw := tlv_bytes packet_type.DATA value ++ trailing in
  wf_bytes raw -> zlen raw <= usize_max -> zlen trailing = zlen value ->
  Forall wf_elem pre -> Forall (fun e => e.1 <> packet_type.SIGNATURE_VALUE) pre ->
  Data.decode (tlv_bytes packet_type.DATA value) = Ok d0 ->
  exists d, Data.decode raw = Ok d /\
    d_name d = d_name d0 /\ Data.content d = Data.content d0 /\ Data.sig_info d = Data.sig_info d0 /\
    Data.signed_region d = elems_wire pre /\ Data.sig_value d = sv.
Proof.
  intros trailing raw Hwf Hl Htl Hpre Hno Hdec.
  pose proof (proj1 (wf_bytes_app _ _) Hwf) as [Hwf0 Hwft].
  assert (zlen (tlv_bytes packet_type.DATA value) <= usize_max) as Hl0
    by (subst raw; rewrite zlen_app in Hl; pose proof (zlen_nonneg trailing); lia).
  pose proof (data_decode_unfold value [] ltac:(by rewrite app_nil_r) ltac:(by rewrite app_nil_r)) as Hd0.
  cbv zeta in Hd0. rewrite app_nil_r, Hdec in Hd0.
  pose proof (data_decode_unfold value trailing Hwf Hl) as Hd. cbv zeta in Hd. fold raw in Hd.
  destruct (data_name_of value) as [n|]; [|done].
  assert (raw = (data_header value ++ value) ++ trailing) as Hraw by (subst raw; by rewrite data_header_spec).
  assert (zlen raw - zlen value = zlen (data_header value ++ value)) as Hstart
    by (rewrite Hraw, !zlen_app; lia).
  rewrite Hstart in Hd. rewrite Hraw in Hd at 2 3. rewrite slice_from_app in Hd.
  rewrite (scan_for_sig_value_found _ _ _ pre sv []) in Hd;
    [|apply new_wf; [done|subst raw; rewrite zlen_app in Hl; pose proof (zlen_nonneg (tlv_bytes packet_type.DATA value)); lia]
     |done|done|by rewrite as_bytes_new, app_nil_r|].
  2:{ subst trailing. rewrite length_app. pose proof (length_elems_wire pre). lia. }
  cbn [TlvReader.position TlvReader.pos TlvReader.new] in Hd. rewrite Z.add_0_r in Hd.
  eexists. split; [exact Hd|]. destruct (Data.scan_for_sig_value _ _ _) as [s0 e0] in Hd0.
  injection Hd0 as ->. cbn [d_name].
  destruct (data_regions (data_header value ++ value) (elems_wire pre) sv [] n) as [Hreg Hsig].
  { rewrite app_nil_r. fold trailing. by rewrite <- Hraw. }
  { pose proof (data_header_nonempty value). by destruct (data_header value). }
  { subst trailing. by apply wf_bytes_app in Hwft as [_ ?]. }
  rewrite app_nil_r in Hreg, Hsig. fold trailing in Hreg, Hsig. rewrite <- Hraw in Hreg, Hsig.
  split_conj; [done| | |exact Hreg|exact Hsig].
  all: unfold Data.content, Data.decode_content, Data.sig_info, Data.decode_sig_info; cbn [d_raw].
  all: pose proof (data_body_of value trailing Hwf Hl) as Hb; fold raw in Hb; rewrite Hb.
  all: pose proof (data_body_of value []) as Hb0; rewrite app_nil_r in Hb0; by rewrite Hb0.
Qed.

(** ** Subscription requests *)

Lemma find_elem_skip t es v rest :
  Forall (fun e => e.1 <> t) es -> find_elem t (es ++ (t, v) :: rest) = Some v.
Proof.
  induction 1 as [|[t' v'] es Hne _ IH]; simpl; rewrite find_elem_cons; [by rewrite decide_True|].
  by rewrite decide_False.
Qed.

(** The identifier as it is written. *)
Definition written_id (r : SubscriptionRequest) : bytes :=
  match subscription_id r with Some id => take 32 id | None => [] end.

Lemma encode_value_written r :
  SubscriptionRequest.encode_value r =
    [version r] ++ be_encode 4 (max_data_count r) ++ be_encode 4 (max_lifetime_secs r) ++ written_id r.
Proof.
  unfold SubscriptionRequest.encode_value, written_id, MAX_SUBSCRIPTION_ID_LEN, slice.
  destruct (subscription_id r) as [id|]; [|done]. do 3 f_equal. rewrite Z.sub_0_r, drop_0.
  destruct (decide (length id <= 32)%nat) as [H|H].
  - rewrite !take_ge; [done|lia|unfold zlen; lia].
  - f_equal. unfold zlen. lia.
Qed.

Lemma zlen_written_id r : 0 <= zlen (written_id r) <= 32.
Proof. unfold written_id. destruct (subscription_id r); zlen_lia. Qed.

Lemma subscription_value_len r :
  zlen (SubscriptionRequest.encode_value r) = 9 + zlen (written_id r).
Proof. rewrite encode_value_written, !zlen_app, !zlen_be_encode. change (zlen [version r]) with 1. lia. Qed.

Lemma subscription_value_wf r :
  is_u8 (version r) -> (forall id, subscription_id r = Some id -> wf_bytes id /\ id <> []) ->
  wf_bytes (SubscriptionRequest.encode_value r).
Proof.
  intros Hv Hid. rewrite encode_value_written, !wf_bytes_app. split_conj; auto using wf_be_encode.
  - by apply Forall_cons_2; [|apply Forall_nil_2].
  - unfold written_id. destruct (subscription_id r) as [id|]; [|apply Forall_nil_2].
    destruct (Hid id eq_refl). by apply Forall_take.
Qed.

Lemma subscription_value_roundtrip r :
  is_u8 (version r) -> is_u32 (max_data_count r) -> is_u32 (max_lifetime_secs r) ->
  (forall id, subscription_id r = Some id -> wf_bytes id /\ id <> []) ->
  SubscriptionRequest.decode_value (SubscriptionRequest.encode_value r) =
    Some (mkSubscriptionRequest (version r) (max_data_count r) (max_lifetime_secs r)
            ((fun id => take 32 id) <$> subscription_id r)).
Proof.
  intros Hv Hc Ht Hid. unfold SubscriptionRequest.decode_value, SubscriptionRequest.HEADER_LEN, MAX_SUBSCRIPTION_ID_LEN.
  rewrite subscription_value_len. pose proof (zlen_written_id r) as Hw.
  rewrite (proj2 (Z.ltb_ge _ 9)), (proj2 (Z.ltb_ge (9 + 32) _)) by lia. cbn [orb].
  rewrite encode_value_written. set (c := be_encode 4 (max_data_count r)). set (t := be_encode 4 (max_lifetime_secs r)).
  assert (zlen c = 4) as Hcl by apply zlen_be_encode. assert (zlen t = 4) as Htl by apply zlen_be_encode.
  assert (slice ([version r] ++ c ++ t ++ written_id r) 0 1 = [version r]) as -> by done.
  assert (slice ([version r] ++ c ++ t ++ written_id r) 1 5 = c) as ->
    by (apply slice_mid; [done|by rewrite Hcl]).
  assert (slice ([version r] ++ c ++ t ++ written_id r) 5 9 = t) as ->
    by (rewrite app_assoc; apply slice_mid; rewrite zlen_app, Hcl; [done|by rewrite Htl]).
  assert (slice_from_ ([version r] ++ c ++ t ++ written_id r) 9 = written_id r) as ->.
  { rewrite (app_assoc c), app_assoc. replace 9 with (zlen ([version r] ++ c ++ t)); [apply slice_from_app|].
    by rewrite !zlen_app, Hcl, Htl. }
  subst c t. rewrite !be_decode_encode, !Z.mod_small by (unfold_bounds; simpl; lia).
  change (be_decode [version r]) with (version r). do 2 f_equal.
  unfold written_id in *. destruct (subscription_id r) as [id|]; simpl; [|done].
  destruct (Hid id eq_refl) as [_ Hne]. rewrite (proj2 (Z.ltb_lt 9 _)); [done|].
  destruct id; [done|]. simpl. rewrite zlen_cons. pose proof (zlen_nonneg (take 31 id)). lia.
Qed.

(** A subscription request is read back from the application parameters
    it was written into, whatever elements precede it; identifiers longer than
    the limit are cut to it on encoding. *)
Theorem subscription_roundtrip (es : list elem) (r : SubscriptionRequest) (rest : list elem) :
  Forall wf_elem es -> Forall (fun e => e.1 <> TLV_SUBSCRIPTION_REQUEST) es -> Forall wf_elem rest ->
  is_u8 (version r) -> is_u32 (max_data_count r) -> is_u32 (max_lifetime_secs r) ->
  (forall id, subscription_id r = Some id -> wf_bytes id /\ id <> []) ->
  let params := elems_wire es ++ SubscriptionRequest.encode r ++ elems_wire rest in
  zlen params <= usize_max ->
  SubscriptionRequest.find_in params =
    Some (mkSubscriptionRequest (version r) (max_data_count r) (max_lifetime_secs r)
            ((fun id => take 32 id) <$> subscription_id r)).
Proof.
  intros Hes Hno Hrest Hv Hc Hlt Hid params Hl.
  assert (SubscriptionRequest.encode r =
    tlv_bytes TLV_SUBSCRIPTION_REQUEST (SubscriptionRequest.encode_value r)) as Henc.
  { unfold SubscriptionRequest.encode. rewrite buf_write_tlv; [done|solve_closed|].
    rewrite subscription_value_len. pose proof (zlen_written_id r). unfold_bounds. lia. }
  assert (params = elems_wire (es ++ (TLV_SUBSCRIPTION_REQUEST, SubscriptionRequest.encode_value r) :: rest)) as Hp
    by (subst params; by rewrite Henc, elems_wire_app, elems_wire_cons).
  unfold SubscriptionRequest.find_in. rewrite Hp in Hl |- *.
  rewrite (search_elems _ TLV_SUBSCRIPTION_REQUEST (fun v => Ok (SubscriptionRequest.decode_value v))).
  - rewrite find_elem_skip by done. simpl. by apply subscription_value_roundtrip.
  - intros t v. by destruct (t =? TLV_SUBSCRIPTION_REQUEST).
  - apply Forall_app. split; [done|]. apply Forall_cons. split; [|done].
    split; [solve_closed|by apply subscription_value_wf].
  - done.
Qed.

(** ** Witnesses *)

(** [/a] with a nonce, a lifetime of 10 s and a hop limit of 5. *)
Definition example_interest : bytes :=
  [5; 18; 7; 3; 8; 1; 97; 10; 4; 1; 2; 3; 4; 12; 2; 39; 16; 34; 1; 5].

Lemma example_interest_ok : wf_bytes example_interest /\ zlen example_interest <= usize_max.
Proof. split; solve_closed. Qed.

Lemma example_interest_decodes :
  Interest.decode example_interest = Ok (mkInterest example_interest [Component.generic [97]]).
Proof. vm_compute. reflexivity. Qed.

(** A parameters digest that is not the last component of the name is accepted. *)
Definition digest_first : bytes := [5; 48; 7; 37; 2; 32] ++ repeat 0 32 ++ [8; 1; 116; 36; 7; 104; 101; 108; 108; 111; 33; 33].

Lemma psdc_not_last_accepted : exists n,
  Interest.decode digest_first = Ok (mkInterest digest_first n) /\ Interest.psdc_count n = 1 /\ typ <$> last n = Some tlv_type.GENERIC_NAME_COMPONENT.
Proof.
  destruct (Interest.decode digest_first) as [i|] eqn:E; [|vm_compute in E; discriminate E]. exists (i_name i).
  split; [by rewrite <- (decode_i_raw _ _ E)|]. vm_compute in E. injection E as <-. by split; vm_compute.
Qed.

Lemma interest_decode_iff_witness :
  exists es rest, example_interest =
    tlv_bytes packet_type.INTEREST (tlv_bytes tlv_type.NAME (name_wire [Component.generic [97]]) ++ elems_wire es) ++ rest.
Proof.
  destruct (proj1 (interest_decode_iff example_interest [Component.generic [97]]
    (proj1 example_interest_ok) (proj2 example_interest_ok)) example_interest_decodes) as (es & rest & H & _).
  by exists es, rest.
Defined.

Lemma interest_accessors_witness :
  exists es rest, example_interest =
    tlv_bytes packet_type.INTEREST (tlv_bytes tlv_type.NAME (name_wire [Component.generic [97]]) ++ elems_wire es) ++ rest.
Proof.
  destruct (interest_accessors example_interest (mkInterest example_interest [Component.generic [97]])
    (proj1 example_interest_ok) (proj2 example_interest_ok) example_interest_decodes) as (es & rest & H & _).
  by exists es, rest.
Defined.

Lemma hop_limit_decrement_witness :
  exists raw' (k : nat), Interest.decrement_hop_limit example_interest = Ok (Some (raw', 4)).
Proof.
  assert (exists value, example_interest = tlv_bytes packet_type.INTEREST value) as Hv
    by (exists (drop 2 example_interest); reflexivity).
  destruct (hop_limit_decrement example_interest (mkInterest example_interest [Component.generic [97]])
    (proj1 example_interest_ok) (proj2 example_interest_ok) example_interest_decodes Hv) as (raw' & k & H & _).
  exists raw', k. exact H.
Defined.

(** Trailing bytes also hide the hop limit from the decrement: the same
    Interest, with three bytes after it, decodes with hop limit 5 and is left at 5. *)
Example hop_limit_trailing_byte :
  let raw := example_interest ++ [0; 0; 0] in
  Interest.decode raw = Ok (mkInterest raw [Component.generic [97]]) /\
  Interest.hop_limit (mkInterest raw [Component.generic [97]]) = Some 5 /\
  Interest.decrement_hop_limit raw = Ok None /\
  (exists raw', Interest.decrement_hop_limit_in_place raw = Ok (raw', Some 4)).
Proof. vm_compute. split_conj; [reflexivity..|by eexists]. Qed.

(** [/v] with content [1] and [/e] with content [2], both with an ECDSA
    SignatureInfo locating the key [/k], the first with signature [[9; 9]]. *)
Definition signed_elems (c x : Z) : list elem :=
  [(7, [8; 1; c]); (21, [x]); (22, [27; 1; 3; 28; 5; 7; 3; 8; 1; 107])].
Definition forged_value : bytes := elems_wire (signed_elems 101 2) ++ [23; 2; 0; 0].
Definition honest_sig : bytes := [9; 9].
Definition forged_data : Data :=
  match Data.decode (tlv_bytes packet_type.DATA forged_value) with
  | Ok d => d
  | Err _ => mkData [] 0 0 0 0 []
  end.
Lemma forged_data_decodes : Data.decode (tlv_bytes packet_type.DATA forged_value) = Ok forged_data.
Proof. vm_compute. reflexivity. Qed.

Lemma data_signed_region_witness :
  exists es, forged_value = tlv_bytes tlv_type.NAME (name_wire [Component.generic [101]]) ++ elems_wire es.
Proof.
  destruct (data_signed_region forged_value forged_data) as (es & Hv & _);
    [solve_closed|solve_closed|exact forged_data_decodes|].
  exists es. exact Hv.
Defined.

Lemma data_trailing_bytes_witness :
  exists d,
    Data.decode (tlv_bytes packet_type.DATA forged_value
      ++ elems_wire (signed_elems 118 1) ++ tlv_bytes packet_type.SIGNATURE_VALUE honest_sig) = Ok d /\
    d_name d = [Component.generic [101]] /\ Data.content d = Some [2] /\
    Data.signed_region d = elems_wire (signed_elems 118 1) /\ Data.sig_value d = honest_sig.
Proof.
  destruct (data_trailing_bytes forged_value forged_data (signed_elems 118 1) honest_sig)
    as (d & H1 & H2 & H3 & _ & H4 & H5).
  - solve_closed.
  - solve_closed.
  - reflexivity.
  - repeat (apply Forall_cons_2; [split; solve_closed|]); apply Forall_nil_2.
  - repeat (apply Forall_cons_2; [discriminate|]); apply Forall_nil_2.
  - exact forged_data_decodes.
  - exists d. split_conj; [exact H1|rewrite H2; vm_compute; reflexivity|rewrite H3; vm_compute; reflexivity|exact H4|exact H5].
Defined.

Lemma subscription_roundtrip_witness :
  SubscriptionRequest.find_in (elems_wire [(128, [1])]
    ++ SubscriptionRequest.encode (mkSubscriptionRequest 1 100 60 (Some [7; 8])) ++ elems_wire [])
  = Some (mkSubscriptionRequest 1 100 60 (Some [7; 8])).
Proof.
  apply (subscription_roundtrip [(128, [1])] (mkSubscriptionRequest 1 100 60 (Some [7; 8])) []).
  - apply Forall_cons_2; [split; solve_closed|apply Forall_nil_2].
  - apply Forall_cons_2; [discriminate|apply Forall_nil_2].
  - apply Forall_nil_2.
  - solve_closed.
  - solve_closed.
  - solve_closed.
  - intros id [= <-]. split; [solve_closed|discriminate].
  - solve_closed.
Defined.
