(* ===== verification/Lp.v ===== *)
(** * The NDNLPv2 link protocol ([crates/core/ndn-packet/src/lp], [nack.rs])

    The link-layer packet [LpPacket] and its decoder ([decode.rs]), the encoders
    ([encode.rs]), the header splicing of the A-LAL and trace-context extensions
    ([al_lal.rs], [trace_context.rs]), the allocation-free fast paths
    ([fragment.rs]) and the Nack packet built on them ([nack.rs]).

    The decoder is the element loop [scan] of [Packet]; [lp_decode_shape] says
    which byte strings it accepts and what it returns, and the round trips, the
    fast paths and the splices are all proved from that description. *)

From S2P Require Import Prelude Tlv Name Packet.
#[local] Open Scope Z_scope.

Module lp_type.
Definition NACK : Z := 0x0320.
Definition NACK_REASON : Z := 0x0321.
Definition LP_PACKET : Z := 0x64.
Definition LP_FRAGMENT : Z := 0x50.
Definition LP_SEQUENCE : Z := 0x51.
Definition LP_FRAG_INDEX : Z := 0x52.
Definition LP_FRAG_COUNT : Z := 0x53.
Definition LP_PIT_TOKEN : Z := 0x62.
Definition LP_CONGESTION_MARK : Z := 0x0340.
Definition LP_ACK : Z := 0x0344.
Definition LP_TX_SEQUENCE : Z := 0x0348.
Definition LP_NON_DISCOVERY : Z := 0x034C.
Definition LP_PREFIX_ANNOUNCEMENT : Z := 0x0350.
Definition LP_INCOMING_FACE_ID : Z := 0x032C.
Definition LP_NEXT_HOP_FACE_ID : Z := 0x0330.
Definition LP_CACHE_POLICY : Z := 0x0334.
Definition LP_CACHE_POLICY_TYPE : Z := 0x0335.
Definition TLV_AL_PRESENCE : Z := 0x0360.
Definition TLV_AL_PREV_HOP_LOC : Z := 0x0362.
Definition TLV_AL_DATA_LOC : Z := 0x0364.
Definition TLV_TRACE_CONTEXT : Z := 0x520.
End lp_type.

(** ** [nack.rs]: reasons and header *)

Module nack.
Inductive NackReason : Type := NoRoute | Duplicate | Congestion | NotYet | Other (code : Z).

Definition code (r : NackReason) : Z :=
  match r with
  | Congestion => 50
  | Duplicate => 100
  | NoRoute => 150
  | NotYet => 160
  | Other c => c
  end.

Definition from_code (c : Z) : NackReason :=
  if c =? 50 then Congestion
  else if c =? 100 then Duplicate
  else if c =? 150 then NoRoute
  else if c =? 160 then NotYet
  else Other c.

Definition is_registered (r : NackReason) : bool :=
  match r with NoRoute | Duplicate | Congestion => true | _ => false end.

Record NackHeader : Type := mkHeader { h_reason : option NackReason }.
Record Nack : Type := mkNack { reason : option NackReason; interest : Interest }.
End nack.

#[export] Instance NackReason_eq_dec : EqDecision nack.NackReason.
Proof. solve_decision. Defined.
#[export] Instance NackHeader_eq_dec : EqDecision nack.NackHeader.
Proof. solve_decision. Defined.

(** ** [lp/mod.rs] *)

Inductive CachePolicyType : Type := NoCache | OtherPolicy (code : Z).
#[export] Instance CachePolicyType_eq_dec : EqDecision CachePolicyType.
Proof. solve_decision. Defined.

Record LpHeaders : Type := mkHeaders {
  hd_pit_token : option bytes;
  hd_congestion_mark : option Z;
  hd_incoming_face_id : option Z;
  hd_next_hop_face_id : option Z;
  hd_cache_policy : option CachePolicyType
}.

Definition is_lp_packet (raw : bytes) : bool :=
  match raw with b :: _ => b =? 0x64 | [] => false end.

(** The 8-byte array and how much of it counts. *)
Definition nni (val : Z) : bytes * Z :=
  let be := be_encode 8 val in
  let at_ i := slice be i 8 ++ replicate (Z.to_nat i) 0 in
  if val <=? 0xFF then (at_ 7, 1)
  else if val <=? 0xFFFF then (at_ 6, 2)
  else if val <=? 0xFFFFFFFF then (at_ 4, 4)
  else (be, 8).

(** [let (buf, len) = nni(v); &buf[..len]]. *)
Definition nni_bytes (val : Z) : bytes := let '(buf, len) := nni val in slice buf 0 len.

(** [(val << 8) | b] drops the bits shifted out of a [u64]. *)
Definition decode_be_u64 (bs : bytes) : Z :=
  fold_left (fun val b => Z.lor (wrap 64 (Z.shiftl val 8)) b) bs 0.

(** ** [lp/decode.rs] *)

Record LpPacket : Type := mkLp {
  fragment : option bytes;
  nack_header : option nack.NackHeader;
  congestion_mark : option Z;
  sequence : option Z;
  frag_index : option Z;
  frag_count : option Z;
  acks : list Z;
  lp_pit_token : option bytes;
  incoming_face_id : option Z;
  next_hop_face_id : option Z;
  cache_policy : option CachePolicyType;
  tx_sequence : option Z;
  non_discovery : bool;
  prefix_announcement : option bytes;
  al_presence : option bytes;
  al_prev_hop_loc : option bytes;
  al_data_loc : option bytes
}.

Definition lp_empty : LpPacket :=
  mkLp None None None None None None [] None None None None None false None None None None.

Definition decode_nack_header (value : bytes) : result nack.NackHeader PacketError :=
  if zlen value =? 0 then Ok (nack.mkHeader None)
  else
    let? o := search (fun t v =>
      Ok (if t =? lp_type.NACK_REASON
          then Some (Some (nack.mkHeader (Some (nack.from_code (decode_be_u64 v)))))
          else None)) value in
    Ok (match o with Some h => h | None => nack.mkHeader None end).

(** The inner loop of the CachePolicy arm, from the value the local had. *)
Definition decode_cache_policy (v : bytes) (old : option CachePolicyType)
    : result (option CachePolicyType) PacketError :=
  let? fl := scan (A := Empty_set) (fun cp ct cv =>
      Ok (Next (if ct =? lp_type.LP_CACHE_POLICY_TYPE then
                  let code := decode_be_u64 cv in
                  Some (if code =? 1 then NoCache else OtherPolicy code)
                else cp))) v old in
  match fl with Next cp => Ok cp | Return e => match e with end end.

Module LpPacket.

(** The [match t { .. }] of the loop, on the locals that become the packet. *)
Definition decode_field (p : LpPacket) (t : Z) (v : bytes) : result LpPacket PacketError :=
  let '(mkLp fr nk cm sq fi fc ak pt inc nh cp tx nd pa ap apl adl) := p in
  if t =? lp_type.LP_FRAGMENT then
    Ok (mkLp (Some v) nk cm sq fi fc ak pt inc nh cp tx nd pa ap apl adl)
  else if t =? lp_type.NACK then
    let? h := decode_nack_header v in
    Ok (mkLp fr (Some h) cm sq fi fc ak pt inc nh cp tx nd pa ap apl adl)
  else if t =? lp_type.LP_CONGESTION_MARK then
    Ok (mkLp fr nk (Some (decode_be_u64 v)) sq fi fc ak pt inc nh cp tx nd pa ap apl adl)
  else if t =? lp_type.LP_SEQUENCE then
    Ok (mkLp fr nk cm (Some (decode_be_u64 v)) fi fc ak pt inc nh cp tx nd pa ap apl adl)
  else if t =? lp_type.LP_FRAG_INDEX then
    Ok (mkLp fr nk cm sq (Some (decode_be_u64 v)) fc ak pt inc nh cp tx nd pa ap apl adl)
  else if t =? lp_type.LP_FRAG_COUNT then
    Ok (mkLp fr nk cm sq fi (Some (decode_be_u64 v)) ak pt inc nh cp tx nd pa ap apl adl)
  else if t =? lp_type.LP_ACK then
    Ok (mkLp fr nk cm sq fi fc (ak ++ [decode_be_u64 v]) pt inc nh cp tx nd pa ap apl adl)
  else if t =? lp_type.LP_PIT_TOKEN then
    if zlen v =? 0 then Err (MalformedPacket "PitToken must be at least 1 byte (NDNLPv2)")
    else Ok (mkLp fr nk cm sq fi fc ak (Some v) inc nh cp tx nd pa ap apl adl)
  else if t =? lp_type.LP_INCOMING_FACE_ID then
    Ok (mkLp fr nk cm sq fi fc ak pt (Some (decode_be_u64 v)) nh cp tx nd pa ap apl adl)
  else if t =? lp_type.LP_NEXT_HOP_FACE_ID then
    Ok (mkLp fr nk cm sq fi fc ak pt inc (Some (decode_be_u64 v)) cp tx nd pa ap apl adl)
  else if t =? lp_type.LP_CACHE_POLICY then
    let? cp := decode_cache_policy v cp in
    Ok (mkLp fr nk cm sq fi fc ak pt inc nh cp tx nd pa ap apl adl)
  else if t =? lp_type.LP_TX_SEQUENCE then
    Ok (mkLp fr nk cm sq fi fc ak pt inc nh cp (Some (decode_be_u64 v)) nd pa ap apl adl)
  else if t =? lp_type.LP_NON_DISCOVERY then
    Ok (mkLp fr nk cm sq fi fc ak pt inc nh cp tx true pa ap apl adl)
  else if t =? lp_type.LP_PREFIX_ANNOUNCEMENT then
    Ok (mkLp fr nk cm sq fi fc ak pt inc nh cp tx nd (Some v) ap apl adl)
  else if t =? lp_type.TLV_AL_PRESENCE then
    Ok (mkLp fr nk cm sq fi fc ak pt inc nh cp tx nd pa (Some v) apl adl)
  else if t =? lp_type.TLV_AL_PREV_HOP_LOC then
    Ok (mkLp fr nk cm sq fi fc ak pt inc nh cp tx nd pa ap (Some v) adl)
  else if t =? lp_type.TLV_AL_DATA_LOC then
    Ok (mkLp fr nk cm sq fi fc ak pt inc nh cp tx nd pa ap apl (Some v))
  else if (t =? packet_type.INTEREST) || (t =? packet_type.DATA) then
    Err (MalformedPacket "bare top-level TLV-TYPE inside LpPacket body")
  else if is_critical_tlv_type t then Err (MalformedPacket "unknown critical LP TLV-TYPE")
  else Ok p.

(** The remaining locals are [last_typ] and [fragment_seen]. *)
Definition decode_body (s : LpPacket * option Z * bool) (t : Z) (v : bytes)
    : result (Flow (LpPacket * option Z * bool) Empty_set) PacketError :=
  let '(p, last_typ, fragment_seen) := s in
  let is_terminator := t =? lp_type.LP_FRAGMENT in
  if fragment_seen then
    Err (MalformedPacket "LP header appears after Fragment (NDNLPv2 Element Order)")
  else
    let out_of_order :=
      match last_typ with
      | Some prev =>
          let repeatable_repeat := (t =? prev) && (t =? lp_type.LP_ACK) in
          (t <? prev) || ((t =? prev) && negb repeatable_repeat)
      | None => false
      end in
    if negb is_terminator && out_of_order then
      Err (MalformedPacket "LP headers out of TLV-TYPE order or non-repeatable header duplicated")
    else
      let? p := decode_field p t v in
      Ok (Next (p, if is_terminator then last_typ else Some t, is_terminator)).

Definition decode (raw : bytes) : result LpPacket PacketError :=
  let? (typ, value, _) := first_tlv raw in
  if negb (typ =? lp_type.LP_PACKET) then Err (UnknownPacketType typ)
  else
    let? fl := scan decode_body value (lp_empty, None, false) in
    match fl with
    | Return e => match e with end
    | Next (p, _, _) =>
        match fragment p, acks p with
        | None, [] => Err (MalformedPacket "LpPacket has neither fragment nor acks")
        | _, _ => Ok p
        end
    end.

Definition is_fragmented (p : LpPacket) : bool :=
  match frag_count p with Some c => 1 <? c | None => false end.

Definition is_ack_only (p : LpPacket) : bool :=
  match fragment p with None => negb (zlen (acks p) =? 0) | Some _ => false end.

End LpPacket.

(** ** [Nack::decode] *)

Module Nack.
Definition decode (raw : bytes) : result nack.Nack PacketError :=
  match raw with
  | [] => Err (Tlv UnexpectedEof)
  | first :: _ =>
      if negb (first =? lp_type.LP_PACKET) then Err (UnknownPacketType first)
      else
        let? lp := LpPacket.decode raw in
        let? header := ok_or (nack_header lp) (MalformedPacket "LpPacket has no Nack header") in
        let? fragment := ok_or (fragment lp) (MalformedPacket "Nack LpPacket has no fragment") in
        let? interest := Interest.decode fragment in
        Ok (nack.mkNack (nack.h_reason header) interest)
  end.
End Nack.

(** ** [lp/encode.rs] *)

Section encoders.
Import TlvWriter.

Definition encode_lp_nack_with_pit_token (reason : nack.NackReason) (interest_wire : bytes)
    (pit_token : option bytes) : bytes :=
  finish (write_nested new lp_type.LP_PACKET (fun w =>
    let w := match pit_token with
             | Some token => write_tlv w lp_type.LP_PIT_TOKEN token
             | None => w
             end in
    let w := write_nested w lp_type.NACK (fun w =>
               write_tlv w lp_type.NACK_REASON (nni_bytes (nack.code reason))) in
    write_tlv w lp_type.LP_FRAGMENT interest_wire)).

Definition encode_lp_nack (reason : nack.NackReason) (interest_wire : bytes) : bytes :=
  encode_lp_nack_with_pit_token reason interest_wire None.

Definition encode_lp_packet (packet : bytes) : bytes :=
  if is_lp_packet packet then packet
  else finish (write_nested new lp_type.LP_PACKET (fun w =>
         write_tlv w lp_type.LP_FRAGMENT packet)).

(** [for &ack in acks { .. }]. *)
Definition write_acks (w : TlvWriter) (acks : list Z) : TlvWriter :=
  fold_left (fun w ack => write_tlv w lp_type.LP_ACK (nni_bytes ack)) acks w.

Definition encode_lp_reliable (fragment : bytes) (tx_sequence : Z)
    (frag_info : option (Z * Z * Z)) (acks : list Z) : bytes :=
  finish (write_nested new lp_type.LP_PACKET (fun w =>
    let w := match frag_info with
             | Some (seq, idx, count) =>
                 let w := write_tlv w lp_type.LP_SEQUENCE (be_encode 8 seq) in
                 let w := write_tlv w lp_type.LP_FRAG_INDEX (nni_bytes idx) in
                 write_tlv w lp_type.LP_FRAG_COUNT (nni_bytes count)
             | None => w
             end in
    let w := write_acks w acks in
    let w := write_tlv w lp_type.LP_TX_SEQUENCE (nni_bytes tx_sequence) in
    write_tlv w lp_type.LP_FRAGMENT fragment)).

Definition encode_lp_acks (acks : list Z) : bytes :=
  finish (write_nested new lp_type.LP_PACKET (fun w => write_acks w acks)).

Definition CachePolicyType_code (cp : CachePolicyType) : Z :=
  match cp with NoCache => 1 | OtherPolicy c => c end.

Definition encode_lp_with_headers (fragment : bytes) (headers : LpHeaders) : bytes :=
  finish (write_nested new lp_type.LP_PACKET (fun w =>
    let w := match hd_pit_token headers with
             | Some token => write_tlv w lp_type.LP_PIT_TOKEN token | None => w end in
    let w := match hd_incoming_face_id headers with
             | Some id => write_tlv w lp_type.LP_INCOMING_FACE_ID (nni_bytes id) | None => w end in
    let w := match hd_next_hop_face_id headers with
             | Some id => write_tlv w lp_type.LP_NEXT_HOP_FACE_ID (nni_bytes id) | None => w end in
    let w := match hd_cache_policy headers with
             | Some cp => write_nested w lp_type.LP_CACHE_POLICY (fun w =>
                 write_tlv w lp_type.LP_CACHE_POLICY_TYPE (nni_bytes (CachePolicyType_code cp)))
             | None => w end in
    let w := match hd_congestion_mark headers with
             | Some mark => write_tlv w lp_type.LP_CONGESTION_MARK (nni_bytes mark) | None => w end in
    write_tlv w lp_type.LP_FRAGMENT fragment)).

End encoders.

(** ** [lp/al_lal.rs] and [lp/trace_context.rs] *)

Definition GEO_LEN : Z := 12.

(** [i32::to_be_bytes] and [i32::from_be_bytes]: two's complement. *)
Definition i32_be (z : Z) : bytes := be_encode 4 (wrap 32 z).
Definition i32_of (b : bytes) : Z :=
  let u := be_decode b in if u <? 2 ^ 31 then u else u - 2 ^ 32.

Record GeoFix : Type := mkGeoFix { lat_e7 : Z; lon_e7 : Z; alt_cm : Z }.

Module GeoFix.
Definition encode_value (g : GeoFix) : bytes :=
  i32_be (lat_e7 g) ++ i32_be (lon_e7 g) ++ i32_be (alt_cm g).

Definition decode_value (value : bytes) : option GeoFix :=
  if negb (zlen value =? GEO_LEN) then None
  else
    let i32_at o := i32_of (slice value o (o + 4)) in
    Some (mkGeoFix (i32_at 0) (i32_at 4) (i32_at 8)).
End GeoFix.

(** The elements of an LP body, split into headers other than [typ] and the
    Fragment; [None] when some element does not parse. *)
Definition split_lp_body (typ : Z) (body : bytes) : option (list elem * option elem) :=
  match scan (A := Empty_set) (fun s t v =>
      let '(headers, fragment_tlv) := s in
      Ok (Next (if t =? lp_type.LP_FRAGMENT then (headers, Some (t, v))
                else if t =? typ then s
                else (headers ++ [(t, v)], fragment_tlv)))) body ([], None) with
  | Ok (Next s) => Some s
  | _ => None
  end.

(** The body of the writing loop: the state is the writer and [inserted]. *)
Definition splice_step (typ : Z) (value : bytes) (s : TlvWriter.TlvWriter * bool) (e : elem)
    : TlvWriter.TlvWriter * bool :=
  let '(w, inserted) := s in
  let '(t, v) := e in
  let '(w, inserted) :=
    if negb inserted && (typ <? t) then (TlvWriter.write_tlv w typ value, true)
    else (w, inserted) in
  (TlvWriter.write_tlv w t v, inserted).

Definition write_spliced (w : TlvWriter.TlvWriter) (typ : Z) (value : bytes) (headers : list elem)
    (fragment_tlv : option elem) : TlvWriter.TlvWriter :=
  let '(w, inserted) := fold_left (splice_step typ value) headers (w, false) in
  let w := if negb inserted then TlvWriter.write_tlv w typ value else w in
  match fragment_tlv with Some (t, v) => TlvWriter.write_tlv w t v | None => w end.

Definition splice_lp_header (lp_wire : bytes) (typ : Z) (value : bytes) : bytes :=
  if negb (is_lp_packet lp_wire) then lp_wire
  else match first_tlv lp_wire with
       | Err _ => lp_wire
       | Ok (t0, body, _) =>
           if negb (t0 =? lp_type.LP_PACKET) then lp_wire
           else match split_lp_body typ body with
                | None => lp_wire
                | Some (headers, fragment_tlv) =>
                    TlvWriter.finish (TlvWriter.write_nested TlvWriter.new lp_type.LP_PACKET
                      (fun w => write_spliced w typ value headers fragment_tlv))
                end
       end.

Definition extract_lp_header (lp_wire : bytes) (typ : Z) : option bytes :=
  if negb (is_lp_packet lp_wire) then None
  else match first_tlv lp_wire with
       | Err _ => None
       | Ok (t0, body, _) =>
           if negb (t0 =? lp_type.LP_PACKET) then None
           else ok_flatten (search (fun t v =>
                  Ok (if t =? typ then Some (Some v)
                      else if t =? lp_type.LP_FRAGMENT then Some None
                      else None)) body)
       end.

Definition VALUE_LEN : Z := 33.

(** [TraceId], [SpanId] and [TraceFlags] are wrappers of byte arrays and a byte. *)
Record TraceContext : Type := mkTrace {
  trace_id : bytes;
  span_id : bytes;
  trace_flags : Z;
  timestamp_us : Z
}.

Inductive TraceContextError : Type := BadLength (n : Z).

Module TraceContext.
Definition is_sampled (flags : Z) : bool := negb (Z.land flags 1 =? 0).

Definition decode_value (value : bytes) : result TraceContext TraceContextError :=
  if negb (zlen value =? VALUE_LEN) then Err (BadLength (zlen value))
  else Ok (mkTrace (slice value 0 16) (slice value 16 24)
             (be_decode (slice value 24 25)) (be_decode (slice value 25 33))).

Definition encode_value (self : TraceContext) : bytes :=
  trace_id self ++ span_id self ++ [trace_flags self] ++ be_encode 8 (timestamp_us self).

Definition encode_tlv (self : TraceContext) : bytes :=
  [0xFD] ++ be_encode 2 (wrap 16 lp_type.TLV_TRACE_CONTEXT) ++ [wrap 8 VALUE_LEN] ++ encode_value self.

(** [blake3] is a hash of a third-party crate: its 32-byte digest is a parameter. *)
Definition from_nonce_and_name (blake3 : bytes -> bytes) (nonce : Z) (name_wire router_id : bytes)
    (span_id : bytes) (timestamp_us : Z) : TraceContext :=
  let digest := blake3 (be_encode 4 nonce ++ name_wire ++ router_id) in
  mkTrace (slice digest 0 16) span_id 0 timestamp_us.

Definition splice_into_lp_wire (lp_wire : bytes) (ctx : TraceContext) : bytes :=
  if negb (is_lp_packet lp_wire) then lp_wire
  else match first_tlv lp_wire with
       | Err _ => lp_wire
       | Ok (typ, value, _) =>
           if negb (typ =? lp_type.LP_PACKET) then lp_wire
           else match split_lp_body lp_type.TLV_TRACE_CONTEXT value with
                | None => lp_wire
                | Some (headers, fragment_tlv) =>
                    TlvWriter.finish (TlvWriter.write_nested TlvWriter.new lp_type.LP_PACKET
                      (fun w => write_spliced w lp_type.TLV_TRACE_CONTEXT (encode_value ctx)
                                  headers fragment_tlv))
                end
       end.

Definition extract_from_lp_wire (lp_wire : bytes) : option TraceContext :=
  if negb (is_lp_packet lp_wire) then None
  else match first_tlv lp_wire with
       | Err _ => None
       | Ok (typ, value, _) =>
           if negb (typ =? lp_type.LP_PACKET) then None
           else ok_flatten (search (fun t v =>
                  Ok (if t =? lp_type.TLV_TRACE_CONTEXT
                      then Some (match decode_value v with Ok c => Some c | Err _ => None end)
                      else if t =? lp_type.LP_FRAGMENT then Some None
                      else None)) value)
       end.
End TraceContext.

(** ** [lp/fragment.rs]: the fast paths *)

(** [.get(a..b)] and [.get(a..)]. *)
Definition get_range (l : bytes) (a b : Z) : option bytes :=
  if (a <=? b) && (b <=? zlen l) then Some (slice l a b) else None.
Definition get_from (l : bytes) (a : Z) : option bytes :=
  if a <=? zlen l then Some (slice_from_ l a) else None.

(** [read_varu64(inner.get(pos..)?).ok()?]. *)
Definition varu64_at (l : bytes) (pos : Z) : option (Z * Z) :=
  let! s := get_from l pos in
  match read_varu64 s with Ok vn => Some vn | Err _ => None end.

(** [usize::try_from(l).ok()?] *)
Definition usize_of (v : Z) : option Z := if v <=? usize_max then Some v else None.

(** The head of each fast-path loop: type, start and end of the value, value. *)
Definition raw_tlv (inner : bytes) (pos : Z) : option (Z * Z * Z * bytes) :=
  let! (t, tn) := varu64_at inner pos in
  let! pos := checked_add pos tn in
  let! (l, ln) := varu64_at inner pos in
  let! pos := checked_add pos ln in
  let! l := usize_of l in
  let! end_ := checked_add pos l in
  let! val := get_range inner pos end_ in
  Some (t, pos, end_, val).

(** How a loop ended: at the end of the input, on an element that does not
    parse, by [return None] in its body. *)
Inductive RawEnd : Type := AtEnd | BadTlv | Returned | OutOfFuel.

Fixpoint raw_while {S} (fuel : nat) (body : S -> Z -> Z -> Z -> bytes -> option S)
    (inner : bytes) (pos : Z) (s : S) : S * RawEnd :=
  match fuel with
  | O => (s, OutOfFuel)
  | Datatypes.S fuel =>
      if pos <? zlen inner then
        match raw_tlv inner pos with
        | None => (s, BadTlv)
        | Some (t, start, end_, val) =>
            match body s t start end_ val with
            | None => (s, Returned)
            | Some s => raw_while fuel body inner end_ s
            end
        end
      else (s, AtEnd)
  end.

Definition raw_scan {S} (body : S -> Z -> Z -> Z -> bytes -> option S) (inner : bytes) (s : S)
    : S * RawEnd := raw_while (Datatypes.S (length inner)) body inner 0 s.

(** [header_len] and the slice behind the outer header. *)
Definition lp_inner (raw : bytes) : option (Z * bytes) :=
  let! (_, type_len) := varu64_at raw 0 in
  let! (outer_len, len_len) := varu64_at raw type_len in
  let! header_len := checked_add type_len len_len in
  let! outer_len := usize_of outer_len in
  let! inner_end := checked_add header_len outer_len in
  let! inner := get_range raw header_len inner_end in
  Some (header_len, inner).

Record FragmentHeader : Type := mkFragmentHeader {
  fh_sequence : Z;
  fh_frag_index : Z;
  fh_frag_count : Z;
  frag_start : Z;
  frag_end : Z
}.

(** The locals are [sequence], [frag_index], [frag_count], [frag_start] and
    [frag_end]. *)
Definition extract_body (header_len : Z) (s : option Z * option Z * option Z * Z * Z)
    (t pos end_ : Z) (val : bytes) : option (option Z * option Z * option Z * Z * Z) :=
  let '(sq, fi, fc, fs, fe) := s in
  if t =? 0x51 then Some (Some (decode_be_u64 val), fi, fc, fs, fe)
  else if t =? 0x52 then Some (sq, Some (decode_be_u64 val), fc, fs, fe)
  else if t =? 0x53 then
    let c := decode_be_u64 val in
    if c <=? 1 then None else Some (sq, fi, Some c, fs, fe)
  else if t =? 0x50 then
    let! fs := checked_add header_len pos in
    let! fe := checked_add header_len end_ in
    Some (sq, fi, fc, fs, fe)
  else Some s.

Definition extract_fragment (raw : bytes) : option FragmentHeader :=
  if negb (is_lp_packet raw) then None
  else
    let! (header_len, inner) := lp_inner raw in
    match raw_scan (extract_body header_len) inner (None, None, None, 0, 0) with
    | ((sq, fi, fc, fs, fe), AtEnd) =>
        let! sq := sq in let! fi := fi in let! fc := fc in
        Some (mkFragmentHeader sq fi fc fs fe)
    | _ => None
    end.

Definition packet_body (frag : option bytes) (t pos end_ : Z) (val : bytes) : option (option bytes) :=
  if (t =? 0x52) && negb (decode_be_u64 val =? 0) then None
  else if t =? 0x50 then Some (Some val)
  else Some frag.

Definition ndn_packet_bytes (lp_wire : bytes) : option bytes :=
  match lp_wire with
  | [] => None
  | b :: _ =>
      if (b =? 0x05) || (b =? 0x06) then Some lp_wire
      else if b =? 0x64 then
        let! (_, inner) := lp_inner lp_wire in
        match raw_scan packet_body inner None with
        | (frag, AtEnd) => frag
        | _ => None
        end
      else None
  end.

Definition lp_ndn_packet_bytes (lp_wire : bytes) : option bytes := ndn_packet_bytes lp_wire.

Record PeekedName : Type := mkPeeked { is_interest : bool; components : list bytes }.

(** The component loop of [peek_lp_name]: the values only. *)
Definition peek_components (name_val : bytes) : option (list bytes) :=
  match raw_scan (fun cs (_ _ _ : Z) v => Some (cs ++ [v])) name_val [] with
  | (cs, AtEnd) => Some cs
  | _ => None
  end.

Definition peek_lp_name (lp_wire : bytes) : option PeekedName :=
  let! pkt := ndn_packet_bytes lp_wire in
  let! (ptype, tn) := varu64_at pkt 0 in
  let! is_interest := if ptype =? 0x05 then Some true
                      else if ptype =? 0x06 then Some false else None in
  let! (_, ln) := varu64_at pkt tn in
  let! start := checked_add tn ln in
  let! body := get_from pkt start in
  let! (ntype, ntn) := varu64_at body 0 in
  if negb (ntype =? 0x07) then None
  else
    let! (nlen, nln) := varu64_at body ntn in
    let! name_start := checked_add ntn nln in
    let! nlen := usize_of nlen in
    let! name_end := checked_add name_start nlen in
    let! name_val := get_range body name_start name_end in
    let! components := peek_components name_val in
    Some (mkPeeked is_interest components).

(** The match of the loop of [extract_acks]. *)
Definition acks_step (s : option Z * list Z) (t : Z) (val : bytes) : option Z * list Z :=
  let '(tx_seq, acks) := s in
  if t =? 0x0348 then (Some (decode_be_u64 val), acks)
  else if t =? 0x0344 then (tx_seq, acks ++ [decode_be_u64 val])
  else (tx_seq, acks).

(** A [break] keeps what was collected so far. *)
Definition extract_acks (raw : bytes) : option Z * list Z :=
  if negb (is_lp_packet raw) then (None, [])
  else match lp_inner raw with
       | None => (None, [])
       | Some (_, inner) =>
           (raw_scan (fun s t (_ _ : Z) val => Some (acks_step s t val)) inner (None, [])).1
       end.

(** ** Integers on the link *)

Lemma land_256_low k b : is_u8 b -> Z.land (k * 256) b = 0.
Proof.
  intros Hb. unfold_bounds. apply Z.bits_inj'. intros n Hn. rewrite Z.land_spec, Z.bits_0.
  destruct (Z.lt_ge_cases n 8).
  - change 256 with (2 ^ 8). by rewrite Z.mul_pow2_bits_low.
  - replace b with (b mod 2 ^ 8) by (apply Z.mod_small; lia).
    rewrite Z.mod_pow2_bits_high by lia. apply andb_false_r.
Qed.

Lemma decode_be_u64_snoc bs b :
  decode_be_u64 (bs ++ [b]) = Z.lor (wrap 64 (Z.shiftl (decode_be_u64 bs) 8)) b.
Proof. unfold decode_be_u64. by rewrite fold_left_app. Qed.

(** Every width is accepted; only the last eight bytes count. *)
Lemma decode_be_u64_spec bs : wf_bytes bs -> decode_be_u64 bs = wrap 64 (be_decode bs).
Proof.
  induction bs as [|b bs IH] using rev_ind; intros Hwf; [done|].
  apply wf_bytes_app in Hwf as [Hwf Hb]. apply Forall_cons in Hb as [Hb _].
  rewrite decode_be_u64_snoc, be_decode_snoc, IH by done. unfold wrap.
  rewrite Z.shiftl_mul_pow2 by lia. change (2 ^ 8) with 256.
  rewrite Z.mul_mod_idemp_l by lia. change (2 ^ 64) with (2 ^ 56 * 256).
  rewrite Z.mul_mod_distr_r by lia. set (x := be_decode bs mod 2 ^ 56).
  pose proof (Z.add_lor_land (x * 256) b) as Ha. rewrite land_256_low in Ha by done.
  unfold_bounds. pose proof (Z.mod_pos_bound (be_decode bs) (2 ^ 56) ltac:(lia)). fold x in H.
  apply (Z.mod_unique _ _ (be_decode bs / 2 ^ 56)); [lia|].
  pose proof (Z.div_mod (be_decode bs) (2 ^ 56) ltac:(lia)). fold x in H0. lia.
Qed.

Lemma drop_be_encode i n v : drop i (be_encode (i + n) v) = be_encode n v.
Proof.
  revert v. induction n as [|n IH]; intros v.
  - apply drop_ge. rewrite length_be_encode. lia.
  - rewrite Nat.add_succ_r.
    change (be_encode (S (i + n)) v) with (be_encode (i + n) (v / 256) ++ [v mod 256]).
    change (be_encode (S n) v) with (be_encode n (v / 256) ++ [v mod 256]).
    rewrite drop_app_le by (rewrite length_be_encode; lia). by rewrite IH.
Qed.

Definition nni_width (v : Z) : nat :=
  if v <=? 0xFF then 1 else if v <=? 0xFFFF then 2 else if v <=? 0xFFFFFFFF then 4 else 8.

Lemma slice_nni n v :
  (n <= 8)%nat ->
  slice (slice (be_encode 8 v) (8 - Z.of_nat n) 8 ++ replicate (Z.to_nat (8 - Z.of_nat n)) 0) 0 (Z.of_nat n)
  = be_encode n v.
Proof.
  intros Hn. unfold slice. rewrite Z.sub_0_r, Nat2Z.id. cbn [drop Z.to_nat].
  replace (Z.to_nat (8 - (8 - Z.of_nat n))) with n by lia.
  replace (Z.to_nat (8 - Z.of_nat n)) with (8 - n)%nat by lia.
  replace (be_encode 8 v) with (be_encode ((8 - n) + n) v) by (f_equal; lia).
  rewrite drop_be_encode, (take_ge (be_encode n v)) by (rewrite length_be_encode; lia).
  apply take_0_app. by rewrite length_be_encode.
Qed.

Lemma nni_bytes_spec v : nni_bytes v = be_encode (nni_width v) v.
Proof.
  unfold nni_bytes, nni, nni_width. cbv zeta.
  repeat bcase_step; [apply (slice_nni 1)|apply (slice_nni 2)|apply (slice_nni 4)|]; try lia.
  apply take_ge. pose proof (length_be_encode 8 v) as Hl. change (drop (Z.to_nat 0) (be_encode 8 v)) with (be_encode 8 v). lia.
Qed.

Lemma nni_width_range v : (1 <= nni_width v <= 8)%nat.
Proof. unfold nni_width. repeat bcase_step; lia. Qed.

Lemma wf_nni_bytes v : wf_bytes (nni_bytes v).
Proof. rewrite nni_bytes_spec. apply wf_be_encode. Qed.
Lemma zlen_nni_bytes v : 1 <= zlen (nni_bytes v) <= 8.
Proof. rewrite nni_bytes_spec, zlen_be_encode. pose proof (nni_width_range v). lia. Qed.
#[export] Hint Resolve wf_nni_bytes : ndn.

Lemma decode_be_u64_encode v : is_u64 v -> decode_be_u64 (be_encode 8 v) = v.
Proof.
  intros Hv. rewrite decode_be_u64_spec, be_decode_encode by apply wf_be_encode.
  unfold wrap. unfold_bounds. change (256 ^ Z.of_nat 8) with (2 ^ 64).
  by rewrite !Z.mod_small by (rewrite ?Z.mod_small; lia).
Qed.

Lemma decode_nni_bytes n : is_u64 n -> decode_nni (nni_bytes n) = Ok n.
Proof.
  intros Hn. unfold decode_nni. rewrite nni_bytes_spec, zlen_be_encode, be_decode_encode. unfold nni_width. unfold_bounds.
  destruct (Z.leb_spec n 0xFF); [|destruct (Z.leb_spec n 0xFFFF); [|destruct (Z.leb_spec n 0xFFFFFFFF)]];
    cbn; f_equal; apply Z.mod_small; lia.
Qed.

Lemma decode_be_u64_nni v : is_u64 v -> decode_be_u64 (nni_bytes v) = v.
Proof.
  intros Hv. rewrite decode_be_u64_spec, nni_bytes_spec, be_decode_encode by apply wf_nni_bytes.
  unfold wrap. unfold_bounds.
  assert (v < 256 ^ Z.of_nat (nni_width v)) as Hw by (unfold nni_width; repeat bcase_step; simpl; lia).
  by rewrite !Z.mod_small by (rewrite ?Z.mod_small; lia).
Qed.

Lemma decode_be_u64_range bs : wf_bytes bs -> is_u64 (decode_be_u64 bs).
Proof.
  intros. rewrite decode_be_u64_spec by done. unfold wrap. unfold_bounds.
  pose proof (Z.mod_pos_bound (be_decode bs) (2 ^ 64) ltac:(lia)). lia.
Qed.

(** ** What a decoded LpPacket is *)

(** Headers ascend; only Ack repeats. *)
Definition lp_lt (a b : Z) : Prop := a < b \/ (a = b /\ a = lp_type.LP_ACK).

#[export] Instance lp_lt_trans : Transitive lp_lt.
Proof. unfold lp_lt. intros x y z. lia. Qed.

Abbreviation elem_types es := (map (fst (A := Z) (B := bytes)) es).
Abbreviation lp_sorted es := (StronglySorted lp_lt (elem_types es)).

Definition known_lp_types : list Z :=
  [lp_type.NACK; lp_type.LP_CONGESTION_MARK; lp_type.LP_SEQUENCE; lp_type.LP_FRAG_INDEX;
   lp_type.LP_FRAG_COUNT; lp_type.LP_ACK; lp_type.LP_PIT_TOKEN; lp_type.LP_INCOMING_FACE_ID;
   lp_type.LP_NEXT_HOP_FACE_ID; lp_type.LP_CACHE_POLICY; lp_type.LP_TX_SEQUENCE;
   lp_type.LP_NON_DISCOVERY; lp_type.LP_PREFIX_ANNOUNCEMENT; lp_type.TLV_AL_PRESENCE;
   lp_type.TLV_AL_PREV_HOP_LOC; lp_type.TLV_AL_DATA_LOC].

Definition is_ok {A E} (r : result A E) : Prop := match r with Ok _ => True | Err _ => False end.
Definition ok_opt {A E} (r : result A E) : option A := match r with Ok a => Some a | Err _ => None end.

(** A header the decoder takes, wherever it stands. *)
Record header_ok (e : elem) : Prop := {
  ho_type : e.1 <> lp_type.LP_FRAGMENT;
  ho_nack : e.1 = lp_type.NACK -> is_ok (decode_nack_header e.2);
  ho_token : e.1 = lp_type.LP_PIT_TOKEN -> e.2 <> [];
  ho_policy : e.1 = lp_type.LP_CACHE_POLICY -> is_ok (decode_cache_policy e.2 None);
  ho_known : e.1 ∈ known_lp_types \/
    (e.1 <> packet_type.INTEREST /\ e.1 <> packet_type.DATA /\ is_critical_tlv_type e.1 = false)
}.

Definition all_elems (t : Z) (es : list elem) : list bytes :=
  omap (fun e => if e.1 =? t then Some e.2 else None) es.

Abbreviation num_of t es := (decode_be_u64 <$> find_elem t es).

(** The packet that the headers [hs] and the fragment [fr] stand for. *)
Definition lp_of (hs : list elem) (fr : option bytes) : LpPacket := {|
  fragment := fr;
  nack_header := find_elem lp_type.NACK hs ≫= fun v => ok_opt (decode_nack_header v);
  congestion_mark := num_of lp_type.LP_CONGESTION_MARK hs;
  sequence := num_of lp_type.LP_SEQUENCE hs;
  frag_index := num_of lp_type.LP_FRAG_INDEX hs;
  frag_count := num_of lp_type.LP_FRAG_COUNT hs;
  acks := decode_be_u64 <$> all_elems lp_type.LP_ACK hs;
  lp_pit_token := find_elem lp_type.LP_PIT_TOKEN hs;
  incoming_face_id := num_of lp_type.LP_INCOMING_FACE_ID hs;
  next_hop_face_id := num_of lp_type.LP_NEXT_HOP_FACE_ID hs;
  cache_policy := find_elem lp_type.LP_CACHE_POLICY hs ≫= fun v =>
                    mjoin (ok_opt (decode_cache_policy v None));
  tx_sequence := num_of lp_type.LP_TX_SEQUENCE hs;
  non_discovery := bool_decide (is_Some (find_elem lp_type.LP_NON_DISCOVERY hs));
  prefix_announcement := find_elem lp_type.LP_PREFIX_ANNOUNCEMENT hs;
  al_presence := find_elem lp_type.TLV_AL_PRESENCE hs;
  al_prev_hop_loc := find_elem lp_type.TLV_AL_PREV_HOP_LOC hs;
  al_data_loc := find_elem lp_type.TLV_AL_DATA_LOC hs
|}.

Definition frag_elems (fr : option bytes) : list elem :=
  match fr with Some v => [(lp_type.LP_FRAGMENT, v)] | None => [] end.

(** The bytes of an acceptable LpPacket with headers [hs], fragment [fr] and
    whatever follows it. *)
Record lp_shape (raw : bytes) (hs : list elem) (fr : option bytes) (rest : bytes) : Prop := {
  ls_wire : raw = tlv_bytes lp_type.LP_PACKET (elems_wire (hs ++ frag_elems fr)) ++ rest;
  ls_wf : Forall wf_elem hs;
  ls_sorted : lp_sorted hs;
  ls_headers : Forall header_ok hs;
  ls_payload : is_Some fr \/ all_elems lp_type.LP_ACK hs <> []
}.

Lemma find_elem_snoc T hs t v :
  find_elem T (hs ++ [(t, v)]) =
    match find_elem T hs with Some x => Some x | None => if t =? T then Some v else None end.
Proof.
  induction hs as [|e hs IH]; cbn [app]; rewrite !find_elem_cons.
  - simpl. by destruct (Z.eqb_spec t T); [rewrite decide_True|rewrite decide_False].
  - by destruct (decide (e.1 = T)).
Qed.

Lemma find_elem_None T hs : find_elem T hs = None <-> Forall (fun t => t <> T) (elem_types hs).
Proof.
  induction hs as [|e hs IH]; [by split; [constructor|]|]. rewrite find_elem_cons. cbn [map].
  rewrite Forall_cons, <- IH. destruct (decide (e.1 = T)); naive_solver.
Qed.

Lemma all_elems_snoc T hs t v :
  all_elems T (hs ++ [(t, v)]) = all_elems T hs ++ (if t =? T then [v] else []).
Proof. unfold all_elems. rewrite omap_app. simpl. by destruct (t =? T). Qed.

(** A header type smaller than the next one has not been seen. *)
Lemma find_elem_fresh hs t :
  Forall (fun x => lp_lt x t) (elem_types hs) -> t <> lp_type.LP_ACK -> find_elem t hs = None.
Proof.
  intros Hf Ht. apply find_elem_None. eapply Forall_impl; [exact Hf|].
  unfold lp_lt. naive_solver lia.
Qed.

(** Evaluate the tests between type codes. *)
Ltac eval_codes :=
  repeat match goal with
  | |- context [Z.eqb ?a ?b] =>
      is_const a; is_const b;
      let r := eval vm_compute in (Z.eqb a b) in
      lazymatch r with true => change (Z.eqb a b) with true | false => change (Z.eqb a b) with false end
  end.

(** Case analysis along the [match t { .. }]. *)
Ltac case_type :=
  match goal with
  | |- context [if ?t =? ?c then _ else _] => is_var t; destruct (Z.eqb_spec t c) as [->|]
  end.

Lemma option_eta {A} (o : option A) : match o with Some x => Some x | None => None end = o.
Proof. by destruct o. Qed.

(** A known type whose value has no condition. *)
Lemma header_ok_plain t v :
  t ∈ known_lp_types -> t <> lp_type.NACK -> t <> lp_type.LP_PIT_TOKEN -> t <> lp_type.LP_CACHE_POLICY ->
  header_ok (t, v).
Proof.
  intros Hk ???. split; simpl; try done; [|by left].
  intros ->. revert Hk. by apply (bool_decide_unpack (_ ∉ known_lp_types)).
Qed.

(** One header, on the locals the headers before it left. *)
Lemma decode_field_snoc hs t v p' :
  Forall (fun x => lp_lt x t) (elem_types hs) -> t <> lp_type.LP_FRAGMENT ->
  LpPacket.decode_field (lp_of hs None) t v = Ok p' <->
  header_ok (t, v) /\ p' = lp_of (hs ++ [(t, v)]) None.
Proof.
  intros Hlt Hfr.
  assert (t <> lp_type.LP_ACK -> find_elem t hs = None) as Hn by (intros; by apply find_elem_fresh).
  unfold LpPacket.decode_field, lp_of. rewrite !find_elem_snoc, all_elems_snoc.
  destruct (Z.eqb_spec t lp_type.LP_FRAGMENT); [done|].
  repeat (case_type; [eval_codes; rewrite ?option_eta, ?app_nil_r; try rewrite Hn by done; clear Hn Hlt|]);
    try (split; [intros [= <-]; split; [apply header_ok_plain; [compute_done|done..]|done]|by intros [_ ->]]).
  - destruct (decode_nack_header v) as [h|e] eqn:Hh; simpl; split.
    + intros [= <-]. split; [|by rewrite Hh]. split; simpl; try done; [by rewrite Hh|left; compute_done].
    + intros [_ ->]. by rewrite Hh.
    + done.
    + intros [[_ Ho _ _ _] _]. specialize (Ho eq_refl). simpl in Ho. by rewrite Hh in Ho.
  - rewrite fmap_app. split; [intros [= <-]; split; [apply header_ok_plain; [compute_done|done..]|done]|by intros [_ ->]].
  - destruct (Z.eqb_spec (zlen v) 0) as [Hz|Hz]; split.
    + done.
    + intros [[_ _ Ho _ _] _]. by destruct (Ho eq_refl (zlen_0_nil _ Hz)).
    + intros [= <-]. split; [|done]. split; simpl; try done; [|left; compute_done]. by intros _ ->.
    + by intros [_ ->].
  - change (None ≫= _) with (@None CachePolicyType).
    destruct (decode_cache_policy v None) as [h|e] eqn:Hh; simpl; split.
    + intros [= <-]. split; [|by rewrite Hh]. split; simpl; try done; [by rewrite Hh|left; compute_done].
    + intros [_ ->]. by rewrite Hh.
    + done.
    + intros [[_ _ _ Ho _] _]. specialize (Ho eq_refl). simpl in Ho. by rewrite Hh in Ho.
  - assert (t ∉ known_lp_types) as Hk by (unfold known_lp_types; set_solver).
    repeat match goal with
    | |- context [t =? ?c] => destruct (Z.eqb_spec t c); [done|]
    end.
    rewrite !option_eta, app_nil_r.
    destruct (Z.eqb_spec t packet_type.INTEREST); [|destruct (Z.eqb_spec t packet_type.DATA)]; cbn [orb];
      [split; [done|]; intros [[_ _ _ _ [?|(? & ? & ?)]] _]; simpl in *; contradiction..|].
    destruct (is_critical_tlv_type t) eqn:Hc; split.
    + done.
    + intros [[_ _ _ _ [?|(? & ? & Hc')]] _]; [done|]. simpl in Hc'. congruence.
    + intros [= <-]. split; [|done]. split; simpl; try done. by right.
    + by intros [_ ->].
Qed.

Lemma lp_sorted_snoc hs t v :
  lp_sorted (hs ++ [(t, v)]) <-> lp_sorted hs /\ Forall (fun x => lp_lt x t) (elem_types hs).
Proof.
  rewrite map_app. simpl. split.
  - intros H. apply StronglySorted_app in H as (H & H1 & _). split; [done|].
    apply Forall_forall. intros x Hx. apply H; set_solver.
  - intros [H1 H2]. rewrite Forall_forall in H2. apply StronglySorted_app. split_conj; [|done|].
    + intros x y Hx ->%list_elem_of_singleton. by apply H2.
    + by repeat constructor.
Qed.

(** The order test against the last type, read on the whole list. *)
Lemma out_of_order_spec l t :
  StronglySorted lp_lt l ->
  (match last l with
   | Some prev => (t <? prev) || ((t =? prev) && negb ((t =? prev) && (t =? lp_type.LP_ACK)))
   | None => false
   end) = false <-> Forall (fun x => lp_lt x t) l.
Proof.
  intros Hs. destruct l as [|x l _] using rev_ind; [by split; [constructor|]|].
  rewrite last_snoc, Forall_app, Forall_singleton.
  assert (forall y, y ∈ l -> lp_lt y x) as Hl.
  { apply StronglySorted_app in Hs as (H & _). intros y Hy. apply H; set_solver. }
  unfold lp_lt in *. split.
  - intros H. assert (x < t \/ x = t /\ x = lp_type.LP_ACK) as Hx
      by (revert H; repeat bcase_step; simpl; lia).
    split; [|done]. apply Forall_forall. intros y Hy. specialize (Hl y Hy). lia.
  - intros [_ H]. repeat bcase_step; simpl; (done || lia).
Qed.

Lemma fold_headers hs s' :
  Forall (fun t => t <> lp_type.LP_FRAGMENT) (elem_types hs) ->
  fold_flow LpPacket.decode_body hs (lp_empty, None, false) = Ok (Next s') <->
  lp_sorted hs /\ Forall header_ok hs /\ s' = (lp_of hs None, last (elem_types hs), false).
Proof.
  revert s'. induction hs as [|[t v] hs IH] using rev_ind; intros s' Hnf.
  { simpl. split; [|by intros (_ & _ & ->)]. intros [= <-]. split_conj; [constructor..|done]. }
  rewrite map_app, Forall_app in Hnf. destruct Hnf as [Hnf Ht]. apply Forall_inv in Ht. simpl in Ht.
  rewrite fold_flow_app, lp_sorted_snoc, Forall_app, Forall_singleton, map_app.
  split.
  - destruct (fold_flow _ hs _) as [[s1|[]]|e] eqn:Hf; [|done].
    destruct (proj1 (IH s1 Hnf) eq_refl) as (Hs & Hok & ->). cbn [fold_flow].
    unfold LpPacket.decode_body at 1. destruct (Z.eqb_spec t lp_type.LP_FRAGMENT); [done|]. cbn [negb andb].
    pose proof (out_of_order_spec (elem_types hs) t Hs) as Ho.
    destruct (match last _ with Some _ => _ | None => _ end); [done|]. destruct Ho as [Ho _].
    specialize (Ho eq_refl).
    destruct (LpPacket.decode_field _ t v) as [p|e] eqn:Hd; [|done]. simpl. intros [= <-].
    apply decode_field_snoc in Hd as (Hh & ->); [|done..].
    by rewrite last_snoc.
  - intros ([Hs Hlt] & [Hok Hh] & ->).
    rewrite (proj2 (IH _ Hnf)) by (split_conj; done). cbn [fold_flow].
    unfold LpPacket.decode_body at 1. destruct (Z.eqb_spec t lp_type.LP_FRAGMENT); [done|]. cbn [negb andb].
    rewrite (proj2 (out_of_order_spec _ _ Hs) Hlt).
    rewrite (proj2 (decode_field_snoc hs t v _ Hlt Ht)) by done. simpl. by rewrite last_snoc.
Qed.

(** The elements before the first Fragment, and the rest. *)
Lemma split_fragment (es : list elem) :
  Forall (fun t => t <> lp_type.LP_FRAGMENT) (elem_types es) \/
  exists hs v tl, es = hs ++ (lp_type.LP_FRAGMENT, v) :: tl /\
    Forall (fun t => t <> lp_type.LP_FRAGMENT) (elem_types hs).
Proof.
  induction es as [|[t v] es IH]; [left; constructor|].
  destruct (Z.eq_dec t lp_type.LP_FRAGMENT) as [->|Hne].
  { right. by exists [], v, es. }
  destruct IH as [IH|(hs & v' & tl & -> & Hhs)].
  - left. by constructor.
  - right. exists ((t, v) :: hs), v', tl. split; [done|]. by constructor.
Qed.

Lemma header_ok_types hs :
  Forall header_ok hs -> Forall (fun t => t <> lp_type.LP_FRAGMENT) (elem_types hs).
Proof. intros H. apply Forall_map. eapply Forall_impl; [exact H|]. by intros [t v] []. Qed.

Lemma fold_fragment_cons v tl hs last :
  fold_flow LpPacket.decode_body ((lp_type.LP_FRAGMENT, v) :: tl) (lp_of hs None, last, false) =
    match tl with
    | [] => Ok (Next (lp_of hs (Some v), last, true))
    | _ => Err (MalformedPacket "LP header appears after Fragment (NDNLPv2 Element Order)")
    end.
Proof. by destruct tl as [|[]]. Qed.

Lemma fold_lp_body es s' :
  fold_flow LpPacket.decode_body es (lp_empty, None, false) = Ok (Next s') <->
  exists hs fr, es = hs ++ frag_elems fr /\ lp_sorted hs /\ Forall header_ok hs /\
    s' = (lp_of hs fr, last (elem_types hs), bool_decide (is_Some fr)).
Proof.
  split.
  - destruct (split_fragment es) as [Hnf|(hs & v & tl & -> & Hnf)].
    + intros (Hs & Hok & ->)%fold_headers; [|done]. exists es, None. by rewrite app_nil_r.
    + rewrite fold_flow_app. destruct (fold_flow _ hs _) as [[s1|[]]|e] eqn:Hf; [|done].
      apply fold_headers in Hf as (Hs & Hok & ->); [|done]. rewrite fold_fragment_cons.
      destruct tl; [|done]. intros [= <-]. by exists hs, (Some v).
  - intros (hs & fr & -> & Hs & Hok & ->). pose proof (header_ok_types _ Hok).
    rewrite fold_flow_app.
    rewrite (proj2 (fold_headers hs _ ltac:(done))) by (split_conj; done).
    destruct fr as [v|]; [apply (fold_fragment_cons v [])|done].
Qed.

Lemma wf_frag_elems fr : (forall v, fr = Some v -> wf_bytes v) -> Forall wf_elem (frag_elems fr).
Proof.
  destruct fr as [v|]; simpl; [|constructor]. intros H. apply Forall_singleton.
  split; [done|by apply H].
Qed.

(** The decoder accepts exactly the shapes, and returns the packet they stand
    for. *)
Lemma lp_decode_shape raw p :
  wf_bytes raw -> zlen raw <= usize_max ->
  LpPacket.decode raw = Ok p <->
  exists hs fr rest, lp_shape raw hs fr rest /\ p = lp_of hs fr.
Proof.
  intros Hwf Hl. unfold LpPacket.decode. split.
  - destruct (first_tlv raw) as [[[typ value] r]|e] eqn:Hf; [|done].
    apply first_tlv_inv in Hf as (-> & _ & Hv & _ & Hvl & _); [|done..].
    destruct (Z.eqb_spec typ lp_type.LP_PACKET) as [->|]; [|done]. cbn [negb].
    destruct (scan _ value _) as [[[[p' lt] sn]|[]]|e] eqn:Hs; [|done].
    apply scan_total in Hs as (es & Hes & -> & Hfold); [|done..].
    apply fold_lp_body in Hfold as (hs & fr & -> & Hsorted & Hok & [= -> -> ->]).
    apply Forall_app in Hes as [Hes _]. intros Hp.
    exists hs, fr, (TlvReader.as_bytes r). split; [split; [done..|]|];
      destruct fr; [by left| |by injection Hp|]; simpl in Hp; [right|];
      destruct (all_elems lp_type.LP_ACK hs); [done|done|done|by injection Hp].
  - intros (hs & fr & rest & [-> Hes Hsorted Hok Hpay] & ->).
    destruct (first_tlv_ok lp_type.LP_PACKET (elems_wire (hs ++ frag_elems fr)) rest)
      as (r & -> & _); [done..|]. cbn [negb Z.eqb].
    pose proof (zlen_body_le _ _ _ Hl). apply wf_bytes_app in Hwf as [Hwf _].
    assert (wf_bytes (elems_wire (hs ++ frag_elems fr))) as Hwe.
    { unfold tlv_bytes in Hwf. rewrite !wf_bytes_app in Hwf. tauto. }
    rewrite scan_elems; [| |lia].
    2:{ apply Forall_app. split; [done|]. apply wf_frag_elems. intros v ->.
        rewrite elems_wire_app, wf_bytes_app in Hwe. destruct Hwe as [_ Hwe]. simpl in Hwe.
        rewrite elems_wire_one in Hwe. unfold tlv_bytes in Hwe. rewrite !wf_bytes_app in Hwe. tauto. }
    rewrite (proj2 (fold_lp_body (hs ++ frag_elems fr) _)) by (by exists hs, fr).
    destruct fr; [done|]. simpl. destruct Hpay as [[]|Hpay]; [done|].
    by destruct (all_elems lp_type.LP_ACK hs).
Qed.

(** ** The encoders *)

(** An LpPacket assembled from acceptable headers decodes to what they stand for. *)
Lemma lp_wire_decodes hs fr :
  Forall wf_elem hs -> (forall v, fr = Some v -> wf_bytes v) -> lp_sorted hs -> Forall header_ok hs ->
  is_Some fr \/ all_elems lp_type.LP_ACK hs <> [] ->
  zlen (tlv_bytes lp_type.LP_PACKET (elems_wire (hs ++ frag_elems fr))) <= usize_max ->
  LpPacket.decode (tlv_bytes lp_type.LP_PACKET (elems_wire (hs ++ frag_elems fr))) = Ok (lp_of hs fr).
Proof.
  intros Hwf Hfr Hs Hok Hpay Hl. apply lp_decode_shape; [|done|].
  - apply wf_tlv_bytes; [done|]. apply wf_elems_wire, Forall_app. auto using wf_frag_elems.
  - exists hs, fr, []. split; [|done]. split; [by rewrite app_nil_r|done..].
Qed.

(** The writer appends elements. *)
Lemma write_tlv_elems w es t v :
  TlvWriter.buf w = elems_wire es -> is_u64 t -> zlen v <= u64_max ->
  TlvWriter.buf (TlvWriter.write_tlv w t v) = elems_wire (es ++ [(t, v)]).
Proof. intros Hw Ht Hv. rewrite buf_write_tlv, Hw, elems_wire_app, elems_wire_one by done. done. Qed.

Definition opt_elem (t : Z) (o : option bytes) : list elem :=
  match o with Some v => [(t, v)] | None => [] end.

Lemma write_opt_elems {A} w es t (f : A -> bytes) (o : option A) :
  TlvWriter.buf w = elems_wire es -> is_u64 t -> (forall a, o = Some a -> zlen (f a) <= u64_max) ->
  TlvWriter.buf (match o with Some a => TlvWriter.write_tlv w t (f a) | None => w end)
  = elems_wire (es ++ opt_elem t (f <$> o)).
Proof.
  intros Hw Ht Hf. destruct o as [a|]; simpl; [|by rewrite app_nil_r].
  apply write_tlv_elems; auto.
Qed.

Lemma find_elem_opt T t o es :
  find_elem T (opt_elem t o ++ es) =
    match (if t =? T then o else None) with Some v => Some v | None => find_elem T es end.
Proof.
  destruct o as [v|]; simpl; [|by destruct (t =? T)]. rewrite find_elem_cons. simpl.
  by destruct (Z.eqb_spec t T); [rewrite decide_True|rewrite decide_False].
Qed.

Lemma find_elem_nil T : find_elem T [] = None.
Proof. done. Qed.

Lemma all_elems_app T es fs : all_elems T (es ++ fs) = all_elems T es ++ all_elems T fs.
Proof. apply omap_app. Qed.
Lemma all_elems_opt T t o :
  all_elems T (opt_elem t o) = match (if t =? T then o else None) with Some v => [v] | None => [] end.
Proof. destruct o; simpl; by destruct (t =? T). Qed.

(** Sizes of what the encoders write. *)
Lemma zlen_elems_wire_app es fs :
  zlen (elems_wire (es ++ fs)) = zlen (elems_wire es) + zlen (elems_wire fs).
Proof. by rewrite elems_wire_app, zlen_app. Qed.
Lemma zlen_opt_elem t o :
  zlen (elems_wire (opt_elem t o)) <= match o with Some v => zlen v + 18 | None => 0 end.
Proof.
  destruct o as [v|]; [|done]. simpl. rewrite elems_wire_one, zlen_tlv_bytes. simpl.
  pose proof (tlv_size_bounds t (zlen v) (zlen_nonneg v)). lia.
Qed.
Lemma zlen_lp_packet v : zlen (tlv_bytes lp_type.LP_PACKET v) <= zlen v + 18.
Proof. rewrite zlen_tlv_bytes. pose proof (tlv_size_bounds lp_type.LP_PACKET (zlen v) (zlen_nonneg v)). lia. Qed.
Lemma zlen_nni_opt t o :
  zlen (elems_wire (opt_elem t (nni_bytes <$> o))) <= 26.
Proof.
  pose proof (zlen_opt_elem t (nni_bytes <$> o)). destruct o as [x|]; simpl in *; [|lia].
  pose proof (zlen_nni_bytes x). lia.
Qed.

Lemma wf_opt_elem t o : is_u32 t -> (forall v, o = Some v -> wf_bytes v) -> Forall wf_elem (opt_elem t o).
Proof.
  intros Ht Hv. destruct o as [v|]; [|constructor]. apply Forall_singleton. split; [done|by apply Hv].
Qed.

(** The nested values of the Nack and CachePolicy headers. *)
Definition nack_value (c : Z) : bytes := tlv_bytes lp_type.NACK_REASON (nni_bytes c).
Definition policy_value (c : Z) : bytes := tlv_bytes lp_type.LP_CACHE_POLICY_TYPE (nni_bytes c).

Lemma zlen_tlv_nni t c : 1 <= zlen (tlv_bytes t (nni_bytes c)) <= 26.
Proof.
  rewrite zlen_tlv_bytes. pose proof (zlen_nni_bytes c).
  pose proof (tlv_size_bounds t (zlen (nni_bytes c)) ltac:(lia)). lia.
Qed.

Lemma tlv_bytes_elems t v : tlv_bytes t v = elems_wire [(t, v)].
Proof. by rewrite elems_wire_one. Qed.

Lemma one_elem_ok t c : is_u32 t -> Forall wf_elem [(t, nni_bytes c)] /\ zlen (elems_wire [(t, nni_bytes c)]) <= usize_max.
Proof.
  intros Ht. split; [apply Forall_singleton; split; [done|apply wf_nni_bytes]|].
  rewrite elems_wire_one. cbn [fst snd]. pose proof (zlen_tlv_nni t c). unfold_bounds. lia.
Qed.

Lemma decode_nack_value c :
  is_u64 c -> decode_nack_header (nack_value c) = Ok (nack.mkHeader (Some (nack.from_code c))).
Proof.
  intros Hc. unfold decode_nack_header, nack_value.
  pose proof (zlen_tlv_nni lp_type.NACK_REASON c).
  destruct (Z.eqb_spec (zlen (tlv_bytes lp_type.NACK_REASON (nni_bytes c))) 0); [lia|].
  destruct (one_elem_ok lp_type.NACK_REASON c ltac:(done)) as [Hwf Hl].
  rewrite (tlv_bytes_elems lp_type.NACK_REASON).
  erewrite (search_elems _ lp_type.NACK_REASON
    (fun v => Ok (Some (nack.mkHeader (Some (nack.from_code (decode_be_u64 v))))))); [|by intros t v; destruct (t =? _)|done..].
  rewrite find_elem_cons. cbn [fst snd]. rewrite decide_True by done. by rewrite decode_be_u64_nni.
Qed.

Lemma decode_policy_value c :
  is_u64 c ->
  decode_cache_policy (policy_value c) None = Ok (Some (if c =? 1 then NoCache else OtherPolicy c)).
Proof.
  intros Hc. unfold decode_cache_policy, policy_value.
  destruct (one_elem_ok lp_type.LP_CACHE_POLICY_TYPE c ltac:(done)) as [Hwf Hl].
  rewrite (tlv_bytes_elems lp_type.LP_CACHE_POLICY_TYPE), scan_elems by done.
  cbn [fold_flow]. eval_codes. cbn iota. by rewrite decode_be_u64_nni.
Qed.

(** *** [encode_lp_with_headers] *)

Definition headers_elems (h : LpHeaders) : list elem :=
  opt_elem lp_type.LP_PIT_TOKEN (hd_pit_token h)
  ++ opt_elem lp_type.LP_INCOMING_FACE_ID (nni_bytes <$> hd_incoming_face_id h)
  ++ opt_elem lp_type.LP_NEXT_HOP_FACE_ID (nni_bytes <$> hd_next_hop_face_id h)
  ++ opt_elem lp_type.LP_CACHE_POLICY ((fun cp => policy_value (CachePolicyType_code cp)) <$> hd_cache_policy h)
  ++ opt_elem lp_type.LP_CONGESTION_MARK (nni_bytes <$> hd_congestion_mark h).

Lemma id_fmap_option {A} (o : option A) : (fun x => x) <$> o = o.
Proof. by destruct o. Qed.

(** A header set the wire can carry: the token is a non-empty byte string, the
    numbers are [u64]. *)
Record wf_headers (h : LpHeaders) : Prop := {
  wh_token : forall v, hd_pit_token h = Some v -> wf_bytes v /\ v <> [];
  wh_mark : forall x, hd_congestion_mark h = Some x -> is_u64 x;
  wh_in : forall x, hd_incoming_face_id h = Some x -> is_u64 x;
  wh_next : forall x, hd_next_hop_face_id h = Some x -> is_u64 x;
  wh_policy : forall x, hd_cache_policy h = Some x -> is_u64 (CachePolicyType_code x)
}.

Definition token_len (o : option bytes) : Z := match o with Some v => zlen v | None => 0 end.

Lemma zlen_headers_elems h : zlen (elems_wire (headers_elems h)) <= token_len (hd_pit_token h) + 150.
Proof.
  unfold headers_elems, token_len. rewrite !zlen_elems_wire_app.
  pose proof (zlen_opt_elem lp_type.LP_PIT_TOKEN (hd_pit_token h)).
  pose proof (zlen_nni_opt lp_type.LP_INCOMING_FACE_ID (hd_incoming_face_id h)).
  pose proof (zlen_nni_opt lp_type.LP_NEXT_HOP_FACE_ID (hd_next_hop_face_id h)).
  pose proof (zlen_nni_opt lp_type.LP_CONGESTION_MARK (hd_congestion_mark h)).
  pose proof (zlen_opt_elem lp_type.LP_CACHE_POLICY
    ((fun cp => policy_value (CachePolicyType_code cp)) <$> hd_cache_policy h)) as Hp.
  destruct (hd_cache_policy h) as [cp|]; destruct (hd_pit_token h); simpl in *;
    try pose proof (zlen_tlv_nni lp_type.LP_CACHE_POLICY_TYPE (CachePolicyType_code cp));
    unfold policy_value in *; lia.
Qed.

(** One nested integer, as the writer emits it. *)
Lemma buf_write_nni t c :
  is_u64 t -> TlvWriter.buf (TlvWriter.write_tlv TlvWriter.new t (nni_bytes c)) = tlv_bytes t (nni_bytes c).
Proof. intros. pose proof (zlen_nni_bytes c). rewrite buf_write_tlv; [done|done|unfold_bounds; lia]. Qed.

Lemma lp_nested_wire f es :
  TlvWriter.buf (f TlvWriter.new) = elems_wire es -> zlen (elems_wire es) <= u64_max ->
  TlvWriter.finish (TlvWriter.write_nested TlvWriter.new lp_type.LP_PACKET f)
  = tlv_bytes lp_type.LP_PACKET (elems_wire es).
Proof. intros Hf Hl. unfold TlvWriter.finish. rewrite buf_write_nested, Hf; [done|done|by rewrite Hf]. Qed.

Lemma zlen_frag_elem fr : zlen (elems_wire (frag_elems (Some fr))) <= zlen fr + 18.
Proof. exact (zlen_opt_elem lp_type.LP_FRAGMENT (Some fr)). Qed.

Lemma encode_with_headers_wire fr h :
  zlen fr + token_len (hd_pit_token h) + 400 <= usize_max ->
  encode_lp_with_headers fr h
  = tlv_bytes lp_type.LP_PACKET (elems_wire (headers_elems h ++ frag_elems (Some fr))).
Proof.
  intros Hl. pose proof (zlen_frag_elem fr). pose proof (zlen_headers_elems h).
  pose proof (zlen_nonneg fr). assert (0 <= token_len (hd_pit_token h)) by (unfold token_len; case_match; zlen_lia).
  assert (forall o : option Z, forall x, o = Some x -> zlen (nni_bytes x) <= u64_max) as Hn.
  { intros _ x _. pose proof (zlen_nni_bytes x). unfold_bounds. lia. }
  apply lp_nested_wire; [|rewrite zlen_elems_wire_app; unfold_bounds; lia]. cbv zeta.
  etrans.
  { apply write_tlv_elems; [|done|unfold_bounds; lia].
    apply write_opt_elems; [|done|apply Hn].
    eapply (write_opt_elems _ _ lp_type.LP_CACHE_POLICY (fun cp =>
      TlvWriter.buf (TlvWriter.write_tlv TlvWriter.new lp_type.LP_CACHE_POLICY_TYPE
                       (nni_bytes (CachePolicyType_code cp))))); [|done|].
    2:{ intros cp _. rewrite buf_write_nni by done.
        pose proof (zlen_tlv_nni lp_type.LP_CACHE_POLICY_TYPE (CachePolicyType_code cp)). unfold_bounds. lia. }
    apply write_opt_elems; [|done|apply Hn]. apply write_opt_elems; [|done|apply Hn].
    apply (write_opt_elems _ [] _ (fun x => x)); [done|done|].
    intros v Hv. unfold token_len in Hl. rewrite Hv in Hl. unfold_bounds. lia. }
  unfold headers_elems, frag_elems. rewrite id_fmap_option, <- !app_assoc.
  cbn [app]. destruct (hd_cache_policy h); [|done]. cbn [fmap option_fmap option_map].
  by rewrite buf_write_nni.
Qed.

(** What the headers of [encode_lp_with_headers] are on the receiving side: a
    policy code 1 is [NoCache]. *)
Definition normal_policy (cp : CachePolicyType) : CachePolicyType :=
  if CachePolicyType_code cp =? 1 then NoCache else cp.

Definition headers_packet (fr : bytes) (h : LpHeaders) : LpPacket := {|
  fragment := Some fr; nack_header := None; congestion_mark := hd_congestion_mark h;
  sequence := None; frag_index := None; frag_count := None; acks := [];
  lp_pit_token := hd_pit_token h; incoming_face_id := hd_incoming_face_id h;
  next_hop_face_id := hd_next_hop_face_id h; cache_policy := normal_policy <$> hd_cache_policy h;
  tx_sequence := None; non_discovery := false; prefix_announcement := None;
  al_presence := None; al_prev_hop_loc := None; al_data_loc := None |}.

Lemma num_nni (o : option Z) :
  (forall x, o = Some x -> is_u64 x) -> decode_be_u64 <$> (nni_bytes <$> o) = o.
Proof. intros H. destruct o as [x|]; [|done]. simpl. by rewrite decode_be_u64_nni by by apply H. Qed.

Lemma lp_of_headers fr h : wf_headers h -> lp_of (headers_elems h) (Some fr) = headers_packet fr h.
Proof.
  intros [Ht Hm Hi Hn Hp]. unfold lp_of, headers_elems.
  rewrite <- (app_nil_r (opt_elem lp_type.LP_CONGESTION_MARK _)).
  rewrite !find_elem_opt, !find_elem_nil, !all_elems_app, !all_elems_opt. eval_codes. cbn iota.
  rewrite !option_eta, !num_nni by done. unfold headers_packet.
  f_equal. destruct (hd_cache_policy h) as [cp|]; [|done]. specialize (Hp cp eq_refl).
  simpl. rewrite decode_policy_value by done. unfold normal_policy. destruct (_ =? 1) eqn:E; [done|].
  by destruct cp.
Qed.

Lemma header_ok_opt_plain t o :
  t ∈ known_lp_types -> t <> lp_type.NACK -> t <> lp_type.LP_PIT_TOKEN -> t <> lp_type.LP_CACHE_POLICY ->
  Forall header_ok (opt_elem t o).
Proof. intros. destruct o; [|constructor]. apply Forall_singleton. by apply header_ok_plain. Qed.

Lemma header_ok_token v : v <> [] -> header_ok (lp_type.LP_PIT_TOKEN, v).
Proof. intros. split; simpl; try done. left. compute_done. Qed.
Lemma header_ok_policy c : is_u64 c -> header_ok (lp_type.LP_CACHE_POLICY, policy_value c).
Proof. intros. split; simpl; try done; [by rewrite decode_policy_value|left; compute_done]. Qed.
Lemma header_ok_nack c : is_u64 c -> header_ok (lp_type.NACK, nack_value c).
Proof. intros. split; simpl; try done; [by rewrite decode_nack_value|left; compute_done]. Qed.

(** Sortedness of a list of elements with concrete types. *)
Ltac solve_sorted := repeat first [constructor | left; reflexivity].

Lemma headers_elems_sorted h : lp_sorted (headers_elems h).
Proof. destruct h as [[] [] [] [] []]; solve_sorted. Qed.

Lemma headers_elems_ok h : wf_headers h -> Forall header_ok (headers_elems h) /\ Forall wf_elem (headers_elems h).
Proof.
  intros [Ht Hm Hi Hn Hp]. unfold headers_elems. rewrite !Forall_app. split; split_conj;
    try (apply header_ok_opt_plain; [compute_done|done..]);
    try (apply wf_opt_elem; [done|]; intros v Hv; try (apply fmap_Some in Hv as (x & _ & ->)); auto with ndn).
  - destruct (hd_pit_token h) as [v|]; [|constructor]. apply Forall_singleton, header_ok_token.
    by apply (Ht v).
  - destruct (hd_cache_policy h) as [cp|]; [|constructor]. apply Forall_singleton, header_ok_policy.
    by apply Hp.
  - by apply (Ht v).
  - apply wf_tlv_bytes; [done|apply wf_nni_bytes].
Qed.

Lemma with_headers_decodes fr h :
  wf_bytes fr -> wf_headers h -> zlen fr + token_len (hd_pit_token h) + 400 <= usize_max ->
  LpPacket.decode (encode_lp_with_headers fr h) = Ok (headers_packet fr h).
Proof.
  intros Hfr Hh Hl. rewrite encode_with_headers_wire, <- (lp_of_headers fr h Hh) by done.
  destruct (headers_elems_ok h Hh). apply lp_wire_decodes; [done|by intros v [= <-]|..]; try done.
  - apply headers_elems_sorted.
  - by left.
  - pose proof (zlen_lp_packet (elems_wire (headers_elems h ++ frag_elems (Some fr)))).
    rewrite zlen_elems_wire_app in H1. pose proof (zlen_frag_elem fr). pose proof (zlen_headers_elems h). lia.
Qed.

(** *** [encode_lp_reliable] and [encode_lp_acks] *)

Definition frag_info_elems (fi : option (Z * Z * Z)) : list elem :=
  match fi with
  | Some (seq, idx, count) =>
      [(lp_type.LP_SEQUENCE, be_encode 8 seq); (lp_type.LP_FRAG_INDEX, nni_bytes idx);
       (lp_type.LP_FRAG_COUNT, nni_bytes count)]
  | None => []
  end.
Definition ack_elems (l : list Z) : list elem := map (fun a => (lp_type.LP_ACK, nni_bytes a)) l.
Definition reliable_elems (fi : option (Z * Z * Z)) (l : list Z) (tx : Z) : list elem :=
  frag_info_elems fi ++ ack_elems l ++ [(lp_type.LP_TX_SEQUENCE, nni_bytes tx)].

Lemma write_acks_elems l w es :
  TlvWriter.buf w = elems_wire es -> TlvWriter.buf (write_acks w l) = elems_wire (es ++ ack_elems l).
Proof.
  revert w es. induction l as [|a l IH]; intros w es Hw; simpl; [by rewrite app_nil_r|].
  rewrite (IH _ (es ++ [(lp_type.LP_ACK, nni_bytes a)])); [by rewrite <- app_assoc|].
  pose proof (zlen_nni_bytes a). apply write_tlv_elems; [done|done|unfold_bounds; lia].
Qed.

Lemma zlen_ack_elems l : zlen (elems_wire (ack_elems l)) <= 26 * zlen l.
Proof.
  induction l as [|a l IH]; [done|]. simpl. rewrite elems_wire_cons, zlen_app, zlen_cons. cbn [fst snd].
  pose proof (zlen_tlv_nni lp_type.LP_ACK a). lia.
Qed.

Lemma zlen_be8_elem t v : zlen (tlv_bytes t (be_encode 8 v)) <= 26.
Proof. rewrite zlen_tlv_bytes, zlen_be_encode. pose proof (tlv_size_bounds t (Z.of_nat 8)). lia. Qed.

Lemma zlen_reliable_elems fi l tx : zlen (elems_wire (reliable_elems fi l tx)) <= 104 + 26 * zlen l.
Proof.
  unfold reliable_elems. rewrite !zlen_elems_wire_app, elems_wire_one. cbn [fst snd].
  pose proof (zlen_ack_elems l). pose proof (zlen_tlv_nni lp_type.LP_TX_SEQUENCE tx).
  destruct fi as [[[s i] c]|]; cbn [frag_info_elems]; rewrite ?elems_wire_cons, ?zlen_app; cbn [fst snd];
    change (elems_wire []) with (@nil Z); rewrite zlen_nil;
    [|lia]. pose proof (zlen_be8_elem lp_type.LP_SEQUENCE s).
  pose proof (zlen_tlv_nni lp_type.LP_FRAG_INDEX i). pose proof (zlen_tlv_nni lp_type.LP_FRAG_COUNT c). lia.
Qed.

Lemma encode_reliable_wire fr tx fi l :
  zlen fr + 26 * zlen l + 400 <= usize_max ->
  encode_lp_reliable fr tx fi l
  = tlv_bytes lp_type.LP_PACKET (elems_wire (reliable_elems fi l tx ++ frag_elems (Some fr))).
Proof.
  intros Hl. pose proof (zlen_frag_elem fr). pose proof (zlen_reliable_elems fi l tx).
  pose proof (zlen_nonneg fr). pose proof (zlen_nonneg l).
  assert (forall x, zlen (nni_bytes x) <= u64_max) as Hn
    by (intros x; pose proof (zlen_nni_bytes x); unfold_bounds; lia).
  apply lp_nested_wire; [|rewrite zlen_elems_wire_app; unfold_bounds; lia]. cbv zeta.
  etrans.
  { apply write_tlv_elems; [|done|unfold_bounds; lia]. apply write_tlv_elems; [|done|done].
    apply write_acks_elems. instantiate (1 := frag_info_elems fi).
    destruct fi as [[[s i] c]|]; [|done].
    apply (write_tlv_elems _ [_; _]); [|done|done]. apply (write_tlv_elems _ [_]); [|done|done].
    apply (write_tlv_elems _ []); [done|done|]. rewrite zlen_be_encode. done. }
  unfold reliable_elems. by rewrite <- !app_assoc.
Qed.

Lemma find_elem_app T es fs :
  find_elem T (es ++ fs) = match find_elem T es with Some v => Some v | None => find_elem T fs end.
Proof.
  induction es as [|e es IH]; [done|]. cbn [app]. rewrite !find_elem_cons. by destruct (decide (e.1 = T)).
Qed.
Lemma find_elem_acks T l : T <> lp_type.LP_ACK -> find_elem T (ack_elems l) = None.
Proof. intros HT. apply find_elem_None. induction l; constructor; auto. Qed.
Lemma all_elems_acks l : all_elems lp_type.LP_ACK (ack_elems l) = map nni_bytes l.
Proof. induction l as [|a l IH]; [done|]. cbn [map]. rewrite <- IH. done. Qed.
Lemma num_acks l : Forall is_u64 l -> decode_be_u64 <$> map nni_bytes l = l.
Proof. induction 1; [done|]. cbn. by rewrite decode_be_u64_nni; f_equal. Qed.

Lemma ack_elems_ok l : Forall header_ok (ack_elems l) /\ Forall wf_elem (ack_elems l).
Proof.
  split; apply Forall_map, Forall_true; intros a; [apply header_ok_plain; [compute_done|done..]|].
  split; [done|apply wf_nni_bytes].
Qed.
Lemma ack_elems_sorted l tl :
  lp_sorted tl -> Forall (fun t => lp_type.LP_ACK < t) (elem_types tl) -> lp_sorted (ack_elems l ++ tl).
Proof.
  intros Hs Ht. induction l as [|a l IH]; [done|]. cbn. constructor; [done|].
  rewrite map_app, Forall_app. split.
  - apply Forall_map, Forall_map, Forall_true. intros x. by right.
  - eapply Forall_impl; [exact Ht|]. intros t ?. by left.
Qed.

Definition reliable_packet (fr : bytes) (tx : Z) (fi : option (Z * Z * Z)) (l : list Z) : LpPacket := {|
  fragment := Some fr; nack_header := None; congestion_mark := None;
  sequence := (fun i => i.1.1) <$> fi; frag_index := (fun i => i.1.2) <$> fi;
  frag_count := (fun i => i.2) <$> fi; acks := l;
  lp_pit_token := None; incoming_face_id := None; next_hop_face_id := None; cache_policy := None;
  tx_sequence := Some tx; non_discovery := false; prefix_announcement := None;
  al_presence := None; al_prev_hop_loc := None; al_data_loc := None |}.

Definition wf_frag_info (fi : option (Z * Z * Z)) : Prop :=
  match fi with Some (s, i, c) => is_u64 s /\ is_u64 i /\ is_u64 c | None => True end.

Lemma lp_of_reliable fr tx fi l :
  is_u64 tx -> wf_frag_info fi -> Forall is_u64 l ->
  lp_of (reliable_elems fi l tx) (Some fr) = reliable_packet fr tx fi l.
Proof.
  intros Htx Hfi Hl. unfold lp_of, reliable_elems.
  rewrite !find_elem_app, !find_elem_acks, !all_elems_app, all_elems_acks by done.
  change [(lp_type.LP_TX_SEQUENCE, nni_bytes tx)] with (opt_elem lp_type.LP_TX_SEQUENCE (Some (nni_bytes tx)) ++ []).
  rewrite !find_elem_opt, !find_elem_nil, !all_elems_app, !all_elems_opt. eval_codes. cbn iota.
  change (all_elems lp_type.LP_ACK []) with (@nil bytes). rewrite !app_nil_r.
  destruct fi as [[[s i] c]|].
  - destruct Hfi as (Hs & Hi & Hc).
    change (frag_info_elems (Some (s, i, c))) with
      (opt_elem lp_type.LP_SEQUENCE (Some (be_encode 8 s))
       ++ opt_elem lp_type.LP_FRAG_INDEX (Some (nni_bytes i))
       ++ opt_elem lp_type.LP_FRAG_COUNT (Some (nni_bytes c)) ++ []).
    rewrite !find_elem_opt, !find_elem_nil, !all_elems_app, !all_elems_opt. eval_codes.
    cbn [app fmap option_fmap option_map all_elems omap list_omap].
    rewrite num_acks, !decode_be_u64_nni, decode_be_u64_encode by done. done.
  - cbn [frag_info_elems]. rewrite !find_elem_nil. change (all_elems lp_type.LP_ACK []) with (@nil bytes). cbn [app fmap option_fmap option_map].
    rewrite num_acks, !decode_be_u64_nni by done. done.
Qed.

Lemma reliable_elems_ok fi l tx :
  Forall header_ok (reliable_elems fi l tx) /\ Forall wf_elem (reliable_elems fi l tx) /\
  lp_sorted (reliable_elems fi l tx).
Proof.
  destruct (ack_elems_ok l) as [Ha Hw]. unfold reliable_elems.
  assert (lp_sorted (ack_elems l ++ [(lp_type.LP_TX_SEQUENCE, nni_bytes tx)])) as Hs
    by (apply ack_elems_sorted; solve_sorted).
  rewrite !Forall_app. split_conj; try done.
  - destruct fi as [[[s i] c]|]; [|constructor].
    repeat (apply Forall_cons; split; [apply header_ok_plain; [compute_done|done..]|]). constructor.
  - apply Forall_singleton, header_ok_plain; [compute_done|done..].
  - destruct fi as [[[s i] c]|]; [|constructor].
    repeat (apply Forall_cons; split; [split; [done|simpl; auto with ndn]|]). constructor.
  - apply Forall_singleton. split; [done|apply wf_nni_bytes].
  - destruct fi as [[[s i] c]|]; [|done]. cbn [frag_info_elems app map fst].
    assert (forall k, k < lp_type.LP_ACK ->
      Forall (lp_lt k) (elem_types (ack_elems l ++ [(lp_type.LP_TX_SEQUENCE, nni_bytes tx)]))) as Hk.
    { intros k Hk. rewrite map_app, Forall_app. split.
      - apply Forall_map, Forall_map, Forall_true. intros x. by left.
      - apply Forall_singleton. left. change (k < lp_type.LP_TX_SEQUENCE). etrans; [exact Hk|done]. }
    repeat constructor; try (left; reflexivity); try done; by apply Hk.
Qed.

Lemma reliable_decodes fr tx fi l :
  wf_bytes fr -> is_u64 tx -> wf_frag_info fi -> Forall is_u64 l ->
  zlen fr + 26 * zlen l + 400 <= usize_max ->
  LpPacket.decode (encode_lp_reliable fr tx fi l) = Ok (reliable_packet fr tx fi l).
Proof.
  intros Hfr Htx Hfi Hl Hz. rewrite encode_reliable_wire, <- lp_of_reliable by done.
  destruct (reliable_elems_ok fi l tx) as (? & ? & ?).
  apply lp_wire_decodes; [done|by intros v [= <-]|done|done|by left|].
  pose proof (zlen_lp_packet (elems_wire (reliable_elems fi l tx ++ frag_elems (Some fr)))) as Hp.
  rewrite zlen_elems_wire_app in Hp. pose proof (zlen_frag_elem fr). pose proof (zlen_reliable_elems fi l tx). lia.
Qed.

Lemma encode_acks_wire l :
  26 * zlen l + 400 <= usize_max ->
  encode_lp_acks l = tlv_bytes lp_type.LP_PACKET (elems_wire (ack_elems l ++ frag_elems None)).
Proof.
  intros Hl. pose proof (zlen_ack_elems l). cbn [frag_elems]. rewrite app_nil_r.
  apply lp_nested_wire; [by apply (write_acks_elems l _ [])|unfold_bounds; lia].
Qed.

Lemma acks_decodes l :
  l <> [] -> Forall is_u64 l -> 26 * zlen l + 400 <= usize_max ->
  exists p, LpPacket.decode (encode_lp_acks l) = Ok p /\ acks p = l /\ fragment p = None /\
    tx_sequence p = None /\ LpPacket.is_ack_only p = true.
Proof.
  intros Hne Hl Hz. rewrite encode_acks_wire by done. destruct (ack_elems_ok l).
  exists (lp_of (ack_elems l) None).
  assert (acks (lp_of (ack_elems l) None) = l) as Ha.
  { cbn [acks lp_of]. rewrite all_elems_acks. by apply num_acks. }
  split_conj; [|done|done| |].
  - apply lp_wire_decodes; [done|done| |done| |].
    + rewrite <- (app_nil_r (ack_elems l)). apply ack_elems_sorted; solve_sorted.
    + right. rewrite all_elems_acks. by destruct l.
    + pose proof (zlen_lp_packet (elems_wire (ack_elems l ++ frag_elems None))) as Hp.
      rewrite zlen_elems_wire_app in Hp. pose proof (zlen_ack_elems l).
      change (zlen (elems_wire (frag_elems None))) with 0 in Hp. lia.
  - cbn [tx_sequence lp_of]. by rewrite find_elem_acks.
  - unfold LpPacket.is_ack_only. rewrite Ha. cbn [fragment lp_of]. destruct l; [done|]. zlen_norm.
    destruct (Z.eqb_spec (1 + zlen l) 0); [zlen_lia|done].
Qed.

(** *** Nacks *)

Definition nack_elems (r : nack.NackReason) (tok : option bytes) : list elem :=
  opt_elem lp_type.LP_PIT_TOKEN tok ++ [(lp_type.NACK, nack_value (nack.code r))].

Lemma zlen_nack_elems r tok : zlen (elems_wire (nack_elems r tok)) <= token_len tok + 62.
Proof.
  unfold nack_elems. rewrite zlen_elems_wire_app, elems_wire_one. cbn [fst snd].
  pose proof (zlen_opt_elem lp_type.LP_PIT_TOKEN tok). rewrite zlen_tlv_bytes.
  pose proof (zlen_tlv_nni lp_type.NACK_REASON (nack.code r)). fold (nack_value (nack.code r)) in *.
  pose proof (tlv_size_bounds lp_type.NACK (zlen (nack_value (nack.code r))) (zlen_nonneg _)).
  unfold token_len. destruct tok; lia.
Qed.

Lemma encode_nack_wire r wire tok :
  zlen wire + token_len tok + 400 <= usize_max ->
  encode_lp_nack_with_pit_token r wire tok
  = tlv_bytes lp_type.LP_PACKET (elems_wire (nack_elems r tok ++ frag_elems (Some wire))).
Proof.
  intros Hl. pose proof (zlen_frag_elem wire). pose proof (zlen_nack_elems r tok).
  pose proof (zlen_nonneg wire). assert (0 <= token_len tok) by (unfold token_len; case_match; zlen_lia).
  apply lp_nested_wire; [|rewrite zlen_elems_wire_app; unfold_bounds; lia]. cbv zeta.
  etrans.
  { apply write_tlv_elems; [|done|unfold_bounds; lia].
    apply write_tlv_elems; [|done|].
    2:{ rewrite buf_write_nni by done. pose proof (zlen_tlv_nni lp_type.NACK_REASON (nack.code r)). unfold_bounds. lia. }
    apply (write_opt_elems _ [] _ (fun x => x)); [done|done|].
    intros v ->. simpl in *. unfold_bounds. lia. }
  unfold nack_elems. rewrite buf_write_nni by done. by rewrite id_fmap_option, <- !app_assoc.
Qed.

Lemma nack_decodes r wire tok :
  wf_bytes wire -> is_u64 (nack.code r) -> (forall v, tok = Some v -> wf_bytes v /\ v <> []) ->
  zlen wire + token_len tok + 400 <= usize_max ->
  exists p, LpPacket.decode (encode_lp_nack_with_pit_token r wire tok) = Ok p /\
    fragment p = Some wire /\ lp_pit_token p = tok /\
    nack_header p = Some (nack.mkHeader (Some (nack.from_code (nack.code r)))).
Proof.
  intros Hw Hr Htok Hl. rewrite encode_nack_wire by done. eexists. split.
  - apply lp_wire_decodes.
    + apply Forall_app. split; [apply wf_opt_elem; [done|]; intros v Hv; by apply Htok|].
      apply Forall_singleton. split; [done|]. apply wf_tlv_bytes; [done|apply wf_nni_bytes].
    + by intros v [= <-].
    + destruct tok; solve_sorted.
    + apply Forall_app. split; [|by apply Forall_singleton, header_ok_nack].
      destruct tok as [v|]; [|constructor]. apply Forall_singleton, header_ok_token. by apply Htok.
    + by left.
    + pose proof (zlen_lp_packet (elems_wire (nack_elems r tok ++ frag_elems (Some wire)))) as Hp.
      rewrite zlen_elems_wire_app in Hp. pose proof (zlen_frag_elem wire). pose proof (zlen_nack_elems r tok). lia.
  - unfold nack_elems. change [(lp_type.NACK, nack_value (nack.code r))]
      with (opt_elem lp_type.NACK (Some (nack_value (nack.code r))) ++ []).
    cbn [fragment lp_pit_token nack_header lp_of]. rewrite !find_elem_opt, find_elem_nil. eval_codes. cbn iota.
    rewrite option_eta. cbn [mbind option_bind]. by rewrite decode_nack_value.
Qed.

(** ** The fast paths *)

Lemma get_from_app pre l : get_from (pre ++ l) (zlen pre) = Some l.
Proof.
  unfold get_from. rewrite zlen_app. destruct (Z.leb_spec (zlen pre) (zlen pre + zlen l)); [|zlen_lia].
  by rewrite slice_from_app.
Qed.

Lemma varu64_at_ok pre v post :
  is_u64 v -> varu64_at (pre ++ varu64_bytes v ++ post) (zlen pre) = Some (v, varu64_size v).
Proof. intros Hv. unfold varu64_at. by rewrite get_from_app, read_varu64_bytes. Qed.

Lemma checked_add_ok a b : a + b <= usize_max -> checked_add a b = Some (a + b).
Proof. intros. unfold checked_add. by destruct (Z.leb_spec (a + b) usize_max); [|lia]. Qed.

Lemma usize_of_ok v : v <= usize_max -> usize_of v = Some v.
Proof. intros. unfold usize_of. by destruct (Z.leb_spec v usize_max); [|lia]. Qed.

Lemma get_range_mid pre v post a b :
  a = zlen pre -> b = zlen pre + zlen v -> get_range (pre ++ v ++ post) a b = Some v.
Proof.
  intros -> ->. unfold get_range. rewrite !zlen_app.
  destruct (Z.leb_spec (zlen pre) (zlen pre + zlen v)); [|zlen_lia].
  destruct (Z.leb_spec (zlen pre + zlen v) (zlen pre + (zlen v + zlen post))); [|zlen_lia].
  cbn [andb]. by rewrite slice_mid.
Qed.

Definition value_start (pos t : Z) (v : bytes) : Z := pos + varu64_size t + varu64_size (zlen v).
Definition value_end (pos t : Z) (v : bytes) : Z := value_start pos t v + zlen v.

Lemma raw_tlv_ok pre t v post :
  is_u64 t -> zlen (pre ++ tlv_bytes t v ++ post) <= usize_max ->
  raw_tlv (pre ++ tlv_bytes t v ++ post) (zlen pre)
  = Some (t, value_start (zlen pre) t v, value_end (zlen pre) t v, v).
Proof.
  intros Ht Hl. rewrite !zlen_app, zlen_tlv_bytes in Hl. unfold tlv_size in Hl.
  pose proof (varu64_size_range t). pose proof (varu64_size_range (zlen v)).
  pose proof (zlen_nonneg pre). pose proof (zlen_nonneg v). pose proof (zlen_nonneg post).
  unfold raw_tlv, tlv_bytes. rewrite <- !app_assoc, varu64_at_ok by done.
  rewrite checked_add_ok by lia.
  replace (pre ++ varu64_bytes t ++ varu64_bytes (zlen v) ++ v ++ post)
    with ((pre ++ varu64_bytes t) ++ varu64_bytes (zlen v) ++ v ++ post) by by rewrite <- app_assoc.
  replace (zlen pre + varu64_size t) with (zlen (pre ++ varu64_bytes t)) by by rewrite zlen_app, zlen_varu64_bytes.
  rewrite varu64_at_ok by (unfold_bounds; lia).
  rewrite zlen_app, zlen_varu64_bytes.
  rewrite checked_add_ok, usize_of_ok by (unfold_bounds; lia).
  rewrite checked_add_ok by lia.
  rewrite (app_assoc (pre ++ varu64_bytes t) (varu64_bytes (zlen v))).
  rewrite get_range_mid by (rewrite !zlen_app, !zlen_varu64_bytes; lia). done.
Qed.

(** The loop on a list of elements. *)
Fixpoint fold_raw {S} (body : S -> Z -> Z -> Z -> bytes -> option S) (es : list elem) (pos : Z) (s : S)
    : S * RawEnd :=
  match es with
  | [] => (s, AtEnd)
  | (t, v) :: es =>
      match body s t (value_start pos t v) (value_end pos t v) v with
      | None => (s, Returned)
      | Some s => fold_raw body es (value_end pos t v) s
      end
  end.

Lemma zlen_elems_cons t v es :
  zlen (elems_wire ((t, v) :: es)) = value_end 0 t v + zlen (elems_wire es).
Proof. rewrite elems_wire_cons, zlen_app, zlen_tlv_bytes. unfold tlv_size, value_end, value_start. simpl. lia. Qed.

Lemma raw_while_elems {S} (body : S -> Z -> Z -> Z -> bytes -> option S) es pre fuel s :
  Forall wf_elem es -> zlen (pre ++ elems_wire es) <= usize_max -> (length es < fuel)%nat ->
  raw_while fuel body (pre ++ elems_wire es) (zlen pre) s = fold_raw body es (zlen pre) s.
Proof.
  intros Hes. revert pre fuel s. induction Hes as [|[t v] es [Ht Hv] _ IH]; intros pre [|fuel] s Hl Hf;
    simpl in Hf; try lia; cbn [raw_while fold_raw].
  - rewrite app_nil_r. destruct (Z.ltb_spec (zlen pre) (zlen pre)); [lia|done].
  - rewrite elems_wire_cons in *. cbn [fst snd] in *.
    destruct (Z.ltb_spec (zlen pre) (zlen (pre ++ tlv_bytes t v ++ elems_wire es))) as [_|Hge].
    2:{ rewrite !zlen_app, zlen_tlv_bytes in Hge. pose proof (tlv_size_bounds t (zlen v) (zlen_nonneg v)). zlen_lia. }
    rewrite raw_tlv_ok by (done || (unfold_bounds; simpl in *; lia)).
    destruct (body s t _ _ v) as [s'|]; [|done].
    replace (value_end (zlen pre) t v) with (zlen (pre ++ tlv_bytes t v))
      by (rewrite zlen_app, zlen_tlv_bytes; unfold tlv_size, value_end, value_start; lia).
    rewrite app_assoc in *. apply IH; [done|lia].
Qed.

Lemma raw_scan_elems {S} (body : S -> Z -> Z -> Z -> bytes -> option S) es s :
  Forall wf_elem es -> zlen (elems_wire es) <= usize_max ->
  raw_scan body (elems_wire es) s = fold_raw body es 0 s.
Proof.
  intros Hes Hl. apply (raw_while_elems body es [] _ s Hes Hl). pose proof (length_elems_wire es). lia.
Qed.

Lemma fold_raw_app {S} (body : S -> Z -> Z -> Z -> bytes -> option S) es fs pos s :
  fold_raw body (es ++ fs) pos s =
    match fold_raw body es pos s with
    | (s, AtEnd) => fold_raw body fs (pos + zlen (elems_wire es)) s
    | other => other
    end.
Proof.
  revert pos s. induction es as [|[t v] es IH]; intros pos s; cbn [app fold_raw].
  - change (zlen (elems_wire [])) with 0. by rewrite Z.add_0_r.
  - destruct (body s t _ _ v) as [s'|]; [|done]. rewrite IH, zlen_elems_cons.
    replace (value_end pos t v + zlen (elems_wire es)) with (pos + (value_end 0 t v + zlen (elems_wire es)))
      by (unfold value_end, value_start; lia). done.
Qed.

(** A loop whose body never returns and ignores the positions is a fold. *)
Lemma fold_raw_pure {S} body (g : S -> Z -> bytes -> S) es pos s :
  (forall s t a b v, body s t a b v = Some (g s t v)) ->
  fold_raw body es pos s = (fold_left (fun s e => g s e.1 e.2) es s, AtEnd).
Proof.
  intros Hb. revert pos s. induction es as [|[t v] es IH]; intros pos s; [done|].
  cbn [fold_raw]. rewrite Hb. apply IH.
Qed.

Definition lp_header (value : bytes) : bytes := varu64_bytes lp_type.LP_PACKET ++ varu64_bytes (zlen value).

Lemma lp_header_spec value : tlv_bytes lp_type.LP_PACKET value = lp_header value ++ value.
Proof. unfold tlv_bytes, lp_header. by rewrite <- app_assoc. Qed.

Lemma lp_inner_ok value rest :
  zlen (tlv_bytes lp_type.LP_PACKET value ++ rest) <= usize_max ->
  is_lp_packet (tlv_bytes lp_type.LP_PACKET value ++ rest) = true /\
  lp_inner (tlv_bytes lp_type.LP_PACKET value ++ rest) = Some (zlen (lp_header value), value).
Proof.
  intros Hl. split; [done|]. pose proof (raw_tlv_ok [] lp_type.LP_PACKET value rest ltac:(done) Hl) as H.
  change ([] ++ ?l) with l in H. change (zlen []) with 0 in H. revert H. unfold raw_tlv, lp_inner.
  destruct (varu64_at _ 0) as [[t tn]|]; [|done].
  change (checked_add 0 tn) with (if tn <=? usize_max then Some tn else None).
  destruct (tn <=? usize_max); [|done]. destruct (varu64_at _ tn) as [[l ln]|]; [|done].
  destruct (checked_add tn ln) as [p|]; [|done]. destruct (usize_of l) as [l'|]; [|done].
  destruct (checked_add p l') as [e|]; [|done]. destruct (get_range _ p e) as [v|]; [|done].
  intros [= _ -> _ ->]. do 2 f_equal. unfold value_start, lp_header. rewrite zlen_app, !zlen_varu64_bytes. lia.
Qed.

Section agree.
Context (hs : list elem) (Hsorted : lp_sorted hs)
  (Hnf : Forall (fun t => t <> lp_type.LP_FRAGMENT) (elem_types hs)).

(** Induction along the headers, each with a type the ones before do not have. *)
Lemma headers_rev_ind (P : list elem -> Prop) :
  P [] ->
  (forall hs t v, P hs -> Forall (fun x => lp_lt x t) (elem_types hs) -> t <> lp_type.LP_FRAGMENT ->
     P (hs ++ [(t, v)])) ->
  P hs.
Proof.
  intros H0 Hs. induction hs as [|[t v] l IH] using rev_ind; [done|].
  apply lp_sorted_snoc in Hsorted as [Hsorted' Hlt]. rewrite map_app, Forall_app in Hnf.
  destruct Hnf as [Hnf' Ht]. apply Forall_inv in Ht. apply Hs; auto.
Qed.

Lemma num_of_snoc T l t v :
  Forall (fun x => lp_lt x t) (elem_types l) -> T <> lp_type.LP_ACK ->
  num_of T (l ++ [(t, v)]) = if t =? T then Some (decode_be_u64 v) else num_of T l.
Proof.
  intros Hlt HT. rewrite find_elem_snoc. destruct (Z.eqb_spec t T) as [->|].
  - by rewrite (find_elem_fresh l T).
  - by rewrite option_eta.
Qed.

Lemma acks_fold :
  fold_left (fun s e => acks_step s e.1 e.2) hs (None, [])
  = (num_of lp_type.LP_TX_SEQUENCE hs, decode_be_u64 <$> all_elems lp_type.LP_ACK hs).
Proof.
  pattern hs. apply headers_rev_ind; [done|].
  clear Hsorted Hnf. intros l t v IH Hlt Ht. rewrite fold_left_app, IH. cbn [fold_left fst snd acks_step].
  rewrite num_of_snoc, all_elems_snoc, fmap_app by done.
  change 0x0348 with lp_type.LP_TX_SEQUENCE. change 0x0344 with lp_type.LP_ACK.
  destruct (Z.eqb_spec t lp_type.LP_TX_SEQUENCE) as [->|]; [by rewrite app_nil_r|].
  destruct (t =? lp_type.LP_ACK); [done|]. by rewrite app_nil_r.
Qed.

(** [frag_count] stops the fast path when it is 0 or 1. *)
Definition count_ok (l : list elem) : bool :=
  match num_of lp_type.LP_FRAG_COUNT l with Some c => negb (c <=? 1) | None => true end.

Lemma extract_fold h pos :
  if count_ok hs
  then fold_raw (extract_body h) hs pos (None, None, None, 0, 0)
       = ((num_of lp_type.LP_SEQUENCE hs, num_of lp_type.LP_FRAG_INDEX hs,
           num_of lp_type.LP_FRAG_COUNT hs, 0, 0), AtEnd)
  else (fold_raw (extract_body h) hs pos (None, None, None, 0, 0)).2 = Returned.
Proof.
  pattern hs. apply headers_rev_ind; [done|].
  clear Hsorted Hnf. intros l t v IH Hlt Ht. rewrite fold_raw_app. unfold count_ok in *.
  rewrite !num_of_snoc by done. destruct (Z.eqb_spec t lp_type.LP_FRAG_COUNT) as [->|Hc].
  - rewrite (find_elem_fresh l lp_type.LP_FRAG_COUNT) in IH by done. cbn in IH. rewrite IH. cbn.
    change (lp_type.LP_FRAG_COUNT =? 81) with false.
    change (lp_type.LP_FRAG_COUNT =? 82) with false. change (lp_type.LP_FRAG_COUNT =? 83) with true. cbn iota.
    by destruct (decode_be_u64 v <=? 1).
  - destruct (match num_of lp_type.LP_FRAG_COUNT l with Some _ => _ | None => _ end).
    2:{ destruct (fold_raw _ l _ _) as [s e]. simpl in IH. by subst e. }
    rewrite IH. cbn [fold_raw extract_body].
    change 0x51 with lp_type.LP_SEQUENCE. change 0x52 with lp_type.LP_FRAG_INDEX.
    change 0x53 with lp_type.LP_FRAG_COUNT. change 0x50 with lp_type.LP_FRAGMENT.
    destruct (Z.eqb_spec t lp_type.LP_SEQUENCE) as [->|]; [done|].
    destruct (Z.eqb_spec t lp_type.LP_FRAG_INDEX) as [->|]; [done|].
    destruct (Z.eqb_spec t lp_type.LP_FRAG_COUNT) as [->|]; [done|].
    by destruct (Z.eqb_spec t lp_type.LP_FRAGMENT).
Qed.

Definition first_fragment (l : list elem) : bool :=
  match num_of lp_type.LP_FRAG_INDEX l with Some i => i =? 0 | None => true end.

Lemma packet_fold pos :
  fold_raw packet_body hs pos None = (None, if first_fragment hs then AtEnd else Returned).
Proof.
  pattern hs. apply headers_rev_ind; [done|].
  clear Hsorted Hnf. intros l t v IH Hlt Ht. rewrite fold_raw_app, IH. unfold first_fragment in *.
  rewrite num_of_snoc by done. change 0x52 with lp_type.LP_FRAG_INDEX.
  destruct (Z.eqb_spec t lp_type.LP_FRAG_INDEX) as [->|Hi].
  - rewrite (find_elem_fresh l lp_type.LP_FRAG_INDEX) by done. cbn [fold_raw fmap option_fmap option_map].
    unfold packet_body. change (lp_type.LP_FRAG_INDEX =? 0x52) with true.
    change (lp_type.LP_FRAG_INDEX =? 0x50) with false. cbn [andb]. by destruct (decode_be_u64 v =? 0).
  - destruct (match num_of lp_type.LP_FRAG_INDEX l with Some _ => _ | None => _ end); [|done].
    cbn [fold_raw]. unfold packet_body.
    change 0x52 with lp_type.LP_FRAG_INDEX. change 0x50 with lp_type.LP_FRAGMENT.
    destruct (Z.eqb_spec t lp_type.LP_FRAG_INDEX); [done|]. cbn [andb].
    by destruct (Z.eqb_spec t lp_type.LP_FRAGMENT).
Qed.
End agree.

Lemma lp_body_sizes hs fr rest :
  zlen (tlv_bytes lp_type.LP_PACKET (elems_wire (hs ++ frag_elems fr)) ++ rest) <= usize_max ->
  zlen (elems_wire (hs ++ frag_elems fr)) <= usize_max.
Proof. intros H%zlen_body_le. lia. Qed.

(** Everything the fast paths need of an accepted packet. *)
Lemma lp_shape_wf raw hs fr rest :
  wf_bytes raw -> lp_shape raw hs fr rest -> Forall wf_elem (hs ++ frag_elems fr).
Proof.
  intros Hwf [-> Hes _ _ _]. apply wf_bytes_app in Hwf as [Hwf _]. apply Forall_app. split; [done|].
  unfold tlv_bytes in Hwf. rewrite elems_wire_app, !wf_bytes_app in Hwf. destruct Hwf as (_ & _ & _ & Hwf).
  apply wf_frag_elems. intros v ->. simpl in Hwf. rewrite elems_wire_one in Hwf.
  unfold tlv_bytes in Hwf. rewrite !wf_bytes_app in Hwf. tauto.
Qed.

Section fast.
Context (raw : bytes) (hs : list elem) (fr : option bytes) (rest : bytes)
  (Hwf : wf_bytes raw) (Hl : zlen raw <= usize_max) (Hs : lp_shape raw hs fr rest).

#[local] Abbreviation value := (elems_wire (hs ++ frag_elems fr)).

Lemma fast_inner : is_lp_packet raw = true /\ lp_inner raw = Some (zlen (lp_header value), value).
Proof. destruct Hs as [-> _ _ _ _]. by apply lp_inner_ok. Qed.

Lemma fast_scan {S} (body : S -> Z -> Z -> Z -> bytes -> option S) s :
  raw_scan body value s = fold_raw body (hs ++ frag_elems fr) 0 s.
Proof.
  apply raw_scan_elems; [by eapply lp_shape_wf|]. destruct Hs as [Hraw _ _ _ _].
  rewrite Hraw in Hl. by eapply lp_body_sizes.
Qed.

Lemma fast_acks : extract_acks raw = (tx_sequence (lp_of hs fr), acks (lp_of hs fr)).
Proof.
  unfold extract_acks. destruct fast_inner as [-> ->]. cbn [negb]. rewrite fast_scan.
  rewrite (fold_raw_pure _ acks_step) by done.
  cbn [fst]. rewrite fold_left_app, acks_fold; [|apply Hs|apply header_ok_types, Hs].
  by destruct fr.
Qed.

Lemma lp_head_byte : exists tl, raw = 0x64 :: tl.
Proof. destruct Hs as [-> _ _ _ _]. by eexists. Qed.

Lemma fast_packet :
  ndn_packet_bytes raw =
    match frag_index (lp_of hs fr) with
    | Some i => if i =? 0 then fr else None
    | None => fr
    end.
Proof.
  destruct fast_inner as [_ Hi]. destruct lp_head_byte as [tl Hr]. unfold ndn_packet_bytes.
  rewrite Hr at 1. cbn [Z.eqb Pos.eqb orb]. rewrite Hi, fast_scan.
  rewrite fold_raw_app, packet_fold; [|apply Hs|apply header_ok_types, Hs].
  unfold first_fragment. cbn [frag_index lp_of].
  destruct (num_of lp_type.LP_FRAG_INDEX hs) as [i|]; [destruct (i =? 0)|]; by destruct fr.
Qed.

(** Where the fragment starts in [raw]. *)
Lemma fragment_slice f :
  fr = Some f ->
  let start := zlen (lp_header value) + value_start (zlen (elems_wire hs)) lp_type.LP_FRAGMENT f in
  slice raw start (start + zlen f) = f /\ 0 <= start /\ start + zlen f <= zlen raw.
Proof.
  intros -> start. destruct Hs as [Hraw _ _ _ _]. subst start. rewrite lp_header_spec in Hraw.
  set (hd := lp_header _) in *. cbn [frag_elems] in Hraw.
  rewrite elems_wire_app, elems_wire_one in Hraw. unfold tlv_bytes in Hraw. cbn [fst snd] in Hraw.
  set (pre := hd ++ elems_wire hs ++ varu64_bytes lp_type.LP_FRAGMENT ++ varu64_bytes (zlen f)).
  assert (raw = pre ++ f ++ rest) as -> by (rewrite Hraw; unfold pre; by rewrite <- !app_assoc).
  assert (zlen hd + value_start (zlen (elems_wire hs)) lp_type.LP_FRAGMENT f = zlen pre) as ->.
  { unfold pre, value_start. rewrite !zlen_app, !zlen_varu64_bytes. lia. }
  rewrite slice_mid by done. rewrite !zlen_app. pose proof (zlen_nonneg rest). pose proof (zlen_nonneg pre).
  split_conj; [done|lia..].
Qed.

Lemma extract_body_fragment h sq fi fc fs fe pos end_ v :
  h + pos <= usize_max -> h + end_ <= usize_max ->
  extract_body h (sq, fi, fc, fs, fe) lp_type.LP_FRAGMENT pos end_ v
  = Some (sq, fi, fc, h + pos, h + end_).
Proof.
  intros. unfold extract_body. change (lp_type.LP_FRAGMENT =? 0x51) with false.
  change (lp_type.LP_FRAGMENT =? 0x52) with false. change (lp_type.LP_FRAGMENT =? 0x53) with false.
  change (lp_type.LP_FRAGMENT =? 0x50) with true. cbn iota. by rewrite !checked_add_ok.
Qed.

Lemma fast_fragment :
  match extract_fragment raw with
  | Some h => frag_count (lp_of hs fr) = Some (fh_frag_count h) /\ 1 < fh_frag_count h /\
      sequence (lp_of hs fr) = Some (fh_sequence h) /\ frag_index (lp_of hs fr) = Some (fh_frag_index h) /\
      slice raw (frag_start h) (frag_end h) = default [] fr
  | None => LpPacket.is_fragmented (lp_of hs fr) = false \/
      sequence (lp_of hs fr) = None \/ frag_index (lp_of hs fr) = None
  end.
Proof.
  destruct fast_inner as [Hlp Hi]. unfold extract_fragment. rewrite Hlp, Hi. cbn [negb]. rewrite fast_scan, fold_raw_app.
  pose proof (extract_fold hs (ls_sorted _ _ _ _ Hs) (header_ok_types _ (ls_headers _ _ _ _ Hs))
    (zlen (lp_header value)) 0) as He.
  unfold count_ok in He. unfold LpPacket.is_fragmented. cbn [frag_count sequence frag_index lp_of].
  destruct (num_of lp_type.LP_FRAG_COUNT hs) as [c|] eqn:Hc.
  - destruct (Z.leb_spec c 1) as [Hc1|Hc1]; cbn [negb] in He.
    + destruct (fold_raw _ hs _ _) as [[[[[? ?] ?] ?] ?] e]. simpl in He. subst e.
      left. apply Z.ltb_ge. lia.
    + rewrite He. pose proof fragment_slice as Hfs. destruct fr as [f|]; cbn [frag_elems fold_raw app].
      * destruct (Hfs f eq_refl) as (Hsl & Hs0 & Hs1). clear Hfs. cbn [frag_elems] in *.
        rewrite Z.add_0_l, extract_body_fragment by (unfold value_end; pose proof (zlen_nonneg f); lia).
        cbn [frag_start frag_end default]. unfold value_end in *. rewrite Z.add_assoc.
        destruct (num_of lp_type.LP_SEQUENCE hs) as [sq|]; [|by auto].
        destruct (num_of lp_type.LP_FRAG_INDEX hs) as [ix|]; [|by auto]. by split_conj.
      * destruct (num_of lp_type.LP_SEQUENCE hs) as [sq|]; [|by auto].
        destruct (num_of lp_type.LP_FRAG_INDEX hs) as [ix|]; [|by auto]. by split_conj.
  - rewrite He. pose proof fragment_slice as Hfs. destruct fr as [f|]; cbn [frag_elems fold_raw app].
    + destruct (Hfs f eq_refl) as (_ & Hs0 & Hs1). clear Hfs. cbn [frag_elems] in *.
      rewrite Z.add_0_l, extract_body_fragment by (unfold value_end; pose proof (zlen_nonneg f); lia).
      destruct (num_of lp_type.LP_SEQUENCE hs), (num_of lp_type.LP_FRAG_INDEX hs); by left.
    + destruct (num_of lp_type.LP_SEQUENCE hs), (num_of lp_type.LP_FRAG_INDEX hs); by left.
Qed.
End fast.

(** *** The fast path on arbitrary bytes *)

Lemma read_varu64_count buf v n : read_varu64 buf = Ok (v, n) -> 1 <= n.
Proof.
  unfold read_varu64. destruct buf as [|b buf]; [done|].
  repeat case_match; intros; simplify_eq; lia.
Qed.

Lemma varu64_at_count l pos v n : varu64_at l pos = Some (v, n) -> 1 <= n.
Proof.
  unfold varu64_at. destruct (get_from l pos) as [s|]; [|done].
  destruct (read_varu64 s) as [[v' n']|] eqn:E; [|done]. intros [= <- <-]. by eapply read_varu64_count.
Qed.

Lemma checked_add_inv a b c : checked_add a b = Some c -> c = a + b.
Proof. unfold checked_add. destruct (_ <=? _); [|done]. by intros [= <-]. Qed.

Lemma raw_tlv_bounds inner pos t start end_ val :
  raw_tlv inner pos = Some (t, start, end_, val) ->
  pos + 2 <= start <= end_ /\ end_ <= zlen inner /\ val = slice inner start end_.
Proof.
  unfold raw_tlv. destruct (varu64_at inner pos) as [[t' tn]|] eqn:E1; [|done].
  destruct (checked_add pos tn) as [p1|] eqn:E2; [|done].
  destruct (varu64_at inner p1) as [[l ln]|] eqn:E3; [|done].
  destruct (checked_add p1 ln) as [p2|] eqn:E4; [|done].
  destruct (usize_of l) as [l'|]; [|done]. destruct (checked_add p2 l') as [e|] eqn:E5; [|done].
  unfold get_range. destruct (_ && _) eqn:E6; [|done]. intros [= <- <- <- <-].
  apply andb_true_iff in E6 as [H1%Z.leb_le H2%Z.leb_le].
  apply varu64_at_count in E1, E3. apply checked_add_inv in E2, E4. split_conj; (done || lia).
Qed.

(** A property the body keeps holds at the end, and the loop ends within its
    fuel. *)
Lemma raw_while_inv {S} (body : S -> Z -> Z -> Z -> bytes -> option S) (P : S -> Prop) inner fuel pos s :
  (forall s t start end_ s', P s -> 0 <= start <= end_ -> end_ <= zlen inner ->
     body s t start end_ (slice inner start end_) = Some s' -> P s') ->
  P s -> 0 <= pos <= zlen inner -> zlen inner - pos < Z.of_nat fuel ->
  P (raw_while fuel body inner pos s).1 /\ (raw_while fuel body inner pos s).2 <> OutOfFuel.
Proof.
  intros Hb. revert pos s. induction fuel as [|fuel IH]; intros pos s HP H0 Hf; cbn [raw_while].
  - lia.
  - destruct (pos <? zlen inner); [|done].
    destruct (raw_tlv inner pos) as [[[[t start] end_] val]|] eqn:E; [|done].
    apply raw_tlv_bounds in E as (E1 & E2 & ->). destruct (body s t start end_ _) as [s'|] eqn:Eb; [|done].
    apply IH; [|lia..]. eapply Hb; [exact HP| | |exact Eb]; lia.
Qed.

Lemma lp_inner_bounds raw h inner :
  lp_inner raw = Some (h, inner) -> 0 <= h /\ h + zlen inner <= zlen raw.
Proof.
  unfold lp_inner. destruct (varu64_at raw 0) as [[t tn]|] eqn:E1; [|done].
  destruct (varu64_at raw tn) as [[l ln]|] eqn:E3; [|done].
  destruct (checked_add tn ln) as [p2|] eqn:E4; [|done].
  destruct (usize_of l) as [l'|]; [|done]. destruct (checked_add p2 l') as [e|] eqn:E5; [|done].
  unfold get_range. destruct (_ && _) eqn:E6; [|done]. intros [= <- <-].
  apply andb_true_iff in E6 as [H1%Z.leb_le H2%Z.leb_le].
  apply varu64_at_count in E1, E3. apply checked_add_inv in E4.
  rewrite zlen_slice; lia.
Qed.

Lemma extract_fragment_bounds raw h :
  extract_fragment raw = Some h -> 0 <= frag_start h <= frag_end h /\ frag_end h <= zlen raw.
Proof.
  unfold extract_fragment. destruct (is_lp_packet raw); [|done]. cbn [negb].
  destruct (lp_inner raw) as [[hl inner]|] eqn:Hi; [|done]. apply lp_inner_bounds in Hi as [Hh Hle].
  unfold raw_scan.
  pose proof (raw_while_inv (extract_body hl)
    (fun s => 0 <= s.1.2 <= s.2 /\ s.2 <= zlen raw) inner (S (length inner)) 0
    (None, None, None, 0, 0)) as H.
  destruct (raw_while _ _ _ _ _) as [[[[[sq fi] fc] fs] fe] e]. destruct H as [H _].
  - intros [[[[sq' fi'] fc'] fs'] fe'] t start end_ s' HP Hs He. cbn [fst snd] in HP. unfold extract_body.
    repeat (match goal with |- context [if ?c then _ else _] => destruct c end);
      try (intros [= <-]; cbn [fst snd]; lia); try done.
    destruct (checked_add hl start) as [a|] eqn:Ea; [|done].
    destruct (checked_add hl end_) as [b|] eqn:Eb; [|done].
    apply checked_add_inv in Ea, Eb. intros [= <-]. cbn [fst snd]. lia.
  - cbn. pose proof (zlen_nonneg raw). lia.
  - pose proof (zlen_nonneg inner). lia.
  - unfold zlen. lia.
  - destruct e; try done. destruct sq, fi, fc; try done. intros [= <-]. done.
Qed.

(** Its numbers are [u64]s. *)
Lemma extract_fragment_numbers raw h :
  wf_bytes raw -> extract_fragment raw = Some h ->
  is_u64 (fh_sequence h) /\ is_u64 (fh_frag_index h) /\ is_u64 (fh_frag_count h).
Proof.
  intros Hwf. unfold extract_fragment. destruct (is_lp_packet raw); [|done]. cbn [negb].
  destruct (lp_inner raw) as [[hl inner]|] eqn:Hi; [|done].
  assert (wf_bytes inner) as Hin.
  { revert Hi. unfold lp_inner, get_range. repeat (case_match; try done). intros [= _ <-]. simplify_eq. by apply wf_bytes_slice. }
  apply lp_inner_bounds in Hi as [Hh Hle]. unfold raw_scan.
  pose proof (raw_while_inv (extract_body hl)
    (fun s => (forall x, s.1.1.1.1 = Some x -> is_u64 x) /\ (forall x, s.1.1.1.2 = Some x -> is_u64 x) /\
       (forall x, s.1.1.2 = Some x -> is_u64 x)) inner (S (length inner)) 0 (None, None, None, 0, 0)) as H.
  destruct (raw_while _ _ _ _ _) as [[[[[sq fi] fc] fs] fe] e]. destruct H as [H _].
  - intros [[[[sq' fi'] fc'] fs'] fe'] t start end_ s' HP Hs He. cbn [fst snd] in HP.
    pose proof (decode_be_u64_range _ (wf_bytes_slice inner start end_ Hin)) as Hr. unfold extract_body.
    repeat (match goal with |- context [if ?c then _ else _] => destruct c end);
      try (intros [= <-]; cbn [fst snd]; destruct HP as (? & ? & ?); split_conj; try done; by intros x [= <-]); try done.
    destruct (checked_add hl start) as [a|]; [|done]. destruct (checked_add hl end_) as [b|]; [|done].
    by intros [= <-].
  - done.
  - pose proof (zlen_nonneg inner). lia.
  - unfold zlen. lia.
  - destruct e; try done. destruct sq, fi, fc; try done. intros [= <-]. cbn in *. destruct H as (? & ? & ?). auto.
Qed.

(** ** Splicing a header *)

(** The headers with [typ] replaced, in order. *)
Fixpoint place (typ : Z) (value : bytes) (hs : list elem) : list elem :=
  match hs with
  | [] => [(typ, value)]
  | e :: hs => if typ <? e.1 then (typ, value) :: e :: hs else e :: place typ value hs
  end.

Abbreviation without typ hs := (filter (fun e : elem => e.1 <> typ) hs).

Lemma elem_types_place typ value hs t :
  t ∈ elem_types (place typ value hs) <-> t = typ \/ t ∈ elem_types hs.
Proof.
  induction hs as [|e hs IH]; cbn [place map]; [set_solver|].
  destruct (typ <? e.1); cbn [map]; [set_solver|]. rewrite !elem_of_cons, IH. tauto.
Qed.

Lemma place_sorted typ value hs :
  lp_sorted hs -> typ ∉ elem_types hs -> lp_sorted (place typ value hs).
Proof.
  induction hs as [|e hs IH]; cbn [place map]; intros Hs Hn; [repeat constructor|].
  inversion_clear Hs as [|?? Hs' Hf]. apply not_elem_of_cons in Hn as [Hne Hn].
  destruct (Z.ltb_spec typ e.1) as [Hlt|Hge]; cbn [map fst].
  - constructor; [by constructor|]. constructor; [by left|].
    eapply Forall_impl; [exact Hf|]. intros x Hx. unfold lp_lt in *. lia.
  - constructor; [by apply IH|]. apply Forall_forall. intros x [->|Hx]%elem_types_place.
    + left. lia.
    + rewrite Forall_forall in Hf. by apply Hf.
Qed.

Lemma find_elem_place T typ value hs :
  typ ∉ elem_types hs ->
  find_elem T (place typ value hs) = if typ =? T then Some value else find_elem T hs.
Proof.
  induction hs as [|e hs IH]; cbn [place map]; intros Hn.
  - rewrite find_elem_cons. cbn [fst snd]. by destruct (Z.eqb_spec typ T); [rewrite decide_True|rewrite decide_False].
  - apply not_elem_of_cons in Hn as [Hne Hn]. destruct (typ <? e.1).
    + rewrite find_elem_cons. cbn [fst snd].
      by destruct (Z.eqb_spec typ T); [rewrite decide_True|rewrite decide_False].
    + rewrite !find_elem_cons, IH by done. destruct (decide (e.1 = T)) as [<-|]; [|done].
      by destruct (Z.eqb_spec typ e.1).
Qed.

Lemma all_elems_cons T e es :
  all_elems T (e :: es) = (if e.1 =? T then [e.2] else []) ++ all_elems T es.
Proof. unfold all_elems. simpl. by destruct (e.1 =? T). Qed.

Lemma all_elems_place T typ value hs :
  typ <> T -> all_elems T (place typ value hs) = all_elems T hs.
Proof.
  intros Hne. induction hs as [|e hs IH]; cbn [place].
  - rewrite all_elems_cons. cbn [fst]. by destruct (Z.eqb_spec typ T).
  - destruct (typ <? e.1); rewrite !all_elems_cons, ?IH; [|done].
    cbn [fst]. by destruct (Z.eqb_spec typ T).
Qed.

Lemma find_elem_without T typ hs : T <> typ -> find_elem T (without typ hs) = find_elem T hs.
Proof.
  intros Hne. induction hs as [|e hs IH]; [done|]. rewrite filter_cons, find_elem_cons.
  destruct (decide (e.1 <> typ)) as [Hd|Hd].
  - by rewrite find_elem_cons, IH.
  - rewrite IH, decide_False; [done|]. intros <-. by apply Hd.
Qed.

Lemma all_elems_without T typ hs : T <> typ -> all_elems T (without typ hs) = all_elems T hs.
Proof.
  intros Hne. induction hs as [|e hs IH]; [done|]. rewrite filter_cons, (all_elems_cons _ e).
  destruct (decide (e.1 <> typ)) as [Hd|Hd]; [by rewrite all_elems_cons, IH|].
  destruct (Z.eqb_spec e.1 T) as [<-|]; [by destruct Hd|done].
Qed.

Lemma forall_without (P : elem -> Prop) typ hs : Forall P hs -> Forall P (without typ hs).
Proof.
  rewrite !Forall_forall. intros H x [_ Hx]%list_elem_of_filter. by apply H.
Qed.

Lemma without_types typ hs : typ ∉ elem_types (without typ hs).
Proof. rewrite list_elem_of_fmap. intros (e & -> & [He _]%list_elem_of_filter). done. Qed.

Lemma without_sorted typ hs : lp_sorted hs -> lp_sorted (without typ hs).
Proof.
  induction hs as [|e hs IH]; intros Hs; [constructor|]. inversion_clear Hs as [|?? Hs' Hf].
  rewrite filter_cons. destruct (decide _); [|by apply IH]. cbn [map]. constructor; [by apply IH|].
  rewrite Forall_forall in Hf. apply Forall_forall. intros x (e' & -> & [_ He]%list_elem_of_filter)%list_elem_of_fmap.
  apply Hf. by apply list_elem_of_fmap_2.
Qed.

(** Setting the field of [typ], which is what splicing its header amounts to. *)
Lemma lp_of_place hs fr typ value :
  header_ok (typ, value) -> typ <> lp_type.LP_ACK -> typ <> lp_type.LP_CACHE_POLICY ->
  LpPacket.decode_field (lp_of hs fr) typ value = Ok (lp_of (place typ value (without typ hs)) fr).
Proof.
  intros [Hf Hn Htk _ Hk] Ha Hcp. cbn [fst snd] in *. pose proof (without_types typ hs) as Hw.
  assert (forall T, find_elem T (place typ value (without typ hs))
    = if typ =? T then Some value else find_elem T hs) as Hfind.
  { intros T. rewrite find_elem_place by done. destruct (Z.eqb_spec typ T); [done|]. by apply find_elem_without. }
  unfold LpPacket.decode_field, lp_of. rewrite !Hfind, all_elems_place, all_elems_without by done. clear Hfind Hw.
  destruct (Z.eqb_spec typ lp_type.LP_FRAGMENT); [done|].
  repeat (case_type; [eval_codes; cbn iota; try done|]).
  - specialize (Hn eq_refl). destruct (decode_nack_header value) eqn:E; [simpl; by rewrite E|done].
  - specialize (Htk eq_refl). destruct (Z.eqb_spec (zlen value) 0) as [Hz|]; [|done].
    by apply zlen_0_nil in Hz.
  - repeat match goal with
    | |- context [typ =? ?c] =>
        lazymatch c with packet_type.INTEREST => fail | packet_type.DATA => fail | _ => idtac end;
        destruct (Z.eqb_spec typ c); [done|]
    end.
    destruct Hk as [Hk|(Hi & Hd & Hc)].
    + exfalso. revert Hk. unfold known_lp_types. set_solver.
    + destruct (Z.eqb_spec typ packet_type.INTEREST); [done|]. destruct (Z.eqb_spec typ packet_type.DATA); [done|].
      by rewrite Hc.
Qed.

Lemma split_body_elems typ hs fr :
  Forall wf_elem (hs ++ frag_elems fr) -> zlen (elems_wire (hs ++ frag_elems fr)) <= usize_max ->
  Forall (fun t => t <> lp_type.LP_FRAGMENT) (elem_types hs) ->
  split_lp_body typ (elems_wire (hs ++ frag_elems fr))
  = Some (without typ hs, (fun v => (lp_type.LP_FRAGMENT, v)) <$> fr).
Proof.
  intros Hes Hl Hnf. unfold split_lp_body. rewrite scan_elems by done. clear Hes Hl.
  rewrite fold_flow_app.
  assert (fold_flow (A := Empty_set) (fun s t v =>
      let '(headers, fragment_tlv) := s in
      Ok (Next (if t =? lp_type.LP_FRAGMENT then (headers, Some (t, v))
                else if t =? typ then s
                else (headers ++ [(t, v)], fragment_tlv)))) hs ([], None)
    = Ok (Next (without typ hs, None))) as ->; [|by destruct fr].
  induction hs as [|[t v] hs IH] using rev_ind; [done|].
  rewrite map_app, Forall_app in Hnf. destruct Hnf as [Hnf Ht]. apply Forall_inv in Ht.
  rewrite fold_flow_app, IH, filter_app by done. cbn [fold_flow fst] in *.
  destruct (Z.eqb_spec t lp_type.LP_FRAGMENT); [done|]. rewrite filter_cons, filter_nil. cbn [fst].
  destruct (Z.eqb_spec t typ); [rewrite decide_False by auto; by rewrite app_nil_r|by rewrite decide_True].
Qed.

(** What the size of the body bounds. *)
Lemma elems_cons_sizes t v es :
  wf_elem (t, v) -> zlen (elems_wire ((t, v) :: es)) <= usize_max ->
  is_u64 t /\ zlen v <= u64_max /\ zlen (elems_wire es) <= usize_max.
Proof.
  intros [Ht _]. rewrite zlen_elems_cons. unfold value_end, value_start.
  pose proof (varu64_size_range t). pose proof (varu64_size_range (zlen v)). pose proof (zlen_nonneg v).
  pose proof (zlen_nonneg (elems_wire es)). unfold_bounds. simpl in *. lia.
Qed.

Lemma splice_rest typ value hs w :
  Forall wf_elem hs -> zlen (elems_wire hs) <= usize_max ->
  exists w', fold_left (splice_step typ value) hs (w, true) = (w', true) /\
    TlvWriter.buf w' = TlvWriter.buf w ++ elems_wire hs.
Proof.
  intros Hes. revert w. induction Hes as [|[t v] hs Hwf _ IH]; intros w Hl.
  - exists w. by rewrite app_nil_r.
  - destruct (elems_cons_sizes _ _ _ Hwf Hl) as (? & ? & Hl').
    destruct (IH (TlvWriter.write_tlv w t v) Hl') as (w' & Hw & Hb). exists w'. split; [done|].
    by rewrite Hb, buf_write_tlv, elems_wire_cons, app_assoc.
Qed.

Lemma write_fragment_wire fr w :
  zlen (elems_wire (frag_elems fr)) <= usize_max ->
  TlvWriter.buf (match (fun v : bytes => (lp_type.LP_FRAGMENT, v)) <$> fr with
                 | Some (t, v) => TlvWriter.write_tlv w t v | None => w end)
  = TlvWriter.buf w ++ elems_wire (frag_elems fr).
Proof.
  destruct fr as [f|]; cbn [fmap option_fmap option_map frag_elems]; [|by rewrite app_nil_r].
  rewrite elems_wire_one, zlen_tlv_bytes. cbn [fst snd]. intros Hl.
  pose proof (tlv_size_bounds lp_type.LP_FRAGMENT (zlen f) (zlen_nonneg f)).
  apply buf_write_tlv; [done|unfold_bounds; lia].
Qed.

Lemma write_spliced_wire w typ value hs fr :
  is_u64 typ -> zlen value <= u64_max -> Forall wf_elem hs ->
  zlen (elems_wire hs) <= usize_max -> zlen (elems_wire (frag_elems fr)) <= usize_max ->
  TlvWriter.buf (write_spliced w typ value hs ((fun v => (lp_type.LP_FRAGMENT, v)) <$> fr))
  = TlvWriter.buf w ++ elems_wire (place typ value hs ++ frag_elems fr).
Proof.
  intros Ht Hv Hes Hl Hfl. unfold write_spliced.
  revert w Hl. induction Hes as [|[t v] hs Hwf Hes IH]; intros w Hl.
  - cbn [fold_left negb place]. rewrite write_fragment_wire by done. rewrite buf_write_tlv by done.
    by rewrite elems_wire_app, elems_wire_one, app_assoc.
  - destruct (elems_cons_sizes _ _ _ Hwf Hl) as (? & ? & Hl').
    cbn [fold_left]. unfold splice_step at 2. cbn [negb andb place fst]. destruct (typ <? t) eqn:E.
    + destruct (splice_rest typ value hs (TlvWriter.write_tlv (TlvWriter.write_tlv w typ value) t v) Hes Hl')
        as (w' & -> & Hw').
      cbn [negb]. rewrite write_fragment_wire, Hw', !buf_write_tlv by done. cbn [app].
      by rewrite !elems_wire_cons, elems_wire_app, <- !app_assoc.
    + rewrite IH by done. rewrite buf_write_tlv by done. cbn [app]. by rewrite elems_wire_cons, <- app_assoc.
Qed.

Section splice.
Context (raw : bytes) (hs : list elem) (fr : option bytes) (rest : bytes) (typ : Z) (value : bytes)
  (Hwf : wf_bytes raw) (Hv : wf_bytes value) (Hl : zlen raw + zlen value + 100 <= usize_max)
  (Hs : lp_shape raw hs fr rest) (Hok : header_ok (typ, value)) (Ht : is_u32 typ).

Lemma splice_sizes :
  zlen (elems_wire (hs ++ frag_elems fr)) + zlen value + 100 <= usize_max.
Proof.
  destruct Hs as [Hraw _ _ _ _]. rewrite Hraw, zlen_app, zlen_tlv_bytes in Hl.
  pose proof (tlv_size_bounds lp_type.LP_PACKET _ (zlen_nonneg (elems_wire (hs ++ frag_elems fr)))).
  pose proof (zlen_nonneg rest). lia.
Qed.

Lemma zlen_without : zlen (elems_wire (without typ hs)) <= zlen (elems_wire hs).
Proof.
  clear. induction hs as [|[t v] l IH]; [done|]. rewrite filter_cons.
  assert (0 <= value_end 0 t v) by (unfold value_end, value_start; pose proof (varu64_size_range t);
    pose proof (varu64_size_range (zlen v)); pose proof (zlen_nonneg v); lia).
  destruct (decide _); rewrite !zlen_elems_cons; lia.
Qed.

Lemma zlen_place l : zlen (elems_wire (place typ value l)) = zlen (elems_wire l) + value_end 0 typ value.
Proof.
  induction l as [|[t v] l IH]; cbn [place]; [rewrite zlen_elems_cons; lia|].
  destruct (_ <? _); rewrite !zlen_elems_cons; lia.
Qed.

Lemma spliced_size :
  zlen (elems_wire (place typ value (without typ hs) ++ frag_elems fr)) + 18 <= usize_max.
Proof.
  pose proof splice_sizes as Hz. rewrite zlen_elems_wire_app, zlen_place. rewrite zlen_elems_wire_app in Hz.
  pose proof zlen_without. unfold value_end, value_start.
  pose proof (varu64_size_range typ). pose proof (varu64_size_range (zlen value)). lia.
Qed.

Lemma splice_wire :
  splice_lp_header raw typ value
  = tlv_bytes lp_type.LP_PACKET (elems_wire (place typ value (without typ hs) ++ frag_elems fr)).
Proof.
  pose proof splice_sizes as Hz. pose proof (lp_shape_wf _ _ _ _ Hwf Hs) as Hes.
  pose proof zlen_without as Hw. rewrite zlen_elems_wire_app in Hz.
  pose proof (zlen_nonneg (elems_wire hs)). pose proof (zlen_nonneg (elems_wire (frag_elems fr))). pose proof (zlen_nonneg value).
  unfold splice_lp_header. destruct (fast_inner raw hs fr rest Hwf ltac:(lia) Hs) as [-> _]. cbn [negb].
  pose proof Hs as [Hraw Hwe _ Hhok _].
  destruct (first_tlv_ok lp_type.LP_PACKET (elems_wire (hs ++ frag_elems fr)) rest) as (r & Hf & _);
    [done|by rewrite <- Hraw|rewrite <- Hraw; lia|]. rewrite <- Hraw in Hf. rewrite Hf. cbn [negb Z.eqb].
  change (lp_type.LP_PACKET =? lp_type.LP_PACKET) with true. cbn [negb].
  rewrite split_body_elems; [|done|rewrite zlen_elems_wire_app; lia|by apply header_ok_types].
  apply lp_nested_wire.
  - rewrite write_spliced_wire; [done|unfold_bounds; simpl in *; lia|unfold_bounds; lia| |lia..].
    by apply forall_without.
  - pose proof spliced_size. unfold_bounds. lia.
Qed.

Lemma place_forall (P : elem -> Prop) l : Forall P l -> P (typ, value) -> Forall P (place typ value l).
Proof.
  intros Hf Hp. induction Hf as [|e l He Hf IH]; cbn [place]; [by repeat constructor|].
  destruct (_ <? _); repeat constructor; try done.
Qed.

Lemma splice_decodes :
  typ <> lp_type.LP_ACK -> typ <> lp_type.LP_CACHE_POLICY ->
  LpPacket.decode (splice_lp_header raw typ value) = LpPacket.decode_field (lp_of hs fr) typ value /\
  is_ok (LpPacket.decode_field (lp_of hs fr) typ value).
Proof.
  intros Ha Hcp. rewrite (lp_of_place hs fr typ value Hok Ha Hcp), splice_wire. split; [|done].
  pose proof (lp_shape_wf _ _ _ _ Hwf Hs) as Hes. pose proof Hs as [Hraw Hwe Hso Hhok Hpay].
  apply Forall_app in Hes as [_ Hfe]. apply lp_wire_decodes.
  - apply place_forall; [by apply forall_without|done].
  - intros v ->. by apply Forall_inv in Hfe as [_ ?].
  - apply place_sorted; [by apply without_sorted|apply without_types].
  - apply place_forall; [by apply forall_without|done].
  - destruct Hpay as [?|Hp]; [by left|right]. by rewrite all_elems_place, all_elems_without.
  - pose proof spliced_size. rewrite zlen_tlv_bytes.
    pose proof (tlv_size_bounds lp_type.LP_PACKET _
      (zlen_nonneg (elems_wire (place typ value (without typ hs) ++ frag_elems fr)))). lia.
Qed.

(** The shape of the spliced wire, for the extractors. *)
Lemma splice_shape :
  typ <> lp_type.LP_ACK -> lp_shape (splice_lp_header raw typ value) (place typ value (without typ hs)) fr [] /\
  wf_bytes (splice_lp_header raw typ value) /\ zlen (splice_lp_header raw typ value) <= usize_max.
Proof.
  intros Ha. rewrite splice_wire. pose proof (lp_shape_wf _ _ _ _ Hwf Hs) as Hes.
  pose proof Hs as [Hraw Hwe Hso Hhok Hpay]. apply Forall_app in Hes as [_ Hfe].
  assert (Forall wf_elem (place typ value (without typ hs))) by (apply place_forall; [by apply forall_without|done]).
  split_conj.
  - split; [by rewrite app_nil_r|done|..].
    + apply place_sorted; [by apply without_sorted|apply without_types].
    + apply place_forall; [by apply forall_without|done].
    + destruct Hpay as [?|Hp]; [by left|right]. by rewrite all_elems_place, all_elems_without.
  - apply wf_tlv_bytes; [done|]. by apply wf_elems_wire, Forall_app.
  - pose proof spliced_size. rewrite zlen_tlv_bytes.
    pose proof (tlv_size_bounds lp_type.LP_PACKET _
      (zlen_nonneg (elems_wire (place typ value (without typ hs) ++ frag_elems fr)))). lia.
Qed.
End splice.

(** [extract_lp_header] reads the header back. *)
Lemma extract_header_shape raw hs fr rest typ :
  wf_bytes raw -> zlen raw <= usize_max -> lp_shape raw hs fr rest -> typ <> lp_type.LP_FRAGMENT ->
  extract_lp_header raw typ = find_elem typ hs.
Proof.
  intros Hwf Hl Hs Ht. unfold extract_lp_header.
  destruct (fast_inner raw hs fr rest Hwf Hl Hs) as [-> _]. cbn [negb].
  pose proof (lp_shape_wf _ _ _ _ Hwf Hs) as Hes. pose proof Hs as [Hraw Hwe _ Hhok _].
  destruct (first_tlv_ok lp_type.LP_PACKET (elems_wire (hs ++ frag_elems fr)) rest) as (r & Hf & _);
    [done|by rewrite <- Hraw|by rewrite <- Hraw|]. rewrite <- Hraw in Hf. rewrite Hf.
  change (lp_type.LP_PACKET =? lp_type.LP_PACKET) with true. cbn [negb].
  unfold search. rewrite scan_elems; [|done|rewrite Hraw in Hl; by eapply lp_body_sizes].
  apply header_ok_types in Hhok. clear -Hhok Ht.
  induction hs as [|[t v] hs IH]; cbn [app fold_flow].
  - destruct fr as [f|]; [|done]. cbn [frag_elems fold_flow].
    destruct (Z.eqb_spec lp_type.LP_FRAGMENT typ); [by subst|]. by eval_codes.
  - apply Forall_cons in Hhok as [Hne Hhok]. rewrite find_elem_cons. cbn [fst snd] in *.
    destruct (Z.eqb_spec t typ) as [->|]; [by rewrite decide_True|]. rewrite decide_False by done.
    destruct (Z.eqb_spec t lp_type.LP_FRAGMENT); [done|]. by apply IH.
Qed.

(** ** Peeking the name *)

Lemma name_wire_elems (n : Name) : name_wire n = elems_wire (map (fun c => (typ c, value c)) n).
Proof. unfold name_wire, elems_wire. by rewrite map_map. Qed.

Lemma peek_components_name n :
  wf_name n -> zlen (name_wire n) <= usize_max -> peek_components (name_wire n) = Some (map value n).
Proof.
  intros Hn Hl. unfold peek_components. rewrite name_wire_elems in *.
  rewrite raw_scan_elems; [| |done].
  2:{ apply Forall_map. eapply Forall_impl; [exact Hn|]. by intros c [? ?]. }
  rewrite (fold_raw_pure _ (fun cs (_ : Z) v => cs ++ [v])) by done. f_equal. clear.
  assert (forall acc : list bytes, fold_left (fun s e => s ++ [e.2]) (map (fun c => (typ c, value c)) n) acc
    = acc ++ map value n) as H; [|by rewrite H].
  induction n as [|c n IH]; intros acc; cbn [map fold_left snd]; [by rewrite app_nil_r|].
  by rewrite IH, <- app_assoc.
Qed.

Lemma get_from_0 l : get_from l 0 = Some l.
Proof. unfold get_from. by destruct (Z.leb_spec 0 (zlen l)); [|zlen_lia]. Qed.

Lemma varu64_at_0 v post : is_u64 v -> varu64_at (varu64_bytes v ++ post) 0 = Some (v, varu64_size v).
Proof. apply (varu64_at_ok []). Qed.

Lemma varu64_at_1 t l post :
  is_u64 l -> varu64_at (varu64_bytes t ++ varu64_bytes l ++ post) (varu64_size t) = Some (l, varu64_size l).
Proof. rewrite <- (zlen_varu64_bytes t). apply varu64_at_ok. Qed.

Lemma peek_packet lp_wire T n X rest :
  T = 0x05 \/ T = 0x06 -> wf_name n ->
  ndn_packet_bytes lp_wire = Some (tlv_bytes T (tlv_bytes tlv_type.NAME (name_wire n) ++ X) ++ rest) ->
  zlen (tlv_bytes T (tlv_bytes tlv_type.NAME (name_wire n) ++ X) ++ rest) <= usize_max ->
  peek_lp_name lp_wire = Some (mkPeeked (T =? 0x05) (map value n)).
Proof.
  intros HT Hn Hb Hl. unfold peek_lp_name. rewrite Hb.
  pose proof (zlen_body_le _ _ _ Hl) as Hl1. rewrite zlen_app in Hl1. pose proof (zlen_nonneg X).
  assert (zlen (name_wire n) + 2 <= usize_max) as Hl2.
  { apply (zlen_body_le tlv_type.NAME (name_wire n) []). rewrite app_nil_r. lia. }
  rewrite zlen_tlv_bytes in Hl1. unfold tlv_size in Hl1.
  pose proof (varu64_size_range T). pose proof (varu64_size_range tlv_type.NAME).
  set (body := tlv_bytes tlv_type.NAME (name_wire n) ++ X) in *.
  pose proof (varu64_size_range (zlen body)). pose proof (varu64_size_range (zlen (name_wire n))).
  pose proof (zlen_nonneg body). pose proof (zlen_nonneg rest). pose proof (zlen_nonneg (name_wire n)).
  rewrite zlen_app, zlen_tlv_bytes in Hl. unfold tlv_size in Hl.
  assert (is_u64 T) by (destruct HT as [-> | ->]; done).
  unfold tlv_bytes at 1 2 3. rewrite <- !app_assoc.
  rewrite varu64_at_0, varu64_at_1, checked_add_ok by (done || (unfold_bounds; lia)).
  replace (varu64_size T + varu64_size (zlen body)) with (zlen (varu64_bytes T ++ varu64_bytes (zlen body)))
    by by rewrite zlen_app, !zlen_varu64_bytes.
  rewrite (app_assoc (varu64_bytes T)), get_from_app. unfold body at 1 2 3, tlv_bytes. rewrite <- !app_assoc.
  rewrite varu64_at_0, varu64_at_1, checked_add_ok by (done || (unfold_bounds; lia)).
  change (tlv_type.NAME =? 7) with true. cbn [negb].
  rewrite usize_of_ok, checked_add_ok by lia.
  rewrite (app_assoc (varu64_bytes tlv_type.NAME)), get_range_mid
    by (rewrite ?zlen_app, ?zlen_varu64_bytes; lia).
  rewrite peek_components_name by (done || lia). by destruct HT as [-> | ->].
Qed.

Lemma peek_interest lp_wire wire i :
  wf_bytes wire -> zlen wire <= usize_max -> Interest.decode wire = Ok i ->
  ndn_packet_bytes lp_wire = Some wire ->
  peek_lp_name lp_wire = Some (mkPeeked true (map value (i_name i))).
Proof.
  intros Hwf Hl Hd Hb. pose proof (decode_i_raw _ _ Hd) as Hi. rewrite Hi in Hd.
  apply interest_decode_shape in Hd as (es & rest & [Hraw Hn _ _ _ _]); [|done..]. rewrite Hi. cbn [i_name].
  apply (peek_packet lp_wire 0x05 (i_name i) (elems_wire es) rest);
    [by left|done|rewrite Hb, Hraw; done|change 0x05 with packet_type.INTEREST; by rewrite <- Hraw].
Qed.

(** ** Properties *)

(** C28: the link-layer decoder accepts exactly the NDNLPv2 packets of the
    documented element order: one LpPacket element (anything may follow it in the
    buffer) whose body is a list of headers ascending by type, only Ack repeated,
    each header well-formed and none of them unknown and critical or a bare
    Interest or Data, then at most one Fragment, last; with a Fragment or an Ack.
    And the decoded packet holds, field by field, the value of the header of that
    type, absent headers giving [None]. *)
Theorem lp_decode_iff (raw : bytes) (p : LpPacket) :
  wf_bytes raw -> zlen raw <= usize_max ->
  LpPacket.decode raw = Ok p <->
  exists hs fr rest,
    raw = tlv_bytes lp_type.LP_PACKET (elems_wire (hs ++ frag_elems fr)) ++ rest /\
    Forall wf_elem hs /\
    StronglySorted (fun a b => a < b \/ (a = b /\ a = lp_type.LP_ACK)) (map fst hs) /\
    Forall header_ok hs /\
    (is_Some fr \/ all_elems lp_type.LP_ACK hs <> []) /\
    p = lp_of hs fr.
Proof.
  intros Hwf Hl. rewrite (lp_decode_shape raw p Hwf Hl). split.
  - intros (hs & fr & rest & [? ? ? ? ?] & ->). exists hs, fr, rest. by split_conj.
  - intros (hs & fr & rest & ? & ? & ? & ? & ? & ->). exists hs, fr, rest. split; [by split|done].
Qed.

Lemma lp_decode_iff_witness :
  exists hs fr rest,
    [0x64; 7; 0x62; 1; 9; 0x50; 2; 5; 0; 1] = tlv_bytes lp_type.LP_PACKET (elems_wire (hs ++ frag_elems fr)) ++ rest /\
    Forall wf_elem hs /\
    StronglySorted (fun a b => a < b \/ (a = b /\ a = lp_type.LP_ACK)) (map fst hs) /\
    Forall header_ok hs /\
    (is_Some fr \/ all_elems lp_type.LP_ACK hs <> []) /\
    lp_of [(0x62, [9])] (Some [5; 0]) = lp_of hs fr.
Proof.
  apply (lp_decode_iff [0x64; 7; 0x62; 1; 9; 0x50; 2; 5; 0; 1] (lp_of [(0x62, [9])] (Some [5; 0])));
    [solve_closed|solve_closed|vm_compute; reflexivity].
Defined.

(** What the LP encoders write, the LP decoder reads.  For every fragment and
    header set, [encode_lp_with_headers] decodes to exactly those headers and
    that fragment, with nothing else set (a cache policy of code 1 reads back as
    [NoCache]); and [encode_lp_reliable] decodes to the fragment, its TxSequence,
    its fragmentation fields and its Acks in order. *)
Theorem lp_roundtrip (fr : bytes) (h : LpHeaders) (tx : Z) (fi : option (Z * Z * Z)) (l : list Z) :
  wf_bytes fr -> wf_headers h -> zlen fr + token_len (hd_pit_token h) + 400 <= usize_max ->
  is_u64 tx -> wf_frag_info fi -> Forall is_u64 l -> zlen fr + 26 * zlen l + 400 <= usize_max ->
  LpPacket.decode (encode_lp_with_headers fr h) = Ok {|
    fragment := Some fr; nack_header := None; congestion_mark := hd_congestion_mark h;
    sequence := None; frag_index := None; frag_count := None; acks := [];
    lp_pit_token := hd_pit_token h; incoming_face_id := hd_incoming_face_id h;
    next_hop_face_id := hd_next_hop_face_id h; cache_policy := normal_policy <$> hd_cache_policy h;
    tx_sequence := None; non_discovery := false; prefix_announcement := None;
    al_presence := None; al_prev_hop_loc := None; al_data_loc := None |} /\
  LpPacket.decode (encode_lp_reliable fr tx fi l) = Ok {|
    fragment := Some fr; nack_header := None; congestion_mark := None;
    sequence := (fun i => i.1.1) <$> fi; frag_index := (fun i => i.1.2) <$> fi;
    frag_count := (fun i => i.2) <$> fi; acks := l;
    lp_pit_token := None; incoming_face_id := None; next_hop_face_id := None; cache_policy := None;
    tx_sequence := Some tx; non_discovery := false; prefix_announcement := None;
    al_presence := None; al_prev_hop_loc := None; al_data_loc := None |}.
Proof. intros. split; [by apply with_headers_decodes|by apply reliable_decodes]. Qed.

Definition example_headers : LpHeaders :=
  mkHeaders (Some [1; 2; 3; 4]) (Some 1) (Some 300) None (Some NoCache).

Lemma example_headers_wf : wf_headers example_headers.
Proof. split; intros ? [= <-]; solve_closed. Qed.

Lemma lp_roundtrip_witness :
  frag_index <$> ok_opt (LpPacket.decode (encode_lp_reliable [5; 0] 77 (Some (10, 1, 3)) [4; 70000]))
  = Some (Some 1).
Proof.
  rewrite (proj2 (lp_roundtrip [5; 0] example_headers 77 (Some (10, 1, 3)) [4; 70000]
    ltac:(solve_closed) example_headers_wf ltac:(solve_closed) ltac:(solve_closed) ltac:(solve_closed)
    ltac:(repeat constructor; vm_compute; discriminate) ltac:(solve_closed))).
  reflexivity.
Defined.

(** The allocation-free fast paths agree with the full decoder on every
    packet the decoder accepts.  [extract_fragment] recognises it exactly when it
    is one of several fragments with its sequence and index, with the decoder's
    numbers and byte for byte its fragment; [extract_acks] reads its TxSequence
    and Acks; the packet bytes are its fragment unless it is a continuation; and
    when that is an Interest, [peek_lp_name] reads the Interest's name. *)
Theorem lp_fast_paths_agree (raw : bytes) (p : LpPacket) :
  wf_bytes raw -> zlen raw <= usize_max -> LpPacket.decode raw = Ok p ->
  match extract_fragment raw with
  | Some h => frag_count p = Some (fh_frag_count h) /\ 1 < fh_frag_count h /\
      sequence p = Some (fh_sequence h) /\ frag_index p = Some (fh_frag_index h) /\
      slice raw (frag_start h) (frag_end h) = default [] (fragment p)
  | None => LpPacket.is_fragmented p = false \/ sequence p = None \/ frag_index p = None
  end /\
  extract_acks raw = (tx_sequence p, acks p) /\
  ndn_packet_bytes raw = (if bool_decide (frag_index p = None \/ frag_index p = Some 0)
                          then fragment p else None) /\
  (forall f i, ndn_packet_bytes raw = Some f -> Interest.decode f = Ok i ->
     peek_lp_name raw = Some (mkPeeked true (map value (i_name i)))).
Proof.
  intros Hwf Hl Hd. apply lp_decode_shape in Hd as (hs & fr & rest & Hs & ->); [|done..].
  pose proof (lp_shape_wf _ _ _ _ Hwf Hs) as Hes. apply Forall_app in Hes as [_ Hfe].
  assert (ndn_packet_bytes raw = (if bool_decide (frag_index (lp_of hs fr) = None \/ frag_index (lp_of hs fr) = Some 0)
                          then fr else None)) as Hp.
  { rewrite (fast_packet raw hs fr rest Hwf Hl Hs). destruct (frag_index (lp_of hs fr)) as [i|]; [|by rewrite bool_decide_true by auto].
    destruct (Z.eqb_spec i 0) as [->|]; [by rewrite bool_decide_true by auto|].
    rewrite bool_decide_false; [done|]. intros [|[= ->]]; done. }
  split_conj; [by apply (fast_fragment raw hs fr rest)|by apply (fast_acks raw hs fr rest)|done|].
  intros f i Hf Hi. assert (fr = Some f) as ->.
  { rewrite Hf in Hp. destruct (bool_decide _); [done|done]. }
  apply (peek_interest raw f i); [by apply Forall_inv in Hfe as [_ ?]| |done|done].
  destruct Hs as [-> _ _ _ _]. apply lp_body_sizes in Hl. rewrite zlen_elems_wire_app in Hl.
  cbn [frag_elems] in Hl. rewrite elems_wire_one, zlen_tlv_bytes in Hl. cbn [fst snd] in Hl.
  pose proof (tlv_size_bounds lp_type.LP_FRAGMENT (zlen f) (zlen_nonneg f)).
  pose proof (zlen_nonneg (elems_wire hs)). lia.
Qed.

(** What the fast paths read of a reliable frame. *)
Lemma reliable_fast fr tx fi l :
  wf_bytes fr -> is_u64 tx -> wf_frag_info fi -> Forall is_u64 l -> zlen fr + 26 * zlen l + 800 <= usize_max ->
  let raw := encode_lp_reliable fr tx fi l in
  wf_bytes raw /\ extract_acks raw = (Some tx, l) /\
  match fi with
  | Some (s, i, c) => 1 < c -> exists h, extract_fragment raw = Some h /\ fh_sequence h = s /\ fh_frag_index h = i /\
      fh_frag_count h = c /\ slice raw (frag_start h) (frag_end h) = fr
  | None => extract_fragment raw = None
  end.
Proof.
  intros Hfr Htx Hfi Hl Hz raw. pose proof (reliable_decodes fr tx fi l Hfr Htx Hfi Hl ltac:(lia)) as Hd. fold raw in Hd.
  assert (raw = tlv_bytes lp_type.LP_PACKET (elems_wire (reliable_elems fi l tx ++ frag_elems (Some fr)))) as Hraw
    by (apply encode_reliable_wire; lia).
  assert (zlen raw <= usize_max) as Hzr.
  { rewrite Hraw. pose proof (zlen_lp_packet (elems_wire (reliable_elems fi l tx ++ frag_elems (Some fr)))) as Hp.
    rewrite zlen_elems_wire_app in Hp. pose proof (zlen_frag_elem fr). pose proof (zlen_reliable_elems fi l tx). lia. }
  destruct (reliable_elems_ok fi l tx) as (_ & Hwe & _).
  assert (wf_bytes raw) as Hwf.
  { rewrite Hraw. apply wf_tlv_bytes; [done|]. apply wf_elems_wire, Forall_app. split; [done|].
    apply wf_frag_elems. by intros v [= <-]. }
  split; [done|]. pose proof Hd as Hsh. apply lp_decode_shape in Hsh as (hs & f & rest & Hs & Hp); [|done..].
  split.
  - rewrite (fast_acks raw hs f rest Hwf Hzr Hs), <- Hp. done.
  - pose proof (fast_fragment raw hs f rest Hwf Hzr Hs) as Hf. rewrite <- Hp in Hf.
    assert (f = Some fr) as -> by (apply (f_equal fragment) in Hp; by cbn in Hp).
    clearbody raw. destruct fi as [[[s i] c]|];
      cbn [reliable_packet frag_count sequence frag_index fmap option_fmap option_map fst snd default] in Hf.
    + intros Hc. destruct (extract_fragment raw) as [h|].
      * destruct Hf as (Hc' & _ & Hs' & Hi' & Hsl). exists h. by simplify_eq.
      * unfold LpPacket.is_fragmented in Hf. cbn [frag_count reliable_packet fmap option_fmap option_map snd] in Hf. destruct Hf as [Hf|[?|?]]; [|done..].
        apply Z.ltb_ge in Hf. lia.
    + destruct (extract_fragment raw) as [h|]; [|done]. by destruct Hf.
Qed.

(** The acknowledgements of an Ack frame. *)
Lemma acks_fast l : l <> [] -> Forall is_u64 l -> 26 * zlen l + 800 <= usize_max ->
  wf_bytes (encode_lp_acks l) /\ extract_acks (encode_lp_acks l) = (None, l).
Proof.
  intros Hne Hl Hz. destruct (acks_decodes l Hne Hl ltac:(lia)) as (p & Hd & Ha & _ & Ht & _).
  assert (encode_lp_acks l = tlv_bytes lp_type.LP_PACKET (elems_wire (ack_elems l ++ frag_elems None))) as Hw
    by (apply encode_acks_wire; lia).
  assert (wf_bytes (encode_lp_acks l)) as Hwf.
  { rewrite Hw. apply wf_tlv_bytes; [done|]. cbn [frag_elems]. rewrite app_nil_r. by apply wf_elems_wire, ack_elems_ok. }
  split; [done|].
  assert (zlen (encode_lp_acks l) <= usize_max) as Hzr.
  { rewrite Hw. pose proof (zlen_lp_packet (elems_wire (ack_elems l ++ frag_elems None))) as Hp.
    rewrite zlen_elems_wire_app in Hp. pose proof (zlen_ack_elems l).
    change (zlen (elems_wire (frag_elems None))) with 0 in Hp. lia. }
  apply lp_decode_shape in Hd as (hs & f & rest & Hs & ->); [|done..].
  by rewrite (fast_acks _ hs f rest Hwf Hzr Hs), Ha, Ht.
Qed.

(** The elements of a wire are determined by it. *)
Lemma elems_wire_inj es : forall es', Forall wf_elem es -> Forall wf_elem es' -> zlen (elems_wire es) <= u64_max ->
  elems_wire es = elems_wire es' -> es = es'.
Proof.
  induction es as [|[t v] es IH]; intros [|[t' v'] es'] He He' Hz H; [done| | |].
  - symmetry in H. rewrite elems_wire_cons in H. by apply tlv_bytes_nonempty in H.
  - rewrite elems_wire_cons in H. by apply tlv_bytes_nonempty in H.
  - apply Forall_cons in He as [[Ht Hv] He]. apply Forall_cons in He' as [[Ht' Hv'] He'].
    pose proof Hz as Hz'. rewrite H in Hz'. rewrite elems_wire_cons, zlen_app, zlen_tlv_bytes in Hz, Hz'.
    pose proof (tlv_size_bounds t (zlen v) (zlen_nonneg v)). pose proof (tlv_size_bounds t' (zlen v') (zlen_nonneg v')).
    pose proof (zlen_nonneg (elems_wire es)). pose proof (zlen_nonneg (elems_wire es')). cbn [fst snd] in *.
    rewrite !elems_wire_cons in H. cbn [fst snd] in H.
    apply tlv_bytes_inj_app in H as (-> & -> & H); [|unfold_bounds; lia..]. pose proof (zlen_nonneg v').
    f_equal. apply IH; [done|done|lia|done].
Qed.

(** The numbers read of any frame are [u64]s. *)
Lemma extract_acks_numbers raw :
  wf_bytes raw -> (forall x, (extract_acks raw).1 = Some x -> is_u64 x) /\ Forall is_u64 (extract_acks raw).2.
Proof.
  intros Hwf. unfold extract_acks. destruct (is_lp_packet raw); [|done]. cbn [negb].
  destruct (lp_inner raw) as [[hl inner]|] eqn:Hi; [|done].
  assert (wf_bytes inner) as Hin.
  { revert Hi. unfold lp_inner, get_range. repeat (case_match; try done). intros [= _ <-]. simplify_eq. by apply wf_bytes_slice. }
  unfold raw_scan. eapply (raw_while_inv _ (fun s => (forall x, s.1 = Some x -> is_u64 x) /\ Forall is_u64 s.2)).
  - intros [tx l] t start end_ s' [H1 H2] _ _ [= <-]. cbn [fst snd] in *.
    pose proof (decode_be_u64_range _ (wf_bytes_slice inner start end_ Hin)) as Hr. unfold acks_step.
    destruct (t =? 0x0348); [split; [by intros x [= <-]|done]|].
    destruct (t =? 0x0344); [|done]. split; [done|]. apply Forall_app. split; [done|by apply Forall_singleton].
  - done.
  - pose proof (zlen_nonneg inner). lia.
  - unfold zlen. lia.
Qed.

Lemma lp_fast_paths_agree_witness :
  extract_acks (encode_lp_reliable [5; 0] 77 (Some (10, 1, 3)) [4; 70000]) = (Some 77, [4; 70000]).
Proof.
  refine (proj1 (proj2 (lp_fast_paths_agree (encode_lp_reliable [5; 0] 77 (Some (10, 1, 3)) [4; 70000])
    (reliable_packet [5; 0] 77 (Some (10, 1, 3)) [4; 70000]) _ _ _))); [solve_closed|solve_closed|].
  vm_compute. reflexivity.
Defined.

(** Hostile bytes cannot make the receive fast path index out of range.
    Whatever the buffer, [extract_fragment] ends, and the fragment it returns
    lies inside the buffer it was given; the loops of all the fast paths end
    within one step per byte of their input. *)
Theorem lp_fast_path_in_bounds (raw : bytes) (h : FragmentHeader) :
  extract_fragment raw = Some h ->
  0 <= frag_start h <= frag_end h /\ frag_end h <= zlen raw /\
  zlen (slice raw (frag_start h) (frag_end h)) = frag_end h - frag_start h /\
  (forall S (body : S -> Z -> Z -> Z -> bytes -> option S) s, (raw_scan body raw s).2 <> OutOfFuel).
Proof.
  intros H%extract_fragment_bounds. destruct H as [H1 H2]. split_conj; [lia..| |].
  - apply zlen_slice; lia.
  - intros S body s. unfold raw_scan.
    apply (raw_while_inv body (fun _ => True)); [done|done| |unfold zlen; lia]. pose proof (zlen_nonneg raw). lia.
Qed.

Lemma lp_fast_path_in_bounds_witness :
  0 <= 35 <= 38 /\ 38 <= 38.
Proof.
  destruct (lp_fast_path_in_bounds (encode_lp_reliable [5; 1; 2] 77 (Some (10, 1, 3)) [4; 5])
    (mkFragmentHeader 10 1 3 35 38) ltac:(vm_compute; reflexivity)) as (H1 & H2 & _).
  split; [exact H1|exact H2].
Defined.

(** A Nack goes out and comes back.  For every Interest the decoder accepts,
    the LP Nack the forwarder encodes for it, with or without the PIT token it
    must echo, decodes as a Nack of that Interest with the reason it was given (a
    code of the [Other] form that names a listed reason reads back as that one),
    and carries the token. *)
Theorem nack_roundtrip (wire : bytes) (i : Interest) (r : nack.NackReason) (tok : option bytes) :
  wf_bytes wire -> Interest.decode wire = Ok i -> is_u64 (nack.code r) ->
  (forall v, tok = Some v -> wf_bytes v /\ v <> []) ->
  zlen wire + token_len tok + 400 <= usize_max ->
  let out := encode_lp_nack_with_pit_token r wire tok in
  Nack.decode out = Ok (nack.mkNack (Some (nack.from_code (nack.code r))) i) /\
  (match r with nack.Other _ => True | _ => nack.from_code (nack.code r) = r end) /\
  lp_pit_token <$> ok_opt (LpPacket.decode out) = Some tok.
Proof.
  intros Hw Hi Hr Htok Hl out. destruct (nack_decodes r wire tok Hw Hr Htok Hl) as (p & Hd & Hf & Ht & Hn).
  split_conj; [|by destruct r|].
  - unfold Nack.decode, out. pose proof Hd as Hd'. rewrite encode_nack_wire in Hd' |- * by done.
    set (body := elems_wire _) in *. unfold tlv_bytes in *.
    change (varu64_bytes lp_type.LP_PACKET ++ varu64_bytes (zlen body) ++ body)
      with (0x64 :: varu64_bytes (zlen body) ++ body) in *.
    change (negb (0x64 =? lp_type.LP_PACKET)) with false. cbn iota. rewrite Hd', Hn, Hf. cbn [ok_or].
    by rewrite Hi.
  - unfold out. rewrite Hd. simpl. by rewrite Ht.
Qed.

Lemma nack_roundtrip_witness :
  Nack.decode (encode_lp_nack_with_pit_token nack.Duplicate example_interest (Some [7; 7]))
  = Ok (nack.mkNack (Some nack.Duplicate) (mkInterest example_interest [mkComponent 8 [97]])).
Proof.
  refine (proj1 (nack_roundtrip example_interest (mkInterest example_interest [mkComponent 8 [97]])
    nack.Duplicate (Some [7; 7]) _ _ _ _ _));
    [apply example_interest_ok|vm_compute; reflexivity|solve_closed| |solve_closed].
  intros v [= <-]. solve_closed.
Defined.

(** A trace context of the fixed array sizes. *)
Record wf_trace (c : TraceContext) : Prop := {
  wt_id : wf_bytes (trace_id c) /\ zlen (trace_id c) = 16;
  wt_span : wf_bytes (span_id c) /\ zlen (span_id c) = 8;
  wt_flags : is_u8 (trace_flags c);
  wt_time : is_u64 (timestamp_us c)
}.

Lemma trace_value_len c : wf_trace c -> zlen (TraceContext.encode_value c) = 33 /\ wf_bytes (TraceContext.encode_value c).
Proof.
  intros [[? Hi] [? Hs] ? ?]. unfold TraceContext.encode_value. split.
  - rewrite !zlen_app, Hi, Hs, zlen_be_encode. done.
  - rewrite !wf_bytes_app. split_conj; [done|done|by apply Forall_singleton|apply wf_be_encode].
Qed.

Lemma trace_value_roundtrip c :
  wf_trace c -> TraceContext.decode_value (TraceContext.encode_value c) = Ok c.
Proof.
  intros Hc. pose proof (trace_value_len c Hc) as [Hl _]. destruct Hc as [[_ Hi] [_ Hs] Hf Ht].
  unfold TraceContext.decode_value. rewrite Hl. cbn [negb Z.eqb Pos.eqb VALUE_LEN].
  unfold TraceContext.encode_value. destruct c as [ti si fl ts]. cbn [trace_id span_id trace_flags timestamp_us] in *.
  f_equal. f_equal.
  - by apply (slice_mid [] ti (si ++ [fl] ++ be_encode 8 ts)); rewrite ?zlen_nil, ?Hi.
  - apply (slice_mid ti si ([fl] ++ be_encode 8 ts)); lia.
  - rewrite (app_assoc ti si). rewrite (slice_mid (ti ++ si) [fl] (be_encode 8 ts)).
    + unfold be_decode. simpl. done.
    + rewrite zlen_app. lia.
    + rewrite !zlen_app, zlen_cons, zlen_nil. lia.
  - replace (ti ++ si ++ [fl] ++ be_encode 8 ts) with (((ti ++ si) ++ [fl]) ++ be_encode 8 ts ++ [])
      by by rewrite app_nil_r, <- !app_assoc.
    rewrite (slice_mid ((ti ++ si) ++ [fl]) (be_encode 8 ts) []).
    + rewrite be_decode_encode. unfold_bounds. apply Z.mod_small. change (256 ^ Z.of_nat 8) with (2 ^ 64). lia.
    + rewrite !zlen_app, zlen_cons, zlen_nil. lia.
    + rewrite !zlen_app, zlen_be_encode, zlen_cons, zlen_nil. lia.
Qed.

Lemma extract_trace_header wire :
  TraceContext.extract_from_lp_wire wire =
    (extract_lp_header wire lp_type.TLV_TRACE_CONTEXT ≫= fun v =>
       ok_opt (TraceContext.decode_value v)).
Proof.
  unfold TraceContext.extract_from_lp_wire, extract_lp_header.
  destruct (negb (is_lp_packet wire)); [done|]. destruct (first_tlv wire) as [[[t b] r]|]; [|done].
  destruct (negb (t =? lp_type.LP_PACKET)); [done|]. unfold search, scan.
  generalize (TlvReader.new b) as rd. generalize (S (length b)) as fuel.
  induction fuel as [|fuel IH]; intros rd; cbn [tlv_while]; [done|].
  destruct (TlvReader.is_empty rd); [done|].
  destruct (TlvReader.read_tlv rd) as [[[t' v']|e] rd']; [|done].
  destruct (t' =? lp_type.TLV_TRACE_CONTEXT); [cbn; by destruct (TraceContext.decode_value v')|].
  destruct (t' =? lp_type.LP_FRAGMENT); [done|]. apply IH.
Qed.

(** Piggybacking a header on an outgoing packet changes that header and
    nothing else.  On a packet the decoder accepts, splicing a header of any
    type but Fragment, Ack and CachePolicy gives a packet it accepts, equal to
    the old one with that field set (a header of the type already there is
    replaced, and one it does not know changes no field), which
    [extract_lp_header] reads back; and a spliced trace context is extracted
    unchanged. *)
Theorem lp_splice_sets_field (raw : bytes) (p : LpPacket) (typ : Z) (value : bytes) (ctx : TraceContext) :
  wf_bytes raw -> zlen raw + Z.max (zlen value) 33 + 100 <= usize_max -> LpPacket.decode raw = Ok p ->
  wf_bytes value -> is_u32 typ -> header_ok (typ, value) ->
  typ <> lp_type.LP_ACK -> typ <> lp_type.LP_CACHE_POLICY -> wf_trace ctx ->
  LpPacket.decode (splice_lp_header raw typ value) = LpPacket.decode_field p typ value /\
  is_ok (LpPacket.decode_field p typ value) /\
  extract_lp_header (splice_lp_header raw typ value) typ = Some value /\
  LpPacket.decode (TraceContext.splice_into_lp_wire raw ctx) = Ok p /\
  TraceContext.extract_from_lp_wire (TraceContext.splice_into_lp_wire raw ctx) = Some ctx.
Proof.
  intros Hwf Hl Hd Hv Ht Hok Ha Hcp Hctx. apply lp_decode_shape in Hd as (hs & fr & rest & Hs & ->); [|done|lia].
  destruct (trace_value_len ctx Hctx) as [Hcl Hcw].
  assert (header_ok (lp_type.TLV_TRACE_CONTEXT, TraceContext.encode_value ctx)) as Hcok by (split; simpl; try done; by right).
  assert (forall t v, wf_bytes v -> zlen v <= Z.max (zlen value) 33 -> header_ok (t, v) -> is_u32 t -> t <> lp_type.LP_ACK ->
    extract_lp_header (splice_lp_header raw t v) t = Some v) as Hx.
  { intros t v Hvw Hvl Hvok Htu Hta.
    destruct (splice_shape raw hs fr rest t v Hwf Hvw ltac:(lia) Hs Hvok Htu Hta) as (Hs' & Hw' & Hl').
    rewrite (extract_header_shape _ _ _ _ t Hw' Hl' Hs') by apply Hvok.
    rewrite find_elem_place by apply without_types. by rewrite Z.eqb_refl. }
  destruct (splice_decodes raw hs fr rest typ value) as [H1 H2]; [done|done|lia|done..|].
  destruct (splice_decodes raw hs fr rest lp_type.TLV_TRACE_CONTEXT (TraceContext.encode_value ctx)) as [H3 _];
    [done|done|lia|done..|].
  split_conj; [done|done|apply Hx; (done || lia)| |].
  - exact H3.
  - rewrite extract_trace_header.
    change (TraceContext.splice_into_lp_wire raw ctx)
      with (splice_lp_header raw lp_type.TLV_TRACE_CONTEXT (TraceContext.encode_value ctx)).
    rewrite Hx by (done || lia). simpl. by rewrite trace_value_roundtrip.
Qed.

Lemma lp_splice_sets_field_witness :
  extract_lp_header (splice_lp_header (encode_lp_packet example_interest) lp_type.TLV_AL_PRESENCE [9])
    lp_type.TLV_AL_PRESENCE = Some [9].
Proof.
  refine (proj1 (proj2 (proj2 (lp_splice_sets_field (encode_lp_packet example_interest)
    (lp_of [] (Some example_interest)) lp_type.TLV_AL_PRESENCE [9]
    (mkTrace (replicate 16 1) (replicate 8 2) 1 5) _ _ _ _ _ _ _ _ _))));
    [solve_closed|solve_closed|vm_compute; reflexivity|solve_closed|solve_closed
    |apply header_ok_plain; [compute_done|done..]|done|done|split; solve_closed].
Defined.
