(* ===== verification/Encode.v ===== *)
(** * Packet encoders ([ndn-packet/src/encode]) and the signed region of an Interest

    [InterestBuilder] and [DataBuilder] with their signing variants, the
    single-buffer fast paths of Data and [Interest::signed_region]; the theorems
    relate what the builders emit to what the decoders of [Packet] read.
    SHA-256, BLAKE3 and the signing callbacks are parameters; the clock, the
    random bytes, the process id and the nonce counter are arguments. *)
From stdpp Require Import base numbers list sorting.
From S2P Require Import Prelude Tlv Name NameUri Packet Lp.
#[local] Open Scope Z_scope.

Import TlvWriter.

(** ** [encode/mod.rs] *)

(** The slice [&buf[..len]] of the shortest encoding. *)
Definition enc_nni (val : Z) : bytes :=
  let be := be_encode 8 val in
  if val <=? 0xFF then slice be 7 8
  else if val <=? 0xFFFF then slice be 6 8
  else if val <=? 0xFFFFFFFF then slice be 4 8
  else be.

Definition write_nni (w : TlvWriter) (typ val : Z) : TlvWriter := write_tlv w typ (enc_nni val).

Definition write_name (w : TlvWriter) (name : Name) : TlvWriter :=
  write_nested w tlv_type.NAME (fun w => NameOps.write_components name w).

(** [(process::id() << 16).wrapping_add(seq)] and the counter after it. *)
Definition next_nonce (pid counter : Z) : Z * Z :=
  (wrap 32 (wrap 32 (Z.shiftl pid 16) + counter), wrap 32 (counter + 1)).

(** [Duration::as_millis() as u64] of a duration in nanoseconds, and the largest
    duration. *)
Definition as_millis (d : Z) : Z := wrap 64 (d / 1000000).
Definition DURATION_MAX : Z := u64_max * 1000000000 + 999999999.

(** ** [encode/interest.rs] *)

Record InterestBuilder : Type := mkIB {
  ib_name : Name;
  ib_lifetime : option Z;
  ib_can_be_prefix : bool;
  ib_must_be_fresh : bool;
  ib_hop_limit : option Z;
  ib_app_parameters : option bytes;
  ib_forwarding_hint : option (list Name);
  ib_reflexive_name : option Name;
  ib_pin_face : option Z
}.

(** The four buffers a signed Interest is assembled from. *)
Record SignedInterestParts : Type := mkParts {
  name_components : bytes;
  body_fields : bytes;
  app_params_tlv : bytes;
  sig_info_tlv : bytes
}.

(** What the operating system supplies to a builder. *)
Record Env : Type := mkEnv {
  pid : Z;
  (** Nanoseconds since the epoch; a clock before it reads as the epoch. *)
  now_ns : Z;
  (** The 8 bytes of [rand_nonce_bytes]. *)
  rand_nonce : bytes
}.

Definition random_reflexive_name (r1 r2 : bytes) : Name :=
  [Component.generic (str "rfx"); Component.generic (r1 ++ r2)].

Definition concat_signed_region (parts : SignedInterestParts) : bytes :=
  name_components parts ++ app_params_tlv parts ++ sig_info_tlv parts.

Definition encode_interest (sha256 : bytes -> bytes) (pid counter : Z) (name : Name) (app_params : option bytes) : bytes * Z :=
  let '(n, counter) := next_nonce pid counter in
  (finish (write_nested new packet_type.INTEREST (fun w =>
     match app_params with
     | Some params =>
         let params_wire := finish (write_tlv new packet_type.APP_PARAMETERS params) in
         let digest := sha256 params_wire in
         let w := write_nested w tlv_type.NAME (fun w =>
                    write_tlv (NameOps.write_components name w) tlv_type.PARAMETERS_SHA256 digest) in
         let w := write_tlv w packet_type.NONCE (be_encode 4 n) in
         let w := write_nni w packet_type.INTEREST_LIFETIME 4000 in
         write_tlv w packet_type.APP_PARAMETERS params
     | None =>
         let w := write_name w name in
         let w := write_tlv w packet_type.NONCE (be_encode 4 n) in
         write_nni w packet_type.INTEREST_LIFETIME 4000
     end)), counter).

(** The fields between the name and the application parameters. *)
Definition write_body_fields (w : TlvWriter) (b : InterestBuilder) (nonce lifetime_ms : Z) : TlvWriter :=
  let w := if ib_can_be_prefix b then write_tlv w packet_type.CAN_BE_PREFIX [] else w in
  let w := if ib_must_be_fresh b then write_tlv w packet_type.MUST_BE_FRESH [] else w in
  let w := match ib_forwarding_hint b with
           | Some hints => write_nested w packet_type.FORWARDING_HINT (fun w => fold_left write_name hints w)
           | None => w
           end in
  let w := match ib_reflexive_name b with
           | Some rname => write_nested w packet_type.REFLEXIVE_NAME (fun w => NameOps.write_components rname w)
           | None => w
           end in
  let w := write_tlv w packet_type.NONCE (be_encode 4 nonce) in
  let w := write_nni w packet_type.INTEREST_LIFETIME lifetime_ms in
  match ib_hop_limit b with Some h => write_tlv w packet_type.HOP_LIMIT [h] | None => w end.

Definition lifetime_ms (b : InterestBuilder) : Z :=
  match ib_lifetime b with Some d => as_millis d | None => 4000 end.

Module InterestBuilder.

Definition new (name : Name) : InterestBuilder := mkIB name None false false None None None None None.
Definition lifetime (d : Z) (b : InterestBuilder) : InterestBuilder :=
  mkIB (ib_name b) (Some d) (ib_can_be_prefix b) (ib_must_be_fresh b) (ib_hop_limit b) (ib_app_parameters b)
    (ib_forwarding_hint b) (ib_reflexive_name b) (ib_pin_face b).
Definition can_be_prefix (b : InterestBuilder) : InterestBuilder :=
  mkIB (ib_name b) (ib_lifetime b) true (ib_must_be_fresh b) (ib_hop_limit b) (ib_app_parameters b)
    (ib_forwarding_hint b) (ib_reflexive_name b) (ib_pin_face b).
Definition must_be_fresh (b : InterestBuilder) : InterestBuilder :=
  mkIB (ib_name b) (ib_lifetime b) (ib_can_be_prefix b) true (ib_hop_limit b) (ib_app_parameters b)
    (ib_forwarding_hint b) (ib_reflexive_name b) (ib_pin_face b).
Definition hop_limit (h : Z) (b : InterestBuilder) : InterestBuilder :=
  mkIB (ib_name b) (ib_lifetime b) (ib_can_be_prefix b) (ib_must_be_fresh b) (Some h) (ib_app_parameters b)
    (ib_forwarding_hint b) (ib_reflexive_name b) (ib_pin_face b).
Definition app_parameters (p : bytes) (b : InterestBuilder) : InterestBuilder :=
  mkIB (ib_name b) (ib_lifetime b) (ib_can_be_prefix b) (ib_must_be_fresh b) (ib_hop_limit b) (Some p)
    (ib_forwarding_hint b) (ib_reflexive_name b) (ib_pin_face b).
Definition forwarding_hint (names : list Name) (b : InterestBuilder) : InterestBuilder :=
  mkIB (ib_name b) (ib_lifetime b) (ib_can_be_prefix b) (ib_must_be_fresh b) (ib_hop_limit b) (ib_app_parameters b)
    (Some names) (ib_reflexive_name b) (ib_pin_face b).
Definition reflexive_name (name : Name) (b : InterestBuilder) : InterestBuilder :=
  mkIB (ib_name b) (ib_lifetime b) (ib_can_be_prefix b) (ib_must_be_fresh b) (ib_hop_limit b) (ib_app_parameters b)
    (ib_forwarding_hint b) (Some name) (ib_pin_face b).
Definition pin_face (face_id : Z) (b : InterestBuilder) : InterestBuilder :=
  mkIB (ib_name b) (ib_lifetime b) (ib_can_be_prefix b) (ib_must_be_fresh b) (ib_hop_limit b) (ib_app_parameters b)
    (ib_forwarding_hint b) (ib_reflexive_name b) (Some face_id).

Section hashing.
Context (sha256 : bytes -> bytes).

(** The Interest element inside the closure of [build]. *)
Definition interest_wire (b : InterestBuilder) (nonce : Z) : bytes :=
  finish (write_nested TlvWriter.new packet_type.INTEREST (fun w =>
    let w := match ib_app_parameters b with
             | Some params =>
                 let params_wire := finish (write_tlv TlvWriter.new packet_type.APP_PARAMETERS params) in
                 let digest := sha256 params_wire in
                 write_nested w tlv_type.NAME (fun w =>
                   write_tlv (NameOps.write_components (ib_name b) w) tlv_type.PARAMETERS_SHA256 digest)
             | None => write_name w (ib_name b)
             end in
    let w := write_body_fields w b nonce (lifetime_ms b) in
    match ib_app_parameters b with
    | Some params => write_tlv w packet_type.APP_PARAMETERS params
    | None => w
    end)).

Definition build (pid counter : Z) (b : InterestBuilder) : bytes * Z :=
  let '(n, counter) := next_nonce pid counter in
  let wire := interest_wire b n in
  (match ib_pin_face b with
   | Some face_id => encode_lp_with_headers wire (mkHeaders None None None (Some face_id) None)
   | None => wire
   end, counter).

(** [None] is the overflow of the sum of the two durations. *)
Definition build_with_timeout (pid counter : Z) (b : InterestBuilder) : option (bytes * Z * Z) :=
  let life := match ib_lifetime b with Some d => d | None => 4000 * 1000000 end in
  let timeout := life + 500 * 1000000 in
  if timeout <=? DURATION_MAX then
    let '(wire, counter) := build pid counter b in Some (wire, timeout, counter)
  else None.

Definition build_signed_interest_parts (e : Env) (counter : Z) (b : InterestBuilder)
    (sig_type : SignatureType) (key_locator : option Name) : SignedInterestParts * Z :=
  let params := match ib_app_parameters b with Some p => p | None => [] end in
  let name_components :=
    finish (NameOps.write_components
      (filter (fun c => typ c <> tlv_type.PARAMETERS_SHA256) (ib_name b)) TlvWriter.new) in
  let '(n, counter) := next_nonce (pid e) counter in
  let body_fields := finish (write_body_fields TlvWriter.new b n (lifetime_ms b)) in
  let app_params_tlv := finish (write_tlv TlvWriter.new packet_type.APP_PARAMETERS params) in
  let sig_info_tlv :=
    finish (write_nested TlvWriter.new packet_type.INTEREST_SIGNATURE_INFO (fun w =>
      let w := write_nni w packet_type.SIGNATURE_TYPE (SignatureType.code sig_type) in
      let w := match key_locator with
               | Some kl => write_nested w packet_type.KEY_LOCATOR (fun w => write_name w kl)
               | None => w
               end in
      let w := write_tlv w packet_type.SIGNATURE_NONCE (rand_nonce e) in
      write_tlv w packet_type.SIGNATURE_TIME (enc_nni (as_millis (Z.max 0 (now_ns e)))))) in
  (mkParts name_components body_fields app_params_tlv sig_info_tlv, counter).

Definition assemble_signed_interest (parts : SignedInterestParts) (sig_value : bytes) : bytes :=
  let sig_value_tlv := finish (write_tlv TlvWriter.new packet_type.INTEREST_SIGNATURE_VALUE sig_value) in
  let psdc_digest := sha256 (app_params_tlv parts ++ sig_info_tlv parts ++ sig_value_tlv) in
  let psdc_component := finish (write_tlv TlvWriter.new tlv_type.PARAMETERS_SHA256 psdc_digest) in
  let name_tlv := finish (write_nested TlvWriter.new tlv_type.NAME (fun w =>
                    write_raw (write_raw w (name_components parts)) psdc_component)) in
  let inner_len := zlen name_tlv + zlen (body_fields parts) + zlen (app_params_tlv parts)
                   + zlen (sig_info_tlv parts) + zlen sig_value_tlv in
  let outer := write_varu64 TlvWriter.new packet_type.INTEREST in
  let outer := write_varu64 outer inner_len in
  let outer := write_raw outer name_tlv in
  let outer := write_raw outer (body_fields parts) in
  let outer := write_raw outer (app_params_tlv parts) in
  let outer := write_raw outer (sig_info_tlv parts) in
  finish (write_raw outer sig_value_tlv).

Definition sign_sync (e : Env) (counter : Z) (b : InterestBuilder) (sig_type : SignatureType)
    (key_locator : option Name) (sign_fn : bytes -> bytes) : bytes * Z :=
  let '(parts, counter) := build_signed_interest_parts e counter b sig_type key_locator in
  (assemble_signed_interest parts (sign_fn (concat_signed_region parts)), counter).

(** [sign] is [sign_sync] with an asynchronous callback; this is the fallible
    one. *)
Definition sign_fallible {E} (e : Env) (counter : Z) (b : InterestBuilder) (sig_type : SignatureType)
    (key_locator : option Name) (sign_fn : bytes -> result bytes E) : result bytes E * Z :=
  let '(parts, counter) := build_signed_interest_parts e counter b sig_type key_locator in
  (match sign_fn (concat_signed_region parts) with
   | Ok sig_value => Ok (assemble_signed_interest parts sig_value)
   | Err x => Err x
   end, counter).

Definition sign_digest_sha256 (e : Env) (counter : Z) (b : InterestBuilder) : bytes * Z :=
  sign_sync e counter b DigestSha256 None sha256.

End hashing.
End InterestBuilder.

(** ** [Interest::signed_region] *)

(** One component: its bytes, unless it is the parameters digest. *)
Fixpoint signed_components (fuel : nat) (name_value : bytes) (r : TlvReader.TlvReader) (out : bytes)
    : result bytes PacketError :=
  match fuel with
  | O => Ok out
  | S fuel =>
      if TlvReader.is_empty r then Ok out
      else
        let pos_before := TlvReader.position r in
        match TlvReader.read_tlv r with
        | (Err e, _) => Err (Tlv e)
        | (Ok (comp_typ, _), r) =>
            if comp_typ =? tlv_type.PARAMETERS_SHA256 then signed_components fuel name_value r out
            else signed_components fuel name_value r (out ++ slice name_value pos_before (TlvReader.position r))
        end
  end.

(** The loop over the elements after the name. *)
Fixpoint signed_elements (fuel : nat) (value : bytes) (inner : TlvReader.TlvReader)
    (app : option bytes) : result (option bytes * option bytes) PacketError :=
  match fuel with
  | O => Ok (app, None)
  | S fuel =>
      if TlvReader.is_empty inner then Ok (app, None)
      else
        let pos_before := TlvReader.position inner in
        match TlvReader.read_tlv inner with
        | (Err e, _) => Err (Tlv e)
        | (Ok (t, _), inner) =>
            let here := slice value pos_before (TlvReader.position inner) in
            if t =? packet_type.APP_PARAMETERS then signed_elements fuel value inner (Some here)
            else if t =? packet_type.INTEREST_SIGNATURE_INFO then Ok (app, Some here)
            else signed_elements fuel value inner app
        end
  end.

Definition compute_interest_signed_region (raw : bytes) : result (option bytes) PacketError :=
  if zlen raw =? 0 then Ok None
  else
    let? (outer_typ, interest_value, _) := first_tlv raw in
    if negb (outer_typ =? packet_type.INTEREST) then Ok None
    else
      let? (name_typ, name_value, inner) := first_tlv interest_value in
      if negb (name_typ =? tlv_type.NAME) then Ok None
      else
        let? names := signed_components (S (length name_value)) name_value (TlvReader.new name_value) [] in
        let? found := signed_elements (S (length interest_value)) interest_value inner None in
        match found with
        | (Some ap, Some si) => Ok (Some (names ++ ap ++ si))
        | _ => Ok None
        end.

Definition Interest_signed_region (i : Interest) : option bytes :=
  ok_flatten (compute_interest_signed_region (i_raw i)).

(** ** [encode/data.rs] *)

Definition SIGINFO_DIGEST_SHA256 : bytes := [0x16; 0x03; 0x1B; 0x01; 0x00].
Definition SIGINFO_DIGEST_BLAKE3 : bytes := [0x16; 0x03; 0x1B; 0x01; 0x06].
Definition SIGVALUE : Z := 34.

(** The [BufMut] trait: [None] is the panic of a buffer that has no room. *)
Class BufMut (B : Type) : Type := put_slice : B -> bytes -> option B.

(** A growing [BytesMut]. *)
#[export] Instance BytesMut : BufMut bytes := fun buf src => Some (buf ++ src).

(** A [&mut [u8]] cursor: what it has passed, and what is left before it. *)
Record Cursor : Type := mkCursor { passed : bytes; left_ : bytes }.
#[export] Instance SliceMut : BufMut Cursor := fun cur src =>
  if zlen src <=? zlen (left_ cur)
  then Some (mkCursor (passed cur ++ src) (slice_from_ (left_ cur) (zlen src)))
  else None.

Definition put_vu {B} `{BufMut B} (buf : B) (v : Z) : option B :=
  let! (tmp, n) := Tlv.write_varu64 (replicate 9 0) v in
  put_slice buf (slice tmp 0 n).

Record FastPathSizes : Type := mkSizes {
  comps_inner : Z;
  name_tlv : Z;
  mi_inner : Z;
  metainfo_tlv : Z;
  content_tlv : Z
}.

(** [content_type] is the code of the type, [freshness] in nanoseconds. *)
Record DataBuilder : Type := mkDB {
  db_name : Name;
  db_content : bytes;
  db_freshness : option Z;
  db_final_block_id : option bytes;
  db_content_type : option Z
}.

Definition compute_sizes (b : DataBuilder) : FastPathSizes :=
  let comps_inner :=
    foldr Z.add 0 (map (fun c => varu64_size (typ c) + varu64_size (zlen (value c)) + zlen (value c)) (db_name b)) in
  let name_tlv := varu64_size tlv_type.NAME + varu64_size comps_inner + comps_inner in
  let nni_size t v := varu64_size t + varu64_size (zlen (enc_nni v)) + zlen (enc_nni v) in
  let s := 0 in
  let s := match db_content_type b with Some ct => s + nni_size packet_type.CONTENT_TYPE ct | None => s end in
  let s := match db_freshness b with Some f => s + nni_size packet_type.FRESHNESS_PERIOD (as_millis f) | None => s end in
  let s := match db_final_block_id b with
           | Some fb => s + (varu64_size packet_type.FINAL_BLOCK_ID + varu64_size (zlen fb) + zlen fb)
           | None => s
           end in
  let metainfo_tlv := if 0 <? s then varu64_size packet_type.META_INFO + varu64_size s + s else 0 in
  let content_tlv := varu64_size packet_type.CONTENT + varu64_size (zlen (db_content b)) + zlen (db_content b) in
  mkSizes comps_inner name_tlv s metainfo_tlv content_tlv.

(** A type, a length and a value, as the fast path writes them. *)
Definition put_tlv {B} `{BufMut B} (buf : B) (t : Z) (v : bytes) : option B :=
  let! buf := put_vu buf t in let! buf := put_vu buf (zlen v) in put_slice buf v.

Fixpoint put_components {B} `{BufMut B} (buf : B) (n : Name) : option B :=
  match n with
  | [] => Some buf
  | c :: n => let! buf := put_tlv buf (typ c) (value c) in put_components buf n
  end.

Definition write_fields {B} `{BufMut B} (buf : B) (b : DataBuilder) (sz : FastPathSizes) : option B :=
  let! buf := put_vu buf tlv_type.NAME in
  let! buf := put_vu buf (comps_inner sz) in
  let! buf := put_components buf (db_name b) in
  let! buf :=
    if 0 <? mi_inner sz then
      let! buf := put_vu buf packet_type.META_INFO in
      let! buf := put_vu buf (mi_inner sz) in
      let! buf := match db_content_type b with
                  | Some ct => put_tlv buf packet_type.CONTENT_TYPE (enc_nni ct)
                  | None => Some buf
                  end in
      let! buf := match db_freshness b with
                  | Some f => put_tlv buf packet_type.FRESHNESS_PERIOD (enc_nni (as_millis f))
                  | None => Some buf
                  end in
      match db_final_block_id b with
      | Some fb => put_tlv buf packet_type.FINAL_BLOCK_ID fb
      | None => Some buf
      end
    else Some buf in
  put_tlv buf packet_type.CONTENT (db_content b).

Definition encode_nni_be (v : Z) : bytes :=
  if v =? 0 then [0x00]
  else
    let bs := be_encode 8 v in
    match list_find (fun b => b <> 0) bs with Some (i, _) => drop i bs | None => drop 7 bs end.

Module DataBuilder.

Definition new (name : Name) (content : bytes) : DataBuilder := mkDB name content None None None.
Definition freshness (d : Z) (b : DataBuilder) : DataBuilder :=
  mkDB (db_name b) (db_content b) (Some d) (db_final_block_id b) (db_content_type b).
Definition content_type (ct : ContentType) (b : DataBuilder) : DataBuilder :=
  mkDB (db_name b) (db_content b) (db_freshness b) (db_final_block_id b) (Some (ContentType_code ct)).
Definition final_block_id (component_bytes : bytes) (b : DataBuilder) : DataBuilder :=
  mkDB (db_name b) (db_content b) (db_freshness b) (Some component_bytes) (db_content_type b).
Definition final_block_id_seg (last_seg : Z) (b : DataBuilder) : DataBuilder :=
  let s := dec last_seg in final_block_id (0x08 :: wrap 8 (zlen s) :: s) b.
Definition final_block_id_typed_seg (last_seg : Z) (b : DataBuilder) : DataBuilder :=
  let encoded := encode_nni_be last_seg in final_block_id (0x32 :: wrap 8 (zlen encoded) :: encoded) b.

(** The sizes of the whole packet: the header, the signed part, the packet. *)
Definition signed_size (b : DataBuilder) (sig_info : bytes) : Z :=
  let sz := compute_sizes b in name_tlv sz + metainfo_tlv sz + content_tlv sz + zlen sig_info.
Definition header_size (inner_size : Z) : Z := varu64_size packet_type.DATA + varu64_size inner_size.

(** The body of [sign_digest_sha256] and [sign_digest_blake3]; [None] is a
    failed debug assertion. *)
Definition sign_digest (hash : bytes -> bytes) (sig_info : bytes) (b : DataBuilder) : option bytes :=
  let sz := compute_sizes b in
  let inner_size := signed_size b sig_info + SIGVALUE in
  let! buf := put_vu [] packet_type.DATA in
  let! buf := put_vu buf inner_size in
  let signed_start := zlen buf in
  let! buf := write_fields buf b sz in
  let! buf := put_slice buf sig_info in
  if negb (zlen buf - signed_start =? signed_size b sig_info) then None
  else
    let h := hash (slice_from_ buf signed_start) in
    let! buf := put_slice buf [0x17; 0x20] in
    let! buf := put_slice buf h in
    if negb (zlen buf =? header_size inner_size + inner_size) then None else Some buf.

Definition sign_none (b : DataBuilder) : option bytes :=
  let sz := compute_sizes b in
  let inner_size := name_tlv sz + metainfo_tlv sz + content_tlv sz in
  let! buf := put_vu [] packet_type.DATA in
  let! buf := put_vu buf inner_size in
  write_fields buf b sz.

Definition encoded_len_digest_sha256 (b : DataBuilder) : Z :=
  let inner_size := signed_size b SIGINFO_DIGEST_SHA256 + SIGVALUE in
  header_size inner_size + inner_size.

(** The name, the MetaInfo and the content, as [sign], [sign_fallible] and
    [sign_sync] write them. *)
Definition write_inner (w : TlvWriter) (b : DataBuilder) : TlvWriter :=
  let w := write_name w (db_name b) in
  let w := if bool_decide (is_Some (db_content_type b)) || bool_decide (is_Some (db_freshness b))
              || bool_decide (is_Some (db_final_block_id b))
           then write_nested w packet_type.META_INFO (fun w =>
                  let w := match db_content_type b with Some ct => write_nni w packet_type.CONTENT_TYPE ct | None => w end in
                  let w := match db_freshness b with Some f => write_nni w packet_type.FRESHNESS_PERIOD (as_millis f) | None => w end in
                  match db_final_block_id b with Some fb => write_tlv w packet_type.FINAL_BLOCK_ID fb | None => w end)
           else w in
  write_tlv w packet_type.CONTENT (db_content b).

Definition write_sig_info (w : TlvWriter) (sig_type : SignatureType) (key_locator : option Name) : TlvWriter :=
  write_nested w packet_type.SIGNATURE_INFO (fun w =>
    let w := write_nni w packet_type.SIGNATURE_TYPE (SignatureType.code sig_type) in
    match key_locator with
    | Some kl_name => write_nested w packet_type.KEY_LOCATOR (fun w => write_name w kl_name)
    | None => w
    end).

Definition sign_fallible {E} (b : DataBuilder) (sig_type : SignatureType) (key_locator : option Name)
    (sign_fn : bytes -> result bytes E) : result bytes E :=
  let inner_bytes := finish (write_inner TlvWriter.new b) in
  let sig_info_bytes := finish (write_sig_info TlvWriter.new sig_type key_locator) in
  let signed_region := inner_bytes ++ sig_info_bytes in
  let? sig_value := sign_fn signed_region in
  Ok (finish (write_nested TlvWriter.new packet_type.DATA (fun w =>
        write_tlv (write_raw w signed_region) packet_type.SIGNATURE_VALUE sig_value))).

(** [sign] is the same code with a callback that does not fail. *)
Definition sign (b : DataBuilder) (sig_type : SignatureType) (key_locator : option Name)
    (sign_fn : bytes -> bytes) : bytes :=
  let inner_bytes := finish (write_inner TlvWriter.new b) in
  let sig_info_bytes := finish (write_sig_info TlvWriter.new sig_type key_locator) in
  let signed_region := inner_bytes ++ sig_info_bytes in
  let sig_value := sign_fn signed_region in
  finish (write_nested TlvWriter.new packet_type.DATA (fun w =>
    write_tlv (write_raw w signed_region) packet_type.SIGNATURE_VALUE sig_value)).

Definition sign_sync (b : DataBuilder) (sig_type : SignatureType) (key_locator : option Name)
    (sign_fn : bytes -> bytes) : bytes :=
  let w := TlvWriter.new in
  let signed_start := len w in
  let w := write_inner w b in
  let w := write_sig_info w sig_type key_locator in
  let sig_value := sign_fn (slice_from w signed_start) in
  let signed_region := slice_from w signed_start in
  let inner_len := zlen signed_region + varu64_size packet_type.SIGNATURE_VALUE
                   + varu64_size (zlen sig_value) + zlen sig_value in
  let outer := write_varu64 TlvWriter.new packet_type.DATA in
  let outer := write_varu64 outer inner_len in
  let outer := write_raw outer signed_region in
  finish (write_tlv outer packet_type.SIGNATURE_VALUE sig_value).

Section digests.
Context (sha256 blake3 : bytes -> bytes).

Definition sign_digest_sha256 (b : DataBuilder) : option bytes := sign_digest sha256 SIGINFO_DIGEST_SHA256 b.
Definition sign_digest_blake3 (b : DataBuilder) : option bytes := sign_digest blake3 SIGINFO_DIGEST_BLAKE3 b.
Definition build (b : DataBuilder) : option bytes := sign_digest_sha256 b.

(** The buffer after the call and the bytes written; [None] is the panic of the
    assertion, of a full cursor or of an index. *)
Definition encode_digest_sha256_into (b : DataBuilder) (out : bytes) : option (bytes * Z) :=
  let sz := compute_sizes b in
  let signed_size := signed_size b SIGINFO_DIGEST_SHA256 in
  let inner_size := signed_size + SIGVALUE in
  let header_size := header_size inner_size in
  let total := header_size + inner_size in
  if zlen out <? total then None
  else
    let! cur := put_vu (mkCursor [] (slice out 0 total)) packet_type.DATA in
    let! cur := put_vu cur inner_size in
    let! cur := write_fields cur b sz in
    let! cur := put_slice cur SIGINFO_DIGEST_SHA256 in
    let out := passed cur ++ left_ cur ++ slice_from_ out total in
    let signed_start := header_size in
    let signed_end := header_size + signed_size in
    let hash := sha256 (slice out signed_start signed_end) in
    let! out := copy_at out signed_end [0x17] in
    let! out := copy_at out (signed_end + 1) [0x20] in
    let! out := copy_at out (signed_end + 2) hash in
    Some (out, total).

End digests.
End DataBuilder.

(** [encode_data_digest_sha256] and its alias. *)
Definition encode_data_digest_sha256 (sha256 : bytes -> bytes) (name : Name) (content : bytes) : option bytes :=
  DataBuilder.sign_digest_sha256 sha256 (DataBuilder.freshness 0 (DataBuilder.new name content)).

(** ** What the builders write *)

Lemma enc_nni_spec v : enc_nni v = nni_bytes v.
Proof.
  unfold enc_nni, nni_bytes, nni. assert (length (be_encode 8 v) = 8%nat) as Hl by apply length_be_encode.
  destruct (be_encode 8 v) as [|b0 [|b1 [|b2 [|b3 [|b4 [|b5 [|b6 [|b7 [|]]]]]]]]]; try done.
  destruct (v <=? 0xFF); [done|]. destruct (v <=? 0xFFFF); [done|]. by destruct (v <=? 0xFFFFFFFF).
Qed.
Lemma zlen_enc_nni v : 1 <= zlen (enc_nni v) <= 8.
Proof. rewrite enc_nni_spec. apply zlen_nni_bytes. Qed.
Lemma wf_enc_nni v : wf_bytes (enc_nni v).
Proof. rewrite enc_nni_spec. apply wf_nni_bytes. Qed.

Lemma buf_write_name w n :
  name_fits n -> buf (write_name w n) = buf w ++ tlv_bytes tlv_type.NAME (name_wire n).
Proof.
  intros [Hwf Hl]. unfold write_name.
  assert (buf (NameOps.write_components n new) = name_wire n) as Hw
    by (rewrite buf_write_components; [done|apply wire_comps_sized; [done|lia]]).
  rewrite buf_write_nested; rewrite ?Hw; [done|solve_closed|unfold_bounds; lia].
Qed.

(** *** The buffers of the fast paths *)

Class BufMutLaws (B : Type) `{BufMut B} : Type := {
  after : B -> bytes -> B;
  fits : B -> Z -> Prop;
  put_slice_after buf src : fits buf (zlen src) -> put_slice buf src = Some (after buf src);
  after_app buf a b : after (after buf a) b = after buf (a ++ b);
  fits_after buf a k : 0 <= k -> fits buf (zlen a + k) -> fits (after buf a) k;
  fits_mono buf k k' : k' <= k -> fits buf k -> fits buf k'
}.

#[export, refine] Instance BytesMutLaws : BufMutLaws bytes := {|
  after buf src := buf ++ src; fits _ _ := True |}.
Proof. 1: done. 2,3: done. intros. by rewrite app_assoc. Defined.

#[export, refine] Instance SliceMutLaws : BufMutLaws Cursor := {|
  after cur src := mkCursor (passed cur ++ src) (slice_from_ (left_ cur) (zlen src));
  fits cur k := k <= zlen (left_ cur) |}.
Proof.
  - intros cur src Hf. unfold put_slice, SliceMut. by rewrite (proj2 (Z.leb_le _ _) Hf).
  - intros cur a b. cbn [passed left_]. rewrite <- app_assoc. f_equal.
    unfold slice_from_. rewrite drop_drop, zlen_app. f_equal. unfold zlen. lia.
  - intros cur a k Hk Hf. cbn [left_]. unfold slice_from_. rewrite zlen_drop. unfold zlen in *. lia.
  - intros. lia.
Defined.

Section puts.
Context {B : Type} `{!BufMut B} `{!BufMutLaws B}.

Lemma put_vu_after (buf : B) v : is_u64 v -> fits buf (zlen (varu64_bytes v)) -> put_vu buf v = Some (after buf (varu64_bytes v)).
Proof.
  intros Hv Hf. unfold put_vu. rewrite (write_varu64_total (replicate 9 0) v Hv) by done.
  rewrite <- (put_slice_after buf) by done. cbn [mbind option_bind]. f_equal.
  apply (slice_mid [] (varu64_bytes v)); [done|]. by rewrite zlen_nil, zlen_varu64_bytes.
Qed.

(** The next write, after [done_] of the [total] bytes there is room for. *)
Lemma fits_next (buf : B) (done_ next : bytes) k :
  fits buf k -> zlen done_ + zlen next <= k -> fits (after buf done_) (zlen next).
Proof. intros Hf Hk. apply fits_after; [zlen_lia|]. by eapply fits_mono. Qed.

Lemma put_tlv_after (buf : B) (done_ : bytes) k t v :
  fits buf k -> is_u64 t -> zlen v <= u64_max -> zlen (done_ ++ tlv_bytes t v) <= k ->
  put_tlv (after buf done_) t v = Some (after buf (done_ ++ tlv_bytes t v)).
Proof.
  intros Hf Ht Hv Hk. unfold tlv_bytes in *. rewrite !zlen_app in Hk. unfold put_tlv.
  pose proof (zlen_nonneg v). pose proof (zlen_nonneg (varu64_bytes (zlen v))).
  rewrite put_vu_after; [|done|eapply fits_next; [exact Hf|lia]]. cbn [mbind option_bind]. rewrite after_app.
  rewrite put_vu_after; [|unfold is_u64; lia|eapply fits_next; [exact Hf|rewrite zlen_app; lia]]. cbn [mbind option_bind]. rewrite after_app.
  rewrite put_slice_after; [|eapply fits_next; [exact Hf|rewrite !zlen_app; lia]]. by rewrite after_app, <- !app_assoc.
Qed.

Lemma put_opt_after {A} (buf : B) (done_ : bytes) k t (f : A -> bytes) (o : option A) :
  fits buf k -> is_u64 t -> (forall a, o = Some a -> zlen (f a) <= u64_max) ->
  zlen (done_ ++ elems_wire (opt_elem t (f <$> o))) <= k ->
  match o with Some a => put_tlv (after buf done_) t (f a) | None => Some (after buf done_) end
  = Some (after buf (done_ ++ elems_wire (opt_elem t (f <$> o)))).
Proof.
  intros Hf Ht Hv Hk. destruct o as [a|]; cbn [fmap option_fmap option_map opt_elem] in *.
  - rewrite elems_wire_one in *. cbn [fst snd] in *. eapply put_tlv_after; eauto.
  - change (elems_wire []) with (@nil Z). by rewrite app_nil_r.
Qed.

Lemma put_components_after (buf : B) k n : forall done_ : bytes,
  fits buf k -> Forall comp_sized n -> zlen (done_ ++ name_wire n) <= k ->
  put_components (after buf done_) n = Some (after buf (done_ ++ name_wire n)).
Proof.
  induction n as [|c n IH]; intros done_ Hf Hn Hk; cbn [put_components]; [by rewrite app_nil_r|].
  apply Forall_cons in Hn as [[Ht Hv] Hn]. rewrite name_wire_cons, app_assoc in *.
  erewrite put_tlv_after; [|exact Hf|done|done|rewrite !zlen_app in *; pose proof (zlen_nonneg (name_wire n)); lia].
  cbn [mbind option_bind]. by apply IH.
Qed.
End puts.

(** *** The elements of a Data packet *)

Definition meta_elems (b : DataBuilder) : list elem :=
  opt_elem packet_type.CONTENT_TYPE (enc_nni <$> db_content_type b) ++
  opt_elem packet_type.FRESHNESS_PERIOD ((fun f => enc_nni (as_millis f)) <$> db_freshness b) ++
  opt_elem packet_type.FINAL_BLOCK_ID (id <$> db_final_block_id b).
Definition meta_of (b : DataBuilder) : list elem :=
  match meta_elems b with [] => [] | es => [(packet_type.META_INFO, elems_wire es)] end.
Definition data_elems (b : DataBuilder) : list elem :=
  (tlv_type.NAME, name_wire (db_name b)) :: meta_of b ++ [(packet_type.CONTENT, db_content b)].

(** The builder's fields are bytes of a packet that fits the address space. *)
Record db_ok (b : DataBuilder) : Prop := {
  db_wf_name : wf_name (db_name b);
  db_wf_content : wf_bytes (db_content b);
  db_wf_final : forall v, db_final_block_id b = Some v -> wf_bytes v;
  db_wf_type : forall v, db_content_type b = Some v -> is_u64 v;
  db_size : zlen (elems_wire (data_elems b)) + 500 <= usize_max
}.

Section data_sizes.
Context (b : DataBuilder) (Hb : db_ok b).

Lemma data_elems_wire : elems_wire (data_elems b) =
  tlv_bytes tlv_type.NAME (name_wire (db_name b)) ++ elems_wire (meta_of b) ++ tlv_bytes packet_type.CONTENT (db_content b).
Proof. unfold data_elems. by rewrite elems_wire_cons, elems_wire_app, elems_wire_one. Qed.

Lemma data_parts :
  zlen (tlv_bytes tlv_type.NAME (name_wire (db_name b))) + zlen (elems_wire (meta_of b)) +
  zlen (tlv_bytes packet_type.CONTENT (db_content b)) + 200 <= usize_max.
Proof. pose proof (db_size b Hb) as H. rewrite data_elems_wire, !zlen_app in H. lia. Qed.

Lemma name_size : zlen (name_wire (db_name b)) + 200 <= usize_max /\ name_fits (db_name b).
Proof.
  pose proof data_parts as H. rewrite !zlen_tlv_bytes in H.
  pose proof (tlv_size_bounds tlv_type.NAME (zlen (name_wire (db_name b))) (zlen_nonneg _)).
  pose proof (tlv_size_bounds packet_type.CONTENT (zlen (db_content b)) (zlen_nonneg _)).
  pose proof (zlen_nonneg (elems_wire (meta_of b))). pose proof (zlen_nonneg (db_content b)).
  split; [lia|]. split; [apply Hb|lia].
Qed.
Lemma content_size : zlen (db_content b) + 200 <= usize_max.
Proof.
  pose proof data_parts as H. rewrite !zlen_tlv_bytes in H.
  pose proof (tlv_size_bounds tlv_type.NAME (zlen (name_wire (db_name b))) (zlen_nonneg _)).
  pose proof (tlv_size_bounds packet_type.CONTENT (zlen (db_content b)) (zlen_nonneg _)).
  pose proof (zlen_nonneg (elems_wire (meta_of b))). pose proof (zlen_nonneg (name_wire (db_name b))). lia.
Qed.
Lemma meta_size : zlen (elems_wire (meta_elems b)) + 200 <= usize_max.
Proof.
  pose proof data_parts as H. unfold meta_of in H. pose proof (zlen_nonneg (tlv_bytes tlv_type.NAME (name_wire (db_name b)))).
  pose proof (zlen_nonneg (tlv_bytes packet_type.CONTENT (db_content b))).
  destruct (meta_elems b) as [|e es]; [by vm_compute|]. rewrite elems_wire_one in H. cbn [fst snd] in H. rewrite (zlen_tlv_bytes packet_type.META_INFO) in H.
  pose proof (tlv_size_bounds packet_type.META_INFO _ (zlen_nonneg (elems_wire (e :: es)))). lia.
Qed.
Lemma final_size v : db_final_block_id b = Some v -> zlen v <= u64_max.
Proof.
  intros Hv. pose proof meta_size as H. unfold meta_elems in H. rewrite Hv in H.
  rewrite !elems_wire_app, !zlen_app in H. cbn [fmap option_fmap option_map opt_elem id] in H. rewrite elems_wire_one in H.
  cbn [fst snd] in H. rewrite zlen_tlv_bytes in H. pose proof (tlv_size_bounds packet_type.FINAL_BLOCK_ID (zlen v) (zlen_nonneg v)).
  pose proof (zlen_nonneg (elems_wire (opt_elem packet_type.CONTENT_TYPE (enc_nni <$> db_content_type b)))).
  pose proof (zlen_nonneg (elems_wire (opt_elem packet_type.FRESHNESS_PERIOD ((λ f : Z, enc_nni (as_millis f)) <$> db_freshness b)))).
  unfold usize_max in H. lia.
Qed.

(** The size computation is the size of what is written. *)
Lemma sizes_spec : compute_sizes b = mkSizes (zlen (name_wire (db_name b)))
  (zlen (tlv_bytes tlv_type.NAME (name_wire (db_name b)))) (zlen (elems_wire (meta_elems b)))
  (zlen (elems_wire (meta_of b))) (zlen (tlv_bytes packet_type.CONTENT (db_content b))).
Proof.
  unfold compute_sizes. cbv beta zeta.
  assert (foldr Z.add 0 (map (fun c => varu64_size (typ c) + varu64_size (zlen (value c)) + zlen (value c)) (db_name b))
    = zlen (name_wire (db_name b))) as ->.
  { clear Hb. induction (db_name b) as [|c n IH]; [done|]. rewrite name_wire_cons, zlen_app, zlen_tlv_bytes. cbn [map foldr].
    rewrite IH. unfold tlv_size. lia. }
  assert (forall s : Z, s = zlen (elems_wire (meta_elems b)) ->
    (if 0 <? s then varu64_size packet_type.META_INFO + varu64_size s + s else 0) = zlen (elems_wire (meta_of b))) as Hm.
  { intros s ->. unfold meta_of. destruct (meta_elems b) as [|e es]; [done|]. rewrite elems_wire_one, zlen_tlv_bytes.
    cbn [fst snd]. rewrite (proj2 (Z.ltb_lt _ _)); [done|]. rewrite elems_wire_cons, zlen_app, zlen_tlv_bytes.
    pose proof (tlv_size_bounds e.1 (zlen e.2) (zlen_nonneg _)). pose proof (zlen_nonneg e.2). pose proof (zlen_nonneg (elems_wire es)). lia. }
  match goal with |- mkSizes _ _ ?s _ _ = _ => set (mi := s) end.
  assert (mi = zlen (elems_wire (meta_elems b))) as Hmi.
  { unfold mi, meta_elems. rewrite !elems_wire_app, !zlen_app.
    destruct (db_content_type b), (db_freshness b), (db_final_block_id b); cbn [fmap option_fmap option_map opt_elem id];
      rewrite ?elems_wire_one, ?zlen_tlv_bytes; change (elems_wire []) with (@nil Z); rewrite ?zlen_nil; unfold tlv_size, id; cbn [fst snd]; unfold zlen; cbn [length]; lia. }
  rewrite (Hm mi Hmi), Hmi, !zlen_tlv_bytes. reflexivity.
Qed.
End data_sizes.

Lemma write_fields_after {B} `{!BufMut B} `{!BufMutLaws B} (buf : B) (done_ : bytes) k b :
  db_ok b -> fits buf k -> zlen (done_ ++ elems_wire (data_elems b)) <= k ->
  write_fields (after buf done_) b (compute_sizes b) = Some (after buf (done_ ++ elems_wire (data_elems b))).
Proof.
  intros Hb Hf Hk. rewrite (sizes_spec b), data_elems_wire in *. unfold write_fields. cbn [comps_inner mi_inner].
  destruct (name_size b Hb) as [Hns Hnf]. pose proof (content_size b Hb). pose proof (meta_size b Hb) as Hms.
  pose proof (zlen_nonneg (name_wire (db_name b))). pose proof (zlen_nonneg (elems_wire (meta_elems b))).
  rewrite !zlen_app in Hk. pose proof (zlen_nonneg (elems_wire (meta_of b))). pose proof (zlen_nonneg (tlv_bytes packet_type.CONTENT (db_content b))).
  unfold tlv_bytes at 1 in Hk. rewrite !zlen_app in Hk. pose proof (zlen_nonneg (varu64_bytes (zlen (name_wire (db_name b))))).
  rewrite put_vu_after; [|done|eapply fits_next; [exact Hf|lia]]. cbn [mbind option_bind]. rewrite after_app.
  rewrite put_vu_after; [|unfold is_u64; unfold usize_max in *; lia|eapply fits_next; [exact Hf|rewrite zlen_app; lia]]. cbn [mbind option_bind]. rewrite after_app.
  erewrite put_components_after; [|exact Hf|apply wire_comps_sized; [apply Hb|lia]|rewrite !zlen_app; lia]. cbn [mbind option_bind].
  match goal with |- context [after buf ?x] => set (d1 := x) end.
  assert (d1 = done_ ++ tlv_bytes tlv_type.NAME (name_wire (db_name b))) as Hd1 by (unfold d1, tlv_bytes; by rewrite <- !app_assoc).
  assert (zlen d1 + zlen (elems_wire (meta_of b)) + zlen (tlv_bytes packet_type.CONTENT (db_content b)) <= k) as Hk1
    by (rewrite Hd1; unfold tlv_bytes at 1; rewrite !zlen_app; lia).
  rewrite (app_assoc done_), <- Hd1. clearbody d1. clear Hd1 Hk.
  match goal with |- (match ?m with Some _ => _ | None => _ end) = _ => assert (m = Some (after buf (d1 ++ elems_wire (meta_of b)))) as Hm end.
  { destruct (meta_elems b) as [|e es] eqn:He; unfold meta_of in *; rewrite He in *.
    { change (elems_wire []) with (@nil Z). by rewrite app_nil_r. }
    assert (0 < zlen (elems_wire (e :: es))) as Hpos.
    { rewrite elems_wire_cons, zlen_app, zlen_tlv_bytes.
      pose proof (tlv_size_bounds e.1 (zlen e.2) (zlen_nonneg _)). pose proof (zlen_nonneg e.2). pose proof (zlen_nonneg (elems_wire es)). lia. }
    rewrite (proj2 (Z.ltb_lt _ _) Hpos). rewrite elems_wire_one in *. cbn [fst snd] in *. unfold tlv_bytes at 1. unfold tlv_bytes at 1 in Hk1.
    rewrite <- He in *. clear He Hpos e es. rewrite !zlen_app in Hk1.
    pose proof (zlen_nonneg (varu64_bytes (zlen (elems_wire (meta_elems b))))). pose proof (zlen_nonneg (varu64_bytes packet_type.META_INFO)).
    assert (forall z : Z, zlen (enc_nni z) <= u64_max) as Hn by (intros z; pose proof (zlen_enc_nni z); unfold_bounds; lia).
    rewrite put_vu_after; [|done|eapply fits_next; [exact Hf|lia]]. cbn [mbind option_bind]. rewrite after_app.
    rewrite put_vu_after; [|unfold is_u64; unfold usize_max in *; lia|eapply fits_next; [exact Hf|rewrite zlen_app; lia]]. cbn [mbind option_bind]. rewrite after_app.
    unfold meta_elems in Hk1 |- *. rewrite !elems_wire_app in *. rewrite !zlen_app in Hk1.
    repeat match goal with |- context [elems_wire (opt_elem ?t ?o)] =>
      lazymatch goal with _ : 0 <= zlen (elems_wire (opt_elem t o)) |- _ => fail | _ => pose proof (zlen_nonneg (elems_wire (opt_elem t o))) end end.
    erewrite (put_opt_after _ _ _ _ enc_nni); [|exact Hf|done|done|rewrite !zlen_app; lia]. cbn [mbind option_bind].
    erewrite (put_opt_after _ _ _ _ (fun f => enc_nni (as_millis f))); [|exact Hf|done|done|rewrite !zlen_app; lia]. cbn [mbind option_bind].
    erewrite (put_opt_after _ _ _ _ id); [|exact Hf|done|by apply final_size|rewrite !zlen_app; lia].
    by rewrite <- !app_assoc. }
  rewrite Hm, (app_assoc d1). eapply put_tlv_after; [exact Hf|done|unfold usize_max in *; lia|rewrite !zlen_app; lia].
Qed.

(** The packet every variant writes. *)
Definition data_packet (b : DataBuilder) (sig_info sig_value : bytes) : bytes :=
  tlv_bytes packet_type.DATA (elems_wire (data_elems b) ++ sig_info ++ tlv_bytes packet_type.SIGNATURE_VALUE sig_value).

(** A digest function: 32 bytes. *)
Definition is_digest (h : bytes -> bytes) : Prop := forall x, zlen (h x) = 32 /\ wf_bytes (h x).

Lemma sig_value_tlv sv : zlen sv = 32 -> tlv_bytes packet_type.SIGNATURE_VALUE sv = [0x17; 0x20] ++ sv.
Proof. intros Hl. unfold tlv_bytes. by rewrite Hl. Qed.

Lemma signed_size_spec b si : db_ok b -> DataBuilder.signed_size b si = zlen (elems_wire (data_elems b) ++ si).
Proof.
  intros Hb. unfold DataBuilder.signed_size. rewrite sizes_spec by done. cbn [name_tlv metainfo_tlv content_tlv].
  rewrite data_elems_wire, !zlen_app. lia.
Qed.

(** Up to the signature, on any buffer with room for it. *)
Lemma put_signed_after {B} `{!BufMut B} `{!BufMutLaws B} (buf : B) k b si :
  db_ok b -> zlen si <= 100 -> fits buf k ->
  let value_len := zlen (elems_wire (data_elems b) ++ si) + SIGVALUE in
  let done_ := varu64_bytes packet_type.DATA ++ varu64_bytes value_len in
  zlen done_ + zlen (elems_wire (data_elems b) ++ si) <= k ->
  (let! buf := put_vu buf packet_type.DATA in
   let! buf := put_vu buf value_len in
   let! buf := write_fields buf b (compute_sizes b) in
   put_slice buf si) = Some (after buf (done_ ++ elems_wire (data_elems b) ++ si)).
Proof.
  intros Hb Hsi Hf value_len done_ Hk. pose proof (db_size b Hb) as Hz. pose proof (zlen_nonneg (elems_wire (data_elems b))).
  pose proof (zlen_nonneg si). unfold done_ in *. rewrite !zlen_app in Hk. pose proof (zlen_nonneg (varu64_bytes value_len)).
  assert (is_u64 value_len) as Hv by (unfold value_len, SIGVALUE; rewrite zlen_app; unfold is_u64, usize_max in *; lia).
  rewrite put_vu_after; [|done|eapply fits_mono; [|exact Hf]; lia]. cbn [mbind option_bind].
  rewrite put_vu_after; [|done|eapply fits_next; [exact Hf|lia]]. cbn [mbind option_bind]. rewrite after_app.
  erewrite write_fields_after; [|done|exact Hf|rewrite !zlen_app; lia]. cbn [mbind option_bind].
  rewrite put_slice_after; [|eapply fits_next; [exact Hf|rewrite !zlen_app; lia]]. by rewrite after_app, <- !app_assoc.
Qed.

Lemma sign_digest_spec hash b si : is_digest hash -> db_ok b -> zlen si <= 100 ->
  DataBuilder.sign_digest hash si b = Some (data_packet b si (hash (elems_wire (data_elems b) ++ si))).
Proof.
  intros Hh Hb Hsi. destruct (Hh (elems_wire (data_elems b) ++ si)) as [Hl _]. unfold DataBuilder.sign_digest.
  rewrite signed_size_spec by done.
  pose proof (put_signed_after (@nil Z) (zlen (varu64_bytes packet_type.DATA ++ varu64_bytes (zlen (elems_wire (data_elems b) ++ si) + SIGVALUE)) +
    zlen (elems_wire (data_elems b) ++ si)) b si Hb Hsi I ltac:(cbv zeta; lia)) as Hput. cbv zeta in Hput.
  destruct (put_vu [] packet_type.DATA) as [b1|] eqn:E1; [|done]. cbn [mbind option_bind] in *.
  destruct (put_vu b1 _) as [b2|] eqn:E2; [|done]. cbn [mbind option_bind] in *.
  assert (b2 = varu64_bytes packet_type.DATA ++ varu64_bytes (zlen (elems_wire (data_elems b) ++ si) + SIGVALUE)) as Hb2.
  { pose proof (db_size b Hb) as Hz. pose proof (zlen_nonneg (elems_wire (data_elems b))). pose proof (zlen_nonneg si).
    rewrite put_vu_after in E1 by done. injection E1 as <-. rewrite put_vu_after in E2; [by injection E2|  |done].
    unfold SIGVALUE. rewrite zlen_app. unfold is_u64, usize_max in *. lia. }
  destruct (write_fields b2 b _) as [b3|]; [|done]. cbn [mbind option_bind] in *. rewrite Hput. cbn [mbind option_bind].
  cbn [after BytesMutLaws app]. rewrite <- Hb2, app_assoc in *. clear Hput E1 E2.
  match goal with |- context [negb (?x =? ?y)] => replace (x =? y) with true by (symmetry; apply Z.eqb_eq; rewrite !zlen_app; lia) end.
  cbn [negb]. rewrite <- (app_assoc b2), slice_from_app. unfold put_slice, BytesMut. cbn [mbind option_bind].
  match goal with |- context [negb (?x =? ?y)] => replace (x =? y) with true end.
  2:{ symmetry. apply Z.eqb_eq. rewrite !zlen_app, Hl, Hb2, zlen_app, !zlen_varu64_bytes, !zlen_app. unfold DataBuilder.header_size, SIGVALUE.
      change (zlen [0x17; 0x20]) with 2. lia. }
  cbn [negb]. f_equal. unfold data_packet, tlv_bytes at 1. rewrite sig_value_tlv by done. rewrite Hb2, <- !app_assoc. do 2 f_equal.
  f_equal. rewrite !zlen_app, Hl. unfold SIGVALUE. change (zlen [0x17; 0x20]) with 2. lia.
Qed.

Lemma copy_at_mid (a x c src : bytes) i :
  i = zlen a -> zlen x = zlen src -> copy_at (a ++ x ++ c) i src = Some (a ++ src ++ c).
Proof.
  intros -> Hx. unfold copy_at. rewrite !zlen_app. pose proof (zlen_nonneg c).
  rewrite (proj2 (Z.leb_le _ _)) by lia. f_equal. f_equal; [apply take_0_app; unfold zlen; lia|].
  f_equal. rewrite app_assoc. apply drop_0_app. rewrite length_app. unfold zlen in *. lia.
Qed.

Lemma zlen_data_packet b si sv : zlen sv = 32 -> zlen (data_packet b si sv) =
  DataBuilder.header_size (zlen (elems_wire (data_elems b) ++ si) + SIGVALUE) + (zlen (elems_wire (data_elems b) ++ si) + SIGVALUE).
Proof.
  intros Hl. unfold data_packet. rewrite zlen_tlv_bytes, sig_value_tlv by done. unfold tlv_size, DataBuilder.header_size, SIGVALUE.
  rewrite !zlen_app, Hl. change (zlen [0x17; 0x20]) with 2.
  replace (zlen (elems_wire (data_elems b)) + (zlen si + (2 + 32))) with (zlen (elems_wire (data_elems b)) + zlen si + 34) by lia. done.
Qed.

Lemma encode_into_spec sha256 b out : is_digest sha256 -> db_ok b ->
  let wire := data_packet b SIGINFO_DIGEST_SHA256 (sha256 (elems_wire (data_elems b) ++ SIGINFO_DIGEST_SHA256)) in
  DataBuilder.encode_digest_sha256_into sha256 b out =
    if zlen out <? zlen wire then None else Some (wire ++ slice_from_ out (zlen wire), zlen wire).
Proof.
  intros Hh Hb wire. set (si := SIGINFO_DIGEST_SHA256) in *. set (region := elems_wire (data_elems b) ++ si) in *.
  destruct (Hh region) as [Hl _]. pose proof (zlen_data_packet b si (sha256 region) Hl) as Hw. fold region in Hw. fold wire in Hw.
  unfold DataBuilder.encode_digest_sha256_into. fold si. rewrite signed_size_spec by done. fold region. rewrite <- Hw.
  destruct (Z.ltb_spec (zlen out) (zlen wire)) as [Hlt|Hge]; [done|].
  set (hdr := varu64_bytes packet_type.DATA ++ varu64_bytes (zlen region + SIGVALUE)).
  assert (DataBuilder.header_size (zlen region + SIGVALUE) = zlen hdr) as Hh2
    by (unfold hdr, DataBuilder.header_size; by rewrite zlen_app, !zlen_varu64_bytes).
  rewrite Hh2 in *. set (cur := mkCursor [] (slice out 0 (zlen wire))).
  assert (zlen (left_ cur) = zlen wire) as Hcur by (unfold cur; cbn [left_]; rewrite zlen_slice; zlen_lia).
  pose proof (put_signed_after cur (zlen wire) b si Hb ltac:(by vm_compute)) as Hput. cbv zeta in Hput. fold region hdr in Hput.
  specialize (Hput ltac:(cbn [fits SliceMutLaws]; lia) ltac:(unfold SIGVALUE in *; lia)).
  destruct (put_vu cur packet_type.DATA) as [b1|]; [|done]. cbn [mbind option_bind] in *.
  destruct (put_vu b1 _) as [b2|]; [|done]. cbn [mbind option_bind] in *.
  destruct (write_fields b2 b _) as [b3|]; [|done]. cbn [mbind option_bind] in *. rewrite Hput. cbn [mbind option_bind].
  cbn [after SliceMutLaws passed left_ cur app]. clear Hput.
  set (gap := slice_from_ (slice out 0 (zlen wire)) (zlen (hdr ++ region))).
  assert (zlen gap = 34) as Hgap.
  { unfold gap. rewrite zlen_slice_from; rewrite zlen_slice; rewrite ?zlen_app; unfold SIGVALUE in *; zlen_lia. }
  destruct gap as [|g0 [|g1 gap]]; [done|done|]. rewrite !zlen_cons in Hgap. set (tail := slice_from_ out (zlen wire)).
  assert (slice ((hdr ++ region) ++ (g0 :: g1 :: gap) ++ tail) (zlen hdr) (zlen hdr + zlen region) = region) as ->
    by (rewrite <- app_assoc; by apply slice_mid).
  rewrite (copy_at_mid (hdr ++ region) [g0] ((g1 :: gap) ++ tail) [0x17]) by (rewrite ?zlen_app; done). cbn [mbind option_bind].
  assert ((hdr ++ region) ++ [0x17] ++ (g1 :: gap) ++ tail = ((hdr ++ region) ++ [0x17]) ++ [g1] ++ gap ++ tail) as -> by by rewrite <- !app_assoc.
  rewrite (copy_at_mid ((hdr ++ region) ++ [0x17]) [g1] (gap ++ tail) [0x20]); [|rewrite !zlen_app; by change (zlen [0x17]) with 1|done]. cbn [mbind option_bind].
  assert (((hdr ++ region) ++ [0x17]) ++ [0x20] ++ gap ++ tail = ((hdr ++ region) ++ [0x17; 0x20]) ++ gap ++ tail) as -> by by rewrite <- !app_assoc.
  rewrite (copy_at_mid ((hdr ++ region) ++ [0x17; 0x20]) gap tail (sha256 region)); [|rewrite !zlen_app; change (zlen [0x17; 0x20]) with 2; lia|lia].
  cbn [mbind option_bind]. do 2 f_equal. rewrite app_assoc. f_equal. unfold wire, data_packet, tlv_bytes at 1.
  rewrite sig_value_tlv by done.
  assert (elems_wire (data_elems b) ++ si ++ [0x17; 0x20] ++ sha256 region = region ++ [0x17; 0x20] ++ sha256 region) as ->
    by (unfold region; by rewrite <- app_assoc).
  unfold hdr. rewrite <- !app_assoc. do 3 f_equal.
  rewrite !zlen_app, Hl. unfold SIGVALUE. change (zlen [0x17; 0x20]) with 2. lia.
Qed.

(** *** The writer's path *)

Lemma buf_write_nni_elems w es t v : buf w = elems_wire es -> is_u64 t -> buf (write_nni w t v) = elems_wire (es ++ [(t, enc_nni v)]).
Proof. intros Hw Ht. apply write_tlv_elems; [done|done|]. pose proof (zlen_enc_nni v). unfold_bounds. lia. Qed.

Lemma write_opt_nni {A} w es t (f : A -> Z) (o : option A) : buf w = elems_wire es -> is_u64 t ->
  buf (match o with Some a => write_nni w t (f a) | None => w end) = elems_wire (es ++ opt_elem t ((fun a => enc_nni (f a)) <$> o)).
Proof.
  intros Hw Ht. destruct o as [a|]; cbn [fmap option_fmap option_map opt_elem]; [by apply buf_write_nni_elems|by rewrite app_nil_r].
Qed.

Lemma write_nested_elems w es t f v : buf w = elems_wire es -> is_u64 t -> buf (f new) = v -> zlen v <= u64_max ->
  buf (write_nested w t f) = elems_wire (es ++ [(t, v)]).
Proof. intros Hw Ht <- Hl. rewrite buf_write_nested, Hw, elems_wire_app, elems_wire_one by done. done. Qed.

Lemma write_name_elems w es n : buf w = elems_wire es -> name_fits n ->
  buf (write_name w n) = elems_wire (es ++ [(tlv_type.NAME, name_wire n)]).
Proof. intros Hw Hn. rewrite buf_write_name, Hw, elems_wire_app, elems_wire_one by done. done. Qed.

Lemma has_meta b :
  bool_decide (is_Some (db_content_type b)) || bool_decide (is_Some (db_freshness b)) || bool_decide (is_Some (db_final_block_id b))
  = match meta_elems b with [] => false | _ => true end.
Proof. unfold meta_elems. by destruct (db_content_type b), (db_freshness b), (db_final_block_id b). Qed.

Lemma write_inner_elems w es b : db_ok b -> buf w = elems_wire es ->
  buf (DataBuilder.write_inner w b) = elems_wire (es ++ data_elems b).
Proof.
  intros Hb Hw. unfold DataBuilder.write_inner. destruct (name_size b Hb) as [_ Hn]. pose proof (content_size b Hb).
  replace (es ++ data_elems b) with (((es ++ [(tlv_type.NAME, name_wire (db_name b))]) ++ meta_of b) ++ [(packet_type.CONTENT, db_content b)])
    by (unfold data_elems; by rewrite <- !app_assoc).
  apply write_tlv_elems; [|done|unfold usize_max in *; lia]. rewrite has_meta.
  pose proof (write_name_elems w es (db_name b) Hw Hn) as Hw1. set (w1 := write_name w (db_name b)) in *. clearbody w1. unfold meta_of.
  pose proof (meta_size b Hb). destruct (meta_elems b) as [|e l] eqn:He; [by rewrite app_nil_r|]. rewrite <- He in *. clear He.
  apply write_nested_elems; [done|done| |unfold usize_max in *; lia].
  unfold meta_elems. rewrite app_assoc. apply (write_opt_elems _ _ _ id); [|done|by apply final_size].
  apply (write_opt_nni _ _ _ as_millis); [|done]. by apply (write_opt_nni _ [] _ (fun x => x)).
Qed.

(** The SignatureInfo the callbacks' variants write. *)
Definition sig_info_elems (st : SignatureType) (kl : option Name) : list elem :=
  (packet_type.SIGNATURE_TYPE, enc_nni (SignatureType.code st)) ::
  opt_elem packet_type.KEY_LOCATOR ((fun n => tlv_bytes tlv_type.NAME (name_wire n)) <$> kl).

Definition locator_fits (kl : option Name) : Prop :=
  forall n, kl = Some n -> wf_name n /\ zlen (name_wire n) + 200 <= usize_max.

Lemma write_locator w es kl : buf w = elems_wire es -> locator_fits kl ->
  buf (match kl with Some n => write_nested w packet_type.KEY_LOCATOR (fun w => write_name w n) | None => w end)
  = elems_wire (es ++ opt_elem packet_type.KEY_LOCATOR ((fun n => tlv_bytes tlv_type.NAME (name_wire n)) <$> kl)).
Proof.
  intros Hw Hkl. destruct kl as [n|]; cbn [fmap option_fmap option_map opt_elem]; [|by rewrite app_nil_r].
  destruct (Hkl n eq_refl) as [Hn Hl]. apply write_nested_elems; [done|done| |].
  - rewrite buf_write_name; [done|]. split; [done|lia].
  - rewrite zlen_tlv_bytes. pose proof (tlv_size_bounds tlv_type.NAME (zlen (name_wire n)) (zlen_nonneg _)). unfold usize_max in *. lia.
Qed.

Lemma zlen_locator kl : zlen (elems_wire (opt_elem packet_type.KEY_LOCATOR ((fun n => tlv_bytes tlv_type.NAME (name_wire n)) <$> kl)))
  <= 36 + match kl with Some n => zlen (name_wire n) | None => 0 end.
Proof.
  destruct kl as [n|]; cbn [fmap option_fmap option_map opt_elem]; [|by vm_compute]. rewrite elems_wire_one. cbn [fst snd]. rewrite !zlen_tlv_bytes.
  pose proof (tlv_size_bounds tlv_type.NAME (zlen (name_wire n)) (zlen_nonneg _)). pose proof (zlen_nonneg (name_wire n)).
  pose proof (tlv_size_bounds packet_type.KEY_LOCATOR (tlv_size tlv_type.NAME (zlen (name_wire n))) ltac:(lia)). lia.
Qed.

Lemma zlen_sig_info_elems st kl : zlen (elems_wire (sig_info_elems st kl)) <= 80 + match kl with Some n => zlen (name_wire n) | None => 0 end.
Proof.
  unfold sig_info_elems. rewrite elems_wire_cons, zlen_app. cbn [fst snd]. pose proof (zlen_locator kl).
  rewrite enc_nni_spec. pose proof (zlen_tlv_nni packet_type.SIGNATURE_TYPE (SignatureType.code st)). lia.
Qed.

Lemma write_sig_info_elems w es st kl : buf w = elems_wire es -> locator_fits kl ->
  buf (DataBuilder.write_sig_info w st kl) = elems_wire (es ++ [(packet_type.SIGNATURE_INFO, elems_wire (sig_info_elems st kl))]).
Proof.
  intros Hw Hkl. apply write_nested_elems; [done|done| |].
  - apply (write_locator _ [_]); [|done]. by apply (buf_write_nni_elems _ []).
  - pose proof (zlen_sig_info_elems st kl). destruct kl as [n|]; [destruct (Hkl n eq_refl)|]; unfold_bounds; lia.
Qed.

Definition signed_part (b : DataBuilder) (st : SignatureType) (kl : option Name) : bytes :=
  elems_wire (data_elems b ++ [(packet_type.SIGNATURE_INFO, elems_wire (sig_info_elems st kl))]).

(** Room for the whole packet. *)
Definition packet_fits (b : DataBuilder) (st : SignatureType) (kl : option Name) (sv : bytes) : Prop :=
  zlen (signed_part b st kl) + zlen sv + 200 <= usize_max.

Section writer_path.
Context (b : DataBuilder) (st : SignatureType) (kl : option Name) (Hb : db_ok b) (Hkl : locator_fits kl).

Lemma signed_region_spec : finish (DataBuilder.write_inner new b) ++ finish (DataBuilder.write_sig_info new st kl) = signed_part b st kl.
Proof.
  unfold finish. rewrite (write_inner_elems new [] b Hb eq_refl), (write_sig_info_elems new [] st kl eq_refl Hkl).
  symmetry. apply (elems_wire_app (data_elems b)).
Qed.

Lemma sign_wire sv : packet_fits b st kl sv ->
  finish (write_nested new packet_type.DATA (fun w => write_tlv (write_raw w (signed_part b st kl)) packet_type.SIGNATURE_VALUE sv)) =
  tlv_bytes packet_type.DATA (signed_part b st kl ++ tlv_bytes packet_type.SIGNATURE_VALUE sv).
Proof.
  unfold packet_fits, finish. intros Hf. pose proof (zlen_nonneg (signed_part b st kl)). pose proof (zlen_nonneg sv).
  assert (buf (write_tlv (write_raw new (signed_part b st kl)) packet_type.SIGNATURE_VALUE sv)
    = signed_part b st kl ++ tlv_bytes packet_type.SIGNATURE_VALUE sv) as Hin
    by (rewrite buf_write_tlv; [done|done|unfold usize_max in *; lia]).
  rewrite buf_write_nested; rewrite ?Hin; [done|done|].
  rewrite zlen_app, zlen_tlv_bytes. pose proof (tlv_size_bounds packet_type.SIGNATURE_VALUE (zlen sv) ltac:(lia)). unfold usize_max in *. lia.
Qed.

Lemma sign_spec f : packet_fits b st kl (f (signed_part b st kl)) ->
  DataBuilder.sign b st kl f = tlv_bytes packet_type.DATA
    (signed_part b st kl ++ tlv_bytes packet_type.SIGNATURE_VALUE (f (signed_part b st kl))).
Proof. intros Hf. unfold DataBuilder.sign. rewrite signed_region_spec. by apply sign_wire. Qed.

Lemma sign_sync_spec f : packet_fits b st kl (f (signed_part b st kl)) ->
  DataBuilder.sign_sync b st kl f = DataBuilder.sign b st kl f.
Proof.
  intros Hf. rewrite sign_spec by done. unfold DataBuilder.sign_sync.
  assert (slice_from (DataBuilder.write_sig_info (DataBuilder.write_inner new b) st kl) (len new) = signed_part b st kl) as ->.
  { unfold slice_from, slice_from_. rewrite (write_sig_info_elems _ (data_elems b) st kl); [done| |done]. by apply (write_inner_elems new [] b Hb). }
  revert Hf. unfold packet_fits. set (sv := f _). intros Hf. pose proof (zlen_nonneg (signed_part b st kl)). pose proof (zlen_nonneg sv).
  pose proof (tlv_size_bounds packet_type.SIGNATURE_VALUE (zlen sv) ltac:(lia)) as Hts. unfold tlv_size in Hts.
  unfold finish. rewrite buf_write_tlv by (done || (unfold usize_max in *; lia)). cbn [buf write_raw].
  unfold write_varu64. rewrite !buf_write_varu64_inner by (done || (unfold is_u64, usize_max in *; lia)). cbn [buf new app].
  unfold tlv_bytes at 2. rewrite <- !app_assoc. do 3 f_equal. rewrite zlen_app, zlen_tlv_bytes. unfold tlv_size. lia.
Qed.
End writer_path.

(** ** What the decoders make of it *)

(** A signature type that is its own reading: no registered code in [OtherSig]. *)
Definition plain_type (st : SignatureType) : Prop :=
  is_u64 (SignatureType.code st) /\ SignatureType.from_code (SignatureType.code st) = st.

Lemma decode_enc_nni v : is_u64 v -> decode_nni (enc_nni v) = Ok v.
Proof. rewrite enc_nni_spec. apply decode_nni_bytes. Qed.

Lemma locator_decodes n kl : wf_name n -> zlen (name_wire n) + 200 <= usize_max ->
  SignatureInfo.key_locator_of (tlv_bytes tlv_type.NAME (name_wire n)) kl = Ok (Some (LocatorName n)).
Proof.
  intros Hn Hl. unfold SignatureInfo.key_locator_of.
  pose proof (tlv_size_bounds tlv_type.NAME (zlen (name_wire n)) (zlen_nonneg _)) as Hz. pose proof (zlen_nonneg (name_wire n)).
  rewrite zlen_tlv_bytes, (proj2 (Z.eqb_neq _ _)) by lia.
  destruct (first_tlv_ok tlv_type.NAME (name_wire n) []) as (r & Hr & _);
    [solve_closed|rewrite app_nil_r; apply wf_tlv_bytes; [done|by apply wf_name_wire]|rewrite app_nil_r, zlen_tlv_bytes; lia|].
  rewrite app_nil_r in Hr. rewrite Hr. cbn [Z.eqb]. rewrite Z.eqb_refl, decode_name_ok by (done || lia). done.
Qed.

(** The elements of a SignatureInfo: its type, its locator and what an Interest adds. *)
Lemma sig_info_fold st kl extra l' :
  plain_type st -> locator_fits kl ->
  fold_flow SignatureInfo.decode_body extra (SignatureInfo.mkLocals (Some st) (LocatorName <$> kl) None None None) = Ok (Next l') ->
  fold_flow SignatureInfo.decode_body (sig_info_elems st kl ++ extra) (SignatureInfo.mkLocals None None None None None) = Ok (Next l').
Proof.
  intros [Hc Hst] Hkl Hex. unfold sig_info_elems. cbn [app fold_flow].
  change (SignatureInfo.decode_body (SignatureInfo.mkLocals None None None None None) packet_type.SIGNATURE_TYPE (enc_nni (SignatureType.code st)))
    with (let? code := decode_nni (enc_nni (SignatureType.code st)) in
          Ok (Next (A := Empty_set) (SignatureInfo.mkLocals (Some (SignatureType.from_code code)) None None None None))).
  rewrite decode_enc_nni by done. rewrite Hst. destruct kl as [n|]; cbn [fmap option_fmap option_map opt_elem app fold_flow] in *; [|done].
  change (SignatureInfo.decode_body (SignatureInfo.mkLocals (Some st) None None None None) packet_type.KEY_LOCATOR (tlv_bytes tlv_type.NAME (name_wire n)))
    with (let? kl := SignatureInfo.key_locator_of (tlv_bytes tlv_type.NAME (name_wire n)) None in
          Ok (Next (A := Empty_set) (SignatureInfo.mkLocals (Some st) kl None None None))).
  destruct (Hkl n eq_refl). by rewrite locator_decodes.
Qed.

Lemma wf_locator_elem kl : locator_fits kl ->
  Forall wf_elem (opt_elem packet_type.KEY_LOCATOR ((fun n => tlv_bytes tlv_type.NAME (name_wire n)) <$> kl)).
Proof.
  intros Hkl. apply wf_opt_elem; [solve_closed|]. intros v Hv. destruct kl as [n|]; [|done]. injection Hv as <-.
  destruct (Hkl n eq_refl). apply wf_tlv_bytes; [done|by apply wf_name_wire].
Qed.
Lemma wf_sig_info_elems st kl : locator_fits kl -> Forall wf_elem (sig_info_elems st kl).
Proof. intros Hkl. apply Forall_cons. split; [split; [solve_closed|apply wf_enc_nni]|by apply wf_locator_elem]. Qed.

Lemma data_sig_info_decodes st kl :
  plain_type st -> locator_fits kl -> SignatureInfo.locator_rule_broken st (LocatorName <$> kl) = false ->
  SignatureInfo.decode (elems_wire (sig_info_elems st kl)) = Ok (mkSignatureInfo st (LocatorName <$> kl) None None None).
Proof.
  intros Hst Hkl Hrule. unfold SignatureInfo.decode.
  rewrite scan_elems; [|by apply wf_sig_info_elems|].
  2:{ pose proof (zlen_sig_info_elems st kl). destruct kl as [n|]; [destruct (Hkl n eq_refl)|]; unfold_bounds; lia. }
  pose proof (sig_info_fold st kl [] _ Hst Hkl eq_refl) as Hf. rewrite app_nil_r in Hf. rewrite Hf. cbn [SignatureInfo.l_sig_type SignatureInfo.l_key_locator].
  by rewrite Hrule.
Qed.

(** The MetaInfo a reader sees. *)
Definition meta_info_of (b : DataBuilder) : option MetaInfo :=
  match meta_elems b with
  | [] => None
  | _ => Some (mkMetaInfo (match db_content_type b with Some ct => ContentType_from_code ct | None => Blob end)
                (as_millis <$> db_freshness b) (db_final_block_id b))
  end.

Lemma is_u64_as_millis d : is_u64 (as_millis d).
Proof. unfold as_millis, wrap. pose proof (Z.mod_pos_bound (d / 1000000) (2 ^ 64) ltac:(lia)). unfold_bounds. lia. Qed.

Lemma wf_meta_elems b : db_ok b -> Forall wf_elem (meta_elems b).
Proof.
  intros Hb. unfold meta_elems. rewrite !Forall_app. split_conj.
  - apply wf_opt_elem; [solve_closed|]. intros v Hv. destruct (db_content_type b); [|done]. injection Hv as <-. apply wf_enc_nni.
  - apply wf_opt_elem; [solve_closed|]. intros v Hv. destruct (db_freshness b); [|done]. injection Hv as <-. apply wf_enc_nni.
  - apply wf_opt_elem; [solve_closed|]. intros v Hv. destruct (db_final_block_id b) eqn:E; [|done]. injection Hv as <-. by eapply db_wf_final.
Qed.

Lemma meta_decodes b : db_ok b -> meta_elems b <> [] -> (let? mi := MetaInfo.decode (elems_wire (meta_elems b)) in Ok (Some mi)) = Ok (meta_info_of b).
Proof.
  intros Hb Hne. unfold MetaInfo.decode. rewrite scan_elems; [|by apply wf_meta_elems|pose proof (meta_size b Hb); lia].
  unfold meta_info_of. destruct (meta_elems b) as [|e es] eqn:He; [done|]. rewrite <- He. clear He Hne. unfold meta_elems.
  assert (forall s v, is_u64 v -> MetaInfo.decode_body s packet_type.CONTENT_TYPE (enc_nni v) =
    Ok (Next (mkMetaInfo (ContentType_from_code v) (freshness_period s) (final_block_id s)))) as H1.
  { intros [] v Hv. change (MetaInfo.decode_body (mkMetaInfo content_type freshness_period final_block_id) packet_type.CONTENT_TYPE (enc_nni v)) with
      (let? code := decode_nni (enc_nni v) in Ok (Next (A := Empty_set) (mkMetaInfo (ContentType_from_code code) freshness_period final_block_id))).
    by rewrite decode_enc_nni. }
  assert (forall s v, is_u64 v -> MetaInfo.decode_body s packet_type.FRESHNESS_PERIOD (enc_nni v) =
    Ok (Next (mkMetaInfo (content_type s) (Some v) (final_block_id s)))) as H2.
  { intros [] v Hv. change (MetaInfo.decode_body (mkMetaInfo content_type freshness_period final_block_id) packet_type.FRESHNESS_PERIOD (enc_nni v)) with
      (let? ms := decode_nni (enc_nni v) in Ok (Next (A := Empty_set) (mkMetaInfo content_type (Some ms) final_block_id))).
    by rewrite decode_enc_nni. }
  assert (forall s v, MetaInfo.decode_body s packet_type.FINAL_BLOCK_ID v = Ok (Next (mkMetaInfo (content_type s) (freshness_period s) (Some v)))) as H3 by by intros [].
  pose proof (db_wf_type b Hb) as Ht.
  destruct (db_content_type b) as [ct|], (db_freshness b) as [f|], (db_final_block_id b) as [fb|];
    cbn [fmap option_fmap option_map opt_elem app fold_flow id];
    rewrite ?H1 by auto; cbn [fold_flow]; rewrite ?H2 by apply is_u64_as_millis; cbn [fold_flow]; rewrite ?H3; done.
Qed.

(** A packet whose last element is its signature value. *)
Lemma data_decode_signed n es sv s :
  wf_name n -> n <> [] -> Forall wf_elem es -> wf_bytes sv ->
  Forall (fun e => e.1 <> packet_type.SIGNATURE_VALUE) es ->
  fold_flow Data.validate_body (es ++ [(packet_type.SIGNATURE_VALUE, sv)]) (1, None) = Ok (Next s) ->
  let value := elems_wire (with_name n es) ++ tlv_bytes packet_type.SIGNATURE_VALUE sv in
  zlen (tlv_bytes packet_type.DATA value) <= usize_max ->
  exists d, Data.decode (tlv_bytes packet_type.DATA value) = Ok d /\ d_raw d = tlv_bytes packet_type.DATA value /\ d_name d = n /\
    Data.signed_region d = elems_wire (with_name n es) /\ Data.sig_value d = sv.
Proof.
  intros Hn Hne Hes Hsv Hno Hfold value Hl.
  assert (wf_bytes (tlv_bytes packet_type.SIGNATURE_VALUE sv)) as Hwsv by by apply wf_tlv_bytes.
  assert (wf_elem (tlv_type.NAME, name_wire n)) as Hwn by (split; [solve_closed|by apply wf_name_wire]).
  assert (wf_bytes value) as Hwv by (apply wf_bytes_app; split; [apply wf_elems_wire, Forall_cons; done|done]).
  assert (wf_bytes (tlv_bytes packet_type.DATA value)) as Hwf by by apply wf_tlv_bytes.
  pose proof (zlen_body_le packet_type.DATA value [] ltac:(by rewrite app_nil_r)) as Hlv.
  pose proof (data_decode_unfold value [] ltac:(by rewrite app_nil_r) ltac:(by rewrite app_nil_r)) as Hd. rewrite app_nil_r in Hd. cbv zeta in Hd.
  assert (data_name_of value = Ok n) as Hname.
  { unfold data_name_of, value, with_name. rewrite elems_wire_cons. cbn [fst snd]. rewrite <- app_assoc.
    set (tail := elems_wire es ++ tlv_bytes packet_type.SIGNATURE_VALUE sv).
    assert (value = tlv_bytes tlv_type.NAME (name_wire n) ++ tail) as Hval by (unfold value, with_name, tail; by rewrite elems_wire_cons, <- app_assoc).
    destruct (first_tlv_ok tlv_type.NAME (name_wire n) tail) as (r & -> & Hr); [solve_closed|by rewrite <- Hval|rewrite <- Hval; lia|].
    rewrite Z.eqb_refl. cbn [negb].
    pose proof (zlen_body_le tlv_type.NAME (name_wire n) tail ltac:(rewrite <- Hval; lia)).
    rewrite decode_name_ok by (done || lia). rewrite (proj2 (name_is_empty_false n) Hne), Hr. unfold Data.validate_data_body_structure.
    assert (tail = elems_wire (es ++ [(packet_type.SIGNATURE_VALUE, sv)])) as Htail by (unfold tail; by rewrite elems_wire_app, elems_wire_one).
    rewrite Htail, scan_elems; [by rewrite Hfold| |].
    - apply Forall_app. split; [done|]. apply Forall_singleton. split; [solve_closed|done].
    - rewrite <- Htail. rewrite Hval, zlen_app in Hlv.
      pose proof (zlen_nonneg (tlv_bytes tlv_type.NAME (name_wire n))). lia. }
  rewrite Hname in Hd. rewrite data_header_spec, zlen_app in Hd, Hl.
  replace (zlen (data_header value) + zlen value - zlen value) with (zlen (data_header value)) in Hd by lia. rewrite slice_from_app in Hd.
  rewrite (scan_for_sig_value_found _ _ _ (with_name n es) sv []) in Hd.
  - cbn [TlvReader.position TlvReader.pos TlvReader.new] in Hd. rewrite Z.add_0_r in Hd.
    destruct (data_regions (data_header value) (elems_wire (with_name n es)) sv [] n) as [Hreg Hsig].
    + rewrite app_nil_r. fold value. rewrite zlen_app. lia.
    + apply data_header_nonempty.
    + done.
    + rewrite app_nil_r in Hreg, Hsig. fold value in Hreg, Hsig. rewrite <- (zlen_app (data_header value) value) in Hd. eexists. rewrite data_header_spec.
      split; [exact Hd|]. split_conj; [done|done|exact Hreg|exact Hsig].
  - apply new_wf; [done|lia].
  - apply Forall_cons. done.
  - apply Forall_cons. done.
  - rewrite as_bytes_new. unfold value. by rewrite app_nil_r.
  - pose proof (length_elems_wire (with_name n es)). unfold value. rewrite length_app. cbn [length] in *. lia.
Qed.

(** The elements after the name. *)
Definition data_body (b : DataBuilder) (st : SignatureType) (kl : option Name) : list elem :=
  meta_of b ++ [(packet_type.CONTENT, db_content b); (packet_type.SIGNATURE_INFO, elems_wire (sig_info_elems st kl))].

Lemma signed_part_body b st kl : signed_part b st kl = elems_wire (with_name (db_name b) (data_body b st kl)).
Proof. unfold signed_part, data_elems, data_body, with_name. cbn [app]. by rewrite <- app_assoc. Qed.

Lemma wf_meta_of b : db_ok b -> Forall wf_elem (meta_of b).
Proof.
  intros Hb. unfold meta_of. pose proof (wf_meta_elems b Hb). destruct (meta_elems b) as [|e es]; [constructor|].
  apply Forall_singleton. split; [solve_closed|by apply wf_elems_wire].
Qed.

Lemma wf_data_body b st kl : db_ok b -> locator_fits kl -> Forall wf_elem (data_body b st kl).
Proof.
  intros Hb Hkl. apply Forall_app. split; [by apply wf_meta_of|]. apply Forall_cons. split; [split; [solve_closed|apply Hb]|].
  apply Forall_singleton. split; [solve_closed|]. by apply wf_elems_wire, wf_sig_info_elems.
Qed.

(** A signature of the width its type demands, and a locator where it demands one. *)
Definition signature_ok (st : SignatureType) (kl : option Name) (sv : bytes) : Prop :=
  plain_type st /\ SignatureInfo.locator_rule_broken st (LocatorName <$> kl) = false /\ wf_bytes sv /\
  forall k, SignatureType.required_signature_value_len st = Some k -> zlen sv = k.

Lemma data_body_valid b st kl sv : locator_fits kl -> signature_ok st kl sv ->
  exists s, fold_flow Data.validate_body (data_body b st kl ++ [(packet_type.SIGNATURE_VALUE, sv)]) (1, None) = Ok (Next s).
Proof.
  intros Hkl (Hst & Hrule & _ & Hlen).
  assert (forall l, (1 <= l < 3) -> exists s, fold_flow Data.validate_body
    ([(packet_type.CONTENT, db_content b); (packet_type.SIGNATURE_INFO, elems_wire (sig_info_elems st kl))] ++ [(packet_type.SIGNATURE_VALUE, sv)]) (l, None)
    = Ok (Next s)) as Htail.
  { intros l Hl. cbn [app fold_flow]. unfold Data.validate_body at 1. change (Data.elem_index packet_type.CONTENT) with (Some 3). cbn iota.
    rewrite (proj2 (Z.leb_gt _ _)) by lia. cbn [andb]. change (packet_type.CONTENT =? packet_type.SIGNATURE_INFO) with false.
    change (packet_type.CONTENT =? packet_type.SIGNATURE_VALUE) with false. cbn [andb]. cbn iota.
    unfold Data.validate_body at 1. change (Data.elem_index packet_type.SIGNATURE_INFO) with (Some 4). change (4 <=? 3) with false. cbn iota.
    rewrite Z.eqb_refl, (data_sig_info_decodes st kl) by done. change (packet_type.SIGNATURE_INFO =? packet_type.SIGNATURE_VALUE) with false. cbn [andb].
    unfold Data.validate_body. change (Data.elem_index packet_type.SIGNATURE_VALUE) with (Some 5).
    change (packet_type.SIGNATURE_VALUE =? packet_type.SIGNATURE_INFO) with false. change (5 <=? 4) with false. cbn iota. rewrite Z.eqb_refl. cbn [andb sig_type].
    change (4 <=? 3) with false. change (5 <=? 4) with false. cbn iota beta.
    destruct (SignatureType.required_signature_value_len st) as [k|]; [|by eexists].
    rewrite (Hlen k eq_refl), Z.eqb_refl. by eexists. }
  unfold data_body, meta_of. destruct (meta_elems b) as [|e es]; [apply Htail; lia|].
  cbn [app fold_flow]. unfold Data.validate_body at 1. change (Data.elem_index packet_type.META_INFO) with (Some 2). cbn iota.
  change (2 <=? 1) with false. change (packet_type.META_INFO =? packet_type.SIGNATURE_INFO) with false.
  change (packet_type.META_INFO =? packet_type.SIGNATURE_VALUE) with false. cbn [andb]. cbn iota. by apply (Htail 2).
Qed.

(** The accessors of a packet that fills its buffer. *)
Definition ok_opt {A E} (r : result A E) : option A := match r with Ok a => Some a | Err _ => None end.

Lemma data_accessors d all :
  d_raw d = tlv_bytes packet_type.DATA (elems_wire all) -> Forall wf_elem all ->
  zlen (tlv_bytes packet_type.DATA (elems_wire all)) <= usize_max ->
  Data.content d = find_elem packet_type.CONTENT all /\
  Data.meta_info d = (let! v := find_elem packet_type.META_INFO all in ok_opt (MetaInfo.decode v)) /\
  Data.sig_info d = (let! v := find_elem packet_type.SIGNATURE_INFO all in ok_opt (SignatureInfo.decode v)).
Proof.
  intros Hraw Hwf Hl. pose proof (zlen_body_le packet_type.DATA (elems_wire all) [] ltac:(by rewrite app_nil_r)).
  assert (Data.body_of (d_raw d) = Ok (elems_wire all)) as Hbody.
  { rewrite Hraw. pose proof (data_body_of (elems_wire all) []) as Hb. rewrite app_nil_r in Hb.
    apply Hb; [by apply wf_tlv_bytes, wf_elems_wire|done]. }
  unfold Data.content, Data.decode_content, Data.meta_info, Data.decode_meta_info, Data.sig_info, Data.decode_sig_info. rewrite Hbody.
  rewrite (search_elems _ packet_type.CONTENT (fun v => Ok (Some v))); [|by intros t v; destruct (t =? packet_type.CONTENT)|done|lia].
  rewrite (search_elems _ packet_type.META_INFO (fun v => let? mi := MetaInfo.decode v in Ok (Some mi))); [| |done|lia].
  2:{ intros t v. destruct (t =? packet_type.META_INFO); [|done]. by destruct (MetaInfo.decode v). }
  rewrite (search_elems _ packet_type.SIGNATURE_INFO (fun v => let? si := SignatureInfo.decode v in Ok (Some si))); [| |done|lia].
  2:{ intros t v. destruct (t =? packet_type.SIGNATURE_INFO); [|done]. by destruct (SignatureInfo.decode v). }
  split_conj.
  - by destruct (find_elem packet_type.CONTENT all).
  - destruct (find_elem packet_type.META_INFO all) as [v|]; [|done]. cbn [mbind option_bind]. by destruct (MetaInfo.decode v).
  - destruct (find_elem packet_type.SIGNATURE_INFO all) as [v|]; [|done]. cbn [mbind option_bind]. by destruct (SignatureInfo.decode v).
Qed.

(** ** Properties of the Data encoders *)

Lemma digest_part b st si : tlv_bytes packet_type.SIGNATURE_INFO (elems_wire (sig_info_elems st None)) = si ->
  elems_wire (data_elems b) ++ si = signed_part b st None.
Proof. intros <-. unfold signed_part. by rewrite elems_wire_app, elems_wire_one. Qed.

Lemma digest_fits b st h : db_ok b -> is_digest h -> packet_fits b st None (h (signed_part b st None)).
Proof.
  intros Hb Hh. unfold packet_fits. destruct (Hh (signed_part b st None)) as [-> _]. pose proof (db_size b Hb). unfold signed_part.
  rewrite elems_wire_app, zlen_app, elems_wire_one, zlen_tlv_bytes. cbn [fst snd]. pose proof (zlen_sig_info_elems st None) as Hs. cbn iota in Hs.
  pose proof (tlv_size_bounds packet_type.SIGNATURE_INFO _ (zlen_nonneg (elems_wire (sig_info_elems st None)))). lia.
Qed.

(** C36: The six ways to sign a Data packet with its SHA-256 digest write the
    same bytes: the single-buffer fast path never trips its size assertions and
    equals the generic writer, [sign_sync] and the fallible variant; its
    predicted length is the length; and writing into a caller's buffer panics
    exactly when the buffer is shorter, else fills that much of it and leaves the
    rest alone.  The BLAKE3 path is the generic writer with type 6. *)
Theorem data_paths_agree (sha256 blake3 : bytes -> bytes) (b : DataBuilder) (out : bytes) :
  is_digest sha256 -> is_digest blake3 -> db_ok b ->
  let wire := DataBuilder.sign b DigestSha256 None sha256 in
  DataBuilder.sign_digest_sha256 sha256 b = Some wire /\
  DataBuilder.build sha256 b = Some wire /\
  DataBuilder.sign_sync b DigestSha256 None sha256 = wire /\
  DataBuilder.sign_fallible b DigestSha256 None (fun r => Ok (E := Empty_set) (sha256 r)) = Ok wire /\
  DataBuilder.encoded_len_digest_sha256 b = zlen wire /\
  DataBuilder.encode_digest_sha256_into sha256 b out =
    (if zlen out <? zlen wire then None else Some (wire ++ slice_from_ out (zlen wire), zlen wire)) /\
  DataBuilder.sign_digest_blake3 blake3 b = Some (DataBuilder.sign b (OtherSig 6) None blake3).
Proof.
  intros Hs Hb3 Hb wire. assert (locator_fits None) as Hkl by done.
  pose proof (digest_part b DigestSha256 SIGINFO_DIGEST_SHA256 eq_refl) as Hp.
  pose proof (digest_part b (OtherSig 6) SIGINFO_DIGEST_BLAKE3 eq_refl) as Hp3.
  assert (wire = data_packet b SIGINFO_DIGEST_SHA256 (sha256 (elems_wire (data_elems b) ++ SIGINFO_DIGEST_SHA256))) as Hw.
  { unfold wire, data_packet. rewrite sign_spec, app_assoc, !Hp by (done || by apply digest_fits). done. }
  assert (DataBuilder.sign_digest_sha256 sha256 b = Some wire) as Hd
    by (unfold DataBuilder.sign_digest_sha256; by rewrite Hw, sign_digest_spec).
  split_conj; [done|done|apply sign_sync_spec; [done|done|by apply digest_fits]| | | |].
  - unfold DataBuilder.sign_fallible. rewrite signed_region_spec by done. unfold wire, DataBuilder.sign.
    by rewrite signed_region_spec.
  - unfold DataBuilder.encoded_len_digest_sha256. rewrite signed_size_spec, Hw, zlen_data_packet by (done || apply Hs). done.
  - rewrite encode_into_spec by done. by rewrite <- Hw.
  - unfold DataBuilder.sign_digest_blake3. rewrite sign_digest_spec, sign_spec by (done || by apply digest_fits).
    unfold data_packet. by rewrite app_assoc, !Hp3.
Qed.

(** What a Data builder signs, a reader gets back: the packet decodes, the
    name, the content, the MetaInfo and the signature's type and key locator are
    the builder's (the freshness in whole milliseconds), the signed region is
    byte for byte what the signing function was applied to, and the signature
    value is what it returned. *)
Theorem data_roundtrip (b : DataBuilder) (st : SignatureType) (kl : option Name) (f : bytes -> bytes) :
  db_ok b -> db_name b <> [] -> locator_fits kl ->
  let region := signed_part b st kl in
  signature_ok st kl (f region) -> packet_fits b st kl (f region) ->
  exists d, Data.decode (DataBuilder.sign b st kl f) = Ok d /\
    d_name d = db_name b /\ Data.content d = Some (db_content b) /\ Data.meta_info d = meta_info_of b /\
    Data.sig_info d = Some (mkSignatureInfo st (LocatorName <$> kl) None None None) /\
    Data.signed_region d = region /\ Data.sig_value d = f region.
Proof.
  intros Hb Hne Hkl region Hsig Hfit. rewrite sign_spec by done. fold region. destruct (data_body_valid b st kl _ Hkl Hsig) as [s Hfold].
  pose proof (wf_data_body b st kl Hb Hkl) as Hwf. set (sv := f region) in *. destruct Hsig as (Hst & Hrule & Hsv & Hlen).
  pose proof (tlv_size_bounds packet_type.SIGNATURE_VALUE (zlen sv) (zlen_nonneg _)).
  assert (region = elems_wire (with_name (db_name b) (data_body b st kl))) as Hreg by apply signed_part_body.
  assert (zlen (tlv_bytes packet_type.DATA (region ++ tlv_bytes packet_type.SIGNATURE_VALUE sv)) <= usize_max) as Hl.
  { rewrite zlen_tlv_bytes, zlen_app, zlen_tlv_bytes. unfold packet_fits in Hfit. fold region in Hfit. pose proof (zlen_nonneg region). pose proof (zlen_nonneg sv).
    pose proof (tlv_size_bounds packet_type.DATA (zlen region + tlv_size packet_type.SIGNATURE_VALUE (zlen sv)) ltac:(lia)). lia. }
  destruct (data_decode_signed (db_name b) (data_body b st kl) sv s) as (d & Hd & Hraw & Hname & Hreg' & Hval);
    [apply Hb|done|done|done| |done|by rewrite <- Hreg|].
  { unfold data_body, meta_of. apply Forall_app. split; [destruct (meta_elems b); repeat constructor; done|repeat constructor; done]. }
  rewrite <- Hreg in *. set (all := with_name (db_name b) (data_body b st kl) ++ [(packet_type.SIGNATURE_VALUE, sv)]).
  assert (region ++ tlv_bytes packet_type.SIGNATURE_VALUE sv = elems_wire all) as Hall by (unfold all; by rewrite elems_wire_app, elems_wire_one, <- Hreg).
  rewrite Hall in *. destruct (data_accessors d all Hraw) as (Hc & Hm & Hs); [|done|].
  { apply Forall_app. split; [apply Forall_cons; split; [split; [solve_closed|apply wf_name_wire, Hb]|done]|].
    apply Forall_singleton. split; [solve_closed|done]. }
  assert (find_elem packet_type.SIGNATURE_INFO all = Some (elems_wire (sig_info_elems st kl))) as Hfs
    by (unfold all, data_body, meta_of; by destruct (meta_elems b)).
  rewrite Hfs in Hs. cbn [mbind option_bind] in Hs. rewrite data_sig_info_decodes in Hs by done.
  exists d. split_conj; [done|done| | |done|done|done].
  - rewrite Hc. unfold all, data_body, meta_of. by destruct (meta_elems b).
  - rewrite Hm. unfold all, data_body, meta_of. destruct (meta_elems b) as [|e es] eqn:He; [by unfold meta_info_of; rewrite He|]. rewrite <- He.
    pose proof (meta_decodes b Hb ltac:(congruence)) as Hmd.
    change (find_elem packet_type.META_INFO _) with (Some (elems_wire (meta_elems b))). cbn [mbind option_bind].
    destruct (MetaInfo.decode _); [|done]. by injection Hmd.
Qed.

(** ** The signed region of an Interest *)

(** One element off a reader, with the bytes it occupies. *)
Lemma read_elem r t v es : TlvReader.wf r -> Forall wf_elem ((t, v) :: es) -> TlvReader.as_bytes r = elems_wire ((t, v) :: es) ->
  TlvReader.is_empty r = false /\
  exists r', TlvReader.read_tlv r = (Ok (t, v), r') /\ TlvReader.wf r' /\ TlvReader.buf r' = TlvReader.buf r /\
    TlvReader.as_bytes r' = elems_wire es /\
    slice (TlvReader.buf r) (TlvReader.position r) (TlvReader.position r') = tlv_bytes t v.
Proof.
  intros Hr Hes Hb. apply Forall_cons in Hes as [[Ht Hv] Hes]. rewrite elems_wire_cons in Hb. cbn [fst snd] in *.
  destruct (TlvReader.is_empty r) eqn:He.
  { apply is_empty_spec in He; [|done]. rewrite He in Hb. symmetry in Hb. by apply tlv_bytes_nonempty in Hb. }
  split; [done|]. destruct (read_tlv_ok r t v _ Hr Ht Hb) as (r' & Hread & Hb' & Hr'). exists r'.
  pose proof (read_tlv_pos _ _ _ _ Hr Hread) as Hp. split_conj; [done|done|by eapply read_tlv_buf|done|].
  unfold TlvReader.as_bytes, TlvReader.position in *. destruct Hr as (_ & Hpos & _).
  rewrite <- (take_drop (Z.to_nat (TlvReader.pos r)) (TlvReader.buf r)). unfold slice_from_ in Hb. rewrite Hb.
  assert (zlen (take (Z.to_nat (TlvReader.pos r)) (TlvReader.buf r)) = TlvReader.pos r) as Hz by (rewrite zlen_take; lia).
  apply slice_mid; lia.
Qed.

Lemma read_empty r : TlvReader.wf r -> TlvReader.as_bytes r = [] -> TlvReader.is_empty r = true.
Proof. intros Hr Hb. by apply is_empty_spec. Qed.

Definition not_psdc (n : Name) : Name := filter (fun c => typ c <> tlv_type.PARAMETERS_SHA256) n.

Lemma signed_components_ok n : forall fuel r out, TlvReader.wf r -> wf_name n -> TlvReader.as_bytes r = name_wire n ->
  (length n < fuel)%nat -> signed_components fuel (TlvReader.buf r) r out = Ok (out ++ name_wire (not_psdc n)).
Proof.
  induction n as [|c n IH]; intros [|fuel] r out Hr Hn Hb Hf; cbn [length] in Hf; try lia; cbn [signed_components].
  { rewrite read_empty by done. by rewrite app_nil_r. }
  rewrite name_wire_elems in Hb. cbn [map] in Hb.
  assert (Forall wf_elem (map (fun c => (typ c, value c)) (c :: n))) as Hwe by (by apply Forall_map).
  destruct (read_elem r (typ c) (value c) _ Hr Hwe Hb) as (He & r' & Hread & Hr' & Hbuf & Hb' & Hsl).
  apply Forall_cons in Hn as [_ Hn]. rewrite <- name_wire_elems in Hb'. rewrite He, Hread, Hsl, <- Hbuf. unfold not_psdc.
  destruct (Z.eqb_spec (typ c) tlv_type.PARAMETERS_SHA256) as [E|E].
  - rewrite filter_cons_False by (intros H; by apply H). apply IH; [done|done|done|lia].
  - rewrite filter_cons_True by done. rewrite IH by (done || lia). by rewrite name_wire_cons, <- app_assoc.
Qed.

(** In an ordered body, nothing that comes before position [l] is left. *)
Lemma body_ok_past t i es : Interest.elem_index t = Some i -> forall l, i <= l -> interest_body_ok l es -> find_elem t es = None.
Proof.
  intros Ht. induction es as [|e es IH]; intros l Hl Hok; [done|]. apply interest_body_ok_cons in Hok as [_ Hok].
  rewrite find_elem_cons. destruct (decide (e.1 = t)) as [E|E].
  - rewrite E, Ht in Hok. lia.
  - destruct (Interest.elem_index e.1) as [j|]; [destruct Hok; apply (IH j); [lia|done]|by apply (IH l)].
Qed.

Lemma signed_elements_ok es : forall fuel l r app, TlvReader.wf r -> Forall wf_elem es -> interest_body_ok l es ->
  TlvReader.as_bytes r = elems_wire es -> (length es < fuel)%nat ->
  exists a, signed_elements fuel (TlvReader.buf r) r app =
    Ok (a, tlv_bytes packet_type.INTEREST_SIGNATURE_INFO <$> find_elem packet_type.INTEREST_SIGNATURE_INFO es) /\
    (is_Some (find_elem packet_type.INTEREST_SIGNATURE_INFO es) ->
     a = match find_elem packet_type.APP_PARAMETERS es with Some v => Some (tlv_bytes packet_type.APP_PARAMETERS v) | None => app end).
Proof.
  induction es as [|[t v] es IH]; intros [|fuel] l r app Hr Hes Hok Hb Hf; cbn [length] in Hf; try lia; cbn [signed_elements].
  { rewrite read_empty by done. exists app. split; [done|]. by intros []. }
  destruct (read_elem r t v es Hr Hes Hb) as (He & r' & Hread & Hr' & Hbuf & Hb' & Hsl). rewrite He, Hread, Hsl, <- Hbuf.
  apply Forall_cons in Hes as [_ Hes]. apply interest_body_ok_cons in Hok as [_ Hok]. cbn [fst] in Hok. rewrite !find_elem_cons. cbn [fst snd].
  destruct (Z.eqb_spec t packet_type.APP_PARAMETERS) as [->|Ha].
  - rewrite decide_False, decide_True by done. change (Interest.elem_index packet_type.APP_PARAMETERS) with (Some 8) in Hok. destruct Hok as [_ Hok].
    destruct (IH fuel 8 r' (Some (tlv_bytes packet_type.APP_PARAMETERS v)) Hr' Hes Hok Hb' ltac:(lia)) as (a & -> & Ha).
    exists a. split; [done|]. intros Hs. rewrite (Ha Hs). by rewrite (body_ok_past packet_type.APP_PARAMETERS 8 es eq_refl 8) by (done || lia).
  - rewrite (decide_False (P := t = packet_type.APP_PARAMETERS)) by done.
    destruct (Z.eqb_spec t packet_type.INTEREST_SIGNATURE_INFO) as [->|Hs].
    + rewrite decide_True by done. change (Interest.elem_index packet_type.INTEREST_SIGNATURE_INFO) with (Some 9) in Hok. destruct Hok as [_ Hok].
      exists app. split; [done|]. intros _. by rewrite (body_ok_past packet_type.APP_PARAMETERS 8 es eq_refl 9) by (done || lia).
    + rewrite decide_False by done. destruct (Interest.elem_index t) as [j|]; [destruct Hok as [_ Hok]|]; by eapply IH; eauto; lia.
Qed.

Lemma signed_region_shape raw n es rest : wf_bytes raw -> zlen raw <= usize_max -> interest_shape raw n es rest ->
  Interest_signed_region (mkInterest raw n) =
    match find_elem packet_type.APP_PARAMETERS es, find_elem packet_type.INTEREST_SIGNATURE_INFO es with
    | Some ap, Some si => Some (name_wire (not_psdc n) ++ tlv_bytes packet_type.APP_PARAMETERS ap ++ tlv_bytes packet_type.INTEREST_SIGNATURE_INFO si)
    | _, _ => None
    end.
Proof.
  intros Hwf Hl Hs. unfold Interest_signed_region, compute_interest_signed_region. cbn [i_raw].
  rewrite (raw_nonempty raw n es rest Hwf Hl Hs). destruct (shape_sizes raw n es rest Hwf Hl Hs) as [Hz Hes].
  destruct Hs as [Hraw Hn Hne Hwe Hord Hps]. set (body := elems_wire (with_name n es)) in *.
  assert (body = tlv_bytes tlv_type.NAME (name_wire n) ++ elems_wire es) as Hv by (unfold body, with_name; by rewrite elems_wire_cons).
  rewrite <- Hv in Hraw. rewrite Hraw in Hwf, Hl |- *.
  destruct (first_tlv_ok packet_type.INTEREST body rest ltac:(solve_closed) Hwf Hl) as (r0 & -> & _). cbn [negb]. rewrite Z.eqb_refl. cbn [negb].
  assert (wf_bytes body) as Hwv by by apply wf_elems_wire.
  assert (TlvReader.wf (TlvReader.new body)) as Hrv by by apply new_wf.
  destruct (read_elem (TlvReader.new body) tlv_type.NAME (name_wire n) es Hrv Hes) as (_ & inner & Hread & Hri & Hbuf & Hbi & _); [by rewrite as_bytes_new|].
  unfold first_tlv at 1. rewrite Hread. cbn [negb Z.eqb]. rewrite Z.eqb_refl. cbn [negb].
  pose proof (zlen_body_le tlv_type.NAME (name_wire n) (elems_wire es) ltac:(rewrite <- Hv; done)) as Hln.
  rewrite (signed_components_ok n _ (TlvReader.new (name_wire n)) []); [|apply new_wf; [by apply wf_name_wire|lia]|done|by rewrite as_bytes_new|].
  2:{ pose proof (length_elems_wire (map (fun c => (typ c, value c)) n)) as Hlen. rewrite <- name_wire_elems, length_map in Hlen. lia. }
  cbn [app]. pose proof (length_elems_wire (with_name n es)) as Hlen. unfold with_name in Hlen at 1. cbn [length] in Hlen. fold body in Hlen.
  destruct (signed_elements_ok es (S (length body)) 1 inner None Hri Hwe Hord Hbi ltac:(lia)) as (a & Ha & Hap). rewrite Hbuf in Ha.
  cbn [TlvReader.buf TlvReader.new] in Ha. rewrite Ha. destruct (find_elem packet_type.INTEREST_SIGNATURE_INFO es) as [si|]; cbn [fmap option_fmap option_map].
  - rewrite Hap by by eexists. by destruct (find_elem packet_type.APP_PARAMETERS es).
  - destruct (find_elem packet_type.APP_PARAMETERS es); by destruct a.
Qed.

(** The region as elements, with what the accessors return. *)
Definition region_elems (n : Name) (ap si : bytes) : list elem :=
  map (fun c => (typ c, value c)) (not_psdc n) ++ [(packet_type.APP_PARAMETERS, ap); (packet_type.INTEREST_SIGNATURE_INFO, si)].

Lemma region_elems_wire n ap si : elems_wire (region_elems n ap si) =
  name_wire (not_psdc n) ++ tlv_bytes packet_type.APP_PARAMETERS ap ++ tlv_bytes packet_type.INTEREST_SIGNATURE_INFO si.
Proof. unfold region_elems. rewrite elems_wire_app, <- name_wire_elems, elems_wire_cons, elems_wire_one. done. Qed.

Lemma wf_not_psdc n : wf_name n -> wf_name (not_psdc n).
Proof. intros Hn. apply Forall_forall. intros c [_ Hc]%list_elem_of_filter. by eapply Forall_forall in Hn. Qed.

Lemma psdc_count_none n : Interest.psdc_count (not_psdc n) = 0.
Proof.
  unfold Interest.psdc_count, not_psdc. induction n as [|c n IH]; [done|]. rewrite (filter_cons _ c). case_decide as Hc; [|done].
  by rewrite filter_cons_False.
Qed.
Lemma not_psdc_idem n : not_psdc (not_psdc n) = not_psdc n.
Proof.
  unfold not_psdc. induction n as [|c n IH]; [done|]. rewrite (filter_cons _ c n). case_decide as Hc; [|done].
  by rewrite filter_cons_True, IH.
Qed.

Lemma zlen_not_psdc n : zlen (name_wire (not_psdc n)) <= zlen (name_wire n).
Proof.
  unfold not_psdc. induction n as [|c n IH]; [done|]. rewrite name_wire_cons, zlen_app. pose proof (zlen_nonneg (tlv_bytes (typ c) (value c))).
  destruct (decide (typ c = tlv_type.PARAMETERS_SHA256)) as [E|E].
  - rewrite filter_cons_False by (intros H'; by apply H'). lia.
  - rewrite filter_cons_True, name_wire_cons, zlen_app by done. lia.
Qed.

Lemma find_elem_size t es v : find_elem t es = Some v -> zlen (tlv_bytes t v) <= zlen (elems_wire es).
Proof.
  induction es as [|e es IH]; [done|]. rewrite find_elem_cons, elems_wire_cons, zlen_app. pose proof (zlen_nonneg (tlv_bytes e.1 e.2)).
  pose proof (zlen_nonneg (elems_wire es)). destruct (decide (e.1 = t)) as [<-|]; [intros [= <-]; lia|]. intros Hf. specialize (IH Hf). lia.
Qed.
Lemma find_two_size t t' es v v' : t <> t' -> find_elem t es = Some v -> find_elem t' es = Some v' ->
  zlen (tlv_bytes t v) + zlen (tlv_bytes t' v') <= zlen (elems_wire es).
Proof.
  intros Hne. induction es as [|e es IH]; [done|]. rewrite !find_elem_cons, elems_wire_cons, zlen_app. pose proof (zlen_nonneg (tlv_bytes e.1 e.2)).
  destruct (decide (e.1 = t)) as [<-|].
  - intros [= <-]. rewrite decide_False by done. intros Hf%find_elem_size. lia.
  - intros Hf. destruct (decide (e.1 = t')) as [<-|]; [intros [= <-]; apply find_elem_size in Hf; lia|]. intros Hf'. specialize (IH Hf Hf'). lia.
Qed.

Lemma zlen_app3 (a b c : bytes) : zlen (a ++ b ++ c) = zlen a + zlen b + zlen c.
Proof. rewrite !zlen_app. lia. Qed.

Lemma signed_region_reading raw i region :
  wf_bytes raw -> zlen raw <= usize_max -> Interest.decode raw = Ok i -> Interest_signed_region i = Some region ->
  exists ap si s, region = elems_wire (region_elems (i_name i) ap si) /\ Interest.app_parameters i = Some ap /\
    Interest.sig_info i = Some s /\ SignatureInfo.decode si = Ok s /\
    Forall wf_elem (region_elems (i_name i) ap si) /\ zlen region <= u64_max.
Proof.
  intros Hwf Hl Hd Hr. pose proof (decode_i_raw _ _ Hd) as Hi. rewrite Hi in Hd. apply interest_decode_shape in Hd as (es & rest & Hs); [|done..].
  rewrite Hi in Hr. rewrite (signed_region_shape raw _ es rest Hwf Hl Hs) in Hr.
  pose proof (accessor_app_parameters raw _ es rest Hwf Hl Hs) as Hap. pose proof (accessor_sig_info raw _ es rest Hwf Hl Hs) as Hsi. rewrite <- Hi in Hap, Hsi.
  destruct (find_elem packet_type.APP_PARAMETERS es) as [ap|] eqn:Ea; [|done].
  destruct (find_elem packet_type.INTEREST_SIGNATURE_INFO es) as [si|] eqn:Es; [|done]. apply (inj Some) in Hr. subst region.
  destruct Hsi as (s & Hdec & Hsi). exists ap, si, s. rewrite region_elems_wire.
  destruct (elem_ok raw _ es rest Hs _ _ Ea) as [_ Wa]. destruct (elem_ok raw _ es rest Hs _ _ Es) as [_ Ws].
  split_conj; [done|done|done|done| |].
  - apply Forall_app. split; [apply Forall_map, wf_not_psdc, Hs|]. repeat (apply Forall_cons; split; [done|]). constructor.
  - assert (packet_type.APP_PARAMETERS <> packet_type.INTEREST_SIGNATURE_INFO) as Hne by done. pose proof (find_two_size _ _ _ _ _ Hne Ea Es). pose proof (zlen_not_psdc (i_name i)).
    destruct (shape_sizes raw _ es rest Hwf Hl Hs) as [Hz _]. unfold with_name in Hz. rewrite elems_wire_cons, zlen_app in Hz. cbn [fst snd] in Hz.
    rewrite (zlen_tlv_bytes tlv_type.NAME) in Hz. pose proof (tlv_size_bounds tlv_type.NAME _ (zlen_nonneg (name_wire (i_name i)))).
    rewrite zlen_app3. unfold usize_max in *. lia.
Qed.

(** C35: A signature pins down what it is taken to cover.  Two Interests that
    decode and have the same signed region have the same name but for the
    parameters digest, the same application parameters and the same
    SignatureInfo: no two readings of the concatenated region exist. *)
Theorem signed_region_binds (raw raw' region : bytes) (i i' : Interest) :
  wf_bytes raw -> zlen raw <= usize_max -> wf_bytes raw' -> zlen raw' <= usize_max ->
  Interest.decode raw = Ok i -> Interest.decode raw' = Ok i' ->
  Interest_signed_region i = Some region -> Interest_signed_region i' = Some region ->
  not_psdc (i_name i) = not_psdc (i_name i') /\
  Interest.app_parameters i = Interest.app_parameters i' /\ is_Some (Interest.app_parameters i) /\
  Interest.sig_info i = Interest.sig_info i' /\ is_Some (Interest.sig_info i).
Proof.
  intros Hwf Hl Hwf' Hl' Hd Hd' Hr Hr'.
  destruct (signed_region_reading raw i region Hwf Hl Hd Hr) as (ap & si & s & Hreg & Hap & Hsi & Hdec & Hw & Hz).
  destruct (signed_region_reading raw' i' region Hwf' Hl' Hd' Hr') as (ap' & si' & s' & Hreg' & Hap' & Hsi' & Hdec' & Hw' & Hz').
  rewrite Hreg in Hreg'. apply elems_wire_inj in Hreg'; [|done|done|by rewrite <- Hreg].
  rewrite Hap, Hap', Hsi, Hsi'. unfold region_elems in Hreg'.
  change [(packet_type.APP_PARAMETERS, ap); (packet_type.INTEREST_SIGNATURE_INFO, si)] with ([(packet_type.APP_PARAMETERS, ap)] ++ [(packet_type.INTEREST_SIGNATURE_INFO, si)]) in Hreg'.
  change [(packet_type.APP_PARAMETERS, ap'); (packet_type.INTEREST_SIGNATURE_INFO, si')] with ([(packet_type.APP_PARAMETERS, ap')] ++ [(packet_type.INTEREST_SIGNATURE_INFO, si')]) in Hreg'.
  rewrite !app_assoc in Hreg'. apply app_inj_tail in Hreg' as [Hreg' [= <-]]. apply app_inj_tail in Hreg' as [Hn [= <-]].
  assert (s = s') as <- by congruence. split_conj; [|done|by eexists|done|by eexists].
  revert Hn. generalize (not_psdc (i_name i)) as a, (not_psdc (i_name i')) as b.
  induction a as [|[]  a IH]; intros [|[] b]; cbn [map]; intros H; try done. injection H as -> -> H. f_equal. by apply IH.
Qed.

(** ** What the Interest builder writes *)

Definition flag_elem (t : Z) (b : bool) : list elem := if b then [(t, [])] else [].
Definition hint_elems (names : list Name) : list elem := map (fun n => (tlv_type.NAME, name_wire n)) names.

Definition body_elems (b : InterestBuilder) (nonce : Z) : list elem :=
  flag_elem packet_type.CAN_BE_PREFIX (ib_can_be_prefix b) ++
  flag_elem packet_type.MUST_BE_FRESH (ib_must_be_fresh b) ++
  opt_elem packet_type.FORWARDING_HINT ((fun l => elems_wire (hint_elems l)) <$> ib_forwarding_hint b) ++
  opt_elem packet_type.REFLEXIVE_NAME (name_wire <$> ib_reflexive_name b) ++
  [(packet_type.NONCE, be_encode 4 nonce); (packet_type.INTEREST_LIFETIME, enc_nni (lifetime_ms b))] ++
  opt_elem packet_type.HOP_LIMIT ((fun h => [h]) <$> ib_hop_limit b).

(** The parts that have a length of their own. *)
Definition ib_len (b : InterestBuilder) : Z :=
  zlen (name_wire (ib_name b)) +
  match ib_forwarding_hint b with Some l => zlen (elems_wire (hint_elems l)) | None => 0 end +
  match ib_reflexive_name b with Some n => zlen (name_wire n) | None => 0 end +
  match ib_app_parameters b with Some p => zlen p | None => 0 end.

Record ib_ok (b : InterestBuilder) : Prop := {
  ib_wf_name : wf_name (ib_name b);
  ib_wf_hint : forall l, ib_forwarding_hint b = Some l -> Forall wf_name l;
  ib_wf_reflexive : forall n, ib_reflexive_name b = Some n -> wf_name n;
  ib_wf_hop : forall h, ib_hop_limit b = Some h -> is_u8 h;
  ib_wf_params : forall p, ib_app_parameters b = Some p -> wf_bytes p;
  ib_size : ib_len b + 1000 <= usize_max
}.

Section ib.
Context (b : InterestBuilder) (Hb : ib_ok b).

Lemma ib_sizes :
  zlen (name_wire (ib_name b)) + 1000 <= usize_max /\
  (forall l, ib_forwarding_hint b = Some l -> zlen (elems_wire (hint_elems l)) + 1000 <= usize_max) /\
  (forall n, ib_reflexive_name b = Some n -> zlen (name_wire n) + 1000 <= usize_max) /\
  (forall p, ib_app_parameters b = Some p -> zlen p + 1000 <= usize_max).
Proof.
  pose proof (ib_size b Hb) as H. unfold ib_len in H. pose proof (zlen_nonneg (name_wire (ib_name b))).
  assert (0 <= match ib_forwarding_hint b with Some l => zlen (elems_wire (hint_elems l)) | None => 0 end) by (destruct (ib_forwarding_hint b); [apply zlen_nonneg|done]).
  assert (0 <= match ib_reflexive_name b with Some n => zlen (name_wire n) | None => 0 end) by (destruct (ib_reflexive_name b); [apply zlen_nonneg|done]).
  assert (0 <= match ib_app_parameters b with Some p => zlen p | None => 0 end) by (destruct (ib_app_parameters b); [apply zlen_nonneg|done]).
  split_conj; [|intros x Hx; rewrite Hx in *..]; lia.
Qed.

Lemma name_wire_size l n : n ∈ l -> zlen (name_wire n) + 2 <= zlen (elems_wire (hint_elems l)).
Proof.
  induction l as [|m l IH]; [by intros ?%not_elem_of_nil|]. intros [->|Hin]%elem_of_cons; cbn [hint_elems map]; rewrite elems_wire_cons, zlen_app; cbn [fst snd].
  - rewrite zlen_tlv_bytes. pose proof (tlv_size_bounds tlv_type.NAME (zlen (name_wire m)) (zlen_nonneg _)).
    pose proof (zlen_nonneg (elems_wire (map (fun n => (tlv_type.NAME, name_wire n)) l))). lia.
  - specialize (IH Hin). unfold hint_elems in IH. pose proof (zlen_nonneg (tlv_bytes tlv_type.NAME (name_wire m))). lia.
Qed.

Lemma write_hints l : forall w es, buf w = elems_wire es -> Forall name_fits l -> buf (fold_left write_name l w) = elems_wire (es ++ hint_elems l).
Proof.
  induction l as [|n l IH]; intros w es Hw Hl; cbn [fold_left hint_elems map]; [by rewrite app_nil_r|].
  apply Forall_cons in Hl as [Hn Hl]. rewrite (IH _ (es ++ [(tlv_type.NAME, name_wire n)])); [by rewrite <- app_assoc|by apply write_name_elems|done].
Qed.

Lemma write_flag w es t (c : bool) : buf w = elems_wire es -> is_u64 t ->
  buf (if c then write_tlv w t [] else w) = elems_wire (es ++ flag_elem t c).
Proof. intros Hw Ht. destruct c; cbn [flag_elem]; [|by rewrite app_nil_r]. apply write_tlv_elems; [done|done|by vm_compute]. Qed.

Lemma write_components_wire n : wf_name n -> zlen (name_wire n) <= usize_max -> buf (NameOps.write_components n new) = name_wire n.
Proof. intros Hn Hl. rewrite buf_write_components; [done|by apply wire_comps_sized]. Qed.

Lemma write_body_elems w es nonce : buf w = elems_wire es ->
  buf (write_body_fields w b nonce (lifetime_ms b)) = elems_wire (es ++ body_elems b nonce).
Proof.
  intros Hw. destruct ib_sizes as (_ & Hsh & Hsr & _). unfold write_body_fields, body_elems. rewrite !app_assoc.
  apply (write_opt_elems _ _ _ (fun h => [h])); [|done|by intros h _; vm_compute].
  set (pre := ((es ++ _) ++ _) ++ _). change ([(packet_type.NONCE, be_encode 4 nonce); (packet_type.INTEREST_LIFETIME, enc_nni (lifetime_ms b))])
    with ([(packet_type.NONCE, be_encode 4 nonce)] ++ [(packet_type.INTEREST_LIFETIME, enc_nni (lifetime_ms b))]). rewrite !app_assoc.
  apply buf_write_nni_elems; [|done]. apply write_tlv_elems; [|done|rewrite zlen_be_encode; unfold_bounds; lia].
  pose proof (write_flag _ _ packet_type.MUST_BE_FRESH (ib_must_be_fresh b) (write_flag w es packet_type.CAN_BE_PREFIX (ib_can_be_prefix b) Hw ltac:(done)) ltac:(done)) as H1.
  match type of H1 with buf ?x = _ => set (w1 := x) in * end.
  assert (buf (match ib_forwarding_hint b with Some hints => write_nested w1 packet_type.FORWARDING_HINT (fun w => fold_left write_name hints w) | None => w1 end)
    = elems_wire (((es ++ flag_elem packet_type.CAN_BE_PREFIX (ib_can_be_prefix b)) ++ flag_elem packet_type.MUST_BE_FRESH (ib_must_be_fresh b)) ++
        opt_elem packet_type.FORWARDING_HINT ((fun l => elems_wire (hint_elems l)) <$> ib_forwarding_hint b))) as H2.
  { destruct (ib_forwarding_hint b) as [l|] eqn:El; cbn [fmap option_fmap option_map opt_elem]; [|by rewrite app_nil_r].
    specialize (Hsh l eq_refl). apply write_nested_elems; [done|done| |unfold usize_max in *; lia]. apply (write_hints l new []); [done|].
    apply Forall_forall. intros n Hn. pose proof (ib_wf_hint b Hb l El) as Hl. rewrite Forall_forall in Hl.
    split; [by apply Hl|]. pose proof (name_wire_size l n Hn). lia. }
  match type of H2 with buf ?x = _ => set (w2 := x) in * end.
  destruct (ib_reflexive_name b) as [n|] eqn:En; cbn [fmap option_fmap option_map opt_elem] in *; unfold pre; [|rewrite app_nil_r; exact H2].
  specialize (Hsr n eq_refl). apply write_nested_elems; [exact H2|done| |unfold usize_max in *; lia].
  apply write_components_wire; [by eapply ib_wf_reflexive|lia].
Qed.
End ib.

(** *** The order of the elements *)

Lemma body_ok_mono l i es : l <= i -> interest_body_ok i es -> interest_body_ok l es.
Proof.
  unfold interest_body_ok. intros Hl [Hs Ho]. split; [|done]. inversion Hs as [|? ? Hs' Hhd]; subst. constructor; [done|].
  inversion Hhd; subst; constructor; lia.
Qed.

Lemma body_ok_step t v l i es : Interest.elem_index t = Some i -> l < i -> (t = packet_type.NONCE -> zlen v = 4) ->
  (t = packet_type.INTEREST_SIGNATURE_INFO -> exists si, SignatureInfo.decode v = Ok si) ->
  interest_body_ok i es -> interest_body_ok l ((t, v) :: es).
Proof.
  intros Ht Hl Hn Hs Hok. apply interest_body_ok_cons. cbn [fst]. rewrite Ht. split; [|done]. split; [cbn [fst]; congruence|]. done.
Qed.

Lemma body_ok_opt t l i o es : Interest.elem_index t = Some i -> l < i -> t <> packet_type.NONCE ->
  t <> packet_type.INTEREST_SIGNATURE_INFO -> interest_body_ok i es -> interest_body_ok l (opt_elem t o ++ es).
Proof.
  intros Ht Hl Hn Hs Hok. destruct o as [v|]; cbn [opt_elem app]; [by eapply body_ok_step|]. eapply body_ok_mono; [|done]. lia.
Qed.

Lemma flag_opt t c : flag_elem t c = opt_elem t (if c then Some [] else None).
Proof. by destruct c. Qed.

Lemma body_elems_ok b n tail : interest_body_ok 7 tail -> interest_body_ok 1 (body_elems b n ++ tail).
Proof.
  intros Ht. unfold body_elems. rewrite !flag_opt, <- !app_assoc.
  apply (body_ok_opt _ _ 2); [done|lia|done|done|]. apply (body_ok_opt _ _ 3); [done|lia|done|done|]. apply (body_ok_opt _ _ 4); [done|lia|done|done|].
  assert (interest_body_ok 4 ([(packet_type.NONCE, be_encode 4 n); (packet_type.INTEREST_LIFETIME, enc_nni (lifetime_ms b))] ++
    opt_elem packet_type.HOP_LIMIT ((fun h => [h]) <$> ib_hop_limit b) ++ tail)) as Hrest.
  { cbn [app]. apply (body_ok_step _ _ _ 5); [done|lia|by intros _; rewrite zlen_be_encode|done|].
    apply (body_ok_step _ _ _ 6); [done|lia|done|done|]. by apply (body_ok_opt _ _ 7). }
  destruct (name_wire <$> ib_reflexive_name b) as [v|]; cbn [opt_elem]; [|done].
  apply interest_body_ok_cons. split; [|done]. by split_conj.
Qed.

Lemma wf_body_elems b n : ib_ok b -> Forall wf_elem (body_elems b n).
Proof.
  intros Hb. unfold body_elems. rewrite !flag_opt, !Forall_app. split_conj.
  - apply wf_opt_elem; [solve_closed|]. intros v Hv. destruct (ib_can_be_prefix b); [|done]. injection Hv as <-. constructor.
  - apply wf_opt_elem; [solve_closed|]. intros v Hv. destruct (ib_must_be_fresh b); [|done]. injection Hv as <-. constructor.
  - apply wf_opt_elem; [solve_closed|]. intros v Hv. destruct (ib_forwarding_hint b) as [l|] eqn:El; [|done]. injection Hv as <-.
    apply wf_elems_wire, Forall_map. eapply Forall_impl; [by eapply ib_wf_hint|]. intros m Hm. split; [solve_closed|by apply wf_name_wire].
  - apply wf_opt_elem; [solve_closed|]. intros v Hv. destruct (ib_reflexive_name b) as [m|] eqn:Em; [|done]. injection Hv as <-.
    by eapply wf_name_wire, ib_wf_reflexive.
  - repeat (apply Forall_cons; split; [split; [solve_closed|apply wf_be_encode || apply wf_enc_nni]|]). constructor.
  - apply wf_opt_elem; [solve_closed|]. intros v Hv. destruct (ib_hop_limit b) as [h|] eqn:Eh; [|done]. injection Hv as <-.
    apply Forall_singleton. by eapply ib_wf_hop.
Qed.

Lemma zlen_body_elems b n : ib_ok b -> zlen (elems_wire (body_elems b n)) + zlen (name_wire (ib_name b)) +
  match ib_app_parameters b with Some p => zlen p | None => 0 end <= ib_len b + 200.
Proof.
  intros Hb. unfold body_elems, ib_len. rewrite !flag_opt, !zlen_elems_wire_app, elems_wire_cons, elems_wire_one, zlen_app. cbn [fst snd].
  assert (forall (t : Z) (c : bool), zlen (elems_wire (opt_elem t (if c then Some [] else None))) <= 18) as Hflag.
  { intros t c. pose proof (zlen_opt_elem t (if c then Some [] else None)) as H. destruct c; cbn iota in *; rewrite ?zlen_nil in H; lia. }
  pose proof (Hflag packet_type.CAN_BE_PREFIX (ib_can_be_prefix b)). pose proof (Hflag packet_type.MUST_BE_FRESH (ib_must_be_fresh b)).
  pose proof (zlen_opt_elem packet_type.FORWARDING_HINT ((fun l => elems_wire (hint_elems l)) <$> ib_forwarding_hint b)).
  pose proof (zlen_opt_elem packet_type.REFLEXIVE_NAME (name_wire <$> ib_reflexive_name b)).
  pose proof (zlen_opt_elem packet_type.HOP_LIMIT ((fun h => [h]) <$> ib_hop_limit b)).
  pose proof (zlen_tlv_nni packet_type.INTEREST_LIFETIME (lifetime_ms b)). rewrite <- enc_nni_spec in *.
  rewrite (zlen_tlv_bytes packet_type.NONCE), zlen_be_encode. change (tlv_size packet_type.NONCE (Z.of_nat 4)) with 6.
  destruct (ib_forwarding_hint b), (ib_reflexive_name b), (ib_hop_limit b); cbn [fmap option_fmap option_map] in *;
    change (zlen [_]) with 1 in *; lia.
Qed.

(** *** The unsigned Interest *)

Definition psdc (digest : bytes) : NameComponent := mkComponent tlv_type.PARAMETERS_SHA256 digest.

(** The name on the wire: with the digest of the parameters when there are any. *)
Definition full_name (sha256 : bytes -> bytes) (b : InterestBuilder) : Name :=
  match ib_app_parameters b with
  | Some p => ib_name b ++ [psdc (sha256 (tlv_bytes packet_type.APP_PARAMETERS p))]
  | None => ib_name b
  end.
Definition interest_elems (b : InterestBuilder) (n : Z) : list elem :=
  body_elems b n ++ opt_elem packet_type.APP_PARAMETERS (id <$> ib_app_parameters b).

(** A name a digest can be appended to, or that can go out as it is. *)
Definition ib_valid (b : InterestBuilder) : Prop :=
  match ib_app_parameters b with
  | Some _ => Interest.psdc_count (ib_name b) = 0
  | None => Interest.psdc_count (ib_name b) <= 1 /\ ib_name b <> []
  end.

Lemma wf_psdc sha256 x : is_digest sha256 -> wf_component (psdc (sha256 x)).
Proof. intros H. split; [solve_closed|apply H]. Qed.

Lemma psdc_wire sha256 n x : is_digest sha256 ->
  zlen (name_wire (n ++ [psdc (sha256 x)])) = zlen (name_wire n) + 34.
Proof. intros H. rewrite name_wire_app, zlen_app, name_wire_cons, zlen_app, zlen_tlv_bytes. unfold psdc. cbn [typ value]. by rewrite (proj1 (H x)). Qed.

Lemma write_psdc_name n d : wf_name n -> wf_component (psdc d) -> zlen (name_wire (n ++ [psdc d])) + 100 <= usize_max ->
  buf (write_nested new tlv_type.NAME (fun w => write_tlv (NameOps.write_components n w) tlv_type.PARAMETERS_SHA256 d)) =
  tlv_bytes tlv_type.NAME (name_wire (n ++ [psdc d])).
Proof.
  intros Hn Hd Hl. assert (Forall comp_sized (n ++ [psdc d])) as Hc by (apply wire_comps_sized; [apply Forall_app; split; [done|by apply Forall_singleton]|lia]).
  apply Forall_app in Hc as [Hc [[Ht Hv] _]%Forall_cons]. unfold psdc in *. cbn [typ value] in *.
  assert (buf (write_tlv (NameOps.write_components n new) tlv_type.PARAMETERS_SHA256 d) = name_wire (n ++ [mkComponent tlv_type.PARAMETERS_SHA256 d])) as Hin.
  { rewrite buf_write_tlv, buf_write_components, name_wire_app by done. by rewrite name_wire_cons, app_nil_r. }
  rewrite buf_write_nested; rewrite ?Hin; [done|done|unfold usize_max in *; lia].
Qed.

Section unsigned.
Context (sha256 : bytes -> bytes) (Hsha : is_digest sha256) (b : InterestBuilder) (Hb : ib_ok b) (n : Z).

Lemma wf_full_name : wf_name (full_name sha256 b).
Proof.
  unfold full_name. destruct (ib_app_parameters b); [|apply Hb]. apply Forall_app. split; [apply Hb|]. apply Forall_singleton. by apply wf_psdc.
Qed.

Lemma full_name_size : zlen (name_wire (full_name sha256 b)) <= zlen (name_wire (ib_name b)) + 34.
Proof. unfold full_name. destruct (ib_app_parameters b); [|lia]. rewrite psdc_wire by done. lia. Qed.

Lemma wf_interest_elems : Forall wf_elem (interest_elems b n).
Proof.
  apply Forall_app. split; [by apply wf_body_elems|]. apply wf_opt_elem; [solve_closed|]. intros v Hv.
  destruct (ib_app_parameters b) as [p|] eqn:E; [|done]. injection Hv as <-. by eapply ib_wf_params.
Qed.

Lemma interest_elems_size : zlen (name_wire (full_name sha256 b)) + zlen (elems_wire (interest_elems b n)) + 600 <= usize_max.
Proof.
  pose proof full_name_size. pose proof (zlen_body_elems b n Hb). pose proof (ib_size b Hb). unfold interest_elems. rewrite zlen_elems_wire_app.
  pose proof (zlen_opt_elem packet_type.APP_PARAMETERS (id <$> ib_app_parameters b)).
  destruct (ib_app_parameters b); cbn [fmap option_fmap option_map id] in *; unfold id in *; lia.
Qed.

Lemma interest_wire_spec : InterestBuilder.interest_wire sha256 b n =
  tlv_bytes packet_type.INTEREST (tlv_bytes tlv_type.NAME (name_wire (full_name sha256 b)) ++ elems_wire (interest_elems b n)).
Proof.
  pose proof interest_elems_size as Hz. destruct (ib_sizes b Hb) as (Hsn & _ & _ & Hsp).
  pose proof (zlen_nonneg (elems_wire (interest_elems b n))).
  assert (forall w, buf w = tlv_bytes tlv_type.NAME (name_wire (full_name sha256 b)) ->
    buf (match ib_app_parameters b with Some params => write_tlv (write_body_fields w b n (lifetime_ms b)) packet_type.APP_PARAMETERS params
         | None => write_body_fields w b n (lifetime_ms b) end) =
    tlv_bytes tlv_type.NAME (name_wire (full_name sha256 b)) ++ elems_wire (interest_elems b n)) as Hbody.
  { intros w Hw. rewrite tlv_bytes_elems in Hw |- *. unfold interest_elems. rewrite <- !elems_wire_app, app_assoc.
    apply (write_opt_elems _ _ _ id); [by apply write_body_elems|done|]. intros p Hp. specialize (Hsp p Hp). unfold id, usize_max in *. lia. }
  unfold InterestBuilder.interest_wire, finish.
  match goal with |- buf (write_nested _ _ ?f) = _ => set (g := f) end.
  assert (buf (g new) = tlv_bytes tlv_type.NAME (name_wire (full_name sha256 b)) ++ elems_wire (interest_elems b n)) as Hin.
  { unfold g. cbv beta zeta. apply Hbody. clear Hbody. revert Hz. unfold full_name. destruct (ib_app_parameters b) as [p|] eqn:E; intros Hz.
    - assert (finish (write_tlv new packet_type.APP_PARAMETERS p) = tlv_bytes packet_type.APP_PARAMETERS p) as Hf.
      { unfold finish. rewrite buf_write_tlv; [done|done|]. specialize (Hsp p eq_refl). unfold usize_max in *. lia. }
      unfold finish in Hf. rewrite Hf. apply write_psdc_name; [apply Hb|by apply wf_psdc|lia].
    - rewrite buf_write_name; [done|]. split; [apply Hb|lia]. }
  rewrite buf_write_nested; rewrite ?Hin; [done|done|]. rewrite zlen_app, zlen_tlv_bytes.
  pose proof (tlv_size_bounds tlv_type.NAME (zlen (name_wire (full_name sha256 b))) (zlen_nonneg _)). unfold usize_max in *. lia.
Qed.

Lemma interest_wire_size : wf_bytes (InterestBuilder.interest_wire sha256 b n) /\ zlen (InterestBuilder.interest_wire sha256 b n) + 500 <= usize_max.
Proof.
  rewrite interest_wire_spec. split.
  - apply wf_tlv_bytes; [done|]. apply wf_bytes_app. split; [apply wf_tlv_bytes; [done|apply wf_name_wire, wf_full_name]|apply wf_elems_wire, wf_interest_elems].
  - pose proof interest_elems_size. pose proof (zlen_nonneg (elems_wire (interest_elems b n))).
    pose proof (tlv_size_bounds tlv_type.NAME (zlen (name_wire (full_name sha256 b))) (zlen_nonneg _)). pose proof (zlen_nonneg (name_wire (full_name sha256 b))).
    rewrite zlen_tlv_bytes, zlen_app, zlen_tlv_bytes.
    pose proof (tlv_size_bounds packet_type.INTEREST (tlv_size tlv_type.NAME (zlen (name_wire (full_name sha256 b))) + zlen (elems_wire (interest_elems b n))) ltac:(lia)). lia.
Qed.

Lemma psdc_count_app l d : Interest.psdc_count (l ++ [psdc d]) = Interest.psdc_count l + 1.
Proof. unfold Interest.psdc_count. rewrite filter_app, zlen_app. done. Qed.

Lemma interest_wire_shape : ib_valid b -> interest_shape (InterestBuilder.interest_wire sha256 b n) (full_name sha256 b) (interest_elems b n) [].
Proof.
  intros Hv. constructor.
  - by rewrite interest_wire_spec, app_nil_r.
  - apply wf_full_name.
  - unfold ib_valid, full_name in *. destruct (ib_app_parameters b); [|tauto]. by destruct (ib_name b).
  - apply wf_interest_elems.
  - apply body_elems_ok. destruct (ib_app_parameters b); cbn [fmap option_fmap option_map opt_elem].
    + apply (body_ok_step _ _ _ 8); [done|lia|done|done|]. by split; [repeat constructor|].
    + by split; [repeat constructor|].
  - unfold ib_valid, full_name, interest_elems, has_elem in *. rewrite existsb_app.
    destruct (ib_app_parameters b) as [p|]; cbn [fmap option_fmap option_map opt_elem].
    + rewrite psdc_count_app. split; [lia|]. intros _. lia.
    + destruct Hv as [Hv _]. split; [done|]. rewrite orb_false_r. unfold body_elems.
      by destruct (ib_can_be_prefix b), (ib_must_be_fresh b), (ib_forwarding_hint b), (ib_reflexive_name b), (ib_hop_limit b).
Qed.
End unsigned.

(** *** More accessors *)

Section more_accessors.
Context (raw : bytes) (n : Name) (es : list elem) (rest : bytes).
Context (Hwf : wf_bytes raw) (Hl : zlen raw <= usize_max) (Hs : interest_shape raw n es rest).

Lemma accessor_forwarding_hint l : find_elem packet_type.FORWARDING_HINT es = Some (elems_wire (hint_elems l)) -> Forall wf_name l ->
  zlen (elems_wire (hint_elems l)) <= usize_max ->
  Interest.forwarding_hint (mkInterest raw n) = if zlen l =? 0 then None else Some l.
Proof.
  intros Hf Hn Hz. unfold Interest.forwarding_hint, Interest.decode_forwarding_hint. cbn [i_raw].
  rewrite (guarded_search_body raw n es rest Hwf Hl Hs _ packet_type.FORWARDING_HINT (fun val =>
    let? fl := scan (A := Empty_set) Interest.delegations_body val [] in
    match fl with Next names => Ok (if zlen names =? 0 then None else Some names) | Return e => match e with end end)); [|done|].
  2:{ intros t v. destruct (t =? packet_type.FORWARDING_HINT); [|done]. by destruct (scan Interest.delegations_body v []) as [[|[]]|]. }
  assert (Forall wf_elem (hint_elems l)) as Hw by (apply Forall_map; eapply Forall_impl; [exact Hn|]; intros m Hm; split; [solve_closed|by apply wf_name_wire]).
  rewrite Hf, scan_elems by done.
  assert (forall acc, fold_flow (A := Empty_set) Interest.delegations_body (hint_elems l) acc = Ok (Next (acc ++ l))) as Hfold.
  { clear Hf. revert Hz. induction Hn as [|m l Hm Hn IH]; intros Hz acc; cbn [hint_elems map fold_flow]; [by rewrite app_nil_r|].
    apply Forall_cons in Hw as [_ Hw]. cbn [hint_elems map] in Hz. rewrite elems_wire_cons, zlen_app in Hz. cbn [fst snd] in Hz. rewrite zlen_tlv_bytes in Hz.
    pose proof (tlv_size_bounds tlv_type.NAME (zlen (name_wire m)) (zlen_nonneg _)). pose proof (zlen_nonneg (elems_wire (map (fun n => (tlv_type.NAME, name_wire n)) l))).
    unfold Interest.delegations_body at 1. rewrite Z.eqb_refl, decode_name_ok by (done || lia). unfold hint_elems in IH.
    pose proof (zlen_nonneg (name_wire m)). rewrite IH by (done || lia). by rewrite <- app_assoc. }
  rewrite Hfold. cbn [app ok_flatten]. by destruct (zlen l =? 0).
Qed.

Lemma accessor_reflexive_name m : find_elem packet_type.REFLEXIVE_NAME es = Some (name_wire m) -> wf_name m -> zlen (name_wire m) <= usize_max ->
  Interest.reflexive_name (mkInterest raw n) = if NameOps.is_empty m then None else Some m.
Proof.
  intros Hf Hm Hz. unfold Interest.reflexive_name, Interest.decode_reflexive_name. cbn [i_raw].
  rewrite (guarded_search_body raw n es rest Hwf Hl Hs _ packet_type.REFLEXIVE_NAME (fun val =>
    let? name := decode_name val in Ok (if NameOps.is_empty name then None else Some name))); [|done|].
  2:{ intros t v. destruct (t =? packet_type.REFLEXIVE_NAME); [|done]. by destruct (decode_name v). }
  by rewrite Hf, decode_name_ok.
Qed.

Lemma accessor_absent :
  (find_elem packet_type.FORWARDING_HINT es = None -> Interest.forwarding_hint (mkInterest raw n) = None) /\
  (find_elem packet_type.REFLEXIVE_NAME es = None -> Interest.reflexive_name (mkInterest raw n) = None).
Proof.
  unfold Interest.forwarding_hint, Interest.decode_forwarding_hint, Interest.reflexive_name, Interest.decode_reflexive_name. cbn [i_raw]. split; intros Hf.
  - rewrite (guarded_search_body raw n es rest Hwf Hl Hs _ packet_type.FORWARDING_HINT (fun val =>
      let? fl := scan (A := Empty_set) Interest.delegations_body val [] in
      match fl with Next names => Ok (if zlen names =? 0 then None else Some names) | Return e => match e with end end)); [by rewrite Hf|done|].
    intros t v. destruct (t =? packet_type.FORWARDING_HINT); [|done]. by destruct (scan Interest.delegations_body v []) as [[|[]]|].
  - rewrite (guarded_search_body raw n es rest Hwf Hl Hs _ packet_type.REFLEXIVE_NAME (fun val =>
      let? name := decode_name val in Ok (if NameOps.is_empty name then None else Some name))); [by rewrite Hf|done|].
    intros t v. destruct (t =? packet_type.REFLEXIVE_NAME); [|done]. by destruct (decode_name v).
Qed.

Lemma accessor_sig_value : Interest.sig_value (mkInterest raw n) = find_elem packet_type.INTEREST_SIGNATURE_VALUE es.
Proof.
  unfold Interest.sig_value, Interest.decode_interest_sig_value. cbn [i_raw].
  rewrite (guarded_search_body raw n es rest Hwf Hl Hs _ packet_type.INTEREST_SIGNATURE_VALUE (fun v => Ok (Some v))); [|done|].
  - by destruct (find_elem _ es).
  - intros t v. by destruct (t =? packet_type.INTEREST_SIGNATURE_VALUE).
Qed.
End more_accessors.

(** What the decoded Interest shows of the builder's unsigned fields. *)
Record carries (i : Interest) (b : InterestBuilder) (nonce : Z) : Prop := {
  c_selectors : Interest.selectors i = mkSelector (ib_can_be_prefix b) (ib_must_be_fresh b);
  c_nonce : Interest.nonce i = Some nonce;
  c_lifetime : Interest.lifetime i = Some (Z.min (lifetime_ms b) 3600000);
  c_hop_limit : Interest.hop_limit i = ib_hop_limit b;
  c_hint : Interest.forwarding_hint i = (let! l := ib_forwarding_hint b in if zlen l =? 0 then None else Some l);
  c_reflexive : Interest.reflexive_name i = (let! m := ib_reflexive_name b in if NameOps.is_empty m then None else Some m)
}.

Lemma find_body T b n tail : find_elem T (body_elems b n ++ tail) =
  if T =? packet_type.CAN_BE_PREFIX then (if ib_can_be_prefix b then Some [] else find_elem T tail)
  else if T =? packet_type.MUST_BE_FRESH then (if ib_must_be_fresh b then Some [] else find_elem T tail)
  else if T =? packet_type.FORWARDING_HINT then
    match ib_forwarding_hint b with Some l => Some (elems_wire (hint_elems l)) | None => find_elem T tail end
  else if T =? packet_type.REFLEXIVE_NAME then match ib_reflexive_name b with Some m => Some (name_wire m) | None => find_elem T tail end
  else if T =? packet_type.NONCE then Some (be_encode 4 n)
  else if T =? packet_type.INTEREST_LIFETIME then Some (enc_nni (lifetime_ms b))
  else if T =? packet_type.HOP_LIMIT then match ib_hop_limit b with Some h => Some [h] | None => find_elem T tail end
  else find_elem T tail.
Proof.
  unfold body_elems. rewrite !flag_opt, <- !app_assoc, !find_elem_opt. cbn [app]. rewrite !find_elem_cons, find_elem_opt. cbn [fst snd].
  destruct (decide (packet_type.NONCE = T)) as [<-|H1].
  { by destruct (ib_can_be_prefix b), (ib_must_be_fresh b), (ib_forwarding_hint b), (ib_reflexive_name b). }
  destruct (decide (packet_type.INTEREST_LIFETIME = T)) as [<-|H2].
  { by destruct (ib_can_be_prefix b), (ib_must_be_fresh b), (ib_forwarding_hint b), (ib_reflexive_name b). }
  rewrite (proj2 (Z.eqb_neq T packet_type.NONCE)), (proj2 (Z.eqb_neq T packet_type.INTEREST_LIFETIME)) by done.
  rewrite !(Z.eqb_sym _ T).
  destruct (Z.eqb_spec T packet_type.CAN_BE_PREFIX) as [->|]; [by destruct (ib_can_be_prefix b)|].
  destruct (Z.eqb_spec T packet_type.MUST_BE_FRESH) as [->|]; [by destruct (ib_must_be_fresh b)|].
  destruct (Z.eqb_spec T packet_type.FORWARDING_HINT) as [->|]; [by destruct (ib_forwarding_hint b)|].
  destruct (Z.eqb_spec T packet_type.REFLEXIVE_NAME) as [->|]; [by destruct (ib_reflexive_name b)|].
  destruct (Z.eqb_spec T packet_type.HOP_LIMIT) as [->|]; [by destruct (ib_hop_limit b)|done].
Qed.

Lemma has_elem_find t es : has_elem t es = match find_elem t es with Some _ => true | None => false end.
Proof.
  unfold has_elem. induction es as [|e es IH]; [done|]. cbn [existsb]. rewrite IH, find_elem_cons.
  destruct (Z.eqb_spec e.1 t); [by rewrite decide_True|by rewrite decide_False].
Qed.

(** The parameters and the signature are all that comes after the body fields. *)
Definition tail_free (tail : list elem) : Prop :=
  Forall (fun e => e.1 = packet_type.APP_PARAMETERS \/ e.1 = packet_type.INTEREST_SIGNATURE_INFO \/ e.1 = packet_type.INTEREST_SIGNATURE_VALUE) tail.

Lemma tail_free_find T tail : tail_free tail ->
  T <> packet_type.APP_PARAMETERS -> T <> packet_type.INTEREST_SIGNATURE_INFO -> T <> packet_type.INTEREST_SIGNATURE_VALUE -> find_elem T tail = None.
Proof.
  intros Ht H1 H2 H3. induction Ht as [|e tail He _ IH]; [done|]. rewrite find_elem_cons, decide_False; [done|]. intros <-. tauto.
Qed.

Lemma is_u64_lifetime b : is_u64 (lifetime_ms b).
Proof. unfold lifetime_ms. destruct (ib_lifetime b); [apply is_u64_as_millis|done]. Qed.

Lemma shape_carries raw nm b n tail rest :
  wf_bytes raw -> zlen raw <= usize_max -> interest_shape raw nm (body_elems b n ++ tail) rest -> ib_ok b -> is_u32 n -> tail_free tail ->
  carries (mkInterest raw nm) b n.
Proof.
  intros Hwf Hl Hs Hb Hn Ht. pose proof (fun T => tail_free_find T tail Ht) as Hnone. destruct (ib_sizes b Hb) as (_ & Hsh & Hsr & _).
  constructor.
  - rewrite (accessor_selectors raw nm _ rest Hwf Hl Hs), !has_elem_find, !find_body. cbn [Z.eqb].
    rewrite !Hnone by done. change (packet_type.MUST_BE_FRESH =? packet_type.CAN_BE_PREFIX) with false. rewrite !Z.eqb_refl. cbn iota.
    by destruct (ib_can_be_prefix b), (ib_must_be_fresh b).
  - rewrite (accessor_nonce raw nm _ rest Hwf Hl Hs), find_body. change (be_decode <$> Some (be_encode 4 n) = Some n). cbn [fmap option_fmap option_map].
    rewrite be_decode_encode, Z.mod_small; [done|]. unfold_bounds. change (256 ^ Z.of_nat 4) with (2 ^ 32). lia.
  - rewrite (accessor_lifetime raw nm _ rest Hwf Hl Hs), find_body.
    change (match decode_nni (enc_nni (lifetime_ms b)) with Ok ms => Some (Z.min ms 3600000) | Err _ => None end = Some (Z.min (lifetime_ms b) 3600000)).
    by rewrite decode_enc_nni by apply is_u64_lifetime.
  - rewrite (accessor_hop_limit raw nm _ rest Hwf Hl Hs), find_body.
    change (match (match ib_hop_limit b with Some h => Some [h] | None => find_elem packet_type.HOP_LIMIT tail end) with Some [h] => Some h | _ => None end = ib_hop_limit b).
    destruct (ib_hop_limit b); [done|]. by rewrite Hnone.
  - pose proof (find_body packet_type.FORWARDING_HINT b n tail) as Hf.
    change (find_elem packet_type.FORWARDING_HINT (body_elems b n ++ tail) =
      match ib_forwarding_hint b with Some l => Some (elems_wire (hint_elems l)) | None => find_elem packet_type.FORWARDING_HINT tail end) in Hf.
    destruct (ib_forwarding_hint b) as [l|] eqn:El; cbn [mbind option_bind].
    + apply (accessor_forwarding_hint raw nm _ rest Hwf Hl Hs); [done|by eapply ib_wf_hint|]. specialize (Hsh l eq_refl). lia.
    + rewrite Hnone in Hf by done. by apply (accessor_absent raw nm _ rest Hwf Hl Hs).
  - pose proof (find_body packet_type.REFLEXIVE_NAME b n tail) as Hf.
    change (find_elem packet_type.REFLEXIVE_NAME (body_elems b n ++ tail) =
      match ib_reflexive_name b with Some m => Some (name_wire m) | None => find_elem packet_type.REFLEXIVE_NAME tail end) in Hf.
    destruct (ib_reflexive_name b) as [m|] eqn:Em; cbn [mbind option_bind].
    + apply (accessor_reflexive_name raw nm _ rest Hwf Hl Hs); [done|by eapply ib_wf_reflexive|]. specialize (Hsr m eq_refl). lia.
    + rewrite Hnone in Hf by done. by apply (accessor_absent raw nm _ rest Hwf Hl Hs).
Qed.

Lemma next_nonce_u32 pid c : is_u32 (next_nonce pid c).1.
Proof. unfold next_nonce, wrap. cbn [fst]. pose proof (Z.mod_pos_bound ((Z.shiftl pid 16) mod 2 ^ 32 + c) (2 ^ 32) ltac:(lia)). unfold_bounds. lia. Qed.

Lemma tail_free_params o : tail_free (opt_elem packet_type.APP_PARAMETERS o).
Proof. destruct o; [apply Forall_singleton; by left|constructor]. Qed.

Lemma build_reads sha256 pid counter b : is_digest sha256 -> ib_ok b -> ib_valid b -> ib_pin_face b = None ->
  let wire := (InterestBuilder.build sha256 pid counter b).1 in
  exists i, Interest.decode wire = Ok i /\ i_name i = full_name sha256 b /\ carries i b (next_nonce pid counter).1 /\
    Interest.app_parameters i = ib_app_parameters b /\ Interest.sig_info i = None.
Proof.
  intros Hsha Hb Hv Hpin. set (nonce := (next_nonce pid counter).1).
  destruct (interest_wire_size sha256 Hsha b Hb nonce) as [Hwf Hl]. pose proof (interest_wire_shape sha256 Hsha b Hb nonce Hv) as Hs.
  assert ((InterestBuilder.build sha256 pid counter b).1 = InterestBuilder.interest_wire sha256 b nonce) as ->.
  { unfold InterestBuilder.build. rewrite Hpin. done. }
  set (wire := InterestBuilder.interest_wire sha256 b nonce) in *. cbv zeta. assert (zlen wire <= usize_max) as Hl' by lia.
  exists (mkInterest wire (full_name sha256 b)). split_conj.
  - apply interest_decode_shape; [done|done|]. by eexists _, _.
  - done.
  - eapply shape_carries; [done|done|exact Hs|done|apply next_nonce_u32|apply tail_free_params].
  - rewrite (accessor_app_parameters wire _ _ _ Hwf Hl' Hs). unfold interest_elems. rewrite find_body.
    change (find_elem packet_type.APP_PARAMETERS (opt_elem packet_type.APP_PARAMETERS (id <$> ib_app_parameters b)) = ib_app_parameters b).
    by destruct (ib_app_parameters b).
  - pose proof (accessor_sig_info wire _ _ _ Hwf Hl' Hs) as Hsi. unfold interest_elems in Hsi. rewrite find_body in Hsi.
    change (match find_elem packet_type.INTEREST_SIGNATURE_INFO (opt_elem packet_type.APP_PARAMETERS (id <$> ib_app_parameters b)) with
      | Some v => exists si, SignatureInfo.decode v = Ok si /\ Interest.sig_info (mkInterest wire (full_name sha256 b)) = Some si
      | None => Interest.sig_info (mkInterest wire (full_name sha256 b)) = None end) in Hsi.
    by destruct (ib_app_parameters b).
Qed.

(** An Interest that is built decodes to what was asked for: the name (with
    the digest of the parameters appended when there are any), the selectors, a
    fresh nonce, the lifetime in milliseconds up to the hour a forwarder grants,
    the hop limit, the forwarding hint and the reflexive name unless empty, and
    the parameters.  Pinned to a face it is the same Interest in a link packet
    that carries the face. *)
Theorem interest_build_roundtrip (sha256 : bytes -> bytes) (pid counter face : Z) (b : InterestBuilder) :
  is_digest sha256 -> ib_ok b -> ib_valid b -> ib_pin_face b = None -> is_u64 face ->
  let wire := (InterestBuilder.build sha256 pid counter b).1 in
  (exists i, Interest.decode wire = Ok i /\ i_name i = full_name sha256 b /\ carries i b (next_nonce pid counter).1 /\
    Interest.app_parameters i = ib_app_parameters b /\ Interest.sig_info i = None) /\
  (exists p, LpPacket.decode (InterestBuilder.build sha256 pid counter (InterestBuilder.pin_face face b)).1 = Ok p /\
    fragment p = Some wire /\ next_hop_face_id p = Some face /\ lp_pit_token p = None).
Proof.
  intros Hsha Hb Hv Hpin Hface. split; [by apply build_reads|]. set (nonce := (next_nonce pid counter).1).
  destruct (interest_wire_size sha256 Hsha b Hb nonce) as [Hwf Hl].
  assert ((InterestBuilder.build sha256 pid counter b).1 = InterestBuilder.interest_wire sha256 b nonce) as ->.
  { unfold InterestBuilder.build. rewrite Hpin. done. }
  set (wire := InterestBuilder.interest_wire sha256 b nonce) in *.
  exists (headers_packet wire (mkHeaders None None None (Some face) None)). split; [|done].
  change ((InterestBuilder.build sha256 pid counter (InterestBuilder.pin_face face b)).1)
    with (encode_lp_with_headers wire (mkHeaders None None None (Some face) None)).
  apply with_headers_decodes; [done| |change (token_len _) with 0; lia]. constructor; try done. by intros x [= <-].
Qed.

(** *** The signed Interest *)

Definition time_ms (e : Env) : Z := as_millis (Z.max 0 (now_ns e)).
Definition isig_elems (e : Env) (st : SignatureType) (kl : option Name) : list elem :=
  sig_info_elems st kl ++ [(packet_type.SIGNATURE_NONCE, rand_nonce e); (packet_type.SIGNATURE_TIME, enc_nni (time_ms e))].
Definition params_of (b : InterestBuilder) : bytes := match ib_app_parameters b with Some p => p | None => [] end.
Definition signed_tail (e : Env) (b : InterestBuilder) (st : SignatureType) (kl : option Name) : list elem :=
  [(packet_type.APP_PARAMETERS, params_of b); (packet_type.INTEREST_SIGNATURE_INFO, elems_wire (isig_elems e st kl))].

Record sign_env (e : Env) (b : InterestBuilder) (kl : option Name) (sv : bytes) : Prop := {
  se_ib : ib_ok b;
  se_rand : zlen (rand_nonce e) = 8 /\ wf_bytes (rand_nonce e);
  se_locator : forall n, kl = Some n -> wf_name n;
  se_sv : wf_bytes sv;
  se_size : ib_len b + match kl with Some n => zlen (name_wire n) | None => 0 end + zlen sv + 2000 <= usize_max
}.

Section signed.
Context (sha256 : bytes -> bytes) (Hsha : is_digest sha256) (e : Env) (b : InterestBuilder) (st : SignatureType) (kl : option Name) (sv : bytes).
Context (He : sign_env e b kl sv) (n : Z).

Lemma se_fits : locator_fits kl.
Proof.
  intros m Hm. pose proof (se_size _ _ _ _ He) as Hz. rewrite Hm in Hz. pose proof (se_ib _ _ _ _ He) as Hb. split; [by eapply se_locator|].
  pose proof (zlen_body_elems b 0 Hb). pose proof (zlen_nonneg (elems_wire (body_elems b 0))). pose proof (zlen_nonneg (name_wire (ib_name b))).
  pose proof (zlen_nonneg sv). assert (0 <= match ib_app_parameters b with Some p => zlen p | None => 0 end) by (destruct (ib_app_parameters b); [apply zlen_nonneg|done]).
  unfold ib_len in *. destruct (ib_forwarding_hint b), (ib_reflexive_name b);
    repeat match goal with |- context [zlen ?x] => lazymatch goal with _ : 0 <= zlen x |- _ => fail | _ => pose proof (zlen_nonneg x) end
           | _ : context [zlen ?x] |- _ => lazymatch goal with _ : 0 <= zlen x |- _ => fail | _ => pose proof (zlen_nonneg x) end end; lia.
Qed.

Lemma zlen_isig : zlen (elems_wire (isig_elems e st kl)) <= 200 + match kl with Some m => zlen (name_wire m) | None => 0 end.
Proof.
  unfold isig_elems. rewrite zlen_elems_wire_app, elems_wire_cons, elems_wire_one, zlen_app. cbn [fst snd]. pose proof (zlen_sig_info_elems st kl).
  rewrite zlen_tlv_bytes, (proj1 (se_rand _ _ _ _ He)). change (tlv_size packet_type.SIGNATURE_NONCE 8) with 10.
  rewrite enc_nni_spec. pose proof (zlen_tlv_nni packet_type.SIGNATURE_TIME (time_ms e)). lia.
Qed.

Lemma wf_isig : Forall wf_elem (isig_elems e st kl).
Proof.
  apply Forall_app. split; [apply wf_sig_info_elems, se_fits|]. apply Forall_cons. split; [split; [solve_closed|apply (se_rand _ _ _ _ He)]|].
  apply Forall_singleton. split; [solve_closed|apply wf_enc_nni].
Qed.

(** The sizes of the four buffers and the signature. *)
Lemma signed_sizes :
  zlen (name_wire (ib_name b)) + zlen (elems_wire (body_elems b n)) + zlen (params_of b) +
  zlen (elems_wire (isig_elems e st kl)) + zlen sv + 1000 <= usize_max /\ wf_bytes (params_of b).
Proof.
  pose proof (se_ib _ _ _ _ He) as Hb. pose proof (se_size _ _ _ _ He). pose proof (zlen_body_elems b n Hb). pose proof zlen_isig. unfold params_of.
  destruct (ib_app_parameters b) as [p|] eqn:E; rewrite ?zlen_nil; (split; [lia|]); [by eapply ib_wf_params|constructor].
Qed.

Lemma params_tlv_spec : finish (write_tlv new packet_type.APP_PARAMETERS (params_of b)) = tlv_bytes packet_type.APP_PARAMETERS (params_of b).
Proof.
  destruct signed_sizes as [H _]. unfold finish. rewrite buf_write_tlv; [done|done|].
  pose proof (zlen_nonneg (name_wire (ib_name b))). pose proof (zlen_nonneg (elems_wire (body_elems b n))). pose proof (zlen_nonneg (elems_wire (isig_elems e st kl))).
  pose proof (zlen_nonneg sv). unfold usize_max in *. lia.
Qed.

Lemma parts_spec counter : (next_nonce (pid e) counter).1 = n ->
  (InterestBuilder.build_signed_interest_parts e counter b st kl).1 =
    mkParts (name_wire (not_psdc (ib_name b))) (elems_wire (body_elems b n)) (tlv_bytes packet_type.APP_PARAMETERS (params_of b))
      (tlv_bytes packet_type.INTEREST_SIGNATURE_INFO (elems_wire (isig_elems e st kl))).
Proof.
  intros Hn. pose proof (se_ib _ _ _ _ He) as Hb. unfold InterestBuilder.build_signed_interest_parts.
  destruct (next_nonce (pid e) counter) as [n' c'] eqn:En. cbn [fst] in Hn. subst n'. fold (params_of b). cbn [fst]. rewrite params_tlv_spec.
  destruct signed_sizes as [Hz _]. pose proof (zlen_nonneg (name_wire (ib_name b))). pose proof (zlen_nonneg (elems_wire (body_elems b n))).
  pose proof (zlen_nonneg (elems_wire (isig_elems e st kl))). pose proof (zlen_nonneg sv). pose proof (zlen_nonneg (params_of b)). f_equal.
  - unfold finish. fold (not_psdc (ib_name b)). apply write_components_wire; [apply wf_not_psdc, Hb|]. pose proof (zlen_not_psdc (ib_name b)). lia.
  - unfold finish. by apply (write_body_elems b Hb new []).
  - unfold finish. pose proof (write_nested_elems new [] packet_type.INTEREST_SIGNATURE_INFO) as Hw.
    rewrite (Hw _ (elems_wire (isig_elems e st kl))); [by rewrite app_nil_l, elems_wire_one|done|done| |unfold usize_max in *; lia].
    unfold isig_elems. change [(packet_type.SIGNATURE_NONCE, rand_nonce e); (packet_type.SIGNATURE_TIME, enc_nni (time_ms e))]
      with ([(packet_type.SIGNATURE_NONCE, rand_nonce e)] ++ [(packet_type.SIGNATURE_TIME, enc_nni (time_ms e))]). rewrite app_assoc.
    apply write_tlv_elems; [|done|pose proof (zlen_enc_nni (time_ms e)); unfold_bounds; lia].
    apply write_tlv_elems; [|done|rewrite (proj1 (se_rand _ _ _ _ He)); unfold_bounds; lia].
    apply (write_locator _ [_]); [|apply se_fits]. by apply (buf_write_nni_elems _ []).
Qed.

Definition signed_digest : bytes := sha256 (elems_wire (signed_tail e b st kl ++ [(packet_type.INTEREST_SIGNATURE_VALUE, sv)])).
Definition signed_name : Name := not_psdc (ib_name b) ++ [psdc signed_digest].
Definition signed_elems_of : list elem := body_elems b n ++ signed_tail e b st kl ++ [(packet_type.INTEREST_SIGNATURE_VALUE, sv)].

Lemma signed_name_ok : wf_name signed_name /\ zlen (name_wire signed_name) <= zlen (name_wire (ib_name b)) + 34 /\
  Interest.psdc_count signed_name = 1 /\ not_psdc signed_name = not_psdc (ib_name b).
Proof.
  pose proof (se_ib _ _ _ _ He) as Hb. unfold signed_name, signed_digest. split_conj.
  - apply Forall_app. split; [apply wf_not_psdc, Hb|]. apply Forall_singleton. by apply wf_psdc.
  - rewrite psdc_wire by done. pose proof (zlen_not_psdc (ib_name b)). lia.
  - by rewrite psdc_count_app, psdc_count_none.
  - unfold not_psdc at 1. rewrite filter_app. fold (not_psdc (not_psdc (ib_name b))). rewrite not_psdc_idem.
    rewrite filter_cons_False by (intros H; by apply H). apply app_nil_r.
Qed.

Lemma sig_tlv_spec : finish (write_tlv new packet_type.INTEREST_SIGNATURE_VALUE sv) = tlv_bytes packet_type.INTEREST_SIGNATURE_VALUE sv.
Proof.
  destruct signed_sizes as [H _]. unfold finish. rewrite buf_write_tlv; [done|done|].
  pose proof (zlen_nonneg (name_wire (ib_name b))). pose proof (zlen_nonneg (elems_wire (body_elems b n))). pose proof (zlen_nonneg (elems_wire (isig_elems e st kl))).
  pose proof (zlen_nonneg (params_of b)). unfold usize_max in *. lia.
Qed.

Lemma signed_tail_wire : elems_wire (signed_tail e b st kl ++ [(packet_type.INTEREST_SIGNATURE_VALUE, sv)]) =
  tlv_bytes packet_type.APP_PARAMETERS (params_of b) ++ tlv_bytes packet_type.INTEREST_SIGNATURE_INFO (elems_wire (isig_elems e st kl)) ++
  tlv_bytes packet_type.INTEREST_SIGNATURE_VALUE sv.
Proof. unfold signed_tail. cbn [app]. by rewrite !elems_wire_cons, app_nil_r. Qed.

Lemma signed_wire_size : zlen (name_wire signed_name) + zlen (elems_wire signed_elems_of) + 800 <= usize_max.
Proof.
  destruct signed_sizes as [H _]. destruct signed_name_ok as (_ & Hn & _ & _). unfold signed_elems_of.
  rewrite zlen_elems_wire_app, signed_tail_wire, zlen_app3, !zlen_tlv_bytes.
  pose proof (tlv_size_bounds packet_type.APP_PARAMETERS _ (zlen_nonneg (params_of b))). pose proof (tlv_size_bounds packet_type.INTEREST_SIGNATURE_VALUE _ (zlen_nonneg sv)).
  pose proof (tlv_size_bounds packet_type.INTEREST_SIGNATURE_INFO _ (zlen_nonneg (elems_wire (isig_elems e st kl)))). lia.
Qed.

Lemma assemble_spec :
  InterestBuilder.assemble_signed_interest sha256 (mkParts (name_wire (not_psdc (ib_name b))) (elems_wire (body_elems b n))
    (tlv_bytes packet_type.APP_PARAMETERS (params_of b)) (tlv_bytes packet_type.INTEREST_SIGNATURE_INFO (elems_wire (isig_elems e st kl)))) sv =
  tlv_bytes packet_type.INTEREST (tlv_bytes tlv_type.NAME (name_wire signed_name) ++ elems_wire signed_elems_of).
Proof.
  pose proof signed_wire_size as Hz. unfold InterestBuilder.assemble_signed_interest. cbn [name_components body_fields app_params_tlv sig_info_tlv].
  rewrite sig_tlv_spec, <- signed_tail_wire. fold signed_digest.
  assert (finish (write_tlv new tlv_type.PARAMETERS_SHA256 signed_digest) = tlv_bytes tlv_type.PARAMETERS_SHA256 signed_digest) as ->.
  { unfold finish, signed_digest. rewrite buf_write_tlv; [done|done|]. rewrite (proj1 (Hsha _)). by vm_compute. }
  assert (name_wire (not_psdc (ib_name b)) ++ tlv_bytes tlv_type.PARAMETERS_SHA256 signed_digest = name_wire signed_name) as Hnw.
  { unfold signed_name. rewrite name_wire_app, name_wire_cons, app_nil_r. done. }
  pose proof (zlen_nonneg (elems_wire signed_elems_of)).
  assert (finish (write_nested new tlv_type.NAME (fun w => write_raw (write_raw w (name_wire (not_psdc (ib_name b)))) (tlv_bytes tlv_type.PARAMETERS_SHA256 signed_digest)))
    = tlv_bytes tlv_type.NAME (name_wire signed_name)) as ->.
  { unfold finish. rewrite buf_write_nested; cbn [buf write_raw new]; rewrite ?app_nil_l, ?Hnw; [done|done|unfold usize_max in *; lia]. }
  pose proof (tlv_size_bounds tlv_type.NAME _ (zlen_nonneg (name_wire signed_name))). pose proof (zlen_nonneg (name_wire signed_name)).
  assert (elems_wire signed_elems_of = elems_wire (body_elems b n) ++ tlv_bytes packet_type.APP_PARAMETERS (params_of b) ++
    tlv_bytes packet_type.INTEREST_SIGNATURE_INFO (elems_wire (isig_elems e st kl)) ++ tlv_bytes packet_type.INTEREST_SIGNATURE_VALUE sv) as Hew
    by (unfold signed_elems_of; by rewrite elems_wire_app, signed_tail_wire).
  set (inner := zlen (tlv_bytes tlv_type.NAME (name_wire signed_name)) + _ + _ + _ + _).
  assert (inner = zlen (tlv_bytes tlv_type.NAME (name_wire signed_name) ++ elems_wire signed_elems_of)) as Hin
    by (unfold inner; rewrite Hew; rewrite !(zlen_app (tlv_bytes _ _)), (zlen_app (elems_wire _)), !(zlen_app (tlv_bytes _ _)); lia).
  assert (is_u64 inner) as Hi by (rewrite Hin, zlen_app, zlen_tlv_bytes; unfold is_u64, usize_max in *; lia).
  unfold finish. cbn [buf write_raw]. unfold write_varu64. rewrite !buf_write_varu64_inner by done. cbn [buf new app].
  match goal with |- _ = tlv_bytes ?t ?x => change (tlv_bytes t x) with (varu64_bytes t ++ varu64_bytes (zlen x) ++ x) end.
  rewrite <- Hin, Hew, <- !app_assoc. done.
Qed.
End signed.

Lemma interest_sig_info_decodes e b st kl sv : sign_env e b kl sv -> plain_type st ->
  SignatureInfo.locator_rule_broken st (LocatorName <$> kl) = false ->
  SignatureInfo.decode (elems_wire (isig_elems e st kl)) =
    Ok (mkSignatureInfo st (LocatorName <$> kl) (Some (rand_nonce e)) (Some (time_ms e)) None).
Proof.
  intros He Hst Hrule. unfold SignatureInfo.decode. pose proof (se_fits e b kl sv He) as Hkl.
  rewrite scan_elems; [|by eapply wf_isig|].
  2:{ pose proof (zlen_isig e b st kl sv He). destruct kl as [m|]; [destruct (Hkl m eq_refl)|]; unfold_bounds; lia. }
  unfold isig_elems. rewrite (sig_info_fold st kl _ _ Hst Hkl eq_refl) || erewrite (sig_info_fold st kl); [|done|done|].
  2:{ cbn [fold_flow]. change (SignatureInfo.decode_body (SignatureInfo.mkLocals (Some st) (LocatorName <$> kl) None None None) packet_type.SIGNATURE_NONCE (rand_nonce e))
        with (Ok (E := PacketError) (Next (A := Empty_set) (SignatureInfo.mkLocals (Some st) (LocatorName <$> kl) (Some (rand_nonce e)) None None))). cbn iota beta.
      change (SignatureInfo.decode_body (SignatureInfo.mkLocals (Some st) (LocatorName <$> kl) (Some (rand_nonce e)) None None) packet_type.SIGNATURE_TIME (enc_nni (time_ms e)))
        with (let? ms := decode_nni (enc_nni (time_ms e)) in
              Ok (Next (A := Empty_set) (SignatureInfo.mkLocals (Some st) (LocatorName <$> kl) (Some (rand_nonce e)) (Some ms) None))).
      rewrite decode_enc_nni by apply is_u64_as_millis. reflexivity. }
  cbn [SignatureInfo.l_sig_type SignatureInfo.l_key_locator]. by rewrite Hrule.
Qed.

Section signed_shape.
Context (sha256 : bytes -> bytes) (Hsha : is_digest sha256) (e : Env) (b : InterestBuilder) (st : SignatureType) (kl : option Name) (sv : bytes).
Context (He : sign_env e b kl sv) (n : Z) (Hst : plain_type st) (Hrule : SignatureInfo.locator_rule_broken st (LocatorName <$> kl) = false).
Abbreviation wire := (tlv_bytes packet_type.INTEREST (tlv_bytes tlv_type.NAME (name_wire (signed_name sha256 e b st kl sv)) ++ elems_wire (signed_elems_of e b st kl sv n))).

Lemma wf_signed_elems : Forall wf_elem (signed_elems_of e b st kl sv n).
Proof.
  destruct (signed_sizes e b st kl sv He n) as [_ Hp]. apply Forall_app. split; [apply wf_body_elems, He|].
  unfold signed_tail. cbn [app]. apply Forall_cons. split; [split; [solve_closed|done]|].
  apply Forall_cons. split; [split; [solve_closed|by apply wf_elems_wire, (wf_isig e b st kl sv)]|].
  apply Forall_singleton. split; [solve_closed|exact (se_sv _ _ _ _ He)].
Qed.

Lemma signed_wire_ok : wf_bytes wire /\ zlen wire <= usize_max.
Proof.
  destruct (signed_name_ok sha256 Hsha e b st kl sv He) as (Hn & _). split.
  - apply wf_tlv_bytes; [done|]. apply wf_bytes_app. split; [by apply wf_tlv_bytes, wf_name_wire|]. apply wf_elems_wire, wf_signed_elems.
  - pose proof (signed_wire_size sha256 Hsha e b st kl sv He n). pose proof (zlen_nonneg (elems_wire (signed_elems_of e b st kl sv n))).
    pose proof (tlv_size_bounds tlv_type.NAME _ (zlen_nonneg (name_wire (signed_name sha256 e b st kl sv)))). pose proof (zlen_nonneg (name_wire (signed_name sha256 e b st kl sv))).
    rewrite zlen_tlv_bytes, zlen_app, zlen_tlv_bytes.
    match goal with |- tlv_size _ ?x <= _ => pose proof (tlv_size_bounds packet_type.INTEREST x ltac:(lia)) end. lia.
Qed.

Lemma signed_shape : interest_shape wire (signed_name sha256 e b st kl sv) (signed_elems_of e b st kl sv n) [].
Proof.
  destruct (signed_name_ok sha256 Hsha e b st kl sv He) as (Hn & _ & Hc & _). constructor.
  - by rewrite app_nil_r.
  - done.
  - unfold signed_name. by destruct (not_psdc (ib_name b)).
  - apply wf_signed_elems.
  - apply body_elems_ok. unfold signed_tail. cbn [app]. apply (body_ok_step _ _ _ 8); [done|lia|done|done|].
    apply (body_ok_step _ _ _ 9); [done|lia|done|intros _; eexists; by eapply interest_sig_info_decodes|].
    apply (body_ok_step _ _ _ 10); [done|lia|done|done|]. by split; [repeat constructor|].
  - rewrite Hc. split; [lia|done].
Qed.
End signed_shape.

(** What the verifier of a signed Interest reads. *)
Lemma sign_sync_reads (sha256 sign_fn : bytes -> bytes) (e : Env) (counter : Z) (b : InterestBuilder)
    (st : SignatureType) (kl : option Name) :
  let parts := (InterestBuilder.build_signed_interest_parts e counter b st kl).1 in
  let region := concat_signed_region parts in
  let sv := sign_fn region in
  is_digest sha256 -> sign_env e b kl sv -> plain_type st -> SignatureInfo.locator_rule_broken st (LocatorName <$> kl) = false ->
  exists i, Interest.decode (InterestBuilder.sign_sync sha256 e counter b st kl sign_fn).1 = Ok i /\
    i_name i = not_psdc (ib_name b) ++
      [psdc (sha256 (app_params_tlv parts ++ sig_info_tlv parts ++ tlv_bytes packet_type.INTEREST_SIGNATURE_VALUE sv))] /\
    carries i b (next_nonce (pid e) counter).1 /\
    Interest.app_parameters i = Some (params_of b) /\
    Interest.sig_info i = Some (mkSignatureInfo st (LocatorName <$> kl) (Some (rand_nonce e)) (Some (time_ms e)) None) /\
    Interest_signed_region i = Some region /\ Interest.sig_value i = Some sv.
Proof.
  intros parts region sv Hsha He Hst Hrule. set (n := (next_nonce (pid e) counter).1).
  pose proof (parts_spec e b st kl sv He n counter eq_refl) as Hparts. fold parts in Hparts.
  pose proof (signed_shape sha256 Hsha e b st kl sv He n Hst Hrule) as Hs. destruct (signed_wire_ok sha256 Hsha e b st kl sv He n) as [Hwf Hl].
  assert ((InterestBuilder.sign_sync sha256 e counter b st kl sign_fn).1 = tlv_bytes packet_type.INTEREST
    (tlv_bytes tlv_type.NAME (name_wire (signed_name sha256 e b st kl sv)) ++ elems_wire (signed_elems_of e b st kl sv n))) as ->.
  { rewrite <- (assemble_spec sha256 Hsha e b st kl sv He n), <- Hparts.
    unfold InterestBuilder.sign_sync, sv, region, parts. by destruct (InterestBuilder.build_signed_interest_parts e counter b st kl). }
  set (wire := tlv_bytes packet_type.INTEREST _) in *. exists (mkInterest wire (signed_name sha256 e b st kl sv)).
  assert (forall T, T <> packet_type.CAN_BE_PREFIX -> T <> packet_type.MUST_BE_FRESH -> T <> packet_type.FORWARDING_HINT -> T <> packet_type.REFLEXIVE_NAME ->
    T <> packet_type.NONCE -> T <> packet_type.INTEREST_LIFETIME -> T <> packet_type.HOP_LIMIT ->
    find_elem T (signed_elems_of e b st kl sv n) = find_elem T (signed_tail e b st kl ++ [(packet_type.INTEREST_SIGNATURE_VALUE, sv)])) as Hfind.
  { intros T ? ? ? ? ? ? ?. unfold signed_elems_of. rewrite find_body, !(proj2 (Z.eqb_neq T _)) by done. done. }
  split_conj.
  - apply interest_decode_shape; [done|done|]. by eexists _, _.
  - rewrite Hparts. cbn [i_name app_params_tlv sig_info_tlv]. by rewrite <- signed_tail_wire.
  - eapply shape_carries; [done|done|exact Hs|apply He|apply next_nonce_u32|]. unfold tail_free, signed_tail. cbn [app].
    repeat (apply Forall_cons; split; [cbn [fst]; tauto|]). constructor.
  - rewrite (accessor_app_parameters wire _ _ _ Hwf Hl Hs), Hfind by done. done.
  - pose proof (accessor_sig_info wire _ _ _ Hwf Hl Hs) as Hsi. rewrite Hfind in Hsi by done.
    change (find_elem packet_type.INTEREST_SIGNATURE_INFO _) with (Some (elems_wire (isig_elems e st kl))) in Hsi. cbn iota in Hsi.
    destruct Hsi as (si & Hd & ->). rewrite (interest_sig_info_decodes e b st kl sv He Hst Hrule) in Hd. by injection Hd as <-.
  - rewrite (signed_region_shape wire _ _ _ Hwf Hl Hs), !Hfind by done.
    destruct (signed_name_ok sha256 Hsha e b st kl sv He) as (_ & _ & _ & ->). unfold region, concat_signed_region. rewrite Hparts. done.
  - rewrite (accessor_sig_value wire _ _ _ Hwf Hl Hs), Hfind by done. done.
Qed.

(** A signed Interest carries what was signed.  It decodes; its name is the
    builder's, with one parameters digest at the end that hashes the parameters,
    the SignatureInfo and the signature value; the signed region a verifier
    recomputes is byte for byte what the signing function was applied to, the
    signature value is what it returned, and the SignatureInfo has the type, the
    key locator, the random nonce and the time in milliseconds. *)
Theorem interest_sign_roundtrip (sha256 sign_fn : bytes -> bytes) (e : Env) (counter : Z) (b : InterestBuilder)
    (st : SignatureType) (kl : option Name) :
  let parts := (InterestBuilder.build_signed_interest_parts e counter b st kl).1 in
  let region := concat_signed_region parts in
  let sv := sign_fn region in
  is_digest sha256 -> sign_env e b kl sv -> plain_type st -> SignatureInfo.locator_rule_broken st (LocatorName <$> kl) = false ->
  exists i, Interest.decode (InterestBuilder.sign_sync sha256 e counter b st kl sign_fn).1 = Ok i /\
    i_name i = not_psdc (ib_name b) ++
      [psdc (sha256 (app_params_tlv parts ++ sig_info_tlv parts ++ tlv_bytes packet_type.INTEREST_SIGNATURE_VALUE sv))] /\
    carries i b (next_nonce (pid e) counter).1 /\
    Interest.app_parameters i = Some (params_of b) /\
    Interest.sig_info i = Some (mkSignatureInfo st (LocatorName <$> kl) (Some (rand_nonce e)) (Some (time_ms e)) None) /\
    Interest_signed_region i = Some region /\ Interest.sig_value i = Some sv.
Proof. apply sign_sync_reads. Qed.

(** ** Examples *)

(** A stand-in for a digest function. *)
Definition toy_digest (x : bytes) : bytes := replicate 32 (zlen x mod 256).
Lemma toy_is_digest : is_digest toy_digest.
Proof.
  intros x. split; [done|]. apply (Forall_replicate is_u8 32).
  pose proof (Z.mod_pos_bound (zlen x) 256 ltac:(lia)). unfold_bounds. lia.
Qed.

Definition name_ab : Name := [mkComponent 8 [97]; mkComponent 8 [98]].
Lemma wf_name_ab : wf_name name_ab.
Proof. repeat (apply Forall_cons_2; [split; [split; by vm_compute|by apply wf_bytes_check]|]). apply Forall_nil_2. Qed.

Definition example_data : DataBuilder :=
  DataBuilder.final_block_id_typed_seg 7 (DataBuilder.freshness 10000000000 (DataBuilder.new name_ab [104; 105])).
Lemma example_data_ok : db_ok example_data.
Proof.
  constructor.
  - exact wf_name_ab.
  - by apply wf_bytes_check.
  - intros v [= <-]. by apply wf_bytes_check.
  - done.
  - vm_compute. discriminate.
Qed.

Lemma data_paths_agree_witness :
  DataBuilder.encode_digest_sha256_into toy_digest example_data (replicate 10 0) = None /\
  (exists wire, DataBuilder.build toy_digest example_data = Some wire /\ zlen wire = DataBuilder.encoded_len_digest_sha256 example_data).
Proof.
  pose proof (data_paths_agree toy_digest toy_digest example_data (replicate 10 0) toy_is_digest toy_is_digest example_data_ok) as H.
  cbv zeta in H. destruct H as (_ & Hb & _ & _ & Hl & Hi & _). split.
  - rewrite Hi. vm_compute. reflexivity.
  - eexists. split; [exact Hb|]. symmetry. exact Hl.
Defined.

Definition hmac_ok (sv : bytes) : Prop := zlen sv = 32 /\ wf_bytes sv.
Lemma hmac_signature sv : hmac_ok sv -> signature_ok SignatureHmacWithSha256 (Some name_ab) sv.
Proof. intros [Hl Hw]. unfold signature_ok. split_conj; [by split; [split; vm_compute|]|done|done|by intros k [= <-]]. Qed.

Lemma data_roundtrip_witness :
  exists d, Data.decode (DataBuilder.sign example_data SignatureHmacWithSha256 (Some name_ab) toy_digest) = Ok d /\
    d_name d = name_ab /\ Data.content d = Some [104; 105] /\
    Data.meta_info d = Some (mkMetaInfo Blob (Some 10000) (Some [50; 1; 7])).
Proof.
  destruct (data_roundtrip example_data SignatureHmacWithSha256 (Some name_ab) toy_digest example_data_ok) as (d & Hd & Hn & Hc & Hm & _).
  - discriminate.
  - intros n Hn. injection Hn as <-. split; [exact wf_name_ab|vm_compute; discriminate].
  - apply hmac_signature, toy_is_digest.
  - vm_compute. discriminate.
  - exists d. split; [exact Hd|]. split; [exact Hn|]. split; [exact Hc|]. rewrite Hm. reflexivity.
Defined.

Definition example_builder : InterestBuilder :=
  InterestBuilder.app_parameters [1; 2] (InterestBuilder.hop_limit 5 (InterestBuilder.must_be_fresh
    (InterestBuilder.lifetime 2000000000 (InterestBuilder.new name_ab)))).
Lemma example_builder_ok : ib_ok example_builder.
Proof.
  constructor.
  - exact wf_name_ab.
  - discriminate.
  - discriminate.
  - intros h [= <-]. by vm_compute.
  - intros p [= <-]. by apply wf_bytes_check.
  - vm_compute. discriminate.
Qed.

Lemma interest_build_roundtrip_witness :
  exists i, Interest.decode (InterestBuilder.build toy_digest 1 7 example_builder).1 = Ok i /\
    Interest.nonce i = Some 65543 /\ Interest.lifetime i = Some 2000 /\ Interest.hop_limit i = Some 5 /\ Interest.app_parameters i = Some [1; 2].
Proof.
  destruct (interest_build_roundtrip toy_digest 1 7 9 example_builder toy_is_digest example_builder_ok) as [(i & Hd & Hn & Hc & Ha & _) _].
  - vm_compute. reflexivity.
  - reflexivity.
  - split; vm_compute; discriminate.
  - destruct Hc as [_ H1 H2 H3 _ _]. exists i. split; [exact Hd|]. split; [exact H1|]. split; [exact H2|]. split; [exact H3|exact Ha].
Defined.

Definition example_env : Env := mkEnv 1 1500000000 [1; 2; 3; 4; 5; 6; 7; 8].
Lemma example_sign_env sv : hmac_ok sv -> sign_env example_env example_builder (Some name_ab) sv.
Proof.
  intros [Hl Hw]. constructor; [exact example_builder_ok|split; [done|by apply wf_bytes_check]|by intros n [= <-]; exact wf_name_ab|done|].
  rewrite Hl. vm_compute. discriminate.
Qed.

Lemma interest_sign_roundtrip_witness :
  exists i region, Interest.decode (InterestBuilder.sign_sync toy_digest example_env 7 example_builder SignatureHmacWithSha256 (Some name_ab) toy_digest).1 = Ok i /\
    Interest_signed_region i = Some region /\ Interest.sig_value i = Some (toy_digest region) /\ zlen region = 39.
Proof.
  pose proof (interest_sign_roundtrip toy_digest toy_digest example_env 7 example_builder SignatureHmacWithSha256 (Some name_ab)) as H. cbv zeta in H.
  destruct H as (i & Hd & _ & _ & _ & _ & Hr & Hs).
  - exact toy_is_digest.
  - apply example_sign_env, toy_is_digest.
  - split; [split; vm_compute; discriminate|reflexivity].
  - reflexivity.
  - exists i. eexists. split; [exact Hd|]. split; [exact Hr|]. split; [exact Hs|]. vm_compute. reflexivity.
Defined.

Lemma signed_region_binds_witness :
  let raw := (InterestBuilder.sign_digest_sha256 toy_digest example_env 7 example_builder).1 in
  let raw' := (InterestBuilder.sign_digest_sha256 toy_digest example_env 8 (InterestBuilder.can_be_prefix example_builder)).1 in
  raw <> raw' /\ exists i i', Interest.decode raw = Ok i /\ Interest.decode raw' = Ok i' /\ not_psdc (i_name i) = not_psdc (i_name i').
Proof.
  cbv zeta. split; [vm_compute; discriminate|].
  set (raw := (InterestBuilder.sign_digest_sha256 toy_digest example_env 7 example_builder).1).
  set (raw' := (InterestBuilder.sign_digest_sha256 toy_digest example_env 8 (InterestBuilder.can_be_prefix example_builder)).1).
  destruct (Interest.decode raw) as [i|] eqn:E; [|vm_compute in E; discriminate].
  destruct (Interest.decode raw') as [i'|] eqn:E'; [|vm_compute in E'; discriminate].
  exists i, i'. split; [reflexivity|]. split; [reflexivity|].
  eapply (signed_region_binds raw raw' _ i i'); [by apply wf_bytes_check|by vm_compute|by apply wf_bytes_check|by vm_compute|exact E|exact E'| |].
  - assert (i = mkInterest raw (i_name i)) as Hi by (by apply decode_i_raw). rewrite Hi. vm_compute. reflexivity.
  - assert (i' = mkInterest raw' (i_name i')) as Hi by (by apply decode_i_raw). rewrite Hi. vm_compute. reflexivity.
Defined.

(** The typed FinalBlockId has the shortest width in bytes, the name component
    the shortest of 1, 2, 4 and 8: they differ from segment 65536 on. *)
Lemma final_segment_width :
  db_final_block_id (DataBuilder.final_block_id_typed_seg 65536 (DataBuilder.new [] [])) = Some [50; 3; 1; 0; 0] /\
  NameOps.append_segment [] 65536 = [mkComponent 50 [0; 1; 0; 0]].
Proof. split; vm_compute; reflexivity. Qed.

(** Signing forgets the face the Interest was pinned to. *)
Lemma sign_ignores_pin sha256 f e counter face b st kl :
  InterestBuilder.sign_sync sha256 e counter (InterestBuilder.pin_face face b) st kl f = InterestBuilder.sign_sync sha256 e counter b st kl f.
Proof. reflexivity. Qed.
