(* ===== verification/Reassembly.v ===== *)
(** * NDNLPv2 fragmentation and reassembly ([crates/core/ndn-packet/src/fragment.rs])

    [fragment_packet] cuts a network packet into LpPackets; [ReassemblyBuffer]
    collects them per [(endpoint_id, seq)] group.

    The clock is an argument: one reading of [Instant::now()] per call, in
    nanoseconds.  The order in which a [HashMap] iterates is not specified, so
    the eviction of the oldest group takes the iteration order as an argument,
    [iter], a permutation of the map's entries; [min_by_key] returns the first
    minimum in that order.  [None] as the outcome of [process] is a panic (an
    index out of range or an [unwrap] of a missing fragment); [process_total]
    shows there is none.  The [u64] counters are integers: none of them can
    reach [2^64] in the life of a process. *)

From S2P Require Import Prelude Tlv Name Packet Lp.
#[local] Open Scope Z_scope.

(** ** Fragmentation *)

Definition DEFAULT_UDP_MTU : Z := 1400.
Definition DEFAULT_REASSEMBLY_TIMEOUT : Z := 5 * 10 ^ 9.
Definition FRAG_OVERHEAD : Z := 50.

Definition div_ceil (a b : Z) : Z := (a + b - 1) / b.

Definition payload_cap (mtu : Z) : Z := Z.max (sat_sub mtu FRAG_OVERHEAD) 1.

(** Fragment [i] of [frag_count]. *)
Definition encode_fragment (seq i frag_count : Z) (chunk : bytes) : bytes :=
  TlvWriter.finish (TlvWriter.write_nested TlvWriter.new lp_type.LP_PACKET (fun w =>
    let w := TlvWriter.write_tlv w lp_type.LP_SEQUENCE (be_encode 8 seq) in
    let w := TlvWriter.write_tlv w lp_type.LP_FRAG_INDEX (be_encode 8 i) in
    let w := TlvWriter.write_tlv w lp_type.LP_FRAG_COUNT (be_encode 8 frag_count) in
    TlvWriter.write_tlv w lp_type.LP_FRAGMENT chunk)).

Definition chunk_of (packet : bytes) (cap i : Z) : bytes :=
  let start := i * cap in
  let end_ := Z.min (start + cap) (zlen packet) in
  slice packet start end_.

Fixpoint result_map {A B E} (f : A -> result B E) (l : list A) : result (list B) E :=
  match l with
  | [] => Ok []
  | a :: l => let? b := f a in let? bs := result_map f l in Ok (b :: bs)
  end.

(** [base_seq + i as u64] is unchecked. *)
Definition fragment_packet (packet : bytes) (mtu base_seq : Z) : result (list bytes) Panicked :=
  let cap := payload_cap mtu in
  let frag_count := div_ceil (zlen packet) cap in
  result_map (fun i =>
    if u64_max <? base_seq + i then Err ArithmeticOverflow
    else Ok (encode_fragment (base_seq + i) i frag_count (chunk_of packet cap i)))
    (seqZ 0 frag_count).

(** ** Reassembly *)

Record Pending : Type := mkPending {
  fragments : list (option bytes);
  p_frag_count : Z;
  received : Z;
  created : Z
}.

Definition MAX_FRAGMENTS : Z := 400.
Definition MAX_PENDING_PACKETS : Z := 1024.

Record ReassemblyStats : Type := mkStats {
  fragments_in : Z;
  completed : Z;
  timed_out : Z;
  fragments_wasted : Z;
  fragments_rejected : Z;
  groups_evicted : Z
}.

Definition stats_default : ReassemblyStats := mkStats 0 0 0 0 0 0.

Abbreviation group_map := (gmap (Z * Z) Pending).

Record ReassemblyBuffer : Type := mkBuffer {
  pending : group_map;
  timeout : Z;
  rb_stats : ReassemblyStats
}.

Module ReassemblyBuffer.

Definition new (timeout : Z) : ReassemblyBuffer := mkBuffer ∅ timeout stats_default.
Definition default_ : ReassemblyBuffer := new DEFAULT_REASSEMBLY_TIMEOUT.
Definition stats (rb : ReassemblyBuffer) : ReassemblyStats := rb_stats rb.
Definition pending_count (rb : ReassemblyBuffer) : Z := Z.of_nat (size (pending rb)).

Definition reject (rb : ReassemblyBuffer) : ReassemblyBuffer :=
  let '(mkStats a b c d e f) := rb_stats rb in
  mkBuffer (pending rb) (timeout rb) (mkStats a b c d (e + 1) f).

(** The predicate of [retain]. *)
Definition live (timeout now : Z) (v : Pending) : bool := sat_sub now (created v) <? timeout.

Definition sum_received (m : group_map) : Z := map_fold (fun _ v acc => received v + acc) 0 m.

Definition purge_expired (now : Z) (rb : ReassemblyBuffer) : ReassemblyBuffer :=
  let dead := filter (fun kv => live (timeout rb) now kv.2 = false) (pending rb) in
  let kept := filter (fun kv => live (timeout rb) now kv.2 = true) (pending rb) in
  let '(mkStats a b c d e f) := rb_stats rb in
  mkBuffer kept (timeout rb) (mkStats a b (c + Z.of_nat (size dead)) (d + sum_received dead) e f).

(** [.min_by_key(|(_, v)| v.created)]. *)
Fixpoint min_created (l : list ((Z * Z) * Pending)) : option ((Z * Z) * Pending) :=
  match l with
  | [] => None
  | kv :: l =>
      match min_created l with
      | None => Some kv
      | Some kv' => Some (if created kv.2 <=? created kv'.2 then kv else kv')
      end
  end.

Section process.
Context (iter : group_map -> list ((Z * Z) * Pending)).

Definition evict_oldest (rb : ReassemblyBuffer) : ReassemblyBuffer :=
  match min_created (iter (pending rb)) with
  | None => rb
  | Some (oldest_key, _) =>
      match pending rb !! oldest_key with
      | None => rb
      | Some dropped =>
          let '(mkStats a b c d e f) := rb_stats rb in
          mkBuffer (delete oldest_key (pending rb)) (timeout rb)
            (mkStats a b c (d + received dropped) e (f + 1))
      end
  end.

Definition make_room (now : Z) (key : Z * Z) (rb : ReassemblyBuffer) : ReassemblyBuffer :=
  if bool_decide (pending rb !! key = None) && (MAX_PENDING_PACKETS <=? pending_count rb) then
    let rb := purge_expired now rb in
    if MAX_PENDING_PACKETS <=? pending_count rb then evict_oldest rb else rb
  else rb.

(** From [entry.fragments[idx]] on; [rb] already holds [entry] under [key]. *)
Definition store (key : Z * Z) (idx : Z) (fragment : bytes) (entry : Pending) (rb : ReassemblyBuffer)
    : option (option bytes * ReassemblyBuffer) :=
  let! slot := fragments entry !! Z.to_nat idx in
  let '(mkStats a b c d e f) := rb_stats rb in
  let '(received, a) :=
    match slot with None => (received entry + 1, a + 1) | Some _ => (received entry, a) end in
  let entry := mkPending (<[Z.to_nat idx := Some fragment]> (fragments entry)) (p_frag_count entry)
                 received (created entry) in
  if received =? p_frag_count entry then
    let! parts := mapM id (fragments entry) in
    Some (Some (concat parts), mkBuffer (delete key (pending rb)) (timeout rb) (mkStats a (b + 1) c d e f))
  else
    Some (None, mkBuffer (<[key := entry]> (pending rb)) (timeout rb) (mkStats a b c d e f)).

Definition process (now endpoint_id seq frag_index frag_count : Z) (fragment : bytes)
    (rb : ReassemblyBuffer) : option (option bytes * ReassemblyBuffer) :=
  if (frag_count =? 0) || (MAX_FRAGMENTS <? frag_count) then Some (None, reject rb)
  else
    let count := frag_count in
    let idx := frag_index in
    if count <=? idx then Some (None, reject rb)
    else
      let key := (endpoint_id, seq) in
      let rb := make_room now key rb in
      let entry := default (mkPending (replicate (Z.to_nat count) None) count 0 now) (pending rb !! key) in
      let rb := mkBuffer (<[key := entry]> (pending rb)) (timeout rb) (rb_stats rb) in
      if negb (p_frag_count entry =? count) || (p_frag_count entry <=? idx) then Some (None, reject rb)
      else store key idx fragment entry rb.

End process.
End ReassemblyBuffer.

(** ** What [fragment_packet] sends *)

Lemma payload_cap_pos mtu : 1 <= payload_cap mtu.
Proof. unfold payload_cap. lia. Qed.

Lemma div_ceil_spec a b : 0 <= a -> 1 <= b -> a <= div_ceil a b * b < a + b /\ 0 <= div_ceil a b.
Proof.
  intros Ha Hb. unfold div_ceil. pose proof (Z.div_mod (a + b - 1) b ltac:(lia)).
  pose proof (Z.mod_pos_bound (a + b - 1) b ltac:(lia)).
  assert (0 <= (a + b - 1) / b) by (apply Z.div_pos; lia). lia.
Qed.

Lemma chunk_of_take packet cap i :
  0 <= i -> 1 <= cap -> i * cap <= zlen packet ->
  chunk_of packet cap i = take (Z.to_nat cap) (drop (Z.to_nat (i * cap)) packet).
Proof.
  intros Hi Hc Hle. unfold chunk_of, slice.
  destruct (Z.le_ge_cases (i * cap + cap) (zlen packet)).
  - f_equal. lia.
  - rewrite !take_ge; [done|rewrite length_drop; unfold zlen in *; lia..].
Qed.

Lemma seqZ_snoc n : 0 <= n -> seqZ 0 (n + 1) = seqZ 0 n ++ [n].
Proof.
  intros Hn. rewrite seqZ_app by lia. f_equal.
Qed.

Lemma chunks_prefix packet cap k :
  1 <= cap -> Z.of_nat k <= div_ceil (zlen packet) cap ->
  concat (map (chunk_of packet cap) (seqZ 0 (Z.of_nat k))) = take (Z.to_nat (Z.of_nat k * cap)) packet.
Proof.
  intros Hc. destruct (div_ceil_spec (zlen packet) cap) as [[_ Hlt] _]; [apply zlen_nonneg|done|].
  induction k as [|k IH]; intros Hk; [done|].
  replace (Z.of_nat (S k)) with (Z.of_nat k + 1) by lia. rewrite seqZ_snoc by lia.
  rewrite map_app, concat_app, IH by lia. cbn [map concat]. rewrite app_nil_r.
  rewrite chunk_of_take by nia. rewrite take_take_drop. f_equal. nia.
Qed.

(** Cutting and joining is the identity. *)
Lemma chunks_concat packet cap :
  1 <= cap -> concat (map (chunk_of packet cap) (seqZ 0 (div_ceil (zlen packet) cap))) = packet.
Proof.
  intros Hc. destruct (div_ceil_spec (zlen packet) cap) as [[Hge _] H0]; [apply zlen_nonneg|done|].
  rewrite <- (Z2Nat.id (div_ceil (zlen packet) cap)) by done.
  rewrite chunks_prefix by lia. apply take_ge. unfold zlen in *. nia.
Qed.

Lemma zlen_chunk packet cap i : 0 <= i -> 1 <= cap -> i * cap <= zlen packet -> 0 <= zlen (chunk_of packet cap i) <= cap.
Proof. intros. rewrite chunk_of_take by done. split; [apply zlen_nonneg|]. rewrite zlen_take, zlen_drop. lia. Qed.

Definition fragment_headers (seq i n : Z) : list elem :=
  [(lp_type.LP_SEQUENCE, be_encode 8 seq); (lp_type.LP_FRAG_INDEX, be_encode 8 i);
   (lp_type.LP_FRAG_COUNT, be_encode 8 n)].

Lemma zlen_fragment_headers seq i n : zlen (elems_wire (fragment_headers seq i n)) = 30.
Proof.
  unfold fragment_headers. rewrite !elems_wire_cons, !zlen_app, !zlen_tlv_bytes. cbn [fst snd].
  rewrite !zlen_be_encode. done.
Qed.

Lemma encode_fragment_wire seq i n chunk :
  zlen chunk + 100 <= usize_max ->
  encode_fragment seq i n chunk
  = tlv_bytes lp_type.LP_PACKET (elems_wire (fragment_headers seq i n ++ frag_elems (Some chunk))).
Proof.
  intros Hl. pose proof (zlen_frag_elem chunk). pose proof (zlen_nonneg chunk).
  apply lp_nested_wire.
  - cbv zeta. apply (write_tlv_elems _ (fragment_headers seq i n)); [|done|unfold_bounds; lia].
    apply (write_tlv_elems _ [_; _]); [|done|by rewrite zlen_be_encode].
    apply (write_tlv_elems _ [_]); [|done|by rewrite zlen_be_encode].
    apply (write_tlv_elems _ []); [done|done|by rewrite zlen_be_encode].
  - rewrite zlen_elems_wire_app, zlen_fragment_headers. unfold_bounds. lia.
Qed.

(** The overhead is at most [FRAG_OVERHEAD] bytes. *)
Lemma zlen_encode_fragment seq i n chunk :
  zlen chunk + 100 <= usize_max -> zlen (encode_fragment seq i n chunk) <= zlen chunk + FRAG_OVERHEAD.
Proof.
  intros Hl. rewrite encode_fragment_wire by done.
  rewrite zlen_tlv_bytes, zlen_elems_wire_app, zlen_fragment_headers. cbn [frag_elems].
  rewrite elems_wire_one, zlen_tlv_bytes. cbn [fst snd]. unfold tlv_size.
  change (varu64_size lp_type.LP_PACKET) with 1. change (varu64_size lp_type.LP_FRAGMENT) with 1.
  pose proof (varu64_size_range (zlen chunk)).
  pose proof (varu64_size_range (30 + (1 + varu64_size (zlen chunk) + zlen chunk))). unfold FRAG_OVERHEAD. lia.
Qed.

Lemma fragment_shape seq i n chunk :
  wf_bytes chunk -> zlen chunk + 100 <= usize_max ->
  lp_shape (encode_fragment seq i n chunk) (fragment_headers seq i n) (Some chunk) [] /\
  wf_bytes (encode_fragment seq i n chunk) /\ zlen (encode_fragment seq i n chunk) <= usize_max.
Proof.
  intros Hwf Hl.
  assert (Forall wf_elem (fragment_headers seq i n)) as Hh.
  { repeat (apply Forall_cons; split; [split; [done|simpl; auto with ndn]|]). constructor. }
  split_conj.
  - split; [by rewrite encode_fragment_wire, app_nil_r|done|solve_sorted| |by left].
    repeat (apply Forall_cons; split; [apply header_ok_plain; [compute_done|done..]|]). constructor.
  - rewrite encode_fragment_wire by done. apply wf_tlv_bytes; [done|]. apply wf_elems_wire, Forall_app.
    split; [done|]. apply wf_frag_elems. by intros v [= <-].
  - pose proof (zlen_encode_fragment seq i n chunk Hl). unfold FRAG_OVERHEAD in *. lia.
Qed.

Lemma fragment_headers_opt seq i n :
  fragment_headers seq i n =
    opt_elem lp_type.LP_SEQUENCE (Some (be_encode 8 seq))
    ++ opt_elem lp_type.LP_FRAG_INDEX (Some (be_encode 8 i))
    ++ opt_elem lp_type.LP_FRAG_COUNT (Some (be_encode 8 n)) ++ [].
Proof. done. Qed.

Lemma fragment_numbers seq i n fr :
  is_u64 seq -> is_u64 i -> is_u64 n ->
  let p := lp_of (fragment_headers seq i n) fr in
  sequence p = Some seq /\ frag_index p = Some i /\ frag_count p = Some n.
Proof.
  intros ??? p. subst p. cbn [sequence frag_index frag_count lp_of]. rewrite fragment_headers_opt, !find_elem_opt. eval_codes. cbn [fmap option_fmap option_map].
  by rewrite !decode_be_u64_encode.
Qed.

(** The receiver's fast path reads a fragment back. *)
Lemma extract_encoded seq i n chunk :
  wf_bytes chunk -> zlen chunk + 100 <= usize_max -> is_u64 seq -> is_u64 i -> is_u64 n -> 1 < n ->
  exists h, extract_fragment (encode_fragment seq i n chunk) = Some h /\
    fh_sequence h = seq /\ fh_frag_index h = i /\ fh_frag_count h = n /\
    slice (encode_fragment seq i n chunk) (frag_start h) (frag_end h) = chunk.
Proof.
  intros Hwf Hl Hs Hi Hn Hn1. destruct (fragment_shape seq i n chunk Hwf Hl) as (Hsh & Hw & Hz).
  pose proof (fast_fragment _ _ _ _ Hw Hz Hsh) as H.
  destruct (fragment_numbers seq i n (Some chunk) Hs Hi Hn) as (E1 & E2 & E3).
  assert (LpPacket.is_fragmented (lp_of (fragment_headers seq i n) (Some chunk)) = true) as Ef.
  { unfold LpPacket.is_fragmented. rewrite E3. by apply Z.ltb_lt. }
  revert H E1 E2 E3 Ef. generalize (lp_of (fragment_headers seq i n) (Some chunk)) as p.
  generalize (encode_fragment seq i n chunk) as w. clear. intros w p H E1 E2 E3 Ef.
  destruct (extract_fragment w) as [h|].
  - destruct H as (H1 & _ & H2 & H3 & H4). exists h. simpl in H4. split_conj; congruence.
  - destruct H as [H|[H|H]]; congruence.
Qed.

Lemma result_map_ok {A B E} (f : A -> result B E) (g : A -> B) l :
  (forall a, a ∈ l -> f a = Ok (g a)) -> result_map f l = Ok (map g l).
Proof.
  induction l as [|a l IH]; intros H; [done|]. cbn [result_map map].
  rewrite (H a) by set_solver. rewrite IH by (intros; apply H; set_solver). done.
Qed.

Lemma result_map_length {A B E} (f : A -> result B E) l bs : result_map f l = Ok bs -> length bs = length l.
Proof.
  revert bs. induction l as [|a l IH]; intros bs; cbn [result_map]; [by intros [= <-]|].
  destruct (f a) as [b|]; [|done]. destruct (result_map f l) as [bs'|]; [|done]. intros [= <-].
  simpl. by rewrite (IH bs').
Qed.

Definition frag_total (packet : bytes) (mtu : Z) : Z := div_ceil (zlen packet) (payload_cap mtu).

Lemma fragment_packet_ok packet mtu base :
  base + frag_total packet mtu <= u64_max + 1 ->
  fragment_packet packet mtu base =
    Ok (map (fun i => encode_fragment (base + i) i (frag_total packet mtu)
                        (chunk_of packet (payload_cap mtu) i)) (seqZ 0 (frag_total packet mtu))).
Proof.
  intros Hb. unfold fragment_packet. cbv zeta. apply result_map_ok.
  intros i Hi%elem_of_seqZ. destruct (Z.ltb_spec u64_max (base + i)); [|done]. fold (frag_total packet mtu) in Hi. lia.
Qed.

(** The receiver reads off the pieces of the packet. *)
Lemma fragments_readable packet mtu base wires :
  wf_bytes packet -> zlen packet + 100 <= usize_max -> 0 <= base ->
  fragment_packet packet mtu base = Ok wires -> base + zlen wires <= u64_max + 1 -> 1 < zlen wires ->
  exists fs, length fs = length wires /\ concat fs = packet /\
    forall i, (i < length fs)%nat -> exists h,
      extract_fragment (wires !!! i) = Some h /\ fh_sequence h = base + Z.of_nat i /\
      fh_frag_index h = Z.of_nat i /\ fh_frag_count h = zlen fs /\
      slice (wires !!! i) (frag_start h) (frag_end h) = fs !!! i.
Proof.
  intros Hwf Hl Hb Hfp Hbn Hn.
  set (n := frag_total packet mtu) in *. pose proof (payload_cap_pos mtu) as Hcap.
  pose proof (zlen_nonneg packet) as Hz. destruct (div_ceil_spec (zlen packet) (payload_cap mtu) Hz Hcap) as [[Hd1 Hd2] Hd3].
  fold (frag_total packet mtu) in Hd1, Hd2, Hd3. fold n in Hd1, Hd2, Hd3.
  assert (n <= zlen packet) as Hnp by nia.
  assert (zlen wires = n) as Hlen.
  { unfold fragment_packet in Hfp. cbv zeta in Hfp. fold (frag_total packet mtu) in Hfp. fold n in Hfp.
    apply result_map_length in Hfp. unfold zlen. rewrite Hfp, length_seqZ. lia. }
  pose proof (fragment_packet_ok packet mtu base ltac:(fold n; lia)) as Hok. fold n in Hok.
  rewrite Hfp in Hok. injection Hok as Hwires.
  set (fs := map (chunk_of packet (payload_cap mtu)) (seqZ 0 n)).
  assert (length fs = length wires) as Hlfs by (rewrite Hwires; unfold fs; by rewrite !length_map).
  assert (concat fs = packet) as Hcat by by apply chunks_concat.
  exists fs. split; [done|]. split; [done|]. intros i Hi. assert (Z.of_nat i < n) as Hin by (unfold zlen in Hlen; lia).
    assert (seqZ 0 n !! i = Some (Z.of_nat i)) as Hsi by (apply lookup_seqZ; lia).
    assert (wires !!! i = encode_fragment (base + Z.of_nat i) (Z.of_nat i) n (chunk_of packet (payload_cap mtu) (Z.of_nat i))) as ->.
    { apply list_lookup_total_correct. by rewrite Hwires, list_lookup_fmap, Hsi. }
    assert (fs !!! i = chunk_of packet (payload_cap mtu) (Z.of_nat i)) as ->.
    { apply list_lookup_total_correct. unfold fs. by rewrite list_lookup_fmap, Hsi. }
    replace (zlen fs) with n by (unfold zlen in *; lia).
    apply extract_encoded; [by apply wf_bytes_slice| |unfold_bounds; lia..].
    rewrite chunk_of_take by nia. rewrite zlen_take, zlen_drop. lia.
Qed.

(** ** The buffer's invariant *)

Definition count_some (l : list (option bytes)) : nat := length (omap id l).

Lemma count_some_cons o l : count_some (o :: l) = ((if o is Some _ then 1 else 0) + count_some l)%nat.
Proof. unfold count_some. by destruct o. Qed.

Lemma count_some_le l : (count_some l <= length l)%nat.
Proof. induction l as [|[] l IH]; rewrite ?count_some_cons; simpl; unfold count_some in *; simpl in *; lia. Qed.

Lemma count_some_insert l i o f :
  l !! i = Some o -> count_some (<[i := Some f]> l) = (count_some l + if o is Some _ then 0 else 1)%nat.
Proof.
  revert i. induction l as [|x l IH]; intros [|i] H; simplify_eq/=; rewrite !count_some_cons.
  - destruct o; lia.
  - rewrite (IH i H). lia.
Qed.

(** A group with every fragment present. *)
Lemma count_some_full l : count_some l = length l -> exists parts, l = Some <$> parts /\ mapM id l = Some parts.
Proof.
  induction l as [|[x|] l IH]; rewrite ?count_some_cons; intros H; simpl in H.
  - by exists [].
  - destruct IH as (parts & -> & Hm); [lia|]. exists (x :: parts). split; [done|]. simpl. by rewrite Hm.
  - pose proof (count_some_le l). lia.
Qed.

Record wf_pending (p : Pending) : Prop := {
  wp_len : zlen (fragments p) = p_frag_count p;
  wp_count : 1 <= p_frag_count p <= MAX_FRAGMENTS;
  wp_received : received p = Z.of_nat (count_some (fragments p));
  wp_partial : received p < p_frag_count p
}.

Definition wf_buffer (rb : ReassemblyBuffer) : Prop :=
  map_Forall (fun _ p => wf_pending p) (pending rb) /\
  ReassemblyBuffer.pending_count rb <= MAX_PENDING_PACKETS.

(** What a [HashMap] promises of its iteration. *)
Class MapIter (iter : group_map -> list ((Z * Z) * Pending)) : Prop :=
  iter_perm : forall m, iter m ≡ₚ map_to_list m.

#[export] Instance map_to_list_iter : MapIter (fun m => map_to_list m).
Proof. by intros m. Qed.

Lemma size_delete_le (k : Z * Z) (m : gmap (Z * Z) Pending) : (size (delete k m) <= size m)%nat.
Proof. rewrite map_size_delete. destruct (m !! k); [apply Nat.le_pred_l|done]. Qed.

Lemma min_created_elem l kv : ReassemblyBuffer.min_created l = Some kv -> kv ∈ l.
Proof.
  revert kv. induction l as [|x l IH]; intros kv; [done|]. cbn [ReassemblyBuffer.min_created].
  destruct (ReassemblyBuffer.min_created l) as [y|]; [|intros [= <-]; set_solver].
  destruct (_ <=? _); intros [= <-]; [set_solver|]. specialize (IH y eq_refl). set_solver.
Qed.

Lemma min_created_min l kv :
  ReassemblyBuffer.min_created l = Some kv -> forall x, x ∈ l -> created kv.2 <= created x.2.
Proof.
  revert kv. induction l as [|x l IH]; intros kv; [done|]. cbn [ReassemblyBuffer.min_created].
  destruct (ReassemblyBuffer.min_created l) as [y|] eqn:E.
  - destruct (Z.leb_spec (created x.2) (created y.2)); intros [= <-] z [->|Hz]%elem_of_cons; try lia;
      specialize (IH y eq_refl z Hz); lia.
  - intros [= <-] z [->|Hz]%elem_of_cons; [lia|]. destruct l as [|a l]; [set_solver|].
    cbn in E. by destruct (ReassemblyBuffer.min_created l).
Qed.

Lemma min_created_some l : l <> [] -> is_Some (ReassemblyBuffer.min_created l).
Proof. destruct l as [|x l]; [done|]. cbn. by destruct (ReassemblyBuffer.min_created l). Qed.

Section buffer.
Context (iter : group_map -> list ((Z * Z) * Pending)) `{Hiter : !MapIter iter}.
Import ReassemblyBuffer.

Lemma evict_oldest_spec rb :
  pending rb <> ∅ ->
  exists k p, pending rb !! k = Some p /\ (forall k' p', pending rb !! k' = Some p' -> created p <= created p') /\
    pending (evict_oldest iter rb) = delete k (pending rb) /\ timeout (evict_oldest iter rb) = timeout rb.
Proof.
  intros Hne. unfold evict_oldest.
  destruct (min_created_some (iter (pending rb))) as [[k p] Hk].
  { intros He. pose proof (iter_perm (pending rb)) as Hp. rewrite He in Hp.
    apply Permutation_nil in Hp. by apply map_to_list_empty_iff in Hp. }
  rewrite Hk. pose proof (min_created_elem _ _ Hk) as Hel.
  assert (forall k' p', (k', p') ∈ iter (pending rb) <-> pending rb !! k' = Some p') as Hin.
  { intros k' p'. rewrite iter_perm. apply elem_of_map_to_list. }
  apply Hin in Hel. exists k, p. rewrite Hel. split_conj; [done| | |].
  - intros k' p' H%Hin. exact (min_created_min _ _ Hk _ H).
  - by destruct (rb_stats rb).
  - by destruct (rb_stats rb).
Qed.

Lemma purge_pending now rb :
  pending (purge_expired now rb) = filter (fun kv => live (timeout rb) now kv.2 = true) (pending rb).
Proof. unfold purge_expired. by destruct (rb_stats rb). Qed.

Lemma purge_wf now rb : wf_buffer rb -> wf_buffer (purge_expired now rb).
Proof.
  intros [Hf Hs]. unfold wf_buffer, pending_count in *. rewrite purge_pending. split.
  - intros k p [Hk _]%map_lookup_filter_Some. by eapply Hf.
  - pose proof (map_size_filter (fun kv => live (timeout rb) now kv.2 = true) (pending rb)). lia.
Qed.

Lemma evict_wf rb : wf_buffer rb -> wf_buffer (evict_oldest iter rb).
Proof.
  intros [Hf Hs]. destruct (decide (pending rb = ∅)) as [He|Hne].
  - unfold evict_oldest. replace (iter (pending rb)) with (@nil ((Z * Z) * Pending)); [done|].
    symmetry. apply Permutation_nil_r. etrans; [apply iter_perm|]. by rewrite He.
  - destruct (evict_oldest_spec rb Hne) as (k & p & Hk & _ & Hp & _).
    unfold wf_buffer, pending_count in *. rewrite Hp. split; [by apply map_Forall_delete|].
    rewrite map_size_delete, Hk. lia.
Qed.

(** There is room for a new group, and the groups that stay are untouched. *)
Lemma make_room_spec now key rb :
  wf_buffer rb ->
  wf_buffer (make_room iter now key rb) /\
  pending (make_room iter now key rb) ⊆ pending rb /\
  (pending rb !! key = None -> pending_count (make_room iter now key rb) < MAX_PENDING_PACKETS) /\
  (is_Some (pending rb !! key) \/ pending_count rb < MAX_PENDING_PACKETS -> make_room iter now key rb = rb).
Proof.
  intros Hwf. unfold make_room. case_bool_decide as Hk; cbn [andb].
  2:{ split_conj; try done. }
  destruct (Z.leb_spec MAX_PENDING_PACKETS (pending_count rb)) as [Hfull|].
  2:{ split_conj; try done. }
  assert (pending (purge_expired now rb) ⊆ pending rb) as Hsub
    by (rewrite purge_pending; apply map_filter_subseteq).
  pose proof (purge_wf now rb Hwf) as Hwf'.
  destruct (Z.leb_spec MAX_PENDING_PACKETS (pending_count (purge_expired now rb))) as [Hfull'|].
  - assert (pending (purge_expired now rb) <> ∅) as Hne.
    { intros He. unfold pending_count in Hfull'. rewrite He, map_size_empty in Hfull'. by vm_compute in Hfull'. }
    destruct (evict_oldest_spec _ Hne) as (k & p & Hkp & _ & Hp & _). split_conj.
    + by apply evict_wf.
    + rewrite Hp. etrans; [apply delete_subseteq|done].
    + intros _. unfold pending_count in *. rewrite Hp, map_size_delete, Hkp.
      destruct Hwf' as [_ Hle]. unfold pending_count in Hle.
      assert (size (pending (purge_expired now rb)) <> 0%nat) by (by rewrite map_size_non_empty_iff). lia.
    + intros [[? ?]|]; [congruence|lia].
  - split_conj; [done..|]. intros [[? ?]|]; [congruence|lia].
Qed.

Lemma reject_pending rb : pending (reject rb) = pending rb.
Proof. unfold reject. by destruct (rb_stats rb). Qed.

Lemma reject_wf rb : wf_buffer rb -> wf_buffer (reject rb).
Proof. unfold wf_buffer, pending_count. by rewrite reject_pending. Qed.

(** The group a fragment is stored in: the one under its key or a fresh one. *)
Definition fresh_pending (count now : Z) : Pending :=
  mkPending (replicate (Z.to_nat count) None) count 0 now.

Lemma count_some_replicate n : count_some (replicate n None) = 0%nat.
Proof. by induction n. Qed.

Lemma fresh_pending_wf count now : 1 <= count <= MAX_FRAGMENTS -> wf_pending (fresh_pending count now).
Proof.
  intros Hc. split; simpl; [|done|by rewrite count_some_replicate|lia].
  unfold zlen. rewrite length_replicate. lia.
Qed.

(** Storing a fragment of a well-formed group. *)
Lemma store_spec key idx frag entry rb :
  wf_pending entry -> 0 <= idx < p_frag_count entry ->
  let l' := <[Z.to_nat idx := Some frag]> (fragments entry) in
  exists out rb', store key idx frag entry rb = Some (out, rb') /\
    if decide (count_some l' = length l') then
      (exists parts, l' = Some <$> parts /\ out = Some (concat parts)) /\
      pending rb' = delete key (pending rb)
    else
      exists p', out = None /\ pending rb' = <[key := p']> (pending rb) /\ fragments p' = l' /\ wf_pending p' /\
        p_frag_count p' = p_frag_count entry /\ created p' = created entry.
Proof.
  intros [Hlen Hcnt Hrec Hpart] Hidx l'. unfold store.
  destruct (lookup_lt_is_Some_2 (fragments entry) (Z.to_nat idx)) as [slot Hslot]; [unfold zlen in Hlen; lia|].
  rewrite Hslot. destruct (rb_stats rb) as [a b c d e f].
  pose proof (count_some_insert _ _ _ frag Hslot) as Hci. fold l' in Hci.
  assert (length l' = length (fragments entry)) as Hl' by apply length_insert.
  set (rec' := match slot with None => received entry + 1 | Some _ => received entry end).
  assert (rec' = Z.of_nat (count_some l')) as Hr by (rewrite Hci; unfold rec'; destruct slot; lia).
  replace (match slot with None => (received entry + 1, a + 1) | Some _ => (received entry, a) end)
    with (rec', match slot with None => a + 1 | Some _ => a end) by by destruct slot.
  cbn [fragments p_frag_count]. fold l'.
  destruct (Z.eqb_spec rec' (p_frag_count entry)) as [He|He].
  - assert (count_some l' = length l') as Hfull by (unfold zlen in Hlen; lia).
    destruct (count_some_full l' Hfull) as (parts & Hp & ->).
    eexists _, _. split; [done|]. rewrite decide_True by done. split; [by eexists|done].
  - eexists _, _. split; [done|]. pose proof (count_some_le l').
    rewrite decide_False by (unfold zlen in Hlen; lia).
    eexists. split_conj; [done|done|done| |done|done].
    split; cbn; [unfold zlen in *; lia|done|done|unfold zlen in Hlen; lia].
Qed.

Lemma wf_buffer_insert key p rb s :
  wf_pending p -> wf_buffer rb ->
  (pending rb !! key = None -> pending_count rb < MAX_PENDING_PACKETS) ->
  wf_buffer (mkBuffer (<[key := p]> (pending rb)) (timeout rb) s).
Proof.
  intros Hp [Hf Hs] Hroom. split; cbn.
  - by apply map_Forall_insert_2.
  - unfold pending_count in *. cbn. rewrite map_size_insert. destruct (pending rb !! key); [unfold id; lia|].
    specialize (Hroom eq_refl). lia.
Qed.

(** [process] never panics, keeps the invariant, and touches no group but its
    own when there is room. *)
Lemma process_total now ep seq idx cnt frag rb :
  wf_buffer rb -> 0 <= idx -> 0 <= cnt ->
  exists out rb', process iter now ep seq idx cnt frag rb = Some (out, rb') /\ wf_buffer rb' /\
    (is_Some (pending rb !! (ep, seq)) \/ pending_count rb < MAX_PENDING_PACKETS ->
     forall k, k <> (ep, seq) -> pending rb' !! k = pending rb !! k).
Proof.
  intros Hwf Hi Hc. unfold process.
  destruct ((cnt =? 0) || (MAX_FRAGMENTS <? cnt)) eqn:Ecnt.
  { eexists _, _. split; [done|]. split; [by apply reject_wf|]. by rewrite reject_pending. }
  apply orb_false_iff in Ecnt as [E1%Z.eqb_neq E2%Z.ltb_ge].
  destruct (Z.leb_spec cnt idx).
  { eexists _, _. split; [done|]. split; [by apply reject_wf|]. by rewrite reject_pending. }
  destruct (make_room_spec now (ep, seq) rb Hwf) as (Hwf' & Hsub & Hroom & Hid).
  set (rb1 := make_room iter now (ep, seq) rb) in *.
  change (mkPending (replicate (Z.to_nat cnt) None) cnt 0 now) with (fresh_pending cnt now).
  set (entry := default (fresh_pending cnt now) (pending rb1 !! (ep, seq))).
  assert (wf_pending entry) as He.
  { unfold entry. destruct (pending rb1 !! (ep, seq)) eqn:E; [by eapply Hwf'|]. apply fresh_pending_wf. lia. }
  assert (pending rb1 !! (ep, seq) = None -> pending_count rb1 < MAX_PENDING_PACKETS) as Hroom1.
  { destruct (pending rb !! (ep, seq)) eqn:E; [|by auto]. intros Hn. rewrite Hid in Hn by eauto. congruence. }
  set (rb2 := mkBuffer (<[(ep, seq) := entry]> (pending rb1)) (timeout rb1) (rb_stats rb1)).
  assert (wf_buffer rb2) as Hwf2 by by apply wf_buffer_insert.
  assert (is_Some (pending rb !! (ep, seq)) \/ pending_count rb < MAX_PENDING_PACKETS ->
     forall k, k <> (ep, seq) -> pending rb2 !! k = pending rb !! k) as Hframe.
  { intros Hr k Hk. cbn. rewrite lookup_insert_ne by done. by rewrite Hid. }
  destruct (negb (p_frag_count entry =? cnt) || (p_frag_count entry <=? idx)) eqn:Em.
  { eexists _, _. split; [done|]. split; [by apply reject_wf|]. by rewrite reject_pending. }
  apply orb_false_iff in Em as [_ Em%Z.leb_gt].
  destruct (store_spec (ep, seq) idx frag entry rb2 He ltac:(lia)) as (out & rb' & -> & Hst).
  exists out, rb'. split; [done|]. destruct (decide _).
  - destruct Hst as [_ Hp]. split.
    + destruct Hwf2 as [Hf2 Hs2]. unfold wf_buffer, pending_count in *. rewrite Hp. split; [by apply map_Forall_delete|].
      pose proof (size_delete_le (ep, seq) (pending rb2)). lia.
    + intros Hr k Hk. rewrite Hp, lookup_delete_ne by done. by apply Hframe.
  - destruct Hst as (p' & _ & Hp & _ & Hwp & _). split.
    + destruct Hwf2 as [Hf2 Hs2]. unfold wf_buffer, pending_count in *. rewrite Hp. split; [by apply map_Forall_insert_2|].
      rewrite map_size_insert. cbn. rewrite lookup_insert_eq. done.
    + intros Hr k Hk. rewrite Hp, lookup_insert_ne by done. by apply Hframe.
Qed.
End buffer.

(** ** The specification: a set of the indices seen *)

Definition all_in (n : nat) (S : gset nat) : bool := forallb (fun j => bool_decide (j ∈ S)) (seq 0 n).

Lemma all_in_spec n S : all_in n S = true <-> forall j, (j < n)%nat -> j ∈ S.
Proof.
  unfold all_in. rewrite forallb_forall. split.
  - intros H j Hj. specialize (H j ltac:(apply in_seq; lia)). by apply bool_decide_eq_true in H.
  - intros H j Hj%in_seq. apply bool_decide_eq_true, H. lia.
Qed.

(** One fragment of a packet cut into [fs]: the packet comes out when its last
    missing fragment comes in, and the collector starts over. *)
Definition collect (fs : list bytes) (S : gset nat) (i : nat) : option bytes * gset nat :=
  let S := {[i]} ∪ S in
  if all_in (length fs) S then (Some (concat fs), ∅) else (None, S).

Fixpoint collect_run (fs : list bytes) (S : gset nat) (idxs : list nat) : list (option bytes) :=
  match idxs with
  | [] => []
  | i :: idxs => (collect fs S i).1 :: collect_run fs (collect fs S i).2 idxs
  end.

(** The fragments of [fs] whose index has been seen. *)
Definition holes (fs : list bytes) (S : gset nat) : list (option bytes) :=
  imap (fun i f => if decide (i ∈ S) then Some f else None) fs.

Lemma holes_lookup fs S i :
  holes fs S !! i = (fun f => if decide (i ∈ S) then Some f else None) <$> fs !! i.
Proof. apply list_lookup_imap. Qed.

Lemma holes_insert fs S i f :
  fs !! i = Some f -> <[i := Some f]> (holes fs S) = holes fs ({[i]} ∪ S).
Proof.
  intros Hf. apply list_eq. intros j. destruct (decide (i = j)) as [<-|Hne].
  - rewrite list_lookup_insert_eq, holes_lookup, Hf; [simpl; by rewrite decide_True by set_solver|].
    unfold holes. rewrite length_imap. by eapply lookup_lt_Some.
  - rewrite list_lookup_insert_ne, !holes_lookup by done. destruct (fs !! j) as [g|]; [|done]. simpl.
    f_equal. destruct (decide (j ∈ S)); [by rewrite decide_True by set_solver|by rewrite decide_False by set_solver].
Qed.

Lemma holes_empty fs : holes fs ∅ = replicate (length fs) None.
Proof.
  apply list_eq. intros j. rewrite holes_lookup. destruct (fs !! j) as [f|] eqn:E; simpl.
  - rewrite decide_False by set_solver. symmetry. apply lookup_replicate. split; [done|]. by eapply lookup_lt_Some.
  - symmetry. apply lookup_ge_None. rewrite length_replicate. by apply lookup_ge_None.
Qed.

Lemma holes_full fs S :
  if all_in (length fs) S
  then count_some (holes fs S) = length (holes fs S) /\ holes fs S = Some <$> fs
  else count_some (holes fs S) <> length (holes fs S).
Proof.
  destruct (all_in (length fs) S) eqn:E.
  - rewrite all_in_spec in E.
    assert (holes fs S = Some <$> fs) as ->.
    { apply list_eq. intros j. rewrite holes_lookup, list_lookup_fmap. destruct (fs !! j) as [f|] eqn:Ej; [|done].
      simpl. rewrite decide_True; [done|]. apply E. by eapply lookup_lt_Some. }
    split; [|done]. clear. induction fs as [|f fs IH]; [done|].
    rewrite fmap_cons, count_some_cons, IH. done.
  - intros (parts & Hp & _)%count_some_full. apply not_true_iff_false in E. apply E, all_in_spec. intros j Hj.
    apply lookup_lt_is_Some_2 in Hj as [f Hf].
    pose proof (holes_lookup fs S j) as Hl. rewrite Hp, list_lookup_fmap, Hf in Hl.
    destruct (parts !! j) as [g|]; [|done]. simpl in Hl. by destruct (decide (j ∈ S)).
Qed.

(** The group of a key represents the set of indices seen. *)
Definition holding (fs : list bytes) (S : gset nat) (o : option Pending) : Prop :=
  match o with
  | None => S = ∅
  | Some p => fragments p = holes fs S /\ p_frag_count p = zlen fs
  end.

(** A fragment as it reaches the buffer. *)
Record Arrival : Type := mkArrival {
  a_now : Z; a_endpoint : Z; a_seq : Z; a_index : Z; a_count : Z; a_fragment : bytes
}.
Definition a_key (a : Arrival) : Z * Z := (a_endpoint a, a_seq a).

Definition arrive (iter : group_map -> list ((Z * Z) * Pending)) (a : Arrival) :=
  ReassemblyBuffer.process iter (a_now a) (a_endpoint a) (a_seq a) (a_index a) (a_count a) (a_fragment a).

Fixpoint arrive_all (iter : group_map -> list ((Z * Z) * Pending)) (l : list Arrival) (rb : ReassemblyBuffer)
    : option (list (option bytes) * ReassemblyBuffer) :=
  match l with
  | [] => Some ([], rb)
  | a :: l =>
      let! (o, rb) := arrive iter a rb in
      let! (os, rb) := arrive_all iter l rb in
      Some (o :: os, rb)
  end.

(** The table has room at each step. *)
Fixpoint roomy (iter : group_map -> list ((Z * Z) * Pending)) (l : list Arrival) (rb : ReassemblyBuffer) : Prop :=
  match l with
  | [] => True
  | a :: l =>
      ReassemblyBuffer.pending_count rb < MAX_PENDING_PACKETS /\
      match arrive iter a rb with Some (_, rb) => roomy iter l rb | None => False end
  end.

(** The outcomes and the indices of the arrivals of one group. *)
Definition outcomes_of (k : Z * Z) (l : list Arrival) (os : list (option bytes)) : list (option bytes) :=
  omap (fun '(a, o) => if decide (a_key a = k) then Some o else None) (zip l os).
Definition indices_of (k : Z * Z) (l : list Arrival) : list nat :=
  omap (fun a => if decide (a_key a = k) then Some (Z.to_nat (a_index a)) else None) l.

Definition fragment_of (k : Z * Z) (fs : list bytes) (a : Arrival) : Prop :=
  a_key a = k -> a_count a = zlen fs /\ fs !! Z.to_nat (a_index a) = Some (a_fragment a).

Section refinement.
Context (iter : group_map -> list ((Z * Z) * Pending)) `{Hiter : !MapIter iter}.
Context (fs : list bytes) (Hfs : 1 <= zlen fs <= MAX_FRAGMENTS).
Import ReassemblyBuffer.

Lemma process_own S now ep seq i f rb :
  wf_buffer rb -> pending_count rb < MAX_PENDING_PACKETS ->
  holding fs S (pending rb !! (ep, seq)) -> 0 <= i -> fs !! Z.to_nat i = Some f ->
  exists rb', process iter now ep seq i (zlen fs) f rb = Some ((collect fs S (Z.to_nat i)).1, rb') /\
    holding fs (collect fs S (Z.to_nat i)).2 (pending rb' !! (ep, seq)).
Proof.
  intros Hwf Hroom Hh Hi Hf. pose proof (lookup_lt_Some _ _ _ Hf) as Hlt.
  assert (0 <= i < zlen fs) as Hir by (unfold zlen; lia). unfold process.
  destruct (Z.eqb_spec (zlen fs) 0); [lia|]. destruct (Z.ltb_spec MAX_FRAGMENTS (zlen fs)); [lia|]. cbn [orb].
  destruct (Z.leb_spec (zlen fs) i); [lia|].
  destruct (make_room_spec iter now (ep, seq) rb Hwf) as (_ & _ & _ & ->); [|by right].
  set (entry := default _ (pending rb !! (ep, seq))).
  assert (wf_pending entry /\ fragments entry = holes fs S /\ p_frag_count entry = zlen fs) as (He & Hfe & Hce).
  { unfold entry, holding in *. destruct (pending rb !! (ep, seq)) as [p|] eqn:Ep; simpl.
    - split; [|done]. by eapply Hwf.
    - subst S. split; [by apply fresh_pending_wf|]. rewrite holes_empty. unfold zlen. by rewrite Nat2Z.id. }
  rewrite Hce. destruct (Z.eqb_spec (zlen fs) (zlen fs)); [|done]. destruct (Z.leb_spec (zlen fs) i); [lia|]. cbn [negb orb].
  destruct (store_spec (ep, seq) i f entry
    (mkBuffer (<[(ep, seq) := entry]> (pending rb)) (timeout rb) (rb_stats rb)) He ltac:(lia)) as (out & rb' & -> & Hst).
  rewrite Hfe, (holes_insert fs S _ f Hf) in Hst. pose proof (holes_full fs ({[Z.to_nat i]} ∪ S)) as Hfull.
  unfold collect. exists rb'. destruct (all_in (length fs) ({[Z.to_nat i]} ∪ S)).
  - destruct Hfull as [Hc Hp]. rewrite decide_True in Hst by done. destruct Hst as [(parts & Hps & ->) Hd].
    rewrite Hp in Hps. apply (inj (fmap Some)) in Hps as <-. split; [done|]. by rewrite Hd, lookup_delete_eq.
  - rewrite decide_False in Hst by done. destruct Hst as (p' & -> & Hp & Hfp & _ & Hcp & _).
    split; [done|]. rewrite Hp, lookup_insert_eq. simpl. by rewrite Hfp, Hcp.
Qed.

(** The timeout is fixed, and a group keeps the time its first fragment came. *)
Lemma make_room_timeout now key rb : timeout (make_room iter now key rb) = timeout rb.
Proof.
  unfold make_room, evict_oldest, purge_expired. repeat case_match; done.
Qed.
Lemma process_created now ep seq idx cnt frag rb o rb' :
  wf_buffer rb -> process iter now ep seq idx cnt frag rb = Some (o, rb') ->
  timeout rb' = timeout rb /\ (forall p', pending rb' !! (ep, seq) = Some p' ->
    created p' = now \/ exists p, pending rb !! (ep, seq) = Some p /\ created p' = created p).
Proof.
  intros Hwf. unfold process.
  assert (forall r, timeout (reject r) = timeout r /\ pending (reject r) = pending r) as Hrej.
  { intros r. unfold reject. by destruct (rb_stats r). }
  destruct (_ || _); [intros [= <- <-]; destruct (Hrej rb) as [-> ->]; by eauto|].
  destruct (_ <=? _); [intros [= <- <-]; destruct (Hrej rb) as [-> ->]; by eauto|].
  destruct (make_room_spec iter now (ep, seq) rb Hwf) as (_ & Hsub & _).
  rewrite <- (make_room_timeout now (ep, seq) rb). set (rb1 := make_room iter now (ep, seq) rb) in *.
  set (entry := default _ (pending rb1 !! (ep, seq))).
  assert (forall p', created p' = created entry ->
    created p' = now \/ exists p, pending rb !! (ep, seq) = Some p /\ created p' = created p) as Hgo.
  { intros p' ->. unfold entry. destruct (pending rb1 !! (ep, seq)) as [p|] eqn:Hp; [right; exists p|by left].
    split; [|done]. by apply (lookup_weaken _ _ _ _ Hp). }
  destruct (_ || _).
  - intros [= <- <-]. match goal with |- context [reject ?r] => destruct (Hrej r) as [-> ->] end. split; [done|].
    intros p' Hp. cbn [pending] in Hp. rewrite lookup_insert_eq in Hp. injection Hp as <-. by apply Hgo.
  - unfold store. destruct (fragments entry !! _) as [slot|]; [|done]. cbn [option_bind rb_stats pending timeout].
    destruct (rb_stats rb1). destruct slot; destruct (_ =? _); try (destruct (mapM _ _); [|done]); intros [= <- <-];
      cbn [timeout pending]; (split; [done|]); intros p'; rewrite ?lookup_delete_eq, ?lookup_insert_eq; try done;
      intros [= <-]; by apply Hgo.
Qed.

Lemma arrive_refines k S a rb :
  wf_buffer rb -> pending_count rb < MAX_PENDING_PACKETS -> 0 <= a_index a -> 0 <= a_count a ->
  holding fs S (pending rb !! k) -> fragment_of k fs a ->
  exists o rb', arrive iter a rb = Some (o, rb') /\ wf_buffer rb' /\
    if decide (a_key a = k)
    then o = (collect fs S (Z.to_nat (a_index a))).1 /\
         holding fs (collect fs S (Z.to_nat (a_index a))).2 (pending rb' !! k)
    else holding fs S (pending rb' !! k).
Proof.
  intros Hwf Hroom Hi Hc Hh Hfr. unfold arrive.
  destruct (process_total iter (a_now a) (a_endpoint a) (a_seq a) (a_index a) (a_count a) (a_fragment a) rb Hwf Hi Hc)
    as (o & rb' & Hp & Hwf' & Hframe).
  exists o, rb'. split; [done|]. split; [done|]. destruct (decide (a_key a = k)) as [<-|Hne].
  - destruct (Hfr eq_refl) as [Hcnt Hf]. rewrite Hcnt in Hp.
    destruct (process_own S (a_now a) (a_endpoint a) (a_seq a) (a_index a) (a_fragment a) rb Hwf Hroom Hh Hi Hf)
      as (rb'' & Hp' & Hh'). rewrite Hp in Hp'. injection Hp' as -> ->. done.
  - rewrite Hframe by auto. done.
Qed.

Lemma arrive_all_refines k l : forall S rb,
  wf_buffer rb -> holding fs S (pending rb !! k) -> roomy iter l rb ->
  Forall (fun a => 0 <= a_index a /\ 0 <= a_count a /\ fragment_of k fs a) l ->
  exists os rb', arrive_all iter l rb = Some (os, rb') /\ wf_buffer rb' /\
    outcomes_of k l os = collect_run fs S (indices_of k l).
Proof.
  induction l as [|a l IH]; intros S rb Hwf Hh Hr Hl; [by exists [], rb|].
  apply Forall_cons in Hl as [(Hi & Hc & Hfr) Hl]. cbn [roomy] in Hr. destruct Hr as [Hroom Hr].
  destruct (arrive_refines k S a rb Hwf Hroom Hi Hc Hh Hfr) as (o & rb1 & Ha & Hwf1 & Hst).
  rewrite Ha in Hr. cbn [arrive_all]. rewrite Ha. unfold outcomes_of, indices_of in *. cbn [omap list_omap zip_with].
  destruct (decide (a_key a = k)) as [Hk|Hk].
  - destruct Hst as [-> Hh1]. destruct (IH _ rb1 Hwf1 Hh1 Hr Hl) as (os & rb' & -> & Hwf' & Ho).
    eexists _, rb'. split; [done|]. split; [done|]. cbn. rewrite decide_True by done. by rewrite Ho.
  - destruct (IH _ rb1 Hwf1 Hst Hr Hl) as (os & rb' & -> & Hwf' & Ho).
    eexists _, rb'. split; [done|]. split; [done|]. cbn. by rewrite decide_False by done.
Qed.
End refinement.

(** *** What the collector promises *)

(** Only the packet ever comes out. *)
Lemma collect_run_safe fs S idxs o :
  Some o ∈ collect_run fs S idxs -> o = concat fs.
Proof.
  revert S. induction idxs as [|i idxs IH]; intros S; [set_solver|]. cbn [collect_run].
  rewrite elem_of_cons. intros [H|H]; [|by eapply IH]. unfold collect in H.
  destruct (all_in _ _); cbn [fst] in H; by simplify_eq.
Qed.

(** It comes out once every index has come in. *)
Lemma collect_run_live fs S idxs :
  all_in (length fs) S = false -> (forall j, (j < length fs)%nat -> j ∈ S \/ j ∈ idxs) ->
  Some (concat fs) ∈ collect_run fs S idxs.
Proof.
  revert S. induction idxs as [|i idxs IH]; intros S HS Hc.
  - apply not_true_iff_false in HS. destruct HS. apply all_in_spec. intros j Hj. destruct (Hc j Hj); set_solver.
  - cbn [collect_run]. unfold collect. destruct (all_in (length fs) ({[i]} ∪ S)) eqn:E; cbn [fst snd].
    + set_solver.
    + apply elem_of_cons. right. apply IH; [done|]. intros j Hj. destruct (Hc j Hj) as [?|[->|?]%elem_of_cons]; set_solver.
Qed.

(** Each fragment once, in any order: the packet comes out exactly once, with
    the last of them. *)
Lemma collect_run_once fs S idxs :
  idxs <> [] -> NoDup idxs -> (forall j, j ∈ idxs -> j ∉ S) ->
  (forall j, j ∈ idxs -> (j < length fs)%nat) ->
  (forall j, (j < length fs)%nat -> j ∈ S \/ j ∈ idxs) ->
  collect_run fs S idxs = replicate (length idxs - 1) None ++ [Some (concat fs)].
Proof.
  revert S. induction idxs as [|i idxs IH]; intros S Hne Hnd Hdis Hin Hc; [done|].
  apply NoDup_cons in Hnd as [Hi Hnd]. cbn [collect_run]. unfold collect.
  destruct idxs as [|i' idxs].
  - rewrite (proj2 (all_in_spec _ _)); [done|]. intros j Hj. destruct (Hc j Hj); set_solver.
  - destruct (all_in (length fs) ({[i]} ∪ S)) eqn:E; cbn [fst snd].
    + rewrite all_in_spec in E. specialize (E i' ltac:(apply Hin; set_solver)).
      assert (i' ∉ S) by (apply Hdis; set_solver). set_solver.
    + rewrite (IH ({[i]} ∪ S)); [cbn [length]; by rewrite !Nat.sub_succ, !Nat.sub_0_r|done|done| | |].
      * intros j Hj. assert (j ∉ S) by (apply Hdis; set_solver). assert (j <> i) by (intros ->; done). set_solver.
      * intros j Hj. apply Hin. set_solver.
      * intros j Hj. destruct (Hc j Hj) as [?|[->|?]%elem_of_cons]; set_solver.
Qed.

(** The same, for a permutation of all the indices. *)
Lemma collect_run_perm fs idxs :
  (1 <= length fs)%nat -> idxs ≡ₚ seq 0 (length fs) ->
  collect_run fs ∅ idxs = replicate (length fs - 1) None ++ [Some (concat fs)].
Proof.
  intros Hn Hp. rewrite collect_run_once.
  - by rewrite Hp, length_seq.
  - intros He. rewrite He in Hp. apply Permutation_nil in Hp. destruct fs; [simpl in Hn; lia|done].
  - rewrite Hp. apply NoDup_seq.
  - set_solver.
  - intros j Hj. rewrite Hp in Hj. apply elem_of_seq in Hj. lia.
  - intros j Hj. right. rewrite Hp. apply elem_of_seq. lia.
Qed.

Lemma all_in_empty n : (1 <= n)%nat -> all_in n ∅ = false.
Proof. intros Hn. apply not_true_iff_false. rewrite all_in_spec. intros H. specialize (H 0%nat ltac:(lia)). set_solver. Qed.

(** ** Bytes held

    What the groups hold, for the termination of the decode stage: completing a
    packet takes its bytes out of the buffer. *)

Definition held_in (l : list (option bytes)) : nat := length (concat (omap id l)).
Definition held (m : group_map) : nat := sum_list_with (fun kv => held_in (fragments kv.2)) (map_to_list m).

Lemma held_in_cons o l : held_in (o :: l) = (default 0%nat (length <$> o) + held_in l)%nat.
Proof. unfold held_in. destruct o as [b|]; simpl; [by rewrite length_app|done]. Qed.

Lemma held_in_insert l i f : (held_in (<[i := Some f]> l) <= held_in l + length f)%nat.
Proof.
  revert i. induction l as [|o l IH]; intros i; [apply Nat.le_0_l|].
  destruct i as [|i].
  - change (<[0%nat := Some f]> (o :: l)) with (Some f :: l). rewrite !held_in_cons.
    change (default 0%nat (length <$> Some f)) with (length f). lia.
  - change (<[S i := Some f]> (o :: l)) with (o :: <[i := Some f]> l). rewrite !held_in_cons.
    specialize (IH i). lia.
Qed.

Lemma held_in_full parts : held_in (Some <$> parts) = length (concat parts).
Proof.
  induction parts as [|b parts IH]; [done|].
  rewrite fmap_cons, held_in_cons, IH. simpl. by rewrite length_app.
Qed.

Lemma held_in_replicate n : held_in (replicate n None) = 0%nat.
Proof. by induction n. Qed.

Lemma held_delete (m : group_map) (k : Z * Z) (p : Pending) :
  m !! k = Some p -> held m = (held_in (fragments p) + held (delete k m))%nat.
Proof. intros Hk. unfold held. by rewrite <- (map_to_list_delete m k p Hk). Qed.

Lemma held_insert (m : group_map) (k : Z * Z) (p : Pending) :
  held (<[k := p]> m) = (held_in (fragments p) + held (delete k m))%nat.
Proof. rewrite (held_delete _ k p) by apply lookup_insert_eq. by rewrite delete_insert_eq. Qed.

Lemma held_subseteq (m m' : group_map) : m ⊆ m' -> (held m <= held m')%nat.
Proof.
  intros Hsub. unfold held. apply map_to_list_submseteq, submseteq_Permutation in Hsub as [k Hk].
  rewrite Hk, sum_list_with_app. lia.
Qed.

Definition wf_parts (p : Pending) : Prop := forall b, Some b ∈ fragments p -> wf_bytes b.
Definition wf_held (m : group_map) : Prop := map_Forall (fun _ p => wf_parts p) m.

Lemma wf_held_subseteq m m' : m ⊆ m' -> wf_held m' -> wf_held m.
Proof. intros Hs Hw k p Hk. eapply Hw, lookup_weaken; done. Qed.

Lemma elem_of_insert_some (l : list (option bytes)) i f b :
  Some b ∈ <[i := Some f]> l -> b = f \/ Some b ∈ l.
Proof.
  intros (j & Hj)%list_elem_of_lookup. destruct (decide (i = j)) as [<-|Hne].
  - left. destruct (decide (i < length l)%nat) as [Hlt|Hge].
    + rewrite list_lookup_insert_eq in Hj by done. by injection Hj.
    + rewrite list_insert_ge in Hj by lia. apply lookup_lt_Some in Hj. lia.
  - right. rewrite list_lookup_insert_ne in Hj by done. by apply list_elem_of_lookup_2 in Hj.
Qed.

Lemma process_bytes iter `{!MapIter iter} now ep seq idx cnt frag rb out rb' :
  wf_buffer rb -> 0 <= idx -> 0 <= cnt -> wf_held (pending rb) -> wf_bytes frag ->
  ReassemblyBuffer.process iter now ep seq idx cnt frag rb = Some (out, rb') ->
  (default 0 (length <$> out) + held (pending rb') <= length frag + held (pending rb))%nat /\
  wf_held (pending rb') /\ (forall b, out = Some b -> wf_bytes b).
Proof.
  intros Hwf Hi Hc Hh Hf. unfold ReassemblyBuffer.process.
  destruct ((cnt =? 0) || (MAX_FRAGMENTS <? cnt)) eqn:Ecnt.
  { intros [= <- <-]. rewrite reject_pending. cbn. split_conj; [lia|done|done]. }
  apply orb_false_iff in Ecnt as [E1%Z.eqb_neq E2%Z.ltb_ge].
  destruct (Z.leb_spec cnt idx).
  { intros [= <- <-]. rewrite reject_pending. cbn. split_conj; [lia|done|done]. }
  destruct (make_room_spec iter now (ep, seq) rb Hwf) as (Hwf1 & Hsub & _ & _).
  set (rb1 := ReassemblyBuffer.make_room iter now (ep, seq) rb) in *.
  pose proof (held_subseteq _ _ Hsub) as Hle. pose proof (wf_held_subseteq _ _ Hsub Hh) as Hh1.
  change (mkPending (replicate (Z.to_nat cnt) None) cnt 0 now) with (fresh_pending cnt now).
  set (entry := default (fresh_pending cnt now) (pending rb1 !! (ep, seq))).
  assert (wf_pending entry /\ wf_parts entry /\ held (<[(ep, seq) := entry]> (pending rb1)) = held (pending rb1))
    as (He & Hp & Hsame).
  { rewrite held_insert. unfold entry. destruct (pending rb1 !! (ep, seq)) as [p|] eqn:E; simpl.
    - split_conj; [by eapply Hwf1|by eapply Hh1|]. by rewrite (held_delete _ _ _ E).
    - split_conj; [apply fresh_pending_wf; lia| |].
      + intros b [Hb _]%elem_of_replicate. done.
      + rewrite held_in_replicate, delete_id; done. }
  destruct (negb (p_frag_count entry =? cnt) || (p_frag_count entry <=? idx)) eqn:Em.
  { intros [= <- <-]. rewrite reject_pending. cbn [pending].
    change (default 0%nat (length <$> @None bytes)) with 0%nat.
    split_conj; [lia|by apply map_Forall_insert_2|done]. }
  apply orb_false_iff in Em as [_ Em%Z.leb_gt].
  set (rb2 := mkBuffer (<[(ep, seq) := entry]> (pending rb1)) (timeout rb1) (rb_stats rb1)).
  destruct (store_spec (ep, seq) idx frag entry rb2 He ltac:(lia)) as (o & rb3 & Hst & Hres).
  rewrite Hst. intros [= -> ->]. clear Hst.
  pose proof (held_in_insert (fragments entry) (Z.to_nat idx) frag) as Hins.
  assert (held (delete (ep, seq) (pending rb2)) + held_in (fragments entry) = held (pending rb1))%nat as Hdel.
  { rewrite <- Hsame, held_insert. cbn. rewrite delete_insert_eq. lia. }
  destruct (decide _).
  - destruct Hres as [(parts & Hl & ->) ->]. rewrite Hl, held_in_full in Hins.
    change (default 0%nat (length <$> Some (concat parts))) with (length (concat parts)).
    split_conj; [lia| |].
    + apply map_Forall_delete. by apply map_Forall_insert_2.
    + intros b [= <-]. apply Forall_concat, Forall_forall. intros x Hx.
      destruct (elem_of_insert_some (fragments entry) (Z.to_nat idx) frag x) as [->|?]; [|done|by apply Hp].
      rewrite Hl. by apply list_elem_of_fmap_2.
  - destruct Hres as (p' & -> & -> & Hl & _).
    change (default 0%nat (length <$> @None bytes)) with 0%nat. rewrite held_insert, Hl.
    split_conj; [lia| |done]. apply map_Forall_insert_2; [|by apply map_Forall_insert_2].
    intros b Hb. rewrite Hl in Hb. apply elem_of_insert_some in Hb as [->|Hb]; [done|by apply Hp].
Qed.

(** ** Properties *)

(** A packet survives the link.  Cutting it for an MTU above the overhead
    gives fragments that all fit in the MTU, carry consecutive sequence numbers
    from the base, their index and the count, and whose payloads, in order, are
    the packet; the receiver's fast path reads each of them back. *)
Theorem fragment_packet_spec (packet : bytes) (mtu base : Z) :
  wf_bytes packet -> zlen packet + 100 <= usize_max -> FRAG_OVERHEAD < mtu <= usize_max -> 0 <= base ->
  let n := div_ceil (zlen packet) (mtu - FRAG_OVERHEAD) in
  base + n <= u64_max + 1 ->
  exists wires chunks,
    fragment_packet packet mtu base = Ok wires /\ zlen wires = n /\ zlen chunks = n /\ concat chunks = packet /\
    (forall i w c, wires !! i = Some w -> chunks !! i = Some c ->
       zlen w <= mtu /\
       (1 < n -> exists h, extract_fragment w = Some h /\ fh_sequence h = base + Z.of_nat i /\
          fh_frag_index h = Z.of_nat i /\ fh_frag_count h = n /\ slice w (frag_start h) (frag_end h) = c)).
Proof.
  intros Hwf Hl Hm Hb n Hn. assert (payload_cap mtu = mtu - FRAG_OVERHEAD) as Hcap.
  { unfold payload_cap, sat_sub. lia. }
  assert (frag_total packet mtu = n) as Ht by (unfold frag_total, n; by rewrite Hcap).
  pose proof (zlen_nonneg packet) as Hz0. destruct (div_ceil_spec (zlen packet) (mtu - FRAG_OVERHEAD) Hz0 ltac:(lia)) as [[Hd1 Hd2] Hd3].
  fold n in Hd1, Hd2, Hd3.
  eexists _, (map (chunk_of packet (payload_cap mtu)) (seqZ 0 n)). split_conj.
  - apply fragment_packet_ok. by rewrite Ht.
  - unfold zlen. rewrite length_map, length_seqZ, Ht. lia.
  - unfold zlen. rewrite length_map, length_seqZ. lia.
  - rewrite Hcap. unfold n. apply chunks_concat. lia.
  - intros i w c. rewrite !list_lookup_fmap, Ht. destruct (seqZ 0 n !! i) as [j|] eqn:Ej; [|done].
    apply lookup_seqZ in Ej as [-> Hj]. rewrite Z.add_0_l, Hcap. intros [= <-] [= <-].
    assert (Z.of_nat i * (mtu - FRAG_OVERHEAD) <= zlen packet) by nia.
    destruct (zlen_chunk packet (mtu - FRAG_OVERHEAD) (Z.of_nat i)) as [Hc0 Hc1]; [lia..|].
    assert (wf_bytes (chunk_of packet (mtu - FRAG_OVERHEAD) (Z.of_nat i))) as Hcw by by apply wf_bytes_slice.
    assert (zlen (chunk_of packet (mtu - FRAG_OVERHEAD) (Z.of_nat i)) + 100 <= usize_max) as Hcl.
    { rewrite chunk_of_take by lia. rewrite zlen_take, zlen_drop. lia. }
    split; [pose proof (zlen_encode_fragment (base + Z.of_nat i) (Z.of_nat i) n _ Hcl); lia|].
    assert (n <= zlen packet) by nia.
    intros Hn1. apply extract_encoded; [done|done|..]; unfold_bounds; lia.
Qed.

Lemma fragment_packet_spec_witness :
  exists wires chunks,
    fragment_packet [1; 2; 3; 4; 5] 52 7 = Ok wires /\ zlen wires = 3 /\ zlen chunks = 3 /\
    concat chunks = [1; 2; 3; 4; 5].
Proof.
  destruct (fragment_packet_spec [1; 2; 3; 4; 5] 52 7 ltac:(solve_closed) ltac:(solve_closed) ltac:(solve_closed)
    ltac:(lia) ltac:(solve_closed)) as (w & c & H1 & H2 & H3 & H4 & _). exists w, c. split_conj; assumption.
Defined.

(** The receiver's memory is bounded and it cannot be made to panic.  For
    any sequence of arrivals whatever, in any order, from any number of senders,
    with any index, count and sequence the wire can carry, and any iteration
    order of the table: every call returns, the table never holds more than
    [MAX_PENDING_PACKETS] groups, and every group has between 1 and
    [MAX_FRAGMENTS] slots, as many as its count, its counter is the number of
    slots filled and at least one is missing. *)
Theorem reassembly_bounded (iter : group_map -> list ((Z * Z) * Pending)) (l : list Arrival) (tmo : Z) :
  MapIter iter -> Forall (fun a => is_u64 (a_index a) /\ is_u64 (a_count a)) l ->
  exists os rb, arrive_all iter l (ReassemblyBuffer.new tmo) = Some (os, rb) /\
    ReassemblyBuffer.pending_count rb <= MAX_PENDING_PACKETS /\
    (forall k p, pending rb !! k = Some p ->
       1 <= p_frag_count p <= MAX_FRAGMENTS /\ zlen (fragments p) = p_frag_count p /\
       received p = Z.of_nat (length (omap id (fragments p))) /\ received p < p_frag_count p).
Proof.
  intros Hiter Hl.
  assert (wf_buffer (ReassemblyBuffer.new tmo)) as Hwf by (split; [apply map_Forall_empty|done]).
  revert Hwf. generalize (ReassemblyBuffer.new tmo) as rb.
  induction Hl as [|a l [Hi Hc] Hl IH]; intros rb Hwf.
  - exists [], rb. split; [done|]. destruct Hwf as [Hf Hs]. split; [done|].
    intros k p Hk. destruct (Hf k p Hk). done.
  - cbn [arrive_all]. unfold arrive at 1. unfold_bounds.
    destruct (process_total iter (a_now a) (a_endpoint a) (a_seq a) (a_index a) (a_count a) (a_fragment a) rb Hwf)
      as (o & rb1 & -> & Hwf1 & _); [lia..|].
    destruct (IH rb1 Hwf1) as (os & rb' & -> & Hrest). by eexists _, rb'.
Qed.

Lemma reassembly_bounded_witness :
  exists os rb, arrive_all (fun m => map_to_list m)
    [mkArrival 0 0 7 1 2 [9]; mkArrival 1 0 7 5 2 [9]; mkArrival 2 0 7 0 400 [9]] (ReassemblyBuffer.new 5) = Some (os, rb) /\
    ReassemblyBuffer.pending_count rb <= MAX_PENDING_PACKETS.
Proof.
  destruct (reassembly_bounded (fun m => map_to_list m)
    [mkArrival 0 0 7 1 2 [9]; mkArrival 1 0 7 5 2 [9]; mkArrival 2 0 7 0 400 [9]] 5 _
    ltac:(repeat constructor; vm_compute; discriminate)) as (os & rb & H1 & H2 & _).
  exists os, rb. split; assumption.
Defined.

(** C37: reassembly implements its specification, a set of the indices seen.  For
    one group of a packet cut into 1 to 400 pieces, whatever other groups are
    interleaved with it and whatever pieces are repeated or reordered, as long
    as the table has room: what the calls of this group return is what the
    collector of indices returns.  So nothing but the packet ever comes out; it
    comes out whenever every index has arrived; and when each arrives once, it
    comes out exactly once, with the last. *)
Theorem reassembly_refines (iter : group_map -> list ((Z * Z) * Pending)) (fs : list bytes) (k : Z * Z)
    (l : list Arrival) (rb : ReassemblyBuffer) :
  MapIter iter -> 1 <= zlen fs <= MAX_FRAGMENTS -> wf_buffer rb -> pending rb !! k = None -> roomy iter l rb ->
  Forall (fun a => 0 <= a_index a /\ 0 <= a_count a /\ fragment_of k fs a) l ->
  exists os rb', arrive_all iter l rb = Some (os, rb') /\
    outcomes_of k l os = collect_run fs ∅ (indices_of k l) /\
    (forall o, Some o ∈ outcomes_of k l os -> o = concat fs) /\
    ((forall j, (j < length fs)%nat -> j ∈ indices_of k l) -> Some (concat fs) ∈ outcomes_of k l os) /\
    (indices_of k l ≡ₚ seq 0 (length fs) ->
       outcomes_of k l os = replicate (length fs - 1) None ++ [Some (concat fs)]).
Proof.
  intros Hiter Hfs Hwf Hk Hr Hl.
  destruct (arrive_all_refines iter fs Hfs k l ∅ rb Hwf) as (os & rb' & Ha & _ & Ho); [by rewrite Hk|done..|].
  exists os, rb'. rewrite Ho. assert (1 <= length fs)%nat as Hn by (unfold zlen in Hfs; lia). split_conj; [done|done| | |].
  - intros o. apply collect_run_safe.
  - intros Hc. apply collect_run_live; [by apply all_in_empty|]. auto.
  - by apply collect_run_perm.
Qed.

Definition example_arrivals : list Arrival :=
  [mkArrival 0 0 7 1 2 [3; 4]; mkArrival 1 1 7 0 3 [9]; mkArrival 2 0 7 0 2 [1; 2]].

Lemma reassembly_refines_witness :
  exists os rb', arrive_all (fun m => map_to_list m) example_arrivals (ReassemblyBuffer.new 5) = Some (os, rb') /\
    outcomes_of (0, 7) example_arrivals os = [None; Some [1; 2; 3; 4]].
Proof.
  destruct (reassembly_refines (fun m => map_to_list m) [[1; 2]; [3; 4]] (0, 7) example_arrivals (ReassemblyBuffer.new 5) _
    ltac:(solve_closed)) as (os & rb' & H1 & H2 & _).
  - split; [apply map_Forall_empty|done].
  - done.
  - vm_compute. by repeat split.
  - repeat (apply Forall_cons; split; [split_conj; [vm_compute; discriminate..|]; intros H;
      first [discriminate H | split; reflexivity]|]). constructor.
  - exists os, rb'. split; [exact H1|]. rewrite H2. reflexivity.
Defined.
