(* ===== verification/Reliability.v ===== *)
(** * Link reliability ([crates/core/ndn-transport/src/reliability.rs])

    The per-face state machine that numbers outgoing frames, keeps them until
    they are acknowledged, retransmits and gives up, queues acknowledgements for
    the peer, and recognises the peer's retransmissions.  [ReliabilityFeature]
    ([link_service/features/reliability.rs]) is its wrapper on a link service.

    The fields of [LpReliability] that a configuration sets are kept as a
    [ReliabilityConfig], those of the timeout estimate as an [Rtt], the counters
    as [Counters].  The clock is an argument, in nanoseconds; [on_receive] reads
    it twice.  The sums on the two sequence counters are unchecked, so [on_send]
    is [None] when one overflows; the statistics are unbounded integers. *)

From S2P Require Import Prelude Tlv Name BTree Float64 Packet Lp Reassembly.
From Stdlib Require Import SpecFloat.
#[local] Open Scope Z_scope.

(** ** Configuration *)

Definition MAX_PIGGYBACKED_ACKS : Z := 16.
Definition DEFAULT_MAX_RETRIES : Z := 1.
Definition MAX_RETX_PER_TICK : Z := 8.
Definition MAX_UNACKED : Z := 256.
Definition SEQ_NUM_LOSS_THRESHOLD : Z := 3.

Definition RFC6298_INITIAL_RTO_US : Z := 1000000.
Definition RFC6298_MIN_RTO_US : Z := 200000.
Definition RFC6298_MAX_RTO_US : Z := 4000000.
Definition RFC6298_GRANULARITY_US : Z := 100000.
(** 0.125 and 0.25. *)
Definition RFC6298_ALPHA : f64 := f64_scaled 1 (-3).
Definition RFC6298_BETA : f64 := f64_scaled 1 (-2).
Definition QUIC_INITIAL_RTO_US : Z := 333000.
Definition QUIC_MIN_RTO_US : Z := 1000.
Definition QUIC_MAX_RTO_US : Z := 4000000.
Definition QUIC_GRANULARITY_US : Z := 1000.

Inductive RtoStrategy : Type :=
| Rfc6298
| Quic
| MinRtt (margin_us : Z)
| Fixed (fixed_us : Z).

Record ReliabilityConfig : Type := mkConfig {
  rto_strategy : RtoStrategy;
  max_retries : Z;
  max_unacked : Z;
  max_retx_per_tick : Z
}.

Module ReliabilityConfig.
Definition default_ : ReliabilityConfig := mkConfig Rfc6298 DEFAULT_MAX_RETRIES MAX_UNACKED MAX_RETX_PER_TICK.
Definition local : ReliabilityConfig := mkConfig (Fixed 1000) 0 64 4.
Definition ethernet : ReliabilityConfig := mkConfig Quic 1 256 8.
Definition wifi : ReliabilityConfig := mkConfig Rfc6298 3 512 16.
End ReliabilityConfig.

(** ** State *)

Record UnackedEntry : Type := mkUnacked {
  u_wire : bytes;
  first_sent : Z;
  last_sent : Z;
  retx_count : Z;
  is_retx : bool;
  n_greater_seq_acks : Z
}.

Record Rtt : Type := mkRtt { srtt_us : f64; rttvar_us : f64; rto_us : Z; min_rtt_us : Z }.

Record Counters : Type := mkCounters {
  rto_expirations : Z;
  fast_retx : Z;
  unacked_evictions : Z;
  duplicate_frames : Z
}.

Abbreviation unacked_map := (list (Z * UnackedEntry)).

Record LpReliability : Type := mkReliability {
  next_seq : Z;
  next_tx_seq : Z;
  unacked : unacked_map;
  pending_acks : list Z;
  rtt : Rtt;
  r_mtu : Z;
  config : ReliabilityConfig;
  counters : Counters;
  fast_retx_candidates : list Z;
  recent_recv : gmap Z Z;
  recent_recv_order : list Z
}.

Definition initial_rto_for (s : RtoStrategy) : Z :=
  match s with
  | Rfc6298 => RFC6298_INITIAL_RTO_US
  | Quic => QUIC_INITIAL_RTO_US
  | MinRtt margin_us => margin_us
  | Fixed fixed_us => fixed_us
  end.

Definition set_unacked (s : LpReliability) (u : unacked_map) : LpReliability :=
  mkReliability (next_seq s) (next_tx_seq s) u (pending_acks s) (rtt s) (r_mtu s) (config s) (counters s)
    (fast_retx_candidates s) (recent_recv s) (recent_recv_order s).
Definition set_pending_acks (s : LpReliability) (l : list Z) : LpReliability :=
  mkReliability (next_seq s) (next_tx_seq s) (unacked s) l (rtt s) (r_mtu s) (config s) (counters s)
    (fast_retx_candidates s) (recent_recv s) (recent_recv_order s).
Definition set_rtt (s : LpReliability) (r : Rtt) : LpReliability :=
  mkReliability (next_seq s) (next_tx_seq s) (unacked s) (pending_acks s) r (r_mtu s) (config s) (counters s)
    (fast_retx_candidates s) (recent_recv s) (recent_recv_order s).
Definition set_counters (s : LpReliability) (c : Counters) : LpReliability :=
  mkReliability (next_seq s) (next_tx_seq s) (unacked s) (pending_acks s) (rtt s) (r_mtu s) (config s) c
    (fast_retx_candidates s) (recent_recv s) (recent_recv_order s).
Definition set_candidates (s : LpReliability) (l : list Z) : LpReliability :=
  mkReliability (next_seq s) (next_tx_seq s) (unacked s) (pending_acks s) (rtt s) (r_mtu s) (config s) (counters s)
    l (recent_recv s) (recent_recv_order s).
Definition set_recent (s : LpReliability) (m : gmap Z Z) (l : list Z) : LpReliability :=
  mkReliability (next_seq s) (next_tx_seq s) (unacked s) (pending_acks s) (rtt s) (r_mtu s) (config s) (counters s)
    (fast_retx_candidates s) m l.
Definition set_seqs (s : LpReliability) (seq tx : Z) : LpReliability :=
  mkReliability seq tx (unacked s) (pending_acks s) (rtt s) (r_mtu s) (config s) (counters s)
    (fast_retx_candidates s) (recent_recv s) (recent_recv_order s).

Definition add_expirations (n : Z) (c : Counters) : Counters :=
  mkCounters (rto_expirations c + n) (fast_retx c) (unacked_evictions c) (duplicate_frames c).
Definition add_fast_retx (n : Z) (c : Counters) : Counters :=
  mkCounters (rto_expirations c) (fast_retx c + n) (unacked_evictions c) (duplicate_frames c).
Definition add_evictions (n : Z) (c : Counters) : Counters :=
  mkCounters (rto_expirations c) (fast_retx c) (unacked_evictions c + n) (duplicate_frames c).
Definition add_duplicates (n : Z) (c : Counters) : Counters :=
  mkCounters (rto_expirations c) (fast_retx c) (unacked_evictions c) (duplicate_frames c + n).

Abbreviation u_get := (bt_get (V := UnackedEntry) Z.compare).
Abbreviation u_insert := (bt_insert (V := UnackedEntry) Z.compare).
Abbreviation u_remove := (bt_remove (V := UnackedEntry) Z.compare).

Module LpReliability.

Definition fresh_rtt (strategy : RtoStrategy) : Rtt :=
  mkRtt (f64_of 0) (f64_of 0) (initial_rto_for strategy) u64_max.

Definition from_config (mtu : Z) (cfg : ReliabilityConfig) : LpReliability :=
  mkReliability 0 0 [] [] (fresh_rtt (rto_strategy cfg)) mtu cfg (mkCounters 0 0 0 0) [] ∅ [].
Definition new (mtu : Z) : LpReliability := from_config mtu ReliabilityConfig.default_.

Definition apply_config (cfg : ReliabilityConfig) (s : LpReliability) : LpReliability :=
  mkReliability (next_seq s) (next_tx_seq s) (unacked s) (pending_acks s) (fresh_rtt (rto_strategy cfg)) (r_mtu s) cfg
    (counters s) (fast_retx_candidates s) (recent_recv s) (recent_recv_order s).

Definition set_mtu (mtu : Z) (s : LpReliability) : LpReliability :=
  mkReliability (next_seq s) (next_tx_seq s) (unacked s) (pending_acks s) (rtt s) mtu (config s) (counters s)
    (fast_retx_candidates s) (recent_recv s) (recent_recv_order s).

(** *** Sending *)

(** [while self.unacked.len() >= self.max_unacked]: the map, and how many were
    evicted. *)
Fixpoint evict_while (max : Z) (u : unacked_map) : unacked_map * Z :=
  match u with
  | [] => ([], 0)
  | _ :: u' => if max <=? zlen u then let '(u', n) := evict_while max u' in (u', n + 1) else (u, 0)
  end.

(** One turn of the loop over the fragments. *)
Definition send_fragment (now net_seq frag_count i : Z) (chunk : bytes) (acks : list Z) (s : LpReliability)
    : option (bytes * LpReliability) :=
  let tx_seq := next_tx_seq s in
  if u64_max <? tx_seq + 1 then None
  else
    let frag_info := if 1 <? frag_count then Some (net_seq + i, i, frag_count) else None in
    let frag_acks := if i =? 0 then acks else [] in
    let wire := encode_lp_reliable chunk tx_seq frag_info frag_acks in
    let '(u, evicted) := evict_while (max_unacked (config s)) (unacked s) in
    let s := set_seqs s (next_seq s) (tx_seq + 1) in
    let s := set_counters s (add_evictions evicted (counters s)) in
    Some (wire, set_unacked s (u_insert tx_seq (mkUnacked wire now now 0 false 0) u)).

Fixpoint send_fragments (now net_seq frag_count cap : Z) (pkt : bytes) (acks : list Z) (idxs : list Z) (s : LpReliability)
    : option (list bytes * LpReliability) :=
  match idxs with
  | [] => Some ([], s)
  | i :: idxs =>
      match send_fragment now net_seq frag_count i (chunk_of pkt cap i) acks s with
      | None => None
      | Some (wire, s) =>
          match send_fragments now net_seq frag_count cap pkt acks idxs s with
          | None => None
          | Some (wires, s) => Some (wire :: wires, s)
          end
      end
  end.

Definition on_send (now : Z) (pkt : bytes) (s : LpReliability) : option (list bytes * LpReliability) :=
  let n := Z.to_nat (Z.min (zlen (pending_acks s)) MAX_PIGGYBACKED_ACKS) in
  let acks := take n (pending_acks s) in
  let s := set_pending_acks s (drop n (pending_acks s)) in
  let ack_overhead := zlen acks * 10 in
  let cap := sat_sub (sat_sub (r_mtu s) FRAG_OVERHEAD) ack_overhead in
  if cap =? 0 then Some ([], s)
  else
    let frag_count := div_ceil (zlen pkt) cap in
    let net_seq := next_seq s in
    if u64_max <? net_seq + frag_count then None
    else send_fragments now net_seq frag_count cap pkt acks (seqZ 0 frag_count)
           (set_seqs s (net_seq + frag_count) (next_tx_seq s)).

(** *** The timeout estimate *)

Definition update_ewma (rtt_us alpha beta : f64) (r : Rtt) : Rtt :=
  if f64_eqb (srtt_us r) (f64_of 0) then
    mkRtt rtt_us (f64_div rtt_us (f64_of 2)) (rto_us r) (min_rtt_us r)
  else
    let rttvar := f64_add (f64_mul (f64_sub (f64_of 1) beta) (rttvar_us r))
                    (f64_mul beta (f64_abs (f64_sub (srtt_us r) rtt_us))) in
    mkRtt (f64_add (f64_mul (f64_sub (f64_of 1) alpha) (srtt_us r)) (f64_mul alpha rtt_us)) rttvar
      (rto_us r) (min_rtt_us r).

Definition clamp (x lo hi : Z) : Z := Z.max lo (Z.min x hi).
Definition set_rto (r : Rtt) (rto : Z) : Rtt := mkRtt (srtt_us r) (rttvar_us r) rto (min_rtt_us r).

Definition update_rto (strategy : RtoStrategy) (rtt_us : f64) (r : Rtt) : Rtt :=
  let rtt_int := f64_as_u64 rtt_us in
  let r := if rtt_int <? min_rtt_us r then mkRtt (srtt_us r) (rttvar_us r) (rto_us r) rtt_int else r in
  let estimate granularity lo hi :=
    let r := update_ewma rtt_us RFC6298_ALPHA RFC6298_BETA r in
    let rto := f64_add (srtt_us r) (f64_max (f64_mul (f64_of 4) (rttvar_us r)) (f64_of granularity)) in
    set_rto r (clamp (f64_as_u64 rto) lo hi) in
  match strategy with
  | Fixed _ => r
  | MinRtt margin_us => set_rto r (sat_add64 (min_rtt_us r) margin_us)
  | Rfc6298 => estimate RFC6298_GRANULARITY_US RFC6298_MIN_RTO_US RFC6298_MAX_RTO_US
  | Quic => estimate QUIC_GRANULARITY_US QUIC_MIN_RTO_US QUIC_MAX_RTO_US
  end.

(** *** Receiving *)

(** [while let Some(&front) = self.recent_recv_order.front()]. *)
Fixpoint age_out (now rto : Z) (m : gmap Z Z) (order : list Z) : gmap Z Z * list Z :=
  match order with
  | [] => (m, [])
  | front :: rest =>
      match m !! front with
      | Some seen => if rto <? sat_sub now seen then age_out now rto (delete front m) rest else (m, order)
      | None => (m, order)
      end
  end.

(** The verdict on a received TxSequence. *)
Definition note_sequence (now seq : Z) (s : LpReliability) : bool * LpReliability :=
  let s := set_pending_acks s (pending_acks s ++ [seq]) in
  let '(m, order) := age_out now (rto_us (rtt s) * 1000) (recent_recv s) (recent_recv_order s) in
  match m !! seq with
  | Some _ => (true, set_counters (set_recent s (<[seq := now]> m) order) (add_duplicates 1 (counters s)))
  | None => (false, set_recent s (<[seq := now]> m) (order ++ [seq]))
  end.

Definition bump_entry (ack : Z) (seq : Z) (e : UnackedEntry) : UnackedEntry :=
  if seq <? ack then
    mkUnacked (u_wire e) (first_sent e) (last_sent e) (retx_count e) (is_retx e) (n_greater_seq_acks e + 1)
  else e.

Definition bump_below (ack : Z) (u : unacked_map) : unacked_map := map (fun e => (e.1, bump_entry ack e.1 e.2)) u.

(** The frames whose count reaches the threshold, in ascending order. *)
Definition declared_lost (ack : Z) (u : unacked_map) : list Z :=
  map fst (List.filter (fun e => (e.1 <? ack) && (n_greater_seq_acks e.2 + 1 =? SEQ_NUM_LOSS_THRESHOLD)) u).

(** One acknowledgement. *)
Definition on_ack (now : Z) (s : LpReliability) (ack_seq : Z) : LpReliability :=
  let s := set_candidates s (fast_retx_candidates s ++ declared_lost ack_seq (unacked s)) in
  let u := bump_below ack_seq (unacked s) in
  match u_get ack_seq u with
  | None => set_unacked s u
  | Some entry =>
      let s := set_unacked s (u_remove ack_seq u) in
      if is_retx entry then s
      else set_rtt s (update_rto (rto_strategy (config s)) (f64_of (sat_sub now (first_sent entry) / 1000)) (rtt s))
  end.

(** The two times are those of the two readings of the clock. *)
Definition on_receive (now now' : Z) (raw : bytes) (s : LpReliability) : bool * LpReliability :=
  let '(tx_seq, acks) := extract_acks raw in
  let '(is_duplicate, s) := match tx_seq with Some seq => note_sequence now seq s | None => (false, s) end in
  (is_duplicate, fold_left (on_ack now') acks s).

(** *** Retransmission *)

Definition retransmitted (now : Z) (fast : bool) (e : UnackedEntry) : UnackedEntry :=
  mkUnacked (u_wire e) (first_sent e) now (retx_count e + 1) true (if fast then 0 else n_greater_seq_acks e).

Fixpoint fast_loop (now : Z) (candidates : list Z) (s : LpReliability) : list bytes * LpReliability :=
  match candidates with
  | [] => ([], s)
  | seq :: candidates =>
      match u_get seq (unacked s) with
      | None => fast_loop now candidates s
      | Some entry =>
          if max_retries (config s) <=? retx_count entry then
            let s := set_unacked s (u_remove seq (unacked s)) in
            fast_loop now candidates (set_counters s (add_expirations 1 (counters s)))
          else
            let s := set_unacked s (u_insert seq (retransmitted now true entry) (unacked s)) in
            let '(wires, s) := fast_loop now candidates (set_counters s (add_fast_retx 1 (counters s))) in
            (u_wire entry :: wires, s)
      end
  end.

Definition take_fast_retransmits (now : Z) (s : LpReliability) : list bytes * LpReliability :=
  fast_loop now (fast_retx_candidates s) (set_candidates s []).

Definition is_due (now rto : Z) (e : UnackedEntry) : bool := rto <=? sat_sub now (last_sent e).

Fixpoint expire_all (seqs : list Z) (s : LpReliability) : LpReliability :=
  match seqs with
  | [] => s
  | seq :: seqs =>
      expire_all seqs (set_counters (set_unacked s (u_remove seq (unacked s))) (add_expirations 1 (counters s)))
  end.

Fixpoint retransmit_all (now : Z) (seqs : list Z) (s : LpReliability) : list bytes * LpReliability :=
  match seqs with
  | [] => ([], s)
  | seq :: seqs =>
      match u_get seq (unacked s) with
      | None => retransmit_all now seqs s
      | Some entry =>
          let '(wires, s) := retransmit_all now seqs
            (set_unacked s (u_insert seq (retransmitted now false entry) (unacked s))) in
          (u_wire entry :: wires, s)
      end
  end.

Definition check_retransmit (now : Z) (s : LpReliability) : list bytes * LpReliability :=
  let rto := rto_us (rtt s) * 1000 in
  let due := List.filter (fun e => is_due now rto e.2) (unacked s) in
  let expired := map fst (List.filter (fun e => max_retries (config s) <=? retx_count e.2) due) in
  let retx := map fst (List.filter (fun e => negb (max_retries (config s) <=? retx_count e.2)) due) in
  retransmit_all now (take (Z.to_nat (max_retx_per_tick (config s))) retx) (expire_all expired s).

Definition flush_acks (s : LpReliability) : option bytes * LpReliability :=
  match pending_acks s with
  | [] => (None, s)
  | acks => (Some (encode_lp_acks acks), set_pending_acks s [])
  end.

Definition unacked_count (s : LpReliability) : Z := zlen (unacked s).

End LpReliability.

(** ** What can happen to a frame

    The life of the tracked frames as a transition system on the map and the
    next TxSequence: a frame is sent for the first time, sent again, or leaves
    the map, acknowledged, given up or evicted.  Every operation of the code is a
    run of it. *)

Inductive Fate : Type := Acked | Expired | Evicted.
#[export] Instance Fate_eq_dec : EqDecision Fate.
Proof. solve_decision. Defined.

Inductive Event : Type := Sent (w : bytes) | Dropped (why : Fate) (k : Z).

(** A frame that carries this TxSequence. *)
Definition numbered (tx : Z) (w : bytes) : Prop := (extract_acks w).1 = Some tx.

Inductive moves (cfg : ReliabilityConfig) : unacked_map -> Z -> list Event -> unacked_map -> Z -> Prop :=
| moves_nil u tx : moves cfg u tx [] u tx
| moves_new u tx e evs u' tx' :
    zlen u < Z.max 1 (max_unacked cfg) -> numbered tx (u_wire e) -> retx_count e = 0 ->
    moves cfg (u_insert tx e u) (tx + 1) evs u' tx' -> moves cfg u tx (Sent (u_wire e) :: evs) u' tx'
| moves_again u tx k e e' evs u' tx' :
    u_get k u = Some e -> retx_count e < max_retries cfg -> u_wire e' = u_wire e -> retx_count e' = retx_count e + 1 ->
    moves cfg (u_insert k e' u) tx evs u' tx' -> moves cfg u tx (Sent (u_wire e) :: evs) u' tx'
| moves_drop u tx why k e evs u' tx' :
    u_get k u = Some e -> moves cfg (u_remove k u) tx evs u' tx' -> moves cfg u tx (Dropped why k :: evs) u' tx'
| moves_bump u tx ack evs u' tx' :
    moves cfg (LpReliability.bump_below ack u) tx evs u' tx' -> moves cfg u tx evs u' tx'.

Lemma moves_app cfg u tx evs u1 tx1 evs' u2 tx2 :
  moves cfg u tx evs u1 tx1 -> moves cfg u1 tx1 evs' u2 tx2 -> moves cfg u tx (evs ++ evs') u2 tx2.
Proof. intros Hm Hn. induction Hm; cbn [app]; eauto using moves. Qed.

(** *** Its invariant *)

Record map_ok (cfg : ReliabilityConfig) (u : unacked_map) (tx : Z) : Prop := {
  mo_sorted : bt_wf Z.compare u;
  mo_frames : forall k e, u_get k u = Some e ->
    0 <= k < tx /\ numbered k (u_wire e) /\ 0 <= retx_count e <= max_retries cfg;
  mo_len : zlen u <= Z.max 1 (max_unacked cfg);
  mo_tx : 0 <= tx
}.

Lemma zcmp_eq a b : Z.compare a b = Eq <-> a = b.
Proof. apply Z.compare_eq_iff. Qed.

(** Lookups after an insertion or a removal. *)
Lemma u_get_insert k e k' u : bt_wf Z.compare u ->
  u_get k' (u_insert k e u) = if decide (k' = k) then Some e else u_get k' u.
Proof.
  intros Hwf. rewrite bt_get_insert by (done || apply _). destruct (decide (k' = k)) as [->|Hne].
  - by rewrite Z.compare_refl.
  - destruct (Z.compare k' k) eqn:E; [by apply zcmp_eq in E|done..].
Qed.
Lemma u_get_remove k k' u : bt_wf Z.compare u ->
  u_get k' (u_remove k u) = if decide (k' = k) then None else u_get k' u.
Proof.
  intros Hwf. rewrite bt_get_remove by (done || apply _). destruct (decide (k' = k)) as [->|Hne].
  - by rewrite Z.compare_refl.
  - destruct (Z.compare k' k) eqn:E; [by apply zcmp_eq in E|done..].
Qed.
Lemma u_get_bump ack k u : u_get k (LpReliability.bump_below ack u) = LpReliability.bump_entry ack k <$> u_get k u.
Proof. apply (bt_get_map Z.compare). Qed.
Lemma bump_same ack k e :
  u_wire (LpReliability.bump_entry ack k e) = u_wire e /\ retx_count (LpReliability.bump_entry ack k e) = retx_count e.
Proof. unfold LpReliability.bump_entry. by destruct (k <? ack). Qed.

Lemma map_ok_new cfg u tx e : 0 <= max_retries cfg -> zlen u < Z.max 1 (max_unacked cfg) -> numbered tx (u_wire e) ->
  retx_count e = 0 -> map_ok cfg u tx -> map_ok cfg (u_insert tx e u) (tx + 1) /\ u_get tx u = None.
Proof.
  intros Hm Hlen Hnum Hz [Hs Hf Hl Ht].
  assert (u_get tx u = None) as Hn by (destruct (u_get tx u) as [e'|] eqn:E; [apply Hf in E as [? _]; lia|done]).
  split; [|done]. split; [apply (bt_insert_wf Z.compare), Hs| |rewrite bt_insert_length, Hn by (done || apply _); lia|lia].
  intros k e' He'. rewrite u_get_insert in He' by done. destruct (decide (k = tx)) as [->|].
  - simplify_eq. rewrite Hz. split_conj; [lia|lia|done|lia|lia].
  - apply Hf in He' as (? & ? & ?). split_conj; [lia|lia|done|lia|lia].
Qed.

Lemma map_ok_again cfg u tx k e e' : u_get k u = Some e -> retx_count e < max_retries cfg -> u_wire e' = u_wire e ->
  retx_count e' = retx_count e + 1 -> map_ok cfg u tx -> map_ok cfg (u_insert k e' u) tx.
Proof.
  intros Hg Hlt Hw Hr [Hs Hf Hl Ht]. pose proof (Hf _ _ Hg) as (Hk & Hn & Hc).
  split; [apply (bt_insert_wf Z.compare), Hs| |rewrite bt_insert_length, Hg by (done || apply _); lia|lia].
  intros k' e1 He1. rewrite u_get_insert in He1 by done. destruct (decide (k' = k)) as [->|]; [|by apply Hf].
  simplify_eq. rewrite Hw, Hr. split_conj; [lia|lia|done|lia|lia].
Qed.

Lemma map_ok_drop cfg u tx k e : u_get k u = Some e -> map_ok cfg u tx -> map_ok cfg (u_remove k u) tx.
Proof.
  intros Hg [Hs Hf Hl Ht]. split; [apply (bt_remove_wf Z.compare), Hs| |rewrite bt_remove_length, Hg; lia|done].
  intros k' e1 He1. rewrite u_get_remove in He1 by done. destruct (decide (k' = k)); [done|by apply Hf].
Qed.

Lemma zlen_bump ack u : zlen (LpReliability.bump_below ack u) = zlen u.
Proof. unfold LpReliability.bump_below, zlen. by rewrite length_map. Qed.

Lemma map_ok_bump cfg u tx ack : map_ok cfg u tx -> map_ok cfg (LpReliability.bump_below ack u) tx.
Proof.
  intros [Hs Hf Hl Ht]. split; [by apply bt_wf_map| |by rewrite zlen_bump|done].
  intros k e1 He1. rewrite u_get_bump in He1. destruct (u_get k u) as [e|] eqn:He; [|done]. simplify_eq/=.
  destruct (bump_same ack k e) as [-> ->]. by apply Hf.
Qed.

#[local] Hint Resolve map_ok_again map_ok_drop map_ok_bump : core.

Lemma moves_ok cfg u tx evs u' tx' : 0 <= max_retries cfg -> moves cfg u tx evs u' tx' -> map_ok cfg u tx -> map_ok cfg u' tx'.
Proof. intros Hm. induction 1; eauto. intros Hok. apply IHmoves. by apply map_ok_new. Qed.

(** *** Every frame is accounted for *)

Definition fates (why : Fate) (evs : list Event) : Z :=
  zlen (List.filter (fun ev => match ev with Dropped w _ => bool_decide (w = why) | _ => false end) evs).
Definition drops (evs : list Event) : Z := fates Acked evs + fates Expired evs + fates Evicted evs.

Lemma fates_app why evs evs' : fates why (evs ++ evs') = fates why evs + fates why evs'.
Proof. unfold fates. by rewrite List.filter_app, zlen_app. Qed.

Lemma fates_nil why : fates why [] = 0.
Proof. done. Qed.

Lemma fates_cons why ev evs : fates why (ev :: evs) =
  match ev with Dropped w _ => if bool_decide (w = why) then 1 else 0 | _ => 0 end + fates why evs.
Proof.
  unfold fates. cbn [List.filter]. destruct ev as [w|w k]; [done|]. case_bool_decide; [by rewrite zlen_cons|done].
Qed.

Lemma fates_same why k : fates why [Dropped why k] = 1.
Proof. rewrite fates_cons, bool_decide_true by done. done. Qed.
Lemma fates_other why w k : w <> why -> fates why [Dropped w k] = 0.
Proof. intros H. rewrite fates_cons, bool_decide_false by done. done. Qed.
Lemma fates_sent why w : fates why [Sent w] = 0.
Proof. by rewrite fates_cons. Qed.

Lemma drops_cons ev evs : drops (ev :: evs) = match ev with Dropped _ _ => 1 | _ => 0 end + drops evs.
Proof. unfold drops. rewrite !fates_cons. destruct ev as [w|[] k]; [lia|..]; repeat case_bool_decide; done || lia. Qed.

Lemma moves_balance cfg u tx evs u' tx' : 0 <= max_retries cfg ->
  moves cfg u tx evs u' tx' -> map_ok cfg u tx -> tx' - zlen u' - drops evs = tx - zlen u.
Proof.
  intros Hm Hmv.
  induction Hmv as [| u tx e evs u' tx' Hlen Hnum Hz Hmv IH | u tx k e e' evs u' tx' Hg Hlt Hw Hr Hmv IH
    | u tx why k e evs u' tx' Hg Hmv IH | u tx ack evs u' tx' Hmv IH]; intros Hok; pose proof Hok as [Hs Hf Hl Ht].
  - change (drops []) with 0. lia.
  - rewrite drops_cons. destruct (map_ok_new cfg u tx e Hm Hlen Hnum Hz Hok) as [Hok' Hn].
    specialize (IH Hok'). rewrite bt_insert_length, Hn in IH by (done || apply _). lia.
  - rewrite drops_cons. specialize (IH ltac:(eauto)). rewrite bt_insert_length, Hg in IH by (done || apply _). lia.
  - rewrite drops_cons. specialize (IH ltac:(eauto)). rewrite bt_remove_length, Hg in IH. lia.
  - specialize (IH ltac:(eauto)). by rewrite zlen_bump in IH.
Qed.

(** *** How often a frame is sent *)

Definition sent (evs : list Event) : list bytes := omap (fun ev => match ev with Sent w => Some w | _ => None end) evs.

(** The frames of a list that carry this TxSequence. *)
Definition sends (t : Z) (ws : list bytes) : Z := zlen (List.filter (fun w => bool_decide ((extract_acks w).1 = Some t)) ws).

Lemma sends_app t ws ws' : sends t (ws ++ ws') = sends t ws + sends t ws'.
Proof. unfold sends. by rewrite List.filter_app, zlen_app. Qed.
Lemma sends_cons t k w ws : numbered k w -> sends t (w :: ws) = (if decide (t = k) then 1 else 0) + sends t ws.
Proof.
  unfold sends, numbered. intros Hk. cbn [List.filter]. rewrite Hk. destruct (decide (t = k)) as [->|].
  - rewrite bool_decide_true by done. by rewrite zlen_cons.
  - rewrite bool_decide_false by (intros [= ->]; done). done.
Qed.
Lemma sent_app evs evs' : sent (evs ++ evs') = sent evs ++ sent evs'.
Proof. apply omap_app. Qed.

(** Frame [t] has been sent [n] times. *)
Definition spent (cfg : ReliabilityConfig) (t n : Z) (u : unacked_map) (tx : Z) : Prop :=
  (tx <= t -> n = 0) /\ (forall e, u_get t u = Some e -> n = 1 + retx_count e) /\ n <= 1 + max_retries cfg.

Lemma moves_spent cfg u tx evs u' tx' t : 0 <= max_retries cfg -> moves cfg u tx evs u' tx' -> map_ok cfg u tx ->
  forall n, spent cfg t n u tx -> spent cfg t (n + sends t (sent evs)) u' tx'.
Proof.
  intros Hm. induction 1 as [| u tx e evs u' tx' Hlen Hnum Hz Hmv IH | u tx k e e' evs u' tx' Hg Hlt Hw Hr Hmv IH
    | u tx why k e evs u' tx' Hg Hmv IH | u tx ack evs u' tx' Hmv IH]; intros Hok n (H1 & H2 & H3); pose proof Hok as [Hs Hf Hl Ht].
  - change (sends t (sent [])) with 0. rewrite Z.add_0_r. by split_conj.
  - destruct (map_ok_new cfg u tx e Hm Hlen Hnum Hz Hok) as [Hok' _].
    change (sent (Sent (u_wire e) :: evs)) with (u_wire e :: sent evs). rewrite (sends_cons t tx), Z.add_assoc by done.
    apply IH; [done|]. unfold spent. rewrite u_get_insert by done. destruct (decide (t = tx)) as [->|Hne].
    + rewrite H1 by lia. split_conj; [lia| |lia]. intros ? [= <-]. lia.
    + rewrite Z.add_0_r. split_conj; [intros; apply H1; lia|done|done].
  - destruct (Hf _ _ Hg) as (Hk & Hn & _).
    change (sent (Sent (u_wire e) :: evs)) with (u_wire e :: sent evs). rewrite (sends_cons t k), Z.add_assoc by done.
    apply IH; [eauto|]. unfold spent. rewrite u_get_insert by done. destruct (decide (t = k)) as [->|Hne].
    + rewrite (H2 _ Hg). split_conj; [lia| |lia]. intros ? [= <-]. lia.
    + rewrite Z.add_0_r. by split_conj.
  - apply IH; [eauto|]. unfold spent. rewrite u_get_remove by done. split_conj; [done| |done].
    destruct (decide (t = k)); [done|]. exact H2.
  - apply IH; [eauto|]. unfold spent. split_conj; [done| |done]. intros e He. rewrite u_get_bump in He.
    destruct (u_get t u) as [e0|]; [|done]. simplify_eq/=. destruct (bump_same ack t e0) as [_ ->]. by apply H2.
Qed.

(** A frame that has left the map is not sent again. *)
Lemma moves_gone cfg u tx evs u' tx' t : 0 <= max_retries cfg -> moves cfg u tx evs u' tx' -> map_ok cfg u tx ->
  t < tx -> u_get t u = None -> sends t (sent evs) = 0.
Proof.
  intros Hm. induction 1 as [| u tx e evs u' tx' Hlen Hnum Hz Hmv IH | u tx k e e' evs u' tx' Hg Hlt Hw Hr Hmv IH
    | u tx why k e evs u' tx' Hg Hmv IH | u tx ack evs u' tx' Hmv IH]; intros Hok Ht Hno; pose proof (mo_sorted _ _ _ Hok) as Hs.
  - done.
  - change (sent (Sent (u_wire e) :: evs)) with (u_wire e :: sent evs). rewrite (sends_cons t tx), decide_False by (done || lia).
    apply IH; [by apply map_ok_new|lia|]. rewrite u_get_insert, decide_False by (done || lia). done.
  - destruct (mo_frames _ _ _ Hok _ _ Hg) as (_ & Hn & _). assert (t <> k) as Hne by congruence.
    change (sent (Sent (u_wire e) :: evs)) with (u_wire e :: sent evs). rewrite (sends_cons t k), decide_False by done.
    apply IH; [eauto|done|]. by rewrite u_get_insert, decide_False.
  - apply IH; [eauto|done|]. rewrite u_get_remove by done. by destruct (decide _).
  - apply IH; [eauto|done|]. by rewrite u_get_bump, Hno.
Qed.

(** ** Every operation is a run *)

Record effect (s : LpReliability) (evs : list Event) (s' : LpReliability) : Prop := {
  ef_moves : moves (config s) (unacked s) (next_tx_seq s) evs (unacked s') (next_tx_seq s');
  ef_config : config s' = config s;
  ef_expired : rto_expirations (counters s') = rto_expirations (counters s) + fates Expired evs;
  ef_evicted : unacked_evictions (counters s') = unacked_evictions (counters s) + fates Evicted evs
}.

Lemma effect_refl s s' : unacked s' = unacked s -> next_tx_seq s' = next_tx_seq s -> config s' = config s ->
  rto_expirations (counters s') = rto_expirations (counters s) ->
  unacked_evictions (counters s') = unacked_evictions (counters s) -> effect s [] s'.
Proof. intros H1 H2 H3 H4 H5. split; [rewrite H1, H2; apply moves_nil|done|rewrite H4, fates_nil; lia|rewrite H5, fates_nil; lia]. Qed.

Lemma effect_trans s evs s1 evs' s2 : effect s evs s1 -> effect s1 evs' s2 -> effect s (evs ++ evs') s2.
Proof.
  intros [H1 H2 H3 H4] [K1 K2 K3 K4]. rewrite H2 in *. split; [by eapply moves_app|done|rewrite K3, H3, fates_app; lia|].
  rewrite K4, H4, fates_app. lia.
Qed.

(** Evicting to make room. *)
Lemma evict_moves cfg tx u : bt_wf Z.compare u ->
  let '(u', n) := LpReliability.evict_while (max_unacked cfg) u in
  exists evs, moves cfg u tx evs u' tx /\ fates Evicted evs = n /\ fates Acked evs = 0 /\ fates Expired evs = 0 /\
    sent evs = [] /\ zlen u' < Z.max 1 (max_unacked cfg).
Proof.
  induction u as [|[k e] u IH]; intros Hwf; cbn [LpReliability.evict_while].
  - exists []. split_conj; try done; [apply moves_nil|]. rewrite zlen_nil. lia.
  - destruct (Z.leb_spec (max_unacked cfg) (zlen ((k, e) :: u))) as [Hle|Hlt].
    + apply bt_wf_cons in Hwf as [_ Hwf]. specialize (IH Hwf).
      destruct (LpReliability.evict_while (max_unacked cfg) u) as [u' n].
      destruct IH as (evs & Hmv & H1 & H2 & H3 & H4 & H5). exists (Dropped Evicted k :: evs). rewrite !fates_cons.
      assert (u_remove k ((k, e) :: u) = u) as Hrm by (cbn; by rewrite Z.compare_refl).
      split_conj; [|rewrite H1, bool_decide_true by done; lia|done|done|done|done].
      eapply (moves_drop _ _ _ _ _ e); [cbn; by rewrite Z.compare_refl|by rewrite Hrm].
    + exists []. split_conj; try done; [apply moves_nil|lia].
Qed.

(** What the sending side leaves alone. *)
Definition quiet (s s' : LpReliability) : Prop :=
  pending_acks s' = pending_acks s /\ rtt s' = rtt s /\ recent_recv s' = recent_recv s /\
  recent_recv_order s' = recent_recv_order s.

Lemma quiet_trans s s1 s2 : quiet s s1 -> quiet s1 s2 -> quiet s s2.
Proof. intros (? & ? & ? & ?) (? & ? & ? & ?). repeat split; congruence. Qed.

Definition tracked (s : LpReliability) : Prop := map_ok (config s) (unacked s) (next_tx_seq s) /\ 0 <= max_retries (config s).

Lemma effect_tracked s evs s' : effect s evs s' -> tracked s -> tracked s'.
Proof. intros [Hm Hc _ _] [Hok Hr]. split; rewrite Hc; [by eapply moves_ok|done]. Qed.

Section sending.
Context (now net fc cap : Z) (pkt : bytes) (acks : list Z)
  (Hpkt : wf_bytes pkt) (Hsize : zlen pkt + 2000 <= usize_max) (Hcap : 1 <= cap) (Hfc : fc = div_ceil (zlen pkt) cap)
  (Hacks : Forall is_u64 acks) (Hmany : zlen acks <= MAX_PIGGYBACKED_ACKS)
  (Hnet : 0 <= net) (Hseq : net + fc <= u64_max).

(** What fragment [i] of the packet is sent as. *)
Definition frame_of (tx i : Z) : bytes :=
  encode_lp_reliable (chunk_of pkt cap i) tx (if 1 <? fc then Some (net + i, i, fc) else None) (if i =? 0 then acks else []).

Lemma chunk_facts i : 0 <= i < fc -> wf_bytes (chunk_of pkt cap i) /\ 0 <= zlen (chunk_of pkt cap i) <= zlen pkt /\
  zlen (chunk_of pkt cap i) <= cap.
Proof using Hpkt Hcap Hfc.
  intros Hi. destruct (div_ceil_spec (zlen pkt) cap (zlen_nonneg _) Hcap) as [[H1 H2] H3]. rewrite <- Hfc in *.
  assert (i * cap <= zlen pkt) by nia. pose proof (zlen_chunk pkt cap i ltac:(lia) Hcap ltac:(lia)) as Hz.
  rewrite chunk_of_take in Hz |- * by lia. split; [by apply Forall_take, Forall_drop|]. split; [|lia].
  rewrite zlen_take, zlen_drop. pose proof (zlen_nonneg pkt). lia.
Qed.

Lemma frame_of_fast tx i : is_u64 tx -> 0 <= i < fc ->
  wf_bytes (frame_of tx i) /\ extract_acks (frame_of tx i) = (Some tx, if i =? 0 then acks else []) /\
  (1 < fc -> exists h, extract_fragment (frame_of tx i) = Some h /\ fh_sequence h = net + i /\ fh_frag_index h = i /\
     fh_frag_count h = fc /\ slice (frame_of tx i) (frag_start h) (frag_end h) = chunk_of pkt cap i).
Proof using All.
  intros Htx Hi. destruct (chunk_facts i Hi) as (Hw & Hz & _). unfold MAX_PIGGYBACKED_ACKS in Hmany.
  assert (Forall is_u64 (if i =? 0 then acks else [])) as Ha by by destruct (i =? 0).
  assert (zlen (if i =? 0 then acks else []) <= 16) as Hn by (destruct (i =? 0); [done|rewrite zlen_nil; lia]).
  unfold frame_of. destruct (Z.ltb_spec 1 fc).
  - destruct (reliable_fast (chunk_of pkt cap i) tx (Some (net + i, i, fc)) (if i =? 0 then acks else []) Hw Htx)
      as (H1 & H2 & H3); [unfold_bounds; cbn; unfold_bounds; lia|done|lia|]. split_conj; [done|done|done].
  - destruct (reliable_fast (chunk_of pkt cap i) tx None (if i =? 0 then acks else []) Hw Htx I Ha)
      as (H1 & H2 & _); [lia|]. split_conj; [done|done|lia].
Qed.

Lemma send_fragment_effect i s w s' :
  tracked s -> 0 <= i < fc ->
  LpReliability.send_fragment now net fc i (chunk_of pkt cap i) acks s = Some (w, s') ->
  exists evs, effect s evs s' /\ sent evs = [w] /\ fates Acked evs = 0 /\ quiet s s' /\
    w = frame_of (next_tx_seq s) i /\ next_tx_seq s' = next_tx_seq s + 1 /\ next_seq s' = next_seq s.
Proof using All.
  intros [Hok Hr] Hi. unfold LpReliability.send_fragment.
  destruct (Z.ltb_spec u64_max (next_tx_seq s + 1)) as [|Hlt]; [done|].
  fold (frame_of (next_tx_seq s) i). pose proof (mo_tx _ _ _ Hok).
  destruct (frame_of_fast (next_tx_seq s) i ltac:(unfold_bounds; lia) Hi) as (_ & Hx & _).
  pose proof (evict_moves (config s) (next_tx_seq s) (unacked s) (mo_sorted _ _ _ Hok)) as He.
  destruct (LpReliability.evict_while _ _) as [u n]. destruct He as (evs & Hm & H1 & H2 & H3 & H4 & H5).
  intros [= <- <-]. set (w := frame_of (next_tx_seq s) i) in *.
  exists (evs ++ [Sent w]). rewrite sent_app, fates_app, H4, H2. split_conj; try done. split; cbn.
  - eapply moves_app; [exact Hm|]. apply (moves_new _ _ _ (mkUnacked w now now 0 false 0)); [done| |done|apply moves_nil].
    unfold numbered. cbn [u_wire]. by rewrite Hx.
  - done.
  - rewrite fates_app, H3. rewrite fates_cons, fates_nil. lia.
  - rewrite fates_app, H1, fates_cons, fates_nil. lia.
Qed.

Lemma send_fragments_effect idxs : forall s ws s',
  tracked s -> Forall (fun i => 0 <= i < fc) idxs ->
  LpReliability.send_fragments now net fc cap pkt acks idxs s = Some (ws, s') ->
  exists evs, effect s evs s' /\ sent evs = ws /\ fates Acked evs = 0 /\ quiet s s' /\ next_seq s' = next_seq s /\
    next_tx_seq s' = next_tx_seq s + zlen idxs /\
    forall j i, idxs !! j = Some i -> ws !! j = Some (frame_of (next_tx_seq s + Z.of_nat j) i).
Proof using All.
  induction idxs as [|i idxs IH]; intros s ws s' Ht Hi; cbn [LpReliability.send_fragments].
  - intros [= <- <-]. exists []. split_conj; try done; [by apply effect_refl|rewrite zlen_nil; lia].
  - apply Forall_cons in Hi as [Hi Hidx].
    destruct (LpReliability.send_fragment _ _ _ _ _ _ _) as [[w s1]|] eqn:E1; [|done].
    destruct (send_fragment_effect i s w s1 Ht Hi E1) as (evs & He & Hs & Ha & Hq & Hw & Htx & Hns).
    destruct (LpReliability.send_fragments _ _ _ _ _ _ _ _) as [[ws1 s2]|] eqn:E2; [|done]. intros [= <- <-].
    destruct (IH s1 ws1 s2 (effect_tracked _ _ _ He Ht) Hidx E2) as (evs' & He' & Hs' & Ha' & Hq' & Hns' & Htx' & Hl).
    exists (evs ++ evs'). rewrite sent_app, fates_app, Hs, Hs', Ha, Ha'. split_conj; try done.
    + by eapply effect_trans.
    + by eapply quiet_trans.
    + congruence.
    + rewrite Htx', Htx, zlen_cons. lia.
    + intros [|j] x Hx; [injection Hx as <-; cbn; by rewrite Z.add_0_r, Hw|].
      change (ws1 !! j = Some (frame_of (next_tx_seq s + Z.of_nat (S j)) x)). rewrite (Hl j x Hx), Htx. do 2 f_equal. lia.
Qed.
End sending.

Lemma on_send_effect now pkt s ws s' :
  tracked s -> Forall is_u64 (pending_acks s) -> 0 <= next_seq s -> wf_bytes pkt -> zlen pkt + 2000 <= usize_max ->
  LpReliability.on_send now pkt s = Some (ws, s') ->
  exists evs, effect s evs s' /\ sent evs = ws /\ fates Acked evs = 0 /\
    rtt s' = rtt s /\ recent_recv s' = recent_recv s /\ recent_recv_order s' = recent_recv_order s /\
    pending_acks s' = drop (Z.to_nat (Z.min (zlen (pending_acks s)) MAX_PIGGYBACKED_ACKS)) (pending_acks s) /\
    next_seq s <= next_seq s'.
Proof.
  intros Ht Ha Hn Hp Hz. unfold LpReliability.on_send. set (n := Z.to_nat _).
  set (s0 := set_pending_acks s (drop n (pending_acks s))). cbv zeta.
  match goal with |- (if ?c =? 0 then _ else _) = _ -> _ => set (cap := c) end.
  destruct (Z.eqb_spec cap 0) as [_|Hc].
  - intros [= <- <-]. exists []. split_conj; try done. by apply effect_refl.
  - destruct (Z.ltb_spec u64_max (next_seq s0 + div_ceil (zlen pkt) cap)) as [|Hlt]; [done|]. intros Hs.
    assert (1 <= cap) as Hcap by (unfold cap, sat_sub in *; lia).
    destruct (div_ceil_spec (zlen pkt) cap (zlen_nonneg _) Hcap) as [_ Hfc].
    eapply send_fragments_effect in Hs as (evs & He & Hse & Hac & Hq & Hns & _); try done.
    + destruct Hq as (Hq1 & Hq2 & Hq3 & Hq4). exists evs. split_conj; try done.
      * destruct He as [H1 H2 H3 H4]. by split.
      * rewrite Hns. cbn in *. lia.
    + by apply Forall_take.
    + unfold zlen. rewrite length_take. unfold n, MAX_PIGGYBACKED_ACKS. lia.
    + apply List.Forall_forall. intros i Hi. apply list_elem_of_In, elem_of_seqZ in Hi. lia.
Qed.

Lemma on_ack_effect now s a : exists evs, effect s evs (LpReliability.on_ack now s a) /\ sent evs = [] /\
  fates Expired evs = 0 /\ fates Evicted evs = 0 /\
  next_tx_seq (LpReliability.on_ack now s a) = next_tx_seq s /\ next_seq (LpReliability.on_ack now s a) = next_seq s /\
  pending_acks (LpReliability.on_ack now s a) = pending_acks s /\
  recent_recv (LpReliability.on_ack now s a) = recent_recv s /\
  recent_recv_order (LpReliability.on_ack now s a) = recent_recv_order s.
Proof.
  unfold LpReliability.on_ack. cbn [unacked set_candidates].
  destruct (u_get a (LpReliability.bump_below a (unacked s))) as [e|] eqn:Hg.
  - assert (forall s', unacked s' = u_remove a (LpReliability.bump_below a (unacked s)) -> next_tx_seq s' = next_tx_seq s ->
      config s' = config s -> counters s' = counters s -> effect s [Dropped Acked a] s') as Hdrop.
    { intros s' E1 E2 E3 E4. split; rewrite ?E1, ?E2, ?E4; [|done|rewrite fates_other by done; lia|rewrite fates_other by done; lia].
      eapply moves_bump, moves_drop; [exact Hg|apply moves_nil]. }
    exists [Dropped Acked a]. destruct (is_retx e); split_conj; try done; by apply Hdrop.
  - exists []. split_conj; try done. split; cbn [unacked next_tx_seq config counters set_unacked set_candidates];
      rewrite ?fates_nil; [|done|lia|lia]. eapply moves_bump, moves_nil.
Qed.

Lemma on_acks_effect now acks : forall s, exists evs, effect s evs (fold_left (LpReliability.on_ack now) acks s) /\ sent evs = [] /\
  fates Expired evs = 0 /\ fates Evicted evs = 0 /\
  next_tx_seq (fold_left (LpReliability.on_ack now) acks s) = next_tx_seq s /\
  next_seq (fold_left (LpReliability.on_ack now) acks s) = next_seq s /\
  pending_acks (fold_left (LpReliability.on_ack now) acks s) = pending_acks s /\
  recent_recv (fold_left (LpReliability.on_ack now) acks s) = recent_recv s /\
  recent_recv_order (fold_left (LpReliability.on_ack now) acks s) = recent_recv_order s.
Proof.
  induction acks as [|a acks IH]; intros s; cbn [fold_left].
  - exists []. split_conj; try done. by apply effect_refl.
  - destruct (on_ack_effect now s a) as (evs & He & H1 & H2 & H3 & H4 & H5 & H6 & H7 & H8).
    destruct (IH (LpReliability.on_ack now s a)) as (evs' & He' & K1 & K2 & K3 & K4 & K5 & K6 & K7 & K8).
    exists (evs ++ evs'). rewrite sent_app, !fates_app, H1, K1, H2, K2, H3, K3, K4, K5, K6, K7, K8.
    split_conj; try done. by eapply effect_trans.
Qed.

(** An acknowledged frame is no longer tracked. *)
Lemma on_ack_clears now s a k : bt_wf Z.compare (unacked s) -> a = k \/ u_get k (unacked s) = None ->
  bt_wf Z.compare (unacked (LpReliability.on_ack now s a)) /\ u_get k (unacked (LpReliability.on_ack now s a)) = None.
Proof.
  intros Hwf Hk. assert (bt_wf Z.compare (LpReliability.bump_below a (unacked s))) as Hwf'.
  { unfold LpReliability.bump_below. by apply bt_wf_map. }
  assert (u_get k (unacked s) = None -> u_get k (LpReliability.bump_below a (unacked s)) = None) as Hb.
  { intros H. by rewrite u_get_bump, H. }
  unfold LpReliability.on_ack. cbn [unacked set_candidates].
  destruct (u_get a (LpReliability.bump_below a (unacked s))) as [e|] eqn:Hg.
  - assert (forall s', unacked s' = u_remove a (LpReliability.bump_below a (unacked s)) ->
      bt_wf Z.compare (unacked s') /\ u_get k (unacked s') = None) as Hr.
    { intros s' ->. split; [by apply bt_remove_wf|]. rewrite u_get_remove by done. destruct (decide (k = a)); [done|].
      destruct Hk as [->|Hk]; [done|by apply Hb]. }
    destruct (is_retx e); by apply Hr.
  - cbn [unacked set_unacked]. split; [done|]. destruct Hk as [->|Hk]; [done|by apply Hb].
Qed.

Lemma on_acks_clear now acks k : forall s, bt_wf Z.compare (unacked s) -> k ∈ acks \/ u_get k (unacked s) = None ->
  u_get k (unacked (fold_left (LpReliability.on_ack now) acks s)) = None.
Proof.
  induction acks as [|a acks IH]; intros s Hwf Hk; cbn [fold_left].
  - destruct Hk as [Hk%not_elem_of_nil|Hk]; done.
  - destruct (decide (a = k \/ u_get k (unacked s) = None)) as [Hd|Hd].
    + destruct (on_ack_clears now s a k Hwf Hd) as [H1 H2]. apply IH; auto.
    + destruct (on_ack_clears now s a a Hwf (or_introl eq_refl)) as [H1 _]. apply IH; [done|].
      destruct Hk as [Hk|Hk]; [|tauto]. apply elem_of_cons in Hk as [->|Hk]; tauto.
Qed.

(** What retransmission leaves alone. *)
Definition resting (s s' : LpReliability) : Prop :=
  quiet s s' /\ next_tx_seq s' = next_tx_seq s /\ next_seq s' = next_seq s.
Lemma resting_trans s s1 s2 : resting s s1 -> resting s1 s2 -> resting s s2.
Proof. intros (? & ? & ?) (? & ? & ?). split; [by eapply quiet_trans|]. split; congruence. Qed.

Lemma fast_loop_effect now cands : forall s ws s',
  LpReliability.fast_loop now cands s = (ws, s') ->
  exists evs, effect s evs s' /\ sent evs = ws /\ fates Acked evs = 0 /\ resting s s'.
Proof.
  induction cands as [|k cands IH]; intros s ws s'; cbn [LpReliability.fast_loop].
  - intros [= <- <-]. exists []. split_conj; try done. by apply effect_refl.
  - destruct (u_get k (unacked s)) as [e|] eqn:Hg; [|apply IH].
    destruct (Z.leb_spec (max_retries (config s)) (retx_count e)) as [Hle|Hlt].
    + intros Hl. apply IH in Hl as (evs & He & Hs & Ha & Hr). exists (Dropped Expired k :: evs).
      rewrite fates_cons, Ha. split_conj; try done.
      eapply (effect_trans _ [_]); [|exact He]. split; [|done|cbn; by rewrite fates_same|cbn; rewrite fates_other by done; lia].
      eapply moves_drop; [exact Hg|apply moves_nil].
    + destruct (LpReliability.fast_loop now cands _) as [ws1 s1] eqn:Hl. intros [= <- <-].
      apply IH in Hl as (evs & He & Hs & Ha & Hr). exists (Sent (u_wire e) :: evs).
      rewrite fates_cons, Ha. split_conj; try done; [|by rewrite <- Hs].
      eapply (effect_trans _ [_]); [|exact He]. split; [|done|cbn; rewrite fates_sent; lia|cbn; rewrite fates_sent; lia].
      eapply moves_again; [exact Hg|done| | |apply moves_nil]; done.
Qed.

Lemma expire_all_effect seqs : forall s, tracked s -> NoDup seqs -> (forall k, k ∈ seqs -> is_Some (u_get k (unacked s))) ->
  exists evs, effect s evs (LpReliability.expire_all seqs s) /\ sent evs = [] /\ fates Acked evs = 0 /\
    resting s (LpReliability.expire_all seqs s) /\
    (forall k, k ∉ seqs -> u_get k (unacked (LpReliability.expire_all seqs s)) = u_get k (unacked s)).
Proof.
  induction seqs as [|k seqs IH]; intros s Ht Hnd Hin; cbn [LpReliability.expire_all].
  - exists []. split_conj; try done. by apply effect_refl.
  - apply NoDup_cons in Hnd as [Hk Hnd]. destruct (Hin k) as [e Hg]; [by left|].
    set (s1 := set_counters (set_unacked s (u_remove k (unacked s))) (add_expirations 1 (counters s))).
    assert (bt_wf Z.compare (unacked s)) as Hwf by apply Ht.
    assert (effect s [Dropped Expired k] s1) as He1.
    { split; [|done|cbn; by rewrite fates_same|cbn; rewrite fates_other by done; lia].
      eapply moves_drop; [exact Hg|apply moves_nil]. }
    destruct (IH s1 (effect_tracked _ _ _ He1 Ht) Hnd) as (evs & He & Hs & Ha & Hr & Hget).
    { intros k' Hk'. cbn [unacked s1 set_unacked set_counters]. rewrite u_get_remove by done.
      destruct (decide (k' = k)) as [->|]; [done|]. apply Hin. by right. }
    exists (Dropped Expired k :: evs). rewrite fates_cons, Ha. split_conj; try done.
    + by eapply (effect_trans _ [_]).
    + intros k' [Hne Hk']%not_elem_of_cons. rewrite Hget by done. cbn [unacked s1 set_unacked set_counters].
      rewrite u_get_remove by done. by rewrite decide_False.
Qed.

Lemma retransmit_all_effect now seqs : forall s ws s',
  tracked s -> NoDup seqs -> (forall k e, k ∈ seqs -> u_get k (unacked s) = Some e -> retx_count e < max_retries (config s)) ->
  LpReliability.retransmit_all now seqs s = (ws, s') ->
  exists evs, effect s evs s' /\ sent evs = ws /\ fates Acked evs = 0 /\ resting s s'.
Proof.
  induction seqs as [|k seqs IH]; intros s ws s' Ht Hnd Hin; cbn [LpReliability.retransmit_all].
  - intros [= <- <-]. exists []. split_conj; try done. by apply effect_refl.
  - apply NoDup_cons in Hnd as [Hk Hnd]. destruct (u_get k (unacked s)) as [e|] eqn:Hg.
    2:{ apply IH; [done|done|]. intros k' e' Hk'. apply Hin. by right. }
    assert (bt_wf Z.compare (unacked s)) as Hwf by apply Ht.
    set (s1 := set_unacked s (u_insert k (LpReliability.retransmitted now false e) (unacked s))).
    assert (effect s [Sent (u_wire e)] s1) as He1.
    { split; [|done|cbn; rewrite fates_sent; lia|cbn; rewrite fates_sent; lia].
      eapply moves_again; [exact Hg|apply (Hin k); [by left|done]| | |apply moves_nil]; done. }
    destruct (LpReliability.retransmit_all now seqs s1) as [ws1 s2] eqn:Hl. intros [= <- <-].
    apply IH in Hl as (evs & He & Hs & Ha & Hr); [|by eapply effect_tracked|done|].
    + exists (Sent (u_wire e) :: evs). rewrite fates_cons, Ha. split_conj; try done; [|by rewrite <- Hs].
      by eapply (effect_trans _ [_]).
    + intros k' e' Hk' Hg'. cbn [unacked s1 set_unacked] in Hg'. rewrite u_get_insert in Hg' by done.
      destruct (decide (k' = k)) as [->|]; [done|]. eapply Hin; [by right|exact Hg'].
Qed.

Lemma check_retransmit_effect now s ws s' : tracked s -> LpReliability.check_retransmit now s = (ws, s') ->
  exists evs, effect s evs s' /\ sent evs = ws /\ fates Acked evs = 0 /\ resting s s'.
Proof.
  intros Ht. pose proof Ht as [[Hwf _ _ _] _]. unfold LpReliability.check_retransmit.
  assert (bt_wf Z.compare (List.filter (fun e => LpReliability.is_due now (rto_us (rtt s) * 1000) e.2) (unacked s))) as Hdue
    by by apply bt_wf_filter.
  set (due := List.filter _ (unacked s)) in *.
  set (expired := map fst (List.filter (fun e => max_retries (config s) <=? retx_count e.2) due)).
  set (retx := map fst (List.filter (fun e => negb (max_retries (config s) <=? retx_count e.2)) due)).
  assert (forall k e, u_get k due = Some e -> u_get k (unacked s) = Some e) as Hsub.
  { intros k e He. apply bt_elem_of in He; [|apply _|done]. apply list_elem_of_In, filter_In in He as [He _].
    apply bt_elem_of; [apply _|done|]. by apply list_elem_of_In. }
  destruct (expire_all_effect expired s Ht) as (evs & He & Hs & Ha & Hr & Hget).
  { by apply (bt_keys_nodup Z.compare). }
  { intros k Hk. apply (bt_keys_elem Z.compare) in Hk as (e & He & _); [|done]. exists e. by apply Hsub. }
  intros Hl. apply retransmit_all_effect in Hl as (evs' & He' & Hs' & Ha' & Hr').
  - exists (evs ++ evs'). rewrite sent_app, fates_app, Hs, Ha, Ha'. split_conj; [by eapply effect_trans|done|done|].
    by eapply resting_trans.
  - by eapply effect_tracked.
  - assert (NoDup retx) as Hnd by by apply (bt_keys_nodup Z.compare).
    rewrite <- (take_drop (Z.to_nat (max_retx_per_tick (config s))) retx) in Hnd. by apply NoDup_app in Hnd as [? _].
  - intros k e Hk Hg.
    assert (k ∈ retx) as Hk'.
    { rewrite <- (take_drop (Z.to_nat (max_retx_per_tick (config s))) retx). apply elem_of_app. by left. }
    apply (bt_keys_elem Z.compare) in Hk' as (e' & He1 & Hlt); [|done]. cbn in Hlt.
    rewrite (ef_config _ _ _ He). rewrite Hget in Hg; [|intros Hex].
    + rewrite (Hsub _ _ He1) in Hg. simplify_eq. apply negb_true_iff, Z.leb_gt in Hlt. done.
    + apply (bt_keys_elem Z.compare) in Hex as (e2 & He2 & Hge); [|done]. cbn in Hge. rewrite He1 in He2. simplify_eq.
      by rewrite Hge in Hlt.
Qed.

(** ** The timeout stays in its range *)

Definition rto_floor (st : RtoStrategy) : Z :=
  match st with Rfc6298 => RFC6298_MIN_RTO_US | Quic => QUIC_MIN_RTO_US | MinRtt m => m | Fixed r => r end.
Definition rto_ceiling (st : RtoStrategy) : Z :=
  match st with Rfc6298 => RFC6298_MAX_RTO_US | Quic => QUIC_MAX_RTO_US | MinRtt _ => u64_max | Fixed r => r end.
Definition rto_ok (st : RtoStrategy) (r : Rtt) : Prop :=
  rto_floor st <= rto_us r <= rto_ceiling st /\ 0 <= min_rtt_us r.

Definition wf_strategy (st : RtoStrategy) : Prop := match st with MinRtt m => is_u64 m | Fixed r => is_u64 r | _ => True end.

Lemma fresh_rto_ok st : wf_strategy st -> rto_ok st (LpReliability.fresh_rtt st).
Proof.
  intros Hst. unfold rto_ok, LpReliability.fresh_rtt. destruct st; cbn [rto_us min_rtt_us initial_rto_for rto_floor rto_ceiling];
    unfold_bounds; cbn in Hst; unfold_bounds; unfold RFC6298_MIN_RTO_US, RFC6298_MAX_RTO_US, RFC6298_INITIAL_RTO_US,
    QUIC_MIN_RTO_US, QUIC_MAX_RTO_US, QUIC_INITIAL_RTO_US; lia.
Qed.

Lemma update_ewma_min x a b r : min_rtt_us (LpReliability.update_ewma x a b r) = min_rtt_us r.
Proof. unfold LpReliability.update_ewma. by destruct (f64_eqb _ _). Qed.

Lemma clamp_range x lo hi : lo <= hi -> lo <= LpReliability.clamp x lo hi <= hi.
Proof. unfold LpReliability.clamp. lia. Qed.

Lemma update_rto_ok st x r : wf_strategy st -> rto_ok st r -> rto_ok st (LpReliability.update_rto st x r).
Proof.
  intros Hst [Hr Hm]. unfold LpReliability.update_rto. pose proof (f64_as_u64_range x) as Hx.
  set (r' := if _ <? _ then _ else r).
  assert (rto_us r' = rto_us r /\ 0 <= min_rtt_us r') as [Hr' Hm'] by (unfold r', is_u64 in *; destruct (_ <? _); cbn; lia).
  clearbody r'. destruct st; cbn [rto_floor rto_ceiling] in *; split; cbn [rto_us min_rtt_us LpReliability.set_rto rto_floor rto_ceiling];
    rewrite ?update_ewma_min; try done.
  - by apply clamp_range.
  - by apply clamp_range.
  - unfold sat_add64. cbn in Hst. unfold_bounds. lia.
  - by rewrite Hr'.
Qed.

(** ** The received TxSequences *)

Definition recent_ok (m : gmap Z Z) (order : list Z) : Prop := NoDup order /\ forall k, k ∈ order <-> is_Some (m !! k).

Lemma age_out_spec now rto order : forall m m' order',
  recent_ok m order -> LpReliability.age_out now rto m order = (m', order') ->
  recent_ok m' order' /\ m' ⊆ m /\ (forall k t, m !! k = Some t -> sat_sub now t <= rto -> m' !! k = Some t).
Proof.
  induction order as [|f order IH]; intros m m' order' [Hnd Hin]; cbn [LpReliability.age_out]; [by intros [= <- <-]|].
  destruct (m !! f) as [t|] eqn:Hf; [|by intros [= <- <-]].
  destruct (Z.ltb_spec rto (sat_sub now t)) as [Hlt|]; [|by intros [= <- <-]].
  apply NoDup_cons in Hnd as [Hnf Hnd]. intros Ha. apply IH in Ha as (Hok & Hsub & Hkeep).
  - split_conj; [done|etrans; [exact Hsub|apply delete_subseteq]|].
    intros k t' Hk Hle. apply Hkeep; [|done]. apply lookup_delete_Some. split; [|done]. intros <-. rewrite Hf in Hk. simplify_eq. lia.
  - split; [done|]. intros k. rewrite lookup_delete_is_Some, <- Hin, elem_of_cons. split; [|intros [? [?|?]]; done].
    intros Hk. split; [|by right]. by intros ->.
Qed.

Lemma note_sequence_spec now k s dup s' : recent_ok (recent_recv s) (recent_recv_order s) ->
  LpReliability.note_sequence now k s = (dup, s') ->
  recent_ok (recent_recv s') (recent_recv_order s') /\ recent_recv s' !! k = Some now /\
  (dup = true -> is_Some (recent_recv s !! k)) /\
  (forall t, recent_recv s !! k = Some t -> sat_sub now t <= rto_us (rtt s) * 1000 -> dup = true) /\
  (forall k' t, k' <> k -> recent_recv s !! k' = Some t -> sat_sub now t <= rto_us (rtt s) * 1000 -> recent_recv s' !! k' = Some t) /\
  (forall k' t, k' <> k -> recent_recv s' !! k' = Some t -> recent_recv s !! k' = Some t) /\
  pending_acks s' = pending_acks s ++ [k] /\ rtt s' = rtt s /\ next_seq s' = next_seq s /\ effect s [] s'.
Proof.
  intros Hok. unfold LpReliability.note_sequence. cbn [rtt set_pending_acks recent_recv recent_recv_order].
  destruct (LpReliability.age_out _ _ _ _) as [m order] eqn:Ha. apply age_out_spec in Ha as ([Hnd Hin] & Hsub & Hkeep); [|done].
  destruct (m !! k) as [t0|] eqn:Hk; intros [= <- <-];
    cbn [recent_recv recent_recv_order set_recent set_counters pending_acks set_pending_acks rtt next_seq];
    (split_conj; [split| | | | | | | | |]); try done; try apply lookup_insert_eq; try (by apply effect_refl).
  - intros k'. rewrite Hin. destruct (decide (k = k')) as [<-|]; [by rewrite lookup_insert_eq, Hk|by rewrite lookup_insert_ne].
  - intros _. exists t0. by eapply lookup_weaken.
  - intros k' t Hne Ht Hle. rewrite lookup_insert_ne by done. by apply Hkeep.
  - intros k' t Hne Ht. rewrite lookup_insert_ne in Ht by done. by eapply lookup_weaken.
  - apply NoDup_app. split_conj; [done| |apply NoDup_singleton].
    intros x Hx ->%list_elem_of_singleton. apply Hin in Hx as [? Hx]. by rewrite Hk in Hx.
  - intros k'. rewrite elem_of_app, list_elem_of_singleton, Hin. destruct (decide (k = k')) as [<-|].
    + rewrite lookup_insert_eq. naive_solver.
    + rewrite lookup_insert_ne by done. naive_solver.
  - intros t Ht Hle. rewrite (Hkeep _ _ Ht Hle) in Hk. done.
  - intros k' t Hne Ht Hle. rewrite lookup_insert_ne by done. by apply Hkeep.
  - intros k' t Hne Ht. rewrite lookup_insert_ne in Ht by done. by eapply lookup_weaken.
Qed.

Lemma on_ack_rto now a s : wf_strategy (rto_strategy (config s)) -> rto_ok (rto_strategy (config s)) (rtt s) ->
  rto_ok (rto_strategy (config s)) (rtt (LpReliability.on_ack now s a)) /\ config (LpReliability.on_ack now s a) = config s.
Proof.
  intros Hst Hr. unfold LpReliability.on_ack. destruct (u_get _ _) as [e|]; [|done].
  destruct (is_retx e); [done|]. split; [|done]. by apply update_rto_ok.
Qed.
Lemma on_acks_rto now acks : forall s, wf_strategy (rto_strategy (config s)) -> rto_ok (rto_strategy (config s)) (rtt s) ->
  rto_ok (rto_strategy (config s)) (rtt (fold_left (LpReliability.on_ack now) acks s)).
Proof.
  induction acks as [|a acks IH]; intros s Hst Hr; [done|]. cbn [fold_left].
  destruct (on_ack_rto now a s Hst Hr) as [Hr' Hc]. rewrite <- Hc in Hst, Hr' |- *. by apply IH.
Qed.

(** ** Runs *)

Inductive RelOp : Type :=
| OpSend (now : Z) (pkt : bytes)
| OpReceive (now now' : Z) (raw : bytes)
| OpFast (now : Z)
| OpTick (now : Z)
| OpFlush
| OpMtu (mtu : Z).

(** The verdict on a received frame, the tracked frames that go out, how many
    were acknowledged, and the state. *)
Definition step (op : RelOp) (s : LpReliability) : option (bool * list bytes * Z * LpReliability) :=
  match op with
  | OpSend now pkt => match LpReliability.on_send now pkt s with Some (ws, s) => Some (false, ws, 0, s) | None => None end
  | OpReceive now now' raw =>
      let '(dup, s') := LpReliability.on_receive now now' raw s in
      Some (dup, [], zlen (unacked s) - zlen (unacked s'), s')
  | OpFast now => let '(ws, s) := LpReliability.take_fast_retransmits now s in Some (false, ws, 0, s)
  | OpTick now => let '(ws, s) := LpReliability.check_retransmit now s in Some (false, ws, 0, s)
  | OpFlush => Some (false, [], 0, (LpReliability.flush_acks s).2)
  | OpMtu mtu => Some (false, [], 0, LpReliability.set_mtu mtu s)
  end.

Fixpoint run (ops : list RelOp) (s : LpReliability) : option (list bool * list bytes * Z * LpReliability) :=
  match ops with
  | [] => Some ([], [], 0, s)
  | op :: ops =>
      match step op s with
      | None => None
      | Some (v, ws, n, s) =>
          match run ops s with
          | None => None
          | Some (vs, ws', n', s) => Some (v :: vs, ws ++ ws', n + n', s)
          end
      end
  end.

Definition wf_op (op : RelOp) : Prop :=
  match op with
  | OpSend _ pkt => wf_bytes pkt /\ zlen pkt + 2000 <= usize_max
  | OpReceive _ _ raw => wf_bytes raw
  | _ => True
  end.

Record rel_ok (s : LpReliability) : Prop := {
  ro_tracked : tracked s;
  ro_acks : Forall is_u64 (pending_acks s);
  ro_seq : 0 <= next_seq s;
  ro_recent : recent_ok (recent_recv s) (recent_recv_order s);
  ro_strategy : wf_strategy (rto_strategy (config s));
  ro_rto : rto_ok (rto_strategy (config s)) (rtt s)
}.

Definition wf_config (cfg : ReliabilityConfig) : Prop := 0 <= max_retries cfg /\ wf_strategy (rto_strategy cfg).

Lemma from_config_ok mtu cfg : wf_config cfg -> rel_ok (LpReliability.from_config mtu cfg).
Proof.
  intros [Hm Hs]. split; try done.
  - split; [|done]. split; [apply SSorted_nil|done|change (0 <= Z.max 1 (max_unacked cfg)); lia|done].
  - split; [constructor|]. intros k. cbn. rewrite lookup_empty. split; [by intros ?%not_elem_of_nil|by intros [? ?]].
  - by apply fresh_rto_ok.
Qed.

(** The receiver's half of [on_receive]. *)
Lemma on_receive_spec now now' raw s dup s' : rel_ok s -> wf_bytes raw -> LpReliability.on_receive now now' raw s = (dup, s') ->
  rel_ok s' /\ (exists evs, effect s evs s' /\ sent evs = [] /\ fates Expired evs = 0 /\ fates Evicted evs = 0) /\
  match (extract_acks raw).1 with
  | None => dup = false /\ recent_recv s' = recent_recv s
  | Some k => recent_recv s' !! k = Some now /\ (dup = true -> is_Some (recent_recv s !! k)) /\
      (forall t, recent_recv s !! k = Some t -> sat_sub now t <= rto_us (rtt s) * 1000 -> dup = true) /\
      (forall k' t, k' <> k -> recent_recv s !! k' = Some t -> sat_sub now t <= rto_us (rtt s) * 1000 -> recent_recv s' !! k' = Some t) /\
      (forall k' t, k' <> k -> recent_recv s' !! k' = Some t -> recent_recv s !! k' = Some t)
  end.
Proof.
  intros [Ht Ha Hn Hr Hst Hrto] Hwf. destruct (extract_acks_numbers raw Hwf) as [Htx Hacks]. unfold LpReliability.on_receive.
  destruct (extract_acks raw) as [tx acks]. cbn [fst snd] in *. destruct tx as [k|].
  - destruct (LpReliability.note_sequence now k s) as [d s1] eqn:Hnote.
    destruct (note_sequence_spec now k s d s1 Hr Hnote) as (Hr1 & Hk & Hdup1 & Hdup2 & Hkeep & Hback & Hp & Hrt & Hsq & He1).
    intros [= <- <-].
    destruct (on_acks_effect now' acks s1) as (evs & He & H1 & H2 & H3 & H4 & H5 & H6 & H7 & H8).
    pose proof (ef_config _ _ _ He1) as Hc1. pose proof (ef_config _ _ _ He) as Hc.
    pose proof (effect_trans _ _ _ _ _ He1 He) as Het. split_conj.
    + split; rewrite ?H5, ?H6, ?H7, ?H8, ?Hp, ?Hsq; try done; [by eapply effect_tracked| | |].
      * apply Forall_app. split; [done|]. apply Forall_singleton. by apply Htx.
      * by rewrite Hc, Hc1.
      * rewrite Hc. apply on_acks_rto; rewrite Hc1; [done|by rewrite Hrt].
    + by exists ([] ++ evs).
    + by rewrite H7.
    + done.
    + done.
    + by rewrite H7.
    + by rewrite H7.
  - intros [= <- <-]. destruct (on_acks_effect now' acks s) as (evs & He & H1 & H2 & H3 & H4 & H5 & H6 & H7 & H8).
    pose proof (ef_config _ _ _ He) as Hc. split_conj.
    + split; rewrite ?H5, ?H6, ?H7, ?H8; try done; [by eapply effect_tracked|by rewrite Hc|]. rewrite Hc. by apply on_acks_rto.
    + by exists evs.
    + done.
    + done.
Qed.

Lemma step_spec op s v ws n s' : rel_ok s -> wf_op op -> step op s = Some (v, ws, n, s') ->
  rel_ok s' /\ (exists evs, effect s evs s' /\ sent evs = ws /\ fates Acked evs = n) /\
  match op with OpReceive _ _ _ => True | _ => recent_recv s' = recent_recv s end.
Proof.
  intros Hok Hwf. pose proof Hok as [Ht Ha Hn Hr Hst Hrto]. destruct op as [now pkt|now now' raw|now|now| |mtu]; cbn [step].
  - destruct (LpReliability.on_send now pkt s) as [[ws1 s1]|] eqn:E; [|done]. intros [= <- <- <- <-]. destruct Hwf as [Hp Hz].
    destruct (on_send_effect now pkt s ws1 s1 Ht Ha Hn Hp Hz E) as (evs & He & Hs & Hac & H1 & H2 & H3 & H4 & H5).
    split; [|by split; [exists evs|]]. pose proof (ef_config _ _ _ He) as Hc.
    split; rewrite ?Hc, ?H1, ?H2, ?H3, ?H4; try done; [by eapply effect_tracked|by apply Forall_drop|lia].
  - destruct (LpReliability.on_receive now now' raw s) as [d s1] eqn:E. intros [= <- <- <- <-].
    destruct (on_receive_spec now now' raw s d s1 Hok Hwf E) as (Hok1 & (evs & He & Hs & H1 & H2) & _). split; [done|]. split; [|done].
    exists evs. split_conj; [done|done|]. destruct Ht as [Hmap Hm].
    pose proof (moves_balance _ _ _ _ _ _ Hm (ef_moves _ _ _ He) Hmap) as Hb. unfold drops in Hb. rewrite H1, H2 in Hb.
    assert (next_tx_seq s1 = next_tx_seq s) as Htx; [|lia].
    revert E. unfold LpReliability.on_receive. destruct (extract_acks raw) as [[k|] acks].
    + destruct (LpReliability.note_sequence now k s) as [d' s2] eqn:Hnote. intros [= _ <-].
      destruct (on_acks_effect now' acks s2) as (evs2 & _ & _ & _ & _ & -> & _).
      revert Hnote. unfold LpReliability.note_sequence. destruct (LpReliability.age_out _ _ _ _) as [m o].
      by destruct (m !! k); intros [= _ <-].
    + intros [= _ <-]. destruct (on_acks_effect now' acks s) as (evs2 & _ & _ & _ & _ & H & _). exact H.
  - destruct (LpReliability.take_fast_retransmits now s) as [ws1 s1] eqn:E. intros [= <- <- <- <-].
    apply fast_loop_effect in E as (evs & He & Hs & Hac & ((H1 & H2 & H3 & H4) & H5 & H6)).
    assert (effect s evs s1) as He0 by (destruct He as [? ? ? ?]; by split).
    split; [|by split; [exists evs|]]. pose proof (ef_config _ _ _ He0) as Hc. cbn in H1, H2, H3, H4, H6.
    split; rewrite ?Hc, ?H1, ?H2, ?H3, ?H4, ?H6; try done. by eapply effect_tracked.
  - destruct (LpReliability.check_retransmit now s) as [ws1 s1] eqn:E. intros [= <- <- <- <-].
    apply check_retransmit_effect in E as (evs & He & Hs & Hac & ((H1 & H2 & H3 & H4) & H5 & H6)); [|done].
    split; [|by split; [exists evs|]]. pose proof (ef_config _ _ _ He) as Hc.
    split; rewrite ?Hc, ?H1, ?H2, ?H3, ?H4, ?H6; try done. by eapply effect_tracked.
  - intros [= <- <- <- <-]. unfold LpReliability.flush_acks. destruct (pending_acks s) as [|a l] eqn:Hp.
    + split; [done|]. split; [|done]. exists []. split_conj; try done. by apply effect_refl.
    + split; [split; try done; by rewrite Hp|]. split; [|done]. exists []. split_conj; try done. by apply effect_refl.
  - intros [= <- <- <- <-]. split; [by split|]. split; [|done]. exists []. split_conj; try done. by apply effect_refl.
Qed.

Lemma run_spec ops : forall s vs ws n s', rel_ok s -> Forall wf_op ops -> run ops s = Some (vs, ws, n, s') ->
  rel_ok s' /\ exists evs, effect s evs s' /\ sent evs = ws /\ fates Acked evs = n.
Proof.
  induction ops as [|op ops IH]; intros s vs ws n s' Hok Hwf; cbn [run].
  - intros [= <- <- <- <-]. split; [done|]. exists []. split_conj; try done. by apply effect_refl.
  - apply Forall_cons in Hwf as [Hop Hops]. destruct (step op s) as [[[[v ws1] n1] s1]|] eqn:E; [|done].
    destruct (step_spec op s v ws1 n1 s1 Hok Hop E) as (Hok1 & (evs & He & Hs & Hn) & _).
    destruct (run ops s1) as [[[[vs2 ws2] n2] s2]|] eqn:Er; [|done]. intros [= <- <- <- <-].
    destruct (IH _ _ _ _ _ Hok1 Hops Er) as (Hok2 & evs' & He' & Hs' & Hn'). split; [done|].
    exists (evs ++ evs'). rewrite sent_app, fates_app, Hs, Hs', Hn, Hn'. split_conj; try done. by eapply effect_trans.
Qed.

Lemma on_receive_clears now now' raw s k : rel_ok s -> k ∈ (extract_acks raw).2 ->
  u_get k (unacked (LpReliability.on_receive now now' raw s).2) = None /\
  next_tx_seq (LpReliability.on_receive now now' raw s).2 = next_tx_seq s.
Proof.
  intros Hok Hk. pose proof (mo_sorted _ _ _ (proj1 (ro_tracked _ Hok))) as Hs. unfold LpReliability.on_receive.
  destruct (extract_acks raw) as [tx acks]. cbn [snd] in Hk.
  assert (forall s1, unacked s1 = unacked s -> next_tx_seq s1 = next_tx_seq s ->
    u_get k (unacked (fold_left (LpReliability.on_ack now') acks s1)) = None /\
    next_tx_seq (fold_left (LpReliability.on_ack now') acks s1) = next_tx_seq s) as Hany.
  { intros s1 H1 H2. split; [apply on_acks_clear; [by rewrite H1|by left]|].
    destruct (on_acks_effect now' acks s1) as (_ & _ & _ & _ & _ & -> & _). done. }
  destruct tx as [k0|]; [|by apply Hany]. unfold LpReliability.note_sequence.
  destruct (LpReliability.age_out _ _ _ _) as [m o]. by destruct (m !! k0); apply Hany.
Qed.

Lemma on_receive_pending now now' raw s :
  pending_acks (LpReliability.on_receive now now' raw s).2 = pending_acks s ++ option_list (extract_acks raw).1.
Proof.
  unfold LpReliability.on_receive. destruct (extract_acks raw) as [[k|] acks]; cbn [fst option_list].
  - unfold LpReliability.note_sequence. destruct (LpReliability.age_out _ _ _ _) as [m o].
    destruct (m !! k); cbn [snd];
      match goal with |- pending_acks (fold_left _ _ ?s1) = _ =>
        destruct (on_acks_effect now' acks s1) as (_ & _ & _ & _ & _ & _ & _ & -> & _) end; done.
  - cbn [snd]. destruct (on_acks_effect now' acks s) as (_ & _ & _ & _ & _ & _ & _ & -> & _). by rewrite app_nil_r.
Qed.

(** What is acknowledged is never sent again. *)
Lemma acked_quiet now now' raw s k ops vs ws n s' : rel_ok s -> wf_bytes raw -> k ∈ (extract_acks raw).2 -> k < next_tx_seq s ->
  Forall wf_op ops -> run ops (LpReliability.on_receive now now' raw s).2 = Some (vs, ws, n, s') -> sends k ws = 0.
Proof.
  intros Hok Hraw Hk Hlt Hops Hr. destruct (on_receive_clears now now' raw s k Hok Hk) as [Hno Htx].
  destruct (LpReliability.on_receive now now' raw s) as [d s1] eqn:E. cbn [snd] in *.
  destruct (on_receive_spec now now' raw s d s1 Hok Hraw E) as (Hok1 & _). destruct (ro_tracked _ Hok1) as [Hmap Hm].
  destruct (run_spec ops s1 vs ws n s' Hok1 Hops Hr) as (_ & evs & He & <- & _).
  eapply moves_gone; [exact Hm|apply He|done|lia|done].
Qed.

(** *** Sizes *)

Lemma varu64_size_small v : v < 65536 -> varu64_size v <= 3.
Proof. intros H. unfold varu64_size. destruct (_ <? 253); [lia|]. by destruct (Z.ltb_spec v 0x10000); [|lia]. Qed.

Lemma zlen_nni_small v : v <= u32_max -> zlen (nni_bytes v) <= 4.
Proof.
  intros H. rewrite nni_bytes_spec, zlen_be_encode. unfold nni_width. change u32_max with 0xFFFFFFFF in H.
  repeat bcase_step; lia.
Qed.

(** A short number under a type of one byte, or of three. *)
Lemma zlen_nni_elem t c : zlen (tlv_bytes t (nni_bytes c)) = varu64_size t + 1 + zlen (nni_bytes c).
Proof.
  rewrite zlen_tlv_bytes. unfold tlv_size. pose proof (zlen_nni_bytes c). unfold varu64_size at 2.
  destruct (Z.ltb_spec (zlen (nni_bytes c)) 253); lia.
Qed.

Lemma zlen_acks_small l : Forall (fun a => a <= u32_max) l -> zlen (elems_wire (ack_elems l)) <= 8 * zlen l.
Proof.
  induction 1 as [|a l Ha _ IH]; [done|]. cbn [ack_elems map]. fold (ack_elems l).
  rewrite elems_wire_cons, zlen_app, zlen_cons. cbn [fst snd]. rewrite zlen_nni_elem.
  pose proof (zlen_nni_small a Ha). change (varu64_size lp_type.LP_ACK) with 3. lia.
Qed.

(** The overhead of a frame is at most [FRAG_OVERHEAD] and eight bytes per
    acknowledgement. *)
Lemma zlen_reliable fr tx fi l :
  Forall (fun a => a <= u32_max) l -> zlen fr + 50 + 10 * zlen l <= 65535 ->
  zlen (encode_lp_reliable fr tx fi l) <= zlen fr + FRAG_OVERHEAD + 8 * zlen l.
Proof.
  intros Hl Hz. pose proof (zlen_nonneg fr). pose proof (zlen_nonneg l). rewrite encode_reliable_wire by (unfold_bounds; lia).
  rewrite zlen_tlv_bytes. unfold tlv_size at 1. change (varu64_size lp_type.LP_PACKET) with 1.
  assert (zlen (elems_wire (reliable_elems fi l tx ++ frag_elems (Some fr))) <= zlen fr + 46 + 8 * zlen l) as Hv.
  { unfold reliable_elems. rewrite !zlen_elems_wire_app. cbn [frag_elems]. rewrite !elems_wire_one. cbn [fst snd].
    rewrite zlen_nni_elem, (zlen_tlv_bytes lp_type.LP_FRAGMENT). unfold tlv_size.
    change (varu64_size lp_type.LP_TX_SEQUENCE) with 3. change (varu64_size lp_type.LP_FRAGMENT) with 1.
    pose proof (varu64_size_small (zlen fr) ltac:(lia)). pose proof (zlen_acks_small l Hl). pose proof (zlen_nni_bytes tx).
    assert (zlen (elems_wire (frag_info_elems fi)) <= 30) as Hi; [|lia].
    destruct fi as [[[sq i] c]|]; cbn [frag_info_elems]; [|by vm_compute].
    rewrite !elems_wire_cons, !zlen_app. cbn [fst snd]. change (elems_wire []) with (@nil Z). rewrite zlen_nil.
    rewrite zlen_tlv_bytes, zlen_be_encode, !zlen_nni_elem.
    change (tlv_size lp_type.LP_SEQUENCE (Z.of_nat 8)) with 10. change (varu64_size lp_type.LP_FRAG_INDEX) with 1.
    change (varu64_size lp_type.LP_FRAG_COUNT) with 1. pose proof (zlen_nni_bytes i). pose proof (zlen_nni_bytes c). lia. }
  pose proof (varu64_size_small (zlen (elems_wire (reliable_elems fi l tx ++ frag_elems (Some fr)))) ltac:(lia)).
  unfold FRAG_OVERHEAD. lia.
Qed.

(** *** Repeated frames *)

(** A reception within [w] nanoseconds after [t0], or no reception. *)
Definition in_window (t0 w : Z) (op : RelOp) : Prop :=
  match op with OpReceive now _ _ => t0 <= now <= t0 + w | _ => True end.

Definition remembers (k t0 : Z) (s : LpReliability) : Prop := exists t, recent_recv s !! k = Some t /\ t0 <= t.

Lemma step_remembers k t0 op s v ws n s' : rel_ok s -> wf_op op ->
  in_window t0 (rto_floor (rto_strategy (config s)) * 1000) op -> remembers k t0 s -> step op s = Some (v, ws, n, s') ->
  remembers k t0 s' /\ match op with OpReceive _ _ raw => (extract_acks raw).1 = Some k -> v = true | _ => True end.
Proof.
  intros Hok Hwf Hw (t & Ht & Hle) E. destruct (step_spec op s v ws n s' Hok Hwf E) as (_ & _ & Hsame).
  destruct op as [| now now' raw | | | |]; try (split; [by exists t; rewrite Hsame|done]).
  cbn [step] in E. destruct (LpReliability.on_receive now now' raw s) as [d s1] eqn:Er. simplify_eq.
  destruct (on_receive_spec now now' raw s v s' Hok Hwf Er) as (_ & _ & Hx). cbn in Hw.
  destruct (ro_rto _ Hok) as [[Hfl _] _]. assert (sat_sub now t <= rto_us (rtt s) * 1000) as Hin by (unfold sat_sub; lia).
  destruct ((extract_acks raw).1) as [k'|]; [|destruct Hx as [_ Hx]; split; [by exists t; rewrite Hx|done]].
  destruct Hx as (H1 & H2 & H3 & H4 & H5). destruct (decide (k = k')) as [<-|Hne].
  - split; [|intros _; by eapply H3]. exists now. split; [done|lia].
  - split; [|intros [= ->]; done]. exists t. split; [by apply H4|done].
Qed.

Lemma run_remembers k t0 ops : forall s vs ws n s', rel_ok s -> Forall wf_op ops ->
  Forall (in_window t0 (rto_floor (rto_strategy (config s)) * 1000)) ops -> remembers k t0 s -> run ops s = Some (vs, ws, n, s') ->
  remembers k t0 s' /\ rel_ok s' /\ config s' = config s.
Proof.
  induction ops as [|op ops IH]; intros s vs ws n s' Hok Hwf Hw Hr; cbn [run]; [by intros [= _ _ _ <-]|].
  apply Forall_cons in Hwf as [Hop Hops]. apply Forall_cons in Hw as [Hwo Hws].
  destruct (step op s) as [[[[v ws1] n1] s1]|] eqn:E; [|done].
  destruct (step_spec op s v ws1 n1 s1 Hok Hop E) as (Hok1 & (evs & He & _) & _).
  destruct (step_remembers k t0 op s v ws1 n1 s1 Hok Hop Hwo Hr E) as [Hr1 _].
  pose proof (ef_config _ _ _ He) as Hc. destruct (run ops s1) as [[[[vs2 ws2] n2] s2]|] eqn:Er; [|done]. intros [= _ _ _ <-].
  rewrite <- Hc in Hws |- *. by eapply IH.
Qed.

(** A reception of this TxSequence. *)
Definition receives (k : Z) (op : RelOp) : Prop :=
  match op with OpReceive _ _ raw => (extract_acks raw).1 = Some k | _ => False end.

Lemma run_unseen k ops : forall s vs ws n s', rel_ok s -> Forall wf_op ops -> Forall (fun op => ~ receives k op) ops ->
  recent_recv s !! k = None -> run ops s = Some (vs, ws, n, s') -> recent_recv s' !! k = None /\ rel_ok s'.
Proof.
  induction ops as [|op ops IH]; intros s vs ws n s' Hok Hwf Hw Hr; cbn [run]; [by intros [= _ _ _ <-]|].
  apply Forall_cons in Hwf as [Hop Hops]. apply Forall_cons in Hw as [Hwo Hws].
  destruct (step op s) as [[[[v ws1] n1] s1]|] eqn:E; [|done].
  destruct (step_spec op s v ws1 n1 s1 Hok Hop E) as (Hok1 & _ & Hsame).
  destruct (run ops s1) as [[[[vs2 ws2] n2] s2]|] eqn:Er; [|done]. intros [= _ _ _ <-].
  eapply IH; [exact Hok1|exact Hops|exact Hws| |exact Er].
  destruct op as [| now now' raw | | | |]; try (by rewrite Hsame).
  cbn [step] in E. destruct (LpReliability.on_receive now now' raw s) as [d s3] eqn:Ev. simplify_eq.
  destruct (on_receive_spec now now' raw s v s1 Hok Hop Ev) as (_ & _ & Hx). cbn in Hwo.
  destruct ((extract_acks raw).1) as [k'|]; [|destruct Hx as [_ Hx]; by rewrite Hx].
  destruct Hx as (_ & _ & _ & _ & H5). destruct (recent_recv s1 !! k) as [t|] eqn:Et; [|done].
  rewrite (H5 k t) in Hr; [done| |done]. intros ->. by apply Hwo.
Qed.

(** ** Properties *)

(** C25: the invariant of link reliability.  Whatever is sent, received,
    acknowledged and retransmitted, in any order, from a fresh state: the frames
    kept are at most the configured number, each under its own TxSequence and
    retransmitted no more than allowed; the table of received sequences and its
    queue agree; the timeout stays between the bounds of its strategy; and every
    frame ever sent is accounted for, as kept, acknowledged, given up
    ([rto_expirations]) or evicted ([unacked_evictions]). *)
Theorem reliability_invariant (mtu : Z) (cfg : ReliabilityConfig) (ops : list RelOp) (vs : list bool) (ws : list bytes)
    (acked : Z) (s : LpReliability) :
  wf_config cfg -> Forall wf_op ops -> run ops (LpReliability.from_config mtu cfg) = Some (vs, ws, acked, s) ->
  zlen (unacked s) <= Z.max 1 (max_unacked cfg) /\
  (forall k e, u_get k (unacked s) = Some e ->
     0 <= k < next_tx_seq s /\ (extract_acks (u_wire e)).1 = Some k /\ 0 <= retx_count e <= max_retries cfg) /\
  (NoDup (recent_recv_order s) /\ forall k, k ∈ recent_recv_order s <-> is_Some (recent_recv s !! k)) /\
  rto_floor (rto_strategy cfg) <= rto_us (rtt s) <= rto_ceiling (rto_strategy cfg) /\
  next_tx_seq s = zlen (unacked s) + acked + rto_expirations (counters s) + unacked_evictions (counters s).
Proof.
  intros Hcfg Hops Hr. pose proof (from_config_ok mtu cfg Hcfg) as H0.
  destruct (run_spec ops _ vs ws acked s H0 Hops Hr) as ([[Hmap Hm] Ha Hn Hrec Hst Hrto] & evs & He & Hs & Hac).
  pose proof (ef_config _ _ _ He) as Hc. cbn in Hc. rewrite Hc in *. destruct Hmap as [Hwf Hf Hl Ht].
  split_conj; [done|done|apply Hrec|apply Hrec|apply Hrto|apply Hrto|].
  destruct (ro_tracked _ H0) as [Hmap0 Hm0].
  pose proof (moves_balance _ _ _ _ _ _ Hm0 (ef_moves _ _ _ He) Hmap0) as Hb. unfold drops in Hb.
  rewrite (ef_expired _ _ _ He), (ef_evicted _ _ _ He).
  change (next_tx_seq s - zlen (unacked s) - (fates Acked evs + fates Expired evs + fates Evicted evs) = 0 - 0) in Hb. cbn. lia.
Qed.

(** C30: retransmission is bounded.  Over any run, whatever the peer sends, the
    frames that carry a given TxSequence go out at most once more than the
    configured number of retries, by timeout and by fast retransmission
    together. *)
Theorem transmissions_bounded (mtu : Z) (cfg : ReliabilityConfig) (ops : list RelOp) (vs : list bool) (ws : list bytes)
    (acked : Z) (s : LpReliability) (t : Z) :
  wf_config cfg -> Forall wf_op ops -> run ops (LpReliability.from_config mtu cfg) = Some (vs, ws, acked, s) ->
  sends t ws <= 1 + max_retries cfg.
Proof.
  intros Hcfg Hops Hr. pose proof (from_config_ok mtu cfg Hcfg) as H0. destruct (ro_tracked _ H0) as [Hmap Hm].
  destruct (run_spec ops _ vs ws acked s H0 Hops Hr) as (_ & evs & He & <- & _).
  pose proof (moves_spent _ _ _ _ _ _ t Hm (ef_moves _ _ _ He) Hmap 0) as [_ [_ Hle]]; [|exact Hle].
  unfold spent. split_conj; [done|done|]. cbn in Hm |- *. lia.
Qed.

(** A peer's retransmission is recognised, and nothing else is.  If a frame
    is received, and again within the smallest timeout of the strategy, the second
    is reported as a duplicate, whatever else is sent and received in between;
    and a frame whose TxSequence has not been received before is never so
    reported. *)
Theorem duplicates_recognised (mtu : Z) (cfg : ReliabilityConfig) (ops ops' : list RelOp) (t0 t0' t1 t1' k : Z)
    (raw raw' : bytes) (o o' : list bool * list bytes * Z) (s s1 : LpReliability) :
  wf_config cfg -> Forall wf_op ops -> Forall wf_op ops' -> wf_bytes raw -> wf_bytes raw' ->
  (extract_acks raw).1 = Some k -> (extract_acks raw').1 = Some k ->
  let w := rto_floor (rto_strategy cfg) * 1000 in
  Forall (in_window t0 w) ops' -> t0 <= t1 <= t0 + w ->
  run ops (LpReliability.from_config mtu cfg) = Some (o, s) ->
  run ops' (LpReliability.on_receive t0 t0' raw s).2 = Some (o', s1) ->
  (LpReliability.on_receive t1 t1' raw' s1).1 = true /\
  (Forall (fun op => ~ receives k op) ops -> (LpReliability.on_receive t0 t0' raw s).1 = false).
Proof.
  intros Hcfg Hops Hops' Hraw Hraw' Hk Hk' w Hw Ht Hr Hr'. pose proof (from_config_ok mtu cfg Hcfg) as H0.
  destruct o as [[vs ws] n], o' as [[vs' ws'] n']. destruct (run_spec ops _ vs ws n s H0 Hops Hr) as (Hok & evs & He & _).
  pose proof (ef_config _ _ _ He) as Hc. cbn in Hc. destruct (LpReliability.on_receive t0 t0' raw s) as [d s0] eqn:Ev. cbn [fst snd] in *.
  destruct (on_receive_spec t0 t0' raw s d s0 Hok Hraw Ev) as (Hok0 & (evs0 & He0 & _) & Hx). rewrite Hk in Hx.
  destruct Hx as (Hseen & Hdup & _). pose proof (ef_config _ _ _ He0) as Hc0. rewrite Hc in Hc0. split.
  - destruct (run_remembers k t0 ops' s0 vs' ws' n' s1 Hok0 Hops') as (Hr1 & Hok1 & Hc1); [by rewrite Hc0|by exists t0|done|].
    destruct (LpReliability.on_receive t1 t1' raw' s1) as [d1 s2] eqn:Ev1.
    destruct (step_remembers k t0 (OpReceive t1 t1' raw') s1 d1 [] (zlen (unacked s1) - zlen (unacked s2)) s2 Hok1) as [_ Hd];
      [done|cbn; rewrite Hc1, Hc0; done|done|cbn; by rewrite Ev1|]. by apply Hd.
  - intros Hno. destruct (run_unseen k ops _ vs ws n s H0 Hops Hno) as [Hnone _]; [apply lookup_empty|done|].
    destruct d; [|done]. destruct (Hdup eq_refl) as [t Hd]. by rewrite Hnone in Hd.
Qed.

(** The acknowledgements that go out with the next packet, and the payload of a
    fragment beside them. *)
Definition piggybacked (s : LpReliability) : list Z :=
  take (Z.to_nat (Z.min (zlen (pending_acks s)) MAX_PIGGYBACKED_ACKS)) (pending_acks s).
Definition send_cap (s : LpReliability) : Z := sat_sub (sat_sub (r_mtu s) FRAG_OVERHEAD) (zlen (piggybacked s) * 10).

Lemma piggybacked_facts s : Forall is_u64 (pending_acks s) ->
  Forall is_u64 (piggybacked s) /\ zlen (piggybacked s) <= MAX_PIGGYBACKED_ACKS.
Proof.
  intros Ha. split; [by apply Forall_take|]. unfold piggybacked, zlen, MAX_PIGGYBACKED_ACKS. rewrite length_take. lia.
Qed.

Lemma send_fragments_length now net fc cap pkt acks idxs : forall s ws s',
  LpReliability.send_fragments now net fc cap pkt acks idxs s = Some (ws, s') ->
  length ws = length idxs /\ (1 <= zlen idxs -> next_tx_seq s + zlen idxs <= u64_max).
Proof.
  induction idxs as [|i idxs IH]; intros s ws s'; cbn [LpReliability.send_fragments].
  - intros [= <- <-]. rewrite zlen_nil. split; [done|lia].
  - destruct (LpReliability.send_fragment _ _ _ _ _ _ _) as [[w s1]|] eqn:E1; [|done].
    destruct (LpReliability.send_fragments _ _ _ _ _ _ _ s1) as [[ws1 s2]|] eqn:E2; [|done]. intros [= <- <-].
    destruct (IH s1 ws1 s2 E2) as [Hl Ht]. revert E1. unfold LpReliability.send_fragment.
    destruct (Z.ltb_spec u64_max (next_tx_seq s + 1)) as [|Hlt]; [done|]. destruct (LpReliability.evict_while _ _).
    intros [= _ <-]. cbn [next_tx_seq set_unacked set_counters set_seqs] in Ht. rewrite zlen_cons. cbn [length].
    pose proof (zlen_nonneg idxs). split; [lia|]. intros _. destruct (Z.eq_dec (zlen idxs) 0); lia.
Qed.

(** [on_send] when there is room for a payload. *)
Lemma on_send_frames now pkt s ws s' :
  rel_ok s -> wf_bytes pkt -> zlen pkt + 2000 <= usize_max -> 1 <= send_cap s ->
  LpReliability.on_send now pkt s = Some (ws, s') ->
  let n := div_ceil (zlen pkt) (send_cap s) in
  length ws = Z.to_nat n /\ next_seq s + n <= u64_max /\ (1 <= n -> next_tx_seq s + n <= u64_max) /\
  next_tx_seq s' = next_tx_seq s + n /\ next_seq s' = next_seq s + n /\
  forall i, 0 <= i < n ->
    ws !! Z.to_nat i = Some (frame_of (next_seq s) n (send_cap s) pkt (piggybacked s) (next_tx_seq s + i) i).
Proof.
  intros [Ht Ha Hn _ _ _] Hp Hz Hcap Hs n. destruct (piggybacked_facts s Ha) as [Hpa Hpn].
  unfold LpReliability.on_send in Hs. fold (piggybacked s) in Hs. cbv zeta in Hs. cbn [r_mtu set_pending_acks next_seq] in Hs.
  fold (send_cap s) in Hs. rewrite (proj2 (Z.eqb_neq _ _)) in Hs by lia. fold n in Hs.
  destruct (Z.ltb_spec u64_max (next_seq s + n)) as [|Hlt]; [done|].
  destruct (div_ceil_spec (zlen pkt) (send_cap s) (zlen_nonneg _) Hcap) as [_ H0]. fold n in H0.
  pose proof Hs as Hlen. apply send_fragments_length in Hlen as [Hlen Htxm].
  apply send_fragments_effect in Hs as (evs & He & _ & _ & _ & Hns & Htx & Hl); try done.
  - cbn [next_seq next_tx_seq set_seqs set_pending_acks] in *. rewrite length_seqZ in *.
    rewrite Hns, Htx. unfold zlen. rewrite length_seqZ, Z2Nat.id by done. split_conj; try done; [|].
    + unfold zlen in Htxm. rewrite length_seqZ, Z2Nat.id in Htxm by done. exact Htxm.
    + intros i Hi. rewrite (Hl (Z.to_nat i) i); [by rewrite Z2Nat.id by lia|].
      apply lookup_seqZ. lia.
  - apply List.Forall_forall. intros i Hi. apply list_elem_of_In, elem_of_seqZ in Hi. lia.
Qed.

Lemma send_cap_bounds s : 1 <= send_cap s -> send_cap s + FRAG_OVERHEAD + 10 * zlen (piggybacked s) <= r_mtu s.
Proof. unfold send_cap, sat_sub. pose proof (zlen_nonneg (piggybacked s)). lia. Qed.

(** A run leaves a state the lemmas above apply to. *)
Lemma reach_ok mtu cfg ops o s : wf_config cfg -> Forall wf_op ops ->
  run ops (LpReliability.from_config mtu cfg) = Some (o, s) -> rel_ok s.
Proof.
  intros Hcfg Hops Hr. destruct o as [[vs ws] n]. by destruct (run_spec ops _ vs ws n s (from_config_ok mtu cfg Hcfg) Hops Hr).
Qed.

(** *** A frame that is not acknowledged is sent again *)

(** The frame is kept, and has gone out once, at time [t]. *)
Definition sent_once (k : Z) (w : bytes) (t : Z) (s : LpReliability) : Prop :=
  exists e, u_get k (unacked s) = Some e /\ u_wire e = w /\ last_sent e = t /\ retx_count e = 0.

Lemma evict_none max u : zlen u < max -> LpReliability.evict_while max u = (u, 0).
Proof. destruct u as [|e u]; intros Hl; cbn [LpReliability.evict_while]; [done|]. by destruct (Z.leb_spec max (zlen (e :: u))); [lia|]. Qed.

Lemma send_fragments_once now net fc cap pkt acks idxs : forall s ws s',
  bt_wf Z.compare (unacked s) -> (forall k e, u_get k (unacked s) = Some e -> k < next_tx_seq s) ->
  zlen (unacked s) + zlen idxs <= max_unacked (config s) ->
  LpReliability.send_fragments now net fc cap pkt acks idxs s = Some (ws, s') ->
  (forall k w t, k < next_tx_seq s -> sent_once k w t s -> sent_once k w t s') /\
  forall j w, ws !! j = Some w -> sent_once (next_tx_seq s + Z.of_nat j) w now s'.
Proof.
  induction idxs as [|i idxs IH]; intros s ws s' Hwf Hlt Hlen; cbn [LpReliability.send_fragments]; [by intros [= <- <-]|].
  rewrite zlen_cons in Hlen. pose proof (zlen_nonneg idxs).
  destruct (LpReliability.send_fragment _ _ _ _ _ _ _) as [[w s1]|] eqn:E1; [|done].
  destruct (LpReliability.send_fragments _ _ _ _ _ _ _ s1) as [[ws1 s2]|] eqn:E2; [|done]. intros [= <- <-].
  revert E1. unfold LpReliability.send_fragment. destruct (u64_max <? _); [done|]. rewrite evict_none by lia.
  intros [= Hw <-]. set (k0 := next_tx_seq s) in *.
  assert (u_get k0 (unacked s) = None) as Hnone.
  { destruct (u_get k0 (unacked s)) as [e|] eqn:E; [|done]. apply Hlt in E. lia. }
  apply IH in E2 as [Hold Hnew]; cbn [unacked next_tx_seq config set_unacked set_counters set_seqs] in *.
  - split.
    + intros k w' t Hk (e & He & He'). apply Hold; [lia|]. exists e. cbn [unacked set_unacked]. rewrite u_get_insert by done.
      by rewrite decide_False by lia.
    + intros [|j] w' Hj.
      * injection Hj as <-. apply Hold; [lia|]. eexists. cbn [unacked set_unacked]. rewrite u_get_insert by done.
        rewrite decide_True by lia. split; [done|]. by rewrite Hw.
      * replace (k0 + Z.of_nat (S j)) with (k0 + 1 + Z.of_nat j) by lia. by apply Hnew.
  - by apply (bt_insert_wf Z.compare).
  - intros k e. rewrite u_get_insert by done. destruct (decide (k = k0)) as [->|]; [lia|]. intros He%Hlt. lia.
  - rewrite bt_insert_length, Hnone by (done || apply _). lia.
Qed.

Lemma on_send_once now pkt s ws s' :
  rel_ok s -> wf_bytes pkt -> zlen pkt + 2000 <= usize_max -> 1 <= send_cap s ->
  LpReliability.on_send now pkt s = Some (ws, s') -> zlen (unacked s) + zlen ws <= max_unacked (config s) ->
  forall i, (i < length ws)%nat -> sent_once (next_tx_seq s + Z.of_nat i) (ws !!! i) now s'.
Proof.
  intros Hok Hp Hz Hcap Hs Hroom i Hi. pose proof (on_send_frames now pkt s ws s' Hok Hp Hz Hcap Hs) as (Hl & _).
  destruct (ro_tracked _ Hok) as [[Hwf Hf _ _] _].
  unfold LpReliability.on_send in Hs. fold (piggybacked s) in Hs. cbv zeta in Hs. cbn [r_mtu set_pending_acks next_seq] in Hs.
  fold (send_cap s) in Hs. rewrite (proj2 (Z.eqb_neq _ _)) in Hs by lia.
  destruct (u64_max <? _); [done|]. apply send_fragments_once in Hs as [_ Hs]; cbn [unacked next_tx_seq config set_seqs set_pending_acks] in *.
  - apply Hs. by apply list_lookup_lookup_total_lt.
  - done.
  - intros k e He. apply Hf in He. lia.
  - change (zlen (unacked s) + Z.of_nat (length (seqZ 0 (div_ceil (zlen pkt) (send_cap s)))) <= max_unacked (config s)).
    by rewrite length_seqZ, <- Hl.
Qed.

Lemma on_ack_once now s a k w t :
  bt_wf Z.compare (unacked s) -> sent_once k w t s -> a = k \/ sent_once k w t (LpReliability.on_ack now s a).
Proof.
  intros Hwf (e & He & H1 & H2 & H3). destruct (decide (a = k)) as [|Hne]; [by left|right].
  assert (bt_wf Z.compare (LpReliability.bump_below a (unacked s))) as Hwf' by by apply bt_wf_map.
  assert (sent_once k w t (set_unacked s (LpReliability.bump_below a (unacked s)))) as (e' & He' & Hr).
  { exists (LpReliability.bump_entry a k e). cbn [unacked set_unacked]. rewrite u_get_bump, He. split; [done|].
    destruct (bump_same a k e) as [-> ->]. unfold LpReliability.bump_entry. by destruct (k <? a). }
  unfold LpReliability.on_ack. cbn [unacked set_candidates]. cbn [unacked set_unacked] in He'.
  destruct (u_get a _) as [ea|]; [|by exists e'].
  assert (u_get k (u_remove a (LpReliability.bump_below a (unacked s))) = Some e') as Hg.
  { rewrite u_get_remove by done. by rewrite decide_False by done. }
  destruct (is_retx ea); by exists e'.
Qed.

Lemma on_acks_once now acks k w t : forall s, tracked s -> sent_once k w t s ->
  k ∈ acks \/ sent_once k w t (fold_left (LpReliability.on_ack now) acks s).
Proof.
  induction acks as [|a acks IH]; intros s Ht Hs; cbn [fold_left]; [by right|].
  destruct (on_ack_once now s a k w t) as [->|Hs1]; [apply Ht|done|left; by left|].
  destruct (on_ack_effect now s a) as (evs & He & _).
  destruct (IH _ (effect_tracked _ _ _ He Ht) Hs1); [left; by right|by right].
Qed.

Lemma on_receive_once now now' raw k w t s : rel_ok s -> sent_once k w t s ->
  k ∈ (extract_acks raw).2 \/ sent_once k w t (LpReliability.on_receive now now' raw s).2.
Proof.
  intros Hok Hs. unfold LpReliability.on_receive. destruct (extract_acks raw) as [tx acks]. cbn [snd].
  assert (forall s1, unacked s1 = unacked s -> next_tx_seq s1 = next_tx_seq s -> config s1 = config s ->
    k ∈ acks \/ sent_once k w t (fold_left (LpReliability.on_ack now') acks s1)) as Hgo.
  { intros s1 E1 E2 E3. apply on_acks_once; [|unfold sent_once; by rewrite E1].
    destruct (ro_tracked _ Hok). split; by rewrite ?E1, ?E2, ?E3. }
  destruct tx as [sq|]; [|by apply Hgo]. unfold LpReliability.note_sequence.
  destruct (LpReliability.age_out _ _ _ _) as [m order]. destruct (m !! sq); cbn [snd]; by apply Hgo.
Qed.

Lemma fast_loop_once now k w t cands : forall s ws s',
  bt_wf Z.compare (unacked s) -> 1 <= max_retries (config s) -> sent_once k w t s ->
  LpReliability.fast_loop now cands s = (ws, s') -> w ∈ ws \/ sent_once k w t s'.
Proof.
  induction cands as [|c cands IH]; intros s ws s' Hwf Hm (e & He & H1 & H2 & H3); cbn [LpReliability.fast_loop].
  { intros [= <- <-]. right. by exists e. }
  destruct (u_get c (unacked s)) as [ec|] eqn:Hc; [|apply IH; [done|done|by exists e]].
  destruct (Z.leb_spec (max_retries (config s)) (retx_count ec)).
  - apply IH; [by apply (bt_remove_wf Z.compare)|done|]. exists e. cbn [unacked set_unacked set_counters]. rewrite u_get_remove by done.
    rewrite decide_False; [done|]. intros ->. rewrite He in Hc. injection Hc as <-. lia.
  - destruct (LpReliability.fast_loop now cands _) as [ws1 s1] eqn:El. intros [= <- <-].
    destruct (decide (k = c)) as [->|Hne].
    { rewrite He in Hc. injection Hc as <-. left. rewrite H1. by left. }
    apply IH in El as [Hin|Hs]; [left; by right|by right|by apply (bt_insert_wf Z.compare)|done|].
    exists e. cbn [unacked set_unacked set_counters]. rewrite u_get_insert by done. by rewrite decide_False.
Qed.

Lemma retransmit_all_once now k w t seqs : forall s ws s',
  bt_wf Z.compare (unacked s) -> sent_once k w t s -> LpReliability.retransmit_all now seqs s = (ws, s') ->
  w ∈ ws \/ (k ∉ seqs) /\ sent_once k w t s'.
Proof.
  induction seqs as [|c seqs IH]; intros s ws s' Hwf (e & He & H1 & H2 & H3); cbn [LpReliability.retransmit_all].
  { intros [= <- <-]. right. split; [apply not_elem_of_nil|by exists e]. }
  destruct (u_get c (unacked s)) as [ec|] eqn:Hc.
  - destruct (LpReliability.retransmit_all now seqs _) as [ws1 s1] eqn:El. intros [= <- <-].
    destruct (decide (k = c)) as [->|Hne].
    { rewrite He in Hc. injection Hc as <-. left. rewrite H1. by left. }
    apply IH in El as [Hin|[Hn Hs]]; [left; by right|right; split; [by apply not_elem_of_cons|done]|by apply (bt_insert_wf Z.compare)|].
    exists e. cbn [unacked set_unacked]. rewrite u_get_insert by done. by rewrite decide_False.
  - intros El. apply IH in El as [Hin|[Hn Hs]]; [by left| |done|by exists e].
    right. split; [|done]. apply not_elem_of_cons. split; [intros ->; congruence|done].
Qed.

(** The timer: a frame sent once is not given up; it is sent again when its time
    has come and no more frames are kept than a turn sends. *)
Lemma check_retransmit_once now k w t s ws s' :
  tracked s -> 1 <= max_retries (config s) -> sent_once k w t s -> LpReliability.check_retransmit now s = (ws, s') ->
  w ∈ ws \/ sent_once k w t s' /\ (t + rto_us (rtt s) * 1000 <= now -> max_retx_per_tick (config s) < zlen (unacked s)).
Proof.
  intros Ht Hm (e & He & H1 & H2 & H3). pose proof Ht as [[Hwf _ _ _] _]. unfold LpReliability.check_retransmit.
  set (due := List.filter _ (unacked s)). assert (bt_wf Z.compare due) as Hdue by by apply bt_wf_filter.
  set (expired := map fst (List.filter (fun e => max_retries (config s) <=? retx_count e.2) due)).
  set (retx := map fst (List.filter (fun e => negb (max_retries (config s) <=? retx_count e.2)) due)).
  assert (forall k e, u_get k due = Some e -> u_get k (unacked s) = Some e) as Hsub.
  { intros k' e' He'. apply bt_elem_of in He'; [|apply _|done]. apply list_elem_of_In, filter_In in He' as [He' _].
    apply bt_elem_of; [apply _|done|]. by apply list_elem_of_In. }
  assert (k ∉ expired) as Hex.
  { intros Hk. apply (bt_keys_elem Z.compare) in Hk as (e2 & He2 & Hge); [|done]. apply Hsub in He2. cbn in Hge.
    rewrite He in He2. injection He2 as <-. apply Z.leb_le in Hge. lia. }
  destruct (expire_all_effect expired s Ht) as (evs & Hef & _ & _ & _ & Hget).
  { by apply (bt_keys_nodup Z.compare). }
  { intros k' Hk'. apply (bt_keys_elem Z.compare) in Hk' as (e' & He' & _); [|done]. exists e'. by apply Hsub. }
  intros Hl. apply (retransmit_all_once now k w t) in Hl as [Hin|[Hn Hs]]; [by left| | |].
  - right. split; [done|]. intros Hnow. destruct (Z.le_gt_cases (zlen (unacked s)) (max_retx_per_tick (config s))) as [Hle|]; [|done].
    exfalso. apply Hn. assert (zlen retx <= zlen (unacked s)) as Hlen.
    { unfold retx, due, zlen. rewrite length_map. apply Nat2Z.inj_le. etrans; apply List.filter_length_le. }
    rewrite take_ge by (unfold zlen in *; lia). apply list_elem_of_In, in_map_iff. exists (k, e). split; [done|].
    apply filter_In. split; [apply filter_In; split|].
    + apply list_elem_of_In. apply (bt_elem_of Z.compare k e); [done|exact He].
    + cbn. unfold LpReliability.is_due, sat_sub. rewrite H2. apply Z.leb_le. lia.
    + cbn. rewrite H3. apply negb_true_iff, Z.leb_gt. lia.
  - apply (effect_tracked _ _ _ Hef Ht).
  - exists e. by rewrite Hget.
Qed.

Definition acknowledges (k : Z) (op : RelOp) : Prop :=
  match op with OpReceive _ _ raw => k ∈ (extract_acks raw).2 | _ => False end.
Definition no_send (op : RelOp) : Prop := match op with OpSend _ _ => False | _ => True end.

Lemma step_once op k w t s v ws n s' : rel_ok s -> wf_op op -> no_send op -> 1 <= max_retries (config s) ->
  sent_once k w t s -> step op s = Some (v, ws, n, s') -> acknowledges k op \/ w ∈ ws \/ sent_once k w t s'.
Proof.
  intros Hok Hwf Hns Hm Hs. pose proof (mo_sorted _ _ _ (proj1 (ro_tracked _ Hok))) as Hb.
  destruct op as [|now now' raw|now|now| |m]; cbn [step acknowledges]; try done.
  - pose proof (on_receive_once now now' raw k w t s Hok Hs) as Hr. destruct (LpReliability.on_receive _ _ _ _) as [d s1].
    intros [= _ <- _ <-]. tauto.
  - destruct (LpReliability.take_fast_retransmits now s) as [ws1 s1] eqn:E. intros [= _ <- _ <-].
    right. by eapply fast_loop_once; [| | |exact E].
  - destruct (LpReliability.check_retransmit now s) as [ws1 s1] eqn:E. intros [= _ <- _ <-].
    destruct (check_retransmit_once now k w t s ws1 s1 (ro_tracked _ Hok) Hm Hs E) as [?|[? _]]; tauto.
  - intros [= _ <- _ <-]. right. right. unfold LpReliability.flush_acks. by destruct (pending_acks s).
  - intros [= _ <- _ <-]. by right; right.
Qed.

Lemma run_once k w t ops : forall s vs ws n s', rel_ok s -> Forall wf_op ops -> Forall no_send ops -> 1 <= max_retries (config s) ->
  sent_once k w t s -> run ops s = Some (vs, ws, n, s') -> Exists (acknowledges k) ops \/ w ∈ ws \/ sent_once k w t s'.
Proof.
  induction ops as [|op ops IH]; intros s vs ws n s' Hok Hwf Hns Hm Hs; cbn [run]; [intros [= _ <- _ <-]; tauto|].
  apply Forall_cons in Hwf as [Hop Hops]. apply Forall_cons in Hns as [Hno Hnos].
  destruct (step op s) as [[[[v ws1] n1] s1]|] eqn:E; [|done].
  destruct (step_spec op s v ws1 n1 s1 Hok Hop E) as (Hok1 & (evs & He & _) & _). pose proof (ef_config _ _ _ He) as Hc.
  destruct (run ops s1) as [[[[vs2 ws2] n2] s2]|] eqn:Er; [|done]. intros [= _ <- _ <-].
  destruct (step_once op k w t s v ws1 n1 s1 Hok Hop Hno Hm Hs E) as [Ha|[Hw|Hs1]].
  - left. by apply Exists_cons_hd.
  - right. left. apply elem_of_app. by left.
  - destruct (IH s1 vs2 ws2 n2 s2 Hok1 Hops Hnos) as [Ha|[Hw|Hs2]]; [by rewrite Hc|done|done|left; by apply Exists_cons_tl| |tauto].
    right. left. apply elem_of_app. by right.
Qed.

(** What a packet is sent as.  When the MTU leaves room for a payload, frame
    [i] decodes to the [i]-th chunk of the packet, under the next TxSequence and,
    if there are several, the next fragment Sequence, index [i] and the count;
    the first frame carries the oldest pending acknowledgements, at most sixteen,
    which leave the queue, and the others none; the chunks put together are the
    packet; and, on an MTU up to 65535 while the acknowledged sequences are below
    2^32, every frame fits in the MTU. *)
Theorem reliable_send_spec (mtu : Z) (cfg : ReliabilityConfig) (ops : list RelOp) (o : list bool * list bytes * Z)
    (s s' : LpReliability) (now : Z) (pkt : bytes) (ws : list bytes) :
  wf_config cfg -> Forall wf_op ops -> run ops (LpReliability.from_config mtu cfg) = Some (o, s) ->
  wf_bytes pkt -> zlen pkt + 2000 <= usize_max -> 1 <= send_cap s ->
  LpReliability.on_send now pkt s = Some (ws, s') ->
  let n := div_ceil (zlen pkt) (send_cap s) in
  let acks := piggybacked s in
  length ws = Z.to_nat n /\ pending_acks s = acks ++ pending_acks s' /\ zlen acks <= 16 /\
  next_seq s' = next_seq s + n /\ next_tx_seq s' = next_tx_seq s + n /\
  concat (map (chunk_of pkt (send_cap s)) (seqZ 0 n)) = pkt /\
  (forall i, 0 <= i < n -> exists w, ws !! Z.to_nat i = Some w /\
     LpPacket.decode w = Ok (reliable_packet (chunk_of pkt (send_cap s) i) (next_tx_seq s + i)
       (if 1 <? n then Some (next_seq s + i, i, n) else None) (if i =? 0 then acks else [])) /\
     (r_mtu s <= 65535 -> Forall (fun a => a <= u32_max) acks -> zlen w <= r_mtu s)).
Proof.
  intros Hcfg Hops Hr Hp Hz Hcap Hs n acks. pose proof (reach_ok mtu cfg ops o s Hcfg Hops Hr) as Hok.
  destruct (piggybacked_facts s (ro_acks _ Hok)) as [Hpa Hpn]. pose proof (send_cap_bounds s Hcap) as Hb.
  pose proof (on_send_frames now pkt s ws s' Hok Hp Hz Hcap Hs) as (Hl & Hsq & Htx & Htx' & Hsq' & Hf).
  pose proof Hs as He. apply on_send_effect in He as (_ & _ & _ & _ & _ & _ & _ & Hpend & _);
    [|apply Hok|apply Hok|apply Hok|done|done].
  split_conj; try done; [by rewrite Hpend; symmetry; apply take_drop|by apply chunks_concat|].
  intros i Hi. eexists. split; [by apply Hf|]. fold n in Hf |- *.
  destruct (chunk_facts n (send_cap s) pkt Hp Hcap eq_refl i Hi) as (Hw & Hc1 & Hc2).
  unfold MAX_PIGGYBACKED_ACKS in Hpn. pose proof (ro_seq _ Hok) as H0. pose proof (mo_tx _ _ _ (proj1 (ro_tracked _ Hok))) as H1.
  assert (Forall is_u64 (if i =? 0 then acks else [])) as Ha by by destruct (i =? 0).
  assert (zlen (if i =? 0 then acks else []) <= zlen acks) as Hn by (destruct (i =? 0); [done|rewrite zlen_nil; apply zlen_nonneg]).
  split.
  - apply reliable_decodes; [done|unfold_bounds; fold n in Htx; lia| |done|fold acks in Hpn; lia].
    destruct (Z.ltb_spec 1 n); [|done]. cbn. fold n in Hsq. unfold_bounds. lia.
  - intros Hm Hsmall. pose proof (zlen_nonneg acks). assert (Forall (fun a => a <= u32_max) (if i =? 0 then acks else [])) as Hsm by by destruct (i =? 0).
    fold acks in Hb. unfold FRAG_OVERHEAD in Hb. unfold frame_of. fold acks. etransitivity; [apply zlen_reliable; [done|lia]|].
    unfold FRAG_OVERHEAD. lia.
Qed.

(** Acknowledgements that leave no room for a payload are taken off the queue,
    and nothing is sent. *)
Lemma acks_lost now pkt s : send_cap s = 0 ->
  LpReliability.on_send now pkt s =
    Some ([], set_pending_acks s (drop (Z.to_nat (Z.min (zlen (pending_acks s)) MAX_PIGGYBACKED_ACKS)) (pending_acks s))).
Proof.
  intros Hc. unfold LpReliability.on_send. fold (piggybacked s). cbv zeta. cbn [r_mtu set_pending_acks].
  fold (send_cap s). by rewrite Hc.
Qed.

(** ** Examples *)

Definition some_ops : list RelOp :=
  [OpMtu 52; OpSend 0 [6; 1; 9]; OpTick 2000000000; OpReceive 2000000001 2000000002 (encode_lp_acks [1]); OpFlush].

Lemma some_ops_wf : Forall wf_op some_ops.
Proof.
  apply Forall_cons_2; [exact I|]. apply Forall_cons_2; [split; [by apply wf_bytes_check|vm_compute; discriminate]|].
  apply Forall_cons_2; [exact I|]. apply Forall_cons_2; [by apply wf_bytes_check|]. apply Forall_cons_2; [exact I|]. apply Forall_nil_2.
Qed.

Lemma default_config_wf : wf_config ReliabilityConfig.default_.
Proof. split; [vm_compute; discriminate|exact I]. Qed.

Lemma reliability_invariant_witness :
  match run some_ops (LpReliability.from_config 1400 ReliabilityConfig.default_) with
  | Some (_, _, acked, s) => acked = 1 /\ zlen (unacked s) <= 256 /\
      next_tx_seq s = zlen (unacked s) + acked + rto_expirations (counters s) + unacked_evictions (counters s)
  | None => False
  end.
Proof.
  destruct (run _ _) as [[[[vs ws] acked] s]|] eqn:E; [|vm_compute in E; discriminate E].
  destruct (reliability_invariant 1400 _ some_ops vs ws acked s default_config_wf some_ops_wf E) as (H1 & _ & _ & _ & H2).
  split; [vm_compute in E; congruence|split; [exact H1|exact H2]].
Defined.

Lemma transmissions_bounded_witness :
  match run some_ops (LpReliability.from_config 1400 ReliabilityConfig.default_) with
  | Some (_, ws, _, _) => sends 0 ws = 2 /\ sends 0 ws <= 2
  | None => False
  end.
Proof.
  destruct (run _ _) as [[[[vs ws] acked] s]|] eqn:E; [|vm_compute in E; discriminate E].
  pose proof (transmissions_bounded 1400 _ some_ops vs ws acked s 0 default_config_wf some_ops_wf E) as H.
  split; [|exact H]. vm_compute in E. assert (ws = ws) as _ by reflexivity. injection E as _ <- _ _. vm_compute. reflexivity.
Defined.

Lemma duplicates_recognised_witness :
  let raw := encode_lp_reliable [6; 0] 9 None [] in
  match run some_ops (LpReliability.from_config 1400 ReliabilityConfig.default_) with
  | Some (_, s) => (LpReliability.on_receive 100 100 raw (LpReliability.on_receive 0 0 raw s).2).1 = true /\
      (LpReliability.on_receive 0 0 raw s).1 = false
  | None => False
  end.
Proof.
  intros raw. assert (wf_bytes raw) as Hraw.
  { repeat (apply Forall_cons_2; [split; vm_compute; congruence|]). apply Forall_nil_2. }
  destruct (run _ _) as [[o s]|] eqn:E; [|vm_compute in E; discriminate E].
  destruct (duplicates_recognised 1400 _ some_ops [] 0 0 100 100 9 raw raw o ([], [], 0) s (LpReliability.on_receive 0 0 raw s).2
    default_config_wf some_ops_wf (Forall_nil_2 _) Hraw Hraw) as [H1 H2];
    [vm_compute; reflexivity|vm_compute; reflexivity|apply Forall_nil_2|split; vm_compute; discriminate|exact E|reflexivity|].
  split; [exact H1|]. apply H2.
  apply List.Forall_forall. intros op Hop. cbn in Hop.
  repeat (destruct Hop as [<-|Hop]; [intros H; vm_compute in H; first [discriminate H|destruct H]|]). destruct Hop.
Defined.

Lemma reliable_send_spec_witness :
  match run some_ops (LpReliability.from_config 1400 ReliabilityConfig.default_) with
  | Some (_, s) =>
      match LpReliability.on_send 7 [6; 2; 4; 4] s with
      | Some (ws, s') => length ws = 2%nat /\ next_tx_seq s' = next_tx_seq s + 2
      | None => False
      end
  | None => False
  end.
Proof.
  destruct (run _ _) as [[o s]|] eqn:E; [|vm_compute in E; discriminate E].
  destruct (LpReliability.on_send 7 [6; 2; 4; 4] s) as [[ws s']|] eqn:Es.
  - assert (send_cap s = 2) as Hc by (vm_compute in E; injection E as _ <-; vm_compute; reflexivity).
    destruct (reliable_send_spec 1400 _ some_ops o s s' 7 [6; 2; 4; 4] ws default_config_wf some_ops_wf E)
      as (H1 & _ & _ & _ & H2 & _);
      [repeat (apply Forall_cons_2; [split; vm_compute; congruence|]); apply Forall_nil_2|vm_compute; discriminate
      |rewrite Hc; vm_compute; discriminate|exact Es|].
    rewrite Hc in H1, H2. split; [exact H1|exact H2].
  - vm_compute in E. injection E as _ <-. vm_compute in Es. discriminate Es.
Defined.
