(* ===== verification/ReplayGuard.v ===== *)
(** * The signed-Interest replay guard ([crates/security/ndn-security/src/replay_guard.rs])

    Per signer key, a bounded queue of the anti-replay fields of the signed
    Interests admitted, and monotonic floors; over all keys, a bounded table from
    which the least recently used keys are evicted. *)

From S2P Require Import Prelude Tlv Name Packet Evict.
#[local] Open Scope Z_scope.

Abbreviation KeyFingerprint := (list Z) (only parsing).

Module KeyFingerprint.
Definition no_key : KeyFingerprint := [].

(** [c.typ] is a [u64]. *)
Definition from_locator (locator : option KeyLocator) : KeyFingerprint :=
  match locator with
  | None => no_key
  | Some (LocatorName n) =>
      concat (map (fun c => be_encode 8 (typ c) ++ [0xff] ++ value c ++ [0xff]) n)
  | Some (KeyDigest b) => b
  end.
End KeyFingerprint.

Record NonceRecord : Type := mkNonceRecord {
  nr_sig_nonce : option bytes;
  nr_sig_time : option Z;
  nr_sig_seq_num : option Z
}.

Module NonceRecord.
Definition from_sig_info (si : SignatureInfo) : option NonceRecord :=
  match sig_nonce si, sig_time si, sig_seq_num si with
  | None, None, None => None
  | n, t, s => Some (mkNonceRecord n t s)
  end.

(** Compare a field present in both; [None] is the early [return false]. *)
Definition compare_field {A} `{EqDecision A} (a b : option A) (compared_any : bool) : option bool :=
  match a, b with
  | Some a, Some b => if decide (a = b) then Some true else None
  | _, _ => Some compared_any
  end.

Definition matches (self : NonceRecord) (si : SignatureInfo) : bool :=
  match compare_field (nr_sig_nonce self) (sig_nonce si) false with
  | None => false
  | Some compared_any =>
      match compare_field (nr_sig_time self) (sig_time si) compared_any with
      | None => false
      | Some compared_any =>
          match compare_field (nr_sig_seq_num self) (sig_seq_num si) compared_any with
          | None => false
          | Some compared_any => compared_any
          end
      end
  end.
End NonceRecord.

Record KeyState : Type := mkKeyState {
  records : list NonceRecord;
  max_seq : option Z;
  max_time : option Z;
  last_seen : Z
}.
Definition KeyState_new : KeyState := mkKeyState [] None None 0.

Inductive ReplayCheck : Type := Fresh | Replay | NoAntiReplayFields.

#[export] Instance ReplayCheck_eq_dec : EqDecision ReplayCheck.
Proof. solve_decision. Defined.

Definition DEFAULT_MAX_KEYS : Z := 8192.

Record ReplayGuard : Type := mkReplayGuard {
  keys : gmap KeyFingerprint KeyState;
  per_key_capacity : Z;
  max_keys : Z;
  tick : Z;
  monotonic : bool
}.

Module ReplayGuard.
Definition with_capacities (per_key_capacity max_keys : Z) (monotonic : bool) : ReplayGuard :=
  mkReplayGuard ∅ (Z.max per_key_capacity 1) (Z.max max_keys 1) 0 monotonic.
Definition new (per_key_capacity : Z) (monotonic : bool) : ReplayGuard :=
  with_capacities per_key_capacity DEFAULT_MAX_KEYS monotonic.

Definition key_count (self : ReplayGuard) : Z := Z.of_nat (size (keys self)).

Definition set_keys (self : ReplayGuard) (ks : gmap KeyFingerprint KeyState) : ReplayGuard :=
  mkReplayGuard ks (per_key_capacity self) (max_keys self) (tick self) (monotonic self).

(** [now <= prev] for a floor and a field both present. *)
Definition below_floor (floor field : option Z) : bool :=
  match floor, field with Some prev, Some now => now <=? prev | _, _ => false end.
Definition raise (floor field : option Z) : option Z :=
  match field with
  | Some t => Some (match floor with Some p => Z.max p t | None => t end)
  | None => floor
  end.

Definition check_state (self : ReplayGuard) (state : KeyState) (si : SignatureInfo) (record : NonceRecord)
    : ReplayCheck * KeyState :=
  if monotonic self && below_floor (max_seq state) (sig_seq_num si) then (Replay, state)
  else if monotonic self && below_floor (max_time state) (sig_time si) then (Replay, state)
  else if existsb (fun r => NonceRecord.matches r si) (records state) then (Replay, state)
  else
    let kept := if per_key_capacity self <=? zlen (records state) then tail (records state) else records state in
    (Fresh, mkKeyState (kept ++ [record]) (raise (max_seq state) (nr_sig_seq_num record))
              (raise (max_time state) (nr_sig_time record)) (last_seen state)).

Section eviction.
Variable sort_unstable_by_key : list (Z * KeyFingerprint) -> list (Z * KeyFingerprint).

Definition enforce_key_cap (self : ReplayGuard) : ReplayGuard :=
  let len := key_count self in
  if len <=? max_keys self then self
  else
    let target := max_keys self - max_keys self / 10 in
    let to_remove := sat_sub len target in
    let by_age := sort_unstable_by_key ((fun p => (last_seen p.2, p.1)) <$> map_to_list (keys self)) in
    set_keys self (remove_all (keys self) (take (Z.to_nat to_remove) by_age).*2).

Definition check (self : ReplayGuard) (si : SignatureInfo) : ReplayCheck * ReplayGuard :=
  match NonceRecord.from_sig_info si with
  | None => (NoAntiReplayFields, self)
  | Some record =>
      let fp := KeyFingerprint.from_locator (key_locator si) in
      let now_tick := tick self in
      let self := mkReplayGuard (keys self) (per_key_capacity self) (max_keys self)
                    (wrap 64 (tick self + 1)) (monotonic self) in
      let state := default KeyState_new (keys self !! fp) in
      let state := mkKeyState (records state) (max_seq state) (max_time state) now_tick in
      let '(result, state) := check_state self state si record in
      let self := set_keys self (<[fp := state]> (keys self)) in
      let self := if max_keys self <? key_count self then enforce_key_cap self else self in
      (result, self)
  end.
End eviction.

Definition forget_all (self : ReplayGuard) : ReplayGuard := set_keys self ∅.
End ReplayGuard.

(** ** Invariant *)

(** The queues and the table are within their bounds, and every key was last
    seen before the current tick. *)
Record guard_ok (g : ReplayGuard) : Prop := {
  ok_capacity : 1 <= per_key_capacity g;
  ok_max_keys : 1 <= max_keys g;
  ok_keys : ReplayGuard.key_count g <= max_keys g;
  ok_tick : 0 <= tick g;
  ok_states : forall fp s, keys g !! fp = Some s ->
    zlen (records s) <= per_key_capacity g /\ last_seen s < tick g
}.

Definition fp_of (si : SignatureInfo) : KeyFingerprint := KeyFingerprint.from_locator (key_locator si).
Definition state_of (g : ReplayGuard) (si : SignatureInfo) : KeyState :=
  default KeyState_new (keys g !! fp_of si).

(** A record matches the Interest it came from. *)
Lemma record_matches_self si r : NonceRecord.from_sig_info si = Some r -> NonceRecord.matches r si = true.
Proof.
  unfold NonceRecord.from_sig_info, NonceRecord.matches, NonceRecord.compare_field. intros H.
  destruct (sig_nonce si), (sig_time si), (sig_seq_num si); simplify_eq/=;
    repeat rewrite decide_True by done; done.
Qed.

Lemma check_state_replay g s si r :
  existsb (fun r => NonceRecord.matches r si) (records s) = true ->
  ReplayGuard.check_state g s si r = (Replay, s).
Proof. intros H. unfold ReplayGuard.check_state. rewrite H. by repeat case_match. Qed.

(** The state a call leaves for its key: unchanged but for the access time, or
    with the record queued last. *)
Lemma check_state_cases g s si r :
  let '(res, s') := ReplayGuard.check_state g s si r in
  last_seen s' = last_seen s /\
  (res = Replay /\ records s' = records s \/
   res = Fresh /\ records s' =
     (if per_key_capacity g <=? zlen (records s) then tail (records s) else records s) ++ [r]).
Proof. unfold ReplayGuard.check_state. repeat case_match; simplify_eq/=; auto. Qed.

Lemma zlen_push_bounded {A} cap (l : list A) x :
  1 <= cap -> zlen l <= cap -> zlen ((if cap <=? zlen l then tail l else l) ++ [x]) <= cap.
Proof.
  intros H1 H2. rewrite zlen_app. change (zlen [x]) with 1. destruct (Z.leb_spec cap (zlen l)); [|lia].
  destruct l as [|y l]; [rewrite zlen_nil in *; lia|]. simpl. rewrite zlen_cons in *. lia.
Qed.

Section guard.
Context (sort : list (Z * KeyFingerprint) -> list (Z * KeyFingerprint)) (Hsort : sorts_by_age sort).

Definition touch (g : ReplayGuard) (si : SignatureInfo) : KeyState :=
  let s := state_of g si in mkKeyState (records s) (max_seq s) (max_time s) (tick g).

Definition ticked (g : ReplayGuard) : ReplayGuard :=
  mkReplayGuard (keys g) (per_key_capacity g) (max_keys g) (wrap 64 (tick g + 1)) (monotonic g).

Lemma check_unfold g si r :
  NonceRecord.from_sig_info si = Some r ->
  ReplayGuard.check sort g si =
    let '(res, s') := ReplayGuard.check_state (ticked g) (touch g si) si r in
    let g' := ReplayGuard.set_keys (ticked g) (<[fp_of si := s']> (keys g)) in
    (res, if max_keys g <? ReplayGuard.key_count g' then ReplayGuard.enforce_key_cap sort g' else g').
Proof. intros H. unfold ReplayGuard.check. by rewrite H. Qed.

(** Enforcement keeps a key strictly younger than all others. *)
Lemma enforce_spec g :
  1 <= max_keys g ->
  let g' := ReplayGuard.enforce_key_cap sort g in
  ReplayGuard.key_count g' <= max_keys g /\
  per_key_capacity g' = per_key_capacity g /\ max_keys g' = max_keys g /\ tick g' = tick g /\
  monotonic g' = monotonic g /\
  (forall fp s, keys g' !! fp = Some s -> keys g !! fp = Some s) /\
  (forall fp s, keys g !! fp = Some s ->
     (forall fp' s', keys g !! fp' = Some s' -> fp' <> fp -> last_seen s' < last_seen s) ->
     keys g' !! fp = Some s).
Proof.
  intros Hm. unfold ReplayGuard.enforce_key_cap. destruct (Z.leb_spec (ReplayGuard.key_count g) (max_keys g)).
  { by split_conj. }
  set (k := Z.to_nat _). change (remove_all (keys g) _) with (evict sort last_seen k (keys g)).
  pose proof (Z.mul_div_le (max_keys g) 10 ltac:(lia)). pose proof (Z.div_pos (max_keys g) 10 ltac:(lia) ltac:(lia)).
  unfold ReplayGuard.key_count, sat_sub in *.
  assert (k < size (keys g))%nat as Hk by lia.
  pose proof (evict_size sort Hsort last_seen (keys g) k ltac:(lia)) as Hsz. simpl.
  split_conj; [lia|done..| |].
  - intros fp s. apply evict_subseteq.
  - intros fp s Hs Hyoung. by apply (evict_spares_youngest sort Hsort last_seen).
Qed.

(** What one check leaves behind. *)
Lemma check_step g si r :
  guard_ok g -> tick g + 1 < 2 ^ 64 -> NonceRecord.from_sig_info si = Some r ->
  let '(res, g') := ReplayGuard.check sort g si in
  guard_ok g' /\ per_key_capacity g' = per_key_capacity g /\ max_keys g' = max_keys g /\
  monotonic g' = monotonic g /\ tick g' = tick g + 1 /\
  exists s', ReplayGuard.check_state (ticked g) (touch g si) si r = (res, s') /\
    keys g' !! fp_of si = Some s' /\
    (forall fp s, keys g' !! fp = Some s -> fp <> fp_of si -> keys g !! fp = Some s) /\
    (Z.of_nat (size (<[fp_of si := s']> (keys g))) <= max_keys g ->
     forall fp, fp <> fp_of si -> keys g' !! fp = keys g !! fp).
Proof.
  intros [Hcap Hmk Hk Ht Hst] Htick Hr. rewrite (check_unfold _ _ _ Hr).
  pose proof (check_state_cases (ticked g) (touch g si) si r) as Hc.
  destruct (ReplayGuard.check_state (ticked g) (touch g si) si r) as [res s'].
  destruct Hc as [Hls Hrec]. cbv zeta.
  set (g1 := ReplayGuard.set_keys (ticked g) (<[fp_of si := s']> (keys g))).
  assert (tick g1 = tick g + 1) as Ht1 by (apply Z.mod_small; lia).
  assert (zlen (records s') <= per_key_capacity g /\ last_seen s' = tick g) as [Hs' Hls'].
  { split; [|done]. assert (zlen (records (touch g si)) <= per_key_capacity g) as Hb.
    { unfold touch, state_of. simpl. destruct (keys g !! fp_of si) as [s|] eqn:E; simpl; [by apply (Hst _ _ E)|].
      rewrite zlen_nil. lia. }
    destruct Hrec as [[_ ->]|[_ ->]]; [done|]. by apply zlen_push_bounded. }
  assert (forall fp s, keys g1 !! fp = Some s -> zlen (records s) <= per_key_capacity g /\ last_seen s < tick g + 1 /\
            (fp <> fp_of si -> keys g !! fp = Some s /\ last_seen s < tick g)) as Hst1.
  { intros fp s. simpl. rewrite lookup_insert. case_decide as Hfp.
    - intros [= <-]. split_conj; [done|lia|]. by intros [].
    - intros Hs. destruct (Hst _ _ Hs). split_conj; [done|lia|done]. }
  destruct (enforce_spec g1 Hmk) as (He1 & He2 & He3 & He4 & He5 & He6 & He7).
  change (max_keys g) with (max_keys g1).
  destruct (Z.ltb_spec (max_keys g1) (ReplayGuard.key_count g1)) as [Hover|Hfit].
  - assert (keys (ReplayGuard.enforce_key_cap sort g1) !! fp_of si = Some s') as Hkept.
    { apply He7; [simpl; apply lookup_insert_eq|]. intros fp s Hs Hne.
      destruct (Hst1 fp s Hs) as (_ & _ & H). destruct (H Hne). rewrite Hls'. done. }
    split_conj; try done; [|by rewrite He4|].
    + constructor; rewrite ?He2, ?He3, ?He4, ?Ht1; try done; [lia|]. intros fp s Hs%He6.
      destruct (Hst1 fp s Hs) as (? & ? & _). done.
    + exists s'. split_conj; [done|done| |].
      * intros fp s Hs%He6 Hne. by apply Hst1.
      * intros Hle. exfalso. exact (Zlt_not_le _ _ Hover Hle).
  - split_conj; try done.
    + constructor; rewrite ?Ht1; try done; [lia|]. intros fp s Hs. destruct (Hst1 fp s Hs) as (? & ? & _). done.
    + exists s'. split_conj; [done|simpl; apply lookup_insert_eq| |].
      * intros fp s Hs Hne. by apply Hst1.
      * intros _ fp Hne. simpl. by rewrite lookup_insert_ne.
Qed.

(** Without an anti-replay field nothing changes. *)
Lemma check_none g si : NonceRecord.from_sig_info si = None -> ReplayGuard.check sort g si = (NoAntiReplayFields, g).
Proof. intros H. unfold ReplayGuard.check. by rewrite H. Qed.

(** A second check of the same Interest is rejected whatever the first said. *)
Lemma check_state_again g g' s s' si r res t :
  per_key_capacity g' = per_key_capacity g -> monotonic g' = monotonic g ->
  NonceRecord.from_sig_info si = Some r ->
  ReplayGuard.check_state g s si r = (res, s') ->
  (ReplayGuard.check_state g' (mkKeyState (records s') (max_seq s') (max_time s') t) si r).1 = Replay.
Proof.
  intros Hc Hm Hr. unfold ReplayGuard.check_state. simpl. rewrite Hc, Hm.
  destruct (monotonic g && ReplayGuard.below_floor (max_seq s) (sig_seq_num si)) eqn:E1; [intros [= <- <-]; simpl; by rewrite E1|].
  destruct (monotonic g && ReplayGuard.below_floor (max_time s) (sig_time si)) eqn:E2.
  { intros [= <- <-]. simpl. by rewrite E1, E2. }
  destruct (existsb _ (records s)) eqn:E3.
  { intros [= <- <-]. simpl. by rewrite E1, E2, E3. }
  intros [= <- <-]. simpl. rewrite existsb_app. simpl. rewrite (record_matches_self _ _ Hr), orb_true_r.
  by repeat case_match.
Qed.

Definition run (g : ReplayGuard) (sis : list SignatureInfo) : ReplayGuard :=
  fold_left (fun g si => (ReplayGuard.check sort g si).2) sis g.

Lemma check_ok g si :
  guard_ok g -> tick g + 1 < 2 ^ 64 ->
  let g' := (ReplayGuard.check sort g si).2 in
  guard_ok g' /\ per_key_capacity g' = per_key_capacity g /\ max_keys g' = max_keys g /\
  monotonic g' = monotonic g /\ tick g' <= tick g + 1.
Proof.
  intros Hok Ht. destruct (NonceRecord.from_sig_info si) as [r|] eqn:Hr.
  - pose proof (check_step g si r Hok Ht Hr) as H. destruct (ReplayGuard.check sort g si) as [res g'].
    destruct H as (H1 & H2 & H3 & H4 & H5 & _). simpl. split_conj; try done. lia.
  - rewrite (check_none g si Hr). simpl. split_conj; try done. lia.
Qed.

Lemma run_ok sis g :
  guard_ok g -> tick g + zlen sis < 2 ^ 64 ->
  guard_ok (run g sis) /\ per_key_capacity (run g sis) = per_key_capacity g /\
  max_keys (run g sis) = max_keys g /\ tick (run g sis) <= tick g + zlen sis.
Proof.
  revert g. induction sis as [|si sis IH]; intros g Hok Ht; [rewrite zlen_nil; simpl; split_conj; try done; lia|].
  rewrite zlen_cons in *. pose proof (zlen_nonneg sis).
  destruct (check_ok g si Hok ltac:(lia)) as (H1 & H2 & H3 & _ & H5).
  destruct (IH (ReplayGuard.check sort g si).2 H1 ltac:(lia)) as (I1 & I2 & I3 & I4).
  change (run g (si :: sis)) with (run (ReplayGuard.check sort g si).2 sis).
  rewrite I2, I3. split_conj; try done. lia.
Qed.

Lemma check_twice g si :
  guard_ok g -> tick g + 2 < 2 ^ 64 -> NonceRecord.from_sig_info si <> None ->
  (ReplayGuard.check sort (ReplayGuard.check sort g si).2 si).1 = Replay.
Proof.
  intros Hok Ht Hne. destruct (NonceRecord.from_sig_info si) as [r|] eqn:Hr; [|done].
  pose proof (check_step g si r Hok ltac:(lia) Hr) as H. destruct (ReplayGuard.check sort g si) as [res g'].
  destruct H as (_ & H2 & H3 & H4 & H5 & s' & Hs' & Hk & _). simpl.
  rewrite (check_unfold g' si r Hr).
  pose proof (check_state_again (ticked g) (ticked g') _ _ _ _ _ (tick g') H2 H4 Hr Hs') as Hagain.
  unfold touch, state_of. rewrite Hk. simpl default.
  destruct (ReplayGuard.check_state (ticked g') _ si r) as [res' s'']. simpl in Hagain |- *. done.
Qed.

(** *** The window *)

Definition same_key (si si' : SignatureInfo) : bool := bool_decide (fp_of si' = fp_of si).

(** [si] has a matching record with at most [n] later ones behind it. *)
Definition remembered (g : ReplayGuard) (si : SignatureInfo) (n : Z) : Prop :=
  exists s pre r post, keys g !! fp_of si = Some s /\ records s = pre ++ r :: post /\
    NonceRecord.matches r si = true /\ zlen post <= n.

Lemma remembered_replay g si r n :
  NonceRecord.from_sig_info si = Some r -> remembered g si n -> (ReplayGuard.check sort g si).1 = Replay.
Proof.
  intros Hr (s & pre & r' & post & Hk & Hrec & Hm & _). rewrite (check_unfold g si r Hr).
  rewrite check_state_replay; [done|]. unfold touch, state_of. rewrite Hk. simpl. rewrite Hrec, existsb_app.
  simpl. by rewrite Hm, orb_true_r.
Qed.

Lemma push_keeps {A} cap (pre : list A) r post x :
  1 + zlen post < cap ->
  exists pre', (if cap <=? zlen (pre ++ r :: post) then tail (pre ++ r :: post) else pre ++ r :: post) ++ [x]
               = pre' ++ r :: (post ++ [x]).
Proof.
  intros Hc. destruct (Z.leb_spec cap (zlen (pre ++ r :: post))) as [Hle|].
  - destruct pre as [|y pre]; [simpl in Hle; rewrite zlen_cons in Hle; lia|]. exists pre. simpl.
    by rewrite <- app_assoc.
  - exists pre. by rewrite <- app_assoc.
Qed.

Lemma remembered_step (g : ReplayGuard) (si si' : SignatureInfo) (n : Z) (D : gset KeyFingerprint) :
  guard_ok g -> tick g + 1 < 2 ^ 64 -> remembered g si n ->
  n + (if same_key si si' then 1 else 0) < per_key_capacity g ->
  dom (keys g) ⊆ D -> fp_of si' ∈ D -> Z.of_nat (size D) <= max_keys g ->
  let g' := (ReplayGuard.check sort g si').2 in
  dom (keys g') ⊆ D /\ remembered g' si (n + if same_key si si' then 1 else 0).
Proof.
  intros Hok Ht (s & pre & r & post & Hk & Hrec & Hm & Hn) Hcap HD Hin Hsz.
  destruct (NonceRecord.from_sig_info si') as [r'|] eqn:Hr'.
  2:{ rewrite (check_none g si' Hr'). simpl. split; [done|]. exists s, pre, r, post. split_conj; try done.
      destruct (same_key si si'); lia. }
  pose proof (check_step g si' r' Hok Ht Hr') as H. pose proof (check_state_cases (ticked g) (touch g si') si' r') as Hc.
  destruct (ReplayGuard.check sort g si') as [res g']. simpl.
  destruct H as (_ & _ & _ & _ & _ & s' & Hs' & Hk' & Hsub & Hsame). rewrite Hs' in Hc.
  assert (dom (<[fp_of si' := s']> (keys g)) ⊆ D) as HD' by set_solver.
  split.
  { intros fp [s0 Hs0]%elem_of_dom. destruct (decide (fp = fp_of si')) as [->|Hne]; [done|].
    apply HD, elem_of_dom. exists s0. by apply Hsub. }
  unfold same_key in *. case_bool_decide as Hfp.
  - rewrite <- Hfp in Hk. exists s'. rewrite <- Hfp. unfold touch, state_of in Hc. rewrite Hk in Hc. simpl in Hc.
    destruct Hc as [_ [[_ Hc]|[_ Hc]]].
    + exists pre, r, post. rewrite Hc. split_conj; try done. lia.
    + rewrite Hrec in Hc. destruct (push_keeps (per_key_capacity g) pre r post r' ltac:(lia)) as [pre' Hp].
      exists pre', r, (post ++ [r']). rewrite Hc, Hp. split_conj; try done.
      rewrite zlen_app. change (zlen [r']) with 1. lia.
  - exists s, pre, r, post. rewrite Hsame; [split_conj; try done; lia| |done].
    apply subseteq_size in HD'. rewrite size_dom in HD'. lia.
Qed.

Lemma remembered_run (sis : list SignatureInfo) (g : ReplayGuard) (si : SignatureInfo) (n : Z) (D : gset KeyFingerprint) :
  guard_ok g -> tick g + zlen sis < 2 ^ 64 -> remembered g si n ->
  n + zlen (List.filter (same_key si) sis) < per_key_capacity g ->
  dom (keys g) ⊆ D -> Forall (fun si' => fp_of si' ∈ D) sis -> Z.of_nat (size D) <= max_keys g ->
  remembered (run g sis) si (n + zlen (List.filter (same_key si) sis)).
Proof.
  revert g n. induction sis as [|si' sis IH]; intros g n Hok Ht Hrem Hcap HD Hin Hsz.
  { simpl. by rewrite zlen_nil, Z.add_0_r. }
  apply Forall_cons_1 in Hin as [Hin1 Hin]. rewrite zlen_cons in Ht. pose proof (zlen_nonneg sis).
  assert (zlen (List.filter (same_key si) (si' :: sis)) =
          (if same_key si si' then 1 else 0) + zlen (List.filter (same_key si) sis)) as Hf.
  { simpl. destruct (same_key si si'); [rewrite zlen_cons|]; lia. }
  rewrite Hf in *. pose proof (zlen_nonneg (List.filter (same_key si) sis)).
  destruct (remembered_step g si si' n D) as [HD' Hrem']; try done; [lia|destruct (same_key si si'); lia|].
  destruct (check_ok g si' Hok ltac:(lia)) as (H1 & H2 & H3 & _ & H5).
  change (run g (si' :: sis)) with (run (ReplayGuard.check sort g si').2 sis).
  rewrite Z.add_assoc. apply IH; try done; rewrite ?H2, ?H3; try done; lia.
Qed.
End guard.

(** ** Properties *)

(** The table as created satisfies the invariant. *)
Lemma with_capacities_ok cap maxk mono : guard_ok (ReplayGuard.with_capacities cap maxk mono).
Proof.
  constructor; simpl; try lia; [|done]. unfold ReplayGuard.key_count. simpl. rewrite map_size_empty. lia.
Qed.

(** A guard that starts empty stays within its bounds after any sequence of
    checks (fewer than 2^64 of them): at most [max_keys] signers are tracked and
    at most [per_key_capacity] records kept for each, and even at the moment the
    key table overflows, an Interest with an anti-replay field that has just been
    checked is rejected as a replay when it comes again. *)
Theorem replay_guard_bounded sort cap maxk mono sis :
  sorts_by_age sort -> zlen sis + 2 < 2 ^ 64 ->
  let g := run sort (ReplayGuard.with_capacities cap maxk mono) sis in
  ReplayGuard.key_count g <= Z.max maxk 1 /\
  (forall fp s, keys g !! fp = Some s -> zlen (records s) <= Z.max cap 1) /\
  (forall si, NonceRecord.from_sig_info si <> None ->
     (ReplayGuard.check sort (ReplayGuard.check sort g si).2 si).1 = Replay).
Proof.
  intros Hsort Hlen g.
  destruct (run_ok sort Hsort sis _ (with_capacities_ok cap maxk mono)) as ([_ _ Hk _ Hst] & Hc & Hm & Ht); [simpl; lia|].
  rewrite Hm in Hk. simpl in Ht. split_conj; [done| |].
  - intros fp s Hs. destruct (Hst fp s Hs) as [H _]. by rewrite Hc in H.
  - intros si Hsi. apply check_twice; [done| |unfold g; lia|done].
    apply (run_ok sort Hsort); [apply with_capacities_ok|simpl; lia].
Qed.

(** The replay window: an Interest admitted as fresh is rejected if it comes
    again after any further checks, as long as fewer than [per_key_capacity] of
    them carry its key and the signers ever seen number at most [max_keys]. *)
Theorem replay_window (sort : list (Z * list Z) -> list (Z * list Z)) (g : ReplayGuard) (si : SignatureInfo)
    (g1 : ReplayGuard) (sis : list SignatureInfo) (D : gset (list Z)) :
  sorts_by_age sort -> guard_ok g -> tick g + zlen sis + 2 < 2 ^ 64 ->
  ReplayGuard.check sort g si = (Fresh, g1) ->
  dom (keys g1) ⊆ D -> Forall (fun si' => fp_of si' ∈ D) sis -> Z.of_nat (size D) <= max_keys g ->
  zlen (List.filter (same_key si) sis) < per_key_capacity g ->
  (ReplayGuard.check sort (run sort g1 sis) si).1 = Replay.
Proof.
  intros Hsort Hok Ht Hfresh HD Hin Hsz Hcap. pose proof (zlen_nonneg sis).
  destruct (NonceRecord.from_sig_info si) as [r|] eqn:Hr; [|by rewrite (check_none _ _ _ Hr) in Hfresh].
  pose proof (check_step sort Hsort g si r Hok ltac:(lia) Hr) as H1. rewrite Hfresh in H1.
  pose proof (check_state_cases (ticked g) (touch g si) si r) as Hc.
  destruct H1 as (Hok1 & H2 & H3 & H4 & H5 & s' & Hs' & Hk & _). rewrite Hs' in Hc.
  destruct Hc as [_ [[? _]|[_ Hrec]]]; [done|].
  eapply (remembered_replay _ _ _ _ _ Hr), (remembered_run sort Hsort sis g1 si 0 D); try done; try lia.
  - exists s', (if per_key_capacity g <=? zlen (records (touch g si)) then tail (records (touch g si))
      else records (touch g si)), r, []. split_conj; [done|done|by apply record_matches_self|done].
Unshelve. all: done.
Qed.

(** *** Witnesses *)

Definition signed_by (key : Z) (nonce : Z) : SignatureInfo :=
  mkSignatureInfo SignatureHmacWithSha256 (Some (KeyDigest [key])) (Some [nonce]) None None.

Lemma replay_guard_bounded_witness :
  let g := run (merge_sort age_le) (ReplayGuard.with_capacities 1 1 false)
             [signed_by 1 7; signed_by 2 7; signed_by 2 8] in
  ReplayGuard.key_count g <= 1 /\ map_to_list (records <$> keys g) = [([2], [mkNonceRecord (Some [8]) None None])] /\
  (ReplayGuard.check (merge_sort age_le) (ReplayGuard.check (merge_sort age_le) g (signed_by 3 9)).2 (signed_by 3 9)).1
    = Replay.
Proof.
  destruct (replay_guard_bounded (merge_sort age_le) 1 1 false [signed_by 1 7; signed_by 2 7; signed_by 2 8])
    as (H1 & _ & H3); [apply merge_sort_sorts|vm_compute; reflexivity|].
  split; [exact H1|]. split; [vm_compute; reflexivity|]. apply H3. done.
Defined.

Definition g0 : ReplayGuard := ReplayGuard.with_capacities 2 2 false.

Lemma replay_window_witness :
  (ReplayGuard.check (merge_sort age_le) g0 (signed_by 1 7)).1 = Fresh /\
  (ReplayGuard.check (merge_sort age_le)
     (run (merge_sort age_le) (ReplayGuard.check (merge_sort age_le) g0 (signed_by 1 7)).2
        [signed_by 2 7; signed_by 1 8]) (signed_by 1 7)).1 = Replay.
Proof.
  split; [vm_compute; reflexivity|].
  apply (replay_window (merge_sort age_le) g0 (signed_by 1 7) _ [signed_by 2 7; signed_by 1 8] {[ [1]; [2] ]}).
  - apply merge_sort_sorts.
  - apply with_capacities_ok.
  - vm_compute. reflexivity.
  - vm_compute. reflexivity.
  - apply (bool_decide_unpack (dom (keys (ReplayGuard.check (merge_sort age_le) g0 (signed_by 1 7)).2) ⊆ _)).
    vm_compute. exact I.
  - repeat (apply Forall_cons_2; [set_solver|]). apply Forall_nil_2.
  - vm_compute. discriminate.
  - vm_compute. reflexivity.
Defined.

(** The fingerprint does not separate all locators: the delimiter is not escaped
    in a component's value, so two signers can share one replay history. *)
Example from_locator_collides :
  let a := [mkComponent 8 [1; 0xff; 0; 0; 0; 0; 0; 0; 0; 8; 0xff; 2]] in
  let b := [mkComponent 8 [1]; mkComponent 8 [2]] in
  a <> b /\ KeyFingerprint.from_locator (Some (LocatorName a)) = KeyFingerprint.from_locator (Some (LocatorName b)).
Proof. split; [discriminate|vm_compute; reflexivity]. Qed.
