(* ===== verification/Pit.v ===== *)
(** * The Pending Interest Table ([crates/forwarding/ndn-store/src/pit.rs])

    Name hashes, PIT tokens, the entry and its records, the table and its
    index of orphaned subscription budgets, and the observer the table reports
    to.

    The hash function is [DefaultHasher], whose algorithm the standard library
    leaves unspecified: it is the class [Hasher], and no property below assumes
    more of it than a [u64] result, except where freedom from collisions is a
    stated hypothesis.  The concurrent maps are [gmap]s; the mutations a method
    makes under one lock are one function. *)

From S2P Require Import Prelude Tlv Name Packet.
#[local] Open Scope Z_scope.

Inductive PitKeyDiscriminator : Type := Classical | PersistentAttach.

#[export] Instance PitKeyDiscriminator_eq_dec : EqDecision PitKeyDiscriminator.
Proof. solve_decision. Defined.

(** What a fresh [DefaultHasher] gives for a name component, and for a name hash
    followed by a discriminator. *)
Class Hasher : Type := {
  component_hash : NameComponent -> Z;
  token_hash : Z -> PitKeyDiscriminator -> Z
}.

Definition HASH_MIX : Z := 0x517cc1b727220a95.

(** ** Name hashes *)

Record NameHashes : Type := mkNameHashes { prefix_hashes : list Z }.

Module NameHashes.
Section hashes.
Context `{Hasher}.

Definition accumulate (state : Z) (comp : NameComponent) : Z :=
  wrap 64 (wrap 64 (state * HASH_MIX) + component_hash comp).

Fixpoint from_components_loop (state : Z) (components : Name) : list Z :=
  match components with
  | [] => []
  | comp :: rest => let state := accumulate state comp in state :: from_components_loop state rest
  end.
Definition from_components (components : Name) : NameHashes :=
  mkNameHashes (from_components_loop 0 components).
Definition compute (name : Name) : NameHashes := from_components name.

Definition full_hash (self : NameHashes) : Z := default 0 (last (prefix_hashes self)).
(** Out of range it panics: [None]. *)
Definition prefix_hash (self : NameHashes) (n : Z) : option Z :=
  if n =? 0 then Some 0 else prefix_hashes self !! Z.to_nat (n - 1).
Definition len (self : NameHashes) : Z := zlen (prefix_hashes self).
Definition is_empty (self : NameHashes) : bool := len self =? 0.

Definition full_name_hash (name : Name) : Z := fold_left accumulate name 0.
End hashes.
End NameHashes.

(** ** Tokens *)

Abbreviation PitToken := Z (only parsing).

Module PitToken.
Section token.
Context `{Hasher}.
(** The forwarding hint does not enter the key. *)
Definition from_name_hash_keyed (name_hash : Z) (forwarding_hint : option (list Name))
    (disc : PitKeyDiscriminator) : PitToken := token_hash name_hash disc.
Definition from_name_hash (name_hash : Z) (forwarding_hint : option (list Name)) : PitToken :=
  from_name_hash_keyed name_hash forwarding_hint Classical.
Definition from_interest_full (name : Name) (forwarding_hint : option (list Name)) : PitToken :=
  from_name_hash (NameHashes.full_name_hash name) forwarding_hint.
Definition from_interest (name : Name) : PitToken := from_interest_full name None.
Definition persistent_attach_full (name : Name) (forwarding_hint : option (list Name)) : PitToken :=
  from_name_hash_keyed (NameHashes.full_name_hash name) forwarding_hint PersistentAttach.
Definition persistent_attach (name : Name) : PitToken :=
  from_name_hash_keyed (NameHashes.full_name_hash name) None PersistentAttach.
End token.
End PitToken.

(** ** Records *)

Record PersistentState : Type := mkPersistentState {
  data_count_remaining : Z;
  reap_at : Z;
  ps_subscription_id : option bytes
}.

Record OrphanedSubscription : Type := mkOrphan {
  o_data_count_remaining : Z;
  o_reap_at : Z
}.

Record InRecord : Type := mkInRecord {
  ir_face_id : Z;
  ir_nonce : Z;
  ir_expires_at : Z;
  lp_pit_token : option bytes;
  selector : Selector;
  ir_persistent : option PersistentState;
  trace_ids : list bytes
}.

Definition RETX_SUPPRESS_INITIAL_NS : Z := 10000000.
Definition RETX_SUPPRESS_MAX_NS : Z := 250000000.
Definition RETX_SUPPRESS_MULTIPLIER : Z := 2.

Record OutRecord : Type := mkOutRecord {
  or_face_id : Z;
  last_nonce : Z;
  sent_at : Z
}.

Record PitEntry : Type := mkPitEntry {
  pe_name : Name;
  retx_suppress_interval_ns : Z;
  in_records : list InRecord;
  out_records : list OutRecord;
  nonces_seen : list Z;
  is_satisfied : bool;
  created_at : Z;
  expires_at : Z;
  pe_persistent : option PersistentState;
  forward_cancelled : bool;
  upstream_lost : bool
}.

(** Field assignments. *)
Definition set_in_records (e : PitEntry) (rs : list InRecord) : PitEntry :=
  mkPitEntry (pe_name e) (retx_suppress_interval_ns e) rs (out_records e) (nonces_seen e)
    (is_satisfied e) (created_at e) (expires_at e) (pe_persistent e) (forward_cancelled e) (upstream_lost e).
Definition set_out_records (e : PitEntry) (rs : list OutRecord) : PitEntry :=
  mkPitEntry (pe_name e) (retx_suppress_interval_ns e) (in_records e) rs (nonces_seen e)
    (is_satisfied e) (created_at e) (expires_at e) (pe_persistent e) (forward_cancelled e) (upstream_lost e).
Definition set_nonces_seen (e : PitEntry) (ns : list Z) : PitEntry :=
  mkPitEntry (pe_name e) (retx_suppress_interval_ns e) (in_records e) (out_records e) ns
    (is_satisfied e) (created_at e) (expires_at e) (pe_persistent e) (forward_cancelled e) (upstream_lost e).
Definition set_retx (e : PitEntry) (i : Z) : PitEntry :=
  mkPitEntry (pe_name e) i (in_records e) (out_records e) (nonces_seen e)
    (is_satisfied e) (created_at e) (expires_at e) (pe_persistent e) (forward_cancelled e) (upstream_lost e).
Definition set_expires_at (e : PitEntry) (t : Z) : PitEntry :=
  mkPitEntry (pe_name e) (retx_suppress_interval_ns e) (in_records e) (out_records e) (nonces_seen e)
    (is_satisfied e) (created_at e) t (pe_persistent e) (forward_cancelled e) (upstream_lost e).
Definition set_persistent (e : PitEntry) (p : option PersistentState) : PitEntry :=
  mkPitEntry (pe_name e) (retx_suppress_interval_ns e) (in_records e) (out_records e) (nonces_seen e)
    (is_satisfied e) (created_at e) (expires_at e) p (forward_cancelled e) (upstream_lost e).
Definition set_forward_cancelled (e : PitEntry) (b : bool) : PitEntry :=
  mkPitEntry (pe_name e) (retx_suppress_interval_ns e) (in_records e) (out_records e) (nonces_seen e)
    (is_satisfied e) (created_at e) (expires_at e) (pe_persistent e) b (upstream_lost e).
Definition set_upstream_lost (e : PitEntry) (b : bool) : PitEntry :=
  mkPitEntry (pe_name e) (retx_suppress_interval_ns e) (in_records e) (out_records e) (nonces_seen e)
    (is_satisfied e) (created_at e) (expires_at e) (pe_persistent e) (forward_cancelled e) b.

Module PitEntry.

(** [now + lifetime_ms * 1_000_000] at [u64] (the release profile wraps). *)
Definition deadline (now lifetime_ms : Z) : Z := wrap 64 (now + wrap 64 (lifetime_ms * 1000000)).

Definition new (name : Name) (now lifetime_ms : Z) : PitEntry :=
  mkPitEntry name 0 [] [] [] false now (deadline now lifetime_ms) None false false.

Definition add_in_record_inner (self : PitEntry) (face_id nonce expires_at : Z)
    (lp_pit_token : option bytes) (selector : Selector) (persistent : option PersistentState)
    (trace_ids : list bytes) : PitEntry :=
  let self := set_in_records self (in_records self ++
    [mkInRecord face_id nonce expires_at lp_pit_token selector persistent trace_ids]) in
  if decide (nonce ∈ nonces_seen self) then self
  else set_nonces_seen self (nonces_seen self ++ [nonce]).

Definition add_in_record_with_persistent (self : PitEntry) (face_id nonce expires_at : Z)
    (lp_pit_token : option bytes) (selector : Selector) (persistent : option PersistentState) : PitEntry :=
  add_in_record_inner self face_id nonce expires_at lp_pit_token selector persistent [].

Definition add_in_record (self : PitEntry) (face_id nonce expires_at : Z)
    (lp_pit_token : option bytes) (selector : Selector) : PitEntry :=
  add_in_record_with_persistent self face_id nonce expires_at lp_pit_token selector None.

Definition add_in_record_with_trace_ids (self : PitEntry) (face_id nonce expires_at : Z)
    (lp_pit_token : option bytes) (selector : Selector) (persistent : option PersistentState)
    (trace_ids : list bytes) : PitEntry :=
  add_in_record_inner self face_id nonce expires_at lp_pit_token selector persistent trace_ids.

Definition is_some {A} (o : option A) : bool := match o with Some _ => true | None => false end.

Definition is_persistent (self : PitEntry) : bool :=
  is_some (pe_persistent self) || existsb (fun r => is_some (ir_persistent r)) (in_records self).

(** Renew the first record of the face, or push a new one. *)
Fixpoint renew_out_record (rs : list OutRecord) (face_id nonce sent_at : Z) : list OutRecord :=
  match rs with
  | [] => [mkOutRecord face_id nonce sent_at]
  | r :: rs => if or_face_id r =? face_id then mkOutRecord face_id nonce sent_at :: rs
               else r :: renew_out_record rs face_id nonce sent_at
  end.
Definition add_out_record (self : PitEntry) (face_id nonce sent_at : Z) : PitEntry :=
  set_out_records self (renew_out_record (out_records self) face_id nonce sent_at).

(** 0 stands for the initial window. *)
Definition current_interval (self : PitEntry) : Z :=
  if retx_suppress_interval_ns self =? 0 then RETX_SUPPRESS_INITIAL_NS
  else retx_suppress_interval_ns self.

Definition note_forward_decision (self : PitEntry) : PitEntry :=
  set_retx self (Z.min (sat_mul64 (current_interval self) RETX_SUPPRESS_MULTIPLIER) RETX_SUPPRESS_MAX_NS).

Definition suppressed_upstreams (self : PitEntry) (now_ns : Z) : list Z :=
  or_face_id <$> filter (fun r => sat_sub now_ns (sent_at r) < RETX_SUPPRESS_INITIAL_NS) (out_records self).

(** [.map(|r| r.sent_at).max()]. *)
Definition last_out (self : PitEntry) : option Z :=
  fold_left (fun acc r => Some (match acc with Some m => Z.max m (sent_at r) | None => sent_at r end))
    (out_records self) None.

Definition entry_retx_suppressed (self : PitEntry) (now_ns : Z) : bool :=
  match last_out self with
  | None => false
  | Some t => sat_sub now_ns t <? current_interval self
  end.

Definition in_record_faces (self : PitEntry) : list Z := ir_face_id <$> in_records self.
End PitEntry.

(** ** The table *)

Inductive PitEvent : Type := OnPitInsert (name : Name) | OnPitRemove (name : Name).

(** The observer is the log of the events it has received, latest first. *)
Record Pit : Type := mkPit {
  pit_log : option (list PitEvent);
  entries : gmap PitToken PitEntry;
  orphans : gmap bytes OrphanedSubscription
}.

Module Pit.
Definition new : Pit := mkPit None ∅ ∅.
Definition clear (self : Pit) : Pit := mkPit (pit_log self) ∅ ∅.
Definition set_observer (self : Pit) : Pit := mkPit (Some []) (entries self) (orphans self).

Definition set_entries (self : Pit) (es : gmap PitToken PitEntry) : Pit :=
  mkPit (pit_log self) es (orphans self).

Definition notify (self : Pit) (ev : PitEvent) : Pit :=
  mkPit (cons ev <$> pit_log self) (entries self) (orphans self).
Definition notify_insert (self : Pit) (e : PitEntry) : Pit := notify self (OnPitInsert (pe_name e)).
Definition notify_remove (self : Pit) (e : PitEntry) : Pit := notify self (OnPitRemove (pe_name e)).

Definition insert (self : Pit) (token : PitToken) (e : PitEntry) : Pit :=
  let self := notify_insert self e in
  set_entries self (<[token := e]> (entries self)).

Definition contains (self : Pit) (token : PitToken) : bool :=
  PitEntry.is_some (entries self !! token).

Definition with_entry {R} (self : Pit) (token : PitToken) (f : PitEntry -> R) : option R :=
  f <$> entries self !! token.

Definition with_entry_mut {R} (self : Pit) (token : PitToken) (f : PitEntry -> R * PitEntry)
    : option R * Pit :=
  match entries self !! token with
  | Some e => let '(r, e') := f e in (Some r, set_entries self (<[token := e']> (entries self)))
  | None => (None, self)
  end.

Definition with_named_entry `{Hasher} {R} (self : Pit) (name : Name) (disc : PitKeyDiscriminator)
    (f : PitEntry -> R) : option R :=
  with_entry self (PitToken.from_name_hash_keyed (NameHashes.full_name_hash name) None disc) f.

(** The vacant branch stores the new entry without notifying the observer. *)
Definition with_entry_or_insert {R} (self : Pit) (token : PitToken)
    (on_existing : PitEntry -> R * PitEntry) (on_new : PitEntry * R) : R * Pit :=
  match entries self !! token with
  | Some e =>
      let '(r, e') := on_existing e in (r, set_entries self (<[token := e']> (entries self)))
  | None =>
      let '(e, r) := on_new in (r, set_entries self (<[token := e]> (entries self)))
  end.

Definition remove (self : Pit) (token : PitToken) : option PitEntry * Pit :=
  match entries self !! token with
  | Some e => (Some e, notify_remove (set_entries self (delete token (entries self))) e)
  | None => (None, self)
  end.

Definition len (self : Pit) : Z := Z.of_nat (size (entries self)).
Definition is_empty (self : Pit) : bool := len self =? 0.

(** The [for token in &expired] loop. *)
Fixpoint drain_tokens (self : Pit) (expired : list PitToken) (out : list (PitToken * PitEntry))
    : list (PitToken * PitEntry) * Pit :=
  match expired with
  | [] => (out, self)
  | token :: rest =>
      match remove self token with
      | (Some e, self) => drain_tokens self rest (out ++ [(token, e)])
      | (None, self) => drain_tokens self rest out
      end
  end.

Definition drain_expired_entries (self : Pit) (now_ns : Z) : list (PitToken * PitEntry) * Pit :=
  let expired := (filter (fun p => expires_at p.2 <= now_ns) (map_to_list (entries self))).*1 in
  drain_tokens self expired [].

Definition drain_expired (self : Pit) (now_ns : Z) : list (PitToken * list Z) * Pit :=
  let '(out, self) := drain_expired_entries self now_ns in
  ((fun p => (p.1, PitEntry.in_record_faces p.2)) <$> out, self).

(** *** Orphaned subscriptions *)

Definition park_orphan (self : Pit) (id : bytes) (data_count_remaining reap_at : Z) : Pit :=
  if data_count_remaining =? 0 then self
  else
    let merged := match orphans self !! id with
      | Some o => mkOrphan (Z.max (o_data_count_remaining o) data_count_remaining)
                           (Z.max (o_reap_at o) reap_at)
      | None => mkOrphan data_count_remaining reap_at
      end in
    mkPit (pit_log self) (entries self) (<[id := merged]> (orphans self)).

Definition take_orphan (self : Pit) (id : bytes) (now_ns : Z) : option OrphanedSubscription * Pit :=
  let self' := mkPit (pit_log self) (entries self) (delete id (orphans self)) in
  (match orphans self !! id with
   | Some o => if now_ns <? o_reap_at o then Some o else None
   | None => None
   end, self').

Definition reap_orphans (self : Pit) (now_ns : Z) : Z * Pit :=
  let kept := filter (fun p => now_ns < o_reap_at p.2) (orphans self) in
  (Z.of_nat (size (orphans self)) - Z.of_nat (size kept), mkPit (pit_log self) (entries self) kept).

Definition orphan_count (self : Pit) : Z := Z.of_nat (size (orphans self)).

(** *** Face teardown *)

Definition park_record (face_id : Z) (self : Pit) (r : InRecord) : Pit :=
  if negb (ir_face_id r =? face_id) then self
  else match ir_persistent r with
       | Some ps =>
           match ps_subscription_id ps with
           | Some id => park_orphan self id (data_count_remaining ps) (reap_at ps)
           | None => self
           end
       | None => self
       end.
Definition park_dying_records (self : Pit) (e : PitEntry) (face_id : Z) : Pit :=
  fold_left (park_record face_id) (in_records e) self.

Definition any_in (e : PitEntry) (face_id : Z) : bool :=
  existsb (fun r => ir_face_id r =? face_id) (in_records e).
Definition any_out (e : PitEntry) (face_id : Z) : bool :=
  existsb (fun r => or_face_id r =? face_id) (out_records e).
Definition all_in_on_face (e : PitEntry) (face_id : Z) : bool :=
  negb (zlen (in_records e) =? 0) && forallb (fun r => ir_face_id r =? face_id) (in_records e).

(** The first loop: park budgets, and sort the touched entries. *)
Definition classify_entry (face_id : Z) (acc : Pit * list PitToken * list PitToken)
    (te : PitToken * PitEntry) : Pit * list PitToken * list PitToken :=
  let '(self, to_remove, to_prune) := acc in
  let '(token, e) := te in
  let self := if any_in e face_id then park_dying_records self e face_id else self in
  if all_in_on_face e face_id then (self, to_remove ++ [token], to_prune)
  else if any_in e face_id || any_out e face_id then (self, to_remove, to_prune ++ [token])
  else (self, to_remove, to_prune).

Definition prune_entry (face_id : Z) (e : PitEntry) : PitEntry :=
  let lost_upstream := any_out e face_id in
  let e := set_in_records e (filter (fun r => ir_face_id r <> face_id) (in_records e)) in
  let e := set_out_records e (filter (fun r => or_face_id r <> face_id) (out_records e)) in
  if lost_upstream then set_upstream_lost e true else e.

Definition remove_face (self : Pit) (face_id : Z) : Z * Pit :=
  let '(self, to_remove, to_prune) :=
    fold_left (classify_entry face_id) (map_to_list (entries self)) (self, [], []) in
  let removed := zlen to_remove in
  let self := fold_left (fun self token => snd (remove self token)) to_remove self in
  let self := fold_left (fun self token =>
    snd (with_entry_mut self token (fun e => (tt, prune_entry face_id e)))) to_prune self in
  (removed, self).
End Pit.

(** ** Name hashes agree with the names *)

Section hash_lemmas.
Context `{Hasher}.

Lemma from_components_loop_lookup st name k :
  (k < length name)%nat ->
  NameHashes.from_components_loop st name !! k = Some (fold_left NameHashes.accumulate (take (S k) name) st).
Proof.
  revert st k. induction name as [|c name IH]; intros st k; simpl; [lia|].
  destruct k as [|k]; intros Hk; simpl; [done|]. apply IH. lia.
Qed.

Lemma length_from_components_loop st name :
  length (NameHashes.from_components_loop st name) = length name.
Proof. revert st. induction name; intros st; simpl; [done|]. by rewrite IHname. Qed.

(** The precomputed prefix hashes are the hashes of the prefixes. *)
Lemma prefix_hash_spec name k :
  0 <= k <= zlen name ->
  NameHashes.prefix_hash (NameHashes.compute name) k =
    Some (NameHashes.full_name_hash (take (Z.to_nat k) name)).
Proof.
  unfold NameHashes.prefix_hash, zlen. intros Hk. destruct (Z.eqb_spec k 0) as [->|Hne]; [done|].
  unfold NameHashes.compute, NameHashes.from_components. simpl.
  rewrite from_components_loop_lookup by lia. unfold NameHashes.full_name_hash. do 3 f_equal. lia.
Qed.

Lemma full_hash_spec name :
  NameHashes.full_hash (NameHashes.compute name) = NameHashes.full_name_hash name.
Proof.
  unfold NameHashes.full_hash, NameHashes.compute, NameHashes.from_components. simpl.
  rewrite last_lookup, length_from_components_loop. destruct name as [|c name]; [done|].
  rewrite from_components_loop_lookup by (simpl; lia). simpl.
  by rewrite take_ge by lia.
Qed.
End hash_lemmas.

(** ** Entries *)

Lemma renew_out_record_faces rs f nonce t :
  or_face_id <$> PitEntry.renew_out_record rs f nonce t =
    (or_face_id <$> rs) ++ (if decide (f ∈ or_face_id <$> rs) then [] else [f]).
Proof.
  induction rs as [|r rs IH]; cbn [PitEntry.renew_out_record].
  - by rewrite decide_False by set_solver.
  - destruct (Z.eqb_spec (or_face_id r) f) as [<-|Hne]; rewrite !fmap_cons.
    + rewrite decide_True by left. by rewrite app_nil_r.
    + rewrite IH. cbn [app]. f_equal. f_equal. repeat case_decide; set_solver.
Qed.

Lemma renew_out_record_elem rs f nonce t r :
  NoDup (or_face_id <$> rs) ->
  r ∈ PitEntry.renew_out_record rs f nonce t <->
    r = mkOutRecord f nonce t \/ (r ∈ rs /\ or_face_id r <> f).
Proof.
  induction rs as [|r0 rs IH]; simpl; intros Hnd; [set_solver|].
  apply NoDup_cons in Hnd as [Hr0 Hnd]. destruct (Z.eqb_spec (or_face_id r0) f) as [Heq|Hne].
  - rewrite !elem_of_cons. split; [intros [->|Hin]; [by left|right]|naive_solver].
    split; [by right|]. intros Hf. apply Hr0. rewrite Heq, <- Hf. by apply list_elem_of_fmap_2.
  - rewrite !elem_of_cons, (IH Hnd). naive_solver.
Qed.

(** The suppression window after [k] forwarding decisions. *)
Definition window (k : nat) : Z := Z.min (RETX_SUPPRESS_INITIAL_NS * 2 ^ Z.of_nat k) RETX_SUPPRESS_MAX_NS.

Lemma note_forward_iter k e :
  retx_suppress_interval_ns e = 0 -> (0 < k)%nat ->
  retx_suppress_interval_ns (Nat.iter k PitEntry.note_forward_decision e) = window k.
Proof.
  intros He Hk. destruct k as [|k]; [lia|]. clear Hk.
  induction k as [|k IH].
  - simpl. unfold PitEntry.current_interval. by rewrite He.
  - change (Nat.iter (S (S k)) PitEntry.note_forward_decision e)
      with (PitEntry.note_forward_decision (Nat.iter (S k) PitEntry.note_forward_decision e)).
    unfold PitEntry.note_forward_decision at 1. cbn [set_retx retx_suppress_interval_ns].
    unfold PitEntry.current_interval. rewrite IH. unfold window, sat_mul64.
    unfold RETX_SUPPRESS_INITIAL_NS, RETX_SUPPRESS_MAX_NS, RETX_SUPPRESS_MULTIPLIER, u64_max.
    rewrite !Nat2Z.inj_succ, !Z.pow_succ_r by lia.
    pose proof (Z.pow_pos_nonneg 2 (Z.of_nat k) ltac:(lia) ltac:(lia)).
    match goal with |- context [if ?x =? 0 then _ else _] => destruct (Z.eqb_spec x 0); [lia|] end. lia.
Qed.

Lemma window_pos k : 0 < window k.
Proof.
  unfold window, RETX_SUPPRESS_INITIAL_NS, RETX_SUPPRESS_MAX_NS.
  pose proof (Z.pow_pos_nonneg 2 (Z.of_nat k) ltac:(lia) ltac:(lia)). lia.
Qed.

Lemma iter_out_records k e :
  out_records (Nat.iter k PitEntry.note_forward_decision e) = out_records e.
Proof. induction k as [|k IH]; [done|]. exact IH. Qed.

Lemma iter_interval k e :
  retx_suppress_interval_ns e = 0 ->
  PitEntry.current_interval (Nat.iter k PitEntry.note_forward_decision e) = window k.
Proof.
  intros He. unfold PitEntry.current_interval. destruct k as [|k].
  - change (Nat.iter 0 PitEntry.note_forward_decision e) with e. by rewrite He.
  - rewrite note_forward_iter by (done || lia). pose proof (window_pos (S k)).
    rewrite (proj2 (Z.eqb_neq _ _)); [done|lia].
Qed.

Lemma last_out_fold rs acc :
  fold_left (fun acc r => Some (match acc with Some m => Z.max m (sent_at r) | None => sent_at r end)) rs (Some acc) =
    Some (fold_right Z.max acc (sent_at <$> rs)).
Proof.
  assert (forall l a b, fold_right Z.max (Z.max a b) l = Z.max b (fold_right Z.max a l)) as Hmax.
  { intros l a b. induction l as [|x l IHl]; simpl; [lia|]. rewrite IHl. lia. }
  revert acc. induction rs as [|r rs IH]; intros acc; [done|]. cbn [fold_left].
  rewrite IH, fmap_cons, Hmax. done.
Qed.

Lemma last_out_spec e :
  match PitEntry.last_out e with
  | Some t => (exists r, r ∈ out_records e /\ sent_at r = t) /\ forall r, r ∈ out_records e -> sent_at r <= t
  | None => out_records e = []
  end.
Proof.
  unfold PitEntry.last_out. destruct (out_records e) as [|r rs]; [done|]. cbn [fold_left].
  rewrite last_out_fold. induction rs as [|r' rs IH]; rewrite ?fmap_cons; cbn [fold_right].
  - split; [exists r; split; [left|done]|]. intros r0 ->%list_elem_of_singleton. simpl. lia.
  - destruct IH as [(r1 & Hr1 & Heq) Hmax]. split.
    + destruct (Z.max_spec (sent_at r') (fold_right Z.max (sent_at r) (sent_at <$> rs))) as [[_ ->]|[_ ->]].
      * exists r1. split; [|done]. apply elem_of_cons in Hr1 as [->|?]; [left|do 2 right; done].
      * exists r'. split; [right; left|done].
    + intros r0 [->|[->|H0]%elem_of_cons]%elem_of_cons; [specialize (Hmax r ltac:(left)); lia|lia|].
      specialize (Hmax r0 ltac:(right; done)). lia.
Qed.

(** Retransmission suppression.  However often an Interest is sent
    upstream, an entry holds one out-record per face, that of the last
    transmission; after [k] forwarding decisions its window is 10 ms doubled [k]
    times, at most 250 ms; and an Interest is suppressed exactly when the entry
    was sent upstream less than the window ago. *)
Theorem retx_suppression (e : PitEntry) (face nonce t now : Z) (k : nat) :
  NoDup (or_face_id <$> out_records e) -> retx_suppress_interval_ns e = 0 ->
  (let e' := PitEntry.add_out_record e face nonce t in
   NoDup (or_face_id <$> out_records e') /\
   forall r, r ∈ out_records e' <-> r = mkOutRecord face nonce t \/ (r ∈ out_records e /\ or_face_id r <> face)) /\
  (let e' := Nat.iter k PitEntry.note_forward_decision e in
   out_records e' = out_records e /\
   (PitEntry.entry_retx_suppressed e' now = true <->
    exists r, r ∈ out_records e /\ (forall r', r' ∈ out_records e -> sent_at r' <= sent_at r) /\
              sat_sub now (sent_at r) < window k)).
Proof.
  intros Hnd He. split.
  - simpl. split.
    + rewrite renew_out_record_faces. case_decide; [by rewrite app_nil_r|].
      apply NoDup_app. split_and!; [done|set_solver|apply NoDup_singleton].
    + intros r. by apply renew_out_record_elem.
  - pose proof (iter_out_records k e) as Hout. pose proof (iter_interval k e He) as Hint. revert Hout Hint.
    generalize (Nat.iter k PitEntry.note_forward_decision e) as e'. generalize (window k) as w.
    intros w e' Hout Hint. cbv zeta. split; [done|].
    unfold PitEntry.entry_retx_suppressed. rewrite Hint.
    pose proof (last_out_spec e') as Hl. rewrite Hout in Hl. destruct (PitEntry.last_out e') as [m|].
    + destruct Hl as [(r & Hr & <-) Hmax]. rewrite Z.ltb_lt. split; [eauto|].
      intros (r' & Hr' & Hmax' & Hlt). specialize (Hmax _ Hr'). specialize (Hmax' _ Hr).
      by replace (sent_at r) with (sent_at r') by lia.
    + rewrite Hl. split; [done|]. intros (r & Hr & _). set_solver.
Qed.

(** ** Removal and expiry *)

(** The log after the entries of [l] were reported removed, in order. *)
Definition log_removed (l : list (PitToken * PitEntry)) (log : option (list PitEvent)) : option (list PitEvent) :=
  (fun evs => rev (map (fun p => OnPitRemove (pe_name p.2)) l) ++ evs) <$> log.

Lemma log_removed_cons te l log :
  log_removed (te :: l) log = log_removed l (cons (OnPitRemove (pe_name te.2)) <$> log).
Proof. unfold log_removed. destruct log as [evs|]; [|done]. simpl. by rewrite <- app_assoc. Qed.

Lemma drain_tokens_spec l p out :
  NoDup l.*1 -> (forall te, te ∈ l -> entries p !! te.1 = Some te.2) ->
  exists p', Pit.drain_tokens p l.*1 out = (out ++ l, p') /\
    orphans p' = orphans p /\ pit_log p' = log_removed l (pit_log p) /\
    forall t, entries p' !! t = if decide (t ∈ l.*1) then None else entries p !! t.
Proof.
  revert p out. induction l as [|[t e] l IH]; intros p out Hnd Hin; rewrite ?fmap_cons in *;
    cbn [Pit.drain_tokens].
  { exists p. rewrite app_nil_r. split_and!; [done|done|unfold log_removed; by destruct (pit_log p)|].
    intros t. by rewrite decide_False by set_solver. }
  apply NoDup_cons in Hnd as [Ht Hnd]. unfold Pit.remove.
  rewrite (Hin (t, e) ltac:(left)). cbn [fst snd].
  destruct (IH (Pit.notify_remove (Pit.set_entries p (delete t (entries p))) e) (out ++ [(t, e)]) Hnd)
    as (p' & -> & Ho & Hlog & Hlook).
  { intros te Hte. simpl. rewrite lookup_delete_ne; [apply Hin; by right|].
    intros ->. apply Ht, list_elem_of_fmap. by exists te. }
  exists p'. split_and!; [by rewrite <- app_assoc|done| |].
  - rewrite Hlog. symmetry. apply log_removed_cons.
  - intros t'. rewrite Hlook. cbn. rewrite lookup_delete. repeat case_decide; set_solver.
Qed.

(** Expiry drains exactly the expired entries: each is returned once,
    with its token, and reported to the observer once; the others stay as they
    are. *)
Theorem drain_expired_exact (p : Pit) (now : Z) :
  let '(out, p') := Pit.drain_expired_entries p now in
  NoDup out.*1 /\
  (forall t e, (t, e) ∈ out <-> entries p !! t = Some e /\ expires_at e <= now) /\
  (forall t, entries p' !! t = match entries p !! t with
                               | Some e => if expires_at e <=? now then None else Some e
                               | None => None
                               end) /\
  orphans p' = orphans p /\ pit_log p' = log_removed out (pit_log p).
Proof.
  unfold Pit.drain_expired_entries.
  set (l := filter (fun te : PitToken * PitEntry => expires_at te.2 <= now) (map_to_list (entries p))).
  assert (forall t e, (t, e) ∈ l <-> entries p !! t = Some e /\ expires_at e <= now) as Hl.
  { intros t e. subst l. rewrite list_elem_of_filter, elem_of_map_to_list. tauto. }
  assert (NoDup l.*1) as Hnd.
  { eapply sublist_NoDup; [apply (NoDup_fst_map_to_list (entries p))|]. apply fmap_sublist, sublist_filter. }
  destruct (drain_tokens_spec l p [] Hnd) as (p' & -> & Ho & Hlog & Hlook).
  { intros [t e] Hte. by apply Hl in Hte as [? _]. }
  split_conj; [done|done| |done|done].
  intros t. rewrite Hlook. case_decide as Hin.
  - apply list_elem_of_fmap in Hin as ([t' e] & -> & Hin%Hl). simpl. destruct Hin as [-> Hle].
    by rewrite (proj2 (Z.leb_le _ _) Hle).
  - destruct (entries p !! t) as [e|] eqn:He; [|done]. destruct (Z.leb_spec (expires_at e) now); [|done].
    destruct Hin. apply list_elem_of_fmap. exists (t, e). split; [done|by apply Hl].
Qed.

(** ** Orphaned budgets *)

Definition orphan_le (o o' : OrphanedSubscription) : Prop :=
  o_data_count_remaining o <= o_data_count_remaining o' /\ o_reap_at o <= o_reap_at o'.

(** A table of budgets that has lost none of another's. *)
Definition orphans_ge (m m' : gmap bytes OrphanedSubscription) : Prop :=
  forall id o, m !! id = Some o -> exists o', m' !! id = Some o' /\ orphan_le o o'.

#[export] Instance orphan_le_preorder : PreOrder orphan_le.
Proof. split; [intros o; split; lia|]. intros o o' o'' [] []. split; lia. Qed.
#[export] Instance orphans_ge_preorder : PreOrder orphans_ge.
Proof.
  split; [intros m id o Ho; exists o; split; [done|reflexivity]|].
  intros m m' m'' H1 H2 id o Ho. destruct (H1 id o Ho) as (o' & Ho' & ?).
  destruct (H2 id o' Ho') as (o'' & Ho'' & ?). exists o''. split; [done|]. by transitivity o'.
Qed.

Lemma park_orphan_ge p id c t : orphans_ge (orphans p) (orphans (Pit.park_orphan p id c t)).
Proof.
  intros id' o Ho. unfold Pit.park_orphan. destruct (c =? 0); [exists o; split; [done|reflexivity]|]. simpl.
  rewrite lookup_insert. case_decide as Heq; [|exists o; split; [done|reflexivity]].
  subst id'. rewrite Ho. eexists. split; [done|]. split; simpl; lia.
Qed.

Lemma park_orphan_budget p id c t :
  c <> 0 -> exists o, orphans (Pit.park_orphan p id c t) !! id = Some o /\ orphan_le (mkOrphan c t) o.
Proof.
  intros Hc. unfold Pit.park_orphan. rewrite (proj2 (Z.eqb_neq _ _) Hc). simpl. rewrite lookup_insert_eq.
  eexists. split; [done|]. destruct (orphans p !! id); split; simpl; lia.
Qed.

Lemma park_orphan_other p id c t id' : id' <> id -> orphans (Pit.park_orphan p id c t) !! id' = orphans p !! id'.
Proof.
  intros Hne. unfold Pit.park_orphan. destruct (c =? 0); [done|]. simpl. by rewrite lookup_insert_ne by congruence.
Qed.

(** The surviving budget of an in-record, if it has one to park. *)
Definition dying_budget (face : Z) (r : InRecord) : option (bytes * OrphanedSubscription) :=
  if ir_face_id r =? face then
    match ir_persistent r with
    | Some ps =>
        match ps_subscription_id ps with
        | Some id => if data_count_remaining ps =? 0 then None
                     else Some (id, mkOrphan (data_count_remaining ps) (reap_at ps))
        | None => None
        end
    | None => None
    end
  else None.

Lemma park_record_spec face p r :
  entries (Pit.park_record face p r) = entries p /\ pit_log (Pit.park_record face p r) = pit_log p /\
  orphans_ge (orphans p) (orphans (Pit.park_record face p r)) /\
  (forall id o, dying_budget face r = Some (id, o) ->
     exists o', orphans (Pit.park_record face p r) !! id = Some o' /\ orphan_le o o') /\
  (forall id, (forall o, dying_budget face r <> Some (id, o)) ->
     orphans (Pit.park_record face p r) !! id = orphans p !! id).
Proof.
  unfold Pit.park_record, dying_budget. destruct (Z.eqb_spec (ir_face_id r) face) as [Hf|]; simpl; [|by split_conj].
  destruct (ir_persistent r) as [[c t [id|]]|]; simpl; [|by split_conj..].
  pose proof (park_orphan_ge p id c t).
  destruct (Z.eqb_spec c 0) as [->|Hc]; [unfold Pit.park_orphan; by split_conj|].
  split_conj; [unfold Pit.park_orphan; by destruct (c =? 0)..|done| |].
  - intros id' o [= <- <-]. by apply park_orphan_budget.
  - intros id' Hne. apply park_orphan_other. intros ->. by destruct (Hne (mkOrphan c t)).
Qed.

(** What a fold of parking steps over records keeps. *)
Definition parked (budgets : list (bytes * OrphanedSubscription)) (p p' : Pit) : Prop :=
  entries p' = entries p /\ pit_log p' = pit_log p /\ orphans_ge (orphans p) (orphans p') /\
  (forall id o, (id, o) ∈ budgets -> exists o', orphans p' !! id = Some o' /\ orphan_le o o') /\
  (forall id, (forall o, (id, o) ∉ budgets) -> orphans p' !! id = orphans p !! id).

Lemma parked_nil p : parked [] p p.
Proof. unfold parked. split_conj; try done; intros id o ?%not_elem_of_nil; done. Qed.

Lemma parked_trans b1 b2 p p' p'' : parked b1 p p' -> parked b2 p' p'' -> parked (b1 ++ b2) p p''.
Proof.
  intros (He1 & Hl1 & Hg1 & Hb1 & Ho1) (He2 & Hl2 & Hg2 & Hb2 & Ho2). unfold parked.
  split_conj; [congruence|congruence|by transitivity (orphans p')| |].
  - intros id o [H|H]%elem_of_app; [|by apply Hb2].
    destruct (Hb1 id o H) as (o' & Ho' & ?). destruct (Hg2 id o' Ho') as (o'' & ? & ?).
    exists o''. split; [done|]. by transitivity o'.
  - intros id Hne. rewrite Ho2, Ho1; [done|..]; intros o Hin; apply (Hne o), elem_of_app; auto.
Qed.

Lemma park_dying_parked e face p :
  parked (omap (dying_budget face) (in_records e)) p (Pit.park_dying_records p e face).
Proof.
  unfold Pit.park_dying_records. revert p. induction (in_records e) as [|r rs IH]; intros p; [apply parked_nil|].
  cbn [fold_left]. assert (omap (dying_budget face) (r :: rs) =
    omap (dying_budget face) [r] ++ omap (dying_budget face) rs) as -> by (simpl; by destruct (dying_budget face r)).
  eapply parked_trans; [|apply IH].
  destruct (park_record_spec face p r) as (H1 & H2 & H3 & H4 & H5). unfold parked. simpl.
  split_conj; [done|done|done| |].
  - intros id o Hin. apply H4. destruct (dying_budget face r) as [b|]; [|by apply not_elem_of_nil in Hin].
    by apply list_elem_of_singleton in Hin as ->.
  - intros id Hne. apply H5. intros o Heq. apply (Hne o). rewrite Heq. left.
Qed.

(** ** Face teardown *)

Lemma no_dying_budget face rs :
  existsb (fun r => ir_face_id r =? face) rs = false -> omap (dying_budget face) rs = [].
Proof.
  induction rs as [|r rs IH]; simpl; [done|]. intros [Hr Hrs]%orb_false_iff.
  unfold dying_budget. rewrite Hr. by apply IH.
Qed.

Lemma filter_true_id {A} (P : A -> Prop) `{forall x, Decision (P x)} l : Forall P l -> filter P l = l.
Proof. induction 1 as [|x l Hx _ IH]; [done|]. rewrite filter_cons_True by done. by rewrite IH. Qed.

(** An entry that does not mention the face is not changed by pruning. *)
Lemma prune_entry_id face e :
  Pit.any_in e face = false -> Pit.any_out e face = false -> Pit.prune_entry face e = e.
Proof.
  unfold Pit.any_in, Pit.any_out. intros Hin Hout. unfold Pit.prune_entry, Pit.any_out.
  rewrite Hout. destruct e as [n ri irs ors ns sat cr ex pp fc ul]. cbn in *.
  rewrite !filter_true_id; [done|..].
  - apply Forall_forall. intros r Hr Hf. apply not_true_iff_false in Hout. apply Hout, existsb_exists.
    exists r. split; [by apply list_elem_of_In|by apply Z.eqb_eq].
  - apply Forall_forall. intros r Hr Hf. apply not_true_iff_false in Hin. apply Hin, existsb_exists.
    exists r. split; [by apply list_elem_of_In|by apply Z.eqb_eq].
Qed.

Definition to_remove (face : Z) (l : list (PitToken * PitEntry)) : list PitToken :=
  (filter (fun te => Pit.all_in_on_face te.2 face = true) l).*1.
Definition to_prune (face : Z) (l : list (PitToken * PitEntry)) : list PitToken :=
  (filter (fun te => Pit.all_in_on_face te.2 face = false /\
                     Pit.any_in te.2 face || Pit.any_out te.2 face = true) l).*1.
Definition dying_budgets (face : Z) (l : list (PitToken * PitEntry)) : list (bytes * OrphanedSubscription) :=
  concat (map (fun te => omap (dying_budget face) (in_records te.2)) l).

Lemma classify_fold face l p R P :
  exists p', fold_left (Pit.classify_entry face) l (p, R, P) = (p', R ++ to_remove face l, P ++ to_prune face l) /\
    parked (dying_budgets face l) p p'.
Proof.
  revert p R P. induction l as [|[t e] l IH]; intros p R P.
  { exists p. unfold to_remove, to_prune. simpl. rewrite !app_nil_r. split; [done|apply parked_nil]. }
  cbn [fold_left]. unfold Pit.classify_entry at 2.
  set (p1 := if Pit.any_in e face then Pit.park_dying_records p e face else p).
  assert (parked (omap (dying_budget face) (in_records e)) p p1) as Hp1.
  { subst p1. destruct (Pit.any_in e face) eqn:Ha; [apply park_dying_parked|].
    rewrite no_dying_budget by done. apply parked_nil. }
  assert (dying_budgets face ((t, e) :: l) = omap (dying_budget face) (in_records e) ++ dying_budgets face l) as -> by done.
  unfold to_remove, to_prune. rewrite !filter_cons. cbn [fst snd].
  destruct (Pit.all_in_on_face e face) eqn:Hall.
  - destruct (IH p1 (R ++ [t]) P) as (p' & Hfold & Hp'). exists p'. rewrite Hfold.
    rewrite decide_True, (decide_False (P := true = false /\ _)) by naive_solver. rewrite fmap_cons, <- app_assoc.
    split; [done|]. by eapply parked_trans.
  - rewrite (decide_False (P := false = true)) by done.
    destruct (Pit.any_in e face || Pit.any_out e face) eqn:Hany.
    + destruct (IH p1 R (P ++ [t])) as (p' & Hfold & Hp'). exists p'. rewrite Hfold.
      rewrite decide_True by done. rewrite fmap_cons, <- app_assoc. split; [done|]. by eapply parked_trans.
    + destruct (IH p1 R P) as (p' & Hfold & Hp'). exists p'. rewrite Hfold.
      rewrite decide_False by naive_solver. split; [done|]. by eapply parked_trans.
Qed.

Lemma remove_fold ts p :
  let p' := fold_left (fun self token => snd (Pit.remove self token)) ts p in
  orphans p' = orphans p /\
  forall t, entries p' !! t = if decide (t ∈ ts) then None else entries p !! t.
Proof.
  revert p. induction ts as [|x ts IH]; intros p; cbn [fold_left].
  - split; [done|]. intros t. by rewrite decide_False by set_solver.
  - destruct (IH (snd (Pit.remove p x))) as [Ho Hl].
    assert (orphans (snd (Pit.remove p x)) = orphans p /\
      entries (snd (Pit.remove p x)) = delete x (entries p)) as [Hro Hre].
    { unfold Pit.remove. destruct (entries p !! x) eqn:Hx; [done|]. split; [done|]. by rewrite delete_id. }
    split; [congruence|]. intros t. rewrite Hl, Hre, lookup_delete. repeat case_decide; set_solver.
Qed.

Lemma prune_fold face ts p :
  NoDup ts ->
  let p' := fold_left (fun self token =>
    snd (Pit.with_entry_mut self token (fun e => (tt, Pit.prune_entry face e)))) ts p in
  orphans p' = orphans p /\
  forall t, entries p' !! t = if decide (t ∈ ts) then Pit.prune_entry face <$> entries p !! t else entries p !! t.
Proof.
  revert p. induction ts as [|x ts IH]; intros p Hnd; cbn [fold_left].
  - split; [done|]. intros t. by rewrite decide_False by set_solver.
  - apply NoDup_cons in Hnd as [Hx Hnd].
    set (p1 := snd (Pit.with_entry_mut p x (fun e => (tt, Pit.prune_entry face e)))).
    destruct (IH p1 Hnd) as [Ho Hl].
    assert (orphans p1 = orphans p /\ forall t, entries p1 !! t =
      if decide (t = x) then Pit.prune_entry face <$> entries p !! x else entries p !! t) as [Hro Hre].
    { subst p1. unfold Pit.with_entry_mut. destruct (entries p !! x) as [e|] eqn:He; simpl.
      - split; [done|]. intros t. rewrite lookup_insert. repeat case_decide; congruence.
      - split; [done|]. intros t. case_decide; congruence. }
    split; [congruence|]. intros t. rewrite Hl, Hre.
    destruct (decide (t = x)) as [->|Hne].
    + rewrite decide_False by done. by rewrite decide_True by left.
    + repeat case_decide; set_solver.
Qed.

Lemma elem_to_remove face m t :
  t ∈ to_remove face (map_to_list m) <-> exists e, m !! t = Some e /\ Pit.all_in_on_face e face = true.
Proof.
  unfold to_remove. rewrite list_elem_of_fmap. split.
  - intros ([t' e] & -> & [? ?%elem_of_map_to_list]%list_elem_of_filter). eauto.
  - intros (e & He & Hb). exists (t, e). split; [done|]. apply list_elem_of_filter.
    split; [done|by apply elem_of_map_to_list].
Qed.

Lemma elem_to_prune face m t :
  t ∈ to_prune face (map_to_list m) <-> exists e, m !! t = Some e /\ Pit.all_in_on_face e face = false /\
    Pit.any_in e face || Pit.any_out e face = true.
Proof.
  unfold to_prune. rewrite list_elem_of_fmap. split.
  - intros ([t' e] & -> & [? ?%elem_of_map_to_list]%list_elem_of_filter). eauto.
  - intros (e & He & Hb). exists (t, e). split; [done|]. apply list_elem_of_filter.
    split; [done|by apply elem_of_map_to_list].
Qed.

Lemma NoDup_tokens (P : PitToken * PitEntry -> Prop) `{forall x, Decision (P x)} (m : gmap PitToken PitEntry) :
  NoDup (filter P (map_to_list m)).*1.
Proof.
  eapply sublist_NoDup; [apply (NoDup_fst_map_to_list m)|]. apply fmap_sublist, sublist_filter.
Qed.

(** Removing distinct present keys, whatever happens to the other values. *)
Lemma size_removed (m m' : gmap PitToken PitEntry) ts :
  NoDup ts -> (forall t, t ∈ ts -> is_Some (m !! t)) ->
  (forall t, is_Some (m' !! t) <-> is_Some (m !! t) /\ t ∉ ts) ->
  Z.of_nat (size m') = Z.of_nat (size m) - zlen ts.
Proof.
  intros Hnd Hin Hm'. rewrite <- !size_dom.
  assert (dom m' = dom m ∖ list_to_set ts) as ->.
  { apply set_eq. intros t. rewrite elem_of_difference, !elem_of_dom, elem_of_list_to_set. apply Hm'. }
  assert (list_to_set ts ⊆ dom m) as Hsub.
  { intros t Ht%elem_of_list_to_set. by apply elem_of_dom, Hin. }
  rewrite size_difference by done. pose proof (subseteq_size _ _ Hsub) as Hle.
  rewrite size_list_to_set in * by done. unfold zlen. lia.
Qed.

(** Tearing a face down.  An entry all of whose downstreams were on the
    face is removed, and counted; every other entry loses its records on the
    face and nothing else, and learns that its upstream is lost when it was sent
    there; entries that do not mention the face are unchanged.  No subscription
    budget is lost: every positive budget of a dying in-record with an identifier
    is in the orphan index, at least as large and as long-lived. *)
Theorem remove_face_spec (p : Pit) (face : Z) :
  let '(removed, p') := Pit.remove_face p face in
  (forall t, entries p' !! t =
     match entries p !! t with
     | Some e => if Pit.all_in_on_face e face then None else Some (Pit.prune_entry face e)
     | None => None
     end) /\
  removed = Z.of_nat (size (entries p)) - Z.of_nat (size (entries p')) /\
  (forall t e id o r, entries p !! t = Some e -> r ∈ in_records e -> dying_budget face r = Some (id, o) ->
     exists o', orphans p' !! id = Some o' /\ orphan_le o o') /\
  orphans_ge (orphans p) (orphans p').
Proof.
  unfold Pit.remove_face. set (l := map_to_list (entries p)).
  destruct (classify_fold face l p [] []) as (p1 & -> & He1 & _ & Hge & Hbud & _). cbn [app].
  destruct (remove_fold (to_remove face l) p1) as [Ho2 Hl2].
  set (p2 := fold_left _ (to_remove face l) p1) in *.
  destruct (prune_fold face (to_prune face l) p2 (NoDup_tokens _ _)) as [Ho3 Hl3].
  set (p3 := fold_left _ (to_prune face l) p2) in *.
  assert (forall t, entries p3 !! t = match entries p !! t with
     | Some e => if Pit.all_in_on_face e face then None else Some (Pit.prune_entry face e)
     | None => None end) as Hentries.
  { intros t. rewrite Hl3, !Hl2, He1. pose proof (elem_to_remove face (entries p) t) as Hr.
    pose proof (elem_to_prune face (entries p) t) as Hpr. fold l in Hr, Hpr.
    destruct (entries p !! t) as [e|]; [|by repeat case_decide].
    destruct (Pit.all_in_on_face e face) eqn:Ha.
    - rewrite decide_False, decide_True; [done|apply Hr; eauto|].
      rewrite Hpr. intros (e' & [= <-] & Hf & _). congruence.
    - rewrite (decide_False (P := t ∈ to_remove face l)) by (rewrite Hr; intros (e' & [= <-] & Hf); congruence).
      case_decide as Hin; [done|]. f_equal. symmetry.
      destruct (Pit.any_in e face) eqn:H1, (Pit.any_out e face) eqn:H2;
        try (destruct Hin; apply Hpr; exists e; by rewrite H1, H2). by apply prune_entry_id. }
  split_conj; [done| | |].
  - rewrite (size_removed (entries p) (entries p3) (to_remove face l)); [lia|apply NoDup_tokens| |].
    + intros t (e & -> & _)%elem_to_remove. done.
    + intros t. rewrite Hentries. pose proof (elem_to_remove face (entries p) t) as Hr. fold l in Hr. rewrite Hr.
      destruct (entries p !! t) as [e|]; [|split; [by intros []|by intros [[] _]]].
      destruct (Pit.all_in_on_face e face) eqn:Ha.
      * split; [by intros []|]. intros [_ Hn]. destruct Hn. eauto.
      * split; [intros _; split; [done|]|done]. intros (e' & [= <-] & Hf). congruence.
  - intros t e id o r He Hr Hd. rewrite Ho3, Ho2. apply Hbud. unfold dying_budgets.
    apply list_elem_of_In, in_concat. exists (omap (dying_budget face) (in_records e)). split.
    + apply in_map_iff. exists (t, e). split; [done|]. by apply list_elem_of_In, elem_of_map_to_list.
    + apply list_elem_of_In, list_elem_of_omap. eauto.
  - rewrite Ho3, Ho2. done.
Qed.

(** The atomic check-and-insert the Interest pipeline uses creates an entry the
    observer never hears of, and its removal is reported: the events say that an
    entry left that never came. *)
Lemma with_entry_or_insert_unreported (p : Pit) (token : PitToken) (e : PitEntry) evs :
  pit_log p = Some evs -> entries p !! token = None ->
  let '(_, p1) := Pit.with_entry_or_insert p token (fun e => (tt, e)) (e, tt) in
  let '(_, p2) := Pit.remove p1 token in
  pit_log p1 = Some evs /\ entries p1 !! token = Some e /\
  pit_log p2 = Some (OnPitRemove (pe_name e) :: evs).
Proof.
  intros Hlog Hnone. unfold Pit.with_entry_or_insert. rewrite Hnone. unfold Pit.remove. simpl.
  rewrite lookup_insert_eq. simpl. by rewrite Hlog.
Qed.

Definition example_entry : PitEntry := PitEntry.new [Component.generic [97]] 0 4000.

Lemma retx_suppression_witness :
  NoDup (or_face_id <$> out_records (PitEntry.add_out_record example_entry 7 1 5)).
Proof. apply (retx_suppression example_entry 7 1 5 9 3); [apply NoDup_nil_2|reflexivity]. Defined.
