(* ===== verification/PitStage.v ===== *)
(** * The PIT stages of the pipeline ([crates/forwarding/ndn-engine/src/stages/pit.rs])

    [PitCheckStage] admits an Interest: replay guard, subscription request, dead
    nonces, then check-and-insert in the PIT.  [PitMatchStage] finds every
    pending Interest a Data packet satisfies.  With them, the per-packet context
    and the actions of [pipeline/].

    The stages share the PIT, the dead nonce list and the replay guard (each an
    [Arc] in the code): the three are one store, [Shared], passed from step to
    step.  What the faces report as their link type is the map [face_table]; the
    verdict of the validator on a signed Interest is an argument.  [None] as the
    result of a stage is a panic; the lemmas show it never happens. *)

From S2P Require Import Prelude Tlv Name Face Packet Lp Evict DeadNonce ReplayGuard Pit.
#[local] Open Scope Z_scope.

(** ** The pipeline's vocabulary *)


Inductive NackReason : Type := NoRoute | Duplicate | Congestion | NotYet.

Inductive DropReason : Type :=
| DropMalformedPacket
| UnknownFace
| LoopDetected
| Suppressed
| RateLimited
| HopLimitExceeded
| ScopeViolation
| FragmentCollect
| ValidationFailed
| ValidationTimeout
| InvalidPersistentRequest
| DropOther.

Inductive DecodedPacket : Type :=
| PktRaw
| PktInterest (i : Interest)
| PktData (d : Data)
| PktNack (n : nack.Nack).

(** All fields but [tags], a map of values of arbitrary types no stage here
    looks at. *)
Record PacketContext : Type := mkContext {
  raw_bytes : bytes;
  face_id : Z;
  ctx_name : option Name;
  packet : DecodedPacket;
  name_hashes : option NameHashes;
  pit_token : option PitToken;
  ctx_lp_pit_token : option bytes;
  out_faces : list Z;
  out_pit_tokens : list (option bytes);
  endpoint_id : Z;
  cs_hit : bool;
  verified : bool;
  validation_not_configured : bool;
  unsolicited : bool;
  arrival : Z
}.

Module PacketContext.
Definition new (raw_bytes : bytes) (face_id arrival : Z) : PacketContext :=
  mkContext raw_bytes face_id None PktRaw None None None [] [] 0 false false false false arrival.
End PacketContext.

(** Field assignments. *)
Definition set_pit_token (c : PacketContext) (t : option PitToken) : PacketContext :=
  mkContext (raw_bytes c) (face_id c) (ctx_name c) (packet c) (name_hashes c) t (ctx_lp_pit_token c)
    (out_faces c) (out_pit_tokens c) (endpoint_id c) (cs_hit c) (verified c) (validation_not_configured c)
    (unsolicited c) (arrival c).
Definition set_name_hashes (c : PacketContext) (h : option NameHashes) : PacketContext :=
  mkContext (raw_bytes c) (face_id c) (ctx_name c) (packet c) h (pit_token c) (ctx_lp_pit_token c)
    (out_faces c) (out_pit_tokens c) (endpoint_id c) (cs_hit c) (verified c) (validation_not_configured c)
    (unsolicited c) (arrival c).
Definition set_out (c : PacketContext) (fs : list Z) (ts : list (option bytes)) : PacketContext :=
  mkContext (raw_bytes c) (face_id c) (ctx_name c) (packet c) (name_hashes c) (pit_token c) (ctx_lp_pit_token c)
    fs ts (endpoint_id c) (cs_hit c) (verified c) (validation_not_configured c)
    (unsolicited c) (arrival c).
Definition set_unsolicited (c : PacketContext) (b : bool) : PacketContext :=
  mkContext (raw_bytes c) (face_id c) (ctx_name c) (packet c) (name_hashes c) (pit_token c) (ctx_lp_pit_token c)
    (out_faces c) (out_pit_tokens c) (endpoint_id c) (cs_hit c) (verified c) (validation_not_configured c)
    b (arrival c).

Inductive Action : Type :=
| Continue (ctx : PacketContext)
| Send (ctx : PacketContext) (faces : list Z)
| Satisfy (ctx : PacketContext)
| Drop (r : DropReason)
| Nack (ctx : PacketContext) (r : NackReason).

(** The payload of [Invalid] is never looked at. *)
Inductive InterestValidationOutcome : Type := Valid | Invalid | Pending.

(** The state the two stages share. *)
Record Shared : Type := mkShared {
  pit : Pit;
  dead_nonce_list : option DeadNonceList;
  replay_guard : option ReplayGuard
}.
Definition set_pit (s : Shared) (p : Pit) : Shared := mkShared p (dead_nonce_list s) (replay_guard s).
Definition set_dnl (s : Shared) (d : option DeadNonceList) : Shared := mkShared (pit s) d (replay_guard s).
Definition set_guard (s : Shared) (g : option ReplayGuard) : Shared := mkShared (pit s) (dead_nonce_list s) g.

Definition RETX_SUPPRESS_NS : Z := 10000000.

Definition should_retx_reforward (entry : PitEntry) (now_ns : Z) : bool :=
  match PitEntry.last_out entry with
  | Some sent_at => sat_add64 sent_at RETX_SUPPRESS_NS <=? now_ns
  | None => false
  end.

Definition is_digest_type (t : Z) : bool :=
  (t =? tlv_type.PARAMETERS_SHA256) || (t =? tlv_type.IMPLICIT_SHA256).

Definition ends_in_digest (comps : Name) : bool :=
  match last comps with Some c => is_digest_type (typ c) | None => false end.

Definition strip_digest_components (name : Name) : Name :=
  if ends_in_digest name then take (length name - 1) name else name.

(** ** [PitCheckStage] *)

Module PitCheckStage.
Section stage.
Context `{Hasher}.
Context (sort_keys : list (Z * list Z) -> list (Z * list Z)).
Context (face_table : gmap Z LinkType).
Context (validator : option (Interest -> InterestValidationOutcome)).

Inductive CheckResult : Type := Loop | Aggregated | Inserted | ReForward.

Definition check_persistent (self : Shared) (ctx : PacketContext)
    : result (option PersistentState) Action * Shared :=
  match packet ctx with
  | PktInterest interest =>
      match Interest.app_parameters interest with
      | None => (Ok None, self)
      | Some ap =>
          match SubscriptionRequest.find_in ap with
          | None => (Ok None, self)
          | Some sub_req =>
              if negb (version sub_req =? 1) || (max_data_count sub_req =? 0)
                 || (max_lifetime_secs sub_req =? 0)
                 || (MAX_PERSISTENT_LIFETIME_SECS <? max_lifetime_secs sub_req)
              then (Err (Drop InvalidPersistentRequest), self)
              else
                match validator with
                | None => (Ok None, self)
                | Some v =>
                    match v interest with
                    | Valid =>
                        let now := arrival ctx in
                        let reap_at := wrap 64 (now + wrap 64 (max_lifetime_secs sub_req * 1000000000)) in
                        let '(data_count_remaining, self) :=
                          match subscription_id sub_req with
                          | Some id =>
                              let '(o, p) := Pit.take_orphan (pit self) id now in
                              (match o with
                               | Some orphan => o_data_count_remaining orphan
                               | None => max_data_count sub_req
                               end, set_pit self p)
                          | None => (max_data_count sub_req, self)
                          end in
                        (Ok (Some (mkPersistentState data_count_remaining reap_at (subscription_id sub_req))), self)
                    | Invalid | Pending => (Ok None, self)
                    end
                end
          end
      end
  | _ => (Ok None, self)
  end.

(** The closure run on an existing entry. *)
Definition on_existing (is_point_to_point : bool) (ctx : PacketContext) (nonce now_ns lifetime_ms : Z)
    (in_selector : Selector) (persistent : option PersistentState) (entry : PitEntry)
    : CheckResult * PitEntry :=
  let same_face_retx := is_point_to_point &&
    existsb (fun r => (ir_face_id r =? face_id ctx) && (ir_nonce r =? nonce)) (in_records entry) in
  if bool_decide (nonce ∈ nonces_seen entry) && negb same_face_retx
  then (Loop, set_forward_cancelled entry true)
  else
    let expires := PitEntry.deadline now_ns lifetime_ms in
    let entry := if PitEntry.is_some persistent
      then set_in_records entry (filter (fun r => ir_face_id r <> face_id ctx) (in_records entry))
      else entry in
    let entry := PitEntry.add_in_record_with_persistent entry (face_id ctx) nonce expires
      (ctx_lp_pit_token ctx) in_selector persistent in
    let entry := match persistent with
      | Some ps => if expires_at entry <? reap_at ps then set_expires_at entry (reap_at ps) else entry
      | None => entry
      end in
    if PitEntry.is_some persistent then (ReForward, set_upstream_lost entry false)
    else if should_retx_reforward entry now_ns then (ReForward, entry)
    else (Aggregated, entry).

(** The closure run when there is none. *)
Definition on_new (ctx : PacketContext) (name : Name) (nonce now_ns lifetime_ms : Z)
    (in_selector : Selector) (persistent : option PersistentState) : PitEntry * CheckResult :=
  let entry := PitEntry.new name now_ns lifetime_ms in
  let entry := match persistent with
    | Some ps => set_persistent (set_expires_at entry (reap_at ps)) (Some ps)
    | None => entry
    end in
  (PitEntry.add_in_record_with_persistent entry (face_id ctx) nonce (PitEntry.deadline now_ns lifetime_ms)
     (ctx_lp_pit_token ctx) in_selector persistent, Inserted).

(** The replay guard, if there is one, on the signature of the Interest. *)
Definition check_replay (self : Shared) (interest : Interest) : bool * Shared :=
  match replay_guard self with
  | Some guard =>
      match Interest.sig_info interest with
      | Some si =>
          let '(r, guard) := ReplayGuard.check sort_keys guard si in
          (bool_decide (r = Replay), set_guard self (Some guard))
      | None => (false, self)
      end
  | None => (false, self)
  end.

Definition subscription_flavored (interest : Interest) : bool :=
  match Interest.app_parameters interest with
  | Some ap => PitEntry.is_some (SubscriptionRequest.find_in ap)
  | None => false
  end.

Definition key_name (interest : Interest) : Name :=
  if subscription_flavored interest then strip_digest_components (i_name interest) else i_name interest.

Definition process (self : Shared) (ctx : PacketContext) : Action * Shared :=
  match packet ctx with
  | PktInterest interest =>
      let '(rejected, self) := check_replay self interest in
      if rejected then (Drop LoopDetected, self)
      else
        match check_persistent self ctx with
        | (Err action, self) => (action, self)
        | (Ok persistent, self) =>
            let now_ns := arrival ctx in
            let lifetime_ms := default 4000 (Interest.lifetime interest) in
            let nonce := default 0 (Interest.nonce interest) in
            let name_hash := NameHashes.full_name_hash (key_name interest) in
            let discriminator := if PitEntry.is_some persistent then PersistentAttach else Classical in
            let token := PitToken.from_name_hash_keyed name_hash (Interest.forwarding_hint interest) discriminator in
            let ctx := set_pit_token ctx (Some token) in
            let in_selector := Interest.selectors interest in
            if match dead_nonce_list self with
               | Some dnl => DeadNonceList.contains dnl (mkNonceFingerprint name_hash nonce) now_ns
               | None => false
               end
            then (Drop LoopDetected, self)
            else
              let is_point_to_point :=
                match face_table !! face_id ctx with
                | Some l => bool_decide (l = PointToPoint)
                | None => false
                end in
              let '(res, p) := Pit.with_entry_or_insert (pit self) token
                (on_existing is_point_to_point ctx nonce now_ns lifetime_ms in_selector persistent)
                (on_new ctx (i_name interest) nonce now_ns lifetime_ms in_selector persistent) in
              let self := set_pit self p in
              match res with
              | Loop => (Drop LoopDetected, self)
              | Aggregated => (Drop Suppressed, self)
              | Inserted | ReForward => (Continue ctx, self)
              end
        end
  | _ => (Continue ctx, self)
  end.
End stage.
End PitCheckStage.

(** ** [PitMatchStage] *)

(** [Vec::swap_remove]: the last element takes the place of the removed one;
    [None] is the out-of-range panic. *)
Definition swap_remove {A} (l : list A) (i : nat) : option (A * list A) :=
  let! x := l !! i in
  let! y := last l in
  Some (x, take (length l - 1) (<[i := y]> l)).

Definition DrainedInRecord : Type := Z * option bytes * list bytes.

Inductive PersistentMatchResult : Type :=
| Matched (faces : list Z) (lp_tokens : list (option bytes)) (should_reap : bool)
| NotPersistent.

(** The [&mut] accumulators [process] passes to [consume_entry]. *)
Record MatchOut : Type := mkMatchOut {
  mo_faces : list Z;
  mo_tokens : list (option bytes);
  mo_seen : list Z;
  mo_fan_out : list (Z * list bytes)
}.

Module PitMatchStage.
Section stage.
Context `{Hasher}.
Context (sort_nonces : list (Z * NonceFingerprint) -> list (Z * NonceFingerprint)).

Definition insert_dead_nonces (dnl : option DeadNonceList) (entry : PitEntry) (now : Z) : option DeadNonceList :=
  match dnl with
  | None => None
  | Some dnl =>
      let key_name := if PitEntry.is_some (pe_persistent entry)
        then strip_digest_components (pe_name entry) else pe_name entry in
      let name_hash := NameHashes.full_name_hash key_name in
      Some (fold_left (fun dnl nonce =>
        DeadNonceList.insert sort_nonces dnl (mkNonceFingerprint name_hash nonce) now) (nonces_seen entry) dnl)
  end.

(** The loop over [in_records.iter_mut().enumerate()]: the records after, the
    faces and tokens pushed, and the indices of the exhausted records. *)
Fixpoint serve_records (cbp_only entry_persistent : bool) (i : nat) (rs : list InRecord)
    : list InRecord * list Z * list (option bytes) * list nat :=
  match rs with
  | [] => ([], [], [], [])
  | r :: rs =>
      let '(rs', f, t, exhausted) := serve_records cbp_only entry_persistent (S i) rs in
      if cbp_only && negb (can_be_prefix (selector r)) then (r :: rs', f, t, exhausted)
      else
        match ir_persistent r with
        | Some ps =>
            if 0 <? data_count_remaining ps then
              let ps := mkPersistentState (data_count_remaining ps - 1) (reap_at ps) (ps_subscription_id ps) in
              let r := mkInRecord (ir_face_id r) (ir_nonce r) (ir_expires_at r) (lp_pit_token r) (selector r)
                         (Some ps) (trace_ids r) in
              (r :: rs', ir_face_id r :: f, lp_pit_token r :: t,
               if data_count_remaining ps =? 0 then i :: exhausted else exhausted)
            else (r :: rs', f, t, exhausted)
        | None =>
            if entry_persistent then (r :: rs', ir_face_id r :: f, lp_pit_token r :: t, exhausted)
            else (r :: rs', f, t, exhausted)
        end
  end.

Fixpoint remove_indices (rs : list InRecord) (idxs : list nat) : option (list InRecord) :=
  match idxs with
  | [] => Some rs
  | idx :: idxs => let! (_, rs) := swap_remove rs idx in remove_indices rs idxs
  end.

(** The closure of the persistent-aware probe; the result is [None] if it panics. *)
Definition probe_entry (cbp_only : bool) (entry : PitEntry) : option PersistentMatchResult * PitEntry :=
  let any_per_record := existsb (fun r =>
    PitEntry.is_some (ir_persistent r) && (negb cbp_only || can_be_prefix (selector r))) (in_records entry) in
  if negb any_per_record && negb (PitEntry.is_some (pe_persistent entry)) then (Some NotPersistent, entry)
  else
    let '(rs, f, t, exhausted) :=
      serve_records cbp_only (PitEntry.is_some (pe_persistent entry)) 0 (in_records entry) in
    let entry := set_in_records entry rs in
    let entry := match pe_persistent entry with
      | Some p => set_persistent entry
          (Some (mkPersistentState (sat_sub (data_count_remaining p) 1) (reap_at p) (ps_subscription_id p)))
      | None => entry
      end in
    match remove_indices (in_records entry) (rev exhausted) with
    | None => (None, entry)
    | Some rs =>
        let entry := set_in_records entry rs in
        let no_persistent_left := negb (existsb (fun r => PitEntry.is_some (ir_persistent r)) (in_records entry)) in
        let entry_level_exhausted := match pe_persistent entry with
          | Some p => data_count_remaining p =? 0
          | None => false
          end in
        let should_reap := if any_per_record then no_persistent_left else entry_level_exhausted in
        (Some (Matched f t should_reap), entry)
    end.

(** The [while i < entry.in_records.len()] loop; each turn removes a record or
    advances [i], so as many turns as there are records are enough. *)
Fixpoint drain_loop (fuel : nat) (i : nat) (rs : list InRecord) (taken : list DrainedInRecord)
    : option (list DrainedInRecord * list InRecord) :=
  match rs !! i with
  | None => Some (taken, rs)
  | Some r0 =>
      match fuel with
      | O => None
      | S fuel =>
          if can_be_prefix (selector r0) then
            let! (r, rs) := swap_remove rs i in
            drain_loop fuel i rs (taken ++ [(ir_face_id r, lp_pit_token r, trace_ids r)])
          else drain_loop fuel (S i) rs taken
      end
  end.

(** The closure of the prefix walk. *)
Definition drain_entry (entry : PitEntry) : option (list DrainedInRecord * bool) * PitEntry :=
  match drain_loop (length (in_records entry)) 0 (in_records entry) [] with
  | Some (taken, rs) => (Some (taken, zlen rs =? 0), set_in_records entry rs)
  | None => (None, entry)
  end.

(** [self.pit.remove(token)] and the dead nonces of the removed entry. *)
Definition reap (self : Shared) (token : PitToken) (now_ns : Z) : option PitEntry * Shared :=
  match Pit.remove (pit self) token with
  | (Some entry, p) => (Some entry, mkShared p (insert_dead_nonces (dead_nonce_list self) entry now_ns) (replay_guard self))
  | (None, p) => (None, set_pit self p)
  end.

Definition push_face (out : MatchOut) (fid : Z) (tok : option bytes) : MatchOut :=
  if bool_decide (fid ∈ mo_seen out) then out
  else mkMatchOut (mo_faces out ++ [fid]) (mo_tokens out ++ [tok]) (mo_seen out ++ [fid]) (mo_fan_out out).

Definition push_traced (out : MatchOut) (fid : Z) (tok : option bytes) (ids : list bytes) : MatchOut :=
  if bool_decide (fid ∈ mo_seen out) then out
  else mkMatchOut (mo_faces out ++ [fid]) (mo_tokens out ++ [tok]) (mo_seen out ++ [fid])
         (mo_fan_out out ++ [(fid, ids)]).

Definition consume_entry (self : Shared) (token : PitToken) (cbp_only : bool) (out : MatchOut) (now_ns : Z)
    : option (MatchOut * Shared) :=
  let '(probe, p) := Pit.with_entry_mut (pit self) token (probe_entry cbp_only) in
  let self := set_pit self p in
  match probe with
  | Some None => None
  | Some (Some (Matched f t should_reap)) =>
      let self := if should_reap then snd (reap self token now_ns) else self in
      Some (fold_left (fun out ft => push_face out ft.1 ft.2) (zip f t) out, self)
  | Some (Some NotPersistent) | None =>
      if cbp_only then
        let '(drained, p) := Pit.with_entry_mut (pit self) token drain_entry in
        let self := set_pit self p in
        match drained with
        | Some None => None
        | Some (Some (taken, now_empty)) =>
            let out := fold_left (fun out d => push_traced out d.1.1 d.1.2 d.2) taken out in
            Some (out, if now_empty then snd (reap self token now_ns) else self)
        | None => Some (out, self)
        end
      else
        match reap self token now_ns with
        | (Some entry, self) =>
            Some (fold_left (fun out r => push_traced out (ir_face_id r) (lp_pit_token r) (trace_ids r))
                    (in_records entry) out, self)
        | (None, self) => Some (out, self)
        end
  end.

(** A sequence of calls of [consume_entry]. *)
Fixpoint consume_all (self : Shared) (calls : list (PitToken * bool)) (out : MatchOut) (now_ns : Z)
    : option (MatchOut * Shared) :=
  match calls with
  | [] => Some (out, self)
  | (token, cbp_only) :: calls =>
      let! (out, self) := consume_entry self token cbp_only out now_ns in
      consume_all self calls out now_ns
  end.

Definition stripped_token (data_name : Name) : option PitToken :=
  if ends_in_digest data_name && (1 <? zlen data_name)
  then Some (PitToken.from_name_hash (NameHashes.full_name_hash (take (length data_name - 1) data_name)) None)
  else None.

(** The calls [process] makes, in order, for the hashes of the name and of its
    proper prefixes, longest first. *)
Definition match_calls (data_name : Name) (full_hash : Z) (prefix_hashes : list Z) : list (PitToken * bool) :=
  [(PitToken.from_name_hash_keyed full_hash None PersistentAttach, false);
   (PitToken.from_name_hash_keyed full_hash None Classical, false)]
  ++ match stripped_token data_name with Some alt => [(alt, false)] | None => [] end
  ++ concat (map (fun prefix_hash =>
       map (fun disc => (PitToken.from_name_hash_keyed prefix_hash None disc, true)) [PersistentAttach; Classical])
       prefix_hashes).

(** The action, the trace events emitted and the shared state. *)
Definition process (self : Shared) (ctx : PacketContext) : option (Action * list (Z * list bytes) * Shared) :=
  match packet ctx with
  | PktData d =>
      let data_name := d_name d in
      let hashes := match name_hashes ctx with Some h => h | None => NameHashes.compute data_name end in
      let ctx := set_name_hashes ctx (Some hashes) in
      let n := NameHashes.len hashes in
      let! prefixes := mapM (NameHashes.prefix_hash hashes) (rev (seqZ 1 (n - 1))) in
      let full_hash := NameHashes.full_hash hashes in
      let! (out, self) := consume_all self (match_calls data_name full_hash prefixes)
                            (mkMatchOut [] [] [] []) (arrival ctx) in
      if negb (zlen (mo_faces out) =? 0)
      then Some (Continue (set_out ctx (mo_faces out) (mo_tokens out)), mo_fan_out out, self)
      else Some (Continue (set_unsolicited ctx true), [], self)
  | _ => Some (Continue ctx, [], self)
  end.
End stage.
End PitMatchStage.

(** ** Removal by swapping *)

Lemma swap_remove_at {A} (pre : list A) x suf :
  exists suf', swap_remove (pre ++ x :: suf) (length pre) = Some (x, pre ++ suf') /\ suf' ≡ₚ suf.
Proof.
  unfold swap_remove. rewrite lookup_app_r, Nat.sub_diag by lia. cbn [lookup list_lookup].
  destruct suf as [|y suf _] using rev_ind.
  - exists []. rewrite last_snoc, insert_app_r_alt, Nat.sub_diag by lia. cbn [insert list_insert].
    rewrite length_app. cbn [length]. rewrite Nat.add_sub, take_app_length, app_nil_r. done.
  - exists (y :: suf). rewrite app_comm_cons, app_assoc, last_snoc. split; [|apply Permutation_cons_append].
    rewrite <- app_assoc, insert_app_r_alt, Nat.sub_diag by lia. cbn [app insert list_insert].
    rewrite !length_app. cbn [length]. rewrite length_app. cbn [length].
    replace (length pre + S (length suf + 1) - 1)%nat with (length (pre ++ y :: suf))
      by (rewrite length_app; cbn [length]; lia).
    change (pre ++ y :: suf ++ [y]) with (pre ++ (y :: suf) ++ [y]).
    by rewrite app_assoc, take_app_length.
Qed.

Definition is_cbp (r : InRecord) : Prop := can_be_prefix (selector r) = true.
Definition drained (r : InRecord) : DrainedInRecord := (ir_face_id r, lp_pit_token r, trace_ids r).

(** The prefix walk takes exactly the CanBePrefix records. *)
Lemma drain_loop_spec fuel pre suf taken :
  (length suf <= fuel)%nat -> Forall (fun r => ~ is_cbp r) pre ->
  exists tk rest, PitMatchStage.drain_loop fuel (length pre) (pre ++ suf) taken = Some (taken ++ map drained tk, rest) /\
    tk ++ rest ≡ₚ pre ++ suf /\ Forall is_cbp tk /\ Forall (fun r => ~ is_cbp r) rest.
Proof.
  revert pre suf taken. induction fuel as [|fuel IH]; intros pre suf taken Hf Hpre; cbn [PitMatchStage.drain_loop];
    (destruct suf as [|r suf];
     [rewrite app_nil_r, lookup_ge_None_2 by lia; exists [], pre; rewrite app_nil_r; by split_conj|]);
    [simpl in Hf; lia|].
  rewrite lookup_app_r, Nat.sub_diag by lia. cbn [lookup list_lookup].
  destruct (can_be_prefix (selector r)) eqn:Hc.
  - destruct (swap_remove_at pre r suf) as (suf' & -> & Hp).
    destruct (IH pre suf' (taken ++ [drained r])) as (tk & rest & He & Hperm & H1 & H2);
      [apply Permutation_length in Hp; simpl in Hf; lia|done|].
    exists (r :: tk), rest. split_conj; [etransitivity; [exact He|by rewrite <- app_assoc]| |by constructor|done].
    cbn [app]. rewrite Hperm, Hp. apply Permutation_middle.
  - specialize (IH (pre ++ [r]) suf taken). rewrite length_app, Nat.add_1_r, <- app_assoc in IH.
    apply IH; [simpl in Hf; lia|]. apply Forall_app. split; [done|]. constructor; [|done].
    unfold is_cbp. by rewrite Hc.
Qed.

(** ** Serving the records of an entry *)

Definition participates (cbp_only : bool) (r : InRecord) : bool :=
  negb cbp_only || can_be_prefix (selector r).
Definition served (cbp_only entry_persistent : bool) (r : InRecord) : bool :=
  participates cbp_only r &&
  match ir_persistent r with Some ps => 0 <? data_count_remaining ps | None => entry_persistent end.
Definition debit (cbp_only : bool) (r : InRecord) : InRecord :=
  match ir_persistent r with
  | Some ps =>
      if participates cbp_only r && (0 <? data_count_remaining ps) then
        mkInRecord (ir_face_id r) (ir_nonce r) (ir_expires_at r) (lp_pit_token r) (selector r)
          (Some (mkPersistentState (data_count_remaining ps - 1) (reap_at ps) (ps_subscription_id ps))) (trace_ids r)
      else r
  | None => r
  end.
Definition spent (cbp_only : bool) (r : InRecord) : bool :=
  participates cbp_only r &&
  match ir_persistent r with Some ps => data_count_remaining ps =? 1 | None => false end.

(** The positions of [true], counted from [i]. *)
Fixpoint true_idx (i : nat) (bs : list bool) : list nat :=
  match bs with
  | [] => []
  | b :: bs => if b then i :: true_idx (S i) bs else true_idx (S i) bs
  end.

Lemma true_idx_snoc i bs b : true_idx i (bs ++ [b]) = true_idx i bs ++ (if b then [(i + length bs)%nat] else []).
Proof.
  revert i. induction bs as [|b' bs IH]; intros i; simpl; [rewrite Nat.add_0_r; by destruct b|].
  rewrite IH. replace (S i + length bs)%nat with (i + S (length bs))%nat by lia. by destruct b'.
Qed.

Lemma serve_records_spec cbp ep i rs :
  PitMatchStage.serve_records cbp ep i rs =
    (debit cbp <$> rs, ir_face_id <$> List.filter (served cbp ep) rs, lp_pit_token <$> List.filter (served cbp ep) rs,
     true_idx i (spent cbp <$> rs)).
Proof.
  revert i. induction rs as [|r rs IH]; intros i; [done|]. cbn [PitMatchStage.serve_records List.filter].
  rewrite IH, !fmap_cons. unfold served, debit, spent, participates. cbn [true_idx].
  destruct cbp, (can_be_prefix (selector r)); simpl; try (by destruct (ir_persistent r));
    destruct (ir_persistent r) as [ps|]; simpl; try (by destruct ep);
    destruct (Z.ltb_spec 0 (data_count_remaining ps)), (Z.eqb_spec (data_count_remaining ps) 1),
      (Z.eqb_spec (data_count_remaining ps - 1) 0); try lia; done.
Qed.

Lemma remove_indices_spec (f : InRecord -> InRecord) (b : InRecord -> bool) pre suf :
  exists rs, PitMatchStage.remove_indices ((f <$> pre) ++ suf) (rev (true_idx 0 (b <$> pre))) = Some rs /\
    rs ≡ₚ (f <$> List.filter (fun r => negb (b r)) pre) ++ suf.
Proof.
  revert suf. induction pre as [|r pre IH] using rev_ind; intros suf; [by exists suf|].
  rewrite !fmap_app. change (b <$> [r]) with [b r].
  rewrite true_idx_snoc, List.filter_app, fmap_app, length_fmap. cbn [fmap list_fmap List.filter].
  rewrite <- app_assoc. destruct (b r); cbn [negb fmap list_fmap app].
  - rewrite rev_app_distr. cbn [rev app PitMatchStage.remove_indices Nat.add].
    destruct (swap_remove_at (f <$> pre) (f r) suf) as (suf' & Hsw & Hp). rewrite length_fmap in Hsw. rewrite Hsw.
    destruct (IH suf') as (rs & -> & Hrs). exists rs. split; [done|]. by rewrite Hrs, Hp, app_nil_r.
  - rewrite app_nil_r. destruct (IH (f r :: suf)) as (rs & -> & Hrs). exists rs. split; [done|].
    rewrite Hrs. by rewrite <- app_assoc.
Qed.

(** ** Accumulating the downstream faces *)

Record out_ok (out : MatchOut) : Prop := {
  ok_seen : mo_seen out = mo_faces out;
  ok_nodup : NoDup (mo_faces out);
  ok_tokens : length (mo_tokens out) = length (mo_faces out)
}.

(** The faces with the tokens to echo to them. *)
Definition pairs (out : MatchOut) : list (Z * option bytes) := zip (mo_faces out) (mo_tokens out).

(** [g] pushes the face and the token of an element, unless the face was seen. *)
Definition pushes {A} (g : MatchOut -> A -> MatchOut) (face : A -> Z) (tok : A -> option bytes) : Prop :=
  forall out x,
    if decide (face x ∈ mo_seen out) then g out x = out
    else mo_faces (g out x) = mo_faces out ++ [face x] /\ mo_tokens (g out x) = mo_tokens out ++ [tok x] /\
         mo_seen (g out x) = mo_seen out ++ [face x].

Lemma push_face_pushes :
  pushes (fun out (ft : Z * option bytes) => PitMatchStage.push_face out ft.1 ft.2) fst snd.
Proof. intros out x. unfold PitMatchStage.push_face. case_decide; by case_bool_decide. Qed.

Lemma push_drained_pushes :
  pushes (fun out (d : DrainedInRecord) => PitMatchStage.push_traced out d.1.1 d.1.2 d.2)
    (fun d => d.1.1) (fun d => d.1.2).
Proof. intros out x. unfold PitMatchStage.push_traced. case_decide; by case_bool_decide. Qed.

Lemma push_record_pushes :
  pushes (fun out r => PitMatchStage.push_traced out (ir_face_id r) (lp_pit_token r) (trace_ids r))
    ir_face_id lp_pit_token.
Proof. intros out x. unfold PitMatchStage.push_traced. case_decide; by case_bool_decide. Qed.

(** What pushing the elements of [l] in order does. *)
Record pushed {A} (face : A -> Z) (tok : A -> option bytes) (l : list A) (out out' : MatchOut) : Prop := {
  pushed_ok : out_ok out';
  pushed_faces : forall f, f ∈ mo_faces out' <-> f ∈ mo_faces out \/ exists x, x ∈ l /\ face x = f;
  pushed_sound : forall p, p ∈ pairs out' -> p ∈ pairs out \/ exists x, x ∈ l /\ p = (face x, tok x);
  pushed_prefix : pairs out `prefix_of` pairs out'
}.

Lemma pushed_perm {A B} (face : A -> Z) tok (face' : B -> Z) tok' l l' (h : B -> A) out out' :
  (forall x, x ∈ l <-> exists y, y ∈ l' /\ x = h y) -> (forall y, face (h y) = face' y) -> (forall y, tok (h y) = tok' y) ->
  pushed face tok l out out' -> pushed face' tok' l' out out'.
Proof.
  intros Hl Hf Ht [H1 H2 H3 H4]. constructor; [done| | |done].
  - intros f. rewrite H2. setoid_rewrite Hl. split; (intros [?|(x & Hx & Hfx)]; [by left|right]).
    + destruct Hx as (y & Hy & ->). exists y. by rewrite <- Hf.
    + exists (h x). split; [by exists x|]. by rewrite Hf.
  - intros p Hp. destruct (H3 p Hp) as [?|(x & (y & Hy & ->)%Hl & ->)]; [by left|right].
    exists y. by rewrite Hf, Ht.
Qed.

Lemma fold_pushes {A} (g : MatchOut -> A -> MatchOut) face tok l out :
  pushes g face tok -> out_ok out -> pushed face tok l out (fold_left g l out).
Proof.
  intros Hg. revert out. induction l as [|x l IH]; intros out Hok; cbn [fold_left].
  { constructor; [done| |by left|done]. intros f. split; [by left|]. intros [?|(x & ?%elem_of_nil & _)]; done. }
  pose proof (Hg out x) as Hx. case_decide as Hseen.
  - rewrite Hx. destruct (IH out Hok) as [H1 H2 H3 H4]. rewrite (ok_seen _ Hok) in Hseen.
    constructor; [done| | |done].
    + intros f. rewrite H2. setoid_rewrite elem_of_cons. naive_solver.
    + intros p Hp. destruct (H3 p Hp) as [?|(y & ? & ->)]; [by left|right]. exists y. split; [by right|done].
  - destruct Hx as (Hf & Ht & Hs). rewrite (ok_seen _ Hok) in *.
    assert (out_ok (g out x)) as Hok'.
    { constructor; [by rewrite Hs, Hf| |by rewrite Hf, Ht, !length_app, (ok_tokens _ Hok)].
      rewrite Hf. apply NoDup_app. split_conj; [by apply Hok| |apply NoDup_singleton]. set_solver. }
    assert (pairs (g out x) = pairs out ++ [(face x, tok x)]) as Hp.
    { unfold pairs. rewrite Hf, Ht, zip_with_app by (by rewrite (ok_tokens _ Hok)). done. }
    destruct (IH (g out x) Hok') as [H1 H2 H3 H4]. constructor; [done| | |].
    + intros f. rewrite H2, Hf, elem_of_app, list_elem_of_singleton. setoid_rewrite elem_of_cons. naive_solver.
    + intros p [Hin|(y & ? & ->)]%H3; [|right; exists y; split; [by right|done]].
      rewrite Hp, elem_of_app, list_elem_of_singleton in Hin. destruct Hin as [?| ->]; [by left|right].
      exists x. split; [left|done].
    + etransitivity; [|exact H4]. rewrite Hp. by apply prefix_app_r.
Qed.

(** ** Consuming one entry *)

Definition any_per_record (cbp_only : bool) (e : PitEntry) : bool :=
  existsb (fun r => PitEntry.is_some (ir_persistent r) && participates cbp_only r) (in_records e).

(** The entry is handled as a subscription. *)
Definition persistent_path (cbp_only : bool) (e : PitEntry) : bool :=
  any_per_record cbp_only e || PitEntry.is_some (pe_persistent e).

(** The in-record is due the Data. *)
Definition record_served (cbp_only : bool) (e : PitEntry) (r : InRecord) : bool :=
  if persistent_path cbp_only e then served cbp_only (PitEntry.is_some (pe_persistent e)) r
  else participates cbp_only r.

(** Two records of one request: what it asks for and where it came from. *)
Definition same_request (r r' : InRecord) : Prop :=
  ir_face_id r = ir_face_id r' /\ lp_pit_token r = lp_pit_token r' /\ selector r = selector r'.

Lemma debit_same cbp r : same_request r (debit cbp r).
Proof. unfold debit, same_request. by repeat case_match. Qed.

Section consume.
Context `{Hasher} (sort_nonces : list (Z * NonceFingerprint) -> list (Z * NonceFingerprint)).

Definition set_entry (s : Shared) (tok : PitToken) (e : PitEntry) : Shared :=
  set_pit s (Pit.set_entries (pit s) (<[tok := e]> (entries (pit s)))).

Lemma set_entry_same s tok e : entries (pit s) !! tok = Some e -> set_entry s tok e = s.
Proof. intros He. unfold set_entry. rewrite insert_id by done. by destruct s as [[]]. Qed.

Lemma set_entry_twice s tok e e' : set_entry (set_entry s tok e) tok e' = set_entry s tok e'.
Proof. unfold set_entry, Pit.set_entries, set_pit. simpl. by rewrite insert_insert_eq. Qed.

(** An entry leaves the table, and its nonces die. *)
Lemma reap_some s tok e now :
  entries (pit s) !! tok = Some e ->
  exists s', PitMatchStage.reap sort_nonces s tok now = (Some e, s') /\
    entries (pit s') = delete tok (entries (pit s)) /\ orphans (pit s') = orphans (pit s) /\
    dead_nonce_list s' = PitMatchStage.insert_dead_nonces sort_nonces (dead_nonce_list s) e now /\
    replay_guard s' = replay_guard s.
Proof. intros He. unfold PitMatchStage.reap, Pit.remove. rewrite He. by eexists. Qed.

Lemma reap_none s tok now :
  entries (pit s) !! tok = None -> PitMatchStage.reap sort_nonces s tok now = (None, s).
Proof. intros He. unfold PitMatchStage.reap, Pit.remove. rewrite He. by destruct s. Qed.

Lemma consume_none s tok cbp out now :
  entries (pit s) !! tok = None ->
  PitMatchStage.consume_entry sort_nonces s tok cbp out now = Some (out, s).
Proof.
  intros He. unfold PitMatchStage.consume_entry, Pit.with_entry_mut. rewrite He.
  replace (set_pit s (pit s)) with s by (by destruct s). destruct cbp.
  - rewrite He. by destruct s.
  - by rewrite reap_none.
Qed.

(** The entry after a Data packet has drawn on its budgets. *)
Definition debited (cbp : bool) (e : PitEntry) (rs : list InRecord) : PitEntry :=
  set_in_records (set_persistent e
    ((fun p => mkPersistentState (sat_sub (data_count_remaining p) 1) (reap_at p) (ps_subscription_id p))
     <$> pe_persistent e)) rs.
Definition should_reap (cbp : bool) (e : PitEntry) (rs : list InRecord) : bool :=
  if any_per_record cbp e then negb (existsb (fun r => PitEntry.is_some (ir_persistent r)) rs)
  else match pe_persistent e with Some p => sat_sub (data_count_remaining p) 1 =? 0 | None => false end.

Lemma any_per_record_eq cbp e :
  existsb (fun r => PitEntry.is_some (ir_persistent r) && (negb cbp || can_be_prefix (selector r))) (in_records e)
  = any_per_record cbp e.
Proof. done. Qed.

Lemma probe_persistent cbp e :
  persistent_path cbp e = true ->
  exists rs, rs ≡ₚ debit cbp <$> List.filter (fun r => negb (spent cbp r)) (in_records e) /\
    PitMatchStage.probe_entry cbp e =
      (Some (Matched (ir_face_id <$> List.filter (served cbp (PitEntry.is_some (pe_persistent e))) (in_records e))
               (lp_pit_token <$> List.filter (served cbp (PitEntry.is_some (pe_persistent e))) (in_records e))
               (should_reap cbp e rs)), debited cbp e rs).
Proof.
  unfold persistent_path, PitMatchStage.probe_entry. rewrite any_per_record_eq, serve_records_spec. intros Hp.
  rewrite <- negb_orb, Hp. cbn [negb].
  destruct (remove_indices_spec (debit cbp) (spent cbp) (in_records e) []) as (rs & Hrs & Hperm).
  rewrite !app_nil_r in *. exists rs. split; [done|].
  unfold should_reap, debited. cbn [pe_persistent set_in_records].
  destruct (pe_persistent e) as [p|] eqn:Ep; cbn [in_records set_in_records set_persistent]; rewrite Hrs; [done|].
  cbn [pe_persistent set_in_records]. rewrite Ep. destruct e; simpl in *. by subst.
Qed.

Lemma probe_classical cbp e :
  persistent_path cbp e = false -> PitMatchStage.probe_entry cbp e = (Some NotPersistent, e).
Proof.
  unfold persistent_path, PitMatchStage.probe_entry. rewrite any_per_record_eq. intros Hp.
  by rewrite <- negb_orb, Hp.
Qed.

Lemma zip_fmap_pairs rs : zip (ir_face_id <$> rs) (lp_pit_token <$> rs) = (fun r => (ir_face_id r, lp_pit_token r)) <$> rs.
Proof. induction rs as [|r rs IH]; [done|]. rewrite !fmap_cons. cbn [zip_with]. by rewrite IH. Qed.

(** A subscription: every due record is served, its credit drawn, and the
    entry stays unless it is spent. *)
Lemma consume_persistent s tok cbp out now e :
  entries (pit s) !! tok = Some e -> persistent_path cbp e = true -> out_ok out ->
  exists out' rs, rs ≡ₚ debit cbp <$> List.filter (fun r => negb (spent cbp r)) (in_records e) /\
    PitMatchStage.consume_entry sort_nonces s tok cbp out now =
      Some (out', if should_reap cbp e rs
                  then snd (PitMatchStage.reap sort_nonces (set_entry s tok (debited cbp e rs)) tok now)
                  else set_entry s tok (debited cbp e rs)) /\
    pushed ir_face_id lp_pit_token (List.filter (record_served cbp e) (in_records e)) out out'.
Proof.
  intros He Hp Hok. destruct (probe_persistent cbp e Hp) as (rs & Hperm & Hprobe).
  unfold PitMatchStage.consume_entry, Pit.with_entry_mut. rewrite He, Hprobe. do 2 eexists. split; [exact Hperm|].
  split; [reflexivity|].
  eapply (pushed_perm fst snd _ _ _ _ (fun r => (ir_face_id r, lp_pit_token r)));
    [|done|done|by apply fold_pushes; [apply push_face_pushes|]].
  intros x. rewrite zip_fmap_pairs, list_elem_of_fmap. unfold record_served. rewrite Hp. naive_solver.
Qed.

(** An ordinary entry at a proper prefix: the CanBePrefix records leave it. *)
Lemma consume_prefix s tok out now e :
  entries (pit s) !! tok = Some e -> persistent_path true e = false -> out_ok out ->
  exists out' tk rest, tk ++ rest ≡ₚ in_records e /\ Forall is_cbp tk /\ Forall (fun r => ~ is_cbp r) rest /\
    PitMatchStage.consume_entry sort_nonces s tok true out now =
      Some (out', if zlen rest =? 0
                  then snd (PitMatchStage.reap sort_nonces (set_entry s tok (set_in_records e rest)) tok now)
                  else set_entry s tok (set_in_records e rest)) /\
    pushed ir_face_id lp_pit_token (List.filter (record_served true e) (in_records e)) out out'.
Proof.
  intros He Hp Hok.
  destruct (drain_loop_spec (length (in_records e)) [] (in_records e) [] ltac:(done) ltac:(constructor))
    as (tk & rest & Hd & Hperm & Htk & Hrest). cbn [length app] in Hd, Hperm.
  unfold PitMatchStage.consume_entry, Pit.with_entry_mut at 1. rewrite He, (probe_classical _ _ Hp).
  fold (set_entry s tok e). rewrite (set_entry_same _ _ _ He). unfold Pit.with_entry_mut. rewrite He.
  unfold PitMatchStage.drain_entry. rewrite Hd. eexists _, tk, rest. split_conj; [done|done|done|reflexivity|].
  eapply (pushed_perm _ _ _ _ _ _ drained);
    [| | |by apply fold_pushes; [apply push_drained_pushes|]]; [|done|done].
  intros x. rewrite list_elem_of_In, in_map_iff. setoid_rewrite <- list_elem_of_In.
  assert (forall r, r ∈ List.filter (record_served true e) (in_records e) <-> r ∈ tk) as Hin.
  { intros r. unfold record_served. rewrite Hp. rewrite list_elem_of_In, List.filter_In, <- list_elem_of_In, <- Hperm, elem_of_app.
    rewrite Forall_forall in Htk, Hrest. unfold participates, is_cbp in *. simpl. naive_solver. }
  setoid_rewrite Hin. naive_solver.
Qed.

(** An ordinary entry at the name: it is satisfied as a whole. *)
Lemma consume_exact s tok out now e :
  entries (pit s) !! tok = Some e -> persistent_path false e = false -> out_ok out ->
  exists out',
    PitMatchStage.consume_entry sort_nonces s tok false out now =
      Some (out', snd (PitMatchStage.reap sort_nonces s tok now)) /\
    out' = fold_left (fun out r => PitMatchStage.push_traced out (ir_face_id r) (lp_pit_token r) (trace_ids r))
             (in_records e) out /\
    pushed ir_face_id lp_pit_token (List.filter (record_served false e) (in_records e)) out out'.
Proof.
  intros He Hp Hok. unfold PitMatchStage.consume_entry, Pit.with_entry_mut. rewrite He, (probe_classical _ _ Hp).
  fold (set_entry s tok e). rewrite (set_entry_same _ _ _ He).
  destruct (reap_some s tok e now He) as (s' & -> & _). eexists. split_conj; [reflexivity|done|].
  replace (List.filter _ _) with (in_records e); [by apply fold_pushes; [apply push_record_pushes|]|].
  unfold record_served. rewrite Hp. induction (in_records e) as [|r rs IH]; [done|]. simpl. by rewrite <- IH.
Qed.

(** *** What any call leaves behind *)

(** Every entry and in-record of [p'] was there in [p]. *)
Definition shrinks (p p' : Pit) : Prop :=
  forall tok e', entries p' !! tok = Some e' ->
    exists e, entries p !! tok = Some e /\
      forall r', r' ∈ in_records e' -> exists r, r ∈ in_records e /\ same_request r r'.

Lemma shrinks_trans p1 p2 p3 : shrinks p1 p2 -> shrinks p2 p3 -> shrinks p1 p3.
Proof.
  intros H1 H2 tok e3 He3. destruct (H2 tok e3 He3) as (e2 & He2 & Hr2).
  destruct (H1 tok e2 He2) as (e1 & He1 & Hr1). exists e1. split; [done|]. intros r3 Hr3.
  destruct (Hr2 r3 Hr3) as (r2 & Hin2 & (? & ? & ?)). destruct (Hr1 r2 Hin2) as (r1 & Hin1 & (? & ? & ?)).
  exists r1. split; [done|]. unfold same_request. split_conj; congruence.
Qed.

(** A call may change the one entry it is about, and only shrink it. *)
Definition touches_only (tok : PitToken) (s s' : Shared) : Prop :=
  (forall t, t <> tok -> entries (pit s') !! t = entries (pit s) !! t) /\ shrinks (pit s) (pit s').

Lemma touches_set s tok e e' :
  entries (pit s) !! tok = Some e ->
  (forall r', r' ∈ in_records e' -> exists r, r ∈ in_records e /\ same_request r r') ->
  touches_only tok s (set_entry s tok e').
Proof.
  intros He Hr. split.
  - intros t Ht. simpl. by rewrite lookup_insert_ne.
  - intros t e0. simpl. rewrite lookup_insert. case_decide as Ht; [intros [= <-]; subst t; eauto|].
    intros He0. exists e0. split; [done|]. intros r Hin. exists r. split; [done|by split_conj].
Qed.

Lemma touches_reap s tok e e' now :
  entries (pit s) !! tok = Some e ->
  touches_only tok s (snd (PitMatchStage.reap sort_nonces (set_entry s tok e') tok now)) /\
  entries (pit (snd (PitMatchStage.reap sort_nonces (set_entry s tok e') tok now))) !! tok = None.
Proof.
  intros He. assert (entries (pit (set_entry s tok e')) !! tok = Some e') as He' by apply lookup_insert_eq.
  destruct (reap_some _ tok e' now He') as (s' & -> & Hent & _). simpl in Hent |- *.
  rewrite delete_insert_eq in Hent. split; [split|].
  - intros t Ht. by rewrite Hent, lookup_delete_ne.
  - intros t e0. rewrite Hent, lookup_delete. case_decide; [done|]. intros He0. exists e0. split; [done|].
    intros r Hin. exists r. split; [done|by split_conj].
  - by rewrite Hent, lookup_delete_eq.
Qed.

Lemma consume_entry_spec s tok cbp out now :
  out_ok out ->
  exists out' s', PitMatchStage.consume_entry sort_nonces s tok cbp out now = Some (out', s') /\
    touches_only tok s s' /\
    match entries (pit s) !! tok with
    | None => out' = out
    | Some e => pushed ir_face_id lp_pit_token (List.filter (record_served cbp e) (in_records e)) out out'
    end.
Proof.
  intros Hok. destruct (entries (pit s) !! tok) as [e|] eqn:He.
  2:{ rewrite consume_none by done. exists out, s. split_conj; [done|split; [done|]|done]. intros t e He'. exists e.
      split; [done|]. intros r Hr. exists r. split; [done|by split_conj]. }
  destruct (persistent_path cbp e) eqn:Hp.
  - destruct (consume_persistent s tok cbp out now e He Hp Hok) as (out' & rs & Hperm & -> & Hpush).
    do 2 eexists. split; [reflexivity|]. split; [|done].
    destruct (should_reap cbp e rs); [by eapply touches_reap|]. apply (touches_set s tok e); [done|].
    intros r' Hr'. cbn [debited in_records set_in_records] in Hr'. rewrite Hperm in Hr'.
    apply list_elem_of_fmap in Hr' as (r & -> & Hr). exists r. split; [|apply debit_same].
    by apply list_elem_of_In, List.filter_In, proj1, list_elem_of_In in Hr.
  - destruct cbp.
    + destruct (consume_prefix s tok out now e He Hp Hok) as (out' & tk & rest & Hperm & _ & _ & -> & Hpush).
      do 2 eexists. split; [reflexivity|]. split; [|done].
      destruct (zlen rest =? 0); [by eapply touches_reap|]. apply (touches_set s tok e); [done|].
      intros r' Hr'. exists r'. split; [|by split_conj]. rewrite <- Hperm. apply elem_of_app. by right.
    + destruct (consume_exact s tok out now e He Hp Hok) as (out' & -> & _ & Hpush).
      do 2 eexists. split; [reflexivity|]. split; [|done].
      pose proof (touches_reap s tok e e now He) as [H1 _]. by rewrite set_entry_same in H1.
Qed.

Lemma served_cbp cbp e r : record_served cbp e r = true -> participates cbp r = true.
Proof. unfold record_served, served. repeat case_match; rewrite ?andb_true_iff; naive_solver. Qed.

(** *** A sequence of calls *)

(** The pair comes from a record of one of the entries called for. *)
Definition requested (p : Pit) (calls : list (PitToken * bool)) (ft : Z * option bytes) : Prop :=
  exists tok cbp e r, (tok, cbp) ∈ calls /\ entries p !! tok = Some e /\ r ∈ in_records e /\
    participates cbp r = true /\ ft = (ir_face_id r, lp_pit_token r).

Lemma requested_shrinks p p' calls ft : shrinks p p' -> requested p' calls ft -> requested p calls ft.
Proof.
  intros Hs (tok & cbp & e' & r' & Hc & He' & Hr' & Hpart & ->). destruct (Hs tok e' He') as (e & He & Hr).
  destruct (Hr r' Hr') as (r & Hin & (Hf & Ht & Hsel)). exists tok, cbp, e, r. split_conj; [done..| |by rewrite Hf, Ht].
  unfold participates in *. by rewrite Hsel.
Qed.

Lemma consume_all_spec calls s out now :
  out_ok out ->
  exists out' s', PitMatchStage.consume_all sort_nonces s calls out now = Some (out', s') /\ out_ok out' /\
    pairs out `prefix_of` pairs out' /\ shrinks (pit s) (pit s') /\
    (forall ft, ft ∈ pairs out' -> ft ∈ pairs out \/ requested (pit s) calls ft) /\
    (forall f, f ∈ mo_faces out -> f ∈ mo_faces out') /\
    (forall pre tok cbp post e r, calls = pre ++ (tok, cbp) :: post -> tok ∉ pre.*1 ->
       entries (pit s) !! tok = Some e -> r ∈ in_records e -> record_served cbp e r = true ->
       ir_face_id r ∈ mo_faces out').
Proof.
  revert s out. induction calls as [|[tok cbp] calls IH]; intros s out Hok; cbn [PitMatchStage.consume_all].
  { exists out, s. split_conj; [done|done|done| |by left|done|by intros []].
    intros t e He. exists e. split; [done|]. intros r Hr. exists r. split; [done|by split_conj]. }
  destruct (consume_entry_spec s tok cbp out now Hok) as (out1 & s1 & -> & [Hother Hshr] & Hm).
  assert (out_ok out1 /\ pairs out `prefix_of` pairs out1 /\ (forall f, f ∈ mo_faces out -> f ∈ mo_faces out1) /\
    (forall ft, ft ∈ pairs out1 -> ft ∈ pairs out \/ requested (pit s) ((tok, cbp) :: calls) ft) /\
    (forall e r, entries (pit s) !! tok = Some e -> r ∈ in_records e -> record_served cbp e r = true ->
       ir_face_id r ∈ mo_faces out1)) as (Hok1 & Hpre1 & Hmono & Hsound1 & Hcompl1).
  { destruct (entries (pit s) !! tok) as [e|] eqn:He; [|subst; split_conj; [done|done|done|by left|by intros]].
    destruct Hm as [H1 H2 H3 H4]. split_conj; [done|done| | |].
    - intros f Hf. apply H2. by left.
    - intros ft [?|(r & Hr & ->)]%H3; [by left|right]. apply list_elem_of_In, List.filter_In in Hr as [Hr Hs].
      exists tok, cbp, e, r. split_conj; [left|done|by apply list_elem_of_In|by eapply served_cbp|done].
    - intros e0 r [= <-] Hr Hs. apply H2. right. exists r. split; [|done].
      apply list_elem_of_In, List.filter_In. split; [by apply list_elem_of_In|done]. }
  destruct (IH s1 out1 Hok1) as (out' & s' & -> & Hok' & Hpre & Hshr' & Hsound & Hmono' & Hcompl).
  exists out', s'. split_conj; [done|done|by etransitivity|by eapply shrinks_trans| |auto|].
  - intros ft [[?|?]%Hsound1|Hreq]%Hsound; [by left|by right|right].
    apply (requested_shrinks _ _ _ _ Hshr) in Hreq as (t & c & e & r & Hin & Hreq). exists t, c, e, r. split; [by right|done].
  - intros [|[t0 c0] pre] t c post e r Heq Hnin He Hr Hs; simplify_eq/=; [eauto|].
    apply not_elem_of_cons in Hnin as [Hne Hnin].
    apply (Hcompl pre t c post e r); [done|done| |done|done]. by rewrite Hother.
Qed.
End consume.

(** ** Which entries a Data packet is matched against *)

Section candidates.
Context `{Hasher}.

(** In terms of names: the name itself under both keys, the name without its
    digest, then every proper prefix, longest first. *)
Definition candidates (name : Name) : list (PitToken * bool) :=
  [(PitToken.persistent_attach name, false); (PitToken.from_interest name, false)]
  ++ (if ends_in_digest name && (1 <? zlen name)
      then [(PitToken.from_interest (take (length name - 1) name), false)] else [])
  ++ concat (map (fun k => [(PitToken.persistent_attach (take (Z.to_nat k) name), true);
                            (PitToken.from_interest (take (Z.to_nat k) name), true)])
       (rev (seqZ 1 (zlen name - 1)))).

Lemma prefix_hashes_spec name ks :
  Forall (fun k => 0 <= k <= zlen name) ks ->
  mapM (NameHashes.prefix_hash (NameHashes.compute name)) ks =
    Some (map (fun k => NameHashes.full_name_hash (take (Z.to_nat k) name)) ks).
Proof.
  induction ks as [|k ks IH]; intros Hks; [done|]. apply Forall_cons in Hks as [Hk Hks].
  cbn [mapM mret option_ret]. rewrite prefix_hash_spec by done. cbn [mbind option_bind]. by rewrite IH.
Qed.

Lemma zlen_compute name : NameHashes.len (NameHashes.compute name) = zlen name.
Proof. unfold NameHashes.len, zlen. simpl. by rewrite length_from_components_loop. Qed.

Lemma match_calls_candidates name :
  exists prefixes,
    mapM (NameHashes.prefix_hash (NameHashes.compute name))
      (rev (seqZ 1 (NameHashes.len (NameHashes.compute name) - 1))) = Some prefixes /\
    PitMatchStage.match_calls name (NameHashes.full_hash (NameHashes.compute name)) prefixes = candidates name.
Proof.
  rewrite zlen_compute, prefix_hashes_spec.
  2:{ apply Forall_forall. intros k Hk. apply list_elem_of_In, in_rev, list_elem_of_In, elem_of_seqZ in Hk. lia. }
  eexists. split; [done|]. unfold PitMatchStage.match_calls, candidates, PitMatchStage.stripped_token.
  rewrite full_hash_spec, map_map. destruct (ends_in_digest name && (1 <? zlen name)); done.
Qed.
End candidates.

Section match_stage.
Context `{Hasher} (sort_nonces : list (Z * NonceFingerprint) -> list (Z * NonceFingerprint)).

Definition no_out : MatchOut := mkMatchOut [] [] [] [].
Lemma no_out_ok : out_ok no_out.
Proof. constructor; [done|apply NoDup_nil_2|done]. Qed.

(** The stage on a Data packet is the sequence of calls for its candidates. *)
Lemma match_unfold s ctx d :
  packet ctx = PktData d -> name_hashes ctx = None \/ name_hashes ctx = Some (NameHashes.compute (d_name d)) ->
  exists out s', PitMatchStage.consume_all sort_nonces s (candidates (d_name d)) no_out (arrival ctx) = Some (out, s') /\
    out_ok out /\
    PitMatchStage.process sort_nonces s ctx =
      Some (if zlen (mo_faces out) =? 0
            then (Continue (set_unsolicited (set_name_hashes ctx (Some (NameHashes.compute (d_name d)))) true), [], s')
            else (Continue (set_out (set_name_hashes ctx (Some (NameHashes.compute (d_name d)))) (mo_faces out)
                              (mo_tokens out)), mo_fan_out out, s')).
Proof.
  intros Hd Hh. unfold PitMatchStage.process. rewrite Hd.
  replace (match name_hashes ctx with Some h => h | None => _ end) with (NameHashes.compute (d_name d)) by (by destruct Hh as [-> | ->]).
  destruct (match_calls_candidates (d_name d)) as (ps & -> & ->).
  destruct (consume_all_spec sort_nonces (candidates (d_name d)) s no_out (arrival ctx) no_out_ok)
    as (out & s' & Hc & Hok & _). exists out, s'. cbn [arrival set_name_hashes]. fold no_out. rewrite Hc. split_conj; [done|done|].
  by destruct (zlen (mo_faces out) =? 0).
Qed.
End match_stage.

(** C5: A Data packet goes back exactly to those who asked, whether or not the
    decoder has computed the hashes of its name before.  The stage never panics; each downstream face appears once, with one token; a face gets the
    packet only because an in-record of a candidate entry names it, with the
    token that record carries, and at a proper prefix only if the record said
    CanBePrefix; every due in-record of a candidate entry is among them; and the
    packet is marked unsolicited exactly when there is none. *)
Theorem pit_match_faces `{Hasher} sort_nonces (s : Shared) (ctx : PacketContext) (d : Data) :
  packet ctx = PktData d -> name_hashes ctx = None \/ name_hashes ctx = Some (NameHashes.compute (d_name d)) ->
  out_faces ctx = [] -> unsolicited ctx = false ->
  exists ctx' ev s', PitMatchStage.process sort_nonces s ctx = Some (Continue ctx', ev, s') /\
    NoDup (out_faces ctx') /\
    (unsolicited ctx' = true <-> out_faces ctx' = []) /\
    (forall f t, (f, t) ∈ zip (out_faces ctx') (out_pit_tokens ctx') ->
       exists tok cbp e r, (tok, cbp) ∈ candidates (d_name d) /\ entries (pit s) !! tok = Some e /\
         r ∈ in_records e /\ ir_face_id r = f /\ lp_pit_token r = t /\
         (cbp = true -> can_be_prefix (selector r) = true)) /\
    (forall f, f ∈ out_faces ctx' -> exists t, (f, t) ∈ zip (out_faces ctx') (out_pit_tokens ctx')) /\
    (forall pre tok cbp post e r, candidates (d_name d) = pre ++ (tok, cbp) :: post -> tok ∉ pre.*1 ->
       entries (pit s) !! tok = Some e -> r ∈ in_records e -> record_served cbp e r = true ->
       ir_face_id r ∈ out_faces ctx').
Proof.
  intros Hd Hh Hout Huns. destruct (match_unfold sort_nonces s ctx d Hd Hh) as (out & s' & Hc & Hok & ->).
  destruct (consume_all_spec sort_nonces (candidates (d_name d)) s no_out (arrival ctx) no_out_ok)
    as (out0 & s0 & Hc0 & _ & _ & _ & Hsound & _ & Hcompl). rewrite Hc in Hc0. injection Hc0 as <- <-.
  destruct (Z.eqb_spec (zlen (mo_faces out)) 0) as [Hz|Hz].
  - apply zlen_0_nil in Hz. rewrite Hz in Hcompl. do 3 eexists. split; [reflexivity|].
    cbn [out_faces out_pit_tokens unsolicited set_unsolicited set_name_hashes]. rewrite Hout.
    split_conj; [apply NoDup_nil_2|done|by intros f t ?%elem_of_nil|by intros f ?%elem_of_nil|].
    intros. by eapply Hcompl.
  - do 3 eexists. split; [reflexivity|].
    cbn [out_faces out_pit_tokens unsolicited set_out set_name_hashes]. rewrite Huns.
    split_conj; [by apply Hok|split; [done|]; intros E; by rewrite E in Hz| | |exact Hcompl].
    + intros f t Hft. destruct (Hsound _ Hft) as [?%elem_of_nil|(tok & cbp & e & r & Hreq)]; [done|].
      destruct Hreq as (Hin & He & Hr & Hpart & [= -> ->]). exists tok, cbp, e, r. split_conj; try done.
      intros ->. exact Hpart.
    + intros f Hf. apply list_elem_of_lookup in Hf as [i Hi].
      destruct (lookup_lt_is_Some_2 (mo_tokens out) i) as [t Ht];
        [rewrite (ok_tokens _ Hok); by eapply lookup_lt_Some|].
      exists t. apply list_elem_of_lookup. exists i. apply lookup_zip_with_Some. eauto.
Qed.

(** ** Admission of an ordinary Interest *)

(** The Interest is not subject to the replay guard. *)
Definition unguarded (s : Shared) (i : Interest) : Prop :=
  replay_guard s = None \/ Interest.sig_info i = None.

Definition the_nonce (i : Interest) : Z := default 0 (Interest.nonce i).

Section check_stage.
Context `{Hasher} (sort_keys : list (Z * list Z) -> list (Z * list Z)) (face_table : gmap Z LinkType).
Context (validator : option (Interest -> InterestValidationOutcome)).

Lemma check_replay_unguarded s i : unguarded s i -> PitCheckStage.check_replay sort_keys s i = (false, s).
Proof.
  intros [E|E]; unfold PitCheckStage.check_replay; rewrite E; [done|]. by destruct (replay_guard s).
Qed.

Lemma check_persistent_classical s ctx i :
  packet ctx = PktInterest i -> PitCheckStage.subscription_flavored i = false ->
  PitCheckStage.check_persistent validator s ctx = (Ok None, s).
Proof.
  unfold PitCheckStage.subscription_flavored, PitCheckStage.check_persistent. intros ->.
  destruct (Interest.app_parameters i); [|done]. by destruct (SubscriptionRequest.find_in _).
Qed.

(** The same nonce is known dead. *)
Definition dead (s : Shared) (i : Interest) (now : Z) : bool :=
  match dead_nonce_list s with
  | Some dnl => DeadNonceList.contains dnl (mkNonceFingerprint (NameHashes.full_name_hash (i_name i)) (the_nonce i)) now
  | None => false
  end.

Definition point_to_point (f : Z) : bool :=
  match face_table !! f with Some l => bool_decide (l = PointToPoint) | None => false end.

(** The nonce was seen, other than in a retransmission on a point-to-point link. *)
Definition looped (ctx : PacketContext) (i : Interest) (e : PitEntry) : bool :=
  bool_decide (the_nonce i ∈ nonces_seen e) &&
  negb (point_to_point (face_id ctx) &&
        existsb (fun r => (ir_face_id r =? face_id ctx) && (ir_nonce r =? the_nonce i)) (in_records e)).

Definition classical_record (ctx : PacketContext) (i : Interest) : InRecord :=
  mkInRecord (face_id ctx) (the_nonce i)
    (PitEntry.deadline (arrival ctx) (default 4000 (Interest.lifetime i)))
    (ctx_lp_pit_token ctx) (Interest.selectors i) None [].

(** The entry with the Interest's record added. *)
Definition joined (ctx : PacketContext) (i : Interest) (e : PitEntry) : PitEntry :=
  PitEntry.add_in_record_with_persistent e (face_id ctx) (the_nonce i)
    (PitEntry.deadline (arrival ctx) (default 4000 (Interest.lifetime i)))
    (ctx_lp_pit_token ctx) (Interest.selectors i) None.

Lemma joined_spec ctx i e :
  in_records (joined ctx i e) = in_records e ++ [classical_record ctx i] /\
  the_nonce i ∈ nonces_seen (joined ctx i e) /\
  (forall n, n ∈ nonces_seen e -> n ∈ nonces_seen (joined ctx i e)) /\
  out_records (joined ctx i e) = out_records e /\ pe_name (joined ctx i e) = pe_name e /\
  pe_persistent (joined ctx i e) = pe_persistent e.
Proof.
  unfold joined, PitEntry.add_in_record_with_persistent, PitEntry.add_in_record_inner.
  case_decide; split_conj; try done; simpl; set_solver.
Qed.

(** The stage on an ordinary Interest, in terms of the entry it finds. *)
Lemma check_classical_unfold s ctx i :
  packet ctx = PktInterest i -> unguarded s i -> PitCheckStage.subscription_flavored i = false ->
  let tok := PitToken.from_interest (i_name i) in
  PitCheckStage.process sort_keys face_table validator s ctx =
    if dead s i (arrival ctx) then (Drop LoopDetected, s)
    else match entries (pit s) !! tok with
         | Some e =>
             if looped ctx i e then (Drop LoopDetected, set_entry s tok (set_forward_cancelled e true))
             else (if should_retx_reforward e (arrival ctx)
                   then Continue (set_pit_token ctx (Some tok)) else Drop Suppressed,
                   set_entry s tok (joined ctx i e))
         | None => (Continue (set_pit_token ctx (Some tok)),
                    set_entry s tok (joined ctx i
                      (PitEntry.new (i_name i) (arrival ctx) (default 4000 (Interest.lifetime i)))))
         end.
Proof.
  intros Hp Hu Hf tok. unfold PitCheckStage.process. rewrite Hp, (check_replay_unguarded _ _ Hu).
  rewrite (check_persistent_classical _ _ _ Hp Hf). unfold PitCheckStage.key_name. rewrite Hf.
  change (match dead_nonce_list s with Some dnl => _ | None => false end) with (dead s i (arrival ctx)).
  destruct (dead s i (arrival ctx)); [done|]. unfold Pit.with_entry_or_insert. cbn [PitEntry.is_some].
  change (PitToken.from_name_hash_keyed _ _ Classical) with tok.
  destruct (entries (pit s) !! tok) as [e|]; [|done].
  unfold PitCheckStage.on_existing. cbn [face_id set_pit_token arrival PitEntry.is_some].
  change (bool_decide _ && negb _) with (looped ctx i e). destruct (looped ctx i e); [done|].
  change (PitEntry.add_in_record_with_persistent e _ _ _ _ _ None) with (joined ctx i e).
  assert (should_retx_reforward (joined ctx i e) (arrival ctx) = should_retx_reforward e (arrival ctx)) as ->.
  { unfold should_retx_reforward, PitEntry.last_out. by destruct (joined_spec ctx i e) as (_ & _ & _ & -> & _). }
  by destruct (should_retx_reforward e (arrival ctx)).
Qed.

(** The window since the latest upstream transmission has passed. *)
Lemma should_retx_spec e now :
  should_retx_reforward e now = true <->
  out_records e <> [] /\ forall r, r ∈ out_records e -> sat_add64 (sent_at r) RETX_SUPPRESS_NS <= now.
Proof.
  unfold should_retx_reforward. pose proof (last_out_spec e) as Hl. destruct (PitEntry.last_out e) as [t|].
  - destruct Hl as [(r & Hr & <-) Hmax]. rewrite Z.leb_le. split.
    + intros Hle. split; [intros E; rewrite E in Hr; by apply elem_of_nil in Hr|]. intros r' Hr'.
      specialize (Hmax r' Hr'). unfold sat_add64 in *. lia.
    + intros [_ Hall]. by apply Hall.
  - rewrite Hl. naive_solver.
Qed.
End check_stage.

(** C6: The admission of an ordinary Interest (no subscription, not subject to
    the replay guard).  It is dropped as a loop exactly when its nonce is dead or
    recorded in the entry other than by a retransmission on a point-to-point
    link; otherwise it goes on to the strategy exactly when no entry is pending
    or the 10 ms window since every upstream transmission of it has passed, and
    is suppressed if not; in both cases its face, nonce and token are the last
    in-record of the entry, no other entry changes, and the dead nonces stay. *)
Theorem pit_check_classical `{Hasher} sort_keys face_table validator (s : Shared) (ctx : PacketContext) (i : Interest) :
  packet ctx = PktInterest i -> unguarded s i -> PitCheckStage.subscription_flavored i = false ->
  let tok := PitToken.from_interest (i_name i) in
  let loop := dead s i (arrival ctx) = true \/
              exists e, entries (pit s) !! tok = Some e /\ looped face_table ctx i e = true in
  let forwardable := forall e, entries (pit s) !! tok = Some e ->
        out_records e <> [] /\ forall r, r ∈ out_records e -> sat_add64 (sent_at r) RETX_SUPPRESS_NS <= arrival ctx in
  let '(a, s') := PitCheckStage.process sort_keys face_table validator s ctx in
  (a = Drop LoopDetected <-> loop) /\
  (a = Continue (set_pit_token ctx (Some tok)) <-> ~ loop /\ forwardable) /\
  (a = Drop Suppressed <-> ~ loop /\ ~ forwardable) /\
  (~ loop -> exists e', entries (pit s') !! tok = Some e' /\ the_nonce i ∈ nonces_seen e' /\
     in_records e' = match entries (pit s) !! tok with Some e => in_records e | None => [] end
                     ++ [classical_record ctx i]) /\
  (forall t, t <> tok -> entries (pit s') !! t = entries (pit s) !! t) /\
  dead_nonce_list s' = dead_nonce_list s.
Proof.
  intros Hp Hu Hf tok loop forwardable.
  rewrite (check_classical_unfold sort_keys face_table validator s ctx i Hp Hu Hf).
  fold tok. destruct (dead s i (arrival ctx)) eqn:Hdead.
  { assert loop by (by left). split_conj; naive_solver. }
  destruct (entries (pit s) !! tok) as [e|] eqn:He.
  - destruct (looped face_table ctx i e) eqn:Hl.
    + assert loop by (right; eauto). split_conj; try naive_solver.
      intros t Ht. simpl. by rewrite lookup_insert_ne.
    + assert (~ loop) as Hnl by (intros [|(e' & ? & ?)]; congruence).
      assert (forwardable <-> should_retx_reforward e (arrival ctx) = true) as Hfw.
      { rewrite should_retx_spec. split; [intros Hfw; by apply Hfw|]. intros Hfw e' [= <-]. done. }
      destruct (joined_spec ctx i e) as (J1 & J2 & _).
      split_conj.
      1-3: clearbody loop forwardable; destruct (should_retx_reforward e (arrival ctx)); naive_solver.
      * intros _. exists (joined ctx i e). split_conj; [apply lookup_insert_eq|done|done].
      * intros t Ht. simpl. by rewrite lookup_insert_ne.
      * done.
  - assert (~ loop) as Hnl by (intros [|(e' & ? & ?)]; congruence).
    assert forwardable as Hfw by (intros e' [=]).
    destruct (joined_spec ctx i (PitEntry.new (i_name i) (arrival ctx) (default 4000 (Interest.lifetime i))))
      as (J1 & J2 & _). split_conj; try naive_solver.
    + intros _. eexists. split_conj; [apply lookup_insert_eq|done|done].
    + intros t Ht. simpl. by rewrite lookup_insert_ne.
Qed.

(** ** The budget of a subscription *)

Definition credit (r : InRecord) : Z :=
  match ir_persistent r with Some ps => data_count_remaining ps | None => 0 end.

Lemma credit_some r : 0 < credit r -> PitEntry.is_some (ir_persistent r) = true.
Proof. unfold credit. by destruct (ir_persistent r). Qed.

Lemma credit_debit r : 0 < credit r -> credit (debit false r) = credit r - 1.
Proof.
  unfold credit, debit. destruct (ir_persistent r) as [ps|] eqn:E; [|lia]. intros Hc. simpl.
  destruct (Z.ltb_spec 0 (data_count_remaining ps)); [done|lia].
Qed.

Lemma spent_credit r : 0 < credit r -> spent false r = (credit r =? 1).
Proof. unfold spent, credit. destruct (ir_persistent r); [done|lia]. Qed.

Lemma served_credit ep r : 0 < credit r -> served false ep r = true.
Proof. unfold served, credit. destruct (ir_persistent r); [apply Z.ltb_lt|lia]. Qed.

(** An entry in which every record is a live subscription. *)
Definition subscribed (e : PitEntry) : Prop := in_records e <> [] /\ Forall (fun r => 0 < credit r) (in_records e).

Lemma subscribed_any e : subscribed e -> any_per_record false e = true.
Proof.
  intros [Hne Hall]. unfold any_per_record. destruct (in_records e) as [|r rs]; [done|].
  apply Forall_cons in Hall as [Hr _]. simpl. by rewrite (credit_some r Hr).
Qed.

Section budget.
Context `{Hasher} (sort_nonces : list (Z * NonceFingerprint) -> list (Z * NonceFingerprint)).

(** Data packets for the entry's own name, arriving at the given times. *)
Fixpoint data_stream (s : Shared) (tok : PitToken) (times : list Z) : option Shared :=
  match times with
  | [] => Some s
  | now :: times =>
      let! (_, s) := PitMatchStage.consume_entry sort_nonces s tok false no_out now in
      data_stream s tok times
  end.

Lemma data_stream_none s tok times : entries (pit s) !! tok = None -> data_stream s tok times = Some s.
Proof. intros He. induction times as [|now times IH]; [done|]. cbn [data_stream]. by rewrite consume_none. Qed.

(** One Data packet: every subscriber is served; those with more credit stay. *)
Lemma subscribed_step s tok now e :
  entries (pit s) !! tok = Some e -> subscribed e ->
  exists out s', PitMatchStage.consume_entry sort_nonces s tok false no_out now = Some (out, s') /\
    (forall f, f ∈ mo_faces out <-> exists r, r ∈ in_records e /\ ir_face_id r = f) /\
    let kept := debit false <$> List.filter (fun r => negb (spent false r)) (in_records e) in
    if decide (kept = []) then entries (pit s') !! tok = None
    else exists e', entries (pit s') !! tok = Some e' /\ subscribed e' /\ in_records e' ≡ₚ kept.
Proof.
  intros He Hsub. pose proof (subscribed_any e Hsub) as Hany.
  assert (persistent_path false e = true) as Hp by (unfold persistent_path; by rewrite Hany).
  destruct (consume_persistent sort_nonces s tok false no_out now e He Hp no_out_ok) as (out & rs & Hperm & Hc & Hpush).
  destruct Hsub as [_ Hall]. rewrite Forall_forall in Hall.
  assert (Forall (fun r => 0 < credit r) rs) as Hrs.
  { apply Forall_forall. intros r' Hr'. rewrite Hperm in Hr'. apply list_elem_of_fmap in Hr' as (r & -> & Hr).
    apply list_elem_of_In, List.filter_In in Hr as [Hr Hns]. apply list_elem_of_In in Hr.
    specialize (Hall r Hr). rewrite credit_debit by done. rewrite spent_credit in Hns by done.
    destruct (Z.eqb_spec (credit r) 1); [done|lia]. }
  do 2 eexists. split; [exact Hc|]. split.
  { intros f. rewrite (pushed_faces _ _ _ _ _ Hpush). setoid_rewrite list_elem_of_In. setoid_rewrite List.filter_In.
    setoid_rewrite <- list_elem_of_In. unfold record_served. rewrite Hp. split.
    - intros [?%elem_of_nil|(r & [Hr _] & Hf)]; [done|eauto].
    - intros (r & Hr & Hf). right. exists r. split; [|done]. split; [done|]. apply served_credit, Hall, Hr. }
  assert (should_reap false e rs = bool_decide (rs = [])) as ->.
  { unfold should_reap. rewrite Hany. destruct rs as [|r rs]; [done|].
    apply Forall_cons in Hrs as [Hr _]. simpl. by rewrite (credit_some r Hr). }
  cbv zeta. case_decide as Hk; case_bool_decide as Hb.
  - by eapply touches_reap.
  - rewrite Hk in Hperm. by apply Permutation_nil_r in Hperm.
  - rewrite Hb in Hperm. by apply Permutation_nil_l in Hperm.
  - exists (debited false e rs). split_conj; [apply lookup_insert_eq|by split|done].
Qed.
End budget.

(** C19: Of the Data of its own name, each subscriber gets exactly the number of
    packets it paid for.  For an entry whose in-records are live subscriptions with
    credits of their own, when Data packets of the entry's own name are matched with
    it one after the other, and no others in between, the packet after [k] earlier
    ones goes exactly to the faces whose credit exceeds [k]; no call panics.  (Data
    at a longer name, matched in between, draws on the credit the entry itself keeps
    and can end the subscription early: [exact_subscription_starved].) *)
Theorem subscription_budget `{Hasher} sort_nonces (s : Shared) (tok : Z) (e : PitEntry) (times : list Z) (now : Z) :
  entries (pit s) !! tok = Some e -> subscribed e ->
  exists s' out s'', data_stream sort_nonces s tok times = Some s' /\
    PitMatchStage.consume_entry sort_nonces s' tok false no_out now = Some (out, s'') /\
    forall f, f ∈ mo_faces out <-> exists r, r ∈ in_records e /\ ir_face_id r = f /\ zlen times < credit r.
Proof.
  revert s e. induction times as [|t times IH]; intros s e He Hsub.
  { destruct (subscribed_step sort_nonces s tok now e He Hsub) as (out & s' & Hc & Hf & _).
    exists s, out, s'. split_conj; [done|done|]. intros f. rewrite Hf, zlen_nil. destruct Hsub as [_ Hall].
    rewrite Forall_forall in Hall. naive_solver. }
  destruct (subscribed_step sort_nonces s tok t e He Hsub) as (out1 & s1 & Hc1 & _ & Hkept).
  cbn [data_stream]. rewrite Hc1. cbv zeta in Hkept.
  destruct Hsub as [_ Hall]. rewrite Forall_forall in Hall.
  set (kept := List.filter (fun r => negb (spent false r)) (in_records e)) in *.
  assert (forall r, r ∈ kept <-> r ∈ in_records e /\ 1 < credit r) as Hin.
  { intros r. subst kept. rewrite list_elem_of_In, List.filter_In, <- list_elem_of_In.
    split; (intros [Hr Hns]; split; [done|]; specialize (Hall r Hr); rewrite spent_credit in * by done;
      destruct (Z.eqb_spec (credit r) 1); simpl in *; try done; lia). }
  rewrite zlen_cons. pose proof (zlen_nonneg times). case_decide as Hd.
  - apply fmap_nil_inv in Hd. rewrite data_stream_none by done. exists s1, no_out, s1.
    split_conj; [done|apply consume_none; done|]. intros f. cbn [mo_faces no_out].
    split; [by intros ?%elem_of_nil|]. intros (r & Hr & _ & Hlt). assert (r ∈ kept) as Hk by (apply Hin; split; [done|lia]).
    rewrite Hd in Hk. by apply elem_of_nil in Hk.
  - destruct Hkept as (e1 & He1 & Hsub1 & Hperm). destruct (IH s1 e1 He1 Hsub1) as (s' & out & s'' & H1 & H2 & H3).
    exists s', out, s''. split_conj; [done|done|]. intros f. rewrite H3. setoid_rewrite Hperm.
    setoid_rewrite list_elem_of_fmap. split.
    + intros (r' & (r & -> & Hr) & Hf & Hlt). apply Hin in Hr as [Hr Hc]. exists r.
      rewrite credit_debit in Hlt by lia. destruct (debit_same false r) as [Hs _]. split_conj; [done|congruence|lia].
    + intros (r & Hr & Hf & Hlt). exists (debit false r). destruct (debit_same false r) as [Hs _].
      split_conj; [|congruence|rewrite credit_debit by (by apply Hall); lia]. exists r. split; [done|]. apply Hin. split; [done|lia].
Qed.

(** ** An Interest, its Data, and the Interest again *)

Section cycle.
Context `{Hasher} (sort_nonces : list (Z * NonceFingerprint) -> list (Z * NonceFingerprint)).

Lemma consume_all_none s calls out now :
  (forall c, c ∈ calls -> entries (pit s) !! c.1 = None) ->
  PitMatchStage.consume_all sort_nonces s calls out now = Some (out, s).
Proof.
  induction calls as [|[tok cbp] calls IH]; intros Hnone; [done|]. cbn [PitMatchStage.consume_all].
  rewrite consume_none by apply (Hnone (tok, cbp) ltac:(left)). apply IH. intros c Hc. apply Hnone. by right.
Qed.

(** With room in the list, a nonce is dead until its time is over. *)
Lemma insert_contains dnl fp t now :
  DeadNonceList.len dnl < capacity dnl -> now < sat_add64 t (lifetime_ns dnl) ->
  DeadNonceList.contains (DeadNonceList.insert sort_nonces dnl fp t) fp now = true.
Proof.
  intros Hlen Hnow. unfold DeadNonceList.insert. cbn [DeadNonceList.set_entries capacity].
  assert (DeadNonceList.len (DeadNonceList.set_entries dnl (<[fp := sat_add64 t (lifetime_ns dnl)]> (dnl_entries dnl)))
          <= capacity dnl) as Hle.
  { unfold DeadNonceList.len in *. cbn [DeadNonceList.set_entries dnl_entries].
    destruct (dnl_entries dnl !! fp) eqn:E;
      [rewrite map_size_insert_Some by eauto|rewrite map_size_insert_None by done]; lia. }
  unfold DeadNonceList.contains. rewrite (proj2 (Z.ltb_ge _ _) Hle). cbn [dnl_entries DeadNonceList.set_entries].
  rewrite lookup_insert_eq. by apply Z.ltb_lt.
Qed.
End cycle.

(** C2: The life of an ordinary Interest, through the two PIT stages.  Let the
    Interest be no subscription, and either unsigned or the replay guard off; let a
    dead-nonce list be configured that has room and does not hold its nonce; and let
    nothing be pending that Data of that name would be matched with: no entry for
    the name, for any prefix of it, for the name without a final digest, and no
    persistent one (whose token does not collide with the ordinary one).  Then the
    Interest is passed on; Data of that name, with or without the hashes of its name
    from the decoder, then goes to the face it came from, once, with the LP token it
    carried, and the PIT is as it was before; and until the dead-nonce lifetime is
    over, such an Interest with that name and nonce is dropped as a loop, whatever
    face it comes from. *)
Theorem interest_data_cycle `{Hasher} sort_keys sort_nonces face_table validator
    (s : Shared) (dnl : DeadNonceList) (ctx ctxd : PacketContext) (i : Interest) (d : Data) :
  packet ctx = PktInterest i -> unguarded s i -> PitCheckStage.subscription_flavored i = false ->
  dead_nonce_list s = Some dnl -> DeadNonceList.len dnl < capacity dnl -> dead s i (arrival ctx) = false ->
  (forall c, c ∈ candidates (i_name i) -> entries (pit s) !! c.1 = None) ->
  PitToken.persistent_attach (i_name i) <> PitToken.from_interest (i_name i) ->
  packet ctxd = PktData d -> name_hashes ctxd = None \/ name_hashes ctxd = Some (NameHashes.compute (d_name d)) -> d_name d = i_name i ->
  exists s1 ctxd' ev s2,
    PitCheckStage.process sort_keys face_table validator s ctx =
      (Continue (set_pit_token ctx (Some (PitToken.from_interest (i_name i)))), s1) /\
    PitMatchStage.process sort_nonces s1 ctxd = Some (Continue ctxd', ev, s2) /\
    out_faces ctxd' = [face_id ctx] /\ out_pit_tokens ctxd' = [ctx_lp_pit_token ctx] /\
    entries (pit s2) = entries (pit s) /\
    forall ctx2 i2, packet ctx2 = PktInterest i2 -> unguarded s2 i2 ->
      PitCheckStage.subscription_flavored i2 = false -> i_name i2 = i_name i -> the_nonce i2 = the_nonce i ->
      arrival ctx2 < sat_add64 (arrival ctxd) (lifetime_ns dnl) ->
      PitCheckStage.process sort_keys face_table validator s2 ctx2 = (Drop LoopDetected, s2).
Proof.
  intros Hp Hu Hf Hdnl Hroom Hdead Hnone Hne Hpd Hh Hname.
  set (tok := PitToken.from_interest (i_name i)) in *.
  assert (entries (pit s) !! tok = None) as Htok by (apply (Hnone (tok, false)); right; left).
  set (e := joined ctx i (PitEntry.new (i_name i) (arrival ctx) (default 4000 (Interest.lifetime i)))).
  rewrite (check_classical_unfold sort_keys face_table validator s ctx i Hp Hu Hf), Hdead.
  fold tok. rewrite Htok. fold e. set (s1 := set_entry s tok e).
  assert (entries (pit s1) !! tok = Some e) as He by apply lookup_insert_eq.
  assert (in_records e = [classical_record ctx i] /\ nonces_seen e = [the_nonce i] /\ pe_name e = i_name i /\
          pe_persistent e = None) as (Hin & Hns & Hn & Hpp) by done.
  assert (persistent_path false e = false) as Hpath by (unfold persistent_path, any_per_record; by rewrite Hin, Hpp).
  destruct (reap_some sort_nonces s1 tok e (arrival ctxd) He) as (s2 & Hreap & Hent & _ & Hdead2 & Hg).
  assert (entries (pit s2) = entries (pit s)) as Hent2 by (rewrite Hent; by apply delete_insert_id).
  destruct (match_unfold sort_nonces s1 ctxd d Hpd Hh) as (out & s' & Hc & _ & Hproc). rewrite Hname in *.
  destruct (consume_exact sort_nonces s1 tok no_out (arrival ctxd) e He Hpath no_out_ok) as (out1 & Hc1 & Hout1 & _).
  unfold candidates in Hc at 1. cbn [app PitMatchStage.consume_all] in Hc. fold tok in Hc.
  rewrite consume_none in Hc.
  2:{ subst s1. simpl. rewrite lookup_insert_ne by done. apply (Hnone (_, false)). left. }
  rewrite Hc1, Hreap in Hc. cbn [snd] in Hc. rewrite consume_all_none in Hc.
  2:{ intros c Hcin. rewrite Hent2. apply Hnone. by do 2 right. }
  injection Hc as <- <-. rewrite Hin in Hout1.
  assert ((zlen (mo_faces out1) =? 0) = false) as Hz by (by rewrite Hout1). rewrite Hz, Hout1 in Hproc.
  do 4 eexists. split_conj; [reflexivity|exact Hproc|reflexivity|reflexivity|done|].
  intros ctx2 i2 Hp2 Hu2 Hf2 Hname2 Hnonce2 Htime.
  rewrite (check_classical_unfold sort_keys face_table validator s2 ctx2 i2 Hp2 Hu2 Hf2).
  assert (dead s2 i2 (arrival ctx2) = true) as ->; [|done].
  unfold dead. rewrite Hdead2. subst s1. cbn [set_entry set_pit dead_nonce_list]. rewrite Hdnl.
  unfold PitMatchStage.insert_dead_nonces. rewrite Hns, Hn, Hpp, Hname2, Hnonce2. by apply insert_contains.
Qed.

(** ** A subscription for one name, and Data below it

    The comment on [consume_entry] says that subscribers of exactly a shorter
    prefix are left untouched by the prefix walk.  A subscription's entry keeps
    a credit of its own besides those of its records, and the walk draws on it
    although no record takes part: when it is spent the entry is removed. *)

(** What the prefix walk does to a subscription for exactly one name.  Data
    at a longer name reaches none of its subscribers, and yet, when the credit the
    entry itself keeps is down to one, the entry is removed, whatever credit its
    in-records have left: the comment on [consume_entry] says they are left
    untouched. *)
Theorem exact_subscription_starved `{Hasher} sort_nonces (s : Shared) (tok : Z) (e : PitEntry) (p : PersistentState)
    (now : Z) (out : MatchOut) :
  entries (pit s) !! tok = Some e -> pe_persistent e = Some p -> data_count_remaining p <= 1 ->
  Forall (fun r => ~ is_cbp r) (in_records e) -> out_ok out ->
  exists out' s', PitMatchStage.consume_entry sort_nonces s tok true out now = Some (out', s') /\
    (forall f, f ∈ mo_faces out' <-> f ∈ mo_faces out) /\ entries (pit s') !! tok = None.
Proof.
  intros He Hp Hle Hno Hok. rewrite Forall_forall in Hno. unfold is_cbp in Hno.
  assert (any_per_record true e = false) as Hany.
  { apply not_true_is_false. intros (r & Hr%list_elem_of_In & [_ Hc]%andb_true_iff)%existsb_exists. by apply (Hno r). }
  assert (persistent_path true e = true) as Hpath by (unfold persistent_path; by rewrite Hany, Hp).
  destruct (consume_persistent sort_nonces s tok true out now e He Hpath Hok) as (out' & rs & _ & Hc & Hpush).
  do 2 eexists. split; [exact Hc|]. split.
  - intros f. rewrite (pushed_faces _ _ _ _ _ Hpush). split; [|by left]. intros [?|(r & Hr & _)]; [done|].
    apply list_elem_of_In, List.filter_In in Hr as [Hr%list_elem_of_In Hs%served_cbp]. by destruct (Hno r).
  - unfold should_reap. rewrite Hany, Hp. rewrite (proj2 (Z.eqb_eq _ 0)) by (unfold sat_sub; lia).
    by eapply touches_reap.
Qed.

(** *** Witnesses *)

#[local] Instance toy_hasher : Hasher := {|
  component_hash c := be_decode (value c) + typ c * 1000;
  token_hash h disc := 2 * h + match disc with Classical => 0 | PersistentAttach => 1 end
|}.

Definition a_ : NameComponent := mkComponent 8 [97].
Definition b_ : NameComponent := mkComponent 8 [98].
(** [/a] with nonce 9. *)
Definition interest_a : Interest := mkInterest [5; 11; 7; 3; 8; 1; 97; 10; 4; 0; 0; 0; 9] [a_].
(** [/a] and a parameters digest, nonce 9, a subscription for one Data packet
    in 60 s. *)
Definition subscribe_a : Interest :=
  mkInterest ([5; 60; 7; 37; 8; 1; 97; 2; 32] ++ replicate 32 0 ++ [10; 4; 0; 0; 0; 9]
              ++ [36; 13; 253; 2; 48; 9; 1; 0; 0; 0; 1; 0; 0; 0; 60])
    [a_; mkComponent 2 (replicate 32 0)].
Definition data_at (n : Name) : Data := mkData [] 0 0 0 0 n.

Definition ctx_of (p : DecodedPacket) (face now : Z) : PacketContext :=
  mkContext [] face None p None None (Some [face]) [] [] 0 false false false false now.
Definition empty_shared : Shared := mkShared Pit.new (Some DeadNonceList.new) None.
Definition nsort : list (Z * NonceFingerprint) -> list (Z * NonceFingerprint) := merge_sort age_le.
Definition ksort : list (Z * list Z) -> list (Z * list Z) := merge_sort age_le.

(** One Data packet named [/a/b] ends the subscription of [/a], which gets none. *)
Example exact_subscription_starved_demo :
  let s1 := (PitCheckStage.process ksort ∅ (Some (fun _ => Valid)) empty_shared
               (ctx_of (PktInterest subscribe_a) 7 100)).2 in
  ((fun te => data_count_remaining <$> pe_persistent te.2) <$> map_to_list (entries (pit s1))) = [Some 1] /\
  match PitMatchStage.process nsort s1 (ctx_of (PktData (data_at [a_; b_])) 3 200) with
  | Some (Continue ctx', _, s2) => out_faces ctx' = [] /\ map_to_list (entries (pit s2)) = []
  | _ => False
  end /\
  match PitMatchStage.process nsort s1 (ctx_of (PktData (data_at [a_])) 3 200) with
  | Some (Continue ctx', _, s2) => out_faces ctx' = [7]
  | _ => False
  end.
Proof.
  cbv zeta. split_conj; vm_compute; [reflexivity|split; reflexivity|reflexivity].
Qed.

Definition sub_record (face n : Z) : InRecord :=
  mkInRecord face 1 1000 None Selector_default (Some (mkPersistentState n 1000 None)) [].
(** An exact subscription on face 7 with credit 9 left, in an entry with credit 1. *)
Definition starving_entry : PitEntry :=
  set_persistent (set_in_records (PitEntry.new [a_] 0 4000) [sub_record 7 9]) (Some (mkPersistentState 1 1000 None)).

Lemma exact_subscription_starved_witness :
  exists out' s',
    PitMatchStage.consume_entry nsort (mkShared (mkPit None {[5 := starving_entry]} ∅) None None) 5 true no_out 20
      = Some (out', s') /\
    (forall f, f ∈ mo_faces out' <-> f ∈ mo_faces no_out) /\ entries (pit s') !! 5 = None.
Proof.
  apply (exact_subscription_starved nsort (mkShared (mkPit None {[5 := starving_entry]} ∅) None None) 5 starving_entry
    (mkPersistentState 1 1000 None) 20 no_out).
  - vm_compute. reflexivity.
  - reflexivity.
  - simpl. lia.
  - apply Forall_cons_2; [discriminate|apply Forall_nil_2].
  - apply no_out_ok.
Defined.

Lemma pit_check_classical_witness :
  let '(a, s') := PitCheckStage.process ksort ∅ None empty_shared (ctx_of (PktInterest interest_a) 7 100) in
  (a = Drop LoopDetected <-> dead empty_shared interest_a 100 = true \/
     exists e, entries (pit empty_shared) !! PitToken.from_interest (i_name interest_a) = Some e /\
       looped ∅ (ctx_of (PktInterest interest_a) 7 100) interest_a e = true) /\
  dead_nonce_list s' = dead_nonce_list empty_shared.
Proof.
  pose proof (pit_check_classical ksort ∅ None empty_shared (ctx_of (PktInterest interest_a) 7 100) interest_a
    eq_refl (or_introl eq_refl) ltac:(vm_compute; reflexivity)) as H.
  destruct (PitCheckStage.process ksort ∅ None empty_shared (ctx_of (PktInterest interest_a) 7 100)) as [a s'].
  split; apply H.
Defined.

Lemma pit_match_faces_witness :
  exists ctx' ev s',
    PitMatchStage.process nsort
      (PitCheckStage.process ksort ∅ None empty_shared (ctx_of (PktInterest interest_a) 7 100)).2
      (ctx_of (PktData (data_at [a_])) 3 200) = Some (Continue ctx', ev, s') /\ NoDup (out_faces ctx').
Proof.
  destruct (pit_match_faces nsort
    (PitCheckStage.process ksort ∅ None empty_shared (ctx_of (PktInterest interest_a) 7 100)).2
    (ctx_of (PktData (data_at [a_])) 3 200) (data_at [a_]) eq_refl (or_introl eq_refl) eq_refl eq_refl)
    as (ctx' & ev & s' & H1 & H2 & _).
  exists ctx', ev, s'. split; [exact H1|exact H2].
Defined.

(** A subscription with credit 2 on face 7 and one with credit 1 on face 8. *)
Definition sub_entry : PitEntry :=
  set_in_records (PitEntry.new [a_] 0 4000) [sub_record 7 2; sub_record 8 1].

Lemma subscription_budget_witness :
  exists s' out s'',
    data_stream nsort (mkShared (mkPit None {[5 := sub_entry]} ∅) None None) 5 [10] = Some s' /\
    PitMatchStage.consume_entry nsort s' 5 false no_out 20 = Some (out, s'') /\
    7 ∈ mo_faces out /\ 8 ∉ mo_faces out.
Proof.
  destruct (subscription_budget nsort (mkShared (mkPit None {[5 := sub_entry]} ∅) None None) 5 sub_entry [10] 20)
    as (s' & out & s'' & H1 & H2 & H3).
  - vm_compute. reflexivity.
  - split; [discriminate|]. repeat (apply Forall_cons_2; [vm_compute; reflexivity|]). apply Forall_nil_2.
  - exists s', out, s''. split; [exact H1|]. split; [exact H2|]. split.
    + apply H3. exists (sub_record 7 2). split; [left|]. split; vm_compute; reflexivity.
    + intros (r & Hr & Hf & Hlt)%H3. revert Hf Hlt.
      apply list_elem_of_In in Hr. destruct Hr as [<-|[<-|[]]]; vm_compute; intros; congruence.
Defined.

Lemma interest_data_cycle_witness :
  exists s1 ctxd' ev s2,
    PitCheckStage.process ksort ∅ None empty_shared (ctx_of (PktInterest interest_a) 7 100) =
      (Continue (set_pit_token (ctx_of (PktInterest interest_a) 7 100)
                   (Some (PitToken.from_interest (i_name interest_a)))), s1) /\
    PitMatchStage.process nsort s1 (ctx_of (PktData (data_at [a_])) 3 200) = Some (Continue ctxd', ev, s2) /\
    out_faces ctxd' = [7] /\ out_pit_tokens ctxd' = [Some [7]] /\ entries (pit s2) = entries (pit empty_shared) /\
    forall ctx2 i2, packet ctx2 = PktInterest i2 -> unguarded s2 i2 ->
      PitCheckStage.subscription_flavored i2 = false -> i_name i2 = [a_] -> the_nonce i2 = 9 ->
      arrival ctx2 < 6000000200 -> PitCheckStage.process ksort ∅ None s2 ctx2 = (Drop LoopDetected, s2).
Proof.
  apply (interest_data_cycle ksort nsort ∅ None empty_shared DeadNonceList.new
    (ctx_of (PktInterest interest_a) 7 100) (ctx_of (PktData (data_at [a_])) 3 200) interest_a (data_at [a_])).
  - reflexivity.
  - left. reflexivity.
  - vm_compute. reflexivity.
  - reflexivity.
  - vm_compute. reflexivity.
  - vm_compute. reflexivity.
  - intros c _. apply lookup_empty.
  - vm_compute. discriminate.
  - reflexivity.
  - left. reflexivity.
  - reflexivity.
Defined.
