(* ===== verification/DecodeStage.v ===== *)
(** * The decode stage of the pipeline ([crates/forwarding/ndn-engine/src/stages/decode.rs])

    From the bytes of a link-layer frame to a decoded packet in its context:
    fragment collection ([try_collect_fragment]), link-protocol unwrapping
    ([process_lp]), Interest, Data and Nack decoding, the nonce and HopLimit
    rewriting of the incoming pipeline ([ensure_nonce] of [wire.rs]) and the
    [/localhost] scope check.

    The stage's environment, [Env], is what it reads of the face table, the face
    options and the face states; its state, [DecodeState], is the reassembly
    table, the nonce counter of [wire.rs] (a static) and the Nack counters.  The
    tags of the context are a map keyed by type with one value per type: a record
    of options.  The SHA-256 sidecar of a Data packet is kept beside them; the
    hash is a parameter.  An outcome is an action with the state after it, a
    panic, or exhausted fuel ([Stuck]); [decode_terminates] shows that the fuel
    is always enough. *)

From S2P Require Import Prelude Tlv Name Face Packet Lp Reassembly Evict DeadNonce ReplayGuard Pit PitStage.
#[local] Open Scope Z_scope.

(** ** [wire.rs] *)

(** [(process::id() << 16).wrapping_add(seq)], and the counter after it. *)
Definition next_nonce (pid counter : Z) : Z * Z :=
  (wrap 32 (wrap 32 (Z.shiftl pid 16) + counter), wrap 32 (counter + 1)).

(** The copying loop of [ensure_nonce]; it stops at an element that does not
    parse.  The state is the writer, [name_written] and the nonce counter. *)
Fixpoint copy_with_nonce (fuel : nat) (pid : Z) (r : TlvReader.TlvReader)
    (s : TlvWriter.TlvWriter * bool * Z) : TlvWriter.TlvWriter * bool * Z :=
  match fuel with
  | O => s
  | S fuel =>
      if TlvReader.is_empty r then s
      else match TlvReader.read_tlv r with
           | (Err _, _) => s
           | (Ok (t, v), r) =>
               let '(w, name_written, counter) := s in
               let w := TlvWriter.write_tlv w t v in
               if negb name_written && (t =? tlv_type.NAME) then
                 let '(n, counter) := next_nonce pid counter in
                 copy_with_nonce fuel pid r
                   (TlvWriter.write_tlv w packet_type.NONCE (be_encode 4 n), true, counter)
               else copy_with_nonce fuel pid r (w, name_written, counter)
           end
  end.

(** The bytes after the call and the counter. *)
Definition ensure_nonce (pid counter : Z) (interest_wire : bytes) : bytes * Z :=
  match first_tlv interest_wire with
  | Err _ => (interest_wire, counter)
  | Ok (typ, value, _) =>
      if negb (typ =? packet_type.INTEREST) then (interest_wire, counter)
      else
        let has_nonce :=
          match search (fun t (_ : bytes) => Ok (if t =? packet_type.NONCE then Some (Some tt) else None)) value with
          | Ok (Some _) => true
          | _ => false
          end in
        if has_nonce then (interest_wire, counter)
        else
          let '(w, name_written, counter) :=
            copy_with_nonce (S (length value)) pid (TlvReader.new value) (TlvWriter.new, false, counter) in
          let '(w, counter) :=
            if negb name_written then
              let '(n, counter) := next_nonce pid counter in
              (TlvWriter.write_tlv w packet_type.NONCE (be_encode 4 n), counter)
            else (w, counter) in
          (TlvWriter.finish (TlvWriter.write_nested TlvWriter.new packet_type.INTEREST (fun _ => w)), counter)
  end.

Definition encode_nack (reason : nack.NackReason) (interest_wire : bytes) : bytes := encode_lp_nack reason interest_wire.

(** ** The stage's vocabulary *)

Record Env : Type := mkEnv {
  face_table : FaceTable;
  face_options : gmap Z FaceOptions;
  (** [local_fields_enabled()] of each face state. *)
  face_states : gmap Z bool;
  process_id : Z
}.

Record DecodeState : Type := mkDecodeState {
  reassembly : gmap Z ReassemblyBuffer;
  nonce_counter : Z;
  in_nacks : gmap Z Z
}.

Record Tags : Type := mkTags {
  tag_congestion_mark : option Z;
  tag_next_hop_face_id : option Z;
  tag_cache_policy : option CachePolicyType;
  tag_prefix_announcement : option bytes;
  tag_prev_hop_location : option GeoFix;
  tag_data_location : option GeoFix;
  content_sha256 : option bytes
}.
Definition no_tags : Tags := mkTags None None None None None None None.

Definition set_sha256 (t : Tags) (h : option bytes) : Tags :=
  mkTags (tag_congestion_mark t) (tag_next_hop_face_id t) (tag_cache_policy t) (tag_prefix_announcement t)
    (tag_prev_hop_location t) (tag_data_location t) h.

Definition set_packet (c : PacketContext) (n : Name) (h : option NameHashes) (p : DecodedPacket) : PacketContext :=
  mkContext (raw_bytes c) (face_id c) (Some n) p h (pit_token c) (ctx_lp_pit_token c) (out_faces c)
    (out_pit_tokens c) (endpoint_id c) (cs_hit c) (verified c) (validation_not_configured c) (unsolicited c) (arrival c).
Definition set_raw (c : PacketContext) (b : bytes) : PacketContext :=
  mkContext b (face_id c) (ctx_name c) (packet c) (name_hashes c) (pit_token c) (ctx_lp_pit_token c) (out_faces c)
    (out_pit_tokens c) (endpoint_id c) (cs_hit c) (verified c) (validation_not_configured c) (unsolicited c) (arrival c).
Definition set_lp_pit_token (c : PacketContext) (t : option bytes) : PacketContext :=
  mkContext (raw_bytes c) (face_id c) (ctx_name c) (packet c) (name_hashes c) (pit_token c) t (out_faces c)
    (out_pit_tokens c) (endpoint_id c) (cs_hit c) (verified c) (validation_not_configured c) (unsolicited c) (arrival c).
Definition set_endpoint (c : PacketContext) (e : Z) : PacketContext :=
  mkContext (raw_bytes c) (face_id c) (ctx_name c) (packet c) (name_hashes c) (pit_token c) (ctx_lp_pit_token c)
    (out_faces c) (out_pit_tokens c) e (cs_hit c) (verified c) (validation_not_configured c) (unsolicited c) (arrival c).

(** The stage only continues or drops. *)
Inductive DecodeAction : Type :=
| DContinue (ctx : PacketContext) (tags : Tags)
| DDrop (r : DropReason).

(** [Panic]: an arithmetic overflow, an index out of range, or an [unwrap] of
    nothing. *)
Inductive Stuck : Type := Panic | NoFuel.
Abbreviation outcome A := (result A Stuck).
Definition or_panic {A} (o : option A) : outcome A := ok_or o Panic.

Definition localhost : bytes := [108; 111; 99; 97; 108; 104; 111; 115; 116].

Definition is_localhost_name (name : Name) : bool :=
  match name with c :: _ => bool_decide (value c = localhost) | [] => false end.

Module TlvDecodeStage.

(** [set_face_options]: the overrides of the environment. *)
Definition set_face_options (f : Z) (opts : FaceOptions) (env : Env) : Env :=
  mkEnv (face_table env) (<[f := opts]> (face_options env)) (face_states env) (process_id env).

Section stage.
Context `{Hasher} (sha256 : bytes -> bytes) (iter : group_map -> list ((Z * Z) * Reassembly.Pending)) (env : Env).

Definition ingress_local_fields (f : Z) : bool := default false (face_states env !! f).

Definition content_hash_target (f : Z) : option ContentHashTarget :=
  match face_options env !! f with
  | Some opts => opt_content_hash_target opts
  | None => match FaceTable.get f (face_table env) with
            | Some face => opt_content_hash_target (default_for_kind (f_kind face))
            | None => None
            end
  end.

(** [populate_content_sha256_with]: the sidecar after the call. *)
Definition populate_content_sha256_with (d : Data) (target : ContentHashTarget) (old : option bytes) : option bytes :=
  match Data.content d with
  | None => old
  | Some content =>
      match target with
      | WholeContent => Some (sha256 content)
      | InnerTlvType t =>
          match search (fun typ val => Ok (if typ =? t then Some (Some val) else None)) content with
          | Ok (Some val) => Some (sha256 val)
          | _ => old
          end
      end
  end.

(** [Some] is the drop. *)
Definition check_scope (ctx : PacketContext) : option DecodeAction :=
  match ctx_name ctx with
  | None => None
  | Some name =>
      let is_non_local :=
        match FaceTable.get (face_id ctx) (face_table env) with Some f => bool_decide (scope f = NonLocal) | None => false end in
      if negb is_non_local then None
      else if is_localhost_name name then Some (DDrop ScopeViolation)
      else None
  end.

(** [if name.len() > 3 { ctx.name_hashes = Some(..) }]. *)
Definition hashes_of (ctx : PacketContext) (n : Name) : option NameHashes :=
  if 3 <? NameOps.len n then Some (NameHashes.compute n) else name_hashes ctx.

Definition finish (ctx : PacketContext) (tags : Tags) : DecodeAction :=
  match check_scope ctx with Some drop => drop | None => DContinue ctx tags end.

Definition decode_data (ctx : PacketContext) (tags : Tags) : DecodeAction :=
  match Data.decode (raw_bytes ctx) with
  | Ok data =>
      let h := match content_hash_target (face_id ctx) with
               | Some target => populate_content_sha256_with data target None
               | None => None
               end in
      finish (set_packet ctx (d_name data) (hashes_of ctx (d_name data)) (PktData data)) (set_sha256 tags h)
  | Err _ => DDrop DropMalformedPacket
  end.

Definition decode_interest (ctx : PacketContext) (tags : Tags) (st : DecodeState)
    : outcome (DecodeAction * DecodeState) :=
  match Interest.decode (raw_bytes ctx) with
  | Err _ => Ok (DDrop DropMalformedPacket, st)
  | Ok interest =>
      if bool_decide (Interest.hop_limit interest = Some 0) then Ok (DDrop HopLimitExceeded, st)
      else
        let '(raw, counter) := ensure_nonce (process_id env) (nonce_counter st) (raw_bytes ctx) in
        let st := mkDecodeState (reassembly st) counter (in_nacks st) in
        let? raw :=
          (match Interest.hop_limit interest with
           | None => Ok raw
           | Some _ =>
               match Interest.decrement_hop_limit raw with
               | Err _ => Err Panic
               | Ok (Some (new_wire, _)) => Ok new_wire
               | Ok None => Ok raw
               end
           end) in
        match Interest.decode raw with
        | Err _ => Ok (DDrop DropMalformedPacket, st)
        | Ok interest =>
            let ctx := set_raw ctx raw in
            Ok (finish (set_packet ctx (i_name interest) (hashes_of ctx (i_name interest)) (PktInterest interest))
                    tags, st)
        end
  end.

(** The tags and the PIT token an LpPacket sets. *)
Definition geo_tag (o : option bytes) (old : option GeoFix) : option GeoFix :=
  match o with
  | Some v => match GeoFix.decode_value v with Some g => Some g | None => old end
  | None => old
  end.
Definition some_or {A} (o old : option A) : option A := match o with Some a => Some a | None => old end.

Definition lp_tags (f : Z) (lp : LpPacket) (t : Tags) : Tags := {|
  tag_congestion_mark := some_or (congestion_mark lp) (tag_congestion_mark t);
  tag_next_hop_face_id :=
    match next_hop_face_id lp with
    | Some id => if ingress_local_fields f then Some id else tag_next_hop_face_id t
    | None => tag_next_hop_face_id t
    end;
  tag_cache_policy := some_or (cache_policy lp) (tag_cache_policy t);
  tag_prefix_announcement := some_or (prefix_announcement lp) (tag_prefix_announcement t);
  tag_prev_hop_location := geo_tag (al_prev_hop_loc lp) (tag_prev_hop_location t);
  tag_data_location := geo_tag (al_data_loc lp) (tag_data_location t);
  content_sha256 := content_sha256 t
|}.

Definition checked_sub (a b : Z) : option Z := if b <=? a then Some (a - b) else None.

(** [self.reassembly.entry(face_id).or_default()] and [rb.process]. *)
Definition collect_into (now f ep seq idx cnt : Z) (fragment : bytes) (st : DecodeState)
    : outcome (option bytes * DecodeState) :=
  let rb := default ReassemblyBuffer.default_ (reassembly st !! f) in
  let? (o, rb) := or_panic (ReassemblyBuffer.process iter now ep seq idx cnt fragment rb) in
  Ok (o, mkDecodeState (<[f := rb]> (reassembly st)) (nonce_counter st) (in_nacks st)).

Definition decode_nack (ctx : PacketContext) (tags : Tags) (header : nack.NackHeader) (fragment : bytes)
    (st : DecodeState) : DecodeAction * DecodeState :=
  match Interest.decode fragment with
  | Err _ => (DDrop DropMalformedPacket, st)
  | Ok interest =>
      let n := nack.mkNack (nack.h_reason header) interest in
      let ctx := set_packet ctx (i_name interest) (hashes_of ctx (i_name interest)) (PktNack n) in
      let st := if bool_decide (is_Some (face_states env !! face_id ctx)) then
          mkDecodeState (reassembly st) (nonce_counter st)
            (<[face_id ctx := 1 + default 0 (in_nacks st !! face_id ctx)]> (in_nacks st))
        else st in
      (finish ctx tags, st)
  end.

(** [process] and [process_lp] call each other; the fuel bounds the nesting. *)
Fixpoint process (fuel : nat) (now : Z) (ctx : PacketContext) (tags : Tags) (st : DecodeState)
    : outcome (DecodeAction * DecodeState) :=
  match fuel with
  | O => Err NoFuel
  | S fuel =>
      match raw_bytes ctx with
      | [] => Ok (DDrop DropMalformedPacket, st)
      | first_byte :: _ =>
          if is_lp_packet (raw_bytes ctx) then process_lp fuel now ctx tags st
          else if first_byte =? packet_type.INTEREST then decode_interest ctx tags st
          else if first_byte =? packet_type.DATA then Ok (decode_data ctx tags, st)
          else Ok (DDrop DropMalformedPacket, st)
      end
  end
with process_lp (fuel : nat) (now : Z) (ctx : PacketContext) (tags : Tags) (st : DecodeState)
    : outcome (DecodeAction * DecodeState) :=
  match fuel with
  | O => Err NoFuel
  | S fuel =>
      match LpPacket.decode (raw_bytes ctx) with
      | Err _ => Ok (DDrop DropMalformedPacket, st)
      | Ok lp =>
          let tags := lp_tags (face_id ctx) lp tags in
          let ctx := match Lp.lp_pit_token lp with Some token => set_lp_pit_token ctx (Some token) | None => ctx end in
          if LpPacket.is_ack_only lp then Ok (DDrop FragmentCollect, st)
          else match fragment lp with
               | None => Ok (DDrop DropMalformedPacket, st)
               | Some frag =>
                   if LpPacket.is_fragmented lp then
                     match checked_sub (default 0 (sequence lp)) (default 0 (frag_index lp)) with
                     | None =>
                         (** The face's buffer was created by [or_default]. *)
                         let rb := default ReassemblyBuffer.default_ (reassembly st !! face_id ctx) in
                         Ok (DDrop DropMalformedPacket,
                               mkDecodeState (<[face_id ctx := rb]> (reassembly st)) (nonce_counter st) (in_nacks st))
                     | Some base_seq =>
                         let? (complete, st) := collect_into now (face_id ctx) (endpoint_id ctx) base_seq
                           (default 0 (frag_index lp)) (default 1 (frag_count lp)) frag st in
                         match complete with
                         | Some packet => process fuel now (set_raw ctx packet) tags st
                         | None => Ok (DDrop FragmentCollect, st)
                         end
                     end
                   else match nack_header lp with
                        | Some header => Ok (decode_nack ctx tags header frag st)
                        | None => process fuel now (set_raw ctx frag) tags st
                        end
               end
      end
  end.

(** [Ok(Some)], [Ok(None)] and [Err]. *)
Inductive Collected : Type := Complete (b : bytes) | Buffered | NotFragment (raw : bytes).

Definition try_collect_fragment (now f endpoint_id : Z) (raw : bytes) (st : DecodeState)
    : outcome (Collected * DecodeState) :=
  match extract_fragment raw with
  | None => Ok (NotFragment raw, st)
  | Some hdr =>
      let? fragment := or_panic (get_range raw (frag_start hdr) (frag_end hdr)) in
      match checked_sub (fh_sequence hdr) (fh_frag_index hdr) with
      | None => Ok (Buffered, st)
      | Some base_seq =>
          let? (o, st) := collect_into now f endpoint_id base_seq (fh_frag_index hdr) (fh_frag_count hdr) fragment st in
          Ok (match o with Some b => Complete b | None => Buffered end, st)
      end
  end.

(** [purge_expired_reassembly], which the engine's sweeper runs every
    [DEFAULT_REASSEMBLY_TIMEOUT]; the number of groups it discards. *)
Definition purge_expired_reassembly (now : Z) (st : DecodeState) : Z * DecodeState :=
  let swept := ReassemblyBuffer.purge_expired now <$> reassembly st in
  let timed_out_of m := map_fold (fun _ rb n => timed_out (rb_stats rb) + n) 0 m in
  (timed_out_of swept - timed_out_of (reassembly st), mkDecodeState swept (nonce_counter st) (in_nacks st)).

(** The bytes the buffers hold, plus those of the frame, bound the nesting. *)
Definition decode_fuel (f : Z) (raw : bytes) (st : DecodeState) : nat :=
  2 * (S (length raw) + held (pending (default ReassemblyBuffer.default_ (reassembly st !! f)))).

Definition decode_resolved (now : Z) (raw : bytes) (f arrival endpoint_id : Z) (st : DecodeState)
    : outcome (DecodeAction * DecodeState) :=
  let ctx := set_endpoint (PacketContext.new raw f arrival) endpoint_id in
  process (decode_fuel f raw st) now ctx no_tags st.

Definition decode_inbound (now : Z) (raw : bytes) (f arrival endpoint_id : Z) (st : DecodeState)
    : outcome (DecodeAction * DecodeState) :=
  let? (c, st) := try_collect_fragment now f endpoint_id raw st in
  match c with
  | Buffered => Ok (DDrop FragmentCollect, st)
  | Complete reassembled => decode_resolved now reassembled f arrival endpoint_id st
  | NotFragment raw => decode_resolved now raw f arrival endpoint_id st
  end.

End stage.
End TlvDecodeStage.

(** ** The ingress guards *)

Section guards.
Context `{Hasher} (sha256 : bytes -> bytes) (iter : group_map -> list ((Z * Z) * Reassembly.Pending)) (env : Env).
Import TlvDecodeStage.

(** What a packet that continues looks like: from the face it came in on, named,
    within its scope, and with no next-hop override the face may not give. *)
Record admitted (f : Z) (tags : Tags) (c : PacketContext) (t : Tags) : Prop := {
  ad_face : face_id c = f;
  ad_name : exists n, ctx_name c = Some n /\
    (forall face, FaceTable.get f (face_table env) = Some face -> scope face = NonLocal -> is_localhost_name n = false);
  ad_hop : ingress_local_fields env f = false -> tag_next_hop_face_id t = tag_next_hop_face_id tags
}.

Definition guarded_action (f : Z) (tags : Tags) (a : DecodeAction) : Prop :=
  match a with DContinue c t => admitted f tags c t | DDrop _ => True end.

Lemma finish_guarded tags t ctx n h p :
  (ingress_local_fields env (face_id ctx) = false -> tag_next_hop_face_id t = tag_next_hop_face_id tags) ->
  guarded_action (face_id ctx) tags (finish env (set_packet ctx n h p) t).
Proof.
  intros Ht. unfold finish, check_scope. cbn [ctx_name set_packet face_id].
  destruct (FaceTable.get (face_id ctx) (face_table env)) as [face|] eqn:Hf.
  - case_bool_decide as Hs; cbn [negb].
    + destruct (is_localhost_name n) eqn:Hn; [done|]. split; [done| |done]. exists n. by split.
    + split; [done| |done]. exists n. split; [done|]. intros face' Hf' Hs'. cbn in Hf'. rewrite Hf in Hf'. by simplify_eq.
  - split; [done| |done]. exists n. split; [done|]. intros face' Hf'. cbn in Hf'. by rewrite Hf in Hf'.
Qed.

Lemma guarded_tags f tags t a :
  (ingress_local_fields env f = false -> tag_next_hop_face_id t = tag_next_hop_face_id tags) ->
  guarded_action f t a -> guarded_action f tags a.
Proof.
  intros Ht. destruct a as [c t'|]; [|done]. intros [Hf Hn Hh]. split; [done|done|].
  intros Hl. rewrite Hh by done. by apply Ht.
Qed.

Lemma decode_interest_guarded ctx tags st a st' :
  decode_interest env ctx tags st = Ok (a, st') -> guarded_action (face_id ctx) tags a.
Proof.
  unfold decode_interest. destruct (Interest.decode (raw_bytes ctx)) as [i|]; [|by intros [= <- _]].
  case_bool_decide; [by intros [= <- _]|].
  destruct (ensure_nonce _ _ _) as [raw cnt].
  destruct (match Interest.hop_limit i with None => _ | Some _ => _ end) as [raw'|]; [|done].
  destruct (Interest.decode raw') as [i'|]; intros [= <- _]; [|done].
  by apply (finish_guarded tags tags (set_raw ctx raw')).
Qed.

Lemma lp_tags_hop f lp tags :
  ingress_local_fields env f = false -> tag_next_hop_face_id (lp_tags env f lp tags) = tag_next_hop_face_id tags.
Proof. intros Hf. cbn. rewrite Hf. by destruct (next_hop_face_id lp). Qed.

Lemma process_guarded now fuel : forall ctx tags st a st',
  (process sha256 iter env fuel now ctx tags st = Ok (a, st') -> guarded_action (face_id ctx) tags a) /\
  (process_lp sha256 iter env fuel now ctx tags st = Ok (a, st') -> guarded_action (face_id ctx) tags a).
Proof.
  induction fuel as [|fuel IH]; intros ctx tags st a st'; [done|]. split; cbn [process process_lp].
  - destruct (raw_bytes ctx) as [|b raw] eqn:Hraw; [by intros [= <- _]|].
    destruct (is_lp_packet (b :: raw)); [apply IH|].
    destruct (b =? packet_type.INTEREST); [apply decode_interest_guarded|].
    destruct (b =? packet_type.DATA); [|by intros [= <- _]]. intros [= <- _]. unfold decode_data.
    destruct (Data.decode (raw_bytes ctx)); [|done]. by apply finish_guarded.
  - destruct (LpPacket.decode (raw_bytes ctx)) as [lp|]; [|by intros [= <- _]].
    set (ctx' := match Lp.lp_pit_token lp with Some token => set_lp_pit_token ctx (Some token) | None => ctx end).
    assert (face_id ctx' = face_id ctx) as Hid by (unfold ctx'; by destruct (Lp.lp_pit_token lp)).
    destruct (LpPacket.is_ack_only lp); [by intros [= <- _]|].
    destruct (fragment lp) as [frag|]; [|by intros [= <- _]].
    assert (forall b st1, process sha256 iter env fuel now (set_raw ctx' b) (lp_tags env (face_id ctx) lp tags) st1 = Ok (a, st') ->
      guarded_action (face_id ctx) tags a) as Hrec.
    { intros b st1 Hp. apply (proj1 (IH _ _ _ _ _)) in Hp. cbn [face_id set_raw] in Hp. rewrite Hid in Hp.
      eapply guarded_tags; [|exact Hp]. apply lp_tags_hop. }
    destruct (LpPacket.is_fragmented lp).
    + destruct (checked_sub _ _) as [base|]; [|by intros [= <- _]].
      destruct (collect_into _ _ _ _ _ _ _ _ _) as [[[pkt|] st1]|]; [apply Hrec|by intros [= <- _]|done].
    + destruct (nack_header lp) as [hd|]; [|apply Hrec]. intros [= Ha]. unfold decode_nack in Ha.
      destruct (Interest.decode frag) as [i|]; injection Ha as <- _; [|done].
      rewrite <- Hid. apply finish_guarded. rewrite Hid. apply lp_tags_hop.
Qed.

(** ** The context the later stages get *)

(** No stage has set anything yet. *)
Record fresh_context (c : PacketContext) : Prop := {
  fc_token : pit_token c = None;
  fc_faces : out_faces c = [];
  fc_tokens : out_pit_tokens c = [];
  fc_hit : cs_hit c = false;
  fc_verified : verified c = false;
  fc_configured : validation_not_configured c = false;
  fc_unsolicited : unsolicited c = false
}.

(** The packet in the context is what its bytes say. *)
Definition packet_of_bytes (c : PacketContext) : Prop :=
  match packet c with
  | PktInterest i => Interest.decode (raw_bytes c) = Ok i /\ ctx_name c = Some (i_name i)
  | PktData d => Data.decode (raw_bytes c) = Ok d /\ ctx_name c = Some (d_name d)
  | PktNack n => ctx_name c = Some (i_name (nack.interest n))
  | PktRaw => False
  end.

Definition decoded_action (a : DecodeAction) : Prop :=
  match a with DContinue c _ => fresh_context c /\ packet_of_bytes c | DDrop _ => True end.

Lemma finish_decoded t ctx : fresh_context ctx -> packet_of_bytes ctx -> decoded_action (finish env ctx t).
Proof. intros Hf Hp. unfold finish, check_scope. repeat case_match; by simplify_eq. Qed.

Lemma decode_interest_decoded ctx tags st a st' :
  fresh_context ctx -> decode_interest env ctx tags st = Ok (a, st') -> decoded_action a.
Proof.
  intros Hf. unfold decode_interest. destruct (Interest.decode (raw_bytes ctx)) as [i|]; [|by intros [= <- _]].
  case_bool_decide; [by intros [= <- _]|]. destruct (ensure_nonce _ _ _) as [raw cnt].
  destruct (match Interest.hop_limit i with None => _ | Some _ => _ end) as [raw'|]; [|done].
  destruct (Interest.decode raw') as [i'|] eqn:Hi; intros [= <- _]; [|done].
  apply finish_decoded; [by destruct Hf|done].
Qed.

Lemma process_decoded now fuel : forall ctx tags st a st',
  fresh_context ctx ->
  (process sha256 iter env fuel now ctx tags st = Ok (a, st') -> decoded_action a) /\
  (process_lp sha256 iter env fuel now ctx tags st = Ok (a, st') -> decoded_action a).
Proof.
  induction fuel as [|fuel IH]; intros ctx tags st a st' Hf; [done|]. split; cbn [process process_lp].
  - destruct (raw_bytes ctx) as [|b raw] eqn:Hraw; [by intros [= <- _]|].
    destruct (is_lp_packet (b :: raw)); [by apply IH|].
    destruct (b =? packet_type.INTEREST); [by apply decode_interest_decoded|].
    destruct (b =? packet_type.DATA); [|by intros [= <- _]]. intros [= <- _]. unfold decode_data.
    destruct (Data.decode (raw_bytes ctx)) as [d|] eqn:Hd; [|done]. apply finish_decoded; [by destruct Hf|done].
  - destruct (LpPacket.decode (raw_bytes ctx)) as [lp|]; [|by intros [= <- _]].
    set (ctx' := match Lp.lp_pit_token lp with Some token => set_lp_pit_token ctx (Some token) | None => ctx end).
    assert (fresh_context ctx') as Hf' by (unfold ctx'; destruct (Lp.lp_pit_token lp); by destruct Hf).
    destruct (LpPacket.is_ack_only lp); [by intros [= <- _]|].
    destruct (fragment lp) as [frag|]; [|by intros [= <- _]].
    assert (forall b t st1, process sha256 iter env fuel now (set_raw ctx' b) t st1 = Ok (a, st') -> decoded_action a) as Hrec.
    { intros b t st1. apply IH. by destruct Hf'. }
    destruct (LpPacket.is_fragmented lp).
    + destruct (checked_sub _ _) as [base|]; [|by intros [= <- _]].
      destruct (collect_into _ _ _ _ _ _ _ _ _) as [[[pkt|] st1]|]; [apply Hrec|by intros [= <- _]|done].
    + destruct (nack_header lp) as [hd|]; [|apply Hrec]. intros [= Ha]. unfold decode_nack in Ha.
      destruct (Interest.decode frag) as [i|]; injection Ha as <- _; [|done]. apply finish_decoded; [by destruct Hf'|done].
Qed.

Lemma resolved_admitted now raw f arrival ep st c t st' :
  decode_resolved sha256 iter env now raw f arrival ep st = Ok (DContinue c t, st') ->
  admitted f no_tags c t /\ fresh_context c /\ packet_of_bytes c.
Proof.
  unfold decode_resolved. intros E. split; [by apply process_guarded in E|].
  apply (proj1 (process_decoded _ _ (set_endpoint (PacketContext.new raw f arrival) ep) _ _ _ _ ltac:(done))) in E. exact E.
Qed.
End guards.

(** ** Termination *)

Lemma lp_fragment_props raw lp frag :
  wf_bytes raw -> zlen raw <= usize_max -> LpPacket.decode raw = Ok lp -> fragment lp = Some frag ->
  wf_bytes frag /\ (length frag < length raw)%nat /\
  0 <= default 0 (frag_index lp) /\ 0 <= default 1 (frag_count lp).
Proof.
  intros Hwf Hl Hd Hf. apply lp_decode_shape in Hd as (hs & fr & rest & Hs & ->); [|done..].
  cbn [fragment lp_of] in Hf. subst fr. pose proof (lp_shape_wf _ _ _ _ Hwf Hs) as Hes.
  destruct Hs as [Hraw Hwe _ _ _]. apply Forall_app in Hes as [_ Hfe]. apply Forall_inv in Hfe as [_ Hfw].
  assert (forall T d, 0 <= d -> 0 <= default d (num_of T hs)) as Hnum.
  { intros T d Hd. destruct (find_elem T hs) as [v|] eqn:E; simpl; [|done].
    apply find_elem_ok in E as ([t v'] & Hin & _ & <-). rewrite Forall_forall in Hwe.
    apply decode_be_u64_range. by apply (Hwe (t, v')). }
  split_conj; [done| |apply Hnum; lia|apply Hnum; lia].
  assert (zlen raw = zlen raw) as Hz by done. rewrite Hraw in Hz at 1.
  rewrite zlen_app, zlen_tlv_bytes, zlen_elems_wire_app in Hz. cbn [frag_elems] in Hz.
  rewrite elems_wire_one, zlen_tlv_bytes in Hz. cbn [fst snd] in Hz.
  pose proof (tlv_size_bounds lp_type.LP_FRAGMENT (zlen frag) (zlen_nonneg _)).
  pose proof (zlen_nonneg (elems_wire hs)). pose proof (zlen_nonneg rest).
  pose proof (tlv_size_bounds lp_type.LP_PACKET
    (zlen (elems_wire hs) + tlv_size lp_type.LP_FRAGMENT (zlen frag)) ltac:(unfold zlen in *; lia)).
  unfold zlen in *. lia.
Qed.

Definition buffer_of (f : Z) (st : DecodeState) : ReassemblyBuffer :=
  default ReassemblyBuffer.default_ (reassembly st !! f).
Definition wf_state (st : DecodeState) : Prop :=
  map_Forall (fun _ rb => wf_buffer rb /\ wf_held (pending rb)) (reassembly st).

Lemma buffer_of_wf f st : wf_state st -> wf_buffer (buffer_of f st) /\ wf_held (pending (buffer_of f st)).
Proof.
  intros Hst. unfold buffer_of. destruct (reassembly st !! f) as [rb|] eqn:E; [by eapply Hst|].
  split; [split; [apply map_Forall_empty|done]|apply map_Forall_empty].
Qed.

Section termination.
Context `{Hasher} (sha256 : bytes -> bytes) (iter : group_map -> list ((Z * Z) * Reassembly.Pending))
  `{Hiter : !MapIter iter} (env : Env).
Import TlvDecodeStage.

(** Collecting a fragment never panics; the bytes go in or the packet comes out. *)
Lemma collect_into_ok now f ep seq idx cnt frag st :
  wf_state st -> 0 <= idx -> 0 <= cnt -> wf_bytes frag ->
  exists o st', collect_into iter now f ep seq idx cnt frag st = Ok (o, st') /\ wf_state st' /\
    nonce_counter st' = nonce_counter st /\
    (default 0 (length <$> o) + held (pending (buffer_of f st')) <= length frag + held (pending (buffer_of f st)))%nat /\
    (forall b, o = Some b -> wf_bytes b).
Proof.
  intros Hst Hi Hc Hf. destruct (buffer_of_wf f st Hst) as [Hb Hh]. unfold collect_into. fold (buffer_of f st).
  destruct (process_total iter now ep seq idx cnt frag _ Hb Hi Hc) as (o & rb' & Hp & Hb' & _). rewrite Hp. cbn [or_panic ok_or].
  destruct (process_bytes iter now ep seq idx cnt frag _ o rb' Hb Hi Hc Hh Hf Hp) as (Hle & Hh' & Ho).
  eexists _, _. split; [done|]. split_conj; [|done| |done].
  - by apply map_Forall_insert_2.
  - unfold buffer_of at 1. cbn [reassembly]. by rewrite lookup_insert_eq.
Qed.

Definition weight (ctx : PacketContext) (st : DecodeState) : nat :=
  (length (raw_bytes ctx) + held (pending (buffer_of (face_id ctx) st)))%nat.

Definition wf_input (ctx : PacketContext) (st : DecodeState) : Prop :=
  wf_state st /\ wf_bytes (raw_bytes ctx) /\ Z.of_nat (weight ctx st) <= usize_max.

(** With more than twice its weight in fuel, the stage does not run out, and
    the reassembly tables stay well-formed. *)
Definition settles (st : DecodeState) (r : outcome (DecodeAction * DecodeState)) : Prop :=
  match r with Ok (_, st') => wf_state st' | Err e => e = Panic end.

Lemma decode_interest_settles ctx tags st : wf_state st -> settles st (decode_interest env ctx tags st).
Proof.
  intros Hst. unfold decode_interest. destruct (Interest.decode (raw_bytes ctx)) as [i|]; [|done].
  case_bool_decide; [done|]. destruct (ensure_nonce _ _ _) as [raw cnt].
  destruct (Interest.hop_limit i); [destruct (Interest.decrement_hop_limit raw) as [[[w h]|]|]|]; try done;
    by destruct (Interest.decode _).
Qed.

Lemma process_settles now n : forall fuel ctx tags st,
  wf_input ctx st -> (weight ctx st <= n)%nat -> (2 * n < fuel)%nat ->
  settles st (process sha256 iter env fuel now ctx tags st).
Proof.
  induction n as [n IH] using lt_wf_ind. intros [|fuel] ctx tags st (Hst & Hwf & Hu) Hw Hf; [lia|].
  cbn [process]. destruct (raw_bytes ctx) as [|b raw] eqn:Hraw; [done|].
  destruct (is_lp_packet (b :: raw)); [|destruct (b =? packet_type.INTEREST);
    [by apply decode_interest_settles|by destruct (b =? packet_type.DATA)]].
  destruct fuel as [|fuel]; [unfold weight in Hw; rewrite Hraw in Hw; simpl in Hw; lia|].
  cbn [process_lp]. rewrite <- Hraw in *.
  assert (zlen (raw_bytes ctx) <= usize_max) as Hl by (unfold weight, zlen in *; lia).
  destruct (LpPacket.decode (raw_bytes ctx)) as [lp|] eqn:Hd; [|done].
  set (ctx' := match Lp.lp_pit_token lp with Some token => set_lp_pit_token ctx (Some token) | None => ctx end).
  assert (face_id ctx' = face_id ctx) as Hid by (unfold ctx'; by destruct (Lp.lp_pit_token lp)).
  destruct (LpPacket.is_ack_only lp); [done|]. destruct (fragment lp) as [frag|] eqn:Hfr; [|done].
  destruct (lp_fragment_props _ _ _ Hwf Hl Hd Hfr) as (Hfw & Hlt & Hi & Hc).
  assert (forall b t st1, wf_state st1 -> wf_bytes b ->
    (length b + held (pending (buffer_of (face_id ctx) st1)) < weight ctx st)%nat ->
    settles st1 (process sha256 iter env fuel now (set_raw ctx' b) t st1)) as Hrec.
  { intros b0 t st1 Hst1 Hb0 Hlt0. apply (IH (n - 1)%nat); [lia| | |lia].
    - split; [done|split; [done|]]. unfold weight at 1. cbn [raw_bytes face_id set_raw]. rewrite Hid. lia.
    - unfold weight at 1. cbn [raw_bytes face_id set_raw]. rewrite Hid. lia. }
  destruct (LpPacket.is_fragmented lp).
  - destruct (checked_sub _ _) as [base|].
    2:{ cbn [settles]. apply map_Forall_insert_2; [|done]. apply buffer_of_wf. done. }
    destruct (collect_into_ok now (face_id ctx') (endpoint_id ctx') base _ _ frag st Hst Hi Hc Hfw)
      as (o & st1 & -> & Hst1 & _ & Hle & Ho).
    destruct o as [pkt|]; [|done]. change (default 0%nat (length <$> Some pkt)) with (length pkt) in Hle.
    rewrite Hid in Hle. apply Hrec; [done|by apply Ho|]. unfold weight. lia.
  - destruct (nack_header lp) as [hd|].
    + unfold decode_nack. destruct (Interest.decode frag); [|done]. by case_bool_decide.
    + apply Hrec; [done|done|]. unfold weight. lia.
Qed.
End termination.

(** ** Delivery of a fragmented packet *)

Section delivery.
Context `{Hasher} (iter : group_map -> list ((Z * Z) * Reassembly.Pending)) `{Hiter : !MapIter iter}.
Context (f ep base : Z) (fs wires : list bytes).
Import TlvDecodeStage.

(** What happens on the face: a fragment of the packet arrives, or anything from
    another endpoint; or the engine's timer sweeps the buffers. *)
Inductive Frame : Type :=
| Mine (now : Z) (i : nat)
| Other (now ep' : Z) (raw : bytes)
| Sweep (now : Z).

Definition receive (fr : Frame) (st : DecodeState) : outcome (Collected * DecodeState) :=
  match fr with
  | Mine now i => try_collect_fragment iter now f ep (wires !!! i) st
  | Other now ep' raw => try_collect_fragment iter now f ep' raw st
  | Sweep now => Ok (Buffered, (purge_expired_reassembly now st).2)
  end.

Fixpoint receive_all (l : list Frame) (st : DecodeState) : outcome (list Collected * DecodeState) :=
  match l with
  | [] => Ok ([], st)
  | fr :: l =>
      let? (c, st) := receive fr st in
      let? (cs, st) := receive_all l st in
      Ok (c :: cs, st)
  end.

Definition has_room (st : DecodeState) : Prop :=
  ReassemblyBuffer.pending_count (buffer_of f st) < MAX_PENDING_PACKETS.

(** There is room in every state that is reached. *)
Definition room_for (l : list Frame) (st : DecodeState) : Prop :=
  forall l1 fr l2 cs st1, l = l1 ++ fr :: l2 -> receive_all l1 st = Ok (cs, st1) -> has_room st1.

Definition mine (l : list Frame) (cs : list Collected) : list Collected :=
  omap (fun '(fr, c) => match fr with Mine _ _ => Some c | _ => None end) (zip l cs).
Definition my_indices (l : list Frame) : list nat :=
  omap (fun fr => match fr with Mine _ i => Some i | _ => None end) l.

Definition collected (o : option bytes) : Collected := match o with Some b => Complete b | None => Buffered end.

(** The fragments and the sweeps fall into one interval no longer than the timeout;
    the other frames come from elsewhere. *)
Definition in_time (n : nat) (t0 : Z) (st : DecodeState) (fr : Frame) : Prop :=
  match fr with
  | Mine now i => (i < n)%nat /\ t0 <= now
  | Other _ ep' raw => ep' <> ep /\ wf_bytes raw
  | Sweep now => t0 <= now < t0 + timeout (buffer_of f st)
  end.

(** A group that is there was started in that interval. *)
Definition started (t0 timeout0 : Z) (st : DecodeState) : Prop :=
  timeout (buffer_of f st) = timeout0 /\ forall p, pending (buffer_of f st) !! (ep, base) = Some p -> t0 <= created p.

(** What the receiver reads of fragment [i]. *)
Context (Hfs : 1 <= zlen fs <= MAX_FRAGMENTS)
  (Hread : forall i, (i < length fs)%nat -> exists h,
     extract_fragment (wires !!! i) = Some h /\ fh_sequence h = base + Z.of_nat i /\
     fh_frag_index h = Z.of_nat i /\ fh_frag_count h = zlen fs /\ slice (wires !!! i) (frag_start h) (frag_end h) = fs !!! i)
  (Hbase : 0 <= base).

Lemma get_range_some l a b : 0 <= a <= b -> b <= zlen l -> get_range l a b = Some (slice l a b).
Proof.
  intros. unfold get_range. destruct (Z.leb_spec a b); [|lia]. by destruct (Z.leb_spec b (zlen l)); [|lia].
Qed.

Lemma collect_into_step now ep' seq idx cnt frag st o rb' :
  ReassemblyBuffer.process iter now ep' seq idx cnt frag (buffer_of f st) = Some (o, rb') ->
  wf_buffer rb' -> (forall g, wf_buffer (buffer_of g st)) ->
  exists st', collect_into iter now f ep' seq idx cnt frag st = Ok (o, st') /\ buffer_of f st' = rb' /\
    (forall g, wf_buffer (buffer_of g st')).
Proof.
  intros Hp Hw Hall. unfold collect_into. fold (buffer_of f st). rewrite Hp. cbn [or_panic ok_or].
  eexists. split; [done|]. unfold buffer_of. cbn [reassembly]. rewrite lookup_insert_eq. split; [done|].
  intros g. destruct (decide (f = g)) as [<-|]; [by rewrite lookup_insert_eq|]. rewrite lookup_insert_ne by done.
  apply Hall.
Qed.

(** A sweep purges the buffer of every face. *)
Lemma sweep_buffer now g st : 
  buffer_of g (purge_expired_reassembly now st).2 = ReassemblyBuffer.purge_expired now (buffer_of g st).
Proof.
  unfold buffer_of. cbn [snd purge_expired_reassembly reassembly]. rewrite lookup_fmap. by destruct (reassembly st !! g).
Qed.
Lemma receive_sweep S t0 t1 now st :
  (forall g, wf_buffer (buffer_of g st)) -> t0 <= now < t0 + t1 -> started t0 t1 st ->
  holding fs S (pending (buffer_of f st) !! (ep, base)) ->
  exists st', receive (Sweep now) st = Ok (Buffered, st') /\
    (forall g, wf_buffer (buffer_of g st')) /\ started t0 t1 st' /\ holding fs S (pending (buffer_of f st') !! (ep, base)).
Proof.
  intros Hw Hnow [Ht Hc] Hh. eexists. split; [reflexivity|]. split; [intros g; rewrite sweep_buffer; by apply purge_wf|].
  assert (pending (buffer_of f (purge_expired_reassembly now st).2) !! (ep, base) = pending (buffer_of f st) !! (ep, base)) as E.
  { rewrite sweep_buffer, purge_pending. destruct (pending (buffer_of f st) !! (ep, base)) as [p|] eqn:E;
      [|apply map_lookup_filter_None_2; by left]. apply map_lookup_filter_Some_2; [done|]. unfold ReassemblyBuffer.live, sat_sub. cbn [snd]. rewrite Ht.
    specialize (Hc p eq_refl). apply Z.ltb_lt. lia. }
  rewrite E. split; [|done]. split; [|by rewrite E]. rewrite sweep_buffer, <- Ht. unfold ReassemblyBuffer.purge_expired.
  by destruct (rb_stats _).
Qed.

Lemma receive_mine S t0 t1 now i st :
  (forall g, wf_buffer (buffer_of g st)) -> has_room st -> (i < length fs)%nat -> t0 <= now -> started t0 t1 st ->
  holding fs S (pending (buffer_of f st) !! (ep, base)) ->
  exists st', receive (Mine now i) st = Ok (collected (collect fs S i).1, st') /\
    (forall g, wf_buffer (buffer_of g st')) /\ started t0 t1 st' /\
    holding fs (collect fs S i).2 (pending (buffer_of f st') !! (ep, base)).
Proof.
  intros Hw Hroom Hi Hnow [Ht Hcr] Hh. destruct (Hread i Hi) as (h & Hx & Hs & Hix & Hc & Hsl).
  cbn [receive]. unfold try_collect_fragment. rewrite Hx.
  destruct (extract_fragment_bounds _ _ Hx) as [Hb1 Hb2]. rewrite get_range_some by lia. cbn [or_panic ok_or].
  rewrite Hs, Hix, Hc, Hsl. unfold checked_sub. destruct (Z.leb_spec (Z.of_nat i) (base + Z.of_nat i)); [|lia].
  replace (base + Z.of_nat i - Z.of_nat i) with base by lia.
  assert (fs !! Z.to_nat (Z.of_nat i) = Some (fs !!! i)) as Hf.
  { rewrite Nat2Z.id. by apply list_lookup_lookup_total_lt. }
  destruct (process_own iter fs Hfs S now ep base (Z.of_nat i) (fs !!! i) (buffer_of f st) (Hw f) Hroom Hh ltac:(lia) Hf)
    as (rb' & Hp & Hh').
  destruct (process_total iter now ep base (Z.of_nat i) (zlen fs) (fs !!! i) (buffer_of f st) (Hw f) ltac:(lia) ltac:(lia))
    as (o & rb'' & Hp' & Hw' & _). rewrite Hp in Hp'. injection Hp' as <- <-.
  destruct (process_created iter now ep base _ _ _ (buffer_of f st) _ _ (Hw f) Hp) as [Ht' Hcr'].
  destruct (collect_into_step _ _ _ _ _ _ _ _ _ Hp Hw' Hw) as (st' & -> & Hb & Hall).
  rewrite Nat2Z.id in *. exists st'. split; [by destruct (collect fs S i).1|]. split; [done|]. unfold started. rewrite Hb.
  split; [|done]. split; [by rewrite Ht'|]. intros p Hpp. destruct (Hcr' p Hpp) as [->|(p0 & Hp0 & ->)]; [done|by apply Hcr].
Qed.

Lemma receive_other S t0 t1 now ep' raw st :
  (forall g, wf_buffer (buffer_of g st)) -> has_room st -> ep' <> ep -> wf_bytes raw -> started t0 t1 st ->
  holding fs S (pending (buffer_of f st) !! (ep, base)) ->
  exists c st', receive (Other now ep' raw) st = Ok (c, st') /\
    (forall g, wf_buffer (buffer_of g st')) /\ started t0 t1 st' /\ holding fs S (pending (buffer_of f st') !! (ep, base)).
Proof.
  intros Hw Hroom Hep Hwf Hsta Hh. cbn [receive]. unfold try_collect_fragment.
  destruct (extract_fragment raw) as [h|] eqn:Hx; [|by eexists _, st].
  destruct (extract_fragment_bounds _ _ Hx) as [Hb1 Hb2]. rewrite get_range_some by lia. cbn [or_panic ok_or].
  destruct (checked_sub _ _) as [b|]; [|by eexists _, st].
  destruct (extract_fragment_numbers _ _ Hwf Hx) as (_ & Hi & Hc). unfold_bounds.
  destruct (process_total iter now ep' b (fh_frag_index h) (fh_frag_count h) (slice raw (frag_start h) (frag_end h))
    (buffer_of f st) (Hw f)) as (o & rb' & Hp & Hw' & Hframe); [lia..|].
  destruct (process_created iter now ep' b _ _ _ (buffer_of f st) _ _ (Hw f) Hp) as [Ht' _].
  destruct (collect_into_step _ _ _ _ _ _ _ _ _ Hp Hw' Hw) as (st' & -> & Hb & Hall).
  destruct Hsta as [Ht Hcr]. eexists _, st'. split; [done|]. split; [done|]. unfold started. rewrite Hb, Hframe; [|by right|congruence].
  split; [|done]. by rewrite Ht'.
Qed.

Lemma room_for_cons fr l st c st1 : room_for (fr :: l) st -> receive fr st = Ok (c, st1) -> room_for l st1.
Proof.
  intros Hr Hrc l1 fr' l2 cs st2 -> Hl1. apply (Hr (fr :: l1) fr' l2 (c :: cs) st2); [done|].
  cbn [receive_all]. by rewrite Hrc, Hl1.
Qed.

Lemma room_for_nil st : room_for [] st.
Proof. intros [|? ?]; discriminate. Qed.
Lemma room_for_step fr l st c st1 : has_room st -> receive fr st = Ok (c, st1) -> room_for l st1 -> room_for (fr :: l) st.
Proof.
  intros Hh Hrc Hr [|fr' l1] fr0 l2 cs st2 E Hl; [by injection Hl as _ <-|].
  injection E as <- ->. cbn [receive_all] in Hl. rewrite Hrc in Hl.
  destruct (receive_all l1 st1) as [[cs' st3]|] eqn:El; [|discriminate Hl]. injection Hl as _ <-. by eapply Hr.
Qed.

Lemma receive_all_refines l : forall S t0 t1 st,
  (forall g, wf_buffer (buffer_of g st)) -> room_for l st -> Forall (in_time (length fs) t0 st) l -> started t0 t1 st ->
  holding fs S (pending (buffer_of f st) !! (ep, base)) ->
  exists cs st', receive_all l st = Ok (cs, st') /\ mine l cs = map collected (collect_run fs S (my_indices l)).
Proof.
  induction l as [|fr l IH]; intros S t0 t1 st Hw Hr Hl Hsta Hh; [by exists [], st|].
  assert (has_room st) as Hroom by by apply (Hr [] fr l [] st).
  apply Forall_cons in Hl as [Hfr Hl].
  assert (exists c S' st1, receive fr st = Ok (c, st1) /\ (forall g, wf_buffer (buffer_of g st1)) /\ started t0 t1 st1 /\
    holding fs S' (pending (buffer_of f st1) !! (ep, base)) /\
    forall cs, mine l cs = map collected (collect_run fs S' (my_indices l)) ->
      mine (fr :: l) (c :: cs) = map collected (collect_run fs S (my_indices (fr :: l)))) as (c & S' & st1 & Hrc & Hw1 & Hs1 & Hh1 & Hgo).
  { destruct fr as [now i|now ep' raw|now]; cbn [in_time] in Hfr.
    - destruct (receive_mine S t0 t1 now i st) as (st1 & Hrc & ?); [tauto..|]. eexists _, _, st1. split_conj; try apply H0; [exact Hrc|].
      intros cs Hcs. unfold mine, my_indices in *. cbn. by rewrite Hcs.
    - destruct (receive_other S t0 t1 now ep' raw st) as (c & st1 & Hrc & ?); [tauto..|]. exists c, S, st1. split_conj; try apply H0; done.
    - destruct (receive_sweep S t0 t1 now st) as (st1 & Hrc & ?); [done| |done|done|].
      { destruct Hsta as [<- _]. done. }
      exists Buffered, S, st1. split_conj; try apply H0; done. }
  cbn [receive_all]. rewrite Hrc.
  assert (Forall (in_time (length fs) t0 st1) l) as Hl1.
  { eapply Forall_impl; [exact Hl|]. destruct Hsta as [Ht _], Hs1 as [Ht1 _]. intros [| |]; cbn [in_time]; by rewrite ?Ht, ?Ht1. }
  destruct (IH S' t0 t1 st1 Hw1 (room_for_cons _ _ _ _ _ Hr Hrc) Hl1 Hs1 Hh1) as (cs & st' & -> & Hcs).
  eexists _, st'. split; [done|]. by apply Hgo.
Qed.
End delivery.

(** ** Nonce insertion *)

Lemma shape_value_sizes raw n es rest :
  wf_bytes raw -> zlen raw <= usize_max -> interest_shape raw n es rest ->
  Forall wf_elem (with_name n es) /\ zlen (elems_wire (with_name n es)) + 2 <= usize_max /\
  exists r, first_tlv raw = Ok (packet_type.INTEREST, elems_wire (with_name n es), r).
Proof.
  intros Hwf Hl Hs. destruct (shape_sizes raw n es rest Hwf Hl Hs) as [_ Hw].
  pose proof (shape_raw _ _ _ _ Hs) as Hraw. rewrite Hraw in Hl, Hwf |- *. split; [done|].
  split; [by apply zlen_body_le in Hl|].
  destruct (first_tlv_ok packet_type.INTEREST _ rest ltac:(solve_closed) Hwf Hl) as (r & Hf & _).
  by exists r.
Qed.

(** Copying, once the nonce is in. *)
Lemma copy_rest pid es : forall fuel r w c,
  TlvReader.wf r -> TlvReader.as_bytes r = elems_wire es -> Forall wf_elem es -> (length es < fuel)%nat ->
  zlen (elems_wire es) <= usize_max ->
  exists w', copy_with_nonce fuel pid r (w, true, c) = (w', true, c) /\
    TlvWriter.buf w' = TlvWriter.buf w ++ elems_wire es.
Proof.
  induction es as [|[t v] es IH]; intros [|fuel] r w c Hr Heq Hes Hf Hl; simpl in Hf; try lia; cbn [copy_with_nonce].
  - rewrite (proj2 (is_empty_spec r Hr) Heq). exists w. by rewrite app_nil_r.
  - apply Forall_cons in Hes as [Hwf Hes]. destruct (elems_cons_sizes _ _ _ Hwf Hl) as (Ht & Hv & Hl').
    rewrite elems_wire_cons in Heq. destruct (TlvReader.is_empty r) eqn:He.
    { apply is_empty_spec in He; [|done]. rewrite He in Heq. symmetry in Heq.
      by destruct (tlv_bytes_nonempty t v (elems_wire es)). }
    destruct (read_tlv_ok r t v (elems_wire es) Hr (proj1 Hwf) Heq) as (r' & -> & Heq' & Hr'). cbn [negb andb].
    destruct (IH fuel r' (TlvWriter.write_tlv w t v) c Hr' Heq' Hes ltac:(lia) Hl') as (w' & -> & Hb).
    exists w'. split; [done|]. by rewrite Hb, buf_write_tlv, elems_wire_cons, app_assoc by done.
Qed.

Definition fresh_nonce (pid counter : Z) : elem := (packet_type.NONCE, be_encode 4 (next_nonce pid counter).1).

Lemma zlen_nonce pid c : zlen (tlv_bytes (fresh_nonce pid c).1 (fresh_nonce pid c).2) = 6.
Proof. rewrite zlen_tlv_bytes. cbn [fst snd fresh_nonce]. by rewrite zlen_be_encode. Qed.

Lemma ensure_nonce_shape pid c raw n es rest :
  wf_bytes raw -> zlen raw + 100 <= usize_max -> interest_shape raw n es rest ->
  ensure_nonce pid c raw =
    match find_elem packet_type.NONCE es with
    | Some _ => (raw, c)
    | None => (tlv_bytes packet_type.INTEREST (elems_wire (with_name n (fresh_nonce pid c :: es))), wrap 32 (c + 1))
    end.
Proof.
  intros Hwf Hl Hs. destruct (shape_value_sizes raw n es rest Hwf ltac:(lia) Hs) as (Hes & Hvl & r & Hf).
  unfold ensure_nonce. rewrite Hf. change (packet_type.INTEREST =? packet_type.INTEREST) with true. cbn [negb].
  rewrite (search_elems _ packet_type.NONCE (fun _ => Ok (Some tt))); [|by intros t v; destruct (t =? _)|done|lia].
  rewrite find_elem_with_name by done. destruct (find_elem packet_type.NONCE es) as [v|]; [done|].
  set (value := elems_wire (with_name n es)) in *.
  assert (TlvReader.wf (TlvReader.new value)) as Hr by (apply new_wf; [by apply wf_elems_wire|lia]).
  assert (S (length es) <= length value)%nat as Hlen by exact (length_elems_wire (with_name n es)).
  apply Forall_cons in Hes as [Hname Hes].
  destruct (elems_cons_sizes tlv_type.NAME (name_wire n) es Hname ltac:(fold (with_name n es); fold value; lia))
    as (Ht & Hnv & Hl').
  cbn [copy_with_nonce]. destruct (TlvReader.is_empty (TlvReader.new value)) eqn:He.
  { apply is_empty_spec in He; [|done]. rewrite as_bytes_new in He. unfold value, with_name in He.
    rewrite elems_wire_cons in He. by apply tlv_bytes_nonempty in He. }
  destruct (read_tlv_ok (TlvReader.new value) tlv_type.NAME (name_wire n) (elems_wire es) Hr (proj1 Hname) eq_refl)
    as (r' & -> & Heq' & Hr').
  change (tlv_type.NAME =? tlv_type.NAME) with true. cbn [negb andb]. unfold next_nonce at 1.
  destruct (copy_rest pid es (length value) r' (TlvWriter.write_tlv (TlvWriter.write_tlv TlvWriter.new tlv_type.NAME (name_wire n))
    packet_type.NONCE (be_encode 4 (wrap 32 (wrap 32 (Z.shiftl pid 16) + c)))) (wrap 32 (c + 1)) Hr' Heq' Hes ltac:(lia) Hl')
    as (w' & -> & Hb). cbn [negb]. f_equal.
  assert (TlvWriter.buf w' = elems_wire (with_name n (fresh_nonce pid c :: es))) as Hbuf.
  { rewrite Hb, !buf_write_tlv by (done || by rewrite zlen_be_encode). unfold with_name.
    by rewrite !elems_wire_cons, <- !app_assoc. }
  unfold TlvWriter.finish. rewrite buf_write_nested; [by rewrite Hbuf|done|].
  rewrite Hbuf. unfold with_name. rewrite !elems_wire_cons, !zlen_app, zlen_nonce. cbn [fst snd].
  unfold value, with_name in Hvl. rewrite elems_wire_cons, zlen_app in Hvl. cbn [fst snd] in Hvl.
  rewrite (shape_raw _ _ _ _ Hs), zlen_app, zlen_tlv_bytes, zlen_app in Hl.
  pose proof (zlen_nonneg rest). pose proof (varu64_size_range packet_type.INTEREST). unfold tlv_size in Hl.
  pose proof (varu64_size_range (zlen (tlv_bytes tlv_type.NAME (name_wire n)) + zlen (elems_wire es))).
  unfold_bounds. lia.
Qed.

(** The elements the packet format puts before the Nonce. *)
Definition before_nonce (es : list elem) : bool :=
  has_elem packet_type.CAN_BE_PREFIX es || has_elem packet_type.MUST_BE_FRESH es
  || has_elem packet_type.FORWARDING_HINT es.

Lemma has_elem_spec T es : has_elem T es = true <-> T ∈ elem_types es.
Proof.
  unfold has_elem. rewrite existsb_exists. split.
  - intros ([t v] & Hin & <-%Z.eqb_eq). apply list_elem_of_fmap_2. by apply list_elem_of_In.
  - intros (e & -> & Hin)%list_elem_of_fmap. exists e. split; [by apply list_elem_of_In|by apply Z.eqb_eq].
Qed.

Lemma elem_index_low t i :
  Interest.elem_index t = Some i ->
  (i < 5 <-> t = packet_type.CAN_BE_PREFIX \/ t = packet_type.MUST_BE_FRESH \/ t = packet_type.FORWARDING_HINT) /\
  (i = 5 <-> t = packet_type.NONCE) /\ 1 < i.
Proof. unfold Interest.elem_index. intros H. repeat bcase_step; simplify_eq; vm_compute; intuition congruence. Qed.

Lemma known_above es :
  find_elem packet_type.NONCE es = None ->
  before_nonce es = false <-> Forall (Z.lt 5) (known_indices es).
Proof.
  intros Hn. apply find_elem_None in Hn. rewrite Forall_forall in Hn. unfold before_nonce.
  rewrite !orb_false_iff, <- !not_true_iff_false, !has_elem_spec, Forall_forall. split.
  - intros [[H1 H2] H3] i ([t v] & Hin & Hi)%list_elem_of_omap. cbn [fst] in Hi.
    destruct (elem_index_low t i Hi) as (Hlow & H5 & _).
    assert (t ∈ elem_types es) as Ht by (by apply (list_elem_of_fmap_2 fst es (t, v))).
    assert (t <> packet_type.NONCE) by by apply Hn.
    destruct (Z.lt_trichotomy i 5) as [Hlt|[Heq|Hgt]]; [|by apply H5 in Heq|done].
    apply Hlow in Hlt as [->|[->| ->]]; done.
  - intros H. assert (forall T j, Interest.elem_index T = Some j -> j < 5 -> T ∉ elem_types es) as Hno.
    { intros T j Hj Hlt (e & -> & Hin)%list_elem_of_fmap. specialize (H j).
      assert (5 < j) by (apply H, list_elem_of_omap; by exists e). lia. }
    split; [split|]; (eapply Hno; [reflexivity|lia]).
Qed.

Lemma interest_decode_body n es i :
  Forall wf_elem (with_name n es) -> zlen (tlv_bytes packet_type.INTEREST (elems_wire (with_name n es))) <= usize_max ->
  Interest.decode (tlv_bytes packet_type.INTEREST (elems_wire (with_name n es))) = Ok i -> interest_body_ok 1 es.
Proof.
  intros Hes Hl Hd. set (value := elems_wire (with_name n es)) in *.
  assert (wf_bytes (tlv_bytes packet_type.INTEREST value)) as Hwf by (apply wf_tlv_bytes; [done|by apply wf_elems_wire]).
  rewrite <- (app_nil_r (tlv_bytes packet_type.INTEREST value)) in Hl, Hwf, Hd.
  unfold Interest.decode in Hd.
  destruct (first_tlv_ok packet_type.INTEREST value [] ltac:(solve_closed) Hwf Hl) as (r & Hf & _).
  rewrite Hf in Hd. change (packet_type.INTEREST =? packet_type.INTEREST) with true in Hd. cbn [negb] in Hd.
  pose proof (zlen_body_le _ _ _ Hl) as Hvl. pose proof (wf_elems_wire _ Hes) as Hvw. fold value in Hvw.
  destruct (first_tlv_ok tlv_type.NAME (name_wire n) (elems_wire es)) as (r' & Hf' & Hr');
    [solve_closed|exact Hvw|change (zlen value <= usize_max); lia|].
  change (first_tlv value) with (first_tlv (tlv_bytes tlv_type.NAME (name_wire n) ++ elems_wire es)) in Hd.
  rewrite Hf' in Hd. change (tlv_type.NAME =? tlv_type.NAME) with true in Hd. cbn [negb] in Hd.
  destruct (decode_name (name_wire n)); [|done]. destruct (NameOps.is_empty _); [done|]. rewrite Hr' in Hd.
  destruct (Interest.validate_interest_body_structure (elems_wire es)) as [h|] eqn:Hv; [|done].
  apply Forall_cons in Hes as [_ Hes].
  apply validate_interest_body_iff in Hv as [Hok _]; [done|done|].
  unfold value, with_name in Hvl. rewrite elems_wire_cons, zlen_app in Hvl.
  pose proof (zlen_nonneg (tlv_bytes (tlv_type.NAME, name_wire n).1 (tlv_type.NAME, name_wire n).2)). lia.
Qed.

Lemma interest_body_nonce e es :
  e.1 = packet_type.NONCE -> zlen e.2 = 4 -> interest_body_ok 1 es -> find_elem packet_type.NONCE es = None ->
  interest_body_ok 1 (e :: es) <-> before_nonce es = false.
Proof.
  intros He Hl Hok Hn. rewrite interest_body_ok_cons, He. change (Interest.elem_index packet_type.NONCE) with (Some 5).
  cbn iota. rewrite (known_above es Hn). destruct Hok as [Hs Hf]. inversion_clear Hs as [|?? Hs' Hhd].
  split.
  - intros (_ & _ & Hs5 & _). apply Sorted_StronglySorted in Hs5; [|intros ???; lia].
    by apply StronglySorted_inv in Hs5 as [_ ?].
  - intros Hall. split_conj; [|lia|].
    + split; [|split]; rewrite He; [done|done|done].
    + split; [|done]. constructor; [done|]. destruct (known_indices es); constructor. by apply Forall_inv in Hall.
Qed.

(** ** The hop limit *)

(** The elements once the first readable hop limit is one lower. *)
Fixpoint lower_hop (es : list elem) : list elem :=
  match es with
  | [] => []
  | (t, v) :: es =>
      if (t =? packet_type.HOP_LIMIT) && (zlen v =? 1) then (t, [sat_sub (hd 0 v) 1]) :: es
      else (t, v) :: lower_hop es
  end.

Definition interest_wire (n : Name) (es : list elem) : bytes :=
  tlv_bytes packet_type.INTEREST (elems_wire (with_name n es)).

Lemma lower_hop_split es :
  match hop_offset es with
  | Some off => exists es1 h es2,
      es = es1 ++ (packet_type.HOP_LIMIT, [h]) :: es2 /\ off = zlen (elems_wire es1) + 2 /\
      lower_hop es = es1 ++ (packet_type.HOP_LIMIT, [sat_sub h 1]) :: es2
  | None => lower_hop es = es
  end.
Proof.
  induction es as [|[t v] es IH]; [done|]. cbn [hop_offset lower_hop].
  destruct ((t =? packet_type.HOP_LIMIT) && (zlen v =? 1)) eqn:E.
  - apply andb_true_iff in E as [->%Z.eqb_eq Hv%Z.eqb_eq].
    destruct v as [|h [|x v]]; [done| |zlen_norm; pose proof (zlen_nonneg v); lia]. by exists [], h, es.
  - destruct (hop_offset es) as [off|]; cbn [fmap option_fmap option_map]; [|by rewrite IH].
    destruct IH as (es1 & h & es2 & -> & -> & ->). exists ((t, v) :: es1), h, es2. split_conj; [done| |done].
    rewrite elems_wire_cons, zlen_app. cbn [fst snd]. lia.
Qed.

Lemma lower_hop_body_ok k es : interest_body_ok k (lower_hop es) <-> interest_body_ok k es.
Proof.
  pose proof (lower_hop_split es) as H. destruct (hop_offset es) as [off|]; [|by rewrite H].
  destruct H as (es1 & h & es2 & -> & _ & ->). unfold interest_body_ok.
  assert (forall x, interest_elem_ok (packet_type.HOP_LIMIT, [x])) as Hok by by repeat split.
  rewrite !omap_app, !Forall_app, !Forall_cons. cbn [omap list_omap fst snd].
  split; intros (Hs & H1 & _ & H2); by split_conj.
Qed.

Lemma lower_hop_has T es : has_elem T (lower_hop es) = has_elem T es.
Proof.
  pose proof (lower_hop_split es) as H. destruct (hop_offset es) as [off|]; [|by rewrite H].
  destruct H as (es1 & h & es2 & -> & _ & ->). unfold has_elem. by rewrite !existsb_app.
Qed.

Lemma lower_hop_wf es : Forall wf_elem es -> Forall wf_elem (lower_hop es).
Proof.
  intros Hes. pose proof (lower_hop_split es) as H. destruct (hop_offset es) as [off|]; [|by rewrite H].
  destruct H as (es1 & h & es2 & -> & _ & ->). apply Forall_app in Hes as [H1 [[Ht Hh] H2]%Forall_cons].
  apply Forall_inv in Hh. apply Forall_app; split; [done|]. constructor; [|done]. split; [done|].
  apply Forall_singleton. unfold sat_sub. unfold_bounds. lia.
Qed.

Lemma lower_hop_size es : zlen (elems_wire (lower_hop es)) = zlen (elems_wire es).
Proof.
  pose proof (lower_hop_split es) as H. destruct (hop_offset es) as [off|]; [|by rewrite H].
  destruct H as (es1 & h & es2 & -> & _ & ->). by apply decrement_hop_value.
Qed.

(** Decrementing, on any sequence of elements. *)
Lemma decrement_wire n es :
  Forall wf_elem (with_name n es) -> zlen (interest_wire n es) <= usize_max ->
  exists o, Interest.decrement_hop_limit (interest_wire n es) = Ok o /\
    match o with Some (w, _) => w | None => interest_wire n es end = interest_wire n (lower_hop es).
Proof.
  intros Hes Hl. unfold interest_wire in *. rewrite decrement_hop_limit_elems by done. eexists. split; [done|].
  pose proof (lower_hop_split (with_name n es)) as H.
  change (with_name n (lower_hop es)) with (lower_hop (with_name n es)).
  destruct (hop_offset (with_name n es)) as [off|]; cbn [fmap option_fmap option_map]; [|by rewrite H].
  destruct H as (es1 & h & es2 & Heq & -> & ->). rewrite Heq.
  pose proof (decrement_hop_value es1 h es2) as [_ Hat]. cbv zeta in Hat. by rewrite Hat.
Qed.

Lemma no_hop_lower raw n es rest :
  wf_bytes raw -> zlen raw <= usize_max -> interest_shape raw n es rest ->
  Interest.hop_limit (mkInterest raw n) = None -> lower_hop es = es.
Proof.
  intros Hwf Hl Hs Hh. pose proof (lower_hop_split es) as H. destruct (hop_offset es) as [off|]; [|done].
  destruct H as (es1 & h & es2 & -> & _ & _). rewrite (accessor_hop_limit _ _ _ _ Hwf Hl Hs) in Hh.
  destruct (known_unique 1 es1 (packet_type.HOP_LIMIT, [h]) es2 7 (shape_order _ _ _ _ Hs) eq_refl) as [Hfind _].
  cbn [fst snd] in Hfind. by rewrite Hfind in Hh.
Qed.

(** The context of an Interest once it is decoded again. *)
Definition rewritten (ctx : PacketContext) (n : Name) (es : list elem) `{Hasher} : PacketContext :=
  let w := interest_wire n es in
  set_packet (set_raw ctx w) n (TlvDecodeStage.hashes_of ctx n) (PktInterest (mkInterest w n)).

(** Decoding the rewritten wire. *)
Lemma decode_rewritten n es :
  wf_name n -> n <> [] -> Forall wf_elem es -> zlen (interest_wire n es) <= usize_max ->
  Interest.psdc_count n <= 1 -> (has_elem packet_type.APP_PARAMETERS es = true -> Interest.psdc_count n = 1) ->
  (interest_body_ok 1 es -> Interest.decode (interest_wire n es) = Ok (mkInterest (interest_wire n es) n)) /\
  (~ interest_body_ok 1 es -> exists e, Interest.decode (interest_wire n es) = Err e).
Proof.
  intros Hn Hne Hes Hl Hp1 Hp2.
  assert (Forall wf_elem (with_name n es)) as Hwn.
  { constructor; [|done]. split; [solve_closed|by apply wf_name_wire]. }
  assert (wf_bytes (interest_wire n es)) as Hwf by (apply wf_tlv_bytes; [done|by apply wf_elems_wire]).
  split; intros Hok.
  - apply interest_decode_shape; [done|done|]. exists es, []. split; [by rewrite app_nil_r|done..].
  - destruct (Interest.decode (interest_wire n es)) as [i|e] eqn:Hd; [|by exists e].
    by destruct Hok; apply (interest_decode_body n es i).
Qed.

Lemma fresh_nonce_wf pid c : wf_elem (fresh_nonce pid c).
Proof. split; [solve_closed|]. apply wf_be_encode. Qed.

Lemma interest_wire_nonce n es pid c :
  zlen (interest_wire n es) + 100 <= usize_max -> zlen (interest_wire n (fresh_nonce pid c :: es)) <= usize_max.
Proof.
  unfold interest_wire, with_name. rewrite !elems_wire_cons, !zlen_tlv_bytes, !zlen_app, zlen_nonce.
  unfold tlv_size. cbn [fst snd]. intros Hl.
  pose proof (varu64_size_range (zlen (tlv_bytes tlv_type.NAME (name_wire n)) + zlen (elems_wire es))).
  pose proof (varu64_size_range (zlen (tlv_bytes tlv_type.NAME (name_wire n)) + (6 + zlen (elems_wire es)))).
  pose proof (varu64_size_range packet_type.INTEREST). lia.
Qed.

Lemma interest_wire_lower n es : zlen (interest_wire n (lower_hop es)) = zlen (interest_wire n es).
Proof.
  unfold interest_wire. change (with_name n (lower_hop es)) with (lower_hop (with_name n es)).
  by rewrite !zlen_tlv_bytes, lower_hop_size.
Qed.

(** The rest of [decode_interest] after the nonce, on elements [es0] which are
    those of the Interest or those with a nonce before them. *)
Lemma decode_interest_tail `{Hasher} env ctx tags (st : DecodeState) n es0 (hop : option Z) :
  wf_name n -> n <> [] -> Forall wf_elem es0 -> zlen (interest_wire n es0) <= usize_max ->
  Interest.psdc_count n <= 1 -> (has_elem packet_type.APP_PARAMETERS es0 = true -> Interest.psdc_count n = 1) ->
  (hop = None -> lower_hop es0 = es0) ->
  let r : outcome (DecodeAction * DecodeState) := (let? raw := (match hop with
            | None => Ok (interest_wire n es0)
            | Some _ => match Interest.decrement_hop_limit (interest_wire n es0) with
                        | Err _ => Err Panic
                        | Ok (Some (new_wire, _)) => Ok new_wire
                        | Ok None => Ok (interest_wire n es0)
                        end
            end) in
     match Interest.decode raw with
     | Err _ => Ok (DDrop DropMalformedPacket, st)
     | Ok interest =>
         let ctx := set_raw ctx raw in
         Ok (TlvDecodeStage.finish env
               (set_packet ctx (i_name interest) (TlvDecodeStage.hashes_of ctx (i_name interest)) (PktInterest interest)) tags, st)
     end) in
  (interest_body_ok 1 es0 -> r = Ok (TlvDecodeStage.finish env (rewritten ctx n (lower_hop es0)) tags, st)) /\
  (~ interest_body_ok 1 es0 -> r = Ok (DDrop DropMalformedPacket, st)).
Proof.
  intros Hn Hne Hes Hl Hp1 Hp2 Hh r.
  assert (Forall wf_elem (with_name n es0)) as Hwn.
  { constructor; [|done]. split; [solve_closed|by apply wf_name_wire]. }
  assert (r = match Interest.decode (interest_wire n (lower_hop es0)) with
     | Err _ => Ok (DDrop DropMalformedPacket, st)
     | Ok interest =>
         let ctx := set_raw ctx (interest_wire n (lower_hop es0)) in
         Ok (TlvDecodeStage.finish env
               (set_packet ctx (i_name interest) (TlvDecodeStage.hashes_of ctx (i_name interest)) (PktInterest interest)) tags, st)
     end) as ->.
  { unfold r. destruct hop as [h|]; [|by rewrite Hh].
    destruct (decrement_wire n es0 Hwn Hl) as (o & -> & Ho). destruct o as [[w h']|]; by rewrite Ho. }
  destruct (decode_rewritten n (lower_hop es0) Hn Hne (lower_hop_wf _ Hes)) as [H1 H2];
    [by rewrite interest_wire_lower|done|by rewrite lower_hop_has|]. rewrite lower_hop_body_ok in H1, H2.
  split; intros Hok; [by rewrite H1|]. by destruct (H2 Hok) as [e ->].
Qed.

(** Frames that read as the chunks of a packet deliver it. *)
Lemma readable_delivered (iter : group_map -> list ((Z * Z) * Reassembly.Pending)) (f ep base : Z) (fs wires : list bytes)
    (l : list Frame) (t0 : Z) (st : DecodeState) :
  MapIter iter -> length fs = length wires -> 1 < zlen wires <= MAX_FRAGMENTS ->
  (forall i, (i < length fs)%nat -> exists h,
     extract_fragment (wires !!! i) = Some h /\ fh_sequence h = base + Z.of_nat i /\ fh_frag_index h = Z.of_nat i /\
     fh_frag_count h = zlen fs /\ slice (wires !!! i) (frag_start h) (frag_end h) = fs !!! i) ->
  0 <= base -> wf_state st -> pending (buffer_of f st) !! (ep, base) = None -> room_for iter f ep wires l st ->
  Forall (in_time f ep (length wires) t0 st) l ->
  exists cs st', receive_all iter f ep wires l st = Ok (cs, st') /\
    (forall b, TlvDecodeStage.Complete b ∈ mine l cs -> b = concat fs) /\
    ((forall i, (i < length wires)%nat -> i ∈ my_indices l) -> TlvDecodeStage.Complete (concat fs) ∈ mine l cs) /\
    (my_indices l ≡ₚ seq 0 (length wires) ->
       mine l cs = replicate (length wires - 1) TlvDecodeStage.Buffered ++ [TlvDecodeStage.Complete (concat fs)]).
Proof.
  intros Hiter Hlfs Hn Hread Hb Hst Hk Hroom Hfr.
  destruct (receive_all_refines iter f ep base fs wires ltac:(unfold zlen in *; lia) Hread Hb l ∅ t0 (timeout (buffer_of f st)) st)
    as (cs & st' & Hr & Hm); [intros g; by apply buffer_of_wf|done|by rewrite Hlfs| |by rewrite Hk|].
  { split; [done|]. by rewrite Hk. }
  assert (1 <= length fs)%nat as Hn1 by (unfold zlen in *; lia).
  exists cs, st'. split; [done|]. rewrite Hm, <- Hlfs. split_conj.
  - intros b (o & Ho & Hin)%list_elem_of_fmap. destruct o as [x|]; [|done]. injection Ho as ->.
    by apply collect_run_safe in Hin.
  - intros Hall. apply list_elem_of_fmap. exists (Some (concat fs)). split; [done|].
    apply collect_run_live; [by apply all_in_empty|]. intros j Hj. right. by apply Hall.
  - intros Hp. rewrite collect_run_perm by done. rewrite map_app. f_equal.
    exact (fmap_replicate collected _ None).
Qed.

(** ** Properties *)

(** What becomes of an Interest that decodes and fills its buffer.  One
    whose hop limit is zero is dropped.  One that has a nonce continues with its
    hop limit, if any, one lower and every other element as it came.  One that
    has none gets a nonce of the process right after its name, and the counter
    moves on; but if it carries CanBePrefix, MustBeFresh or ForwardingHint, the
    nonce lands in front of them, the rewritten wire is out of order, and the
    Interest is dropped as malformed.  The stage never panics here. *)
Theorem decode_interest_spec `{Hasher} (env : Env) (ctx : PacketContext) (tags : Tags) (st : DecodeState) (i : Interest) :
  let raw := raw_bytes ctx in
  wf_bytes raw -> zlen raw + 100 <= usize_max -> Interest.decode raw = Ok i ->
  (exists value, raw = tlv_bytes packet_type.INTEREST value) ->
  let n := i_name i in
  let st' := mkDecodeState (reassembly st) (wrap 32 (nonce_counter st + 1)) (in_nacks st) in
  exists es, raw = interest_wire n es /\
    TlvDecodeStage.decode_interest env ctx tags st = Ok (
      if bool_decide (Interest.hop_limit i = Some 0) then (DDrop HopLimitExceeded, st)
      else match find_elem packet_type.NONCE es with
           | Some _ => (TlvDecodeStage.finish env (rewritten ctx n (lower_hop es)) tags, st)
           | None =>
               if before_nonce es then (DDrop DropMalformedPacket, st')
               else (TlvDecodeStage.finish env
                       (rewritten ctx n (lower_hop (fresh_nonce (process_id env) (nonce_counter st) :: es))) tags, st')
           end).
Proof.
  intros raw Hwf Hl Hdec [value Hval] n st'. assert (zlen raw <= usize_max) as Hl0 by lia.
  pose proof (decode_i_raw _ _ Hdec) as Hi. fold n in Hi. rewrite Hi in Hdec.
  pose proof Hdec as Hsh. apply interest_decode_shape in Hsh as (es & rest & Hs); [|done..].
  assert (rest = []) as -> by by eapply shape_exact.
  pose proof (shape_raw_elems _ _ _ Hs) as Hraw. fold (interest_wire n es) in Hraw. exists es. split; [done|].
  pose proof (ensure_nonce_shape (process_id env) (nonce_counter st) raw n es [] Hwf Hl Hs) as Hnonce.
  unfold TlvDecodeStage.decode_interest. fold raw. rewrite Hdec, Hi. case_bool_decide as H0; [done|]. rewrite Hnonce.
  pose proof (no_hop_lower raw n es [] Hwf Hl0 Hs) as Hhop. destruct Hs as [_ Hn Hne Hes Hok [Hp1 Hp2]].
  destruct (find_elem packet_type.NONCE es) as [v|] eqn:Hfind.
  - rewrite Hraw in Hl0. destruct (decode_interest_tail env ctx tags st n es (Interest.hop_limit (mkInterest raw n))) as [H1 _];
      [done..|]. specialize (H1 Hok). rewrite <- Hraw in H1. destruct st. exact H1.
  - set (e := fresh_nonce (process_id env) (nonce_counter st)).
    rewrite Hraw in Hl. pose proof (interest_wire_nonce n es (process_id env) (nonce_counter st) Hl) as Hln.
    fold (interest_wire n (e :: es)).
    destruct (decode_interest_tail env ctx tags st' n (e :: es) (Interest.hop_limit (mkInterest raw n))) as [H1 H2];
      [done|done|constructor; [apply fresh_nonce_wf|done]|done|done|exact Hp2|intros Hnone; by cbn; rewrite Hhop|].
    pose proof (interest_body_nonce e es eq_refl (zlen_be_encode _ _) Hok Hfind) as Hiff.
    destruct (before_nonce es); [apply H2; rewrite Hiff; done|apply H1; by rewrite Hiff].
Qed.

(** C26: a fragmented packet gets through.  Let a packet be cut into 2 to 400
    fragments by [fragment_packet], and let its fragments reach the stage on one
    face, from one endpoint that has no group with that Sequence pending, in any
    order, with repetitions, interleaved with any frames whatever from other
    endpoints of that face and with sweeps of the engine that discard expired
    groups.  Assume that whenever something happens fewer than 1024 groups are
    pending on the face, and that no sweep comes later than the reassembly timeout
    (5 s) after the first of the fragments.  Then every frame is handled without a
    panic; nothing but the packet itself ever comes out for this sender; once each
    of its fragments has arrived, the packet has come out; and if each arrives once,
    it comes out exactly once, with the last one to arrive. *)
Theorem fragments_delivered (iter : group_map -> list ((Z * Z) * Reassembly.Pending))
    (f ep mtu base : Z) (packet : bytes) (wires : list bytes) (l : list Frame) (t0 : Z) (st : DecodeState) :
  MapIter iter -> wf_bytes packet -> zlen packet + 100 <= usize_max -> 0 <= base ->
  fragment_packet packet mtu base = Ok wires -> base + zlen wires <= u64_max + 1 ->
  1 < zlen wires <= MAX_FRAGMENTS ->
  wf_state st -> pending (buffer_of f st) !! (ep, base) = None ->
  room_for iter f ep wires l st -> Forall (in_time f ep (length wires) t0 st) l ->
  exists cs st', receive_all iter f ep wires l st = Ok (cs, st') /\
    (forall b, TlvDecodeStage.Complete b ∈ mine l cs -> b = packet) /\
    ((forall i, (i < length wires)%nat -> i ∈ my_indices l) -> TlvDecodeStage.Complete packet ∈ mine l cs) /\
    (my_indices l ≡ₚ seq 0 (length wires) ->
       mine l cs = replicate (length wires - 1) TlvDecodeStage.Buffered ++ [TlvDecodeStage.Complete packet]).
Proof.
  intros Hiter Hwf Hl Hb Hfp Hbn Hn Hst Hk Hroom Hfr.
  destruct (fragments_readable packet mtu base wires Hwf Hl Hb Hfp Hbn ltac:(lia)) as (fs & Hlfs & <- & Hread).
  by apply (readable_delivered iter f ep base fs wires l t0 st).
Qed.

(** The ingress guards hold of everything that continues, however deeply
    the packet was wrapped in link-protocol frames and whether or not it was
    reassembled: its context carries the face it came in on and a name; no
    packet under [/localhost] continues from a non-local face; and no next-hop
    face is taken from a face that has not enabled the local fields. *)
Theorem decode_ingress_guards `{Hasher} (sha256 : bytes -> bytes) (iter : group_map -> list ((Z * Z) * Reassembly.Pending))
    (env : Env) (now : Z) (raw : bytes) (f arrival ep : Z) (st st' : DecodeState) (c : PacketContext) (t : Tags) :
  TlvDecodeStage.decode_inbound sha256 iter env now raw f arrival ep st = Ok (DContinue c t, st') ->
  face_id c = f /\
  (exists n, ctx_name c = Some n /\
     forall face, FaceTable.get f (face_table env) = Some face -> scope face = NonLocal -> is_localhost_name n = false) /\
  (TlvDecodeStage.ingress_local_fields env f = false -> tag_next_hop_face_id t = None).
Proof.
  unfold TlvDecodeStage.decode_inbound. destruct (TlvDecodeStage.try_collect_fragment _ _ _ _ _ _) as [[k st1]|]; [|done].
  assert (forall b, TlvDecodeStage.decode_resolved sha256 iter env now b f arrival ep st1 = Ok (DContinue c t, st') ->
    admitted env f no_tags c t) as Hres by (intros b Hb; by apply resolved_admitted in Hb as [? _]).
  destruct k as [b| |b]; [|done|]; intros [Hf Hn Hh]%Hres; by split_conj.
Qed.

(** C29: decoding terminates.  Whatever bytes come in, [process] and
    [process_lp] call each other at most as often as the frame and the buffered
    fragments have bytes; the reassembly tables stay well-formed.  The only way
    to fail is a panic. *)
Theorem decode_terminates `{Hasher} (sha256 : bytes -> bytes) (iter : group_map -> list ((Z * Z) * Reassembly.Pending))
    (env : Env) (now : Z) (raw : bytes) (f arrival ep : Z) (st : DecodeState) :
  MapIter iter -> wf_state st -> wf_bytes raw ->
  zlen raw + Z.of_nat (held (pending (buffer_of f st))) <= usize_max ->
  match TlvDecodeStage.decode_inbound sha256 iter env now raw f arrival ep st with
  | Ok (_, st') => wf_state st'
  | Err e => e = Panic
  end.
Proof.
  intros Hiter Hst Hwf Hl.
  assert (forall b st1, wf_state st1 -> wf_bytes b ->
    (length b + held (pending (buffer_of f st1)) <= length raw + held (pending (buffer_of f st)))%nat ->
    settles st1 (TlvDecodeStage.decode_resolved sha256 iter env now b f arrival ep st1)) as Hres.
  { intros b st1 Hst1 Hb Hle. unfold TlvDecodeStage.decode_resolved. eapply process_settles; [done| |reflexivity|].
    - unfold wf_input. split; [done|]. split; [done|]. unfold weight. cbn. unfold zlen in Hl. lia.
    - unfold TlvDecodeStage.decode_fuel, weight. fold (buffer_of f st1). cbn [raw_bytes face_id set_endpoint PacketContext.new]. lia. }
  unfold TlvDecodeStage.decode_inbound, TlvDecodeStage.try_collect_fragment.
  destruct (extract_fragment raw) as [h|] eqn:Hx; [|by apply Hres].
  destruct (extract_fragment_bounds _ _ Hx) as [Hb1 Hb2]. rewrite get_range_some by lia. cbn [or_panic ok_or].
  destruct (TlvDecodeStage.checked_sub _ _) as [b|]; [|done].
  destruct (extract_fragment_numbers _ _ Hwf Hx) as (_ & Hi & Hc). unfold_bounds.
  destruct (collect_into_ok iter now f ep b (fh_frag_index h) (fh_frag_count h) (slice raw (frag_start h) (frag_end h)) st Hst)
    as (o & st1 & -> & Hst1 & _ & Hle & Ho); [lia|lia|by apply wf_bytes_slice|].
  destruct o as [pkt|]; [|done]. change (default 0%nat (length <$> Some pkt)) with (length pkt) in Hle.
  apply Hres; [done|by apply Ho|]. etrans; [exact Hle|]. apply Nat.add_le_mono_r.
  pose proof (zlen_slice raw (frag_start h) (frag_end h) ltac:(lia) ltac:(lia)). unfold zlen in *. lia.
Qed.

(** An Interest for [/a] with a nonce and a hop limit of 5, followed by as many
    bytes again: an element header whose length is [2^64 - 1]. *)
Definition hostile_frame : bytes :=
  [5; 14; 7; 3; 8; 1; 97; 10; 4; 1; 2; 3; 4; 34; 1; 5; 5; 255; 255; 255; 255; 255; 255; 255; 255; 255; 0; 0; 0; 0].

(** Bytes after an Interest reach the hop-limit walk.  [decrement_hop_limit]
    takes the header to be everything before the last bytes of the value's size,
    so trailing bytes shift the walk into them, and its unchecked sum overflows
    on a length they give: from any state and any face, one such frame, whose
    Interest decodes, panics where overflow is checked. *)
Theorem decode_trailing_overflow `{Hasher} (sha256 : bytes -> bytes) (iter : group_map -> list ((Z * Z) * Reassembly.Pending))
    (env : Env) (now f arrival ep : Z) (st : DecodeState) :
  Interest.decode hostile_frame = Ok (mkInterest hostile_frame [mkComponent 8 [97]]) /\
  TlvDecodeStage.decode_inbound sha256 iter env now hostile_frame f arrival ep st = Err Panic.
Proof. split; vm_compute; reflexivity. Qed.

(** ** Witnesses *)

#[local] Instance plain_hasher : Hasher := {| component_hash := fun _ => 0; token_hash := fun k _ => k |}.
Definition plain_env : Env := mkEnv (mkFaceTable {[7 := from_transport 7 FaceKind.Multicast None None MultiAccess]} 8) ∅ {[7 := false]} 1.
Definition empty_state : DecodeState := mkDecodeState ∅ 0 ∅.

(** A packet of five bytes, of which a fragment carries two. *)
Definition small_packet : bytes := [1; 2; 3; 4; 5].
Definition small_wires : list bytes :=
  match fragment_packet small_packet 52 40 with Ok ws => ws | Err _ => [] end.
Definition small_frames : list Frame := [Mine 0 2; Other 1 9 [5; 0]; Sweep 1; Mine 2 0; Mine 3 1].

Lemma fragments_delivered_witness :
  exists cs st', receive_all (fun m => map_to_list m) 7 3 small_wires small_frames empty_state = Ok (cs, st') /\
    mine small_frames cs = [TlvDecodeStage.Buffered; TlvDecodeStage.Buffered; TlvDecodeStage.Complete small_packet].
Proof.
  destruct (fragments_delivered (fun m => map_to_list m) 7 3 52 40 small_packet small_wires small_frames 0 empty_state)
    as (cs & st' & H1 & _ & _ & H2).
  - exact map_to_list_iter.
  - repeat (apply Forall_cons_2; [split; vm_compute; congruence|]). apply Forall_nil_2.
  - vm_compute. discriminate.
  - lia.
  - vm_compute. reflexivity.
  - vm_compute. discriminate.
  - split; vm_compute; congruence.
  - apply map_Forall_empty.
  - vm_compute. reflexivity.
  - repeat (eapply room_for_step; [vm_compute; reflexivity..|]). apply room_for_nil.
  - repeat (apply Forall_cons_2; [first [split; vm_compute; [lia|discriminate] | split; [discriminate|]; by apply wf_bytes_check
      | split; vm_compute; [discriminate|reflexivity]]|]). apply Forall_nil_2.
  - exists cs, st'. split; [exact H1|]. rewrite H2; [vm_compute; reflexivity|].
    change ([2; 0; 1]%nat ≡ₚ [0; 1; 2]%nat). solve_Permutation.
Defined.

(** [/a], CanBePrefix and a hop limit of 3, without a nonce; and the same
    without CanBePrefix. *)
Definition prefix_interest : bytes := [5; 10; 7; 3; 8; 1; 97; 33; 0; 34; 1; 3].
Definition plain_interest : bytes := [5; 8; 7; 3; 8; 1; 97; 34; 1; 3].

Lemma decode_interest_spec_witness :
  exists es, prefix_interest = interest_wire [mkComponent 8 [97]] es /\
    TlvDecodeStage.decode_interest plain_env (PacketContext.new prefix_interest 7 0) no_tags empty_state =
      Ok (DDrop DropMalformedPacket, mkDecodeState ∅ 1 ∅).
Proof.
  destruct (decode_interest_spec plain_env (PacketContext.new prefix_interest 7 0) no_tags empty_state
    (mkInterest prefix_interest [mkComponent 8 [97]])) as (es & H1 & H2).
  - repeat (apply Forall_cons_2; [split; vm_compute; congruence|]). apply Forall_nil_2.
  - vm_compute. discriminate.
  - vm_compute. reflexivity.
  - exists (drop 2 prefix_interest). vm_compute. reflexivity.
  - exists es. split; [exact H1|]. clear H1 H2. vm_compute. reflexivity.
Defined.

Lemma decode_ingress_guards_witness :
  exists c t st', TlvDecodeStage.decode_inbound (fun b => b) (fun m => map_to_list m) plain_env 0 plain_interest 7 0 0 empty_state
      = Ok (DContinue c t, st') /\ face_id c = 7 /\ tag_next_hop_face_id t = None.
Proof.
  destruct (TlvDecodeStage.decode_inbound (fun b => b) (fun m => map_to_list m) plain_env 0 plain_interest 7 0 0 empty_state)
    as [[[c t|r] st']|] eqn:E; [|vm_compute in E; discriminate E..].
  destruct (decode_ingress_guards _ _ _ _ _ _ _ _ _ _ _ _ E) as (H1 & _ & H2).
  exists c, t, st'. split; [reflexivity|]. split; [exact H1|]. apply H2. vm_compute. reflexivity.
Defined.

Lemma decode_terminates_witness :
  match TlvDecodeStage.decode_inbound (fun b => b) (fun m => map_to_list m) plain_env 0 plain_interest 7 0 0 empty_state with
  | Ok (_, st') => wf_state st'
  | Err e => e = Panic
  end.
Proof.
  apply (decode_terminates (fun b => b) (fun m => map_to_list m) plain_env 0 plain_interest 7 0 0 empty_state).
  - exact map_to_list_iter.
  - apply map_Forall_empty.
  - repeat (apply Forall_cons_2; [split; vm_compute; congruence|]). apply Forall_nil_2.
  - vm_compute. discriminate.
Defined.
