(* ===== verification/LinkService.v ===== *)
(** * Link services ([crates/core/ndn-transport/src/link_service])

    The framing half of a face: [PassthroughLinkService] for local faces,
    [LpLinkService] for network faces, with its pipeline of per-frame features
    ([features/*.rs]) and the runtime options of [face_options.rs].

    [W] is the state of the world at the time a feature runs: [clock] reads the
    time from it, in nanoseconds, and the closures an application installs
    (queue depth, trace source, presence source) are functions of it.  What a
    transport does with a frame is the [accept] of a [Transport].  What a sink is
    called with is an output of the ingress pipeline.  The features of
    [with_extra_feature], which come from outside, are not modelled. *)

From S2P Require Import Prelude Tlv Name NameUri BTree Float64 Packet Lp Reassembly Face Reliability Evict DecodeStage.
#[local] Open Scope Z_scope.

(** ** [face_options.rs] *)

Definition BIT_LOCAL_FIELDS : Z := Z.shiftl 1 0.
Definition BIT_LP_RELIABILITY : Z := Z.shiftl 1 1.
Definition BIT_CONGESTION_MARKING : Z := Z.shiftl 1 2.
Definition NFD_FLAG_BITS : Z := Z.lor (Z.lor BIT_LOCAL_FIELDS BIT_LP_RELIABILITY) BIT_CONGESTION_MARKING.

Module FaceOption.
Inductive FaceOption : Type :=
| LocalFields (on : bool)
| LpReliability (on : bool)
| CongestionMarking (on : bool)
| BaseCongestionMarkingInterval (d : Z)
| DefaultCongestionThreshold (t : Z)
| EffectiveMtu (mtu : option Z)
| Persistency (p : FacePersistency).

Definition name (o : FaceOption) : bytes :=
  match o with
  | LocalFields _ => str "local-fields"
  | LpReliability _ => str "lp-reliability"
  | CongestionMarking _ => str "congestion-marking"
  | BaseCongestionMarkingInterval _ => str "base-cong-interval"
  | DefaultCongestionThreshold _ => str "def-cong-threshold"
  | EffectiveMtu _ => str "mtu"
  | Persistency _ => str "persistency"
  end.
End FaceOption.
Abbreviation FaceOption := FaceOption.FaceOption.

Inductive FaceOptionError : Type :=
| NotSupportedByTransport (option : bytes)
| Immutable (option : bytes)
| OutOfRange (option reason : bytes).

Definition FaceOptionError_option (e : FaceOptionError) : bytes :=
  match e with NotSupportedByTransport o | Immutable o | OutOfRange o _ => o end.

(** ** Frames and contexts ([feature.rs]) *)

Record OutboundLpFrame : Type := mkOutbound { o_wire : bytes; is_lp_wrapped : bool }.
Record EgressCtx : Type := mkEgress { e_face_id : Z; e_source : option Z }.
(** A socket address is its IP address and port. *)
Inductive FaceAddr : Type := UdpAddr (ip : IpAddr) (port : Z) | EtherAddr (mac : bytes).
Record InboundLpFrame : Type := mkInbound {
  in_wire : bytes;
  in_addr : option FaceAddr;
  in_source_face_tag : option Z;
  in_congestion_mark : option Z;
  in_prefix_announcement : option bytes;
  in_radio_id : option Z
}.
Definition InboundLpFrame_with_meta (wire : bytes) (addr : option FaceAddr) (radio_id : option Z) : InboundLpFrame :=
  mkInbound wire addr None None None radio_id.
Record IngressCtx : Type := mkIngress { i_face_id : Z }.

Record LinkServiceFrame : Type := mkServiceFrame {
  sf_wire : bytes;
  sf_addr : option FaceAddr;
  sf_source_face_tag : option Z;
  sf_congestion_mark : option Z;
  sf_prefix_announcement : option bytes
}.
Definition LinkServiceFrame_with_addr (wire : bytes) (addr : option FaceAddr) : LinkServiceFrame :=
  mkServiceFrame wire addr None None None.

(** ** Reliability ([features/reliability.rs]) *)

Definition DEFAULT_RELIABILITY_MTU : Z := 8800.

Record ReliabilityFeature : Type := mkRelFeature {
  rf_enabled : bool;
  rf_state : LpReliability;
  n_lp_resent_packets : Z
}.

Module ReliabilityFeature.

Definition with_config (config : ReliabilityConfig) : ReliabilityFeature :=
  mkRelFeature false (LpReliability.from_config DEFAULT_RELIABILITY_MTU config) 0.
Definition new : ReliabilityFeature := with_config ReliabilityConfig.default_.

Definition set_mtu (mtu : Z) (f : ReliabilityFeature) : ReliabilityFeature :=
  mkRelFeature (rf_enabled f) (LpReliability.set_mtu mtu (rf_state f)) (n_lp_resent_packets f).
Definition set_enabled (on : bool) (f : ReliabilityFeature) : ReliabilityFeature :=
  mkRelFeature on (rf_state f) (n_lp_resent_packets f).
Definition apply_config (cfg : ReliabilityConfig) (f : ReliabilityFeature) : ReliabilityFeature :=
  mkRelFeature (rf_enabled f) (LpReliability.apply_config cfg (rf_state f)) (n_lp_resent_packets f).
Definition unacked_count (f : ReliabilityFeature) : Z := LpReliability.unacked_count (rf_state f).
Definition n_lp_rto_expirations (f : ReliabilityFeature) : Z := rto_expirations (counters (rf_state f)).
Definition n_lp_unacked_evictions (f : ReliabilityFeature) : Z := unacked_evictions (counters (rf_state f)).
Definition n_lp_fast_retx (f : ReliabilityFeature) : Z := fast_retx (counters (rf_state f)).
Definition n_lp_duplicate_frames (f : ReliabilityFeature) : Z := duplicate_frames (counters (rf_state f)).
Definition rto_micros (f : ReliabilityFeature) : Z := rto_us (rtt (rf_state f)).

Definition with_state (f : ReliabilityFeature) (s : LpReliability) : ReliabilityFeature :=
  mkRelFeature (rf_enabled f) s (n_lp_resent_packets f).

Definition take_retransmissions (now : Z) (f : ReliabilityFeature) : list bytes * ReliabilityFeature :=
  let '(retx, s) := LpReliability.check_retransmit now (rf_state f) in
  (retx, mkRelFeature (rf_enabled f) s
           (if bool_decide (retx = []) then n_lp_resent_packets f
            else wrap 64 (n_lp_resent_packets f + zlen retx))).

Definition frame (now : Z) (payload : bytes) (f : ReliabilityFeature) : option (list bytes * ReliabilityFeature) :=
  if negb (rf_enabled f) then Some ([], f)
  else match LpReliability.on_send now payload (rf_state f) with
       | Some (wires, s) => Some (wires, with_state f s)
       | None => None
       end.

Definition frame_fragments (now : Z) (payload : bytes) (mtu : Z) (f : ReliabilityFeature)
    : option (list bytes * ReliabilityFeature) :=
  match LpReliability.on_send now payload (LpReliability.set_mtu mtu (rf_state f)) with
  | Some (wires, s) => Some (wires, with_state f s)
  | None => None
  end.

Definition take_acks (f : ReliabilityFeature) : option bytes * ReliabilityFeature :=
  let '(ack, s) := LpReliability.flush_acks (rf_state f) in (ack, with_state f s).

Definition note_receive (now now' : Z) (raw : bytes) (f : ReliabilityFeature) : bool * ReliabilityFeature :=
  let '(dup, s) := LpReliability.on_receive now now' raw (rf_state f) in (dup, with_state f s).

Definition take_fast_retransmits (now : Z) (f : ReliabilityFeature) : list bytes * ReliabilityFeature :=
  let '(wires, s) := LpReliability.take_fast_retransmits now (rf_state f) in (wires, with_state f s).

End ReliabilityFeature.

(** ** Congestion marking ([features/congestion_marking.rs]) *)

Definition DEFAULT_BASE_CONG_INTERVAL : Z := 100000000.
Definition DEFAULT_DEF_CONG_THRESHOLD : Z := 64 * 1024.
Definition CONGESTION_MARK_VALUE : Z := 1.

Definition encode_non_neg_int (v : Z) : bytes :=
  if v <=? 0xFF then [wrap 8 v]
  else if v <=? 0xFFFF then be_encode 2 (wrap 16 v)
  else if v <=? 0xFFFFFFFF then be_encode 4 (wrap 32 v)
  else be_encode 8 v.

Definition put_varu64 (buf : bytes) (v : Z) : bytes :=
  buf ++ (if v <=? 252 then [wrap 8 v]
          else if v <=? 0xFFFF then 0xFD :: be_encode 2 (wrap 16 v)
          else if v <=? 0xFFFFFFFF then 0xFE :: be_encode 4 (wrap 32 v)
          else 0xFF :: be_encode 8 v).

Definition splice_congestion_mark (lp_wire : bytes) (mark : Z) : option bytes :=
  if negb (bool_decide (head lp_wire = Some lp_type.LP_PACKET)) then None
  else match read_varu64 lp_wire with
  | Err _ => None
  | Ok (typ, n_t) =>
      if negb (typ =? lp_type.LP_PACKET) then None
      else match read_varu64 (slice_from_ lp_wire n_t) with
      | Err _ => None
      | Ok (len_v, n_l) =>
          let payload_start := n_t + n_l in
          if usize_max <? payload_start + len_v then None
          else if zlen lp_wire <? payload_start + len_v then None
          else
            let existing_payload := slice lp_wire payload_start (payload_start + len_v) in
            let mark_value := encode_non_neg_int mark in
            let cm_tlv := put_varu64 (put_varu64 [] lp_type.LP_CONGESTION_MARK) (zlen mark_value) ++ mark_value in
            Some (TlvWriter.finish (TlvWriter.write_nested TlvWriter.new lp_type.LP_PACKET (fun w =>
              TlvWriter.write_raw (TlvWriter.write_raw w cm_tlv) existing_payload)))
      end
  end.

(** ** The pipeline *)

Section world.
Context {W : Type} (clock : W -> Z).

(** The process-wide installations of [trace_context.rs] and [al_lal.rs]: first
    writer wins. *)
Record Globals : Type := mkGlobals {
  GLOBAL_EGRESS_SOURCE : option (W -> option TraceContext);
  GLOBAL_TRACE_SINK : bool;
  GLOBAL_PRESENCE_SOURCE : option (W -> option bytes);
  GLOBAL_PRESENCE_SINK : bool
}.

Definition install_global_egress_source (src : W -> option TraceContext) (g : Globals) : Globals :=
  mkGlobals (Some (default src (GLOBAL_EGRESS_SOURCE g))) (GLOBAL_TRACE_SINK g) (GLOBAL_PRESENCE_SOURCE g) (GLOBAL_PRESENCE_SINK g).
Definition install_global_presence_source (src : W -> option bytes) (g : Globals) : Globals :=
  mkGlobals (GLOBAL_EGRESS_SOURCE g) (GLOBAL_TRACE_SINK g) (Some (default src (GLOBAL_PRESENCE_SOURCE g))) (GLOBAL_PRESENCE_SINK g).

Record CongestionMarkingFeature : Type := mkMarking {
  cm_enabled : bool;
  base_cong_interval : Z;
  def_cong_threshold : Z;
  above_threshold_since : option Z;
  queue_depth_fn : W -> Z;
  n_lp_congestion_marked : Z
}.

(** Whether a sink is installed; its calls are outputs. *)
Record TraceContextFeature : Type := mkTraceFeature {
  tc_egress : option (W -> option TraceContext);
  tc_ingress : bool
}.

Record AlalFeature : Type := mkAlal {
  presence : option bytes;
  al_sink : bool;
  active : bool;
  beacon : option (W -> option bytes);
  beacon_interval_ms : Z;
  start : Z;
  last_activity_ms : Z
}.

Definition CongestionMarking_new : CongestionMarkingFeature :=
  mkMarking false DEFAULT_BASE_CONG_INTERVAL DEFAULT_DEF_CONG_THRESHOLD None (fun _ => 0) 0.
Definition set_since (c : CongestionMarkingFeature) (t : option Z) : CongestionMarkingFeature :=
  mkMarking (cm_enabled c) (base_cong_interval c) (def_cong_threshold c) t (queue_depth_fn c) (n_lp_congestion_marked c).
Definition CongestionMarking_set_enabled (on : bool) (c : CongestionMarkingFeature) : CongestionMarkingFeature :=
  mkMarking on (base_cong_interval c) (def_cong_threshold c) (if negb on then None else above_threshold_since c)
    (queue_depth_fn c) (n_lp_congestion_marked c).
Definition set_base_cong_interval (d : Z) (c : CongestionMarkingFeature) : CongestionMarkingFeature :=
  mkMarking (cm_enabled c) d (def_cong_threshold c) (above_threshold_since c) (queue_depth_fn c) (n_lp_congestion_marked c).
Definition set_def_cong_threshold (t : Z) (c : CongestionMarkingFeature) : CongestionMarkingFeature :=
  mkMarking (cm_enabled c) (base_cong_interval c) t (above_threshold_since c) (queue_depth_fn c) (n_lp_congestion_marked c).
Definition set_queue_depth_fn (f : W -> Z) (c : CongestionMarkingFeature) : CongestionMarkingFeature :=
  mkMarking (cm_enabled c) (base_cong_interval c) (def_cong_threshold c) (above_threshold_since c) f (n_lp_congestion_marked c).

Definition should_mark_now (depth now : Z) (c : CongestionMarkingFeature) : bool * CongestionMarkingFeature :=
  if depth <? def_cong_threshold c then (false, set_since c None)
  else match above_threshold_since c with
       | None => (false, set_since c (Some now))
       | Some t0 => if base_cong_interval c <=? sat_sub now t0 then (true, set_since c (Some now)) else (false, c)
       end.

Definition CongestionMarking_on_egress (w : W) (frame : OutboundLpFrame) (c : CongestionMarkingFeature)
    : OutboundLpFrame * CongestionMarkingFeature :=
  if negb (cm_enabled c) then (frame, c)
  else if negb (is_lp_wrapped frame) then (frame, c)
  else
    let '(mark, c) := should_mark_now (queue_depth_fn c w) (clock w) c in
    if negb mark then (frame, c)
    else match splice_congestion_mark (o_wire frame) CONGESTION_MARK_VALUE with
         | Some new_wire =>
             (mkOutbound new_wire (is_lp_wrapped frame),
              mkMarking (cm_enabled c) (base_cong_interval c) (def_cong_threshold c) (above_threshold_since c)
                (queue_depth_fn c) (wrap 64 (n_lp_congestion_marked c + 1)))
         | None => (frame, c)
         end.

Definition TraceContext_on_egress (g : Globals) (w : W) (frame : OutboundLpFrame) (f : TraceContextFeature) : OutboundLpFrame :=
  match match tc_egress f with Some src => Some src | None => GLOBAL_EGRESS_SOURCE g end with
  | None => frame
  | Some src => match src w with
                | None => frame
                | Some tc => mkOutbound (TraceContext.splice_into_lp_wire (o_wire frame) tc) (is_lp_wrapped frame)
                end
  end.

Definition TraceContext_on_ingress (g : Globals) (frame : InboundLpFrame) (f : TraceContextFeature) : option TraceContext :=
  if negb (tc_ingress f || GLOBAL_TRACE_SINK g) then None else TraceContext.extract_from_lp_wire (in_wire frame).

Definition Alal_new (w : W) : AlalFeature := mkAlal None false false None 0 (clock w) 0.
Definition elapsed_ms (w : W) (f : AlalFeature) : Z := wrap 64 (sat_sub (clock w) (start f) / 1000000).
Definition set_activity (f : AlalFeature) (t : Z) : AlalFeature :=
  mkAlal (presence f) (al_sink f) (active f) (beacon f) (beacon_interval_ms f) (start f) t.
Definition set_active (f : AlalFeature) : AlalFeature :=
  mkAlal (presence f) (al_sink f) true (beacon f) (beacon_interval_ms f) (start f) (last_activity_ms f).
Definition note_activity (w : W) (f : AlalFeature) : AlalFeature := set_activity f (elapsed_ms w f).
Definition set_beacon (src : option (W -> option bytes)) (interval_ms : Z) (f : AlalFeature) : AlalFeature :=
  mkAlal (presence f) (al_sink f) (active f) src interval_ms (start f) (last_activity_ms f).
Definition is_beacon_enabled (f : AlalFeature) : bool := 0 <? beacon_interval_ms f.
Definition set_presence (p : option bytes) (f : AlalFeature) : AlalFeature :=
  mkAlal p (al_sink f) (active f) (beacon f) (beacon_interval_ms f) (start f) (last_activity_ms f).
Definition set_sink (on : bool) (f : AlalFeature) : AlalFeature :=
  mkAlal (presence f) on (active f) (beacon f) (beacon_interval_ms f) (start f) (last_activity_ms f).

Definition due_beacon (w : W) (f : AlalFeature) : option bytes * AlalFeature :=
  let interval := beacon_interval_ms f in
  if interval =? 0 then (None, f)
  else
    let now := elapsed_ms w f in
    if sat_sub now (last_activity_ms f) <? interval then (None, f)
    else match match beacon f with Some src => src w | None => None end with
         | Some wire => (Some wire, set_activity f now)
         | None => (None, f)
         end.

Definition presence_wire (g : Globals) (w : W) (f : AlalFeature) : option bytes :=
  match presence f with
  | Some p => Some p
  | None => match GLOBAL_PRESENCE_SOURCE g with Some src => src w | None => None end
  end.

Definition Alal_on_egress (g : Globals) (w : W) (frame : OutboundLpFrame) (f : AlalFeature) : OutboundLpFrame * AlalFeature :=
  let f := note_activity w f in
  if negb (is_lp_wrapped frame) then (frame, f)
  else match presence_wire g w f with
       | None => (frame, f)
       | Some name_wire =>
           (mkOutbound (splice_lp_header (o_wire frame) lp_type.TLV_AL_PRESENCE name_wire) (is_lp_wrapped frame), set_active f)
       end.

(** What the sink is called with. *)
Definition Alal_on_ingress (g : Globals) (frame : InboundLpFrame) (ctx : IngressCtx) (f : AlalFeature) : option (Z * bytes) * AlalFeature :=
  if negb (al_sink f || GLOBAL_PRESENCE_SINK g) then (None, f)
  else match extract_lp_header (in_wire frame) lp_type.TLV_AL_PRESENCE with
       | Some name_wire => (Some (i_face_id ctx, name_wire), set_active f)
       | None => (None, f)
       end.

(** The features a network face is built with. *)
Inductive LinkServiceFeature : Type :=
| FragmentationFeature | ReassemblyFeature | LocalFieldsFeature | IncomingFaceIdFeature | NackFeature
| TraceContextF | ReliabilityF | CongestionMarkingF | AlalF.

Definition feature_name (f : LinkServiceFeature) : bytes :=
  match f with
  | FragmentationFeature => str "fragmentation"
  | ReassemblyFeature => str "reassembly"
  | LocalFieldsFeature => str "local-fields"
  | IncomingFaceIdFeature => str "incoming-face-id"
  | NackFeature => str "nack"
  | TraceContextF => str "trace-context"
  | ReliabilityF => str "reliability"
  | CongestionMarkingF => str "congestion-marking"
  | AlalF => str "a-lal"
  end.

Definition default_features_for_network_face : list LinkServiceFeature :=
  [FragmentationFeature; ReassemblyFeature; LocalFieldsFeature; IncomingFaceIdFeature; NackFeature;
   TraceContextF; ReliabilityF; CongestionMarkingF; AlalF].

Record LpLinkService : Type := mkLinkService {
  ls_reliability : option ReliabilityConfig;
  fragment_seq : Z;
  features : list LinkServiceFeature;
  reliability_feature : ReliabilityFeature;
  congestion_marking_feature : CongestionMarkingFeature;
  a_lal_feature : AlalFeature;
  trace_feature : TraceContextFeature
}.

Definition with_rf (ls : LpLinkService) (f : ReliabilityFeature) : LpLinkService :=
  mkLinkService (ls_reliability ls) (fragment_seq ls) (features ls) f (congestion_marking_feature ls) (a_lal_feature ls) (trace_feature ls).
Definition with_cm (ls : LpLinkService) (c : CongestionMarkingFeature) : LpLinkService :=
  mkLinkService (ls_reliability ls) (fragment_seq ls) (features ls) (reliability_feature ls) c (a_lal_feature ls) (trace_feature ls).
Definition with_al (ls : LpLinkService) (a : AlalFeature) : LpLinkService :=
  mkLinkService (ls_reliability ls) (fragment_seq ls) (features ls) (reliability_feature ls) (congestion_marking_feature ls) a (trace_feature ls).
Definition with_seq (ls : LpLinkService) (s : Z) : LpLinkService :=
  mkLinkService (ls_reliability ls) s (features ls) (reliability_feature ls) (congestion_marking_feature ls) (a_lal_feature ls) (trace_feature ls).

(** [LinkServiceFeature::on_egress], with its dispatch. *)
Definition on_egress (g : Globals) (w : W) (ctx : EgressCtx) (fl : OutboundLpFrame * LpLinkService) (f : LinkServiceFeature)
    : OutboundLpFrame * LpLinkService :=
  let '(frame, ls) := fl in
  match f with
  | TraceContextF => (TraceContext_on_egress g w frame (trace_feature ls), ls)
  | CongestionMarkingF =>
      let '(frame, c) := CongestionMarking_on_egress w frame (congestion_marking_feature ls) in (frame, with_cm ls c)
  | AlalF => let '(frame, a) := Alal_on_egress g w frame (a_lal_feature ls) in (frame, with_al ls a)
  | _ => (frame, ls)
  end.

(** [for feature in &self.features { feature.on_egress(..) }]. *)
Definition run_egress (g : Globals) (w : W) (ctx : EgressCtx) (wire : bytes) (ls : LpLinkService) : bytes * LpLinkService :=
  let '(frame, ls) := fold_left (on_egress g w ctx) (features ls) (mkOutbound wire true, ls) in (o_wire frame, ls).

(** The calls of the sinks: a trace context, a neighbour's presence. *)
Record SinkCalls : Type := mkCalls { traces : list TraceContext; presences : list (Z * bytes) }.

Definition on_ingress (g : Globals) (frame : InboundLpFrame) (ctx : IngressCtx) (cl : SinkCalls * LpLinkService) (f : LinkServiceFeature)
    : SinkCalls * LpLinkService :=
  let '(calls, ls) := cl in
  match f with
  | TraceContextF => (mkCalls (traces calls ++ option_list (TraceContext_on_ingress g frame (trace_feature ls))) (presences calls), ls)
  | AlalF =>
      let '(p, a) := Alal_on_ingress g frame ctx (a_lal_feature ls) in
      (mkCalls (traces calls) (presences calls ++ option_list p), with_al ls a)
  | _ => (calls, ls)
  end.

Definition run_ingress (g : Globals) (frame : InboundLpFrame) (ctx : IngressCtx) (ls : LpLinkService) : SinkCalls * LpLinkService :=
  fold_left (on_ingress g frame ctx) (features ls) (mkCalls [] [], ls).

(** ** Transports *)

Inductive FaceError : Type := Closed | Io | Full | NoFactory (k : FaceKind).

(** [accept done wire]: the transport's answer to [wire] after the frames [done]
    of the same call. *)
Record Transport : Type := mkTransport {
  t_id : Z;
  send_mtu : option Z;
  accept : list bytes -> bytes -> option FaceError
}.

(** [for wire in wires { transport.send_bytes(wire).await?; }]: the frames the
    transport took, and the result. *)
Fixpoint send_each (t : Transport) (done wires : list bytes) : list bytes * result unit FaceError :=
  match wires with
  | [] => (done, Ok tt)
  | wire :: wires =>
      match accept t done wire with
      | Some e => (done, Err e)
      | None => send_each t (done ++ [wire]) wires
      end
  end.

(** [let _ = transport.send_bytes(wire).await]. *)
Fixpoint send_lossy (t : Transport) (done wires : list bytes) : list bytes :=
  match wires with
  | [] => done
  | wire :: wires => send_lossy t (match accept t done wire with Some _ => done | None => done ++ [wire] end) wires
  end.

(** ** [LpLinkService] *)

Definition LpLinkService_new (w : W) : LpLinkService :=
  mkLinkService None 0 default_features_for_network_face ReliabilityFeature.new CongestionMarking_new (Alal_new w)
    (mkTraceFeature None false).

Definition with_reliability (w : W) (cfg : ReliabilityConfig) : LpLinkService :=
  mkLinkService (Some cfg) 0 default_features_for_network_face
    (ReliabilityFeature.set_enabled true (ReliabilityFeature.with_config cfg)) CongestionMarking_new (Alal_new w)
    (mkTraceFeature None false).

Definition reserve_fragment_seqs (packet_len mtu : Z) (ls : LpLinkService) : Z * LpLinkService :=
  let n := Z.max (div_ceil packet_len (payload_cap mtu)) 1 in
  (fragment_seq ls, with_seq ls (wrap 64 (fragment_seq ls + n))).

(** The pipeline on every frame of a list, frame [i] at [ws i]. *)
Fixpoint egress_each (g : Globals) (ws : nat -> W) (ctx : EgressCtx) (wires : list bytes) (ls : LpLinkService)
    : list bytes * LpLinkService :=
  match wires with
  | [] => ([], ls)
  | wire :: wires =>
      let '(out, ls) := run_egress g (ws 0%nat) ctx wire ls in
      let '(outs, ls) := egress_each g (fun i => ws (S i)) ctx wires ls in
      (out :: outs, ls)
  end.

(** [None] is a panic, the overflow of a sequence number. *)
Definition fragment_for_egress (g : Globals) (ws : nat -> W) (ctx : EgressCtx) (payload : bytes) (mtu : Z) (ls : LpLinkService)
    : option (list bytes * LpLinkService) :=
  match ReliabilityFeature.frame_fragments (clock (ws 0%nat)) payload mtu (reliability_feature ls) with
  | None => None
  | Some (wires, rf) =>
      let ls := with_rf ls rf in
      if negb (bool_decide (wires = [])) then Some (wires, ls)
      else
        let '(seq, ls) := reserve_fragment_seqs (zlen payload) mtu ls in
        match fragment_packet payload mtu seq with
        | Err _ => None
        | Ok frags => Some (egress_each g ws ctx frags ls)
        end
  end.

(** The inner packet of a complete, oversized LpPacket. *)
Definition refragment (mtu : option Z) (packet : bytes) : option (Z * bytes) :=
  match mtu with
  | None => None
  | Some mtu =>
      if (mtu <? zlen packet) && (FRAG_OVERHEAD <? mtu) then
        match LpPacket.decode packet with
        | Err _ => None
        | Ok lp =>
            if default 1 (frag_count lp) <=? 1
            then match fragment lp with Some inner => Some (mtu, inner) | None => None end
            else None
        end
      else None
  end.

Definition send (g : Globals) (ws : nat -> W) (t : Transport) (packet : bytes) (source : option Z) (ls : LpLinkService)
    : option (list bytes * result unit FaceError * LpLinkService) :=
  let ctx := mkEgress (t_id t) source in
  let fragmented mtu payload :=
    match fragment_for_egress g ws ctx payload mtu ls with
    | None => None
    | Some (wires, ls) => Some (send_each t [] wires, ls)
    end in
  let whole wire := let '(wire, ls) := run_egress g (ws 0%nat) ctx wire ls in Some (send_each t [] [wire], ls) in
  if is_lp_packet packet then
    match refragment (send_mtu t) packet with
    | Some (mtu, inner) => fragmented mtu inner
    | None => whole packet
    end
  else match send_mtu t with
       | Some mtu => if mtu <? zlen packet + 4 then fragmented mtu packet else whole (encode_lp_packet packet)
       | None => whole (encode_lp_packet packet)
       end.

(** The per-wire path of [send_batch]: the frames taken accumulate over the
    calls of [send]. *)
Fixpoint send_wires (g : Globals) (ws : nat -> nat -> W) (t : Transport) (wires : list bytes) (source : option Z) (ls : LpLinkService)
    : option (list bytes * result unit FaceError * LpLinkService) :=
  match wires with
  | [] => Some ([], Ok tt, ls)
  | wire :: wires =>
      match send g (ws 0%nat) t wire source ls with
      | None => None
      | Some (done, Err e, ls) => Some (done, Err e, ls)
      | Some (done, Ok _, ls) =>
          match send_wires g (fun i => ws (S i)) (mkTransport (t_id t) (send_mtu t) (fun l => accept t (done ++ l))) wires source ls with
          | None => None
          | Some (done', r, ls) => Some (done ++ done', r, ls)
          end
      end
  end.

(** [send_batch] of the transport: the default, one frame after the other. *)
Definition send_batch (g : Globals) (ws : nat -> nat -> W) (t : Transport) (wires : list bytes) (source : option Z) (ls : LpLinkService)
    : option (list bytes * result unit FaceError * LpLinkService) :=
  if bool_decide (wires = []) then Some ([], Ok tt, ls)
  else if negb (forallb is_lp_packet wires) then send_wires g ws t wires source ls
  else if match send_mtu t with Some mtu => existsb (fun w => mtu <? zlen w) wires | None => false end
  then send_wires g ws t wires source ls
  else let '(out, ls) := egress_each g (ws 0%nat) (mkEgress (t_id t) source) wires ls in Some (send_each t [] out, ls).

(** One turn of the loop of [recv]: whether the frame is a duplicate, the frames
    it made the link send, the calls of the sinks. *)
Definition recv_frame (g : Globals) (now now' now'' : Z) (t : Transport) (inbound : InboundLpFrame) (ls : LpLinkService)
    : bool * list bytes * SinkCalls * LpLinkService :=
  let '(is_duplicate, rf) := ReliabilityFeature.note_receive now now' (in_wire inbound) (reliability_feature ls) in
  let '(calls, ls) := run_ingress g inbound (mkIngress (t_id t)) (with_rf ls rf) in
  let '(ack, rf) := ReliabilityFeature.take_acks (reliability_feature ls) in
  let sent := send_lossy t [] (option_list ack) in
  let '(repairs, rf) := ReliabilityFeature.take_fast_retransmits now'' rf in
  (is_duplicate, send_lossy t sent repairs, calls, with_rf ls rf).

(** The frames that arrive ([recv_bytes_with_meta]), each with its times: the first that is not a
    duplicate, what was sent meanwhile, the calls, and the state.  [None] for the
    frame when they run out and [recv] waits. *)
Fixpoint recv (g : Globals) (t : Transport) (arrivals : list (Z * Z * Z * InboundLpFrame)) (ls : LpLinkService)
    : option LinkServiceFrame * list bytes * list SinkCalls * LpLinkService :=
  match arrivals with
  | [] => (None, [], [], ls)
  | (now, now', now'', inbound) :: arrivals =>
      let '(is_duplicate, sent, calls, ls) := recv_frame g now now' now'' t inbound ls in
      if is_duplicate then
        let '(o, sent', calls', ls) := recv g t arrivals ls in (o, sent ++ sent', calls :: calls', ls)
      else (Some (LinkServiceFrame_with_addr (in_wire inbound) (in_addr inbound)), sent, [calls], ls)
  end.

Definition reliability_enabled (ls : LpLinkService) : bool := bool_decide (is_Some (fmap (fun _ => tt) (ls_reliability ls))).

Definition apply (opt : FaceOption) (ls : LpLinkService) : result LpLinkService FaceOptionError :=
  match opt with
  | FaceOption.LocalFields _ => Ok ls
  | FaceOption.LpReliability on => Ok (with_rf ls (ReliabilityFeature.set_enabled on (reliability_feature ls)))
  | FaceOption.CongestionMarking on => Ok (with_cm ls (CongestionMarking_set_enabled on (congestion_marking_feature ls)))
  | FaceOption.BaseCongestionMarkingInterval d => Ok (with_cm ls (set_base_cong_interval d (congestion_marking_feature ls)))
  | FaceOption.DefaultCongestionThreshold n => Ok (with_cm ls (set_def_cong_threshold n (congestion_marking_feature ls)))
  | _ => Err (NotSupportedByTransport (FaceOption.name opt))
  end.

Definition snapshot (ls : LpLinkService) : FaceOptions :=
  mkOptions None false (rf_enabled (reliability_feature ls)) (cm_enabled (congestion_marking_feature ls)) None
    (Some (base_cong_interval (congestion_marking_feature ls))) (Some (def_cong_threshold (congestion_marking_feature ls))) None.

Definition feature_names (ls : LpLinkService) : list bytes := map feature_name (features ls).

Definition reliability_counters (ls : LpLinkService) : option (Z * Z * Z * Z * Z) :=
  let f := reliability_feature ls in
  Some (n_lp_resent_packets f, ReliabilityFeature.rto_micros f, ReliabilityFeature.n_lp_rto_expirations f,
        ReliabilityFeature.n_lp_unacked_evictions f, ReliabilityFeature.n_lp_fast_retx f).

Definition congestion_counters (ls : LpLinkService) : option (Z * Z) :=
  Some (n_lp_congestion_marked (congestion_marking_feature ls), 0).

Definition wire_queue_depth_fn (f : W -> Z) (ls : LpLinkService) : LpLinkService :=
  with_cm ls (set_queue_depth_fn f (congestion_marking_feature ls)).

Inductive LinkServiceKind : Type := PassthroughLinkService | LpService (ls : LpLinkService).

Definition lp_encodes (k : LinkServiceKind) : bool := match k with PassthroughLinkService => false | LpService _ => true end.

Definition default_link_service_for_kind (kind : FaceKind) (w : W) : LinkServiceKind :=
  if FaceKind.uses_lp_framing kind then LpService (LpLinkService_new w) else PassthroughLinkService.

(** [PassthroughLinkService::send]: the packet as it is. *)
Definition passthrough_send (t : Transport) (packet : bytes) : list bytes * result unit FaceError := send_each t [] [packet].

End world.

(** ** The pipeline does not touch the reliability state *)

Section pipeline.
Context {W : Type} (clock : W -> Z).

Lemma on_ingress_rf (g : @Globals W) frame ctx fs : forall cl,
  reliability_feature (fold_left (on_ingress g frame ctx) fs cl).2 = reliability_feature cl.2.
Proof.
  induction fs as [|f fs IH]; intros [c ls]; cbn [fold_left]; [done|]. rewrite IH.
  destruct f; cbn [on_ingress]; try done. by destruct (Alal_on_ingress _ _ _ _).
Qed.

(** A transport that takes every frame. *)
Definition open_transport (t : Transport) : Prop := forall sent w, accept t sent w = None.

Lemma send_lossy_open t ws : open_transport t -> forall sent, send_lossy t sent ws = sent ++ ws.
Proof.
  intros Ht. induction ws as [|w ws IH]; intros sent; cbn [send_lossy]; [by rewrite app_nil_r|].
  by rewrite Ht, IH, <- app_assoc.
Qed.

Lemma send_each_open t ws : open_transport t -> forall sent, send_each t sent ws = (sent ++ ws, Ok tt).
Proof.
  intros Ht. induction ws as [|w ws IH]; intros sent; cbn [send_each]; [by rewrite app_nil_r|].
  by rewrite Ht, IH, <- app_assoc.
Qed.

(** One turn of [recv], on the reliability state. *)
Lemma recv_frame_state (g : @Globals W) now now' now'' t inb ls dup sent calls ls' :
  open_transport t -> recv_frame g now now' now'' t inb ls = (dup, sent, calls, ls') ->
  let '(d, s1) := LpReliability.on_receive now now' (in_wire inb) (rf_state (reliability_feature ls)) in
  let '(ack, s2) := LpReliability.flush_acks s1 in
  let '(repairs, s3) := LpReliability.take_fast_retransmits now'' s2 in
  dup = d /\ sent = option_list ack ++ repairs /\ rf_state (reliability_feature ls') = s3.
Proof.
  intros Ht. unfold recv_frame, ReliabilityFeature.note_receive.
  destruct (LpReliability.on_receive _ _ _ _) as [d s1]. unfold run_ingress.
  set (ls1 := with_rf ls _). pose proof (on_ingress_rf g inb (mkIngress (t_id t)) (features ls1) (mkCalls [] [], ls1)) as Hrf.
  destruct (fold_left _ _ _) as [c ls2]. cbn [snd] in Hrf. rewrite Hrf. unfold ls1, ReliabilityFeature.take_acks. cbn [rf_state reliability_feature with_rf ReliabilityFeature.with_state].
  destruct (LpReliability.flush_acks s1) as [ack s2]. unfold ReliabilityFeature.take_fast_retransmits.
  cbn [rf_state ReliabilityFeature.with_state]. destruct (LpReliability.take_fast_retransmits now'' s2) as [repairs s3].
  rewrite !send_lossy_open by done. by intros [= <- <- _ <-].
Qed.

(** What no installation and no marking leave of the pipeline: nothing. *)
Record inert (g : @Globals W) (ls : @LpLinkService W) : Prop := {
  in_trace : tc_egress (trace_feature ls) = None /\ GLOBAL_EGRESS_SOURCE g = None;
  in_marking : cm_enabled (congestion_marking_feature ls) = false;
  in_presence : presence (a_lal_feature ls) = None /\ GLOBAL_PRESENCE_SOURCE g = None
}.

Lemma on_egress_inert g w ctx fs : forall frame ls, inert g ls ->
  exists ls', fold_left (on_egress clock g w ctx) fs (frame, ls) = (frame, ls') /\ inert g ls' /\
    reliability_feature ls' = reliability_feature ls /\ fragment_seq ls' = fragment_seq ls.
Proof.
  induction fs as [|f fs IH]; intros frame ls Hi; cbn [fold_left]; [by exists ls|].
  pose proof Hi as [[H1 H2] H3 [H4 H5]].
  assert (exists ls1, on_egress clock g w ctx (frame, ls) f = (frame, ls1) /\ inert g ls1 /\
    reliability_feature ls1 = reliability_feature ls /\ fragment_seq ls1 = fragment_seq ls) as (ls1 & -> & Hi1 & Hr & Hs).
  { destruct f; cbn [on_egress]; try (by exists ls).
    - exists ls. unfold TraceContext_on_egress. by rewrite H1, H2.
    - unfold CongestionMarking_on_egress. rewrite H3. cbn [negb]. eexists. split; [done|]. by split; [split|].
    - unfold Alal_on_egress, presence_wire, note_activity, set_activity. cbn [presence]. rewrite H4, H5.
      destruct (negb (is_lp_wrapped frame)); (eexists; split; [done|]; split; [by split|done]). }
  destruct (IH frame ls1 Hi1) as (ls' & H & Hi' & Hr' & Hs'). exists ls'. split_conj; [done|done|congruence|congruence].
Qed.

Lemma run_egress_inert g w ctx wire ls : inert g ls ->
  exists ls', run_egress clock g w ctx wire ls = (wire, ls') /\ inert g ls' /\
    reliability_feature ls' = reliability_feature ls /\ fragment_seq ls' = fragment_seq ls.
Proof.
  intros Hi. unfold run_egress. destruct (on_egress_inert g w ctx (features ls) (mkOutbound wire true) ls Hi) as (ls' & -> & ?).
  by exists ls'.
Qed.

End pipeline.

(** ** Marking *)

Section marking.
Context {W : Type}.

(** The decisions on a sequence of observations, each a depth and a time. *)
Fixpoint decisions (obs : list (Z * Z)) (c : @CongestionMarkingFeature W) : list bool * CongestionMarkingFeature :=
  match obs with
  | [] => ([], c)
  | (depth, now) :: obs =>
      let '(mark, c) := should_mark_now depth now c in
      let '(marks, c) := decisions obs c in
      (mark :: marks, c)
  end.

Lemma should_mark_config depth now (c : @CongestionMarkingFeature W) :
  def_cong_threshold (should_mark_now depth now c).2 = def_cong_threshold c /\
  base_cong_interval (should_mark_now depth now c).2 = base_cong_interval c.
Proof. unfold should_mark_now. by repeat case_match. Qed.

(** What the state remembers: the observation it counts from. *)
Definition counting (T : Z) (obs : list (Z * Z)) (marks : list bool) (since : option Z) : Prop :=
  match since with
  | None => True
  | Some t0 => exists before d0 after ms m0 ms', obs = before ++ (d0, t0) :: after /\ marks = ms ++ m0 :: ms' /\
      length ms = length before /\ T <= d0 /\ Forall (fun o => T <= o.1) after /\ Forall (fun m => m = false) ms'
  end.

Lemma decisions_counting obs : forall seen marks c,
  length marks = length seen -> counting (def_cong_threshold c) seen marks (above_threshold_since c) ->
  let '(ms, c') := decisions obs c in
  counting (def_cong_threshold c) (seen ++ obs) (marks ++ ms) (above_threshold_since c') /\
  def_cong_threshold c' = def_cong_threshold c /\ base_cong_interval c' = base_cong_interval c.
Proof.
  induction obs as [|[d t] obs IH]; intros seen marks c Hl Hc; cbn [decisions]; [by rewrite !app_nil_r|].
  destruct (should_mark_config d t c) as [Hth Hin]. destruct (should_mark_now d t c) as [m c1] eqn:Hm. cbn [snd] in Hth, Hin.
  assert (counting (def_cong_threshold c1) (seen ++ [(d, t)]) (marks ++ [m]) (above_threshold_since c1)) as Hc1.
  { revert Hm. unfold should_mark_now. destruct (Z.ltb_spec d (def_cong_threshold c)); [by intros [= <- <-]|].
    assert (counting (def_cong_threshold c) (seen ++ [(d, t)]) (marks ++ [m]) (Some t)) as Hnew.
    { exists seen, d, [], marks, m, []. by split_conj. }
    destruct (above_threshold_since c) as [t0|] eqn:Hs; [|by intros [= _ <-]].
    destruct (_ <=? _); [by intros [= _ <-]|]. intros [= <- <-]. rewrite Hs.
    destruct Hc as (before & d0 & after & ms & m0 & ms' & -> & -> & H1 & H2 & H3 & H4).
    exists before, d0, (after ++ [(d, t)]), ms, m0, (ms' ++ [false]). rewrite <- !app_assoc, !app_comm_cons.
    split_conj; try done; rewrite Forall_app; auto. }
  specialize (IH (seen ++ [(d, t)]) (marks ++ [m]) c1). destruct (decisions obs c1) as [ms c2].
  rewrite <- !app_assoc, Hth, Hin in IH. cbn [app] in IH. apply IH; [rewrite !length_app, Hl; done|by rewrite <- Hth].
Qed.

End marking.

(** *** The mark on the wire *)

Lemma put_varu64_spec b v : is_u64 v -> put_varu64 b v = b ++ varu64_bytes v.
Proof.
  intros Hv. unfold put_varu64, varu64_bytes, wrap. f_equal. unfold_bounds.
  repeat bcase_step; try lia; rewrite ?Z.mod_small by lia; done.
Qed.

Lemma encode_non_neg_spec v : is_u64 v -> encode_non_neg_int v = nni_bytes v.
Proof.
  intros Hv. rewrite nni_bytes_spec. unfold encode_non_neg_int, nni_width, wrap. unfold_bounds.
  repeat bcase_step; try lia; rewrite ?Z.mod_small by lia; try done.
  change (be_encode 1 v) with [v mod 256]. by rewrite Z.mod_small by lia.
Qed.

Definition mark_elem (mark : Z) : elem := (lp_type.LP_CONGESTION_MARK, nni_bytes mark).

(** The mark becomes the first element, whatever follows. *)
Lemma splice_mark_wire value rest mark :
  is_u64 mark -> zlen (tlv_bytes lp_type.LP_PACKET value ++ rest) + 20 <= usize_max ->
  splice_congestion_mark (tlv_bytes lp_type.LP_PACKET value ++ rest) mark =
    Some (tlv_bytes lp_type.LP_PACKET (elems_wire [mark_elem mark] ++ value)).
Proof.
  intros Hm Hz. pose proof (zlen_nonneg value) as H0. pose proof (zlen_nonneg rest) as Hr0. pose proof (zlen_nni_bytes mark) as Hn.
  rewrite zlen_app, zlen_tlv_bytes in Hz. pose proof (tlv_size_bounds lp_type.LP_PACKET (zlen value) H0) as Hb.
  assert (is_u64 (zlen value)) as Hv by (unfold_bounds; lia).
  unfold splice_congestion_mark. rewrite bool_decide_true by done. cbn [negb].
  assert (tlv_bytes lp_type.LP_PACKET value ++ rest =
    varu64_bytes lp_type.LP_PACKET ++ varu64_bytes (zlen value) ++ value ++ rest) as Hw
    by (unfold tlv_bytes; by rewrite <- !app_assoc).
  rewrite Hw, read_varu64_bytes by done. rewrite Z.eqb_refl. cbn [negb].
  rewrite <- (zlen_varu64_bytes lp_type.LP_PACKET), slice_from_app, read_varu64_bytes by done.
  rewrite <- (zlen_varu64_bytes (zlen value)), <- zlen_app. set (h := varu64_bytes _ ++ varu64_bytes (zlen value)).
  assert (zlen h + zlen value = tlv_size lp_type.LP_PACKET (zlen value)) as Hh.
  { unfold h, tlv_size. by rewrite zlen_app, !zlen_varu64_bytes. }
  rewrite app_assoc. fold h. clearbody h.
  destruct (Z.ltb_spec usize_max (zlen h + zlen value)); [lia|].
  destruct (Z.ltb_spec (zlen (h ++ value ++ rest)) (zlen h + zlen value)); [exfalso|].
  { match goal with H : _ < _ |- _ => rewrite !zlen_app in H end. lia. }
  f_equal. rewrite slice_mid by done. unfold TlvWriter.finish.
  rewrite encode_non_neg_spec, !put_varu64_spec by (try done; unfold_bounds; lia).
  assert ((([] ++ varu64_bytes lp_type.LP_CONGESTION_MARK) ++ varu64_bytes (zlen (nni_bytes mark))) ++ nni_bytes mark
    = elems_wire [mark_elem mark]) as ->.
  { rewrite elems_wire_one. unfold mark_elem, tlv_bytes. cbn [fst snd app]. by rewrite <- app_assoc. }
  rewrite buf_write_nested; [done|done|]. cbn [TlvWriter.buf TlvWriter.write_raw TlvWriter.new app].
  rewrite zlen_app, elems_wire_one. unfold mark_elem. cbn [fst snd]. rewrite zlen_nni_elem.
  change (varu64_size lp_type.LP_CONGESTION_MARK) with 3. unfold_bounds. lia.
Qed.

Lemma mark_elem_ok mark : is_u64 mark -> wf_elem (mark_elem mark) /\ header_ok (mark_elem mark).
Proof.
  intros Hm. split; [split; [by vm_compute|apply wf_nni_bytes]|]. apply header_ok_plain; [compute_done|done..].
Qed.

(** The headers of an LpPacket end where its fragment starts. *)
Lemma headers_unique hs fr hs' fr' : Forall header_ok hs -> Forall header_ok hs' ->
  hs ++ frag_elems fr = hs' ++ frag_elems fr' -> hs = hs' /\ fr = fr'.
Proof.
  intros H H' E. destruct fr as [v|], fr' as [v'|]; cbn [frag_elems] in E; rewrite ?app_nil_r in E.
  - apply app_inj_tail in E as [-> E]. by simplify_eq.
  - subst hs'. apply Forall_app in H' as [_ H']. by apply Forall_inv in H' as [H' _].
  - subst hs. apply Forall_app in H as [_ H]. by apply Forall_inv in H as [H _].
  - done.
Qed.

(** ** Reliable fragments are readable *)

Lemma frame_fragments_readable now packet m f wires f' :
  rel_ok (rf_state f) -> wf_bytes packet -> zlen packet + 2000 <= usize_max ->
  1 <= send_cap (LpReliability.set_mtu m (rf_state f)) ->
  ReliabilityFeature.frame_fragments now packet m f = Some (wires, f') -> 1 < zlen wires ->
  exists fs, length fs = length wires /\ concat fs = packet /\
  forall i, (i < length fs)%nat -> exists h,
    extract_fragment (wires !!! i) = Some h /\ fh_sequence h = next_seq (rf_state f) + Z.of_nat i /\
    fh_frag_index h = Z.of_nat i /\ fh_frag_count h = zlen fs /\ slice (wires !!! i) (frag_start h) (frag_end h) = fs !!! i.
Proof.
  intros Hok Hp Hz Hcap. unfold ReliabilityFeature.frame_fragments. set (s := LpReliability.set_mtu m (rf_state f)) in *.
  destruct (LpReliability.on_send now packet s) as [[ws s']|] eqn:Es; [|done]. intros [= -> _] Hn.
  assert (rel_ok s) as Hoks by (destruct Hok; by split).
  pose proof (on_send_frames now packet s wires s' Hoks Hp Hz Hcap Es) as (Hl & Hsq & Htx & _ & _ & Hf).
  set (cap := send_cap s) in *. set (n := div_ceil (zlen packet) cap) in *.
  exists (map (chunk_of packet cap) (seqZ 0 n)). rewrite length_map, length_seqZ, Hl. split; [done|].
  split; [by apply chunks_concat|]. intros i Hi. assert (0 <= Z.of_nat i < n) as Hin by lia.
  assert (1 < n) as Hn1 by (unfold zlen in Hn; rewrite Hl in Hn; lia).
  specialize (Hf (Z.of_nat i) Hin). rewrite Nat2Z.id in Hf. rewrite (list_lookup_total_correct _ _ _ Hf).
  pose proof (mo_tx _ _ _ (proj1 (ro_tracked _ Hoks))). pose proof (ro_seq _ Hoks).
  destruct (piggybacked_facts s (ro_acks _ Hoks)) as [Ha Hm].
  destruct (frame_of_fast now (next_seq s) n cap packet (piggybacked s) Hp Hz Hcap eq_refl Ha Hm ltac:(done) ltac:(done)
    (next_tx_seq s + Z.of_nat i) (Z.of_nat i)) as (_ & _ & Hx); [unfold_bounds; lia|done|].
  destruct (Hx Hn1) as (h & H1 & H2 & H3 & H4 & H5). exists h. split_conj; [done|done|done| |].
  - rewrite H4. unfold zlen. rewrite length_map, length_seqZ. lia.
  - rewrite H5. symmetry. apply list_lookup_total_correct. rewrite list_lookup_fmap.
    rewrite (proj2 (lookup_seqZ 0 n i (Z.of_nat i))) by lia. done.
Qed.

(** They are all kept, as sent once, when there is room to keep them. *)
Lemma frame_fragments_once now packet m f wires f' :
  rel_ok (rf_state f) -> wf_bytes packet -> zlen packet + 2000 <= usize_max ->
  1 <= send_cap (LpReliability.set_mtu m (rf_state f)) ->
  ReliabilityFeature.frame_fragments now packet m f = Some (wires, f') ->
  zlen (unacked (rf_state f)) + zlen wires <= max_unacked (config (rf_state f)) ->
  rel_ok (rf_state f') /\ config (rf_state f') = config (rf_state f) /\
  forall i, (i < length wires)%nat -> sent_once (next_tx_seq (rf_state f) + Z.of_nat i) (wires !!! i) now (rf_state f').
Proof.
  intros Hok Hp Hz Hcap. unfold ReliabilityFeature.frame_fragments. set (s := LpReliability.set_mtu m (rf_state f)) in *.
  destruct (LpReliability.on_send now packet s) as [[ws s']|] eqn:Es; [|done]. intros [= -> <-] Hroom.
  assert (rel_ok s) as Hoks by (destruct Hok; by split).
  destruct (step_spec (OpSend now packet) s false wires 0 s' Hoks) as (Hok' & (evs & He & _) & _); [done|cbn [step]; by rewrite Es|].
  split; [done|]. split; [exact (ef_config _ _ _ He)|]. exact (on_send_once now packet s wires s' Hoks Hp Hz Hcap Es Hroom).
Qed.

(** With room for a payload, only the empty packet gives no frame. *)
Lemma frame_fragments_empty now packet m f f' :
  rel_ok (rf_state f) -> wf_bytes packet -> zlen packet + 2000 <= usize_max ->
  1 <= send_cap (LpReliability.set_mtu m (rf_state f)) ->
  ReliabilityFeature.frame_fragments now packet m f = Some ([], f') -> packet = [].
Proof.
  intros Hok Hp Hz Hcap. unfold ReliabilityFeature.frame_fragments. set (s := LpReliability.set_mtu m (rf_state f)) in *.
  destruct (LpReliability.on_send now packet s) as [[ws s']|] eqn:Es; [|done]. intros [= -> _].
  assert (rel_ok s) as Hoks by (destruct Hok; by split).
  pose proof (on_send_frames now packet s [] s' Hoks Hp Hz Hcap Es) as (Hl & _).
  destruct (div_ceil_spec (zlen packet) (send_cap s) (zlen_nonneg _) Hcap) as [[H1 _] H2]. cbn [length] in Hl.
  apply zlen_0_nil. pose proof (zlen_nonneg packet). nia.
Qed.

Lemma fragment_packet_nil m seq : fragment_packet [] m seq = Ok [].
Proof.
  unfold fragment_packet. assert (1 <= payload_cap m) as Hc by (unfold payload_cap; lia).
  destruct (div_ceil_spec 0 (payload_cap m) ltac:(done) Hc) as [[H1 H3] H2]. change (zlen (@nil Z)) with 0.
  assert (div_ceil 0 (payload_cap m) = 0) as -> by nia. done.
Qed.

(** So several frames come from the reliability layer. *)
Lemma fragment_for_egress_frames {W} (clock : W -> Z) g ws ctx packet m ls ls' wires :
  rel_ok (rf_state (reliability_feature ls)) -> wf_bytes packet -> zlen packet + 2000 <= usize_max ->
  1 <= send_cap (LpReliability.set_mtu m (rf_state (reliability_feature ls))) ->
  fragment_for_egress clock g ws ctx packet m ls = Some (wires, ls') -> 1 < zlen wires ->
  exists rf, ReliabilityFeature.frame_fragments (clock (ws 0%nat)) packet m (reliability_feature ls) = Some (wires, rf) /\
    ls' = with_rf ls rf.
Proof.
  intros Hok Hp Hz Hcap. unfold fragment_for_egress.
  destruct (ReliabilityFeature.frame_fragments _ packet m _) as [[ws0 rf]|] eqn:Ef; [|done].
  destruct (bool_decide_reflect (ws0 = [])) as [->|Hne]; cbn [negb].
  - rewrite (frame_fragments_empty _ packet m _ rf Hok Hp Hz Hcap Ef). destruct (reserve_fragment_seqs _ _ _) as [q ls1].
    rewrite fragment_packet_nil. intros [= <- _]. rewrite zlen_nil. lia.
  - intros [= -> <-] _. by exists rf.
Qed.

Lemma reached_config mtu cfg ops o s : wf_config cfg -> Forall wf_op ops ->
  run ops (LpReliability.from_config mtu cfg) = Some (o, s) -> rel_ok s /\ config s = cfg.
Proof.
  intros Hcfg Hops Hr. destruct o as [[vs ws] n].
  destruct (run_spec ops _ vs ws n s (from_config_ok mtu cfg Hcfg) Hops Hr) as (Hok & evs & He & _).
  split; [done|]. exact (ef_config _ _ _ He).
Qed.

(** ** Properties *)

(** A link answers every reliable frame, and the answer ends its
    retransmission.  When a frame with TxSequence [k] arrives, whatever its
    payload and even if it is a duplicate, the turn of [recv] that takes it sends
    first an Ack frame that names [k], and leaves no acknowledgement pending; and
    once the sender receives that frame, whatever it does next, it never sends
    [k] again. *)
Theorem reliable_frame_acknowledged {W} (g : @Globals W) (t : Transport) (now now' now'' mtu mtu' k : Z) (w : InboundLpFrame)
    (cfg cfg' : ReliabilityConfig) (ops ops' later : list RelOp) (o o' : list bool * list bytes * Z) (s : LpReliability)
    (ls ls' : LpLinkService) (dup : bool) (out : list bytes) (calls : SinkCalls) :
  open_transport t -> wf_config cfg -> Forall wf_op ops -> wf_bytes (in_wire w) ->
  run ops (LpReliability.from_config mtu cfg) = Some (o, rf_state (reliability_feature ls)) ->
  zlen (pending_acks (rf_state (reliability_feature ls))) <= u32_max -> (extract_acks (in_wire w)).1 = Some k ->
  recv_frame g now now' now'' t w ls = (dup, out, calls, ls') ->
  pending_acks (rf_state (reliability_feature ls')) = [] /\
  exists a rest p, out = a :: rest /\ LpPacket.decode a = Ok p /\ LpPacket.is_ack_only p = true /\ k ∈ acks p /\
    (wf_config cfg' -> Forall wf_op ops' -> run ops' (LpReliability.from_config mtu' cfg') = Some (o', s) -> k < next_tx_seq s ->
     forall t1 t2 vs ws n s', Forall wf_op later ->
       run later (LpReliability.on_receive t1 t2 a s).2 = Some (vs, ws, n, s') -> sends k ws = 0).
Proof.
  intros Ht Hcfg Hops Hw Hr Hz Hk Hv. pose proof (reach_ok mtu cfg ops o _ Hcfg Hops Hr) as Hok.
  apply recv_frame_state in Hv; [|done]. set (s0 := rf_state (reliability_feature ls)) in *.
  pose proof (on_receive_pending now now' (in_wire w) s0) as Hp. rewrite Hk in Hp. cbn [option_list] in Hp.
  destruct (LpReliability.on_receive now now' (in_wire w) s0) as [d s1] eqn:E1. cbn [snd] in Hp.
  destruct (on_receive_spec now now' (in_wire w) s0 d s1 Hok Hw E1) as (Hok1 & _).
  unfold LpReliability.flush_acks in Hv. destruct (pending_acks s1) as [|x l] eqn:Hpl; [by destruct (pending_acks s0)|].
  rewrite Hp in Hv. destruct (LpReliability.take_fast_retransmits now'' _) as [repairs s3] eqn:E3.
  destruct Hv as (-> & -> & Hs3). pose proof (ro_acks _ Hok1) as Ha. rewrite Hpl, Hp in Ha.
  assert (26 * zlen (pending_acks s0 ++ [k]) + 800 <= usize_max) as Hsz
    by (rewrite zlen_app; change (zlen [k]) with 1; unfold_bounds; lia).
  assert (pending_acks s0 ++ [k] <> []) as Hne by by destruct (pending_acks s0).
  destruct (acks_decodes _ Hne Ha ltac:(lia)) as (p & Hd & Hpa & _ & _ & Honly).
  destruct (acks_fast _ Hne Ha Hsz) as [Hwa Hx]. split.
  - apply fast_loop_effect in E3 as (_ & _ & _ & _ & ((H4 & _) & _)). by rewrite Hs3, H4.
  - exists (encode_lp_acks (pending_acks s0 ++ [k])), repairs, p.
    assert (k ∈ pending_acks s0 ++ [k]) as Hin by (apply elem_of_app; right; by apply list_elem_of_singleton).
    split_conj; [done|done|done|by rewrite Hpa|].
    intros Hcfg' Hops' Hr' Hlt t1 t2 vs ws n s' Hl Hrun.
    eapply (acked_quiet t1 t2 _ s); [exact (reach_ok _ _ _ _ _ Hcfg' Hops' Hr')|exact Hwa|by rewrite Hx|done|exact Hl|exact Hrun].
Qed.

(** A frame is marked only for standing congestion.  Over any sequence of
    observed queue depths and times, from a fresh feature, a frame is marked only
    if the depth has been at or above the threshold at every observation since
    one that lies at least the marking interval back, with no mark in between:
    so marks are an interval apart, and a short burst is not marked. *)
Theorem marks_standing_congestion {W} (c : @CongestionMarkingFeature W) (obs : list (Z * Z)) (depth now : Z) :
  above_threshold_since c = None ->
  let '(marks, c') := decisions obs c in
  (should_mark_now depth now c').1 = true ->
  def_cong_threshold c <= depth /\
  exists before d0 t0 after ms m0 ms', obs = before ++ (d0, t0) :: after /\ marks = ms ++ m0 :: ms' /\
    length ms = length before /\ base_cong_interval c <= sat_sub now t0 /\
    Forall (fun o => def_cong_threshold c <= o.1) ((d0, t0) :: after) /\ Forall (fun m => m = false) ms'.
Proof.
  intros Hn. pose proof (decisions_counting obs [] [] c eq_refl) as H. rewrite Hn in H. specialize (H I).
  destruct (decisions obs c) as [marks c']. destruct H as (Hc & Hth & Hin). unfold should_mark_now. rewrite Hth, Hin.
  destruct (Z.ltb_spec depth (def_cong_threshold c)); [done|].
  destruct (above_threshold_since c') as [t0|]; [|done]. destruct (Z.leb_spec (base_cong_interval c) (sat_sub now t0)); [|done].
  intros _. split; [done|]. destruct Hc as (before & d0 & after & ms & m0 & ms' & H1 & H2 & H3 & H4 & H5 & H6).
  exists before, d0, t0, after, ms, m0, ms'. split_conj; try done. by apply Forall_cons.
Qed.

(** What marking does to a frame.  The mark is put in front of the other
    headers, so the marked frame is accepted by the decoder, with its mark and
    its other fields, exactly when every header it already had has a type above
    that of the mark; a frame with a fragment number, a PIT token or an incoming
    face is rejected once it is marked. *)
Theorem congestion_mark_order (raw : bytes) (p : LpPacket) :
  wf_bytes raw -> zlen raw + 20 <= usize_max -> LpPacket.decode raw = Ok p ->
  exists hs fr w, p = lp_of hs fr /\ splice_congestion_mark raw CONGESTION_MARK_VALUE = Some w /\
    (Forall (fun e => lp_type.LP_CONGESTION_MARK < e.1) hs ->
       LpPacket.decode w = Ok (lp_of (mark_elem 1 :: hs) fr) /\ congestion_mark (lp_of (mark_elem 1 :: hs) fr) = Some 1) /\
    (~ Forall (fun e => lp_type.LP_CONGESTION_MARK < e.1) hs -> exists e, LpPacket.decode w = Err e).
Proof.
  intros Hwf Hz Hd. apply lp_decode_shape in Hd as (hs & fr & rest & Hs & ->); [|done|lia].
  pose proof (lp_shape_wf _ _ _ _ Hwf Hs) as Hes. destruct Hs as [Hraw Hwe Hso Hok Hpay].
  destruct (mark_elem_ok 1 ltac:(unfold_bounds; lia)) as [Hmw Hmo].
  assert (splice_congestion_mark raw CONGESTION_MARK_VALUE =
    Some (tlv_bytes lp_type.LP_PACKET (elems_wire ((mark_elem 1 :: hs) ++ frag_elems fr)))) as Hsp.
  { rewrite Hraw in Hz |- *. by rewrite splice_mark_wire. }
  assert (zlen (tlv_bytes lp_type.LP_PACKET (elems_wire ((mark_elem 1 :: hs) ++ frag_elems fr))) <= usize_max) as Hl.
  { rewrite Hraw, zlen_app, zlen_tlv_bytes in Hz. rewrite zlen_tlv_bytes. cbn [app]. rewrite elems_wire_cons, zlen_app.
    change (zlen (tlv_bytes (mark_elem 1).1 (mark_elem 1).2)) with 5. unfold tlv_size in *.
    pose proof (zlen_nonneg rest). pose proof (varu64_size_range (5 + zlen (elems_wire (hs ++ frag_elems fr)))).
    pose proof (varu64_size_range (zlen (elems_wire (hs ++ frag_elems fr)))). lia. }
  eexists hs, fr, _. split_conj; [done|exact Hsp| |].
  - intros Hall. split; [|done]. apply lp_wire_decodes; [by apply Forall_cons| | |by apply Forall_cons| |done].
    + intros v ->. apply Forall_app in Hes as [_ Hfe]. by apply Forall_inv in Hfe as [_ ?].
    + cbn [map]. apply SSorted_cons; [done|]. apply Forall_map. eapply Forall_impl; [exact Hall|]. intros e He. by left.
    + destruct Hpay as [?|Hp]; [by left|by right].
  - intros Hno. destruct (LpPacket.decode _) as [q|e] eqn:Hd; [|by exists e]. exfalso. apply Hno.
    assert (wf_bytes (elems_wire ((mark_elem 1 :: hs) ++ frag_elems fr))) as Hwx by (apply wf_elems_wire; by apply Forall_cons).
    apply lp_decode_shape in Hd as (hs' & fr' & rest' & [Hw' Hwe' Hso' Hok' _] & _); [| |done].
    2:{ by apply wf_tlv_bytes. }
    rewrite <- (app_nil_r (tlv_bytes _ _)) in Hw'. rewrite zlen_tlv_bytes in Hl.
    pose proof (tlv_size_bounds lp_type.LP_PACKET _ (zlen_nonneg (elems_wire ((mark_elem 1 :: hs) ++ frag_elems fr)))) as Hb.
    assert (zlen (elems_wire (hs' ++ frag_elems fr')) <= u64_max) as Hl'.
    { apply (f_equal zlen) in Hw'. rewrite !zlen_app, !zlen_tlv_bytes in Hw'. change (zlen (@nil Z)) with 0 in Hw'.
      pose proof (tlv_size_bounds lp_type.LP_PACKET _ (zlen_nonneg (elems_wire (hs' ++ frag_elems fr')))).
      pose proof (zlen_nonneg rest'). unfold_bounds. lia. }
    apply tlv_bytes_inj_app in Hw' as (_ & Hw' & <-); [|done|done|unfold_bounds; lia|done].
    apply elems_wire_inj in Hw'; [|by apply Forall_cons| |unfold_bounds; lia].
    + apply headers_unique in Hw' as [<- _]; [|by apply Forall_cons|done]. apply StronglySorted_inv in Hso' as [_ Hlt].
      change (Forall (lp_lt lp_type.LP_CONGESTION_MARK) (map fst hs)) in Hlt. rewrite Forall_map in Hlt. eapply Forall_impl; [exact Hlt|]. intros e [He|[_ He]]; [exact He|done].
    + apply Forall_app. split; [done|]. destruct fr' as [v|]; [|constructor]. apply Forall_singleton. split; [by vm_compute|].
      rewrite Hw', elems_wire_app in Hwx. apply wf_bytes_app in Hwx as [_ Hwx]. cbn [frag_elems] in Hwx.
      rewrite elems_wire_one in Hwx. unfold tlv_bytes in Hwx. rewrite !wf_bytes_app in Hwx. tauto.
Qed.

(** C24: lost fragments are sent again, and repair the packet.  Let
    [fragment_for_egress] cut a packet into 2 to 400 frames, on an MTU that leaves
    room for a payload, at a link that allows retries, has no more frames in flight
    than it may keep, and sends nothing else meanwhile.  Let any frames come in, and
    the timers for fast and ordinary retransmission fire any number of times; then
    let the timer fire once the timeout has passed since the packet was sent, when no
    more frames are unacknowledged than one turn may send.  Then each of the frames
    has been acknowledged by a frame that came in, or has been sent again, byte for
    byte.  So if the peer acknowledges only what reached it, and what is sent again
    reaches it, whichever of the first transmissions were lost, in whatever order,
    with repetitions, between frames of other endpoints and sweeps, under the
    conditions of reassembly (no such group pending before, room for a group, no
    sweep after the timeout): the peer's decode stage handles every frame, lets
    nothing but the packet out for this sender, and lets the packet out. *)
Theorem lost_fragments_repaired {W} (clock : W -> Z) (g : @Globals W) (ws : nat -> W) (ctx : EgressCtx)
    (iter : group_map -> list ((Z * Z) * Reassembly.Pending)) (f ep mtu m now : Z) (cfg : ReliabilityConfig) (ops ops' : list RelOp)
    (o : list bool * list bytes * Z) (vs : list bool) (resent : list bytes) (acked : Z)
    (packet : bytes) (wires : list bytes) (ls ls' : LpLinkService) (s1 : LpReliability) :
  let s := rf_state (reliability_feature ls) in
  let again := resent ++ (LpReliability.check_retransmit now s1).1 in
  let answered i := Exists (acknowledges (next_tx_seq s + Z.of_nat i)) ops' in
  MapIter iter -> wf_config cfg -> 1 <= max_retries cfg -> Forall wf_op ops -> run ops (LpReliability.from_config mtu cfg) = Some (o, s) ->
  wf_bytes packet -> zlen packet + 2000 <= usize_max -> 1 <= send_cap (LpReliability.set_mtu m s) ->
  fragment_for_egress clock g ws ctx packet m ls = Some (wires, ls') -> 1 < zlen wires <= MAX_FRAGMENTS ->
  zlen (unacked s) + zlen wires <= max_unacked cfg ->
  Forall wf_op ops' -> Forall no_send ops' -> run ops' (rf_state (reliability_feature ls')) = Some (vs, resent, acked, s1) ->
  clock (ws 0%nat) + rto_us (rtt s1) * 1000 <= now -> zlen (unacked s1) <= max_retx_per_tick cfg ->
  (forall i, (i < length wires)%nat -> answered i \/ wires !!! i ∈ again) /\
  (forall l t0 st, wf_state st -> pending (buffer_of f st) !! (ep, next_seq s) = None ->
     room_for iter f ep wires l st -> Forall (in_time f ep (length wires) t0 st) l ->
     (forall i, (i < length wires)%nat -> answered i \/ wires !!! i ∈ again -> i ∈ my_indices l) ->
     exists cs st', receive_all iter f ep wires l st = Ok (cs, st') /\
       (forall b, TlvDecodeStage.Complete b ∈ mine l cs -> b = packet) /\ TlvDecodeStage.Complete packet ∈ mine l cs).
Proof.
  intros s again answered Hiter Hcfg Hm Hops Hr Hp Hz Hcap Hfe Hn Hkeep Hops' Hns Hr' Hnow Htick.
  destruct (reached_config mtu cfg ops o s Hcfg Hops Hr) as [Hok Hc].
  destruct (fragment_for_egress_frames clock g ws ctx packet m ls ls' wires Hok Hp Hz Hcap Hfe) as (rf & Ef & ->); [lia|].
  cbn [reliability_feature with_rf] in Hr'.
  destruct (frame_fragments_once _ packet m _ wires rf Hok Hp Hz Hcap Ef) as (Hok' & Hc' & Honce); [by fold s; rewrite Hc|].
  fold s in Hc', Honce. rewrite Hc in Hc'.
  assert (forall i, (i < length wires)%nat -> answered i \/ wires !!! i ∈ again) as Hsent.
  { intros i Hi. unfold again, answered. rewrite elem_of_app.
    destruct (run_spec ops' _ vs resent acked s1 Hok' Hops' Hr') as (Hok1 & evs & He & _).
    pose proof (ef_config _ _ _ He) as Hc1. rewrite Hc' in Hc1.
    destruct (run_once _ _ _ ops' _ vs resent acked s1 Hok' Hops' Hns ltac:(by rewrite Hc') (Honce i Hi) Hr') as [?|[?|Hs1]]; [tauto|tauto|].
    destruct (LpReliability.check_retransmit now s1) as [retx s2] eqn:Ect.
    destruct (check_retransmit_once now _ _ _ s1 retx s2 (ro_tracked _ Hok1) ltac:(by rewrite Hc1) Hs1 Ect) as [?|[_ Hx]]; [tauto|].
    specialize (Hx Hnow). rewrite Hc1 in Hx. lia. }
  split; [exact Hsent|]. intros l t0 st Hst Hk Hroom Hin Hgot.
  destruct (frame_fragments_readable _ packet m _ wires rf Hok Hp Hz Hcap Ef ltac:(lia)) as (fs & Hl & <- & Hread).
  destruct (readable_delivered iter f ep (next_seq s) fs wires l t0 st) as (cs & st' & H1 & H2 & H3 & _); [try done; apply Hok..|].
  exists cs, st'. split_conj; [done|done|]. apply H3. intros i Hi. apply Hgot; [done|]. by apply Hsent.
Qed.

(** The size check of [send] is four bytes short.  On a link that stages no
    header of its own, a bare packet of 253 to 65000 bytes that [send] judges to
    fit the MTU goes out whole in one frame, which decodes to it and is eight
    bytes longer: with a packet of 7, 6, 5 or 4 bytes less than the MTU, that
    frame exceeds the MTU. *)
Theorem whole_packet_overrun {W} (clock : W -> Z) (g : @Globals W) (ws : nat -> W) (t : Transport) (m : Z) (packet : bytes)
    (src : option Z) (ls : LpLinkService) :
  inert g ls -> open_transport t -> send_mtu t = Some m -> wf_bytes packet -> is_lp_packet packet = false ->
  253 <= zlen packet <= 65000 -> zlen packet + 4 <= m ->
  exists w ls', send clock g ws t packet src ls = Some ([w], Ok tt, ls') /\
    LpPacket.decode w = Ok (lp_of [] (Some packet)) /\ zlen w = zlen packet + 8 /\ (m < zlen packet + 8 -> m < zlen w).
Proof.
  intros Hi Ht Hm Hwf Hlp Hz Hfit. unfold send. rewrite Hlp, Hm.
  destruct (Z.ltb_spec m (zlen packet + 4)); [lia|].
  destruct (run_egress_inert clock g (ws 0%nat) (mkEgress (t_id t) src) (encode_lp_packet packet) ls Hi) as (ls' & -> & _).
  rewrite send_each_open by done. cbn [app].
  assert (encode_lp_packet packet = tlv_bytes lp_type.LP_PACKET (elems_wire ([] ++ frag_elems (Some packet)))) as Hw.
  { unfold encode_lp_packet. rewrite Hlp. apply (lp_nested_wire _ [(lp_type.LP_FRAGMENT, packet)]).
    - apply (write_tlv_elems TlvWriter.new [] lp_type.LP_FRAGMENT packet); [done|done|unfold_bounds; lia].
    - rewrite elems_wire_one, zlen_tlv_bytes. pose proof (tlv_size_bounds lp_type.LP_FRAGMENT (zlen packet) (zlen_nonneg _)).
      cbn [fst snd]. unfold_bounds. lia. }
  assert (zlen (encode_lp_packet packet) = zlen packet + 8) as Hl.
  { rewrite Hw. cbn [app frag_elems]. rewrite elems_wire_one, !zlen_tlv_bytes. cbn [fst snd]. unfold tlv_size.
    change (varu64_size lp_type.LP_PACKET) with 1. change (varu64_size lp_type.LP_FRAGMENT) with 1.
    assert (forall v, 253 <= v < 65536 -> varu64_size v = 3) as Hv.
    { intros v Hv. unfold varu64_size. destruct (Z.ltb_spec v 253); [lia|]. by destruct (Z.ltb_spec v 0x10000); [|lia]. }
    rewrite (Hv (zlen packet)) by lia. rewrite Hv by lia. lia. }
  exists (encode_lp_packet packet), ls'. split_conj; [done| |done|by rewrite Hl].
  rewrite Hw. apply lp_wire_decodes; [constructor|by intros v [= <-]|constructor|constructor|by left|].
  rewrite <- Hw, Hl. unfold_bounds. lia.
Qed.

(** ** Examples *)

Definition open_link (m : option Z) : Transport := mkTransport 7 m (fun _ _ => None).
Definition no_globals : @Globals unit := mkGlobals None false None false.
Definition fresh_link : @LpLinkService unit := LpLinkService_new (fun _ => 0) tt.

Lemma fresh_link_run :
  run [] (LpReliability.from_config DEFAULT_RELIABILITY_MTU ReliabilityConfig.default_) =
    Some ([], [], 0, rf_state (reliability_feature fresh_link)).
Proof. reflexivity. Qed.

Definition reliable_wire : bytes := encode_lp_reliable [6; 0] 0 None [].

Definition one_send : list RelOp := [OpSend 0 [6; 0]].

Lemma one_send_wf : Forall wf_op one_send.
Proof. apply Forall_singleton. split; [by apply wf_bytes_check|vm_compute; discriminate]. Qed.

Lemma reliable_frame_acknowledged_witness :
  let '(dup, out, calls, ls') := recv_frame no_globals 0 0 0 (open_link None) (InboundLpFrame_with_meta reliable_wire None None) fresh_link in
  match run one_send (LpReliability.from_config 1400 ReliabilityConfig.default_) with
  | Some (_, s) => exists a rest, out = a :: rest /\
      match run [OpTick 9000000000] (LpReliability.on_receive 5 5 a s).2 with
      | Some (_, ws, _, _) => sends 0 ws = 0
      | None => False
      end
  | None => False
  end.
Proof.
  destruct (recv_frame _ _ _ _ _ _ _) as [[[dup out] calls] ls'] eqn:Er.
  destruct (run one_send _) as [[o' s]|] eqn:Es; [|vm_compute in Es; discriminate Es].
  destruct (reliable_frame_acknowledged no_globals (open_link None) 0 0 0 DEFAULT_RELIABILITY_MTU 1400 0 (InboundLpFrame_with_meta reliable_wire None None)
    ReliabilityConfig.default_ ReliabilityConfig.default_ [] one_send [OpTick 9000000000] ([], [], 0) o' s fresh_link ls' dup out calls)
    as (_ & a & rest & p & Hout & _ & _ & _ & Hq);
    [intros ? ?; reflexivity|apply default_config_wf|constructor|by apply wf_bytes_check|apply fresh_link_run
    |vm_compute; discriminate|vm_compute; reflexivity|exact Er|].
  exists a, rest. split; [exact Hout|].
  destruct (run [OpTick 9000000000] _) as [[[[vs ws] n] s']|] eqn:El.
  - eapply Hq; [apply default_config_wf|apply one_send_wf|exact Es| |repeat constructor|exact El].
    vm_compute in Es. injection Es as _ <-. vm_compute. reflexivity.
  - unfold run, step in El. destruct (LpReliability.check_retransmit _ _). discriminate El.
Defined.

Lemma marks_standing_congestion_witness :
  let c := set_base_cong_interval 10 (set_def_cong_threshold 5 (@CongestionMarking_new unit)) in
  let '(marks, c') := decisions [(9, 100); (7, 105)] c in
  (should_mark_now 6 111 c').1 = true /\ def_cong_threshold c <= 6.
Proof.
  pose proof (marks_standing_congestion (set_base_cong_interval 10 (set_def_cong_threshold 5 (@CongestionMarking_new unit)))
    [(9, 100); (7, 105)] 6 111 eq_refl) as H.
  cbn [decisions] in H |- *. split; [vm_compute; reflexivity|]. apply H. vm_compute. reflexivity.
Defined.

Lemma congestion_mark_order_witness :
  exists w, splice_congestion_mark (encode_lp_with_headers [6; 0] (mkHeaders None None (Some 3) None None)) CONGESTION_MARK_VALUE = Some w /\
    exists e, LpPacket.decode w = Err e.
Proof.
  destruct (congestion_mark_order (encode_lp_with_headers [6; 0] (mkHeaders None None (Some 3) None None))
    (headers_packet [6; 0] (mkHeaders None None (Some 3) None None))) as (hs & fr & w & _ & Hs & Hok & Hbad);
    [by apply wf_bytes_check|vm_compute; discriminate|vm_compute; reflexivity|].
  exists w. split; [exact Hs|]. destruct (decide (Forall (fun e => lp_type.LP_CONGESTION_MARK < e.1) hs)) as [H|H]; [|exact (Hbad H)].
  destruct (Hok H) as [Hd _]. vm_compute in Hs. injection Hs as <-.
  match type of Hd with ?d = _ => assert (match d with Ok _ => False | Err _ => True end) as Hn by (vm_compute; exact I) end.
  rewrite Hd in Hn. destruct Hn.
Defined.

Definition two_chunks : bytes := [6; 2; 4; 4].
Definition two_wires : list bytes := default [] (fst <$> fragment_for_egress (fun _ => 0) no_globals (fun _ => tt) (mkEgress 7 None) two_chunks 52 fresh_link).

(** The first frame arrives and is acknowledged, the second is lost; the timer
    fires after the timeout. *)
Definition first_acked : list RelOp := [OpReceive 10 11 (encode_lp_acks [0])].
Definition two_link : @LpLinkService unit :=
  match fragment_for_egress (fun _ => 0) no_globals (fun _ => tt) (mkEgress 7 None) two_chunks 52 fresh_link with
  | Some (_, ls) => ls
  | None => fresh_link
  end.
Definition repaired_frames : list Frame := [Mine 5 0%nat; Sweep 6; Mine 1000000010 1%nat].

Lemma lost_fragments_repaired_witness :
  match run first_acked (rf_state (reliability_feature two_link)) with
  | Some (_, resent, _, s1) =>
      resent ++ (LpReliability.check_retransmit 1000000000 s1).1 = [two_wires !!! 1%nat] /\
      exists cs st', receive_all (fun m => map_to_list m) 7 3 two_wires repaired_frames empty_state = Ok (cs, st') /\
        TlvDecodeStage.Complete two_chunks ∈ mine repaired_frames cs
  | None => False
  end.
Proof.
  destruct (run first_acked (rf_state (reliability_feature two_link))) as [[[[vs resent] acked] s1]|] eqn:Er;
    [|vm_compute in Er; discriminate Er].
  assert (resent ++ (LpReliability.check_retransmit 1000000000 s1).1 = [two_wires !!! 1%nat]) as Hag
    by (vm_compute in Er; injection Er as _ <- _ <-; vm_compute; reflexivity).
  split; [exact Hag|].
  destruct (lost_fragments_repaired (fun _ => 0) no_globals (fun _ => tt) (mkEgress 7 None) (fun m => map_to_list m) 7 3
    DEFAULT_RELIABILITY_MTU 52 1000000000 ReliabilityConfig.default_ [] first_acked ([], [], 0) vs resent acked two_chunks two_wires
    fresh_link two_link s1) as [_ H].
  - exact map_to_list_iter.
  - apply default_config_wf.
  - vm_compute. discriminate.
  - constructor.
  - apply fresh_link_run.
  - by apply wf_bytes_check.
  - vm_compute. discriminate.
  - vm_compute. discriminate.
  - vm_compute. reflexivity.
  - split; vm_compute; congruence.
  - vm_compute. discriminate.
  - apply Forall_cons_2; [by apply wf_bytes_check|apply Forall_nil_2].
  - apply Forall_cons_2; [exact I|apply Forall_nil_2].
  - exact Er.
  - vm_compute in Er. injection Er as _ _ _ <-. vm_compute. discriminate.
  - vm_compute in Er. injection Er as _ _ _ <-. vm_compute. discriminate.
  - destruct (H repaired_frames 0 empty_state) as (cs & st' & H1 & _ & H2).
    + apply map_Forall_empty.
    + vm_compute. reflexivity.
    + repeat (eapply room_for_step; [vm_compute; reflexivity..|]). apply room_for_nil.
    + apply Forall_cons_2; [split; vm_compute; [lia|discriminate]|]. apply Forall_cons_2; [split; vm_compute; [discriminate|reflexivity]|].
      apply Forall_cons_2; [split; vm_compute; [lia|discriminate]|apply Forall_nil_2].
    + intros i Hi _. change (i < 2)%nat in Hi. destruct i as [|[|i]]; [left|right; left|lia].
    + exists cs, st'. split; [exact H1|exact H2].
Defined.

Lemma whole_packet_overrun_witness :
  exists w ls', send (fun _ => 0) no_globals (fun _ => tt) (open_link (Some 304)) (6 :: replicate 299 0) None fresh_link
      = Some ([w], Ok tt, ls') /\ 304 < zlen w.
Proof.
  destruct (whole_packet_overrun (fun _ => 0) no_globals (fun _ => tt) (open_link (Some 304)) 304 (6 :: replicate 299 0) None fresh_link)
    as (w & ls' & H1 & _ & _ & H2);
    [split; try split; reflexivity|intros ? ?; reflexivity|reflexivity|by apply wf_bytes_check|reflexivity
    |split; vm_compute; discriminate|vm_compute; discriminate|].
  exists w, ls'. split; [exact H1|]. apply H2. vm_compute. reflexivity.
Defined.

(** Two packets of one link under the same base Sequence: the first goes through
    the reliability layer; then an acknowledgement is pending, which fills the
    MTU of 60, and the second is cut by the fallback. *)
Definition long_packet : bytes := 6 :: replicate 12 0.
Definition first_sequence (o : option (list bytes * @LpLinkService unit)) : option Z :=
  match o with Some (w :: _, _) => fh_sequence <$> extract_fragment w | _ => None end.
Definition send_long (ls : @LpLinkService unit) : option (list bytes * LpLinkService) :=
  fragment_for_egress (fun _ => 0) no_globals (fun _ => tt) (mkEgress 7 None) long_packet 60 ls.

Lemma sequence_counters_collide :
  match send_long fresh_link with
  | Some (wires, ls) =>
      let ls' := with_rf ls (ReliabilityFeature.note_receive 0 0 reliable_wire (reliability_feature ls)).2 in
      first_sequence (send_long fresh_link) = Some 0 /\ first_sequence (send_long ls') = Some 0
  | None => False
  end.
Proof. vm_compute. by split. Qed.
