(* ===== verification/LruCs.v ===== *)
(** * The content store ([crates/forwarding/ndn-store/src]: [content_store.rs],
    [lru_cs.rs], [sharded_cs.rs])

    The trait [ContentStore] is a class; its implementations here are the
    in-memory LRU store, the sharded store over any other, and the null store.

    [LruCs] is built on the [LruCache] of the [lru] crate, which is the class
    [LruCache]: its operations, and in [LruCacheLaws] what its documentation says
    of them in terms of the order of recency its [iter] gives.  SHA-256 is a
    parameter.  The clock the store reads is an argument of [get].  The byte
    counts are sums of the lengths of live buffers, so their additions do not
    overflow; the entry count is a wrapping atomic, as in the code. *)

From S2P Require Import Prelude Tlv Name NameUri FwdCore Trie Packet.
#[local] Open Scope Z_scope.

(** ** [content_store.rs] *)

Record CsEntry : Type := mkCsEntry { data : bytes; stale_at : Z; cs_name : Name }.
#[export] Instance CsEntry_eq_dec : EqDecision CsEntry.
Proof. solve_decision. Defined.

Module CsEntry.
Definition is_fresh (self : CsEntry) (now_ns : Z) : bool := fresh_until now_ns (stale_at self).
End CsEntry.

Record CsMeta : Type := mkCsMeta { meta_stale_at : Z }.
Inductive InsertResult : Type := Inserted | Replaced | Skipped.
Record CsCapacity : Type := mkCsCapacity { max_bytes : Z }.
Record CsStats : Type := mkCsStats { s_hits : Z; s_misses : Z; s_inserts : Z; s_evictions : Z }.
Definition CsStats_default : CsStats := mkCsStats 0 0 0 0.

(** The trait.  [get] takes the time the implementation reads. *)
Class ContentStore (S : Type) : Type := {
  cs_get : S -> Z -> Interest -> option CsEntry * S;
  cs_insert : S -> bytes -> Name -> CsMeta -> InsertResult * S;
  cs_evict : S -> Name -> bool * S;
  cs_capacity : S -> CsCapacity;
  cs_len : S -> Z;
  cs_current_bytes : S -> Z;
  cs_set_capacity : S -> Z -> S;
  cs_admit_enabled : S -> bool;
  cs_serve_enabled : S -> bool;
  cs_set_admit : S -> bool -> S;
  cs_set_serve : S -> bool -> S;
  cs_evict_prefix : S -> Name -> option Z -> Z * S;
  cs_stats : S -> CsStats
}.

Definition DefaultAdmissionPolicy_should_admit (d : Data) : bool :=
  match Data.meta_info d with
  | Some m => match freshness_period m with Some p => negb (p =? 0) | None => false end
  | None => false
  end.
Definition AdmitAllPolicy_should_admit (d : Data) : bool := true.

(** The methods [NullCs] does not define are the trait's defaults. *)
Inductive NullCs : Type := mkNullCs.
#[export] Instance NullCs_store : ContentStore NullCs := {|
  cs_get self _ _ := (None, self);
  cs_insert self _ _ _ := (Skipped, self);
  cs_evict self _ := (false, self);
  cs_capacity _ := mkCsCapacity 0;
  cs_len _ := 0;
  cs_current_bytes _ := 0;
  cs_set_capacity self _ := self;
  cs_admit_enabled _ := true;
  cs_serve_enabled _ := true;
  cs_set_admit self _ := self;
  cs_set_serve self _ := self;
  cs_evict_prefix self _ _ := (0, self);
  cs_stats _ := CsStats_default
|}.

(** ** The [lru] crate *)

Class LruCache (C : Type) : Type := {
  cache_unbounded : C;
  cache_get : C -> Name -> option CsEntry * C;
  cache_peek : C -> Name -> option CsEntry;
  cache_put : C -> Name -> CsEntry -> C;
  cache_pop : C -> Name -> option CsEntry * C;
  cache_pop_lru : C -> option (Name * CsEntry) * C;
  (** [iter]: the entries, most recently used first. *)
  cache_iter : C -> list (Name * CsEntry)
}.

Fixpoint assoc (l : list (Name * CsEntry)) (n : Name) : option CsEntry :=
  match l with
  | [] => None
  | (m, e) :: l => if decide (m = n) then Some e else assoc l n
  end.
Definition without (l : list (Name * CsEntry)) (n : Name) : list (Name * CsEntry) :=
  filter (fun p => p.1 <> n) l.

(** What the documentation of the crate says: [get] promotes, [peek] does not,
    [put] adds or replaces and promotes, [pop_lru] removes the entry used least
    recently. *)
Class LruCacheLaws (C : Type) `{LruCache C} : Prop := {
  law_unbounded : cache_iter (cache_unbounded (C := C)) = [];
  law_get (c : C) n : (cache_get c n).1 = assoc (cache_iter c) n /\
    cache_iter (cache_get c n).2 =
      match assoc (cache_iter c) n with
      | Some e => (n, e) :: without (cache_iter c) n
      | None => cache_iter c
      end;
  law_peek (c : C) n : cache_peek c n = assoc (cache_iter c) n;
  law_put (c : C) n e : cache_iter (cache_put c n e) = (n, e) :: without (cache_iter c) n;
  law_pop (c : C) n : (cache_pop c n).1 = assoc (cache_iter c) n /\
    cache_iter (cache_pop c n).2 = without (cache_iter c) n;
  law_pop_lru (c : C) : (cache_pop_lru c).1 = last (cache_iter c) /\
    cache_iter (cache_pop_lru c).2 = take (length (cache_iter c) - 1) (cache_iter c)
}.

(** ** [lru_cs.rs] *)

Record LruInner (C : Type) : Type := mkLruInner {
  cache : C;
  prefix_index : TrieNode Name;
  current_bytes : Z
}.
Arguments mkLruInner {C}.
Arguments cache {C}.
Arguments prefix_index {C}.
Arguments current_bytes {C}.

Record LruCs (C : Type) : Type := mkLruCs {
  inner : LruInner C;
  capacity_bytes : Z;
  entry_count : Z;
  admit_on : bool; (* [admit] *)
  serve : bool;
  hits : Z;
  misses : Z;
  inserts : Z;
  evictions : Z
}.
Arguments mkLruCs {C}.
Arguments inner {C}.
Arguments capacity_bytes {C}.
Arguments entry_count {C}.
Arguments admit_on {C}.
Arguments serve {C}.
Arguments hits {C}.
Arguments misses {C}.
Arguments inserts {C}.
Arguments evictions {C}.

Module LruCs.
Section lru.
Context {C : Type} `{LruCache C}.
Context (sha256 : bytes -> bytes).

Definition new (capacity_bytes : Z) : LruCs C :=
  mkLruCs (mkLruInner cache_unbounded NameTrie.TrieNode_new 0) capacity_bytes 0 true true 0 0 0 0.

Definition is_empty (self : LruCs C) : bool := entry_count self =? 0.

(** Field assignments. *)
Definition set_inner (self : LruCs C) (i : LruInner C) : LruCs C :=
  mkLruCs i (capacity_bytes self) (entry_count self) (admit_on self) (serve self)
    (hits self) (misses self) (inserts self) (evictions self).
Definition set_cache (self : LruCs C) (c : C) : LruCs C :=
  set_inner self (mkLruInner c (prefix_index (inner self)) (current_bytes (inner self))).
Definition set_bytes (self : LruCs C) (b : Z) : LruCs C :=
  set_inner self (mkLruInner (cache (inner self)) (prefix_index (inner self)) b).
Definition set_index (self : LruCs C) (t : TrieNode Name) : LruCs C :=
  set_inner self (mkLruInner (cache (inner self)) t (current_bytes (inner self))).
Definition set_count (self : LruCs C) (n : Z) : LruCs C :=
  mkLruCs (inner self) (capacity_bytes self) n (admit_on self) (serve self)
    (hits self) (misses self) (inserts self) (evictions self).

(** [inner.cache.get(name)?.clone()]. *)
Definition cached (self : LruCs C) (name : Name) : option CsEntry * LruCs C :=
  let '(e, c) := cache_get (cache (inner self)) name in (e, set_cache self c).

Definition lookup (self : LruCs C) (now_ns : Z) (interest : Interest) : option CsEntry * LruCs C :=
  if negb (serve self) then (None, self)
  else if entry_count self =? 0 then (None, self)
  else
    let comps := i_name interest in
    let last_typ := typ <$> last comps in
    let has_implicit_digest := bool_decide (last_typ = Some tlv_type.IMPLICIT_SHA256) in
    let has_psdc := bool_decide (last_typ = Some tlv_type.PARAMETERS_SHA256) in
    let '(entry, self) :=
      if has_implicit_digest then
        match cached self (take (length comps - 1) comps) with
        | (None, self) => (None, self)
        | (Some candidate, self) =>
            if bool_decide (value <$> last comps = Some (sha256 (data candidate)))
            then (Some candidate, self) else (None, self)
        end
      else if has_psdc then cached self (take (length comps - 1) comps)
      else if can_be_prefix (Interest.selectors interest) then
        match NameTrie.first_descendant (prefix_index (inner self)) (i_name interest) with
        | None => (None, self)
        | Some data_name => cached self data_name
        end
      else cached self (i_name interest) in
    match entry with
    | None => (None, self)
    | Some entry =>
        if must_be_fresh (Interest.selectors interest) && negb (CsEntry.is_fresh entry now_ns)
        then (None, self) else (Some entry, self)
    end.

Definition get (self : LruCs C) (now_ns : Z) (interest : Interest) : option CsEntry * LruCs C :=
  let '(result, self) := lookup self now_ns interest in
  match result with
  | Some _ => (result, mkLruCs (inner self) (capacity_bytes self) (entry_count self) (admit_on self) (serve self)
      (wrap 64 (hits self + 1)) (misses self) (inserts self) (evictions self))
  | None => (result, mkLruCs (inner self) (capacity_bytes self) (entry_count self) (admit_on self) (serve self)
      (hits self) (wrap 64 (misses self + 1)) (inserts self) (evictions self))
  end.

(** An entry that left the cache: its bytes, its place in the index, the count. *)
Definition forget (self : LruCs C) (name : Name) (e : CsEntry) : LruCs C :=
  let self := set_bytes self (sat_sub (current_bytes (inner self)) (zlen (data e))) in
  let self := set_index self (NameTrie.remove (prefix_index (inner self)) name) in
  set_count self (wrap 64 (entry_count self - 1)).

(** [self.evictions.fetch_add(1)]. *)
Definition bump_evictions (self : LruCs C) : LruCs C :=
  mkLruCs (inner self) (capacity_bytes self) (entry_count self) (admit_on self) (serve self)
    (hits self) (misses self) (inserts self) (wrap 64 (evictions self + 1)).

(** The [while] loop of [insert] and that of [set_capacity]: [over] is its
    condition on [current_bytes], [bump] says whether evictions are counted.
    Every turn removes an entry, so as many turns as there are entries and one
    are enough. *)
Fixpoint evict_while (over : Z -> bool) (bump : bool) (fuel : nat) (self : LruCs C) : LruCs C :=
  match fuel with
  | O => self
  | S fuel =>
      if over (current_bytes (inner self)) then
        match cache_pop_lru (cache (inner self)) with
        | (Some (evicted_name, evicted), c) =>
            let self := forget (set_cache self c) evicted_name evicted in
            evict_while over bump fuel (if bump then bump_evictions self else self)
        | (None, c) => set_cache self c
        end
      else self
  end.

Definition fuel_of (self : LruCs C) : nat := S (length (cache_iter (cache (inner self)))).

Definition insert (self : LruCs C) (d : bytes) (name : Name) (meta : CsMeta) : InsertResult * LruCs C :=
  if negb (admit_on self) then (Skipped, self)
  else
    let entry_bytes := zlen d in
    let capacity := capacity_bytes self in
    let '(was_present, self) :=
      match cache_peek (cache (inner self)) name with
      | Some old => (true, set_bytes self (sat_sub (current_bytes (inner self)) (zlen (data old))))
      | None => (false, self)
      end in
    let self := evict_while (fun b => capacity <? b + entry_bytes) true (fuel_of self) self in
    let entry := mkCsEntry d (meta_stale_at meta) name in
    let self := set_cache self (cache_put (cache (inner self)) name entry) in
    let self := set_bytes self (current_bytes (inner self) + entry_bytes) in
    let self := if was_present then self
      else set_index self (NameTrie.insert (prefix_index (inner self)) name name) in
    let self := if was_present then self else set_count self (wrap 64 (entry_count self + 1)) in
    let self := mkLruCs (inner self) (capacity_bytes self) (entry_count self) (admit_on self) (serve self)
      (hits self) (misses self) (wrap 64 (inserts self + 1)) (evictions self) in
    (if was_present then Replaced else Inserted, self).

Definition evict (self : LruCs C) (name : Name) : bool * LruCs C :=
  match cache_pop (cache (inner self)) name with
  | (Some evicted, c) => (true, forget (set_cache self c) name evicted)
  | (None, c) => (false, set_cache self c)
  end.

Definition set_capacity (self : LruCs C) (max_bytes : Z) : LruCs C :=
  let self := mkLruCs (inner self) max_bytes (entry_count self) (admit_on self) (serve self)
    (hits self) (misses self) (inserts self) (evictions self) in
  evict_while (fun b => max_bytes <? b) false (fuel_of self) self.

(** The [for name in names] loop. *)
Fixpoint evict_names (self : LruCs C) (names : list Name) (max evicted : Z) : Z * LruCs C :=
  match names with
  | [] => (evicted, self)
  | name :: names =>
      if max <=? evicted then (evicted, self)
      else match evict self name with
           | (true, self) => evict_names self names max (evicted + 1)
           | (false, self) => evict_names self names max evicted
           end
  end.

Definition evict_prefix (self : LruCs C) (prefix : Name) (limit : option Z) : Z * LruCs C :=
  evict_names self (NameTrie.descendants (prefix_index (inner self)) prefix) (default usize_max limit) 0.

Definition set_admit (self : LruCs C) (enabled : bool) : LruCs C :=
  mkLruCs (inner self) (capacity_bytes self) (entry_count self) enabled (serve self)
    (hits self) (misses self) (inserts self) (evictions self).
Definition set_serve (self : LruCs C) (enabled : bool) : LruCs C :=
  mkLruCs (inner self) (capacity_bytes self) (entry_count self) (admit_on self) enabled
    (hits self) (misses self) (inserts self) (evictions self).
Definition stats (self : LruCs C) : CsStats :=
  mkCsStats (hits self) (misses self) (inserts self) (evictions self).

#[export] Instance store : ContentStore (LruCs C) := {|
  cs_get := get;
  cs_insert := insert;
  cs_evict := evict;
  cs_capacity self := mkCsCapacity (capacity_bytes self);
  cs_len := entry_count;
  cs_current_bytes self := current_bytes (inner self);
  cs_set_capacity := set_capacity;
  cs_admit_enabled := admit_on;
  cs_serve_enabled := serve;
  cs_set_admit := set_admit;
  cs_set_serve := set_serve;
  cs_evict_prefix := evict_prefix;
  cs_stats := stats
|}.
End lru.
End LruCs.

(** ** [sharded_cs.rs] *)

Record ShardedCs (S : Type) : Type := mkShardedCs { shards : list S; shard_count : Z }.
Arguments mkShardedCs {S}.
Arguments shards {S}.
Arguments shard_count {S}.

Module ShardedCs.
Section sharded.
Context {S : Type} `{ContentStore S}.
(** What [DefaultHasher] gives for a component, a [u64]. *)
Context (component_hash : NameComponent -> Z).

(** [None] is the panic on an empty vector. *)
Definition new (shards : list S) : option (ShardedCs S) :=
  if 0 <? zlen shards then Some (mkShardedCs shards (zlen shards)) else None.

Definition shard_for (self : ShardedCs S) (name : Name) : Z :=
  match head name with
  | Some first => component_hash first mod shard_count self
  | None => 0
  end.

(** A method of the shard of [name]; [shards[idx]] is in range ([shard_for_in_range]),
    so the branch without a shard is not reached. *)
Definition on_shard {R} (self : ShardedCs S) (name : Name) (f : S -> R * S) (none : R) : R * ShardedCs S :=
  let idx := Z.to_nat (shard_for self name) in
  match shards self !! idx with
  | Some shard => let '(r, shard) := f shard in (r, mkShardedCs (<[idx := shard]> (shards self)) (shard_count self))
  | None => (none, self)
  end.

Definition get (self : ShardedCs S) (now : Z) (interest : Interest) : option CsEntry * ShardedCs S :=
  on_shard self (i_name interest) (fun s => cs_get s now interest) None.
Definition insert (self : ShardedCs S) (d : bytes) (name : Name) (meta : CsMeta) : InsertResult * ShardedCs S :=
  on_shard self name (fun s => cs_insert s d name meta) Skipped.
Definition evict (self : ShardedCs S) (name : Name) : bool * ShardedCs S :=
  on_shard self name (fun s => cs_evict s name) false.
Definition sum_over (f : S -> Z) (self : ShardedCs S) : Z := fold_left (fun acc s => acc + f s) (shards self) 0.
Definition capacity (self : ShardedCs S) : CsCapacity := mkCsCapacity (sum_over (fun s => max_bytes (cs_capacity s)) self).
Definition len (self : ShardedCs S) : Z := sum_over cs_len self.
Definition current_bytes (self : ShardedCs S) : Z := sum_over cs_current_bytes self.
Definition set_capacity (self : ShardedCs S) (max_bytes : Z) : ShardedCs S :=
  let per_shard := max_bytes / shard_count self in
  mkShardedCs ((fun s => cs_set_capacity s per_shard) <$> shards self) (shard_count self).
Definition evict_prefix (self : ShardedCs S) (prefix : Name) (limit : option Z) : Z * ShardedCs S :=
  on_shard self prefix (fun s => cs_evict_prefix s prefix limit) 0.
Definition stats (self : ShardedCs S) : CsStats :=
  fold_left (fun combined shard => let s := cs_stats shard in
    mkCsStats (wrap 64 (s_hits combined + s_hits s)) (wrap 64 (s_misses combined + s_misses s))
      (wrap 64 (s_inserts combined + s_inserts s)) (wrap 64 (s_evictions combined + s_evictions s)))
    (shards self) CsStats_default.

(** The Admit and Serve switches are the trait's defaults: not passed on. *)
#[export] Instance store : ContentStore (ShardedCs S) := {|
  cs_get := get;
  cs_insert := insert;
  cs_evict := evict;
  cs_capacity := capacity;
  cs_len := len;
  cs_current_bytes := current_bytes;
  cs_set_capacity := set_capacity;
  cs_admit_enabled _ := true;
  cs_serve_enabled _ := true;
  cs_set_admit self _ := self;
  cs_set_serve self _ := self;
  cs_evict_prefix := evict_prefix;
  cs_stats := stats
|}.

Lemma shard_for_in_range shs self name :
  new shs = Some self -> is_Some (shards self !! Z.to_nat (shard_for self name)).
Proof.
  unfold new. destruct (Z.ltb_spec 0 (zlen shs)) as [Hl|]; [|done]. intros [= <-]. apply lookup_lt_is_Some.
  cbn [shards]. unfold shard_for. cbn [shard_count]. unfold zlen in *. destruct (head name) as [c|]; [|lia].
  pose proof (Z.mod_pos_bound (component_hash c) (Z.of_nat (length shs)) Hl). lia.
Qed.
End sharded.
End ShardedCs.

(** ** Lists of entries in order of recency *)

Fixpoint total (l : list (Name * CsEntry)) : Z :=
  match l with [] => 0 | (_, e) :: l => zlen (data e) + total l end.

Lemma total_app l k : total (l ++ k) = total l + total k.
Proof. induction l as [|[n e] l IH]; simpl; [done|]. lia. Qed.
Lemma total_nonneg l : 0 <= total l.
Proof. induction l as [|[n e] l IH]; simpl; [lia|]. pose proof (zlen_nonneg (data e)). lia. Qed.
Lemma total_perm l k : l ≡ₚ k -> total l = total k.
Proof. induction 1 as [|[] ? ? ? IH|[] [] ?|]; simpl; lia. Qed.

Lemma assoc_Some l n e : NoDup l.*1 -> assoc l n = Some e <-> (n, e) ∈ l.
Proof.
  induction l as [|[m f] l IH]; rewrite ?fmap_cons; simpl; [by rewrite elem_of_nil|].
  intros [Hm Hnd]%NoDup_cons. rewrite elem_of_cons. case_decide as Hd.
  - subst. split; [intros [= ->]; by left|]. intros [[= <-]|Hin]; [done|]. destruct Hm.
    apply list_elem_of_fmap. by exists (n, e).
  - rewrite (IH Hnd). naive_solver.
Qed.

Lemma assoc_None l n : assoc l n = None <-> n ∉ l.*1.
Proof.
  induction l as [|[m f] l IH]; rewrite ?fmap_cons; simpl; [set_solver|].
  case_decide; rewrite not_elem_of_cons; naive_solver.
Qed.

Lemma without_notin l n : n ∉ l.*1 -> without l n = l.
Proof.
  unfold without. induction l as [|[m f] l IH]; [done|]. rewrite fmap_cons. cbn [fst].
  intros [Hm Hn]%not_elem_of_cons. rewrite filter_cons_True by (simpl; congruence). by rewrite IH.
Qed.

(** Taking an entry out. *)
Lemma without_perm l n e : NoDup l.*1 -> assoc l n = Some e -> l ≡ₚ (n, e) :: without l n.
Proof.
  induction l as [|[m f] l IH]; rewrite ?fmap_cons; simpl; [done|]. intros [Hm Hnd]%NoDup_cons.
  unfold without. case_decide as Hd.
  - intros [= ->]. subst. rewrite filter_cons_False by (simpl; tauto). fold (without l n).
    by rewrite without_notin.
  - intros Ha. rewrite filter_cons_True by done. fold (without l n). rewrite (IH Hnd Ha) at 1. constructor.
Qed.

Lemma elem_without l n m : m ∈ (without l n).*1 <-> m ∈ l.*1 /\ m <> n.
Proof.
  unfold without. rewrite !list_elem_of_fmap. setoid_rewrite list_elem_of_filter. naive_solver.
Qed.

Lemma NoDup_without l n : NoDup l.*1 -> NoDup (without l n).*1.
Proof. intros Hl. eapply sublist_NoDup; [exact Hl|]. apply fmap_sublist, sublist_filter. Qed.

Lemma last_take {A} (l : list A) x : last l = Some x -> l = take (length l - 1) l ++ [x].
Proof.
  destruct l as [|y l _] using rev_ind; [done|]. rewrite last_snoc. intros [= ->].
  by rewrite length_app, Nat.add_sub, take_app_length.
Qed.

(** ** The invariant of the LRU store *)

(** The byte count, the entry count and the prefix index agree with the list of
    cached entries. *)
Record accounts (l : list (Name * CsEntry)) (b k : Z) (t : TrieNode Name) : Prop := {
  acc_keys : NoDup l.*1;
  acc_names : forall n e, (n, e) ∈ l -> cs_name e = n;
  acc_bytes : b = total l;
  acc_count : k = zlen l;
  acc_fits : zlen l < 2 ^ 64;
  acc_wf : NameTrie.wf_node t;
  acc_index : forall n v, NameTrie.get t n = Some v <-> v = n /\ n ∈ l.*1
}.

Lemma accounts_perm l l' b k t : l ≡ₚ l' -> accounts l b k t -> accounts l' b k t.
Proof.
  intros Hp [H1 H2 H3 H4 H5 H6 H7]. assert (zlen l = zlen l') as Hz by (unfold zlen; by rewrite Hp).
  constructor; [by rewrite <- Hp| |by rewrite <- (total_perm l)|congruence|congruence|done|].
  - intros n e Hin. apply H2. by rewrite Hp.
  - intros n v. by rewrite H7, Hp.
Qed.

Lemma accounts_empty : accounts [] 0 0 NameTrie.TrieNode_new.
Proof.
  constructor; [apply NoDup_nil_2|by intros ? ? ?%elem_of_nil|done|done|done|apply NameTrie.wf_new|].
  intros n v. rewrite NameTrie.get_new. split; [done|]. by intros [_ ?%elem_of_nil].
Qed.

Lemma accounts_remove l n e b k t :
  accounts ((n, e) :: l) b k t ->
  accounts l (sat_sub b (zlen (data e))) (wrap 64 (k - 1)) (NameTrie.remove t n).
Proof.
  intros [H1 H2 H3 H4 H5 H6 H7]. rewrite fmap_cons in *. apply NoDup_cons in H1 as [Hn H1].
  rewrite zlen_cons in *. pose proof (zlen_nonneg l). pose proof (total_nonneg l).
  constructor; [done| | | |lia|by apply NameTrie.wf_remove|].
  - intros m f Hin. apply H2. by right.
  - cbn [total] in H3. unfold sat_sub. lia.
  - subst k. unfold wrap. rewrite Z.mod_small; lia.
  - intros m v. rewrite NameTrie.get_remove. case_decide as Hd.
    + split; [done|]. intros [_ Hin]. by subst.
    + rewrite H7, elem_of_cons. naive_solver.
Qed.

Lemma accounts_add l n e b k t :
  accounts l b k t -> n ∉ l.*1 -> cs_name e = n -> zlen l + 1 < 2 ^ 64 ->
  accounts ((n, e) :: l) (b + zlen (data e)) (wrap 64 (k + 1)) (NameTrie.insert t n n).
Proof.
  intros [H1 H2 H3 H4 H5 H6 H7] Hn Hne Hfit. pose proof (zlen_nonneg l).
  constructor; [rewrite fmap_cons; by apply NoDup_cons| | | |rewrite zlen_cons; lia|by apply NameTrie.wf_update|].
  - intros m f [[= -> ->]|Hin]%elem_of_cons; [done|by apply H2].
  - cbn [total]. lia.
  - rewrite zlen_cons. subst k. unfold wrap. rewrite Z.mod_small; lia.
  - intros m v. unfold NameTrie.insert. rewrite NameTrie.get_update, fmap_cons, elem_of_cons. cbn [fst].
    case_decide as Hd; [subst; naive_solver|]. rewrite H7. naive_solver.
Qed.

Lemma accounts_replace l n old e b k t :
  accounts ((n, old) :: l) b k t -> cs_name e = n ->
  accounts ((n, e) :: l) (sat_sub b (zlen (data old)) + zlen (data e)) k t.
Proof.
  intros [H1 H2 H3 H4 H5 H6 H7] Hne. pose proof (total_nonneg l).
  constructor; [done| | |done|done|done|done].
  - intros m f [[= -> ->]|Hin]%elem_of_cons; [done|]. apply H2. by right.
  - cbn [total] in *. unfold sat_sub. lia.
Qed.

Section lru_invariant.
Context {C : Type} `{LruCacheLaws C}.

(** The cached entries, most recently used first. *)
Definition order (c : LruCs C) : list (Name * CsEntry) := cache_iter (cache (inner c)).

Definition cs_ok (c : LruCs C) : Prop :=
  accounts (order c) (current_bytes (inner c)) (entry_count c) (prefix_index (inner c)).

Lemma new_ok cap : cs_ok (LruCs.new cap).
Proof. unfold cs_ok, order. simpl. rewrite law_unbounded. apply accounts_empty. Qed.

(** The settings, and the counters of hits and misses. *)
Definition settings (c : LruCs C) : Z * bool * bool * Z * Z :=
  (capacity_bytes c, admit_on c, serve c, hits c, misses c).
Definition same_settings (c c' : LruCs C) : Prop := settings c' = settings c.

Lemma same_capacity c c' : same_settings c c' -> capacity_bytes c' = capacity_bytes c.
Proof. unfold same_settings, settings. congruence. Qed.

(** Forgetting an entry that was taken out of the cache. *)
Lemma forget_ok c c' n e :
  cs_ok c -> order c ≡ₚ (n, e) :: cache_iter c' ->
  cs_ok (LruCs.forget (LruCs.set_cache c c') n e) /\
  order (LruCs.forget (LruCs.set_cache c c') n e) = cache_iter c' /\
  same_settings c (LruCs.forget (LruCs.set_cache c c') n e).
Proof.
  intros Hok Hp. split; [|done]. apply (accounts_perm _ _ _ _ _ Hp) in Hok.
  by apply accounts_remove in Hok.
Qed.

Lemma bump_ok (bump : bool) (c : LruCs C) :
  let c' := if bump then LruCs.bump_evictions c else c in
  (cs_ok c -> cs_ok c') /\ order c' = order c /\ same_settings c c'.
Proof. by destruct bump. Qed.

(** The eviction loops drop entries from the least recently used end, and no
    more than needed. *)
Lemma evict_while_spec over bump fuel c :
  cs_ok c -> (length (order c) < fuel)%nat ->
  let c' := LruCs.evict_while over bump fuel c in
  cs_ok c' /\ same_settings c c' /\
  exists evicted, order c = order c' ++ evicted /\
    (over (total (order c')) = false \/ order c' = []) /\
    match evicted with [] => True | x :: _ => over (total (order c' ++ [x])) = true end.
Proof.
  revert c. induction fuel as [|fuel IH]; intros c Hok Hf; [lia|]. cbn [LruCs.evict_while].
  pose proof (acc_bytes _ _ _ _ Hok) as Hb. destruct (over (current_bytes (inner c))) eqn:Hover.
  2:{ split_conj; [done..|]. exists []. rewrite app_nil_r, <- Hb. split_conj; [done|by left|done]. }
  destruct (law_pop_lru (cache (inner c))) as [Hl1 Hl2]. fold (order c) in Hl1, Hl2.
  destruct (cache_pop_lru (cache (inner c))) as [[[n e]|] c1]; cbn [fst snd] in Hl1, Hl2.
  - symmetry in Hl1. apply last_take in Hl1. rewrite <- Hl2 in Hl1.
    destruct (forget_ok c c1 n e Hok) as (Hok1 & Ho1 & Hs1).
    { rewrite Hl1. symmetry. apply Permutation_cons_append. }
    set (c2 := LruCs.forget (LruCs.set_cache c c1) n e) in *.
    destruct (bump_ok bump c2) as (Hok2 & Ho2 & Hs2). set (c3 := if bump then _ else c2) in *.
    destruct (IH c3 (Hok2 Hok1)) as (Hok' & Hs' & evd & Hev & Hend & Hmin).
    { rewrite Ho2, Ho1. rewrite Hl1, length_app in Hf. simpl in Hf. lia. }
    split_conj; [done|unfold same_settings in *; congruence|]. exists (evd ++ [(n, e)]).
    assert (order c = order (LruCs.evict_while over bump fuel c3) ++ evd ++ [(n, e)]) as Hall.
    { rewrite Hl1, app_assoc, <- Hev, Ho2, Ho1. done. }
    split_conj; [done|done|]. destruct evd as [|x evd]; [|done]. cbn [app] in Hall |- *. by rewrite <- Hall, <- Hb.
  - symmetry in Hl1. apply last_None in Hl1. assert (cache_iter c1 = order c) as Hc1 by (rewrite Hl2, Hl1; done).
    split; [unfold cs_ok, order; simpl; by rewrite Hc1|]. split; [done|]. exists [].
    unfold order at 2 3 4. simpl. rewrite Hc1, app_nil_r. split_conj; [done|right; done|done].
Qed.

(** The index lists the cached names under a prefix, each once. *)
Lemma index_descendants c prefix :
  cs_ok c ->
  NoDup (NameTrie.descendants (prefix_index (inner c)) prefix) /\
  forall n, n ∈ NameTrie.descendants (prefix_index (inner c)) prefix <-> n ∈ (order c).*1 /\ prefix `prefix_of` n.
Proof.
  intros Hok. pose proof (acc_wf _ _ _ _ Hok) as Hwf. pose proof (acc_index _ _ _ _ Hok) as Hix.
  set (t := prefix_index (inner c)) in *. 
  pose proof (NameTrie.descendants_entries t prefix Hwf) as Hd. rewrite NameTrie.dump_entries in Hd.
  set (l := filter (fun pv : Name * Name => prefix `prefix_of` pv.1) (NameTrie.entries t)).
  assert (forall m v, (m, v) ∈ l <-> v = m /\ m ∈ (order c).*1 /\ prefix `prefix_of` m) as Hl.
  { intros m v. subst l. rewrite list_elem_of_filter, (NameTrie.elem_entries t m v Hwf), Hix. simpl. tauto. }
  assert (l.*2 = l.*1) as Heq.
  { apply list_fmap_ext. intros i [m v] Hi%list_elem_of_lookup_2. by apply Hl in Hi as [-> _]. }
  fold l in Hd. rewrite Heq in Hd. split.
  - rewrite Hd. eapply sublist_NoDup; [apply (NameTrie.NoDup_entries t Hwf)|]. apply fmap_sublist, sublist_filter.
  - intros n. rewrite Hd, (list_elem_of_fmap _ l). split.
    + intros ([m v] & Hm & Hin). apply Hl in Hin. simpl in Hm. subst n. tauto.
    + intros Hn. exists (n, n). split; [done|]. by apply Hl.
Qed.

Lemma evict_ok c name :
  cs_ok c ->
  let '(r, c') := LruCs.evict c name in
  cs_ok c' /\ order c' = without (order c) name /\ (r = true <-> name ∈ (order c).*1) /\ same_settings c c'.
Proof.
  intros Hok. unfold LruCs.evict. destruct (law_pop (cache (inner c)) name) as [H1 H2]. fold (order c) in H1, H2.
  destruct (cache_pop (cache (inner c)) name) as [[e|] c1]; cbn [fst snd] in H1, H2.
  - destruct (forget_ok c c1 name e Hok) as (Hok' & Ho & Hs).
    { rewrite H2. apply without_perm; [by apply Hok|done]. }
    split_conj; [done|by rewrite Ho|split; [intros _|done]|done].
    symmetry in H1. apply assoc_Some in H1; [|by apply Hok]. apply list_elem_of_fmap. by exists (name, e).
  - symmetry in H1. apply assoc_None in H1. rewrite (without_notin _ _ H1) in *.
    split_conj; [unfold cs_ok, order; simpl; by rewrite H2|done|done|done].
Qed.

Lemma evict_names_spec names c max evicted :
  cs_ok c -> NoDup names -> (forall n, n ∈ names -> n ∈ (order c).*1) -> 0 <= evicted <= max ->
  let '(k, c') := LruCs.evict_names c names max evicted in
  let gone := take (Z.to_nat (max - evicted)) names in
  k = evicted + zlen gone /\ cs_ok c' /\ order c' = filter (fun p => p.1 ∉ gone) (order c) /\ same_settings c c'.
Proof.
  revert c evicted. induction names as [|n names IH]; intros c evicted Hok Hnd Hin Hb; cbn [LruCs.evict_names].
  { rewrite take_nil, zlen_nil. split_conj; [lia|done| |done]. symmetry. apply filter_all. intros p _. apply not_elem_of_nil. }
  apply NoDup_cons in Hnd as [Hn Hnd]. destruct (Z.leb_spec max evicted) as [Hle|Hlt].
  { replace (Z.to_nat (max - evicted)) with 0%nat by lia. simpl. rewrite zlen_nil. split_conj; [lia|done| |done].
    symmetry. apply filter_all. intros p _. apply not_elem_of_nil. }
  pose proof (evict_ok c n Hok) as He. destruct (LruCs.evict c n) as [r c1]. destruct He as (Hok1 & Ho1 & Hr & Hs1).
  rewrite (proj2 Hr) by (apply Hin; left).
  specialize (IH c1 (evicted + 1) Hok1 Hnd). destruct (LruCs.evict_names c1 names max (evicted + 1)) as [k c'].
  destruct IH as (Hk & Hok' & Ho' & Hs').
  { intros m Hm. rewrite Ho1. apply elem_without. split; [apply Hin; by right|]. by intros ->. }
  { lia. }
  replace (Z.to_nat (max - evicted)) with (S (Z.to_nat (max - (evicted + 1)))) by lia. cbn [take].
  rewrite zlen_cons. split_conj; [lia|done| |unfold same_settings in *; congruence].
  rewrite Ho', Ho1. unfold without. rewrite list_filter_filter. apply list_filter_iff.
  intros p. rewrite not_elem_of_cons. tauto.
Qed.
End lru_invariant.

(** ** Properties *)


(** Eviction.  [evict] removes exactly the named entry and reports whether
    it was there; lowering the capacity evicts from the least recently used end,
    no more than needed, until the store fits; [evict_prefix] removes only cached
    entries under the prefix, as many as there are or as the limit allows, and
    returns their number.  The accounts stay right. *)
Theorem lru_evict_spec {C} `{LruCacheLaws C} (c : LruCs C) (name : Name) (max : Z) (limit : option Z) :
  cs_ok c -> 0 <= max -> 0 <= default usize_max limit ->
  (let '(r, c') := LruCs.evict c name in
   cs_ok c' /\ order c' = without (order c) name /\ (r = true <-> name ∈ (order c).*1)) /\
  (let c' := LruCs.set_capacity c max in
   cs_ok c' /\ capacity_bytes c' = max /\ current_bytes (inner c') <= max /\
   exists evicted, order c = order c' ++ evicted /\
     match evicted with [] => True | x :: _ => max < total (order c' ++ [x]) end) /\
  (let '(k, c') := LruCs.evict_prefix c name limit in
   cs_ok c' /\ exists gone, NoDup gone /\ Forall (fun n => n ∈ (order c).*1 /\ name `prefix_of` n) gone /\
     order c' = filter (fun p => p.1 ∉ gone) (order c) /\ k = zlen gone /\
     k = Z.min (default usize_max limit) (zlen (filter (fun p => name `prefix_of` p.1) (order c)))).
Proof.
  intros Hok Hmax Hlim. split_conj.
  - pose proof (evict_ok c name Hok) as He. destruct (LruCs.evict c name). naive_solver.
  - unfold LruCs.set_capacity. set (c0 := mkLruCs _ _ _ _ _ _ _ _ _).
    pose proof (evict_while_spec (fun b => max <? b) false (LruCs.fuel_of c0) c0 Hok ltac:(unfold LruCs.fuel_of, order; lia))
      as (Hok1 & Hs & evicted & Hev & Hend & Hmin).
    cbv zeta. set (c1 := LruCs.evict_while _ false (LruCs.fuel_of c0) c0) in *. split_conj; [done|exact (same_capacity _ _ Hs)| |].
    + rewrite (acc_bytes _ _ _ _ Hok1). destruct Hend as [Hend%Z.ltb_ge|Hnil]; [done|]. rewrite Hnil. simpl. lia.
    + exists evicted. split; [done|]. destruct evicted; [done|]. by apply Z.ltb_lt.
  - unfold LruCs.evict_prefix. destruct (index_descendants c name Hok) as [Hnd Hdesc].
    set (names := NameTrie.descendants (prefix_index (inner c)) name) in *.
    pose proof (evict_names_spec names c (default usize_max limit) 0 Hok Hnd ltac:(intros n Hn; by apply Hdesc) ltac:(lia)) as He.
    destruct (LruCs.evict_names c names (default usize_max limit) 0) as [k c'].
    cbv zeta in He. rewrite Z.sub_0_r, Z.add_0_l in He.
    destruct He as (Hk & Hok' & Ho & _). split; [done|]. eexists. split_conj; [| |exact Ho|exact Hk|].
    + eapply sublist_NoDup; [exact Hnd|]. apply sublist_take.
    + apply Forall_forall. intros n Hn. apply Hdesc. eapply elem_of_submseteq; [exact Hn|]. apply sublist_submseteq, sublist_take.
    + rewrite Hk, zlen_take, Z2Nat.id by done. f_equal.
      assert (names ≡ₚ (filter (fun p => name `prefix_of` p.1) (order c)).*1) as Hp.
      { apply NoDup_Permutation; [done| |].
        - eapply sublist_NoDup; [apply (acc_keys _ _ _ _ Hok)|]. apply fmap_sublist, sublist_filter.
        - intros n. rewrite Hdesc, !list_elem_of_fmap. setoid_rewrite list_elem_of_filter. naive_solver. }
      unfold zlen. rewrite Hp, length_fmap. done.
Qed.

(** ** Lookup *)

Section lru_lookup.
Context {C : Type} `{LruCacheLaws C} (sha256 : bytes -> bytes).

(** What an Interest selects: its trailing digest is an implicit one and fits
    the packet, or is the digest of its parameters and is ignored; otherwise any
    name below its own, or exactly its own. *)
Definition selects (i : Interest) (n : Name) (e : CsEntry) : Prop :=
  let last_typ := typ <$> last (i_name i) in
  if decide (last_typ = Some tlv_type.IMPLICIT_SHA256) then
    exists comp, i_name i = n ++ [comp] /\ value comp = sha256 (data e)
  else if decide (last_typ = Some tlv_type.PARAMETERS_SHA256) then exists comp, i_name i = n ++ [comp]
  else if can_be_prefix (Interest.selectors i) then i_name i `prefix_of` n
  else n = i_name i.

(** Reading an entry promotes it and changes nothing else. *)
Lemma cached_spec c n :
  cs_ok c ->
  let '(r, c') := LruCs.cached c n in
  r = assoc (order c) n /\ cs_ok c' /\ order c' ≡ₚ order c /\ same_settings c c' /\ entry_count c' = entry_count c.
Proof.
  intros Hok. unfold LruCs.cached. destruct (law_get (cache (inner c)) n) as [H1 H2]. fold (order c) in H1, H2.
  destruct (cache_get (cache (inner c)) n) as [r c1]. cbn [fst snd] in *.
  assert (cache_iter c1 ≡ₚ order c) as Hp.
  { rewrite H2. destruct (assoc (order c) n) as [e|] eqn:Ha; [|done]. symmetry. apply without_perm; [by apply Hok|done]. }
  split_conj; [done| |done|done|done]. unfold cs_ok, order. simpl. by apply (accounts_perm (order c)).
Qed.

Lemma take_last (n : Name) comp : last n = Some comp -> forall m, take (length n - 1) n = m <-> n = m ++ [comp].
Proof.
  intros Hl%last_take m. split; [intros <-; exact Hl|]. intros ->.
  by rewrite length_app, Nat.add_sub, take_app_length.
Qed.

(** The entry looked at, before freshness is considered. *)
Definition candidate_spec (c : LruCs C) (i : Interest) (r : option CsEntry) : Prop :=
  match r with
  | Some e => exists n, (n, e) ∈ order c /\ selects i n e
  | None => forall n e, (n, e) ∈ order c -> ~ selects i n e
  end.

Lemma stripped_spec c i comp :
  cs_ok c -> last (i_name i) = Some comp ->
  match assoc (order c) (take (length (i_name i) - 1) (i_name i)) with
  | Some e => exists n, (n, e) ∈ order c /\ i_name i = n ++ [comp]
  | None => forall n e comp', (n, e) ∈ order c -> i_name i <> n ++ [comp']
  end.
Proof.
  intros Hok Hl. pose proof (take_last _ _ Hl) as Ht. destruct (assoc _ _) as [e|] eqn:Ha.
  - apply assoc_Some in Ha; [|by apply Hok]. eexists. split; [exact Ha|]. by apply Ht.
  - apply assoc_None in Ha. intros n e comp' Hin Heq. assert (comp' = comp) as -> by (rewrite Heq, last_snoc in Hl; congruence).
    apply Ht in Heq. rewrite Heq in Ha. apply Ha, list_elem_of_fmap. by exists (n, e).
Qed.

(** The branch of [lookup] that picks the entry. *)
Definition pick (self : LruCs C) (interest : Interest) : option CsEntry * LruCs C :=
  let comps := i_name interest in
  let last_typ := typ <$> last comps in
  if bool_decide (last_typ = Some tlv_type.IMPLICIT_SHA256) then
    match LruCs.cached self (take (length comps - 1) comps) with
    | (None, self) => (None, self)
    | (Some candidate, self) =>
        if bool_decide (value <$> last comps = Some (sha256 (data candidate)))
        then (Some candidate, self) else (None, self)
    end
  else if bool_decide (last_typ = Some tlv_type.PARAMETERS_SHA256) then
    LruCs.cached self (take (length comps - 1) comps)
  else if can_be_prefix (Interest.selectors interest) then
    match NameTrie.first_descendant (prefix_index (inner self)) (i_name interest) with
    | None => (None, self)
    | Some data_name => LruCs.cached self data_name
    end
  else LruCs.cached self (i_name interest).

Lemma first_descendant_spec c prefix :
  cs_ok c ->
  match NameTrie.first_descendant (prefix_index (inner c)) prefix with
  | Some n => n ∈ (order c).*1 /\ prefix `prefix_of` n
  | None => forall n, n ∈ (order c).*1 -> ~ prefix `prefix_of` n
  end.
Proof.
  intros Hok. destruct (index_descendants c prefix Hok) as [_ Hd].
  assert (NameTrie.first_descendant (prefix_index (inner c)) prefix =
          head (NameTrie.descendants (prefix_index (inner c)) prefix)) as ->.
  { unfold NameTrie.first_descendant, NameTrie.descendants. destruct (NameTrie.descend _ _) as [x|]; [|done].
    by rewrite NameTrie.collect_subtree_entries, NameTrie.first_in_subtree_entries. }
  destruct (NameTrie.descendants _ _) as [|n ns]; simpl.
  - intros n Hn Hp. destruct (proj1 (elem_of_nil n) (proj2 (Hd n) (conj Hn Hp))).
  - apply Hd. left.
Qed.

Lemma selects_implicit i n e :
  typ <$> last (i_name i) = Some tlv_type.IMPLICIT_SHA256 ->
  selects i n e <-> exists comp, i_name i = n ++ [comp] /\ value comp = sha256 (data e).
Proof. intros E. unfold selects. by rewrite decide_True. Qed.

Lemma selects_params i n e :
  typ <$> last (i_name i) = Some tlv_type.PARAMETERS_SHA256 ->
  selects i n e <-> exists comp, i_name i = n ++ [comp].
Proof. intros E. unfold selects. cbv zeta. rewrite decide_False by (by rewrite E). by rewrite decide_True. Qed.

Lemma selects_plain i n e :
  typ <$> last (i_name i) <> Some tlv_type.IMPLICIT_SHA256 ->
  typ <$> last (i_name i) <> Some tlv_type.PARAMETERS_SHA256 ->
  selects i n e <-> if can_be_prefix (Interest.selectors i) then i_name i `prefix_of` n else n = i_name i.
Proof. intros E1 E2. unfold selects. cbv zeta. by rewrite !decide_False. Qed.

Lemma pick_spec c i :
  cs_ok c ->
  let '(r, c') := pick c i in
  cs_ok c' /\ order c' ≡ₚ order c /\ same_settings c c' /\ candidate_spec c i r.
Proof.
  intros Hok. unfold pick. cbv zeta. unfold candidate_spec.
  case_bool_decide as Hi; [|case_bool_decide as Hp].
  - assert (forall n e, selects i n e <-> exists comp, i_name i = n ++ [comp] /\ value comp = sha256 (data e)) as Hsel
      by (intros n e; by apply selects_implicit).
    destruct (last (i_name i)) as [comp|] eqn:Hl; [|done]. pose proof (stripped_spec c i comp Hok Hl) as Hst.
    pose proof (cached_spec c (take (length (i_name i) - 1) (i_name i)) Hok) as Hc.
    destruct (LruCs.cached _ _) as [r c1]. destruct Hc as (-> & Hok1 & Hp1 & Hs1 & _).
    destruct (assoc _ _) as [e|] eqn:Ha;
      [|split_conj; try done; intros n e Hin (comp' & Heq & _)%Hsel; by eapply Hst].
    destruct Hst as (n & Hin & Heq). case_bool_decide as Hv.
    + split_conj; try done. exists n. split; [done|]. apply Hsel. exists comp. split; [done|]. by injection Hv.
    + split_conj; try done. intros n' e' Hin' (comp' & Heq' & Hv')%Hsel.
      rewrite Heq in Heq'. apply app_inj_tail in Heq' as [-> ->].
      apply assoc_Some in Hin; [|by apply Hok]. apply assoc_Some in Hin'; [|by apply Hok].
      rewrite Hin in Hin'. injection Hin' as ->. apply Hv. simpl. by rewrite Hv'.
  - assert (forall n e, selects i n e <-> exists comp, i_name i = n ++ [comp]) as Hsel
      by (intros n e; by apply selects_params).
    destruct (last (i_name i)) as [comp|] eqn:Hl; [|done]. pose proof (stripped_spec c i comp Hok Hl) as Hst.
    pose proof (cached_spec c (take (length (i_name i) - 1) (i_name i)) Hok) as Hc.
    destruct (LruCs.cached _ _) as [r c1]. destruct Hc as (-> & Hok1 & Hp1 & Hs1 & _).
    destruct (assoc _ _) as [e|]; split_conj; try done.
    + destruct Hst as (n & Hin & Heq). exists n. split; [done|]. apply Hsel. by exists comp.
    + intros n e Hin (comp' & Heq)%Hsel. by eapply Hst.
  - pose proof (fun n e => selects_plain i n e Hi Hp) as Hsel. destruct (can_be_prefix _).
    + pose proof (first_descendant_spec c (i_name i) Hok) as Hf.
      destruct (NameTrie.first_descendant _ _) as [n|].
      * pose proof (cached_spec c n Hok) as Hc. destruct (LruCs.cached _ _) as [r c1].
        destruct Hc as (-> & Hok1 & Hp1 & Hs1 & _). destruct Hf as [Hn Hpre].
        destruct (assoc (order c) n) as [e|] eqn:Ha; [|by apply assoc_None in Ha].
        split_conj; try done. exists n. split; [|by apply Hsel]. apply assoc_Some; [by apply Hok|done].
      * split_conj; try done. intros n e Hin Hs%Hsel. revert Hs. apply Hf, list_elem_of_fmap. by exists (n, e).
    + pose proof (cached_spec c (i_name i) Hok) as Hc. destruct (LruCs.cached _ _) as [r c1].
      destruct Hc as (-> & Hok1 & Hp1 & Hs1 & _). destruct (assoc (order c) (i_name i)) as [e|] eqn:Ha; split_conj; try done.
      * exists (i_name i). split; [|by apply Hsel]. apply assoc_Some; [by apply Hok|done].
      * intros n e Hin ->%Hsel. apply assoc_None in Ha. apply Ha, list_elem_of_fmap. by exists (i_name i, e).
Qed.

(** Without CanBePrefix at most one cached name is selected. *)
Lemma selects_unique i n n' e e' :
  can_be_prefix (Interest.selectors i) = false -> selects i n e -> selects i n' e' -> n = n'.
Proof.
  unfold selects. intros ->. cbv zeta. case_decide; [|case_decide].
  - intros (c1 & -> & _) (c2 & Heq & _). by apply app_inj_tail in Heq as [? _].
  - intros (c1 & ->) (c2 & Heq). by apply app_inj_tail in Heq as [? _].
  - by intros -> ->.
Qed.

Definition fresh_enough (i : Interest) (now : Z) (e : CsEntry) : Prop :=
  must_be_fresh (Interest.selectors i) = true -> CsEntry.is_fresh e now = true.

Lemma lookup_spec c now i :
  cs_ok c ->
  let '(r, c') := LruCs.lookup sha256 c now i in
  cs_ok c' /\ order c' ≡ₚ order c /\ same_settings c c' /\
  (forall e, r = Some e -> serve c = true /\ fresh_enough i now e /\ exists n, (n, e) ∈ order c /\ selects i n e) /\
  (serve c = true -> forall n e, (n, e) ∈ order c -> selects i n e ->
     (must_be_fresh (Interest.selectors i) = false -> r <> None) /\
     (can_be_prefix (Interest.selectors i) = false -> fresh_enough i now e -> r = Some e)).
Proof.
  intros Hok. unfold LruCs.lookup. destruct (serve c) eqn:Hserve; cbn [negb]; [|by split_conj].
  destruct (Z.eqb_spec (entry_count c) 0) as [Hz|_].
  { split_conj; try done. intros _ n e Hin. rewrite (acc_count _ _ _ _ Hok) in Hz. apply zlen_0_nil in Hz.
    rewrite Hz in Hin. by apply elem_of_nil in Hin. }
  cbv zeta. fold (pick c i). pose proof (pick_spec c i Hok) as Hpick. destruct (pick c i) as [r c'].
  destruct Hpick as (Hok' & Hperm & Hs & Hcand). unfold candidate_spec in Hcand. destruct r as [e|].
  - destruct Hcand as (n & Hin & Hsel). destruct (must_be_fresh (Interest.selectors i)) eqn:Hmbf; cbn [andb].
    + destruct (CsEntry.is_fresh e now) eqn:Hfr; cbn [negb]; split_conj; try done.
      * intros e' [= <-]. split_conj; [done|by intros _|eauto].
      * intros _ n' e' Hin' Hsel'. split; [done|]. intros Hcbp _. f_equal.
        assert (n' = n) as -> by (by eapply selects_unique).
        apply assoc_Some in Hin; [|by apply Hok]. apply assoc_Some in Hin'; [|by apply Hok]. congruence.
      * intros _ n' e' Hin' Hsel'. split; [done|]. intros Hcbp Hfe.
        assert (n' = n) as -> by (by eapply selects_unique).
        apply assoc_Some in Hin; [|by apply Hok]. apply assoc_Some in Hin'; [|by apply Hok].
        assert (e' = e) as -> by congruence. by rewrite Hfe in Hfr.
    + split_conj; try done.
      * intros e' [= <-]. split_conj; [done|unfold fresh_enough; by rewrite Hmbf|eauto].
      * intros _ n' e' Hin' Hsel'. split; [done|]. intros Hcbp _. f_equal.
        assert (n' = n) as -> by (by eapply selects_unique).
        apply assoc_Some in Hin; [|by apply Hok]. apply assoc_Some in Hin'; [|by apply Hok]. congruence.
  - split_conj; try done. intros _ n e Hin Hsel. by destruct (Hcand n e Hin).
Qed.
End lru_lookup.

(** Lookup.  What [get] returns is a cached packet that the Interest
    selects (its name, a name below it under CanBePrefix, or the name without its
    digest, which for an implicit digest must be that of the packet), fresh if
    the Interest demands it, and only while serving is on.  It finds one whenever
    one is cached, unless freshness is demanded; and without CanBePrefix it finds
    the one selected whenever that is fresh enough.  Each call counts as one hit
    or one miss; the cached entries and the accounts stay. *)
Theorem lru_get_spec {C} `{LruCacheLaws C} (sha256 : bytes -> bytes) (c : LruCs C) (now : Z) (i : Interest) :
  cs_ok c ->
  let '(r, c') := LruCs.get sha256 c now i in
  cs_ok c' /\ order c' ≡ₚ order c /\
  (hits c', misses c') = match r with
                         | Some _ => (wrap 64 (hits c + 1), misses c)
                         | None => (hits c, wrap 64 (misses c + 1))
                         end /\
  (forall e, r = Some e -> serve c = true /\ fresh_enough i now e /\
     exists n, (n, e) ∈ order c /\ selects sha256 i n e) /\
  (serve c = true -> forall n e, (n, e) ∈ order c -> selects sha256 i n e ->
     (must_be_fresh (Interest.selectors i) = false -> r <> None) /\
     (can_be_prefix (Interest.selectors i) = false -> fresh_enough i now e -> r = Some e)).
Proof.
  intros Hok. unfold LruCs.get. pose proof (lookup_spec sha256 c now i Hok) as Hl.
  destruct (LruCs.lookup sha256 c now i) as [r c']. destruct Hl as (H1 & H2 & [= _ _ _ H3 H4] & H5 & H6).
  destruct r; simpl; rewrite H3, H4; by split_conj.
Qed.

(** ** Witnesses

    The laws of the cache hold of the list of its entries. *)
#[local] Instance list_cache : LruCache (list (Name * CsEntry)) := {|
  cache_unbounded := [];
  cache_get l n := (assoc l n, match assoc l n with Some e => (n, e) :: without l n | None => l end);
  cache_peek l n := assoc l n;
  cache_put l n e := (n, e) :: without l n;
  cache_pop l n := (assoc l n, without l n);
  cache_pop_lru l := (last l, take (length l - 1) l);
  cache_iter l := l
|}.
#[local] Instance list_cache_laws : LruCacheLaws (list (Name * CsEntry)).
Proof. by constructor. Qed.

Abbreviation ListCs := (LruCs (list (Name * CsEntry))).
Definition n_a : Name := [mkComponent 8 [97]].
Definition n_ab : Name := [mkComponent 8 [97]; mkComponent 8 [98]].
Definition n_c : Name := [mkComponent 8 [99]].
Definition put (c : ListCs) (n : Name) (size : nat) : ListCs := (LruCs.insert c (replicate size 0) n (mkCsMeta 100)).2.
(** Capacity 10: [/a] of 5 bytes, then [/c] of 4. *)
Definition small_store : ListCs := put (put (LruCs.new 10) n_a 5) n_c 4.
Definition entry_of (n : Name) (size : nat) : CsEntry := mkCsEntry (replicate size 0) 100 n.
Definition put_index (l : list Name) : TrieNode Name :=
  fold_left (fun t n => NameTrie.insert t n n) l NameTrie.TrieNode_new.

Lemma small_store_ok : cs_ok small_store.
Proof.
  change (accounts [(n_c, entry_of n_c 4); (n_a, entry_of n_a 5)] (0 + zlen (data (entry_of n_a 5)) + zlen (data (entry_of n_c 4)))
    (wrap 64 (wrap 64 (0 + 1) + 1)) (put_index [n_a; n_c])).
  apply (accounts_add [(n_a, entry_of n_a 5)]); [|intros Hin%list_elem_of_singleton; by vm_compute in Hin|done|done].
  apply (accounts_add []); [apply accounts_empty|apply not_elem_of_nil|done|done].
Qed.


Lemma lru_evict_spec_witness :
  cs_ok (LruCs.set_capacity small_store 4) /\ order (LruCs.set_capacity small_store 4) = [(n_c, entry_of n_c 4)].
Proof.
  split; [|vm_compute; reflexivity].
  apply (lru_evict_spec small_store n_a 4 None); [exact small_store_ok|lia|vm_compute; discriminate].
Defined.

(** [/a] with nonce 9, exact. *)
Definition want_a : Interest := mkInterest [5; 11; 7; 3; 8; 1; 97; 10; 4; 0; 0; 0; 9] n_a.

Lemma lru_get_spec_witness :
  (LruCs.get (fun b => b) small_store 7 want_a).1 = Some (entry_of n_a 5).
Proof.
  pose proof (lru_get_spec (fun b => b) small_store 7 want_a small_store_ok) as H.
  destruct (LruCs.get (fun b => b) small_store 7 want_a) as [r c']. destruct H as (_ & _ & _ & _ & H).
  apply (proj2 (H eq_refl n_a (entry_of n_a 5) ltac:(right; left) ltac:(vm_compute; reflexivity))).
  - vm_compute. reflexivity.
  - intros _. vm_compute. reflexivity.
Defined.

(** ** Replacing a packet that eviction reaches

    [insert] first takes the bytes of the packet it replaces off the count, and
    then the eviction loop may pop that same packet: its bytes are taken off
    again, its name leaves the index and the entry count drops, but since it was
    present neither is restored.  Here 13 bytes are cached in a store of 10 that
    counts 8, it reports one entry of two, and a CanBePrefix Interest for the new
    packet misses. *)
Example replace_breaks_accounts :
  let c := put (put (put (LruCs.new 10) n_a 5) n_c 5) n_a 8 in
  (order c).*1 = [n_a; n_c] /\ total (order c) = 13 /\ current_bytes (inner c) = 8 /\ entry_count c = 1 /\
  NameTrie.first_descendant (prefix_index (inner c)) n_a = None.
Proof. vm_compute. repeat split. Qed.

(** With a packet larger than the store the count reaches 0 with one packet
    cached, which [lookup] then never finds; evicting it makes the count wrap. *)
Example replace_wraps_count :
  let c := put (put (LruCs.new 10) n_a 5) n_a 11 in
  total (order c) = 11 /\ entry_count c = 0 /\ entry_count (LruCs.evict c n_a).2 = u64_max.
Proof. vm_compute. repeat split. Qed.

(** ** Sharding

    Shards are chosen by the first component, so the root prefix, which has
    none, reaches one shard only: evicting everything under it leaves the rest. *)
#[local] Instance list_store : ContentStore ListCs := LruCs.store (fun b => b).

Example sharded_root_prefix :
  let s := mkShardedCs [put (LruCs.new 10) n_a 5; put (LruCs.new 10) n_c 5] 2 in
  let '(k, s') := ShardedCs.evict_prefix (fun c => be_decode (value c) mod 97) s [] None in
  k = 1 /\ ShardedCs.len s' = 1.
Proof. vm_compute. repeat split. Qed.
