(* ===== verification/Svs.v ===== *)
(** * State vector sync ([crates/protocols/ndn-svs-core], [ndn-sync/src/svs_local.rs])

    The state vector of a sync group: for every producer the boot time and the
    highest sequence number known, merged with the vectors of the peers; the
    ranges to fetch; the two-phase variant, where an application acknowledges
    what it has validated; and the wire form of a vector.

    The vector is a [BTreeMap] ordered by name ([BTree.v]); a [&str] or [String]
    is the list of its bytes, a [Name] is parsed and printed as in [NameUri.v].
    [SvsLocal] keeps its neighbours in a hash map whose iteration order is a
    parameter where it shows.  The locks around these types are not modelled: a
    method is one step. *)

From S2P Require Import Prelude Tlv Name NameUri BTree Packet Lp.
#[local] Open Scope Z_scope.

(** ** Numbers and elements ([tlv.rs]) *)

Module tlv.

Definition encode_nni (n : Z) : bytes :=
  if n <=? 0xFF then [wrap 8 n]
  else if n <=? 0xFFFF then be_encode 2 (wrap 16 n)
  else if n <=? 0xFFFFFFFF then be_encode 4 (wrap 32 n)
  else be_encode 8 n.

(** Any width, a wider string by its first eight bytes. *)
Definition decode_nni (b : bytes) : Z :=
  let n := zlen b in
  if n =? 0 then 0
  else if (n =? 1) || (n =? 2) || (n =? 4) || (n =? 8) then be_decode b
  else
    let start := sat_sub 8 n in
    let copy_len := Z.min n 8 in
    be_decode (replicate (Z.to_nat start) 0 ++ slice b 0 copy_len ++ replicate (Z.to_nat (8 - start - copy_len)) 0).

Definition write_varnumber (buf : bytes) (n : Z) : bytes :=
  buf ++ (if n <? 0xFD then [wrap 8 n]
          else if n <=? 0xFFFF then 0xFD :: be_encode 2 (wrap 16 n)
          else if n <=? 0xFFFFFFFF then 0xFE :: be_encode 4 (wrap 32 n)
          else 0xFF :: be_encode 8 n).

Definition write_tlv (buf : bytes) (typ : Z) (value : bytes) : bytes :=
  write_varnumber (write_varnumber buf typ) (zlen value) ++ value.

Definition read_varnumber (cursor : bytes) : option (Z * bytes) :=
  match cursor with
  | [] => None
  | first :: rest =>
      let wide n := if zlen rest <? n then None else Some (be_decode (slice rest 0 n), slice_from_ rest n) in
      if first =? 0xFF then wide 8 else if first =? 0xFE then wide 4 else if first =? 0xFD then wide 2
      else Some (first, rest)
  end.

Definition read_tlv (cursor : bytes) : option (Z * bytes * bytes) :=
  match read_varnumber cursor with
  | None => None
  | Some (typ, rest) =>
      match read_varnumber rest with
      | None => None
      | Some (len, rest) => if zlen rest <? len then None else Some (typ, slice rest 0 len, slice_from_ rest len)
      end
  end.

End tlv.

(** ** The wire form of a vector ([codec.rs]) *)

Definition T_SVS_DATA : Z := 0xC9.
Definition T_STATE_VECTOR : Z := 0xCA.
Definition T_SEQ_NO_ENTRIES : Z := 0xD2.
Definition T_BOOTSTRAP_TIME : Z := 0xD4.
Definition T_SEQ_NO : Z := 0xD6.

Inductive SvsLocalError : Type :=
| Malformed
| WrongOuterType (got : Z)
| WrongStateVectorType (got : Z)
| MissingSvsField (name : bytes)
| InvalidNniWidth.

Record StateEntry : Type := mkEntry { se_name : Name; se_boot : Z; se_seq : Z }.
Record NeighborAdvance : Type := mkAdvance { na_name : Name; na_boot : Z; na_seq : Z }.
Record NeighborSnapshot : Type := mkSnapshot { ns_name : Name; ns_boot : Z; ns_seq : Z }.
Record NeighborSeqState : Type := mkSeqState { nss_boot : Z; nss_seq : Z }.

Definition NeighborSeqState_apply (st : NeighborSeqState) (entry : StateEntry) : option NeighborAdvance * NeighborSeqState :=
  let stale := (se_boot entry <=? nss_boot st) && (se_seq entry <=? nss_seq st) in
  if stale then (None, st)
  else (Some (mkAdvance (se_name entry) (se_boot entry) (se_seq entry)), mkSeqState (se_boot entry) (se_seq entry)).

Section encode.
Import TlvWriter.

Definition write_entry (sv : TlvWriter) (entry : StateEntry) : TlvWriter :=
  let sv := write_raw sv (NameOps.encode_to_tlv (se_name entry)) in
  write_nested sv T_SEQ_NO_ENTRIES (fun sne =>
    let sne := write_tlv sne T_BOOTSTRAP_TIME (tlv.encode_nni (se_boot entry)) in
    write_tlv sne T_SEQ_NO (tlv.encode_nni (se_seq entry))).

Definition encode_svs_data (entries : list StateEntry) : bytes :=
  finish (write_nested new T_SVS_DATA (fun svs =>
    write_nested svs T_STATE_VECTOR (fun sv => fold_left write_entry entries sv))).
End encode.

(** The boot time and the sequence number read so far. *)
Definition seq_no_body (s : option Z * option Z) (t : Z) (v : bytes) : result (Flow (option Z * option Z) SvsLocalError) PacketError :=
  if t =? T_BOOTSTRAP_TIME then
    match decode_nni v with Ok n => Ok (Next (Some n, s.2)) | Err _ => Ok (Return InvalidNniWidth) end
  else if t =? T_SEQ_NO then
    match decode_nni v with Ok n => Ok (Next (s.1, Some n)) | Err _ => Ok (Return InvalidNniWidth) end
  else Ok (Next s).

Definition decode_seq_no_entry (value : bytes) : result (Z * Z) SvsLocalError :=
  match scan seq_no_body value (None, None) with
  | Err _ => Err Malformed
  | Ok (Return e) => Err e
  | Ok (Next (boot, seq)) =>
      match boot with
      | None => Err (MissingSvsField (str "BootstrapTime"))
      | Some b => match seq with None => Err (MissingSvsField (str "SeqNo")) | Some q => Ok (b, q) end
      end
  end.

(** The loop over the entries; [None] is fuel running out. *)
Fixpoint decode_entries (fuel : nat) (sv : TlvReader.TlvReader) (entries : list StateEntry)
    : option (result (list StateEntry) SvsLocalError) :=
  match fuel with
  | O => None
  | S fuel =>
      if TlvReader.is_empty sv then Some (Ok entries)
      else match TlvReader.read_tlv sv with
      | (Err _, _) => Some (Err Malformed)
      | (Ok (name_typ, name_value), sv) =>
          if negb (name_typ =? tlv_type.NAME) then decode_entries fuel sv entries
          else match NameOps.decode name_value with
          | Err _ => Some (Err Malformed)
          | Ok name =>
              match TlvReader.read_tlv sv with
              | (Err _, _) => Some (Err (MissingSvsField (str "SeqNoEntries")))
              | (Ok (sne_typ, sne_value), sv) =>
                  if negb (sne_typ =? T_SEQ_NO_ENTRIES) then Some (Err (MissingSvsField (str "SeqNoEntries")))
                  else match decode_seq_no_entry sne_value with
                  | Err e => Some (Err e)
                  | Ok (boot, seq) => decode_entries fuel sv (entries ++ [mkEntry name boot seq])
                  end
              end
          end
      end
  end.

(** An element takes at least two bytes, so this fuel is enough
    ([decode_svs_total]). *)
Definition decode_svs_data (b : bytes) : option (result (list StateEntry) SvsLocalError) :=
  match TlvReader.read_tlv (TlvReader.new b) with
  | (Err _, _) => Some (Err Malformed)
  | (Ok (typ, value), _) =>
      if negb (typ =? T_SVS_DATA) then Some (Err (WrongOuterType typ))
      else match TlvReader.read_tlv (TlvReader.new value) with
      | (Err _, _) => Some (Err Malformed)
      | (Ok (sv_typ, sv_value), _) =>
          if negb (sv_typ =? T_STATE_VECTOR) then Some (Err (WrongStateVectorType sv_typ))
          else decode_entries (S (length sv_value)) (TlvReader.new sv_value) []
      end
  end.

(** ** The node ([core.rs]) *)

Definition MAX_TRACKED_PRODUCERS : Z := 16384.
Definition MAX_GAP_SPAN : Z := Z.shiftl 1 16.

Definition clamp_gap_high (low high : Z) : Z := Z.min high (sat_add64 low (MAX_GAP_SPAN - 1)).

Record StateVectorEntry : Type := mkVectorEntry { sv_node : bytes; sv_boot : Z; sv_seq : Z }.

Abbreviation vec_get := (bt_get (V := Z * Z) NameOps.cmp).
Abbreviation vec_insert := (bt_insert (V := Z * Z) NameOps.cmp).

Record SvsCore : Type := mkCore {
  local_name : Name;
  local_boot : Z;
  vector : list (Name * (Z * Z))
}.

(** A fetch range: the producer's name as a string, and the bounds. *)
Abbreviation gap := (bytes * Z * Z)%type.

Module SvsCore.

Definition with_boot_seq (name : Name) (boot seq : Z) : SvsCore := mkCore name boot (vec_insert name (boot, seq) []).
Definition with_boot (name : Name) (boot : Z) : SvsCore := with_boot_seq name boot 0.
Definition new (name : Name) : SvsCore := with_boot name 0.

Definition set_vector (c : SvsCore) (v : list (Name * (Z * Z))) : SvsCore := mkCore (local_name c) (local_boot c) v.

Definition local_key (c : SvsCore) : bytes := display (local_name c).
Definition local_seq (c : SvsCore) : Z := match vec_get (local_name c) (vector c) with Some (_, s) => s | None => 0 end.

(** [None] is the overflow of the sequence number, a panic. *)
Definition advance (c : SvsCore) : option (Z * SvsCore) :=
  let '(b, s) := default (local_boot c, 0) (vec_get (local_name c) (vector c)) in
  if u64_max <? s + 1 then None
  else Some (s + 1, set_vector c (vec_insert (local_name c) (b, s + 1) (vector c))).

(** One received entry: the range to fetch, and the node. *)
Definition merge_entry (advance : bool) (c : SvsCore) (entry : StateEntry) : option gap * SvsCore :=
  if bool_decide (se_name entry = local_name c) then (None, c)
  else if negb (bool_decide (is_Some (vec_get (se_name entry) (vector c)))) && (MAX_TRACKED_PRODUCERS <=? zlen (vector c))
  then (None, c)
  else
    let slot := default (0, 0) (vec_get (se_name entry) (vector c)) in
    let store s := set_vector c (vec_insert (se_name entry) s (vector c)) in
    let '(lb, ls) := slot in
    if lb <? se_boot entry then
      if 1 <=? se_seq entry then
        let high := clamp_gap_high 1 (se_seq entry) in
        (Some (display (se_name entry), 1, high), store (se_boot entry, if advance then high else 0))
      else (None, store (se_boot entry, se_seq entry))
    else if (se_boot entry =? lb) && (ls <? se_seq entry) then
      let high := clamp_gap_high (ls + 1) (se_seq entry) in
      (Some (display (se_name entry), ls + 1, high), store (if advance then (lb, high) else slot))
    else (None, store slot).

Fixpoint merge_inner (received : list StateEntry) (advance : bool) (c : SvsCore) : list gap * SvsCore :=
  match received with
  | [] => ([], c)
  | entry :: received =>
      let '(g, c) := merge_entry advance c entry in
      let '(gaps, c) := merge_inner received advance c in
      (option_list g ++ gaps, c)
  end.

Definition merge (received : list StateEntry) (c : SvsCore) : list gap * SvsCore := merge_inner received true c.
Definition merge_deferred (received : list StateEntry) (c : SvsCore) : list gap * SvsCore := merge_inner received false c.

Definition ack (node_key : bytes) (seq : Z) (c : SvsCore) : SvsCore :=
  match from_str node_key with
  | Err _ => c
  | Ok name =>
      if bool_decide (name = local_name c) then c
      else match vec_get name (vector c) with
           | Some (b, s) => if s <? seq then set_vector c (vec_insert name (b, seq) (vector c)) else c
           | None => if zlen (vector c) <? MAX_TRACKED_PRODUCERS then set_vector c (vec_insert name (0, seq) (vector c)) else c
           end
  end.

Definition snapshot (c : SvsCore) : list StateVectorEntry :=
  map (fun e => mkVectorEntry (display e.1) e.2.1 e.2.2) (vector c).
Definition state_entries (c : SvsCore) : list StateEntry := map (fun e => mkEntry e.1 e.2.1 e.2.2) (vector c).

Definition seq_for (node_key : bytes) (c : SvsCore) : Z :=
  match from_str node_key with
  | Err _ => 0
  | Ok name => match vec_get name (vector c) with Some (_, s) => s | None => 0 end
  end.

End SvsCore.

(** ** The self-only variant ([svs_local.rs]) *)

Record SvsLocal : Type := mkLocal {
  self_name : Name;
  sl_boot : Z;
  sl_seq : Z;
  neighbors : gmap Name NeighborSeqState
}.

Module SvsLocal.

Definition new (name : Name) (boot : Z) : SvsLocal := mkLocal name boot 0 ∅.

(** [fetch_add] wraps, the sum after it is unchecked. *)
Definition advance_seq (l : SvsLocal) : option (Z * SvsLocal) :=
  let l' := mkLocal (self_name l) (sl_boot l) (wrap 64 (sl_seq l + 1)) (neighbors l) in
  if u64_max <? sl_seq l + 1 then None else Some (sl_seq l + 1, l').

Definition self_entry (l : SvsLocal) : StateEntry := mkEntry (self_name l) (sl_boot l) (sl_seq l).
Definition encode_self_state_vector (l : SvsLocal) : bytes := encode_svs_data [self_entry l].

(** [sort_by] on the names, which are distinct: an insertion sort. *)
Definition sorted_neighbors (iter : gmap Name NeighborSeqState -> list (Name * NeighborSeqState)) (l : SvsLocal)
    : list (Name * NeighborSeqState) :=
  fold_left (fun m e => bt_insert NameOps.cmp e.1 e.2 m) (iter (neighbors l)) [].

Definition encode_full_state_vector (iter : gmap Name NeighborSeqState -> list (Name * NeighborSeqState)) (l : SvsLocal) : bytes :=
  encode_svs_data (self_entry l :: map (fun e => mkEntry e.1 (nss_boot e.2) (nss_seq e.2)) (sorted_neighbors iter l)).

Definition apply_entry (l : SvsLocal) (entry : StateEntry) : option NeighborAdvance * SvsLocal :=
  if bool_decide (se_name entry = self_name l) then (None, l)
  else
    let '(adv, st) := NeighborSeqState_apply (default (mkSeqState 0 0) (neighbors l !! se_name entry)) entry in
    (adv, mkLocal (self_name l) (sl_boot l) (sl_seq l) (<[se_name entry := st]> (neighbors l))).

Fixpoint apply_entries (entries : list StateEntry) (l : SvsLocal) : list NeighborAdvance * SvsLocal :=
  match entries with
  | [] => ([], l)
  | e :: entries =>
      let '(a, l) := apply_entry l e in
      let '(advs, l) := apply_entries entries l in
      (option_list a ++ advs, l)
  end.

Definition process_sync (b : bytes) (l : SvsLocal) : option (result (list NeighborAdvance) SvsLocalError * SvsLocal) :=
  match decode_svs_data b with
  | None => None
  | Some (Err e) => Some (Err e, l)
  | Some (Ok entries) => let '(advs, l) := apply_entries entries l in Some (Ok advs, l)
  end.

Definition neighbor (name : Name) (l : SvsLocal) : option NeighborSnapshot :=
  (fun s => mkSnapshot name (nss_boot s) (nss_seq s)) <$> neighbors l !! name.

End SvsLocal.

(** ** The vector as a map *)

(** What a node knows of a producer. *)
Definition view (n : Name) (c : SvsCore) : Z * Z := default (0, 0) (vec_get n (vector c)).

(** Later boots first, then later sequence numbers. *)
Definition lex_le (p q : Z * Z) : Prop := p.1 < q.1 \/ (p.1 = q.1 /\ p.2 <= q.2).
Definition lex_max (p q : Z * Z) : Z * Z :=
  if p.1 <? q.1 then q else if q.1 <? p.1 then p else (p.1, Z.max p.2 q.2).

Record core_ok (c : SvsCore) : Prop := {
  co_sorted : bt_wf NameOps.cmp (vector c);
  co_range : forall n, is_u64 (view n c).1 /\ is_u64 (view n c).2
}.
Definition entry_ok (e : StateEntry) : Prop := is_u64 (se_boot e) /\ is_u64 (se_seq e).

(** An entry about a peer there is a place for. *)
Definition admitted (c : SvsCore) (e : StateEntry) : Prop :=
  se_name e <> local_name c /\ (is_Some (vec_get (se_name e) (vector c)) \/ zlen (vector c) < MAX_TRACKED_PRODUCERS).

#[export] Instance admitted_dec c e : Decision (admitted c e).
Proof. unfold admitted. apply _. Defined.

(** The sequence number the next range starts after. *)
Definition base_of (p : Z * Z) (e : StateEntry) : Z := if p.1 <? se_boot e then 0 else p.2.
Definition wanted (p : Z * Z) (e : StateEntry) : bool := (p.1 <=? se_boot e) && (base_of p e <? se_seq e).
Definition reach (p : Z * Z) (e : StateEntry) : Z := Z.min (se_seq e) (base_of p e + MAX_GAP_SPAN).
Definition merged (advance : bool) (p : Z * Z) (e : StateEntry) : Z * Z :=
  if p.1 <=? se_boot e
  then (se_boot e, if advance && wanted p e then reach p e else base_of p e)
  else p.

Lemma clamp_high p e : is_u64 p.2 -> is_u64 (se_seq e) -> clamp_gap_high (base_of p e + 1) (se_seq e) = reach p e.
Proof. intros H1 H2. unfold clamp_gap_high, reach, sat_add64. change MAX_GAP_SPAN with 65536. unfold base_of in *. unfold_bounds. case_match; lia. Qed.

Lemma vec_get_insert n m s v : bt_wf NameOps.cmp v -> vec_get n (vec_insert m s v) = if decide (n = m) then Some s else vec_get n v.
Proof.
  intros Hwf. rewrite (bt_get_insert NameOps.cmp) by done. destruct (decide (n = m)) as [->|Hne]; [by rewrite (cmp_refl NameOps.cmp)|].
  destruct (NameOps.cmp n m) eqn:E; [|done|done]. by apply (cmp_eq (cmp := NameOps.cmp)) in E.
Qed.

Lemma merge_entry_skip adv c e : ~ admitted c e -> SvsCore.merge_entry adv c e = (None, c).
Proof.
  intros H. unfold SvsCore.merge_entry. destruct (bool_decide_reflect (se_name e = local_name c)); [done|].
  destruct (bool_decide_reflect (is_Some (vec_get (se_name e) (vector c)))); cbn [negb andb]; [exfalso; apply H; split; auto|].
  destruct (Z.leb_spec MAX_TRACKED_PRODUCERS (zlen (vector c))); [done|]. exfalso. apply H. split; [done|]. by right.
Qed.

Lemma merge_entry_admitted adv c e : core_ok c -> entry_ok e -> admitted c e ->
  SvsCore.merge_entry adv c e =
    ((if wanted (view (se_name e) c) e
      then Some (display (se_name e), base_of (view (se_name e) c) e + 1, reach (view (se_name e) c) e) else None),
     SvsCore.set_vector c (vec_insert (se_name e) (merged adv (view (se_name e) c) e) (vector c))).
Proof.
  intros [Hs Hr] [Hb Hq] [Hne Hroom]. destruct (Hr (se_name e)) as [_ Hv]. unfold SvsCore.merge_entry.
  rewrite bool_decide_false by done.
  replace (negb _ && _) with false.
  2:{ symmetry. apply andb_false_iff. destruct Hroom as [Hk|Hk]; [left; by rewrite bool_decide_true|right; by apply Z.leb_gt]. }
  fold (view (se_name e) c). pose proof (clamp_high (view (se_name e) c) e Hv Hq) as Hc. revert Hc.
  unfold merged, wanted, reach, base_of. destruct (view (se_name e) c) as [lb ls]. cbn [fst snd] in *.
  destruct (Z.ltb_spec lb (se_boot e)) as [Hlt|Hge].
  - rewrite (proj2 (Z.leb_le lb (se_boot e))) by lia. cbn [andb]. intros Hc.
    destruct (Z.leb_spec 1 (se_seq e)).
    + rewrite (proj2 (Z.ltb_lt 0 (se_seq e))) by lia. change (0 + 1) with 1 in *. rewrite Hc. by destruct adv.
    + rewrite (proj2 (Z.ltb_ge 0 (se_seq e))) by lia. rewrite andb_false_r. unfold_bounds. by replace (se_seq e) with 0 by lia.
  - intros Hc. destruct (Z.eqb_spec (se_boot e) lb) as [->|Hnb]; cbn [andb].
    + rewrite (proj2 (Z.leb_le lb lb)) by lia. cbn [andb]. rewrite Hc.
      destruct (Z.ltb_spec ls (se_seq e)); [by destruct adv|]. by rewrite andb_false_r.
    + rewrite (proj2 (Z.leb_gt lb (se_boot e))) by lia. done.
Qed.

Lemma view_store n m s c : bt_wf NameOps.cmp (vector c) ->
  view n (SvsCore.set_vector c (vec_insert m s (vector c))) = if decide (n = m) then s else view n c.
Proof. intros Hwf. unfold view. cbn [vector SvsCore.set_vector]. rewrite vec_get_insert by done. by destruct (decide _). Qed.

Lemma merged_range adv p e : is_u64 p.1 -> is_u64 p.2 -> entry_ok e -> is_u64 (merged adv p e).1 /\ is_u64 (merged adv p e).2.
Proof.
  intros H1 H2 [H3 H4]. unfold merged, wanted, reach, base_of. change MAX_GAP_SPAN with 65536.
  unfold_bounds. repeat case_match; cbn [fst snd]; lia.
Qed.

Lemma merged_le adv p e : lex_le p (merged adv p e).
Proof.
  unfold lex_le, merged, wanted, reach, base_of. change MAX_GAP_SPAN with 65536. destruct p as [lb ls]. cbn [fst snd].
  repeat bcase_step; destruct adv; cbn [fst snd andb]; repeat bcase_step; cbn [fst snd]; lia.
Qed.

(** One entry: the node it gives. *)
Lemma merge_entry_spec adv c e : core_ok c -> entry_ok e ->
  let '(g, c') := SvsCore.merge_entry adv c e in
  core_ok c' /\ local_name c' = local_name c /\ local_boot c' = local_boot c /\
  zlen (vector c') <= Z.max (zlen (vector c)) MAX_TRACKED_PRODUCERS /\ zlen (vector c') <= zlen (vector c) + 1 /\
  (forall n, view n c' = if decide (n = se_name e /\ admitted c e) then merged adv (view n c) e else view n c) /\
  (forall n, is_Some (vec_get n (vector c')) <-> is_Some (vec_get n (vector c)) \/ (n = se_name e /\ admitted c e)) /\
  g = (if bool_decide (admitted c e) && wanted (view (se_name e) c) e
       then Some (display (se_name e), base_of (view (se_name e) c) e + 1, reach (view (se_name e) c) e) else None).
Proof.
  intros Hok He. destruct (decide (admitted c e)) as [Ha|Ha].
  - rewrite merge_entry_admitted by done. rewrite bool_decide_true by done. pose proof Hok as [Hs Hr].
    assert (forall n, view n (SvsCore.set_vector c (vec_insert (se_name e) (merged adv (view (se_name e) c) e) (vector c))) =
      if decide (n = se_name e /\ admitted c e) then merged adv (view n c) e else view n c) as Hv.
    { intros n. rewrite view_store by done. destruct (decide (n = se_name e)) as [->|Hne].
      - by rewrite decide_True.
      - by rewrite decide_False by tauto. }
    cbn [vector SvsCore.set_vector local_name local_boot].
    assert (zlen (vec_insert (se_name e) (merged adv (view (se_name e) c) e) (vector c)) =
      zlen (vector c) + (if decide (is_Some (vec_get (se_name e) (vector c))) then 0 else 1)) as Hl.
    { rewrite (bt_insert_length NameOps.cmp) by done. destruct (vec_get (se_name e) (vector c)) as [x|]; done. }
    split_conj; try done.
    + split; [by apply (bt_insert_wf NameOps.cmp)|]. intros n. rewrite Hv. destruct (decide (n = se_name e /\ admitted c e)); [|apply Hr].
      apply merged_range; [apply Hr|apply Hr|done].
    + rewrite Hl. destruct Ha as [_ [Hk|Hk]]; [rewrite decide_True by done; lia|]. destruct (decide _); lia.
    + rewrite Hl. destruct (decide _); lia.
    + intros n. rewrite vec_get_insert by done. destruct (decide (n = se_name e)) as [->|Hne]; [by split; eauto|].
      split; [by left|]. intros [?|[? _]]; done.
  - rewrite merge_entry_skip by done. rewrite bool_decide_false by done. split_conj; try done; [lia|lia| |].
    + intros n. by rewrite decide_False by tauto.
    + intros n. split; [by left|]. intros [?|[_ ?]]; done.
Qed.

Lemma lex_le_refl p : lex_le p p.
Proof. right. lia. Qed.
Lemma lex_le_trans p q r : lex_le p q -> lex_le q r -> lex_le p r.
Proof. unfold lex_le. lia. Qed.

(** A peer cannot be credited with more than it claimed. *)
Lemma merged_claim adv p e : 0 <= se_seq e -> merged adv p e = p \/ lex_le (merged adv p e) (se_boot e, se_seq e).
Proof.
  intros Hq. destruct p as [lb ls]. unfold merged, wanted, reach, base_of, lex_le. cbn [fst snd]. change MAX_GAP_SPAN with 65536.
  repeat bcase_step; destruct adv; cbn [andb fst snd]; repeat bcase_step; cbn [fst snd]; try (right; right; lia); try by left.
  all: left; f_equal; lia.
Qed.

(** A whole vector. *)
Definition gap_sound (received : list StateEntry) (self : Name) (g : gap) : Prop :=
  let '(node, lo, hi) := g in
  exists e, e ∈ received /\ se_name e <> self /\ node = display (se_name e) /\
    1 <= lo <= hi /\ hi <= se_seq e /\ hi - lo < MAX_GAP_SPAN.

Lemma merge_inner_spec adv received : forall c, core_ok c -> Forall entry_ok received ->
  let '(gaps, c') := SvsCore.merge_inner received adv c in
  core_ok c' /\ local_name c' = local_name c /\ view (local_name c) c' = view (local_name c) c /\
  zlen (vector c') <= Z.max (zlen (vector c)) MAX_TRACKED_PRODUCERS /\
  (forall n, lex_le (view n c) (view n c')) /\
  (forall n, view n c' = view n c \/ exists e, e ∈ received /\ se_name e = n /\ lex_le (view n c') (se_boot e, se_seq e)) /\
  Forall (gap_sound received (local_name c)) gaps.
Proof.
  induction received as [|e received IH]; intros c Hok Hr; cbn [SvsCore.merge_inner].
  - split_conj; try done; [lia|intros; apply lex_le_refl|by left].
  - apply Forall_cons in Hr as [He Hr]. pose proof (merge_entry_spec adv c e Hok He) as Hm.
    destruct (SvsCore.merge_entry adv c e) as [g c1]. destruct Hm as (Hok1 & Hn1 & _ & Hz1 & _ & Hv1 & _ & Hg).
    specialize (IH c1 Hok1 Hr). destruct (SvsCore.merge_inner received adv c1) as [gaps c2].
    destruct IH as (Hok2 & Hn2 & Hself & Hz2 & Hle & Hcl & Hgs). rewrite Hn1 in *. split_conj; try done.
    + rewrite Hself, Hv1. rewrite decide_False; [done|]. intros [H [Hne _]]. by symmetry in H.
    + lia.
    + intros n. eapply lex_le_trans; [|apply Hle]. rewrite Hv1. destruct (decide _); [apply merged_le|apply lex_le_refl].
    + intros n. destruct (Hcl n) as [H|(e' & Hin & Hna & H)]; [|right; exists e'; split; [by right|done]].
      rewrite H, Hv1. destruct (decide (n = se_name e /\ admitted c e)) as [[Hna _]|_]; [|by left].
      destruct (merged_claim adv (view n c) e) as [->|H']; [apply He|by left|]. right. exists e. split; [by left|done].
    + apply Forall_app. split.
      * rewrite Hg. destruct (bool_decide_reflect (admitted c e)) as [[Hne _]|]; cbn [andb option_list]; [|constructor].
        destruct (wanted _ _) eqn:Hw; [|constructor]. apply Forall_singleton. exists e. split; [by left|]. split_conj; [done|done|..];
          revert Hw; unfold wanted, reach; change MAX_GAP_SPAN with 65536; destruct Hok as [_ Hrng]; destruct (Hrng (se_name e));
          unfold base_of; unfold_bounds; repeat bcase_step; cbn [andb]; try done; lia.
      * eapply Forall_impl; [exact Hgs|]. intros [[node lo] hi] (e' & ? & ?). exists e'. split; [by right|done].
Qed.

(** *** Catching up *)

(** The same claim, round after round. *)
Fixpoint rounds (k : nat) (e : StateEntry) (c : SvsCore) : list gap * SvsCore :=
  match k with
  | O => ([], c)
  | S k => let '(gs, c) := SvsCore.merge [e] c in let '(gs', c) := rounds k e c in (gs ++ gs', c)
  end.

(** The sequence numbers a list of ranges asks for. *)
Definition publications (gs : list gap) : list Z := concat (map (fun '(_, lo, hi) => seqZ lo (hi - lo + 1)) gs).

Lemma seqZ_join a n m : 0 <= n -> 0 <= m -> seqZ a n ++ seqZ (a + n) m = seqZ a (n + m).
Proof. intros. symmetry. by apply seqZ_app. Qed.

Lemma rounds_spec e k : forall c, core_ok c -> entry_ok e -> admitted c e -> (view (se_name e) c).1 <= se_boot e ->
  let base := base_of (view (se_name e) c) e in
  let '(gs, c') := rounds k e c in
  core_ok c' /\ Forall (fun g => g.1.1 = display (se_name e)) gs /\
  publications gs = seqZ (base + 1) (Z.min (Z.max 0 (se_seq e - base)) (Z.of_nat k * MAX_GAP_SPAN)) /\
  (k <> O -> view (se_name e) c' = (se_boot e, Z.max base (Z.min (se_seq e) (base + Z.of_nat k * MAX_GAP_SPAN)))).
Proof.
  induction k as [|k IH]; intros c Hok He Ha Hb base; cbn [rounds].
  - split_conj; [done|constructor| |done]. rewrite Z.min_r by lia. done.
  - unfold SvsCore.merge. cbn [SvsCore.merge_inner]. pose proof (merge_entry_spec true c e Hok He) as Hm.
    destruct (SvsCore.merge_entry true c e) as [g c1].
    destruct Hm as (Hok1 & Hn1 & _ & _ & _ & Hv1 & Hk1 & Hg).
    specialize (Hv1 (se_name e)). rewrite decide_True in Hv1 by done.
    assert (admitted c1 e) as Ha1. { split; [rewrite Hn1; apply Ha|left]. apply Hk1. by right. }
    assert (base = base_of (view (se_name e) c) e) as Hbase by done. clearbody base.
    assert (0 <= base) as Hb0. { destruct Hok as [_ Hr]. destruct (Hr (se_name e)). subst base. unfold base_of. unfold_bounds. destruct (_ <? _); lia. }
    assert (view (se_name e) c1 = (se_boot e, if base <? se_seq e then Z.min (se_seq e) (base + MAX_GAP_SPAN) else base)) as Hv.
    { rewrite Hv1. unfold merged, wanted, reach. rewrite (proj2 (Z.leb_le _ _)) by done. cbn [andb]. by rewrite <- Hbase. }
    assert (g = if base <? se_seq e then Some (display (se_name e), base + 1, Z.min (se_seq e) (base + MAX_GAP_SPAN)) else None) as Hg'.
    { rewrite Hg, bool_decide_true by done. unfold wanted, reach. rewrite (proj2 (Z.leb_le _ _)) by done. cbn [andb]. by rewrite <- Hbase. }
    clear Hg Hv1. specialize (IH c1 Hok1 He Ha1 ltac:(rewrite Hv; cbn; lia)). cbv zeta in IH.
    assert (base_of (view (se_name e) c1) e = (view (se_name e) c1).2) as Hb1 by (unfold base_of; rewrite Hv; cbn [fst]; by rewrite Z.ltb_irrefl).
    rewrite Hb1, Hv in IH. cbn [snd] in IH. destruct (rounds k e c1) as [gs c2] eqn:Er.
    destruct IH as (Hok2 & Hf & Hp & Hvk). cbn [app option_list]. rewrite app_nil_r. change MAX_GAP_SPAN with 65536 in *.
    replace (Z.of_nat (S k)) with (Z.of_nat k + 1) by lia.
    destruct (Z.ltb_spec base (se_seq e)) as [Hlt|Hge]; subst g; cbn [option_list app].
    + change (option_list (Some ?x) ++ gs) with (x :: gs). split_conj; [done|by apply Forall_cons| |].
      * change (publications ((display (se_name e), base + 1, Z.min (se_seq e) (base + 65536)) :: gs))
          with (seqZ (base + 1) (Z.min (se_seq e) (base + 65536) - (base + 1) + 1) ++ publications gs).
        rewrite Hp. set (n1 := Z.min (se_seq e) (base + 65536) - (base + 1) + 1).
        replace (Z.min (se_seq e) (base + 65536) + 1) with ((base + 1) + n1) by lia.
        rewrite seqZ_join by lia. f_equal. lia.
      * intros _. destruct k as [|k]; [|rewrite Hvk by done; f_equal; lia].
        injection Er as _ <-. rewrite Hv. f_equal. lia.
    + change (option_list None ++ gs) with gs. split_conj; [done|done| |].
      * rewrite Hp. rewrite !Z.max_l by lia. by rewrite !Z.min_l by lia.
      * intros _. destruct k as [|k]; [|rewrite Hvk by done; f_equal; lia].
        injection Er as _ <-. rewrite Hv. f_equal. lia.
Qed.

(** *** Merging another node's vector *)

(** Near enough for one round. *)
Definition close (p q : Z * Z) : Prop :=
  (p.1 < q.1 -> q.2 <= MAX_GAP_SPAN) /\ (p.1 = q.1 -> q.2 - p.2 <= MAX_GAP_SPAN).

Lemma merged_max p n q : 0 <= q.2 -> close p q -> merged true p (mkEntry n q.1 q.2) = lex_max p q.
Proof.
  intros H0 [H1 H2]. destruct p as [lb ls], q as [b s]. unfold merged, lex_max, wanted, reach, base_of. cbn [fst snd se_boot se_seq] in *.
  change MAX_GAP_SPAN with 65536 in *. repeat bcase_step; cbn [andb]; repeat bcase_step; try lia; f_equal; lia.
Qed.

(** Entries under distinct names, with room for all of them. *)
Lemma merge_distinct adv received : forall c, core_ok c -> Forall entry_ok received -> NoDup (map se_name received) ->
  zlen (vector c) + zlen received <= MAX_TRACKED_PRODUCERS ->
  let c' := (SvsCore.merge_inner received adv c).2 in
  local_name c' = local_name c /\
  (forall n, n ∉ map se_name received \/ n = local_name c -> view n c' = view n c) /\
  (forall e, e ∈ received -> se_name e <> local_name c -> view (se_name e) c' = merged adv (view (se_name e) c) e).
Proof.
  induction received as [|e received IH]; intros c Hok Hr Hnd Hz; cbn [SvsCore.merge_inner].
  - split; [done|]. split; [done|]. by intros e ?%not_elem_of_nil.
  - apply Forall_cons in Hr as [He Hr]. cbn [map] in Hnd. apply NoDup_cons in Hnd as [Hni Hnd]. rewrite zlen_cons in Hz.
    pose proof (zlen_nonneg received). pose proof (merge_entry_spec adv c e Hok He) as Hm.
    destruct (SvsCore.merge_entry adv c e) as [g c1]. destruct Hm as (Hok1 & Hn1 & _ & _ & Hz1 & Hv1 & _).
    specialize (IH c1 Hok1 Hr Hnd ltac:(lia)). destruct (SvsCore.merge_inner received adv c1) as [gaps c2]. cbn [snd] in *.
    destruct IH as (Hn2 & Ho & Hin). rewrite Hn1 in *. split_conj; [done| |].
    + intros n Hn. rewrite Ho by (destruct Hn as [Hn|Hn]; [left; set_solver|by right]). rewrite Hv1, decide_False; [done|].
      intros [-> [Hne _]]. destruct Hn as [Hn|Hn]; [|done]. apply Hn. cbn [map]. by left.
    + intros e' He' Hne. apply elem_of_cons in He' as [->|He'].
      * rewrite Ho by by left. rewrite Hv1, decide_True; [done|]. split; [done|]. split; [done|]. right. lia.
      * rewrite Hin by done. rewrite Hv1, decide_False; [done|]. intros [Heq _]. apply Hni. rewrite <- Heq.
        apply list_elem_of_fmap. by exists e'.
Qed.

Lemma map_entries_names c : map se_name (SvsCore.state_entries c) = map fst (vector c).
Proof. unfold SvsCore.state_entries. by rewrite map_map. Qed.

Lemma names_nodup c : core_ok c -> NoDup (map fst (vector c)).
Proof.
  intros [Hs _]. pose proof (bt_keys_nodup NameOps.cmp (fun _ => true) (vector c) Hs) as H.
  rewrite List.forallb_filter_id in H; [done|]. by apply List.forallb_forall.
Qed.

Lemma view_elem n p c : core_ok c -> (n, p) ∈ vector c -> view n c = p.
Proof. intros [Hs _] H. apply (bt_elem_of NameOps.cmp) in H; [|done]. unfold view. by rewrite H. Qed.

(** A node that merges a near vector takes the later of both views of every
    producer but itself. *)
Lemma merge_joins a b : core_ok a -> core_ok b -> zlen (vector a) + zlen (vector b) <= MAX_TRACKED_PRODUCERS ->
  (forall n, close (view n a) (view n b)) ->
  forall n, view n (SvsCore.merge (SvsCore.state_entries b) a).2 =
    if decide (n = local_name a) then view n a else lex_max (view n a) (view n b).
Proof.
  intros Ha Hb Hz Hcl n. destruct (merge_distinct true (SvsCore.state_entries b) a) as (_ & Ho & Hin).
  - done.
  - apply Forall_map, List.Forall_forall. intros [m p] Hm. apply list_elem_of_In in Hm. cbn.
    rewrite <- (view_elem m p b Hb Hm). apply Hb.
  - rewrite map_entries_names. by apply names_nodup.
  - unfold SvsCore.state_entries, zlen in *. rewrite length_map. lia.
  - unfold SvsCore.merge. destruct (decide (n = local_name a)) as [->|Hne]; [by apply Ho; right|].
    destruct (vec_get n (vector b)) as [p|] eqn:Hg.
    + assert (view n b = p) as Hv by (unfold view; by rewrite Hg).
      assert (mkEntry n p.1 p.2 ∈ SvsCore.state_entries b) as Hel.
      { apply list_elem_of_fmap. exists (n, p). split; [done|]. by apply (bt_elem_of NameOps.cmp); [apply Hb|]. }
      specialize (Hin _ Hel Hne). cbn [se_name] in Hin. rewrite Hin, merged_max, Hv; [done| |rewrite <- Hv; apply Hcl].
      rewrite <- Hv. destruct Hb as [_ Hr]. apply Hr.
    + assert (view n b = (0, 0)) as Hv by (unfold view; by rewrite Hg). rewrite Hv, Ho.
      * destruct Ha as [_ Hr]. destruct (Hr n). unfold lex_max. destruct (view n a) as [x y]. cbn [fst snd] in *. unfold_bounds.
        repeat bcase_step; try lia; f_equal; lia.
      * left. rewrite map_entries_names. intros ([m p] & -> & Hm)%list_elem_of_fmap.
        apply (bt_elem_of NameOps.cmp) in Hm; [|apply Hb]. cbn in Hg. congruence.
Qed.

(** ** The wire form *)

Lemma encode_nni_spec n : is_u64 n -> tlv.encode_nni n = nni_bytes n.
Proof.
  intros Hn. rewrite nni_bytes_spec. unfold tlv.encode_nni, nni_width, wrap. unfold_bounds.
  repeat bcase_step; try lia; rewrite ?Z.mod_small by lia; try done.
  change (be_encode 1 n) with [n mod 256]. by rewrite Z.mod_small by lia.
Qed.

Definition seq_no_elems (e : StateEntry) : list elem :=
  [(T_BOOTSTRAP_TIME, nni_bytes (se_boot e)); (T_SEQ_NO, nni_bytes (se_seq e))].
Definition entry_elems (e : StateEntry) : list elem :=
  [(tlv_type.NAME, name_wire (se_name e)); (T_SEQ_NO_ENTRIES, elems_wire (seq_no_elems e))].
Definition vector_wire (es : list StateEntry) : bytes := elems_wire (concat (map entry_elems es)).

Lemma seq_no_size e : zlen (elems_wire (seq_no_elems e)) <= 20.
Proof.
  unfold seq_no_elems. rewrite !elems_wire_cons, !zlen_app. cbn [fst snd]. rewrite !zlen_tlv_bytes. unfold tlv_size.
  change (elems_wire []) with (@nil Z). rewrite zlen_nil. change (varu64_size T_BOOTSTRAP_TIME) with 1. change (varu64_size T_SEQ_NO) with 1.
  pose proof (zlen_nni_bytes (se_boot e)). pose proof (zlen_nni_bytes (se_seq e)). unfold varu64_size. repeat bcase_step; lia.
Qed.

Lemma decode_seq_no_ok e : entry_ok e -> decode_seq_no_entry (elems_wire (seq_no_elems e)) = Ok (se_boot e, se_seq e).
Proof.
  intros [Hb Hs]. unfold decode_seq_no_entry. rewrite scan_elems.
  - unfold seq_no_elems. cbn [fold_flow]. unfold seq_no_body at 1. cbn [Z.eqb T_BOOTSTRAP_TIME]. rewrite decode_nni_bytes by done.
    unfold seq_no_body. cbn. rewrite decode_nni_bytes by done. done.
  - repeat (apply Forall_cons; split; [split; [by vm_compute|apply wf_nni_bytes]|]). constructor.
  - pose proof (seq_no_size e). unfold_bounds. lia.
Qed.

Definition wf_entry (e : StateEntry) : Prop := entry_ok e /\ wf_name (se_name e).

Lemma vector_wire_cons e es :
  vector_wire (e :: es) = tlv_bytes tlv_type.NAME (name_wire (se_name e)) ++
    tlv_bytes T_SEQ_NO_ENTRIES (elems_wire (seq_no_elems e)) ++ vector_wire es.
Proof. unfold vector_wire. cbn [map concat entry_elems app]. by rewrite !elems_wire_cons. Qed.

Lemma decode_entries_ok es : forall fuel sv acc, TlvReader.wf sv -> TlvReader.as_bytes sv = vector_wire es ->
  Forall wf_entry es -> zlen (vector_wire es) <= usize_max -> (length es < fuel)%nat ->
  decode_entries fuel sv acc = Some (Ok (acc ++ es)).
Proof.
  induction es as [|e es IH]; intros [|fuel] sv acc Hwf Hb He Hz Hf; try (cbn in Hf; lia); cbn [decode_entries].
  - rewrite (proj2 (is_empty_spec sv Hwf)) by exact Hb. by rewrite app_nil_r.
  - apply Forall_cons in He as [[Hok Hn] He]. rewrite vector_wire_cons in Hb, Hz. destruct (TlvReader.is_empty sv) eqn:Hem.
    { apply is_empty_spec in Hem; [|done]. rewrite Hb in Hem. by apply tlv_bytes_nonempty in Hem. }
    rewrite !zlen_app, !zlen_tlv_bytes in Hz.
    pose proof (tlv_size_bounds tlv_type.NAME _ (zlen_nonneg (name_wire (se_name e)))).
    pose proof (tlv_size_bounds T_SEQ_NO_ENTRIES _ (zlen_nonneg (elems_wire (seq_no_elems e)))).
    pose proof (zlen_nonneg (name_wire (se_name e))). pose proof (zlen_nonneg (elems_wire (seq_no_elems e))).
    pose proof (zlen_nonneg (vector_wire es)).
    destruct (read_tlv_ok sv tlv_type.NAME (name_wire (se_name e)) _ Hwf ltac:(split; by vm_compute) Hb) as (sv1 & -> & Hb1 & Hwf1). rewrite Z.eqb_refl. cbn [negb].
    rewrite decode_wire by (done || lia).
    destruct (read_tlv_ok sv1 T_SEQ_NO_ENTRIES (elems_wire (seq_no_elems e)) _ Hwf1 ltac:(split; by vm_compute) Hb1) as (sv2 & -> & Hb2 & Hwf2). rewrite Z.eqb_refl. cbn [negb].
    rewrite decode_seq_no_ok by exact Hok. replace (mkEntry _ _ _) with e by by destruct e.
    rewrite (IH fuel sv2 (acc ++ [e]) Hwf2 Hb2 He ltac:(lia) ltac:(cbn in Hf; lia)). by rewrite <- app_assoc.
Qed.

Lemma fold_write_entries es : forall w, Forall (fun e => entry_ok e /\ name_fits (se_name e)) es ->
  TlvWriter.buf (fold_left write_entry es w) = TlvWriter.buf w ++ vector_wire es.
Proof.
  induction es as [|e es IH]; intros w He; cbn [fold_left]; [by rewrite app_nil_r|].
  apply Forall_cons in He as [[[Hb Hs] Hn] He]. rewrite IH by done. unfold write_entry.
  assert (TlvWriter.buf (TlvWriter.write_tlv (TlvWriter.write_tlv TlvWriter.new T_BOOTSTRAP_TIME (tlv.encode_nni (se_boot e)))
    T_SEQ_NO (tlv.encode_nni (se_seq e))) = elems_wire (seq_no_elems e)) as Hin.
  { pose proof (zlen_nni_bytes (se_boot e)). pose proof (zlen_nni_bytes (se_seq e)).
    rewrite !encode_nni_spec, !buf_write_tlv by (done || (unfold_bounds; lia)).
    unfold seq_no_elems. rewrite !elems_wire_cons. cbn [fst snd TlvWriter.buf TlvWriter.new app].
    change (elems_wire []) with (@nil Z). by rewrite app_nil_r. }
  rewrite buf_write_nested; [|done|rewrite Hin; pose proof (seq_no_size e); unfold_bounds; lia].
  rewrite Hin, vector_wire_cons. cbn [TlvWriter.buf TlvWriter.write_raw]. rewrite encode_to_tlv_spec by done. by rewrite <- !app_assoc.
Qed.

Lemma encode_svs_wire es : Forall (fun e => entry_ok e /\ name_fits (se_name e)) es -> zlen (vector_wire es) + 40 <= usize_max ->
  encode_svs_data es = tlv_bytes T_SVS_DATA (tlv_bytes T_STATE_VECTOR (vector_wire es)).
Proof.
  intros He Hz. unfold encode_svs_data, TlvWriter.finish.
  pose proof (tlv_size_bounds T_STATE_VECTOR _ (zlen_nonneg (vector_wire es))).
  assert (TlvWriter.buf (TlvWriter.write_nested TlvWriter.new T_STATE_VECTOR (fun sv => fold_left write_entry es sv)) =
    tlv_bytes T_STATE_VECTOR (vector_wire es)) as Hin.
  { rewrite buf_write_nested; rewrite ?fold_write_entries by done; [done|done|].
    change (TlvWriter.buf TlvWriter.new) with (@nil Z). cbn [app]. unfold_bounds. lia. }
  rewrite buf_write_nested; rewrite ?Hin; [done|done|]. rewrite zlen_tlv_bytes. unfold_bounds. lia.
Qed.

(** The loop ends. *)
Lemma decode_entries_total fuel : forall sv acc, TlvReader.wf sv -> (length (TlvReader.as_bytes sv) < fuel)%nat ->
  exists res, decode_entries fuel sv acc = Some res.
Proof.
  induction fuel as [|fuel IH]; intros sv acc Hwf Hf; [lia|]. cbn [decode_entries].
  destruct (TlvReader.is_empty sv); [by eexists|]. destruct (TlvReader.read_tlv sv) as [[[t v]|e] sv1] eqn:E1; [|by eexists].
  pose proof (read_tlv_shorter _ _ _ _ Hwf E1). destruct (read_tlv_inv _ _ _ _ Hwf E1) as (_ & _ & Hwf1).
  destruct (negb _); [apply IH; [done|lia]|]. destruct (NameOps.decode v) as [name|]; [|by eexists].
  destruct (TlvReader.read_tlv sv1) as [[[t2 v2]|e] sv2] eqn:E2; [|by eexists].
  pose proof (read_tlv_shorter _ _ _ _ Hwf1 E2). destruct (read_tlv_inv _ _ _ _ Hwf1 E2) as (_ & _ & Hwf2).
  destruct (negb _); [by eexists|]. destruct (decode_seq_no_entry v2) as [[b s]|]; [|by eexists]. apply IH; [done|lia].
Qed.

Lemma decode_svs_total b : wf_bytes b -> zlen b <= usize_max -> exists res, decode_svs_data b = Some res.
Proof.
  intros Hwf Hl. unfold decode_svs_data. pose proof (new_wf b Hwf Hl) as Hr.
  destruct (TlvReader.read_tlv (TlvReader.new b)) as [[[t v]|] r1] eqn:E1; [|by eexists].
  destruct (negb _); [by eexists|]. pose proof (read_tlv_value_wf _ _ _ _ Hr E1) as Hv.
  assert (zlen v <= usize_max) as Hlv.
  { destruct (read_tlv_inv _ _ _ _ Hr E1) as (Hb & _ & _). rewrite as_bytes_new in Hb. rewrite Hb, zlen_app, zlen_tlv_bytes in Hl.
    pose proof (tlv_size_bounds t _ (zlen_nonneg v)). pose proof (zlen_nonneg (TlvReader.as_bytes r1)). lia. }
  pose proof (new_wf v Hv Hlv) as Hr2.
  destruct (TlvReader.read_tlv (TlvReader.new v)) as [[[t2 v2]|] r2] eqn:E2; [|by eexists].
  destruct (negb _); [by eexists|]. pose proof (read_tlv_value_wf _ _ _ _ Hr2 E2) as Hv2.
  apply decode_entries_total.
  - apply new_wf; [done|]. destruct (read_tlv_inv _ _ _ _ Hr2 E2) as (Hb & _ & _). rewrite as_bytes_new in Hb.
    rewrite Hb, zlen_app, zlen_tlv_bytes in Hlv. pose proof (tlv_size_bounds t2 _ (zlen_nonneg v2)). pose proof (zlen_nonneg (TlvReader.as_bytes r2)). lia.
  - rewrite as_bytes_new. lia.
Qed.

Lemma vector_names es : Forall wf_entry es -> zlen (vector_wire es) + 40 <= usize_max ->
  Forall (fun e => entry_ok e /\ name_fits (se_name e)) es.
Proof.
  induction es as [|e es IH]; intros He Hz; [constructor|]. apply Forall_cons in He as [[Hok Hn] He].
  rewrite vector_wire_cons, !zlen_app, !zlen_tlv_bytes in Hz.
  pose proof (tlv_size_bounds tlv_type.NAME _ (zlen_nonneg (name_wire (se_name e)))).
  pose proof (tlv_size_bounds T_SEQ_NO_ENTRIES _ (zlen_nonneg (elems_wire (seq_no_elems e)))).
  pose proof (zlen_nonneg (elems_wire (seq_no_elems e))). pose proof (zlen_nonneg (vector_wire es)).
  pose proof (zlen_nonneg (name_wire (se_name e))).
  apply Forall_cons. split; [split; [done|split; [done|lia]]|apply IH; [done|lia]].
Qed.

Lemma wf_vector_wire es : Forall wf_entry es -> wf_bytes (vector_wire es).
Proof.
  intros He. apply wf_elems_wire. induction He as [|e es [Hok Hn] _ IH]; cbn [map concat entry_elems app]; [constructor|].
  apply Forall_cons. split; [split; [split; by vm_compute|by apply wf_name_wire]|]. apply Forall_cons. split; [|done].
  split; [split; by vm_compute|]. apply wf_elems_wire.
  repeat (apply Forall_cons; split; [split; [split; by vm_compute|apply wf_nni_bytes]|]). constructor.
Qed.

Lemma length_vector_wire es : (length es <= length (vector_wire es))%nat.
Proof.
  induction es as [|e es IH]; [cbn; lia|]. rewrite vector_wire_cons, !length_app. cbn [length].
  assert (1 <= length (tlv_bytes tlv_type.NAME (name_wire (se_name e))))%nat; [|lia]. cbn. lia.
Qed.

Lemma decode_encode_svs es rest : wf_bytes rest -> Forall wf_entry es -> zlen (vector_wire es) + 40 + zlen rest <= usize_max ->
  decode_svs_data (encode_svs_data es ++ rest) = Some (Ok es).
Proof.
  intros Hrest He Hz. pose proof (zlen_nonneg rest). pose proof (vector_names es He ltac:(lia)) as Hf.
  rewrite encode_svs_wire by (done || lia). pose proof (wf_vector_wire es He) as Hwv.
  pose proof (tlv_size_bounds T_STATE_VECTOR _ (zlen_nonneg (vector_wire es))).
  set (sv := tlv_bytes T_STATE_VECTOR (vector_wire es)).
  assert (zlen sv <= zlen (vector_wire es) + 18) as Hsv by (unfold sv; rewrite zlen_tlv_bytes; lia).
  assert (wf_bytes sv) as Hwsv by (by apply wf_tlv_bytes).
  pose proof (tlv_size_bounds T_SVS_DATA _ (zlen_nonneg sv)). unfold decode_svs_data.
  destruct (read_tlv_ok (TlvReader.new (tlv_bytes T_SVS_DATA sv ++ rest)) T_SVS_DATA sv rest) as (r1 & -> & _).
  { apply new_wf; [apply wf_bytes_app; split; [by apply wf_tlv_bytes|done]|]. rewrite zlen_app, zlen_tlv_bytes. lia. }
  { split; by vm_compute. }
  { by rewrite as_bytes_new. }
  rewrite Z.eqb_refl. cbn [negb].
  destruct (read_tlv_ok (TlvReader.new sv) T_STATE_VECTOR (vector_wire es) []) as (r2 & -> & _).
  { apply new_wf; [done|lia]. }
  { split; by vm_compute. }
  { by rewrite as_bytes_new, app_nil_r. }
  rewrite Z.eqb_refl. cbn [negb].
  rewrite (decode_entries_ok es); [done|apply new_wf; [done|lia]|by rewrite as_bytes_new|done|lia|].
  pose proof (length_vector_wire es). lia.
Qed.

(** ** Properties *)

(** What a merge can do.  For any received vector, however forged, eager or
    deferred: a node's own entry does not change; what it knows of any producer
    never goes back, and is never past what it knew or what some received entry
    claims; the number of producers stays within the limit; and each range to
    fetch is a nonempty range of at most 65536 numbers within a received claim
    about another node. *)
Theorem svs_merge_safe (received : list StateEntry) (advance : bool) (c : SvsCore) :
  core_ok c -> Forall entry_ok received ->
  let '(gaps, c') := SvsCore.merge_inner received advance c in
  view (local_name c) c' = view (local_name c) c /\
  (forall n, lex_le (view n c) (view n c')) /\
  (forall n, view n c' = view n c \/ exists e, e ∈ received /\ se_name e = n /\ lex_le (view n c') (se_boot e, se_seq e)) /\
  zlen (vector c') <= Z.max (zlen (vector c)) MAX_TRACKED_PRODUCERS /\
  Forall (fun '(node, lo, hi) => exists e, e ∈ received /\ se_name e <> local_name c /\ node = display (se_name e) /\
            1 <= lo <= hi /\ hi <= se_seq e /\ hi - lo < MAX_GAP_SPAN) gaps.
Proof.
  intros Hok Hr. pose proof (merge_inner_spec advance received c Hok Hr) as H.
  destruct (SvsCore.merge_inner received advance c) as [gaps c']. destruct H as (_ & _ & H1 & H2 & H3 & H4 & H5).
  by split_conj.
Qed.

(** A node catches up.  While a peer claims [seq] under a boot time that is
    not older than the one known, [k] rounds ask for exactly the publications
    that are missing, each once and in order, 65536 at a time; after enough
    rounds all have been asked for, the node has recorded the claim, and further
    rounds ask for nothing. *)
Theorem svs_catch_up (e : StateEntry) (c : SvsCore) (k : nat) :
  core_ok c -> entry_ok e -> admitted c e -> (view (se_name e) c).1 <= se_boot e ->
  let base := if (view (se_name e) c).1 <? se_boot e then 0 else (view (se_name e) c).2 in
  let '(gs, c') := rounds k e c in
  Forall (fun g => g.1.1 = display (se_name e)) gs /\
  publications gs = seqZ (base + 1) (Z.min (Z.max 0 (se_seq e - base)) (Z.of_nat k * MAX_GAP_SPAN)) /\
  (k <> O -> se_seq e - base <= Z.of_nat k * MAX_GAP_SPAN -> view (se_name e) c' = (se_boot e, Z.max base (se_seq e))).
Proof.
  intros Hok He Ha Hb base. pose proof (rounds_spec e k c Hok He Ha Hb) as H. cbv zeta in H.
  destruct (rounds k e c) as [gs c']. destruct H as (_ & H1 & H2 & H3). split_conj; [done|exact H2|].
  intros Hk Hle. rewrite H3 by done. fold (base_of (view (se_name e) c) e) in base. change (base_of (view (se_name e) c) e) with base.
  by rewrite Z.min_l by lia.
Qed.


(** Nothing is marked as known before it is acknowledged.  A deferred merge
    of a new claim about a peer asks for what is missing and leaves every view as
    it was, so the same range is asked for again until the application
    acknowledges; an acknowledgement of [s] records exactly [s], and the next
    range starts after it. *)
Theorem svs_two_phase (e : StateEntry) (c : SvsCore) (s : Z) (key : bytes) :
  core_ok c -> entry_ok e -> is_Some (vec_get (se_name e) (vector c)) -> se_name e <> local_name c ->
  (view (se_name e) c).1 = se_boot e -> (view (se_name e) c).2 < se_seq e ->
  from_str key = Ok (se_name e) -> (view (se_name e) c).2 < s <= u64_max ->
  let known := (view (se_name e) c).2 in
  let '(gaps, c') := SvsCore.merge_deferred [e] c in
  gaps = [(display (se_name e), known + 1, Z.min (se_seq e) (known + MAX_GAP_SPAN))] /\
  (forall n, view n c' = view n c) /\
  view (se_name e) (SvsCore.ack key s c') = (se_boot e, s) /\
  (SvsCore.merge_deferred [e] (SvsCore.ack key s c')).1 =
    if s <? se_seq e then [(display (se_name e), s + 1, Z.min (se_seq e) (s + MAX_GAP_SPAN))] else [].
Proof.
  intros Hok He Hk Hne Hb Hlt Hkey Hs known. assert (admitted c e) as Ha by (split; auto).
  assert (forall c, core_ok c -> admitted c e -> (view (se_name e) c).1 = se_boot e ->
    let '(gs, c1) := SvsCore.merge_deferred [e] c in
    gs = (if (view (se_name e) c).2 <? se_seq e
          then [(display (se_name e), (view (se_name e) c).2 + 1, Z.min (se_seq e) ((view (se_name e) c).2 + MAX_GAP_SPAN))] else []) /\
    (forall n, view n c1 = view n c) /\ core_ok c1 /\ local_name c1 = local_name c /\ is_Some (vec_get (se_name e) (vector c1))) as Hone.
  { clear -He. intros c Hok Ha Hb. unfold SvsCore.merge_deferred. cbn [SvsCore.merge_inner].
    pose proof (merge_entry_spec false c e Hok He) as Hm. destruct (SvsCore.merge_entry false c e) as [g c1].
    destruct Hm as (Hok1 & Hn1 & _ & _ & _ & Hv & Hkk & Hg). rewrite bool_decide_true in Hg by done.
    unfold wanted, reach, base_of in Hg. rewrite Hb in Hg. rewrite Z.leb_refl, Z.ltb_irrefl in Hg. cbn [andb] in Hg. split_conj; try done.
    - rewrite Hg. by destruct (_ <? _).
    - intros n. rewrite Hv. destruct (decide _) as [[-> _]|]; [|done]. unfold merged, base_of. rewrite Hb, Z.leb_refl, Z.ltb_irrefl. cbn [andb].
      rewrite <- Hb. by destruct (view (se_name e) c).
    - apply Hkk. by right. }
  pose proof (Hone c Hok Ha Hb) as H1. destruct (SvsCore.merge_deferred [e] c) as [gs c1]. destruct H1 as (-> & Hv & Hok1 & Hn1 & Hk1).
  rewrite (proj2 (Z.ltb_lt _ _)) by done. split; [done|]. split; [done|].
  assert (SvsCore.ack key s c1 = SvsCore.set_vector c1 (vec_insert (se_name e) (se_boot e, s) (vector c1))) as Hack.
  { unfold SvsCore.ack. rewrite Hkey, Hn1, bool_decide_false by done. specialize (Hv (se_name e)).
    destruct Hk1 as [[b q] Hq]. unfold view at 1 in Hv. rewrite Hq in Hv |- *. cbn in Hv. rewrite <- Hv in Hb, Hs. cbn in Hb, Hs.
    rewrite (proj2 (Z.ltb_lt _ _)) by lia. by rewrite Hb. }
  pose proof Hok1 as [Hs1 Hr1]. assert (view (se_name e) (SvsCore.ack key s c1) = (se_boot e, s)) as Hva.
  { rewrite Hack, view_store by done. by rewrite decide_True. }
  split; [done|]. assert (core_ok (SvsCore.ack key s c1)) as Hok2.
  { rewrite Hack. split; [by apply (bt_insert_wf NameOps.cmp)|]. intros n. rewrite view_store by done.
    destruct (decide _); [|apply Hr1]. cbn. destruct Hok as [_ Hr]. destruct (Hr (se_name e)), He. unfold_bounds. lia. }
  assert (admitted (SvsCore.ack key s c1) e) as Ha2.
  { rewrite Hack. split; [cbn; by rewrite Hn1|left]. cbn [vector SvsCore.set_vector]. rewrite vec_get_insert by done. by rewrite decide_True. }
  pose proof (Hone _ Hok2 Ha2 ltac:(by rewrite Hva)) as H2. destruct (SvsCore.merge_deferred [e] (SvsCore.ack key s c1)) as [gs2 c2].
  destruct H2 as (-> & _). by rewrite Hva.
Qed.

(** The wire form of vectors.  Decoding ends, with an answer, on every byte
    string; and what [encode_svs_data] writes decodes to the same entries in the
    same order, whatever follows it. *)
Theorem svs_codec (entries : list StateEntry) (b rest : bytes) :
  wf_bytes b -> zlen b <= usize_max -> wf_bytes rest ->
  Forall (fun e => entry_ok e /\ wf_name (se_name e)) entries ->
  zlen (vector_wire entries) + 40 + zlen rest <= usize_max ->
  is_Some (decode_svs_data b) /\ decode_svs_data (encode_svs_data entries ++ rest) = Some (Ok entries).
Proof.
  intros Hwf Hl Hrest He Hz. split; [by destruct (decode_svs_total b Hwf Hl) as [res ->]|].
  by apply decode_encode_svs.
Qed.

(** ** Examples *)

Lemma view_fresh n m b s : view n (SvsCore.with_boot_seq m b s) = if decide (n = m) then (b, s) else (0, 0).
Proof.
  unfold view, SvsCore.with_boot_seq. cbn [vector bt_insert bt_get]. destruct (decide (n = m)) as [->|Hne].
  - by rewrite (cmp_refl NameOps.cmp).
  - destruct (NameOps.cmp n m) eqn:E; [|done|done]. by apply (cmp_eq (cmp := NameOps.cmp)) in E.
Qed.

Lemma fresh_ok m b s : is_u64 b -> is_u64 s -> core_ok (SvsCore.with_boot_seq m b s).
Proof.
  intros Hb Hs. split.
  - unfold SvsCore.with_boot_seq. cbn [vector bt_insert]. apply SSorted_cons; [apply SSorted_nil|constructor].
  - intros n. rewrite view_fresh. destruct (decide _); [done|]. split; split; by vm_compute.
Qed.

Definition name_a : Name := [mkComponent 8 [97]].
Definition name_b : Name := [mkComponent 8 [98]].
Definition node_a : SvsCore := SvsCore.with_boot_seq name_a 5 3.
Definition node_b : SvsCore := SvsCore.with_boot_seq name_b 7 2.
Definition far_claim : StateEntry := mkEntry name_b 7 70000.

Lemma node_a_ok : core_ok node_a.
Proof. apply fresh_ok; split; by vm_compute. Qed.
Lemma node_b_ok : core_ok node_b.
Proof. apply fresh_ok; split; by vm_compute. Qed.
Lemma far_claim_ok : entry_ok far_claim.
Proof. split; split; by vm_compute. Qed.

Lemma svs_merge_safe_witness :
  let '(gaps, c') := SvsCore.merge_inner [far_claim; mkEntry name_a 9 9] true node_a in
  view name_a c' = (5, 3) /\ Forall (fun '(node, lo, hi) => exists e, e ∈ [far_claim; mkEntry name_a 9 9] /\ se_name e <> name_a /\
    node = display (se_name e) /\ 1 <= lo <= hi /\ hi <= se_seq e /\ hi - lo < MAX_GAP_SPAN) gaps.
Proof.
  pose proof (svs_merge_safe [far_claim; mkEntry name_a 9 9] true node_a node_a_ok) as H.
  destruct (SvsCore.merge_inner _ _ _) as [gaps c']. destruct H as (H1 & _ & _ & _ & H2).
  - apply Forall_cons_2; [apply far_claim_ok|]. apply Forall_cons_2; [split; split; vm_compute; discriminate|apply Forall_nil_2].
  - split; [exact H1|exact H2].
Defined.

Lemma svs_catch_up_witness :
  let '(gs, c') := rounds 2 far_claim node_a in
  publications gs = seqZ 1 70000 /\ view name_b c' = (7, 70000).
Proof.
  pose proof (svs_catch_up far_claim node_a 2 node_a_ok far_claim_ok) as H.
  destruct (rounds 2 far_claim node_a) as [gs c']. cbv zeta in H.
  assert (view (se_name far_claim) node_a = (0, 0)) as Hv by reflexivity. rewrite Hv in H.
  destruct H as (_ & H1 & H2).
  - split; [discriminate|right; vm_compute; reflexivity].
  - vm_compute. discriminate.
  - split; [exact H1|]. apply H2; [discriminate|]. vm_compute. discriminate.
Defined.


(** A peer known up to 2, which claims 70000. *)
Definition tracking : SvsCore := (SvsCore.merge [mkEntry name_b 7 2] node_a).2.

Lemma tracking_ok : core_ok tracking.
Proof.
  pose proof (merge_inner_spec true [mkEntry name_b 7 2] node_a node_a_ok) as H. unfold tracking, SvsCore.merge.
  destruct (SvsCore.merge_inner _ _ _) as [g c]. apply H. apply Forall_singleton. split; split; by vm_compute.
Qed.

Lemma svs_two_phase_witness :
  let '(gaps, c') := SvsCore.merge_deferred [far_claim] tracking in
  gaps = [(display name_b, 3, 65538)] /\ view name_b c' = (7, 2) /\ view name_b (SvsCore.ack (display name_b) 40 c') = (7, 40).
Proof.
  pose proof (svs_two_phase far_claim tracking 40 (display name_b) tracking_ok far_claim_ok) as H.
  assert (view (se_name far_claim) tracking = (7, 2)) as Hv by reflexivity. rewrite Hv in H. cbv zeta in H.
  destruct (SvsCore.merge_deferred [far_claim] tracking) as [gaps c'].
  destruct H as (H1 & H2 & H3 & _).
  - exists (7, 2). vm_compute. reflexivity.
  - discriminate.
  - reflexivity.
  - vm_compute. reflexivity.
  - vm_compute. reflexivity.
  - split; vm_compute; [reflexivity|discriminate].
  - split; [exact H1|]. split; [rewrite H2; reflexivity|exact H3].
Defined.

Lemma svs_codec_witness :
  is_Some (decode_svs_data [1; 2]) /\
  decode_svs_data (encode_svs_data [far_claim; mkEntry name_a 0 1] ++ [9]) = Some (Ok [far_claim; mkEntry name_a 0 1]).
Proof.
  apply (svs_codec [far_claim; mkEntry name_a 0 1] [1; 2] [9]).
  - by apply wf_bytes_check.
  - vm_compute. discriminate.
  - by apply wf_bytes_check.
  - repeat (apply Forall_cons_2; [split; [split; split; vm_compute; discriminate|];
      apply Forall_cons_2; [split; [split; vm_compute; discriminate|by apply wf_bytes_check]|apply Forall_nil_2]|]). apply Forall_nil_2.
  - vm_compute. discriminate.
Defined.

(** An acknowledgement that arrives after the peer has restarted counts for its
    new run: what the new run has published is never asked for. *)
Lemma ack_across_restart :
  let c := (SvsCore.merge_deferred [mkEntry name_b 1 10] node_a).2 in
  let restarted := (SvsCore.merge_deferred [mkEntry name_b 2 5] c).2 in
  let c' := SvsCore.ack (display name_b) 10 restarted in
  view name_b restarted = (2, 0) /\ view name_b c' = (2, 10) /\ (SvsCore.merge_deferred [mkEntry name_b 2 5] c').1 = [].
Proof. vm_compute. by split_conj. Qed.

(** A claim under an older boot time replaces a newer one if its sequence number
    is higher. *)
Lemma older_boot_accepted :
  NeighborSeqState_apply (mkSeqState 5 3) (mkEntry name_b 4 10) = (Some (mkAdvance name_b 4 10), mkSeqState 4 10).
Proof. reflexivity. Qed.
