(* ===== verification/SvsSync.v ===== *)
(** * Sync groups ([ndn-sync]: [dialect.rs], [security.rs], [protocol.rs], [svs_sync.rs])

    One member of a State Vector Sync group: the two wire dialects of a state
    vector, the mapping data that rides along, the Sync Interest, its signer and
    validator, and [GroupCore], the state machine with its periodic and
    suppression timers, the buffer of ranges to fetch and the observed
    high-water marks.

    A method of [GroupCore] is one step; what it sends is returned.  The clock,
    the random draws of the timers (a draw of the suppression delay is a
    parameter: its distribution is floating point) and the environment of the
    signers are arguments; HMAC is a parameter.  A [String] is the list of its
    bytes, the hash maps are finite maps. *)
From stdpp Require Import gmap.
From S2P Require Import Prelude Tlv Name NameUri BTree Packet Lp Encode Svs.
#[local] Open Scope Z_scope.

(** ** [dialect.rs] *)

Definition TLV_STATE_VECTOR : Z := 201.
Definition TLV_SV_ENTRY : Z := 202.
Definition TLV_SV_SEQ_NO : Z := 204.
Definition TLV_NDN_NAME : Z := 7.

Inductive WireDialect : Type := V2 | V3.

Definition encode_name_tlv (name : Name) : bytes :=
  let inner := fold_left (fun buf c => tlv.write_tlv buf (typ c) (value c)) name [] in
  tlv.write_tlv [] TLV_NDN_NAME inner.

Definition encode_v2_entry (sv_inner : bytes) (e : StateEntry) : bytes :=
  let name_bytes := encode_name_tlv (se_name e) in
  let seq_bytes := tlv.encode_nni (se_seq e) in
  let entry_inner := tlv.write_tlv name_bytes TLV_SV_SEQ_NO seq_bytes in
  tlv.write_tlv sv_inner TLV_SV_ENTRY entry_inner.

Definition encode_v2 (entries : list StateEntry) : bytes :=
  tlv.write_tlv [] TLV_STATE_VECTOR (fold_left encode_v2_entry entries []).

(** The entries of a body; the fuel is the number of its bytes. *)
Fixpoint decode_v2_entries (fuel : nat) (body : bytes) (entries : list StateEntry) : option (list StateEntry) :=
  match fuel with
  | O => Some entries
  | S fuel =>
      if zlen body =? 0 then Some entries
      else
        let! (entry_typ, entry_body, rest) := tlv.read_tlv body in
        if negb (entry_typ =? TLV_SV_ENTRY) then decode_v2_entries fuel rest entries
        else
          let! (name_typ, name_val, after_name) := tlv.read_tlv entry_body in
          if negb (name_typ =? TLV_NDN_NAME) then decode_v2_entries fuel rest entries
          else
            match NameOps.decode name_val with
            | Err _ => None
            | Ok name =>
                let! (seq_typ, seq_val, _) := tlv.read_tlv after_name in
                if negb (seq_typ =? TLV_SV_SEQ_NO) then decode_v2_entries fuel rest entries
                else decode_v2_entries fuel rest (entries ++ [mkEntry name 0 (tlv.decode_nni seq_val)])
            end
  end.

Definition decode_v2 (b : bytes) : option (list StateEntry) :=
  let! (t, body, _) := tlv.read_tlv b in
  if negb (t =? TLV_STATE_VECTOR) then None else decode_v2_entries (length body) body [].

Module WireDialect.

Definition sync_version (d : WireDialect) : Z := match d with V2 => 2 | V3 => 3 end.

Definition encode_state_vector (d : WireDialect) (entries : list StateEntry) : bytes :=
  match d with V2 => encode_v2 entries | V3 => encode_svs_data entries end.

Definition decode_state_vector (d : WireDialect) (b : bytes) : option (list StateEntry) :=
  let! entries := match d with
                  | V2 => decode_v2 b
                  | V3 => match decode_svs_data b with Some (Ok es) => Some es | _ => None end
                  end in
  if MAX_TRACKED_PRODUCERS <? zlen entries then None else Some entries.

End WireDialect.

(** ** [security.rs] *)

Inductive Rejected : Type := Unsigned | WrongSigType | BadSignature | RejectedMalformed.

(** The traits: a signer turns a builder into wire bytes (the nonce counter is
    threaded), a validator decides on the bytes of an Interest. *)
Class SyncSigner (S : Type) : Type := sign : S -> Env -> Z -> InterestBuilder -> bytes * Z.
Class SyncValidator (V : Type) : Type := validate : V -> bytes -> result unit Rejected.

Inductive Insecure : Type := mkInsecure.
Record HmacKey : Type := mkHmacKey { hk_key : bytes; key_name : Name }.

Section security.
Context (sha256 : bytes -> bytes) (hmac_sha256 : bytes -> bytes -> bytes).

Definition Insecure_sign : SyncSigner Insecure := fun _ e counter builder =>
  InterestBuilder.build sha256 (pid e) counter builder.
Definition Insecure_validate : SyncValidator Insecure := fun _ _ => Ok tt.

Definition mac (k : HmacKey) (region : bytes) : bytes := hmac_sha256 (hk_key k) region.

Definition HmacKey_sign : SyncSigner HmacKey := fun k e counter builder =>
  InterestBuilder.sign_sync sha256 e counter builder SignatureHmacWithSha256 (Some (key_name k)) (mac k).

Definition HmacKey_validate : SyncValidator HmacKey := fun k raw =>
  match Interest.decode raw with
  | Err _ => Err RejectedMalformed
  | Ok interest =>
      let? info := ok_or (Interest.sig_info interest) Unsigned in
      match sig_type info with
      | SignatureHmacWithSha256 =>
          let? region := ok_or (Interest_signed_region interest) RejectedMalformed in
          let? sig := ok_or (Interest.sig_value interest) Unsigned in
          if bool_decide (sig = mac k region) then Ok tt else Err BadSignature
      | _ => Err WrongSigType
      end
  end.

End security.

(** ** [protocol.rs] *)

Record SyncUpdate : Type := mkUpdate {
  publisher : bytes;
  u_name : Name;
  low_seq : Z;
  high_seq : Z;
  mapping : option bytes;
  serving_party : option bytes
}.

(** [(a, b) > (c, d)] on pairs of numbers. *)
Definition pair_gt (p q : Z * Z) : bool := (q.1 <? p.1) || ((p.1 =? q.1) && (q.2 <? p.2)).

Module ObservedState.
Definition record (m : gmap Name (Z * Z)) (name : Name) (boot seq : Z) : gmap Name (Z * Z) :=
  let slot := default (0, 0) (m !! name) in
  <[name := if pair_gt (boot, seq) slot then (boot, seq) else slot]> m.
Definition seq_for (m : gmap Name (Z * Z)) (name : Name) : option Z := snd <$> m !! name.
Definition get (m : gmap Name (Z * Z)) (name : Name) : option (Z * Z) := m !! name.
End ObservedState.

(** ** [svs_sync.rs] *)

Definition TLV_STATE_VECTOR_OUTER : Z := 201.
Definition TLV_MAPPING_DATA : Z := 205.
Definition TLV_MAPPING_ENTRY : Z := 206.

(** Durations in nanoseconds. *)
Record SvsConfig : Type := mkConfig {
  sync_interval : Z;
  jitter_ms : Z;
  suppression_period : Z;
  channel_capacity : Z;
  dialect : WireDialect;
  cfg_boot : Z;
  cfg_seq : Z;
  auto_ack : bool
}.

Module SvsConfig.
Definition default_ : SvsConfig := mkConfig 30000000000 3000 200000000 256 V2 0 0 true.
Definition with_times (c : SvsConfig) (interval jitter suppression : Z) : SvsConfig :=
  mkConfig interval jitter suppression (channel_capacity c) (dialect c) (cfg_boot c) (cfg_seq c) (auto_ack c).
Definition lan : SvsConfig := with_times default_ 1000000000 100 50000000.
Definition wan : SvsConfig := with_times default_ 15000000000 2000 500000000.
Definition sim : SvsConfig := with_times default_ 500000000 0 (suppression_period default_).
End SvsConfig.

(** [draw] is what [fastrand] returns, between 0 and [jitter_ms]. *)
Definition jitter_interval (config : SvsConfig) (draw : Z) : Z := sync_interval config + draw * 1000000.

Definition coalesce_pending (pending : gmap bytes SyncUpdate) (update : SyncUpdate) : gmap bytes SyncUpdate :=
  match pending !! publisher update with
  | Some existing =>
      <[publisher update := mkUpdate (publisher existing) (u_name update)
          (Z.min (low_seq existing) (low_seq update)) (Z.max (high_seq existing) (high_seq update))
          (match mapping update with Some m => Some m | None => mapping existing end)
          (match serving_party update with Some p => Some p | None => serving_party existing end)]> pending
  | None => <[publisher update := update]> pending
  end.

(** [collect] into a map: the last entry of a name wins. *)
Definition remote_map (remote_sv : list StateEntry) : gmap bytes (Z * Z) :=
  fold_left (fun m e => <[display (se_name e) := (se_boot e, se_seq e)]> m) remote_sv ∅.

Definition local_ahead_of_remote (local_snapshot : list StateVectorEntry) (remote_sv : list StateEntry) : bool :=
  let remote := remote_map remote_sv in
  existsb (fun e => pair_gt (sv_boot e, sv_seq e) (default (0, 0) (remote !! sv_node e))) local_snapshot.

Definition remote_covers_local (local_snapshot : list StateVectorEntry) (remote_sv : list StateEntry) : bool :=
  let remote := remote_map remote_sv in
  forallb (fun e => negb (pair_gt (sv_boot e, sv_seq e) (default (0, 0) (remote !! sv_node e)))) local_snapshot.

Definition record_entry (recorded : gmap bytes (Z * Z)) (e : StateEntry) : gmap bytes (Z * Z) :=
  let key := display (se_name e) in
  let slot := default (0, 0) (recorded !! key) in
  <[key := if pair_gt (se_boot e, se_seq e) slot then (se_boot e, se_seq e) else slot]> recorded.
Definition record_vector (recorded : gmap bytes (Z * Z)) (remote_sv : list StateEntry) : gmap bytes (Z * Z) :=
  fold_left record_entry remote_sv recorded.

(** *** Mapping data and the Sync Interest *)

Definition encode_mapping_data (node_name : Name) (seq : Z) (app_data : bytes) : bytes :=
  let name_bytes := encode_name_tlv node_name in
  let seq_bytes := tlv.encode_nni seq in
  let entry_inner := tlv.write_tlv name_bytes TLV_SV_SEQ_NO seq_bytes ++ app_data in
  let mapping_inner := tlv.write_tlv [] TLV_MAPPING_ENTRY entry_inner in
  tlv.write_tlv [] TLV_MAPPING_DATA mapping_inner.

Definition decode_name_key (name_tlv : bytes) : option bytes :=
  let! (t, v, _) := tlv.read_tlv name_tlv in
  if negb (t =? TLV_NDN_NAME) then None
  else match NameOps.decode v with Ok name => Some (display name) | Err _ => None end.

(** What one [MappingEntry] adds; [None] where the loop goes on. *)
Definition mapping_entry (entry_body : bytes) : option (bytes * bytes) :=
  let! (name_typ, name_val, after_name) := tlv.read_tlv entry_body in
  if negb (name_typ =? TLV_NDN_NAME) then None
  else
    let! node_key := decode_name_key (tlv.write_tlv [] name_typ name_val) in
    let! (seq_typ, _, after_seq) := tlv.read_tlv after_name in
    if negb (seq_typ =? TLV_SV_SEQ_NO) then None else Some (node_key, after_seq).

Fixpoint mapping_loop (fuel : nat) (body : bytes) (result : gmap bytes bytes) : gmap bytes bytes :=
  match fuel with
  | O => result
  | S fuel =>
      if zlen body =? 0 then result
      else match tlv.read_tlv body with
           | None => result
           | Some (entry_typ, entry_body, rest) =>
               if negb (entry_typ =? TLV_MAPPING_ENTRY) then mapping_loop fuel rest result
               else match mapping_entry entry_body with
                    | Some (k, v) => mapping_loop fuel rest (<[k := v]> result)
                    | None => mapping_loop fuel rest result
                    end
           end
  end.

Definition decode_mapping_data (md_tlv : bytes) : gmap bytes bytes :=
  match tlv.read_tlv md_tlv with
  | None => ∅
  | Some (t, body, _) => if negb (t =? TLV_MAPPING_DATA) then ∅ else mapping_loop (length body) body ∅
  end.

(** The loop over the application parameters. *)
Fixpoint params_loop (fuel : nat) (d : WireDialect) (cursor : bytes)
    (s : option (list StateEntry) * gmap bytes bytes) : option (list StateEntry) * gmap bytes bytes :=
  match fuel with
  | O => s
  | S fuel =>
      if zlen cursor =? 0 then s
      else match tlv.read_tlv cursor with
           | None => s
           | Some (t, _, rest) =>
               let full_tlv := slice cursor 0 (zlen cursor - zlen rest) in
               let s := if t =? TLV_MAPPING_DATA then (s.1, decode_mapping_data full_tlv)
                        else if t =? TLV_STATE_VECTOR_OUTER then (WireDialect.decode_state_vector d full_tlv, s.2)
                        else s in
               params_loop fuel d rest s
           end
  end.

Definition parse_sync_interest (group : Name) (raw : bytes) (d : WireDialect)
    : option (list StateEntry * gmap bytes bytes) :=
  match Interest.decode raw with
  | Err _ => None
  | Ok interest =>
      let components := i_name interest in
      let group_len := length group in
      match components !! group_len with
      | None => None
      | Some c =>
          if negb (bool_decide (Component.as_version c = Some (WireDialect.sync_version d))) then None
          else
            let! app_params := Interest.app_parameters interest in
            let '(sv, mappings) := params_loop (length app_params) d app_params (None, ∅) in
            let! v := sv in Some (v, mappings)
      end
  end.

(** *** The group *)

(** The bounded channel to the consumer. *)
Record Chan : Type := mkChan { queue : list SyncUpdate; capacity : Z; closed : bool }.
Inductive TrySendError : Type := Full | Closed.
Definition try_send (ch : Chan) (u : SyncUpdate) : result unit TrySendError * Chan :=
  if closed ch then (Err Closed, ch)
  else if capacity ch <=? zlen (queue ch) then (Err Full, ch)
  else (Ok tt, mkChan (queue ch ++ [u]) (capacity ch) (closed ch)).

Record GroupCore : Type := mkGroup {
  group : Name;
  node : SvsCore;
  g_local_key : bytes;
  config : SvsConfig;
  current_mapping : option bytes;
  suppressing : bool;
  recorded : gmap bytes (Z * Z);
  next_send : Z;
  pending : gmap bytes SyncUpdate;
  update_tx : Chan;
  observed : gmap Name (Z * Z)
}.

(** What a step takes from outside: the clock, the draws of the timers and what
    the signer reads. *)
Record Tick : Type := mkTick { now : Z; jitter_draw : Z; suppression_draw : Z; env : Env; nonce_counter : Z }.

Module GroupCore.

Definition new (t : Tick) (grp local_name : Name) (cfg : SvsConfig) (tx : Chan) : GroupCore :=
  let node := SvsCore.with_boot_seq local_name (cfg_boot cfg) (cfg_seq cfg) in
  mkGroup grp node (SvsCore.local_key node) cfg None false ∅ (now t + jitter_interval cfg (jitter_draw t)) ∅ tx ∅.

(** Record updates. *)
Definition set_node (g : GroupCore) (n : SvsCore) : GroupCore :=
  mkGroup (group g) n (g_local_key g) (config g) (current_mapping g) (suppressing g) (recorded g) (next_send g) (pending g) (update_tx g) (observed g).
Definition set_fsm (g : GroupCore) (s : bool) (r : gmap bytes (Z * Z)) (next : Z) : GroupCore :=
  mkGroup (group g) (node g) (g_local_key g) (config g) (current_mapping g) s r next (pending g) (update_tx g) (observed g).
Definition set_mapping (g : GroupCore) (m : option bytes) : GroupCore :=
  mkGroup (group g) (node g) (g_local_key g) (config g) m (suppressing g) (recorded g) (next_send g) (pending g) (update_tx g) (observed g).
Definition set_pending (g : GroupCore) (p : gmap bytes SyncUpdate) (tx : Chan) : GroupCore :=
  mkGroup (group g) (node g) (g_local_key g) (config g) (current_mapping g) (suppressing g) (recorded g) (next_send g) p tx (observed g).
Definition set_observed (g : GroupCore) (o : gmap Name (Z * Z)) : GroupCore :=
  mkGroup (group g) (node g) (g_local_key g) (config g) (current_mapping g) (suppressing g) (recorded g) (next_send g) (pending g) (update_tx g) o.

(** The application parameters of a Sync Interest. *)
Definition app_params (node : SvsCore) (mapping : option bytes) (d : WireDialect) : bytes :=
  let app_params := WireDialect.encode_state_vector d (SvsCore.state_entries node) in
  match mapping with
  | Some mapping_bytes =>
      let local_name := match from_str (SvsCore.local_key node) with Ok n => n | Err _ => NameOps.root end in
      app_params ++ encode_mapping_data local_name (SvsCore.local_seq node) mapping_bytes
  | None => app_params
  end.

Definition sync_builder (group : Name) (node : SvsCore) (mapping : option bytes) (d : WireDialect) : InterestBuilder :=
  let sync_name := NameOps.append_version group (WireDialect.sync_version d) in
  InterestBuilder.app_parameters (app_params node mapping d)
    (InterestBuilder.lifetime 1000000000 (InterestBuilder.new sync_name)).

Section steps.
Context {S V : Type} `{!SyncSigner S} `{!SyncValidator V} (signer : S) (validator : V).

Definition send_sync_interest (t : Tick) (group : Name) (node : SvsCore) (mapping : option bytes) (d : WireDialect) : bytes * Z :=
  sign signer (env t) (nonce_counter t) (sync_builder group node mapping d).

(** What goes out, and the nonce counter after it. *)
Definition emit (t : Tick) (g : GroupCore) : list bytes * Z :=
  let '(wire, counter) := send_sync_interest t (group g) (node g) (current_mapping g) (dialect (config g)) in ([wire], counter).

(** The recorded vectors as entries; a key that does not parse is left out. *)
Definition recorded_sv (recorded : gmap bytes (Z * Z)) : list StateEntry :=
  omap (fun '(k, (b, s)) => match from_str k with Ok name => Some (mkEntry name b s) | Err _ => None end) (map_to_list recorded).

Definition on_timer (t : Tick) (g : GroupCore) : list bytes * Z * GroupCore :=
  let next := now t + jitter_interval (config g) (jitter_draw t) in
  if suppressing g then
    let snapshot := SvsCore.snapshot (node g) in
    let sv := recorded_sv (recorded g) in
    let '(out, counter) := if negb (remote_covers_local snapshot sv) then emit t g else ([], nonce_counter t) in
    (out, counter, set_fsm g false ∅ next)
  else
    let '(out, counter) := emit t g in (out, counter, set_fsm g false (recorded g) next).

(** The update for a gap, and the loop over the gaps. *)
Definition gap_update (g : GroupCore) (peer_mappings : gmap bytes bytes) (gp : gap) : SyncUpdate :=
  let '(peer_key, low, high) := gp in
  mkUpdate peer_key
    (match from_str peer_key with Ok n => n | Err _ => NameOps.append (group g) peer_key end)
    low high (peer_mappings !! peer_key) None.
Definition buffer_gaps (g : GroupCore) (peer_mappings : gmap bytes bytes) (gaps : list gap) : gmap bytes SyncUpdate :=
  fold_left (fun pending gp =>
    let '(peer_key, low, high) := gp in
    if bool_decide (peer_key = g_local_key g) then pending
    else coalesce_pending pending (gap_update g peer_mappings gp)) gaps (pending g).

Definition on_inbound (t : Tick) (raw : bytes) (g : GroupCore) : GroupCore :=
  match validate validator raw with
  | Err _ => g
  | Ok _ =>
      match parse_sync_interest (group g) raw (dialect (config g)) with
      | None => g
      | Some (remote_sv, peer_mappings) =>
          let g := set_observed g (fold_left (fun o e => ObservedState.record o (se_name e) (se_boot e) (se_seq e)) remote_sv (observed g)) in
          let snapshot := SvsCore.snapshot (node g) in
          let covers_local := remote_covers_local snapshot remote_sv in
          let local_ahead := local_ahead_of_remote snapshot remote_sv in
          let '(gaps, n) := if auto_ack (config g) then SvsCore.merge remote_sv (node g) else SvsCore.merge_deferred remote_sv (node g) in
          let g := set_node g n in
          let g := set_pending g (buffer_gaps g peer_mappings gaps) (update_tx g) in
          if local_ahead then
            let r := record_vector (recorded g) remote_sv in
            if suppressing g then set_fsm g (suppressing g) r (next_send g)
            else set_fsm g true r (now t + suppression_draw t)
          else if covers_local then set_fsm g false ∅ (now t + jitter_interval (config g) (jitter_draw t))
          else g
      end
  end.

(** [None] is the overflow of the local sequence number. *)
Definition on_publish (t : Tick) (mapping : option bytes) (g : GroupCore) : option (list bytes * Z * GroupCore) :=
  let g := set_mapping g mapping in
  let! (_, n) := SvsCore.advance (node g) in
  let g := set_node g n in
  let next := now t + jitter_interval (config g) (jitter_draw t) in
  let '(out, counter) := emit t g in
  Some (out, counter, set_fsm g false ∅ next).

Definition on_ack (key : bytes) (seq : Z) (g : GroupCore) : GroupCore := set_node g (SvsCore.ack key seq (node g)).

End steps.

(** One key of [drain_pending_try]. *)
Definition drain_key (s : gmap bytes SyncUpdate * Chan) (k : bytes) : gmap bytes SyncUpdate * Chan :=
  let '(pending, ch) := s in
  match pending !! k with
  | None => s
  | Some update =>
      match try_send ch update with
      | (Ok _, ch) => (delete k pending, ch)
      | (Err Closed, ch) => (delete k pending, ch)
      | (Err Full, ch) => (pending, ch)
      end
  end.

(** [keys] is the order in which the map hands out its keys. *)
Definition drain_pending_try (keys : list bytes) (g : GroupCore) : bool * GroupCore :=
  let '(p, ch) := fold_left drain_key keys (pending g, update_tx g) in
  (negb (bool_decide (p = ∅)), set_pending g p ch).

End GroupCore.

(** What wakes the task: its timer, a Sync Interest, a publication of the
    application, an acknowledgement. *)
Inductive Wake : Type :=
| WakeTimer
| WakeInbound (raw : bytes)
| WakePublish (pub_name : Name) (mapping : option bytes)
| WakeAck (key : bytes) (seq : Z).

(** One round of the loop of [svs_task]: deliver what the channel takes, then
    handle what woke the task.  [None] is the overflow in [on_publish]. *)
Definition svs_task_round {S V : Type} `{!SyncSigner S} `{!SyncValidator V} (signer : S) (validator : V)
    (keys : list bytes) (t : Tick) (w : Wake) (gc : GroupCore) : option (list bytes * Z * GroupCore) :=
  let '(more, gc) := GroupCore.drain_pending_try keys gc in
  match w with
  | WakeTimer =>
      if next_send gc <=? now t then Some (GroupCore.on_timer signer t gc) else Some ([], nonce_counter t, gc)
  | WakeInbound raw => Some ([], nonce_counter t, GroupCore.on_inbound validator t raw gc)
  | WakePublish _ mapping => GroupCore.on_publish signer t mapping gc
  | WakeAck key seq => Some ([], nonce_counter t, GroupCore.on_ack key seq gc)
  end.

(** ** The wire forms *)

Lemma write_varnumber_spec buf n : is_u64 n -> tlv.write_varnumber buf n = buf ++ varu64_bytes n.
Proof.
  intros Hn. unfold tlv.write_varnumber, varu64_bytes, wrap. f_equal. unfold_bounds.
  repeat bcase_step; try lia; rewrite ?Z.mod_small by lia; done.
Qed.

Lemma svs_write_tlv buf t v : is_u64 t -> zlen v <= u64_max -> tlv.write_tlv buf t v = buf ++ tlv_bytes t v.
Proof.
  intros Ht Hv. unfold tlv.write_tlv, tlv_bytes. pose proof (zlen_nonneg v).
  rewrite !write_varnumber_spec by (done || unfold_bounds; lia). by rewrite <- !app_assoc.
Qed.

(** The side conditions of the element lemmas. *)
Ltac side_tlv := match goal with
  | |- is_u64 ?t => first [assumption|by vm_compute]
  | |- _ => first [assumption|unfold_bounds; rewrite ?app_nil_l; lia]
  end.

Lemma slice_app_exact (a b : bytes) n : zlen a = n -> slice (a ++ b) 0 n = a /\ slice_from_ (a ++ b) n = b.
Proof.
  intros <-. split; [|apply slice_from_app]. by apply (slice_mid (@nil Z) a b).
Qed.

Lemma read_varnumber_ok n rest : is_u64 n -> tlv.read_varnumber (varu64_bytes n ++ rest) = Some (n, rest).
Proof.
  intros Hn. assert (forall k : nat, 0 <= n < 256 ^ Z.of_nat k ->
    (if zlen (be_encode k n ++ rest) <? Z.of_nat k then None
     else Some (be_decode (slice (be_encode k n ++ rest) 0 (Z.of_nat k)), slice_from_ (be_encode k n ++ rest) (Z.of_nat k))) = Some (n, rest)) as Hw.
  { intros k Hk. rewrite zlen_app. assert (zlen (be_encode k n) = Z.of_nat k) as Hz by (unfold zlen; by rewrite length_be_encode). pose proof (zlen_nonneg rest).
    destruct (Z.ltb_spec (zlen (be_encode k n) + zlen rest) (Z.of_nat k)); [lia|].
    destruct (slice_app_exact (be_encode k n) rest _ Hz) as [-> ->]. rewrite be_decode_encode, Z.mod_small by done. done. }
  unfold varu64_bytes. unfold_bounds. repeat bcase_step; cbn [app tlv.read_varnumber].
  - rewrite !(proj2 (Z.eqb_neq _ _)) by lia. done.
  - apply (Hw 2%nat). cbn. lia.
  - apply (Hw 4%nat). cbn. lia.
  - apply (Hw 8%nat). cbn. lia.
Qed.

Lemma svs_read_tlv t v rest : is_u64 t -> zlen v <= u64_max -> tlv.read_tlv (tlv_bytes t v ++ rest) = Some (t, v, rest).
Proof.
  intros Ht Hv. unfold tlv.read_tlv, tlv_bytes. rewrite <- !app_assoc. rewrite read_varnumber_ok by done. pose proof (zlen_nonneg v).
  rewrite read_varnumber_ok by (unfold_bounds; lia). rewrite zlen_app. pose proof (zlen_nonneg rest).
  destruct (Z.ltb_spec (zlen v + zlen rest) (zlen v)); [lia|]. by destruct (slice_app_exact v rest _ eq_refl) as [-> ->].
Qed.

Lemma fold_name_wire n : forall buf, wf_name n -> zlen (name_wire n) <= usize_max ->
  fold_left (fun buf c => tlv.write_tlv buf (typ c) (value c)) n buf = buf ++ name_wire n.
Proof.
  induction n as [|c n IH]; intros buf Hn Hl; cbn [fold_left]; [by rewrite app_nil_r|].
  apply Forall_cons in Hn as [[Hc _] Hn]. rewrite name_wire_cons, zlen_app, zlen_tlv_bytes in Hl.
  pose proof (tlv_size_bounds (typ c) _ (zlen_nonneg (value c))). pose proof (zlen_nonneg (name_wire n)). pose proof (zlen_nonneg (value c)).
  rewrite svs_write_tlv by (unfold_bounds; lia). rewrite IH by (done || lia). by rewrite name_wire_cons, <- app_assoc.
Qed.

Lemma encode_name_tlv_spec n : wf_name n -> zlen (name_wire n) <= usize_max -> encode_name_tlv n = tlv_bytes TLV_NDN_NAME (name_wire n).
Proof.
  intros Hn Hl. unfold encode_name_tlv. rewrite fold_name_wire by done. rewrite svs_write_tlv; [done|by vm_compute|]. cbn [app]. unfold_bounds. lia.
Qed.

(** The body of a vector in the older dialect. *)
Definition v2_entry (e : StateEntry) : elem :=
  (TLV_SV_ENTRY, elems_wire [(TLV_NDN_NAME, name_wire (se_name e)); (TLV_SV_SEQ_NO, nni_bytes (se_seq e))]).
Definition v2_wire (es : list StateEntry) : bytes := elems_wire (map v2_entry es).

Lemma v2_wire_cons e es : v2_wire (e :: es) = tlv_bytes TLV_SV_ENTRY (v2_entry e).2 ++ v2_wire es.
Proof. unfold v2_wire. cbn [map]. by rewrite elems_wire_cons. Qed.

Lemma v2_entry_spec e : (v2_entry e).2 = tlv_bytes TLV_NDN_NAME (name_wire (se_name e)) ++ tlv_bytes TLV_SV_SEQ_NO (nni_bytes (se_seq e)).
Proof. unfold v2_entry. cbn [snd]. rewrite !elems_wire_cons. cbn [fst snd]. change (elems_wire []) with (@nil Z). by rewrite app_nil_r. Qed.

Lemma v2_entry_size e es : zlen (v2_wire (e :: es)) <= usize_max ->
  zlen (name_wire (se_name e)) <= usize_max /\ zlen (v2_entry e).2 <= usize_max /\ zlen (v2_wire es) <= usize_max.
Proof.
  rewrite v2_wire_cons, zlen_app, zlen_tlv_bytes. intros H.
  pose proof (tlv_size_bounds TLV_SV_ENTRY _ (zlen_nonneg (v2_entry e).2)). pose proof (zlen_nonneg (v2_wire es)).
  pose proof (zlen_nonneg (v2_entry e).2). split_conj; [|lia|lia]. rewrite v2_entry_spec, zlen_app, !zlen_tlv_bytes in *.
  pose proof (tlv_size_bounds TLV_NDN_NAME _ (zlen_nonneg (name_wire (se_name e)))).
  pose proof (tlv_size_bounds TLV_SV_SEQ_NO _ (zlen_nonneg (nni_bytes (se_seq e)))). pose proof (zlen_nonneg (nni_bytes (se_seq e))). lia.
Qed.

Lemma fold_v2 es : forall buf, Forall wf_entry es -> zlen (v2_wire es) <= usize_max ->
  fold_left encode_v2_entry es buf = buf ++ v2_wire es.
Proof.
  induction es as [|e es IH]; intros buf He Hl; cbn [fold_left]; [by rewrite app_nil_r|].
  apply Forall_cons in He as [[[_ Hs] Hn] He]. destruct (v2_entry_size e es Hl) as (H1 & H2 & H3).
  assert (encode_v2_entry buf e = buf ++ tlv_bytes TLV_SV_ENTRY (v2_entry e).2) as ->.
  { unfold encode_v2_entry. rewrite encode_name_tlv_spec, encode_nni_spec by done. pose proof (zlen_nni_bytes (se_seq e)).
    rewrite (svs_write_tlv _ TLV_SV_SEQ_NO); [|by vm_compute|unfold_bounds; lia]. rewrite <- v2_entry_spec.
    apply svs_write_tlv; [by vm_compute|unfold_bounds; lia]. }
  rewrite IH by done. by rewrite v2_wire_cons, <- app_assoc.
Qed.

Lemma svs_decode_nni n : is_u64 n -> tlv.decode_nni (nni_bytes n) = n.
Proof.
  intros Hn. rewrite nni_bytes_spec. unfold tlv.decode_nni. rewrite zlen_be_encode, be_decode_encode.
  replace (_ =? 0) with false by (unfold nni_width; by repeat bcase_step).
  replace (_ || _) with true by (unfold nni_width; by repeat bcase_step).
  apply Z.mod_small. unfold nni_width. unfold_bounds. repeat bcase_step; cbn; lia.
Qed.

Definition no_boot (e : StateEntry) : StateEntry := mkEntry (se_name e) 0 (se_seq e).

Lemma decode_v2_ok es : forall fuel acc, Forall wf_entry es -> zlen (v2_wire es) <= usize_max -> (length es <= fuel)%nat ->
  decode_v2_entries fuel (v2_wire es) acc = Some (acc ++ map no_boot es).
Proof.
  induction es as [|e es IH]; intros fuel acc He Hl Hf.
  - rewrite app_nil_r. by destruct fuel.
  - destruct fuel as [|fuel]; [cbn in Hf; lia|]. cbn [decode_v2_entries]. apply Forall_cons in He as [[[_ Hs] Hn] He].
    destruct (v2_entry_size e es Hl) as (H1 & H2 & H3). rewrite v2_wire_cons.
    replace (zlen _ =? 0) with false.
    2:{ symmetry. apply Z.eqb_neq. rewrite zlen_app, zlen_tlv_bytes. pose proof (zlen_nonneg (v2_wire es)).
        pose proof (tlv_size_bounds TLV_SV_ENTRY _ (zlen_nonneg (v2_entry e).2)). pose proof (zlen_nonneg (v2_entry e).2). lia. }
    rewrite svs_read_tlv by side_tlv. rewrite Z.eqb_refl. cbn [negb]. rewrite v2_entry_spec.
    rewrite svs_read_tlv by side_tlv. rewrite Z.eqb_refl. cbn [negb]. rewrite decode_wire by done.
    pose proof (zlen_nni_bytes (se_seq e)). rewrite <- (app_nil_r (tlv_bytes TLV_SV_SEQ_NO _)).
    rewrite svs_read_tlv by side_tlv. rewrite Z.eqb_refl. cbn [negb]. rewrite svs_decode_nni by done.
    rewrite IH by (done || cbn in Hf; lia). by rewrite <- app_assoc.
Qed.

Lemma length_v2_wire es : (length es <= length (v2_wire es))%nat.
Proof.
  induction es as [|e es IH]; [cbn; lia|]. rewrite v2_wire_cons, length_app. cbn [length].
  assert (1 <= length (tlv_bytes TLV_SV_ENTRY (v2_entry e).2))%nat; [|lia]. cbn. lia.
Qed.

(** What follows the outer type and length of a vector, and what of an entry a
    dialect carries. *)
Definition sv_wire (d : WireDialect) (es : list StateEntry) : bytes :=
  match d with V2 => v2_wire es | V3 => tlv_bytes T_STATE_VECTOR (vector_wire es) end.
Definition carried (d : WireDialect) (e : StateEntry) : StateEntry := match d with V2 => no_boot e | V3 => e end.

Lemma encode_sv_spec d es : Forall wf_entry es -> zlen (sv_wire d es) + 40 <= usize_max ->
  WireDialect.encode_state_vector d es = tlv_bytes TLV_STATE_VECTOR (sv_wire d es).
Proof.
  intros He Hz. destruct d; cbn [WireDialect.encode_state_vector sv_wire] in *.
  - unfold encode_v2. rewrite fold_v2 by (done || lia). by rewrite svs_write_tlv by side_tlv.
  - rewrite zlen_tlv_bytes in Hz. pose proof (tlv_size_bounds T_STATE_VECTOR _ (zlen_nonneg (vector_wire es))).
    apply encode_svs_wire; [apply vector_names|]; (done || lia).
Qed.

Lemma decode_sv_ok d es : Forall wf_entry es -> zlen es <= MAX_TRACKED_PRODUCERS -> zlen (sv_wire d es) + 40 <= usize_max ->
  WireDialect.decode_state_vector d (tlv_bytes TLV_STATE_VECTOR (sv_wire d es)) = Some (map (carried d) es).
Proof.
  intros He Hm Hz. unfold WireDialect.decode_state_vector.
  assert (match d with V2 => decode_v2 (tlv_bytes TLV_STATE_VECTOR (sv_wire d es))
          | V3 => match decode_svs_data (tlv_bytes TLV_STATE_VECTOR (sv_wire d es)) with Some (Ok es) => Some es | _ => None end end =
          Some (map (carried d) es)) as ->.
  { destruct d.
    - unfold decode_v2. cbn [sv_wire] in *. rewrite <- (app_nil_r (tlv_bytes _ _)). rewrite svs_read_tlv by side_tlv. rewrite Z.eqb_refl. cbn [negb].
      rewrite decode_v2_ok; [done|done|lia|apply length_v2_wire].
    - rewrite <- encode_sv_spec by done. cbn [WireDialect.encode_state_vector]. rewrite <- (app_nil_r (encode_svs_data es)).
      cbn [sv_wire] in Hz. rewrite zlen_tlv_bytes in Hz. pose proof (tlv_size_bounds T_STATE_VECTOR _ (zlen_nonneg (vector_wire es))).
      rewrite decode_encode_svs; [by rewrite map_id|constructor|done|]. change (zlen (@nil Z)) with 0. lia. }
  cbn. unfold zlen. rewrite length_map. fold (zlen es). by rewrite (proj2 (Z.ltb_ge _ _)) by lia.
Qed.

(** The mapping data of one publication. *)
Definition mapping_body (n : Name) (seq : Z) (data : bytes) : bytes :=
  tlv_bytes TLV_MAPPING_ENTRY (tlv_bytes TLV_NDN_NAME (name_wire n) ++ tlv_bytes TLV_SV_SEQ_NO (nni_bytes seq) ++ data).

Section mapping.
Context (n : Name) (seq : Z) (data : bytes) (Hn : wf_name n) (Hs : is_u64 seq) (Hz : zlen (name_wire n) + zlen data + 200 <= usize_max).

Lemma mapping_sizes : zlen (tlv_bytes TLV_NDN_NAME (name_wire n) ++ tlv_bytes TLV_SV_SEQ_NO (nni_bytes seq) ++ data) + 100 <= usize_max /\
  zlen (mapping_body n seq data) <= usize_max.
Proof.
  pose proof (tlv_size_bounds TLV_NDN_NAME _ (zlen_nonneg (name_wire n))). pose proof (zlen_nni_bytes seq).
  pose proof (tlv_size_bounds TLV_SV_SEQ_NO _ (zlen_nonneg (nni_bytes seq))). pose proof (zlen_nonneg data). pose proof (zlen_nonneg (name_wire n)).
  unfold mapping_body. rewrite zlen_tlv_bytes, zlen_app3, (zlen_tlv_bytes TLV_NDN_NAME), (zlen_tlv_bytes TLV_SV_SEQ_NO).
  match goal with |- context [tlv_size TLV_MAPPING_ENTRY ?x] => pose proof (tlv_size_bounds TLV_MAPPING_ENTRY x ltac:(lia)) end. lia.
Qed.

Lemma encode_mapping_spec : encode_mapping_data n seq data = tlv_bytes TLV_MAPPING_DATA (mapping_body n seq data).
Proof.
  destruct mapping_sizes as [H1 H2]. pose proof (zlen_nonneg data). pose proof (zlen_nonneg (name_wire n)).
  unfold encode_mapping_data. rewrite encode_name_tlv_spec by (done || lia). rewrite encode_nni_spec by done. pose proof (zlen_nni_bytes seq).
  rewrite (svs_write_tlv _ TLV_SV_SEQ_NO) by side_tlv. rewrite <- app_assoc. rewrite (svs_write_tlv _ TLV_MAPPING_ENTRY) by side_tlv.
  cbn [app]. fold (mapping_body n seq data). by rewrite svs_write_tlv by side_tlv.
Qed.

Lemma decode_mapping_ok : decode_mapping_data (tlv_bytes TLV_MAPPING_DATA (mapping_body n seq data)) = {[display n := data]}.
Proof.
  destruct mapping_sizes as [H1 H2]. pose proof (zlen_nonneg data). pose proof (zlen_nonneg (name_wire n)). pose proof (zlen_nni_bytes seq).
  unfold decode_mapping_data. rewrite <- (app_nil_r (tlv_bytes TLV_MAPPING_DATA _)). rewrite svs_read_tlv by side_tlv. rewrite Z.eqb_refl. cbn [negb].
  assert (1 <= length (mapping_body n seq data))%nat by (unfold mapping_body, tlv_bytes; rewrite length_app; cbn; lia).
  destruct (length (mapping_body n seq data)) as [|fuel] eqn:El; [lia|]. cbn [mapping_loop].
  replace (zlen _ =? 0) with false by (symmetry; apply Z.eqb_neq; unfold zlen; lia).
  unfold mapping_body. rewrite <- (app_nil_r (tlv_bytes TLV_MAPPING_ENTRY _)). rewrite svs_read_tlv by side_tlv. rewrite Z.eqb_refl. cbn [negb].
  assert (mapping_entry (tlv_bytes TLV_NDN_NAME (name_wire n) ++ tlv_bytes TLV_SV_SEQ_NO (nni_bytes seq) ++ data) = Some (display n, data)) as ->.
  { unfold mapping_entry. rewrite svs_read_tlv by side_tlv. rewrite Z.eqb_refl. cbn [negb]. rewrite svs_write_tlv by side_tlv. cbn [app].
    assert (decode_name_key (tlv_bytes TLV_NDN_NAME (name_wire n)) = Some (display n)) as ->.
    { unfold decode_name_key. rewrite <- (app_nil_r (tlv_bytes _ _)). rewrite svs_read_tlv by side_tlv. rewrite Z.eqb_refl. cbn [negb].
      by rewrite decode_wire by (done || lia). }
    rewrite svs_read_tlv by side_tlv. by rewrite Z.eqb_refl. }
  by destruct fuel.
Qed.
End mapping.

(** *** The Sync Interest *)

Lemma params_step fuel d t v rest s : is_u64 t -> zlen v <= u64_max ->
  params_loop (S fuel) d (tlv_bytes t v ++ rest) s =
    params_loop fuel d rest (if t =? TLV_MAPPING_DATA then (s.1, decode_mapping_data (tlv_bytes t v))
      else if t =? TLV_STATE_VECTOR_OUTER then (WireDialect.decode_state_vector d (tlv_bytes t v), s.2) else s).
Proof.
  intros Ht Hv. cbn [params_loop]. pose proof (tlv_size_bounds t _ (zlen_nonneg v)). pose proof (zlen_nonneg v). pose proof (zlen_nonneg rest).
  replace (zlen (tlv_bytes t v ++ rest) =? 0) with false by (symmetry; apply Z.eqb_neq; rewrite zlen_app, zlen_tlv_bytes; lia).
  rewrite svs_read_tlv by done. cbv zeta.
  replace (slice (tlv_bytes t v ++ rest) 0 (zlen (tlv_bytes t v ++ rest) - zlen rest)) with (tlv_bytes t v); [done|].
  symmetry. apply slice_app_exact. rewrite zlen_app. lia.
Qed.

Lemma params_nil fuel d s : params_loop fuel d [] s = s.
Proof. by destruct fuel. Qed.

(** A member that can send: names and vector are well formed, and the packet
    fits in memory. *)
Record sendable (grp : Name) (c : SvsCore) (mapping : option bytes) (d : WireDialect) : Prop := {
  sd_group : wf_name grp;
  sd_plain : Interest.psdc_count grp = 0;
  sd_core : core_ok c;
  sd_names : Forall (fun e => wf_name e.1) (vector c);
  sd_local : wf_name (local_name c);
  sd_mapping : forall m, mapping = Some m -> wf_bytes m;
  sd_count : zlen (vector c) <= MAX_TRACKED_PRODUCERS;
  sd_size : zlen (name_wire grp) + zlen (sv_wire d (SvsCore.state_entries c)) + zlen (name_wire (local_name c)) +
            match mapping with Some m => zlen m | None => 0 end + 4000 <= usize_max
}.

Definition mappings_of (c : SvsCore) (mapping : option bytes) : gmap bytes bytes :=
  match mapping with Some m => {[display (local_name c) := m]} | None => ∅ end.

Lemma wf_uri n : wf_name n -> Forall uri_component n.
Proof. intros H. eapply Forall_impl; [exact H|]. intros c [Ht Hv]. split; [|done]. unfold_bounds. lia. Qed.

Section sending.
Context (grp : Name) (c : SvsCore) (mapping : option bytes) (d : WireDialect) (Hsd : sendable grp c mapping d).

Lemma entries_wf : Forall wf_entry (SvsCore.state_entries c).
Proof.
  destruct Hsd as [_ _ Hok Hn _ _ _ _]. apply Forall_map, List.Forall_forall. intros [m p] Hin%list_elem_of_In. cbn.
  split; [|by apply (proj1 (Forall_forall _ _) Hn (m, p))]. rewrite <- (view_elem m p c Hok Hin). apply Hok.
Qed.

Lemma local_seq_u64 : is_u64 (SvsCore.local_seq c).
Proof.
  destruct (sd_core _ _ _ _ Hsd) as [_ Hr]. destruct (Hr (local_name c)) as [_ H]. unfold SvsCore.local_seq, view in *.
  by destruct (vec_get (local_name c) (vector c)) as [[]|].
Qed.

Lemma sending_sizes : zlen (name_wire grp) + zlen (sv_wire d (SvsCore.state_entries c)) + 4000 <= usize_max /\
  forall m, mapping = Some m -> zlen (name_wire (local_name c)) + zlen m + 200 <= usize_max.
Proof.
  pose proof (sd_size _ _ _ _ Hsd) as Hz. pose proof (zlen_nonneg (name_wire grp)). pose proof (zlen_nonneg (name_wire (local_name c))).
  pose proof (zlen_nonneg (sv_wire d (SvsCore.state_entries c))). split; [destruct mapping as [m|]; [pose proof (zlen_nonneg m)|]; lia|].
  intros m ->. lia.
Qed.

Definition params_wire : bytes :=
  tlv_bytes TLV_STATE_VECTOR (sv_wire d (SvsCore.state_entries c)) ++
  match mapping with Some m => tlv_bytes TLV_MAPPING_DATA (mapping_body (local_name c) (SvsCore.local_seq c) m) | None => [] end.

Lemma app_params_spec : GroupCore.app_params c mapping d = params_wire.
Proof.
  destruct sending_sizes as [H1 H2]. pose proof local_seq_u64 as Hq. pose proof (zlen_nonneg (name_wire grp)). unfold GroupCore.app_params, params_wire.
  rewrite encode_sv_spec by (apply entries_wf || lia). destruct mapping as [m|] eqn:Em; [|by rewrite app_nil_r].
  unfold SvsCore.local_key. rewrite uri_roundtrip by (apply wf_uri, Hsd). f_equal.
  apply encode_mapping_spec; [apply Hsd|done|by apply H2].
Qed.

Lemma params_wire_size : wf_bytes params_wire /\ zlen (name_wire grp) + zlen params_wire + 3000 <= usize_max.
Proof.
  pose proof (sd_size _ _ _ _ Hsd) as Hz. destruct sending_sizes as [_ H2]. pose proof (zlen_nonneg (name_wire (local_name c))). unfold params_wire.
  pose proof (tlv_size_bounds TLV_STATE_VECTOR _ (zlen_nonneg (sv_wire d (SvsCore.state_entries c)))). split.
  - apply wf_bytes_app. split; [apply wf_tlv_bytes; [done|]|].
    + assert (Forall wf_entry (SvsCore.state_entries c)) as He by apply entries_wf. destruct d; cbn [sv_wire].
      * apply wf_elems_wire. clear -He. induction He as [|e es [Hok Hn] _ IH]; [constructor|]. cbn [map]. apply Forall_cons. split; [|done].
        split; [split; by vm_compute|]. unfold v2_entry. apply wf_elems_wire.
        apply Forall_cons. split; [split; [split; by vm_compute|by apply wf_name_wire]|].
        apply Forall_singleton. split; [split; by vm_compute|apply wf_nni_bytes].
      * apply wf_tlv_bytes; [done|]. by apply wf_vector_wire.
    + destruct mapping as [m|] eqn:Em; [|constructor]. apply wf_tlv_bytes; [done|]. unfold mapping_body. apply wf_tlv_bytes; [done|].
      apply wf_bytes_app. split; [apply wf_tlv_bytes; [done|apply wf_name_wire, Hsd]|]. apply wf_bytes_app.
      split; [apply wf_tlv_bytes; [done|apply wf_nni_bytes]|]. by eapply sd_mapping.
  - rewrite zlen_app, zlen_tlv_bytes. destruct mapping as [m|] eqn:Em; [|change (zlen (@nil Z)) with 0; lia].
    unfold mapping_body. rewrite zlen_tlv_bytes. rewrite (zlen_tlv_bytes TLV_MAPPING_ENTRY). rewrite zlen_app3, (zlen_tlv_bytes TLV_NDN_NAME), (zlen_tlv_bytes TLV_SV_SEQ_NO).
    pose proof (tlv_size_bounds TLV_NDN_NAME _ (zlen_nonneg (name_wire (local_name c)))). pose proof (zlen_nni_bytes (SvsCore.local_seq c)).
    pose proof (tlv_size_bounds TLV_SV_SEQ_NO _ (zlen_nonneg (nni_bytes (SvsCore.local_seq c)))). pose proof (zlen_nonneg m).
    match goal with |- context [tlv_size TLV_MAPPING_ENTRY ?x] => pose proof (tlv_size_bounds TLV_MAPPING_ENTRY x ltac:(lia)) end.
    match goal with |- context [tlv_size TLV_MAPPING_DATA ?x] => pose proof (tlv_size_bounds TLV_MAPPING_DATA x ltac:(lia)) end. lia.
Qed.

Lemma params_parse : params_loop (length params_wire) d params_wire (None, ∅) =
  (Some (map (carried d) (SvsCore.state_entries c)), mappings_of c mapping).
Proof.
  destruct sending_sizes as [H1 H2]. pose proof local_seq_u64 as Hq. pose proof (zlen_nonneg (name_wire grp)).
  assert (zlen (SvsCore.state_entries c) <= MAX_TRACKED_PRODUCERS) as Hc.
  { unfold SvsCore.state_entries, zlen. rewrite length_map. apply Hsd. }
  assert (exists k, length params_wire = S (S k)) as [k ->].
  { assert (2 <= zlen params_wire); [|unfold zlen in *; destruct (length params_wire) as [|[|k]]; [lia|lia|by exists k]].
    unfold params_wire. rewrite zlen_app, zlen_tlv_bytes. pose proof (tlv_size_bounds TLV_STATE_VECTOR _ (zlen_nonneg (sv_wire d (SvsCore.state_entries c)))).
    pose proof (zlen_nonneg (sv_wire d (SvsCore.state_entries c))). match goal with |- context [_ + zlen ?x] => pose proof (zlen_nonneg x) end. lia. }
  unfold params_wire. rewrite params_step by side_tlv. cbn -[tlv_bytes params_loop].
  rewrite decode_sv_ok by (apply entries_wf || lia). destruct mapping as [m|] eqn:Em; [|apply params_nil].
  assert (zlen (name_wire (local_name c)) + zlen m + 200 <= usize_max) as Hm by by apply H2.
  destruct (mapping_sizes (local_name c) (SvsCore.local_seq c) m Hm) as [_ Hb].
  rewrite <- (app_nil_r (tlv_bytes TLV_MAPPING_DATA _)). rewrite params_step by side_tlv. rewrite params_nil.
  rewrite Z.eqb_refl. rewrite decode_mapping_ok; [done|apply Hsd|done].
Qed.
End sending.

(** ** Signers and validators *)

(** What a group needs of its security policy: an Interest that goes out is one
    the validator of a peer lets in, with the name that was asked for (whatever
    digest is appended) and the parameters as they were. *)
Class Seals {S V : Type} `{!SyncSigner S} `{!SyncValidator V} (signer : S) (validator : V) (ok : Env -> InterestBuilder -> Prop) : Prop :=
  seals : forall e counter b, ok e b ->
    exists i tail, Interest.decode (sign signer e counter b).1 = Ok i /\ i_name i = ib_name b ++ tail /\
      Interest.app_parameters i = ib_app_parameters b /\ validate validator (sign signer e counter b).1 = Ok tt.

Lemma not_psdc_id n : Interest.psdc_count n = 0 -> not_psdc n = n.
Proof.
  unfold Interest.psdc_count, not_psdc. induction n as [|c n IH]; [done|]. rewrite !filter_cons. intros H.
  destruct (decide (typ c = tlv_type.PARAMETERS_SHA256)) as [Ht|Ht].
  - rewrite zlen_cons in H. match type of H with _ + zlen ?x = 0 => pose proof (zlen_nonneg x) end. lia.
  - destruct (decide _) as [_|Hf]; [f_equal; by apply IH|done].
Qed.

Section policies.
Context (sha256 : bytes -> bytes) (hmac_sha256 : bytes -> bytes -> bytes).
Context (Hsha : is_digest sha256) (Hmac : forall k, is_digest (hmac_sha256 k)).

Definition insecure_ok (e : Env) (b : InterestBuilder) : Prop := ib_ok b /\ ib_valid b /\ ib_pin_face b = None.

#[export] Instance insecure_seals :
  @Seals Insecure Insecure (Insecure_sign sha256) Insecure_validate mkInsecure mkInsecure insecure_ok.
Proof.
  intros e counter b (Hb & Hv & Hp). destruct (build_reads sha256 (pid e) counter b Hsha Hb Hv Hp) as (i & Hd & Hn & _ & Ha & _).
  exists i. unfold full_name in Hn. destruct (ib_app_parameters b) as [p|].
  - eexists. split; [exact Hd|]. split; [exact Hn|]. done.
  - exists []. rewrite app_nil_r. done.
Qed.

Definition hmac_key_ok (k : HmacKey) (e : Env) (b : InterestBuilder) : Prop :=
  ib_ok b /\ Interest.psdc_count (ib_name b) = 0 /\ is_Some (ib_app_parameters b) /\ zlen (rand_nonce e) = 8 /\ wf_bytes (rand_nonce e) /\
  wf_name (key_name k) /\ ib_len b + zlen (name_wire (key_name k)) + 2100 <= usize_max.

#[export] Instance hmac_seals (k : HmacKey) :
  @Seals HmacKey HmacKey (HmacKey_sign sha256 hmac_sha256) (HmacKey_validate hmac_sha256) k k (hmac_key_ok k).
Proof.
  intros e counter b (Hb & Hc & [p Hp] & Hr & Hw & Hk & Hz).
  destruct (sign_sync_reads sha256 (mac hmac_sha256 k) e counter b SignatureHmacWithSha256 (Some (key_name k))) as (i & Hd & Hn & _ & Ha & Hsi & Hreg & Hsv).
  - done.
  - destruct (Hmac (hk_key k) (concat_signed_region (InterestBuilder.build_signed_interest_parts e counter b SignatureHmacWithSha256 (Some (key_name k))).1)) as [Hl Hwf].
    constructor; [done|done|by intros n [= <-]|exact Hwf|]. unfold mac. rewrite Hl. lia.
  - split; [split; vm_compute; discriminate|reflexivity].
  - reflexivity.
  - rewrite not_psdc_id in Hn by done. eexists i, _. split; [exact Hd|]. split; [exact Hn|].
    split; [by rewrite Ha; unfold params_of; rewrite Hp|]. unfold validate, HmacKey_validate, sign, HmacKey_sign. rewrite Hd, Hsi. cbn [ok_or sig_type].
    rewrite Hreg, Hsv. cbn [ok_or]. by rewrite bool_decide_true.
Qed.
End policies.

Section sync_interest.
Context {S V : Type} `{!SyncSigner S} `{!SyncValidator V} (signer : S) (validator : V) (ok : Env -> InterestBuilder -> Prop).
Context {Hseal : Seals signer validator ok}.

Lemma sync_interest_parses t grp c mapping d : sendable grp c mapping d -> ok (env t) (GroupCore.sync_builder grp c mapping d) ->
  let wire := (GroupCore.send_sync_interest signer t grp c mapping d).1 in
  validate validator wire = Ok tt /\
  parse_sync_interest grp wire d = Some (map (carried d) (SvsCore.state_entries c), mappings_of c mapping).
Proof.
  intros Hsd Hok wire. destruct (Hseal (env t) (nonce_counter t) _ Hok) as (i & tail & Hd & Hn & Ha & Hv). split; [exact Hv|].
  change (ib_app_parameters _) with (Some (GroupCore.app_params c mapping d)) in Ha. rewrite (app_params_spec grp) in Ha by done.
  change (ib_name _) with (grp ++ [Component.version (WireDialect.sync_version d)]) in Hn.
  unfold parse_sync_interest, wire, GroupCore.send_sync_interest. rewrite Hd, Hn. rewrite <- app_assoc, lookup_app_r, Nat.sub_diag by done. cbn [app lookup list_lookup].
  rewrite bool_decide_true by by destruct d. cbn [negb]. rewrite Ha.
  rewrite (params_parse grp) by done. done.
Qed.
End sync_interest.

(** ** Every publication is offered to the application *)

(** A member, what its consumer has taken from the channel and what it has
    acknowledged. *)
Record Member : Type := mkMember { core : GroupCore; taken : list SyncUpdate; acked : list (bytes * Z) }.

Definition set_queue (g : GroupCore) (ch : Chan) : GroupCore := GroupCore.set_pending g (pending g) ch.

Section runs.
Context {S V : Type} `{!SyncSigner S} `{!SyncValidator V} (signer : S) (validator : V).

(** The task takes a round, the consumer takes an update or goes away. *)
Inductive member_step : Member -> Member -> Prop :=
| step_round keys t w g tk ak out counter g' :
    svs_task_round signer validator keys t w g = Some (out, counter, g') ->
    member_step (mkMember g tk ak) (mkMember g' tk (match w with WakeAck k s => (k, s) :: ak | _ => ak end))
| step_take u q g tk ak :
    queue (update_tx g) = u :: q ->
    member_step (mkMember g tk ak) (mkMember (set_queue g (mkChan q (capacity (update_tx g)) (closed (update_tx g)))) (tk ++ [u]) ak)
| step_close g tk ak :
    member_step (mkMember g tk ak) (mkMember (set_queue g (mkChan (queue (update_tx g)) (capacity (update_tx g)) true)) tk ak).

End runs.

Definition offers (u : SyncUpdate) (key : bytes) (x : Z) : Prop := publisher u = key /\ low_seq u <= x <= high_seq u.
Definition buffered (p : gmap bytes SyncUpdate) (key : bytes) (x : Z) : Prop := exists u, p !! key = Some u /\ offers u key x.

(** Keys of the buffer are the publishers of their updates. *)
Definition keyed (p : gmap bytes SyncUpdate) : Prop := forall k u, p !! k = Some u -> publisher u = k.

Lemma coalesce_covers p u k x : keyed p ->
  keyed (coalesce_pending p u) /\ (buffered p k x \/ offers u k x -> buffered (coalesce_pending p u) k x).
Proof.
  intros Hk. unfold coalesce_pending. destruct (p !! publisher u) as [o|] eqn:E.
  - split.
    + intros k' u' [[<- <-]|[Hne H]]%lookup_insert_Some; [exact (Hk _ _ E)|by apply Hk].
    + pose proof (Hk _ _ E) as Ho. unfold buffered, offers. intros [(w & Hw & Hp & Hx)|[Hp Hx]].
      * destruct (decide (k = publisher u)) as [->|Hne]; simplify_map_eq; [|by eexists].
        eexists. split; [done|]. cbn. split; [done|lia].
      * subst k. simplify_map_eq. eexists. split; [done|]. cbn. split; [done|lia].
  - split.
    + intros k' u' [[<- <-]|[Hne H]]%lookup_insert_Some; [done|by apply Hk].
    + unfold buffered, offers. intros [(w & Hw & Hp & Hx)|[Hp Hx]].
      * destruct (decide (k = publisher u)) as [->|Hne]; simplify_map_eq. by eexists.
      * subst k. simplify_map_eq. by eexists.
Qed.

Lemma buffer_gaps_covers g pm gaps : keyed (pending g) ->
  keyed (GroupCore.buffer_gaps g pm gaps) /\
  forall k x, buffered (pending g) k x \/ (k <> g_local_key g /\ exists lo hi, (k, lo, hi) ∈ gaps /\ lo <= x <= hi) ->
    buffered (GroupCore.buffer_gaps g pm gaps) k x.
Proof.
  intros Hk. unfold GroupCore.buffer_gaps. revert Hk. generalize (pending g) as p.
  induction gaps as [|[[key lo] hi] gaps IH]; intros p Hk; cbn [fold_left].
  { split; [done|]. intros k x [H|(_ & lo & hi & H%not_elem_of_nil & _)]; done. }
  destruct (bool_decide_reflect (key = g_local_key g)) as [He|Hne].
  - destruct (IH p Hk) as [H1 H2]. split; [done|]. intros k x [H|(Hn & lo' & hi' & Hin & Hx)]; apply H2; [by left|].
    apply elem_of_cons in Hin as [[= -> -> ->]|Hin]; [done|]. right. split; [done|]. by exists lo', hi'.
  - set (u := GroupCore.gap_update g pm (key, lo, hi)). destruct (IH (coalesce_pending p u)) as [H1 H2].
    { by apply (coalesce_covers p u key 0). }
    split; [done|]. intros k x H. apply H2. destruct (coalesce_covers p u k x Hk) as [_ Hc].
    destruct H as [H|(Hn & lo' & hi' & Hin & Hx)]; [left; apply Hc; by left|].
    apply elem_of_cons in Hin as [[= -> -> ->]|Hin]; [left; apply Hc; by right|]. right. split; [done|]. by exists lo', hi'.
Qed.

Definition offered (l : list SyncUpdate) (key : bytes) (x : Z) : Prop := exists u, u ∈ l /\ offers u key x.

Lemma drain_covers keys : forall p ch, keyed p -> closed ch = false ->
  let '(p', ch') := fold_left GroupCore.drain_key keys (p, ch) in
  keyed p' /\ closed ch' = false /\
  forall k x, buffered p k x \/ offered (queue ch) k x -> buffered p' k x \/ offered (queue ch') k x.
Proof.
  induction keys as [|key keys IH]; intros p ch Hk Hc; cbn [fold_left]; [done|].
  assert (keyed (GroupCore.drain_key (p, ch) key).1 /\ closed (GroupCore.drain_key (p, ch) key).2 = false /\
    forall k x, buffered p k x \/ offered (queue ch) k x ->
      buffered (GroupCore.drain_key (p, ch) key).1 k x \/ offered (queue (GroupCore.drain_key (p, ch) key).2) k x) as (H1 & H2 & H3).
  { unfold GroupCore.drain_key, try_send. destruct (p !! key) as [u|] eqn:E; [|done]. rewrite Hc. destruct (capacity ch <=? zlen (queue ch)); [done|].
    cbn [fst snd queue closed]. split_conj; [|done|].
    - intros k' u' [_ H]%lookup_delete_Some. by apply Hk.
    - intros k x [(w & Hw & Hx)|(w & Hw & Hx)].
      + destruct (decide (k = key)) as [->|Hne]; [|left; exists w; by rewrite lookup_delete_ne].
        right. exists u. rewrite E in Hw. injection Hw as <-. split; [set_solver|done].
      + right. exists w. split; [set_solver|done]. }
  destruct (GroupCore.drain_key (p, ch) key) as [p1 ch1]. cbn [fst snd] in *. specialize (IH p1 ch1 H1 H2).
  destruct (fold_left GroupCore.drain_key keys (p1, ch1)) as [p2 ch2]. destruct IH as (H4 & H5 & H6). split_conj; [done|done|]. eauto.
Qed.

(** A merge asks for whatever it records, and keeps its own name. *)
Definition sorted (c : SvsCore) : Prop := bt_wf NameOps.cmp (vector c).

Lemma store_asks c m s (g : option gap) :
  sorted c -> (forall x, 1 <= x <= s.2 -> x <= (view m c).2 \/ exists lo hi, g = Some (display m, lo, hi) /\ lo <= x <= hi) ->
  let c' := SvsCore.set_vector c (vec_insert m s (vector c)) in
  sorted c' /\ local_name c' = local_name c /\
  forall n x, 1 <= x <= (view n c').2 -> x <= (view n c).2 \/ exists lo hi, g = Some (display n, lo, hi) /\ lo <= x <= hi.
Proof.
  intros Hs H c'. split_conj; [by apply (bt_insert_wf NameOps.cmp)|done|]. intros n x. unfold c'. rewrite view_store by done.
  destruct (decide (n = m)) as [->|Hne]; [apply H|]. intros Hx. left. lia.
Qed.

Lemma merge_entry_asks adv c e : sorted c ->
  let '(g, c') := SvsCore.merge_entry adv c e in
  sorted c' /\ local_name c' = local_name c /\
  forall n x, 1 <= x <= (view n c').2 -> x <= (view n c).2 \/ exists lo hi, g = Some (display n, lo, hi) /\ lo <= x <= hi.
Proof.
  intros Hs. assert (forall n x, 1 <= x <= (view n c).2 -> x <= (view n c).2 \/ exists lo hi, None = Some (display n, lo, hi) /\ lo <= x <= hi) as Hsame.
  { intros n x Hx. left. lia. }
  unfold SvsCore.merge_entry. destruct (bool_decide _); [done|]. destruct (_ && _); [done|]. fold (view (se_name e) c).
  destruct (view (se_name e) c) as [lb ls] eqn:Ev. destruct (lb <? se_boot e); [destruct (1 <=? se_seq e) eqn:H1|destruct (_ && _)].
  - apply store_asks; [done|]. cbn [snd]. intros x Hx. destruct adv; [|lia]. right. by eexists _, _.
  - apply store_asks; [done|]. cbn [snd]. apply Z.leb_gt in H1. lia.
  - apply store_asks; [done|]. rewrite Ev. cbn [snd]. intros x Hx. destruct adv; [|left; cbn in Hx; lia]. cbn [snd] in Hx.
    destruct (Z.le_gt_cases x ls); [by left|]. right. eexists _, _. split; [done|]. lia.
  - apply store_asks; [done|]. rewrite Ev. cbn [snd]. intros x Hx. left. lia.
Qed.

Lemma merge_asks adv received : forall c, sorted c ->
  let '(gaps, c') := SvsCore.merge_inner received adv c in
  sorted c' /\ local_name c' = local_name c /\
  forall n x, 1 <= x <= (view n c').2 -> x <= (view n c).2 \/ exists lo hi, (display n, lo, hi) ∈ gaps /\ lo <= x <= hi.
Proof.
  induction received as [|e received IH]; intros c Hs; cbn [SvsCore.merge_inner].
  - split_conj; [done|done|]. intros n x Hx. left. lia.
  - pose proof (merge_entry_asks adv c e Hs) as He. destruct (SvsCore.merge_entry adv c e) as [g c1]. destruct He as (H1 & H2 & H3).
    specialize (IH c1 H1). destruct (SvsCore.merge_inner received adv c1) as [gaps c2]. destruct IH as (H4 & H5 & H6).
    split_conj; [done|congruence|]. intros n x Hx. destruct (H6 n x Hx) as [Hle|(lo & hi & Hin & Hr)].
    + destruct (H3 n x ltac:(lia)) as [?|(lo & hi & -> & Hr)]; [by left|]. right. exists lo, hi. split; [|done]. cbn. by left.
    + right. exists lo, hi. split; [|done]. apply elem_of_app. by right.
Qed.

Lemma ack_view c k s : sorted c ->
  sorted (SvsCore.ack k s c) /\ local_name (SvsCore.ack k s c) = local_name c /\
  forall n, (view n (SvsCore.ack k s c)).2 <= (view n c).2 \/ (from_str k = Ok n /\ (view n (SvsCore.ack k s c)).2 = s).
Proof.
  intros Hs. unfold SvsCore.ack. destruct (from_str k) as [m|] eqn:Ek; [|split_conj; [done|done|intros n; left; lia]].
  destruct (bool_decide _); [split_conj; [done|done|intros n; left; lia]|].
  assert (forall p, p.2 = s -> let c' := SvsCore.set_vector c (vec_insert m p (vector c)) in
    sorted c' /\ local_name c' = local_name c /\ forall n, (view n c').2 <= (view n c).2 \/ (Ok (E := NameError) m = Ok n /\ (view n c').2 = s)) as Hset.
  { intros p Hp c'. unfold c'. split_conj; [by apply (bt_insert_wf NameOps.cmp)|done|]. intros n. rewrite view_store by done. destruct (decide (n = m)) as [->|]; [by right|left; lia]. }
  destruct (vec_get m (vector c)) as [[b q]|];
    (match goal with |- context [if ?b then _ else _] => destruct b end; [by apply Hset|split_conj; [done|done|intros n; left; lia]]).
Qed.

(** A publication of a peer is buffered, in the channel, taken, or was
    acknowledged by the application. *)
Definition accounted (g : GroupCore) (tk : list SyncUpdate) (ak : list (bytes * Z)) (n : Name) (x : Z) : Prop :=
  buffered (pending g) (display n) x \/ offered (queue (update_tx g)) (display n) x \/ offered tk (display n) x \/
  exists k s, (k, s) ∈ ak /\ from_str k = Ok n /\ x <= s.

Record group_ok (g : GroupCore) (tk : list SyncUpdate) (ak : list (bytes * Z)) : Prop := {
  go_keyed : keyed (pending g);
  go_sorted : sorted (node g);
  go_local : g_local_key g = display (local_name (node g));
  go_all : forall n x, display n <> g_local_key g -> 1 <= x <= (view n (node g)).2 -> accounted g tk ak n x
}.

Definition member_ok (m : Member) : Prop := closed (update_tx (core m)) = false -> group_ok (core m) (taken m) (acked m).

(** Steps that leave the buffers alone and move no view of a peer. *)
Lemma group_ok_frame g g' tk ak : group_ok g tk ak ->
  pending g' = pending g -> update_tx g' = update_tx g -> g_local_key g' = g_local_key g -> sorted (node g') ->
  local_name (node g') = local_name (node g) -> (forall n, n <> local_name (node g) -> view n (node g') = view n (node g)) ->
  group_ok g' tk ak.
Proof.
  intros [Hk Hs Hl Ha] Hp Hu Hkey Hs' Hn Hv. constructor; [by rewrite Hp|done|congruence|].
  intros n x Hne Hx. unfold accounted. rewrite Hp, Hu. apply Ha; [congruence|]. rewrite Hv in Hx; [done|]. intros ->. congruence.
Qed.

Lemma drain_ok keys g tk ak : closed (update_tx g) = false -> group_ok g tk ak ->
  let g' := (GroupCore.drain_pending_try keys g).2 in group_ok g' tk ak /\ closed (update_tx g') = false.
Proof.
  intros Hc [Hk Hs Hl Ha]. unfold GroupCore.drain_pending_try. pose proof (drain_covers keys (pending g) (update_tx g) Hk Hc) as H.
  destruct (fold_left GroupCore.drain_key keys (pending g, update_tx g)) as [p ch]. destruct H as (H1 & H2 & H3). cbn [snd]. split; [|done].
  constructor; [done|done|done|]. intros n x Hne Hx. unfold accounted. cbn [pending update_tx GroupCore.set_pending].
  destruct (Ha n x Hne Hx) as [H|[H|H]]; [| |tauto]; destruct (H3 (display n) x); tauto.
Qed.

Lemma drain_closed keys g : closed (update_tx (GroupCore.drain_pending_try keys g).2) = closed (update_tx g).
Proof.
  unfold GroupCore.drain_pending_try. enough (forall p ch, closed (fold_left GroupCore.drain_key keys (p, ch)).2 = closed ch) as H.
  { specialize (H (pending g) (update_tx g)). by destruct (fold_left GroupCore.drain_key keys (pending g, update_tx g)). }
  induction keys as [|k keys IH]; intros p ch; cbn [fold_left]; [done|].
  assert (closed (GroupCore.drain_key (p, ch) k).2 = closed ch) as Hc.
  { unfold GroupCore.drain_key, try_send. destruct (p !! k); [|done]. destruct (closed ch) eqn:E; [done|]. by destruct (_ <=? _). }
  destruct (GroupCore.drain_key (p, ch) k) as [p1 ch1]. cbn [snd] in Hc. by rewrite IH.
Qed.

Section steps_ok.
Context {S V : Type} `{!SyncSigner S} `{!SyncValidator V} (signer : S) (validator : V).

Lemma on_timer_frame t g : let g' := (GroupCore.on_timer signer t g).2 in
  pending g' = pending g /\ update_tx g' = update_tx g /\ g_local_key g' = g_local_key g /\ node g' = node g.
Proof. unfold GroupCore.on_timer, GroupCore.emit. by repeat (case_match; simplify_eq). Qed.

Lemma on_publish_frame t m g out counter g' : sorted (node g) -> GroupCore.on_publish signer t m g = Some (out, counter, g') ->
  pending g' = pending g /\ update_tx g' = update_tx g /\ g_local_key g' = g_local_key g /\ sorted (node g') /\
  local_name (node g') = local_name (node g) /\ forall n, n <> local_name (node g) -> view n (node g') = view n (node g).
Proof.
  intros Hs. unfold GroupCore.on_publish, SvsCore.advance. cbn [node GroupCore.set_mapping].
  destruct (default _ _) as [b s]. destruct (_ <? _); [done|]. unfold GroupCore.emit.
  set (c := SvsCore.set_vector _ _). cbv beta iota zeta. destruct (GroupCore.send_sync_interest _ _ _ _ _ _).
  intros [= <- <- <-]. unfold c. split_conj; try done; [by apply (bt_insert_wf NameOps.cmp)|]. intros n Hn. cbn [node GroupCore.set_fsm GroupCore.set_node].
  rewrite view_store by done. by rewrite decide_False.
Qed.

Lemma on_publish_tx t m g out counter g' : GroupCore.on_publish signer t m g = Some (out, counter, g') -> update_tx g' = update_tx g.
Proof.
  unfold GroupCore.on_publish, GroupCore.emit. destruct (SvsCore.advance _) as [[s c]|]; [|done]. cbv beta iota zeta.
  destruct (GroupCore.send_sync_interest _ _ _ _ _ _). by intros [= <- <- <-].
Qed.

Lemma on_inbound_tx t raw g : update_tx (GroupCore.on_inbound validator t raw g) = update_tx g.
Proof.
  unfold GroupCore.on_inbound. destruct (validate validator raw); [|done]. destruct (parse_sync_interest _ _ _) as [[remote pm]|]; [|done].
  destruct (if auto_ack _ then _ else _) as [gaps n'].
  destruct (local_ahead_of_remote _ _); [by destruct (suppressing _)|by destruct (remote_covers_local _ _)].
Qed.

Lemma on_inbound_ok t raw g tk ak : group_ok g tk ak -> group_ok (GroupCore.on_inbound validator t raw g) tk ak.
Proof.
  intros Hok. unfold GroupCore.on_inbound. destruct (validate validator raw); [|done]. destruct (parse_sync_interest _ _ _) as [[remote pm]|]; [|done].
  set (g1 := GroupCore.set_observed g _). set (adv := auto_ack (config g1)).
  replace (if adv then SvsCore.merge remote (node g1) else SvsCore.merge_deferred remote (node g1)) with (SvsCore.merge_inner remote adv (node g)) by by destruct adv.
  destruct Hok as [Hk Hs Hl Ha]. pose proof (merge_asks adv remote (node g) Hs) as Hm. destruct (SvsCore.merge_inner remote adv (node g)) as [gaps n'].
  destruct Hm as (Hs' & Hn' & Hask). set (g2 := GroupCore.set_node g1 n'). destruct (buffer_gaps_covers g2 pm gaps Hk) as [Hk2 Hc2].
  enough (group_ok (GroupCore.set_pending g2 (GroupCore.buffer_gaps g2 pm gaps) (update_tx g2)) tk ak) as Hend.
  { destruct (local_ahead_of_remote _ _); [destruct (suppressing _)|destruct (remote_covers_local _ _)]; try done;
      (eapply group_ok_frame; [exact Hend|done..]). }
  constructor; [done|done|change (g_local_key g = display (local_name n')); by rewrite Hn'|]. intros n x Hne Hx.
  destruct (Hask n x Hx) as [Hle|(lo & hi & Hin & Hr)].
  - destruct (Ha n x Hne) as [H|H]; [lia| |by right]. left. apply Hc2. by left.
  - left. apply Hc2. right. split; [done|]. by exists lo, hi.
Qed.

Lemma on_ack_ok k s g tk ak : group_ok g tk ak -> group_ok (GroupCore.on_ack k s g) tk ((k, s) :: ak).
Proof.
  intros [Hk Hs Hl Ha]. destruct (ack_view (node g) k s Hs) as (Hs' & Hn' & Hv). constructor; [done|done|change (g_local_key g = display (local_name (SvsCore.ack k s (node g)))); by rewrite Hn'|].
  intros n x Hne Hx. cbn [node GroupCore.on_ack GroupCore.set_node] in Hx. destruct (Hv n) as [Hle|[Hf He]].
  - destruct (Ha n x Hne) as [H|[H|[H|(k' & s' & Hin & Hf & Hs2)]]]; [lia|by left|by right; left|by right; right; left|].
    right. right. right. exists k', s'. split; [by right|done].
  - right. right. right. exists k, s. split; [by left|]. split; [done|]. lia.
Qed.

Lemma member_step_ok m m' : member_step signer validator m m' -> member_ok m -> member_ok m'.
Proof.
  intros Hstep. destruct Hstep as [keys t w g tk ak out counter g' Hr|u q g tk ak Hq|g tk ak]; unfold member_ok; cbn [core taken acked].
  - unfold svs_task_round in Hr. pose proof (drain_closed keys g) as Hdc.
    destruct (GroupCore.drain_pending_try keys g) as [more g1] eqn:Ed. cbn [snd] in Hdc. intros Hok Hc.
    assert (closed (update_tx g1) = false -> group_ok g1 tk ak) as Hok1.
    { intros Hc1. rewrite Hdc in Hc1. destruct (drain_ok keys g tk ak Hc1 (Hok Hc1)) as [H _]. by rewrite Ed in H. }
    destruct w as [|raw|pn m|k s].
    + destruct (_ <=? _); [|by simplify_eq; apply Hok1]. destruct (on_timer_frame t g1) as (H1 & H2 & H3 & H4).
      injection Hr as Hr. rewrite Hr in H1, H2, H3, H4. cbn [snd] in *. rewrite H2 in Hc. eapply group_ok_frame; [by apply Hok1|done|done|done|..]; rewrite H4; try done.
      by apply Hok1.
    + simplify_eq. apply on_inbound_ok, Hok1. by rewrite <- Hc, on_inbound_tx.
    + pose proof (on_publish_tx _ _ _ _ _ _ Hr) as Hu.
      rewrite Hu in Hc. specialize (Hok1 Hc). destruct (on_publish_frame t m g1 out counter g' (go_sorted _ _ _ Hok1) Hr) as (H1 & H2 & H3 & H4 & H5 & H6).
      by eapply group_ok_frame.
    + simplify_eq. apply on_ack_ok, Hok1. done.
  - intros Hok Hc. destruct (Hok Hc) as [Hk Hs Hl Ha]. constructor; [done|done|done|]. intros n x Hne Hx. unfold accounted. cbn [pending update_tx set_queue GroupCore.set_pending queue].
    destruct (Ha n x Hne Hx) as [H|[(w & Hw & Ho)|[(w & Hw & Ho)|H]]]; [by left| | |tauto].
    + rewrite Hq in Hw. apply elem_of_cons in Hw as [->|Hw]; [right; right; left; exists u; split; [set_solver|done]|].
      right. left. by exists w.
    + right. right. left. exists w. split; [set_solver|done].
  - intros _ Hc. done.
Qed.
End steps_ok.

(** The key of the member itself does not change. *)
Lemma member_step_key {S V : Type} `{!SyncSigner S} `{!SyncValidator V} (signer : S) (validator : V) m m' :
  member_step signer validator m m' -> g_local_key (core m') = g_local_key (core m).
Proof.
  intros Hstep. destruct Hstep as [keys t w g tk ak out counter g' Hr|u q g tk ak Hq|g tk ak]; [|done|done]. cbn [core].
  unfold svs_task_round in Hr. assert (g_local_key (GroupCore.drain_pending_try keys g).2 = g_local_key g) as Hd.
  { unfold GroupCore.drain_pending_try. by destruct (fold_left _ _ _). }
  destruct (GroupCore.drain_pending_try keys g) as [more g1]. cbn [snd] in Hd. rewrite <- Hd. destruct w as [|raw|pn m|k s].
  - destruct (_ <=? _); [|by simplify_eq]. destruct (on_timer_frame signer t g1) as (_ & _ & H3 & _). injection Hr as Hr. by rewrite Hr in H3.
  - injection Hr as _ _ <-. unfold GroupCore.on_inbound. destruct (validate validator raw); [|done]. destruct (parse_sync_interest _ _ _) as [[remote pm]|]; [|done].
    destruct (if auto_ack _ then _ else _) as [gaps n']. destruct (local_ahead_of_remote _ _); [by destruct (suppressing _)|by destruct (remote_covers_local _ _)].
  - unfold GroupCore.on_publish, GroupCore.emit in Hr. destruct (SvsCore.advance _) as [[s c]|]; [|done]. revert Hr. cbv beta iota zeta.
    destruct (GroupCore.send_sync_interest _ _ _ _ _ _). by intros [= <- <- <-].
  - by injection Hr as _ _ <-.
Qed.

(** ** Suppression *)

Lemma pair_gt_spec p q : pair_gt p q = false <-> lex_le p q.
Proof. unfold pair_gt, lex_le. destruct p, q. cbn. bcase; naive_solver lia. Qed.

(** What a recorded vector covers is what one of the recorded entries covers. *)
Lemma record_vector_covers es : forall m k p,
  lex_le p (default (0, 0) (record_vector m es !! k)) <->
  lex_le p (default (0, 0) (m !! k)) \/ exists e, e ∈ es /\ display (se_name e) = k /\ lex_le p (se_boot e, se_seq e).
Proof.
  induction es as [|e es IH]; intros m k p; cbn [record_vector fold_left].
  { split; [by left|]. intros [?|(e & ?%not_elem_of_nil & _)]; done. }
  fold (record_vector (record_entry m e) es). rewrite IH. unfold record_entry.
  assert (forall q r, lex_le p (if pair_gt q r then q else r) <-> lex_le p q \/ lex_le p r) as Hmax.
  { intros q r. destruct (pair_gt q r) eqn:E; [|apply pair_gt_spec in E]; [|unfold lex_le in *; lia].
    assert (~ lex_le q r) as Hn by (rewrite <- pair_gt_spec; congruence). unfold lex_le in *. lia. }
  destruct (decide (k = display (se_name e))) as [->|Hne].
  - rewrite lookup_insert_eq. cbn [default option_fmap]. unfold default at 1. cbn [from_option id]. rewrite Hmax. split.
    + intros [[H|H]|(e' & H1 & H2)]; [right; exists e; split; [by left|done]|by left|right; exists e'; split; [by right|done]].
    + intros [H|(e' & [->|H1]%elem_of_cons & H2 & H3)]; [by left; right|by left; left|]. right. by exists e'.
  - rewrite lookup_insert_ne by done. split.
    + intros [H|(e' & H1 & H2)]; [by left|]. right. exists e'. split; [by right|done].
    + intros [H|(e' & [->|H1]%elem_of_cons & H2 & H3)]; [by left|by rewrite H2 in Hne|]. right. by exists e'.
Qed.

(** Keys that are URIs of names. *)
Definition uri_keys (m : gmap bytes (Z * Z)) : Prop := forall k p, m !! k = Some p -> exists n, from_str k = Ok n /\ display n = k.

Lemma record_vector_keys es : forall m, uri_keys m -> Forall (fun e => wf_name (se_name e)) es -> uri_keys (record_vector m es).
Proof.
  induction es as [|e es IH]; intros m Hm He; [done|]. apply Forall_cons in He as [Hn He]. apply IH; [|done].
  intros k p. unfold record_entry. intros [[<- _]|[_ H]]%lookup_insert_Some; [|by eapply Hm]. exists (se_name e). split; [|done]. by apply uri_roundtrip, wf_uri.
Qed.

Lemma remote_map_list es : remote_map es = list_to_map (reverse (map (fun e => (display (se_name e), (se_boot e, se_seq e))) es)).
Proof.
  unfold remote_map. enough (forall m, fold_left (fun m e => <[display (se_name e) := (se_boot e, se_seq e)]> m) es m =
    list_to_map (reverse (map (fun e => (display (se_name e), (se_boot e, se_seq e))) es)) ∪ m) as H by (rewrite H; apply map_union_empty).
  induction es as [|e es IH]; intros m; cbn [fold_left map]; [symmetry; apply (left_id_L ∅ (∪))|].
  rewrite IH, reverse_cons, list_to_map_app. rewrite <- (assoc_L (∪)). f_equal. rewrite insert_union_singleton_l. by f_equal.
Qed.

Lemma remote_map_recorded m : uri_keys m -> remote_map (GroupCore.recorded_sv m) = m.
Proof.
  intros Hm. rewrite remote_map_list.
  assert (map (fun e => (display (se_name e), (se_boot e, se_seq e))) (GroupCore.recorded_sv m) = map_to_list m) as ->.
  { unfold GroupCore.recorded_sv. assert (forall k p, (k, p) ∈ map_to_list m -> exists n, from_str k = Ok n /\ display n = k) as Hl.
    { intros k p H%elem_of_map_to_list. by eapply Hm. }
    revert Hl. generalize (map_to_list m) as l. induction l as [|[k [b s]] l IH]; intros Hl; [done|]. cbn [omap list_omap].
    destruct (Hl k (b, s)) as (n & Hn & Hd); [by left|]. rewrite Hn. cbn [map se_name se_boot se_seq]. rewrite Hd. f_equal. apply IH.
    intros k' p' H. eapply Hl. by right. }
  rewrite <- (list_to_map_to_list m) at 2. apply list_to_map_proper; [|apply reverse_Permutation].
  rewrite reverse_Permutation. apply NoDup_fst_map_to_list.
Qed.

Lemma covers_spec local sv : remote_covers_local local sv = true <->
  forall e, e ∈ local -> lex_le (sv_boot e, sv_seq e) (default (0, 0) (remote_map sv !! sv_node e)).
Proof.
  unfold remote_covers_local. rewrite List.forallb_forall. split; intros H e He.
  - apply pair_gt_spec, negb_true_iff, H. by apply list_elem_of_In.
  - apply negb_true_iff, pair_gt_spec, H. by apply list_elem_of_In.
Qed.

Lemma display_wf_inj n m : wf_name n -> wf_name m -> display n = display m -> n = m.
Proof. intros Hn Hm H. pose proof (uri_roundtrip n (wf_uri n Hn)) as H1. rewrite H, uri_roundtrip in H1 by by apply wf_uri. congruence. Qed.

(** ** A publication and a peer *)

(** Under distinct names each claim that is news gives its range. *)
Lemma merge_gap adv received : forall c, core_ok c -> Forall entry_ok received -> NoDup (map se_name received) ->
  zlen (vector c) + zlen received <= MAX_TRACKED_PRODUCERS ->
  forall e, e ∈ received -> se_name e <> local_name c -> wanted (view (se_name e) c) e = true ->
  (display (se_name e), base_of (view (se_name e) c) e + 1, reach (view (se_name e) c) e) ∈ (SvsCore.merge_inner received adv c).1.
Proof.
  induction received as [|e0 received IH]; intros c Hok Hr Hnd Hz e He Hne Hw; [by apply not_elem_of_nil in He|]. cbn [SvsCore.merge_inner].
  apply Forall_cons in Hr as [He0 Hr]. cbn [map] in Hnd. apply NoDup_cons in Hnd as [Hni Hnd]. rewrite zlen_cons in Hz.
  pose proof (zlen_nonneg received). pose proof (merge_entry_spec adv c e0 Hok He0) as Hm.
  destruct (SvsCore.merge_entry adv c e0) as [g c1]. destruct Hm as (Hok1 & Hn1 & _ & _ & Hz1 & Hv1 & _ & Hg).
  specialize (IH c1 Hok1 Hr Hnd ltac:(lia)). destruct (SvsCore.merge_inner received adv c1) as [gaps c2]. cbn [fst] in *.
  apply elem_of_app. apply elem_of_cons in He as [->|He].
  - left. rewrite Hg, bool_decide_true, Hw; [cbn; by left|]. split; [done|]. right. lia.
  - right. assert (view (se_name e) c1 = view (se_name e) c) as Hsame.
    { rewrite Hv1, decide_False; [done|]. intros [Heq _]. apply Hni. rewrite <- Heq. apply list_elem_of_fmap. by exists e. }
    specialize (IH e He ltac:(by rewrite Hn1)). rewrite Hsame in IH. by apply IH.
Qed.

Lemma merge_gap_keys adv received : forall c,
  map (fun g : gap => g.1.1) (SvsCore.merge_inner received adv c).1 `sublist_of` map (fun e => display (se_name e)) received.
Proof.
  induction received as [|e received IH]; intros c; cbn [SvsCore.merge_inner]; [done|].
  assert (forall g c', SvsCore.merge_entry adv c e = (g, c') -> option_list ((fun g : gap => g.1.1) <$> g) `sublist_of` [display (se_name e)]) as Hg.
  { intros g c'. unfold SvsCore.merge_entry. destruct (default _ _). repeat case_match; intros [= <- _]; cbn; by repeat constructor. }
  destruct (SvsCore.merge_entry adv c e) as [g c1]. specialize (Hg g c1 eq_refl). specialize (IH c1).
  destruct (SvsCore.merge_inner received adv c1) as [gaps c2]. cbn [fst] in *. rewrite map_app. cbn [map].
  apply (sublist_app _ [display (se_name e)]); [|done]. by destruct g as [[[]]|].
Qed.

Lemma coalesce_ne p u k : k <> publisher u -> coalesce_pending p u !! k = p !! k.
Proof. intros H. unfold coalesce_pending. destruct (p !! publisher u); by rewrite lookup_insert_ne. Qed.

Lemma buffer_gaps_at g pm gaps key lo hi : NoDup (map (fun g : gap => g.1.1) gaps) -> (key, lo, hi) ∈ gaps -> key <> g_local_key g ->
  GroupCore.buffer_gaps g pm gaps !! key = coalesce_pending (pending g) (GroupCore.gap_update g pm (key, lo, hi)) !! key.
Proof.
  unfold GroupCore.buffer_gaps. generalize (pending g) as p. intros p Hnd Hin Hne. revert p Hnd.
  assert (forall l p, key ∉ map (fun g : gap => g.1.1) l -> fold_left (fun pending gp => let '(peer_key, low, high) := gp in
    if bool_decide (peer_key = g_local_key g) then pending else coalesce_pending pending (GroupCore.gap_update g pm gp)) l p !! key = p !! key) as Hout.
  { induction l as [|[[k a] b] l IH]; intros p Hn; cbn [fold_left]; [done|]. cbn [map] in Hn. apply not_elem_of_cons in Hn as [Hk Hn]. rewrite IH by done.
    destruct (bool_decide _); [done|]. by rewrite coalesce_ne. }
  induction gaps as [|[[k a] b] gaps IH]; intros p Hnd; [by apply not_elem_of_nil in Hin|]. cbn [map] in Hnd. apply NoDup_cons in Hnd as [Hni Hnd]. cbn [fold_left].
  apply elem_of_cons in Hin as [Heq|Hin].
  - simplify_eq. rewrite bool_decide_false by done. by rewrite Hout.
  - rewrite IH by done. assert (key <> k) as Hk.
    { intros ->. apply Hni. apply list_elem_of_fmap. by exists (k, lo, hi). }
    destruct (bool_decide (k = g_local_key g)); [done|]. unfold coalesce_pending at 1 3.
    change (publisher (GroupCore.gap_update g pm (key, lo, hi))) with key. by rewrite coalesce_ne, !lookup_insert_eq || (rewrite coalesce_ne by done; by destruct (p !! key); rewrite !lookup_insert_eq).
Qed.

(** The node and the buffer after an Interest that is let in. *)
Lemma on_inbound_effect {V : Type} `{!SyncValidator V} (validator : V) t raw g remote pm :
  validate validator raw = Ok tt -> parse_sync_interest (group g) raw (dialect (config g)) = Some (remote, pm) ->
  let g' := GroupCore.on_inbound validator t raw g in
  let '(gaps, n) := SvsCore.merge_inner remote (auto_ack (config g)) (node g) in
  node g' = n /\ exists g2, pending g2 = pending g /\ g_local_key g2 = g_local_key g /\ pending g' = GroupCore.buffer_gaps g2 pm gaps.
Proof.
  intros Hv Hp. unfold GroupCore.on_inbound. rewrite Hv, Hp. set (g1 := GroupCore.set_observed g _).
  replace (if auto_ack (config g1) then SvsCore.merge remote (node g1) else SvsCore.merge_deferred remote (node g1))
    with (SvsCore.merge_inner remote (auto_ack (config g)) (node g)) by (change (auto_ack (config g1)) with (auto_ack (config g)); by destruct (auto_ack (config g))).
  destruct (SvsCore.merge_inner remote (auto_ack (config g)) (node g)) as [gaps n]. set (g2 := GroupCore.set_node g1 n).
  destruct (local_ahead_of_remote _ _); [destruct (suppressing _)|destruct (remote_covers_local _ _)]; (split; [done|]; by exists g2).
Qed.

Lemma on_publish_sends {S : Type} `{!SyncSigner S} (signer : S) t m g out counter g' :
  sorted (node g) -> GroupCore.on_publish signer t m g = Some (out, counter, g') ->
  out = [(GroupCore.send_sync_interest signer t (group g) (node g') m (dialect (config g))).1] /\
  local_name (node g') = local_name (node g) /\ is_Some (vec_get (local_name (node g)) (vector (node g'))).
Proof.
  intros Hs. unfold GroupCore.on_publish, SvsCore.advance. cbn [node GroupCore.set_mapping].
  destruct (default _ _) as [b s]. destruct (_ <? _); [done|]. unfold GroupCore.emit.
  set (c := SvsCore.set_vector _ _). cbv beta iota zeta.
  cbn [group node current_mapping config GroupCore.set_node GroupCore.set_mapping].
  destruct (GroupCore.send_sync_interest _ _ _ _ _ _) as [w k] eqn:E. intros [= <- <- <-].
  cbn [node GroupCore.set_fsm GroupCore.set_node]. rewrite E. split_conj; [done|done|]. unfold c. cbn [vector SvsCore.set_vector].
  rewrite vec_get_insert by done. by rewrite decide_True.
Qed.

Lemma carried_name d e : se_name (carried d e) = se_name e.
Proof. by destruct d. Qed.

Lemma carried_ok d e : entry_ok e -> entry_ok (carried d e).
Proof. intros [H1 H2]. destruct d; [|done]. split; [|done]. cbn. unfold_bounds. lia. Qed.

(** What a vector that was sent looks like to the receiver. *)
Lemma claims_ok grp c m d : sendable grp c m d ->
  let es := map (carried d) (SvsCore.state_entries c) in
  Forall entry_ok es /\ NoDup (map se_name es) /\ NoDup (map (fun e => display (se_name e)) es) /\ zlen es = zlen (vector c) /\
  forall n, is_Some (vec_get n (vector c)) -> carried d (mkEntry n (view n c).1 (view n c).2) ∈ es.
Proof.
  intros Hsd es. pose proof (sd_core _ _ _ _ Hsd) as Hc. pose proof (sd_names _ _ _ _ Hsd) as Hws. rewrite Forall_forall in Hws.
  assert (map se_name es = map fst (vector c)) as Hnames.
  { unfold es. rewrite map_map, <- map_entries_names. apply map_ext. intros e. apply carried_name. }
  split_conj.
  - apply Forall_map. eapply Forall_impl; [exact (entries_wf _ _ _ _ Hsd)|]. intros e [H _]. by apply carried_ok.
  - rewrite Hnames. by apply names_nodup.
  - rewrite <- (map_map se_name display), Hnames. apply NoDup_fmap_2_strong; [|by apply names_nodup].
    intros x y ([x' ?] & -> & Hx)%list_elem_of_fmap ([y' ?] & -> & Hy)%list_elem_of_fmap. apply display_wf_inj; [exact (Hws _ Hx)|exact (Hws _ Hy)].
  - unfold es, SvsCore.state_entries, zlen. by rewrite !length_map.
  - intros n [p Hp]. apply list_elem_of_fmap. eexists. split; [reflexivity|]. apply list_elem_of_fmap. exists (n, view n c).
    split; [by destruct (view n c)|]. apply (bt_elem_of NameOps.cmp); [apply Hc|]. unfold view. by rewrite Hp.
Qed.

(** ** Properties *)

(** C31: every publication is offered to the application.  Whatever Interests, publications,
    acknowledgements and timers a member of a group handles, in whatever order,
    and however slowly its consumer takes updates: each number up to what the
    member has recorded of a peer is in an update that the consumer took, that is
    in the channel or that is buffered for it, or the application acknowledged it
    itself.  (Until the consumer goes away.) *)
Theorem every_publication_offered {S V : Type} `{!SyncSigner S} `{!SyncValidator V} (signer : S) (validator : V)
    (t : Tick) (grp me : Name) (cfg : SvsConfig) (tx : Chan) (m : Member) :
  rtc (member_step signer validator) (mkMember (GroupCore.new t grp me cfg tx) [] []) m -> closed (update_tx (core m)) = false ->
  forall n x, display n <> display me -> 1 <= x <= (view n (node (core m))).2 ->
    (exists u, publisher u = display n /\ low_seq u <= x <= high_seq u /\
       (u ∈ taken m \/ u ∈ queue (update_tx (core m)) \/ pending (core m) !! display n = Some u)) \/
    (exists k s, (k, s) ∈ acked m /\ from_str k = Ok n /\ x <= s).
Proof.
  intros Hrun Hc n x Hne Hx.
  assert (member_ok (mkMember (GroupCore.new t grp me cfg tx) [] []) /\ g_local_key (GroupCore.new t grp me cfg tx) = display me) as [H0 Hkey].
  { split; [|done]. intros _. constructor; [done| |done|].
    - apply (bt_insert_wf NameOps.cmp). constructor.
    - intros n' x' Hn' Hx'. change (node _) with (SvsCore.with_boot_seq me (cfg_boot cfg) (cfg_seq cfg)) in Hx'. rewrite view_fresh in Hx'.
      rewrite decide_False in Hx' by (intros ->; by apply Hn'). cbn in Hx'. lia. }
  assert (member_ok m /\ g_local_key (core m) = display me) as [Hm Hk].
  { clear Hc Hx. revert H0 Hkey. change (GroupCore.new t grp me cfg tx) with (core (mkMember (GroupCore.new t grp me cfg tx) [] [])) at 2.
    induction Hrun as [y|y z w Hs _ IH]; intros H0 Hkey; [done|]. apply IH; [by eapply member_step_ok|]. rewrite <- Hkey.
    by eapply member_step_key. }
  destruct (Hm Hc) as [_ _ _ Ha]. destruct (Ha n x) as [(u & Hu & Hp & Hr)|[(u & Hu & Hp & Hr)|[(u & Hu & Hp & Hr)|H]]]; [by rewrite Hk|done|..].
  - left. exists u. eauto.
  - left. exists u. eauto.
  - left. exists u. eauto.
  - by right.
Qed.


(** When the group stays silent.  A member that hears a peer that is behind
    opens a window, keeps its deadline while the window is open, and records each
    vector heard in it.  At the deadline it sends nothing if and only if, for
    every producer it knows, some vector heard in the window claims as much as it
    knows itself; otherwise it sends one Sync Interest.  Either way the window
    closes. *)
Theorem suppression_spec {S V : Type} `{!SyncSigner S} `{!SyncValidator V} (signer : S) (validator : V)
    (t : Tick) (raw : bytes) (g : GroupCore) (remote : list StateEntry) (pm : gmap bytes bytes) (heard : list StateEntry) :
  Forall (fun e => wf_name (se_name e)) heard -> Forall (fun e => wf_name e.1) (vector (node g)) ->
  recorded g = record_vector ∅ heard ->
  (validate validator raw = Ok tt -> parse_sync_interest (group g) raw (dialect (config g)) = Some (remote, pm) ->
   local_ahead_of_remote (SvsCore.snapshot (node g)) remote = true ->
   let g' := GroupCore.on_inbound validator t raw g in
   suppressing g' = true /\ recorded g' = record_vector ∅ (heard ++ remote) /\
   next_send g' = if suppressing g then next_send g else now t + suppression_draw t) /\
  (suppressing g = true ->
   let '(out, _, g') := GroupCore.on_timer signer t g in
   (out = [] <-> forall n p, (n, p) ∈ vector (node g) ->
      lex_le p (0, 0) \/ exists e, e ∈ heard /\ se_name e = n /\ lex_le p (se_boot e, se_seq e)) /\
   (out = [] \/ out = [(GroupCore.send_sync_interest signer t (group g) (node g) (current_mapping g) (dialect (config g))).1]) /\
   suppressing g' = false /\ recorded g' = ∅).
Proof.
  intros Hh Hl Hrec. split.
  - intros Hv Hp Hah. unfold GroupCore.on_inbound. rewrite Hv, Hp.
    change (node (GroupCore.set_observed g _)) with (node g). rewrite Hah. destruct (if auto_ack _ then _ else _) as [gaps n].
    cbn [suppressing GroupCore.set_pending GroupCore.set_node GroupCore.set_observed recorded next_send].
    unfold record_vector. rewrite Hrec, fold_left_app. destruct (suppressing g) eqn:Es; cbn; by rewrite ?Es.
  - intros Hs. unfold GroupCore.on_timer. rewrite Hs.
    assert (remote_covers_local (SvsCore.snapshot (node g)) (GroupCore.recorded_sv (recorded g)) = true <->
      forall n p, (n, p) ∈ vector (node g) -> lex_le p (0, 0) \/ exists e, e ∈ heard /\ se_name e = n /\ lex_le p (se_boot e, se_seq e)) as Hcov.
    { rewrite covers_spec, Hrec, remote_map_recorded by (apply record_vector_keys; [by intros ? ?; rewrite lookup_empty|done]).
      rewrite Forall_forall in Hl. rewrite Forall_forall in Hh. split.
      - intros H n [b s] Hin. specialize (H (mkVectorEntry (display n) b s)). rewrite record_vector_covers, lookup_empty in H.
        destruct H as [H|(e & He & Hd & H)]; [apply list_elem_of_fmap; by exists (n, (b, s))|by left|].
        right. exists e. split; [done|]. split; [|done]. apply display_wf_inj; [by apply Hh|exact (Hl _ Hin)|done].
      - intros H e ([n [b s]] & -> & Hin)%list_elem_of_fmap. rewrite record_vector_covers, lookup_empty.
        destruct (H _ _ Hin) as [H0|(e & He & <- & H0)]; [by left|]. right. by exists e. }
    destruct (remote_covers_local _ _); cbn [negb].
    + split; [split; [intros _; by apply Hcov|done]|]. split; [by left|done].
    + unfold GroupCore.emit. destruct (GroupCore.send_sync_interest _ _ _ _ _ _) as [w k]. split; [|split; [by right|done]].
      split; [done|]. intros H. apply Hcov in H. done.
Qed.

(** ** Examples *)

Definition example_grp : Name := [mkComponent 8 [103]].
Definition example_tick : Tick := mkTick 0 0 7000000 example_env 0.
Definition example_member (n : Name) : GroupCore := GroupCore.new example_tick example_grp n SvsConfig.sim (mkChan [] 4 false).
Definition toy_hmac (k x : bytes) : bytes := toy_digest (k ++ x).
Definition example_key : HmacKey := mkHmacKey [1; 2; 3] name_ab.
#[local] Instance example_signer : SyncSigner HmacKey := HmacKey_sign toy_digest toy_hmac.
#[local] Instance example_validator : SyncValidator HmacKey := HmacKey_validate toy_hmac.

(** [/b] publishes. *)
Definition example_published : option (list bytes * Z * GroupCore) := GroupCore.on_publish example_key example_tick (Some [5]) (example_member name_b).
Definition example_wire : bytes := match example_published with Some ([w], _, _) => w | _ => [] end.
Definition example_after : GroupCore := match example_published with Some (_, _, g) => g | None => example_member name_b end.
Definition example_out : list bytes * Z := match example_published with Some (o, k, _) => (o, k) | None => ([], 0) end.

Lemma example_published_eq : example_published = Some (example_out.1, example_out.2, example_after).
Proof. vm_compute. reflexivity. Qed.

Lemma every_publication_offered_witness :
  exists m, rtc (member_step example_key example_key) (mkMember (example_member name_a) [] []) m /\
    1 <= 1 <= (view name_b (node (core m))).2 /\
    ((exists u, publisher u = display name_b /\ low_seq u <= 1 <= high_seq u /\
       (u ∈ taken m \/ u ∈ queue (update_tx (core m)) \/ pending (core m) !! display name_b = Some u)) \/
     (exists k s, (k, s) ∈ acked m /\ from_str k = Ok name_b /\ 1 <= s)).
Proof.
  set (g := example_member name_a).
  assert (exists out counter g', svs_task_round example_key example_key [] example_tick (WakeInbound example_wire) g = Some (out, counter, g') /\
    closed (update_tx g') = false /\ view name_b (node g') = (0, 1)) as (out & counter & g' & Hr & Hc & Hv).
  { eexists _, _, _. split; [reflexivity|]. split; vm_compute; reflexivity. }
  assert (rtc (member_step example_key example_key) (mkMember g [] []) (mkMember g' [] [])) as Hrun.
  { apply rtc_once. exact (step_round example_key example_key _ _ _ _ _ _ _ _ _ Hr). }
  exists (mkMember g' [] []). split; [exact Hrun|]. split; [cbn [core]; rewrite Hv; cbn; lia|].
  apply (every_publication_offered example_key example_key _ _ _ _ _ _ Hrun Hc name_b 1); [vm_compute; discriminate|].
  cbn [core]. rewrite Hv. cbn. lia.
Defined.

Lemma toy_hmac_digest k : is_digest (toy_hmac k).
Proof. intros x. apply toy_is_digest. Qed.

Lemma example_sendable : sendable example_grp (node example_after) (Some [5]) V2.
Proof.
  assert (node example_after = SvsCore.with_boot_seq name_b 0 1) as -> by (vm_compute; reflexivity).
  constructor; [by apply (Forall_singleton wf_component); split; [by vm_compute|by apply wf_bytes_check]|done|apply fresh_ok; split; vm_compute; discriminate| | | | |].
  - apply Forall_singleton. apply (Forall_singleton wf_component). split; [by vm_compute|by apply wf_bytes_check].
  - apply (Forall_singleton wf_component). split; [by vm_compute|by apply wf_bytes_check].
  - intros m [= <-]. by apply wf_bytes_check.
  - vm_compute. discriminate.
  - vm_compute. discriminate.
Qed.

Lemma example_hmac_ok : hmac_key_ok example_key example_env (GroupCore.sync_builder example_grp (node example_after) (Some [5]) V2).
Proof.
  assert (node example_after = SvsCore.with_boot_seq name_b 0 1) as -> by (vm_compute; reflexivity).
  unfold hmac_key_ok. split_conj; [|vm_compute; reflexivity|by eexists|reflexivity|by apply wf_bytes_check|exact wf_name_ab|vm_compute; discriminate].
  constructor; [|discriminate|discriminate|discriminate| |].
  - apply Forall_cons. split; [split; [by vm_compute|by apply wf_bytes_check]|]. apply (Forall_singleton wf_component). split; [by vm_compute|by apply wf_bytes_check].
  - intros p [= <-]. by apply wf_bytes_check.
  - vm_compute. discriminate.
Qed.


(** [/b] heard itself echoed, so it has nothing to add. *)
Definition example_window : GroupCore :=
  GroupCore.set_fsm example_after true (record_vector ∅ [mkEntry name_b 0 1]) 7000000.

Lemma suppression_spec_witness :
  (GroupCore.on_timer example_key example_tick example_window).1.1 = [] /\
  (GroupCore.on_timer example_key example_tick (GroupCore.set_fsm example_after true ∅ 7000000)).1.1 <> [].
Proof.
  assert (vector (node example_window) = [(name_b, (0, 1))]) as Hv by (vm_compute; reflexivity).
  assert (wf_name name_b) as Hb by (apply (Forall_singleton wf_component); split; [by vm_compute|by apply wf_bytes_check]).
  split.
  - destruct (suppression_spec example_key example_key example_tick [] example_window [] ∅ [mkEntry name_b 0 1]) as [_ H].
    + by apply Forall_singleton.
    + rewrite Hv. by apply Forall_singleton.
    + reflexivity.
    + specialize (H eq_refl). destruct (GroupCore.on_timer example_key example_tick example_window) as [[out k] g']. destruct H as [H _]. cbn.
      apply H. intros n p Hin. rewrite Hv in Hin. apply list_elem_of_singleton in Hin as [= -> ->]. right. exists (mkEntry name_b 0 1).
      split; [by left|]. split; [done|]. right. split; [done|]. cbn. lia.
  - vm_compute. discriminate.
Defined.

(** The number of components of the group is checked, the components are not: an
    Interest of the group [/h] is taken for one of [/g]. *)
Lemma foreign_group_accepted :
  parse_sync_interest example_grp
    (GroupCore.send_sync_interest example_key example_tick [mkComponent 8 [104]] (node example_after) None V2).1 V2
  = Some ([mkEntry name_b 0 1], ∅).
Proof. vm_compute. reflexivity. Qed.
