(* ===== verification/Rib.v ===== *)
(** * Routing tables of the engine ([ndn-engine]: [fib.rs], [rib.rs], [readvertise.rs])

    The FIB the pipeline reads (a copy-on-write trie; a write is one atomic
    replacement, so an operation is a function of the trie), the RIB it is
    computed from, with inheritance and capture, and the set of prefixes handed
    to a routing protocol; then the composite operations of the engine and of
    management that change the RIB and bring the FIB up to date.

    The iteration order of a hash map is unspecified: each computation takes the
    orders it happens to see ([Orders]), which only need to list what is in the
    map.  Instants are nanoseconds. *)
From stdpp Require Import gmap sorting.
From S2P Require Import Prelude Tlv Name BTree FwdCore Trie.
#[local] Open Scope Z_scope.

(** ** [fib.rs] *)

Module FibTrie.

(** The children are keyed by component, as in the store's trie, and the walks of
    [get], [insert], [remove] and [dump] are the same. *)
Definition FibTrie : Type := TrieNode FibEntry.
Definition get (t : FibTrie) (name : Name) : option FibEntry := NameTrie.get t name.
Definition insert (t : FibTrie) (name : Name) (value : FibEntry) : FibTrie := NameTrie.insert t name value.
Definition remove (t : FibTrie) (name : Name) : FibTrie := NameTrie.remove t name.
Definition dump (t : FibTrie) : list (Name * FibEntry) := NameTrie.dump t.

(** [i] is the index of the next component. *)
Fixpoint lpm_walk (node : FibTrie) (i : Z) (name : Name) (best : option (Z * FibEntry)) : option (Z * FibEntry) :=
  match name with
  | [] => best
  | comp :: rest =>
      match NameTrie.child (NameTrie.children node) comp with
      | Some child => lpm_walk child (i + 1) rest (match NameTrie.entry child with Some e => Some (i + 1, e) | None => best end)
      | None => best
      end
  end.
Definition lpm_with_depth (t : FibTrie) (name : Name) : option (Z * FibEntry) :=
  lpm_walk t 0 name ((fun e => (0, e)) <$> NameTrie.entry t).
Definition lpm (t : FibTrie) (name : Name) : option FibEntry := snd <$> lpm_with_depth t name.

End FibTrie.

(** [sort_by_key(|n| n.cost)], stable. *)
Fixpoint insert_by_cost (n : FibNexthop) (l : list FibNexthop) : list FibNexthop :=
  match l with
  | [] => [n]
  | m :: l' => if cost n <=? cost m then n :: l else m :: insert_by_cost n l'
  end.
Definition sort_by_cost (l : list FibNexthop) : list FibNexthop := foldr insert_by_cost [] l.

Module EngineFib.

Definition Fib : Type := FibTrie.FibTrie.
Definition new : Fib := NameTrie.TrieNode_new.
Definition lpm (f : Fib) (name : Name) : option FibEntry := FibTrie.lpm f name.
Definition lpm_with_depth (f : Fib) (name : Name) : option (Z * FibEntry) := FibTrie.lpm_with_depth f name.

Definition nexthops_excluding (e : FibEntry) (exclude : Z) : list FibNexthop :=
  filter (fun n => face_id n <> exclude) (nexthops e).

Definition add_nexthop (f : Fib) (prefix : Name) (fid c : Z) : Fib :=
  let hops := match FibTrie.get f prefix with Some e => nexthops e | None => [] end in
  let hops := filter (fun n => face_id n <> fid) hops in
  let hops := hops ++ [mkFibNexthop fid c] in
  FibTrie.insert f prefix (mkFibEntry (sort_by_cost hops)).

Definition dump (f : Fib) : list (Name * FibEntry) := FibTrie.dump f.
Definition remove_prefix (f : Fib) (prefix : Name) : Fib := FibTrie.remove f prefix.

Definition set_nexthops (f : Fib) (prefix : Name) (hops : list FibNexthop) : Fib :=
  match hops with
  | [] => FibTrie.remove f prefix
  | _ => FibTrie.insert f prefix (mkFibEntry (sort_by_cost hops))
  end.

(** What is left of an entry without a face. *)
Definition put_or_remove (f : Fib) (prefix : Name) (hops : list FibNexthop) : Fib :=
  match hops with
  | [] => FibTrie.remove f prefix
  | _ => FibTrie.insert f prefix (mkFibEntry hops)
  end.

Definition remove_face (f : Fib) (fid : Z) : Fib :=
  fold_left (fun t '(prefix, entry) =>
    if existsb (fun n => face_id n =? fid) (nexthops entry)
    then put_or_remove t prefix (filter (fun n => face_id n <> fid) (nexthops entry))
    else t) (FibTrie.dump f) f.

Definition remove_nexthop (f : Fib) (prefix : Name) (fid : Z) : Fib :=
  match FibTrie.get f prefix with
  | Some existing => put_or_remove f prefix (filter (fun n => face_id n <> fid) (nexthops existing))
  | None => f
  end.

End EngineFib.

(** ** [readvertise.rs] *)

Definition should_readvertise (origin : Z) : bool :=
  (origin =? 0) || (origin =? 64) || (origin =? 65) || (origin =? 255).

(** The trait: where prefixes are announced. *)
Class ReadvertiseDestination (D : Type) : Type := { advertise : D -> Name -> D; withdraw : D -> Name -> D }.

(** A set of names in canonical order, and how often it has notified. *)
Record ReadvertisedPrefixes : Type := mkPrefixes { set : list (Name * unit); notified : Z }.

Module ReadvertisedPrefixes.
Abbreviation set_get := (bt_get (V := unit) NameOps.cmp).
Definition default_ : ReadvertisedPrefixes := mkPrefixes [] 0.
Definition snapshot (p : ReadvertisedPrefixes) : list Name := map fst (set p).
Definition is_empty (p : ReadvertisedPrefixes) : bool := match set p with [] => true | _ => false end.
#[global] Instance destination : ReadvertiseDestination ReadvertisedPrefixes := {|
  advertise p prefix :=
    match set_get prefix (set p) with
    | Some _ => p
    | None => mkPrefixes (bt_insert NameOps.cmp prefix tt (set p)) (notified p + 1)
    end;
  withdraw p prefix :=
    match set_get prefix (set p) with
    | Some _ => mkPrefixes (bt_remove NameOps.cmp prefix (set p)) (notified p + 1)
    | None => p
    end |}.
End ReadvertisedPrefixes.

(** ** [rib.rs] *)

Record RibRoute : Type := mkRoute { r_face : Z; r_origin : Z; r_cost : Z; r_flags : Z; expires_at : option Z }.
#[export] Instance RibRoute_eq_dec : EqDecision RibRoute.
Proof. solve_decision. Defined.

Definition remaining (r : RibRoute) (now : Z) : option Z := (fun exp => sat_sub exp now) <$> expires_at r.

(** The table of routes by prefix. *)
Abbreviation Routes := (gmap Name (list RibRoute)).

(** The orders in which the hash maps of one computation are walked. *)
Record Orders : Type := mkOrders {
  own_order : gmap Z (Z * Z) -> list (Z * (Z * Z));
  inh_order : gmap Z Z -> list (Z * Z);
  rib_order : Routes -> list (Name * list RibRoute)
}.

Definition CHILD_INHERIT : Z := 1.
Definition CAPTURE : Z := 2.
Definition has_flag (r : RibRoute) (f : Z) : bool := negb (Z.land (r_flags r) f =? 0).

Module Rib.

Definition new : Routes := ∅.

(** Replaces the first route of that face and origin; whether there was one, and
    whether it differs. *)
Fixpoint replace_route (routes : list RibRoute) (route : RibRoute) : option (bool * list RibRoute) :=
  match routes with
  | [] => None
  | existing :: rest =>
      if (r_face existing =? r_face route) && (r_origin existing =? r_origin route) then
        let changed := negb (r_cost existing =? r_cost route) || negb (r_flags existing =? r_flags route) ||
                       negb (bool_decide (expires_at existing = expires_at route)) in
        Some (changed, route :: rest)
      else let! (changed, rest) := replace_route rest route in Some (changed, existing :: rest)
  end.

Definition add (rib : Routes) (prefix : Name) (route : RibRoute) : bool * Routes :=
  let routes := default [] (rib !! prefix) in
  match replace_route routes route with
  | Some (changed, routes) => (changed, <[prefix := routes]> rib)
  | None => (true, <[prefix := routes ++ [route]]> rib)
  end.

(** [retain] on the routes of one prefix. *)
Definition retain_at (rib : Routes) (prefix : Name) (keep : RibRoute -> bool) : bool * Routes :=
  match rib !! prefix with
  | None => (false, rib)
  | Some entry =>
      let kept := List.filter keep entry in
      (negb (zlen kept =? zlen entry), match kept with [] => delete prefix rib | _ => <[prefix := kept]> rib end)
  end.

Definition remove (rib : Routes) (prefix : Name) (fid origin : Z) : bool * Routes :=
  retain_at rib prefix (fun r => negb ((r_face r =? fid) && (r_origin r =? origin))).
Definition remove_nexthop (rib : Routes) (prefix : Name) (fid : Z) : bool * Routes :=
  retain_at rib prefix (fun r => negb (r_face r =? fid)).

(** [retain] on every prefix: what is left, and the prefixes that lost a route. *)
Definition retain_all (o : Orders) (rib : Routes) (keep : RibRoute -> bool) : list Name * Routes :=
  (omap (fun '(name, routes) => if zlen (List.filter keep routes) =? zlen routes then None else Some name) (rib_order o rib),
   omap (fun routes => match List.filter keep routes with [] => None | kept => Some kept end) rib).

Definition flush_origin (o : Orders) (rib : Routes) (origin : Z) : list Name * Routes :=
  retain_all o rib (fun r => negb (r_origin r =? origin)).
Definition flush_face (o : Orders) (rib : Routes) (fid : Z) : list Name * Routes :=
  retain_all o rib (fun r => negb (r_face r =? fid)).
Definition drain_expired (o : Orders) (rib : Routes) (now : Z) : list Name * Routes :=
  retain_all o rib (fun r => match expires_at r with None => true | Some exp => now <? exp end).

(** One own route. *)
Definition own_step (s : gmap Z (Z * Z) * bool) (r : RibRoute) : gmap Z (Z * Z) * bool :=
  let '(best_own, own_captures) := s in
  let e := default (u32_max, u64_max) (best_own !! r_face r) in
  let e := if (r_cost r <? e.1) || ((r_cost r =? e.1) && (r_origin r <? e.2)) then (r_cost r, r_origin r) else e in
  (<[r_face r := e]> best_own, own_captures || has_flag r CAPTURE).

(** One route of an ancestor. *)
Definition inh_step (s : gmap Z Z * bool) (r : RibRoute) : gmap Z Z * bool :=
  let '(best_inh, anc_captures) := s in
  let best_inh := if has_flag r CHILD_INHERIT then
                    let e := default u32_max (best_inh !! r_face r) in
                    <[r_face r := if r_cost r <? e then r_cost r else e]> best_inh
                  else best_inh in
  (best_inh, anc_captures || has_flag r CAPTURE).

(** The walk over the ancestors of fewer than [n] components, nearest first. *)
Fixpoint inherit (rib : Routes) (prefix : Name) (n : nat) (best_inh : gmap Z Z) : gmap Z Z :=
  match n with
  | O => best_inh
  | S n =>
      match rib !! take n prefix with
      | None => inherit rib prefix n best_inh
      | Some routes =>
          let '(best_inh, anc_captures) := fold_left inh_step routes (best_inh, false) in
          if anc_captures : bool then best_inh else inherit rib prefix n best_inh
      end
  end.

Definition effective_nexthops (o : Orders) (rib : Routes) (prefix : Name) : list FibNexthop :=
  match rib !! prefix with
  | None => []
  | Some own_entry =>
      let '(best_own, own_captures) := fold_left own_step own_entry (∅, false) in
      let best_inh := if own_captures : bool then ∅ else inherit rib prefix (length prefix) ∅ in
      map (fun '(fid, (c, _)) => mkFibNexthop fid c) (own_order o best_own) ++
      omap (fun '(fid, c) => if bool_decide (is_Some (best_own !! fid)) then None else Some (mkFibNexthop fid c)) (inh_order o best_inh)
  end.

Definition apply_to_fib (o : Orders) (rib : Routes) (prefix : Name) (fib : EngineFib.Fib) : EngineFib.Fib :=
  let fib := EngineFib.set_nexthops fib prefix (effective_nexthops o rib prefix) in
  let descendants := filter (fun k => k <> prefix /\ NameOps.has_prefix k prefix = true) (map fst (rib_order o rib)) in
  fold_left (fun fib d => EngineFib.set_nexthops fib d (effective_nexthops o rib d)) descendants fib.

Definition apply_all (o : Orders) (rib : Routes) (affected : list Name) (fib : EngineFib.Fib) : EngineFib.Fib :=
  fold_left (fun fib prefix => apply_to_fib o rib prefix fib) affected fib.

Definition handle_face_down (o : Orders) (rib : Routes) (fid : Z) (fib : EngineFib.Fib) : Routes * EngineFib.Fib :=
  let '(affected, rib) := flush_face o rib fid in
  (rib, apply_all o rib affected fib).

Definition dump (o : Orders) (rib : Routes) : list (Name * list RibRoute) := rib_order o rib.

Section readvertise.
Context {D : Type} `{!ReadvertiseDestination D}.

Definition readvertise_announce (dest : option D) (prefix : Name) (origin : Z) : option D :=
  if should_readvertise origin then (fun d => advertise d prefix) <$> dest else dest.

Definition readvertise_withdraw (rib : Routes) (dest : option D) (prefix : Name) : option D :=
  match dest with
  | None => None
  | Some d =>
      let still_local := match rib !! prefix with Some rs => existsb (fun r => should_readvertise (r_origin r)) rs | None => false end in
      Some (if still_local then d else withdraw d prefix)
  end.

End readvertise.
End Rib.

(** ** The tables together *)

(** The engine's routing tables, with the routing protocol's announcements. *)
Record Tables : Type := mkTables { t_rib : Routes; t_fib : EngineFib.Fib; t_dest : option ReadvertisedPrefixes }.

(** What changes routes: [rib/register] and [rib/unregister] of management, a
    validated prefix announcement, the flush of a routing protocol's routes, the
    expiry task, and the end of a face. *)
Inductive RouteOp : Type :=
| OpRegister (prefix : Name) (route : RibRoute)
| OpUnregister (prefix : Name) (fid : Z) (origin : option Z)
| OpAnnounced (prefix : Name) (fid : Z) (expires : option Z)
| OpFlushOrigin (origin : Z)
| OpExpire (now : Z)
| OpFaceDown (fid : Z).

Module Engine.

Definition register (o : Orders) (t : Tables) (prefix : Name) (route : RibRoute) : Tables :=
  let '(_, rib) := Rib.add (t_rib t) prefix route in
  mkTables rib (Rib.apply_to_fib o rib prefix (t_fib t)) (Rib.readvertise_announce (t_dest t) prefix (r_origin route)).

Definition unregister (o : Orders) (t : Tables) (prefix : Name) (fid : Z) (origin : option Z) : Tables :=
  let '(_, rib) := match origin with
                   | Some org => Rib.remove (t_rib t) prefix fid org
                   | None => Rib.remove_nexthop (t_rib t) prefix fid
                   end in
  mkTables rib (Rib.apply_to_fib o rib prefix (t_fib t)) (Rib.readvertise_withdraw rib (t_dest t) prefix).

Definition install_announced (o : Orders) (t : Tables) (prefix : Name) (fid : Z) (expires : option Z) : Tables :=
  let '(_, rib) := Rib.add (t_rib t) prefix (mkRoute fid 130 0 0 expires) in
  mkTables rib (Rib.apply_to_fib o rib prefix (t_fib t)) (t_dest t).

Definition flush (o : Orders) (t : Tables) (origin : Z) : Tables :=
  let '(affected, rib) := Rib.flush_origin o (t_rib t) origin in
  mkTables rib (Rib.apply_all o rib affected (t_fib t)) (t_dest t).

Definition expire (o : Orders) (t : Tables) (now : Z) : Tables :=
  let '(affected, rib) := Rib.drain_expired o (t_rib t) now in
  mkTables rib (Rib.apply_all o rib affected (t_fib t)) (t_dest t).

Definition remove_face (o : Orders) (t : Tables) (fid : Z) : Tables :=
  let '(rib, fib) := Rib.handle_face_down o (t_rib t) fid (t_fib t) in
  mkTables rib (EngineFib.remove_face fib fid) (t_dest t).

Definition step (t : Tables) (op : Orders * RouteOp) : Tables :=
  let '(o, op) := op in
  match op with
  | OpRegister prefix route => register o t prefix route
  | OpUnregister prefix fid origin => unregister o t prefix fid origin
  | OpAnnounced prefix fid expires => install_announced o t prefix fid expires
  | OpFlushOrigin origin => flush o t origin
  | OpExpire now => expire o t now
  | OpFaceDown fid => remove_face o t fid
  end.

Definition run (dest : option ReadvertisedPrefixes) (ops : list (Orders * RouteOp)) : Tables :=
  fold_left step ops (mkTables Rib.new EngineFib.new dest).

End Engine.

(** ** What a prefix should forward to *)

(** The least cost of a face among some routes. *)
Definition cheapest (Q : RibRoute -> Prop) (f c : Z) : Prop :=
  (exists r, Q r /\ r_face r = f /\ r_cost r = c) /\ forall r, Q r -> r_face r = f -> c <= r_cost r.

Definition captures (rs : list RibRoute) : bool := existsb (fun r => has_flag r CAPTURE) rs.

(** A route of an ancestor below [n] components that nothing between captures. *)
Definition inherits (rib : Routes) (prefix : Name) (n : nat) (r : RibRoute) : Prop :=
  exists k rs, (k < n)%nat /\ rib !! take k prefix = Some rs /\ r ∈ rs /\ has_flag r CHILD_INHERIT = true /\
    forall m rs', (k < m < n)%nat -> rib !! take m prefix = Some rs' -> captures rs' = false.

(** A nexthop of a prefix: through a face of its own routes at their least cost,
    or through another face at the least cost that is inherited. *)
Definition hop (rib : Routes) (prefix : Name) (f c : Z) : Prop :=
  exists own, rib !! prefix = Some own /\
    (cheapest (fun r => r ∈ own) f c \/
     ((forall r, r ∈ own -> r_face r <> f) /\ captures own = false /\ cheapest (inherits rib prefix (length prefix)) f c)).

(** The entry of a prefix is right: there is one when the RIB has the prefix, its
    faces are distinct, cheapest first, and they are the nexthops. *)
Definition cost_le (a b : FibNexthop) : Prop := cost a <= cost b.
Definition good (rib : Routes) (p : Name) (oe : option FibEntry) : Prop :=
  match oe with
  | None => rib !! p = None
  | Some e => is_Some (rib !! p) /\ NoDup (map face_id (nexthops e)) /\ Sorted cost_le (nexthops e) /\
      forall f c, mkFibNexthop f c ∈ nexthops e <-> hop rib p f c
  end.
Definition agrees (rib : Routes) (fib : EngineFib.Fib) : Prop := forall p, good rib p (FibTrie.get fib p).

Record rib_ok (rib : Routes) : Prop := {
  ro_nonempty : forall p rs, rib !! p = Some rs -> rs <> [];
  ro_cost : forall p rs r, rib !! p = Some rs -> r ∈ rs -> is_u32 (r_cost r)
}.

Record orders_ok (o : Orders) : Prop := {
  oo_own : forall m, own_order o m ≡ₚ map_to_list m;
  oo_inh : forall m, inh_order o m ≡ₚ map_to_list m;
  oo_rib : forall m, rib_order o m ≡ₚ map_to_list m
}.

(** ** Computing the nexthops *)

Definition best_of (get : Z -> option Z) (Q : RibRoute -> Prop) : Prop :=
  forall f, match get f with Some c => cheapest Q f c | None => forall r, Q r -> r_face r <> f end.

Lemma best_of_ext get Q Q' : (forall r, Q r <-> Q' r) -> best_of get Q -> best_of get Q'.
Proof.
  intros He H f. specialize (H f). destruct (get f) as [c|]; [|intros r ?%He; by apply H].
  destruct H as [(r & Hr & Hf & Hc) H]. split; [exists r; by rewrite <- He|]. intros r' ?%He. by apply H.
Qed.

(** One more route: the map has the lesser cost. *)
Lemma best_of_add get get' Q r :
  best_of get Q -> (forall f, get' f = if decide (f = r_face r) then Some (Z.min (r_cost r) (default u32_max (get f))) else get f) ->
  r_cost r <= u32_max -> best_of get' (fun x => Q x \/ x = r).
Proof.
  intros H Hg Hc f. rewrite Hg. specialize (H f). destruct (decide (f = r_face r)) as [->|Hne].
  - destruct (get (r_face r)) as [c|]; cbn [default from_option id].
    + destruct H as [(r0 & Hr0 & Hf & Hc0) H]. split.
      * destruct (Z.le_gt_cases (r_cost r) c); [exists r; rewrite Z.min_l by lia; auto|exists r0; rewrite Z.min_r by lia; auto].
      * intros r' [Hq| ->] Hf'; [specialize (H r' Hq Hf')|]; lia.
    + unfold default. cbn [from_option id]. rewrite Z.min_l by done. split; [exists r; auto|]. intros r' [Hq| ->] Hf'; [|lia]. by apply H in Hq.
  - destruct (get f) as [c|].
    + destruct H as [(r0 & Hr0 & Hf & Hc0) H]. split; [exists r0; auto|]. intros r' [Hq| ->] Hf'; [by apply H|congruence].
    + intros r' [Hq| ->]; [by apply H|congruence].
Qed.

Lemma own_fold rs : Forall (fun r => is_u32 (r_cost r)) rs ->
  let '(best, cap) := fold_left Rib.own_step rs (∅, false) in
  cap = captures rs /\ best_of (fun f => fst <$> best !! f) (fun r => r ∈ rs).
Proof.
  induction rs as [|r rs IH] using rev_ind; intros Hc; cbn [fold_left].
  - split; [done|]. intros f. rewrite lookup_empty. cbn. by intros r ?%not_elem_of_nil.
  - apply Forall_app in Hc as [Hc [Hr _]%Forall_cons]. rewrite fold_left_app. cbn [fold_left]. specialize (IH Hc).
    destruct (fold_left Rib.own_step rs (∅, false)) as [best cap]. destruct IH as [-> IH]. cbn [Rib.own_step]. split.
    + unfold captures. rewrite existsb_app. cbn [existsb]. by rewrite orb_false_r.
    + eapply best_of_ext; [|eapply (best_of_add _ _ _ r IH)].
      * intros x. rewrite elem_of_app, list_elem_of_singleton. done.
      * intros f. destruct (decide (f = r_face r)) as [->|Hne]; [|by rewrite lookup_insert_ne].
        rewrite lookup_insert_eq. cbn [fmap option_fmap option_map]. f_equal. destruct (best !! r_face r) as [[c0 o0]|]; cbn; unfold_bounds; bcase; cbn; lia.
      * unfold_bounds. lia.
Qed.

Lemma inh_fold rs : forall best cap Q, Forall (fun r => is_u32 (r_cost r)) rs -> best_of (fun f => best !! f) Q ->
  let '(best', cap') := fold_left Rib.inh_step rs (best, cap) in
  cap' = cap || captures rs /\ best_of (fun f => best' !! f) (fun r => Q r \/ (r ∈ rs /\ has_flag r CHILD_INHERIT = true)).
Proof.
  induction rs as [|r rs IH]; intros best cap Q Hc HQ; cbn [fold_left].
  - split; [by rewrite orb_false_r|]. eapply best_of_ext; [|exact HQ]. intros r. rewrite elem_of_nil. tauto.
  - apply Forall_cons in Hc as [Hr Hc]. cbn [Rib.inh_step].
    match goal with |- context [fold_left Rib.inh_step rs (?b, ?k)] =>
      specialize (IH b k (fun x => Q x \/ (x = r /\ has_flag r CHILD_INHERIT = true)) Hc); destruct (fold_left Rib.inh_step rs (b, k)) as [best' cap'] end.
    destruct IH as [-> IH].
    + destruct (has_flag r CHILD_INHERIT).
      * eapply best_of_ext; [|eapply (best_of_add _ _ _ r HQ)].
        -- intros x. tauto.
        -- intros f. destruct (decide (f = r_face r)) as [->|Hne]; [|by rewrite lookup_insert_ne].
           rewrite lookup_insert_eq. f_equal. destruct (best !! r_face r); cbn; unfold_bounds; bcase; lia.
        -- unfold_bounds. lia.
      * eapply best_of_ext; [|exact HQ]. intros x. split; [by left|]. intros [?|[_ ?]]; done.
    + split; [unfold captures; cbn [existsb]; by rewrite orb_assoc|].
      eapply best_of_ext; [|exact IH]. intros x. rewrite elem_of_cons. split.
      * intros [[H|[-> H]]|[H1 H2]]; auto.
      * intros [H|[[->|H1] H2]]; auto.
Qed.

Lemma inherit_best rib prefix : rib_ok rib -> forall n best Q, best_of (fun f => best !! f) Q ->
  best_of (fun f => Rib.inherit rib prefix n best !! f) (fun r => Q r \/ inherits rib prefix n r).
Proof.
  intros Hok. induction n as [|n IH]; intros best Q HQ; cbn [Rib.inherit].
  { eapply best_of_ext; [|exact HQ]. intros r. split; [by left|]. intros [?|(k & rs & Hk & _)]; [done|lia]. }
  destruct (rib !! take n prefix) as [rs|] eqn:E.
  - assert (Forall (fun r => is_u32 (r_cost r)) rs) as Hc by (apply Forall_forall; intros r Hr; by eapply ro_cost).
    pose proof (inh_fold rs best false Q Hc HQ) as Hf. destruct (fold_left Rib.inh_step rs (best, false)) as [best' cap]. destruct Hf as [-> Hf].
    cbn [orb]. destruct (captures rs) eqn:Ec.
    + eapply best_of_ext; [|exact Hf]. intros r. split; [intros [H|[H1 H2]]; [by left|]; right; exists n, rs; split_conj; [lia|done|done|done|lia]|].
      intros [H|(k & rs' & Hk & He & Hr & Hfl & Hno)]; [by left|]. destruct (decide (k = n)) as [->|Hne]; [right; simplify_eq; auto|].
      rewrite (Hno n rs) in Ec; [done|lia|done].
    + eapply best_of_ext; [|by apply IH]. intros r. split.
      * intros [[H|[H1 H2]]|(k & rs' & Hk & He & Hr & Hfl & Hno)]; [by left| |]; right.
        -- exists n, rs. split_conj; [lia|done|done|done|lia].
        -- exists k, rs'. split_conj; [lia|done|done|done|]. intros m rs2 Hm H2. destruct (decide (m = n)) as [->|]; [congruence|]. eapply Hno; [|done]. lia.
      * intros [H|(k & rs' & Hk & He & Hr & Hfl & Hno)]; [by left; left|]. destruct (decide (k = n)) as [->|Hne]; [left; right; simplify_eq; auto|].
        right. exists k, rs'. split_conj; [lia|done|done|done|]. intros m rs2 Hm H2. eapply Hno; [|done]. lia.
  - eapply best_of_ext; [|by apply IH]. intros r. split; (intros [H|(k & rs' & Hk & He & Hr & Hfl & Hno)]; [by left|right]); exists k, rs'.
    + split_conj; [lia|done|done|done|]. intros m rs2 Hm H2. destruct (decide (m = n)) as [->|]; [congruence|]. eapply Hno; [|done]. lia.
    + destruct (decide (k = n)) as [->|Hne]; [congruence|]. split_conj; [lia|done|done|done|]. intros m rs2 Hm H2. eapply Hno; [|done]. lia.
Qed.

Lemma cheapest_unique Q f c c' : cheapest Q f c -> cheapest Q f c' -> c = c'.
Proof. intros [(r & H1 & H2 & H3) H] [(r' & H1' & H2' & H3') H']. specialize (H r' H1' H2'). specialize (H' r H1 H2). lia. Qed.

Lemma cheapest_face Q f c : cheapest Q f c -> exists r, Q r /\ r_face r = f.
Proof. intros [(r & H1 & H2 & _) _]. eauto. Qed.

Lemma omap_keys_sublist {A} (g : Z * A -> option FibNexthop) l :
  (forall x h, g x = Some h -> face_id h = x.1) -> map face_id (omap g l) `sublist_of` map fst l.
Proof.
  intros Hg. induction l as [|x l IH]; [done|]. cbn [omap list_omap map]. destruct (g x) as [h|] eqn:E; cbn [map]; [|by constructor].
  rewrite (Hg x h E). by constructor.
Qed.

Lemma own_hops o (best : gmap Z (Z * Z)) : orders_ok o -> forall f c,
  mkFibNexthop f c ∈ map (fun '(fid, (c, _)) => mkFibNexthop fid c) (own_order o best) <-> fst <$> best !! f = Some c.
Proof.
  intros Ho f c. rewrite list_elem_of_fmap. split.
  - intros ([f' [c' o']] & [= -> ->] & Hin). rewrite (oo_own o Ho) in Hin. apply elem_of_map_to_list in Hin. by rewrite Hin.
  - destruct (best !! f) as [[c' o']|] eqn:Eb; [|done]. intros [= ->]. exists (f, (c, o')). split; [done|].
    rewrite (oo_own o Ho). by apply elem_of_map_to_list.
Qed.

Lemma inh_hops o (best : gmap Z (Z * Z)) (inh : gmap Z Z) : orders_ok o -> forall f c,
  mkFibNexthop f c ∈ omap (fun '(fid, c) => if bool_decide (is_Some (best !! fid)) then None else Some (mkFibNexthop fid c)) (inh_order o inh) <->
  best !! f = None /\ inh !! f = Some c.
Proof.
  intros Ho f c. rewrite list_elem_of_omap. split.
  - intros ([f' c'] & Hin & Hx). rewrite (oo_inh o Ho) in Hin. apply elem_of_map_to_list in Hin.
    destruct (bool_decide_reflect (is_Some (best !! f'))) as [|Hn]; [done|]. injection Hx as -> ->. split; [by apply eq_None_not_Some|done].
  - intros [Hn Hi]. exists (f, c). split; [rewrite (oo_inh o Ho); by apply elem_of_map_to_list|].
    rewrite bool_decide_false; [done|]. rewrite Hn. by intros [? ?].
Qed.

(** The computed list has the nexthops, each face once. *)
Lemma effective_spec o rib prefix : orders_ok o -> rib_ok rib ->
  let hops := Rib.effective_nexthops o rib prefix in
  (hops = [] <-> rib !! prefix = None) /\ NoDup (map face_id hops) /\ forall f c, mkFibNexthop f c ∈ hops <-> hop rib prefix f c.
Proof.
  intros Ho Hok. unfold Rib.effective_nexthops, hop. destruct (rib !! prefix) as [own|] eqn:E.
  2:{ split_conj; [done|constructor|]. intros f c. rewrite elem_of_nil. split; [done|]. by intros (own & H & _). }
  assert (Forall (fun r => is_u32 (r_cost r)) own) as Hc by (apply Forall_forall; intros r Hr; by eapply ro_cost).
  pose proof (own_fold own Hc) as Hf. destruct (fold_left Rib.own_step own (∅, false)) as [best cap]. destruct Hf as [-> Hbo].
  set (inh := if captures own then ∅ else Rib.inherit rib prefix (length prefix) ∅).
  assert (best_of (fun f => inh !! f) (fun r => captures own = false /\ inherits rib prefix (length prefix) r)) as Hbi.
  { unfold inh. destruct (captures own).
    - intros f. rewrite lookup_empty. by intros r [? _].
    - eapply best_of_ext; [|apply (inherit_best rib prefix Hok (length prefix) ∅ (fun _ => False))].
      + intros r. tauto.
      + intros f. rewrite lookup_empty. done. }
  set (l1 := map _ (own_order o best)). set (l2 := omap _ (inh_order o inh)).
  pose proof (own_hops o best Ho) as H1. pose proof (inh_hops o best inh Ho) as H2. fold l1 in H1. fold l2 in H2.
  split_conj.
  - split; [|done]. intros [Hl1 _]%app_eq_nil. exfalso. destruct own as [|r own]; [by eapply (ro_nonempty rib Hok)|].
    specialize (Hbo (r_face r)). destruct (best !! r_face r) as [[c o']|] eqn:Eb.
    + assert (mkFibNexthop (r_face r) c ∈ l1) as Hin by (apply H1; by rewrite Eb). rewrite Hl1 in Hin. by apply elem_of_nil in Hin.
    + cbn beta in Hbo. rewrite Eb in Hbo. by apply (Hbo r); [left|].
  - rewrite map_app. apply NoDup_app. split_conj.
    + unfold l1. rewrite map_map. rewrite (oo_own o Ho). erewrite map_ext; [apply NoDup_fst_map_to_list|]. by intros [f [c o']].
    + intros f ([f1 c1] & -> & Hi1)%list_elem_of_fmap ([f2 c2] & Hf & Hi2)%list_elem_of_fmap. cbn in Hf. subst f2.
      apply H1 in Hi1. apply H2 in Hi2 as [Hn _]. by rewrite Hn in Hi1.
    + eapply sublist_NoDup; [|apply (omap_keys_sublist _ (inh_order o inh))].
      * rewrite (oo_inh o Ho). apply NoDup_fst_map_to_list.
      * intros [f c] h. destruct (bool_decide _); [done|]. by intros [= <-].
  - intros f c. rewrite elem_of_app, H1, H2. specialize (Hbo f). specialize (Hbi f). cbn beta in Hbo, Hbi. split.
    + intros [Hb|[Hb Hi]]; exists own; (split; [done|]).
      * left. by rewrite Hb in Hbo.
      * right. rewrite Hb in Hbo. rewrite Hi in Hbi. split; [done|]. destruct (cheapest_face _ _ _ Hbi) as (r & [Hcap _] & _). split; [done|].
        destruct Hbi as [(r0 & [_ Hr0] & Hf0 & Hc0) Hmin]. split; [by exists r0|]. intros r' Hr'. by apply Hmin.
    + intros (own' & [= <-] & [H|(Hno & Hcap & H)]).
      * left. destruct (best !! f) as [[c' o']|]; cbn in Hbo |- *; [f_equal; by eapply cheapest_unique|].
        destruct (cheapest_face _ _ _ H) as (r & Hr & Hrf). by apply Hbo in Hr.
      * right. destruct (best !! f) as [[c' o']|]; cbn in Hbo.
        { destruct (cheapest_face _ _ _ Hbo) as (r & Hr & Hrf). by apply Hno in Hr. }
        split; [done|]. assert (cheapest (fun r => captures own = false /\ inherits rib prefix (length prefix) r) f c) as H'.
        { destruct H as [(r0 & Hr0 & Hf0 & Hc0) Hmin]. split; [by exists r0|]. intros r' [_ Hr']. by apply Hmin. }
        destruct (inh !! f) as [c'|]; [f_equal; by eapply cheapest_unique|]. destruct (cheapest_face _ _ _ H') as (r & Hr & Hrf). by apply Hbi in Hr.
Qed.

Lemma insert_by_cost_perm n l : insert_by_cost n l ≡ₚ n :: l.
Proof. induction l as [|m l IH]; cbn; [done|]. destruct (_ <=? _); [done|]. rewrite IH. apply Permutation_swap. Qed.

Lemma sort_by_cost_perm l : sort_by_cost l ≡ₚ l.
Proof. induction l as [|n l IH]; cbn [sort_by_cost foldr]; [done|]. by rewrite insert_by_cost_perm, IH. Qed.

Lemma insert_by_cost_sorted n l : Sorted cost_le l -> Sorted cost_le (insert_by_cost n l).
Proof.
  induction 1 as [|m l Hl IH Hhd]; cbn; [by repeat constructor|]. destruct (Z.leb_spec (cost n) (cost m)).
  - constructor; [by constructor|]. by constructor.
  - constructor; [done|]. destruct Hhd as [|b l Hb]; cbn; [constructor; unfold cost_le; lia|].
    destruct (_ <=? _); constructor; [unfold cost_le; lia|done].
Qed.

Lemma sort_by_cost_sorted l : Sorted cost_le (sort_by_cost l).
Proof. induction l; cbn; [constructor|]. by apply insert_by_cost_sorted. Qed.

(** *** Writing the FIB *)

Definition entry_of (hops : list FibNexthop) : option FibEntry :=
  match hops with [] => None | _ => Some (mkFibEntry (sort_by_cost hops)) end.

Lemma get_set_nexthops fib p hops q :
  FibTrie.get (EngineFib.set_nexthops fib p hops) q = if decide (p = q) then entry_of hops else FibTrie.get fib q.
Proof.
  unfold EngineFib.set_nexthops, FibTrie.get, FibTrie.insert, FibTrie.remove, NameTrie.insert.
  destruct hops as [|h hops]; [apply NameTrie.get_remove|apply NameTrie.get_update].
Qed.

Lemma effective_good o rib p : orders_ok o -> rib_ok rib -> good rib p (entry_of (Rib.effective_nexthops o rib p)).
Proof.
  intros Ho Hok. destruct (effective_spec o rib p Ho Hok) as (He & Hn & Hi).
  destruct (Rib.effective_nexthops o rib p) as [|h hops] eqn:E; cbn [entry_of good]; [by apply He|]. split_conj.
  - destruct (rib !! p); [by eexists|]. by destruct He as [_ He]; specialize (He eq_refl).
  - cbn [nexthops]. rewrite sort_by_cost_perm. exact Hn.
  - apply sort_by_cost_sorted.
  - intros f c. cbn [nexthops]. rewrite sort_by_cost_perm. apply Hi.
Qed.

(** The nexthops of a prefix depend on it and its ancestors only. *)
Lemma hop_local rib rib' p f c : (forall n, rib !! take n p = rib' !! take n p) -> hop rib p f c -> hop rib' p f c.
Proof.
  intros Heq (own & Hown & H). exists own. pose proof (Heq (length p)) as Hp. rewrite firstn_all in Hp. split; [by rewrite <- Hp|].
  assert (forall r, inherits rib p (length p) r <-> inherits rib' p (length p) r) as Hi.
  { intros r. unfold inherits. split; intros (k & rs & Hk & Hr & Hin & Hf & Hno); exists k, rs; (split_conj; [done|congruence|done|done|]);
      intros m rs' Hm Hrs; eapply Hno; [done|congruence|done|congruence]. }
  destruct H as [H|(H1 & H2 & [(r & Hr & Hrf & Hc) Hmin])]; [by left|]. right. split_conj; [done|done|]. split; [exists r; by rewrite <- Hi|].
  intros r' Hr'. apply Hmin. by apply Hi.
Qed.

Lemma good_local rib rib' p e : (forall n, rib !! take n p = rib' !! take n p) -> good rib p e -> good rib' p e.
Proof.
  intros Heq. pose proof (Heq (length p)) as Hp. rewrite firstn_all in Hp. destruct e as [e|]; cbn; [|by rewrite Hp].
  intros (H1 & H2 & H3 & H4). split_conj; [by rewrite <- Hp|done|done|]. intros f c. rewrite H4. split; apply hop_local; [done|]. intros n. by rewrite Heq.
Qed.

(** Which entries [apply_to_fib] writes. *)
Definition touched (rib : Routes) (p q : Name) : Prop := q = p \/ (is_Some (rib !! q) /\ p `prefix_of` q).
#[export] Instance touched_dec rib p q : Decision (touched rib p q).
Proof. unfold touched. apply _. Defined.

Lemma fold_set_nexthops (g : Name -> list FibNexthop) l : forall fib q,
  FibTrie.get (fold_left (fun fib d => EngineFib.set_nexthops fib d (g d)) l fib) q = if decide (q ∈ l) then entry_of (g q) else FibTrie.get fib q.
Proof.
  induction l as [|d l IH]; intros fib q; cbn [fold_left]; [by rewrite decide_False by apply not_elem_of_nil|].
  rewrite IH, get_set_nexthops. destruct (decide (q ∈ l)); [by rewrite decide_True by (by right)|].
  destruct (decide (d = q)) as [->|Hne]; [by rewrite decide_True by (by left)|]. rewrite decide_False; [done|].
  intros [->|?]%elem_of_cons; done.
Qed.

Lemma get_apply o rib p fib q : orders_ok o ->
  FibTrie.get (Rib.apply_to_fib o rib p fib) q =
    if decide (touched rib p q) then entry_of (Rib.effective_nexthops o rib q) else FibTrie.get fib q.
Proof.
  intros Ho. unfold Rib.apply_to_fib. rewrite fold_set_nexthops, get_set_nexthops.
  assert (q ∈ filter (fun k => k <> p /\ NameOps.has_prefix k p = true) (map fst (rib_order o rib)) <-> q <> p /\ is_Some (rib !! q) /\ p `prefix_of` q) as Hin.
  { rewrite list_elem_of_filter, has_prefix_spec, list_elem_of_fmap. split.
    - intros [[H1 H2] ([q' rs] & -> & Hq)]. rewrite (oo_rib o Ho) in Hq. apply elem_of_map_to_list in Hq. cbn in *. eauto.
    - intros (H1 & [rs Hrs] & H2). split; [done|]. exists (q, rs). split; [done|]. rewrite (oo_rib o Ho). by apply elem_of_map_to_list. }
  destruct (decide (q ∈ _)) as [Hq|Hq].
  - rewrite decide_True; [done|]. right. apply Hin in Hq. tauto.
  - destruct (decide (p = q)) as [->|Hne]; [by rewrite decide_True by by left|]. rewrite decide_False; [done|].
    intros [->|Ht]; [done|]. apply Hq, Hin. by split.
Qed.

Lemma get_apply_all o rib l : forall fib q, orders_ok o ->
  FibTrie.get (Rib.apply_all o rib l fib) q =
    if decide (Exists (fun p => touched rib p q) l) then entry_of (Rib.effective_nexthops o rib q) else FibTrie.get fib q.
Proof.
  unfold Rib.apply_all. induction l as [|p l IH]; intros fib q Ho; cbn [fold_left]; [rewrite decide_False; [done|]; by intros ?%Exists_nil|].
  rewrite IH, get_apply by done. destruct (decide (Exists _ l)); [by rewrite decide_True by by right|].
  destruct (decide (touched rib p q)); [by rewrite decide_True by by left|]. rewrite decide_False; [done|]. by intros [?|?]%Exists_cons.
Qed.

(** The FIB follows the RIB when the prefixes whose routes changed are applied:
    no entry that agreed with the routes stops doing so. *)
Lemma apply_good o rib rib' fib affected q : orders_ok o -> rib_ok rib' -> (forall p, p ∉ affected -> rib' !! p = rib !! p) ->
  good rib q (FibTrie.get fib q) -> good rib' q (FibTrie.get (Rib.apply_all o rib' affected fib) q).
Proof.
  intros Ho Hok Hsame Ha. rewrite get_apply_all by done. destruct (decide (Exists _ affected)) as [_|Hno]; [by apply effective_good|].
  rewrite Exists_exists in Hno. assert (q ∉ affected) as Hq by (intros Hq; apply Hno; exists q; split; [done|by left]).
  destruct (rib' !! q) as [rs|] eqn:E.
  - eapply good_local; [|apply Ha]. intros n. symmetry. apply Hsame. intros Hin. apply Hno. eexists. split; [exact Hin|].
    right. split; [by eexists|]. apply prefix_take.
  - rewrite Hsame in E by done. destruct (FibTrie.get fib q) as [e|]; cbn in Ha |- *; [|by rewrite Hsame].
    destruct Ha as [[x Hx] _]. congruence.
Qed.

Lemma apply_agrees o rib rib' fib affected : orders_ok o -> rib_ok rib' -> agrees rib fib ->
  (forall p, p ∉ affected -> rib' !! p = rib !! p) -> agrees rib' (Rib.apply_all o rib' affected fib).
Proof. intros Ho Hok Ha Hsame q. by eapply apply_good. Qed.

(** What changing the routes of one prefix and applying it does to the tables:
    the entries of the prefix and of the registered prefixes under it become what
    the routes prescribe, whoever wrote them; the others stay. *)
Record applied (t t' : Tables) (name : Name) : Prop := {
  ap_rib : rib_ok (t_rib t');
  ap_others : forall q, q <> name -> t_rib t' !! q = t_rib t !! q;
  ap_written : forall q, touched (t_rib t') name q -> good (t_rib t') q (FibTrie.get (t_fib t') q);
  ap_kept : forall q, ~ touched (t_rib t') name q -> FibTrie.get (t_fib t') q = FibTrie.get (t_fib t) q;
  ap_good : forall q, good (t_rib t) q (FibTrie.get (t_fib t) q) -> good (t_rib t') q (FibTrie.get (t_fib t') q)
}.

Lemma applied_intro o t rib' name dest : orders_ok o -> rib_ok rib' -> (forall q, q <> name -> rib' !! q = t_rib t !! q) ->
  applied t (mkTables rib' (Rib.apply_to_fib o rib' name (t_fib t)) dest) name.
Proof.
  intros Ho Hok Hq. constructor; cbn [t_rib t_fib]; [done|done|..].
  - intros q Ht. rewrite get_apply, decide_True by done. by apply effective_good.
  - intros q Ht. by rewrite get_apply, decide_False.
  - intros q. apply (apply_good o (t_rib t) rib' (t_fib t) [name]); [done|done|]. intros p Hp. apply Hq. set_solver.
Qed.

(** *** The operations on the RIB *)

Lemma replace_route_spec rs r b rs' : Rib.replace_route rs r = Some (b, rs') -> rs' <> [] /\ forall x, x ∈ rs' -> x = r \/ x ∈ rs.
Proof.
  revert b rs'. induction rs as [|e rs IH]; intros b rs'; cbn [Rib.replace_route]; [done|]. destruct (_ && _).
  - intros [= <- <-]. split; [done|]. intros x [->|?]%elem_of_cons; [by left|right; by right].
  - destruct (Rib.replace_route rs r) as [[b' rs0]|]; [|done]. intros [= <- <-]. split; [done|]. destruct (IH _ _ eq_refl) as [_ H].
    intros x [->|Hx]%elem_of_cons; [right; by left|]. destruct (H x Hx); [by left|right; by right].
Qed.

Lemma add_spec rib p r : exists rs, (Rib.add rib p r).2 = <[p := rs]> rib /\ rs <> [] /\
  forall x, x ∈ rs -> x = r \/ exists old, rib !! p = Some old /\ x ∈ old.
Proof.
  unfold Rib.add. assert (forall x, x ∈ default [] (rib !! p) -> exists old, rib !! p = Some old /\ x ∈ old) as Hd.
  { intros x. destruct (rib !! p) as [old|]; cbn; [by exists old|by intros ?%not_elem_of_nil]. }
  destruct (Rib.replace_route _ r) as [[b rs]|] eqn:E; eexists; (split; [reflexivity|]).
  - apply replace_route_spec in E as [H1 H2]. split; [done|]. intros x Hx. destruct (H2 x Hx); auto.
  - split; [by destruct (default _ _)|]. intros x [Hx|Hx%list_elem_of_singleton]%elem_of_app; auto.
Qed.

Lemma filter_same_length {A} (f : A -> bool) l : zlen (List.filter f l) = zlen l -> List.filter f l = l.
Proof.
  assert (zlen (List.filter f l) <= zlen l) as _ by (unfold zlen; pose proof (List.filter_length_le f l); lia).
  induction l as [|x l IH]; [done|]. cbn. destruct (f x).
  - rewrite !zlen_cons. intros H. f_equal. apply IH. lia.
  - rewrite zlen_cons. intros H. unfold zlen in *. pose proof (List.filter_length_le f l). lia.
Qed.

(** A smaller RIB: nothing but some routes gone. *)
Record shrinks (rib rib' : Routes) : Prop := {
  sh_nonempty : forall p rs, rib' !! p = Some rs -> rs <> [];
  sh_routes : forall p rs r, rib' !! p = Some rs -> r ∈ rs -> exists old, rib !! p = Some old /\ r ∈ old
}.

Lemma shrinks_ok rib rib' : rib_ok rib -> shrinks rib rib' -> rib_ok rib'.
Proof. intros [H1 H2] [H3 H4]. split; [done|]. intros p rs r Hp Hr. destruct (H4 p rs r Hp Hr) as (old & Ho & Hin). by eapply H2. Qed.

Lemma elem_filter_bool {A} (f : A -> bool) x l : x ∈ List.filter f l -> x ∈ l /\ f x = true.
Proof. intros H%list_elem_of_In. apply List.filter_In in H as [H1 H2]. split; [by apply list_elem_of_In|done]. Qed.

Lemma retain_at_spec rib p keep : rib_ok rib ->
  let rib' := (Rib.retain_at rib p keep).2 in
  shrinks rib rib' /\ (forall q, q <> p -> rib' !! q = rib !! q) /\ forall rs r, rib' !! p = Some rs -> r ∈ rs -> keep r = true.
Proof.
  intros [Hne _]. unfold Rib.retain_at. destruct (rib !! p) as [entry|] eqn:E; cbn [snd].
  2:{ split_conj; [split; [done|by eauto]|done|]. intros rs r Hrs. congruence. }
  pose proof (fun x => elem_filter_bool keep x entry) as Hf. destruct (List.filter keep entry) as [|k kept] eqn:Ek.
  - split_conj; [|intros q Hq; by rewrite lookup_delete_ne|intros rs r; by rewrite lookup_delete_eq].
    split; [intros q rs [_ H]%lookup_delete_Some; by eapply Hne|]. intros q rs r [_ H]%lookup_delete_Some Hr. eauto.
  - split_conj; [|intros q Hq; by rewrite lookup_insert_ne|intros rs r; rewrite lookup_insert_eq; intros [= <-] Hr; by apply Hf].
    split; intros q rs.
    + intros [[<- <-]|[_ H]]%lookup_insert_Some; [done|]. by eapply Hne.
    + intros r [[<- <-]|[_ H]]%lookup_insert_Some Hr; [|by eauto]. exists entry. split; [done|]. by apply Hf.
Qed.

Lemma retain_all_spec o rib keep : orders_ok o -> rib_ok rib ->
  let '(affected, rib') := Rib.retain_all o rib keep in
  shrinks rib rib' /\ (forall q, q ∉ affected -> rib' !! q = rib !! q) /\ forall p rs r, rib' !! p = Some rs -> r ∈ rs -> keep r = true.
Proof.
  intros Ho [Hne _]. unfold Rib.retain_all.
  assert (forall p rs, omap (fun routes => match List.filter keep routes with [] => None | kept => Some kept end) rib !! p = Some rs ->
    exists old, rib !! p = Some old /\ rs = List.filter keep old /\ rs <> []) as Hl.
  { intros p rs. rewrite lookup_omap. destruct (rib !! p) as [old|] eqn:E; cbn; [|done]. destruct (List.filter keep old) as [|k kept] eqn:Ek; [done|].
    intros [= <-]. by exists old. }
  split_conj.
  - split; [intros p rs (old & _ & _ & ?)%Hl; done|]. intros p rs r (old & Ho' & -> & _)%Hl [Hr _]%elem_filter_bool. eauto.
  - intros q Hq. rewrite lookup_omap. destruct (rib !! q) as [old|] eqn:E; cbn; [|done].
    destruct (Z.eqb_spec (zlen (List.filter keep old)) (zlen old)) as [Hz|Hz].
    + rewrite filter_same_length by done. destruct old; [by eapply Hne in E|done].
    + exfalso. apply Hq. apply list_elem_of_omap. exists (q, old). split; [rewrite (oo_rib o Ho); by apply elem_of_map_to_list|].
      by rewrite (proj2 (Z.eqb_neq _ _)).
  - intros p rs r (old & _ & -> & _)%Hl [_ Hr]%elem_filter_bool. done.
Qed.

(** *** The invariant of the tables *)

Record tables_ok (t : Tables) : Prop := {
  to_rib : rib_ok (t_rib t);
  to_wf : NameTrie.wf_node (t_fib t);
  to_agrees : agrees (t_rib t) (t_fib t)
}.

Lemma set_nexthops_wf fib p hops : NameTrie.wf_node fib -> NameTrie.wf_node (EngineFib.set_nexthops fib p hops).
Proof. intros H. destruct hops; [by apply NameTrie.wf_remove|by apply NameTrie.wf_update]. Qed.

Lemma apply_all_wf o rib l : forall fib, NameTrie.wf_node fib -> NameTrie.wf_node (Rib.apply_all o rib l fib).
Proof.
  unfold Rib.apply_all. induction l as [|p l IH]; intros fib H; [done|]. apply IH. unfold Rib.apply_to_fib.
  match goal with |- NameTrie.wf_node (fold_left _ ?ds _) => generalize ds end. intros ds. revert fib H.
  enough (forall fib, NameTrie.wf_node fib -> NameTrie.wf_node (fold_left (fun fib d => EngineFib.set_nexthops fib d (Rib.effective_nexthops o rib d)) ds fib)) as Hd.
  { intros fib H. apply Hd. by apply set_nexthops_wf. }
  induction ds as [|d ds IHd]; intros fib H; [done|]. by apply IHd, set_nexthops_wf.
Qed.

(** A FIB without a face is left alone. *)
Lemma remove_face_absent fib fid : NameTrie.wf_node fib ->
  (forall p e h, FibTrie.get fib p = Some e -> h ∈ nexthops e -> face_id h <> fid) -> EngineFib.remove_face fib fid = fib.
Proof.
  intros Hwf Hno. unfold EngineFib.remove_face, FibTrie.dump. rewrite NameTrie.dump_entries.
  assert (forall p e, (p, e) ∈ NameTrie.entries fib -> existsb (fun n => face_id n =? fid) (nexthops e) = false) as Hf.
  { intros p e He. apply NameTrie.elem_entries in He; [|done]. apply not_true_is_false. intros (h & Hh & Heq)%List.existsb_exists.
    apply list_elem_of_In in Hh. apply Z.eqb_eq in Heq. by eapply Hno. }
  revert Hf. generalize (NameTrie.entries fib) as l. generalize fib at 1 2 as f0. intros f0 l. revert f0.
  induction l as [|[p e] l IH]; intros f0 Hf; [done|]. cbn [fold_left]. rewrite (Hf p e) by by left. apply IH. intros p' e' H. eapply Hf. by right.
Qed.

Lemma hop_face rib p f c : hop rib p f c -> exists q rs r, rib !! q = Some rs /\ r ∈ rs /\ r_face r = f.
Proof.
  intros (own & Ho & [[(r & Hr & Hf & _) _]|(_ & _ & [(r & (k & rs & _ & Hrs & Hr & _) & Hf & _) _])]); [by exists p, own, r|].
  by exists (take k p), rs, r.
Qed.

Lemma changed_ok o t rib' affected dest : orders_ok o -> tables_ok t -> rib_ok rib' -> (forall p, p ∉ affected -> rib' !! p = t_rib t !! p) ->
  tables_ok (mkTables rib' (Rib.apply_all o rib' affected (t_fib t)) dest).
Proof.
  intros Ho [H1 H2 H3] Hok Hsame. constructor; cbn [t_rib t_fib]; [done|by apply apply_all_wf|by eapply apply_agrees].
Qed.

Definition op_ok (op : Orders * RouteOp) : Prop :=
  orders_ok op.1 /\ match op.2 with OpRegister _ r => is_u32 (r_cost r) | _ => True end.

Lemma add_ok rib p r : rib_ok rib -> is_u32 (r_cost r) -> rib_ok (Rib.add rib p r).2 /\ forall q, q ∉ [p] -> (Rib.add rib p r).2 !! q = rib !! q.
Proof.
  intros [H1 H2] Hr. destruct (add_spec rib p r) as (rs & -> & Hne & Hin). split.
  - split.
    + intros q rs' [[<- <-]|[_ H]]%lookup_insert_Some; [done|by eapply H1].
    + intros q rs' x [[<- <-]|[_ H]]%lookup_insert_Some Hx; [|by eapply H2]. destruct (Hin x Hx) as [->|(old & Ho & Hxo)]; [done|by eapply H2].
  - intros q Hq. apply lookup_insert_ne. set_solver.
Qed.

Lemma step_ok t op : op_ok op -> tables_ok t -> tables_ok (Engine.step t op).
Proof.
  destruct op as [o op]. intros [Ho Hop] Ht. cbn [fst snd] in *. pose proof (to_rib t Ht) as Hr.
  assert (forall rib' p dest, rib_ok rib' -> (forall q, q ∉ [p] -> rib' !! q = t_rib t !! q) ->
    tables_ok (mkTables rib' (Rib.apply_to_fib o rib' p (t_fib t)) dest)) as Hone by (intros rib' p dest; by apply (changed_ok o t rib' [p])).
  destruct op as [p r|p fid org|p fid ex|org|now|fid]; cbn [Engine.step].
  - unfold Engine.register. destruct (add_ok (t_rib t) p r Hr Hop). destruct (Rib.add (t_rib t) p r) as [b rib']. by apply Hone.
  - unfold Engine.unregister, Rib.remove, Rib.remove_nexthop.
    assert (forall keep, rib_ok (Rib.retain_at (t_rib t) p keep).2 /\ forall q, q ∉ [p] -> (Rib.retain_at (t_rib t) p keep).2 !! q = t_rib t !! q) as Hk.
    { intros keep. destruct (retain_at_spec (t_rib t) p keep Hr) as (H1 & H2 & _). split; [by eapply shrinks_ok|]. intros q Hq. apply H2. set_solver. }
    destruct org as [org|]; match goal with |- context [Rib.retain_at _ _ ?keep] => destruct (Hk keep); destruct (Rib.retain_at (t_rib t) p keep) as [b rib'] end; by apply Hone.
  - unfold Engine.install_announced. destruct (add_ok (t_rib t) p (mkRoute fid 130 0 0 ex) Hr) as [H1 H2]; [by vm_compute|].
    destruct (Rib.add _ _ _) as [b rib']. by apply Hone.
  - unfold Engine.flush, Rib.flush_origin. pose proof (retain_all_spec o (t_rib t) (fun r => negb (r_origin r =? org)) Ho Hr) as H.
    destruct (Rib.retain_all _ _ _) as [aff rib']. destruct H as (H1 & H2 & _). apply changed_ok; [done|done|by eapply shrinks_ok|done].
  - unfold Engine.expire, Rib.drain_expired. pose proof (retain_all_spec o (t_rib t) (fun r => match expires_at r with None => true | Some exp => now <? exp end) Ho Hr) as H.
    destruct (Rib.retain_all _ _ _) as [aff rib']. destruct H as (H1 & H2 & _). apply changed_ok; [done|done|by eapply shrinks_ok|done].
  - unfold Engine.remove_face, Rib.handle_face_down, Rib.flush_face. pose proof (retain_all_spec o (t_rib t) (fun r => negb (r_face r =? fid)) Ho Hr) as H.
    destruct (Rib.retain_all _ _ _) as [aff rib']. destruct H as (H1 & H2 & H3). pose proof (changed_ok o t rib' aff (t_dest t) Ho Ht (shrinks_ok _ _ Hr H1) H2) as Hc.
    destruct Hc as [Hc1 Hc2 Hc3]. cbn [t_rib t_fib] in *. rewrite remove_face_absent; [by constructor|done|].
    intros q e [f c] Hg Hh. pose proof (Hc3 q) as Hgood. rewrite Hg in Hgood. destruct Hgood as (_ & _ & _ & Hi). apply Hi, hop_face in Hh as (q' & rs & r & Hrs & Hin & Hf).
    specialize (H3 q' rs r Hrs Hin). apply negb_true_iff, Z.eqb_neq in H3. cbn. congruence.
Qed.

Lemma routes_run_ok dest ops : Forall op_ok ops -> tables_ok (Engine.run dest ops).
Proof.
  unfold Engine.run. assert (tables_ok (mkTables Rib.new EngineFib.new dest)) as H0.
  { constructor; [split; intros p rs; cbn; unfold Rib.new; by rewrite lookup_empty|apply NameTrie.wf_new|]. intros p. cbn. unfold FibTrie.get, EngineFib.new. rewrite NameTrie.get_new. apply lookup_empty. }
  revert H0. generalize (mkTables Rib.new EngineFib.new dest) as t. induction ops as [|op ops IH]; intros t Ht Hops; [done|].
  apply Forall_cons in Hops as [Hop Hops]. apply IH; [by apply step_ok|done].
Qed.

(** ** Lookup *)

Lemma lpm_walk_best m : forall (t : FibTrie.FibTrie) i best,
  FibTrie.lpm_walk t i m best = match FibTrie.lpm_walk t i m None with Some x => Some x | None => best end.
Proof.
  induction m as [|c m IH]; intros t i best; cbn [FibTrie.lpm_walk]; [done|]. destruct (NameTrie.child _ c) as [x|]; [|done].
  destruct (NameTrie.entry x) as [e|]; [rewrite (IH x (i + 1) (Some _)); by destruct (FibTrie.lpm_walk x (i + 1) m None)|apply IH].
Qed.

Lemma lpm_walk_longest m : forall (t : FibTrie.FibTrie) i,
  match FibTrie.lpm_walk t i m None with
  | Some (k, e) => exists j, k = i + Z.of_nat j /\ (0 < j)%nat /\ NameTrie.longest_stored t m j e
  | None => forall j, (0 < j <= length m)%nat -> NameTrie.get t (take j m) = None
  end.
Proof.
  induction m as [|c m IH]; intros t i; cbn [FibTrie.lpm_walk]; [intros j Hj; cbn in Hj; lia|].
  assert (forall j, NameTrie.get t (take (S j) (c :: m)) = match NameTrie.child (NameTrie.children t) c with Some x => NameTrie.get x (take j m) | None => None end) as Hg.
  { intros j. cbn [take]. apply NameTrie.get_cons. }
  destruct (NameTrie.child (NameTrie.children t) c) as [x|] eqn:Hc.
  2:{ intros [|j] Hj; [lia|]. by rewrite Hg. }
  rewrite lpm_walk_best. specialize (IH x (i + 1)). destruct (FibTrie.lpm_walk x (i + 1) m None) as [[k e]|].
  - destruct IH as (j & -> & Hj & Hlen & He & Hmax). exists (S j). split_conj; [lia|lia|]. unfold NameTrie.longest_stored. split_conj; [cbn; lia|by rewrite Hg|].
    intros [|j'] Hj'; [lia|]. rewrite Hg. apply Hmax. cbn in Hj'. lia.
  - destruct (NameTrie.entry x) as [e|] eqn:Ee.
    + exists 1%nat. split_conj; [lia|lia|]. unfold NameTrie.longest_stored. split_conj; [cbn; lia|rewrite Hg; by rewrite take_0|].
      intros [|[|j']] Hj'; [lia|lia|]. rewrite Hg. apply IH. cbn in Hj'. lia.
    + intros [|[|j]] Hj; [lia|rewrite Hg, take_0; exact Ee|]. rewrite Hg. apply IH. cbn in Hj. lia.
Qed.

Lemma lpm_with_depth_spec (t : FibTrie.FibTrie) m :
  match FibTrie.lpm_with_depth t m with
  | Some (k, e) => exists j, k = Z.of_nat j /\ NameTrie.longest_stored t m j e
  | None => forall j, (j <= length m)%nat -> NameTrie.get t (take j m) = None
  end.
Proof.
  unfold FibTrie.lpm_with_depth. rewrite lpm_walk_best. pose proof (lpm_walk_longest m t 0) as H. destruct (FibTrie.lpm_walk t 0 m None) as [[k e]|].
  - destruct H as (j & -> & _ & H). by exists j.
  - destruct (NameTrie.entry t) as [e|] eqn:Ee; cbn [fmap option_fmap option_map].
    + exists 0%nat. split; [done|]. unfold NameTrie.longest_stored. split_conj; [lia|by rewrite take_0|]. intros j Hj. apply H. lia.
    + intros [|j] Hj; [by rewrite take_0|]. apply H. lia.
Qed.

(** ** Next hops in order of cost

    Whoever writes the FIB, each entry lists its next hops cheapest first. *)

Definition fib_sorted (fib : EngineFib.Fib) : Prop :=
  forall p e, FibTrie.get fib p = Some e -> StronglySorted cost_le (nexthops e).

#[export] Instance cost_le_trans : Transitive cost_le.
Proof. intros a b c. unfold cost_le. lia. Qed.
Lemma sort_by_cost_strong l : StronglySorted cost_le (sort_by_cost l).
Proof. apply Sorted_StronglySorted; [apply _|apply sort_by_cost_sorted]. Qed.

Lemma fib_sorted_insert fib p hops : fib_sorted fib -> StronglySorted cost_le hops -> fib_sorted (FibTrie.insert fib p (mkFibEntry hops)).
Proof.
  intros Hf Hh q e. unfold FibTrie.get, FibTrie.insert, NameTrie.insert. rewrite NameTrie.get_update.
  destruct (decide _); [by intros [= <-]|apply Hf].
Qed.
Lemma fib_sorted_remove fib p : fib_sorted fib -> fib_sorted (FibTrie.remove fib p).
Proof.
  intros Hf q e. unfold FibTrie.get, FibTrie.remove. rewrite NameTrie.get_remove. destruct (decide _); [done|apply Hf].
Qed.
Lemma filter_cost_sorted P `{!forall n, Decision (P n)} hops : StronglySorted cost_le hops -> StronglySorted cost_le (filter P hops).
Proof.
  induction 1 as [|n l Hl IH Hn]; [constructor|]. rewrite filter_cons. destruct (decide (P n)); [|done]. constructor; [done|].
  apply Forall_forall. intros m [_ Hm]%list_elem_of_filter. rewrite Forall_forall in Hn. by apply Hn.
Qed.
Lemma fib_sorted_put fib p hops : fib_sorted fib -> StronglySorted cost_le hops -> fib_sorted (EngineFib.put_or_remove fib p hops).
Proof. intros Hf Hh. unfold EngineFib.put_or_remove. destruct hops; [by apply fib_sorted_remove|by apply fib_sorted_insert]. Qed.

Lemma fib_writes_sorted fib p fid c hops :
  fib_sorted fib ->
  fib_sorted (EngineFib.add_nexthop fib p fid c) /\ fib_sorted (EngineFib.set_nexthops fib p hops) /\
  fib_sorted (EngineFib.remove_prefix fib p) /\ fib_sorted (EngineFib.remove_nexthop fib p fid) /\
  (NameTrie.wf_node fib -> fib_sorted (EngineFib.remove_face fib fid)).
Proof.
  intros Hf. split_conj.
  - apply fib_sorted_insert; [done|apply sort_by_cost_strong].
  - unfold EngineFib.set_nexthops. destruct hops; [by apply fib_sorted_remove|apply fib_sorted_insert; [done|apply sort_by_cost_strong]].
  - by apply fib_sorted_remove.
  - unfold EngineFib.remove_nexthop. destruct (FibTrie.get fib p) as [e|] eqn:E; [|done]. apply fib_sorted_put; [done|].
    by apply filter_cost_sorted, (Hf p).
  - intros Hwf. unfold EngineFib.remove_face.
    assert (forall l, Forall (fun pe => StronglySorted cost_le (nexthops pe.2)) l -> forall t, fib_sorted t ->
      fib_sorted (fold_left (fun t '(prefix, entry) => if existsb (fun n => face_id n =? fid) (nexthops entry)
        then EngineFib.put_or_remove t prefix (filter (fun n => face_id n <> fid) (nexthops entry)) else t) l t)) as Hgo.
    { induction l as [|[q e] l IH]; intros Hl t Ht; [done|]. apply Forall_cons in Hl as [He Hl]. cbn [fold_left snd] in *. apply IH; [done|].
      destruct (existsb _ _); [|done]. apply fib_sorted_put; [done|]. by apply filter_cost_sorted. }
    apply Hgo; [|done]. apply Forall_forall. intros [q e] Hin. apply (Hf q).
    unfold FibTrie.dump in Hin. rewrite NameTrie.dump_entries in Hin. by apply NameTrie.elem_entries.
Qed.

Lemma fib_sorted_new : fib_sorted EngineFib.new.
Proof. intros p e. unfold FibTrie.get, EngineFib.new. by rewrite NameTrie.get_new. Qed.

Lemma lpm_sorted fib n e : fib_sorted fib -> EngineFib.lpm fib n = Some e -> StronglySorted cost_le (nexthops e).
Proof.
  intros Hf. unfold EngineFib.lpm, FibTrie.lpm. pose proof (lpm_with_depth_spec fib n) as Hs.
  destruct (FibTrie.lpm_with_depth fib n) as [[k e']|]; [|done]. intros [= ->]. destruct Hs as (j & _ & _ & Hg & _). by eapply Hf.
Qed.

(** ** Announcements *)

Definition advertised (d : ReadvertisedPrefixes) (p : Name) : Prop := is_Some (ReadvertisedPrefixes.set_get p (set d)).

Lemma set_get_insert p q l : bt_wf NameOps.cmp l -> ReadvertisedPrefixes.set_get q (bt_insert NameOps.cmp p tt l) = if decide (q = p) then Some tt else ReadvertisedPrefixes.set_get q l.
Proof.
  intros Hwf. rewrite (bt_get_insert NameOps.cmp) by done. destruct (decide (q = p)) as [->|Hne]; [by rewrite (cmp_refl NameOps.cmp)|].
  destruct (NameOps.cmp q p) eqn:E; [|done|done]. by apply (cmp_eq (cmp := NameOps.cmp)) in E.
Qed.

Lemma set_get_remove p q l : bt_wf NameOps.cmp l -> ReadvertisedPrefixes.set_get q (bt_remove NameOps.cmp p l) = if decide (q = p) then None else ReadvertisedPrefixes.set_get q l.
Proof.
  intros Hwf. rewrite (bt_get_remove NameOps.cmp) by done. destruct (decide (q = p)) as [->|Hne]; [by rewrite (cmp_refl NameOps.cmp)|].
  destruct (NameOps.cmp q p) eqn:E; [|done|done]. by apply (cmp_eq (cmp := NameOps.cmp)) in E.
Qed.

Definition prefixes_ok (d : ReadvertisedPrefixes) : Prop := bt_wf NameOps.cmp (set d).

Lemma advertise_spec d p : prefixes_ok d ->
  prefixes_ok (advertise d p) /\ forall q, advertised (advertise d p) q <-> advertised d q \/ q = p.
Proof.
  unfold prefixes_ok, advertised. intros Hwf. cbn [advertise ReadvertisedPrefixes.destination]. destruct (ReadvertisedPrefixes.set_get p (set d)) as [[]|] eqn:E.
  - split; [done|]. intros q. split; [by left|]. intros [?| ->]; [done|]. by rewrite E.
  - cbn [set]. split; [by apply (bt_insert_wf NameOps.cmp)|]. intros q. rewrite set_get_insert by done. destruct (decide (q = p)); naive_solver.
Qed.

Lemma withdraw_spec d p : prefixes_ok d ->
  prefixes_ok (withdraw d p) /\ forall q, advertised (withdraw d p) q <-> advertised d q /\ q <> p.
Proof.
  unfold prefixes_ok, advertised. intros Hwf. cbn [withdraw ReadvertisedPrefixes.destination]. destruct (ReadvertisedPrefixes.set_get p (set d)) as [[]|] eqn:E.
  - cbn [set]. split; [by apply (bt_remove_wf NameOps.cmp)|]. intros q. rewrite set_get_remove by done. destruct (decide (q = p)) as [->|]; [|naive_solver].
    split; [by intros [? ?]|by intros [_ ?]].
  - split; [done|]. intros q. split; [|by intros [? _]]. intros [x Hx]. split; [by eexists|]. intros ->. congruence.
Qed.

(** A prefix the node itself originates. *)
Definition originated (rib : Routes) (p : Name) : Prop := exists rs r, rib !! p = Some rs /\ r ∈ rs /\ should_readvertise (r_origin r) = true.
Definition dest_ok (t : Tables) : Prop :=
  forall d, t_dest t = Some d -> prefixes_ok d /\ forall p, originated (t_rib t) p -> advertised d p.

Lemma still_local_spec rib p : (match rib !! p with Some rs => existsb (fun r => should_readvertise (r_origin r)) rs | None => false end) = true <-> originated rib p.
Proof.
  unfold originated. destruct (rib !! p) as [rs|]; [|by split; [|intros (? & ? & ? & _)]]. rewrite List.existsb_exists. split.
  - intros (r & Hr & H). exists rs, r. by rewrite list_elem_of_In.
  - intros (rs' & r & [= <-] & Hr & H). exists r. by rewrite <- list_elem_of_In.
Qed.

Lemma originated_shrinks rib rib' p : shrinks rib rib' -> originated rib' p -> originated rib p.
Proof. intros [_ H] (rs & r & Hp & Hr & Hs). destruct (H p rs r Hp Hr) as (old & Ho & Hin). by exists old, r. Qed.

Lemma add_originated rib p r q : originated (Rib.add rib p r).2 q -> originated rib q \/ (q = p /\ should_readvertise (r_origin r) = true).
Proof.
  destruct (add_spec rib p r) as (rs & -> & _ & Hin). intros (rs' & x & [[<- <-]|[_ H]]%lookup_insert_Some & Hx & Hs); [|left; by exists rs', x].
  destruct (Hin x Hx) as [->|(old & Ho & Hxo)]; [by right|]. left. by exists old, x.
Qed.

Lemma step_dest_ok t op : op_ok op -> tables_ok t -> dest_ok t -> dest_ok (Engine.step t op).
Proof.
  destruct op as [o op]. intros [Ho _] [Hr _ _] Hd d. cbn [fst] in Ho.
  assert (forall rib' d0, t_dest t = Some d0 -> shrinks (t_rib t) rib' -> prefixes_ok d0 /\ forall p, originated rib' p -> advertised d0 p) as Hshr.
  { intros rib' d0 Hd0 Hs. destruct (Hd d0 Hd0) as [H1 H2]. split; [done|]. intros p Hp. by eapply H2, originated_shrinks. }
  assert (forall keep, let '(aff, rib') := Rib.retain_all o (t_rib t) keep in shrinks (t_rib t) rib') as Hall.
  { intros keep. pose proof (retain_all_spec o (t_rib t) keep Ho Hr) as H. destruct (Rib.retain_all _ _ _). tauto. }
  destruct op as [p r|p fid org|p fid ex|org|now|fid]; cbn [Engine.step].
  - unfold Engine.register. pose proof (add_originated (t_rib t) p r) as Ha. destruct (Rib.add (t_rib t) p r) as [b rib']. cbn [snd t_dest t_rib] in *.
    unfold Rib.readvertise_announce. destruct (should_readvertise (r_origin r)).
    + destruct (t_dest t) as [d0|] eqn:Ed; [|done]. intros [= <-]. destruct (Hd d0 Ed) as [H1 H2]. destruct (advertise_spec d0 p H1) as [H3 H4].
      split; [done|]. intros q Hq. apply H4. destruct (Ha q Hq) as [?|[? _]]; auto.
    + intros Ed. destruct (Hd d Ed) as [H1 H2]. split; [done|]. intros q Hq. destruct (Ha q Hq) as [?|[_ ?]]; [auto|done].
  - unfold Engine.unregister, Rib.remove, Rib.remove_nexthop.
    assert (forall keep, shrinks (t_rib t) (Rib.retain_at (t_rib t) p keep).2) as Hk by (intros keep; by apply retain_at_spec).
    assert (forall rib' d0, shrinks (t_rib t) rib' -> t_dest t = Some d0 -> Rib.readvertise_withdraw rib' (Some d0) p = Some d ->
      prefixes_ok d /\ forall q, originated rib' q -> advertised d q) as Hw.
    { intros rib' d0 Hs Ed [= <-]. destruct (Hshr rib' d0 Ed Hs) as [H1 H2]. pose proof (still_local_spec rib' p) as Hsl.
      destruct (match rib' !! p with Some rs => _ | None => false end); [done|]. destruct (withdraw_spec d0 p H1) as [H3 H4].
      split; [done|]. intros q Hq. apply H4. split; [by apply H2|]. intros ->. by apply Hsl in Hq. }
    destruct org as [org|]; match goal with |- context [Rib.retain_at _ _ ?keep] => specialize (Hk keep); destruct (Rib.retain_at (t_rib t) p keep) as [b rib'] end;
      cbn [t_dest t_rib snd] in *; (destruct (t_dest t) as [d0|] eqn:Ed; [by apply Hw|done]).
  - unfold Engine.install_announced. pose proof (add_originated (t_rib t) p (mkRoute fid 130 0 0 ex)) as Ha. destruct (Rib.add _ _ _) as [b rib']. cbn [snd t_dest t_rib] in *.
    intros Ed. destruct (Hd d Ed) as [H1 H2]. split; [done|]. intros q Hq. destruct (Ha q Hq) as [?|[_ ?]]; [auto|done].
  - unfold Engine.flush, Rib.flush_origin. specialize (Hall (fun r => negb (r_origin r =? org))). destruct (Rib.retain_all _ _ _). intros Ed. by apply Hshr.
  - unfold Engine.expire, Rib.drain_expired. specialize (Hall (fun r => match expires_at r with None => true | Some exp => now <? exp end)). destruct (Rib.retain_all _ _ _). intros Ed. by apply Hshr.
  - unfold Engine.remove_face, Rib.handle_face_down, Rib.flush_face. specialize (Hall (fun r => negb (r_face r =? fid))). destruct (Rib.retain_all _ _ _). intros Ed. by apply Hshr.
Qed.

Lemma step_dest_some t op : is_Some (t_dest t) -> is_Some (t_dest (Engine.step t op)).
Proof.
  intros [d Hd]. destruct op as [o [p r|p fid org|p fid ex|org|now|fid]]; cbn [Engine.step].
  - unfold Engine.register. destruct (Rib.add _ _ _). cbn [t_dest]. unfold Rib.readvertise_announce. rewrite Hd. by destruct (should_readvertise _).
  - unfold Engine.unregister. destruct (match org with Some _ => _ | None => _ end). cbn [t_dest]. by rewrite Hd.
  - unfold Engine.install_announced. destruct (Rib.add _ _ _). by eexists.
  - unfold Engine.flush. destruct (Rib.flush_origin _ _ _). by eexists.
  - unfold Engine.expire. destruct (Rib.drain_expired _ _ _). by eexists.
  - unfold Engine.remove_face. destruct (Rib.handle_face_down _ _ _ _). by eexists.
Qed.

(** ** Properties *)

(** C8: the FIB implements the RIB.  After any registrations, removals, prefix
    announcements, flushes, expiries and face removals, in any order and whatever
    order the hash maps are walked in, a lookup of a name finds the longest of its
    prefixes that has routes, and its nexthops are, cheapest first and each face
    once: the faces of the prefix's own routes at their least cost, and, unless it
    captures, the other faces at the least cost of a child-inherit route of an
    ancestor that no prefix between captures.  Where no prefix has routes nothing
    is found. *)
Theorem fib_implements_rib (dest : option ReadvertisedPrefixes) (ops : list (Orders * RouteOp)) (name : Name) :
  Forall op_ok ops ->
  let t := Engine.run dest ops in
  match EngineFib.lpm_with_depth (t_fib t) name with
  | Some (depth, e) =>
      0 <= depth <= zlen name /\ is_Some (t_rib t !! take (Z.to_nat depth) name) /\
      (forall j, depth < Z.of_nat j <= zlen name -> t_rib t !! take j name = None) /\
      Sorted cost_le (nexthops e) /\ NoDup (map face_id (nexthops e)) /\
      forall f c, mkFibNexthop f c ∈ nexthops e <-> hop (t_rib t) (take (Z.to_nat depth) name) f c
  | None => forall j, t_rib t !! take j name = None
  end.
Proof.
  intros Hops t. destruct (routes_run_ok dest ops Hops) as [_ _ Ha]. fold t in Ha. unfold EngineFib.lpm_with_depth.
  pose proof (lpm_with_depth_spec (t_fib t) name) as Hl. destruct (FibTrie.lpm_with_depth (t_fib t) name) as [[k e]|].
  - destruct Hl as (j & -> & Hj & He & Hmax). rewrite Nat2Z.id. pose proof (Ha (take j name)) as Hg. unfold FibTrie.get in Hg. rewrite He in Hg.
    destruct Hg as (H1 & H2 & H3 & H4). unfold zlen. split_conj; [lia|lia|done| |done|done|done].
    intros j' Hj'. specialize (Hmax j' ltac:(lia)). pose proof (Ha (take j' name)) as Hg. unfold FibTrie.get in Hg. by rewrite Hmax in Hg.
  - intros j. destruct (Nat.le_gt_cases j (length name)) as [Hj|Hj].
    + pose proof (Ha (take j name)) as Hg. unfold FibTrie.get in Hg. by rewrite Hl in Hg.
    + rewrite take_ge by lia. pose proof (Ha name) as Hg. unfold FibTrie.get in Hg. specialize (Hl (length name) ltac:(lia)). rewrite firstn_all in Hl. by rewrite Hl in Hg.
Qed.

(** What the node originates is announced.  With a routing protocol attached
    before the first registration, each prefix that has a route of a local origin
    is in the announced set, through any sequence of route changes. *)
Theorem originated_prefixes_announced (ops : list (Orders * RouteOp)) :
  Forall op_ok ops ->
  exists d, t_dest (Engine.run (Some ReadvertisedPrefixes.default_) ops) = Some d /\
    forall p rs r, t_rib (Engine.run (Some ReadvertisedPrefixes.default_) ops) !! p = Some rs -> r ∈ rs ->
      should_readvertise (r_origin r) = true -> p ∈ ReadvertisedPrefixes.snapshot d.
Proof.
  intros Hops. set (t0 := mkTables Rib.new EngineFib.new (Some ReadvertisedPrefixes.default_)).
  assert (forall t, tables_ok t -> dest_ok t -> is_Some (t_dest t) -> Forall op_ok ops ->
    dest_ok (fold_left Engine.step ops t) /\ is_Some (t_dest (fold_left Engine.step ops t))) as Hrun.
  { clear. induction ops as [|op ops IH]; intros t H1 H2 H3 H4; [done|]. apply Forall_cons in H4 as [Hop H4].
    apply IH; [by apply step_ok|by apply step_dest_ok|by apply step_dest_some|done]. }
  destruct (Hrun t0) as [Hd [d Ed]]; [by apply (routes_run_ok _ [])| |by eexists|done|].
  { intros d [= <-]. split; [constructor|]. intros p (rs & r & H & _). cbn in H. unfold Rib.new in H. by rewrite lookup_empty in H. }
  exists d. split; [exact Ed|]. intros p rs r Hp Hr Hs. destruct (Hd d Ed) as [Hwf Ha]. destruct (Ha p) as [[] Hx]; [by exists rs, r|].
  apply (bt_elem_of NameOps.cmp) in Hx; [|done]. apply list_elem_of_fmap. by exists (p, tt).
Qed.

(** ** Examples *)

Definition plain_orders : Orders := mkOrders map_to_list map_to_list map_to_list.
Lemma plain_orders_ok : orders_ok plain_orders.
Proof. by split. Qed.

Definition comp_a : NameComponent := mkComponent 8 [97].
Definition comp_b : NameComponent := mkComponent 8 [98].

(** [/a] through face 1 at cost 5, inherited; [/a/b] through face 2; face 2 goes. *)
Definition example_ops : list (Orders * RouteOp) :=
  [(plain_orders, OpRegister [comp_a] (mkRoute 1 0 5 1 None)); (plain_orders, OpRegister [comp_a; comp_b] (mkRoute 2 0 7 1 None))].

Lemma example_ops_ok : Forall op_ok example_ops.
Proof. repeat (apply Forall_cons; split; [split; [exact plain_orders_ok|by vm_compute]|]). constructor. Qed.

Lemma fib_implements_rib_witness :
  exists e, EngineFib.lpm_with_depth (t_fib (Engine.run None example_ops)) [comp_a; comp_b; comp_a] = Some (2, e) /\
    hop (t_rib (Engine.run None example_ops)) [comp_a; comp_b] 1 5 /\ hop (t_rib (Engine.run None example_ops)) [comp_a; comp_b] 2 7.
Proof.
  pose proof (fib_implements_rib None example_ops [comp_a; comp_b; comp_a] example_ops_ok) as H. cbv zeta in H.
  assert (EngineFib.lpm_with_depth (t_fib (Engine.run None example_ops)) [comp_a; comp_b; comp_a] =
    Some (2, mkFibEntry [mkFibNexthop 1 5; mkFibNexthop 2 7])) as E by (vm_compute; reflexivity).
  rewrite E in H. destruct H as (_ & _ & _ & _ & _ & H). eexists. split; [exact E|].
  split; apply H; [left|right; left].
Defined.

Lemma originated_prefixes_announced_witness :
  exists d, t_dest (Engine.run (Some ReadvertisedPrefixes.default_) example_ops) = Some d /\ [comp_a; comp_b] ∈ ReadvertisedPrefixes.snapshot d.
Proof.
  destruct (originated_prefixes_announced example_ops example_ops_ok) as (d & Hd & H). exists d. split; [exact Hd|].
  eapply (H [comp_a; comp_b] [mkRoute 2 0 7 1 None] (mkRoute 2 0 7 1 None)); [vm_compute; reflexivity|by left|reflexivity].
Defined.

(** Nothing withdraws a prefix when the face behind its last route goes away. *)
Lemma announced_after_face_down :
  let t := Engine.step (Engine.run (Some ReadvertisedPrefixes.default_) example_ops) (plain_orders, OpFaceDown 2) in
  t_rib t !! [comp_a; comp_b] = None /\ (ReadvertisedPrefixes.snapshot <$> t_dest t) = Some [[comp_a]; [comp_a; comp_b]].
Proof. split; vm_compute; reflexivity. Qed.
