(* ===== verification/Mgmt.v ===== *)
(** * Management on the wire ([ndn-mgmt-wire]: [control_parameters.rs], [control_response.rs], [nfd_command.rs])

    The argument block of management commands, their responses and the names
    that carry them.  Each field of [ControlParameters] is optional; a reader
    loops over the elements, skips what it does not know and lets a repeated
    element replace the earlier one.  A [String] is the list of its bytes, which
    are UTF-8. *)
From S2P Require Import Prelude Tlv Name NameUri Packet Lp Encode.
#[local] Open Scope Z_scope.

(** ** Strings *)

(** [core::str::from_utf8]: no overlong forms, no surrogates, at most U+10FFFF. *)
Definition between (x lo hi : Z) : bool := (lo <=? x) && (x <=? hi).
Definition cont (x : Z) : bool := between x 0x80 0xBF.
Fixpoint utf8_valid (b : bytes) : bool :=
  match b with
  | [] => true
  | x :: r =>
      if x <=? 0x7F then utf8_valid r
      else if between x 0xC2 0xDF then match r with y :: r => cont y && utf8_valid r | _ => false end
      else if between x 0xE0 0xEF then
        match r with
        | y :: z :: r => between y (if x =? 0xE0 then 0xA0 else 0x80) (if x =? 0xED then 0x9F else 0xBF) && cont z && utf8_valid r
        | _ => false
        end
      else if between x 0xF0 0xF4 then
        match r with
        | y :: z :: w :: r => between y (if x =? 0xF0 then 0x90 else 0x80) (if x =? 0xF4 then 0x8F else 0xBF) && cont z && cont w && utf8_valid r
        | _ => false
        end
      else false
  end.

(** ** Loops over elements *)

(** [while !r.is_empty() { let (t, v) = r.read_tlv().map_err(malformed)?; .. }];
    a step reads at least two bytes, so the fuel of [tlv_each] is never used up
    ([tlv_loop_fuel]: any more of it gives the same); a loop cut short would be an
    error, not a result. *)
Fixpoint tlv_loop {S E} (fuel : nat) (malformed : E) (body : S -> Z -> bytes -> result S E) (r : TlvReader.TlvReader) (s : S) : result S E :=
  match fuel with
  | O => Err malformed
  | S fuel =>
      if TlvReader.is_empty r then Ok s
      else match TlvReader.read_tlv r with
           | (Err _, _) => Err malformed
           | (Ok (t, v), r) => let? s := body s t v in tlv_loop fuel malformed body r s
           end
  end.
Definition tlv_each {S E} (malformed : E) (body : S -> Z -> bytes -> result S E) (b : bytes) (s : S) : result S E :=
  tlv_loop (Datatypes.S (length b)) malformed body (TlvReader.new b) s.

(** ** [control_parameters.rs] *)

Module cp_tlv.
Definition CONTROL_PARAMETERS : Z := 0x68.
Definition FACE_ID : Z := 0x69.
Definition COST : Z := 0x6A.
Definition STRATEGY : Z := 0x6B.
Definition FLAGS : Z := 0x6C.
Definition EXPIRATION_PERIOD : Z := 0x6D.
Definition ORIGIN : Z := 0x6F.
Definition MASK : Z := 0x70.
Definition URI : Z := 0x72.
Definition LOCAL_URI : Z := 0x81.
Definition CAPACITY : Z := 0x83.
Definition COUNT : Z := 0x84.
Definition FACE_PERSISTENCY : Z := 0x85.
Definition BASE_CONG_INTERVAL : Z := 0x87.
Definition DEF_CONG_THRESHOLD : Z := 0x88.
Definition MTU : Z := 0x89.
Definition FEC_K : Z := 0x90.
Definition FEC_N : Z := 0x92.
Definition FEC_FIELD : Z := 0x94.
Definition FEC_ROLE : Z := 0x96.
Definition PARTIAL_FAILURES : Z := 0xE4.
Definition PARTIAL_FAILURE : Z := 0xE5.
Definition OPTION_NAME : Z := 0xD8.
Definition REFUSAL_REASON : Z := 0xD9.
Definition RL_DIRECTION : Z := 0xA0.
Definition RL_INTEREST_PPS : Z := 0xA2.
Definition RL_INTEREST_BURST : Z := 0xA4.
Definition RL_DATA_BPS : Z := 0xA6.
Definition RL_DATA_BURST_BYTES : Z := 0xA8.
Definition RL_OVERFLOW : Z := 0xAA.
Definition RL_QUEUE_MAX : Z := 0xAC.
Definition SHM_CONTROL_TOKEN : Z := 0xB0.
Definition NAME : Z := 0x07.
End cp_tlv.

Module origin.
Definition APP : Z := 0.
Definition AUTOREG : Z := 64.
Definition CLIENT : Z := 65.
Definition AUTOCONF : Z := 66.
Definition DVR : Z := 127.
Definition NLSR : Z := 128.
Definition PREFIX_ANN : Z := 129.
Definition STATIC : Z := 255.
End origin.

Inductive ControlParametersError : Type := MalformedTlv | WrongType (t : Z) | InvalidNonNegInt | CPInvalidUtf8.

Record ControlParameters : Type := mkCP {
  cp_name : option Name;
  cp_face_id : option Z;
  cp_uri : option bytes;
  cp_local_uri : option bytes;
  cp_origin : option Z;
  cp_cost : option Z;
  cp_flags : option Z;
  cp_mask : option Z;
  cp_expiration_period : option Z;
  cp_face_persistency : option Z;
  cp_strategy : option Name;
  cp_mtu : option Z;
  cp_shm_control_token : option bytes;
  cp_base_cong_interval : option Z;
  cp_def_cong_threshold : option Z;
  cp_capacity : option Z;
  cp_count : option Z;
  cp_fec_k : option Z;
  cp_fec_n : option Z;
  cp_fec_field : option Z;
  cp_fec_role : option Z;
  cp_rl_direction : option Z;
  cp_rl_interest_pps : option Z;
  cp_rl_interest_burst : option Z;
  cp_rl_data_bps : option Z;
  cp_rl_data_burst_bytes : option Z;
  cp_rl_overflow : option Z;
  cp_rl_queue_max : option Z;
  partial_failures : list (bytes * bytes)
}.

Definition encode_non_neg_int (value : Z) : bytes :=
  if value <=? 0xFF then [wrap 8 value]
  else if value <=? 0xFFFF then be_encode 2 (wrap 16 value)
  else if value <=? 0xFFFFFFFF then be_encode 4 (wrap 32 value)
  else be_encode 8 value.

Definition write_non_neg_int (w : TlvWriter.TlvWriter) (t value : Z) : TlvWriter.TlvWriter := TlvWriter.write_tlv w t (encode_non_neg_int value).

Definition read_non_neg_int (buf : bytes) : result Z ControlParametersError :=
  let n := zlen buf in
  if (n =? 1) || (n =? 2) || (n =? 4) || (n =? 8) then Ok (be_decode buf) else Err InvalidNonNegInt.

Definition encode_name (w : TlvWriter.TlvWriter) (name : Name) : TlvWriter.TlvWriter :=
  TlvWriter.write_nested w cp_tlv.NAME (fun w => fold_left (fun w comp => TlvWriter.write_tlv w (typ comp) (value comp)) name w).

Definition decode_name (val : bytes) : result Name ControlParametersError :=
  let? components := tlv_each MalformedTlv (fun cs t v => Ok (cs ++ [mkComponent t v])) val [] in
  match components with [] => Ok NameOps.root | _ => Ok components end.

Definition read_string (val : bytes) : result bytes ControlParametersError := if utf8_valid val then Ok val else Err CPInvalidUtf8.

(** [uN::try_from] of what was read. *)
Definition read_bounded (max : Z) (val : bytes) : result Z ControlParametersError :=
  let? v := read_non_neg_int val in if v <=? max then Ok v else Err MalformedTlv.

Definition read_byte (val : bytes) : result Z ControlParametersError :=
  match val with [b] => Ok b | _ => Err MalformedTlv end.

Definition read_strategy (val : bytes) : result Name ControlParametersError :=
  match TlvReader.read_tlv (TlvReader.new val) with
  | (Err _, _) => Err MalformedTlv
  | (Ok (t, v), _) => if negb (t =? cp_tlv.NAME) then Err (WrongType t) else decode_name v
  end.

(** One [PartialFailure]: its last option name and reason. *)
Definition failure_body (s : bytes * bytes) (t : Z) (v : bytes) : result (bytes * bytes) ControlParametersError :=
  if t =? cp_tlv.OPTION_NAME then let? option := read_string v in Ok (option, s.2)
  else if t =? cp_tlv.REFUSAL_REASON then let? reason := read_string v in Ok (s.1, reason)
  else Ok s.
Definition failures_body (s : list (bytes * bytes)) (t : Z) (v : bytes) : result (list (bytes * bytes)) ControlParametersError :=
  if negb (t =? cp_tlv.PARTIAL_FAILURE) then Ok s
  else let? f := tlv_each MalformedTlv failure_body v ([], []) in Ok (s ++ [f]).

(** [if let Some(v) = o { .. }]. *)
Definition put {A} (o : option A) (f : A -> TlvWriter.TlvWriter -> TlvWriter.TlvWriter) (w : TlvWriter.TlvWriter) : TlvWriter.TlvWriter :=
  match o with Some v => f v w | None => w end.

Module ControlParameters.

Definition default_ : ControlParameters := mkCP None None None None None None None None None None None None None None None None None None None None None None None None None None None None [].

(** Field updates. *)
Definition set_name (x : option Name) (p : ControlParameters) : ControlParameters :=
  mkCP x (cp_face_id p) (cp_uri p) (cp_local_uri p) (cp_origin p) (cp_cost p) (cp_flags p) (cp_mask p) (cp_expiration_period p) (cp_face_persistency p) (cp_strategy p) (cp_mtu p) (cp_shm_control_token p) (cp_base_cong_interval p) (cp_def_cong_threshold p) (cp_capacity p) (cp_count p) (cp_fec_k p) (cp_fec_n p) (cp_fec_field p) (cp_fec_role p) (cp_rl_direction p) (cp_rl_interest_pps p) (cp_rl_interest_burst p) (cp_rl_data_bps p) (cp_rl_data_burst_bytes p) (cp_rl_overflow p) (cp_rl_queue_max p) (partial_failures p).
Definition set_face_id (x : option Z) (p : ControlParameters) : ControlParameters :=
  mkCP (cp_name p) x (cp_uri p) (cp_local_uri p) (cp_origin p) (cp_cost p) (cp_flags p) (cp_mask p) (cp_expiration_period p) (cp_face_persistency p) (cp_strategy p) (cp_mtu p) (cp_shm_control_token p) (cp_base_cong_interval p) (cp_def_cong_threshold p) (cp_capacity p) (cp_count p) (cp_fec_k p) (cp_fec_n p) (cp_fec_field p) (cp_fec_role p) (cp_rl_direction p) (cp_rl_interest_pps p) (cp_rl_interest_burst p) (cp_rl_data_bps p) (cp_rl_data_burst_bytes p) (cp_rl_overflow p) (cp_rl_queue_max p) (partial_failures p).
Definition set_uri (x : option bytes) (p : ControlParameters) : ControlParameters :=
  mkCP (cp_name p) (cp_face_id p) x (cp_local_uri p) (cp_origin p) (cp_cost p) (cp_flags p) (cp_mask p) (cp_expiration_period p) (cp_face_persistency p) (cp_strategy p) (cp_mtu p) (cp_shm_control_token p) (cp_base_cong_interval p) (cp_def_cong_threshold p) (cp_capacity p) (cp_count p) (cp_fec_k p) (cp_fec_n p) (cp_fec_field p) (cp_fec_role p) (cp_rl_direction p) (cp_rl_interest_pps p) (cp_rl_interest_burst p) (cp_rl_data_bps p) (cp_rl_data_burst_bytes p) (cp_rl_overflow p) (cp_rl_queue_max p) (partial_failures p).
Definition set_local_uri (x : option bytes) (p : ControlParameters) : ControlParameters :=
  mkCP (cp_name p) (cp_face_id p) (cp_uri p) x (cp_origin p) (cp_cost p) (cp_flags p) (cp_mask p) (cp_expiration_period p) (cp_face_persistency p) (cp_strategy p) (cp_mtu p) (cp_shm_control_token p) (cp_base_cong_interval p) (cp_def_cong_threshold p) (cp_capacity p) (cp_count p) (cp_fec_k p) (cp_fec_n p) (cp_fec_field p) (cp_fec_role p) (cp_rl_direction p) (cp_rl_interest_pps p) (cp_rl_interest_burst p) (cp_rl_data_bps p) (cp_rl_data_burst_bytes p) (cp_rl_overflow p) (cp_rl_queue_max p) (partial_failures p).
Definition set_origin (x : option Z) (p : ControlParameters) : ControlParameters :=
  mkCP (cp_name p) (cp_face_id p) (cp_uri p) (cp_local_uri p) x (cp_cost p) (cp_flags p) (cp_mask p) (cp_expiration_period p) (cp_face_persistency p) (cp_strategy p) (cp_mtu p) (cp_shm_control_token p) (cp_base_cong_interval p) (cp_def_cong_threshold p) (cp_capacity p) (cp_count p) (cp_fec_k p) (cp_fec_n p) (cp_fec_field p) (cp_fec_role p) (cp_rl_direction p) (cp_rl_interest_pps p) (cp_rl_interest_burst p) (cp_rl_data_bps p) (cp_rl_data_burst_bytes p) (cp_rl_overflow p) (cp_rl_queue_max p) (partial_failures p).
Definition set_cost (x : option Z) (p : ControlParameters) : ControlParameters :=
  mkCP (cp_name p) (cp_face_id p) (cp_uri p) (cp_local_uri p) (cp_origin p) x (cp_flags p) (cp_mask p) (cp_expiration_period p) (cp_face_persistency p) (cp_strategy p) (cp_mtu p) (cp_shm_control_token p) (cp_base_cong_interval p) (cp_def_cong_threshold p) (cp_capacity p) (cp_count p) (cp_fec_k p) (cp_fec_n p) (cp_fec_field p) (cp_fec_role p) (cp_rl_direction p) (cp_rl_interest_pps p) (cp_rl_interest_burst p) (cp_rl_data_bps p) (cp_rl_data_burst_bytes p) (cp_rl_overflow p) (cp_rl_queue_max p) (partial_failures p).
Definition set_flags (x : option Z) (p : ControlParameters) : ControlParameters :=
  mkCP (cp_name p) (cp_face_id p) (cp_uri p) (cp_local_uri p) (cp_origin p) (cp_cost p) x (cp_mask p) (cp_expiration_period p) (cp_face_persistency p) (cp_strategy p) (cp_mtu p) (cp_shm_control_token p) (cp_base_cong_interval p) (cp_def_cong_threshold p) (cp_capacity p) (cp_count p) (cp_fec_k p) (cp_fec_n p) (cp_fec_field p) (cp_fec_role p) (cp_rl_direction p) (cp_rl_interest_pps p) (cp_rl_interest_burst p) (cp_rl_data_bps p) (cp_rl_data_burst_bytes p) (cp_rl_overflow p) (cp_rl_queue_max p) (partial_failures p).
Definition set_mask (x : option Z) (p : ControlParameters) : ControlParameters :=
  mkCP (cp_name p) (cp_face_id p) (cp_uri p) (cp_local_uri p) (cp_origin p) (cp_cost p) (cp_flags p) x (cp_expiration_period p) (cp_face_persistency p) (cp_strategy p) (cp_mtu p) (cp_shm_control_token p) (cp_base_cong_interval p) (cp_def_cong_threshold p) (cp_capacity p) (cp_count p) (cp_fec_k p) (cp_fec_n p) (cp_fec_field p) (cp_fec_role p) (cp_rl_direction p) (cp_rl_interest_pps p) (cp_rl_interest_burst p) (cp_rl_data_bps p) (cp_rl_data_burst_bytes p) (cp_rl_overflow p) (cp_rl_queue_max p) (partial_failures p).
Definition set_expiration_period (x : option Z) (p : ControlParameters) : ControlParameters :=
  mkCP (cp_name p) (cp_face_id p) (cp_uri p) (cp_local_uri p) (cp_origin p) (cp_cost p) (cp_flags p) (cp_mask p) x (cp_face_persistency p) (cp_strategy p) (cp_mtu p) (cp_shm_control_token p) (cp_base_cong_interval p) (cp_def_cong_threshold p) (cp_capacity p) (cp_count p) (cp_fec_k p) (cp_fec_n p) (cp_fec_field p) (cp_fec_role p) (cp_rl_direction p) (cp_rl_interest_pps p) (cp_rl_interest_burst p) (cp_rl_data_bps p) (cp_rl_data_burst_bytes p) (cp_rl_overflow p) (cp_rl_queue_max p) (partial_failures p).
Definition set_face_persistency (x : option Z) (p : ControlParameters) : ControlParameters :=
  mkCP (cp_name p) (cp_face_id p) (cp_uri p) (cp_local_uri p) (cp_origin p) (cp_cost p) (cp_flags p) (cp_mask p) (cp_expiration_period p) x (cp_strategy p) (cp_mtu p) (cp_shm_control_token p) (cp_base_cong_interval p) (cp_def_cong_threshold p) (cp_capacity p) (cp_count p) (cp_fec_k p) (cp_fec_n p) (cp_fec_field p) (cp_fec_role p) (cp_rl_direction p) (cp_rl_interest_pps p) (cp_rl_interest_burst p) (cp_rl_data_bps p) (cp_rl_data_burst_bytes p) (cp_rl_overflow p) (cp_rl_queue_max p) (partial_failures p).
Definition set_strategy (x : option Name) (p : ControlParameters) : ControlParameters :=
  mkCP (cp_name p) (cp_face_id p) (cp_uri p) (cp_local_uri p) (cp_origin p) (cp_cost p) (cp_flags p) (cp_mask p) (cp_expiration_period p) (cp_face_persistency p) x (cp_mtu p) (cp_shm_control_token p) (cp_base_cong_interval p) (cp_def_cong_threshold p) (cp_capacity p) (cp_count p) (cp_fec_k p) (cp_fec_n p) (cp_fec_field p) (cp_fec_role p) (cp_rl_direction p) (cp_rl_interest_pps p) (cp_rl_interest_burst p) (cp_rl_data_bps p) (cp_rl_data_burst_bytes p) (cp_rl_overflow p) (cp_rl_queue_max p) (partial_failures p).
Definition set_mtu (x : option Z) (p : ControlParameters) : ControlParameters :=
  mkCP (cp_name p) (cp_face_id p) (cp_uri p) (cp_local_uri p) (cp_origin p) (cp_cost p) (cp_flags p) (cp_mask p) (cp_expiration_period p) (cp_face_persistency p) (cp_strategy p) x (cp_shm_control_token p) (cp_base_cong_interval p) (cp_def_cong_threshold p) (cp_capacity p) (cp_count p) (cp_fec_k p) (cp_fec_n p) (cp_fec_field p) (cp_fec_role p) (cp_rl_direction p) (cp_rl_interest_pps p) (cp_rl_interest_burst p) (cp_rl_data_bps p) (cp_rl_data_burst_bytes p) (cp_rl_overflow p) (cp_rl_queue_max p) (partial_failures p).
Definition set_shm_control_token (x : option bytes) (p : ControlParameters) : ControlParameters :=
  mkCP (cp_name p) (cp_face_id p) (cp_uri p) (cp_local_uri p) (cp_origin p) (cp_cost p) (cp_flags p) (cp_mask p) (cp_expiration_period p) (cp_face_persistency p) (cp_strategy p) (cp_mtu p) x (cp_base_cong_interval p) (cp_def_cong_threshold p) (cp_capacity p) (cp_count p) (cp_fec_k p) (cp_fec_n p) (cp_fec_field p) (cp_fec_role p) (cp_rl_direction p) (cp_rl_interest_pps p) (cp_rl_interest_burst p) (cp_rl_data_bps p) (cp_rl_data_burst_bytes p) (cp_rl_overflow p) (cp_rl_queue_max p) (partial_failures p).
Definition set_base_cong_interval (x : option Z) (p : ControlParameters) : ControlParameters :=
  mkCP (cp_name p) (cp_face_id p) (cp_uri p) (cp_local_uri p) (cp_origin p) (cp_cost p) (cp_flags p) (cp_mask p) (cp_expiration_period p) (cp_face_persistency p) (cp_strategy p) (cp_mtu p) (cp_shm_control_token p) x (cp_def_cong_threshold p) (cp_capacity p) (cp_count p) (cp_fec_k p) (cp_fec_n p) (cp_fec_field p) (cp_fec_role p) (cp_rl_direction p) (cp_rl_interest_pps p) (cp_rl_interest_burst p) (cp_rl_data_bps p) (cp_rl_data_burst_bytes p) (cp_rl_overflow p) (cp_rl_queue_max p) (partial_failures p).
Definition set_def_cong_threshold (x : option Z) (p : ControlParameters) : ControlParameters :=
  mkCP (cp_name p) (cp_face_id p) (cp_uri p) (cp_local_uri p) (cp_origin p) (cp_cost p) (cp_flags p) (cp_mask p) (cp_expiration_period p) (cp_face_persistency p) (cp_strategy p) (cp_mtu p) (cp_shm_control_token p) (cp_base_cong_interval p) x (cp_capacity p) (cp_count p) (cp_fec_k p) (cp_fec_n p) (cp_fec_field p) (cp_fec_role p) (cp_rl_direction p) (cp_rl_interest_pps p) (cp_rl_interest_burst p) (cp_rl_data_bps p) (cp_rl_data_burst_bytes p) (cp_rl_overflow p) (cp_rl_queue_max p) (partial_failures p).
Definition set_capacity (x : option Z) (p : ControlParameters) : ControlParameters :=
  mkCP (cp_name p) (cp_face_id p) (cp_uri p) (cp_local_uri p) (cp_origin p) (cp_cost p) (cp_flags p) (cp_mask p) (cp_expiration_period p) (cp_face_persistency p) (cp_strategy p) (cp_mtu p) (cp_shm_control_token p) (cp_base_cong_interval p) (cp_def_cong_threshold p) x (cp_count p) (cp_fec_k p) (cp_fec_n p) (cp_fec_field p) (cp_fec_role p) (cp_rl_direction p) (cp_rl_interest_pps p) (cp_rl_interest_burst p) (cp_rl_data_bps p) (cp_rl_data_burst_bytes p) (cp_rl_overflow p) (cp_rl_queue_max p) (partial_failures p).
Definition set_count (x : option Z) (p : ControlParameters) : ControlParameters :=
  mkCP (cp_name p) (cp_face_id p) (cp_uri p) (cp_local_uri p) (cp_origin p) (cp_cost p) (cp_flags p) (cp_mask p) (cp_expiration_period p) (cp_face_persistency p) (cp_strategy p) (cp_mtu p) (cp_shm_control_token p) (cp_base_cong_interval p) (cp_def_cong_threshold p) (cp_capacity p) x (cp_fec_k p) (cp_fec_n p) (cp_fec_field p) (cp_fec_role p) (cp_rl_direction p) (cp_rl_interest_pps p) (cp_rl_interest_burst p) (cp_rl_data_bps p) (cp_rl_data_burst_bytes p) (cp_rl_overflow p) (cp_rl_queue_max p) (partial_failures p).
Definition set_fec_k (x : option Z) (p : ControlParameters) : ControlParameters :=
  mkCP (cp_name p) (cp_face_id p) (cp_uri p) (cp_local_uri p) (cp_origin p) (cp_cost p) (cp_flags p) (cp_mask p) (cp_expiration_period p) (cp_face_persistency p) (cp_strategy p) (cp_mtu p) (cp_shm_control_token p) (cp_base_cong_interval p) (cp_def_cong_threshold p) (cp_capacity p) (cp_count p) x (cp_fec_n p) (cp_fec_field p) (cp_fec_role p) (cp_rl_direction p) (cp_rl_interest_pps p) (cp_rl_interest_burst p) (cp_rl_data_bps p) (cp_rl_data_burst_bytes p) (cp_rl_overflow p) (cp_rl_queue_max p) (partial_failures p).
Definition set_fec_n (x : option Z) (p : ControlParameters) : ControlParameters :=
  mkCP (cp_name p) (cp_face_id p) (cp_uri p) (cp_local_uri p) (cp_origin p) (cp_cost p) (cp_flags p) (cp_mask p) (cp_expiration_period p) (cp_face_persistency p) (cp_strategy p) (cp_mtu p) (cp_shm_control_token p) (cp_base_cong_interval p) (cp_def_cong_threshold p) (cp_capacity p) (cp_count p) (cp_fec_k p) x (cp_fec_field p) (cp_fec_role p) (cp_rl_direction p) (cp_rl_interest_pps p) (cp_rl_interest_burst p) (cp_rl_data_bps p) (cp_rl_data_burst_bytes p) (cp_rl_overflow p) (cp_rl_queue_max p) (partial_failures p).
Definition set_fec_field (x : option Z) (p : ControlParameters) : ControlParameters :=
  mkCP (cp_name p) (cp_face_id p) (cp_uri p) (cp_local_uri p) (cp_origin p) (cp_cost p) (cp_flags p) (cp_mask p) (cp_expiration_period p) (cp_face_persistency p) (cp_strategy p) (cp_mtu p) (cp_shm_control_token p) (cp_base_cong_interval p) (cp_def_cong_threshold p) (cp_capacity p) (cp_count p) (cp_fec_k p) (cp_fec_n p) x (cp_fec_role p) (cp_rl_direction p) (cp_rl_interest_pps p) (cp_rl_interest_burst p) (cp_rl_data_bps p) (cp_rl_data_burst_bytes p) (cp_rl_overflow p) (cp_rl_queue_max p) (partial_failures p).
Definition set_fec_role (x : option Z) (p : ControlParameters) : ControlParameters :=
  mkCP (cp_name p) (cp_face_id p) (cp_uri p) (cp_local_uri p) (cp_origin p) (cp_cost p) (cp_flags p) (cp_mask p) (cp_expiration_period p) (cp_face_persistency p) (cp_strategy p) (cp_mtu p) (cp_shm_control_token p) (cp_base_cong_interval p) (cp_def_cong_threshold p) (cp_capacity p) (cp_count p) (cp_fec_k p) (cp_fec_n p) (cp_fec_field p) x (cp_rl_direction p) (cp_rl_interest_pps p) (cp_rl_interest_burst p) (cp_rl_data_bps p) (cp_rl_data_burst_bytes p) (cp_rl_overflow p) (cp_rl_queue_max p) (partial_failures p).
Definition set_rl_direction (x : option Z) (p : ControlParameters) : ControlParameters :=
  mkCP (cp_name p) (cp_face_id p) (cp_uri p) (cp_local_uri p) (cp_origin p) (cp_cost p) (cp_flags p) (cp_mask p) (cp_expiration_period p) (cp_face_persistency p) (cp_strategy p) (cp_mtu p) (cp_shm_control_token p) (cp_base_cong_interval p) (cp_def_cong_threshold p) (cp_capacity p) (cp_count p) (cp_fec_k p) (cp_fec_n p) (cp_fec_field p) (cp_fec_role p) x (cp_rl_interest_pps p) (cp_rl_interest_burst p) (cp_rl_data_bps p) (cp_rl_data_burst_bytes p) (cp_rl_overflow p) (cp_rl_queue_max p) (partial_failures p).
Definition set_rl_interest_pps (x : option Z) (p : ControlParameters) : ControlParameters :=
  mkCP (cp_name p) (cp_face_id p) (cp_uri p) (cp_local_uri p) (cp_origin p) (cp_cost p) (cp_flags p) (cp_mask p) (cp_expiration_period p) (cp_face_persistency p) (cp_strategy p) (cp_mtu p) (cp_shm_control_token p) (cp_base_cong_interval p) (cp_def_cong_threshold p) (cp_capacity p) (cp_count p) (cp_fec_k p) (cp_fec_n p) (cp_fec_field p) (cp_fec_role p) (cp_rl_direction p) x (cp_rl_interest_burst p) (cp_rl_data_bps p) (cp_rl_data_burst_bytes p) (cp_rl_overflow p) (cp_rl_queue_max p) (partial_failures p).
Definition set_rl_interest_burst (x : option Z) (p : ControlParameters) : ControlParameters :=
  mkCP (cp_name p) (cp_face_id p) (cp_uri p) (cp_local_uri p) (cp_origin p) (cp_cost p) (cp_flags p) (cp_mask p) (cp_expiration_period p) (cp_face_persistency p) (cp_strategy p) (cp_mtu p) (cp_shm_control_token p) (cp_base_cong_interval p) (cp_def_cong_threshold p) (cp_capacity p) (cp_count p) (cp_fec_k p) (cp_fec_n p) (cp_fec_field p) (cp_fec_role p) (cp_rl_direction p) (cp_rl_interest_pps p) x (cp_rl_data_bps p) (cp_rl_data_burst_bytes p) (cp_rl_overflow p) (cp_rl_queue_max p) (partial_failures p).
Definition set_rl_data_bps (x : option Z) (p : ControlParameters) : ControlParameters :=
  mkCP (cp_name p) (cp_face_id p) (cp_uri p) (cp_local_uri p) (cp_origin p) (cp_cost p) (cp_flags p) (cp_mask p) (cp_expiration_period p) (cp_face_persistency p) (cp_strategy p) (cp_mtu p) (cp_shm_control_token p) (cp_base_cong_interval p) (cp_def_cong_threshold p) (cp_capacity p) (cp_count p) (cp_fec_k p) (cp_fec_n p) (cp_fec_field p) (cp_fec_role p) (cp_rl_direction p) (cp_rl_interest_pps p) (cp_rl_interest_burst p) x (cp_rl_data_burst_bytes p) (cp_rl_overflow p) (cp_rl_queue_max p) (partial_failures p).
Definition set_rl_data_burst_bytes (x : option Z) (p : ControlParameters) : ControlParameters :=
  mkCP (cp_name p) (cp_face_id p) (cp_uri p) (cp_local_uri p) (cp_origin p) (cp_cost p) (cp_flags p) (cp_mask p) (cp_expiration_period p) (cp_face_persistency p) (cp_strategy p) (cp_mtu p) (cp_shm_control_token p) (cp_base_cong_interval p) (cp_def_cong_threshold p) (cp_capacity p) (cp_count p) (cp_fec_k p) (cp_fec_n p) (cp_fec_field p) (cp_fec_role p) (cp_rl_direction p) (cp_rl_interest_pps p) (cp_rl_interest_burst p) (cp_rl_data_bps p) x (cp_rl_overflow p) (cp_rl_queue_max p) (partial_failures p).
Definition set_rl_overflow (x : option Z) (p : ControlParameters) : ControlParameters :=
  mkCP (cp_name p) (cp_face_id p) (cp_uri p) (cp_local_uri p) (cp_origin p) (cp_cost p) (cp_flags p) (cp_mask p) (cp_expiration_period p) (cp_face_persistency p) (cp_strategy p) (cp_mtu p) (cp_shm_control_token p) (cp_base_cong_interval p) (cp_def_cong_threshold p) (cp_capacity p) (cp_count p) (cp_fec_k p) (cp_fec_n p) (cp_fec_field p) (cp_fec_role p) (cp_rl_direction p) (cp_rl_interest_pps p) (cp_rl_interest_burst p) (cp_rl_data_bps p) (cp_rl_data_burst_bytes p) x (cp_rl_queue_max p) (partial_failures p).
Definition set_rl_queue_max (x : option Z) (p : ControlParameters) : ControlParameters :=
  mkCP (cp_name p) (cp_face_id p) (cp_uri p) (cp_local_uri p) (cp_origin p) (cp_cost p) (cp_flags p) (cp_mask p) (cp_expiration_period p) (cp_face_persistency p) (cp_strategy p) (cp_mtu p) (cp_shm_control_token p) (cp_base_cong_interval p) (cp_def_cong_threshold p) (cp_capacity p) (cp_count p) (cp_fec_k p) (cp_fec_n p) (cp_fec_field p) (cp_fec_role p) (cp_rl_direction p) (cp_rl_interest_pps p) (cp_rl_interest_burst p) (cp_rl_data_bps p) (cp_rl_data_burst_bytes p) (cp_rl_overflow p) x (partial_failures p).
Definition set_failures (x : list (bytes * bytes)) (p : ControlParameters) : ControlParameters :=
  mkCP (cp_name p) (cp_face_id p) (cp_uri p) (cp_local_uri p) (cp_origin p) (cp_cost p) (cp_flags p) (cp_mask p) (cp_expiration_period p) (cp_face_persistency p) (cp_strategy p) (cp_mtu p) (cp_shm_control_token p) (cp_base_cong_interval p) (cp_def_cong_threshold p) (cp_capacity p) (cp_count p) (cp_fec_k p) (cp_fec_n p) (cp_fec_field p) (cp_fec_role p) (cp_rl_direction p) (cp_rl_interest_pps p) (cp_rl_interest_burst p) (cp_rl_data_bps p) (cp_rl_data_burst_bytes p) (cp_rl_overflow p) (cp_rl_queue_max p) x.

Definition encode_inner (p : ControlParameters) (w : TlvWriter.TlvWriter) : TlvWriter.TlvWriter :=
  let w := put (cp_name p) (fun v w => encode_name w v) w in
  let w := put (cp_face_id p) (fun v w => write_non_neg_int w cp_tlv.FACE_ID v) w in
  let w := put (cp_uri p) (fun v w => TlvWriter.write_tlv w cp_tlv.URI v) w in
  let w := put (cp_local_uri p) (fun v w => TlvWriter.write_tlv w cp_tlv.LOCAL_URI v) w in
  let w := put (cp_origin p) (fun v w => write_non_neg_int w cp_tlv.ORIGIN v) w in
  let w := put (cp_cost p) (fun v w => write_non_neg_int w cp_tlv.COST v) w in
  let w := put (cp_flags p) (fun v w => write_non_neg_int w cp_tlv.FLAGS v) w in
  let w := put (cp_mask p) (fun v w => write_non_neg_int w cp_tlv.MASK v) w in
  let w := put (cp_strategy p) (fun v w => TlvWriter.write_nested w cp_tlv.STRATEGY (fun w => encode_name w v)) w in
  let w := put (cp_expiration_period p) (fun v w => write_non_neg_int w cp_tlv.EXPIRATION_PERIOD v) w in
  let w := put (cp_face_persistency p) (fun v w => write_non_neg_int w cp_tlv.FACE_PERSISTENCY v) w in
  let w := put (cp_mtu p) (fun v w => write_non_neg_int w cp_tlv.MTU v) w in
  let w := put (cp_shm_control_token p) (fun v w => TlvWriter.write_tlv w cp_tlv.SHM_CONTROL_TOKEN v) w in
  let w := put (cp_base_cong_interval p) (fun v w => write_non_neg_int w cp_tlv.BASE_CONG_INTERVAL v) w in
  let w := put (cp_def_cong_threshold p) (fun v w => write_non_neg_int w cp_tlv.DEF_CONG_THRESHOLD v) w in
  let w := put (cp_capacity p) (fun v w => write_non_neg_int w cp_tlv.CAPACITY v) w in
  let w := put (cp_count p) (fun v w => write_non_neg_int w cp_tlv.COUNT v) w in
  let w := put (cp_fec_k p) (fun v w => write_non_neg_int w cp_tlv.FEC_K v) w in
  let w := put (cp_fec_n p) (fun v w => write_non_neg_int w cp_tlv.FEC_N v) w in
  let w := put (cp_fec_field p) (fun v w => TlvWriter.write_tlv w cp_tlv.FEC_FIELD [v]) w in
  let w := put (cp_fec_role p) (fun v w => TlvWriter.write_tlv w cp_tlv.FEC_ROLE [v]) w in
  let w := put (cp_rl_direction p) (fun v w => TlvWriter.write_tlv w cp_tlv.RL_DIRECTION [v]) w in
  let w := put (cp_rl_interest_pps p) (fun v w => write_non_neg_int w cp_tlv.RL_INTEREST_PPS v) w in
  let w := put (cp_rl_interest_burst p) (fun v w => write_non_neg_int w cp_tlv.RL_INTEREST_BURST v) w in
  let w := put (cp_rl_data_bps p) (fun v w => write_non_neg_int w cp_tlv.RL_DATA_BPS v) w in
  let w := put (cp_rl_data_burst_bytes p) (fun v w => write_non_neg_int w cp_tlv.RL_DATA_BURST_BYTES v) w in
  let w := put (cp_rl_overflow p) (fun v w => TlvWriter.write_tlv w cp_tlv.RL_OVERFLOW [v]) w in
  let w := put (cp_rl_queue_max p) (fun v w => write_non_neg_int w cp_tlv.RL_QUEUE_MAX v) w in
  match partial_failures p with
  | [] => w
  | fs => TlvWriter.write_nested w cp_tlv.PARTIAL_FAILURES (fun w =>
      fold_left (fun w f => TlvWriter.write_nested w cp_tlv.PARTIAL_FAILURE (fun w =>
        TlvWriter.write_tlv (TlvWriter.write_tlv w cp_tlv.OPTION_NAME f.1) cp_tlv.REFUSAL_REASON f.2)) fs w)
  end.

Definition encode (p : ControlParameters) : bytes :=
  TlvWriter.finish (TlvWriter.write_nested TlvWriter.new cp_tlv.CONTROL_PARAMETERS (encode_inner p)).
Definition encode_value (p : ControlParameters) : bytes := TlvWriter.finish (encode_inner p TlvWriter.new).

Definition decode_body (p : ControlParameters) (t : Z) (val : bytes) : result ControlParameters ControlParametersError :=
  if t =? cp_tlv.NAME then let? v := decode_name val in Ok (set_name (Some v) p)
  else if t =? cp_tlv.FACE_ID then let? v := read_non_neg_int val in Ok (set_face_id (Some v) p)
  else if t =? cp_tlv.URI then let? v := read_string val in Ok (set_uri (Some v) p)
  else if t =? cp_tlv.LOCAL_URI then let? v := read_string val in Ok (set_local_uri (Some v) p)
  else if t =? cp_tlv.ORIGIN then let? v := read_non_neg_int val in Ok (set_origin (Some v) p)
  else if t =? cp_tlv.COST then let? v := read_non_neg_int val in Ok (set_cost (Some v) p)
  else if t =? cp_tlv.FLAGS then let? v := read_non_neg_int val in Ok (set_flags (Some v) p)
  else if t =? cp_tlv.MASK then let? v := read_non_neg_int val in Ok (set_mask (Some v) p)
  else if t =? cp_tlv.EXPIRATION_PERIOD then let? v := read_non_neg_int val in Ok (set_expiration_period (Some v) p)
  else if t =? cp_tlv.FACE_PERSISTENCY then let? v := read_non_neg_int val in Ok (set_face_persistency (Some v) p)
  else if t =? cp_tlv.STRATEGY then let? v := read_strategy val in Ok (set_strategy (Some v) p)
  else if t =? cp_tlv.MTU then let? v := read_non_neg_int val in Ok (set_mtu (Some v) p)
  else if t =? cp_tlv.SHM_CONTROL_TOKEN then let? v := Ok val in Ok (set_shm_control_token (Some v) p)
  else if t =? cp_tlv.BASE_CONG_INTERVAL then let? v := read_non_neg_int val in Ok (set_base_cong_interval (Some v) p)
  else if t =? cp_tlv.DEF_CONG_THRESHOLD then let? v := read_non_neg_int val in Ok (set_def_cong_threshold (Some v) p)
  else if t =? cp_tlv.CAPACITY then let? v := read_non_neg_int val in Ok (set_capacity (Some v) p)
  else if t =? cp_tlv.COUNT then let? v := read_non_neg_int val in Ok (set_count (Some v) p)
  else if t =? cp_tlv.FEC_K then let? v := read_bounded u16_max val in Ok (set_fec_k (Some v) p)
  else if t =? cp_tlv.FEC_N then let? v := read_bounded u16_max val in Ok (set_fec_n (Some v) p)
  else if t =? cp_tlv.FEC_FIELD then let? v := read_byte val in Ok (set_fec_field (Some v) p)
  else if t =? cp_tlv.FEC_ROLE then let? v := read_byte val in Ok (set_fec_role (Some v) p)
  else if t =? cp_tlv.RL_DIRECTION then let? v := read_byte val in Ok (set_rl_direction (Some v) p)
  else if t =? cp_tlv.RL_INTEREST_PPS then let? v := read_bounded u32_max val in Ok (set_rl_interest_pps (Some v) p)
  else if t =? cp_tlv.RL_INTEREST_BURST then let? v := read_bounded u32_max val in Ok (set_rl_interest_burst (Some v) p)
  else if t =? cp_tlv.RL_DATA_BPS then let? v := read_non_neg_int val in Ok (set_rl_data_bps (Some v) p)
  else if t =? cp_tlv.RL_DATA_BURST_BYTES then let? v := read_non_neg_int val in Ok (set_rl_data_burst_bytes (Some v) p)
  else if t =? cp_tlv.RL_OVERFLOW then let? v := read_byte val in Ok (set_rl_overflow (Some v) p)
  else if t =? cp_tlv.RL_QUEUE_MAX then let? v := read_bounded u32_max val in Ok (set_rl_queue_max (Some v) p)
  else if t =? cp_tlv.PARTIAL_FAILURES then let? fs := tlv_each MalformedTlv failures_body val (partial_failures p) in Ok (set_failures fs p)
  else Ok p.

Definition decode_value (val : bytes) : result ControlParameters ControlParametersError := tlv_each MalformedTlv decode_body val default_.

Definition decode (wire : bytes) : result ControlParameters ControlParametersError :=
  match TlvReader.read_tlv (TlvReader.new wire) with
  | (Err _, _) => Err MalformedTlv
  | (Ok (t, val), _) => if negb (t =? cp_tlv.CONTROL_PARAMETERS) then Err (WrongType t) else decode_value val
  end.

(** The permissive reader of a stream of blocks. *)
Fixpoint decode_all_loop (fuel : nat) (reader : TlvReader.TlvReader) (out : list ControlParameters) : list ControlParameters :=
  match fuel with
  | O => out
  | S fuel =>
      if TlvReader.is_empty reader then out
      else match TlvReader.read_tlv reader with
           | (Err _, _) => out
           | (Ok (t, val), reader) =>
               if negb (t =? cp_tlv.CONTROL_PARAMETERS) then decode_all_loop fuel reader out
               else match decode_value val with
                    | Ok cp => decode_all_loop fuel reader (out ++ [cp])
                    | Err _ => decode_all_loop fuel reader out
                    end
           end
  end.
Definition decode_all (b : bytes) : list ControlParameters := decode_all_loop (S (length b)) (TlvReader.new b) [].

End ControlParameters.

(** ** [control_response.rs] *)

Module cr_tlv.
Definition CONTROL_RESPONSE : Z := 0x65.
Definition STATUS_CODE : Z := 0x66.
Definition STATUS_TEXT : Z := 0x67.
End cr_tlv.

Module status.
Definition OK : Z := 200.
Definition BAD_PARAMS : Z := 400.
Definition UNAUTHORIZED : Z := 403.
Definition NOT_FOUND : Z := 404.
Definition CONFLICT : Z := 409.
Definition LOCKED : Z := 423.
Definition SERVER_ERROR : Z := 500.
Definition NOT_IMPLEMENTED : Z := 501.
Definition SERVICE_UNAVAILABLE : Z := 503.
End status.

Record ControlResponse : Type := mkResponse { status_code : Z; status_text : bytes; body : option ControlParameters }.

Inductive ControlResponseError : Type :=
| CRMalformedTlv | CRWrongType (t : Z) | CRInvalidNonNegInt | CRInvalidUtf8 | CRMissingField (field : string).

Module ControlResponse.

Definition ok (text : bytes) (b : ControlParameters) : ControlResponse := mkResponse status.OK text (Some b).
Definition ok_empty (text : bytes) : ControlResponse := mkResponse status.OK text None.
Definition error (code : Z) (text : bytes) : ControlResponse := mkResponse code text None.
Definition is_ok (r : ControlResponse) : bool := (200 <=? status_code r) && (status_code r <? 300).

Definition encode (r : ControlResponse) : bytes :=
  TlvWriter.finish (TlvWriter.write_nested TlvWriter.new cr_tlv.CONTROL_RESPONSE (fun w =>
    let w := write_non_neg_int w cr_tlv.STATUS_CODE (status_code r) in
    let w := TlvWriter.write_tlv w cr_tlv.STATUS_TEXT (status_text r) in
    match body r with Some b => TlvWriter.write_raw w (ControlParameters.encode b) | None => w end)).

(** The local variables of the loop: the code, the text and the body. *)
Definition decode_body (s : option Z * option bytes * option ControlParameters) (t : Z) (val : bytes)
    : result (option Z * option bytes * option ControlParameters) ControlResponseError :=
  let '(code, text, body) := s in
  if t =? cr_tlv.STATUS_CODE then
    match read_non_neg_int val with Ok c => Ok (Some c, text, body) | Err _ => Err CRInvalidNonNegInt end
  else if t =? cr_tlv.STATUS_TEXT then
    if utf8_valid val then Ok (code, Some val, body) else Err CRInvalidUtf8
  else if t =? cp_tlv.CONTROL_PARAMETERS then
    match ControlParameters.decode_value val with Ok b => Ok (code, text, Some b) | Err _ => Err CRMalformedTlv end
  else Ok s.

Definition decode_value (val : bytes) : result ControlResponse ControlResponseError :=
  let? (code, text, body) := tlv_each CRMalformedTlv decode_body val (None, None, None) in
  let? code := ok_or code (CRMissingField "StatusCode") in
  let? text := ok_or text (CRMissingField "StatusText") in
  Ok (mkResponse code text body).

Definition decode (wire : bytes) : result ControlResponse ControlResponseError :=
  match TlvReader.read_tlv (TlvReader.new wire) with
  | (Err _, _) => Err CRMalformedTlv
  | (Ok (t, val), _) => if negb (t =? cr_tlv.CONTROL_RESPONSE) then Err (CRWrongType t) else decode_value val
  end.

End ControlResponse.

(** ** [nfd_command.rs] *)

Definition command_name (module verb : bytes) (params : ControlParameters) : Name :=
  [Component.generic (str "localhost"); Component.generic (str "nfd"); Component.generic module; Component.generic verb;
   Component.generic (ControlParameters.encode params)].

Definition dataset_name (module verb : bytes) : Name :=
  [Component.generic (str "localhost"); Component.generic (str "nfd"); Component.generic module; Component.generic verb].

Record ParsedCommand : Type := mkCommand { pc_module : bytes; pc_verb : bytes; pc_params : option ControlParameters }.

Definition parse_command_name (name : Name) : option ParsedCommand :=
  match name with
  | c0 :: c1 :: c2 :: c3 :: rest =>
      if (negb (bool_decide (value c0 = str "localhost")) && negb (bool_decide (value c0 = str "localhop"))) ||
         negb (bool_decide (value c1 = str "nfd")) then None
      else
        let params := match rest with
                      | c4 :: _ => match ControlParameters.decode (value c4) with Ok p => Some p | Err _ => None end
                      | [] => None
                      end in
        Some (mkCommand (value c2) (value c3) params)
  | _ => None
  end.

(** ** Loops on well-formed input *)

Fixpoint fold_each {S E} (body : S -> Z -> bytes -> result S E) (es : list elem) (s : S) : result S E :=
  match es with
  | [] => Ok s
  | (t, v) :: es => let? s := body s t v in fold_each body es s
  end.

Lemma tlv_loop_elems {S E} (mal : E) (body : S -> Z -> bytes -> result S E) es : forall fuel r s,
  TlvReader.wf r -> Forall wf_elem es -> TlvReader.as_bytes r = elems_wire es -> (length es < fuel)%nat ->
  tlv_loop fuel mal body r s = fold_each body es s.
Proof.
  induction es as [|[t v] es IH]; intros [|fuel] r s Hr Hes Hb Hf; try (cbn in Hf; lia); cbn [tlv_loop fold_each].
  - by rewrite read_empty.
  - destruct (read_elem r t v es Hr Hes Hb) as (-> & r' & -> & Hr' & _ & Hb' & _). destruct (body s t v) as [s'|]; [|done].
    apply Forall_cons in Hes as [_ Hes]. apply IH; [done|done|done|cbn in Hf; lia].
Qed.

Lemma tlv_each_elems {S E} (mal : E) (body : S -> Z -> bytes -> result S E) es s :
  Forall wf_elem es -> zlen (elems_wire es) <= usize_max -> tlv_each mal body (elems_wire es) s = fold_each body es s.
Proof.
  intros Hes Hl. apply tlv_loop_elems; [apply new_wf; [by apply wf_elems_wire|done]|done|apply as_bytes_new|]. pose proof (length_elems_wire es). lia.
Qed.

(** More fuel changes nothing: the loop always runs to its end. *)
Lemma tlv_loop_fuel {S E} (mal : E) (body : S -> Z -> bytes -> result S E) : forall fuel fuel' r s,
  TlvReader.wf r -> (length (TlvReader.as_bytes r) < fuel)%nat -> (length (TlvReader.as_bytes r) < fuel')%nat ->
  tlv_loop fuel mal body r s = tlv_loop fuel' mal body r s.
Proof.
  induction fuel as [|fuel IH]; intros [|fuel'] r s Hr Hf Hf'; try lia. cbn [tlv_loop]. destruct (TlvReader.is_empty r); [done|].
  destruct (TlvReader.read_tlv r) as [[[t v]|] r'] eqn:Hrd; [|done]. destruct (body s t v) as [s'|]; [|done].
  pose proof (read_tlv_shorter r t v r' Hr Hrd). pose proof (read_tlv_wf r Hr) as Hr'. rewrite Hrd in Hr'. apply IH; [done|lia|lia].
Qed.

(** ** The fields *)

Lemma encode_nni_bytes v : is_u64 v -> encode_non_neg_int v = nni_bytes v.
Proof.
  intros Hn. rewrite nni_bytes_spec. unfold encode_non_neg_int, nni_width, wrap. unfold_bounds.
  repeat bcase_step; try lia; rewrite ?Z.mod_small by lia; try done.
  change (be_encode 1 v) with [v mod 256]. by rewrite Z.mod_small by lia.
Qed.

Lemma zlen_encode_nni v : zlen (encode_non_neg_int v) <= 8.
Proof. unfold encode_non_neg_int. repeat bcase_step; rewrite ?zlen_be_encode; unfold zlen; cbn; lia. Qed.

Lemma wf_encode_nni v : wf_bytes (encode_non_neg_int v).
Proof.
  unfold encode_non_neg_int. repeat bcase_step; try apply wf_be_encode. apply Forall_singleton. unfold wrap.
  pose proof (Z.mod_pos_bound v (2 ^ 8) ltac:(lia)). unfold_bounds. lia.
Qed.

Lemma read_nni_ok v : is_u64 v -> read_non_neg_int (encode_non_neg_int v) = Ok v.
Proof.
  intros Hv. rewrite encode_nni_bytes, nni_bytes_spec by done. unfold read_non_neg_int. rewrite zlen_be_encode, be_decode_encode.
  replace (_ || _) with true by (unfold nni_width; by repeat bcase_step).
  f_equal. apply Z.mod_small. unfold nni_width. unfold_bounds. repeat bcase_step; cbn; lia.
Qed.

Lemma read_bounded_ok max v : is_u64 v -> v <= max -> read_bounded max (encode_non_neg_int v) = Ok v.
Proof. intros Hv Hm. unfold read_bounded. rewrite read_nni_ok by done. by rewrite (proj2 (Z.leb_le _ _)). Qed.
Lemma read_u16_ok v : is_u16 v -> read_bounded u16_max (encode_non_neg_int v) = Ok v.
Proof. intros Hv. apply read_bounded_ok; unfold_bounds; lia. Qed.
Lemma read_u32_ok v : is_u32 v -> read_bounded u32_max (encode_non_neg_int v) = Ok v.
Proof. intros Hv. apply read_bounded_ok; unfold_bounds; lia. Qed.

Definition one_byte (v : Z) : bytes := [v].
Lemma read_byte_ok v : read_byte (one_byte v) = Ok v.
Proof. done. Qed.

Definition string_ok (s : bytes) : Prop := utf8_valid s = true /\ wf_bytes s.
Lemma read_string_ok s : string_ok s -> read_string (id s) = Ok s.
Proof. intros [H _]. unfold read_string, id. by rewrite H. Qed.

Lemma fold_components n : forall acc, fold_each (fun cs t v => Ok (E := ControlParametersError) (cs ++ [mkComponent t v])) (map (fun c => (typ c, value c)) n) acc = Ok (acc ++ n).
Proof. induction n as [|c n IH]; intros acc; cbn [map fold_each]; [by rewrite app_nil_r|]. rewrite IH, <- app_assoc. by destruct c. Qed.

Lemma cp_decode_name_ok n : wf_name n -> zlen (name_wire n) <= usize_max -> decode_name (name_wire n) = Ok n.
Proof.
  intros Hn Hl. unfold decode_name. rewrite name_wire_elems in Hl |- *. rewrite tlv_each_elems; [|by apply Forall_map|done].
  rewrite fold_components. by destruct n.
Qed.

Definition strategy_wire (n : Name) : bytes := tlv_bytes cp_tlv.NAME (name_wire n).
Lemma read_strategy_ok n : wf_name n -> zlen (strategy_wire n) <= usize_max -> read_strategy (strategy_wire n) = Ok n.
Proof.
  intros Hn Hl. pose proof (tlv_size_bounds cp_tlv.NAME _ (zlen_nonneg (name_wire n))). unfold read_strategy.
  destruct (read_tlv_ok (TlvReader.new (strategy_wire n)) cp_tlv.NAME (name_wire n) []) as (r & -> & _).
  - apply new_wf; [|done]. apply wf_tlv_bytes; [done|by apply wf_name_wire].
  - by vm_compute.
  - rewrite as_bytes_new, app_nil_r. done.
  - rewrite Z.eqb_refl. cbn [negb]. apply cp_decode_name_ok; [done|]. unfold strategy_wire in Hl. rewrite zlen_tlv_bytes in Hl. lia.
Qed.

(** *** Partial failures *)

Definition failure_elem (f : bytes * bytes) : elem :=
  (cp_tlv.PARTIAL_FAILURE, elems_wire [(cp_tlv.OPTION_NAME, f.1); (cp_tlv.REFUSAL_REASON, f.2)]).
Definition failure_ok (f : bytes * bytes) : Prop := string_ok f.1 /\ string_ok f.2.

Lemma wf_failure_inner f : failure_ok f -> Forall wf_elem [(cp_tlv.OPTION_NAME, f.1); (cp_tlv.REFUSAL_REASON, f.2)].
Proof. intros [[_ H1] [_ H2]]. repeat (apply Forall_cons; split; [split; [by vm_compute|done]|]). constructor. Qed.

Lemma wf_failure f : failure_ok f -> wf_elem (failure_elem f).
Proof. intros H. split; [by vm_compute|]. by apply wf_elems_wire, wf_failure_inner. Qed.

Lemma elem_value_size t v es : (t, v) ∈ es -> zlen v <= zlen (elems_wire es).
Proof.
  intros (l1 & l2 & ->)%list_elem_of_split. rewrite elems_wire_app, elems_wire_cons, !zlen_app. cbn [fst snd]. rewrite zlen_tlv_bytes.
  pose proof (tlv_size_bounds t _ (zlen_nonneg v)). pose proof (zlen_nonneg (elems_wire l1)). pose proof (zlen_nonneg (elems_wire l2)). lia.
Qed.

Lemma fold_failures fs : forall acc, Forall failure_ok fs -> zlen (elems_wire (map failure_elem fs)) <= usize_max ->
  fold_each failures_body (map failure_elem fs) acc = Ok (acc ++ fs).
Proof.
  induction fs as [|f fs IH]; intros acc Hf Hl; cbn [map fold_each]; [by rewrite app_nil_r|]. apply Forall_cons in Hf as [Hf Hfs].
  cbn [failure_elem]. unfold failures_body at 1. rewrite Z.eqb_refl. cbn [negb].
  cbn [map] in Hl. rewrite elems_wire_cons, zlen_app in Hl. pose proof (zlen_nonneg (elems_wire (map failure_elem fs))).
  assert (zlen (failure_elem f).2 <= zlen (tlv_bytes (failure_elem f).1 (failure_elem f).2)) as Hz.
  { rewrite zlen_tlv_bytes. pose proof (tlv_size_bounds (failure_elem f).1 _ (zlen_nonneg (failure_elem f).2)). lia. }
  pose proof (zlen_nonneg (failure_elem f).2). rewrite tlv_each_elems; [|by apply wf_failure_inner|cbn [failure_elem snd] in *; lia].
  destruct Hf as [[H1 _] [H2 _]]. cbn [fold_each]. unfold failure_body, read_string. rewrite !Z.eqb_refl, H1, H2. cbn [fst snd].
  replace (cp_tlv.REFUSAL_REASON =? cp_tlv.OPTION_NAME) with false by done. cbn. rewrite IH by (done || lia). rewrite <- app_assoc. by destruct f.
Qed.

(** *** The block *)

Definition failures_elems (fs : list (bytes * bytes)) : list elem :=
  match fs with [] => [] | _ => [(cp_tlv.PARTIAL_FAILURES, elems_wire (map failure_elem fs))] end.

Definition cp_elems (p : ControlParameters) : list elem :=
  opt_elem cp_tlv.NAME (name_wire <$> cp_name p) ++
  opt_elem cp_tlv.FACE_ID (encode_non_neg_int <$> cp_face_id p) ++
  opt_elem cp_tlv.URI (id <$> cp_uri p) ++
  opt_elem cp_tlv.LOCAL_URI (id <$> cp_local_uri p) ++
  opt_elem cp_tlv.ORIGIN (encode_non_neg_int <$> cp_origin p) ++
  opt_elem cp_tlv.COST (encode_non_neg_int <$> cp_cost p) ++
  opt_elem cp_tlv.FLAGS (encode_non_neg_int <$> cp_flags p) ++
  opt_elem cp_tlv.MASK (encode_non_neg_int <$> cp_mask p) ++
  opt_elem cp_tlv.STRATEGY (strategy_wire <$> cp_strategy p) ++
  opt_elem cp_tlv.EXPIRATION_PERIOD (encode_non_neg_int <$> cp_expiration_period p) ++
  opt_elem cp_tlv.FACE_PERSISTENCY (encode_non_neg_int <$> cp_face_persistency p) ++
  opt_elem cp_tlv.MTU (encode_non_neg_int <$> cp_mtu p) ++
  opt_elem cp_tlv.SHM_CONTROL_TOKEN (id <$> cp_shm_control_token p) ++
  opt_elem cp_tlv.BASE_CONG_INTERVAL (encode_non_neg_int <$> cp_base_cong_interval p) ++
  opt_elem cp_tlv.DEF_CONG_THRESHOLD (encode_non_neg_int <$> cp_def_cong_threshold p) ++
  opt_elem cp_tlv.CAPACITY (encode_non_neg_int <$> cp_capacity p) ++
  opt_elem cp_tlv.COUNT (encode_non_neg_int <$> cp_count p) ++
  opt_elem cp_tlv.FEC_K (encode_non_neg_int <$> cp_fec_k p) ++
  opt_elem cp_tlv.FEC_N (encode_non_neg_int <$> cp_fec_n p) ++
  opt_elem cp_tlv.FEC_FIELD (one_byte <$> cp_fec_field p) ++
  opt_elem cp_tlv.FEC_ROLE (one_byte <$> cp_fec_role p) ++
  opt_elem cp_tlv.RL_DIRECTION (one_byte <$> cp_rl_direction p) ++
  opt_elem cp_tlv.RL_INTEREST_PPS (encode_non_neg_int <$> cp_rl_interest_pps p) ++
  opt_elem cp_tlv.RL_INTEREST_BURST (encode_non_neg_int <$> cp_rl_interest_burst p) ++
  opt_elem cp_tlv.RL_DATA_BPS (encode_non_neg_int <$> cp_rl_data_bps p) ++
  opt_elem cp_tlv.RL_DATA_BURST_BYTES (encode_non_neg_int <$> cp_rl_data_burst_bytes p) ++
  opt_elem cp_tlv.RL_OVERFLOW (one_byte <$> cp_rl_overflow p) ++
  opt_elem cp_tlv.RL_QUEUE_MAX (encode_non_neg_int <$> cp_rl_queue_max p) ++
  failures_elems (partial_failures p).

Record cp_ok (p : ControlParameters) : Prop := {
  ok_name : forall v, cp_name p = Some v -> wf_name v;
  ok_face_id : forall v, cp_face_id p = Some v -> is_u64 v;
  ok_uri : forall v, cp_uri p = Some v -> string_ok v;
  ok_local_uri : forall v, cp_local_uri p = Some v -> string_ok v;
  ok_origin : forall v, cp_origin p = Some v -> is_u64 v;
  ok_cost : forall v, cp_cost p = Some v -> is_u64 v;
  ok_flags : forall v, cp_flags p = Some v -> is_u64 v;
  ok_mask : forall v, cp_mask p = Some v -> is_u64 v;
  ok_strategy : forall v, cp_strategy p = Some v -> wf_name v;
  ok_expiration_period : forall v, cp_expiration_period p = Some v -> is_u64 v;
  ok_face_persistency : forall v, cp_face_persistency p = Some v -> is_u64 v;
  ok_mtu : forall v, cp_mtu p = Some v -> is_u64 v;
  ok_shm_control_token : forall v, cp_shm_control_token p = Some v -> wf_bytes v;
  ok_base_cong_interval : forall v, cp_base_cong_interval p = Some v -> is_u64 v;
  ok_def_cong_threshold : forall v, cp_def_cong_threshold p = Some v -> is_u64 v;
  ok_capacity : forall v, cp_capacity p = Some v -> is_u64 v;
  ok_count : forall v, cp_count p = Some v -> is_u64 v;
  ok_fec_k : forall v, cp_fec_k p = Some v -> is_u16 v;
  ok_fec_n : forall v, cp_fec_n p = Some v -> is_u16 v;
  ok_fec_field : forall v, cp_fec_field p = Some v -> is_u8 v;
  ok_fec_role : forall v, cp_fec_role p = Some v -> is_u8 v;
  ok_rl_direction : forall v, cp_rl_direction p = Some v -> is_u8 v;
  ok_rl_interest_pps : forall v, cp_rl_interest_pps p = Some v -> is_u32 v;
  ok_rl_interest_burst : forall v, cp_rl_interest_burst p = Some v -> is_u32 v;
  ok_rl_data_bps : forall v, cp_rl_data_bps p = Some v -> is_u64 v;
  ok_rl_data_burst_bytes : forall v, cp_rl_data_burst_bytes p = Some v -> is_u64 v;
  ok_rl_overflow : forall v, cp_rl_overflow p = Some v -> is_u8 v;
  ok_rl_queue_max : forall v, cp_rl_queue_max p = Some v -> is_u32 v;
  ok_failures : Forall failure_ok (partial_failures p);
  ok_size : zlen (elems_wire (cp_elems p)) + 100 <= usize_max
}.

(** A field that is absent so far. *)
Lemma field_step {S E A} (body : S -> Z -> bytes -> result S E) t (enc : A -> bytes) (get : S -> option A) (set : option A -> S -> S) x rest p :
  get p = None -> (forall p, get p = None -> set None p = p) ->
  (forall a, x = Some a -> body p t (enc a) = Ok (set (Some a) p)) ->
  fold_each body (opt_elem t (enc <$> x) ++ rest) p = fold_each body rest (set x p).
Proof.
  intros Hg Hn Hd. destruct x as [a|]; cbn [fmap option_fmap option_map opt_elem app fold_each]; [by rewrite Hd|]. by rewrite Hn.
Qed.

Lemma put_step {A} (f : A -> TlvWriter.TlvWriter -> TlvWriter.TlvWriter) t (enc : A -> bytes) o w es :
  TlvWriter.buf w = elems_wire es ->
  (forall a, o = Some a -> TlvWriter.buf w = elems_wire es -> TlvWriter.buf (f a w) = elems_wire (es ++ [(t, enc a)])) ->
  TlvWriter.buf (put o f w) = elems_wire (es ++ opt_elem t (enc <$> o)).
Proof. intros Hw Hf. destruct o as [a|]; cbn; [by apply Hf|by rewrite app_nil_r]. Qed.

Lemma encode_name_elems w es n : TlvWriter.buf w = elems_wire es -> wf_name n -> zlen (name_wire n) <= usize_max ->
  TlvWriter.buf (encode_name w n) = elems_wire (es ++ [(cp_tlv.NAME, name_wire n)]).
Proof.
  intros Hw Hn Hl. unfold encode_name. apply write_nested_elems; [done|by vm_compute| |unfold_bounds; lia].
  exact (write_components_wire n Hn Hl).
Qed.

Lemma write_failures fs : forall w es, TlvWriter.buf w = elems_wire es -> zlen (elems_wire (map failure_elem fs)) <= usize_max ->
  TlvWriter.buf (fold_left (fun w f => TlvWriter.write_nested w cp_tlv.PARTIAL_FAILURE (fun w =>
    TlvWriter.write_tlv (TlvWriter.write_tlv w cp_tlv.OPTION_NAME f.1) cp_tlv.REFUSAL_REASON f.2)) fs w) = elems_wire (es ++ map failure_elem fs).
Proof.
  induction fs as [|f fs IH]; intros w es Hw Hl; cbn [fold_left map]; [by rewrite app_nil_r|].
  pose proof (elem_value_size _ _ (map failure_elem (f :: fs)) ltac:(by left)) as H1. cbn [failure_elem map] in H1.
  pose proof (elem_value_size _ _ [(cp_tlv.OPTION_NAME, f.1); (cp_tlv.REFUSAL_REASON, f.2)] ltac:(by left)) as H2.
  pose proof (elem_value_size cp_tlv.REFUSAL_REASON f.2 [(cp_tlv.OPTION_NAME, f.1); (cp_tlv.REFUSAL_REASON, f.2)] ltac:(right; by left)) as H3.
  cbn [map] in Hl, H1. rewrite (cons_middle (failure_elem f)), app_assoc. apply IH.
  - apply write_nested_elems; [done|by vm_compute| |unfold_bounds; lia].
    apply (write_tlv_elems _ [(cp_tlv.OPTION_NAME, f.1)]); [|by vm_compute|unfold_bounds; lia].
    apply (write_tlv_elems _ []); [done|by vm_compute|unfold_bounds; lia].
  - rewrite elems_wire_cons, zlen_app in Hl. pose proof (zlen_nonneg (tlv_bytes (failure_elem f).1 (failure_elem f).2)). lia.
Qed.

(** The tactics of the generic steps over the fields. *)
Ltac in_block Ha := unfold cp_elems; rewrite Ha; cbn [fmap option_fmap option_map]; repeat (apply elem_of_app; first [left; by left|right]).
Ltac open_body := cbv beta iota delta [ControlParameters.decode_body Z.eqb Pos.eqb cp_tlv.CONTROL_PARAMETERS cp_tlv.FACE_ID cp_tlv.COST cp_tlv.STRATEGY cp_tlv.FLAGS cp_tlv.EXPIRATION_PERIOD cp_tlv.ORIGIN cp_tlv.MASK cp_tlv.URI cp_tlv.LOCAL_URI cp_tlv.CAPACITY cp_tlv.COUNT cp_tlv.FACE_PERSISTENCY cp_tlv.BASE_CONG_INTERVAL cp_tlv.DEF_CONG_THRESHOLD cp_tlv.MTU cp_tlv.FEC_K cp_tlv.FEC_N cp_tlv.FEC_FIELD cp_tlv.FEC_ROLE cp_tlv.PARTIAL_FAILURES cp_tlv.PARTIAL_FAILURE cp_tlv.OPTION_NAME cp_tlv.REFUSAL_REASON cp_tlv.RL_DIRECTION cp_tlv.RL_INTEREST_PPS cp_tlv.RL_INTEREST_BURST cp_tlv.RL_DATA_BPS cp_tlv.RL_DATA_BURST_BYTES cp_tlv.RL_OVERFLOW cp_tlv.RL_QUEUE_MAX cp_tlv.SHM_CONTROL_TOKEN cp_tlv.NAME].
Ltac field_get := reflexivity.
Ltac field_none := intros []; cbn; by intros ->.

Section block.
Context (p : ControlParameters) (Hp : cp_ok p).

Lemma block_value t v : (t, v) ∈ cp_elems p -> zlen v + 100 <= usize_max.
Proof. intros H%elem_value_size. pose proof (ok_size p Hp). lia. Qed.

Lemma failures_size : zlen (elems_wire (map failure_elem (partial_failures p))) + 100 <= usize_max.
Proof.
  destruct (partial_failures p) as [|f fs] eqn:Ef; [by vm_compute|]. rewrite <- Ef. apply (block_value cp_tlv.PARTIAL_FAILURES).
  unfold cp_elems, failures_elems. rewrite Ef. repeat (apply elem_of_app; right). by left.
Qed.

Ltac field_read H := intros a Ha; pose proof (H a Ha) as Hv; open_body; unfold one_byte, id;
  first [rewrite read_nni_ok by exact Hv|rewrite read_u16_ok by exact Hv|rewrite read_u32_ok by exact Hv|
         rewrite (read_string_ok a Hv : read_string a = Ok a)|
         (rewrite cp_decode_name_ok; [|exact Hv|pose proof (block_value cp_tlv.NAME (name_wire a) ltac:(in_block Ha)); lia])|
         (rewrite read_strategy_ok; [|exact Hv|pose proof (block_value cp_tlv.STRATEGY (strategy_wire a) ltac:(in_block Ha)); lia])|
         idtac]; reflexivity.

Lemma fold_block : fold_each ControlParameters.decode_body (cp_elems p) ControlParameters.default_ = Ok p.
Proof.
  unfold cp_elems.
  rewrite (field_step ControlParameters.decode_body cp_tlv.NAME name_wire cp_name ControlParameters.set_name); [|field_get|field_none|field_read (ok_name p Hp)].
  rewrite (field_step ControlParameters.decode_body cp_tlv.FACE_ID encode_non_neg_int cp_face_id ControlParameters.set_face_id); [|field_get|field_none|field_read (ok_face_id p Hp)].
  rewrite (field_step ControlParameters.decode_body cp_tlv.URI id cp_uri ControlParameters.set_uri); [|field_get|field_none|field_read (ok_uri p Hp)].
  rewrite (field_step ControlParameters.decode_body cp_tlv.LOCAL_URI id cp_local_uri ControlParameters.set_local_uri); [|field_get|field_none|field_read (ok_local_uri p Hp)].
  rewrite (field_step ControlParameters.decode_body cp_tlv.ORIGIN encode_non_neg_int cp_origin ControlParameters.set_origin); [|field_get|field_none|field_read (ok_origin p Hp)].
  rewrite (field_step ControlParameters.decode_body cp_tlv.COST encode_non_neg_int cp_cost ControlParameters.set_cost); [|field_get|field_none|field_read (ok_cost p Hp)].
  rewrite (field_step ControlParameters.decode_body cp_tlv.FLAGS encode_non_neg_int cp_flags ControlParameters.set_flags); [|field_get|field_none|field_read (ok_flags p Hp)].
  rewrite (field_step ControlParameters.decode_body cp_tlv.MASK encode_non_neg_int cp_mask ControlParameters.set_mask); [|field_get|field_none|field_read (ok_mask p Hp)].
  rewrite (field_step ControlParameters.decode_body cp_tlv.STRATEGY strategy_wire cp_strategy ControlParameters.set_strategy); [|field_get|field_none|field_read (ok_strategy p Hp)].
  rewrite (field_step ControlParameters.decode_body cp_tlv.EXPIRATION_PERIOD encode_non_neg_int cp_expiration_period ControlParameters.set_expiration_period); [|field_get|field_none|field_read (ok_expiration_period p Hp)].
  rewrite (field_step ControlParameters.decode_body cp_tlv.FACE_PERSISTENCY encode_non_neg_int cp_face_persistency ControlParameters.set_face_persistency); [|field_get|field_none|field_read (ok_face_persistency p Hp)].
  rewrite (field_step ControlParameters.decode_body cp_tlv.MTU encode_non_neg_int cp_mtu ControlParameters.set_mtu); [|field_get|field_none|field_read (ok_mtu p Hp)].
  rewrite (field_step ControlParameters.decode_body cp_tlv.SHM_CONTROL_TOKEN id cp_shm_control_token ControlParameters.set_shm_control_token); [|field_get|field_none|field_read (ok_shm_control_token p Hp)].
  rewrite (field_step ControlParameters.decode_body cp_tlv.BASE_CONG_INTERVAL encode_non_neg_int cp_base_cong_interval ControlParameters.set_base_cong_interval); [|field_get|field_none|field_read (ok_base_cong_interval p Hp)].
  rewrite (field_step ControlParameters.decode_body cp_tlv.DEF_CONG_THRESHOLD encode_non_neg_int cp_def_cong_threshold ControlParameters.set_def_cong_threshold); [|field_get|field_none|field_read (ok_def_cong_threshold p Hp)].
  rewrite (field_step ControlParameters.decode_body cp_tlv.CAPACITY encode_non_neg_int cp_capacity ControlParameters.set_capacity); [|field_get|field_none|field_read (ok_capacity p Hp)].
  rewrite (field_step ControlParameters.decode_body cp_tlv.COUNT encode_non_neg_int cp_count ControlParameters.set_count); [|field_get|field_none|field_read (ok_count p Hp)].
  rewrite (field_step ControlParameters.decode_body cp_tlv.FEC_K encode_non_neg_int cp_fec_k ControlParameters.set_fec_k); [|field_get|field_none|field_read (ok_fec_k p Hp)].
  rewrite (field_step ControlParameters.decode_body cp_tlv.FEC_N encode_non_neg_int cp_fec_n ControlParameters.set_fec_n); [|field_get|field_none|field_read (ok_fec_n p Hp)].
  rewrite (field_step ControlParameters.decode_body cp_tlv.FEC_FIELD one_byte cp_fec_field ControlParameters.set_fec_field); [|field_get|field_none|field_read (ok_fec_field p Hp)].
  rewrite (field_step ControlParameters.decode_body cp_tlv.FEC_ROLE one_byte cp_fec_role ControlParameters.set_fec_role); [|field_get|field_none|field_read (ok_fec_role p Hp)].
  rewrite (field_step ControlParameters.decode_body cp_tlv.RL_DIRECTION one_byte cp_rl_direction ControlParameters.set_rl_direction); [|field_get|field_none|field_read (ok_rl_direction p Hp)].
  rewrite (field_step ControlParameters.decode_body cp_tlv.RL_INTEREST_PPS encode_non_neg_int cp_rl_interest_pps ControlParameters.set_rl_interest_pps); [|field_get|field_none|field_read (ok_rl_interest_pps p Hp)].
  rewrite (field_step ControlParameters.decode_body cp_tlv.RL_INTEREST_BURST encode_non_neg_int cp_rl_interest_burst ControlParameters.set_rl_interest_burst); [|field_get|field_none|field_read (ok_rl_interest_burst p Hp)].
  rewrite (field_step ControlParameters.decode_body cp_tlv.RL_DATA_BPS encode_non_neg_int cp_rl_data_bps ControlParameters.set_rl_data_bps); [|field_get|field_none|field_read (ok_rl_data_bps p Hp)].
  rewrite (field_step ControlParameters.decode_body cp_tlv.RL_DATA_BURST_BYTES encode_non_neg_int cp_rl_data_burst_bytes ControlParameters.set_rl_data_burst_bytes); [|field_get|field_none|field_read (ok_rl_data_burst_bytes p Hp)].
  rewrite (field_step ControlParameters.decode_body cp_tlv.RL_OVERFLOW one_byte cp_rl_overflow ControlParameters.set_rl_overflow); [|field_get|field_none|field_read (ok_rl_overflow p Hp)].
  rewrite (field_step ControlParameters.decode_body cp_tlv.RL_QUEUE_MAX encode_non_neg_int cp_rl_queue_max ControlParameters.set_rl_queue_max); [|field_get|field_none|field_read (ok_rl_queue_max p Hp)].
  pose proof failures_size as Hf. pose proof (ok_failures p Hp) as Hok.
  assert (forall q, partial_failures q = [] -> fold_each ControlParameters.decode_body (failures_elems (partial_failures p)) q =
    Ok (ControlParameters.set_failures (partial_failures p) q)) as Hfold.
  { intros q Hq. destruct (partial_failures p) as [|f fs] eqn:Ef; cbn [failures_elems fold_each].
    - destruct q. cbn in Hq |- *. by rewrite Hq.
    - open_body. rewrite Hq, tlv_each_elems; [|apply Forall_map; eapply Forall_impl; [exact Hok|apply wf_failure]|lia].
      rewrite fold_failures by (done || lia). done. }
  rewrite Hfold by reflexivity. by destruct p.
Qed.

Ltac field_wf H := intros v (a & Ha & ->)%fmap_Some; pose proof (H a Ha) as Hok;
  first [apply wf_encode_nni|by apply wf_name_wire|exact Hok|apply Hok|by apply Forall_singleton|by apply wf_tlv_bytes, wf_name_wire].

Lemma wf_block : Forall wf_elem (cp_elems p).
Proof.
  unfold cp_elems.
  apply Forall_app. split; [apply wf_opt_elem; [by vm_compute|]; field_wf (ok_name p Hp)|].
  apply Forall_app. split; [apply wf_opt_elem; [by vm_compute|]; field_wf (ok_face_id p Hp)|].
  apply Forall_app. split; [apply wf_opt_elem; [by vm_compute|]; field_wf (ok_uri p Hp)|].
  apply Forall_app. split; [apply wf_opt_elem; [by vm_compute|]; field_wf (ok_local_uri p Hp)|].
  apply Forall_app. split; [apply wf_opt_elem; [by vm_compute|]; field_wf (ok_origin p Hp)|].
  apply Forall_app. split; [apply wf_opt_elem; [by vm_compute|]; field_wf (ok_cost p Hp)|].
  apply Forall_app. split; [apply wf_opt_elem; [by vm_compute|]; field_wf (ok_flags p Hp)|].
  apply Forall_app. split; [apply wf_opt_elem; [by vm_compute|]; field_wf (ok_mask p Hp)|].
  apply Forall_app. split; [apply wf_opt_elem; [by vm_compute|]; field_wf (ok_strategy p Hp)|].
  apply Forall_app. split; [apply wf_opt_elem; [by vm_compute|]; field_wf (ok_expiration_period p Hp)|].
  apply Forall_app. split; [apply wf_opt_elem; [by vm_compute|]; field_wf (ok_face_persistency p Hp)|].
  apply Forall_app. split; [apply wf_opt_elem; [by vm_compute|]; field_wf (ok_mtu p Hp)|].
  apply Forall_app. split; [apply wf_opt_elem; [by vm_compute|]; field_wf (ok_shm_control_token p Hp)|].
  apply Forall_app. split; [apply wf_opt_elem; [by vm_compute|]; field_wf (ok_base_cong_interval p Hp)|].
  apply Forall_app. split; [apply wf_opt_elem; [by vm_compute|]; field_wf (ok_def_cong_threshold p Hp)|].
  apply Forall_app. split; [apply wf_opt_elem; [by vm_compute|]; field_wf (ok_capacity p Hp)|].
  apply Forall_app. split; [apply wf_opt_elem; [by vm_compute|]; field_wf (ok_count p Hp)|].
  apply Forall_app. split; [apply wf_opt_elem; [by vm_compute|]; field_wf (ok_fec_k p Hp)|].
  apply Forall_app. split; [apply wf_opt_elem; [by vm_compute|]; field_wf (ok_fec_n p Hp)|].
  apply Forall_app. split; [apply wf_opt_elem; [by vm_compute|]; field_wf (ok_fec_field p Hp)|].
  apply Forall_app. split; [apply wf_opt_elem; [by vm_compute|]; field_wf (ok_fec_role p Hp)|].
  apply Forall_app. split; [apply wf_opt_elem; [by vm_compute|]; field_wf (ok_rl_direction p Hp)|].
  apply Forall_app. split; [apply wf_opt_elem; [by vm_compute|]; field_wf (ok_rl_interest_pps p Hp)|].
  apply Forall_app. split; [apply wf_opt_elem; [by vm_compute|]; field_wf (ok_rl_interest_burst p Hp)|].
  apply Forall_app. split; [apply wf_opt_elem; [by vm_compute|]; field_wf (ok_rl_data_bps p Hp)|].
  apply Forall_app. split; [apply wf_opt_elem; [by vm_compute|]; field_wf (ok_rl_data_burst_bytes p Hp)|].
  apply Forall_app. split; [apply wf_opt_elem; [by vm_compute|]; field_wf (ok_rl_overflow p Hp)|].
  apply Forall_app. split; [apply wf_opt_elem; [by vm_compute|]; field_wf (ok_rl_queue_max p Hp)|].
  destruct (partial_failures p) as [|f fs] eqn:Ef; cbn [failures_elems]; [constructor|]. apply Forall_singleton. split; [by vm_compute|].
  apply wf_elems_wire, Forall_map. rewrite <- Ef. eapply Forall_impl; [apply (ok_failures p Hp)|apply wf_failure].
Qed.

Lemma encode_inner_elems w es : TlvWriter.buf w = elems_wire es -> TlvWriter.buf (ControlParameters.encode_inner p w) = elems_wire (es ++ cp_elems p).
Proof.
  intros Hw. unfold ControlParameters.encode_inner, cp_elems. cbv zeta. rewrite !app_assoc.
  match goal with |- TlvWriter.buf (match _ with [] => ?w' | _ => _ end) = elems_wire (?es' ++ _) => assert (TlvWriter.buf w' = elems_wire es') as Hin end.
  { repeat (apply put_step; [|intros a Ha Hb]); [exact Hw|..].
    all: match goal with |- _ = elems_wire (_ ++ [(?t, ?v)]) => pose proof (block_value t v ltac:(in_block Ha)) as Hsz end; unfold id, one_byte in Hsz.
    all: cbv beta; unfold write_non_neg_int, id, one_byte; first [(apply write_tlv_elems; [exact Hb|by vm_compute|unfold_bounds; lia])|idtac].
    - apply encode_name_elems; [exact Hb|by eapply ok_name|lia].
    - unfold strategy_wire in Hsz. rewrite zlen_tlv_bytes in Hsz. pose proof (tlv_size_bounds cp_tlv.NAME _ (zlen_nonneg (name_wire a))).
      apply write_nested_elems; [exact Hb|by vm_compute| |unfold strategy_wire; rewrite zlen_tlv_bytes; unfold_bounds; lia].
      rewrite (encode_name_elems TlvWriter.new []); [|done|by eapply ok_strategy|lia]. apply elems_wire_one. }
  pose proof failures_size as Hf. destruct (partial_failures p) as [|f fs] eqn:Ef; cbn [failures_elems]; [by rewrite app_nil_r|].
  apply write_nested_elems; [exact Hin|by vm_compute| |unfold_bounds; lia]. apply (write_failures (f :: fs) TlvWriter.new []); [done|lia].
Qed.

End block.

Lemma encode_value_spec p : cp_ok p -> ControlParameters.encode_value p = elems_wire (cp_elems p).
Proof. intros Hp. exact (encode_inner_elems p Hp TlvWriter.new [] eq_refl). Qed.

Lemma encode_spec p : cp_ok p -> ControlParameters.encode p = tlv_bytes cp_tlv.CONTROL_PARAMETERS (elems_wire (cp_elems p)).
Proof.
  intros Hp. pose proof (ok_size p Hp). unfold ControlParameters.encode, TlvWriter.finish.
  rewrite (write_nested_elems _ [] _ _ (elems_wire (cp_elems p))); [apply elems_wire_one|done|by vm_compute|exact (encode_value_spec p Hp)|unfold_bounds; lia].
Qed.

Lemma decode_value_spec p : cp_ok p -> ControlParameters.decode_value (elems_wire (cp_elems p)) = Ok p.
Proof.
  intros Hp. pose proof (ok_size p Hp). unfold ControlParameters.decode_value. rewrite tlv_each_elems; [by apply fold_block|by apply wf_block|lia].
Qed.

Lemma decode_encode_cp p : cp_ok p -> ControlParameters.decode (ControlParameters.encode p) = Ok p.
Proof.
  intros Hp. pose proof (ok_size p Hp). rewrite encode_spec by done. unfold ControlParameters.decode.
  pose proof (tlv_size_bounds cp_tlv.CONTROL_PARAMETERS _ (zlen_nonneg (elems_wire (cp_elems p)))).
  destruct (read_tlv_ok (TlvReader.new (tlv_bytes cp_tlv.CONTROL_PARAMETERS (elems_wire (cp_elems p)))) cp_tlv.CONTROL_PARAMETERS (elems_wire (cp_elems p)) []) as (r & -> & _).
  - apply new_wf; [apply wf_tlv_bytes; [done|by apply wf_elems_wire, wf_block]|rewrite zlen_tlv_bytes; lia].
  - by vm_compute.
  - by rewrite as_bytes_new, app_nil_r.
  - rewrite Z.eqb_refl. by apply decode_value_spec.
Qed.

(** The elements of a response. *)
Definition response_elems (r : ControlResponse) : list elem :=
  [(cr_tlv.STATUS_CODE, encode_non_neg_int (status_code r)); (cr_tlv.STATUS_TEXT, status_text r)] ++
  opt_elem cp_tlv.CONTROL_PARAMETERS ((fun b => elems_wire (cp_elems b)) <$> body r).

Record response_ok (r : ControlResponse) : Prop := {
  rk_code : is_u64 (status_code r);
  rk_text : string_ok (status_text r);
  rk_body : forall b, body r = Some b -> cp_ok b;
  rk_size : zlen (elems_wire (response_elems r)) + 100 <= usize_max
}.

Section response.
Context (r : ControlResponse) (Hr : response_ok r).

Lemma wf_response : Forall wf_elem (response_elems r).
Proof.
  apply Forall_app. split.
  - apply Forall_cons. split; [split; [by vm_compute|apply wf_encode_nni]|]. apply Forall_singleton. split; [by vm_compute|apply (rk_text r Hr)].
  - apply wf_opt_elem; [by vm_compute|]. intros v (b & Hb & ->)%fmap_Some. by apply wf_elems_wire, wf_block, (rk_body r Hr).
Qed.

Lemma response_wire : ControlResponse.encode r = tlv_bytes cr_tlv.CONTROL_RESPONSE (elems_wire (response_elems r)).
Proof.
  pose proof (rk_size r Hr) as Hz. pose proof (elem_value_size cr_tlv.STATUS_TEXT (status_text r) (response_elems r) ltac:(right; by left)) as Ht.
  unfold ControlResponse.encode, TlvWriter.finish.
  rewrite (write_nested_elems _ [] _ _ (elems_wire (response_elems r))); [apply elems_wire_one|done|by vm_compute| |unfold_bounds; lia]. cbv beta zeta.
  match goal with |- context [match body r with Some _ => _ | None => ?w0 end] => set (w1 := w0) end.
  assert (TlvWriter.buf w1 = elems_wire [(cr_tlv.STATUS_CODE, encode_non_neg_int (status_code r)); (cr_tlv.STATUS_TEXT, status_text r)]) as Hw.
  { apply (write_tlv_elems _ [(cr_tlv.STATUS_CODE, encode_non_neg_int (status_code r))]); [|by vm_compute|unfold_bounds; lia].
    apply (write_tlv_elems _ []); [done|by vm_compute|]. pose proof (zlen_encode_nni (status_code r)). unfold_bounds. lia. }
  unfold response_elems. rewrite elems_wire_app. destruct (body r) as [b|] eqn:Eb; cbn [fmap option_fmap option_map opt_elem]; [|by rewrite Hw, app_nil_r].
  unfold TlvWriter.write_raw. cbn [TlvWriter.buf]. rewrite Hw, encode_spec by by apply (rk_body r Hr). by rewrite elems_wire_one.
Qed.

Lemma decode_encode_response : ControlResponse.decode (ControlResponse.encode r) = Ok r.
Proof.
  pose proof (rk_size r Hr) as Hz. rewrite response_wire. unfold ControlResponse.decode.
  pose proof (tlv_size_bounds cr_tlv.CONTROL_RESPONSE _ (zlen_nonneg (elems_wire (response_elems r)))).
  destruct (read_tlv_ok (TlvReader.new (tlv_bytes cr_tlv.CONTROL_RESPONSE (elems_wire (response_elems r)))) cr_tlv.CONTROL_RESPONSE (elems_wire (response_elems r)) []) as (r' & -> & _).
  { apply new_wf; [apply wf_tlv_bytes; [done|apply wf_elems_wire, wf_response]|rewrite zlen_tlv_bytes; lia]. }
  { by vm_compute. }
  { by rewrite as_bytes_new, app_nil_r. }
  rewrite Z.eqb_refl. cbn [negb]. unfold ControlResponse.decode_value. rewrite tlv_each_elems; [|apply wf_response|lia].
  unfold response_elems. cbn [app fold_each]. unfold ControlResponse.decode_body at 1. rewrite Z.eqb_refl, read_nni_ok by apply Hr.
  unfold ControlResponse.decode_body at 1. replace (cr_tlv.STATUS_TEXT =? cr_tlv.STATUS_CODE) with false by done. rewrite Z.eqb_refl, (proj1 (rk_text r Hr)).
  destruct (body r) as [b|] eqn:Eb; cbn [fmap option_fmap option_map opt_elem fold_each].
  - unfold ControlResponse.decode_body. replace (cp_tlv.CONTROL_PARAMETERS =? cr_tlv.STATUS_CODE) with false by done.
    replace (cp_tlv.CONTROL_PARAMETERS =? cr_tlv.STATUS_TEXT) with false by done. rewrite Z.eqb_refl, decode_value_spec by by apply (rk_body r Hr).
    cbn [ok_or]. rewrite <- Eb. by destruct r.
  - cbn [ok_or]. rewrite <- Eb. by destruct r.
Qed.
End response.

(** A stream of blocks. *)
Lemma decode_all_stream ps : forall fuel r acc, TlvReader.wf r -> Forall cp_ok ps ->
  TlvReader.as_bytes r = concat (map ControlParameters.encode ps) -> (length ps < fuel)%nat ->
  ControlParameters.decode_all_loop fuel r acc = acc ++ ps.
Proof.
  induction ps as [|p ps IH]; intros [|fuel] r acc Hr Hps Hb Hf; try (cbn in Hf; lia); cbn [ControlParameters.decode_all_loop].
  - rewrite read_empty by done. by rewrite app_nil_r.
  - apply Forall_cons in Hps as [Hp Hps]. cbn [map concat] in Hb. rewrite encode_spec in Hb by done.
    destruct (TlvReader.is_empty r) eqn:He.
    { apply is_empty_spec in He; [|done]. rewrite Hb in He. by apply tlv_bytes_nonempty in He. }
    destruct (read_tlv_ok r cp_tlv.CONTROL_PARAMETERS (elems_wire (cp_elems p)) (concat (map ControlParameters.encode ps)) Hr) as (r' & -> & Hb' & Hr'); [by vm_compute|exact Hb|].
    rewrite Z.eqb_refl. cbn [negb]. rewrite decode_value_spec by done. rewrite IH; [by rewrite <- app_assoc|done|done|done|cbn in Hf; lia].
Qed.

(** ** Properties *)

(** C16: what management writes it reads back.  Whatever fields are present, with
    their numbers in range and their strings UTF-8, a block of parameters decodes
    to itself, bare and as the last component of a command name, whose module and
    verb are read back; a response decodes to itself, with or without a block; and
    a stream of blocks is read back in order. *)
Theorem management_roundtrip (p : ControlParameters) (r : ControlResponse) (ps : list ControlParameters) (module verb : bytes) :
  cp_ok p -> response_ok r -> Forall cp_ok ps -> zlen (concat (map ControlParameters.encode ps)) <= usize_max ->
  ControlParameters.decode_value (ControlParameters.encode_value p) = Ok p /\
  parse_command_name (command_name module verb p) = Some (mkCommand module verb (Some p)) /\
  ControlResponse.decode (ControlResponse.encode r) = Ok r /\
  ControlParameters.decode_all (concat (map ControlParameters.encode ps)) = ps.
Proof.
  intros Hp Hr Hps Hz. split_conj.
  - rewrite encode_value_spec by done. by apply decode_value_spec.
  - unfold parse_command_name, command_name. cbn [value Component.generic]. rewrite !bool_decide_true by done. cbn [negb andb orb]. by rewrite decode_encode_cp.
  - by apply decode_encode_response.
  - assert (wf_bytes (concat (map ControlParameters.encode ps)) /\ (length ps <= length (concat (map ControlParameters.encode ps)))%nat) as [Hwf Hlen].
    { clear Hz. induction Hps as [|q ps Hq _ [IH1 IH2]]; [split; [constructor|done]|]. cbn [map concat]. rewrite encode_spec by done. split.
      - apply wf_bytes_app. split; [|done]. apply wf_tlv_bytes; [done|by apply wf_elems_wire, wf_block].
      - rewrite length_app. cbn [length]. assert (1 <= length (tlv_bytes cp_tlv.CONTROL_PARAMETERS (elems_wire (cp_elems q))))%nat by (cbn; lia). lia. }
    unfold ControlParameters.decode_all. rewrite (decode_all_stream ps); [done|by apply new_wf|done|apply as_bytes_new|lia].
Qed.

(** ** Examples *)

Definition example_params : ControlParameters :=
  ControlParameters.set_name (Some [Component.generic (str "a")]) (ControlParameters.set_face_id (Some 300) (ControlParameters.set_uri (Some (str "udp4://h"))
    (ControlParameters.set_strategy (Some [Component.generic (str "s")]) (ControlParameters.set_failures [(str "x", str "y")] ControlParameters.default_)))).

Lemma example_params_ok : cp_ok example_params.
Proof.
  constructor; cbn [example_params]; try discriminate.
  - intros v [= <-]. apply (Forall_singleton wf_component). split; [by vm_compute|by apply wf_bytes_check].
  - intros v [= <-]. by vm_compute.
  - intros v [= <-]. split; [reflexivity|by apply wf_bytes_check].
  - intros v [= <-]. apply (Forall_singleton wf_component). split; [by vm_compute|by apply wf_bytes_check].
  - apply Forall_singleton. split; (split; [reflexivity|by apply wf_bytes_check]).
Qed.

Lemma example_response_ok : response_ok (mkResponse 200 (str "OK") (Some example_params)).
Proof.
  constructor.
  - by vm_compute.
  - split; [reflexivity|by apply wf_bytes_check].
  - intros b [= <-]. exact example_params_ok.
  - vm_compute. discriminate.
Qed.

Lemma management_roundtrip_witness :
  ControlResponse.decode (ControlResponse.encode (mkResponse 200 (str "OK") (Some example_params))) = Ok (mkResponse 200 (str "OK") (Some example_params)) /\
  ControlParameters.decode_all (ControlParameters.encode example_params ++ ControlParameters.encode example_params) = [example_params; example_params].
Proof.
  destruct (management_roundtrip example_params _ [example_params; example_params] (str "rib") (str "register") example_params_ok example_response_ok) as (_ & _ & H1 & H2).
  - apply Forall_cons. split; [exact example_params_ok|]. apply Forall_singleton. exact example_params_ok.
  - vm_compute. discriminate.
  - split; [exact H1|]. cbn [map concat] in H2. rewrite app_nil_r in H2. exact H2.
Defined.
