(* ===== verification/Dataset.v ===== *)
(** * Status datasets ([ndn-mgmt-wire]: [nfd_dataset.rs])

    The entries of the list datasets of management: faces, FIB entries, RIB
    entries and strategy choices, with the reader of a whole dataset.  The loops
    over next hops and routes go on after an element that cannot be read, so the
    readers of FIB and RIB datasets take a bound on their steps: [Hangs] and
    [None] say that the bound was reached. *)
From S2P Require Import Prelude Tlv Name NameUri Packet Lp Encode Mgmt.
#[local] Open Scope Z_scope.

Module ds_tlv.
Definition FACE_ID : Z := 0x69.
Definition COST : Z := 0x6a.
Definition STRATEGY_WRAPPER : Z := 0x6b.
Definition FLAGS : Z := 0x6c.
Definition EXPIRATION_PERIOD : Z := 0x6d.
Definition ORIGIN : Z := 0x6f.
Definition URI : Z := 0x72.
Definition FACE_STATUS : Z := 0x80.
Definition LOCAL_URI : Z := 0x81.
Definition FACE_SCOPE : Z := 0x84.
Definition FACE_PERSISTENCY : Z := 0x85.
Definition LINK_TYPE : Z := 0x86.
Definition BASE_CONGESTION_MARKING_INTERVAL : Z := 0x87.
Definition DEFAULT_CONGESTION_THRESHOLD : Z := 0x88.
Definition MTU : Z := 0x89.
Definition N_IN_INTERESTS : Z := 0x90.
Definition N_IN_DATA : Z := 0x91.
Definition N_OUT_INTERESTS : Z := 0x92.
Definition N_OUT_DATA : Z := 0x93.
Definition N_IN_BYTES : Z := 0x94.
Definition N_OUT_BYTES : Z := 0x95.
Definition N_IN_NACKS : Z := 0x97.
Definition N_OUT_NACKS : Z := 0x98.
Definition N_SATISFIED_INTERESTS : Z := 0x99.
Definition N_UNSATISFIED_INTERESTS : Z := 0x9a.
Definition N_LP_ACKS_RECEIVED : Z := 0xda.
Definition N_LP_RESENT_PACKETS : Z := 0xdb.
Definition N_LP_RTO_EXPIRATIONS : Z := 0xdc.
Definition N_CONGESTION_MARKS_SENT : Z := 0xdd.
Definition N_CONGESTION_MARKS_RECEIVED : Z := 0xde.
Definition EFFECTIVE_MTU : Z := 0xdf.
Definition FEATURE_SET : Z := 0xe0.
Definition FEATURE_NAME : Z := 0xe1.
Definition RTO_MICROS : Z := 0xe2.
Definition N_REASM_FRAGMENTS_IN : Z := 0xe3.
Definition N_REASM_COMPLETED : Z := 0xe4.
Definition N_REASM_TIMED_OUT : Z := 0xe5.
Definition N_REASM_FRAGMENTS_WASTED : Z := 0xe6.
Definition N_LP_UNACKED_EVICTIONS : Z := 0xe7.
Definition N_REASM_FRAGMENTS_REJECTED : Z := 0xe8.
Definition N_REASM_GROUPS_EVICTED : Z := 0xe9.
Definition N_LP_FAST_RETX : Z := 0xea.
Definition ENTRY : Z := 0x80.
Definition NEXT_HOP_RECORD : Z := 0x81.
Definition ROUTE : Z := 0x81.
Definition NAME : Z := 0x07.
End ds_tlv.

Definition ds_read_non_neg_int (buf : bytes) : option Z :=
  let n := zlen buf in
  if (n =? 1) || (n =? 2) || (n =? 4) || (n =? 8) then Some (be_decode buf) else None.

Definition ds_decode_name (val : bytes) : option Name :=
  match tlv_each tt (fun cs t v => Ok (cs ++ [mkComponent t v])) val [] with
  | Ok [] => Some NameOps.root
  | Ok components => Some components
  | Err _ => None
  end.

Definition from_utf8 (v : bytes) : option bytes := if utf8_valid v then Some v else None.

(** How a reader ends without an entry: it returns [None], or it is still
    looping when the bound is reached. *)
Inductive Stop : Type := NoEntry | Hangs.

(** The common head of the readers: one TLV of the given type is taken off the buffer. *)
Definition open_entry (entry_type : Z) (buf : bytes) : result bytes Stop * bytes :=
  match TlvReader.read_tlv (TlvReader.new buf) with
  | (Err _, _) => (Err NoEntry, buf)
  | (Ok (t, val), r) =>
      if negb (t =? entry_type) then (Err NoEntry, buf)
      else let consumed := zlen buf - TlvReader.remaining r in (Ok val, slice_from_ buf consumed)
  end.

(** [while !r.is_empty() { if let Ok((t, v)) = r.read_tlv() { .. } }]. *)
Fixpoint lenient_loop {S} (fuel : nat) (body : S -> Z -> bytes -> S) (r : TlvReader.TlvReader) (s : S) : option S :=
  match fuel with
  | O => None
  | S fuel =>
      if TlvReader.is_empty r then Some s
      else match TlvReader.read_tlv r with
           | (Ok (t, v), r) => lenient_loop fuel body r (body s t v)
           | (Err _, r) => lenient_loop fuel body r s
           end
  end.

(** [while !buf.is_empty() { match Self::decode(&mut buf) { .. } }]. *)
Fixpoint decode_all_entries {A} (fuel : nat) (decode : bytes -> result A Stop * bytes) (buf : bytes) (out : list A) : option (list A) :=
  match fuel with
  | O => None
  | S fuel =>
      match buf with
      | [] => Some out
      | _ =>
          match decode buf with
          | (Ok entry, buf) => decode_all_entries fuel decode buf (out ++ [entry])
          | (Err NoEntry, _) => Some out
          | (Err Hangs, _) => None
          end
      end
  end.

Definition encode_dataset {T} (items : list T) (encode_fn : T -> bytes) : bytes :=
  fold_left (fun buf item => buf ++ encode_fn item) items [].

(** ** Faces *)

Record FaceStatus : Type := mkFaceStatus {
  fs_face_id : Z;
  fs_uri : bytes;
  fs_local_uri : bytes;
  fs_face_scope : Z;
  fs_face_persistency : Z;
  fs_link_type : Z;
  fs_mtu : option Z;
  fs_base_congestion_marking_interval : option Z;
  fs_default_congestion_threshold : option Z;
  fs_n_in_interests : Z;
  fs_n_in_data : Z;
  fs_n_in_nacks : Z;
  fs_n_out_interests : Z;
  fs_n_out_data : Z;
  fs_n_out_nacks : Z;
  fs_n_in_bytes : Z;
  fs_n_out_bytes : Z;
  fs_n_satisfied_interests : Z;
  fs_n_unsatisfied_interests : Z;
  fs_flags : Z;
  fs_n_lp_acks_received : option Z;
  fs_n_lp_resent_packets : option Z;
  fs_n_lp_rto_expirations : option Z;
  fs_n_congestion_marks_sent : option Z;
  fs_n_congestion_marks_received : option Z;
  fs_effective_mtu : option Z;
  fs_feature_set : list bytes;
  fs_rto_micros : option Z;
  fs_n_reasm_fragments_in : option Z;
  fs_n_reasm_completed : option Z;
  fs_n_reasm_timed_out : option Z;
  fs_n_reasm_fragments_wasted : option Z;
  fs_n_lp_unacked_evictions : option Z;
  fs_n_lp_fast_retx : option Z;
  fs_n_reasm_fragments_rejected : option Z;
  fs_n_reasm_groups_evicted : option Z
}.

Definition write_features (features : list bytes) (w : TlvWriter.TlvWriter) : TlvWriter.TlvWriter :=
  match features with
  | [] => w
  | _ => TlvWriter.write_nested w ds_tlv.FEATURE_SET (fun w => fold_left (fun w name => TlvWriter.write_tlv w ds_tlv.FEATURE_NAME name) features w)
  end.

Definition feature_body (s : list bytes) (ft : Z) (fv : bytes) : result (list bytes) Stop :=
  if ft =? ds_tlv.FEATURE_NAME then match from_utf8 fv with Some x => Ok (s ++ [x]) | None => Ok s end else Ok s.

Module FaceStatus.

Definition default_ : FaceStatus := mkFaceStatus 0 [] [] 0 0 0 None None None 0 0 0 0 0 0 0 0 0 0 0 None None None None None None [] None None None None None None None None None.

(** Assignments to the local variables of the reader. *)
Definition set_face_id (x : Z) (s : FaceStatus) : FaceStatus :=
  mkFaceStatus x (fs_uri s) (fs_local_uri s) (fs_face_scope s) (fs_face_persistency s) (fs_link_type s) (fs_mtu s) (fs_base_congestion_marking_interval s) (fs_default_congestion_threshold s) (fs_n_in_interests s) (fs_n_in_data s) (fs_n_in_nacks s) (fs_n_out_interests s) (fs_n_out_data s) (fs_n_out_nacks s) (fs_n_in_bytes s) (fs_n_out_bytes s) (fs_n_satisfied_interests s) (fs_n_unsatisfied_interests s) (fs_flags s) (fs_n_lp_acks_received s) (fs_n_lp_resent_packets s) (fs_n_lp_rto_expirations s) (fs_n_congestion_marks_sent s) (fs_n_congestion_marks_received s) (fs_effective_mtu s) (fs_feature_set s) (fs_rto_micros s) (fs_n_reasm_fragments_in s) (fs_n_reasm_completed s) (fs_n_reasm_timed_out s) (fs_n_reasm_fragments_wasted s) (fs_n_lp_unacked_evictions s) (fs_n_lp_fast_retx s) (fs_n_reasm_fragments_rejected s) (fs_n_reasm_groups_evicted s).
Definition set_uri (x : bytes) (s : FaceStatus) : FaceStatus :=
  mkFaceStatus (fs_face_id s) x (fs_local_uri s) (fs_face_scope s) (fs_face_persistency s) (fs_link_type s) (fs_mtu s) (fs_base_congestion_marking_interval s) (fs_default_congestion_threshold s) (fs_n_in_interests s) (fs_n_in_data s) (fs_n_in_nacks s) (fs_n_out_interests s) (fs_n_out_data s) (fs_n_out_nacks s) (fs_n_in_bytes s) (fs_n_out_bytes s) (fs_n_satisfied_interests s) (fs_n_unsatisfied_interests s) (fs_flags s) (fs_n_lp_acks_received s) (fs_n_lp_resent_packets s) (fs_n_lp_rto_expirations s) (fs_n_congestion_marks_sent s) (fs_n_congestion_marks_received s) (fs_effective_mtu s) (fs_feature_set s) (fs_rto_micros s) (fs_n_reasm_fragments_in s) (fs_n_reasm_completed s) (fs_n_reasm_timed_out s) (fs_n_reasm_fragments_wasted s) (fs_n_lp_unacked_evictions s) (fs_n_lp_fast_retx s) (fs_n_reasm_fragments_rejected s) (fs_n_reasm_groups_evicted s).
Definition set_local_uri (x : bytes) (s : FaceStatus) : FaceStatus :=
  mkFaceStatus (fs_face_id s) (fs_uri s) x (fs_face_scope s) (fs_face_persistency s) (fs_link_type s) (fs_mtu s) (fs_base_congestion_marking_interval s) (fs_default_congestion_threshold s) (fs_n_in_interests s) (fs_n_in_data s) (fs_n_in_nacks s) (fs_n_out_interests s) (fs_n_out_data s) (fs_n_out_nacks s) (fs_n_in_bytes s) (fs_n_out_bytes s) (fs_n_satisfied_interests s) (fs_n_unsatisfied_interests s) (fs_flags s) (fs_n_lp_acks_received s) (fs_n_lp_resent_packets s) (fs_n_lp_rto_expirations s) (fs_n_congestion_marks_sent s) (fs_n_congestion_marks_received s) (fs_effective_mtu s) (fs_feature_set s) (fs_rto_micros s) (fs_n_reasm_fragments_in s) (fs_n_reasm_completed s) (fs_n_reasm_timed_out s) (fs_n_reasm_fragments_wasted s) (fs_n_lp_unacked_evictions s) (fs_n_lp_fast_retx s) (fs_n_reasm_fragments_rejected s) (fs_n_reasm_groups_evicted s).
Definition set_face_scope (x : Z) (s : FaceStatus) : FaceStatus :=
  mkFaceStatus (fs_face_id s) (fs_uri s) (fs_local_uri s) x (fs_face_persistency s) (fs_link_type s) (fs_mtu s) (fs_base_congestion_marking_interval s) (fs_default_congestion_threshold s) (fs_n_in_interests s) (fs_n_in_data s) (fs_n_in_nacks s) (fs_n_out_interests s) (fs_n_out_data s) (fs_n_out_nacks s) (fs_n_in_bytes s) (fs_n_out_bytes s) (fs_n_satisfied_interests s) (fs_n_unsatisfied_interests s) (fs_flags s) (fs_n_lp_acks_received s) (fs_n_lp_resent_packets s) (fs_n_lp_rto_expirations s) (fs_n_congestion_marks_sent s) (fs_n_congestion_marks_received s) (fs_effective_mtu s) (fs_feature_set s) (fs_rto_micros s) (fs_n_reasm_fragments_in s) (fs_n_reasm_completed s) (fs_n_reasm_timed_out s) (fs_n_reasm_fragments_wasted s) (fs_n_lp_unacked_evictions s) (fs_n_lp_fast_retx s) (fs_n_reasm_fragments_rejected s) (fs_n_reasm_groups_evicted s).
Definition set_face_persistency (x : Z) (s : FaceStatus) : FaceStatus :=
  mkFaceStatus (fs_face_id s) (fs_uri s) (fs_local_uri s) (fs_face_scope s) x (fs_link_type s) (fs_mtu s) (fs_base_congestion_marking_interval s) (fs_default_congestion_threshold s) (fs_n_in_interests s) (fs_n_in_data s) (fs_n_in_nacks s) (fs_n_out_interests s) (fs_n_out_data s) (fs_n_out_nacks s) (fs_n_in_bytes s) (fs_n_out_bytes s) (fs_n_satisfied_interests s) (fs_n_unsatisfied_interests s) (fs_flags s) (fs_n_lp_acks_received s) (fs_n_lp_resent_packets s) (fs_n_lp_rto_expirations s) (fs_n_congestion_marks_sent s) (fs_n_congestion_marks_received s) (fs_effective_mtu s) (fs_feature_set s) (fs_rto_micros s) (fs_n_reasm_fragments_in s) (fs_n_reasm_completed s) (fs_n_reasm_timed_out s) (fs_n_reasm_fragments_wasted s) (fs_n_lp_unacked_evictions s) (fs_n_lp_fast_retx s) (fs_n_reasm_fragments_rejected s) (fs_n_reasm_groups_evicted s).
Definition set_link_type (x : Z) (s : FaceStatus) : FaceStatus :=
  mkFaceStatus (fs_face_id s) (fs_uri s) (fs_local_uri s) (fs_face_scope s) (fs_face_persistency s) x (fs_mtu s) (fs_base_congestion_marking_interval s) (fs_default_congestion_threshold s) (fs_n_in_interests s) (fs_n_in_data s) (fs_n_in_nacks s) (fs_n_out_interests s) (fs_n_out_data s) (fs_n_out_nacks s) (fs_n_in_bytes s) (fs_n_out_bytes s) (fs_n_satisfied_interests s) (fs_n_unsatisfied_interests s) (fs_flags s) (fs_n_lp_acks_received s) (fs_n_lp_resent_packets s) (fs_n_lp_rto_expirations s) (fs_n_congestion_marks_sent s) (fs_n_congestion_marks_received s) (fs_effective_mtu s) (fs_feature_set s) (fs_rto_micros s) (fs_n_reasm_fragments_in s) (fs_n_reasm_completed s) (fs_n_reasm_timed_out s) (fs_n_reasm_fragments_wasted s) (fs_n_lp_unacked_evictions s) (fs_n_lp_fast_retx s) (fs_n_reasm_fragments_rejected s) (fs_n_reasm_groups_evicted s).
Definition set_mtu (x : option Z) (s : FaceStatus) : FaceStatus :=
  mkFaceStatus (fs_face_id s) (fs_uri s) (fs_local_uri s) (fs_face_scope s) (fs_face_persistency s) (fs_link_type s) x (fs_base_congestion_marking_interval s) (fs_default_congestion_threshold s) (fs_n_in_interests s) (fs_n_in_data s) (fs_n_in_nacks s) (fs_n_out_interests s) (fs_n_out_data s) (fs_n_out_nacks s) (fs_n_in_bytes s) (fs_n_out_bytes s) (fs_n_satisfied_interests s) (fs_n_unsatisfied_interests s) (fs_flags s) (fs_n_lp_acks_received s) (fs_n_lp_resent_packets s) (fs_n_lp_rto_expirations s) (fs_n_congestion_marks_sent s) (fs_n_congestion_marks_received s) (fs_effective_mtu s) (fs_feature_set s) (fs_rto_micros s) (fs_n_reasm_fragments_in s) (fs_n_reasm_completed s) (fs_n_reasm_timed_out s) (fs_n_reasm_fragments_wasted s) (fs_n_lp_unacked_evictions s) (fs_n_lp_fast_retx s) (fs_n_reasm_fragments_rejected s) (fs_n_reasm_groups_evicted s).
Definition set_base_congestion_marking_interval (x : option Z) (s : FaceStatus) : FaceStatus :=
  mkFaceStatus (fs_face_id s) (fs_uri s) (fs_local_uri s) (fs_face_scope s) (fs_face_persistency s) (fs_link_type s) (fs_mtu s) x (fs_default_congestion_threshold s) (fs_n_in_interests s) (fs_n_in_data s) (fs_n_in_nacks s) (fs_n_out_interests s) (fs_n_out_data s) (fs_n_out_nacks s) (fs_n_in_bytes s) (fs_n_out_bytes s) (fs_n_satisfied_interests s) (fs_n_unsatisfied_interests s) (fs_flags s) (fs_n_lp_acks_received s) (fs_n_lp_resent_packets s) (fs_n_lp_rto_expirations s) (fs_n_congestion_marks_sent s) (fs_n_congestion_marks_received s) (fs_effective_mtu s) (fs_feature_set s) (fs_rto_micros s) (fs_n_reasm_fragments_in s) (fs_n_reasm_completed s) (fs_n_reasm_timed_out s) (fs_n_reasm_fragments_wasted s) (fs_n_lp_unacked_evictions s) (fs_n_lp_fast_retx s) (fs_n_reasm_fragments_rejected s) (fs_n_reasm_groups_evicted s).
Definition set_default_congestion_threshold (x : option Z) (s : FaceStatus) : FaceStatus :=
  mkFaceStatus (fs_face_id s) (fs_uri s) (fs_local_uri s) (fs_face_scope s) (fs_face_persistency s) (fs_link_type s) (fs_mtu s) (fs_base_congestion_marking_interval s) x (fs_n_in_interests s) (fs_n_in_data s) (fs_n_in_nacks s) (fs_n_out_interests s) (fs_n_out_data s) (fs_n_out_nacks s) (fs_n_in_bytes s) (fs_n_out_bytes s) (fs_n_satisfied_interests s) (fs_n_unsatisfied_interests s) (fs_flags s) (fs_n_lp_acks_received s) (fs_n_lp_resent_packets s) (fs_n_lp_rto_expirations s) (fs_n_congestion_marks_sent s) (fs_n_congestion_marks_received s) (fs_effective_mtu s) (fs_feature_set s) (fs_rto_micros s) (fs_n_reasm_fragments_in s) (fs_n_reasm_completed s) (fs_n_reasm_timed_out s) (fs_n_reasm_fragments_wasted s) (fs_n_lp_unacked_evictions s) (fs_n_lp_fast_retx s) (fs_n_reasm_fragments_rejected s) (fs_n_reasm_groups_evicted s).
Definition set_n_in_interests (x : Z) (s : FaceStatus) : FaceStatus :=
  mkFaceStatus (fs_face_id s) (fs_uri s) (fs_local_uri s) (fs_face_scope s) (fs_face_persistency s) (fs_link_type s) (fs_mtu s) (fs_base_congestion_marking_interval s) (fs_default_congestion_threshold s) x (fs_n_in_data s) (fs_n_in_nacks s) (fs_n_out_interests s) (fs_n_out_data s) (fs_n_out_nacks s) (fs_n_in_bytes s) (fs_n_out_bytes s) (fs_n_satisfied_interests s) (fs_n_unsatisfied_interests s) (fs_flags s) (fs_n_lp_acks_received s) (fs_n_lp_resent_packets s) (fs_n_lp_rto_expirations s) (fs_n_congestion_marks_sent s) (fs_n_congestion_marks_received s) (fs_effective_mtu s) (fs_feature_set s) (fs_rto_micros s) (fs_n_reasm_fragments_in s) (fs_n_reasm_completed s) (fs_n_reasm_timed_out s) (fs_n_reasm_fragments_wasted s) (fs_n_lp_unacked_evictions s) (fs_n_lp_fast_retx s) (fs_n_reasm_fragments_rejected s) (fs_n_reasm_groups_evicted s).
Definition set_n_in_data (x : Z) (s : FaceStatus) : FaceStatus :=
  mkFaceStatus (fs_face_id s) (fs_uri s) (fs_local_uri s) (fs_face_scope s) (fs_face_persistency s) (fs_link_type s) (fs_mtu s) (fs_base_congestion_marking_interval s) (fs_default_congestion_threshold s) (fs_n_in_interests s) x (fs_n_in_nacks s) (fs_n_out_interests s) (fs_n_out_data s) (fs_n_out_nacks s) (fs_n_in_bytes s) (fs_n_out_bytes s) (fs_n_satisfied_interests s) (fs_n_unsatisfied_interests s) (fs_flags s) (fs_n_lp_acks_received s) (fs_n_lp_resent_packets s) (fs_n_lp_rto_expirations s) (fs_n_congestion_marks_sent s) (fs_n_congestion_marks_received s) (fs_effective_mtu s) (fs_feature_set s) (fs_rto_micros s) (fs_n_reasm_fragments_in s) (fs_n_reasm_completed s) (fs_n_reasm_timed_out s) (fs_n_reasm_fragments_wasted s) (fs_n_lp_unacked_evictions s) (fs_n_lp_fast_retx s) (fs_n_reasm_fragments_rejected s) (fs_n_reasm_groups_evicted s).
Definition set_n_in_nacks (x : Z) (s : FaceStatus) : FaceStatus :=
  mkFaceStatus (fs_face_id s) (fs_uri s) (fs_local_uri s) (fs_face_scope s) (fs_face_persistency s) (fs_link_type s) (fs_mtu s) (fs_base_congestion_marking_interval s) (fs_default_congestion_threshold s) (fs_n_in_interests s) (fs_n_in_data s) x (fs_n_out_interests s) (fs_n_out_data s) (fs_n_out_nacks s) (fs_n_in_bytes s) (fs_n_out_bytes s) (fs_n_satisfied_interests s) (fs_n_unsatisfied_interests s) (fs_flags s) (fs_n_lp_acks_received s) (fs_n_lp_resent_packets s) (fs_n_lp_rto_expirations s) (fs_n_congestion_marks_sent s) (fs_n_congestion_marks_received s) (fs_effective_mtu s) (fs_feature_set s) (fs_rto_micros s) (fs_n_reasm_fragments_in s) (fs_n_reasm_completed s) (fs_n_reasm_timed_out s) (fs_n_reasm_fragments_wasted s) (fs_n_lp_unacked_evictions s) (fs_n_lp_fast_retx s) (fs_n_reasm_fragments_rejected s) (fs_n_reasm_groups_evicted s).
Definition set_n_out_interests (x : Z) (s : FaceStatus) : FaceStatus :=
  mkFaceStatus (fs_face_id s) (fs_uri s) (fs_local_uri s) (fs_face_scope s) (fs_face_persistency s) (fs_link_type s) (fs_mtu s) (fs_base_congestion_marking_interval s) (fs_default_congestion_threshold s) (fs_n_in_interests s) (fs_n_in_data s) (fs_n_in_nacks s) x (fs_n_out_data s) (fs_n_out_nacks s) (fs_n_in_bytes s) (fs_n_out_bytes s) (fs_n_satisfied_interests s) (fs_n_unsatisfied_interests s) (fs_flags s) (fs_n_lp_acks_received s) (fs_n_lp_resent_packets s) (fs_n_lp_rto_expirations s) (fs_n_congestion_marks_sent s) (fs_n_congestion_marks_received s) (fs_effective_mtu s) (fs_feature_set s) (fs_rto_micros s) (fs_n_reasm_fragments_in s) (fs_n_reasm_completed s) (fs_n_reasm_timed_out s) (fs_n_reasm_fragments_wasted s) (fs_n_lp_unacked_evictions s) (fs_n_lp_fast_retx s) (fs_n_reasm_fragments_rejected s) (fs_n_reasm_groups_evicted s).
Definition set_n_out_data (x : Z) (s : FaceStatus) : FaceStatus :=
  mkFaceStatus (fs_face_id s) (fs_uri s) (fs_local_uri s) (fs_face_scope s) (fs_face_persistency s) (fs_link_type s) (fs_mtu s) (fs_base_congestion_marking_interval s) (fs_default_congestion_threshold s) (fs_n_in_interests s) (fs_n_in_data s) (fs_n_in_nacks s) (fs_n_out_interests s) x (fs_n_out_nacks s) (fs_n_in_bytes s) (fs_n_out_bytes s) (fs_n_satisfied_interests s) (fs_n_unsatisfied_interests s) (fs_flags s) (fs_n_lp_acks_received s) (fs_n_lp_resent_packets s) (fs_n_lp_rto_expirations s) (fs_n_congestion_marks_sent s) (fs_n_congestion_marks_received s) (fs_effective_mtu s) (fs_feature_set s) (fs_rto_micros s) (fs_n_reasm_fragments_in s) (fs_n_reasm_completed s) (fs_n_reasm_timed_out s) (fs_n_reasm_fragments_wasted s) (fs_n_lp_unacked_evictions s) (fs_n_lp_fast_retx s) (fs_n_reasm_fragments_rejected s) (fs_n_reasm_groups_evicted s).
Definition set_n_out_nacks (x : Z) (s : FaceStatus) : FaceStatus :=
  mkFaceStatus (fs_face_id s) (fs_uri s) (fs_local_uri s) (fs_face_scope s) (fs_face_persistency s) (fs_link_type s) (fs_mtu s) (fs_base_congestion_marking_interval s) (fs_default_congestion_threshold s) (fs_n_in_interests s) (fs_n_in_data s) (fs_n_in_nacks s) (fs_n_out_interests s) (fs_n_out_data s) x (fs_n_in_bytes s) (fs_n_out_bytes s) (fs_n_satisfied_interests s) (fs_n_unsatisfied_interests s) (fs_flags s) (fs_n_lp_acks_received s) (fs_n_lp_resent_packets s) (fs_n_lp_rto_expirations s) (fs_n_congestion_marks_sent s) (fs_n_congestion_marks_received s) (fs_effective_mtu s) (fs_feature_set s) (fs_rto_micros s) (fs_n_reasm_fragments_in s) (fs_n_reasm_completed s) (fs_n_reasm_timed_out s) (fs_n_reasm_fragments_wasted s) (fs_n_lp_unacked_evictions s) (fs_n_lp_fast_retx s) (fs_n_reasm_fragments_rejected s) (fs_n_reasm_groups_evicted s).
Definition set_n_in_bytes (x : Z) (s : FaceStatus) : FaceStatus :=
  mkFaceStatus (fs_face_id s) (fs_uri s) (fs_local_uri s) (fs_face_scope s) (fs_face_persistency s) (fs_link_type s) (fs_mtu s) (fs_base_congestion_marking_interval s) (fs_default_congestion_threshold s) (fs_n_in_interests s) (fs_n_in_data s) (fs_n_in_nacks s) (fs_n_out_interests s) (fs_n_out_data s) (fs_n_out_nacks s) x (fs_n_out_bytes s) (fs_n_satisfied_interests s) (fs_n_unsatisfied_interests s) (fs_flags s) (fs_n_lp_acks_received s) (fs_n_lp_resent_packets s) (fs_n_lp_rto_expirations s) (fs_n_congestion_marks_sent s) (fs_n_congestion_marks_received s) (fs_effective_mtu s) (fs_feature_set s) (fs_rto_micros s) (fs_n_reasm_fragments_in s) (fs_n_reasm_completed s) (fs_n_reasm_timed_out s) (fs_n_reasm_fragments_wasted s) (fs_n_lp_unacked_evictions s) (fs_n_lp_fast_retx s) (fs_n_reasm_fragments_rejected s) (fs_n_reasm_groups_evicted s).
Definition set_n_out_bytes (x : Z) (s : FaceStatus) : FaceStatus :=
  mkFaceStatus (fs_face_id s) (fs_uri s) (fs_local_uri s) (fs_face_scope s) (fs_face_persistency s) (fs_link_type s) (fs_mtu s) (fs_base_congestion_marking_interval s) (fs_default_congestion_threshold s) (fs_n_in_interests s) (fs_n_in_data s) (fs_n_in_nacks s) (fs_n_out_interests s) (fs_n_out_data s) (fs_n_out_nacks s) (fs_n_in_bytes s) x (fs_n_satisfied_interests s) (fs_n_unsatisfied_interests s) (fs_flags s) (fs_n_lp_acks_received s) (fs_n_lp_resent_packets s) (fs_n_lp_rto_expirations s) (fs_n_congestion_marks_sent s) (fs_n_congestion_marks_received s) (fs_effective_mtu s) (fs_feature_set s) (fs_rto_micros s) (fs_n_reasm_fragments_in s) (fs_n_reasm_completed s) (fs_n_reasm_timed_out s) (fs_n_reasm_fragments_wasted s) (fs_n_lp_unacked_evictions s) (fs_n_lp_fast_retx s) (fs_n_reasm_fragments_rejected s) (fs_n_reasm_groups_evicted s).
Definition set_n_satisfied_interests (x : Z) (s : FaceStatus) : FaceStatus :=
  mkFaceStatus (fs_face_id s) (fs_uri s) (fs_local_uri s) (fs_face_scope s) (fs_face_persistency s) (fs_link_type s) (fs_mtu s) (fs_base_congestion_marking_interval s) (fs_default_congestion_threshold s) (fs_n_in_interests s) (fs_n_in_data s) (fs_n_in_nacks s) (fs_n_out_interests s) (fs_n_out_data s) (fs_n_out_nacks s) (fs_n_in_bytes s) (fs_n_out_bytes s) x (fs_n_unsatisfied_interests s) (fs_flags s) (fs_n_lp_acks_received s) (fs_n_lp_resent_packets s) (fs_n_lp_rto_expirations s) (fs_n_congestion_marks_sent s) (fs_n_congestion_marks_received s) (fs_effective_mtu s) (fs_feature_set s) (fs_rto_micros s) (fs_n_reasm_fragments_in s) (fs_n_reasm_completed s) (fs_n_reasm_timed_out s) (fs_n_reasm_fragments_wasted s) (fs_n_lp_unacked_evictions s) (fs_n_lp_fast_retx s) (fs_n_reasm_fragments_rejected s) (fs_n_reasm_groups_evicted s).
Definition set_n_unsatisfied_interests (x : Z) (s : FaceStatus) : FaceStatus :=
  mkFaceStatus (fs_face_id s) (fs_uri s) (fs_local_uri s) (fs_face_scope s) (fs_face_persistency s) (fs_link_type s) (fs_mtu s) (fs_base_congestion_marking_interval s) (fs_default_congestion_threshold s) (fs_n_in_interests s) (fs_n_in_data s) (fs_n_in_nacks s) (fs_n_out_interests s) (fs_n_out_data s) (fs_n_out_nacks s) (fs_n_in_bytes s) (fs_n_out_bytes s) (fs_n_satisfied_interests s) x (fs_flags s) (fs_n_lp_acks_received s) (fs_n_lp_resent_packets s) (fs_n_lp_rto_expirations s) (fs_n_congestion_marks_sent s) (fs_n_congestion_marks_received s) (fs_effective_mtu s) (fs_feature_set s) (fs_rto_micros s) (fs_n_reasm_fragments_in s) (fs_n_reasm_completed s) (fs_n_reasm_timed_out s) (fs_n_reasm_fragments_wasted s) (fs_n_lp_unacked_evictions s) (fs_n_lp_fast_retx s) (fs_n_reasm_fragments_rejected s) (fs_n_reasm_groups_evicted s).
Definition set_flags (x : Z) (s : FaceStatus) : FaceStatus :=
  mkFaceStatus (fs_face_id s) (fs_uri s) (fs_local_uri s) (fs_face_scope s) (fs_face_persistency s) (fs_link_type s) (fs_mtu s) (fs_base_congestion_marking_interval s) (fs_default_congestion_threshold s) (fs_n_in_interests s) (fs_n_in_data s) (fs_n_in_nacks s) (fs_n_out_interests s) (fs_n_out_data s) (fs_n_out_nacks s) (fs_n_in_bytes s) (fs_n_out_bytes s) (fs_n_satisfied_interests s) (fs_n_unsatisfied_interests s) x (fs_n_lp_acks_received s) (fs_n_lp_resent_packets s) (fs_n_lp_rto_expirations s) (fs_n_congestion_marks_sent s) (fs_n_congestion_marks_received s) (fs_effective_mtu s) (fs_feature_set s) (fs_rto_micros s) (fs_n_reasm_fragments_in s) (fs_n_reasm_completed s) (fs_n_reasm_timed_out s) (fs_n_reasm_fragments_wasted s) (fs_n_lp_unacked_evictions s) (fs_n_lp_fast_retx s) (fs_n_reasm_fragments_rejected s) (fs_n_reasm_groups_evicted s).
Definition set_n_lp_acks_received (x : option Z) (s : FaceStatus) : FaceStatus :=
  mkFaceStatus (fs_face_id s) (fs_uri s) (fs_local_uri s) (fs_face_scope s) (fs_face_persistency s) (fs_link_type s) (fs_mtu s) (fs_base_congestion_marking_interval s) (fs_default_congestion_threshold s) (fs_n_in_interests s) (fs_n_in_data s) (fs_n_in_nacks s) (fs_n_out_interests s) (fs_n_out_data s) (fs_n_out_nacks s) (fs_n_in_bytes s) (fs_n_out_bytes s) (fs_n_satisfied_interests s) (fs_n_unsatisfied_interests s) (fs_flags s) x (fs_n_lp_resent_packets s) (fs_n_lp_rto_expirations s) (fs_n_congestion_marks_sent s) (fs_n_congestion_marks_received s) (fs_effective_mtu s) (fs_feature_set s) (fs_rto_micros s) (fs_n_reasm_fragments_in s) (fs_n_reasm_completed s) (fs_n_reasm_timed_out s) (fs_n_reasm_fragments_wasted s) (fs_n_lp_unacked_evictions s) (fs_n_lp_fast_retx s) (fs_n_reasm_fragments_rejected s) (fs_n_reasm_groups_evicted s).
Definition set_n_lp_resent_packets (x : option Z) (s : FaceStatus) : FaceStatus :=
  mkFaceStatus (fs_face_id s) (fs_uri s) (fs_local_uri s) (fs_face_scope s) (fs_face_persistency s) (fs_link_type s) (fs_mtu s) (fs_base_congestion_marking_interval s) (fs_default_congestion_threshold s) (fs_n_in_interests s) (fs_n_in_data s) (fs_n_in_nacks s) (fs_n_out_interests s) (fs_n_out_data s) (fs_n_out_nacks s) (fs_n_in_bytes s) (fs_n_out_bytes s) (fs_n_satisfied_interests s) (fs_n_unsatisfied_interests s) (fs_flags s) (fs_n_lp_acks_received s) x (fs_n_lp_rto_expirations s) (fs_n_congestion_marks_sent s) (fs_n_congestion_marks_received s) (fs_effective_mtu s) (fs_feature_set s) (fs_rto_micros s) (fs_n_reasm_fragments_in s) (fs_n_reasm_completed s) (fs_n_reasm_timed_out s) (fs_n_reasm_fragments_wasted s) (fs_n_lp_unacked_evictions s) (fs_n_lp_fast_retx s) (fs_n_reasm_fragments_rejected s) (fs_n_reasm_groups_evicted s).
Definition set_n_lp_rto_expirations (x : option Z) (s : FaceStatus) : FaceStatus :=
  mkFaceStatus (fs_face_id s) (fs_uri s) (fs_local_uri s) (fs_face_scope s) (fs_face_persistency s) (fs_link_type s) (fs_mtu s) (fs_base_congestion_marking_interval s) (fs_default_congestion_threshold s) (fs_n_in_interests s) (fs_n_in_data s) (fs_n_in_nacks s) (fs_n_out_interests s) (fs_n_out_data s) (fs_n_out_nacks s) (fs_n_in_bytes s) (fs_n_out_bytes s) (fs_n_satisfied_interests s) (fs_n_unsatisfied_interests s) (fs_flags s) (fs_n_lp_acks_received s) (fs_n_lp_resent_packets s) x (fs_n_congestion_marks_sent s) (fs_n_congestion_marks_received s) (fs_effective_mtu s) (fs_feature_set s) (fs_rto_micros s) (fs_n_reasm_fragments_in s) (fs_n_reasm_completed s) (fs_n_reasm_timed_out s) (fs_n_reasm_fragments_wasted s) (fs_n_lp_unacked_evictions s) (fs_n_lp_fast_retx s) (fs_n_reasm_fragments_rejected s) (fs_n_reasm_groups_evicted s).
Definition set_n_congestion_marks_sent (x : option Z) (s : FaceStatus) : FaceStatus :=
  mkFaceStatus (fs_face_id s) (fs_uri s) (fs_local_uri s) (fs_face_scope s) (fs_face_persistency s) (fs_link_type s) (fs_mtu s) (fs_base_congestion_marking_interval s) (fs_default_congestion_threshold s) (fs_n_in_interests s) (fs_n_in_data s) (fs_n_in_nacks s) (fs_n_out_interests s) (fs_n_out_data s) (fs_n_out_nacks s) (fs_n_in_bytes s) (fs_n_out_bytes s) (fs_n_satisfied_interests s) (fs_n_unsatisfied_interests s) (fs_flags s) (fs_n_lp_acks_received s) (fs_n_lp_resent_packets s) (fs_n_lp_rto_expirations s) x (fs_n_congestion_marks_received s) (fs_effective_mtu s) (fs_feature_set s) (fs_rto_micros s) (fs_n_reasm_fragments_in s) (fs_n_reasm_completed s) (fs_n_reasm_timed_out s) (fs_n_reasm_fragments_wasted s) (fs_n_lp_unacked_evictions s) (fs_n_lp_fast_retx s) (fs_n_reasm_fragments_rejected s) (fs_n_reasm_groups_evicted s).
Definition set_n_congestion_marks_received (x : option Z) (s : FaceStatus) : FaceStatus :=
  mkFaceStatus (fs_face_id s) (fs_uri s) (fs_local_uri s) (fs_face_scope s) (fs_face_persistency s) (fs_link_type s) (fs_mtu s) (fs_base_congestion_marking_interval s) (fs_default_congestion_threshold s) (fs_n_in_interests s) (fs_n_in_data s) (fs_n_in_nacks s) (fs_n_out_interests s) (fs_n_out_data s) (fs_n_out_nacks s) (fs_n_in_bytes s) (fs_n_out_bytes s) (fs_n_satisfied_interests s) (fs_n_unsatisfied_interests s) (fs_flags s) (fs_n_lp_acks_received s) (fs_n_lp_resent_packets s) (fs_n_lp_rto_expirations s) (fs_n_congestion_marks_sent s) x (fs_effective_mtu s) (fs_feature_set s) (fs_rto_micros s) (fs_n_reasm_fragments_in s) (fs_n_reasm_completed s) (fs_n_reasm_timed_out s) (fs_n_reasm_fragments_wasted s) (fs_n_lp_unacked_evictions s) (fs_n_lp_fast_retx s) (fs_n_reasm_fragments_rejected s) (fs_n_reasm_groups_evicted s).
Definition set_effective_mtu (x : option Z) (s : FaceStatus) : FaceStatus :=
  mkFaceStatus (fs_face_id s) (fs_uri s) (fs_local_uri s) (fs_face_scope s) (fs_face_persistency s) (fs_link_type s) (fs_mtu s) (fs_base_congestion_marking_interval s) (fs_default_congestion_threshold s) (fs_n_in_interests s) (fs_n_in_data s) (fs_n_in_nacks s) (fs_n_out_interests s) (fs_n_out_data s) (fs_n_out_nacks s) (fs_n_in_bytes s) (fs_n_out_bytes s) (fs_n_satisfied_interests s) (fs_n_unsatisfied_interests s) (fs_flags s) (fs_n_lp_acks_received s) (fs_n_lp_resent_packets s) (fs_n_lp_rto_expirations s) (fs_n_congestion_marks_sent s) (fs_n_congestion_marks_received s) x (fs_feature_set s) (fs_rto_micros s) (fs_n_reasm_fragments_in s) (fs_n_reasm_completed s) (fs_n_reasm_timed_out s) (fs_n_reasm_fragments_wasted s) (fs_n_lp_unacked_evictions s) (fs_n_lp_fast_retx s) (fs_n_reasm_fragments_rejected s) (fs_n_reasm_groups_evicted s).
Definition set_feature_set (x : list bytes) (s : FaceStatus) : FaceStatus :=
  mkFaceStatus (fs_face_id s) (fs_uri s) (fs_local_uri s) (fs_face_scope s) (fs_face_persistency s) (fs_link_type s) (fs_mtu s) (fs_base_congestion_marking_interval s) (fs_default_congestion_threshold s) (fs_n_in_interests s) (fs_n_in_data s) (fs_n_in_nacks s) (fs_n_out_interests s) (fs_n_out_data s) (fs_n_out_nacks s) (fs_n_in_bytes s) (fs_n_out_bytes s) (fs_n_satisfied_interests s) (fs_n_unsatisfied_interests s) (fs_flags s) (fs_n_lp_acks_received s) (fs_n_lp_resent_packets s) (fs_n_lp_rto_expirations s) (fs_n_congestion_marks_sent s) (fs_n_congestion_marks_received s) (fs_effective_mtu s) x (fs_rto_micros s) (fs_n_reasm_fragments_in s) (fs_n_reasm_completed s) (fs_n_reasm_timed_out s) (fs_n_reasm_fragments_wasted s) (fs_n_lp_unacked_evictions s) (fs_n_lp_fast_retx s) (fs_n_reasm_fragments_rejected s) (fs_n_reasm_groups_evicted s).
Definition set_rto_micros (x : option Z) (s : FaceStatus) : FaceStatus :=
  mkFaceStatus (fs_face_id s) (fs_uri s) (fs_local_uri s) (fs_face_scope s) (fs_face_persistency s) (fs_link_type s) (fs_mtu s) (fs_base_congestion_marking_interval s) (fs_default_congestion_threshold s) (fs_n_in_interests s) (fs_n_in_data s) (fs_n_in_nacks s) (fs_n_out_interests s) (fs_n_out_data s) (fs_n_out_nacks s) (fs_n_in_bytes s) (fs_n_out_bytes s) (fs_n_satisfied_interests s) (fs_n_unsatisfied_interests s) (fs_flags s) (fs_n_lp_acks_received s) (fs_n_lp_resent_packets s) (fs_n_lp_rto_expirations s) (fs_n_congestion_marks_sent s) (fs_n_congestion_marks_received s) (fs_effective_mtu s) (fs_feature_set s) x (fs_n_reasm_fragments_in s) (fs_n_reasm_completed s) (fs_n_reasm_timed_out s) (fs_n_reasm_fragments_wasted s) (fs_n_lp_unacked_evictions s) (fs_n_lp_fast_retx s) (fs_n_reasm_fragments_rejected s) (fs_n_reasm_groups_evicted s).
Definition set_n_reasm_fragments_in (x : option Z) (s : FaceStatus) : FaceStatus :=
  mkFaceStatus (fs_face_id s) (fs_uri s) (fs_local_uri s) (fs_face_scope s) (fs_face_persistency s) (fs_link_type s) (fs_mtu s) (fs_base_congestion_marking_interval s) (fs_default_congestion_threshold s) (fs_n_in_interests s) (fs_n_in_data s) (fs_n_in_nacks s) (fs_n_out_interests s) (fs_n_out_data s) (fs_n_out_nacks s) (fs_n_in_bytes s) (fs_n_out_bytes s) (fs_n_satisfied_interests s) (fs_n_unsatisfied_interests s) (fs_flags s) (fs_n_lp_acks_received s) (fs_n_lp_resent_packets s) (fs_n_lp_rto_expirations s) (fs_n_congestion_marks_sent s) (fs_n_congestion_marks_received s) (fs_effective_mtu s) (fs_feature_set s) (fs_rto_micros s) x (fs_n_reasm_completed s) (fs_n_reasm_timed_out s) (fs_n_reasm_fragments_wasted s) (fs_n_lp_unacked_evictions s) (fs_n_lp_fast_retx s) (fs_n_reasm_fragments_rejected s) (fs_n_reasm_groups_evicted s).
Definition set_n_reasm_completed (x : option Z) (s : FaceStatus) : FaceStatus :=
  mkFaceStatus (fs_face_id s) (fs_uri s) (fs_local_uri s) (fs_face_scope s) (fs_face_persistency s) (fs_link_type s) (fs_mtu s) (fs_base_congestion_marking_interval s) (fs_default_congestion_threshold s) (fs_n_in_interests s) (fs_n_in_data s) (fs_n_in_nacks s) (fs_n_out_interests s) (fs_n_out_data s) (fs_n_out_nacks s) (fs_n_in_bytes s) (fs_n_out_bytes s) (fs_n_satisfied_interests s) (fs_n_unsatisfied_interests s) (fs_flags s) (fs_n_lp_acks_received s) (fs_n_lp_resent_packets s) (fs_n_lp_rto_expirations s) (fs_n_congestion_marks_sent s) (fs_n_congestion_marks_received s) (fs_effective_mtu s) (fs_feature_set s) (fs_rto_micros s) (fs_n_reasm_fragments_in s) x (fs_n_reasm_timed_out s) (fs_n_reasm_fragments_wasted s) (fs_n_lp_unacked_evictions s) (fs_n_lp_fast_retx s) (fs_n_reasm_fragments_rejected s) (fs_n_reasm_groups_evicted s).
Definition set_n_reasm_timed_out (x : option Z) (s : FaceStatus) : FaceStatus :=
  mkFaceStatus (fs_face_id s) (fs_uri s) (fs_local_uri s) (fs_face_scope s) (fs_face_persistency s) (fs_link_type s) (fs_mtu s) (fs_base_congestion_marking_interval s) (fs_default_congestion_threshold s) (fs_n_in_interests s) (fs_n_in_data s) (fs_n_in_nacks s) (fs_n_out_interests s) (fs_n_out_data s) (fs_n_out_nacks s) (fs_n_in_bytes s) (fs_n_out_bytes s) (fs_n_satisfied_interests s) (fs_n_unsatisfied_interests s) (fs_flags s) (fs_n_lp_acks_received s) (fs_n_lp_resent_packets s) (fs_n_lp_rto_expirations s) (fs_n_congestion_marks_sent s) (fs_n_congestion_marks_received s) (fs_effective_mtu s) (fs_feature_set s) (fs_rto_micros s) (fs_n_reasm_fragments_in s) (fs_n_reasm_completed s) x (fs_n_reasm_fragments_wasted s) (fs_n_lp_unacked_evictions s) (fs_n_lp_fast_retx s) (fs_n_reasm_fragments_rejected s) (fs_n_reasm_groups_evicted s).
Definition set_n_reasm_fragments_wasted (x : option Z) (s : FaceStatus) : FaceStatus :=
  mkFaceStatus (fs_face_id s) (fs_uri s) (fs_local_uri s) (fs_face_scope s) (fs_face_persistency s) (fs_link_type s) (fs_mtu s) (fs_base_congestion_marking_interval s) (fs_default_congestion_threshold s) (fs_n_in_interests s) (fs_n_in_data s) (fs_n_in_nacks s) (fs_n_out_interests s) (fs_n_out_data s) (fs_n_out_nacks s) (fs_n_in_bytes s) (fs_n_out_bytes s) (fs_n_satisfied_interests s) (fs_n_unsatisfied_interests s) (fs_flags s) (fs_n_lp_acks_received s) (fs_n_lp_resent_packets s) (fs_n_lp_rto_expirations s) (fs_n_congestion_marks_sent s) (fs_n_congestion_marks_received s) (fs_effective_mtu s) (fs_feature_set s) (fs_rto_micros s) (fs_n_reasm_fragments_in s) (fs_n_reasm_completed s) (fs_n_reasm_timed_out s) x (fs_n_lp_unacked_evictions s) (fs_n_lp_fast_retx s) (fs_n_reasm_fragments_rejected s) (fs_n_reasm_groups_evicted s).
Definition set_n_lp_unacked_evictions (x : option Z) (s : FaceStatus) : FaceStatus :=
  mkFaceStatus (fs_face_id s) (fs_uri s) (fs_local_uri s) (fs_face_scope s) (fs_face_persistency s) (fs_link_type s) (fs_mtu s) (fs_base_congestion_marking_interval s) (fs_default_congestion_threshold s) (fs_n_in_interests s) (fs_n_in_data s) (fs_n_in_nacks s) (fs_n_out_interests s) (fs_n_out_data s) (fs_n_out_nacks s) (fs_n_in_bytes s) (fs_n_out_bytes s) (fs_n_satisfied_interests s) (fs_n_unsatisfied_interests s) (fs_flags s) (fs_n_lp_acks_received s) (fs_n_lp_resent_packets s) (fs_n_lp_rto_expirations s) (fs_n_congestion_marks_sent s) (fs_n_congestion_marks_received s) (fs_effective_mtu s) (fs_feature_set s) (fs_rto_micros s) (fs_n_reasm_fragments_in s) (fs_n_reasm_completed s) (fs_n_reasm_timed_out s) (fs_n_reasm_fragments_wasted s) x (fs_n_lp_fast_retx s) (fs_n_reasm_fragments_rejected s) (fs_n_reasm_groups_evicted s).
Definition set_n_lp_fast_retx (x : option Z) (s : FaceStatus) : FaceStatus :=
  mkFaceStatus (fs_face_id s) (fs_uri s) (fs_local_uri s) (fs_face_scope s) (fs_face_persistency s) (fs_link_type s) (fs_mtu s) (fs_base_congestion_marking_interval s) (fs_default_congestion_threshold s) (fs_n_in_interests s) (fs_n_in_data s) (fs_n_in_nacks s) (fs_n_out_interests s) (fs_n_out_data s) (fs_n_out_nacks s) (fs_n_in_bytes s) (fs_n_out_bytes s) (fs_n_satisfied_interests s) (fs_n_unsatisfied_interests s) (fs_flags s) (fs_n_lp_acks_received s) (fs_n_lp_resent_packets s) (fs_n_lp_rto_expirations s) (fs_n_congestion_marks_sent s) (fs_n_congestion_marks_received s) (fs_effective_mtu s) (fs_feature_set s) (fs_rto_micros s) (fs_n_reasm_fragments_in s) (fs_n_reasm_completed s) (fs_n_reasm_timed_out s) (fs_n_reasm_fragments_wasted s) (fs_n_lp_unacked_evictions s) x (fs_n_reasm_fragments_rejected s) (fs_n_reasm_groups_evicted s).
Definition set_n_reasm_fragments_rejected (x : option Z) (s : FaceStatus) : FaceStatus :=
  mkFaceStatus (fs_face_id s) (fs_uri s) (fs_local_uri s) (fs_face_scope s) (fs_face_persistency s) (fs_link_type s) (fs_mtu s) (fs_base_congestion_marking_interval s) (fs_default_congestion_threshold s) (fs_n_in_interests s) (fs_n_in_data s) (fs_n_in_nacks s) (fs_n_out_interests s) (fs_n_out_data s) (fs_n_out_nacks s) (fs_n_in_bytes s) (fs_n_out_bytes s) (fs_n_satisfied_interests s) (fs_n_unsatisfied_interests s) (fs_flags s) (fs_n_lp_acks_received s) (fs_n_lp_resent_packets s) (fs_n_lp_rto_expirations s) (fs_n_congestion_marks_sent s) (fs_n_congestion_marks_received s) (fs_effective_mtu s) (fs_feature_set s) (fs_rto_micros s) (fs_n_reasm_fragments_in s) (fs_n_reasm_completed s) (fs_n_reasm_timed_out s) (fs_n_reasm_fragments_wasted s) (fs_n_lp_unacked_evictions s) (fs_n_lp_fast_retx s) x (fs_n_reasm_groups_evicted s).
Definition set_n_reasm_groups_evicted (x : option Z) (s : FaceStatus) : FaceStatus :=
  mkFaceStatus (fs_face_id s) (fs_uri s) (fs_local_uri s) (fs_face_scope s) (fs_face_persistency s) (fs_link_type s) (fs_mtu s) (fs_base_congestion_marking_interval s) (fs_default_congestion_threshold s) (fs_n_in_interests s) (fs_n_in_data s) (fs_n_in_nacks s) (fs_n_out_interests s) (fs_n_out_data s) (fs_n_out_nacks s) (fs_n_in_bytes s) (fs_n_out_bytes s) (fs_n_satisfied_interests s) (fs_n_unsatisfied_interests s) (fs_flags s) (fs_n_lp_acks_received s) (fs_n_lp_resent_packets s) (fs_n_lp_rto_expirations s) (fs_n_congestion_marks_sent s) (fs_n_congestion_marks_received s) (fs_effective_mtu s) (fs_feature_set s) (fs_rto_micros s) (fs_n_reasm_fragments_in s) (fs_n_reasm_completed s) (fs_n_reasm_timed_out s) (fs_n_reasm_fragments_wasted s) (fs_n_lp_unacked_evictions s) (fs_n_lp_fast_retx s) (fs_n_reasm_fragments_rejected s) x.

Definition encode_inner (s : FaceStatus) (w : TlvWriter.TlvWriter) : TlvWriter.TlvWriter :=
  let w := write_non_neg_int w ds_tlv.FACE_ID (fs_face_id s) in
  let w := TlvWriter.write_tlv w ds_tlv.URI (fs_uri s) in
  let w := TlvWriter.write_tlv w ds_tlv.LOCAL_URI (fs_local_uri s) in
  let w := write_non_neg_int w ds_tlv.FACE_SCOPE (fs_face_scope s) in
  let w := write_non_neg_int w ds_tlv.FACE_PERSISTENCY (fs_face_persistency s) in
  let w := write_non_neg_int w ds_tlv.LINK_TYPE (fs_link_type s) in
  let w := put (fs_base_congestion_marking_interval s) (fun v w => write_non_neg_int w ds_tlv.BASE_CONGESTION_MARKING_INTERVAL v) w in
  let w := put (fs_default_congestion_threshold s) (fun v w => write_non_neg_int w ds_tlv.DEFAULT_CONGESTION_THRESHOLD v) w in
  let w := put (fs_mtu s) (fun v w => write_non_neg_int w ds_tlv.MTU v) w in
  let w := write_non_neg_int w ds_tlv.N_IN_INTERESTS (fs_n_in_interests s) in
  let w := write_non_neg_int w ds_tlv.N_IN_DATA (fs_n_in_data s) in
  let w := write_non_neg_int w ds_tlv.N_IN_NACKS (fs_n_in_nacks s) in
  let w := write_non_neg_int w ds_tlv.N_OUT_INTERESTS (fs_n_out_interests s) in
  let w := write_non_neg_int w ds_tlv.N_OUT_DATA (fs_n_out_data s) in
  let w := write_non_neg_int w ds_tlv.N_OUT_NACKS (fs_n_out_nacks s) in
  let w := write_non_neg_int w ds_tlv.N_IN_BYTES (fs_n_in_bytes s) in
  let w := write_non_neg_int w ds_tlv.N_OUT_BYTES (fs_n_out_bytes s) in
  let w := write_non_neg_int w ds_tlv.FLAGS (fs_flags s) in
  let w := put (fs_n_lp_acks_received s) (fun v w => write_non_neg_int w ds_tlv.N_LP_ACKS_RECEIVED v) w in
  let w := put (fs_n_lp_resent_packets s) (fun v w => write_non_neg_int w ds_tlv.N_LP_RESENT_PACKETS v) w in
  let w := put (fs_n_lp_rto_expirations s) (fun v w => write_non_neg_int w ds_tlv.N_LP_RTO_EXPIRATIONS v) w in
  let w := put (fs_n_congestion_marks_sent s) (fun v w => write_non_neg_int w ds_tlv.N_CONGESTION_MARKS_SENT v) w in
  let w := put (fs_n_congestion_marks_received s) (fun v w => write_non_neg_int w ds_tlv.N_CONGESTION_MARKS_RECEIVED v) w in
  let w := put (fs_effective_mtu s) (fun v w => write_non_neg_int w ds_tlv.EFFECTIVE_MTU v) w in
  let w := write_features (fs_feature_set s) w in
  let w := put (fs_rto_micros s) (fun v w => write_non_neg_int w ds_tlv.RTO_MICROS v) w in
  let w := put (fs_n_reasm_fragments_in s) (fun v w => write_non_neg_int w ds_tlv.N_REASM_FRAGMENTS_IN v) w in
  let w := put (fs_n_reasm_completed s) (fun v w => write_non_neg_int w ds_tlv.N_REASM_COMPLETED v) w in
  let w := put (fs_n_reasm_timed_out s) (fun v w => write_non_neg_int w ds_tlv.N_REASM_TIMED_OUT v) w in
  let w := put (fs_n_reasm_fragments_wasted s) (fun v w => write_non_neg_int w ds_tlv.N_REASM_FRAGMENTS_WASTED v) w in
  let w := put (fs_n_lp_fast_retx s) (fun v w => write_non_neg_int w ds_tlv.N_LP_FAST_RETX v) w in
  let w := put (fs_n_lp_unacked_evictions s) (fun v w => write_non_neg_int w ds_tlv.N_LP_UNACKED_EVICTIONS v) w in
  let w := put (fs_n_reasm_fragments_rejected s) (fun v w => write_non_neg_int w ds_tlv.N_REASM_FRAGMENTS_REJECTED v) w in
  let w := put (fs_n_reasm_groups_evicted s) (fun v w => write_non_neg_int w ds_tlv.N_REASM_GROUPS_EVICTED v) w in
  w.

Definition encode (s : FaceStatus) : bytes := TlvWriter.finish (TlvWriter.write_nested TlvWriter.new ds_tlv.FACE_STATUS (encode_inner s)).

Definition decode_body (s : FaceStatus) (t : Z) (v : bytes) : result FaceStatus Stop :=
  if t =? ds_tlv.FACE_ID then let? x := ok_or (ds_read_non_neg_int v) NoEntry in Ok (set_face_id x s)
  else if t =? ds_tlv.URI then let? x := ok_or (from_utf8 v) NoEntry in Ok (set_uri x s)
  else if t =? ds_tlv.LOCAL_URI then let? x := ok_or (from_utf8 v) NoEntry in Ok (set_local_uri x s)
  else if t =? ds_tlv.FACE_SCOPE then let? x := ok_or (ds_read_non_neg_int v) NoEntry in Ok (set_face_scope x s)
  else if t =? ds_tlv.FACE_PERSISTENCY then let? x := ok_or (ds_read_non_neg_int v) NoEntry in Ok (set_face_persistency x s)
  else if t =? ds_tlv.LINK_TYPE then let? x := ok_or (ds_read_non_neg_int v) NoEntry in Ok (set_link_type x s)
  else if t =? ds_tlv.MTU then Ok (set_mtu (ds_read_non_neg_int v) s)
  else if t =? ds_tlv.BASE_CONGESTION_MARKING_INTERVAL then Ok (set_base_congestion_marking_interval (ds_read_non_neg_int v) s)
  else if t =? ds_tlv.DEFAULT_CONGESTION_THRESHOLD then Ok (set_default_congestion_threshold (ds_read_non_neg_int v) s)
  else if t =? ds_tlv.N_IN_INTERESTS then let? x := ok_or (ds_read_non_neg_int v) NoEntry in Ok (set_n_in_interests x s)
  else if t =? ds_tlv.N_IN_DATA then let? x := ok_or (ds_read_non_neg_int v) NoEntry in Ok (set_n_in_data x s)
  else if t =? ds_tlv.N_IN_NACKS then let? x := ok_or (ds_read_non_neg_int v) NoEntry in Ok (set_n_in_nacks x s)
  else if t =? ds_tlv.N_OUT_INTERESTS then let? x := ok_or (ds_read_non_neg_int v) NoEntry in Ok (set_n_out_interests x s)
  else if t =? ds_tlv.N_OUT_DATA then let? x := ok_or (ds_read_non_neg_int v) NoEntry in Ok (set_n_out_data x s)
  else if t =? ds_tlv.N_OUT_NACKS then let? x := ok_or (ds_read_non_neg_int v) NoEntry in Ok (set_n_out_nacks x s)
  else if t =? ds_tlv.N_IN_BYTES then let? x := ok_or (ds_read_non_neg_int v) NoEntry in Ok (set_n_in_bytes x s)
  else if t =? ds_tlv.N_OUT_BYTES then let? x := ok_or (ds_read_non_neg_int v) NoEntry in Ok (set_n_out_bytes x s)
  else if t =? ds_tlv.N_SATISFIED_INTERESTS then let? x := ok_or (ds_read_non_neg_int v) NoEntry in Ok (set_n_satisfied_interests x s)
  else if t =? ds_tlv.N_UNSATISFIED_INTERESTS then let? x := ok_or (ds_read_non_neg_int v) NoEntry in Ok (set_n_unsatisfied_interests x s)
  else if t =? ds_tlv.FLAGS then let? x := ok_or (ds_read_non_neg_int v) NoEntry in Ok (set_flags x s)
  else if t =? ds_tlv.N_LP_ACKS_RECEIVED then Ok (set_n_lp_acks_received (ds_read_non_neg_int v) s)
  else if t =? ds_tlv.N_LP_RESENT_PACKETS then Ok (set_n_lp_resent_packets (ds_read_non_neg_int v) s)
  else if t =? ds_tlv.N_LP_RTO_EXPIRATIONS then Ok (set_n_lp_rto_expirations (ds_read_non_neg_int v) s)
  else if t =? ds_tlv.N_CONGESTION_MARKS_SENT then Ok (set_n_congestion_marks_sent (ds_read_non_neg_int v) s)
  else if t =? ds_tlv.N_CONGESTION_MARKS_RECEIVED then Ok (set_n_congestion_marks_received (ds_read_non_neg_int v) s)
  else if t =? ds_tlv.EFFECTIVE_MTU then Ok (set_effective_mtu (ds_read_non_neg_int v) s)
  else if t =? ds_tlv.FEATURE_SET then let? x := tlv_each NoEntry feature_body v (fs_feature_set s) in Ok (set_feature_set x s)
  else if t =? ds_tlv.RTO_MICROS then Ok (set_rto_micros (ds_read_non_neg_int v) s)
  else if t =? ds_tlv.N_REASM_FRAGMENTS_IN then Ok (set_n_reasm_fragments_in (ds_read_non_neg_int v) s)
  else if t =? ds_tlv.N_REASM_COMPLETED then Ok (set_n_reasm_completed (ds_read_non_neg_int v) s)
  else if t =? ds_tlv.N_REASM_TIMED_OUT then Ok (set_n_reasm_timed_out (ds_read_non_neg_int v) s)
  else if t =? ds_tlv.N_REASM_FRAGMENTS_WASTED then Ok (set_n_reasm_fragments_wasted (ds_read_non_neg_int v) s)
  else if t =? ds_tlv.N_LP_UNACKED_EVICTIONS then Ok (set_n_lp_unacked_evictions (ds_read_non_neg_int v) s)
  else if t =? ds_tlv.N_LP_FAST_RETX then Ok (set_n_lp_fast_retx (ds_read_non_neg_int v) s)
  else if t =? ds_tlv.N_REASM_FRAGMENTS_REJECTED then Ok (set_n_reasm_fragments_rejected (ds_read_non_neg_int v) s)
  else if t =? ds_tlv.N_REASM_GROUPS_EVICTED then Ok (set_n_reasm_groups_evicted (ds_read_non_neg_int v) s)
  else Ok s.

Definition decode (buf : bytes) : result FaceStatus Stop * bytes :=
  match open_entry ds_tlv.FACE_STATUS buf with
  | (Err e, buf) => (Err e, buf)
  | (Ok val, buf) => (tlv_each NoEntry decode_body val default_, buf)
  end.

Definition decode_all (fuel : nat) (b : bytes) : option (list FaceStatus) := decode_all_entries fuel decode b [].

Definition persistency_str (s : FaceStatus) : string :=
  if fs_face_persistency s =? 0 then "persistent" else if fs_face_persistency s =? 1 then "on-demand"
  else if fs_face_persistency s =? 2 then "permanent" else "unknown".

Definition scope_str (s : FaceStatus) : string := if fs_face_scope s =? 1 then "local" else "non-local".

End FaceStatus.

(** ** FIB entries *)

Record NextHopRecord : Type := mkNextHopRecord { nhr_face_id : Z; nhr_cost : Z }.
Record FibEntry : Type := mkFibEntry { fe_name : Name; fe_nexthops : list NextHopRecord }.

Module FibEntry.

Definition encode (e : FibEntry) : bytes :=
  TlvWriter.finish (TlvWriter.write_nested TlvWriter.new ds_tlv.ENTRY (fun w =>
    fold_left (fun w nh => TlvWriter.write_nested w ds_tlv.NEXT_HOP_RECORD (fun w =>
      write_non_neg_int (write_non_neg_int w ds_tlv.FACE_ID (nhr_face_id nh)) ds_tlv.COST (nhr_cost nh)))
      (fe_nexthops e) (encode_name w (fe_name e)))).

Definition record_body (s : NextHopRecord) (nt : Z) (nv : bytes) : NextHopRecord :=
  if nt =? ds_tlv.FACE_ID then mkNextHopRecord (default 0 (ds_read_non_neg_int nv)) (nhr_cost s)
  else if nt =? ds_tlv.COST then mkNextHopRecord (nhr_face_id s) (default 0 (ds_read_non_neg_int nv))
  else s.

Definition decode_body (fuel : nat) (s : option Name * list NextHopRecord) (t : Z) (v : bytes) : result (option Name * list NextHopRecord) Stop :=
  if t =? ds_tlv.NAME then Ok (ds_decode_name v, s.2)
  else if t =? ds_tlv.NEXT_HOP_RECORD then
    let? nh := ok_or (lenient_loop fuel record_body (TlvReader.new v) (mkNextHopRecord 0 0)) Hangs in Ok (s.1, s.2 ++ [nh])
  else Ok s.

Definition decode (fuel : nat) (buf : bytes) : result FibEntry Stop * bytes :=
  match open_entry ds_tlv.ENTRY buf with
  | (Err e, buf) => (Err e, buf)
  | (Ok val, buf) =>
      (let? (name, nexthops) := tlv_each NoEntry (decode_body fuel) val (None, []) in
       Ok (mkFibEntry (default NameOps.root name) nexthops), buf)
  end.

Definition decode_all (fuel : nat) (b : bytes) : option (list FibEntry) := decode_all_entries fuel (decode fuel) b [].

End FibEntry.

(** ** RIB entries *)

Record Route : Type := mkRoute { rt_face_id : Z; rt_origin : Z; rt_cost : Z; rt_flags : Z; rt_expiration_period : option Z }.
Record RibEntry : Type := mkRibEntry { re_name : Name; re_routes : list Route }.

Module RibEntry.

Definition write_route (w : TlvWriter.TlvWriter) (route : Route) : TlvWriter.TlvWriter :=
  TlvWriter.write_nested w ds_tlv.ROUTE (fun w =>
    let w := write_non_neg_int w ds_tlv.FACE_ID (rt_face_id route) in
    let w := write_non_neg_int w ds_tlv.ORIGIN (rt_origin route) in
    let w := write_non_neg_int w ds_tlv.COST (rt_cost route) in
    let w := write_non_neg_int w ds_tlv.FLAGS (rt_flags route) in
    put (rt_expiration_period route) (fun ep w => write_non_neg_int w ds_tlv.EXPIRATION_PERIOD ep) w).

Definition encode (e : RibEntry) : bytes :=
  TlvWriter.finish (TlvWriter.write_nested TlvWriter.new ds_tlv.ENTRY (fun w => fold_left write_route (re_routes e) (encode_name w (re_name e)))).

Definition route_body (s : Route) (t : Z) (v : bytes) : Route :=
  let 'mkRoute face_id origin cost flags expiration_period := s in
  if t =? ds_tlv.FACE_ID then mkRoute (default 0 (ds_read_non_neg_int v)) origin cost flags expiration_period
  else if t =? ds_tlv.ORIGIN then mkRoute face_id (default 0 (ds_read_non_neg_int v)) cost flags expiration_period
  else if t =? ds_tlv.COST then mkRoute face_id origin (default 0 (ds_read_non_neg_int v)) flags expiration_period
  else if t =? ds_tlv.FLAGS then mkRoute face_id origin cost (default 0 (ds_read_non_neg_int v)) expiration_period
  else if t =? ds_tlv.EXPIRATION_PERIOD then mkRoute face_id origin cost flags (ds_read_non_neg_int v)
  else s.

Definition decode_body (fuel : nat) (s : option Name * list Route) (t : Z) (v : bytes) : result (option Name * list Route) Stop :=
  if t =? ds_tlv.NAME then Ok (ds_decode_name v, s.2)
  else if t =? ds_tlv.ROUTE then
    let? route := ok_or (lenient_loop fuel route_body (TlvReader.new v) (mkRoute 0 0 0 0 None)) Hangs in Ok (s.1, s.2 ++ [route])
  else Ok s.

Definition decode (fuel : nat) (buf : bytes) : result RibEntry Stop * bytes :=
  match open_entry ds_tlv.ENTRY buf with
  | (Err e, buf) => (Err e, buf)
  | (Ok val, buf) =>
      (let? (name, routes) := tlv_each NoEntry (decode_body fuel) val (None, []) in
       Ok (mkRibEntry (default NameOps.root name) routes), buf)
  end.

Definition decode_all (fuel : nat) (b : bytes) : option (list RibEntry) := decode_all_entries fuel (decode fuel) b [].

End RibEntry.

(** ** Strategy choices *)

Record StrategyChoice : Type := mkStrategyChoice { sc_name : Name; sc_strategy : Name }.

Module StrategyChoice.

Definition encode (c : StrategyChoice) : bytes :=
  TlvWriter.finish (TlvWriter.write_nested TlvWriter.new ds_tlv.ENTRY (fun w =>
    TlvWriter.write_nested (encode_name w (sc_name c)) ds_tlv.STRATEGY_WRAPPER (fun w => encode_name w (sc_strategy c)))).

Definition decode_body (s : option Name * option Name) (t : Z) (v : bytes) : result (option Name * option Name) Stop :=
  if t =? ds_tlv.NAME then Ok (ds_decode_name v, s.2)
  else if t =? ds_tlv.STRATEGY_WRAPPER then
    match TlvReader.read_tlv (TlvReader.new v) with
    | (Ok (st, sv), _) => if st =? ds_tlv.NAME then Ok (s.1, ds_decode_name sv) else Ok s
    | (Err _, _) => Ok s
    end
  else Ok s.

Definition decode (buf : bytes) : result StrategyChoice Stop * bytes :=
  match open_entry ds_tlv.ENTRY buf with
  | (Err e, buf) => (Err e, buf)
  | (Ok val, buf) =>
      (let? (name, strategy) := tlv_each NoEntry decode_body val (None, None) in
       Ok (mkStrategyChoice (default NameOps.root name) (default NameOps.root strategy)), buf)
  end.

Definition decode_all (fuel : nat) (b : bytes) : option (list StrategyChoice) := decode_all_entries fuel decode b [].

End StrategyChoice.

(** ** One entry off a buffer *)

Lemma remaining_as_bytes r : TlvReader.wf r -> TlvReader.remaining r = zlen (TlvReader.as_bytes r).
Proof. intros (_ & ? & ?). unfold TlvReader.remaining, TlvReader.as_bytes. rewrite zlen_slice_from; lia. Qed.

Lemma open_entry_ok t v rest : is_u32 t -> wf_bytes (tlv_bytes t v ++ rest) -> zlen (tlv_bytes t v ++ rest) <= usize_max ->
  open_entry t (tlv_bytes t v ++ rest) = (Ok v, rest).
Proof.
  intros Ht Hwf Hl. unfold open_entry.
  destruct (read_tlv_ok (TlvReader.new (tlv_bytes t v ++ rest)) t v rest) as (r & -> & Hb & Hr); [by apply new_wf|done|by rewrite as_bytes_new|].
  rewrite Z.eqb_refl. cbn [negb]. rewrite remaining_as_bytes, Hb, zlen_app by done. unfold slice_from_.
  replace (Z.to_nat _) with (length (tlv_bytes t v)) by (unfold zlen; lia). by rewrite drop_app_length.
Qed.

Lemma open_entry_shorter t buf v rest : wf_bytes buf -> zlen buf <= usize_max -> open_entry t buf = (Ok v, rest) ->
  (length rest < length buf)%nat /\ wf_bytes rest /\ zlen rest <= usize_max.
Proof.
  intros Hwf Hl. unfold open_entry. pose proof (new_wf buf Hwf Hl) as Hn.
  destruct (TlvReader.read_tlv (TlvReader.new buf)) as [[[t' v']|] r] eqn:E; [|done]. destruct (negb _); [done|]. intros [= <- <-].
  destruct (read_tlv_inv _ _ _ _ Hn E) as (Hb & _ & Hr). rewrite as_bytes_new in Hb.
  rewrite remaining_as_bytes by done. unfold slice_from_. set (rest := TlvReader.as_bytes r) in *.
  rewrite Hb in Hwf, Hl |- *. apply wf_bytes_app in Hwf as [_ Hw2]. rewrite zlen_app in *. pose proof (zlen_tlv_bytes t' v').
  replace (Z.to_nat _) with (length (tlv_bytes t' v')) by (unfold zlen; lia). rewrite drop_app_length, length_app.
  pose proof (tlv_size_bounds t' _ (zlen_nonneg v')). pose proof (zlen_nonneg rest). pose proof (zlen_nonneg v').
  split_conj; [unfold zlen in *; lia|done|lia].
Qed.

(** ** Whole datasets *)

Lemma encode_dataset_concat {T} (f : T -> bytes) items : encode_dataset items f = concat (map f items).
Proof.
  unfold encode_dataset. enough (forall acc, fold_left (fun buf item => buf ++ f item) items acc = acc ++ concat (map f items)) as H by (rewrite H; done).
  induction items as [|x items IH]; intros acc; cbn [fold_left map concat]; [by rewrite app_nil_r|]. by rewrite IH, app_assoc.
Qed.

(** What an entry promises to the reader of a dataset: it is one element, which
    the reader of one entry turns into [sent x] for any bound that exceeds its
    length, whatever follows. *)
Class EntryCodec {T} (ok : T -> Prop) (entry_type : Z) (encode : T -> bytes) (sent : T -> T) (decode : nat -> bytes -> result T Stop * bytes) : Prop := {
  entry_elem x : ok x -> exists v, encode x = tlv_bytes entry_type v /\ wf_bytes v /\
    forall fuel rest, (length v < fuel)%nat -> wf_bytes rest -> zlen (encode x ++ rest) <= usize_max -> decode fuel (encode x ++ rest) = (Ok (sent x), rest);
  entry_type_ok : is_u32 entry_type
}.

Section dataset.
Context {T} {ok : T -> Prop} {entry_type : Z} {encode : T -> bytes} {sent : T -> T} {decode : nat -> bytes -> result T Stop * bytes}.
Context {codec : EntryCodec ok entry_type encode sent decode}.

Lemma entry_wf x : ok x -> wf_bytes (encode x) /\ (0 < length (encode x))%nat.
Proof.
  intros Hx. destruct (entry_elem x Hx) as (v & -> & Hv & _). split.
  - apply wf_tlv_bytes; [|done]. pose proof entry_type_ok. unfold_bounds. lia.
  - pose proof (tlv_bytes_nonempty entry_type v []) as H. rewrite app_nil_r in H. destruct (tlv_bytes entry_type v); [done|cbn; lia].
Qed.

Lemma listed_wf items : Forall ok items -> wf_bytes (concat (map encode items)).
Proof. induction 1 as [|x items Hx _ IH]; cbn [map concat]; [constructor|]. apply wf_bytes_app. split; [by apply entry_wf|done]. Qed.

Lemma decode_listed_ok N items : forall fuel out, Forall ok items -> zlen (concat (map encode items)) <= usize_max ->
  (length (concat (map encode items)) < fuel)%nat -> (length (concat (map encode items)) < N)%nat ->
  decode_all_entries fuel (decode N) (concat (map encode items)) out = Some (out ++ map sent items).
Proof.
  induction items as [|x items IH]; intros [|fuel] out Hok Hl Hf HN; try lia; cbn [decode_all_entries map concat]; [by rewrite app_nil_r|].
  apply Forall_cons in Hok as [Hx Hok]. destruct (entry_wf x Hx) as [_ Hne]. destruct (entry_elem x Hx) as (v & Hv & _ & Hd).
  cbn [map concat] in Hl, Hf, HN. rewrite length_app in Hf, HN.
  assert (length v < N)%nat as Hlt.
  { pose proof (zlen_tlv_bytes entry_type v) as Hz. pose proof (tlv_size_bounds entry_type _ (zlen_nonneg v)). rewrite Hv in HN. unfold zlen in *. lia. }
  destruct (encode x ++ concat (map encode items)) as [|y l] eqn:E; [destruct (encode x); [cbn in Hne; lia|done]|]. rewrite <- E in Hl |- *.
  rewrite Hd by (done || by apply listed_wf). rewrite zlen_app in Hl. pose proof (zlen_nonneg (encode x)).
  rewrite IH by (done || lia). by rewrite <- app_assoc.
Qed.

Lemma decode_dataset fuel items : Forall ok items -> zlen (encode_dataset items encode) <= usize_max ->
  (length (encode_dataset items encode) < fuel)%nat ->
  decode_all_entries fuel (decode fuel) (encode_dataset items encode) [] = Some (map sent items).
Proof. rewrite encode_dataset_concat. intros Hok Hl Hf. by apply decode_listed_ok. Qed.

End dataset.

(** ** Fields *)

Lemma ds_read_ok v : is_u64 v -> ds_read_non_neg_int (encode_non_neg_int v) = Some v.
Proof.
  intros Hv. pose proof (read_nni_ok v Hv) as H. unfold read_non_neg_int in H. unfold ds_read_non_neg_int. cbv zeta in *.
  destruct (_ || _); [by injection H as ->|done].
Qed.

Lemma from_utf8_ok s : string_ok s -> from_utf8 s = Some s.
Proof. intros [H _]. unfold from_utf8. by rewrite H. Qed.

Lemma ds_fold_components n : forall acc, fold_each (fun cs t v => Ok (E := unit) (cs ++ [mkComponent t v])) (map (fun c => (typ c, value c)) n) acc = Ok (acc ++ n).
Proof. induction n as [|c n IH]; intros acc; cbn [map fold_each]; [by rewrite app_nil_r|]. rewrite IH, <- app_assoc. by destruct c. Qed.

Lemma ds_decode_name_ok n : wf_name n -> zlen (name_wire n) <= usize_max -> ds_decode_name (name_wire n) = Some n.
Proof.
  intros Hn Hl. unfold ds_decode_name. rewrite name_wire_elems in Hl |- *. rewrite tlv_each_elems; [|by apply Forall_map|done].
  rewrite ds_fold_components. by destruct n.
Qed.

Lemma lenient_elems {S} (body : S -> Z -> bytes -> S) es : forall fuel r s, TlvReader.wf r -> Forall wf_elem es ->
  TlvReader.as_bytes r = elems_wire es -> (length es < fuel)%nat ->
  lenient_loop fuel body r s = Some (fold_left (fun s e => body s e.1 e.2) es s).
Proof.
  induction es as [|[t v] es IH]; intros [|fuel] r s Hr Hes Hb Hf; try (cbn in Hf; lia); cbn [lenient_loop fold_left].
  - by rewrite read_empty.
  - destruct (read_elem r t v es Hr Hes Hb) as (-> & r' & -> & Hr' & _ & Hb' & _). apply Forall_cons in Hes as [_ Hes].
    apply IH; [done|done|done|cbn in Hf; lia].
Qed.

Lemma lenient_record {S} (body : S -> Z -> bytes -> S) es fuel s : Forall wf_elem es -> zlen (elems_wire es) <= usize_max ->
  (length (elems_wire es) < fuel)%nat ->
  lenient_loop fuel body (TlvReader.new (elems_wire es)) s = Some (fold_left (fun s e => body s e.1 e.2) es s).
Proof.
  intros Hes Hl Hf. pose proof (length_elems_wire es). apply lenient_elems; [apply new_wf; [by apply wf_elems_wire|done]|done|apply as_bytes_new|lia].
Qed.

Lemma entry_value_le t v : (length v <= length (tlv_bytes t v))%nat.
Proof. pose proof (zlen_tlv_bytes t v). pose proof (tlv_size_bounds t _ (zlen_nonneg v)). unfold zlen in *. lia. Qed.

Lemma elem_value_length t v es : (t, v) ∈ es -> (length v <= length (elems_wire es))%nat.
Proof. intros H%elem_value_size. unfold zlen in H. lia. Qed.

(** The elements of an entry are written in a block of its type. *)
Lemma encode_entry t f es : is_u64 t -> TlvWriter.buf (f TlvWriter.new) = elems_wire es -> zlen (elems_wire es) <= usize_max ->
  TlvWriter.finish (TlvWriter.write_nested TlvWriter.new t f) = tlv_bytes t (elems_wire es).
Proof.
  intros Ht Hf Hl. unfold TlvWriter.finish. rewrite (write_nested_elems _ [] _ _ (elems_wire es)); [apply elems_wire_one|done|done|done|unfold_bounds; lia].
Qed.

Lemma nni_elem t v : is_u32 t -> wf_elem (t, encode_non_neg_int v).
Proof. split; [done|apply wf_encode_nni]. Qed.

Lemma write_nni_elems w es t v : TlvWriter.buf w = elems_wire es -> is_u64 t ->
  TlvWriter.buf (write_non_neg_int w t v) = elems_wire (es ++ [(t, encode_non_neg_int v)]).
Proof. intros Hw Ht. unfold write_non_neg_int. pose proof (zlen_encode_nni v). apply write_tlv_elems; [done|done|unfold_bounds; lia]. Qed.

Lemma put_nni_elems w es t o : TlvWriter.buf w = elems_wire es -> is_u64 t ->
  TlvWriter.buf (put o (fun v w => write_non_neg_int w t v) w) = elems_wire (es ++ opt_elem t (encode_non_neg_int <$> o)).
Proof. intros Hw Ht. apply put_step; [done|]. intros a _ Hb. by apply write_nni_elems. Qed.

(** ** Next hops *)

Definition nexthop_elem (nh : NextHopRecord) : elem :=
  (ds_tlv.NEXT_HOP_RECORD, elems_wire [(ds_tlv.FACE_ID, encode_non_neg_int (nhr_face_id nh)); (ds_tlv.COST, encode_non_neg_int (nhr_cost nh))]).
Definition nexthop_ok (nh : NextHopRecord) : Prop := is_u64 (nhr_face_id nh) /\ is_u64 (nhr_cost nh).
Definition fib_elems (e : FibEntry) : list elem := (ds_tlv.NAME, name_wire (fe_name e)) :: map nexthop_elem (fe_nexthops e).
Definition fib_entry_ok (e : FibEntry) : Prop :=
  wf_name (fe_name e) /\ Forall nexthop_ok (fe_nexthops e) /\ zlen (elems_wire (fib_elems e)) <= usize_max.

Lemma wf_nexthop_inner nh : Forall wf_elem [(ds_tlv.FACE_ID, encode_non_neg_int (nhr_face_id nh)); (ds_tlv.COST, encode_non_neg_int (nhr_cost nh))].
Proof. repeat (apply Forall_cons; split; [apply nni_elem; by vm_compute|]). constructor. Qed.

Lemma wf_fib_elems e : wf_name (fe_name e) -> Forall wf_elem (fib_elems e).
Proof.
  intros Hn. apply Forall_cons. split; [split; [by vm_compute|by apply wf_name_wire]|]. apply Forall_map, Forall_forall. intros nh _.
  split; [by vm_compute|]. apply wf_elems_wire, wf_nexthop_inner.
Qed.

Lemma write_nexthops nhs : forall w es, TlvWriter.buf w = elems_wire es ->
  TlvWriter.buf (fold_left (fun w nh => TlvWriter.write_nested w ds_tlv.NEXT_HOP_RECORD (fun w =>
    write_non_neg_int (write_non_neg_int w ds_tlv.FACE_ID (nhr_face_id nh)) ds_tlv.COST (nhr_cost nh))) nhs w) = elems_wire (es ++ map nexthop_elem nhs).
Proof.
  induction nhs as [|nh nhs IH]; intros w es Hw; cbn [fold_left map]; [by rewrite app_nil_r|].
  rewrite (cons_middle (nexthop_elem nh)), app_assoc. apply IH. apply write_nested_elems; [done|by vm_compute| |].
  - apply (write_nni_elems _ [(ds_tlv.FACE_ID, encode_non_neg_int (nhr_face_id nh))]); [|by vm_compute]. apply (write_nni_elems _ []); [done|by vm_compute].
  - cbn [elems_wire map concat fst snd]. rewrite !zlen_app, !zlen_tlv_bytes. pose proof (zlen_encode_nni (nhr_face_id nh)). pose proof (zlen_encode_nni (nhr_cost nh)).
    pose proof (tlv_size_bounds ds_tlv.FACE_ID _ (zlen_nonneg (encode_non_neg_int (nhr_face_id nh)))).
    pose proof (tlv_size_bounds ds_tlv.COST _ (zlen_nonneg (encode_non_neg_int (nhr_cost nh)))). rewrite zlen_nil. unfold_bounds. lia.
Qed.

Lemma fold_nexthops fuel nhs : forall name acc, Forall nexthop_ok nhs -> zlen (elems_wire (map nexthop_elem nhs)) <= usize_max ->
  (length (elems_wire (map nexthop_elem nhs)) < fuel)%nat ->
  fold_each (FibEntry.decode_body fuel) (map nexthop_elem nhs) (name, acc) = Ok (name, acc ++ nhs).
Proof.
  induction nhs as [|nh nhs IH]; intros name acc Hok Hl Hf; cbn [map fold_each]; [by rewrite app_nil_r|]. apply Forall_cons in Hok as [[H1 H2] Hok].
  cbn [map] in Hl, Hf. rewrite elems_wire_cons in Hl, Hf. rewrite zlen_app in Hl. rewrite length_app in Hf. pose proof (zlen_nonneg (elems_wire (map nexthop_elem nhs))).
  pose proof (entry_value_le (nexthop_elem nh).1 (nexthop_elem nh).2).
  cbn [nexthop_elem]. unfold FibEntry.decode_body at 1. cbn [Z.eqb]. rewrite Z.eqb_refl.
  replace (ds_tlv.NEXT_HOP_RECORD =? ds_tlv.NAME) with false by done.
  rewrite lenient_record; [|apply wf_nexthop_inner|cbn [nexthop_elem fst snd] in *; unfold zlen in *; lia|cbn [nexthop_elem fst snd] in *; lia].
  cbn [fold_left ok_or fst snd]. unfold FibEntry.record_body. rewrite !Z.eqb_refl. replace (ds_tlv.COST =? ds_tlv.FACE_ID) with false by done.
  rewrite !ds_read_ok by done. cbn [default nhr_face_id nhr_cost]. rewrite IH by (done || (unfold zlen in *; lia)). rewrite <- app_assoc. by destruct nh.
Qed.

Lemma encode_fib_entry e : fib_entry_ok e -> FibEntry.encode e = tlv_bytes ds_tlv.ENTRY (elems_wire (fib_elems e)).
Proof.
  intros (Hn & _ & Hl). apply encode_entry; [by vm_compute| |done]. apply (write_nexthops _ _ [(ds_tlv.NAME, name_wire (fe_name e))]).
  apply (encode_name_elems _ []); [done|done|]. pose proof (elem_value_size _ _ (fib_elems e) ltac:(by left)). lia.
Qed.

#[global] Instance fib_codec : EntryCodec fib_entry_ok ds_tlv.ENTRY FibEntry.encode id FibEntry.decode.
Proof.
  split; [|by vm_compute]. intros e He. exists (elems_wire (fib_elems e)). rewrite encode_fib_entry by done. destruct He as (Hn & Hok & Hl).
  split_conj; [done|by apply wf_elems_wire, wf_fib_elems|]. intros fuel rest Hf Hr Hz. unfold FibEntry.decode.
  rewrite open_entry_ok; [|by vm_compute|apply wf_bytes_app; split; [apply wf_tlv_bytes; [done|by apply wf_elems_wire, wf_fib_elems]|done]|done].
  rewrite tlv_each_elems by (done || by apply wf_fib_elems). pose proof (elem_value_size _ _ (fib_elems e) ltac:(by left)) as Hs.
  unfold fib_elems in Hl, Hf |- *. rewrite elems_wire_cons in Hl, Hf. rewrite zlen_app in Hl. rewrite length_app in Hf.
  pose proof (zlen_nonneg (tlv_bytes ds_tlv.NAME (name_wire (fe_name e)))). pose proof (zlen_nonneg (elems_wire (map nexthop_elem (fe_nexthops e)))).
  cbn [fold_each fst snd] in *. unfold FibEntry.decode_body at 1. rewrite Z.eqb_refl. cbn [snd].
  rewrite fold_nexthops by (done || lia). rewrite ds_decode_name_ok by (done || (unfold fib_elems in Hs; rewrite elems_wire_cons, zlen_app in Hs; cbn [fst snd] in Hs; lia)).
  cbn [default app id]. by destruct e.
Qed.

(** ** Routes *)

Definition route_elems (r : Route) : list elem :=
  [(ds_tlv.FACE_ID, encode_non_neg_int (rt_face_id r))] ++ [(ds_tlv.ORIGIN, encode_non_neg_int (rt_origin r))] ++
  [(ds_tlv.COST, encode_non_neg_int (rt_cost r))] ++ [(ds_tlv.FLAGS, encode_non_neg_int (rt_flags r))] ++
  opt_elem ds_tlv.EXPIRATION_PERIOD (encode_non_neg_int <$> rt_expiration_period r).
Definition route_elem (r : Route) : elem := (ds_tlv.ROUTE, elems_wire (route_elems r)).
Definition route_ok (r : Route) : Prop :=
  is_u64 (rt_face_id r) /\ is_u64 (rt_origin r) /\ is_u64 (rt_cost r) /\ is_u64 (rt_flags r) /\ (forall v, rt_expiration_period r = Some v -> is_u64 v).
Definition rib_elems (e : RibEntry) : list elem := (ds_tlv.NAME, name_wire (re_name e)) :: map route_elem (re_routes e).
Definition rib_entry_ok (e : RibEntry) : Prop :=
  wf_name (re_name e) /\ Forall route_ok (re_routes e) /\ zlen (elems_wire (rib_elems e)) <= usize_max.

Lemma wf_route_elems r : Forall wf_elem (route_elems r).
Proof.
  unfold route_elems. do 4 (apply Forall_app; split; [apply Forall_singleton; apply nni_elem; by vm_compute|]).
  apply wf_opt_elem; [by vm_compute|]. intros v (a & _ & ->)%fmap_Some. apply wf_encode_nni.
Qed.

Lemma wf_rib_elems e : wf_name (re_name e) -> Forall wf_elem (rib_elems e).
Proof.
  intros Hn. apply Forall_cons. split; [split; [by vm_compute|by apply wf_name_wire]|]. apply Forall_map, Forall_forall. intros r _.
  split; [by vm_compute|]. apply wf_elems_wire, wf_route_elems.
Qed.

Lemma write_routes rs : forall w es, TlvWriter.buf w = elems_wire es -> zlen (elems_wire (map route_elem rs)) <= usize_max ->
  TlvWriter.buf (fold_left RibEntry.write_route rs w) = elems_wire (es ++ map route_elem rs).
Proof.
  induction rs as [|r rs IH]; intros w es Hw Hl; cbn [fold_left map]; [by rewrite app_nil_r|].
  rewrite (cons_middle (route_elem r)), app_assoc. cbn [map] in Hl. rewrite elems_wire_cons, zlen_app in Hl.
  pose proof (zlen_nonneg (tlv_bytes (route_elem r).1 (route_elem r).2)). pose proof (zlen_nonneg (elems_wire (map route_elem rs))).
  pose proof (entry_value_le (route_elem r).1 (route_elem r).2). apply IH; [|lia]. apply write_nested_elems; [done|by vm_compute| |].
  - unfold route_elems. rewrite !app_assoc. apply put_nni_elems; [|by vm_compute]. repeat (apply write_nni_elems; [|by vm_compute]). 
    apply (write_nni_elems _ []); [done|by vm_compute].
  - cbn [route_elem fst snd] in *. unfold_bounds. unfold zlen in *. lia.
Qed.

Lemma fold_route r : route_ok r -> fold_left (fun s e => RibEntry.route_body s e.1 e.2) (route_elems r) (mkRoute 0 0 0 0 None) = r.
Proof.
  intros (H1 & H2 & H3 & H4 & H5). unfold route_elems. rewrite !fold_left_app. cbn [fold_left fst snd].
  unfold RibEntry.route_body at 5. rewrite Z.eqb_refl, (ds_read_ok _ H1). cbn [default].
  unfold RibEntry.route_body at 4. rewrite Z.eqb_refl, (ds_read_ok _ H2). replace (ds_tlv.ORIGIN =? ds_tlv.FACE_ID) with false by done. cbn [default].
  unfold RibEntry.route_body at 3. rewrite Z.eqb_refl, (ds_read_ok _ H3). replace (ds_tlv.COST =? ds_tlv.FACE_ID) with false by done.
  replace (ds_tlv.COST =? ds_tlv.ORIGIN) with false by done. cbn [default].
  unfold RibEntry.route_body at 2. rewrite Z.eqb_refl, (ds_read_ok _ H4). replace (ds_tlv.FLAGS =? ds_tlv.FACE_ID) with false by done.
  replace (ds_tlv.FLAGS =? ds_tlv.ORIGIN) with false by done. replace (ds_tlv.FLAGS =? ds_tlv.COST) with false by done. cbn [default].
  destruct r as [f o c fl [ep|]]; cbn in *; [|done]. by rewrite ds_read_ok by (by apply H5).
Qed.

Lemma fold_routes fuel rs : forall name acc, Forall route_ok rs -> zlen (elems_wire (map route_elem rs)) <= usize_max ->
  (length (elems_wire (map route_elem rs)) < fuel)%nat ->
  fold_each (RibEntry.decode_body fuel) (map route_elem rs) (name, acc) = Ok (name, acc ++ rs).
Proof.
  induction rs as [|r rs IH]; intros name acc Hok Hl Hf; cbn [map fold_each]; [by rewrite app_nil_r|]. apply Forall_cons in Hok as [H1 Hok].
  cbn [map] in Hl, Hf. rewrite elems_wire_cons in Hl, Hf. rewrite zlen_app in Hl. rewrite length_app in Hf. pose proof (zlen_nonneg (elems_wire (map route_elem rs))).
  pose proof (entry_value_le (route_elem r).1 (route_elem r).2). cbn [route_elem fst snd] in *. unfold RibEntry.decode_body at 1. rewrite Z.eqb_refl.
  replace (ds_tlv.ROUTE =? ds_tlv.NAME) with false by done.
  rewrite lenient_record; [|apply wf_route_elems|unfold zlen in *; lia|lia]. rewrite fold_route by done. cbn [ok_or fst snd].
  rewrite IH by (done || (unfold zlen in *; lia)). by rewrite <- app_assoc.
Qed.

Lemma encode_rib_entry e : rib_entry_ok e -> RibEntry.encode e = tlv_bytes ds_tlv.ENTRY (elems_wire (rib_elems e)).
Proof.
  intros (Hn & _ & Hl). pose proof (elem_value_size _ _ (rib_elems e) ltac:(by left)). apply encode_entry; [by vm_compute| |done].
  apply (write_routes _ _ [(ds_tlv.NAME, name_wire (re_name e))]).
  - apply (encode_name_elems _ []); [done|done|]. lia.
  - unfold rib_elems in Hl. rewrite elems_wire_cons, zlen_app in Hl. pose proof (zlen_nonneg (tlv_bytes ds_tlv.NAME (name_wire (re_name e)))). cbn [fst snd] in *. lia.
Qed.

#[global] Instance rib_codec : EntryCodec rib_entry_ok ds_tlv.ENTRY RibEntry.encode id RibEntry.decode.
Proof.
  split; [|by vm_compute]. intros e He. exists (elems_wire (rib_elems e)). rewrite encode_rib_entry by done. destruct He as (Hn & Hok & Hl).
  split_conj; [done|by apply wf_elems_wire, wf_rib_elems|]. intros fuel rest Hf Hr Hz. unfold RibEntry.decode.
  rewrite open_entry_ok; [|by vm_compute|apply wf_bytes_app; split; [apply wf_tlv_bytes; [done|by apply wf_elems_wire, wf_rib_elems]|done]|done].
  rewrite tlv_each_elems by (done || by apply wf_rib_elems). pose proof (elem_value_size _ _ (rib_elems e) ltac:(by left)) as Hs.
  unfold rib_elems in Hl, Hf |- *. rewrite elems_wire_cons in Hl, Hf. rewrite zlen_app in Hl. rewrite length_app in Hf.
  pose proof (zlen_nonneg (tlv_bytes ds_tlv.NAME (name_wire (re_name e)))). pose proof (zlen_nonneg (elems_wire (map route_elem (re_routes e)))).
  cbn [fold_each fst snd] in *. unfold RibEntry.decode_body at 1. rewrite Z.eqb_refl. cbn [snd].
  rewrite fold_routes by (done || lia). rewrite ds_decode_name_ok by (done || (unfold rib_elems in Hs; rewrite elems_wire_cons, zlen_app in Hs; cbn [fst snd] in Hs; lia)).
  cbn [default app id]. by destruct e.
Qed.

(** ** Strategy choices *)

Definition choice_elems (c : StrategyChoice) : list elem :=
  [(ds_tlv.NAME, name_wire (sc_name c)); (ds_tlv.STRATEGY_WRAPPER, strategy_wire (sc_strategy c))].
Definition choice_ok (c : StrategyChoice) : Prop :=
  wf_name (sc_name c) /\ wf_name (sc_strategy c) /\ zlen (elems_wire (choice_elems c)) <= usize_max.

Lemma wf_strategy_wire n : wf_name n -> wf_bytes (strategy_wire n).
Proof. intros Hn. apply wf_tlv_bytes; [done|by apply wf_name_wire]. Qed.

Lemma wf_choice_elems c : wf_name (sc_name c) -> wf_name (sc_strategy c) -> Forall wf_elem (choice_elems c).
Proof.
  intros Hn Hs. apply Forall_cons. split; [split; [by vm_compute|by apply wf_name_wire]|]. apply Forall_singleton.
  split; [by vm_compute|by apply wf_strategy_wire].
Qed.

Lemma choice_sizes c : zlen (elems_wire (choice_elems c)) <= usize_max ->
  zlen (name_wire (sc_name c)) <= usize_max /\ zlen (strategy_wire (sc_strategy c)) <= usize_max /\ zlen (name_wire (sc_strategy c)) <= usize_max.
Proof.
  intros Hl. pose proof (elem_value_size _ _ (choice_elems c) ltac:(by left)).
  pose proof (elem_value_size ds_tlv.STRATEGY_WRAPPER (strategy_wire (sc_strategy c)) (choice_elems c) ltac:(right; by left)).
  pose proof (entry_value_le cp_tlv.NAME (name_wire (sc_strategy c))) as Hn. fold (strategy_wire (sc_strategy c)) in Hn. unfold zlen in *. lia.
Qed.

Lemma encode_choice c : choice_ok c -> StrategyChoice.encode c = tlv_bytes ds_tlv.ENTRY (elems_wire (choice_elems c)).
Proof.
  intros (Hn & Hs & Hl). destruct (choice_sizes c Hl) as (H1 & H2 & H3). apply encode_entry; [by vm_compute| |done].
  apply (write_nested_elems _ [(ds_tlv.NAME, name_wire (sc_name c))]); [by apply (encode_name_elems _ [])|by vm_compute| |unfold_bounds; lia].
  rewrite (encode_name_elems _ []) by done. apply elems_wire_one.
Qed.

#[global] Instance choice_codec : EntryCodec choice_ok ds_tlv.ENTRY StrategyChoice.encode id (fun _ => StrategyChoice.decode).
Proof.
  split; [|by vm_compute]. intros c Hc. exists (elems_wire (choice_elems c)). rewrite encode_choice by done. destruct Hc as (Hn & Hs & Hl).
  pose proof (wf_choice_elems c Hn Hs) as Hwf. split_conj; [done|by apply wf_elems_wire|]. intros fuel rest _ Hr Hz. unfold StrategyChoice.decode.
  rewrite open_entry_ok; [|by vm_compute|apply wf_bytes_app; split; [apply wf_tlv_bytes; [done|by apply wf_elems_wire]|done]|done].
  rewrite tlv_each_elems by done. destruct (choice_sizes c Hl) as (H1 & H2 & H3). unfold choice_elems. cbn [fold_each].
  unfold StrategyChoice.decode_body. rewrite !Z.eqb_refl. replace (ds_tlv.STRATEGY_WRAPPER =? ds_tlv.NAME) with false by done.
  destruct (read_tlv_ok (TlvReader.new (strategy_wire (sc_strategy c))) ds_tlv.NAME (name_wire (sc_strategy c)) []) as (r & -> & _).
  - apply new_wf; [by apply wf_strategy_wire|done].
  - by vm_compute.
  - by rewrite as_bytes_new, app_nil_r.
  - rewrite Z.eqb_refl. cbn [fst snd]. rewrite !ds_decode_name_ok by done. by destruct c.
Qed.

(** ** Faces *)

Definition feature_elem (name : bytes) : elem := (ds_tlv.FEATURE_NAME, name).
Definition features_elems (fs : list bytes) : list elem :=
  match fs with [] => [] | _ => [(ds_tlv.FEATURE_SET, elems_wire (map feature_elem fs))] end.

Definition face_elems (s : FaceStatus) : list elem :=
  [(ds_tlv.FACE_ID, encode_non_neg_int (fs_face_id s))] ++
  [(ds_tlv.URI, fs_uri s)] ++
  [(ds_tlv.LOCAL_URI, fs_local_uri s)] ++
  [(ds_tlv.FACE_SCOPE, encode_non_neg_int (fs_face_scope s))] ++
  [(ds_tlv.FACE_PERSISTENCY, encode_non_neg_int (fs_face_persistency s))] ++
  [(ds_tlv.LINK_TYPE, encode_non_neg_int (fs_link_type s))] ++
  opt_elem ds_tlv.BASE_CONGESTION_MARKING_INTERVAL (encode_non_neg_int <$> fs_base_congestion_marking_interval s) ++
  opt_elem ds_tlv.DEFAULT_CONGESTION_THRESHOLD (encode_non_neg_int <$> fs_default_congestion_threshold s) ++
  opt_elem ds_tlv.MTU (encode_non_neg_int <$> fs_mtu s) ++
  [(ds_tlv.N_IN_INTERESTS, encode_non_neg_int (fs_n_in_interests s))] ++
  [(ds_tlv.N_IN_DATA, encode_non_neg_int (fs_n_in_data s))] ++
  [(ds_tlv.N_IN_NACKS, encode_non_neg_int (fs_n_in_nacks s))] ++
  [(ds_tlv.N_OUT_INTERESTS, encode_non_neg_int (fs_n_out_interests s))] ++
  [(ds_tlv.N_OUT_DATA, encode_non_neg_int (fs_n_out_data s))] ++
  [(ds_tlv.N_OUT_NACKS, encode_non_neg_int (fs_n_out_nacks s))] ++
  [(ds_tlv.N_IN_BYTES, encode_non_neg_int (fs_n_in_bytes s))] ++
  [(ds_tlv.N_OUT_BYTES, encode_non_neg_int (fs_n_out_bytes s))] ++
  [(ds_tlv.FLAGS, encode_non_neg_int (fs_flags s))] ++
  opt_elem ds_tlv.N_LP_ACKS_RECEIVED (encode_non_neg_int <$> fs_n_lp_acks_received s) ++
  opt_elem ds_tlv.N_LP_RESENT_PACKETS (encode_non_neg_int <$> fs_n_lp_resent_packets s) ++
  opt_elem ds_tlv.N_LP_RTO_EXPIRATIONS (encode_non_neg_int <$> fs_n_lp_rto_expirations s) ++
  opt_elem ds_tlv.N_CONGESTION_MARKS_SENT (encode_non_neg_int <$> fs_n_congestion_marks_sent s) ++
  opt_elem ds_tlv.N_CONGESTION_MARKS_RECEIVED (encode_non_neg_int <$> fs_n_congestion_marks_received s) ++
  opt_elem ds_tlv.EFFECTIVE_MTU (encode_non_neg_int <$> fs_effective_mtu s) ++
  features_elems (fs_feature_set s) ++
  opt_elem ds_tlv.RTO_MICROS (encode_non_neg_int <$> fs_rto_micros s) ++
  opt_elem ds_tlv.N_REASM_FRAGMENTS_IN (encode_non_neg_int <$> fs_n_reasm_fragments_in s) ++
  opt_elem ds_tlv.N_REASM_COMPLETED (encode_non_neg_int <$> fs_n_reasm_completed s) ++
  opt_elem ds_tlv.N_REASM_TIMED_OUT (encode_non_neg_int <$> fs_n_reasm_timed_out s) ++
  opt_elem ds_tlv.N_REASM_FRAGMENTS_WASTED (encode_non_neg_int <$> fs_n_reasm_fragments_wasted s) ++
  opt_elem ds_tlv.N_LP_FAST_RETX (encode_non_neg_int <$> fs_n_lp_fast_retx s) ++
  opt_elem ds_tlv.N_LP_UNACKED_EVICTIONS (encode_non_neg_int <$> fs_n_lp_unacked_evictions s) ++
  opt_elem ds_tlv.N_REASM_FRAGMENTS_REJECTED (encode_non_neg_int <$> fs_n_reasm_fragments_rejected s) ++
  opt_elem ds_tlv.N_REASM_GROUPS_EVICTED (encode_non_neg_int <$> fs_n_reasm_groups_evicted s).

Record face_status_ok (s : FaceStatus) : Prop := {
  fsok_face_id : is_u64 (fs_face_id s);
  fsok_uri : string_ok (fs_uri s);
  fsok_local_uri : string_ok (fs_local_uri s);
  fsok_face_scope : is_u64 (fs_face_scope s);
  fsok_face_persistency : is_u64 (fs_face_persistency s);
  fsok_link_type : is_u64 (fs_link_type s);
  fsok_base_congestion_marking_interval : forall v, fs_base_congestion_marking_interval s = Some v -> is_u64 v;
  fsok_default_congestion_threshold : forall v, fs_default_congestion_threshold s = Some v -> is_u64 v;
  fsok_mtu : forall v, fs_mtu s = Some v -> is_u64 v;
  fsok_n_in_interests : is_u64 (fs_n_in_interests s);
  fsok_n_in_data : is_u64 (fs_n_in_data s);
  fsok_n_in_nacks : is_u64 (fs_n_in_nacks s);
  fsok_n_out_interests : is_u64 (fs_n_out_interests s);
  fsok_n_out_data : is_u64 (fs_n_out_data s);
  fsok_n_out_nacks : is_u64 (fs_n_out_nacks s);
  fsok_n_in_bytes : is_u64 (fs_n_in_bytes s);
  fsok_n_out_bytes : is_u64 (fs_n_out_bytes s);
  fsok_flags : is_u64 (fs_flags s);
  fsok_n_lp_acks_received : forall v, fs_n_lp_acks_received s = Some v -> is_u64 v;
  fsok_n_lp_resent_packets : forall v, fs_n_lp_resent_packets s = Some v -> is_u64 v;
  fsok_n_lp_rto_expirations : forall v, fs_n_lp_rto_expirations s = Some v -> is_u64 v;
  fsok_n_congestion_marks_sent : forall v, fs_n_congestion_marks_sent s = Some v -> is_u64 v;
  fsok_n_congestion_marks_received : forall v, fs_n_congestion_marks_received s = Some v -> is_u64 v;
  fsok_effective_mtu : forall v, fs_effective_mtu s = Some v -> is_u64 v;
  fsok_feature_set : Forall string_ok (fs_feature_set s);
  fsok_rto_micros : forall v, fs_rto_micros s = Some v -> is_u64 v;
  fsok_n_reasm_fragments_in : forall v, fs_n_reasm_fragments_in s = Some v -> is_u64 v;
  fsok_n_reasm_completed : forall v, fs_n_reasm_completed s = Some v -> is_u64 v;
  fsok_n_reasm_timed_out : forall v, fs_n_reasm_timed_out s = Some v -> is_u64 v;
  fsok_n_reasm_fragments_wasted : forall v, fs_n_reasm_fragments_wasted s = Some v -> is_u64 v;
  fsok_n_lp_fast_retx : forall v, fs_n_lp_fast_retx s = Some v -> is_u64 v;
  fsok_n_lp_unacked_evictions : forall v, fs_n_lp_unacked_evictions s = Some v -> is_u64 v;
  fsok_n_reasm_fragments_rejected : forall v, fs_n_reasm_fragments_rejected s = Some v -> is_u64 v;
  fsok_n_reasm_groups_evicted : forall v, fs_n_reasm_groups_evicted s = Some v -> is_u64 v;
  fsok_size : zlen (elems_wire (face_elems s)) <= usize_max
}.

(** The satisfaction counters are read but not written. *)
Definition as_sent (s : FaceStatus) : FaceStatus := FaceStatus.set_n_satisfied_interests 0 (FaceStatus.set_n_unsatisfied_interests 0 s).

Lemma face_field {A} t v (set : A -> FaceStatus -> FaceStatus) x rest s : FaceStatus.decode_body s t v = Ok (set x s) ->
  fold_each FaceStatus.decode_body ([(t, v)] ++ rest) s = fold_each FaceStatus.decode_body rest (set x s).
Proof. intros H. cbn [app fold_each]. by rewrite H. Qed.

Ltac open_face := cbv beta iota delta [FaceStatus.decode_body Z.eqb Pos.eqb ds_tlv.FACE_ID ds_tlv.COST ds_tlv.STRATEGY_WRAPPER ds_tlv.FLAGS ds_tlv.EXPIRATION_PERIOD ds_tlv.ORIGIN ds_tlv.URI ds_tlv.FACE_STATUS ds_tlv.LOCAL_URI ds_tlv.FACE_SCOPE ds_tlv.FACE_PERSISTENCY ds_tlv.LINK_TYPE ds_tlv.BASE_CONGESTION_MARKING_INTERVAL ds_tlv.DEFAULT_CONGESTION_THRESHOLD ds_tlv.MTU ds_tlv.N_IN_INTERESTS ds_tlv.N_IN_DATA ds_tlv.N_OUT_INTERESTS ds_tlv.N_OUT_DATA ds_tlv.N_IN_BYTES ds_tlv.N_OUT_BYTES ds_tlv.N_IN_NACKS ds_tlv.N_OUT_NACKS ds_tlv.N_SATISFIED_INTERESTS ds_tlv.N_UNSATISFIED_INTERESTS ds_tlv.N_LP_ACKS_RECEIVED ds_tlv.N_LP_RESENT_PACKETS ds_tlv.N_LP_RTO_EXPIRATIONS ds_tlv.N_CONGESTION_MARKS_SENT ds_tlv.N_CONGESTION_MARKS_RECEIVED ds_tlv.EFFECTIVE_MTU ds_tlv.FEATURE_SET ds_tlv.FEATURE_NAME ds_tlv.RTO_MICROS ds_tlv.N_REASM_FRAGMENTS_IN ds_tlv.N_REASM_COMPLETED ds_tlv.N_REASM_TIMED_OUT ds_tlv.N_REASM_FRAGMENTS_WASTED ds_tlv.N_LP_UNACKED_EVICTIONS ds_tlv.N_REASM_FRAGMENTS_REJECTED ds_tlv.N_REASM_GROUPS_EVICTED ds_tlv.N_LP_FAST_RETX ds_tlv.ENTRY ds_tlv.NEXT_HOP_RECORD ds_tlv.ROUTE ds_tlv.NAME].

Lemma fold_feature_names fs : forall acc, Forall string_ok fs -> fold_each feature_body (map feature_elem fs) acc = Ok (acc ++ fs).
Proof.
  induction fs as [|f fs IH]; intros acc Hok; cbn [map fold_each feature_elem]; [by rewrite app_nil_r|]. apply Forall_cons in Hok as [H1 Hok].
  unfold feature_body at 1. rewrite Z.eqb_refl, from_utf8_ok by done. rewrite IH by done. by rewrite <- app_assoc.
Qed.

Lemma wf_features fs : Forall string_ok fs -> Forall wf_elem (map feature_elem fs).
Proof. intros H. apply Forall_map. eapply Forall_impl; [exact H|]. intros f [_ Hf]. split; [by vm_compute|done]. Qed.

Lemma fold_features fs rest s : fs_feature_set s = [] -> Forall string_ok fs -> zlen (elems_wire (map feature_elem fs)) <= usize_max ->
  fold_each FaceStatus.decode_body (features_elems fs ++ rest) s = fold_each FaceStatus.decode_body rest (FaceStatus.set_feature_set fs s).
Proof.
  intros Hs Hok Hl. destruct fs as [|f fs]; [destruct s; cbn in Hs; by rewrite Hs|]. cbn [features_elems app fold_each]. open_face.
  rewrite Hs, tlv_each_elems by (done || by apply wf_features). by rewrite fold_feature_names.
Qed.

Section face.
Context (s : FaceStatus) (Hs : face_status_ok s).

Lemma features_size : zlen (elems_wire (map feature_elem (fs_feature_set s))) <= usize_max.
Proof.
  destruct (fs_feature_set s) as [|f fs] eqn:E; [by vm_compute|]. rewrite <- E. etransitivity; [|apply (fsok_size s Hs)].
  apply (elem_value_size ds_tlv.FEATURE_SET). unfold face_elems, features_elems. rewrite E. repeat (apply elem_of_app; first [left; by left|right]).
Qed.

Lemma fold_face : fold_each FaceStatus.decode_body (face_elems s) FaceStatus.default_ = Ok (as_sent s).
Proof.
  unfold face_elems. rewrite <- (app_nil_r (opt_elem ds_tlv.N_REASM_GROUPS_EVICTED _)).
  rewrite (face_field _ _ FaceStatus.set_face_id (fs_face_id s)); [|open_face; rewrite (ds_read_ok _ (fsok_face_id s Hs)); reflexivity].
  rewrite (face_field _ _ FaceStatus.set_uri (fs_uri s)); [|open_face; rewrite (from_utf8_ok _ (fsok_uri s Hs)); reflexivity].
  rewrite (face_field _ _ FaceStatus.set_local_uri (fs_local_uri s)); [|open_face; rewrite (from_utf8_ok _ (fsok_local_uri s Hs)); reflexivity].
  rewrite (face_field _ _ FaceStatus.set_face_scope (fs_face_scope s)); [|open_face; rewrite (ds_read_ok _ (fsok_face_scope s Hs)); reflexivity].
  rewrite (face_field _ _ FaceStatus.set_face_persistency (fs_face_persistency s)); [|open_face; rewrite (ds_read_ok _ (fsok_face_persistency s Hs)); reflexivity].
  rewrite (face_field _ _ FaceStatus.set_link_type (fs_link_type s)); [|open_face; rewrite (ds_read_ok _ (fsok_link_type s Hs)); reflexivity].
  rewrite (field_step FaceStatus.decode_body ds_tlv.BASE_CONGESTION_MARKING_INTERVAL encode_non_neg_int fs_base_congestion_marking_interval FaceStatus.set_base_congestion_marking_interval); [|reflexivity|field_none|intros a Ha; open_face; rewrite (ds_read_ok _ (fsok_base_congestion_marking_interval s Hs a Ha)); reflexivity].
  rewrite (field_step FaceStatus.decode_body ds_tlv.DEFAULT_CONGESTION_THRESHOLD encode_non_neg_int fs_default_congestion_threshold FaceStatus.set_default_congestion_threshold); [|reflexivity|field_none|intros a Ha; open_face; rewrite (ds_read_ok _ (fsok_default_congestion_threshold s Hs a Ha)); reflexivity].
  rewrite (field_step FaceStatus.decode_body ds_tlv.MTU encode_non_neg_int fs_mtu FaceStatus.set_mtu); [|reflexivity|field_none|intros a Ha; open_face; rewrite (ds_read_ok _ (fsok_mtu s Hs a Ha)); reflexivity].
  rewrite (face_field _ _ FaceStatus.set_n_in_interests (fs_n_in_interests s)); [|open_face; rewrite (ds_read_ok _ (fsok_n_in_interests s Hs)); reflexivity].
  rewrite (face_field _ _ FaceStatus.set_n_in_data (fs_n_in_data s)); [|open_face; rewrite (ds_read_ok _ (fsok_n_in_data s Hs)); reflexivity].
  rewrite (face_field _ _ FaceStatus.set_n_in_nacks (fs_n_in_nacks s)); [|open_face; rewrite (ds_read_ok _ (fsok_n_in_nacks s Hs)); reflexivity].
  rewrite (face_field _ _ FaceStatus.set_n_out_interests (fs_n_out_interests s)); [|open_face; rewrite (ds_read_ok _ (fsok_n_out_interests s Hs)); reflexivity].
  rewrite (face_field _ _ FaceStatus.set_n_out_data (fs_n_out_data s)); [|open_face; rewrite (ds_read_ok _ (fsok_n_out_data s Hs)); reflexivity].
  rewrite (face_field _ _ FaceStatus.set_n_out_nacks (fs_n_out_nacks s)); [|open_face; rewrite (ds_read_ok _ (fsok_n_out_nacks s Hs)); reflexivity].
  rewrite (face_field _ _ FaceStatus.set_n_in_bytes (fs_n_in_bytes s)); [|open_face; rewrite (ds_read_ok _ (fsok_n_in_bytes s Hs)); reflexivity].
  rewrite (face_field _ _ FaceStatus.set_n_out_bytes (fs_n_out_bytes s)); [|open_face; rewrite (ds_read_ok _ (fsok_n_out_bytes s Hs)); reflexivity].
  rewrite (face_field _ _ FaceStatus.set_flags (fs_flags s)); [|open_face; rewrite (ds_read_ok _ (fsok_flags s Hs)); reflexivity].
  rewrite (field_step FaceStatus.decode_body ds_tlv.N_LP_ACKS_RECEIVED encode_non_neg_int fs_n_lp_acks_received FaceStatus.set_n_lp_acks_received); [|reflexivity|field_none|intros a Ha; open_face; rewrite (ds_read_ok _ (fsok_n_lp_acks_received s Hs a Ha)); reflexivity].
  rewrite (field_step FaceStatus.decode_body ds_tlv.N_LP_RESENT_PACKETS encode_non_neg_int fs_n_lp_resent_packets FaceStatus.set_n_lp_resent_packets); [|reflexivity|field_none|intros a Ha; open_face; rewrite (ds_read_ok _ (fsok_n_lp_resent_packets s Hs a Ha)); reflexivity].
  rewrite (field_step FaceStatus.decode_body ds_tlv.N_LP_RTO_EXPIRATIONS encode_non_neg_int fs_n_lp_rto_expirations FaceStatus.set_n_lp_rto_expirations); [|reflexivity|field_none|intros a Ha; open_face; rewrite (ds_read_ok _ (fsok_n_lp_rto_expirations s Hs a Ha)); reflexivity].
  rewrite (field_step FaceStatus.decode_body ds_tlv.N_CONGESTION_MARKS_SENT encode_non_neg_int fs_n_congestion_marks_sent FaceStatus.set_n_congestion_marks_sent); [|reflexivity|field_none|intros a Ha; open_face; rewrite (ds_read_ok _ (fsok_n_congestion_marks_sent s Hs a Ha)); reflexivity].
  rewrite (field_step FaceStatus.decode_body ds_tlv.N_CONGESTION_MARKS_RECEIVED encode_non_neg_int fs_n_congestion_marks_received FaceStatus.set_n_congestion_marks_received); [|reflexivity|field_none|intros a Ha; open_face; rewrite (ds_read_ok _ (fsok_n_congestion_marks_received s Hs a Ha)); reflexivity].
  rewrite (field_step FaceStatus.decode_body ds_tlv.EFFECTIVE_MTU encode_non_neg_int fs_effective_mtu FaceStatus.set_effective_mtu); [|reflexivity|field_none|intros a Ha; open_face; rewrite (ds_read_ok _ (fsok_effective_mtu s Hs a Ha)); reflexivity].
  rewrite (fold_features (fs_feature_set s)); [|reflexivity|exact (fsok_feature_set s Hs)|exact features_size].
  rewrite (field_step FaceStatus.decode_body ds_tlv.RTO_MICROS encode_non_neg_int fs_rto_micros FaceStatus.set_rto_micros); [|reflexivity|field_none|intros a Ha; open_face; rewrite (ds_read_ok _ (fsok_rto_micros s Hs a Ha)); reflexivity].
  rewrite (field_step FaceStatus.decode_body ds_tlv.N_REASM_FRAGMENTS_IN encode_non_neg_int fs_n_reasm_fragments_in FaceStatus.set_n_reasm_fragments_in); [|reflexivity|field_none|intros a Ha; open_face; rewrite (ds_read_ok _ (fsok_n_reasm_fragments_in s Hs a Ha)); reflexivity].
  rewrite (field_step FaceStatus.decode_body ds_tlv.N_REASM_COMPLETED encode_non_neg_int fs_n_reasm_completed FaceStatus.set_n_reasm_completed); [|reflexivity|field_none|intros a Ha; open_face; rewrite (ds_read_ok _ (fsok_n_reasm_completed s Hs a Ha)); reflexivity].
  rewrite (field_step FaceStatus.decode_body ds_tlv.N_REASM_TIMED_OUT encode_non_neg_int fs_n_reasm_timed_out FaceStatus.set_n_reasm_timed_out); [|reflexivity|field_none|intros a Ha; open_face; rewrite (ds_read_ok _ (fsok_n_reasm_timed_out s Hs a Ha)); reflexivity].
  rewrite (field_step FaceStatus.decode_body ds_tlv.N_REASM_FRAGMENTS_WASTED encode_non_neg_int fs_n_reasm_fragments_wasted FaceStatus.set_n_reasm_fragments_wasted); [|reflexivity|field_none|intros a Ha; open_face; rewrite (ds_read_ok _ (fsok_n_reasm_fragments_wasted s Hs a Ha)); reflexivity].
  rewrite (field_step FaceStatus.decode_body ds_tlv.N_LP_FAST_RETX encode_non_neg_int fs_n_lp_fast_retx FaceStatus.set_n_lp_fast_retx); [|reflexivity|field_none|intros a Ha; open_face; rewrite (ds_read_ok _ (fsok_n_lp_fast_retx s Hs a Ha)); reflexivity].
  rewrite (field_step FaceStatus.decode_body ds_tlv.N_LP_UNACKED_EVICTIONS encode_non_neg_int fs_n_lp_unacked_evictions FaceStatus.set_n_lp_unacked_evictions); [|reflexivity|field_none|intros a Ha; open_face; rewrite (ds_read_ok _ (fsok_n_lp_unacked_evictions s Hs a Ha)); reflexivity].
  rewrite (field_step FaceStatus.decode_body ds_tlv.N_REASM_FRAGMENTS_REJECTED encode_non_neg_int fs_n_reasm_fragments_rejected FaceStatus.set_n_reasm_fragments_rejected); [|reflexivity|field_none|intros a Ha; open_face; rewrite (ds_read_ok _ (fsok_n_reasm_fragments_rejected s Hs a Ha)); reflexivity].
  rewrite (field_step FaceStatus.decode_body ds_tlv.N_REASM_GROUPS_EVICTED encode_non_neg_int fs_n_reasm_groups_evicted FaceStatus.set_n_reasm_groups_evicted); [|reflexivity|field_none|intros a Ha; open_face; rewrite (ds_read_ok _ (fsok_n_reasm_groups_evicted s Hs a Ha)); reflexivity].
  cbn [fold_each]. by destruct s.
Qed.

Lemma wf_face_elems : Forall wf_elem (face_elems s).
Proof.
  unfold face_elems. repeat (apply Forall_app; split).
  all: first [apply Forall_singleton; first [apply nni_elem; by vm_compute|split; [by vm_compute|]; first [apply (fsok_uri s Hs)|apply (fsok_local_uri s Hs)]]
    |apply wf_opt_elem; [by vm_compute|intros v (a & _ & ->)%fmap_Some; apply wf_encode_nni]|idtac].
  pose proof (fsok_feature_set s Hs) as Hf. destruct (fs_feature_set s) as [|f fs] eqn:E; cbn [features_elems]; [constructor|].
  apply Forall_singleton. split; [by vm_compute|]. by apply wf_elems_wire, wf_features.
Qed.

Lemma write_feature_names fs : forall w es, TlvWriter.buf w = elems_wire es -> zlen (elems_wire (map feature_elem fs)) <= usize_max ->
  TlvWriter.buf (fold_left (fun w name => TlvWriter.write_tlv w ds_tlv.FEATURE_NAME name) fs w) = elems_wire (es ++ map feature_elem fs).
Proof.
  induction fs as [|f fs IH]; intros w es Hw Hl; cbn [fold_left map]; [by rewrite app_nil_r|]. rewrite (cons_middle (feature_elem f)), app_assoc.
  cbn [map] in Hl. rewrite elems_wire_cons, zlen_app in Hl. pose proof (zlen_nonneg (elems_wire (map feature_elem fs))).
  pose proof (zlen_nonneg (tlv_bytes (feature_elem f).1 (feature_elem f).2)).
  pose proof (entry_value_le (feature_elem f).1 (feature_elem f).2). cbn [feature_elem fst snd] in *.
  apply IH; [apply write_tlv_elems; [done|by vm_compute|unfold_bounds; unfold zlen in *; lia]|lia].
Qed.

Lemma write_features_elems w es : TlvWriter.buf w = elems_wire es ->
  TlvWriter.buf (write_features (fs_feature_set s) w) = elems_wire (es ++ features_elems (fs_feature_set s)).
Proof.
  intros Hw. pose proof features_size as Hl. destruct (fs_feature_set s) as [|f fs]; cbn [features_elems write_features]; [by rewrite app_nil_r|].
  apply write_nested_elems; [done|by vm_compute| |unfold_bounds; lia]. by apply (write_feature_names (f :: fs) TlvWriter.new []).
Qed.

Lemma encode_face_inner : TlvWriter.buf (FaceStatus.encode_inner s TlvWriter.new) = elems_wire (face_elems s).
Proof.
  assert (forall x, x ∈ [fs_uri s; fs_local_uri s] -> zlen x <= u64_max) as Hstr.
  { intros x Hx. transitivity usize_max; [|unfold_bounds; lia]. etransitivity; [|apply (fsok_size s Hs)].
    apply elem_of_cons in Hx as [->|Hx]; [apply (elem_value_size ds_tlv.URI)|apply list_elem_of_singleton in Hx as ->; apply (elem_value_size ds_tlv.LOCAL_URI)];
    unfold face_elems; repeat (apply elem_of_app; first [left; by left|right]). }
  unfold FaceStatus.encode_inner, face_elems. cbv zeta. rewrite !app_assoc.
  repeat first [apply put_nni_elems; [|by vm_compute]|apply write_features_elems|apply (write_nni_elems _ []); [done|by vm_compute]|apply write_nni_elems; [|by vm_compute]
    |apply write_tlv_elems; [|by vm_compute|apply Hstr; first [by left|right; by left]]].
Qed.

End face.

Lemma encode_face s : face_status_ok s -> FaceStatus.encode s = tlv_bytes ds_tlv.FACE_STATUS (elems_wire (face_elems s)).
Proof. intros Hs. apply encode_entry; [by vm_compute|by apply encode_face_inner|apply (fsok_size s Hs)]. Qed.

#[global] Instance face_codec : EntryCodec face_status_ok ds_tlv.FACE_STATUS FaceStatus.encode as_sent (fun _ => FaceStatus.decode).
Proof.
  split; [|by vm_compute]. intros s Hs. exists (elems_wire (face_elems s)). rewrite encode_face by done. pose proof (wf_face_elems s Hs) as Hwf.
  split_conj; [done|by apply wf_elems_wire|]. intros fuel rest _ Hr Hz. unfold FaceStatus.decode.
  rewrite open_entry_ok; [|by vm_compute|apply wf_bytes_app; split; [apply wf_tlv_bytes; [done|by apply wf_elems_wire]|done]|done].
  rewrite tlv_each_elems by (done || apply (fsok_size s Hs)). by rewrite fold_face.
Qed.

(** ** Termination *)

Lemma tlv_loop_never {S} (body : S -> Z -> bytes -> result S Stop) : (forall s t v, body s t v <> Err Hangs) ->
  forall fuel r s, tlv_loop fuel NoEntry body r s <> Err Hangs.
Proof.
  intros Hb. induction fuel as [|fuel IH]; intros r s; cbn [tlv_loop]; [done|]. destruct (TlvReader.is_empty r); [done|].
  destruct (TlvReader.read_tlv r) as [[[t v]|] r']; [|done]. specialize (Hb s t v). destruct (body s t v) as [s'|e]; [apply IH|by intros [= ->]].
Qed.

Lemma face_body_never s t v : FaceStatus.decode_body s t v <> Err Hangs.
Proof.
  unfold FaceStatus.decode_body. repeat match goal with |- context [if ?b then _ else _] => destruct b end; try done.
  all: first [by destruct (ds_read_non_neg_int v)|by destruct (from_utf8 v)|idtac].
  pose proof (tlv_loop_never feature_body) as H. unfold tlv_each. specialize (H ltac:(intros; unfold feature_body; repeat case_match; done) (S (length v)) (TlvReader.new v) (fs_feature_set s)).
  destruct (tlv_loop _ _ _ _ _) as [x|e]; [done|]. by intros [= ->].
Qed.

Lemma choice_body_never s t v : StrategyChoice.decode_body s t v <> Err Hangs.
Proof. unfold StrategyChoice.decode_body. repeat case_match; done. Qed.

Lemma entries_terminate {T} (decode : bytes -> result T Stop * bytes) :
  (forall buf, wf_bytes buf -> zlen buf <= usize_max ->
     match decode buf with
     | (Ok _, rest) => (length rest < length buf)%nat /\ wf_bytes rest /\ zlen rest <= usize_max
     | (Err e, _) => e = NoEntry
     end) ->
  forall fuel buf out, wf_bytes buf -> zlen buf <= usize_max -> (length buf < fuel)%nat -> exists l, decode_all_entries fuel decode buf out = Some l.
Proof.
  intros Hd. induction fuel as [|fuel IH]; intros buf out Hwf Hl Hf; [lia|]. cbn [decode_all_entries]. destruct buf as [|x buf]; [by eexists|].
  specialize (Hd (x :: buf) Hwf Hl). destruct (decode (x :: buf)) as [[e|e] rest].
  - destruct Hd as (H1 & H2 & H3). apply IH; [done|done|lia].
  - subst e. by eexists.
Qed.

Lemma open_entry_error t buf e rest : open_entry t buf = (Err e, rest) -> e = NoEntry.
Proof. unfold open_entry. repeat case_match; naive_solver. Qed.

Lemma face_decode_terminates fuel b : wf_bytes b -> zlen b <= usize_max -> (length b < fuel)%nat -> exists l, FaceStatus.decode_all fuel b = Some l.
Proof.
  apply entries_terminate. intros buf Hwf Hl. unfold FaceStatus.decode. destruct (open_entry _ buf) as [[v|e] rest] eqn:E.
  - pose proof (tlv_loop_never _ face_body_never (S (length v)) (TlvReader.new v) FaceStatus.default_) as H. unfold tlv_each.
    destruct (tlv_loop _ _ _ _ _) as [s|[]]; [by eapply open_entry_shorter|done|done].
  - by eapply open_entry_error.
Qed.

Lemma choice_decode_terminates fuel b : wf_bytes b -> zlen b <= usize_max -> (length b < fuel)%nat -> exists l, StrategyChoice.decode_all fuel b = Some l.
Proof.
  apply entries_terminate. intros buf Hwf Hl. unfold StrategyChoice.decode. destruct (open_entry _ buf) as [[v|e] rest] eqn:E.
  - pose proof (tlv_loop_never _ choice_body_never (S (length v)) (TlvReader.new v) (None, None)) as H. unfold tlv_each.
    destruct (tlv_loop _ _ _ _ _) as [[n c]|[]]; [by eapply open_entry_shorter|done|done].
  - by eapply open_entry_error.
Qed.

(** An entry whose record holds the single byte 0xFD, the start of a type that
    goes on: reading it fails and leaves the reader where it is. *)
Definition stuck_record : bytes := [0x80; 3; 0x81; 1; 0xFD].

Lemma lenient_stuck {S} (body : S -> Z -> bytes -> S) fuel s : lenient_loop fuel body (TlvReader.new [0xFD]) s = None.
Proof. induction fuel as [|fuel IH]; [done|]. cbn [lenient_loop]. exact IH. Qed.

Lemma fib_decode_stuck fuel : FibEntry.decode_all fuel stuck_record = None.
Proof.
  destruct fuel as [|fuel]; [done|]. unfold FibEntry.decode_all. cbn [decode_all_entries stuck_record]. fold stuck_record. unfold FibEntry.decode.
  change (open_entry ds_tlv.ENTRY stuck_record) with (Ok (E := Stop) (elems_wire [(0x81, [0xFD])]), @nil Z). cbv beta iota.
  rewrite tlv_each_elems; [|apply Forall_singleton; split; [by vm_compute|by apply wf_bytes_check]|by vm_compute].
  cbn [fold_each]. unfold FibEntry.decode_body. cbn [Z.eqb Pos.eqb ds_tlv.NAME ds_tlv.NEXT_HOP_RECORD]. by rewrite lenient_stuck.
Qed.

Lemma rib_decode_stuck fuel : RibEntry.decode_all fuel stuck_record = None.
Proof.
  destruct fuel as [|fuel]; [done|]. unfold RibEntry.decode_all. cbn [decode_all_entries stuck_record]. fold stuck_record. unfold RibEntry.decode.
  change (open_entry ds_tlv.ENTRY stuck_record) with (Ok (E := Stop) (elems_wire [(0x81, [0xFD])]), @nil Z). cbv beta iota.
  rewrite tlv_each_elems; [|apply Forall_singleton; split; [by vm_compute|by apply wf_bytes_check]|by vm_compute].
  cbn [fold_each]. unfold RibEntry.decode_body. cbn [Z.eqb Pos.eqb ds_tlv.NAME ds_tlv.ROUTE]. by rewrite lenient_stuck.
Qed.

(** ** Theorems *)

(** C17: every status dataset is read back as it was listed: the faces (but for
    the two satisfaction counters, which are not sent), the FIB entries, the RIB
    entries and the strategy choices, in order, within a number of steps bounded
    by the length of the dataset. *)
Theorem dataset_roundtrip (faces : list FaceStatus) (fib : list FibEntry) (rib : list RibEntry) (choices : list StrategyChoice) (fuel : nat) :
  Forall face_status_ok faces -> Forall fib_entry_ok fib -> Forall rib_entry_ok rib -> Forall choice_ok choices ->
  (forall b, b ∈ [encode_dataset faces FaceStatus.encode; encode_dataset fib FibEntry.encode;
                  encode_dataset rib RibEntry.encode; encode_dataset choices StrategyChoice.encode] ->
     zlen b <= usize_max /\ (length b < fuel)%nat) ->
  FaceStatus.decode_all fuel (encode_dataset faces FaceStatus.encode) = Some (map as_sent faces) /\
  FibEntry.decode_all fuel (encode_dataset fib FibEntry.encode) = Some fib /\
  RibEntry.decode_all fuel (encode_dataset rib RibEntry.encode) = Some rib /\
  StrategyChoice.decode_all fuel (encode_dataset choices StrategyChoice.encode) = Some choices.
Proof.
  intros H1 H2 H3 H4 Hb. split_conj.
  - destruct (Hb _ ltac:(by left)) as [Hl Hf]. by apply (decode_dataset (codec := face_codec)).
  - destruct (Hb _ ltac:(right; by left)) as [Hl Hf]. rewrite <- (map_id fib) at 2. by apply (decode_dataset (codec := fib_codec)).
  - destruct (Hb _ ltac:(right; right; by left)) as [Hl Hf]. rewrite <- (map_id rib) at 2. by apply (decode_dataset (codec := rib_codec)).
  - destruct (Hb _ ltac:(right; right; right; by left)) as [Hl Hf]. rewrite <- (map_id choices) at 2. by apply (decode_dataset (codec := choice_codec)).
Qed.

(** C18: the readers of face and strategy datasets end on every input, within a
    number of steps bounded by its length; the readers of FIB and RIB datasets do
    not: on five bytes whose record cannot be read they are still looping after
    any number of steps. *)
Theorem dataset_termination (b : bytes) (fuel : nat) :
  wf_bytes b -> zlen b <= usize_max -> (length b < fuel)%nat ->
  (exists l, FaceStatus.decode_all fuel b = Some l) /\ (exists l, StrategyChoice.decode_all fuel b = Some l) /\
  (forall steps, FibEntry.decode_all steps stuck_record = None /\ RibEntry.decode_all steps stuck_record = None).
Proof.
  intros Hwf Hl Hf. split_conj; [by apply face_decode_terminates|by apply choice_decode_terminates|].
  intros steps. split; [apply fib_decode_stuck|apply rib_decode_stuck].
Qed.

(** ** Examples *)

Definition example_face : FaceStatus := FaceStatus.set_feature_set [str "reliability"] (FaceStatus.set_uri (str "udp4://h") (FaceStatus.set_mtu (Some 1400) (FaceStatus.set_face_id 300 FaceStatus.default_))).
Lemma example_face_ok : face_status_ok example_face.
Proof.
  constructor; cbn [example_face].
  all: try (cbn; unfold_bounds; lia).
  all: try (intros v [= <-]; cbn; unfold_bounds; lia).
  all: try (split; [by vm_compute|by apply wf_bytes_check]).
  all: try (intros v H; by vm_compute in H).
  - apply (Forall_singleton string_ok). split; [by vm_compute|by apply wf_bytes_check].
  - vm_compute. discriminate.
Qed.

Lemma example_name_wf x : wf_bytes (str x) -> wf_name [Component.generic (str x)].
Proof. intros Hx. apply (Forall_singleton wf_component). split; [by vm_compute|done]. Qed.

Definition example_fib : FibEntry := mkFibEntry [Component.generic (str "a")] [mkNextHopRecord 256 10; mkNextHopRecord 7 70000].
Lemma example_fib_ok : fib_entry_ok example_fib.
Proof.
  unfold fib_entry_ok. split_conj; [by apply example_name_wf, wf_bytes_check| |by vm_compute].
  repeat (apply Forall_cons; split; [split; cbn; unfold_bounds; lia|]). constructor.
Qed.

Definition example_rib : RibEntry := mkRibEntry [Component.generic (str "a")] [mkRoute 256 0 10 1 (Some 3600000); mkRoute 7 255 5 0 None].
Lemma example_rib_ok : rib_entry_ok example_rib.
Proof.
  unfold rib_entry_ok. split_conj; [by apply example_name_wf, wf_bytes_check| |by vm_compute].
  repeat (apply Forall_cons; split; [unfold route_ok; split_conj; cbn; try (unfold_bounds; lia); intros v [= <-]; unfold_bounds; lia|]). constructor.
Qed.

Definition example_choice : StrategyChoice := mkStrategyChoice NameOps.root [Component.generic (str "best-route")].
Lemma example_choice_ok : choice_ok example_choice.
Proof. unfold choice_ok. split_conj; [constructor|by apply example_name_wf, wf_bytes_check|by vm_compute]. Qed.

Lemma dataset_roundtrip_witness :
  FibEntry.decode_all 100 (encode_dataset [example_fib; example_fib] FibEntry.encode) = Some [example_fib; example_fib] /\
  RibEntry.decode_all 100 (encode_dataset [example_rib] RibEntry.encode) = Some [example_rib].
Proof.
  destruct (dataset_roundtrip [example_face] [example_fib; example_fib] [example_rib] [example_choice] 100) as (_ & H1 & H2 & _).
  - apply (Forall_singleton face_status_ok). exact example_face_ok.
  - apply (Forall_cons fib_entry_ok). split; [exact example_fib_ok|]. apply (Forall_singleton fib_entry_ok). exact example_fib_ok.
  - apply (Forall_singleton rib_entry_ok). exact example_rib_ok.
  - apply (Forall_singleton choice_ok). exact example_choice_ok.
  - apply (Forall_forall (fun b => zlen b <= usize_max /\ (length b < 100)%nat)).
    repeat (apply Forall_cons; split; [split; [vm_compute; discriminate|vm_compute; lia]|]). apply Forall_nil. exact I.
  - split; [exact H1|exact H2].
Defined.

Lemma dataset_termination_witness : exists l, FaceStatus.decode_all 6 stuck_record = Some l.
Proof.
  destruct (dataset_termination stuck_record 6) as (H & _).
  - by apply wf_bytes_check.
  - vm_compute. discriminate.
  - vm_compute. lia.
  - exact H.
Defined.
