(* ===== verification/MgmtServer.v ===== *)
(** * The management server ([ndn-mgmt]: [auth.rs], [lib.rs], [module.rs], [notification.rs], [modules/])

    Command authentication, the loop that receives commands, the router, the
    [rib], [fib], [strategy-choice] and [cs] modules, the access policy of the
    [security] module and the notification streams.  The state is what the
    modules share; the other modules are parameters that may act on all of it and
    on a state of their own.  One round of the loop is a function of the frame it
    receives and of what the environment supplies in that round: the clocks, the
    orders in which hash maps are walked and the validators as their certificate
    caches stand.  Instants are in nanoseconds. *)
From stdpp Require Import gmap.
From S2P Require Import Prelude Tlv Name NameUri Packet Lp Encode Face Trie LruCs Mgmt Rib Dataset.
#[local] Open Scope Z_scope.

(** ** Verbs and modules ([nfd_command.rs]) *)

Module module_.
Definition FACES : bytes := str "faces".
Definition FIB : bytes := str "fib".
Definition RIB : bytes := str "rib".
Definition CS : bytes := str "cs".
Definition STRATEGY : bytes := str "strategy-choice".
Definition STATUS : bytes := str "status".
Definition SECURITY : bytes := str "security".
Definition COMPUTE : bytes := str "compute".
End module_.

Module verb.
Definition REGISTER : bytes := str "register".
Definition UNREGISTER : bytes := str "unregister".
Definition LIST : bytes := str "list".
Definition ADD_NEXTHOP : bytes := str "add-nexthop".
Definition REMOVE_NEXTHOP : bytes := str "remove-nexthop".
Definition SET : bytes := str "set".
Definition UNSET : bytes := str "unset".
Definition CONFIG : bytes := str "config".
Definition INFO : bytes := str "info".
Definition ERASE : bytes := str "erase".
Definition LINK_QUALITY : bytes := str "link-quality".
Definition POLICY_GET : bytes := str "policy-get".
Definition POLICY_SET : bytes := str "policy-set".
Definition VALIDATION_STATS : bytes := str "validation-stats".
Definition VALIDATE : bytes := str "validate".
Definition ANCHOR_LIST : bytes := str "anchor-list".
Definition IDENTITY_LIST : bytes := str "identity-list".
Definition SCHEMA_LIST : bytes := str "schema-list".
End verb.

Definition eqb (a b : bytes) : bool := bool_decide (a = b).

(** ** [auth.rs] *)

Definition resolve_control_parameters (in_name in_app_params : option ControlParameters) : result (option ControlParameters) bytes :=
  match in_name, in_app_params with
  | Some _, Some _ => Err (str "ControlParameters present in both Name and AppParameters")
  | Some p, None | None, Some p => Ok (Some p)
  | None, None => Ok None
  end.

Definition COMMAND_SIG_TIME_TOLERANCE_MS : Z := 120000.

(** [Arc<Mutex<HashMap<Name, u64>>>]; a poisoned mutex stays poisoned. *)
Record CommandReplayCache : Type := mkCache { poisoned : bool; last_accepted : gmap Name Z }.

Definition check_sig_time (sig_time_ms : option Z) (now_ms : Z) (last_seen : option Z) (tolerance_ms : Z) : result Z bytes :=
  match sig_time_ms with
  | None => Err (str "signed command missing SignatureTime header")
  | Some sig_time =>
      let delta := Z.abs (now_ms - sig_time) in
      if tolerance_ms <? delta then
        Err (str "command SignatureTime " ++ dec sig_time ++ str " ms is outside ±" ++ dec tolerance_ms ++ str " ms window of now=" ++ dec now_ms)
      else match last_seen with
           | Some last_ =>
               if sig_time <=? last_ then
                 Err (str "command SignatureTime " ++ dec sig_time ++ str " ms <= last accepted " ++ dec last_ ++ str " ms (replay or reorder)")
               else Ok sig_time
           | None => Ok sig_time
           end
  end.

Definition STANDARD : list bytes := [module_.FACES; module_.FIB; module_.RIB; module_.CS; module_.STRATEGY; module_.STATUS].

Definition is_extended_module (m : bytes) : bool := negb (existsb (eqb m) STANDARD).

Definition effective_require_signed (m : bytes) (require_signed_global : bool) : bool := require_signed_global || is_extended_module m.

Definition is_public_dataset_verb (m v : bytes) : bool :=
  if existsb (eqb m) STANDARD && eqb v verb.LIST then true
  else if eqb m module_.STATUS && eqb v (str "general") then true
  else if eqb m module_.CS && eqb v verb.INFO then true
  else if eqb m module_.FACES && eqb v verb.LINK_QUALITY then true
  else if eqb m module_.SECURITY &&
          (eqb v verb.POLICY_GET || eqb v verb.VALIDATION_STATS || eqb v verb.VALIDATE ||
           eqb v verb.ANCHOR_LIST || eqb v verb.IDENTITY_LIST || eqb v verb.SCHEMA_LIST) then true
  else if eqb m module_.COMPUTE && eqb v verb.LIST then true
  else if eqb m (str "ext") && eqb v verb.LIST then true
  else false.

(** The verdict of a validator; [TrustError] by its message. *)
Inductive InterestValidationOutcome : Type := Valid | Invalid (e : bytes) | Pending.

(** A validator, as its certificate cache stands. *)
Record Validator : Type := mkValidator {
  has_cert_fetcher : bool;
  validate_interest : Interest -> InterestValidationOutcome;
  validate_interest_chain : Interest -> InterestValidationOutcome
}.

Definition outcome (v : Validator) (interest : Interest) : InterestValidationOutcome :=
  if has_cert_fetcher v then validate_interest_chain v interest else validate_interest v interest.

Definition key_locator_name (s : SignatureInfo) : option Name :=
  match key_locator s with Some (LocatorName n) => Some n | _ => None end.

(** The replay check, after the signature passed. *)
Definition check_replay (interest : Interest) (cache : CommandReplayCache) (now_ms : Z) : result unit bytes * CommandReplayCache :=
  match Interest.sig_info interest with
  | None => (Err (str "signed command missing SignatureInfo for replay check"), cache)
  | Some sig_info =>
      match key_locator_name sig_info with
      | None => (Err (str "signed command missing KeyLocator name for replay check"), cache)
      | Some signer =>
          if poisoned cache then (Err (str "command replay cache poisoned"), cache)
          else match check_sig_time (sig_time sig_info) now_ms (last_accepted cache !! signer) COMMAND_SIG_TIME_TOLERANCE_MS with
               | Err e => (Err e, cache)
               | Ok accepted => (Ok tt, mkCache false (<[signer := accepted]> (last_accepted cache)))
               end
      end
  end.

Definition authorize_command (interest : Interest) (validator : option Validator) (require_signed : bool)
    (replay_cache : option CommandReplayCache) (now_ms : Z) : result unit bytes * option CommandReplayCache :=
  if negb require_signed then (Ok tt, replay_cache)
  else match validator with
  | None => (Err (str "command authentication required but no validator is configured"), replay_cache)
  | Some v =>
      match sig_type <$> Interest.sig_info interest with
      | None | Some DigestSha256 =>
          (Err (str "command rejected: key-backed signature required (DigestSha256 does not establish key identity)"), replay_cache)
      | Some _ =>
          match outcome v interest with
          | Invalid e => (Err (str "invalid command signature: " ++ e), replay_cache)
          | Pending => (Err (str "signing certificate not yet resolved"), replay_cache)
          | Valid =>
              match replay_cache with
              | None => (Ok tt, None)
              | Some cache => let '(r, cache) := check_replay interest cache now_ms in (r, Some cache)
              end
          end
      end
  end.

(** ** [notification.rs] *)

Definition NOTIFICATION_RING_CAP : Z := 100.

Record NotificationStream : Type := mkStream { ns_prefix : Name; ns_seq : Z; ring : list (Z * bytes) }.

Module NotificationStream.

Definition new (prefix : Name) : NotificationStream := mkStream prefix 0 [].

(** [while g.len() > CAP { g.pop_front(); }]. *)
Definition pop_to_cap (g : list (Z * bytes)) : list (Z * bytes) := drop (Z.to_nat (zlen g - NOTIFICATION_RING_CAP)) g.

(** [data_wire] builds the Data packet of a name and a content. *)
Definition publish (data_wire : Name -> bytes -> bytes) (s : NotificationStream) (event : bytes) : NotificationStream :=
  let seq := wrap 64 (ns_seq s + 1) in
  let name := NameOps.append_sequence_num (ns_prefix s) seq in
  mkStream (ns_prefix s) seq (pop_to_cap (ring s ++ [(seq, data_wire name event)])).

Definition current_seq (s : NotificationStream) : Z := ns_seq s.

Definition lookup (s : NotificationStream) (seq : Z) : option bytes := snd <$> find (fun e => e.1 =? seq) (ring s).

(** [serve_one]: the number asked for and the answer when it is there; [None] waits for a publication. *)
Definition requested (s : NotificationStream) (requested_seq : option Z) : Z :=
  match requested_seq with Some x => x | None => Z.max (current_seq s) 1 end.
Definition serve_now (s : NotificationStream) (requested_seq : option Z) : option bytes := lookup s (requested s requested_seq).

End NotificationStream.

Definition parse_seq_num (name : Name) : option Z :=
  match last name with
  | None => None
  | Some c =>
      if negb (typ c =? tlv_type.SEQUENCE_NUM) then None
      else Some (fold_left (fun n b => Z.lor (wrap 64 (Z.shiftl n 8)) b) (value c) 0)
  end.

(** ** [modules/common.rs] *)

Definition RESERVED_PREFIXES : list bytes := [str "/ndn/local"; str "/localhost/nfd"].

Definition is_reserved_name (name : Name) : bool :=
  existsb (fun r => match from_str r with Ok p => NameOps.has_prefix name p || bool_decide (name = p) | Err _ => false end) RESERVED_PREFIXES.

Definition is_management_face (source_face : option Z) (faces : FaceTable) : bool :=
  match source_face with
  | None => true
  | Some fid => match FaceTable.get fid faces with Some f => FaceKind.is_management (f_kind f) | None => false end
  end.

Definition resolve_face_id (params : ControlParameters) (source_face : option Z) : result Z ControlResponse :=
  match cp_face_id params with
  | Some id => if id =? 0 then ok_or source_face (ControlResponse.error status.BAD_PARAMS (str "cannot determine FaceId")) else Ok id
  | None => ok_or source_face (ControlResponse.error status.BAD_PARAMS (str "cannot determine FaceId"))
  end.

Definition name_required : ControlResponse := ControlResponse.error status.BAD_PARAMS (str "Name is required").
Definition reserved_error (name : Name) : ControlResponse :=
  ControlResponse.error status.UNAUTHORIZED (str "prefix " ++ display name ++ str " is reserved for operator use").

(** What a dispatch reads of its environment. *)
Record MgmtContext : Type := mkContext {
  source_face : option Z;
  runtime_now : Z;   (** [engine.runtime().now()] *)
  instant_now : Z;   (** [Instant::now()] *)
  orders : Orders    (** the orders in which the RIB walks its hash maps *)
}.

Inductive MgmtResponse : Type := Control (r : ControlResponse) | DatasetBytes (b : bytes).

Definition NS_PER_MS : Z := 1000000.

(** ** [modules/rib.rs] *)

Definition rib_register (params : ControlParameters) (ctx : MgmtContext) (faces : FaceTable) (t : Tables) : ControlResponse * Tables :=
  match cp_name params with
  | None => (name_required, t)
  | Some name =>
      if is_reserved_name name && negb (is_management_face (source_face ctx) faces) then (reserved_error name, t)
      else match resolve_face_id params (source_face ctx) with
      | Err resp => (resp, t)
      | Ok face_id =>
          let cost := wrap 32 (default 0 (cp_cost params)) in
          let orig := default origin.APP (cp_origin params) in
          let flags := default CHILD_INHERIT (cp_flags params) in
          let expires_at := (fun ms => runtime_now ctx + ms * NS_PER_MS) <$> cp_expiration_period params in
          let t := Engine.register (orders ctx) t name (Rib.mkRoute face_id orig cost flags expires_at) in
          let echo := ControlParameters.set_name (Some name) (ControlParameters.set_face_id (Some face_id)
                        (ControlParameters.set_origin (Some orig) (ControlParameters.set_cost (Some cost)
                          (ControlParameters.set_flags (Some flags) (ControlParameters.set_expiration_period (cp_expiration_period params)
                            ControlParameters.default_))))) in
          (ControlResponse.ok (str "OK") echo, t)
      end
  end.

Definition rib_unregister (params : ControlParameters) (ctx : MgmtContext) (t : Tables) : ControlResponse * Tables :=
  match cp_name params with
  | None => (name_required, t)
  | Some name =>
      match resolve_face_id params (source_face ctx) with
      | Err resp => (resp, t)
      | Ok face_id =>
          let orig := cp_origin params in
          let t := Engine.unregister (orders ctx) t name face_id orig in
          let echo := ControlParameters.set_name (Some name) (ControlParameters.set_face_id (Some face_id)
                        (ControlParameters.set_origin (Some (default origin.APP orig)) ControlParameters.default_)) in
          (ControlResponse.ok (str "OK") echo, t)
      end
  end.

Definition listed_route (now : Z) (r : RibRoute) : Route :=
  Dataset.mkRoute (r_face r) (r_origin r) (r_cost r) (r_flags r)
    ((fun exp => wrap 64 (Z.max 0 (exp - now) / NS_PER_MS)) <$> expires_at r).

Definition rib_list_dataset (ctx : MgmtContext) (t : Tables) : bytes :=
  encode_dataset (Rib.dump (orders ctx) (t_rib t))
    (fun '(name, routes) => RibEntry.encode (mkRibEntry name (map (listed_route (instant_now ctx)) routes))).

Definition handle_rib (v : bytes) (params : ControlParameters) (ctx : MgmtContext) (faces : FaceTable) (t : Tables) : MgmtResponse * Tables :=
  if eqb v verb.REGISTER then let '(r, t) := rib_register params ctx faces t in (Control r, t)
  else if eqb v verb.UNREGISTER then let '(r, t) := rib_unregister params ctx t in (Control r, t)
  else if eqb v verb.LIST then (DatasetBytes (rib_list_dataset ctx t), t)
  else (Control (ControlResponse.error status.NOT_FOUND (str "unknown rib verb")), t).

(** [RouteEvent::encode]. *)
Definition route_event (kind : bytes) (prefix : Name) (face_id orig : Z) : bytes :=
  kind ++ str " face_id=" ++ dec face_id ++ str " origin=" ++ dec orig ++ str " name=" ++ display prefix.

(** The event a response gives rise to. *)
Definition rib_event (v : bytes) (resp : MgmtResponse) : option bytes :=
  match resp with
  | Control cr =>
      if status_code cr =? status.OK then
        match body cr with
        | Some b =>
            match cp_name b, cp_face_id b with
            | Some prefix, Some face_id =>
                let orig := default origin.APP (cp_origin b) in
                if eqb v verb.REGISTER then Some (route_event (str "register") prefix face_id orig)
                else if eqb v verb.UNREGISTER then Some (route_event (str "unregister") prefix face_id orig)
                else None
            | _, _ => None
            end
        | None => None
        end
      else None
  | DatasetBytes _ => None
  end.

(** ** [modules/fib.rs] *)

Definition with_fib (t : Tables) (f : EngineFib.Fib) : Tables := mkTables (t_rib t) f (t_dest t).

Definition fib_add_nexthop (params : ControlParameters) (ctx : MgmtContext) (faces : FaceTable) (t : Tables) : ControlResponse * Tables :=
  match cp_name params with
  | None => (name_required, t)
  | Some name =>
      if is_reserved_name name && negb (is_management_face (source_face ctx) faces) then (reserved_error name, t)
      else match resolve_face_id params (source_face ctx) with
      | Err resp => (resp, t)
      | Ok face_id =>
          let cost := wrap 32 (default 0 (cp_cost params)) in
          (ControlResponse.ok (str "OK") (ControlParameters.set_name (Some name) (ControlParameters.set_face_id (Some face_id)
             (ControlParameters.set_cost (Some cost) ControlParameters.default_))),
           with_fib t (EngineFib.add_nexthop (t_fib t) name face_id cost))
      end
  end.

Definition fib_remove_nexthop (params : ControlParameters) (ctx : MgmtContext) (t : Tables) : ControlResponse * Tables :=
  match cp_name params with
  | None => (name_required, t)
  | Some name =>
      match resolve_face_id params (source_face ctx) with
      | Err resp => (resp, t)
      | Ok face_id =>
          (ControlResponse.ok (str "OK") (ControlParameters.set_name (Some name) (ControlParameters.set_face_id (Some face_id) ControlParameters.default_)),
           with_fib t (EngineFib.remove_nexthop (t_fib t) name face_id))
      end
  end.

Definition fib_list_dataset (t : Tables) : bytes :=
  encode_dataset (EngineFib.dump (t_fib t))
    (fun '(name, entry) => FibEntry.encode (mkFibEntry name (map (fun nh => mkNextHopRecord (face_id nh) (cost nh)) (nexthops entry)))).

Definition handle_fib (v : bytes) (params : ControlParameters) (ctx : MgmtContext) (faces : FaceTable) (t : Tables) : MgmtResponse * Tables :=
  if eqb v verb.ADD_NEXTHOP then let '(r, t) := fib_add_nexthop params ctx faces t in (Control r, t)
  else if eqb v verb.REMOVE_NEXTHOP then let '(r, t) := fib_remove_nexthop params ctx t in (Control r, t)
  else if eqb v verb.LIST then (DatasetBytes (fib_list_dataset t), t)
  else (Control (ControlResponse.error status.NOT_FOUND (str "unknown fib verb")), t).

(** ** [modules/strategy.rs] *)

(** Big-endian bytes, as the [u64] loop computes them. *)
Definition be_fold (b : bytes) : Z := fold_left (fun n x => Z.lor (wrap 64 (Z.shiftl n 8)) x) b 0.

Definition strategy_event (kind : bytes) (prefix : Name) (strategy : option Name) : bytes :=
  kind ++ str " prefix=" ++ display prefix ++ str " strategy=" ++ match strategy with Some n => display n | None => [] end.

(** [strategy-choice]: the event a response gives rise to. *)
Definition strategy_choice_event (v : bytes) (resp : MgmtResponse) : option bytes :=
  match resp with
  | Control cr =>
      if status_code cr =? status.OK then
        match body cr with
        | Some b =>
            match cp_name b with
            | Some prefix =>
                if eqb v verb.SET then Some (strategy_event (str "set") prefix (cp_strategy b))
                else if eqb v verb.UNSET then Some (strategy_event (str "unset") prefix (cp_strategy b))
                else None
            | None => None
            end
        | None => None
        end
      else None
  | DatasetBytes _ => None
  end.

(** The registry of strategies, filled at link time. *)
Record Registry (S : Type) : Type := mkRegistry {
  create_by_name : bytes -> option S;
  create_by_name_version : bytes -> Z -> option S;
  strategy_name : S -> Name
}.
Arguments mkRegistry {S}. Arguments create_by_name {S}. Arguments create_by_name_version {S}. Arguments strategy_name {S}.

Section strategy.
Context {S : Type} (reg : Registry S).

Definition create_strategy_by_name (name : Name) : option S :=
  let lookup short version := match version with Some v => create_by_name_version reg short v | None => create_by_name reg short end in
  match name with
  | c0 :: c1 :: c2 :: c3 :: rest =>
      if eqb (value c0) (str "localhost") && eqb (value c1) (str "nfd") && eqb (value c2) (str "strategy") then
        lookup (value c3) (match rest with
                           | c :: _ => if typ c =? tlv_type.VERSION then Some (be_fold (value c)) else None
                           | [] => None
                           end)
      else None
  | [c0] => lookup (value c0) None
  | _ => None
  end.

Definition strategy_set (params : ControlParameters) (table : StrategyTable.StrategyTable (S := S)) : ControlResponse * StrategyTable.StrategyTable (S := S) :=
  match cp_name params with
  | None => (name_required, table)
  | Some prefix =>
      match cp_strategy params with
      | None => (ControlResponse.error status.BAD_PARAMS (str "Strategy is required"), table)
      | Some strategy_name =>
          match create_strategy_by_name strategy_name with
          | None => (ControlResponse.error status.NOT_FOUND (str "unknown strategy: " ++ display strategy_name), table)
          | Some strategy =>
              (ControlResponse.ok (str "OK") (ControlParameters.set_name (Some prefix) (ControlParameters.set_strategy (Some strategy_name) ControlParameters.default_)),
               StrategyTable.insert table prefix strategy)
          end
      end
  end.

Definition strategy_unset (params : ControlParameters) (table : StrategyTable.StrategyTable (S := S)) : ControlResponse * StrategyTable.StrategyTable (S := S) :=
  match cp_name params with
  | None => (name_required, table)
  | Some prefix =>
      if NameOps.is_empty prefix then (ControlResponse.error status.BAD_PARAMS (str "cannot unset strategy at root prefix"), table)
      else (ControlResponse.ok (str "OK") (ControlParameters.set_name (Some prefix) ControlParameters.default_), StrategyTable.remove table prefix)
  end.

Definition strategy_list_dataset (table : StrategyTable.StrategyTable (S := S)) : bytes :=
  encode_dataset (StrategyTable.dump table) (fun '(prefix, s) => StrategyChoice.encode (mkStrategyChoice prefix (strategy_name reg s))).

Definition handle_strategy (v : bytes) (params : ControlParameters) (table : StrategyTable.StrategyTable (S := S)) : MgmtResponse * StrategyTable.StrategyTable (S := S) :=
  if eqb v verb.SET then let '(r, table) := strategy_set params table in (Control r, table)
  else if eqb v verb.UNSET then let '(r, table) := strategy_unset params table in (Control r, table)
  else if eqb v verb.LIST then (DatasetBytes (strategy_list_dataset table), table)
  else (Control (ControlResponse.error status.NOT_FOUND (str "unknown strategy-choice verb")), table).

End strategy.

(** ** [modules/cs.rs] *)

Definition BIT_CS_ENABLE_ADMIT : Z := 1.
Definition BIT_CS_ENABLE_SERVE : Z := 2.

Section cs.
Context {CS : Type} `{!ContentStore CS} (variant_name : CS -> bytes).

Definition has_bit (x bit : Z) : bool := negb (Z.land x bit =? 0).

Definition cs_config (params : ControlParameters) (cs : CS) : ControlResponse * CS :=
  let cs := match cp_capacity params with Some new_cap => cs_set_capacity cs new_cap | None => cs end in
  let cs := match cp_flags params, cp_mask params with
            | Some flags, Some mask =>
                let cs := if has_bit mask BIT_CS_ENABLE_ADMIT then cs_set_admit cs (has_bit flags BIT_CS_ENABLE_ADMIT) else cs in
                if has_bit mask BIT_CS_ENABLE_SERVE then cs_set_serve cs (has_bit flags BIT_CS_ENABLE_SERVE) else cs
            | _, _ => cs
            end in
  let cap := cs_capacity cs in
  let flags := 0 in
  let flags := if cs_admit_enabled cs then Z.lor flags BIT_CS_ENABLE_ADMIT else flags in
  let flags := if cs_serve_enabled cs then Z.lor flags BIT_CS_ENABLE_SERVE else flags in
  (ControlResponse.ok (str "OK") (ControlParameters.set_capacity (Some (max_bytes cap)) (ControlParameters.set_flags (Some flags) ControlParameters.default_)), cs).

Definition cs_info (cs : CS) : ControlResponse :=
  let stats := cs_stats cs in
  ControlResponse.ok_empty (str "capacity=" ++ dec (max_bytes (cs_capacity cs)) ++ str "B entries=" ++ dec (cs_len cs) ++ str " used=" ++ dec (cs_current_bytes cs) ++
    str "B hits=" ++ dec (s_hits stats) ++ str " misses=" ++ dec (s_misses stats) ++ str " variant=" ++ variant_name cs).

Definition cs_erase (params : ControlParameters) (cs : CS) : ControlResponse * CS :=
  match cp_name params with
  | None => (ControlResponse.error status.BAD_PARAMS (str "missing Name parameter"), cs)
  | Some name =>
      let '(erased, cs) := cs_evict_prefix cs name (cp_count params) in
      (ControlResponse.ok (str "OK") (ControlParameters.set_name (cp_name params) (ControlParameters.set_count (Some erased) ControlParameters.default_)), cs)
  end.

Definition handle_cs (v : bytes) (params : ControlParameters) (cs : CS) : ControlResponse * CS :=
  if eqb v verb.CONFIG then cs_config params cs
  else if eqb v verb.INFO then (cs_info cs, cs)
  else if eqb v verb.ERASE then cs_erase params cs
  else (ControlResponse.error status.NOT_FOUND (str "unknown cs verb"), cs).

End cs.

(** ** The access policy of [modules/security.rs] *)

Record MgmtAccessPolicy : Type := mkPolicy {
  ephemeral_allowed : bool;
  localhop_disabled : bool;
  replay_window_secs : Z;
  p_require_signed_commands : bool;
  validator_anchor : option bytes
}.

(** What the policy reads of [MgmtConfig]. *)
Record MgmtConfig : Type := mkConfig {
  security_identity : option bytes;
  c_require_signed_commands : bool;
  mgmt_trust_anchor_pib : option bytes;
  localhop_trust_anchor_pib : option bytes
}.

Definition is_none {A} (o : option A) : bool := match o with None => true | Some _ => false end.

Definition MgmtAccessPolicy_from_config (c : MgmtConfig) : MgmtAccessPolicy :=
  mkPolicy (is_none (security_identity c)) (is_none (localhop_trust_anchor_pib c)) 120 (c_require_signed_commands c) (mgmt_trust_anchor_pib c).

(** The JSON form of a policy; an error by its message. *)
Record PolicyJson : Type := mkJson {
  policy_to_string : MgmtAccessPolicy -> result bytes bytes;
  policy_from_str : bytes -> result MgmtAccessPolicy bytes
}.

Definition join_fields (v : list bytes) : bytes :=
  match v with
  | [] => str "(none)"
  | f :: fs => fold_left (fun acc x => acc ++ str "," ++ x) fs f
  end.

Section policy.
Context (json : PolicyJson) (config : MgmtConfig).

Definition active_policy (runtime_policy : option MgmtAccessPolicy) : MgmtAccessPolicy :=
  match runtime_policy with Some p => p | None => MgmtAccessPolicy_from_config config end.

Definition security_policy_get (runtime_policy : option MgmtAccessPolicy) : ControlResponse :=
  match policy_to_string json (active_policy runtime_policy) with
  | Ok s => ControlResponse.ok_empty s
  | Err e => ControlResponse.error status.SERVER_ERROR (str "posture encode: " ++ e)
  end.

(** [record]: a changed field goes to one of the two lists. *)
Definition record_change (field : bytes) (changed writable : bool) (s : list bytes * list bytes) : list bytes * list bytes :=
  if negb changed then s else if writable then (s.1 ++ [field], s.2) else (s.1, s.2 ++ [field]).

Definition security_policy_set (params : ControlParameters) (runtime_policy : option MgmtAccessPolicy) : ControlResponse * option MgmtAccessPolicy :=
  match cp_uri params with
  | None | Some [] => (ControlResponse.error status.BAD_PARAMS (str "Uri must contain JSON-encoded MgmtAccessPolicy"), runtime_policy)
  | Some text =>
      match policy_from_str json text with
      | Err e => (ControlResponse.error status.BAD_PARAMS (str "invalid JSON: " ++ e), runtime_policy)
      | Ok parsed =>
          if replay_window_secs parsed <? 60 then
            (ControlResponse.error status.BAD_PARAMS (str "replay_window_secs is a compiled-in floor (>= 60s)"), runtime_policy)
          else
            let current := active_policy runtime_policy in
            let runtime_writable := negb (is_none runtime_policy) in
            if p_require_signed_commands current && negb (p_require_signed_commands parsed) then
              (ControlResponse.error status.BAD_PARAMS (str "require_signed_commands cannot be disabled at runtime; change it in the config and restart"), runtime_policy)
            else
              let s := record_change (str "require_signed_commands") (xorb (p_require_signed_commands current) (p_require_signed_commands parsed)) runtime_writable ([], []) in
              let s := record_change (str "localhop_disabled") (xorb (localhop_disabled current) (localhop_disabled parsed)) runtime_writable s in
              let s := record_change (str "ephemeral_allowed") (xorb (ephemeral_allowed current) (ephemeral_allowed parsed)) runtime_writable s in
              let s := record_change (str "validator_anchor") (negb (bool_decide (validator_anchor current = validator_anchor parsed))) false s in
              let runtime_policy :=
                match s.1, runtime_policy with
                | _ :: _, Some guard =>
                    Some (mkPolicy (ephemeral_allowed parsed) (localhop_disabled parsed) (replay_window_secs guard) (p_require_signed_commands parsed) (validator_anchor guard))
                | _, _ => runtime_policy
                end in
              (ControlResponse.ok_empty (str "runtime_applied=" ++ join_fields s.1 ++ [10] ++ str "pending_restart=" ++ join_fields s.2 ++ [10]), runtime_policy)
      end
  end.

End policy.

(** ** The server ([lib.rs], [module.rs]) *)

Section server.
Context {CS : Type} `{!ContentStore CS} (variant_name : CS -> bytes).
Context {S : Type} (reg : Registry S).
Context (json : PolicyJson) (config : MgmtConfig).
Context (data_wire : Name -> bytes -> bytes).
Context {X : Type}.

(** The tables of the engine that management reads and writes. *)
Record ForwarderEngine : Type := mkEngine {
  e_tables : Tables;
  e_strategies : StrategyTable.StrategyTable (S := S);
  e_cs : CS;
  e_faces : FaceTable
}.

(** What the modules act on: the engine, the run-time policy, the notification
    streams and the state [X] of the modules that are not modelled. *)
Record Managed : Type := mkManaged {
  m_engine : ForwarderEngine;
  runtime_policy : option MgmtAccessPolicy;
  route_events : NotificationStream;
  strategy_events : NotificationStream;
  others : X
}.

(** A verb of a module that is not modelled: its context hands it the engine, the
    policy and the streams, and it may change all of them. *)
Definition Handler : Type := bytes -> ControlParameters -> MgmtContext -> Managed -> MgmtResponse * Managed.

Inductive MgmtModule : Type :=
| RibModule | FibModule | StrategyModule | CsModule
| SecurityModule (rest : Handler)  (** [rest]: the verbs other than [policy-get] and [policy-set] *)
| OtherModule (dispatch : Handler).

Definition with_tables (m : Managed) (t : Tables) : Managed :=
  mkManaged (mkEngine t (e_strategies (m_engine m)) (e_cs (m_engine m)) (e_faces (m_engine m))) (runtime_policy m) (route_events m) (strategy_events m) (others m).
Definition with_strategies (m : Managed) (t : StrategyTable.StrategyTable (S := S)) : Managed :=
  mkManaged (mkEngine (e_tables (m_engine m)) t (e_cs (m_engine m)) (e_faces (m_engine m))) (runtime_policy m) (route_events m) (strategy_events m) (others m).
Definition with_cs (m : Managed) (c : CS) : Managed :=
  mkManaged (mkEngine (e_tables (m_engine m)) (e_strategies (m_engine m)) c (e_faces (m_engine m))) (runtime_policy m) (route_events m) (strategy_events m) (others m).
Definition with_policy (m : Managed) (p : option MgmtAccessPolicy) : Managed :=
  mkManaged (m_engine m) p (route_events m) (strategy_events m) (others m).

(** [MgmtModule::dispatch] of each module. *)
Definition module_dispatch (md : MgmtModule) (v : bytes) (params : ControlParameters) (ctx : MgmtContext) (m : Managed) : MgmtResponse * Managed :=
  match md with
  | RibModule =>
      let '(resp, t) := handle_rib v params ctx (e_faces (m_engine m)) (e_tables (m_engine m)) in
      let m := with_tables m t in
      (resp, match rib_event v resp with
             | Some e => mkManaged (m_engine m) (runtime_policy m) (NotificationStream.publish data_wire (route_events m) e) (strategy_events m) (others m)
             | None => m
             end)
  | FibModule => let '(resp, t) := handle_fib v params ctx (e_faces (m_engine m)) (e_tables (m_engine m)) in (resp, with_tables m t)
  | StrategyModule =>
      let '(resp, t) := handle_strategy reg v params (e_strategies (m_engine m)) in
      let m := with_strategies m t in
      (resp, match strategy_choice_event v resp with
             | Some e => mkManaged (m_engine m) (runtime_policy m) (route_events m) (NotificationStream.publish data_wire (strategy_events m) e) (others m)
             | None => m
             end)
  | CsModule => let '(resp, c) := handle_cs variant_name v params (e_cs (m_engine m)) in (Control resp, with_cs m c)
  | SecurityModule rest =>
      if eqb v verb.POLICY_GET then (Control (security_policy_get json config (runtime_policy m)), m)
      else if eqb v verb.POLICY_SET then
        let '(resp, p) := security_policy_set json config params (runtime_policy m) in (Control resp, with_policy m p)
      else rest v params ctx m
  | OtherModule h => h v params ctx m
  end.

Definition MgmtRouter : Type := gmap bytes MgmtModule.
Definition router_register (name : bytes) (md : MgmtModule) (r : MgmtRouter) : MgmtRouter := <[name := md]> r.

Definition router_dispatch (r : MgmtRouter) (mname v : bytes) (params : ControlParameters) (ctx : MgmtContext) (m : Managed) : MgmtResponse * Managed :=
  match r !! mname with
  | Some md => module_dispatch md v params ctx m
  | None => (Control (ControlResponse.error status.NOT_FOUND (str "unknown module")), m)
  end.

(** The built-in modules, then those of the host; a later module takes the place
    of one with its name. *)
Definition build_mgmt_router (security : Handler) (builtins extra_modules : list (bytes * MgmtModule)) : MgmtRouter :=
  fold_left (fun r m => router_register m.1 m.2 r)
    ([(module_.RIB, RibModule); (module_.FIB, FibModule); (module_.STRATEGY, StrategyModule); (module_.CS, CsModule);
      (module_.SECURITY, SecurityModule security)] ++ builtins ++ extra_modules) ∅.

(** The static part of [MgmtHandles] and the router. *)
Record Handles : Type := mkHandles { h_require_signed_commands : bool; h_router : MgmtRouter }.

(** The server: what it manages and the replay cache. *)
Record Server : Type := mkServer { managed : Managed; replay_cache : option CommandReplayCache }.

Definition effective_require_signed_commands (h : Handles) (s : Server) : bool :=
  match runtime_policy (managed s) with Some p => p_require_signed_commands p | None => h_require_signed_commands h end.

(** One received frame and what the round reads of the environment. *)
Record Round : Type := mkRound {
  r_wire : bytes;
  r_tagged_source : option Z;            (** the face the frame is tagged with *)
  r_pit_source : option Z;               (** [engine.source_face_id] *)
  r_command_validator : option Validator;
  r_localhop_validator : option Validator;  (** after a reflexive fetch of the certificate, if there was one *)
  r_now_ms : Z;                          (** [SystemTime::now()], in milliseconds *)
  r_runtime_now : Z;
  r_instant_now : Z;
  r_orders : Orders
}.

Definition is_localhop_command (interest : Interest) : bool :=
  match i_name interest with c :: _ => eqb (value c) (str "localhop") | [] => false end.

(** The gate before the dispatch. *)
Definition authorise (h : Handles) (s : Server) (rd : Round) (interest : Interest) (parsed : ParsedCommand) : result unit ControlResponse * option CommandReplayCache :=
  let is_localhop := is_localhop_command interest in
  let is_public_read := negb is_localhop && is_public_dataset_verb (pc_module parsed) (pc_verb parsed) in
  if is_public_read then (Ok tt, replay_cache s)
  else
    let check validator required :=
      let '(r, cache) := authorize_command interest validator required (replay_cache s) (r_now_ms rd) in
      (match r with Ok _ => Ok tt | Err reason => Err (ControlResponse.error status.UNAUTHORIZED reason) end, cache) in
    if is_localhop then
      match r_localhop_validator rd with
      | Some v => check (Some v) true
      | None => (Err (ControlResponse.error status.UNAUTHORIZED (str "localhop registration disabled (no trust anchor configured)")), replay_cache s)
      end
    else check (r_command_validator rd) (effective_require_signed (pc_module parsed) (effective_require_signed_commands h s)).

(** One round of [run_ndn_mgmt_handler]: the name and the response to send, if any. *)
Definition handle (h : Handles) (s : Server) (rd : Round) : option (Name * MgmtResponse) * Server :=
  match Interest.decode (r_wire rd) with
  | Err _ => (None, s)
  | Ok interest =>
      let source := match r_tagged_source rd with Some f => Some f | None => r_pit_source rd end in
      let reply r := Some (i_name interest, r) in
      match parse_command_name (i_name interest) with
      | None => (reply (Control (ControlResponse.error status.BAD_PARAMS (str "invalid command name"))), s)
      | Some parsed =>
          let '(verdict, cache) := authorise h s rd interest parsed in
          let s := mkServer (managed s) cache in
          match verdict with
          | Err resp => (reply (Control resp), s)
          | Ok _ =>
              let params_in_app := match Interest.app_parameters interest with
                                   | Some app => match ControlParameters.decode app with Ok p => Some p | Err _ => None end
                                   | None => None
                                   end in
              match resolve_control_parameters (pc_params parsed) params_in_app with
              | Err reason => (reply (Control (ControlResponse.error status.BAD_PARAMS reason)), s)
              | Ok params =>
                  let params := default ControlParameters.default_ params in
                  let ctx := mkContext source (r_runtime_now rd) (r_instant_now rd) (r_orders rd) in
                  let '(resp, m) := router_dispatch (h_router h) (pc_module parsed) (pc_verb parsed) params ctx (managed s) in
                  (reply resp, mkServer m cache)
              end
          end
      end
  end.

Fixpoint serve (h : Handles) (s : Server) (rounds : list Round) : list (option (Name * MgmtResponse)) * Server :=
  match rounds with
  | [] => ([], s)
  | rd :: rounds => let '(r, s) := handle h s rd in let '(rs, s) := serve h s rounds in (r :: rs, s)
  end.

(** ** Authorisation *)

(** A signature that names a key. *)
Definition key_backed (i : Interest) : Prop := exists si, Interest.sig_info i = Some si /\ sig_type si <> DigestSha256.

(** The Interest passes the validator, which is configured. *)
Definition accepted_by (ov : option Validator) (i : Interest) : Prop := exists v, ov = Some v /\ key_backed i /\ outcome v i = Valid.

Definition validator_of (rd : Round) (i : Interest) : option Validator :=
  if is_localhop_command i then r_localhop_validator rd else r_command_validator rd.

Definition public_read (i : Interest) (p : ParsedCommand) : bool :=
  negb (is_localhop_command i) && is_public_dataset_verb (pc_module p) (pc_verb p).

(** The gate asks for a signature. *)
Definition signature_required (h : Handles) (s : Server) (i : Interest) (p : ParsedCommand) : bool :=
  is_localhop_command i || effective_require_signed (pc_module p) (effective_require_signed_commands h s).

(** A replay check that passed: the signer, its time, and the cache after it. *)
Definition fresh_in (i : Interest) (now_ms : Z) (c c' : CommandReplayCache) : Prop :=
  exists si signer t, Interest.sig_info i = Some si /\ key_locator_name si = Some signer /\ sig_time si = Some t /\
    Z.abs (now_ms - t) <= COMMAND_SIG_TIME_TOLERANCE_MS /\ (forall last_, last_accepted c !! signer = Some last_ -> last_ < t) /\
    last_accepted c' = <[signer := t]> (last_accepted c).

Lemma check_sig_time_ok st now last_ tol t : check_sig_time st now last_ tol = Ok t ->
  st = Some t /\ Z.abs (now - t) <= tol /\ forall l, last_ = Some l -> l < t.
Proof.
  unfold check_sig_time. destruct st as [x|]; [|done]. cbv zeta. destruct (Z.ltb_spec tol (Z.abs (now - x))); [done|].
  destruct last_ as [l|]; [destruct (Z.leb_spec x l); [done|]|]; intros [= ->]; (split; [done|split; [lia|]]); [by intros ? [= <-]|done].
Qed.

Lemma check_replay_ok i c now c' : check_replay i c now = (Ok tt, c') -> fresh_in i now c c'.
Proof.
  unfold check_replay. destruct (Interest.sig_info i) as [si|] eqn:Hs; [|done]. destruct (key_locator_name si) as [signer|] eqn:Hk; [|done].
  destruct (poisoned c); [done|]. destruct (check_sig_time _ _ _ _) as [t|] eqn:Ht; [|done]. intros [= <-]. apply check_sig_time_ok in Ht as (Ht & Hd & Hl).
  exists si, signer, t. split_conj; [done|done|done|done|done|done].
Qed.

Lemma check_replay_error i c now r c' : check_replay i c now = (r, c') -> r = Ok tt \/ c' = c.
Proof. unfold check_replay. repeat case_match; intros [= <- <-]; auto. Qed.

Lemma authorize_required i ov oc now oc' : authorize_command i ov true oc now = (Ok tt, oc') ->
  accepted_by ov i /\ match oc with None => oc' = None | Some c => exists c', oc' = Some c' /\ fresh_in i now c c' end.
Proof.
  unfold authorize_command. cbn [negb]. destruct ov as [v|]; [|done]. destruct (Interest.sig_info i) as [si|] eqn:Hs; cbn [fmap option_fmap option_map]; [|done].
  intros H. assert (sig_type si <> DigestSha256) as Hne by (intros E; by rewrite E in H).
  assert ((match outcome v i with
           | Invalid e => (Err (str "invalid command signature: " ++ e), oc)
           | Pending => (Err (str "signing certificate not yet resolved"), oc)
           | Valid => match oc with None => (Ok tt, None) | Some c => let '(r, c) := check_replay i c now in (r, Some c) end
           end) = (Ok tt, oc')) as H' by (destruct (sig_type si); done). clear H.
  destruct (outcome v i) eqn:Ho; [|done|done]. split; [exists v; split_conj; [done|by exists si|done]|].
  destruct oc as [c|]; [|by injection H' as <-]. destruct (check_replay i c now) as [r c'] eqn:Hc. injection H' as -> <-. exists c'. split; [done|]. by apply check_replay_ok.
Qed.

Lemma authorize_cache i ov req oc now r oc' : authorize_command i ov req oc now = (r, oc') ->
  oc' = oc \/ exists c c', oc = Some c /\ oc' = Some c' /\ fresh_in i now c c'.
Proof.
  unfold authorize_command. destruct (negb req); [intros [= <- <-]; by left|]. destruct ov as [v|]; [|intros [= <- <-]; by left].
  destruct (sig_type <$> Interest.sig_info i) as [[]|]; try (intros [= <- <-]; by left);
    (destruct (outcome v i); [|intros [= <- <-]; by left|intros [= <- <-]; by left]); (destruct oc as [c0|]; [|intros [= <- <-]; by left]);
    destruct (check_replay i c0 now) as [x c1] eqn:Hc; intros [= <- <-];
    (destruct (check_replay_error _ _ _ _ _ Hc) as [-> | ->]; [right; exists c0, c1; split_conj; [done|done|by apply check_replay_ok]|by left]).
Qed.

Section gate.
Context (h : Handles) (s : Server) (rd : Round) (i : Interest) (p : ParsedCommand).

Lemma authorise_signed c' : public_read i p = false -> signature_required h s i p = true -> authorise h s rd i p = (Ok tt, c') ->
  accepted_by (validator_of rd i) i /\ match replay_cache s with None => c' = None | Some c => exists c1, c' = Some c1 /\ fresh_in i (r_now_ms rd) c c1 end.
Proof.
  unfold public_read, signature_required, authorise, validator_of. intros -> Hreq. destruct (is_localhop_command i).
  - destruct (r_localhop_validator rd) as [v|]; [|done]. destruct (authorize_command _ _ _ _ _) as [[[]|] oc] eqn:Ha; [|done].
    intros [= <-]. by apply authorize_required.
  - cbn [orb] in Hreq. rewrite Hreq. destruct (authorize_command _ _ _ _ _) as [[[]|] oc] eqn:Ha; [|done]. intros [= <-]. by apply authorize_required.
Qed.

Lemma authorise_cache r c' : authorise h s rd i p = (r, c') ->
  c' = replay_cache s \/ exists c c1, replay_cache s = Some c /\ c' = Some c1 /\ fresh_in i (r_now_ms rd) c c1.
Proof.
  unfold authorise. destruct (negb _ && _); [intros [= <- <-]; by left|]. destruct (is_localhop_command i); [destruct (r_localhop_validator rd)|].
  2: intros [= <- <-]; by left. all: destruct (authorize_command _ _ _ _ _) as [x oc] eqn:Ha; intros [= <- <-]; by apply authorize_cache in Ha.
Qed.

End gate.

(** ** Reads and the policy *)

(** What management governs. *)
Definition governed (m : Managed) : ForwarderEngine * option MgmtAccessPolicy * (NotificationStream * NotificationStream) :=
  (m_engine m, runtime_policy m, (route_events m, strategy_events m)).

(** The policy cell is not taken away, and signatures required in it stay so. *)
Definition keeps_signatures (p p' : option MgmtAccessPolicy) : Prop :=
  match p, p' with
  | Some p, Some p' => p_require_signed_commands p = true -> p_require_signed_commands p' = true
  | None, None => True
  | _, _ => False
  end.

(** What is asked of the modules that are not modelled: their public datasets are
    reads, as [is_public_dataset_verb] says of them, and no verb of theirs turns
    required signatures off ([security_policy_set], which is modelled, is the one
    place of the crate that writes the policy). *)
Definition lawful (mname : bytes) (f : Handler) : Prop :=
  (forall v params ctx m, is_public_dataset_verb mname v = true -> governed (f v params ctx m).2 = governed m) /\
  (forall v params ctx m, keeps_signatures (runtime_policy m) (runtime_policy (f v params ctx m).2)).

Definition lawful_module (mname : bytes) (md : MgmtModule) : Prop :=
  match md with SecurityModule f | OtherModule f => lawful mname f | _ => True end.

Definition lawful_router (r : MgmtRouter) : Prop := map_Forall lawful_module r.

Lemma eqb_true a b : eqb a b = true <-> a = b.
Proof. unfold eqb. apply bool_decide_eq_true. Qed.

Definition public_verbs : list bytes :=
  [verb.LIST; str "general"; verb.INFO; verb.LINK_QUALITY; verb.POLICY_GET; verb.VALIDATION_STATS; verb.VALIDATE; verb.ANCHOR_LIST; verb.IDENTITY_LIST; verb.SCHEMA_LIST].

Lemma public_verb mn v : is_public_dataset_verb mn v = true -> v ∈ public_verbs.
Proof.
  unfold is_public_dataset_verb. intros H. unfold public_verbs.
  repeat match type of H with (if ?a && ?b then true else _) = true => destruct a; cbn [andb] in H; [destruct b eqn:E; [clear H|clear E]|] end; try done.
  all: repeat match goal with E : (_ || _) = true |- _ => apply orb_true_iff in E as [E|E] end; apply eqb_true in E as ->.
  all: by (apply (bool_decide_unpack _); vm_compute).
Qed.

Ltac closed_eqb := repeat match goal with |- context [eqb ?a ?b] => let x := eval vm_compute in (eqb a b) in change (eqb a b) with x end; cbv beta iota.

Lemma public_reads mname md v params ctx m : is_public_dataset_verb mname v = true -> lawful_module mname md ->
  governed (module_dispatch md v params ctx m).2 = governed m.
Proof.
  intros Hpub Hl. pose proof (public_verb _ _ Hpub) as Hv. destruct m as [[t st cs fc] pol re se x].
  destruct md as [| | | |rest|f]; [..|by apply Hl].
  5: { cbn [module_dispatch]. destruct (eqb v verb.POLICY_GET); [done|]. destruct (eqb v verb.POLICY_SET) eqn:E; [|by apply Hl].
       apply eqb_true in E as ->. exfalso. revert Hv. apply (bool_decide_unpack _). by vm_compute. }
  all: unfold public_verbs in Hv; repeat (apply elem_of_cons in Hv as [->|Hv]; [cbn [module_dispatch m_engine e_faces e_tables e_strategies e_cs];
    unfold handle_rib, handle_fib, handle_strategy, handle_cs, rib_event, strategy_choice_event; closed_eqb; try reflexivity; repeat case_match; reflexivity|]);
    by apply not_elem_of_nil in Hv.
Qed.

Lemma policy_set_none params : (security_policy_set json config params None).2 = None.
Proof.
  unfold security_policy_set. destruct (cp_uri params) as [[|x l]|]; [done| |done]. destruct (policy_from_str json (x :: l)) as [q|e]; [|done].
  destruct (replay_window_secs q <? 60); [done|]. cbv zeta. destruct (_ && _); [done|]. cbn [snd].
  match goal with |- match ?l with [] => None | _ :: _ => None end = None => by destruct l end.
Qed.

Lemma policy_set_some params rp : exists p, (security_policy_set json config params (Some rp)).2 = Some p.
Proof.
  unfold security_policy_set. cbn [active_policy].
  destruct (cp_uri params) as [[|x l]|]; [by eexists| |by eexists]. destruct (policy_from_str json (x :: l)) as [q|e]; [|by eexists].
  destruct (replay_window_secs q <? 60); [by eexists|]. cbv zeta. destruct (_ && _); [by eexists|]. cbn [snd].
  match goal with |- exists p, (match ?l with _ => _ end) = Some p => destruct l end; by eexists.
Qed.

Lemma policy_set_keeps params rp : p_require_signed_commands rp = true ->
  exists p, (security_policy_set json config params (Some rp)).2 = Some p /\ p_require_signed_commands p = true.
Proof.
  intros Hreq. unfold security_policy_set. cbn [active_policy].
  destruct (cp_uri params) as [[|x l]|]; [by eexists| |by eexists]. destruct (policy_from_str json (x :: l)) as [q|e]; [|by eexists].
  destruct (replay_window_secs q <? 60); [by eexists|]. cbv zeta. rewrite Hreq. cbn [andb]. destruct (p_require_signed_commands q) eqn:Hq; [|by eexists]. cbn [negb snd].
  match goal with |- exists p, (match ?l with _ => _ end) = Some p /\ _ => destruct l end; by eexists.
Qed.

Lemma keeps_signatures_refl p : keeps_signatures p p.
Proof. destruct p; cbn; auto. Qed.

Lemma dispatch_keeps_policy mname md v params ctx m : lawful_module mname md ->
  keeps_signatures (runtime_policy m) (runtime_policy (module_dispatch md v params ctx m).2).
Proof.
  intros Hl. destruct md as [| | | |rest|f]; cbn [module_dispatch].
  - destruct (handle_rib _ _ _ _ _) as [r t]. destruct (rib_event v r); apply keeps_signatures_refl.
  - destruct (handle_fib _ _ _ _ _) as [r t]. apply keeps_signatures_refl.
  - destruct (handle_strategy _ _ _ _) as [r t]. destruct (strategy_choice_event v r); apply keeps_signatures_refl.
  - destruct (handle_cs _ _ _ _) as [r t]. apply keeps_signatures_refl.
  - destruct (eqb v verb.POLICY_GET); [apply keeps_signatures_refl|]. destruct (eqb v verb.POLICY_SET); [|by apply Hl].
    assert (keeps_signatures (runtime_policy m) (security_policy_set json config params (runtime_policy m)).2) as Hk.
    { destruct (runtime_policy m) as [rp|]; [|by rewrite policy_set_none]. destruct (p_require_signed_commands rp) eqn:Hr.
      - destruct (policy_set_keeps params rp Hr) as (q & -> & Hq). cbn. auto.
      - destruct (policy_set_some params rp) as [q ->]. cbn. congruence. }
    by destruct (security_policy_set _ _ _ _) as [r p].
  - by apply Hl.
Qed.

(** One round: nothing happens to what is managed, or a command passed the gate
    and was dispatched. *)
Lemma handle_cases h s rd r s' : handle h s rd = (r, s') ->
  (managed s' = managed s /\ (replay_cache s' = replay_cache s \/ exists i p v, Interest.decode (r_wire rd) = Ok i /\ authorise h s rd i p = (v, replay_cache s'))) \/
  exists i p params ctx, Interest.decode (r_wire rd) = Ok i /\ parse_command_name (i_name i) = Some p /\ authorise h s rd i p = (Ok tt, replay_cache s') /\
    managed s' = (router_dispatch (h_router h) (pc_module p) (pc_verb p) params ctx (managed s)).2.
Proof.
  unfold handle. destruct (Interest.decode (r_wire rd)) as [i|]; [|intros [= <- <-]; left; auto]. cbv zeta.
  destruct (parse_command_name (i_name i)) as [p|] eqn:Hp; [|intros [= <- <-]; left; auto]. destruct (authorise h s rd i p) as [verdict cache] eqn:Ha.
  destruct verdict as [[]|resp]; [|intros [= <- <-]; left; split; [done|right; exists i, p, (Err resp); done]].
  match goal with |- context [resolve_control_parameters ?a ?b] => destruct (resolve_control_parameters a b) as [params|reason] end.
  2:{ intros [= <- <-]. left. split; [done|]. right. exists i, p, (Ok tt). done. }
  cbn [managed]. match goal with |- context [router_dispatch _ _ _ ?pr ?c _] => destruct (router_dispatch (h_router h) (pc_module p) (pc_verb p) pr c (managed s)) as [resp m] eqn:Hd end.
  intros [= <- <-]. right. do 4 eexists. split_conj; [done|done|exact Ha|]. cbn [managed]. rewrite Hd. done.
Qed.

Lemma requires_kept h s rd : lawful_router (h_router h) ->
  effective_require_signed_commands h s = true -> effective_require_signed_commands h (handle h s rd).2 = true.
Proof.
  unfold effective_require_signed_commands. intros Hl Hreq. destruct (handle h s rd) as [r s'] eqn:Hh. cbn [snd].
  apply handle_cases in Hh as [[-> _]|(i & p & params & ctx & _ & _ & _ & ->)]; [done|]. unfold router_dispatch.
  destruct (h_router h !! pc_module p) as [md|] eqn:Hr; [|done].
  pose proof (dispatch_keeps_policy _ md (pc_verb p) params ctx (managed s) (Hl _ _ Hr)) as Hk. unfold keeps_signatures in Hk.
  destruct (runtime_policy (managed s)), (runtime_policy (module_dispatch _ _ _ _ _).2); naive_solver.
Qed.

Lemma serve_requires h s rounds : lawful_router (h_router h) ->
  effective_require_signed_commands h s = true -> effective_require_signed_commands h (serve h s rounds).2 = true.
Proof.
  intros Hl. revert s. induction rounds as [|rd rounds IH]; intros s Hs; cbn [serve]; [done|]. pose proof (requires_kept h s rd Hl Hs) as Hk.
  destruct (handle h s rd) as [r s1]. specialize (IH s1 Hk). by destruct (serve h s1 rounds).
Qed.

(** ** Replays *)

(** A cache that only gets later times. *)
Definition later (oc oc' : option CommandReplayCache) : Prop :=
  match oc, oc' with
  | Some c, Some c' => forall k t, last_accepted c !! k = Some t -> exists t', last_accepted c' !! k = Some t' /\ t <= t'
  | None, None => True
  | _, _ => False
  end.

Lemma later_refl oc : later oc oc.
Proof. destruct oc as [c|]; [|done]. intros k t H. exists t. split; [done|lia]. Qed.
Lemma later_trans a b c : later a b -> later b c -> later a c.
Proof.
  destruct a as [a|], b as [b|], c as [c|]; cbn; try done. intros H1 H2 k t Hk. destruct (H1 k t Hk) as (t1 & Hk1 & Hle).
  destruct (H2 k t1 Hk1) as (t2 & Hk2 & Hle2). exists t2. split; [done|lia].
Qed.

Lemma fresh_later i now c c' : fresh_in i now c c' -> later (Some c) (Some c').
Proof.
  intros (si & k0 & t0 & _ & _ & _ & _ & Hlt & Heq) k t Hk. rewrite Heq. destruct (decide (k = k0)) as [->|Hne].
  - exists t0. rewrite lookup_insert_eq. split; [done|]. specialize (Hlt t Hk). lia.
  - exists t. rewrite lookup_insert_ne by done. split; [done|lia].
Qed.

Lemma authorise_later h s rd i p v c : authorise h s rd i p = (v, c) -> later (replay_cache s) c.
Proof. intros [->|(c0 & c1 & -> & -> & Hf)]%authorise_cache; [apply later_refl|by eapply fresh_later]. Qed.

Lemma handle_later h s rd : later (replay_cache s) (replay_cache (handle h s rd).2).
Proof.
  destruct (handle h s rd) as [r s'] eqn:Hh. cbn [snd]. apply handle_cases in Hh as [[_ [->|(i & p & v & _ & Ha)]]|(i & p & params & ctx & _ & _ & Ha & _)].
  - apply later_refl.
  - by eapply authorise_later.
  - by eapply authorise_later.
Qed.

Lemma serve_later h s rounds : later (replay_cache s) (replay_cache (serve h s rounds).2).
Proof.
  revert s. induction rounds as [|rd rounds IH]; intros s; cbn [serve]; [apply later_refl|]. pose proof (handle_later h s rd) as Hl.
  destruct (handle h s rd) as [r s1]. specialize (IH s1). destruct (serve h s1 rounds) as [rs s2]. by eapply later_trans.
Qed.

(** A command whose signature is required passes the gate in a round. *)
Definition passes_signed (h : Handles) (s : Server) (rd : Round) (i : Interest) : Prop :=
  Interest.decode (r_wire rd) = Ok i /\ exists p, parse_command_name (i_name i) = Some p /\ public_read i p = false /\
    signature_required h s i p = true /\ (authorise h s rd i p).1 = Ok tt.

(** The signer and the signature time of an Interest. *)
Definition signed_at (i : Interest) (signer : Name) (t : Z) : Prop :=
  exists si, Interest.sig_info i = Some si /\ key_locator_name si = Some signer /\ sig_time si = Some t.

Lemma signed_at_inj i k t k' t' : signed_at i k t -> signed_at i k' t' -> k = k' /\ t = t'.
Proof. intros (si & H1 & H2 & H3) (si' & H1' & H2' & H3'). naive_solver congruence. Qed.

Lemma passes_fresh h s rd i c : passes_signed h s rd i -> replay_cache s = Some c ->
  exists k t c', signed_at i k t /\ Z.abs (r_now_ms rd - t) <= COMMAND_SIG_TIME_TOLERANCE_MS /\
    (forall l, last_accepted c !! k = Some l -> l < t) /\ replay_cache (handle h s rd).2 = Some c' /\ last_accepted c' !! k = Some t.
Proof.
  intros (Hd & p & Hp & Hpub & Hreq & Ha) Hc. destruct (authorise h s rd i p) as [v oc] eqn:Hau. cbn [fst] in Ha. subst v.
  destruct (authorise_signed h s rd i p oc Hpub Hreq Hau) as [_ Hf]. rewrite Hc in Hf. destruct Hf as (c1 & -> & si & k & t & H1 & H2 & H3 & H4 & H5 & H6).
  exists k, t, c1. split_conj; [by exists si|done|done| |by rewrite H6, lookup_insert_eq].
  unfold handle. rewrite Hd. cbv zeta. rewrite Hp, Hau. cbn [managed].
  match goal with |- context [resolve_control_parameters ?a ?b] => destruct (resolve_control_parameters a b) as [params|reason] end; [|done].
  by destruct (router_dispatch _ _ _ _ _ _) as [resp m].
Qed.

(** C13: with signatures required, and whatever frames came before, a received
    frame that changes what management governs (the routes, the strategies, the
    content store, the faces, the access policy, the notification streams) is a
    command with a key-backed signature that the validator in charge accepted,
    the [/localhop] one for [/localhop] commands; a frame that was not so accepted
    can change at most the own state of a module that is not modelled, and then
    only as a public read; and signatures stay required.  The modules that are not
    modelled are handed everything that is governed, and are assumed to serve
    their public datasets as reads and not to turn required signatures off
    ([lawful_router]); nothing is assumed of the modelled ones. *)
Theorem commands_authorised (h : Handles) (s : Server) (before : list Round) (rd : Round) :
  let s1 := (serve h s before).2 in
  let s2 := (handle h s1 rd).2 in
  lawful_router (h_router h) ->
  effective_require_signed_commands h s = true ->
  effective_require_signed_commands h s2 = true /\
  (managed s2 <> managed s1 ->
   exists i p, Interest.decode (r_wire rd) = Ok i /\ parse_command_name (i_name i) = Some p /\
     (accepted_by (validator_of rd i) i \/ (public_read i p = true /\ governed (managed s2) = governed (managed s1)))).
Proof.
  intros s1 s2 Hl Hreq. pose proof (serve_requires h s before Hl Hreq) as Hreq1. split; [by apply requires_kept|]. fold s1 in Hreq1.
  destruct (handle h s1 rd) as [r s'] eqn:Hh. unfold s2. cbn [snd]. intros Hne.
  apply handle_cases in Hh as [[Heq _]|(i & p & params & ctx & Hd & Hp & Ha & Hm)]; [done|]. exists i, p. split; [done|]. split; [done|].
  destruct (public_read i p) eqn:Hpub.
  - right. split; [done|]. rewrite Hm. unfold router_dispatch. destruct (h_router h !! pc_module p) as [md|] eqn:Hr; [|done].
    apply andb_true_iff in Hpub as [_ Hpub]. by eapply public_reads; [|apply (Hl _ _ Hr)].
  - left. apply (authorise_signed h s1 rd i p (replay_cache s')); [done| |done]. unfold signature_required, effective_require_signed. rewrite Hreq1.
    cbn [orb]. by rewrite orb_true_r.
Qed.


(** The policy field [localhop_disabled] has no part in the gate. *)
Lemma localhop_policy_ignored h s rd i p pol b : runtime_policy (managed s) = Some pol ->
  authorise h (mkServer (with_policy (managed s) (Some (mkPolicy (ephemeral_allowed pol) b (replay_window_secs pol) (p_require_signed_commands pol) (validator_anchor pol)))) (replay_cache s)) rd i p
  = authorise h s rd i p.
Proof. intros Hp. unfold authorise, effective_require_signed_commands. cbn. by rewrite Hp. Qed.

End server.

(** ** The RIB module *)

Lemma replace_route_has rs r b rs' : Rib.replace_route rs r = Some (b, rs') -> r ∈ rs'.
Proof.
  revert b rs'. induction rs as [|e rs IH]; intros b rs'; cbn [Rib.replace_route]; [done|]. destruct (_ && _).
  - intros [= <- <-]. by left.
  - destruct (Rib.replace_route rs r) as [[b' rs0]|]; [|done]. intros [= <- <-]. right. by eapply IH.
Qed.

Lemma add_has rib p r : exists rs, (Rib.add rib p r).2 !! p = Some rs /\ r ∈ rs.
Proof.
  unfold Rib.add. destruct (Rib.replace_route _ r) as [[b rs]|] eqn:E; cbn [snd]; rewrite lookup_insert_eq; eexists; (split; [reflexivity|]).
  - by eapply replace_route_has.
  - apply elem_of_app. right. by left.
Qed.

Lemma register_ok o t name r : orders_ok o -> rib_ok (t_rib t) -> is_u32 (r_cost r) ->
  let t' := Engine.register o t name r in applied t t' name /\ exists rs, t_rib t' !! name = Some rs /\ r ∈ rs.
Proof.
  intros Ho Ht Hr. unfold Engine.register. destruct (add_ok (t_rib t) name r Ht Hr) as [Hok Hq]. pose proof (add_has (t_rib t) name r) as Hh.
  destruct (Rib.add (t_rib t) name r) as [b rib']. cbn [snd] in *. split; [|done]. apply applied_intro; [done|done|].
  intros q Hne. apply Hq. set_solver.
Qed.

Lemma unregister_ok o t name f org : orders_ok o -> rib_ok (t_rib t) ->
  let t' := Engine.unregister o t name f org in applied t t' name /\
  forall rs r, t_rib t' !! name = Some rs -> r ∈ rs -> r_face r = f -> exists og, org = Some og /\ r_origin r <> og.
Proof.
  intros Ho Ht. unfold Engine.unregister, Rib.remove, Rib.remove_nexthop.
  assert (forall keep, let rib' := (Rib.retain_at (t_rib t) name keep).2 in rib_ok rib' /\ (forall q, q <> name -> rib' !! q = t_rib t !! q) /\
    forall rs r, rib' !! name = Some rs -> r ∈ rs -> keep r = true) as Hk.
  { intros keep. destruct (retain_at_spec (t_rib t) name keep Ht) as (H1 & H2 & H3). cbv zeta in *; split_conj; [by eapply shrinks_ok|done|done]. }
  destruct org as [og|]; match goal with |- context [Rib.retain_at _ _ ?keep] => destruct (Hk keep) as (H0 & H1 & H2); destruct (Rib.retain_at (t_rib t) name keep) as [b rib'] end;
    cbn [snd] in *; (split; [by apply applied_intro|]); cbn [t_rib]; intros rs r Hrs Hr Hf; specialize (H2 rs r Hrs Hr).
  - apply negb_true_iff, andb_false_iff in H2 as [H2|H2]; apply Z.eqb_neq in H2; [done|]. by exists og.
  - by apply negb_true_iff, Z.eqb_neq in H2.
Qed.

Lemma wrap32_u32 x : is_u32 (wrap 32 x).
Proof. unfold wrap. pose proof (Z.mod_pos_bound x (2 ^ 32) ltac:(lia)). unfold_bounds. lia. Qed.

Lemma resolve_error params src resp : resolve_face_id params src = Err resp -> status_code resp = status.BAD_PARAMS.
Proof. unfold resolve_face_id. destruct (cp_face_id params) as [x|]; [destruct (x =? 0)|]; destruct src; by intros [= <-]. Qed.

(** C15: the [rib] module, on a FIB that others write too (the server's own
    prefixes when it is mounted, [fib/add-nexthop], discovery).  An answer other
    than 200 leaves the tables as they were, and a registration under a reserved
    prefix from a face that is not the operator's is answered 403.  A registration
    answered 200 stores the route of the face named or else of the requesting
    face, with the cost taken modulo 2^32; an unregistration answered 200 leaves
    no route of that face (and of that origin, when one is given).  Other prefixes
    keep their routes.  After either the FIB entries of the prefix and of the
    registered prefixes under it are exactly what the routes prescribe, even if
    they had been written directly; every other FIB entry is untouched; and an
    entry that agreed with the routes still does.  The routes before are only
    assumed to have 32-bit costs and no empty lists, which the module keeps. *)
Theorem rib_module_spec (v : bytes) (params : ControlParameters) (ctx : MgmtContext) (faces : FaceTable) (t : Tables) :
  orders_ok (orders ctx) -> rib_ok (t_rib t) ->
  let '(resp, t') := handle_rib v params ctx faces t in
  (forall cr, resp = Control cr -> status_code cr <> status.OK -> t' = t) /\
  (forall d, resp = DatasetBytes d -> t' = t) /\
  (forall name, v = verb.REGISTER -> cp_name params = Some name -> is_reserved_name name = true -> is_management_face (source_face ctx) faces = false ->
     resp = Control (reserved_error name) /\ t' = t) /\
  (forall cr, resp = Control cr -> status_code cr = status.OK ->
     exists name f, cp_name params = Some name /\ resolve_face_id params (source_face ctx) = Ok f /\
       applied t t' name /\
       (v = verb.REGISTER -> exists rs, t_rib t' !! name = Some rs /\
          Rib.mkRoute f (default origin.APP (cp_origin params)) (default 0 (cp_cost params) mod 2 ^ 32) (default CHILD_INHERIT (cp_flags params))
            ((fun ms => runtime_now ctx + ms * NS_PER_MS) <$> cp_expiration_period params) ∈ rs) /\
       (v = verb.UNREGISTER -> forall rs r, t_rib t' !! name = Some rs -> r ∈ rs -> r_face r = f -> exists og, cp_origin params = Some og /\ r_origin r <> og)).
Proof.
  intros Ho Ht. unfold handle_rib. destruct (eqb v verb.REGISTER) eqn:Hv1; [|destruct (eqb v verb.UNREGISTER) eqn:Hv2; [|destruct (eqb v verb.LIST)]].
  - apply eqb_true in Hv1 as ->. unfold rib_register. destruct (cp_name params) as [name|]; [|split_conj; [done|done|done|by intros cr [= <-]]].
    destruct (is_reserved_name name && negb (is_management_face (source_face ctx) faces)) eqn:Hres.
    { split_conj; [done|done|by intros nm _ [= <-]|by intros cr [= <-]]. }
    assert (forall nm, Some name = Some nm -> is_reserved_name nm = true -> is_management_face (source_face ctx) faces = false -> False) as Hno.
    { intros nm [= <-] H1 H2. by rewrite H1, H2 in Hres. }
    destruct (resolve_face_id params (source_face ctx)) as [f|resp] eqn:Hf.
    2:{ split_conj; [done|done|intros nm _ He H1 H2; by destruct (Hno nm He H1 H2)|]. intros cr [= <-] Hs. by rewrite (resolve_error _ _ _ Hf) in Hs. }
    set (r := Rib.mkRoute _ _ _ _ _). destruct (register_ok (orders ctx) t name r Ho Ht (wrap32_u32 _)) as (H1 & H2).
    split_conj; [by intros cr [= <-]|done|intros nm _ He G1 G2; by destruct (Hno nm He G1 G2)|]. intros cr [= <-] _. exists name, f. split_conj; [done|done|done|done|done].
  - apply eqb_true in Hv2 as ->. unfold rib_unregister. destruct (cp_name params) as [name|]; [|split_conj; [done|done|done|by intros cr [= <-]]].
    destruct (resolve_face_id params (source_face ctx)) as [f|resp] eqn:Hf.
    2:{ split_conj; [done|done|by intros nm Hv|]. intros cr [= <-] Hs. by rewrite (resolve_error _ _ _ Hf) in Hs. }
    destruct (unregister_ok (orders ctx) t name f (cp_origin params) Ho Ht) as (H1 & H2).
    split_conj; [by intros cr [= <-]|done|by intros nm Hv|]. intros cr [= <-] _. exists name, f. split_conj; [done|done|done|done|done].
  - split_conj; [done|done| |done]. intros name ->. done.
  - split_conj; [done|done| |by intros cr [= <-]]. intros name ->. done.
Qed.

(** ** Examples *)

Definition idle : Handler (CS := NullCs) (S := unit) (X := unit) := fun _ _ _ st => (Control (ControlResponse.ok_empty []), st).
Definition example_handles : Handles (CS := NullCs) (S := unit) (X := unit) := mkHandles true (build_mgmt_router idle [] []).
Definition example_registry : Registry unit := mkRegistry (fun _ => None) (fun _ _ => None) (fun _ => []).
Definition example_json : PolicyJson := mkJson (fun _ => Ok []) (fun _ => Err []).
Definition example_config : MgmtConfig := mkConfig None true None None.
Definition example_server : Server (CS := NullCs) (S := unit) (X := unit) :=
  mkServer (mkManaged (mkEngine (mkTables Rib.new EngineFib.new None) StrategyTable.new mkNullCs (mkFaceTable ∅ 1)) None
              (NotificationStream.new []) (NotificationStream.new []) tt) (Some (mkCache false ∅)).

(** [rib/register] of [/a] for the requesting face, signed at a time in milliseconds. *)
Definition example_command (ms : Z) : bytes :=
  (InterestBuilder.sign_sync toy_digest (mkEnv 1 (ms * NS_PER_MS) [1; 2; 3; 4; 5; 6; 7; 8]) 7
     (InterestBuilder.new (command_name (str "rib") (str "register") (ControlParameters.set_name (Some [comp_a]) ControlParameters.default_)))
     SignatureHmacWithSha256 (Some name_ab) toy_digest).1.
Definition trusting : Validator := mkValidator false (fun _ => Valid) (fun _ => Valid).
Definition example_round (ms : Z) : Round := mkRound (example_command ms) (Some 7) None (Some trusting) None 500000 0 0 plain_orders.

Definition example_interest (ms : Z) : Interest := match Interest.decode (example_command ms) with Ok i => i | Err _ => mkInterest [] [] end.

Lemma example_lawful : lawful_router (h_router example_handles).
Proof.
  unfold lawful_router. intros mname md Hr. assert (md = RibModule \/ md = FibModule \/ md = StrategyModule \/ md = CsModule \/ md = SecurityModule idle) as H.
  { cbn [h_router example_handles build_mgmt_router fold_left app router_register fst snd] in Hr. unfold router_register in Hr.
    do 5 (apply (lookup_insert_Some (M := gmap bytes)) in Hr as [[_ Hm]|[_ Hr]]; [subst md; naive_solver|]). by apply (lookup_empty_Some (M := gmap bytes)) in Hr. }
  destruct H as [->|[->|[->|[->| ->]]]]; [done..|]. split; [done|]. intros. apply keeps_signatures_refl.
Qed.

Lemma commands_authorised_witness :
  exists i, Interest.decode (example_command 500000) = Ok i /\ accepted_by (Some trusting) i.
Proof.
  destruct (commands_authorised (fun _ => []) example_registry example_json example_config (fun _ c => c) example_handles example_server [] (example_round 500000)) as [_ H].
  - apply example_lawful.
  - reflexivity.
  - destruct H as (i & p & Hd & Hp & H).
    + intros E. apply (f_equal (fun m => match t_rib (e_tables (m_engine m)) !! [comp_a] with Some _ => true | None => false end)) in E. vm_compute in E. discriminate.
    + exists i. split; [exact Hd|]. assert (i = example_interest 500000) as -> by (unfold example_interest; cbn [r_wire example_round] in Hd; rewrite Hd; reflexivity).
      destruct H as [H|(H & _)]; [exact H|]. exfalso. vm_compute in Hp. injection Hp as <-. vm_compute in H. discriminate H.
Defined.

Lemma example_passes s ms : replay_cache s = Some (mkCache false ∅) \/ replay_cache s = Some (mkCache false {[name_ab := 500000]}) ->
  runtime_policy (managed s) = None -> (ms = 500001 \/ ms = 500000 /\ replay_cache s = Some (mkCache false ∅)) ->
  passes_signed example_handles s (example_round ms) (example_interest ms).
Proof.
  intros Hc Hp Hms. split; [destruct Hms as [->|[-> _]]; vm_compute; reflexivity|].
  eexists (mkCommand (str "rib") (str "register") (Some (ControlParameters.set_name (Some [comp_a]) ControlParameters.default_))).
  unfold signature_required, authorise, effective_require_signed_commands. rewrite Hp.
  destruct Hms as [->|[-> ->]]; [destruct Hc as [->| ->]|]; (split; [vm_compute; reflexivity|]); (split; [vm_compute; reflexivity|]); split; vm_compute; reflexivity.
Qed.


(** A mounted server: the FIB sends the management prefix to it, which no route says. *)
Definition mgmt_prefix : Name := [Component.generic (str "localhost"); Component.generic (str "nfd")].
Definition mounted : Tables := mkTables Rib.new (EngineFib.set_nexthops EngineFib.new mgmt_prefix [mkFibNexthop 3 0]) None.

Lemma rib_module_spec_witness :
  let '(resp, t') := handle_rib verb.REGISTER (ControlParameters.set_name (Some [comp_a]) ControlParameters.default_) (mkContext (Some 7) 0 0 plain_orders)
      (mkFaceTable ∅ 1) mounted in
  (exists f rs, t_rib t' !! [comp_a] = Some rs /\ Rib.mkRoute f 0 0 1 None ∈ rs) /\
  FibTrie.get (t_fib t') mgmt_prefix = Some (Trie.mkFibEntry [mkFibNexthop 3 0]).
Proof.
  pose proof (rib_module_spec verb.REGISTER (ControlParameters.set_name (Some [comp_a]) ControlParameters.default_) (mkContext (Some 7) 0 0 plain_orders)
    (mkFaceTable ∅ 1) mounted plain_orders_ok (to_rib _ (routes_run_ok None [] (Forall_nil_2 _)))) as H.
  destruct (handle_rib _ _ _ _ _) as [resp t'] eqn:E. destruct H as (_ & _ & _ & H). assert (resp = (handle_rib verb.REGISTER
    (ControlParameters.set_name (Some [comp_a]) ControlParameters.default_) (mkContext (Some 7) 0 0 plain_orders) (mkFaceTable ∅ 1) mounted).1) as Hr by (rewrite E; reflexivity).
  vm_compute in Hr. destruct (H _ Hr eq_refl) as (name & f & Hn & _ & Hap & Hreg & _). destruct (Hreg eq_refl) as (rs & H1 & H2).
  injection Hn as <-. split; [exists f, rs; split; [exact H1|exact H2]|]. rewrite (ap_kept _ _ _ Hap); [vm_compute; reflexivity|].
  intros [Hq|[_ Hq]]; [discriminate Hq|]. apply has_prefix_spec in Hq. vm_compute in Hq. discriminate Hq.
Defined.

(** Unregistering the management prefix, which no route has and any face may ask,
    takes the server off the FIB. *)
Lemma unregister_unmounts :
  FibTrie.get (t_fib (handle_rib verb.UNREGISTER (ControlParameters.set_name (Some mgmt_prefix) ControlParameters.default_) (mkContext (Some 7) 0 0 plain_orders)
    (mkFaceTable ∅ 1) mounted).2) mgmt_prefix = None.
Proof. vm_compute. reflexivity. Qed.
