(* ===== verification/Flash.v ===== *)
(** * The flash log ([ndn-storage]: [flash.rs])

    An ordered map kept in memory with a write-ahead log on NOR flash.  The code
    reaches the device through the [NorFlash] trait of [embedded-storage] only, so
    an operation is a program of requests to it ([Prog]).  What a device does is
    [run], as the mock of the tests has it: a write clears bits, an erase sets
    whole blocks to ones.  A script says of each request whether it works, fails
    or is cut off by a power loss; a write that does not work has programmed some
    first bytes, an erase some of its blocks. *)
From S2P Require Import Prelude Tlv Name BTree.
#[local] Open Scope Z_scope.

(** ** Little-endian words *)

Definition le_encode (n : nat) (v : Z) : bytes := rev (be_encode n v).
Definition le_decode (b : bytes) : Z := be_decode (rev b).

(** ** Requests to the device *)

Inductive Prog (A : Type) : Type :=
| Done (a : A)
| Read (off n : Z) (k : option bytes -> Prog A)
| Write (off : Z) (data : bytes) (k : bool -> Prog A)
| Erase (from to : Z) (k : bool -> Prog A).
Arguments Done {A}. Arguments Read {A}. Arguments Write {A}. Arguments Erase {A}.

Fixpoint pbind {A B} (p : Prog A) (f : A -> Prog B) : Prog B :=
  match p with
  | Done a => f a
  | Read off n k => Read off n (fun r => pbind (k r) f)
  | Write off data k => Write off data (fun r => pbind (k r) f)
  | Erase from to k => Erase from to (fun r => pbind (k r) f)
  end.

Inductive FlashError : Type := Unformatted | OutOfSpace | Io.

(** A program that may fail; [?]. *)
Definition PR (A : Type) : Type := Prog (result A FlashError).
Definition pok {A} (a : A) : PR A := Done (Ok a).
Definition perr {A} (e : FlashError) : PR A := Done (Err e).
Definition rbind {A B} (p : PR A) (f : A -> PR B) : PR B := pbind p (fun r => match r with Ok a => f a | Err e => perr e end).
Declare Scope flash_scope.
Delimit Scope flash_scope with flash.
Notation "'let*' x ':=' p 'in' q" := (rbind p (fun x => q)) (at level 10, x name, p at level 100, q at level 200) : flash_scope.
Notation "'let*' ' x ':=' p 'in' q" := (rbind p (fun x => q)) (at level 10, x strict pattern, p at level 100, q at level 200) : flash_scope.
#[local] Open Scope flash_scope.

(** [flash.read(..).map_err(|_| FlashError::Io)?] and the like. *)
Definition flash_read (off n : Z) : PR bytes := Read off n (fun r => match r with Some b => pok b | None => perr Io end).
Definition flash_write (off : Z) (data : bytes) : PR unit := Write off data (fun ok => if ok then pok tt else perr Io).
Definition flash_erase (from to : Z) : PR unit := Erase from to (fun ok => if ok then pok tt else perr Io).

(** ** The device *)

Definition Cells : Type := Z -> Z.

Definition read (c : Cells) (off n : Z) : bytes := map (fun i => c (off + Z.of_nat i)) (seq 0 (Z.to_nat n)).
Definition program (c : Cells) (off : Z) (data : bytes) : Cells := fun i =>
  if (off <=? i) && (i <? off + zlen data) then Z.land (c i) (nth (Z.to_nat (i - off)) data 255) else c i.

Section device.
Context (ERASE_SIZE : Z).

Definition erase_blocks (c : Cells) (from to : Z) (done : Z -> bool) : Cells := fun i =>
  if (from <=? i) && (i <? to) && done (i / ERASE_SIZE) then 255 else c i.

(** What becomes of a request: it works; it reports an error, or the power is
    lost, having programmed [j] bytes or erased the blocks [done]. *)
Inductive Event : Type := Works | Fails (j : nat) (done : Z -> bool) | Cut (j : nat) (done : Z -> bool).

Inductive Outcome (A : Type) : Type := Finished (a : A) (c : Cells) | PowerLost (c : Cells).
Arguments Finished {A}. Arguments PowerLost {A}.

Definition every (_ : Z) : bool := true.

Fixpoint run {A} (script : list Event) (p : Prog A) (c : Cells) : Outcome A :=
  let e := hd Works script in
  let rest := tl script in
  match p with
  | Done a => Finished a c
  | Read off n k =>
      match e with Works => run rest (k (Some (read c off n))) c | Fails _ _ => run rest (k None) c | Cut _ _ => PowerLost c end
  | Write off data k =>
      match e with
      | Works => run rest (k true) (program c off data)
      | Fails j _ => run rest (k false) (program c off (take j data))
      | Cut j _ => PowerLost (program c off (take j data))
      end
  | Erase from to k =>
      match e with
      | Works => run rest (k true) (erase_blocks c from to every)
      | Fails _ d => run rest (k false) (erase_blocks c from to d)
      | Cut _ d => PowerLost (erase_blocks c from to d)
      end
  end.
End device.
Arguments Finished {A}. Arguments PowerLost {A}.

(** ** The engine *)

Inductive WriteOp : Type := Put (k v : bytes) | Delete (k : bytes).

Definition OP_PUT : Z := 1.
Definition OP_DEL : Z := 2.
Definition COMMIT_MAGIC : Z := 0x4E444E46.
Definition ERASED : Z := 0xFFFFFFFF.
Definition SUPER_MAGIC : Z := 0x4E444E5F464C4F47.
Definition FORMAT_VERSION : Z := 2.

Definition align_up (n a : Z) : Z := ((n + a - 1) / a) * a.
Definition align_down (n a : Z) : Z := (n / a) * a.

(** [BTreeMap<Vec<u8>, Bytes>]: the entries in key order. *)
Definition Index : Type := list (bytes * bytes).

(** [FlashState] but for the device. *)
Record FlashState : Type := mkState {
  index : Index;
  half_cap : Z;
  live_base : Z;
  generation : Z;
  write_off : Z;
  dirty_tail : bool
}.

(** [commit]'s loop over the operations. *)
Definition apply_op (m : Index) (op : WriteOp) : Index :=
  match op with Put k v => bt_insert bytes_cmp k v m | Delete k => bt_remove bytes_cmp k m end.
Definition apply_ops (m : Index) (ops : list WriteOp) : Index := fold_left apply_op ops m.

Definition encode_op (op : WriteOp) : bytes :=
  match op with
  | Put k v => [OP_PUT] ++ le_encode 4 (wrap 32 (zlen k)) ++ k ++ le_encode 4 (wrap 32 (zlen v)) ++ v
  | Delete k => [OP_DEL] ++ le_encode 4 (wrap 32 (zlen k)) ++ k
  end.

Section engine.
Context (WRITE_SIZE ERASE_SIZE : Z).

Definition header_len : Z := align_up 16 WRITE_SIZE.
Definition half_cap_for (cap : Z) : Z := align_down (cap / 2) ERASE_SIZE.
Definition other_base (s : FlashState) : Z := if live_base s =? 0 then half_cap s else 0.

Definition read_u32 (off : Z) : PR Z := let* b := flash_read off 4 in pok (le_decode b).

Definition read_super (base : Z) : PR (option Z) :=
  let* hdr := flash_read base 16 in
  let magic := le_decode (slice hdr 0 8) in
  let version := le_decode (slice hdr 8 12) in
  if negb (magic =? SUPER_MAGIC) || negb (version =? FORMAT_VERSION) then pok None
  else pok (Some (le_decode (slice hdr 12 16))).

Definition newer (x y : Z) : bool := negb (x =? y) && (wrap 32 (x - y) <? 0x80000000).

Definition pad (n : Z) : bytes := replicate (Z.to_nat n) 255.

Definition encode_record (ops : list WriteOp) : bytes :=
  let payload := concat (map encode_op ops) in
  let len := wrap 32 (zlen payload) in
  let rec := le_encode 4 len ++ payload ++ le_encode 4 (Z.lxor len COMMIT_MAGIC) in
  rec ++ pad (align_up (wrap 32 (zlen rec)) WRITE_SIZE - zlen rec).

Definition superblock (generation : Z) : bytes :=
  le_encode 8 SUPER_MAGIC ++ le_encode 4 FORMAT_VERSION ++ le_encode 4 generation ++ pad (header_len - 16).

Definition write_half (hc base generation : Z) (ops : list WriteOp) : PR Z :=
  let* _ := flash_erase base (base + hc) in
  let off := base + header_len in
  let* off := match ops with
              | [] => pok off
              | _ =>
                  let rec := encode_record ops in
                  if base + hc <? off + wrap 32 (zlen rec) then perr OutOfSpace
                  else let* _ := flash_write off rec in pok (off + wrap 32 (zlen rec))
              end in
  let* _ := flash_write base (superblock generation) in
  pok off.

(** The index also keeps what was applied before a payload proves malformed. *)
Fixpoint apply_payload (fuel : nat) (p : bytes) (m : Index) : bool * Index :=
  match fuel with
  | O => (false, m)
  | S fuel =>
      match p with
      | [] => (true, m)
      | op :: p =>
          if zlen p <? 4 then (false, m)
          else
            let klen := le_decode (slice p 0 4) in
            let p := slice_from_ p 4 in
            if zlen p <? klen then (false, m)
            else
              let key := slice p 0 klen in
              let p := slice_from_ p klen in
              if op =? OP_PUT then
                if zlen p <? 4 then (false, m)
                else
                  let vlen := le_decode (slice p 0 4) in
                  let p := slice_from_ p 4 in
                  if zlen p <? vlen then (false, m)
                  else apply_payload fuel (slice_from_ p vlen) (bt_insert bytes_cmp key (slice p 0 vlen) m)
              else if op =? OP_DEL then apply_payload fuel p (bt_remove bytes_cmp key m)
              else (false, m)
      end
  end.

Definition checked_add_u32 (a b : Z) : option Z := if a + b <=? u32_max then Some (a + b) else None.

(** The loop of [replay_half]; a turn advances by at least eight bytes. *)
Fixpoint replay_loop (fuel : nat) (end_cap off : Z) (m : Index) : PR (Index * Z * bool) :=
  match fuel with
  | O => pok (m, off, false)
  | S fuel =>
      if end_cap <? off + 8 then pok (m, off, false)
      else
        let* len := read_u32 off in
        if len =? ERASED then pok (m, off, false)
        else match (let! x := checked_add_u32 off 8 in checked_add_u32 x len) with
             | None => pok (m, off, true)
             | Some end_ =>
                 if end_cap <? end_ then pok (m, off, true)
                 else
                   let* buf := flash_read (off + 4) (len + 4) in
                   let footer := le_decode (slice buf len (len + 4)) in
                   if negb (footer =? Z.lxor len COMMIT_MAGIC) then pok (m, off, true)
                   else
                     let '(good, m) := apply_payload (S (length buf)) (slice buf 0 len) m in
                     if negb good then pok (m, off, true)
                     else replay_loop fuel end_cap (off + align_up (8 + len) WRITE_SIZE) m
             end
  end.

Definition replay_half (hc base : Z) (m : Index) : PR (Index * Z * bool) :=
  replay_loop (S (Z.to_nat hc)) (base + hc) (base + header_len) m.

Definition mount_state (s : FlashState) : PR FlashState :=
  let hc := half_cap s in
  if hc <? header_len + 8 then perr OutOfSpace
  else
    let* a := read_super 0 in
    let* b := read_super hc in
    let* '(base, gen) := match a, b with
                         | None, None => perr Unformatted
                         | Some g, None => pok (0, g)
                         | None, Some g => pok (hc, g)
                         | Some ga, Some gb => if newer ga gb then pok (0, ga) else pok (hc, gb)
                         end in
    let* '(m, off, dirty) := replay_half hc base [] in
    pok (mkState m hc base gen off dirty).

Definition compact (s : FlashState) : PR FlashState :=
  let ops := map (fun e => Put e.1 e.2) (index s) in
  let target := other_base s in
  let new_gen := wrap 32 (generation s + 1) in
  let* new_off := write_half (half_cap s) target new_gen ops in
  pok (mkState (index s) (half_cap s) target new_gen new_off false).

(** The state is the one after the call, on an error too. *)
Definition append (s : FlashState) (ops : list WriteOp) : Prog (result unit FlashError * FlashState) :=
  let rec := encode_record ops in
  let need := wrap 32 (zlen rec) in
  let write s :=
    pbind (flash_write (write_off s) rec) (fun r =>
      match r with
      | Err e => Done (Err e, s)
      | Ok _ => Done (Ok tt, mkState (index s) (half_cap s) (live_base s) (generation s) (write_off s + need) (dirty_tail s))
      end) in
  if dirty_tail s || (live_base s + half_cap s <? write_off s + need) then
    pbind (compact s) (fun r =>
      match r with
      | Err e => Done (Err e, s)
      | Ok s => if live_base s + half_cap s <? write_off s + need then Done (Err OutOfSpace, s) else write s
      end)
  else write s.

Definition commit (s : FlashState) (ops : list WriteOp) : Prog (result unit FlashError * FlashState) :=
  pbind (append s ops) (fun '(r, s) =>
    match r with
    | Err e => Done (Err e, s)
    | Ok _ => Done (Ok tt, mkState (apply_ops (index s) ops) (half_cap s) (live_base s) (generation s) (write_off s) (dirty_tail s))
    end).

End engine.

(** ** [FlashLogBackend] *)

Module FlashLogBackend.
Section backend.
Context (WRITE_SIZE ERASE_SIZE : Z).

Definition mount (capacity : Z) : PR FlashState :=
  let cap := wrap 32 capacity in
  mount_state WRITE_SIZE (mkState [] (half_cap_for ERASE_SIZE cap) 0 0 0 false).

Definition format (capacity : Z) : PR FlashState :=
  let cap := wrap 32 capacity in
  let hc := half_cap_for ERASE_SIZE cap in
  if hc <? header_len WRITE_SIZE + 8 then perr OutOfSpace
  else
    let* _ := flash_erase hc (hc + hc) in
    let* off := write_half WRITE_SIZE hc 0 0 [] in
    pok (mkState [] hc 0 0 off false).

Definition get (s : FlashState) (key : bytes) : option bytes := bt_get bytes_cmp key (index s).
Definition put (s : FlashState) (key value : bytes) : Prog (result unit FlashError * FlashState) := commit WRITE_SIZE s [Put key value].
Definition delete (s : FlashState) (key : bytes) : Prog (result unit FlashError * FlashState) := commit WRITE_SIZE s [Delete key].
Definition write_batch (s : FlashState) (ops : list WriteOp) : Prog (result unit FlashError * FlashState) := commit WRITE_SIZE s ops.

(** [index.range(prefix..)] from the first key that has not the prefix on. *)
Fixpoint scan_from (prefix : bytes) (limit : Z) (l : Index) (out : list (bytes * bytes)) : list (bytes * bytes) :=
  match l with
  | [] => out
  | (k, v) :: l =>
      if negb (bool_decide (take (length prefix) k = prefix)) then out
      else let out := out ++ [(k, v)] in
           if negb (limit =? 0) && (limit <=? zlen out) then out else scan_from prefix limit l out
  end.
Definition scan_prefix (s : FlashState) (prefix : bytes) (limit : Z) : list (bytes * bytes) :=
  scan_from prefix limit (List.filter (fun e => match bytes_cmp e.1 prefix with Lt => false | _ => true end) (index s)) [].

End backend.
End FlashLogBackend.

(** ** A store in use

    A client writes batch after batch; when a call reports an error of the device
    or the power is lost, the store is mounted again.  [Acknowledged], [Refused]
    and [Unknown] are what the client knows of each batch. *)

Inductive Known : Type := Acknowledged | Refused | Unknown.

Section client.
Context (WRITE_SIZE ERASE_SIZE capacity : Z).

Definition remount (c : Cells) : option (Cells * FlashState) :=
  match run ERASE_SIZE [] (FlashLogBackend.mount WRITE_SIZE ERASE_SIZE capacity) c with
  | Finished (Ok s) c => Some (c, s)
  | _ => None
  end.

Fixpoint use (c : Cells) (s : FlashState) (batches : list (list WriteOp * list Event)) : option (list Known * Cells * FlashState) :=
  match batches with
  | [] => Some ([], c, s)
  | (ops, script) :: batches =>
      let after :=
        match run ERASE_SIZE script (FlashLogBackend.write_batch WRITE_SIZE s ops) c with
        | Finished (Ok _, s) c => Some (Acknowledged, (c, s))
        | Finished (Err Io, _) c | PowerLost c => pair Unknown <$> remount c
        | Finished (Err _, s) c => Some (Refused, (c, s))
        end in
      match after with
      | Some (known, (c, s)) =>
          match use c s batches with Some (ks, c, s) => Some (known :: ks, c, s) | None => None end
      | None => None
      end
  end.
End client.

(** The maps a client may find after its batches. *)
Inductive allowed : Index -> list Known -> list (list WriteOp) -> Index -> Prop :=
| allowed_nil m : allowed m [] [] m
| allowed_applied m k ks ops batches m' : k <> Refused -> allowed (apply_ops m ops) ks batches m' -> allowed m (k :: ks) (ops :: batches) m'
| allowed_skipped m k ks ops batches m' : k <> Acknowledged -> allowed m ks batches m' -> allowed m (k :: ks) (ops :: batches) m'.

(** ** Reasoning about programs

    [wp faults p c Q R]: from the cells [c], [p] finishes in [Q] and a power loss
    leaves the cells in [R], whatever the script; without [faults], when every
    request works. *)

Section wp.
Context (ERASE_SIZE : Z) (faults : bool).

Fixpoint wp {A} (p : Prog A) (c : Cells) (Q : A -> Cells -> Prop) (R : Cells -> Prop) : Prop :=
  match p with
  | Done a => Q a c
  | Read off n k => wp (k (Some (read c off n))) c Q R /\ (faults = true -> R c /\ wp (k None) c Q R)
  | Write off data k =>
      wp (k true) (program c off data) Q R /\
      (faults = true -> forall j, R (program c off (take j data)) /\ wp (k false) (program c off (take j data)) Q R)
  | Erase from to k =>
      wp (k true) (erase_blocks ERASE_SIZE c from to every) Q R /\
      (faults = true -> forall d, R (erase_blocks ERASE_SIZE c from to d) /\ wp (k false) (erase_blocks ERASE_SIZE c from to d) Q R)
  end.

Lemma wp_run {A} script (p : Prog A) c Q R : faults = true -> wp p c Q R ->
  match run ERASE_SIZE script p c with Finished a c' => Q a c' | PowerLost c' => R c' end.
Proof.
  intros Hf. revert script c. induction p as [a|off n k IH|off data k IH|from to k IH]; intros script c; simpl; [done|..];
    intros [Ht Hj]; specialize (Hj Hf); destruct (hd Works script) as [|j d|j d]; first [by apply IH | apply IH, Hj | apply Hj].
Qed.

(** A run in which every request works ends, and in [Q]. *)
Lemma wp_run_works {A} (p : Prog A) c Q R : wp p c Q R -> exists a c', run ERASE_SIZE [] p c = Finished a c' /\ Q a c'.
Proof. revert c. induction p as [a|off n k IH|off data k IH|from to k IH]; intros c; simpl; [eauto|..]; intros [Hs _]; eauto. Qed.

Lemma wp_mono {A} (p : Prog A) c (Q Q' : A -> Cells -> Prop) (R : Cells -> Prop) :
  (forall a c, Q a c -> Q' a c) -> wp p c Q R -> wp p c Q' R.
Proof.
  intros HQ. revert c. induction p as [a|off n k IH|off data k IH|from to k IH]; intros c; simpl; [auto|..];
    (intros [Ht Hj]; split; [by apply IH|]); intros Hf; specialize (Hj Hf); [|intros j; specialize (Hj j)..]; destruct Hj; auto.
Qed.

Lemma wp_bind {A B} (p : Prog A) (f : A -> Prog B) c Q R :
  wp p c (fun a c => wp (f a) c Q R) R -> wp (pbind p f) c Q R.
Proof.
  revert c. induction p as [a|off n k IH|off data k IH|from to k IH]; intros c; simpl; [auto|..];
    (intros [Ht Hj]; split; [by apply IH|]); intros Hf; specialize (Hj Hf); [|intros j; specialize (Hj j)..]; destruct Hj; auto.
Qed.

Lemma wp_rbind {A B} (p : PR A) (f : A -> PR B) c Q R :
  wp p c (fun r c => match r with Ok a => wp (f a) c Q R | Err e => Q (Err e) c end) R -> wp (rbind p f) c Q R.
Proof. intros H. apply wp_bind. eapply wp_mono; [|exact H]. intros [a|e] c' Hq; exact Hq. Qed.

Lemma wp_read {B} off n (f : bytes -> PR B) c Q R :
  (faults = true -> R c /\ Q (Err Io) c) -> wp (f (read c off n)) c Q R -> wp (rbind (flash_read off n) f) c Q R.
Proof. intros. apply wp_rbind. simpl. auto. Qed.
End wp.

(** ** Words and ranges of cells *)

Definition cells_ok (c : Cells) : Prop := forall i, is_u8 (c i).
Definition holds (c : Cells) (off : Z) (b : bytes) : Prop := forall i, (i < length b)%nat -> c (off + Z.of_nat i) = nth i b 255.
Definition erased (c : Cells) (from to : Z) : Prop := forall i, from <= i < to -> c i = 255.
Definition word (c : Cells) (off : Z) : Z := le_decode (read c off 4).

Lemma length_read c off n : length (read c off n) = Z.to_nat n.
Proof. unfold read. by rewrite length_map, length_seq. Qed.
Lemma zlen_read c off n : 0 <= n -> zlen (read c off n) = n.
Proof. intros. unfold zlen. rewrite length_read. lia. Qed.
Lemma read_ext c c' off n : (forall i, off <= i < off + n -> c i = c' i) -> read c off n = read c' off n.
Proof.
  intros H. unfold read. apply map_ext_in. intros i Hi%in_seq. apply H. lia.
Qed.
Lemma read_app c off n k : 0 <= n -> 0 <= k -> read c off (n + k) = read c off n ++ read c (off + n) k.
Proof.
  intros. unfold read. rewrite Z2Nat.inj_add, seq_app, map_app by lia. f_equal.
  apply list_eq. intros i. rewrite !list_lookup_fmap.
  destruct (decide (i < Z.to_nat k)%nat).
  - rewrite !lookup_seq_lt by lia. simpl. do 2 f_equal. lia.
  - rewrite !lookup_seq_ge by lia. done.
Qed.
Lemma holds_read c off b n : n = zlen b -> holds c off b -> read c off n = b.
Proof.
  intros -> H. apply list_eq. intros i. unfold read. rewrite list_lookup_fmap.
  destruct (decide (i < length b)%nat) as [Hi|Hi].
  - rewrite lookup_seq_lt by (unfold zlen; lia). simpl. rewrite (H i Hi).
    destruct (lookup_lt_is_Some_2 b i Hi) as [x Hx]. rewrite Hx. f_equal. by apply nth_lookup_Some.
  - rewrite lookup_seq_ge by (unfold zlen; lia). by rewrite (proj2 (lookup_ge_None b i)) by lia.
Qed.

Lemma holds_app c off a b : holds c off (a ++ b) <-> holds c off a /\ holds c (off + zlen a) b.
Proof.
  unfold holds, zlen. split.
  - intros H. split; intros i Hi.
    + rewrite (H i) by (rewrite length_app; lia). by rewrite app_nth1.
    + replace (off + Z.of_nat (length a) + Z.of_nat i) with (off + Z.of_nat (length a + i)) by lia.
      rewrite H by (rewrite length_app; lia). rewrite app_nth2 by lia. f_equal. lia.
  - intros [Ha Hb] i Hi. destruct (decide (i < length a)%nat).
    + rewrite app_nth1 by done. by apply Ha.
    + rewrite app_nth2 by lia. rewrite <- Hb by (rewrite length_app in Hi; lia). f_equal. lia.
Qed.

Lemma holds_ext c c' off b : (forall i, off <= i < off + zlen b -> c' i = c i) -> holds c off b -> holds c' off b.
Proof. intros He H i Hi. rewrite He by (unfold zlen; lia). by apply H. Qed.

Lemma read_wf c off n : cells_ok c -> wf_bytes (read c off n).
Proof. intros Hc. apply Forall_map, List.Forall_forall. intros i _. apply Hc. Qed.

(** *** Little-endian words *)

Lemma zlen_le_encode n v : zlen (le_encode n v) = Z.of_nat n.
Proof. unfold le_encode, zlen. by rewrite length_rev, length_be_encode. Qed.
#[local] Hint Rewrite zlen_le_encode : zlen.
Lemma wf_le_encode n v : wf_bytes (le_encode n v).
Proof. apply Forall_rev, wf_be_encode. Qed.
Lemma le_decode_encode n v : 0 <= v < 256 ^ Z.of_nat n -> le_decode (le_encode n v) = v.
Proof. intros. unfold le_decode, le_encode. rewrite rev_involutive, be_decode_encode. by apply Z.mod_small. Qed.
Lemma word_bytes c off : word c off = c off + 256 * c (off + 1) + 65536 * c (off + 2) + 16777216 * c (off + 3).
Proof.
  unfold word, le_decode, read. change (Z.to_nat 4) with 4%nat. cbn [seq map rev app]. unfold be_decode. cbn [fold_left].
  rewrite Z.add_0_r. change (Z.of_nat 1) with 1. change (Z.of_nat 2) with 2. change (Z.of_nat 3) with 3. lia.
Qed.
Lemma word_bound c off : cells_ok c -> 0 <= word c off <= u32_max.
Proof.
  intros Hc. rewrite word_bytes. pose proof (Hc off). pose proof (Hc (off + 1)). pose proof (Hc (off + 2)). pose proof (Hc (off + 3)).
  unfold is_u8, u8_max, u32_max in *. lia.
Qed.
Lemma word_top c off : cells_ok c -> c (off + 3) = 255 -> 0xFF000000 <= word c off.
Proof.
  intros Hc H. rewrite word_bytes, H. pose proof (Hc off). pose proof (Hc (off + 1)). pose proof (Hc (off + 2)).
  unfold is_u8, u8_max in *. lia.
Qed.
Lemma word_erased c off : cells_ok c -> word c off = ERASED -> erased c off (off + 4).
Proof.
  intros Hc. rewrite word_bytes. pose proof (Hc off). pose proof (Hc (off + 1)). pose proof (Hc (off + 2)). pose proof (Hc (off + 3)).
  unfold is_u8, u8_max, ERASED in *. intros He i Hi.
  assert (i = off \/ i = off + 1 \/ i = off + 2 \/ i = off + 3) as [->|[->|[->| ->]]] by lia; lia.
Qed.
Lemma erased_word c off to : erased c off to -> off + 4 <= to -> word c off = ERASED.
Proof. intros H Hl. rewrite word_bytes. rewrite !H by lia. done. Qed.
Lemma holds_word c off v : 0 <= v <= u32_max -> holds c off (le_encode 4 v) -> word c off = v.
Proof.
  intros Hv H. unfold word. rewrite (holds_read c off (le_encode 4 v) 4) by (done || by rewrite zlen_le_encode).
  apply le_decode_encode. unfold u32_max in Hv. change (256 ^ Z.of_nat 4) with 4294967296. lia.
Qed.

(** *** Programming and erasing *)

Lemma program_out c off d i : i < off \/ off + zlen d <= i -> program c off d i = c i.
Proof. intros H. unfold program. bcase; lia || done. Qed.
Lemma land_u8 a b : is_u8 a -> is_u8 (Z.land a b).
Proof.
  unfold is_u8, u8_max. intros Ha. split; [apply Z.land_nonneg; lia|].
  destruct (decide (a = 0)) as [->|]; [rewrite Z.land_0_l; lia|].
  assert (Z.land a b = Z.land (Z.land a b) 255) as ->.
  { rewrite <- Z.land_assoc, (Z.land_comm b), Z.land_assoc. f_equal.
    change 255 with (Z.ones 8). rewrite Z.land_ones by lia. symmetry. apply Z.mod_small. lia. }
  change 255 with (Z.ones 8). rewrite Z.land_ones by lia. change (2 ^ 8) with 256.
  pose proof (Z.mod_pos_bound (Z.land a b) 256). change (Z.ones 8) with 255. lia.
Qed.
Lemma program_ok c off d : cells_ok c -> cells_ok (program c off d).
Proof. intros Hc i. unfold program. bcase; first [apply Hc | apply land_u8, Hc]. Qed.
Lemma erase_ok E c from to d : cells_ok c -> cells_ok (erase_blocks E c from to d).
Proof. intros Hc i. unfold erase_blocks. destruct (_ && _); [unfold is_u8, u8_max; lia|apply Hc]. Qed.
Lemma erase_out E c from to d i : i < from \/ to <= i -> erase_blocks E c from to d i = c i.
Proof. intros H. unfold erase_blocks. destruct (_ && _) eqn:Hb; [|done]. lia. Qed.
Lemma erase_every E c from to : erased (erase_blocks E c from to every) from to.
Proof. intros i Hi. unfold erase_blocks, every. destruct (_ && _) eqn:Hb; [done|]. lia. Qed.

(** A write to erased cells, cut off or not. *)
Lemma program_torn c off d to j : wf_bytes d -> erased c off to -> off + zlen d <= to ->
  holds (program c off (take j d)) off (take j d) /\ erased (program c off (take j d)) (off + zlen (take j d)) to.
Proof.
  intros Hd He Hl. split.
  - intros i Hi. unfold program.
    assert (zlen (take j d) <= zlen d) by (rewrite zlen_take; lia).
    assert (Z.of_nat i < zlen (take j d)) by (unfold zlen; lia).
    rewrite (proj2 (andb_true_iff _ _)) by lia. rewrite He by lia. rewrite Z.add_simpl_l, Nat2Z.id.
    assert (is_u8 (nth i (take j d) 255)) as Hx.
    { destruct (lookup_lt_is_Some_2 (take j d) i Hi) as [x Hx]. rewrite (nth_lookup_Some _ _ _ _ Hx).
      assert (wf_bytes (take j d)) as Hw by (by apply Forall_take). by apply (Forall_lookup_1 _ _ _ _ Hw Hx). }
    revert Hx. generalize (nth i (take j d) 255). intros x Hx. unfold is_u8, u8_max in Hx.
    rewrite Z.land_comm. change 255 with (Z.ones 8). rewrite Z.land_ones by lia. apply Z.mod_small. lia.
  - intros i Hi. rewrite program_out by lia. apply He. zlen_lia.
Qed.

(** ** Payloads *)

Definition payload_of (ops : list WriteOp) : bytes := concat (map encode_op ops).
Definition puts (m : Index) : list WriteOp := map (fun e => Put e.1 e.2) m.
Definition op_wf (op : WriteOp) : Prop :=
  match op with Put k v => wf_bytes k /\ wf_bytes v | Delete k => wf_bytes k end.
Definition op_size (op : WriteOp) : Z :=
  match op with Put k v => 9 + zlen k + zlen v | Delete k => 5 + zlen k end.
Definition isize (m : Index) : Z := zlen (payload_of (puts m)).
Definition index_wf (m : Index) : Prop := bt_wf bytes_cmp m /\ Forall op_wf (puts m).

Lemma zlen_encode_op op : zlen (encode_op op) = op_size op.
Proof. destruct op; unfold encode_op, op_size; zlen_norm; lia. Qed.
Lemma op_size_pos op : 5 <= op_size op.
Proof. destruct op; unfold op_size; zlen_lia. Qed.
Lemma payload_cons op ops : payload_of (op :: ops) = encode_op op ++ payload_of ops.
Proof. done. Qed.
Lemma zlen_payload_cons op ops : zlen (payload_of (op :: ops)) = op_size op + zlen (payload_of ops).
Proof. rewrite payload_cons, zlen_app. by rewrite zlen_encode_op. Qed.
Lemma isize_cons k v m : isize ((k, v) :: m) = 9 + zlen k + zlen v + isize m.
Proof. unfold isize, puts. cbn [map]. by rewrite zlen_payload_cons. Qed.
Lemma wf_encode_op op : op_wf op -> wf_bytes (encode_op op).
Proof.
  destruct op; unfold encode_op, op_wf; intros; rewrite !wf_bytes_app; repeat split;
    try apply wf_le_encode; try (by apply wf_bytes_check); naive_solver.
Qed.
Lemma wf_payload ops : Forall op_wf ops -> wf_bytes (payload_of ops).
Proof. induction 1; [constructor|]. rewrite payload_cons. apply Forall_app. split; [by apply wf_encode_op|done]. Qed.

Lemma le_len {A} (l : list A) : zlen l <= u32_max -> le_decode (le_encode 4 (wrap 32 (zlen l))) = zlen l.
Proof.
  intros. unfold wrap. unfold u32_max in *. pose proof (zlen_nonneg l). rewrite Z.mod_small by lia.
  apply le_decode_encode. change (256 ^ Z.of_nat 4) with 4294967296. lia.
Qed.


(** A payload is read back as the operations it was made of. *)
Lemma apply_payload_encode ops fuel m : zlen (payload_of ops) <= u32_max -> zlen (payload_of ops) < Z.of_nat fuel ->
  apply_payload fuel (payload_of ops) m = (true, apply_ops m ops).
Proof.
  revert fuel m. induction ops as [|op ops IH]; intros fuel m Hs Hf.
  { destruct fuel; [unfold zlen in Hf; simpl in Hf; lia|done]. }
  rewrite zlen_payload_cons in Hs, Hf. pose proof (op_size_pos op). pose proof (zlen_nonneg (payload_of ops)).
  destruct fuel as [|fuel]; [lia|]. rewrite payload_cons.
  destruct op as [k v|k]; unfold op_size in *; unfold encode_op; cbn [apply_payload app]; rewrite <- ?app_assoc;
    pose proof (zlen_nonneg k).
  - pose proof (zlen_nonneg v). rewrite (proj2 (Z.ltb_ge _ _)) by zlen_lia.
    rewrite (slice_app_l (le_encode 4 _)), (slice_from_app_eq (le_encode 4 _)), le_len by (rewrite ?zlen_le_encode; lia).
    rewrite (proj2 (Z.ltb_ge _ _)) by zlen_lia. rewrite (slice_app_l k), (slice_from_app_eq k) by done. cbn [Z.eqb OP_PUT Pos.eqb].
    rewrite (proj2 (Z.ltb_ge _ _)) by zlen_lia.
    rewrite (slice_app_l (le_encode 4 _)), (slice_from_app_eq (le_encode 4 _)), le_len by (rewrite ?zlen_le_encode; lia).
    rewrite (proj2 (Z.ltb_ge _ _)) by zlen_lia. rewrite (slice_app_l v), (slice_from_app_eq v) by done.
    by rewrite IH by lia.
  - rewrite (proj2 (Z.ltb_ge _ _)) by zlen_lia.
    rewrite (slice_app_l (le_encode 4 _)), (slice_from_app_eq (le_encode 4 _)), le_len by (rewrite ?zlen_le_encode; lia).
    rewrite (proj2 (Z.ltb_ge _ _)) by zlen_lia. rewrite (slice_app_l k), (slice_from_app_eq k) by done.
    change (OP_DEL =? OP_PUT) with false. rewrite Z.eqb_refl. by rewrite IH by lia.
Qed.

(** What a payload leads to is no larger than it. *)
Lemma isize_insert k v m : isize (bt_insert bytes_cmp k v m) <= isize m + (9 + zlen k + zlen v).
Proof.
  induction m as [|[k' v'] m IH]; simpl; [rewrite isize_cons; lia|].
  destruct (bytes_cmp k k') ; rewrite !isize_cons; try lia.
  pose proof (zlen_nonneg k'). pose proof (zlen_nonneg v'). lia.
Qed.
Lemma isize_remove k m : isize (bt_remove bytes_cmp k m) <= isize m.
Proof.
  induction m as [|[k' v'] m IH]; simpl; [done|].
  pose proof (zlen_nonneg k'). pose proof (zlen_nonneg v').
  destruct (bytes_cmp k k'); rewrite ?isize_cons; lia.
Qed.
#[local] Instance bytes_cmp_order : CmpOrder bytes_cmp.
Proof. apply lex_cmp_order, Z_compare_order. Qed.

Lemma puts_forall (P : WriteOp -> Prop) m : Forall P (puts m) <-> Forall (fun e => P (Put e.1 e.2)) m.
Proof. unfold puts. apply Forall_map. Qed.
Lemma index_wf_apply m op : index_wf m -> op_wf op -> index_wf (apply_op m op).
Proof.
  unfold index_wf. rewrite !puts_forall. intros [Hw Hf] Ho. destruct op as [k v|k]; simpl.
  - split; [apply bt_insert_wf; [apply _|done]|]. by apply bt_insert_forall.
  - split; [by apply bt_remove_wf|]. by apply bt_remove_forall.
Qed.
Lemma isize_apply m op : isize (apply_op m op) <= isize m + op_size op.
Proof.
  destruct op as [k v|k]; simpl; [apply isize_insert|].
  pose proof (isize_remove k m). pose proof (zlen_nonneg k). lia.
Qed.
Lemma apply_ops_wf m ops : index_wf m -> Forall op_wf ops -> index_wf (apply_ops m ops).
Proof. intros Hm Ho. revert m Hm. induction Ho; intros m Hm; simpl; [done|]. by apply IHHo, index_wf_apply. Qed.
Lemma isize_apply_ops m ops : isize (apply_ops m ops) <= isize m + zlen (payload_of ops).
Proof.
  revert m. induction ops as [|op ops IH]; intros m; [simpl; pose proof (zlen_nonneg (payload_of [])); lia|].
  rewrite zlen_payload_cons. simpl. specialize (IH (apply_op m op)). pose proof (isize_apply m op). lia.
Qed.

(** A sorted map is rebuilt from its own entries. *)
Lemma bt_insert_last k v (m : Index) : Forall (fun e => bytes_cmp e.1 k = Lt) m -> bt_insert bytes_cmp k v m = m ++ [(k, v)].
Proof.
  induction 1 as [|[k' v'] m Hk _ IH]; simpl; [done|]. simpl in Hk.
  apply cmp_gt in Hk; [|apply _]. by rewrite Hk, IH.
Qed.
Lemma apply_ops_puts_app m m' : bt_wf bytes_cmp (m ++ m') -> apply_ops m (puts m') = m ++ m'.
Proof.
  revert m. induction m' as [|[k v] m' IH]; intros m Hw; [by rewrite app_nil_r|]. simpl.
  rewrite bt_insert_last.
  - change (fold_left apply_op (map (fun e => Put e.1 e.2) m') (m ++ [(k, v)])) with (apply_ops (m ++ [(k, v)]) (puts m')).
    rewrite IH; rewrite <- app_assoc; done.
  - apply StronglySorted_app in Hw as (Hall & _ & _). apply Forall_forall. intros e He. apply (Hall e (k, v) He). left.
Qed.
Lemma apply_ops_puts m : index_wf m -> apply_ops [] (puts m) = m.
Proof. intros [Hw _]. by apply (apply_ops_puts_app [] m). Qed.

(** ** Logs *)

#[local] Arguments apply_payload : simpl never.

Section log.
Context (W : Z) (HW : 0 < W).

Lemma align_up_spec n : n <= align_up n W < n + W /\ (W | align_up n W).
Proof.
  unfold align_up. split; [|apply Z.divide_factor_r].
  pose proof (Z.div_mod (n + W - 1) W ltac:(lia)). pose proof (Z.mod_pos_bound (n + W - 1) W HW). lia.
Qed.
Lemma align_up_least n k : n <= k -> (W | k) -> align_up n W <= k.
Proof.
  intros Hn [q ->]. unfold align_up. apply Z.mul_le_mono_nonneg_r; [lia|].
  apply Z.lt_succ_r, Z.div_lt_upper_bound; nia.
Qed.
Lemma align_up_add a b : 0 <= a -> 0 <= b -> align_up (8 + (a + b)) W <= align_up (8 + a) W + align_up (8 + b) W.
Proof.
  intros. destruct (align_up_spec (8 + a)) as [? ?], (align_up_spec (8 + b)) as [? ?].
  apply align_up_least; [lia|]. by apply Z.divide_add_r.
Qed.

Definition log_of (bs : list (list WriteOp)) : bytes := concat (map (encode_record W) bs).
Definition state_of (m : Index) (bs : list (list WriteOp)) : Index := fold_left apply_ops bs m.

(** Records that the [u32] lengths can express. *)
Definition small (ops : list WriteOp) : Prop := zlen (payload_of ops) + 8 + W <= 2 ^ 31.

Lemma encode_record_eq ops : small ops ->
  let len := zlen (payload_of ops) in
  encode_record W ops = le_encode 4 len ++ payload_of ops ++ le_encode 4 (Z.lxor len COMMIT_MAGIC) ++ pad (align_up (8 + len) W - (8 + len)).
Proof.
  unfold small. intros Hs. cbv zeta. unfold encode_record. fold (payload_of ops). pose proof (zlen_nonneg (payload_of ops)).
  unfold wrap. rewrite (Z.mod_small (zlen (payload_of ops))) by lia. rewrite <- !app_assoc. do 4 f_equal.
  zlen_norm. change (Z.of_nat 4) with 4. rewrite Z.mod_small by lia. f_equal; [f_equal|]; lia.
Qed.
Lemma zlen_pad n : 0 <= n -> zlen (pad n) = n.
Proof. intros. unfold pad, zlen. rewrite length_replicate. lia. Qed.
Lemma zlen_record ops : small ops -> zlen (encode_record W ops) = align_up (8 + zlen (payload_of ops)) W.
Proof.
  intros Hs. rewrite encode_record_eq by done. zlen_norm. destruct (align_up_spec (8 + zlen (payload_of ops))).
  rewrite zlen_pad by lia. lia.
Qed.
Lemma record_bound ops : small ops -> 8 + zlen (payload_of ops) <= zlen (encode_record W ops) <= 2 ^ 31.
Proof. intros Hs. rewrite zlen_record by done. unfold small in Hs. destruct (align_up_spec (8 + zlen (payload_of ops))). lia. Qed.
Lemma wf_pad n : wf_bytes (pad n).
Proof. apply Forall_replicate. unfold is_u8, u8_max. lia. Qed.
Lemma wf_record ops : small ops -> Forall op_wf ops -> wf_bytes (encode_record W ops).
Proof.
  intros Hs Ho. rewrite encode_record_eq by done. rewrite !wf_bytes_app.
  split_conj; [apply wf_le_encode|by apply wf_payload|apply wf_le_encode|apply wf_pad].
Qed.

Lemma lxor_small len : 0 <= len < 2 ^ 31 -> 0 <= Z.lxor len COMMIT_MAGIC < 2 ^ 31.
Proof.
  intros Hl. assert (0 <= Z.lxor len COMMIT_MAGIC) by (apply Z.lxor_nonneg; unfold COMMIT_MAGIC; lia).
  split; [done|]. destruct (decide (Z.lxor len COMMIT_MAGIC = 0)) as [->|]; [lia|].
  apply Z.log2_lt_pow2; [lia|]. eapply Z.le_lt_trans; [apply Z.log2_lxor; [lia|unfold COMMIT_MAGIC; lia]|].
  apply Z.max_lub_lt; [|done]. destruct (decide (len = 0)) as [->|]; [done|]. apply Z.log2_lt_pow2; lia.
Qed.

(** What a whole record reads as. *)
Lemma holds_record c off ops : small ops -> holds c off (take (Z.to_nat (8 + zlen (payload_of ops))) (encode_record W ops)) ->
  let len := zlen (payload_of ops) in
  word c off = len /\ read c (off + 4) len = payload_of ops /\ word c (off + 4 + len) = Z.lxor len COMMIT_MAGIC.
Proof.
  intros Hs. cbv zeta. pose proof Hs as Hs'. unfold small in Hs'. pose proof (zlen_nonneg (payload_of ops)) as Hn.
  pose proof (lxor_small (zlen (payload_of ops)) ltac:(lia)).
  rewrite encode_record_eq, (app_assoc (payload_of ops)), (app_assoc (le_encode _ _)) by done.
  rewrite take_app_length' by (apply Nat2Z.inj; rewrite Z2Nat.id by lia; change (Z.of_nat (length ?l)) with (zlen l); zlen_norm; lia).
  rewrite !holds_app, zlen_le_encode. change (Z.of_nat 4) with 4. intros (Hl & Hp & Hf). split_conj.
  - apply holds_word; [unfold u32_max; lia|done].
  - by apply holds_read.
  - apply holds_word; [unfold u32_max; lia|done].
Qed.

(** *** Replaying

    A half holds the records of [bs] and then cells that are erased, or a torn
    record.  The region ends within the first [2 ^ 31] bytes. *)

Context (end_cap : Z) (Hend : end_cap <= 2 ^ 31).

Definition torn (c : Cells) (off : Z) : Prop :=
  let len := word c off in
  off + 8 <= end_cap /\ len <> ERASED /\ (off + 8 + len <= end_cap -> word c (off + 4 + len) <> Z.lxor len COMMIT_MAGIC).
Definition tail (c : Cells) (off : Z) (dirty : bool) : Prop := if dirty then torn c off else erased c off end_cap.

Context (E : Z) (faults : bool) (c : Cells) (Hc : cells_ok c).

Lemma buf_footer off len : 0 <= len -> le_decode (slice (read c (off + 4) (len + 4)) len (len + 4)) = word c (off + 4 + len).
Proof.
  intros. rewrite read_app by lia. unfold word. f_equal.
  apply slice_app_r; rewrite ?zlen_read by lia; lia.
Qed.
Lemma buf_payload off len : 0 <= len -> slice (read c (off + 4) (len + 4)) 0 len = read c (off + 4) len.
Proof. intros. rewrite read_app by lia. apply slice_app_l. by rewrite zlen_read. Qed.

(** One turn of the loop on a whole record. *)
Lemma wp_replay_record {Q R} fuel off m ops :
  0 <= off -> small ops -> holds c off (take (Z.to_nat (8 + zlen (payload_of ops))) (encode_record W ops)) ->
  off + zlen (encode_record W ops) <= end_cap -> (faults = true -> R c /\ Q (Err Io) c) ->
  wp E faults (replay_loop W fuel end_cap (off + zlen (encode_record W ops)) (apply_ops m ops)) c Q R ->
  wp E faults (replay_loop W (S fuel) end_cap off m) c Q R.
Proof.
  intros Ho Hs Hh He HR Hk. destruct (holds_record c off ops Hs Hh) as (Hw & Hp & Hf). pose proof (record_bound ops Hs) as Hb.
  pose proof (zlen_nonneg (payload_of ops)) as Hn. pose proof Hs as Hs'. unfold small in Hs'.
  cbn [replay_loop]. rewrite (proj2 (Z.ltb_ge _ _)) by lia. unfold read_u32. apply wp_rbind, wp_read; [done|]. simpl.
  fold (word c off). rewrite Hw. set (len := zlen (payload_of ops)) in *.
  rewrite (proj2 (Z.eqb_neq len ERASED)) by (unfold ERASED; lia).
  unfold checked_add_u32. rewrite (proj2 (Z.leb_le (off + 8) u32_max)) by (unfold u32_max; lia). simpl.
  rewrite (proj2 (Z.leb_le (off + 8 + len) u32_max)) by (unfold u32_max; lia).
  rewrite (proj2 (Z.ltb_ge _ _)) by lia. apply wp_read; [done|].
  rewrite buf_footer, Hf, Z.eqb_refl, buf_payload, Hp by lia. cbn [negb].
  rewrite apply_payload_encode; fold len; [|unfold u32_max; lia|rewrite length_read; lia]. cbn [negb].
  unfold len. by rewrite <- zlen_record.
Qed.

(** The loop stops at the end of the log. *)
Lemma wp_replay_stop {Q R} fuel off m dirty :
  0 <= off <= end_cap -> tail c off dirty -> (faults = true -> R c /\ Q (Err Io) c) -> Q (Ok (m, off, dirty)) c -> wp E faults (replay_loop W (S fuel) end_cap off m) c Q R.
Proof.
  intros Ho Ht HR Hk. cbn [replay_loop]. destruct (Z.ltb_spec end_cap (off + 8)) as [Hl|Hl].
  { destruct dirty; [destruct Ht; lia|done]. }
  unfold read_u32. apply wp_rbind, wp_read; [done|]. simpl. fold (word c off). pose proof (word_bound c off Hc).
  destruct dirty.
  - destruct Ht as (_ & Hne & Hbad). rewrite (proj2 (Z.eqb_neq _ _)) by done. unfold checked_add_u32.
    rewrite (proj2 (Z.leb_le (off + 8) u32_max)) by (unfold u32_max; lia). simpl.
    destruct (Z.leb_spec (off + 8 + word c off) u32_max); [|done].
    destruct (Z.ltb_spec end_cap (off + 8 + word c off)); [done|]. apply wp_read; [done|].
    rewrite buf_footer by lia. rewrite (proj2 (Z.eqb_neq _ _)) by auto. done.
  - rewrite (erased_word c off end_cap) by (done || lia). done.
Qed.

Lemma wp_replay_loop {Q R} bs fuel off m dirty :
  (length bs < fuel)%nat -> 0 <= off -> off + zlen (log_of bs) <= end_cap -> Forall small bs -> holds c off (log_of bs) ->
  tail c (off + zlen (log_of bs)) dirty -> (faults = true -> R c /\ Q (Err Io) c) -> Q (Ok (state_of m bs, off + zlen (log_of bs), dirty)) c ->
  wp E faults (replay_loop W fuel end_cap off m) c Q R.
Proof.
  intros Hf Ho He Hs Hh Ht HR Hk. revert fuel off m Hf Ho He Hh Ht Hk. induction Hs as [|ops bs Hs Hbs IH]; intros fuel off m Hf Ho He Hh Ht Hk.
  { destruct fuel; [simpl in Hf; lia|]. unfold log_of in *. simpl in *. rewrite zlen_nil, Z.add_0_r in *. by apply (wp_replay_stop _ _ _ dirty). }
  destruct fuel as [|fuel]; [simpl in Hf; lia|]. unfold log_of in *. cbn [map concat] in *. rewrite zlen_app in *. rewrite holds_app in Hh.
  destruct Hh as [Hh Hh']. rewrite Z.add_assoc in *. pose proof (record_bound ops Hs). pose proof (zlen_nonneg (payload_of ops)). pose proof (zlen_nonneg (concat (map (encode_record W) bs))).
  eapply wp_replay_record; [done|done| |lia|done|apply IH]; simpl in *; try done; try lia.
  rewrite <- (take_drop (Z.to_nat (8 + zlen (payload_of ops))) (encode_record W ops)) in Hh. by apply holds_app in Hh as [Hh _].
Qed.
End log.

(** ** A record cut off *)

Section append.
Context (W : Z) (HW : 0 < W) (end_cap : Z) (Hend : end_cap <= 2 ^ 31).

Lemma record_pad ops i : small W ops -> 8 + zlen (payload_of ops) <= Z.of_nat i -> nth i (encode_record W ops) 255 = 255.
Proof.
  intros Hs Hi. rewrite (encode_record_eq W HW) by done. rewrite !app_assoc.
  rewrite app_nth2 by (apply Nat2Z.inj_le; change (Z.of_nat (length ?l)) with (zlen l); zlen_norm; lia).
  generalize (i - length ((le_encode 4 (zlen (payload_of ops)) ++ payload_of ops) ++ le_encode 4 (Z.lxor (zlen (payload_of ops)) COMMIT_MAGIC)))%nat.
  intros k. unfold pad. destruct (decide (k < Z.to_nat (align_up (8 + zlen (payload_of ops)) W - (8 + zlen (payload_of ops))))%nat).
  - apply nth_lookup_Some. by apply lookup_replicate_2.
  - apply nth_overflow. rewrite length_replicate. lia.
Qed.

Lemma torn_head c off ops j : cells_ok c -> small W ops -> 0 <= off -> off + 8 <= end_cap -> (j < 4)%nat ->
  erased c (off + Z.of_nat j) end_cap -> exists dirty, tail end_cap c off dirty.
Proof.
  intros Hc Hs Ho Hl Hj He. pose proof (word_top c off Hc ltac:(apply He; lia)) as Hw.
  destruct (decide (word c off = ERASED)) as [Hx|Hx].
  - exists false. intros i Hi. destruct (decide (i < off + 4)); [|apply He; lia]. apply (word_erased c off Hc Hx). lia.
  - exists true. unfold tail, torn. split_conj; [done|done|lia].
Qed.

Lemma torn_footer c off ops j : cells_ok c -> small W ops -> off + zlen (encode_record W ops) <= end_cap -> (4 <= j)%nat ->
  Z.of_nat j < 8 + zlen (payload_of ops) -> holds c off (take j (encode_record W ops)) -> erased c (off + Z.of_nat j) end_cap -> torn end_cap c off.
Proof.
  intros Hc Hs Hl Hj Hj' Hh He. pose proof (record_bound W HW ops Hs). pose proof (zlen_nonneg (payload_of ops)). pose proof Hs as Hs'. unfold small in Hs'.
  assert (word c off = zlen (payload_of ops)) as Hw.
  { apply holds_word; [unfold u32_max; lia|]. revert Hh. rewrite (encode_record_eq W HW) by done.
    rewrite take_app_ge by (apply Nat2Z.inj_le; change (Z.of_nat (length ?l)) with (zlen l); zlen_norm; lia).
    by intros [Hh _]%holds_app. }
  unfold torn. rewrite Hw. split_conj; [lia|unfold ERASED; lia|]. intros _.
  pose proof (word_top c (off + 4 + zlen (payload_of ops)) Hc ltac:(apply He; lia)).
  pose proof (lxor_small (zlen (payload_of ops)) ltac:(lia)). lia.
Qed.

(** A record written, in whole or in part, to the erased end of a log. *)
Lemma append_torn c off ops j : cells_ok c -> small W ops -> Forall op_wf ops -> 0 <= off -> off + zlen (encode_record W ops) <= end_cap ->
  erased c off end_cap ->
  let c' := program c off (take j (encode_record W ops)) in
  (holds c' off (encode_record W ops) /\ erased c' (off + zlen (encode_record W ops)) end_cap) \/ exists dirty, tail end_cap c' off dirty.
Proof.
  intros Hc Hs Hw Ho Hl He. cbv zeta. set (rec := encode_record W ops) in *. set (c' := program c off (take j rec)).
  assert (cells_ok c') by by apply program_ok.
  destruct (program_torn c off rec end_cap j (wf_record W HW ops Hs Hw) He Hl) as [Hh Ht]. fold c' in Hh, Ht.
  pose proof (record_bound W HW ops Hs) as Hb. fold rec in Hb. pose proof (zlen_nonneg (payload_of ops)).
  destruct (decide (8 + zlen (payload_of ops) <= Z.of_nat j)) as [Hj|Hj].
  - left. assert (8 + zlen (payload_of ops) <= zlen (take j rec)) by (rewrite zlen_take; lia). split.
    + intros i Hi. destruct (decide (i < length (take j rec))%nat) as [Hk|Hk].
      * rewrite (Hh i Hk). rewrite <- (take_drop j rec) at 2. by rewrite app_nth1.
      * unfold rec. rewrite record_pad by (done || (unfold zlen in *; lia)). apply Ht. unfold zlen in *. lia.
    + intros i Hi. apply Ht. rewrite zlen_take. lia.
  - right. assert (zlen (take j rec) = Z.of_nat j) as Hlj by (rewrite zlen_take; lia). rewrite Hlj in Ht.
    destruct (decide (j < 4)%nat).
    + apply (torn_head c' off ops j); done || lia.
    + exists true. apply (torn_footer c' off ops j); done || lia.
Qed.
End append.

(** ** Superblocks and halves *)

Section halves.
Context (W E hc : Z).

Definition super (c : Cells) (base : Z) : option Z :=
  let hdr := read c base 16 in
  if negb (le_decode (slice hdr 0 8) =? SUPER_MAGIC) || negb (le_decode (slice hdr 8 12) =? FORMAT_VERSION) then None
  else Some (le_decode (slice hdr 12 16)).

(** The half that a mount takes. *)
Definition chosen (c : Cells) : option (Z * Z) :=
  match super c 0, super c hc with
  | None, None => None
  | Some g, None => Some (0, g)
  | None, Some g => Some (hc, g)
  | Some ga, Some gb => if newer ga gb then Some (0, ga) else Some (hc, gb)
  end.

(** The half at [base] holds the log of [bs]. *)
Definition half (c : Cells) (base : Z) (bs : list (list WriteOp)) (dirty : bool) : Prop :=
  let off := base + header_len W + zlen (log_of W bs) in
  off <= base + hc /\ Forall (small W) bs /\ Forall (Forall op_wf) bs /\
  holds c (base + header_len W) (log_of W bs) /\ tail (base + hc) c off dirty.

(** What is in memory agrees with what is on the device. *)
Record Mounted (c : Cells) (s : FlashState) : Prop := mkMounted {
  mounted_cells : cells_ok c;
  mounted_cap : half_cap s = hc;
  mounted_base : live_base s = 0 \/ live_base s = hc;
  mounted_chosen : chosen c = Some (live_base s, generation s);
  mounted_log : exists bs, half c (live_base s) bs (dirty_tail s) /\ index s = state_of [] bs /\
                           write_off s = live_base s + header_len W + zlen (log_of W bs)
}.

Context (HW : 0 < W) (HE : 16 <= E) (Hdiv : (E | hc)) (Hroom : header_len W + 8 <= hc) (Hcap : 2 * hc <= 2 ^ 31).

Lemma header_len_16 : 16 <= header_len W.
Proof. apply (align_up_spec W HW). Qed.

Lemma super_ext c c' base : (forall i, base <= i < base + 16 -> c' i = c i) -> super c' base = super c base.
Proof. intros H. unfold super. by rewrite (read_ext c' c base 16). Qed.
Lemma super_not_erased c base : c base = 255 -> super c base = None.
Proof.
  intros H. unfold super. rewrite (proj2 (Z.eqb_neq (le_decode _) SUPER_MAGIC)); [done|].
  change 16 with (8 + 8). rewrite read_app, slice_app_l by (done || lia).
  unfold le_decode, read. change (Z.to_nat 8) with 8%nat. cbn [seq map rev app]. unfold be_decode. cbn [fold_left].
  rewrite Z.add_0_r, H. unfold SUPER_MAGIC.
  match goal with |- ?x * 256 + _ <> _ => generalize x end. intros x. lia.
Qed.
Lemma holds_super c base g : 0 <= g <= u32_max -> holds c base (superblock W g) -> super c base = Some g.
Proof.
  intros Hg Hh. unfold superblock in Hh. rewrite !app_assoc in Hh. apply holds_app in Hh as [Hh _].
  unfold super. erewrite (holds_read c base _ 16); [|shelve|exact Hh]. Unshelve. 2: { zlen_norm; lia. }
  rewrite (slice_app_r (_ ++ _) (le_encode 4 g) 12 16) by (zlen_norm; lia).
  rewrite <- app_assoc, (slice_mid (le_encode 8 SUPER_MAGIC) _ _ 8 12), (slice_app_l (le_encode 8 SUPER_MAGIC)) by (zlen_norm; lia).
  rewrite !le_decode_encode by (done || (unfold u32_max in Hg; change (256 ^ Z.of_nat 4) with 4294967296; lia)). done.
Qed.
Lemma super_bound c base g : cells_ok c -> super c base = Some g -> 0 <= g <= u32_max.
Proof.
  intros Hc. unfold super. destruct (_ || _); [done|]. intros [= <-].
  assert (slice (read c base 16) 12 16 = read c (base + 12) 4) as ->; [|by apply (word_bound c (base + 12))].
  change (read c base 16) with (read c base (12 + 4)). rewrite read_app by lia. apply slice_app_r; rewrite !zlen_read; lia.
Qed.

(** *** What a half depends on *)

Lemma half_ext c c' base bs dirty : cells_ok c -> (forall i, base + header_len W <= i < base + hc -> c' i = c i) -> half c base bs dirty -> half c' base bs dirty.
Proof.
  intros Hc He (Hl & Hs & Hw & Hh & Ht). pose proof (zlen_nonneg (log_of W bs)). unfold half. split_conj; try done.
  { eapply holds_ext; [|exact Hh]. intros i Hi. apply He. lia. }
  destruct dirty; simpl in *.
  - destruct Ht as (H1 & H2 & H3). set (off := base + header_len W + zlen (log_of W bs)) in *.
    assert (word c' off = word c off) as Hwo by (unfold word; f_equal; apply read_ext; intros i Hi; apply He; lia).
    unfold torn. rewrite Hwo. split_conj; [done|done|]. intros Hfit. specialize (H3 Hfit).
    pose proof (word_bound c off Hc). unfold word at 1. rewrite (read_ext c' c) by (intros i Hi; apply He; lia). done.
  - intros i Hi. rewrite He by lia. apply Ht. lia.
Qed.

Lemma halves_apart base base' : base = 0 \/ base = hc -> base' = 0 \/ base' = hc -> base <> base' -> base' + hc <= base \/ base + hc <= base'.
Proof. pose proof header_len_16. lia. Qed.
Lemma chosen_super c base g : chosen c = Some (base, g) -> super c base = Some g /\ (base = 0 \/ base = hc).
Proof. unfold chosen. destruct (super c 0) eqn:?, (super c hc) eqn:?; try destruct (newer _ _); intros [= <- <-]; auto. Qed.

(** The other half matters only through its superblock. *)
Lemma chosen_frame c c' base other g : chosen c = Some (base, g) -> other = hc - base ->
  super c' base = super c base -> super c' other = super c other \/ super c' other = None -> chosen c' = Some (base, g).
Proof.
  intros Hch -> Hb Ho. pose proof header_len_16. destruct (chosen_super c base g Hch) as [Hs [-> | ->]].
  - rewrite Z.sub_0_r in Ho. unfold chosen in *. rewrite Hb in *. destruct Ho as [-> | ->]; [done|]. by rewrite Hs.
  - rewrite Z.sub_diag in Ho. unfold chosen in *. rewrite Hb in *. destruct Ho as [-> | ->]; [done|]. by rewrite Hs.
Qed.
Lemma Mounted_frame c c' s : Mounted c s -> cells_ok c' -> (forall i, live_base s <= i < live_base s + hc -> c' i = c i) ->
  super c' (other_base s) = super c (other_base s) \/ super c' (other_base s) = None -> Mounted c' s.
Proof.
  intros [Hc Hcp Hb Hch (bs & Hh & Hi & Hw)] Hc' He Ho. pose proof header_len_16. constructor; try done.
  - eapply chosen_frame; [exact Hch| |apply super_ext; intros i Hi'; apply He; lia|exact Ho].
    unfold other_base. rewrite Hcp. bcase; lia.
  - exists bs. split_conj; [|done|done]. eapply half_ext; [exact Hc| |exact Hh]. intros i Hi'. apply He. lia.
Qed.

(** *** Mounting *)

Lemma log_length bs : Forall (small W) bs -> 8 * Z.of_nat (length bs) <= zlen (log_of W bs).
Proof.
  induction 1 as [|ops bs Hs _ IH]; [done|]. unfold log_of in *. cbn [map concat length]. rewrite zlen_app.
  pose proof (record_bound W HW ops Hs). pose proof (zlen_nonneg (payload_of ops)). lia.
Qed.

Lemma wp_read_super {B} faults base (f : option Z -> PR B) c Q R :
  (faults = true -> R c /\ Q (Err Io) c) -> wp E faults (f (super c base)) c Q R -> wp E faults (rbind (read_super base) f) c Q R.
Proof.
  intros HR Hk. apply wp_rbind. unfold read_super. apply wp_read; [done|]. revert Hk. unfold super.
  destruct (_ || _); done.
Qed.

Lemma wp_replay_half {B} faults base bs dirty (f : Index * Z * bool -> PR B) c Q R :
  base = 0 \/ base = hc -> cells_ok c -> half c base bs dirty -> (faults = true -> R c /\ Q (Err Io) c) ->
  wp E faults (f (state_of [] bs, base + header_len W + zlen (log_of W bs), dirty)) c Q R -> wp E faults (rbind (replay_half W hc base []) f) c Q R.
Proof.
  intros Hb Hc (Hl & Hs & Hw & Hh & Ht) HR Hk. pose proof header_len_16. pose proof (log_length bs Hs).
  apply wp_rbind. unfold replay_half. eapply wp_replay_loop; try done; lia.
Qed.

Lemma wp_mount faults c s Q R : Mounted c s -> (faults = true -> R c /\ Q (Err Io) c) -> Q (Ok s) c ->
  wp E faults (mount_state W (mkState [] hc 0 0 0 false)) c Q R.
Proof.
  intros [Hc Hcp Hb Hch (bs & Hh & Hi & Hw)] HR HQ. unfold mount_state. cbn [half_cap].
  rewrite (proj2 (Z.ltb_ge _ _)) by lia. apply wp_read_super; [done|]. apply wp_read_super; [done|].
  assert (Hgo : wp E faults (let* '(m, off, dirty) := replay_half W hc (live_base s) [] in pok (mkState m hc (live_base s) (generation s) off dirty)) c Q R).
  { eapply wp_replay_half; [done|done|exact Hh|done|]. destruct s. simpl in *. by subst. }
  unfold chosen in Hch. destruct (super c 0), (super c hc); try destruct (newer _ _); try discriminate Hch;
    injection Hch as Hx Hy; rewrite <- Hx, <- Hy in Hgo; exact Hgo.
Qed.

(** *** What compaction writes *)

Definition compacted (m : Index) : list (list WriteOp) := match m with [] => [] | _ => [puts m] end.

Lemma state_of_concat m bs : state_of m bs = apply_ops m (concat bs).
Proof. revert m. induction bs as [|ops bs IH]; intros m; simpl; [done|]. rewrite IH. unfold apply_ops. by rewrite fold_left_app. Qed.
Lemma payload_app ops ops' : payload_of (ops ++ ops') = payload_of ops ++ payload_of ops'.
Proof. unfold payload_of. by rewrite map_app, concat_app. Qed.
Lemma log_cons ops bs : log_of W (ops :: bs) = encode_record W ops ++ log_of W bs.
Proof. done. Qed.
Lemma log_size bs : bs <> [] -> Forall (small W) bs -> align_up (8 + zlen (payload_of (concat bs))) W <= zlen (log_of W bs).
Proof.
  intros Hne. induction bs as [|ops bs IH]; [done|]. intros [Hs Hbs]%Forall_cons. rewrite log_cons, zlen_app, zlen_record by done.
  destruct bs as [|ops' bs]; [simpl; rewrite app_nil_r; change (zlen (log_of W [])) with 0; lia|].
  cbn [concat]. rewrite payload_app, zlen_app. specialize (IH ltac:(done) Hbs).
  etransitivity; [apply align_up_add; (done || apply zlen_nonneg)|]. cbn [concat] in IH. by apply Z.add_le_mono_l.
Qed.
Lemma header_len_W : W <= header_len W.
Proof.
  destruct (align_up_spec W HW 16) as [Hb [q Hq]]. unfold header_len. rewrite Hq in Hb |- *. assert (0 < q) by nia. nia.
Qed.

Lemma compacted_fits c base bs dirty : half c base bs dirty ->
  let m := state_of [] bs in
  index_wf m /\ Forall (small W) (compacted m) /\ Forall (Forall op_wf) (compacted m) /\
  state_of [] (compacted m) = m /\ zlen (log_of W (compacted m)) <= zlen (log_of W bs).
Proof.
  intros (Hl & Hs & Hw & _ & _). cbv zeta. rewrite state_of_concat.
  assert (index_wf (apply_ops [] (concat bs))) as Hm.
  { apply apply_ops_wf; [split; constructor|]. by apply Forall_concat. }
  pose proof (isize_apply_ops [] (concat bs)) as Hsz. change (isize []) with 0 in Hsz.
  destruct (apply_ops [] (concat bs)) as [|e m] eqn:Hx; [split_conj; try done; try constructor; apply zlen_nonneg|].
  pose proof (log_size bs ltac:(by intros ->) Hs) as Hls. pose proof header_len_W.
  destruct (align_up_spec W HW (8 + zlen (payload_of (concat bs)))) as [Hau _].
  assert (small W (puts (e :: m))) as Hsm by (unfold small; fold (isize (e :: m)); lia).
  cbn [compacted]. split_conj; [done|by apply Forall_singleton|apply Forall_singleton, Hm|by apply (apply_ops_puts (e :: m))|].
  unfold log_of at 1. cbn [map concat]. rewrite app_nil_r, zlen_record by done. etransitivity; [|exact Hls].
    fold (isize (e :: m)). destruct (align_up_spec W HW (8 + zlen (payload_of (concat bs)))) as [? ?]. apply align_up_least; (done || lia).
Qed.

(** *** Rewriting a half *)

(** Only the half at [base] has changed. *)
Definition elsewhere (c c' : Cells) (base : Z) : Prop := cells_ok c' /\ forall i, i < base \/ base + hc <= i -> c' i = c i.

Lemma erase_super c base d : base = 0 \/ base = hc ->
  super (erase_blocks E c base (base + hc) d) base = super c base \/ super (erase_blocks E c base (base + hc) d) base = None.
Proof.
  intros Hb. pose proof header_len_16. destruct (d (base / E)) eqn:Hd.
  - right. apply super_not_erased. unfold erase_blocks. rewrite Hd. by rewrite (proj2 (andb_true_iff _ _)) by lia.
  - left. apply super_ext. intros i Hi. unfold erase_blocks.
    assert (i / E = base / E) as ->; [|by rewrite Hd, andb_false_r].
    assert (exists q, base = q * E) as [q Hq] by (destruct Hb as [-> | ->]; [by exists 0|done]).
    rewrite Hq, Z.div_mul by lia. symmetry. apply (Z.div_unique_pos i E q (i - base)); lia.
Qed.

Lemma elsewhere_program c c' base off data : elsewhere c c' base -> base <= off -> off + zlen data <= base + hc ->
  elsewhere c (program c' off data) base.
Proof.
  intros [Hc He] Hl Hu. split; [by apply program_ok|]. intros i Hi. pose proof (zlen_nonneg data). rewrite program_out by lia. by apply He.
Qed.
Lemma elsewhere_erase c base d : cells_ok c -> elsewhere c (erase_blocks E c base (base + hc) d) base.
Proof. intros Hc. split; [by apply erase_ok|]. intros i Hi. by apply erase_out. Qed.

Lemma zlen_superblock g : zlen (superblock W g) = header_len W.
Proof. unfold superblock. pose proof header_len_16. zlen_norm. rewrite zlen_pad by lia. lia. Qed.
Lemma wf_superblock g : wf_bytes (superblock W g).
Proof. unfold superblock. rewrite !wf_bytes_app. split_conj; [apply wf_le_encode..|apply wf_pad]. Qed.

(** The record is on the device and the superblock is next. *)
Lemma wp_write_super {A} faults c c2 base g bs (a : A) Q (R : Cells -> Prop) :
  base = 0 \/ base = hc -> 0 <= g <= u32_max -> elsewhere c c2 base -> half c2 base bs false -> erased c2 base (base + header_len W) ->
  (faults = true -> forall c', elsewhere c c' base -> half c' base bs false -> R c' /\ Q (Err Io) c') ->
  (forall c', elsewhere c c' base -> half c' base bs false -> super c' base = Some g -> Q (Ok a) c') ->
  wp E faults (let* _ := flash_write base (superblock W g) in pok a) c2 Q R.
Proof.
  intros Hb Hg He Hh Her HR HQ. pose proof header_len_16. pose proof (zlen_superblock g) as Hz.
  assert (Hstep : forall j, elsewhere c (program c2 base (take j (superblock W g))) base /\ half (program c2 base (take j (superblock W g))) base bs false).
  { intros j. assert (zlen (take j (superblock W g)) <= header_len W) by (rewrite zlen_take; lia).
    pose proof (zlen_nonneg (take j (superblock W g))). split; [by apply elsewhere_program; (done || lia)|].
    eapply half_ext; [apply He| |exact Hh]. intros i Hi. apply program_out. lia. }
  apply wp_rbind. cbn [wp flash_write]. split.
  - specialize (Hstep (length (superblock W g))). rewrite firstn_all in Hstep. destruct Hstep as [He' Hh']. apply HQ; [done|done|].
    apply holds_super; [done|]. destruct (program_torn c2 base (superblock W g) (base + header_len W) (length (superblock W g))) as [Hs _];
      [apply wf_superblock|done|lia|]. by rewrite firstn_all in Hs.
  - intros Hf j. destruct (Hstep j) as [He' Hh']. destruct (HR Hf _ He' Hh') as [HR1 HR2]. split; [exact HR1|exact HR2].
Qed.

(** *** Appending to a half *)

Lemma log_snoc bs ops : log_of W (bs ++ [ops]) = log_of W bs ++ encode_record W ops.
Proof. unfold log_of. rewrite map_app, concat_app. cbn [map concat]. by rewrite app_nil_r. Qed.
Lemma half_nil c base : 0 <= base -> erased c (base + header_len W) (base + hc) -> half c base [] false.
Proof.
  intros Hb He. unfold half. change (log_of W []) with (@nil Z). rewrite zlen_nil, Z.add_0_r.
  repeat split; try (by constructor); [lia|intros i Hi; simpl in Hi; lia|done].
Qed.
Lemma half_prefix c c' base bs : (forall i, i < base + header_len W + zlen (log_of W bs) -> c' i = c i) ->
  holds c (base + header_len W) (log_of W bs) -> holds c' (base + header_len W) (log_of W bs).
Proof. intros He. apply holds_ext. intros i Hi. apply He. lia. Qed.

Lemma half_append c base bs ops j : cells_ok c -> 0 <= base -> base + hc <= 2 ^ 31 -> half c base bs false -> small W ops -> Forall op_wf ops ->
  let off := base + header_len W + zlen (log_of W bs) in
  off + zlen (encode_record W ops) <= base + hc ->
  half (program c off (take j (encode_record W ops))) base (bs ++ [ops]) false \/
  exists dirty, half (program c off (take j (encode_record W ops))) base bs dirty.
Proof.
  intros Hc Hb Hu (Hl & Hs & Hw & Hh & Ht) Hso Hwo. cbv zeta. set (off := base + header_len W + zlen (log_of W bs)) in *. intros Hfit.
  pose proof header_len_16. pose proof (zlen_nonneg (log_of W bs)).
  assert (holds (program c off (take j (encode_record W ops))) (base + header_len W) (log_of W bs)) as Hh'.
  { eapply half_prefix; [|exact Hh]. intros i Hi. apply program_out. by left. }
  destruct (append_torn W HW (base + hc) Hu c off ops j) as [[Hr He]|[d Hd]]; try done; [lia|left|right; by exists d].
  unfold half. rewrite log_snoc, zlen_app, Z.add_assoc, holds_app, !Forall_app. fold off. repeat split; try done; by apply Forall_singleton.
Qed.
Lemma half_append_whole c base bs ops : cells_ok c -> 0 <= base -> half c base bs false -> small W ops -> Forall op_wf ops ->
  let off := base + header_len W + zlen (log_of W bs) in
  off + zlen (encode_record W ops) <= base + hc -> half (program c off (encode_record W ops)) base (bs ++ [ops]) false.
Proof.
  intros Hc Hb (Hl & Hs & Hw & Hh & Ht) Hso Hwo. cbv zeta. set (off := base + header_len W + zlen (log_of W bs)) in *. intros Hfit.
  destruct (program_torn c off (encode_record W ops) (base + hc) (length (encode_record W ops))) as [Hr He]; [by apply wf_record|done|done|].
  rewrite firstn_all in Hr, He. unfold half. rewrite log_snoc, zlen_app, Z.add_assoc, holds_app, !Forall_app. fold off.
  repeat split; try done; try (by apply Forall_singleton). eapply half_prefix; [|exact Hh]. intros i Hi. apply program_out. by left.
Qed.

Lemma wp_write_half faults c base g m Q (R : Cells -> Prop) :
  cells_ok c -> base = 0 \/ base = hc -> 0 <= g <= u32_max ->
  Forall (small W) (compacted m) -> Forall (Forall op_wf) (compacted m) -> header_len W + zlen (log_of W (compacted m)) <= hc ->
  (faults = true -> forall c', elsewhere c c' base -> super c' base = super c base \/ super c' base = None -> R c' /\ Q (Err Io) c') ->
  (faults = true -> forall c', elsewhere c c' base -> half c' base (compacted m) false -> R c' /\ Q (Err Io) c') ->
  (forall c', elsewhere c c' base -> half c' base (compacted m) false -> super c' base = Some g -> Q (Ok (base + header_len W + zlen (log_of W (compacted m)))) c') ->
  wp E faults (write_half W hc base g (puts m)) c Q R.
Proof.
  intros Hc Hb Hg Hs Hw Hfit HR1 HR2 HQ. pose proof header_len_16. unfold write_half. apply wp_rbind. cbn [wp flash_erase]. split.
  2: { intros Hf d. destruct (HR1 Hf _ (elsewhere_erase c base d Hc) (erase_super c base d Hb)) as [H1 H2]. split; [exact H1|exact H2]. }
  set (c1 := erase_blocks E c base (base + hc) every).
  pose proof (erase_every E c base (base + hc)) as Her. pose proof (elsewhere_erase c base every Hc) as He. fold c1 in Her, He.
  assert (half c1 base [] false) as Hh1 by (apply half_nil; [lia|]; intros i Hi; apply Her; lia).
  destruct m as [|e m].
  { apply wp_rbind. cbn [wp pok puts map]. revert HQ. change (log_of W (compacted [])) with (@nil Z). rewrite zlen_nil, Z.add_0_r. intros HQ.
    eapply wp_write_super; [done|done|exact He|exact Hh1| |exact HR2|exact HQ]. intros i Hi. apply Her. lia. }
  set (ops := puts (e :: m)) in *. cbn [compacted] in *. fold ops in Hs, Hw, Hfit, HR2, HQ. rewrite Forall_singleton in Hs, Hw.
  assert (log_of W [ops] = encode_record W ops) as Hlog by (unfold log_of; cbn [map concat]; apply app_nil_r). rewrite Hlog in Hfit, HQ.
  pose proof (record_bound W HW ops Hs) as Hrb. pose proof (zlen_nonneg (payload_of ops)). apply wp_rbind.
  change (match ops with [] => ?a | _ => ?b end) with b. cbv zeta. unfold wrap. rewrite Z.mod_small by lia.
  rewrite (proj2 (Z.ltb_ge _ _)) by lia. apply wp_rbind. cbn [wp flash_write].
  assert (Hlo : base + header_len W = base + header_len W + zlen (log_of W [])) by (change (zlen (log_of W [])) with 0; lia).
  split.
  - assert (half (program c1 (base + header_len W) (encode_record W ops)) base [ops] false) as Hh2.
    { rewrite Hlo. apply (half_append_whole c1 base [] ops); try done; [apply He|lia|rewrite <- Hlo; lia]. }
    cbn [wp pok]. eapply wp_write_super; [done|done| |exact Hh2| |exact HR2|exact HQ].
    + by apply elsewhere_program; (done || lia).
    + intros i Hi. rewrite program_out by lia. apply Her. lia.
  - intros Hf j. pose proof (zlen_take (encode_record W ops) j). pose proof (zlen_nonneg (take j (encode_record W ops))).
    destruct (HR1 Hf (program c1 (base + header_len W) (take j (encode_record W ops)))) as [Hr1 Hr2]; [apply elsewhere_program; (done || lia)| |].
    + right. apply super_not_erased. rewrite program_out by lia. apply Her. lia.
    + split; [exact Hr1|exact Hr2].
Qed.

(** *** Compaction *)

Definition recovers (c : Cells) (m : Index) : Prop := exists s, Mounted c s /\ index s = m.

Lemma newer_succ g : 0 <= g <= u32_max -> newer (wrap 32 (g + 1)) g = true /\ newer g (wrap 32 (g + 1)) = false.
Proof.
  intros Hg. unfold newer, wrap, u32_max in *. destruct (decide (g = 4294967295)) as [->|]; [done|].
  rewrite !(Z.mod_small (g + 1)) by lia. replace (g + 1 - g) with 1 by lia. replace (g - (g + 1)) with (-1) by lia.
  change ((-1) mod 2 ^ 32) with 4294967295. change (1 mod 2 ^ 32) with 1. split; [|by rewrite andb_false_r]. lia.
Qed.
Lemma chosen_either c base other g g' : base = 0 \/ base = hc -> other = hc - base ->
  super c base = Some g -> super c other = Some g' -> chosen c = Some (base, g) \/ chosen c = Some (other, g').
Proof.
  intros Hb -> H1 H2. destruct Hb as [-> | ->]; rewrite ?Z.sub_0_r, ?Z.sub_diag in *; unfold chosen; rewrite H1, H2; destruct (newer _ _); auto.
Qed.
Lemma chosen_next c base other g : base = 0 \/ base = hc -> other = hc - base -> 0 <= g <= u32_max ->
  super c base = Some g -> super c other = Some (wrap 32 (g + 1)) -> chosen c = Some (other, wrap 32 (g + 1)).
Proof.
  intros Hb -> Hg H1 H2. destruct (newer_succ g Hg) as [Hn1 Hn2].
  destruct Hb as [-> | ->]; rewrite ?Z.sub_0_r, ?Z.sub_diag in *; unfold chosen; rewrite H1, H2, ?Hn1, ?Hn2; done.
Qed.
Lemma other_base_eq c s : Mounted c s -> other_base s = hc - live_base s /\ (other_base s = 0 \/ other_base s = hc).
Proof. intros [_ Hcp Hb _ _]. pose proof header_len_16. unfold other_base. rewrite Hcp. bcase; lia. Qed.

(** The other half holds the same map: a mount takes either half. *)
Lemma recovers_either c c' s : Mounted c s -> elsewhere c c' (other_base s) -> half c' (other_base s) (compacted (index s)) false ->
  state_of [] (compacted (index s)) = index s -> recovers c' (index s).
Proof.
  intros HM [Hc' He] Hh Hst. pose proof header_len_16. destruct (other_base_eq c s HM) as [Ho Ho']. pose proof HM as [Hc Hcp Hb Hch Hlog].
  assert (forall i, live_base s <= i < live_base s + hc -> c' i = c i) as Hlive by (intros i Hi; apply He; lia).
  destruct (super c' (other_base s)) as [g'|] eqn:Hs.
  2: { exists s. split; [|done]. eapply Mounted_frame; eauto. }
  assert (super c' (live_base s) = Some (generation s)) as Hl.
  { rewrite (super_ext c c'); [by apply (chosen_super c)|]. intros i Hi. apply Hlive. lia. }
  destruct (chosen_either c' (live_base s) (other_base s) (generation s) g' Hb Ho Hl Hs) as [Hx|Hx].
  - exists s. split; [|done]. constructor; try done. destruct Hlog as (bs & Hh' & Hi & Hw). exists bs. split_conj; [|done|done].
    eapply half_ext; [exact Hc| |exact Hh']. intros i Hi'. apply Hlive. lia.
  - exists (mkState (index s) hc (other_base s) g' (other_base s + header_len W + zlen (log_of W (compacted (index s)))) false).
    split; [|done]. constructor; try done. simpl. by exists (compacted (index s)).
Qed.

Lemma wp_compact faults c s Q (R : Cells -> Prop) : Mounted c s ->
  (faults = true -> forall c', recovers c' (index s) -> R c' /\ Q (Err Io) c') ->
  (forall c' s', Mounted c' s' -> index s' = index s -> dirty_tail s' = false ->
     write_off s' = live_base s' + header_len W + zlen (log_of W (compacted (index s))) -> Q (Ok s') c') ->
  wp E faults (compact W s) c Q R.
Proof.
  intros HM HR HQ. pose proof HM as [Hc Hcp Hb Hch (bs & Hh & Hi & Hw)]. destruct (other_base_eq c s HM) as [Ho Ho'].
  destruct (compacted_fits c (live_base s) bs (dirty_tail s) Hh) as (Hwf & Hsm & Hops & Hst & Hle). rewrite <- Hi in *.
  destruct (chosen_super c _ _ Hch) as [Hsup _]. pose proof (super_bound c _ _ Hc Hsup) as Hg. pose proof header_len_16.
  assert (0 <= wrap 32 (generation s + 1) <= u32_max) as Hg' by (unfold wrap, u32_max; pose proof (Z.mod_pos_bound (generation s + 1) (2 ^ 32)); lia).
  unfold compact. rewrite Hcp. fold (puts (index s)). apply wp_rbind. apply wp_write_half; try done.
  - destruct Hh as [Hl _]. lia.
  - intros Hf c' [Hc' He] Hs. apply HR; [done|]. exists s. split; [|done]. eapply Mounted_frame; [exact HM|done| |exact Hs]. intros i Hi'. apply He. lia.
  - intros Hf c' He Hh'. apply HR; [done|]. by eapply recovers_either.
  - intros c' [Hc' He] Hh' Hs'. cbn [wp pok]. apply HQ; [|done|done|done]. constructor; simpl; try done.
    + apply (chosen_next c' (live_base s) (other_base s)); try done. rewrite (super_ext c c'); [done|]. intros i Hi'. apply He. lia.
    + by exists (compacted (index s)).
Qed.

(** *** A batch *)

(** After a batch: an acknowledged one is stored, a refused one is not and does not
    fit beside what is stored; after an error of the device, as after a power loss,
    what is stored is the map before or after it. *)
Definition commit_post (faults : bool) (s : FlashState) (ops : list WriteOp) (r : result unit FlashError * FlashState) (c : Cells) : Prop :=
  match r.1 with
  | Ok _ => Mounted c r.2 /\ index r.2 = apply_ops (index s) ops
  | Err OutOfSpace =>
      Mounted c r.2 /\ index r.2 = index s /\ hc < header_len W + zlen (log_of W (compacted (index s))) + zlen (encode_record W ops)
  | Err Io => faults = true /\ (recovers c (index s) \/ recovers c (apply_ops (index s) ops))
  | Err Unformatted => False
  end.

Definition commit_crash (s : FlashState) (ops : list WriteOp) (c : Cells) : Prop :=
  recovers c (index s) \/ recovers c (apply_ops (index s) ops).

Lemma Mounted_live c s : Mounted c s -> 0 <= live_base s /\ live_base s + hc <= 2 ^ 31.
Proof. intros [_ _ Hb _ _]. pose proof header_len_16. lia. Qed.

(** A write within the live half, past its superblock. *)
Lemma Mounted_write c c' s bs d : Mounted c s -> cells_ok c' -> (forall i, i < live_base s + header_len W \/ live_base s + hc <= i -> c' i = c i) ->
  half c' (live_base s) bs d ->
  Mounted c' (mkState (state_of [] bs) hc (live_base s) (generation s) (live_base s + header_len W + zlen (log_of W bs)) d).
Proof.
  intros [Hc Hcp Hb Hch _] Hc' He Hh. pose proof header_len_16. constructor; simpl; try done; [|by exists bs].
  rewrite <- Hch. unfold chosen. rewrite !(super_ext c c') by (intros i Hi; apply He; lia). done.
Qed.

Lemma wp_write_record faults c s ops (k : bool -> Prog (result unit FlashError * FlashState)) Q (R : Cells -> Prop) :
  Mounted c s -> dirty_tail s = false -> small W ops -> Forall op_wf ops -> write_off s + zlen (encode_record W ops) <= live_base s + hc ->
  (faults = true -> forall c', commit_crash s ops c' -> R c' /\ wp E faults (k false) c' Q R) ->
  (forall c', Mounted c' (mkState (apply_ops (index s) ops) hc (live_base s) (generation s) (write_off s + zlen (encode_record W ops)) false) -> wp E faults (k true) c' Q R) ->
  wp E faults (Write (write_off s) (encode_record W ops) k) c Q R.
Proof.
  intros HM Hd Hs Hw Hfit HR HQ. pose proof HM as [Hc Hcp Hb Hch (bs & Hh & Hi & Hwo)]. destruct (Mounted_live c s HM) as [Hl0 Hlu].
  rewrite Hd in Hh. pose proof header_len_16. pose proof (zlen_nonneg (log_of W bs)). rewrite Hwo in *.
  assert (Hout : forall b, zlen b <= zlen (encode_record W ops) -> forall i, i < live_base s + header_len W \/ live_base s + hc <= i ->
    program c (live_base s + header_len W + zlen (log_of W bs)) b i = c i).
  { intros b Hb' i Hi'. apply program_out. pose proof (zlen_nonneg b). lia. }
  assert (Hnext : state_of [] (bs ++ [ops]) = apply_ops (index s) ops) by (rewrite Hi; unfold state_of; by rewrite fold_left_app).
  cbn [wp]. split.
  - apply HQ. pose proof (half_append_whole c (live_base s) bs ops Hc Hl0 Hh Hs Hw Hfit) as Hh'.
    pose proof (Mounted_write c _ s (bs ++ [ops]) false HM (program_ok _ _ _ Hc) (Hout _ (Z.le_refl _)) Hh') as HM'.
    by rewrite Hnext, log_snoc, zlen_app, Z.add_assoc in HM'.
  - intros Hf j. apply HR; [done|]. assert (zlen (take j (encode_record W ops)) <= zlen (encode_record W ops)) as Hz by (rewrite zlen_take; lia).
    destruct (half_append c (live_base s) bs ops j Hc Hl0 Hlu Hh Hs Hw Hfit) as [Hh'|[d Hh']].
    + right. eexists. split; [apply (Mounted_write c _ s (bs ++ [ops]) false HM (program_ok _ _ _ Hc) (Hout _ Hz) Hh')|done].
    + left. eexists. split; [apply (Mounted_write c _ s bs d HM (program_ok _ _ _ Hc) (Hout _ Hz) Hh')|done].
Qed.

(** The write of the record, once there is room for it. *)
Lemma wp_commit_write faults c s0 s ops :
  Mounted c s -> index s = index s0 -> dirty_tail s = false -> small W ops -> Forall op_wf ops ->
  write_off s + zlen (encode_record W ops) <= live_base s + hc ->
  wp E faults (pbind (flash_write (write_off s) (encode_record W ops)) (fun r =>
    match r with
    | Err e => Done (Err e, s)
    | Ok _ => Done (Ok tt, mkState (index s) hc (live_base s) (generation s) (write_off s + zlen (encode_record W ops)) false)
    end)) c
    (fun a c => wp E faults match a with (r, s) => match r with
       | Err e => Done (Err e, s)
       | Ok _ => Done (Ok tt, mkState (apply_ops (index s) ops) (half_cap s) (live_base s) (generation s) (write_off s) (dirty_tail s))
       end end c (commit_post faults s0 ops) (commit_crash s0 ops)) (commit_crash s0 ops).
Proof.
  intros HM Hi Hd Hs Hw Hfit. cbn [pbind flash_write]. apply wp_write_record; try done.
  - intros Hf c' Hc'. unfold commit_crash in *. rewrite Hi in Hc'. split; [done|]. simpl. by split.
  - intros c' HM'. simpl. unfold commit_post. simpl. rewrite <- Hi. by split.
Qed.

Lemma wp_commit faults c s ops : Mounted c s -> small W ops -> Forall op_wf ops ->
  wp E faults (commit W s ops) c (commit_post faults s ops) (commit_crash s ops).
Proof.
  intros HM Hs Hw. unfold commit. apply wp_bind. pose proof (record_bound W HW ops Hs) as Hrb. pose proof (zlen_nonneg (payload_of ops)).
  assert (wrap 32 (zlen (encode_record W ops)) = zlen (encode_record W ops)) as Hwr by (unfold wrap; apply Z.mod_small; lia).
  unfold append. rewrite Hwr, (mounted_cap c s HM). destruct (dirty_tail s) eqn:Hd; cbn [orb].
  2: destruct (Z.ltb_spec (live_base s + hc) (write_off s + zlen (encode_record W ops))).
  3: { by apply wp_commit_write. }
  all: apply wp_bind, wp_compact; [done| |].
  all: try (intros Hf c' Hc'; split; [by left|simpl; split; [done|by left]]).
  all: intros c' s' HM' Hi' Hd' Hwo'; rewrite (mounted_cap c' s' HM'), Hd';
    destruct (Z.ltb_spec (live_base s' + hc) (write_off s' + zlen (encode_record W ops)));
    [simpl; unfold commit_post; simpl; split_conj; [done|done|lia]|by apply wp_commit_write].
Qed.
End halves.

(** ** The store *)

(** The devices the store can be used on: a half has room for a superblock and a
    record, offsets stay clear of the end of [u32], and a superblock is within a
    block. *)
Record Geometry (W E capacity : Z) : Prop := mkGeometry {
  geo_write : 0 < W;
  geo_erase : 16 <= E;
  geo_capacity : 0 <= capacity <= 2 ^ 31;
  geo_room : header_len W + 8 <= half_cap_for E capacity
}.

Section store.
Context (W E capacity : Z) (G : Geometry W E capacity).
Definition half_size : Z := half_cap_for E capacity.

Lemma geo_div : (E | half_size).
Proof. apply Z.divide_factor_r. Qed.
Lemma geo_cap : 2 * half_size <= 2 ^ 31.
Proof.
  destruct G as [_ HE Hcap _]. unfold half_size, half_cap_for, align_down.
  pose proof (Z.mul_div_le (capacity / 2) E ltac:(lia)). pose proof (Z.mul_div_le capacity 2 ltac:(lia)). lia.
Qed.
Lemma capacity_wrap : wrap 32 capacity = capacity.
Proof. destruct G as [_ _ Hcap _]. unfold wrap. apply Z.mod_small. lia. Qed.

Lemma remount_Mounted c s : Mounted W half_size c s -> remount W E capacity c = Some (c, s).
Proof.
  intros HM. unfold remount, FlashLogBackend.mount. rewrite capacity_wrap.
  destruct (wp_run_works E false (mount_state W (mkState [] half_size 0 0 0 false)) c (fun r c' => r = Ok s /\ c' = c) (fun _ => True)) as (a & c' & Hr & -> & ->).
  - apply (wp_mount W E half_size) with s; try done; [apply G|apply G|apply geo_cap].
  - fold half_size. by rewrite Hr.
Qed.

Lemma wp_format faults c : cells_ok c ->
  wp E faults (FlashLogBackend.format W E capacity) c
    (fun r c' => match r with Ok s => Mounted W half_size c' s /\ index s = [] | Err e => e = Io /\ faults = true end) (fun _ => True).
Proof.
  intros Hc. destruct G as [HW HE Hcap Hroom]. unfold FlashLogBackend.format. rewrite capacity_wrap. fold half_size in *.
  pose proof (header_len_16 W HW). rewrite (proj2 (Z.ltb_ge _ _)) by lia. apply wp_rbind. cbn [wp flash_erase]. split; [|done].
  set (c1 := erase_blocks E c half_size (half_size + half_size) every). pose proof (erase_every E c half_size (half_size + half_size)) as Her. fold c1 in Her.
  apply wp_rbind. change (@nil WriteOp) with (puts []).
  apply (wp_write_half W E half_size HW HE geo_div Hroom); try done; try (by constructor); try (by left).
  - by apply erase_ok.
  - change (log_of W (compacted [])) with (@nil Z). rewrite zlen_nil. lia.
  - intros c' [Hc' He] Hh Hs. cbn [wp pok]. split; [|done]. constructor; simpl; try done; [by left| |by exists []].
    unfold chosen. rewrite Hs, (super_not_erased c' half_size); [done|]. rewrite He by lia. apply Her. lia.
Qed.

(** One batch of a client. *)
Lemma wp_batch faults c s ops : Mounted W half_size c s -> small W ops -> Forall op_wf ops ->
  wp E faults (FlashLogBackend.write_batch W s ops) c (commit_post W half_size faults s ops) (commit_crash W half_size s ops).
Proof. intros HM Hs Hw. destruct G. apply (wp_commit W E half_size); try done; [apply geo_div|apply geo_cap]. Qed.
Lemma use_batch c s ops script : Mounted W half_size c s -> small W ops -> Forall op_wf ops ->
  match run E script (FlashLogBackend.write_batch W s ops) c with
  | Finished r c' => commit_post W half_size true s ops r c'
  | PowerLost c' => commit_crash W half_size s ops c'
  end.
Proof. intros HM Hs Hw. apply (wp_run E true); [done|]. by apply wp_batch. Qed.

Definition batch_ok (b : list WriteOp) : Prop := small W b /\ Forall op_wf b.

Lemma use_spec batches : forall c s, Mounted W half_size c s -> Forall (fun b => batch_ok b.1) batches ->
  exists ks c' s', use W E capacity c s batches = Some (ks, c', s') /\ allowed (index s) ks (map fst batches) (index s') /\ Mounted W half_size c' s'.
Proof.
  induction batches as [|[ops script] batches IH]; intros c s HM Hall.
  { exists [], c, s. split_conj; [done|constructor|done]. }
  apply Forall_cons in Hall as [[Hs Hw] Hall]. pose proof (use_batch c s ops script HM Hs Hw) as Hrun. cbn [use].
  assert (Hgo : forall k c1 s1, Mounted W half_size c1 s1 ->
    (index s1 = index s /\ k <> Acknowledged) \/ (index s1 = apply_ops (index s) ops /\ k <> Refused) ->
    exists ks c' s', match use W E capacity c1 s1 batches with Some (ks, c, s) => Some (k :: ks, c, s) | None => None end = Some (ks, c', s') /\
      allowed (index s) ks (map fst ((ops, script) :: batches)) (index s') /\ Mounted W half_size c' s').
  { intros k c1 s1 HM1 Hk. destruct (IH c1 s1 HM1 Hall) as (ks & c' & s' & -> & Ha & HM'). exists (k :: ks), c', s'. split_conj; [done| |done].
    destruct Hk as [[Hi Hk]|[Hi Hk]]; rewrite Hi in Ha; [by apply allowed_skipped|by apply allowed_applied]. }
  assert (Hcr : forall c1, commit_crash W half_size s ops c1 -> exists s1, remount W E capacity c1 = Some (c1, s1) /\ Mounted W half_size c1 s1 /\
    ((index s1 = index s /\ Unknown <> Acknowledged) \/ (index s1 = apply_ops (index s) ops /\ Unknown <> Refused))).
  { intros c1 [(s1 & HM1 & Hi)|(s1 & HM1 & Hi)]; exists s1; (split; [by apply remount_Mounted|]); auto. }
  destruct (run E script _ c) as [[[u|[]] s1] c1|c1]; unfold commit_post in Hrun; simpl in Hrun.
  - destruct Hrun as [HM1 Hi]. apply Hgo; [done|right; done].
  - done.
  - destruct Hrun as (HM1 & Hi & _). apply Hgo; [done|left; done].
  - destruct Hrun as [_ Hrun]. destruct (Hcr c1 Hrun) as (s2 & -> & HM2 & Hk). by apply Hgo.
  - destruct (Hcr c1 Hrun) as (s2 & -> & HM2 & Hk). by apply Hgo.
Qed.

(** C12: whatever happens to a formatted store - batches written, requests of the
    device that fail and power lost at any request, with a write cut off after any
    byte and an erase after any blocks, each time followed by a mount - every mount
    succeeds, every acknowledged batch is in the store as a whole and in order, every
    refused one is not, and one whose outcome is unknown is there as a whole or not
    at all.  What is in memory is what a mount would read back. *)
Theorem flash_store_durable c script s c0 batches :
  cells_ok c -> run E script (FlashLogBackend.format W E capacity) c = Finished (Ok s) c0 ->
  Forall (fun b => batch_ok b.1) batches ->
  exists ks c' s', use W E capacity c0 s batches = Some (ks, c', s') /\
    allowed [] ks (map fst batches) (index s') /\ remount W E capacity c' = Some (c', s').
Proof.
  intros Hc Hf Hall. pose proof (wp_run E true script _ c _ _ eq_refl (wp_format true c Hc)) as Hr. rewrite Hf in Hr.
  destruct Hr as [HM Hi]. destruct (use_spec batches c0 s HM Hall) as (ks & c' & s' & Hu & Ha & HM'). rewrite Hi in Ha.
  exists ks, c', s'. split_conj; [done|done|by apply remount_Mounted].
Qed.

(** On a device whose requests work, a store that was formatted and used accepts
    every batch for which there is room once the log is compacted: a superblock, one
    record of the entries of the map and the record of the batch fit in a half. *)
Theorem flash_batch_accepted c script s c0 batches ks c1 s1 ops :
  cells_ok c -> run E script (FlashLogBackend.format W E capacity) c = Finished (Ok s) c0 ->
  Forall (fun b => batch_ok b.1) batches -> use W E capacity c0 s batches = Some (ks, c1, s1) ->
  batch_ok ops -> header_len W + zlen (log_of W (compacted (index s1))) + zlen (encode_record W ops) <= half_size ->
  exists s2 c2, run E [] (FlashLogBackend.write_batch W s1 ops) c1 = Finished (Ok tt, s2) c2 /\
    index s2 = apply_ops (index s1) ops /\ remount W E capacity c2 = Some (c2, s2).
Proof.
  intros Hc Hf Hall Hu [Hs Hw] Hfit. pose proof (wp_run E true script _ c _ _ eq_refl (wp_format true c Hc)) as Hr. rewrite Hf in Hr.
  destruct Hr as [HM _]. destruct (use_spec batches c0 s HM Hall) as (ks' & c' & s' & Hu' & _ & HM'). rewrite Hu in Hu'. injection Hu' as <- <- <-.
  destruct (wp_run_works E false (FlashLogBackend.write_batch W s1 ops) c1 _ _ (wp_batch false c1 s1 ops HM' Hs Hw)) as ([r s2] & c2 & Hrun & Hpost).
  unfold commit_post in Hpost. destruct r as [[]|[]]; simpl in Hpost.
  - exists s2, c2. split_conj; [done|apply Hpost|apply remount_Mounted, Hpost].
  - done.
  - lia.
  - by destruct Hpost.
Qed.
End store.

(** ** Scanning *)

Definition starts_with (prefix : bytes) (e : bytes * bytes) : bool := bool_decide (take (length prefix) e.1 = prefix).

Lemma between_prefix p k x : bytes_cmp k p <> Lt -> bytes_cmp k (p ++ x) = Lt -> take (length p) k = p.
Proof.
  unfold bytes_cmp. revert k. induction p as [|b p IH]; intros [|a k]; simpl; try done.
  destruct (Z.compare_spec a b) as [->|Hab|Hab]; simpl; [|done|done]. intros H1 H2. f_equal. by apply IH.
Qed.
Lemma prefix_not_below p k : take (length p) k = p -> bytes_cmp k p <> Lt.
Proof.
  intros Hp. rewrite <- (take_drop (length p) k), Hp. intros Hlt. pose proof (lex_cmp_prefix Z.compare p (drop (length p) k)) as Hc.
  apply cmp_gt in Hlt; [|apply _]. unfold bytes_cmp in Hlt. rewrite Hc in Hlt. by destruct (drop _ _).
Qed.
(** Past the last key with the prefix there is none. *)
Lemma prefix_ends p k v l : bt_wf bytes_cmp ((k, v) :: l) -> bytes_cmp k p <> Lt -> starts_with p (k, v) = false -> List.filter (starts_with p) l = [].
Proof.
  intros [Hlt _]%bt_wf_cons Hk Hp. apply bool_decide_eq_false in Hp. simpl in Hp. induction Hlt as [|[k' v'] l Hk' _ IH]; [done|]. simpl.
  destruct (starts_with p (k', v')) eqn:Hs; [|done]. apply bool_decide_eq_true in Hs. simpl in *.
  rewrite <- (take_drop (length p) k'), Hs in Hk'. by destruct Hp; eapply between_prefix.
Qed.

Lemma scan_from_spec p limit l out : 0 <= limit -> limit = 0 \/ zlen out < limit -> bt_wf bytes_cmp l -> Forall (fun e => bytes_cmp e.1 p <> Lt) l ->
  FlashLogBackend.scan_from p limit l out =
  out ++ (let all := List.filter (starts_with p) l in if limit =? 0 then all else take (Z.to_nat (limit - zlen out)) all).
Proof.
  intros Hl. revert out. induction l as [|[k v] l IH]; intros out Ho Hw Hall.
  { simpl. destruct (limit =? 0); by rewrite ?take_nil, app_nil_r. }
  apply Forall_cons in Hall as [Hk Hall]. cbn [FlashLogBackend.scan_from List.filter]. change (bool_decide _) with (starts_with p (k, v)).
  destruct (starts_with p (k, v)) eqn:Hp; simpl negb; cbv iota zeta.
  2: { rewrite (prefix_ends p k v l Hw Hk Hp). destruct (limit =? 0); by rewrite ?take_nil, app_nil_r. }
  apply bt_wf_cons in Hw as [_ Hw]. rewrite zlen_app. change (zlen [(k, v)]) with 1. destruct (Z.eqb_spec limit 0) as [->|Hne]; simpl.
  - rewrite IH by (done || lia). simpl. by rewrite <- app_assoc.
  - destruct (Z.leb_spec limit (zlen out + 1)) as [Hle|Hle].
    + replace (Z.to_nat (limit - zlen out)) with 1%nat by lia. done.
    + rewrite IH by (done || zlen_lia). rewrite <- app_assoc, zlen_app. change (zlen [(k, v)]) with 1. simpl.
      replace (Z.to_nat (limit - zlen out)) with (S (Z.to_nat (limit - (zlen out + 1)))) by lia. done.
Qed.

(** A scan returns the entries whose keys have the prefix, in key order, the first
    [limit] of them if a limit is given. *)
Lemma scan_prefix_spec s p limit : index_wf (index s) -> 0 <= limit ->
  FlashLogBackend.scan_prefix s p limit =
  let all := List.filter (starts_with p) (index s) in if limit =? 0 then all else take (Z.to_nat limit) all.
Proof.
  intros [Hw _] Hl. unfold FlashLogBackend.scan_prefix. rewrite scan_from_spec; [|done|change (zlen []) with 0; lia|by apply bt_wf_filter|].
  - change (zlen []) with 0. rewrite Z.sub_0_r. cbn [app]. cbv zeta.
    assert (List.filter (starts_with p) (List.filter (fun e => match bytes_cmp e.1 p with Lt => false | _ => true end) (index s)) = List.filter (starts_with p) (index s)) as ->; [|done].
    induction (index s) as [|e l IH]; [done|]. simpl. apply StronglySorted_inv in Hw as [Hw _].
    destruct (bytes_cmp e.1 p) eqn:Hc; simpl; rewrite IH by done; try done.
    destruct (starts_with p e) eqn:Hs; [|done]. apply bool_decide_eq_true in Hs. by destruct (prefix_not_below p e.1 Hs).
  - apply List.Forall_forall. intros e [_ He]%List.filter_In. by destruct (bytes_cmp e.1 p).
Qed.

(** ** The store at work *)

Module Demo.
Definition c0 : Cells := fun _ => 0.
Definition none (_ : Z) : bool := false.
Definition evens (b : Z) : bool := Z.even b.
Definition formatted : Outcome (result FlashState FlashError) := run 64 [] (FlashLogBackend.format 4 64 512) c0.
Definition state0 : FlashState := match formatted with Finished (Ok s) _ => s | _ => mkState [] 0 0 0 0 false end.
Definition cells0 : Cells := match formatted with Finished _ c => c | PowerLost c => c end.

(** Writes that are cut off or fail, a batch that does not fit, and compactions cut
    off in the erase, in the record and in the superblock. *)
Definition batches : list (list WriteOp * list Event) :=
  [ ([Put [1] [10; 11]; Put [2] [20]], []);
    ([Put [1] [12]; Delete [2]], [Cut 9 none]);
    ([Put [3] (repeat 7 60)], []);
    ([Put [4] (repeat 8 70)], []);
    ([Put [3] (repeat 9 80)], [Cut 0 evens]);
    ([Put [3] (repeat 9 80)], [Works; Cut 30 none]);
    ([Put [3] (repeat 9 80)], [Works; Works; Cut 13 none]);
    ([Put [5] [50]], [Fails 7 none]);
    ([Delete [4]; Put [6] [60]], []);
    ([Put [7] (repeat 1 300)], []) ].
End Demo.

Lemma demo_geometry : Geometry 4 64 512.
Proof. constructor; vm_compute; done || (split; discriminate). Qed.
Lemma demo_cells : cells_ok Demo.c0.
Proof. intros i. unfold Demo.c0, is_u8, u8_max. lia. Qed.
Lemma op_wf_check ops : forallb (fun op => match op with Put k v => forallb (fun b => (0 <=? b) && (b <=? 255)) (k ++ v) | Delete k => forallb (fun b => (0 <=? b) && (b <=? 255)) k end) ops = true -> Forall op_wf ops.
Proof.
  intros H. apply List.Forall_forall. intros op Hop. rewrite List.forallb_forall in H. apply H in Hop. destruct op; simpl.
  - by apply wf_bytes_app, wf_bytes_check.
  - by apply wf_bytes_check.
Qed.
Lemma demo_batches : Forall (fun b => batch_ok 4 b.1) Demo.batches.
Proof. repeat (constructor; [split; [vm_compute; discriminate|by apply op_wf_check]|]). constructor. Qed.

Lemma flash_store_durable_witness :
  exists ks c' s', use 4 64 512 Demo.cells0 Demo.state0 Demo.batches = Some (ks, c', s') /\
    allowed [] ks (map fst Demo.batches) (index s') /\ remount 4 64 512 c' = Some (c', s').
Proof.
  apply (flash_store_durable 4 64 512 demo_geometry Demo.c0 [] Demo.state0 Demo.cells0 Demo.batches demo_cells);
    [vm_compute; reflexivity|exact demo_batches].
Defined.

Definition demo_next : list WriteOp := [Put [8] (repeat 2 90)].
Lemma demo_room : exists ks c1 s1, use 4 64 512 Demo.cells0 Demo.state0 Demo.batches = Some (ks, c1, s1) /\
  header_len 4 + zlen (log_of 4 (compacted (index s1))) + zlen (encode_record 4 demo_next) <= half_size 64 512.
Proof.
  assert (match use 4 64 512 Demo.cells0 Demo.state0 Demo.batches with
          | Some (_, _, s1) => header_len 4 + zlen (log_of 4 (compacted (index s1))) + zlen (encode_record 4 demo_next) <=? half_size 64 512
          | None => false end = true) as H by (vm_compute; reflexivity).
  destruct (use 4 64 512 Demo.cells0 Demo.state0 Demo.batches) as [[[ks c] s]|]; [|discriminate H].
  exists ks, c, s. split; [reflexivity|]. by apply Z.leb_le.
Qed.

Lemma flash_batch_accepted_witness :
  exists ks c1 s1, use 4 64 512 Demo.cells0 Demo.state0 Demo.batches = Some (ks, c1, s1) /\
  exists s2 c2, run 64 [] (FlashLogBackend.write_batch 4 s1 demo_next) c1 = Finished (Ok tt, s2) c2 /\
    index s2 = apply_ops (index s1) demo_next /\ remount 4 64 512 c2 = Some (c2, s2).
Proof.
  destruct demo_room as (ks & c1 & s1 & Hu & Hfit). exists ks, c1, s1. split; [exact Hu|].
  apply (flash_batch_accepted 4 64 512 demo_geometry Demo.c0 [] Demo.state0 Demo.cells0 Demo.batches ks c1 s1 demo_next);
    [exact demo_cells|vm_compute; reflexivity|exact demo_batches|exact Hu| |exact Hfit].
  split; [vm_compute; discriminate|by apply op_wf_check].
Defined.

(** The client of [flash_store_durable] mounts the store again after an error of
    the device, and has to: the code does not.  After a write that failed half way the
    store keeps its write offset and a clean tail, so that the next record is
    programmed over the cells of the failed one.  That batch is acknowledged and
    readable; when the store is mounted its key is gone, and a key that was never
    written is there. *)
Theorem failed_write_loses_next :
  match run 64 [Fails 10 Demo.none] (FlashLogBackend.put 4 Demo.state0 [1] [10]) Demo.cells0 with
  | Finished (Err Io, s1) c1 =>
      match run 64 [] (FlashLogBackend.put 4 s1 [2] [20]) c1 with
      | Finished (Ok _, s2) c2 =>
          FlashLogBackend.get s2 [2] = Some [20] /\
          match remount 4 64 512 c2 with Some (_, s3) => FlashLogBackend.get s3 [2] = None /\ FlashLogBackend.get s3 [0] = Some [20] | None => False end
      | _ => False
      end
  | _ => False
  end.
Proof. vm_compute. by repeat split. Qed.
