(* ===== verification/Lvs.v ===== *)
(** * Trust schemas ([ndn-security]: [lvs.rs], [lvs_compile.rs], [trust_schema.rs], [validation_policy.rs])

    Which key may sign which data, decided on names.  [lvs] reads the binary form of
    a LightVerSec schema, a graph whose edges match name components, and walks it;
    [lvs_compile] produces the binary form from source text; [trust_schema] has the
    rules of the code base's own grammar beside it; [validation_policy] composes
    decisions.  User functions are parameters, registered by name.  A [&str] is the
    list of its bytes. *)
From stdpp Require Import gmap.
From S2P Require Import Prelude Tlv Name NameUri Face Mgmt.
#[local] Open Scope Z_scope.

Module lvs.

Definition MAX_WALK_STEPS : Z := 100000.
Definition MAX_WALK_ENDINGS : Z := 256.
Definition LVS_VERSION : Z := 0x00011000.

Module type_number.
Definition COMPONENT_VALUE : Z := 0x21.
Definition PATTERN_TAG : Z := 0x23.
Definition NODE_ID : Z := 0x25.
Definition USER_FN_ID : Z := 0x27.
Definition IDENTIFIER : Z := 0x29.
Definition USER_FN_CALL : Z := 0x31.
Definition FN_ARGS : Z := 0x33.
Definition CONS_OPTION : Z := 0x41.
Definition CONSTRAINT : Z := 0x43.
Definition VALUE_EDGE : Z := 0x51.
Definition PATTERN_EDGE : Z := 0x53.
Definition KEY_NODE_ID : Z := 0x55.
Definition PARENT_ID : Z := 0x57.
Definition VERSION : Z := 0x61.
Definition NODE : Z := 0x63.
Definition TAG_SYMBOL : Z := 0x67.
Definition NAMED_PATTERN_NUM : Z := 0x69.
End type_number.
Import type_number.

Inductive LvsError : Type :=
| Truncated (what : bytes)
| LengthMismatch (offset claimed available : Z)
| UnexpectedType (actual expected : Z)
| UnsupportedVersion (actual expected : Z)
| NodeIdOutOfRange (node_id n : Z)
| NodeIdMismatch (idx id : Z)
| MalformedConstraintOption
| BadIdentifier
| UserFunctionsNotSupported.

Inductive LvsUserFnArg : Type := AValue (c : NameComponent) | ATag (t : Z).
Record LvsUserFnCall : Type := mkCall { fn_id : bytes; args : list LvsUserFnArg }.
Inductive LvsConstraintOption : Type := OValue (c : NameComponent) | OTag (t : Z) | OUserFn (call : LvsUserFnCall).
Record LvsConstraint : Type := mkConstraint { options : list LvsConstraintOption }.
Record LvsPatternEdge : Type := mkPatternEdge { pe_dest : Z; pe_tag : Z; constraints : list LvsConstraint }.
Record LvsValueEdge : Type := mkValueEdge { ve_dest : Z; ve_value : NameComponent }.
Record LvsNode : Type := mkNode {
  id : Z;
  parent : option Z;
  rule_names : list bytes;
  value_edges : list LvsValueEdge;
  pattern_edges : list LvsPatternEdge;
  sign_constraints : list Z
}.
Record LvsTagSymbol : Type := mkTagSymbol { ts_tag : Z; ts_ident : bytes }.
Record LvsModel : Type := mkModel {
  version : Z;
  start_id : Z;
  named_pattern_cnt : Z;
  nodes : list LvsNode;
  tag_symbols : list LvsTagSymbol;
  uses_user_functions : bool
}.

(** ** Reading *)

Definition read_tlv (input : bytes) : result (Z * bytes * bytes) LvsError :=
  let? (t, tn) := map_err (fun _ => Truncated (str "TLV type")) (read_varu64 input) in
  let? (l, ln) := map_err (fun _ => Truncated (str "TLV length")) (read_varu64 (slice_from_ input tn)) in
  let header_len := tn + ln in
  let total := header_len + l in
  if usize_max <? total then Err (Truncated (str "TLV length overflow"))
  else if zlen input <? total then Err (LengthMismatch 0 total (zlen input))
  else Ok (t, slice input header_len total, slice_from_ input total).

Definition read_uint (v : bytes) : result Z LvsError :=
  if (zlen v =? 1) || (zlen v =? 2) || (zlen v =? 4) || (zlen v =? 8) then Ok (be_decode v)
  else Err (Truncated (str "uint: unexpected length")).

Definition read_string (v : bytes) : result bytes LvsError := if utf8_valid v then Ok v else Err BadIdentifier.

Definition parse_name_component (value : bytes) : result NameComponent LvsError :=
  let? (t, tn) := map_err (fun _ => Truncated (str "NameComponent type")) (read_varu64 value) in
  let? (l, ln) := map_err (fun _ => Truncated (str "NameComponent length")) (read_varu64 (slice_from_ value tn)) in
  let start := tn + ln in
  let end_ := start + l in
  if usize_max <? end_ then Err (Truncated (str "NameComponent length overflow"))
  else if zlen value <? end_ then Err (LengthMismatch 0 end_ (zlen value))
  else Ok (mkComponent t (slice value start end_)).

(** [while !cursor.is_empty()] over the elements of a value; a turn consumes at
    least two bytes. *)
Fixpoint tlv_loop {S} (step : Z -> bytes -> S -> result S LvsError) (fuel : nat) (cursor : bytes) (s : S) : result S LvsError :=
  match fuel with
  | O => Ok s
  | Datatypes.S fuel =>
      match cursor with
      | [] => Ok s
      | _ =>
          let? (t, v, rest) := read_tlv cursor in
          let? s := step t v s in
          tlv_loop step fuel rest s
      end
  end.
Definition each_tlv {S} (step : Z -> bytes -> S -> result S LvsError) (input : bytes) (s : S) : result S LvsError :=
  tlv_loop step (length input) input s.

Definition arg_step (t : Z) (v : bytes) (s : option NameComponent * option Z) : result (option NameComponent * option Z) LvsError :=
  if t =? COMPONENT_VALUE then let? c := parse_name_component v in Ok (Some c, s.2)
  else if t =? PATTERN_TAG then let? n := read_uint v in Ok (s.1, Some n)
  else Ok s.
Definition LvsUserFnArg_decode (input : bytes) : result LvsUserFnArg LvsError :=
  let? (value, tag) := each_tlv arg_step input (None, None) in
  match value, tag with
  | Some v, _ => Ok (AValue v)
  | None, Some t => Ok (ATag t)
  | None, None => Err (Truncated (str "UserFnArg empty"))
  end.

Definition call_step (t : Z) (v : bytes) (s : option bytes * list LvsUserFnArg) : result (option bytes * list LvsUserFnArg) LvsError :=
  if t =? USER_FN_ID then let? x := read_string v in Ok (Some x, s.2)
  else if t =? FN_ARGS then let? a := LvsUserFnArg_decode v in Ok (s.1, s.2 ++ [a])
  else Ok s.
Definition LvsUserFnCall_decode (input : bytes) : result LvsUserFnCall LvsError :=
  let? (f, a) := each_tlv call_step input (None, []) in
  let? f := ok_or f (Truncated (str "UserFnCall missing FnId")) in
  Ok (mkCall f a).

Definition option_step (t : Z) (v : bytes) (s : option NameComponent * option Z * option LvsUserFnCall)
  : result (option NameComponent * option Z * option LvsUserFnCall) LvsError :=
  let '(value, tag, call) := s in
  if t =? COMPONENT_VALUE then let? c := parse_name_component v in Ok (Some c, tag, call)
  else if t =? PATTERN_TAG then let? n := read_uint v in Ok (value, Some n, call)
  else if t =? USER_FN_CALL then let? f := LvsUserFnCall_decode v in Ok (value, tag, Some f)
  else Ok s.
Definition LvsConstraintOption_decode (input : bytes) : result (LvsConstraintOption * bool) LvsError :=
  let? s := each_tlv option_step input (None, None, None) in
  match s with
  | (Some v, None, None) => Ok (OValue v, false)
  | (None, Some t, None) => Ok (OTag t, false)
  | (None, None, Some f) => Ok (OUserFn f, true)
  | _ => Err MalformedConstraintOption
  end.

Definition constraint_step (t : Z) (v : bytes) (s : list LvsConstraintOption * bool) : result (list LvsConstraintOption * bool) LvsError :=
  if t =? CONS_OPTION then let? (o, f) := LvsConstraintOption_decode v in Ok (s.1 ++ [o], s.2 || f) else Ok s.
Definition LvsConstraint_decode (input : bytes) : result (LvsConstraint * bool) LvsError :=
  let? (os, f) := each_tlv constraint_step input ([], false) in Ok (mkConstraint os, f).

Definition pattern_step (t : Z) (v : bytes) (s : option Z * option Z * list LvsConstraint * bool) : result (option Z * option Z * list LvsConstraint * bool) LvsError :=
  let '(dest, tag, cs, f) := s in
  if t =? NODE_ID then let? n := read_uint v in Ok (Some n, tag, cs, f)
  else if t =? PATTERN_TAG then let? n := read_uint v in Ok (dest, Some n, cs, f)
  else if t =? CONSTRAINT then let? (c, g) := LvsConstraint_decode v in Ok (dest, tag, cs ++ [c], f || g)
  else Ok s.
Definition LvsPatternEdge_decode (input : bytes) : result (LvsPatternEdge * bool) LvsError :=
  let? (dest, tag, cs, f) := each_tlv pattern_step input (None, None, [], false) in
  let? dest := ok_or dest (Truncated (str "PatternEdge missing dest")) in
  let? tag := ok_or tag (Truncated (str "PatternEdge missing tag")) in
  Ok (mkPatternEdge dest tag cs, f).

Definition value_step (t : Z) (v : bytes) (s : option Z * option NameComponent) : result (option Z * option NameComponent) LvsError :=
  if t =? NODE_ID then let? n := read_uint v in Ok (Some n, s.2)
  else if t =? COMPONENT_VALUE then let? c := parse_name_component v in Ok (s.1, Some c)
  else Ok s.
Definition LvsValueEdge_decode (input : bytes) : result LvsValueEdge LvsError :=
  let? (dest, value) := each_tlv value_step input (None, None) in
  let? dest := ok_or dest (Truncated (str "ValueEdge missing dest")) in
  let? value := ok_or value (Truncated (str "ValueEdge missing value")) in
  Ok (mkValueEdge dest value).

Definition NodeParts : Type := option Z * LvsNode * bool.
Definition node_step (t : Z) (v : bytes) (s : NodeParts) : result NodeParts LvsError :=
  let '(i, mkNode _ p rn ve pe sc, f) := s in
  if t =? NODE_ID then let? n := read_uint v in Ok (Some n, mkNode 0 p rn ve pe sc, f)
  else if t =? PARENT_ID then let? n := read_uint v in Ok (i, mkNode 0 (Some n) rn ve pe sc, f)
  else if t =? IDENTIFIER then let? x := read_string v in Ok (i, mkNode 0 p (rn ++ [x]) ve pe sc, f)
  else if t =? VALUE_EDGE then let? e := LvsValueEdge_decode v in Ok (i, mkNode 0 p rn (ve ++ [e]) pe sc, f)
  else if t =? PATTERN_EDGE then let? (e, g) := LvsPatternEdge_decode v in Ok (i, mkNode 0 p rn ve (pe ++ [e]) sc, f || g)
  else if t =? KEY_NODE_ID then let? n := read_uint v in Ok (i, mkNode 0 p rn ve pe (sc ++ [n]), f)
  else Ok s.
Definition LvsNode_decode (input : bytes) : result (LvsNode * bool) LvsError :=
  let? (i, n, f) := each_tlv node_step input (None, mkNode 0 None [] [] [] [], false) in
  let? i := ok_or i (Truncated (str "Node missing NodeId")) in
  Ok (mkNode i (parent n) (rule_names n) (value_edges n) (pattern_edges n) (sign_constraints n), f).

Definition symbol_step (t : Z) (v : bytes) (s : option Z * option bytes) : result (option Z * option bytes) LvsError :=
  if t =? PATTERN_TAG then let? n := read_uint v in Ok (Some n, s.2)
  else if t =? IDENTIFIER then let? x := read_string v in Ok (s.1, Some x)
  else Ok s.
Definition LvsTagSymbol_decode (input : bytes) : result LvsTagSymbol LvsError :=
  let? (tag, ident) := each_tlv symbol_step input (None, None) in
  let? tag := ok_or tag (Truncated (str "TagSymbol missing tag")) in
  let? ident := ok_or ident (Truncated (str "TagSymbol missing ident")) in
  Ok (mkTagSymbol tag ident).

(** The mutable locals of [LvsModel::decode]. *)
Record ModelParts : Type := mkParts {
  m_version : option Z; m_start : option Z; m_count : option Z; m_nodes : list LvsNode; m_symbols : list LvsTagSymbol; m_fns : bool
}.
Definition model_step (t : Z) (v : bytes) (s : ModelParts) : result ModelParts LvsError :=
  let '(mkParts ve st ct ns sy f) := s in
  if t =? VERSION then let? n := read_uint v in Ok (mkParts (Some n) st ct ns sy f)
  else if t =? NODE_ID then let? n := read_uint v in Ok (mkParts ve (Some n) ct ns sy f)
  else if t =? NAMED_PATTERN_NUM then let? n := read_uint v in Ok (mkParts ve st (Some n) ns sy f)
  else if t =? NODE then let? (n, g) := LvsNode_decode v in Ok (mkParts ve st ct (ns ++ [n]) sy (f || g))
  else if t =? TAG_SYMBOL then let? x := LvsTagSymbol_decode v in Ok (mkParts ve st ct ns (sy ++ [x]) f)
  else Ok s.

Fixpoint check_ids (idx : Z) (ns : list LvsNode) : result unit LvsError :=
  match ns with
  | [] => Ok tt
  | n :: ns => if negb (id n =? idx) then Err (NodeIdMismatch idx (id n)) else check_ids (idx + 1) ns
  end.
Fixpoint check_range (n : Z) (dests : list Z) : result unit LvsError :=
  match dests with
  | [] => Ok tt
  | d :: dests => if n <=? d then Err (NodeIdOutOfRange d n) else check_range n dests
  end.
(** The targets of a node in the order in which they are checked. *)
Definition targets (n : LvsNode) : list Z := map ve_dest (value_edges n) ++ map pe_dest (pattern_edges n) ++ sign_constraints n.

Definition decode (input : bytes) : result LvsModel LvsError :=
  let? s := each_tlv model_step input (mkParts None None None [] [] false) in
  let? version := ok_or (m_version s) (Truncated (str "missing Version")) in
  if negb (version =? LVS_VERSION) then Err (UnsupportedVersion version LVS_VERSION)
  else
    let? start_id := ok_or (m_start s) (Truncated (str "missing StartId")) in
    let? cnt := ok_or (m_count s) (Truncated (str "missing NamedPatternCnt")) in
    let ns := m_nodes s in
    let? _ := check_ids 0 ns in
    let n_nodes := zlen ns in
    let? _ := check_range n_nodes (concat (map targets ns)) in
    if (n_nodes <=? start_id) && (0 <? n_nodes) then Err (NodeIdOutOfRange start_id n_nodes)
    else Ok (mkModel version start_id cnt ns (m_symbols s) (m_fns s)).

(** [user_fn_ids]: the names, with repetitions. *)
Definition user_fn_ids (m : LvsModel) : list bytes :=
  concat (map (fun n => concat (map (fun pe => concat (map (fun c => concat (map (fun o =>
    match o with OUserFn call => [fn_id call] | _ => [] end) (options c))) (constraints pe))) (pattern_edges n))) (nodes m)).

(** ** Evaluation *)

Definition LvsUserFn : Type := NameComponent -> list NameComponent -> bool.
Definition UserFnRegistry : Type := gmap bytes LvsUserFn.
Definition registry_new : UserFnRegistry := ∅.
Definition register (r : UserFnRegistry) (f : bytes) (h : LvsUserFn) : UserFnRegistry := <[f := h]> r.
Definition eq_fn (comp : NameComponent) (args : list NameComponent) : bool :=
  match args with [a] => bool_decide (a = comp) | _ => false end.
Definition with_builtins : UserFnRegistry := register registry_new (str "$eq") eq_fn.
Definition covers (r : UserFnRegistry) (f : bytes) : bool := bool_decide (is_Some (r !! f)).

Definition Bindings : Type := gmap Z NameComponent.

Fixpoint resolve_args (b : Bindings) (l : list LvsUserFnArg) : option (list NameComponent) :=
  match l with
  | [] => Some []
  | AValue c :: l => let! r := resolve_args b l in Some (c :: r)
  | ATag t :: l => let! c := b !! t in let! r := resolve_args b l in Some (c :: r)
  end.

Definition option_matches (o : LvsConstraintOption) (comp : NameComponent) (b : Bindings) (r : UserFnRegistry) : bool :=
  match o with
  | OValue v => bool_decide (v = comp)
  | OTag t => match b !! t with Some prev => bool_decide (prev = comp) | None => false end
  | OUserFn call =>
      match r !! fn_id call with
      | None => false
      | Some handler => match resolve_args b (args call) with Some a => handler comp a | None => false end
      end
  end.

Definition pattern_edge_matches (e : LvsPatternEdge) (comp : NameComponent) (b : Bindings) (r : UserFnRegistry) : bool :=
  forallb (fun c => existsb (fun o => option_matches o comp b r) (options c)) (constraints e).

(** The components are those from [depth] on.  The budget and the endings found so
    far are threaded through the calls. *)
Definition Walk : Type := Z * list (Z * Bindings).

Fixpoint walk_inner (m : LvsModel) (r : UserFnRegistry) (comps : list NameComponent) (node_id : Z) (b : Bindings) (w : Walk) : Walk :=
  let '(budget, out) := w in
  if (budget =? 0) || (MAX_WALK_ENDINGS <=? zlen out) then w
  else
    let budget := budget - 1 in
    match comps with
    | [] => (budget, out ++ [(node_id, b)])
    | comp :: rest =>
        match nodes m !! Z.to_nat node_id with
        | None => (budget, out)
        | Some node =>
            let w := fold_left (fun w ve => if bool_decide (ve_value ve = comp) then walk_inner m r rest (ve_dest ve) b w else w) (value_edges node) (budget, out) in
            fold_left (fun w pe => if pattern_edge_matches pe comp b r then walk_inner m r rest (pe_dest pe) (<[pe_tag pe := comp]> b) w else w) (pattern_edges node) w
        end
    end.

Definition walk (m : LvsModel) (name : Name) (r : UserFnRegistry) : list (Z * Bindings) :=
  match nodes m with [] => [] | _ => (walk_inner m r name (start_id m) ∅ (MAX_WALK_STEPS, [])).2 end.

Definition check_with (m : LvsModel) (data_name key_name : Name) (r : UserFnRegistry) : bool :=
  let data_endings := walk m data_name r in
  let key_endings := walk m key_name r in
  match data_endings, key_endings with
  | [], _ | _, [] => false
  | _, _ =>
      existsb (fun d =>
        match nodes m !! Z.to_nat d.1 with
        | None => false
        | Some node => existsb (fun k => existsb (Z.eqb k.1) (sign_constraints node)) key_endings
        end) data_endings
  end.

Definition check (m : LvsModel) (data_name key_name : Name) : bool := check_with m data_name key_name registry_new.

End lvs.

(** ** Standard-library strings *)

Definition strip_suffix (suf s : bytes) : option bytes := let! r := strip_prefix (rev suf) (rev s) in Some (rev r).
Definition split (pat s : bytes) : list bytes := split_str (S (length s)) pat s.
Fixpoint split_once (pat s : bytes) : option (bytes * bytes) :=
  match strip_prefix pat s with
  | Some r => Some ([], r)
  | None => match s with [] => None | c :: s => let! (a, b) := split_once pat s in Some (c :: a, b) end
  end.

(** [str::lines]: a line ends with LF or CR LF; what follows the last LF is a line
    unless it is empty. *)
Fixpoint lines_of (pieces : list bytes) : list bytes :=
  match pieces with
  | [] => []
  | [last] => match last with [] => [] | _ => [last] end
  | p :: pieces => default p (strip_suffix [13] p) :: lines_of pieces
  end.
Definition lines (s : bytes) : list bytes := lines_of (split [10] s).

Module lvs_compile.
Import lvs.

Inductive LvsCompileError : Type :=
| Syntax (line : Z) (msg : bytes)
| UnknownSigner (rule signer : bytes)
| DuplicateRule (rule : bytes)
| Lowering (e : LvsError).

Inductive Comp : Type := Literal (v : bytes) | Var (name : option bytes).
Record Rule : Type := mkRule { rule_id : bytes; pattern : list Comp; signers : list bytes }.

(** 34 is the quotation mark, 95 the underscore. *)
Definition parse_comp (seg : bytes) : option Comp :=
  match strip_prefix [34] seg with
  | Some inner => let! lit := strip_suffix [34] inner in Some (Literal lit)
  | None =>
      match strip_prefix [95] seg with
      | Some name => Some (Var (match name with [] => None | _ => Some name end))
      | None => None
      end
  end.

Definition not_empty (s : bytes) : bool := negb (zlen s =? 0).

Fixpoint parse_pattern (segs : list bytes) : option (list Comp) :=
  match segs with
  | [] => Some []
  | seg :: segs => let! c := parse_comp seg in let! cs := parse_pattern segs in Some (c :: cs)
  end.

(** One turn of the loop over the lines. *)
Definition parse_line (line : Z) (raw : bytes) (rules : list Rule) : result (list Rule) LvsCompileError :=
  let text := trim (hd [] (split (str "//") raw)) in
  match text with
  | [] => Ok rules
  | _ =>
      let? id_rest := ok_or (strip_prefix (str "#") text) (Syntax line (str "rule must start with '#'")) in
      let? (id, rest) := ok_or (split_once (str ":") id_rest) (Syntax line (str "expected ':' after rule id")) in
      let id := trim id in
      match id with
      | [] => Err (Syntax line (str "empty rule id"))
      | _ =>
          let '(pattern_str, signers) :=
            match split_once (str "<=") rest with
            | Some (p, s) =>
                (p, map (fun t => default t (strip_prefix (str "#") t)) (List.filter not_empty (map trim (split (str ",") s))))
            | None => (rest, [])
            end in
          let? pattern := ok_or (parse_pattern (List.filter not_empty (map trim (split (str "/") pattern_str))))
                            (Syntax line (str "malformed component")) in
          match pattern with
          | [] => Err (Syntax line (str "rule has no name components"))
          | _ =>
              if existsb (fun r => bool_decide (rule_id r = id)) rules then Err (DuplicateRule id)
              else Ok (rules ++ [mkRule id pattern signers])
          end
      end
  end.

Fixpoint parse_lines (i : Z) (ls : list bytes) (rules : list Rule) : result (list Rule) LvsCompileError :=
  match ls with
  | [] => Ok rules
  | raw :: ls => let? rules := parse_line (i + 1) raw rules in parse_lines (i + 1) ls rules
  end.
Definition parse (source : bytes) : result (list Rule) LvsCompileError := parse_lines 0 (lines source) [].

(** ** Lowering *)

Record NodeB : Type := mkNodeB { b_values : list (bytes * Z); b_patterns : list Z; b_tags : list Z; b_keys : list Z }.
Definition empty_node : NodeB := mkNodeB [] [] [] [].
Definition push_value (v : bytes) (dest : Z) (n : NodeB) : NodeB := mkNodeB (b_values n ++ [(v, dest)]) (b_patterns n) (b_tags n) (b_keys n).
Definition push_pattern (dest tag : Z) (n : NodeB) : NodeB := mkNodeB (b_values n) (b_patterns n ++ [dest]) (b_tags n ++ [tag]) (b_keys n).
Definition push_key (k : Z) (n : NodeB) : NodeB := mkNodeB (b_values n) (b_patterns n) (b_tags n) (b_keys n ++ [k]).

(** The locals of [lower]. *)
Record Lower : Type := mkLower { l_nodes : list NodeB; terminal : gmap bytes Z; next_tag : Z; l_symbols : list (Z * bytes) }.

Definition lower_comp (st : Lower * Z) (c : Comp) : Lower * Z :=
  let '(l, cur) := st in
  let dest := zlen (l_nodes l) in
  let nodes := l_nodes l ++ [empty_node] in
  match c with
  | Literal v => (mkLower (alter (push_value v dest) (Z.to_nat cur) nodes) (terminal l) (next_tag l) (l_symbols l), dest)
  | Var name =>
      (mkLower (alter (push_pattern dest (next_tag l)) (Z.to_nat cur) nodes) (terminal l) (next_tag l + 1)
         (match name with Some x => l_symbols l ++ [(next_tag l, x)] | None => l_symbols l end), dest)
  end.
Definition lower_rule (l : Lower) (r : Rule) : Lower :=
  let '(l, cur) := fold_left lower_comp (pattern r) (l, 0) in
  mkLower (l_nodes l) (<[rule_id r := cur]> (terminal l)) (next_tag l) (l_symbols l).
Definition lower_rules (rules : list Rule) : Lower := fold_left lower_rule rules (mkLower [empty_node] ∅ 0 []).

(** The second pass; the terminal of a rule that was lowered is there. *)
Fixpoint sign_signers (t : gmap bytes Z) (rule : bytes) (data_node : Z) (ss : list bytes) (ns : list NodeB) : result (list NodeB) LvsCompileError :=
  match ss with
  | [] => Ok ns
  | s :: ss =>
      let? key_node := ok_or (t !! s) (UnknownSigner rule s) in
      sign_signers t rule data_node ss (alter (push_key key_node) (Z.to_nat data_node) ns)
  end.
Fixpoint sign_rules (t : gmap bytes Z) (rules : list Rule) (ns : list NodeB) : result (list NodeB) LvsCompileError :=
  match rules with
  | [] => Ok ns
  | r :: rules =>
      let? ns := sign_signers t (rule_id r) (default 0 (t !! rule_id r)) (signers r) ns in
      sign_rules t rules ns
  end.

Definition write_tlv (buf : bytes) (typ : Z) (value : bytes) : bytes := buf ++ TlvWriter.finish (TlvWriter.write_tlv TlvWriter.new typ value).
Definition write_uint (buf : bytes) (typ value : Z) : bytes :=
  write_tlv buf typ
    (if value <=? u8_max then be_encode 1 value else if value <=? u16_max then be_encode 2 value
     else if value <=? u32_max then be_encode 4 value else be_encode 8 value).
Definition write_component_value (buf value : bytes) : bytes :=
  write_tlv buf type_number.COMPONENT_VALUE ([0x08; wrap 8 (zlen value)] ++ value).

Definition emit_value_edge (nb : bytes) (e : bytes * Z) : bytes :=
  let ve := write_uint [] type_number.NODE_ID e.2 in
  let ve := write_component_value ve e.1 in
  write_tlv nb type_number.VALUE_EDGE ve.
Definition emit_pattern_edge (nb : bytes) (e : Z * Z) : bytes :=
  let pe := write_uint [] type_number.NODE_ID e.1 in
  let pe := write_uint pe type_number.PATTERN_TAG e.2 in
  write_tlv nb type_number.PATTERN_EDGE pe.
Definition emit_node (id : Z) (n : NodeB) : bytes :=
  let nb := write_uint [] type_number.NODE_ID id in
  let nb := fold_left emit_value_edge (b_values n) nb in
  let nb := fold_left emit_pattern_edge (combine (b_patterns n) (b_tags n)) nb in
  fold_left (fun nb k => write_uint nb type_number.KEY_NODE_ID k) (b_keys n) nb.
Definition emit_symbol (out : bytes) (s : Z * bytes) : bytes :=
  let ts := write_uint [] type_number.PATTERN_TAG s.1 in
  let ts := write_tlv ts type_number.IDENTIFIER s.2 in
  write_tlv out type_number.TAG_SYMBOL ts.
Fixpoint emit_nodes (id : Z) (ns : list NodeB) (out : bytes) : bytes :=
  match ns with
  | [] => out
  | n :: ns => emit_nodes (id + 1) ns (write_tlv out type_number.NODE (emit_node id n))
  end.
Definition emit (ns : list NodeB) (tag_count : Z) (symbols : list (Z * bytes)) : bytes :=
  let out := write_uint [] type_number.VERSION LVS_VERSION in
  let out := write_uint out type_number.NODE_ID 0 in
  let out := write_uint out type_number.NAMED_PATTERN_NUM tag_count in
  let out := emit_nodes 0 ns out in
  fold_left emit_symbol symbols out.

Definition lower (rules : list Rule) : result bytes LvsCompileError :=
  let l := lower_rules rules in
  let? ns := sign_rules (terminal l) rules (l_nodes l) in
  Ok (emit ns (next_tag l) (l_symbols l)).

Definition compile (source : bytes) : result LvsModel LvsCompileError :=
  let? rules := parse source in
  let? wire := lower rules in
  map_err Lowering (decode wire).
Definition compile_to_binary (source : bytes) : result bytes LvsCompileError :=
  let? rules := parse source in lower rules.

End lvs_compile.

(** [String::from_utf8_lossy]: every maximal part of an invalid sequence becomes
    U+FFFD.  [utf8_step] is the length of the next part and whether it is valid. *)
Definition utf8_step (x : Z) (r : bytes) : nat * bool :=
  let second lo hi := match r with y :: _ => between y lo hi | [] => false end in
  let third := match r with _ :: y :: _ => cont y | _ => false end in
  let fourth := match r with _ :: _ :: y :: _ => cont y | _ => false end in
  if x <=? 0x7F then (1%nat, true)
  else if between x 0xC2 0xDF then if second 0x80 0xBF then (2%nat, true) else (1%nat, false)
  else if between x 0xE0 0xEF then
    if negb (second (if x =? 0xE0 then 0xA0 else 0x80) (if x =? 0xED then 0x9F else 0xBF)) then (1%nat, false)
    else if third then (3%nat, true) else (2%nat, false)
  else if between x 0xF0 0xF4 then
    if negb (second (if x =? 0xF0 then 0x90 else 0x80) (if x =? 0xF4 then 0x8F else 0xBF)) then (1%nat, false)
    else if negb third then (2%nat, false) else if fourth then (4%nat, true) else (3%nat, false)
  else (1%nat, false).
Fixpoint lossy (fuel : nat) (b : bytes) : bytes :=
  match fuel with
  | O => []
  | S fuel =>
      match b with
      | [] => []
      | x :: r =>
          let '(n, ok) := utf8_step x r in
          (if ok then take n b else [0xEF; 0xBF; 0xBD]) ++ lossy fuel (drop n b)
      end
  end.
Definition from_utf8_lossy (b : bytes) : bytes := lossy (length b) b.

Module trust_schema.

Inductive PatternParseError : Type := Empty | UnclosedCapture | MultiCaptureNotLast | BadRuleSeparator.
Inductive PatternComponent : Type := Literal (c : NameComponent) | Capture (var : bytes) | MultiCapture (var : bytes).
Definition NamePattern : Type := list PatternComponent.

(** 47 is the slash, 60 and 62 are the angle brackets, 42 is the star. *)
Definition parse_part (last : bool) (part : bytes) : result PatternComponent PatternParseError :=
  match strip_prefix [60] part with
  | Some inner =>
      let? var := ok_or (strip_suffix [62] inner) UnclosedCapture in
      match strip_prefix [42; 42] var with
      | Some multi_var => if negb last then Err MultiCaptureNotLast else Ok (MultiCapture multi_var)
      | None => Ok (Capture var)
      end
  | None => Ok (Literal (Component.generic part))
  end.
Fixpoint parse_parts (parts : list bytes) : result (list PatternComponent) PatternParseError :=
  match parts with
  | [] => Ok []
  | part :: parts =>
      let? c := parse_part (match parts with [] => true | _ => false end) part in
      let? cs := parse_parts parts in
      Ok (c :: cs)
  end.
Definition parse (s : bytes) : result NamePattern PatternParseError :=
  let s := trim s in
  match s with
  | [] => Err Empty
  | _ =>
      let s := default s (strip_prefix [47] s) in
      match s with [] => Ok [] | _ => parse_parts (split [47] s) end
  end.

Definition Bindings : Type := gmap bytes NameComponent.

(** The components are those from [name_idx] on; the bindings are those after the
    call, on a failure too. *)
Fixpoint matches (p : NamePattern) (name : list NameComponent) (b : Bindings) : bool * Bindings :=
  match p with
  | [] => (match name with [] => true | _ => false end, b)
  | Literal c :: p =>
      match name with
      | x :: name => if bool_decide (x = c) then matches p name b else (false, b)
      | [] => (false, b)
      end
  | Capture var :: p =>
      match name with
      | [] => (false, b)
      | comp :: name =>
          match b !! var with
          | Some existing => if bool_decide (existing = comp) then matches p name b else (false, b)
          | None => matches p name (<[var := comp]> b)
          end
      end
  | MultiCapture _ :: p => matches p [] b
  end.

Record SchemaRule : Type := mkRule { data_pattern : NamePattern; key_pattern : NamePattern }.
Definition rule_parse (s : bytes) : result SchemaRule PatternParseError :=
  match split_once (str "=>") s with
  | None => Err BadRuleSeparator
  | Some (d, k) =>
      let? dp := parse (trim d) in
      let? kp := parse (trim k) in
      Ok (mkRule dp kp)
  end.
Definition rule_check (r : SchemaRule) (data_name key_name : Name) : bool :=
  let '(ok, b) := matches (data_pattern r) data_name ∅ in
  ok && (matches (key_pattern r) key_name b).1.

Definition display_component (c : PatternComponent) : bytes :=
  [47] ++ match c with
          | Literal nc => from_utf8_lossy (value nc)
          | Capture var => [60] ++ var ++ [62]
          | MultiCapture var => [60; 42; 42] ++ var ++ [62]
          end.
Definition display (p : NamePattern) : bytes := match p with [] => [47] | _ => concat (map display_component p) end.
Definition rule_display (r : SchemaRule) : bytes := display (data_pattern r) ++ str " => " ++ display (key_pattern r).

Record TrustSchema : Type := mkSchema { rules : list SchemaRule; lvs_model : option lvs.LvsModel; user_fns : lvs.UserFnRegistry }.
Definition new : TrustSchema := mkSchema [] None lvs.registry_new.
Definition add_rule (s : TrustSchema) (r : SchemaRule) : TrustSchema := mkSchema (rules s ++ [r]) (lvs_model s) (user_fns s).
Definition from_lvs_binary (wire : bytes) : result TrustSchema lvs.LvsError :=
  let? model := lvs.decode wire in
  if lvs.uses_user_functions model then Err lvs.UserFunctionsNotSupported
  else Ok (mkSchema [] (Some model) lvs.registry_new).
Definition from_lvs_binary_with_user_fns (wire : bytes) (registry : lvs.UserFnRegistry) : result TrustSchema lvs.LvsError :=
  let? model := lvs.decode wire in
  if existsb (fun f => negb (lvs.covers registry f)) (lvs.user_fn_ids model) then Err lvs.UserFunctionsNotSupported
  else Ok (mkSchema [] (Some model) registry).
Definition allows (s : TrustSchema) (data_name key_name : Name) : bool :=
  existsb (fun r => rule_check r data_name key_name) (rules s) ||
  match lvs_model s with Some m => lvs.check_with m data_name key_name (user_fns s) | None => false end.
(** [Vec::remove] panics out of range. *)
Definition remove_rule (s : TrustSchema) (index : Z) : option (SchemaRule * TrustSchema) :=
  let! r := rules s !! Z.to_nat index in
  Some (r, mkSchema (take (Z.to_nat index) (rules s) ++ drop (S (Z.to_nat index)) (rules s)) (lvs_model s) (user_fns s)).
Definition clear (s : TrustSchema) : TrustSchema := mkSchema [] None (user_fns s).
Definition accept_all : TrustSchema := add_rule new (mkRule [MultiCapture (str "_")] [MultiCapture (str "_")]).
Definition hierarchical : TrustSchema :=
  add_rule new (mkRule [Capture (str "org"); MultiCapture (str "_data")] [Capture (str "org"); MultiCapture (str "_key")]).
Definition authorize (schema : TrustSchema) (action principal : Name) : bool := allows schema action principal.

End trust_schema.

Module validation_policy.
Import trust_schema.

Inductive TrustError : Type :=
| InvalidSignature
| InvalidKey
| CertNotFound (name : bytes)
| ChainTooDeep (limit : Z)
| ChainCycle (name : bytes)
| SchemaMismatch
| KeyStore (what : bytes)
| UnsupportedSignatureType (code : Z) (name : bytes)
| Revoked (name : bytes).
Inductive PolicyVerdict : Type := Allow | NeedCert (n : Name) | Deny (e : TrustError).
Definition is_deny (v : PolicyVerdict) : bool := match v with Deny _ => true | _ => false end.
Definition is_allow (v : PolicyVerdict) : bool := match v with Allow => true | _ => false end.

(** A policy sees the name of the Data, the key locator and the depth in the chain. *)
Definition ValidationPolicy : Type := Name -> Name -> Z -> PolicyVerdict.

Definition AcceptAllPolicy : ValidationPolicy := fun _ _ _ => Allow.
Definition HierarchicalPolicy (schema : TrustSchema) : ValidationPolicy := fun data key _ =>
  if allows schema data key then Allow else Deny SchemaMismatch.
Definition LvsPolicy (schema : lvs.LvsModel) : ValidationPolicy := fun data key _ =>
  if lvs.check schema data key then Allow else Deny SchemaMismatch.

Inductive ConfigChecker : Type := Hierarchical | KeyLocatorPrefix (prefix : Name).
Definition checker_check (c : ConfigChecker) (data key : Name) : PolicyVerdict :=
  match c with
  | Hierarchical => if allows hierarchical data key then Allow else Deny SchemaMismatch
  | KeyLocatorPrefix prefix => if NameOps.has_prefix key prefix then Allow else Deny SchemaMismatch
  end.
Record ConfigRule : Type := mkConfigRule { data_prefix : Name; checker : ConfigChecker }.
Definition config_matches (r : ConfigRule) (data : Name) : bool := NameOps.has_prefix data (data_prefix r).
Definition ConfigPolicy (rules : list ConfigRule) : ValidationPolicy := fun data key _ =>
  match List.find (fun r => config_matches r data) rules with
  | Some r => checker_check (checker r) data key
  | None => Deny SchemaMismatch
  end.
Fixpoint ChainedPolicy (policies : list ValidationPolicy) (data key : Name) (depth : Z) : PolicyVerdict :=
  match policies with
  | [] => Allow
  | p :: policies =>
      match p data key depth with
      | Deny e => Deny e
      | NeedCert n => NeedCert n
      | Allow => ChainedPolicy policies data key depth
      end
  end.

End validation_policy.
