(* ===== verification/LvsCorrect.v ===== *)
(** * Correctness of the trust schemas

    What the walk of an LVS graph decides ([lvs_check_spec]), what reading a binary
    schema establishes ([lvs_decode_wf]), that the compiler produces a schema that
    permits what its source says ([lvs_compile_correct]), and what a rule of the
    textual grammar means ([rule_check_iff]). *)
From stdpp Require Import gmap.
From S2P Require Import Prelude Tlv Name NameUri Face Mgmt Lvs.
Import lvs lvs.type_number.
#[local] Open Scope Z_scope.

(** ** Walking the graph *)

Section walk.
Context (m : LvsModel) (r : UserFnRegistry).

(** A name leads from a node to a node. *)
Inductive reaches : list NameComponent -> Z -> Bindings -> Z -> Prop :=
| reaches_end n b : reaches [] n b n
| reaches_value comp rest n b node ve n' :
    nodes m !! Z.to_nat n = Some node -> ve ∈ value_edges node -> ve_value ve = comp ->
    reaches rest (ve_dest ve) b n' -> reaches (comp :: rest) n b n'
| reaches_pattern comp rest n b node pe n' :
    nodes m !! Z.to_nat n = Some node -> pe ∈ pattern_edges node -> pattern_edge_matches pe comp b r = true ->
    reaches rest (pe_dest pe) (<[pe_tag pe := comp]> b) n' -> reaches (comp :: rest) n b n'.

(** Where one component leads, what the walk would find without limits, and how
    many nodes it would visit. *)
Definition next (n : Z) (comp : NameComponent) (b : Bindings) : list (Z * Bindings) :=
  match nodes m !! Z.to_nat n with
  | None => []
  | Some node =>
      map (fun ve => (ve_dest ve, b)) (List.filter (fun ve => bool_decide (ve_value ve = comp)) (value_edges node)) ++
      map (fun pe => (pe_dest pe, <[pe_tag pe := comp]> b)) (List.filter (fun pe => pattern_edge_matches pe comp b r) (pattern_edges node))
  end.
Fixpoint endings (comps : list NameComponent) (n : Z) (b : Bindings) : list (Z * Bindings) :=
  match comps with
  | [] => [(n, b)]
  | comp :: rest => concat (map (fun e => endings rest e.1 e.2) (next n comp b))
  end.
Definition sum (l : list Z) : Z := foldr Z.add 0 l.
Fixpoint steps (comps : list NameComponent) (n : Z) (b : Bindings) : Z :=
  1 + match comps with [] => 0 | comp :: rest => sum (map (fun e => steps rest e.1 e.2) (next n comp b)) end.

Lemma sum_nonneg l : Forall (fun x => 0 <= x) l -> 0 <= sum l.
Proof. induction 1; simpl; lia. Qed.
Lemma steps_pos comps n b : 1 <= steps comps n b.
Proof.
  revert n b. induction comps as [|comp rest IH]; intros n b; simpl; [lia|].
  pose proof (sum_nonneg (map (fun e => steps rest e.1 e.2) (next n comp b))) as Hs.
  enough (0 <= sum (map (fun e => steps rest e.1 e.2) (next n comp b))) by lia. apply Hs. apply Forall_map, List.Forall_forall.
  intros e _. specialize (IH e.1 e.2). simpl. lia.
Qed.

(** What a part of the walk does to the budget and the endings found. *)
Definition walks (w w' : Walk) (es : list (Z * Bindings)) (k : Z) : Prop :=
  (forall e, e ∈ w'.2 -> e ∈ w.2 \/ e ∈ es) /\ 0 <= w'.1 <= w.1 /\ zlen w'.2 <= MAX_WALK_ENDINGS /\
  (k <= w.1 -> w.1 - k <= w'.1 /\ w'.2 = take 256 (w.2 ++ es)).

Lemma walks_none w : 0 <= w.1 -> zlen w.2 <= MAX_WALK_ENDINGS -> walks w w [] 0.
Proof.
  intros H1 H2. unfold walks. split_conj; try lia; try done; [auto|]. intros _. split; [lia|].
  rewrite app_nil_r, take_ge; [done|]. unfold zlen, MAX_WALK_ENDINGS in *. lia.
Qed.
Lemma walks_trans w w1 w2 es1 es2 k1 k2 : 0 <= k2 -> walks w w1 es1 k1 -> walks w1 w2 es2 k2 -> walks w w2 (es1 ++ es2) (k1 + k2).
Proof.
  intros Hk2 (Hs1 & Hb1 & Hz1 & Hc1) (Hs2 & Hb2 & Hz2 & Hc2). unfold walks. split_conj; [|lia|lia|done|].
  - intros e He. rewrite elem_of_app. destruct (Hs2 e He) as [He'|]; [|auto]. destruct (Hs1 e He'); auto.
  - intros Hk. destruct (Hc1 ltac:(lia)) as [Hk1 He1]. destruct (Hc2 ltac:(lia)) as [Hk2' He2]. split; [lia|].
    rewrite He2, He1, app_assoc. generalize (w.2 ++ es1). intros l. rewrite !take_app, take_take, length_take. f_equal.
    destruct (decide (length l <= 256)%nat); [do 2 f_equal; lia|]. rewrite !(proj2 (Nat.sub_0_le _ _)) by lia. done.
Qed.
(** A part that the limits cut off. *)
Lemma walks_cut w es k : 0 < k -> 0 <= w.1 -> zlen w.2 <= MAX_WALK_ENDINGS -> (w.1 =? 0) || (MAX_WALK_ENDINGS <=? zlen w.2) = true -> walks w w es k.
Proof.
  intros Hk H1 H2 Hl. unfold walks. split_conj; try lia; try done; [auto|]. intros Hk'. split; [lia|].
  assert (length w.2 = 256%nat) as Hlen by (unfold zlen, MAX_WALK_ENDINGS in *; lia). by rewrite take_app_length'.
Qed.

Lemma fold_left_filter_map {A B S} (f : A -> bool) (g : A -> B) (h : S -> B -> S) l s :
  fold_left (fun s a => if f a then h s (g a) else s) l s = fold_left h (map g (List.filter f l)) s.
Proof. revert s. induction l as [|a l IH]; intros s; simpl; [done|]. destruct (f a); simpl; apply IH. Qed.

Lemma walk_inner_next comp rest n b budget out :
  walk_inner m r (comp :: rest) n b (budget, out) =
  if (budget =? 0) || (MAX_WALK_ENDINGS <=? zlen out) then (budget, out)
  else fold_left (fun w e => walk_inner m r rest e.1 e.2 w) (next n comp b) (budget - 1, out).
Proof.
  cbn [walk_inner]. destruct (_ || _); [done|]. unfold next. destruct (nodes m !! Z.to_nat n) as [node|]; [|done].
  rewrite fold_left_app, <- !fold_left_filter_map. done.
Qed.

Lemma walk_fold (f : Walk -> Z * Bindings -> Walk) (E : Z * Bindings -> list (Z * Bindings)) (K : Z * Bindings -> Z) es :
  (forall e, 0 <= K e) -> (forall e w, 0 <= w.1 -> zlen w.2 <= MAX_WALK_ENDINGS -> walks w (f w e) (E e) (K e)) ->
  forall w, 0 <= w.1 -> zlen w.2 <= MAX_WALK_ENDINGS -> walks w (fold_left f es w) (concat (map E es)) (sum (map K es)).
Proof.
  intros HK Hf. induction es as [|e es IH]; intros w H1 H2; simpl; [by apply walks_none|].
  pose proof (Hf e w H1 H2) as Hw. pose proof Hw as (_ & Hb & Hz & _).
  eapply walks_trans; [|exact Hw|apply IH; lia]. apply sum_nonneg, Forall_map, List.Forall_forall. intros x _. apply HK.
Qed.

Lemma walk_inner_walks comps n b w : 0 <= w.1 -> zlen w.2 <= MAX_WALK_ENDINGS ->
  walks w (walk_inner m r comps n b w) (endings comps n b) (steps comps n b).
Proof.
  revert n b w. induction comps as [|comp rest IH]; intros n b [budget out] H1 H2; simpl in H1, H2.
  - cbn [walk_inner endings steps]. destruct (_ || _) eqn:Hl; [by apply walks_cut|].
    assert (zlen out < MAX_WALK_ENDINGS) by lia. unfold walks. simpl. split_conj; try lia.
    + intros e. by rewrite elem_of_app.
    + zlen_lia.
    + intros Hk. split; [lia|]. rewrite take_ge; [done|]. rewrite length_app. simpl. unfold zlen, MAX_WALK_ENDINGS in *. lia.
  - rewrite walk_inner_next. pose proof (steps_pos (comp :: rest) n b). destruct (_ || _) eqn:Hl; [apply walks_cut; (done || lia)|].
    pose proof (walk_fold (fun w e => walk_inner m r rest e.1 e.2 w) (fun e => endings rest e.1 e.2) (fun e => steps rest e.1 e.2) (next n comp b)) as Hw.
    destruct (Hw ltac:(intros e; pose proof (steps_pos rest e.1 e.2); lia) ltac:(intros e w Hw1 Hw2; by apply IH) (budget - 1, out)) as (Hs & Hb & Hz & Hc);
      [simpl; lia|done|]. unfold walks. simpl in *. split_conj; [done|lia|lia|done|]. intros Hk. destruct (Hc ltac:(lia)) as [Hc1 Hc2]. split; [lia|done].
Qed.

Lemma next_elem n comp b e : e ∈ next n comp b <->
  exists node, nodes m !! Z.to_nat n = Some node /\
    ((exists ve, ve ∈ value_edges node /\ ve_value ve = comp /\ e = (ve_dest ve, b)) \/
     (exists pe, pe ∈ pattern_edges node /\ pattern_edge_matches pe comp b r = true /\ e = (pe_dest pe, <[pe_tag pe := comp]> b))).
Proof.
  unfold next. destruct (nodes m !! Z.to_nat n) as [node|].
  2: { rewrite elem_of_nil. split; [done|]. by intros (? & ? & _). }
  rewrite elem_of_app, !list_elem_of_fmap. setoid_rewrite list_elem_of_In. setoid_rewrite List.filter_In. setoid_rewrite bool_decide_eq_true.
  split.
  - intros [(ve & -> & H1 & H2)|(pe & -> & H1 & H2)]; exists node; eauto 10.
  - intros (node' & [= <-] & [(ve & H1 & H2 & ->)|(pe & H1 & H2 & ->)]); eauto 10.
Qed.

Lemma endings_reaches comps n b n' : (exists b', (n', b') ∈ endings comps n b) <-> reaches comps n b n'.
Proof.
  split.
  - revert n b. induction comps as [|comp rest IH]; intros n b (b' & Hb'); simpl in Hb'.
    + apply list_elem_of_singleton in Hb'. injection Hb' as -> ->. constructor.
    + apply list_elem_of_In, in_concat in Hb' as (l & (e & <- & He)%in_map_iff & Hl). apply list_elem_of_In in He, Hl.
      apply next_elem in He as (node & Hn & [(ve & H1 & H2 & ->)|(pe & H1 & H2 & ->)]).
      * eapply reaches_value; eauto.
      * eapply reaches_pattern; eauto.
  - assert (Hgo : forall e comp rest n b b', e ∈ next n comp b -> (n', b') ∈ endings rest e.1 e.2 -> (n', b') ∈ endings (comp :: rest) n b).
    { intros e comp rest n1 b1 b' He Hb'. simpl. apply list_elem_of_In, in_concat. exists (endings rest e.1 e.2). split; [|by apply list_elem_of_In].
      apply in_map_iff. exists e. split; [done|]. by apply list_elem_of_In. }
    induction 1 as [n b|comp rest n b node ve n' Hn Hve Hv Hr IH|comp rest n b node pe n' Hn Hpe Hm Hr IH].
    + exists b. by apply list_elem_of_singleton.
    + destruct (IH Hgo) as [b' Hb']. exists b'. eapply (Hgo (ve_dest ve, b)); [|exact Hb']. apply next_elem. eauto 10.
    + destruct (IH Hgo) as [b' Hb']. exists b'. eapply (Hgo (pe_dest pe, <[pe_tag pe := comp]> b)); [|exact Hb']. apply next_elem. eauto 10.
Qed.
End walk.

(** The key may sign the data: both names lead somewhere and a sign constraint
    connects the two nodes. *)
Definition permitted (m : LvsModel) (r : UserFnRegistry) (data_name key_name : Name) : Prop :=
  exists d k node, reaches m r data_name (start_id m) ∅ d /\ nodes m !! Z.to_nat d = Some node /\
    k ∈ sign_constraints node /\ reaches m r key_name (start_id m) ∅ k.

(** The walk of a name stays within the limits. *)
Definition within_limits (m : LvsModel) (r : UserFnRegistry) (name : Name) : Prop :=
  steps m r name (start_id m) ∅ <= MAX_WALK_STEPS /\ zlen (endings m r name (start_id m) ∅) <= MAX_WALK_ENDINGS.

Lemma walk_sound m r name d b : (d, b) ∈ walk m name r -> reaches m r name (start_id m) ∅ d.
Proof.
  unfold walk. destruct (nodes m); [by intros ?%elem_of_nil|]. intros He.
  destruct (walk_inner_walks m r name (start_id m) ∅ (MAX_WALK_STEPS, [])) as (Hs & _); [done|done|].
  apply Hs in He as [He|He]; [by apply elem_of_nil in He|]. apply endings_reaches. by exists b.
Qed.
Lemma walk_complete m r name d : nodes m <> [] -> within_limits m r name -> reaches m r name (start_id m) ∅ d -> exists b, (d, b) ∈ walk m name r.
Proof.
  intros Hne [Hst Hen] (b & Hb)%endings_reaches. exists b. unfold walk. destruct (nodes m); [done|].
  destruct (walk_inner_walks m r name (start_id m) ∅ (MAX_WALK_STEPS, [])) as (_ & _ & _ & Hc); [done|done|].
  destruct (Hc Hst) as [_ ->]. simpl. rewrite take_ge; [done|]. unfold zlen, MAX_WALK_ENDINGS in Hen. lia.
Qed.

Lemma check_with_iff m data_name key_name r : check_with m data_name key_name r = true <->
  exists d b k b' node, (d, b) ∈ walk m data_name r /\ nodes m !! Z.to_nat d = Some node /\ k ∈ sign_constraints node /\ (k, b') ∈ walk m key_name r.
Proof.
  assert (Hcore : existsb (fun d => match nodes m !! Z.to_nat d.1 with
        | None => false
        | Some node => existsb (fun k => existsb (Z.eqb k.1) (sign_constraints node)) (walk m key_name r)
        end) (walk m data_name r) = true <->
    exists d b k b' node, (d, b) ∈ walk m data_name r /\ nodes m !! Z.to_nat d = Some node /\ k ∈ sign_constraints node /\ (k, b') ∈ walk m key_name r).
  { rewrite List.existsb_exists. split.
    - intros ([d b] & Hd & Hx). simpl in Hx. destruct (nodes m !! Z.to_nat d) as [node|] eqn:Hn; [|done].
      apply List.existsb_exists in Hx as ([k b'] & Hk & (x & Hs & <-%Z.eqb_eq)%List.existsb_exists). simpl in Hs.
      exists d, b, k, b', node. by rewrite !list_elem_of_In.
    - intros (d & b & k & b' & node & Hd & Hn & Hs & Hk). exists (d, b). split; [by apply list_elem_of_In|]. simpl. rewrite Hn.
      apply List.existsb_exists. exists (k, b'). split; [by apply list_elem_of_In|]. apply List.existsb_exists. exists k.
      split; [by apply list_elem_of_In|]. apply Z.eqb_refl. }
  unfold check_with. revert Hcore. destruct (walk m data_name r) as [|x xs], (walk m key_name r) as [|y ys]; intros Hcore; try exact Hcore.
  all: split; [done|]; intros (d & b & k & b' & node & H1 & _ & _ & H2); try (by apply elem_of_nil in H1); by apply elem_of_nil in H2.
Qed.

Lemma lvs_check_facts m data_name key_name r :
  (check_with m data_name key_name r = true -> permitted m r data_name key_name) /\
  (within_limits m r data_name -> within_limits m r key_name -> permitted m r data_name key_name -> check_with m data_name key_name r = true).
Proof.
  split.
  - intros (d & b & k & b' & node & Hd & Hn & Hs & Hk)%check_with_iff. exists d, k, node.
    split_conj; [by eapply walk_sound|done|done|by eapply walk_sound].
  - intros Hwd Hwk (d & k & node & Hd & Hn & Hs & Hk). assert (nodes m <> []) as Hne by (intros Hx; by rewrite Hx in Hn).
    destruct (walk_complete m r data_name d Hne Hwd Hd) as [b Hb]. destruct (walk_complete m r key_name k Hne Hwk Hk) as [b' Hb'].
    apply check_with_iff. exists d, b, k, b', node. done.
Qed.

(** C10: a key is accepted for a Data name only if the schema permits it: the two names
    lead from the start node to nodes that a sign constraint connects.  As long as the
    walks stay within the limits on visited nodes and endings, everything the schema
    permits is accepted, whatever order the edges are in. *)
Theorem lvs_check_spec m data_name key_name r :
  (check_with m data_name key_name r = true -> permitted m r data_name key_name) /\
  (within_limits m r data_name -> within_limits m r key_name -> permitted m r data_name key_name -> check_with m data_name key_name r = true).
Proof. apply lvs_check_facts. Qed.

(** ** What reading establishes *)

Lemma each_tlv_invariant {S} (P : S -> Prop) step input s s' : wf_bytes input ->
  (forall t v s s', wf_bytes v -> P s -> step t v s = Ok s' -> P s') -> P s -> each_tlv step input s = Ok s' -> P s'.
Proof.
  intros Hw Hstep. unfold each_tlv. generalize (length input). intros fuel. revert input s Hw. induction fuel as [|fuel IH]; intros input s Hw Hp; simpl; [by intros [= <-]|].
  destruct input as [|x input]; [by intros [= <-]|]. destruct (read_tlv (x :: input)) as [[[t v] rest]|e] eqn:Hr; [|done].
  assert (wf_bytes v /\ wf_bytes rest) as [Hv Hrest].
  { unfold read_tlv in Hr. destruct (map_err _ (read_varu64 (x :: input))) as [[t' tn]|]; [|done]. destruct (map_err _ _) as [[l ln]|]; [|done].
    destruct (usize_max <? _); [done|]. destruct (zlen (x :: input) <? _); [done|]. injection Hr as <- <- <-.
    split; [by apply wf_bytes_slice|by apply wf_bytes_slice_from]. }
  destruct (step t v s) as [s1|] eqn:Hs; [|done]. intros He. apply (IH rest s1 Hrest); [by apply (Hstep t v s)|exact He].
Qed.
Lemma read_uint_nonneg v n : wf_bytes v -> read_uint v = Ok n -> 0 <= n.
Proof. intros Hw. unfold read_uint. destruct (_ || _); [|done]. intros [= <-]. by apply be_decode_bound. Qed.

Definition edge_fns (pe : LvsPatternEdge) : list bytes :=
  concat (map (fun c => concat (map (fun o => match o with OUserFn call => [fn_id call] | _ => [] end) (options c))) (constraints pe)).
Definition node_fns (n : LvsNode) : list bytes := concat (map edge_fns (pattern_edges n)).
(** [f] tells whether any function is used. *)
Definition flags (f : bool) (l : list bytes) : Prop := f = negb (zlen l =? 0).
Lemma flags_app f g l k : flags f l -> flags g k -> flags (f || g) (l ++ k).
Proof. unfold flags. intros -> ->. zlen_norm. pose proof (zlen_nonneg l). pose proof (zlen_nonneg k). lia. Qed.

Definition option_fns (os : list LvsConstraintOption) : list bytes := concat (map (fun o => match o with OUserFn call => [fn_id call] | _ => [] end) os).
Lemma concat_snoc {A B} (f : A -> list B) l x : concat (map f (l ++ [x])) = concat (map f l) ++ f x.
Proof. rewrite map_app, concat_app. simpl. by rewrite app_nil_r. Qed.

Lemma constraint_fns input c f : wf_bytes input -> LvsConstraint_decode input = Ok (c, f) -> flags f (option_fns (options c)).
Proof.
  intros Hw. unfold LvsConstraint_decode. destruct (each_tlv constraint_step input ([], false)) as [[os g]|] eqn:He; [|done]. intros [= <- <-]. simpl.
  eapply (each_tlv_invariant (fun s => flags s.2 (option_fns s.1))) in He; [exact He|done| |done].
  intros t v s s' _ Hs Hstep. unfold constraint_step in Hstep. destruct (t =? CONS_OPTION); [|by injection Hstep as <-].
  destruct (LvsConstraintOption_decode v) as [[o g']|] eqn:Ho; [|done]. injection Hstep as <-. simpl. unfold option_fns. rewrite concat_snoc.
  apply flags_app; [done|]. unfold LvsConstraintOption_decode in Ho. destruct (each_tlv option_step v _) as [[[[x|] [y|]] [z|]]|]; try done; by injection Ho as <- <-.
Qed.
Lemma pattern_edge_wf input e f : wf_bytes input -> LvsPatternEdge_decode input = Ok (e, f) -> flags f (edge_fns e) /\ 0 <= pe_dest e.
Proof.
  intros Hw. unfold LvsPatternEdge_decode. destruct (each_tlv pattern_step input _) as [[[[d tg] cs] g]|] eqn:He; [|done].
  eapply (each_tlv_invariant (fun '(d, _, cs, g) => flags g (concat (map (fun c => option_fns (options c)) cs)) /\ match d with Some d => 0 <= d | None => True end)) in He;
    [|done| |by split].
  2: { intros t v [[[d1 t1] cs1] g1] s' Hv [Hs Hd] Hstep. unfold pattern_step in Hstep. destruct (t =? NODE_ID); [|destruct (t =? PATTERN_TAG); [|destruct (t =? CONSTRAINT)]].
       - destruct (read_uint v) as [n|] eqn:Hn; [|done]. injection Hstep as <-. split; [done|]. by eapply read_uint_nonneg.
       - destruct (read_uint v) as [n|] eqn:Hn; [|done]. injection Hstep as <-. done.
       - destruct (LvsConstraint_decode v) as [[c g']|] eqn:Hc; [|done]. injection Hstep as <-. split; [|done]. rewrite concat_snoc. apply flags_app; [done|].
         by eapply constraint_fns.
       - injection Hstep as <-. done. }
  destruct He as [Hf Hd]. destruct d as [d|]; [|done]. destruct tg as [tg|]; [|done]. simpl. intros [= <- <-]. done.
Qed.

Lemma value_edge_wf input e : wf_bytes input -> LvsValueEdge_decode input = Ok e -> 0 <= ve_dest e.
Proof.
  intros Hw. unfold LvsValueEdge_decode. destruct (each_tlv value_step input _) as [[d c]|] eqn:He; [|done].
  eapply (each_tlv_invariant (fun s => match s.1 with Some d => 0 <= d | None => True end)) in He; [|done| |done].
  2: { intros t v s s' Hv Hs Hstep. unfold value_step in Hstep. destruct (t =? NODE_ID); [|destruct (t =? COMPONENT_VALUE)].
       - destruct (read_uint v) as [n|] eqn:Hn; [|done]. injection Hstep as <-. by eapply read_uint_nonneg.
       - destruct (parse_name_component v); [|done]. by injection Hstep as <-.
       - by injection Hstep as <-. }
  simpl in He. destruct d as [d|]; [|done]. destruct c; [|done]. simpl. by intros [= <-].
Qed.

Definition node_ok (n : LvsNode) : Prop := Forall (fun d => 0 <= d) (targets n).
Lemma targets_snoc_value i p rn ve pe sc e : 0 <= ve_dest e -> node_ok (mkNode i p rn ve pe sc) -> node_ok (mkNode i p rn (ve ++ [e]) pe sc).
Proof. unfold node_ok, targets. simpl. rewrite map_app, !Forall_app. intros He (H1 & H2 & H3). repeat split; try done. by constructor. Qed.
Lemma targets_snoc_pattern i p rn ve pe sc e : 0 <= pe_dest e -> node_ok (mkNode i p rn ve pe sc) -> node_ok (mkNode i p rn ve (pe ++ [e]) sc).
Proof. unfold node_ok, targets. simpl. rewrite map_app, !Forall_app. intros He (H1 & H2 & H3). repeat split; try done. by constructor. Qed.
Lemma targets_snoc_key i p rn ve pe sc k : 0 <= k -> node_ok (mkNode i p rn ve pe sc) -> node_ok (mkNode i p rn ve pe (sc ++ [k])).
Proof. unfold node_ok, targets. simpl. rewrite !Forall_app. intros He (H1 & H2 & H3). repeat split; try done. by constructor. Qed.

Lemma node_wf input n f : wf_bytes input -> LvsNode_decode input = Ok (n, f) -> flags f (node_fns n) /\ node_ok n.
Proof.
  intros Hw. unfold LvsNode_decode. destruct (each_tlv node_step input _) as [[[i n'] g]|] eqn:He; [|done].
  eapply (each_tlv_invariant (fun '(_, n, g) => flags g (node_fns n) /\ node_ok n)) in He; [|done| |by split; [|constructor]].
  2: { intros t v [[i1 [i2 p rn ve pe sc]] g1] s' Hv [Hs Ho] Hstep. unfold node_step in Hstep.
       destruct (t =? NODE_ID); [destruct (read_uint v) as [x|] eqn:Hx; [|done]; by injection Hstep as <-|].
       destruct (t =? PARENT_ID); [destruct (read_uint v) as [x|] eqn:Hx; [|done]; by injection Hstep as <-|].
       destruct (t =? IDENTIFIER); [destruct (read_string v) as [x|] eqn:Hx; [|done]; by injection Hstep as <-|].
       destruct (t =? VALUE_EDGE).
       { destruct (LvsValueEdge_decode v) as [e|] eqn:Hx; [|done]. injection Hstep as <-. split; [done|].
         apply (targets_snoc_value i2 p rn); [by eapply value_edge_wf|done]. }
       destruct (t =? PATTERN_EDGE).
       { destruct (LvsPatternEdge_decode v) as [[e g2]|] eqn:Hx; [|done]. injection Hstep as <-. destruct (pattern_edge_wf v e g2 Hv Hx) as [Hf Hd].
         split; [|by apply (targets_snoc_pattern i2 p rn)]. unfold node_fns in *. simpl in *. rewrite concat_snoc. by apply flags_app. }
       destruct (t =? KEY_NODE_ID).
       { destruct (read_uint v) as [x|] eqn:Hx; [|done]. injection Hstep as <-. split; [done|]. apply (targets_snoc_key i2 p rn); [by eapply read_uint_nonneg|done]. }
       by injection Hstep as <-. }
  destruct He as [Hf Ho]. destruct i as [i|]; [|done]. simpl. by intros [= <- <-].
Qed.

Lemma check_ids_ok idx ns i n : check_ids idx ns = Ok tt -> ns !! i = Some n -> id n = idx + Z.of_nat i.
Proof.
  revert idx i. induction ns as [|n' ns IH]; intros idx i Hc Hi; [done|]. simpl in Hc. destruct (Z.eqb_spec (id n') idx) as [Hid|]; [|done].
  destruct i as [|i]; simpl in Hi; [injection Hi as ->; lia|]. rewrite (IH (idx + 1) i); [lia|done|done].
Qed.
Lemma check_range_ok n ds : check_range n ds = Ok tt -> Forall (fun d => d < n) ds.
Proof. induction ds as [|d ds IH]; simpl; [constructor|]. destruct (Z.leb_spec n d); [done|]. constructor; [lia|auto]. Qed.

(** What every schema that is read satisfies. *)
Record model_wf (m : LvsModel) : Prop := mkModelWf {
  wf_version : version m = LVS_VERSION;
  wf_ids : forall i n, nodes m !! i = Some n -> id n = Z.of_nat i;
  wf_targets : forall n, n ∈ nodes m -> Forall (fun d => 0 <= d < zlen (nodes m)) (targets n);
  wf_start : nodes m <> [] -> 0 <= start_id m < zlen (nodes m);
  wf_flag : uses_user_functions m = true <-> user_fn_ids m <> []
}.

Lemma model_parts input s : wf_bytes input -> each_tlv model_step input (mkParts None None None [] [] false) = Ok s ->
  flags (m_fns s) (concat (map node_fns (m_nodes s))) /\ Forall node_ok (m_nodes s) /\ match m_start s with Some n => 0 <= n | None => True end.
Proof.
  intros Hw He. eapply (each_tlv_invariant (fun s => flags (m_fns s) (concat (map node_fns (m_nodes s))) /\ Forall node_ok (m_nodes s) /\ match m_start s with Some n => 0 <= n | None => True end)) in He;
    [exact He|done| |by repeat split].
  intros t v [ve st ct ns sy f] s' Hv (Hf & Ho & Hst) Hstep. unfold model_step in Hstep. simpl in *.
  destruct (t =? VERSION); [destruct (read_uint v) as [x|]; [|done]; by injection Hstep as <-|].
  destruct (t =? NODE_ID); [destruct (read_uint v) as [x|] eqn:Hx; [|done]; injection Hstep as <-; split_conj; try done; by eapply read_uint_nonneg|].
  destruct (t =? NAMED_PATTERN_NUM); [destruct (read_uint v) as [x|]; [|done]; by injection Hstep as <-|].
  destruct (t =? NODE).
  { destruct (LvsNode_decode v) as [[n g]|] eqn:Hn; [|done]. injection Hstep as <-. destruct (node_wf v n g Hv Hn) as [Hg Hok]. simpl.
    split_conj; [rewrite concat_snoc; by apply flags_app|apply Forall_app; split; [done|by constructor]|done]. }
  destruct (t =? TAG_SYMBOL); [destruct (LvsTagSymbol_decode v) as [x|]; [|done]; by injection Hstep as <-|]. by injection Hstep as <-.
Qed.

Lemma decode_model_wf input m : wf_bytes input -> decode input = Ok m -> model_wf m.
Proof.
  intros Hw. unfold decode. destruct (each_tlv model_step input _) as [s|] eqn:He; [|done]. destruct (model_parts input s Hw He) as (Hf & Ho & Hst).
  destruct (m_version s) as [ve|]; [|done]. simpl. destruct (Z.eqb_spec ve LVS_VERSION) as [->|]; [|done]. simpl.
  destruct (m_start s) as [st|]; [|done]. simpl. destruct (m_count s) as [ct|]; [|done]. simpl.
  destruct (check_ids 0 (m_nodes s)) as [[]|] eqn:Hids; [|done]. destruct (check_range _ _) as [[]|] eqn:Hr; [|done].
  destruct (_ && _) eqn:Hs; [done|]. intros [= <-]. constructor; simpl.
  - done.
  - intros i n Hi. by rewrite (check_ids_ok 0 (m_nodes s) i n Hids Hi).
  - intros n Hn. apply check_range_ok in Hr. apply List.Forall_forall. intros d Hd. split.
    + rewrite List.Forall_forall in Ho. apply list_elem_of_In in Hn. apply Ho in Hn. unfold node_ok in Hn. rewrite List.Forall_forall in Hn. by apply Hn.
    + rewrite List.Forall_forall in Hr. apply Hr. apply in_concat. exists (targets n). split; [|done]. apply in_map, list_elem_of_In, Hn.
  - intros Hne. destruct (m_nodes s) as [|n ns]; [done|]. rewrite zlen_cons in *. pose proof (zlen_nonneg ns). lia.
  - change (user_fn_ids _) with (concat (map node_fns (m_nodes s))). rewrite Hf. destruct (concat _) as [|x l]; [done|].
    rewrite zlen_cons. pose proof (zlen_nonneg l). split; [done|]. intros _. lia.
Qed.

(** C11: a binary schema that is read is well formed: it has the supported version,
    every node is at the place its number says, every edge, sign constraint and the
    start lead to a node that exists, so that a walk never leaves the graph, and the
    flag that makes loading fail closed is set exactly when a user function occurs. *)
Theorem lvs_decode_wf input m :
  wf_bytes input -> decode input = Ok m ->
  model_wf m /\ forall r name d, nodes m <> [] -> reaches m r name (start_id m) ∅ d -> exists node, nodes m !! Z.to_nat d = Some node /\ id node = d.
Proof.
  intros Hw Hd. pose proof (decode_model_wf input m Hw Hd) as Hm. split; [done|]. intros r name d Hne Hr.
  enough (0 <= d < zlen (nodes m)) as Hb.
  { destruct (lookup_lt_is_Some_2 (nodes m) (Z.to_nat d)) as [n Hn]; [unfold zlen in Hb; lia|]. exists n. split; [done|]. rewrite (wf_ids m Hm _ _ Hn). lia. }
  pose proof (wf_start m Hm Hne) as Hs. revert Hr Hs. generalize (start_id m), (∅ : Bindings). intros st b0 Hr.
  induction Hr as [n b|comp rest n b node ve n' Hn Hve Hv Hr IH|comp rest n b node pe n' Hn Hpe Hp Hr IH]; intros Hs; [done|..];
    apply IH; apply list_elem_of_lookup_2 in Hn; apply (wf_targets m Hm) in Hn; unfold targets in Hn; rewrite !Forall_app, !Forall_map in Hn;
    destruct Hn as (H1 & H2 & _); [rewrite Forall_forall in H1; by apply H1|rewrite Forall_forall in H2; by apply H2].
Qed.

(** ** The graph the compiler builds

    Every node of the graph stands for the components that lead to it: [lab] lists
    them, node by node. *)

Import lvs_compile.

Definition fan (n : NodeB) : nat := (length (b_values n) + length (b_patterns n))%nat.

Record graph (ns : list NodeB) (lab : list (list Comp)) (k : nat) : Prop := mkGraph {
  g_length : length lab = length ns;
  g_root : lab !! 0%nat = Some [];
  g_values : forall i n v d, ns !! i = Some n -> (v, d) ∈ b_values n ->
    0 <= d /\ exists p, lab !! i = Some p /\ lab !! Z.to_nat d = Some (p ++ [Literal v]);
  g_patterns : forall i n d, ns !! i = Some n -> d ∈ b_patterns n ->
    0 <= d /\ exists p x, lab !! i = Some p /\ lab !! Z.to_nat d = Some (p ++ [Var x]);
  g_incoming : forall j q, (0 < j)%nat -> lab !! j = Some q -> exists i n p c, (i < j)%nat /\ ns !! i = Some n /\ lab !! i = Some p /\ q = p ++ [c] /\
    match c with Literal v => (v, Z.of_nat j) ∈ b_values n | Var _ => Z.of_nat j ∈ b_patterns n end;
  g_tags : forall i n, ns !! i = Some n -> length (b_tags n) = length (b_patterns n);
  g_fan : forall i n, ns !! i = Some n -> (fan n <= if decide (i = 0%nat) then k else 1)%nat
}.

(** The change of a node: an edge to [dest] for the component [c]. *)
Definition add_edge (c : Comp) (dest tag : Z) (n : NodeB) : NodeB :=
  match c with Literal v => push_value v dest n | Var _ => push_pattern dest tag n end.

Lemma lower_comp_eq l cur c : exists tag sy, lower_comp (l, cur) c =
  (mkLower (alter (add_edge c (zlen (l_nodes l)) (next_tag l)) (Z.to_nat cur) (l_nodes l ++ [empty_node])) (terminal l) tag sy, zlen (l_nodes l)).
Proof. destruct c as [v|x]; simpl; eauto. Qed.

Lemma lookup_added (ns : list NodeB) f cur i n : (cur < length ns)%nat -> alter f cur (ns ++ [empty_node]) !! i = Some n ->
  (i = cur /\ exists n0, ns !! i = Some n0 /\ n = f n0) \/ (i <> cur /\ ns !! i = Some n) \/ (i <> cur /\ i = length ns /\ n = empty_node).
Proof.
  intros Hc Hi. destruct (decide (i = cur)) as [->|Hne].
  - left. split; [done|]. rewrite list_lookup_alter_eq in Hi. rewrite lookup_app_l in Hi by done. destruct (ns !! cur) as [n0|]; [|done]. injection Hi as <-. eauto.
  - right. rewrite list_lookup_alter_ne in Hi by done. apply lookup_app_Some in Hi as [Hi|[Hge Hi]]; [by left|]. right.
    apply list_lookup_singleton_Some in Hi as [Hi <-]. split_conj; [done|lia|done].
Qed.
Lemma lookup_kept (ns : list NodeB) f cur i n : (cur < length ns)%nat -> ns !! i = Some n ->
  alter f cur (ns ++ [empty_node]) !! i = Some (if decide (i = cur) then f n else n).
Proof.
  intros Hc Hi. pose proof (lookup_lt_Some _ _ _ Hi). destruct (decide (i = cur)) as [->|Hne].
  - rewrite list_lookup_alter_eq, lookup_app_l, Hi by done. done.
  - by rewrite list_lookup_alter_ne, lookup_app_l, Hi by done.
Qed.

(** One more component after the node [cur], which is the root or has no edge yet. *)
Lemma graph_add ns lab k cur c tag p n0 : graph ns lab k -> ns !! cur = Some n0 -> lab !! cur = Some p -> (fan n0 < if decide (cur = 0%nat) then k else 1)%nat ->
  graph (alter (add_edge c (zlen ns) tag) cur (ns ++ [empty_node])) (lab ++ [p ++ [c]]) k.
Proof.
  intros [Hl Hr Hv Hp Hin Ht Hf] Hcur Hlab Hfan. pose proof (lookup_lt_Some _ _ _ Hcur) as Hlt.
  assert (Hnew : (lab ++ [p ++ [c]]) !! Z.to_nat (zlen ns) = Some (p ++ [c])).
  { unfold zlen. rewrite Nat2Z.id, <- Hl. by apply list_lookup_middle. }
  assert (Hold : forall i q, lab !! i = Some q -> (lab ++ [p ++ [c]]) !! i = Some q) by (intros; by apply lookup_app_l_Some).
  constructor.
  - rewrite length_app, length_alter, length_app. simpl. lia.
  - by apply Hold.
  - intros i n v d Hi Hd. apply lookup_added in Hi as [[-> (n1 & Hn1 & ->)]|[[Hne Hi]|(Hne & -> & ->)]]; [| |by apply elem_of_nil in Hd|done].
    + destruct c as [v'|x]; simpl in Hd.
      * apply elem_of_app in Hd as [Hd|Hd]; [destruct (Hv _ _ _ _ Hn1 Hd) as (H0 & q & Hq1 & Hq2); eauto 6|].
        apply list_elem_of_singleton in Hd as [= -> ->]. split; [apply zlen_nonneg|]. exists p. eauto.
      * destruct (Hv _ _ _ _ Hn1 Hd) as (H0 & q & Hq1 & Hq2). eauto 6.
    + destruct (Hv _ _ _ _ Hi Hd) as (H0 & q & Hq1 & Hq2). eauto 6.
  - intros i n d Hi Hd. apply lookup_added in Hi as [[-> (n1 & Hn1 & ->)]|[[Hne Hi]|(Hne & -> & ->)]]; [| |by apply elem_of_nil in Hd|done].
    + destruct c as [v'|x]; simpl in Hd.
      * destruct (Hp _ _ _ Hn1 Hd) as (H0 & q & x & Hq1 & Hq2). eauto 8.
      * apply elem_of_app in Hd as [Hd|Hd]; [destruct (Hp _ _ _ Hn1 Hd) as (H0 & q & y & Hq1 & Hq2); eauto 8|].
        apply list_elem_of_singleton in Hd as ->. split; [apply zlen_nonneg|]. exists p, x. eauto.
    + destruct (Hp _ _ _ Hi Hd) as (H0 & q & x & Hq1 & Hq2). eauto 8.
  - intros j q Hj Hq. apply lookup_app_Some in Hq as [Hq|[Hge Hq]].
    + destruct (Hin j q Hj Hq) as (i & n & p' & c' & Hij & Hn & Hp' & -> & Hm).
      exists i, (if decide (i = cur) then add_edge c (zlen ns) tag n else n), p', c'. split_conj; [done|by apply lookup_kept|by apply Hold|done|].
      destruct (decide (i = cur)); [|done]. destruct c, c'; simpl; (rewrite elem_of_app; by left) || done.
    + apply list_lookup_singleton_Some in Hq as [Hj' <-].
      exists cur, (add_edge c (zlen ns) tag n0), p, c. split_conj; [lia| |by apply Hold|done|].
      * rewrite (lookup_kept ns _ cur cur n0) by done. by rewrite decide_True.
      * replace (Z.of_nat j) with (zlen ns) by (unfold zlen; lia). destruct c; simpl; apply elem_of_app; right; by apply list_elem_of_singleton.
  - intros i n Hi. apply lookup_added in Hi as [[-> (n1 & Hn1 & ->)]|[[Hne Hi]|(Hne & -> & ->)]]; [|by eapply Ht|done|done].
    specialize (Ht _ _ Hn1). destruct c; simpl; [done|]. rewrite !length_app. simpl. lia.
  - intros i n Hi. apply lookup_added in Hi as [[-> (n1 & Hn1 & ->)]|[[Hne Hi]|(Hne & -> & ->)]]; [|by apply Hf| |done].
    + rewrite Hcur in Hn1. injection Hn1 as <-. destruct c; unfold fan in *; simpl; rewrite length_app; simpl; lia.
    + unfold fan. simpl. lia.
Qed.

(** What the compiler can express: literals that a one-byte length describes, and
    names of variables that are text. *)
Definition lit_ok (v : bytes) : Prop := wf_bytes v /\ zlen v <= 252.
Definition comp_ok (c : Comp) : Prop :=
  match c with Literal v => lit_ok v | Var (Some x) => utf8_valid x = true /\ wf_bytes x | Var None => True end.
Definition rule_ok (r : Rule) : Prop := Forall comp_ok (pattern r).

Record lowered (l : Lower) (lab : list (list Comp)) (k : nat) : Prop := mkLowered {
  lo_graph : graph (l_nodes l) lab k;
  lo_next : 0 <= next_tag l < zlen (l_nodes l);
  lo_tags : forall i n t, l_nodes l !! i = Some n -> t ∈ b_tags n -> 0 <= t < next_tag l;
  lo_lits : forall i n v d, l_nodes l !! i = Some n -> (v, d) ∈ b_values n -> lit_ok v;
  lo_symbols : Forall (fun s => 0 <= s.1 < next_tag l /\ utf8_valid s.2 = true /\ wf_bytes s.2) (l_symbols l);
  lo_keys : forall i n, l_nodes l !! i = Some n -> b_keys n = []
}.

Lemma lowered_add l lab k cur c p n0 : lowered l lab k -> comp_ok c -> 0 <= cur -> l_nodes l !! Z.to_nat cur = Some n0 -> lab !! Z.to_nat cur = Some p ->
  (fan n0 < if decide (Z.to_nat cur = 0%nat) then k else 1)%nat ->
  exists l', lower_comp (l, cur) c = (l', zlen (l_nodes l)) /\ lowered l' (lab ++ [p ++ [c]]) k /\ terminal l' = terminal l /\
    l_nodes l' !! Z.to_nat (zlen (l_nodes l)) = Some empty_node.
Proof.
  intros [Hg Hn Ht Hli Hsy Hk] Hc Hcur0 Hcur Hlab Hfan. pose proof (lookup_lt_Some _ _ _ Hcur) as Hlt.
  assert (Hz : forall f, zlen (alter f (Z.to_nat cur) (l_nodes l ++ [empty_node])) = zlen (l_nodes l) + 1)
    by (intros f; unfold zlen; rewrite length_alter, length_app; simpl; lia).
  assert (Hlast : forall f, alter f (Z.to_nat cur) (l_nodes l ++ [empty_node]) !! Z.to_nat (zlen (l_nodes l)) = Some empty_node).
  { intros f. unfold zlen. rewrite Nat2Z.id, list_lookup_alter_ne by lia. by apply list_lookup_middle. }
  pose proof (graph_add (l_nodes l) lab k (Z.to_nat cur) c (next_tag l) p n0 Hg Hcur Hlab Hfan) as Hg'.
  assert (Hold : forall t, 0 <= t < next_tag l -> 0 <= t < next_tag l + 1) by (intros; lia).
  destruct c as [v|x]; simpl in *; eexists; (split; [reflexivity|]); (split; [|split; [reflexivity|apply Hlast]]); constructor; simpl; rewrite ?Hz; try done; try lia.
  - intros i n t Hi. apply lookup_added in Hi as [[-> (n1 & Hn1 & ->)]|[[Hne Hi]|(Hne & -> & ->)]]; [by apply (Ht _ _ _ Hn1)|by apply (Ht _ _ _ Hi)|by intros ?%elem_of_nil|done].
  - intros i n v' d Hi. apply lookup_added in Hi as [[-> (n1 & Hn1 & ->)]|[[Hne Hi]|(Hne & -> & ->)]]; [|by apply (Hli _ _ _ _ Hi)|by intros ?%elem_of_nil|done].
    simpl. intros [Hd|Hd]%elem_of_app; [by apply (Hli _ _ _ _ Hn1 Hd)|]. apply list_elem_of_singleton in Hd as [= -> _]. done.
  - intros i n Hi. apply lookup_added in Hi as [[-> (n1 & Hn1 & ->)]|[[Hne Hi]|(Hne & -> & ->)]]; [by apply (Hk _ _ Hn1)|by apply (Hk _ _ Hi)|done|done].
  - intros i n t Hi. apply lookup_added in Hi as [[-> (n1 & Hn1 & ->)]|[[Hne Hi]|(Hne & -> & ->)]]; [|intros Hx; apply Hold, (Ht _ _ _ Hi Hx)|by intros ?%elem_of_nil|done].
    simpl. intros [Hd|Hd]%elem_of_app; [apply Hold, (Ht _ _ _ Hn1 Hd)|]. apply list_elem_of_singleton in Hd as ->. lia.
  - intros i n v' d Hi. apply lookup_added in Hi as [[-> (n1 & Hn1 & ->)]|[[Hne Hi]|(Hne & -> & ->)]]; [by apply (Hli _ _ _ _ Hn1)|by apply (Hli _ _ _ _ Hi)|by intros ?%elem_of_nil|done].
  - assert (Forall (fun s => 0 <= s.1 < next_tag l + 1 /\ utf8_valid s.2 = true /\ wf_bytes s.2) (l_symbols l)) as Hsy'.
    { eapply Forall_impl; [exact Hsy|]. intros s (H1 & H2 & H3). split_conj; (done || lia). }
    destruct x as [x|]; [|done]. apply Forall_app. split; [done|]. constructor; [|constructor]. simpl. split; [lia|done].
  - intros i n Hi. apply lookup_added in Hi as [[-> (n1 & Hn1 & ->)]|[[Hne Hi]|(Hne & -> & ->)]]; [by apply (Hk _ _ Hn1)|by apply (Hk _ _ Hi)|done|done].
Qed.

(** The chain of a rule. *)
Lemma lowered_chain pat : forall l lab k cur p n0, lowered l lab k -> Forall comp_ok pat -> 0 <= cur -> l_nodes l !! Z.to_nat cur = Some n0 -> lab !! Z.to_nat cur = Some p ->
  (fan n0 < if decide (Z.to_nat cur = 0%nat) then k else 1)%nat ->
  exists l' cur' lab', fold_left lower_comp pat (l, cur) = (l', cur') /\ lowered l' lab' k /\ terminal l' = terminal l /\
    lab `prefix_of` lab' /\ 0 <= cur' /\ lab' !! Z.to_nat cur' = Some (p ++ pat).
Proof.
  induction pat as [|c pat IH]; intros l lab k cur p n0 Hlo Hok Hcur0 Hcur Hlab Hfan.
  { exists l, cur, lab. rewrite app_nil_r. done. }
  apply Forall_cons in Hok as [Hc Hok]. destruct (lowered_add l lab k cur c p n0 Hlo Hc Hcur0 Hcur Hlab Hfan) as (l1 & He & Hlo1 & Ht1 & Hlast).
  pose proof (lookup_lt_Some _ _ _ Hcur) as Hlt. cbn [fold_left]. rewrite He.
  destruct (IH l1 (lab ++ [p ++ [c]]) k (zlen (l_nodes l)) (p ++ [c]) empty_node Hlo1 Hok) as (l2 & cur2 & lab2 & He2 & Hlo2 & Ht2 & Hpre & H0 & Hl2).
  - apply zlen_nonneg.
  - done.
  - unfold zlen. rewrite Nat2Z.id, <- (g_length _ _ _ (lo_graph _ _ _ Hlo)). by apply list_lookup_middle.
  - rewrite decide_False by (unfold zlen; lia). unfold fan. simpl. lia.
  - exists l2, cur2, lab2. rewrite <- app_assoc in Hl2. split_conj; [done|done|by rewrite Ht2|etransitivity; [by eapply prefix_app_r|done]|done|done].
Qed.

Lemma graph_mono ns lab k : graph ns lab k -> graph ns lab (S k).
Proof. intros [H1 H2 H3 H4 H5 H6 H7]. constructor; try done. intros i n Hi. specialize (H7 i n Hi). destruct (decide (i = 0%nat)); lia. Qed.

(** The rules that were lowered, and the node where each of them ends. *)
Definition terminals (t : gmap bytes Z) (lab : list (list Comp)) (rules : list Rule) : Prop :=
  (forall r, r ∈ rules -> exists n, t !! rule_id r = Some n /\ 0 <= n /\ lab !! Z.to_nat n = Some (pattern r)) /\
  (forall x n, t !! x = Some n -> exists r, r ∈ rules /\ rule_id r = x).

Lemma lower_rule_ok l lab rules r : lowered l lab (length rules) -> terminals (terminal l) lab rules -> rule_ok r -> rule_id r ∉ map rule_id rules ->
  exists lab', lowered (lower_rule l r) lab' (S (length rules)) /\ terminals (terminal (lower_rule l r)) lab' (rules ++ [r]).
Proof.
  intros Hlo [Ht1 Ht2] Hok Hfresh.
  assert (lowered l lab (S (length rules))) as Hlo' by (destruct Hlo; constructor; try done; by apply graph_mono).
  destruct (lookup_lt_is_Some_2 (l_nodes l) 0) as [n0 Hn0]; [pose proof (lo_next _ _ _ Hlo); unfold zlen in *; lia|].
  destruct (lowered_chain (pattern r) l lab (S (length rules)) 0 [] n0) as (l2 & cur & lab2 & He & Hlo2 & Hte & Hpre & H0 & Hl2); try done.
  - apply (g_root _ _ _ (lo_graph _ _ _ Hlo)).
  - pose proof (g_fan _ _ _ (lo_graph _ _ _ Hlo) 0%nat n0 Hn0) as Hf. simpl in *. lia.
  - exists lab2. unfold lower_rule. rewrite He. split; [by destruct Hlo2|]. simpl. rewrite Hte. split.
    + intros r' Hr'. apply elem_of_app in Hr' as [Hr'|Hr'].
      * destruct (Ht1 r' Hr') as (n & Hn & Hn0' & Hl). exists n. rewrite lookup_insert_ne; [|intros Hx; apply Hfresh; rewrite Hx; by apply (list_elem_of_fmap_2 rule_id)].
        split_conj; [done|done|]. by eapply prefix_lookup_Some.
      * apply list_elem_of_singleton in Hr' as ->. exists cur. by rewrite lookup_insert_eq.
    + intros x n Hx. destruct (decide (x = rule_id r)) as [->|Hne].
      * exists r. split; [|done]. apply elem_of_app. right. by apply list_elem_of_singleton.
      * rewrite lookup_insert_ne in Hx by done. destruct (Ht2 x n Hx) as (r' & Hr' & Hid). exists r'. split; [|done]. apply elem_of_app. by left.
Qed.

Lemma lower_rules_ok rules : Forall rule_ok rules -> NoDup (map rule_id rules) ->
  exists lab, lowered (lower_rules rules) lab (length rules) /\ terminals (terminal (lower_rules rules)) lab rules.
Proof.
  intros Hok Hnd. induction rules as [|r rules IH] using rev_ind.
  - exists [[]]. split.
    + assert (Hone : forall i n, [empty_node] !! i = Some n -> i = 0%nat /\ n = empty_node) by (intros i n Hi; by apply list_lookup_singleton_Some in Hi as [-> <-]).
      unfold lower_rules. simpl. constructor; simpl; try (intros i n ? ? [-> ->]%Hone; by intros ?%elem_of_nil); try (intros i n ? [-> ->]%Hone; by intros ?%elem_of_nil);
        try (by intros i n [-> ->]%Hone); try done.
      constructor; try done; try (intros i n ? ? [-> ->]%Hone; by intros ?%elem_of_nil); try (intros i n ? [-> ->]%Hone; by intros ?%elem_of_nil);
        try (by intros i n [-> ->]%Hone). intros j q Hj Hq. apply list_lookup_singleton_Some in Hq. lia.
    + split; [by intros r ?%elem_of_nil|]. intros x n Hx. change (terminal (lower_rules [])) with (∅ : gmap bytes Z) in Hx. by rewrite lookup_empty in Hx.
  - apply Forall_app in Hok as [Hok [Hr _]%Forall_cons]. rewrite map_app in Hnd. apply NoDup_app in Hnd as (Hnd & Hdis & _).
    destruct (IH Hok Hnd) as (lab & Hlo & Ht). unfold lower_rules. rewrite fold_left_app. simpl. rewrite length_app, Nat.add_1_r.
    apply (lower_rule_ok _ lab); [done|done|done|]. intros Hin. apply (Hdis _ Hin). by apply list_elem_of_singleton.
Qed.

(** *** The sign constraints *)

Definition same_edges (n n' : NodeB) : Prop := b_values n' = b_values n /\ b_patterns n' = b_patterns n /\ b_tags n' = b_tags n.
Lemma graph_same ns ns' lab k : length ns' = length ns -> (forall i n', ns' !! i = Some n' -> exists n, ns !! i = Some n /\ same_edges n n') -> graph ns lab k -> graph ns' lab k.
Proof.
  intros Hlen Hs [H1 H2 H3 H4 H5 H6 H7]. constructor; try done; try lia.
  - intros i n v d (n0 & Hn0 & Hv & _)%Hs. rewrite Hv. by apply H3.
  - intros i n d (n0 & Hn0 & _ & Hp & _)%Hs. rewrite Hp. by apply H4.
  - intros j q Hj Hq. destruct (H5 j q Hj Hq) as (i & n & p & c & Hij & Hn & Hp & -> & Hm).
    destruct (lookup_lt_is_Some_2 ns' i) as [n' Hn']; [rewrite Hlen; by eapply lookup_lt_Some|]. destruct (Hs i n' Hn') as (n0 & Hn0 & Hv & Hpa & _).
    rewrite Hn in Hn0. injection Hn0 as <-. exists i, n', p, c. split_conj; try done. destruct c; [by rewrite Hv|by rewrite Hpa].
  - intros i n (n0 & Hn0 & _ & Hp & Ht)%Hs. rewrite Hp, Ht. by eapply H6.
  - intros i n (n0 & Hn0 & Hv & Hp & _)%Hs. unfold fan. rewrite Hv, Hp. by apply H7.
Qed.

(** [ns'] is [ns] with some keys added. *)
Definition keyed (ns ns' : list NodeB) (keys : Z -> Z -> Prop) : Prop :=
  length ns' = length ns /\
  forall i n', ns' !! i = Some n' -> exists n, ns !! i = Some n /\ same_edges n n' /\ forall k, k ∈ b_keys n' <-> k ∈ b_keys n \/ keys (Z.of_nat i) k.

Lemma keyed_none ns : keyed ns ns (fun _ _ => False).
Proof. split; [done|]. intros i n' Hi. exists n'. split_conj; [done|done|]. intros k. tauto. Qed.
Lemma keyed_trans ns ns1 ns2 K1 K2 : keyed ns ns1 K1 -> keyed ns1 ns2 K2 -> keyed ns ns2 (fun i k => K1 i k \/ K2 i k).
Proof.
  intros [Hl1 H1] [Hl2 H2]. split; [lia|]. intros i n2 Hi. destruct (H2 i n2 Hi) as (n1 & Hn1 & (Ha & Hb & Hc) & Hk2). destruct (H1 i n1 Hn1) as (n & Hn & (Ha' & Hb' & Hc') & Hk1).
  exists n. split_conj; [done|by unfold same_edges; rewrite Ha, Hb, Hc|]. intros k. rewrite Hk2, Hk1. tauto.
Qed.
Lemma keyed_push ns d key : 0 <= d -> keyed ns (alter (push_key key) (Z.to_nat d) ns) (fun i k => i = d /\ k = key).
Proof.
  intros Hd. split; [by rewrite length_alter|]. intros i n' Hi. destruct (decide (i = Z.to_nat d)) as [->|Hne].
  - rewrite list_lookup_alter_eq in Hi. destruct (ns !! Z.to_nat d) as [n|]; [|done]. injection Hi as <-. exists n. split_conj; [done|done|].
    intros k. simpl. rewrite elem_of_app, list_elem_of_singleton. rewrite Z2Nat.id by done. tauto.
  - rewrite list_lookup_alter_ne in Hi by done. exists n'. split_conj; [done|done|]. intros k. split; [tauto|]. intros [?|[Hx _]]; [done|]. lia.
Qed.

Lemma sign_signers_ok t rule d ss : forall ns ns', 0 <= d -> sign_signers t rule d ss ns = Ok ns' ->
  keyed ns ns' (fun i k => i = d /\ exists s, s ∈ ss /\ t !! s = Some k).
Proof.
  induction ss as [|s ss IH]; intros ns ns' Hd; simpl.
  - intros [= <-]. destruct (keyed_none ns) as [Hl Hk]. split; [done|]. intros i n' Hi. destruct (Hk i n' Hi) as (n & Hn & Hs & Hx). exists n. split_conj; [done|done|].
    intros k. rewrite Hx. split; [tauto|]. intros [?|(_ & s & Hs' & _)]; [tauto|]. by apply elem_of_nil in Hs'.
  - destruct (t !! s) as [key|] eqn:Hs; [|done]. simpl. intros He. specialize (IH _ _ Hd He).
    pose proof (keyed_trans _ _ _ _ _ (keyed_push ns d key Hd) IH) as [Hl Hk]. split; [done|]. intros i n' Hi. destruct (Hk i n' Hi) as (n & Hn & Hse & Hx).
    exists n. split_conj; [done|done|]. intros k. rewrite Hx. setoid_rewrite elem_of_cons. split.
    + intros [?|[[-> ->]|(-> & s' & Hs' & Ht)]]; [tauto|right; split; [done|]; eauto|right; split; [done|]; eauto].
    + intros [?|(-> & s' & [->|Hs'] & Ht)]; [tauto|right; left; split; [done|congruence]|right; right; split; [done|]; eauto].
Qed.

Definition signs (t : gmap bytes Z) (rules : list Rule) (i k : Z) : Prop :=
  exists r s, r ∈ rules /\ t !! rule_id r = Some i /\ s ∈ signers r /\ t !! s = Some k.

Lemma sign_rules_ok t rules : forall ns ns', (forall r, r ∈ rules -> exists n, t !! rule_id r = Some n /\ 0 <= n) -> sign_rules t rules ns = Ok ns' ->
  keyed ns ns' (signs t rules).
Proof.
  induction rules as [|r rules IH]; intros ns ns' Ht; simpl.
  - intros [= <-]. destruct (keyed_none ns) as [Hl Hk]. split; [done|]. intros i n' Hi. destruct (Hk i n' Hi) as (n & Hn & Hs & Hx). exists n. split_conj; [done|done|].
    intros k. rewrite Hx. split; [tauto|]. intros [?|(r & s & Hr & _)]; [tauto|]. by apply elem_of_nil in Hr.
  - destruct (Ht r) as (d & Hd & Hd0); [by left|]. rewrite Hd. simpl. destruct (sign_signers t (rule_id r) d (signers r) ns) as [ns1|] eqn:He1; [|done]. intros He.
    pose proof (keyed_trans _ _ _ _ _ (sign_signers_ok _ _ _ _ _ _ Hd0 He1) (IH ns1 ns' ltac:(intros r' Hr'; apply Ht; by right) He)) as [Hl Hk].
    split; [done|]. intros i n' Hi. destruct (Hk i n' Hi) as (n & Hn & Hse & Hx). exists n. split_conj; [done|done|]. intros k. rewrite Hx. unfold signs. split.
    + intros [?|[(Hid & s & Hs & Hk')|(r' & s & Hr' & H1 & H2 & H3)]]; [tauto| |].
      * right. exists r, s. split_conj; [by left|by rewrite Hid|done|done].
      * right. exists r', s. split_conj; [by right|done|done|done].
    + intros [?|(r' & s & [->|Hr']%elem_of_cons & H1 & H2 & H3)]; [tauto| |].
      * right. left. split; [congruence|eauto].
      * right. right. exists r', s. done.
Qed.

(** ** Reading back what was written *)

Lemma write_tlv_eq buf t v : is_u64 t -> zlen v <= u64_max -> write_tlv buf t v = buf ++ tlv_bytes t v.
Proof. intros Ht Hv. unfold write_tlv, TlvWriter.finish. rewrite buf_write_tlv by done. done. Qed.

Lemma lvs_read_tlv_ok t v rest : is_u64 t -> zlen (tlv_bytes t v ++ rest) <= u64_max -> read_tlv (tlv_bytes t v ++ rest) = Ok (t, v, rest).
Proof.
  intros Ht Hl. rewrite zlen_app, zlen_tlv_bytes in Hl. pose proof (zlen_nonneg rest). pose proof (zlen_nonneg v).
  pose proof (tlv_size_bounds t (zlen v) (zlen_nonneg v)). unfold tlv_size in *. pose proof (varu64_size_range t). pose proof (varu64_size_range (zlen v)).
  assert (is_u64 (zlen v)) as Hv by (unfold is_u64; lia).
  unfold read_tlv, tlv_bytes. rewrite <- !app_assoc, read_varu64_bytes by done. simpl.
  rewrite (slice_from_app_eq (varu64_bytes t)), read_varu64_bytes by (done || by rewrite zlen_varu64_bytes). simpl.
  rewrite (proj2 (Z.ltb_ge usize_max _)) by (unfold usize_max; lia). rewrite (proj2 (Z.ltb_ge _ _)) by (zlen_norm; lia).
  do 3 f_equal.
  - rewrite app_assoc. apply slice_mid; zlen_norm; lia.
  - rewrite !app_assoc. apply slice_from_app_eq. zlen_norm. lia.
Qed.

(** A value made of elements, and what a reader's step makes of them. *)
Definition wire (fs : list (Z * bytes)) : bytes := concat (map (fun f => tlv_bytes f.1 f.2) fs).
Fixpoint run_steps {S} (step : Z -> bytes -> S -> result S LvsError) (fs : list (Z * bytes)) (s : S) : result S LvsError :=
  match fs with [] => Ok s | (t, v) :: fs => let? s := step t v s in run_steps step fs s end.
Lemma run_steps_app {S} (step : Z -> bytes -> S -> result S LvsError) fs gs s s1 :
  run_steps step fs s = Ok s1 -> run_steps step (fs ++ gs) s = run_steps step gs s1.
Proof. revert s. induction fs as [|[t v] fs IH]; intros s; simpl; [by intros [= ->]|]. destruct (step t v s); [apply IH|done]. Qed.
Lemma wire_cons f fs : wire (f :: fs) = tlv_bytes f.1 f.2 ++ wire fs.
Proof. done. Qed.
Lemma wire_app fs gs : wire (fs ++ gs) = wire fs ++ wire gs.
Proof. unfold wire. by rewrite map_app, concat_app. Qed.

Lemma each_tlv_wire {S} (step : Z -> bytes -> S -> result S LvsError) fs s s' :
  Forall (fun f => is_u64 f.1) fs -> zlen (wire fs) <= u64_max -> run_steps step fs s = Ok s' -> each_tlv step (wire fs) s = Ok s'.
Proof.
  intros Hf Hl Hr. unfold each_tlv. assert (zlen (wire fs) <= Z.of_nat (length (wire fs))) as Hfuel by (unfold zlen; lia).
  revert Hfuel. generalize (length (wire fs)). intros fuel. revert fuel s Hl Hr. induction Hf as [|[t v] fs Ht Hf IH]; intros fuel s Hl Hr Hfuel.
  - simpl in Hr. injection Hr as ->. by destruct fuel.
  - rewrite wire_cons in *. simpl in *. pose proof (zlen_nonneg (wire fs)). pose proof (zlen_nonneg v). pose proof (tlv_size_bounds t (zlen v) (zlen_nonneg v)).
    pose proof Hl as Hl'. rewrite zlen_app, zlen_tlv_bytes in Hl, Hfuel. destruct fuel as [|fuel]; [lia|]. cbn [tlv_loop].
    destruct (tlv_bytes t v ++ wire fs) as [|x l] eqn:Hx; [apply (f_equal zlen) in Hx; rewrite zlen_app, zlen_tlv_bytes, zlen_nil in Hx; lia|].
    rewrite <- Hx in *. rewrite lvs_read_tlv_ok by done. destruct (step t v s) as [s1|]; [|done]. apply IH; [lia|done|lia].
Qed.

Definition uint_bytes (v : Z) : bytes :=
  if v <=? u8_max then be_encode 1 v else if v <=? u16_max then be_encode 2 v else if v <=? u32_max then be_encode 4 v else be_encode 8 v.
Lemma zlen_uint v : 1 <= zlen (uint_bytes v) <= 8.
Proof. unfold uint_bytes. destruct (v <=? u8_max), (v <=? u16_max), (v <=? u32_max); rewrite ?zlen_be_encode; lia. Qed.
Lemma read_uint_bytes v : 0 <= v <= u64_max -> read_uint (uint_bytes v) = Ok v.
Proof.
  intros Hv. unfold read_uint, uint_bytes. unfold u64_max, u32_max, u16_max, u8_max in *.
  destruct (Z.leb_spec v (2 ^ 8 - 1)); [|destruct (Z.leb_spec v (2 ^ 16 - 1)); [|destruct (Z.leb_spec v (2 ^ 32 - 1))]];
    rewrite zlen_be_encode; simpl orb; cbv iota; rewrite be_decode_encode; f_equal; apply Z.mod_small; simpl Z.of_nat.
  - change (256 ^ 1) with 256. lia.
  - change (256 ^ 2) with 65536. lia.
  - change (256 ^ 4) with 4294967296. lia.
  - change (256 ^ 8) with 18446744073709551616. lia.
Qed.
Lemma write_uint_eq buf t v : is_u64 t -> write_uint buf t v = buf ++ tlv_bytes t (uint_bytes v).
Proof. intros Ht. unfold write_uint. apply write_tlv_eq; [done|]. fold (uint_bytes v). pose proof (zlen_uint v). unfold u64_max. lia. Qed.

(** Writing only adds, so that what fits as a whole fits in every part. *)
Lemma write_tlv_grows buf t v : zlen buf + zlen v <= zlen (write_tlv buf t v).
Proof.
  unfold write_tlv, TlvWriter.finish, TlvWriter.write_tlv. simpl. zlen_norm.
  pose proof (zlen_nonneg (TlvWriter.buf (TlvWriter.write_varu64_inner (TlvWriter.write_varu64_inner TlvWriter.new t) (zlen v)))). lia.
Qed.
Lemma fold_grows {A} (f : bytes -> A -> bytes) l buf : (forall b a, zlen b <= zlen (f b a)) -> zlen buf <= zlen (fold_left f l buf).
Proof. intros Hf. revert buf. induction l as [|a l IH]; intros buf; simpl; [lia|]. specialize (IH (f buf a)). specialize (Hf buf a). lia. Qed.

(** A loop that writes one element per item. *)
Lemma fold_wire {A} (f : bytes -> A -> bytes) (F : A -> Z * bytes) l buf :
  (forall b a, zlen b <= zlen (f b a)) -> (forall b a, zlen (f b a) <= u64_max -> f b a = b ++ tlv_bytes (F a).1 (F a).2) ->
  zlen (fold_left f l buf) <= u64_max -> fold_left f l buf = buf ++ wire (map F l).
Proof.
  intros Hg Hf. revert buf. induction l as [|a l IH]; intros buf Hl; simpl in *; [by rewrite app_nil_r|].
  rewrite IH by done. pose proof (fold_grows f l (f buf a) Hg). rewrite (Hf buf a) by lia. by rewrite <- app_assoc.
Qed.

Definition value_field (e : bytes * Z) : Z * bytes :=
  (VALUE_EDGE, wire [(NODE_ID, uint_bytes e.2); (COMPONENT_VALUE, [0x08; wrap 8 (zlen e.1)] ++ e.1)]).
Definition pattern_field (e : Z * Z) : Z * bytes := (PATTERN_EDGE, wire [(NODE_ID, uint_bytes e.1); (PATTERN_TAG, uint_bytes e.2)]).
Definition key_field (k : Z) : Z * bytes := (KEY_NODE_ID, uint_bytes k).
Definition node_fields (id : Z) (n : NodeB) : list (Z * bytes) :=
  (NODE_ID, uint_bytes id) :: map value_field (b_values n) ++ map pattern_field (combine (b_patterns n) (b_tags n)) ++ map key_field (b_keys n).
Fixpoint nodes_fields (id : Z) (ns : list NodeB) : list (Z * bytes) :=
  match ns with [] => [] | n :: ns => (NODE, wire (node_fields id n)) :: nodes_fields (id + 1) ns end.
Definition symbol_field (s : Z * bytes) : Z * bytes := (TAG_SYMBOL, wire [(PATTERN_TAG, uint_bytes s.1); (IDENTIFIER, s.2)]).
Definition model_fields (ns : list NodeB) (cnt : Z) (symbols : list (Z * bytes)) : list (Z * bytes) :=
  [(VERSION, uint_bytes LVS_VERSION); (NODE_ID, uint_bytes 0); (NAMED_PATTERN_NUM, uint_bytes cnt)] ++ nodes_fields 0 ns ++ map symbol_field symbols.

Ltac u64_const := unfold is_u64, u64_max; vm_compute; split; discriminate.

Ltac fields_u64 := repeat (apply Forall_cons; split; [cbn [fst]; u64_const|]); apply Forall_nil_2.

Lemma wire_two f g : wire [f; g] = tlv_bytes f.1 f.2 ++ tlv_bytes g.1 g.2.
Proof. unfold wire. simpl. by rewrite app_nil_r. Qed.
Lemma emit_value_edge_eq b e : zlen (emit_value_edge b e) <= u64_max -> emit_value_edge b e = b ++ tlv_bytes (value_field e).1 (value_field e).2.
Proof.
  unfold emit_value_edge. intros Hl. pose proof (write_tlv_grows b VALUE_EDGE (write_component_value (write_uint [] NODE_ID e.2) e.1)) as Hg.
  pose proof (zlen_nonneg b). unfold write_component_value in *.
  pose proof (write_tlv_grows (write_uint [] NODE_ID e.2) COMPONENT_VALUE ([0x08; wrap 8 (zlen e.1)] ++ e.1)). pose proof (zlen_nonneg (write_uint [] NODE_ID e.2)).
  rewrite write_tlv_eq by (lia || u64_const). rewrite (write_tlv_eq _ COMPONENT_VALUE) by (lia || u64_const). rewrite write_uint_eq by u64_const.
  unfold value_field. cbn [fst snd]. by rewrite wire_two.
Qed.
Lemma emit_pattern_edge_eq b e : zlen (emit_pattern_edge b e) <= u64_max -> emit_pattern_edge b e = b ++ tlv_bytes (pattern_field e).1 (pattern_field e).2.
Proof.
  unfold emit_pattern_edge. intros Hl. pose proof (write_tlv_grows b PATTERN_EDGE (write_uint (write_uint [] NODE_ID e.1) PATTERN_TAG e.2)) as Hg. pose proof (zlen_nonneg b).
  rewrite write_tlv_eq by (lia || u64_const). rewrite !write_uint_eq by u64_const. unfold pattern_field. cbn [fst snd]. by rewrite wire_two.
Qed.
Lemma emit_symbol_eq b s : zlen (emit_symbol b s) <= u64_max -> emit_symbol b s = b ++ tlv_bytes (symbol_field s).1 (symbol_field s).2.
Proof.
  unfold emit_symbol. intros Hl. pose proof (write_tlv_grows b TAG_SYMBOL (write_tlv (write_uint [] PATTERN_TAG s.1) IDENTIFIER s.2)) as Hg. pose proof (zlen_nonneg b).
  pose proof (write_tlv_grows (write_uint [] PATTERN_TAG s.1) IDENTIFIER s.2). pose proof (zlen_nonneg (write_uint [] PATTERN_TAG s.1)).
  rewrite write_tlv_eq by (lia || u64_const). rewrite write_tlv_eq by (lia || u64_const). rewrite write_uint_eq by u64_const. unfold symbol_field. cbn [fst snd]. by rewrite wire_two.
Qed.
Lemma tlv_grows b t v : zlen b <= zlen (write_tlv b t v).
Proof. pose proof (write_tlv_grows b t v). pose proof (zlen_nonneg v). lia. Qed.

Lemma emit_node_eq id n : zlen (emit_node id n) <= u64_max -> emit_node id n = wire (node_fields id n).
Proof.
  unfold emit_node. intros Hl. set (b1 := write_uint [] NODE_ID id) in *. set (b2 := fold_left emit_value_edge (b_values n) b1) in *.
  set (b3 := fold_left emit_pattern_edge (combine (b_patterns n) (b_tags n)) b2) in *.
  assert (zlen b3 <= u64_max) as H3 by (eapply Z.le_trans; [|exact Hl]; apply fold_grows; intros; apply tlv_grows).
  assert (zlen b2 <= u64_max) as H2 by (eapply Z.le_trans; [|exact H3]; apply fold_grows; intros; apply tlv_grows).
  rewrite (fold_wire _ key_field) by (done || (intros; apply tlv_grows) || (intros; by apply write_uint_eq; u64_const)).
  unfold b3. rewrite (fold_wire _ pattern_field) by (done || (intros; apply tlv_grows) || apply emit_pattern_edge_eq).
  unfold b2. rewrite (fold_wire _ value_field) by (done || (intros; apply tlv_grows) || apply emit_value_edge_eq).
  unfold b1. rewrite write_uint_eq by u64_const. unfold node_fields. rewrite wire_cons, !wire_app, <- !app_assoc. done.
Qed.
Lemma emit_nodes_grows ns id out : zlen out <= zlen (emit_nodes id ns out).
Proof. revert id out. induction ns as [|n ns IH]; intros id out; simpl; [lia|]. etransitivity; [apply tlv_grows|apply IH]. Qed.
Lemma emit_nodes_eq ns : forall id out, zlen (emit_nodes id ns out) <= u64_max -> emit_nodes id ns out = out ++ wire (nodes_fields id ns).
Proof.
  induction ns as [|n ns IH]; intros id out Hl; simpl in *; [by rewrite app_nil_r|].
  rewrite IH by done. pose proof (emit_nodes_grows ns (id + 1) (write_tlv out NODE (emit_node id n))). pose proof (write_tlv_grows out NODE (emit_node id n)).
  pose proof (zlen_nonneg out). rewrite write_tlv_eq by (lia || u64_const). rewrite emit_node_eq by lia. rewrite wire_cons, <- app_assoc. done.
Qed.
Lemma emit_eq ns cnt sy : zlen (emit ns cnt sy) <= u64_max -> emit ns cnt sy = wire (model_fields ns cnt sy).
Proof.
  unfold emit. intros Hl. set (b1 := write_uint _ NAMED_PATTERN_NUM cnt) in *.
  assert (zlen (emit_nodes 0 ns b1) <= u64_max) as H1 by (eapply Z.le_trans; [|exact Hl]; apply fold_grows; intros; apply tlv_grows).
  rewrite (fold_wire _ symbol_field) by (done || (intros; apply tlv_grows) || apply emit_symbol_eq). rewrite emit_nodes_eq by done.
  unfold b1. rewrite !write_uint_eq by u64_const. unfold model_fields. rewrite !wire_app. unfold wire at 3. cbn [map concat fst snd]. rewrite !app_nil_r, <- !app_assoc. done.
Qed.

(** *** Reading the elements *)

Lemma parse_literal v : lit_ok v -> parse_name_component ([0x08; wrap 8 (zlen v)] ++ v) = Ok (Component.generic v).
Proof.
  intros [_ Hl]. pose proof (zlen_nonneg v). unfold wrap. rewrite Z.mod_small by (change (2 ^ 8) with 256; lia).
  unfold parse_name_component. cbn [app read_varu64 Z.leb Z.compare Pos.compare Pos.compare_cont map_err]. unfold slice_from_ at 1. change (Z.to_nat 1) with 1%nat. cbn [drop read_varu64].
  rewrite (proj2 (Z.leb_le (zlen v) 252)) by done. cbn [map_err]. change (1 + 1) with 2. rewrite !zlen_cons.
  rewrite (proj2 (Z.ltb_ge usize_max _)) by (unfold usize_max, u64_max; lia). rewrite (proj2 (Z.ltb_ge _ _)) by lia.
  unfold slice. change (Z.to_nat 2) with 2%nat. cbn [drop]. rewrite drop_0, take_ge; [done|]. unfold zlen. lia.
Qed.

Lemma value_edge_read e : lit_ok e.1 -> 0 <= e.2 <= u64_max -> zlen (value_field e).2 <= u64_max ->
  LvsValueEdge_decode (value_field e).2 = Ok (mkValueEdge e.2 (Component.generic e.1)).
Proof.
  intros Hv Hd Hl. unfold LvsValueEdge_decode, value_field in *. cbn [snd] in *.
  rewrite (each_tlv_wire value_step _ _ (Some e.2, Some (Component.generic e.1))); [done|fields_u64|done|].
  cbn [run_steps]. unfold value_step at 1. change (NODE_ID =? NODE_ID) with true. cbv iota. rewrite read_uint_bytes by done.
  unfold value_step. change (COMPONENT_VALUE =? NODE_ID) with false. change (COMPONENT_VALUE =? COMPONENT_VALUE) with true. cbv iota. by rewrite parse_literal.
Qed.
Lemma pattern_edge_read e : 0 <= e.1 <= u64_max -> 0 <= e.2 <= u64_max -> zlen (pattern_field e).2 <= u64_max ->
  LvsPatternEdge_decode (pattern_field e).2 = Ok (mkPatternEdge e.1 e.2 [], false).
Proof.
  intros Hd Ht Hl. unfold LvsPatternEdge_decode, pattern_field in *. cbn [snd] in *.
  rewrite (each_tlv_wire pattern_step _ _ (Some e.1, Some e.2, [], false)); [done|fields_u64|done|].
  cbn [run_steps]. unfold pattern_step at 1. change (NODE_ID =? NODE_ID) with true. cbv iota. rewrite read_uint_bytes by done.
  unfold pattern_step. change (PATTERN_TAG =? NODE_ID) with false. change (PATTERN_TAG =? PATTERN_TAG) with true. cbv iota. by rewrite read_uint_bytes.
Qed.
Lemma symbol_read s : 0 <= s.1 <= u64_max -> utf8_valid s.2 = true -> zlen (symbol_field s).2 <= u64_max ->
  LvsTagSymbol_decode (symbol_field s).2 = Ok (mkTagSymbol s.1 s.2).
Proof.
  intros Hd Hu Hl. unfold LvsTagSymbol_decode, symbol_field in *. cbn [snd] in *.
  rewrite (each_tlv_wire symbol_step _ _ (Some s.1, Some s.2)); [done|fields_u64|done|].
  cbn [run_steps]. unfold symbol_step at 1. change (PATTERN_TAG =? PATTERN_TAG) with true. cbv iota. rewrite read_uint_bytes by done.
  unfold symbol_step. change (IDENTIFIER =? PATTERN_TAG) with false. change (IDENTIFIER =? IDENTIFIER) with true. cbv iota. unfold read_string. by rewrite Hu.
Qed.

(** What a node is read as. *)
Definition node_of (id : Z) (n : NodeB) : LvsNode :=
  mkNode id None [] (map (fun e => mkValueEdge e.2 (Component.generic e.1)) (b_values n))
    (map (fun e => mkPatternEdge e.1 e.2 []) (combine (b_patterns n) (b_tags n))) (b_keys n).
Fixpoint nodes_of (id : Z) (ns : list NodeB) : list LvsNode :=
  match ns with [] => [] | n :: ns => node_of id n :: nodes_of (id + 1) ns end.

(** The numbers in a node are in range and its literals can be expressed. *)
Definition nodeb_ok (n : NodeB) : Prop :=
  Forall (fun e => lit_ok e.1 /\ 0 <= e.2 <= u64_max) (b_values n) /\
  Forall (fun e => 0 <= e.1 <= u64_max /\ 0 <= e.2 <= u64_max) (combine (b_patterns n) (b_tags n)) /\
  Forall (fun k => 0 <= k <= u64_max) (b_keys n).

Lemma wire_elem f fs : f ∈ fs -> zlen f.2 <= zlen (wire fs).
Proof.
  induction 1 as [f fs|f g fs _ IH]; rewrite wire_cons, zlen_app, zlen_tlv_bytes.
  - pose proof (tlv_size_bounds f.1 (zlen f.2) (zlen_nonneg f.2)). pose proof (zlen_nonneg (wire fs)). lia.
  - pose proof (tlv_size_bounds g.1 (zlen g.2) (zlen_nonneg g.2)). pose proof (zlen_nonneg g.2). lia.
Qed.

Lemma run_values es i p rn ve pe sc f : Forall (fun e => lit_ok e.1 /\ 0 <= e.2 <= u64_max) es -> Forall (fun e => zlen (value_field e).2 <= u64_max) es ->
  run_steps node_step (map value_field es) (i, mkNode 0 p rn ve pe sc, f) =
  Ok (i, mkNode 0 p rn (ve ++ map (fun e => mkValueEdge e.2 (Component.generic e.1)) es) pe sc, f).
Proof.
  intros H1 H2. revert ve. induction H1 as [|e es [Hv Hd] _ IH]; intros ve; [by rewrite app_nil_r|]. apply Forall_cons in H2 as [Hz H2]. specialize (IH H2).
  cbn [map run_steps]. pose proof (value_edge_read e Hv Hd Hz) as Hr. unfold value_field in Hr |- * at 1. cbn [snd] in Hr. unfold node_step at 1.
  change (VALUE_EDGE =? NODE_ID) with false. change (VALUE_EDGE =? PARENT_ID) with false. change (VALUE_EDGE =? IDENTIFIER) with false. change (VALUE_EDGE =? VALUE_EDGE) with true. cbv iota.
  rewrite Hr. rewrite IH. by rewrite <- app_assoc.
Qed.
Lemma run_patterns es i p rn ve pe sc f : Forall (fun e => 0 <= e.1 <= u64_max /\ 0 <= e.2 <= u64_max) es -> Forall (fun e => zlen (pattern_field e).2 <= u64_max) es ->
  run_steps node_step (map pattern_field es) (i, mkNode 0 p rn ve pe sc, f) =
  Ok (i, mkNode 0 p rn ve (pe ++ map (fun e => mkPatternEdge e.1 e.2 []) es) sc, f).
Proof.
  intros H1 H2. revert pe. induction H1 as [|e es [Hd Ht] _ IH]; intros pe; [by rewrite app_nil_r|]. apply Forall_cons in H2 as [Hz H2]. specialize (IH H2).
  cbn [map run_steps]. pose proof (pattern_edge_read e Hd Ht Hz) as Hr. unfold pattern_field in Hr |- * at 1. cbn [snd] in Hr. unfold node_step at 1.
  change (PATTERN_EDGE =? NODE_ID) with false. change (PATTERN_EDGE =? PARENT_ID) with false. change (PATTERN_EDGE =? IDENTIFIER) with false.
  change (PATTERN_EDGE =? VALUE_EDGE) with false. change (PATTERN_EDGE =? PATTERN_EDGE) with true. cbv iota.
  rewrite Hr, orb_false_r. rewrite IH. by rewrite <- app_assoc.
Qed.
Lemma run_keys ks i p rn ve pe sc f : Forall (fun k => 0 <= k <= u64_max) ks ->
  run_steps node_step (map key_field ks) (i, mkNode 0 p rn ve pe sc, f) = Ok (i, mkNode 0 p rn ve pe (sc ++ ks), f).
Proof.
  intros H1. revert sc. induction H1 as [|k ks Hk _ IH]; intros sc; [by rewrite app_nil_r|]. cbn [map run_steps key_field]. unfold node_step at 1.
  change (KEY_NODE_ID =? NODE_ID) with false. change (KEY_NODE_ID =? PARENT_ID) with false. change (KEY_NODE_ID =? IDENTIFIER) with false.
  change (KEY_NODE_ID =? VALUE_EDGE) with false. change (KEY_NODE_ID =? PATTERN_EDGE) with false. change (KEY_NODE_ID =? KEY_NODE_ID) with true. cbv iota.
  rewrite read_uint_bytes by done. rewrite IH. by rewrite <- app_assoc.
Qed.

Lemma fields_bounded {A} (F : A -> Z * bytes) l fs : (forall a, a ∈ l -> F a ∈ fs) -> zlen (wire fs) <= u64_max -> Forall (fun a => zlen (F a).2 <= u64_max) l.
Proof. intros Hin Hl. apply Forall_forall. intros a Ha. pose proof (wire_elem (F a) fs (Hin a Ha)). lia. Qed.
Lemma map_elem {A B} (f : A -> B) l a : a ∈ l -> f a ∈ map f l.
Proof. apply (list_elem_of_fmap_2 f). Qed.

Lemma node_read id n : nodeb_ok n -> 0 <= id <= u64_max -> zlen (wire (node_fields id n)) <= u64_max ->
  LvsNode_decode (wire (node_fields id n)) = Ok (node_of id n, false).
Proof.
  intros (Hv & Hp & Hk) Hid Hl. unfold LvsNode_decode.
  rewrite (each_tlv_wire node_step _ _ (Some id, mkNode 0 None [] (value_edges (node_of id n)) (pattern_edges (node_of id n)) (b_keys n), false)); [done| |done|].
  { unfold node_fields. apply Forall_cons. split; [cbn [fst]; u64_const|]. rewrite !Forall_app, !Forall_map.
    repeat split; apply Forall_forall; intros x _; cbn [fst value_field pattern_field key_field]; u64_const. }
  unfold node_fields in *. cbn [run_steps]. unfold node_step at 1. change (NODE_ID =? NODE_ID) with true. cbv iota. rewrite read_uint_bytes by done.
  erewrite run_steps_app.
  2: { apply run_values; [done|]. eapply fields_bounded; [|exact Hl]. intros a Ha. right. apply elem_of_app. left. by apply map_elem. }
  erewrite run_steps_app.
  2: { apply run_patterns; [done|]. eapply fields_bounded; [|exact Hl]. intros a Ha. right. rewrite !elem_of_app. right. left. by apply map_elem. }
  rewrite run_keys by done. done.
Qed.

Lemma run_nodes ns : forall id ve st ct ms sy f, Forall nodeb_ok ns -> 0 <= id -> id + zlen ns <= u64_max ->
  Forall (fun g => zlen g.2 <= u64_max) (nodes_fields id ns) ->
  run_steps model_step (nodes_fields id ns) (mkParts ve st ct ms sy f) = Ok (mkParts ve st ct (ms ++ nodes_of id ns) sy f).
Proof.
  induction ns as [|n ns IH]; intros id ve st ct ms sy f Hok Hid Hu Hl; [by rewrite app_nil_r|]. cbn [nodes_fields] in Hl |- *.
  apply Forall_cons in Hok as [Hn Hok]. apply Forall_cons in Hl as [Hl1 Hl]. rewrite zlen_cons in Hu. pose proof (zlen_nonneg ns). cbn [run_steps]. unfold model_step at 1.
  change (NODE =? VERSION) with false. change (NODE =? NODE_ID) with false. change (NODE =? NAMED_PATTERN_NUM) with false. change (NODE =? NODE) with true. cbv iota.
  rewrite node_read by (done || lia). rewrite orb_false_r, IH by (done || lia). by rewrite <- app_assoc.
Qed.
Lemma run_symbols ss ve st ct ms sy f : Forall (fun s => 0 <= s.1 <= u64_max /\ utf8_valid s.2 = true) ss -> Forall (fun s => zlen (symbol_field s).2 <= u64_max) ss ->
  run_steps model_step (map symbol_field ss) (mkParts ve st ct ms sy f) = Ok (mkParts ve st ct ms (sy ++ map (fun s => mkTagSymbol s.1 s.2) ss) f).
Proof.
  intros H1 H2. revert sy. induction H1 as [|s ss [Ht Hu] _ IH]; intros sy; [by rewrite app_nil_r|]. apply Forall_cons in H2 as [Hz H2]. specialize (IH H2).
  cbn [map run_steps]. pose proof (symbol_read s Ht Hu Hz) as Hr. unfold symbol_field in Hr |- * at 1. cbn [snd] in Hr. unfold model_step at 1.
  change (TAG_SYMBOL =? VERSION) with false. change (TAG_SYMBOL =? NODE_ID) with false. change (TAG_SYMBOL =? NAMED_PATTERN_NUM) with false.
  change (TAG_SYMBOL =? NODE) with false. change (TAG_SYMBOL =? TAG_SYMBOL) with true. cbv iota. rewrite Hr, IH. by rewrite <- app_assoc.
Qed.

Lemma nodes_of_ids ns : forall i, check_ids i (nodes_of i ns) = Ok tt.
Proof. induction ns as [|n ns IH]; intros i; simpl; [done|]. rewrite Z.eqb_refl. apply IH. Qed.
Lemma nodes_of_length i ns : length (nodes_of i ns) = length ns.
Proof. revert i. induction ns as [|n ns IH]; intros i; simpl; [done|]. by rewrite IH. Qed.
Lemma nodes_of_lookup ns : forall i j, nodes_of i ns !! j = node_of (i + Z.of_nat j) <$> ns !! j.
Proof.
  induction ns as [|n ns IH]; intros i j; simpl; [done|]. destruct j as [|j]; simpl; [do 2 f_equal; lia|]. rewrite IH. do 2 f_equal. lia.
Qed.
Lemma check_range_intro n ds : Forall (fun d => d < n) ds -> check_range n ds = Ok tt.
Proof. induction 1 as [|d ds Hd _ IH]; simpl; [done|]. destruct (Z.leb_spec n d); [lia|done]. Qed.

(** What the emitted schema is read as. *)
Definition model_of (ns : list NodeB) (cnt : Z) (sy : list (Z * bytes)) : LvsModel :=
  mkModel LVS_VERSION 0 cnt (nodes_of 0 ns) (map (fun s => mkTagSymbol s.1 s.2) sy) false.

Lemma fields_types ns i : Forall (fun f => is_u64 f.1) (nodes_fields i ns).
Proof. revert i. induction ns as [|n ns IH]; intros i; simpl; constructor; [cbn [fst]; u64_const|apply IH]. Qed.

Lemma decode_emit ns cnt sy : ns <> [] -> Forall nodeb_ok ns -> Forall (fun n => Forall (fun d => d < zlen ns) (targets (node_of 0 n))) ns ->
  0 <= cnt <= u64_max -> Forall (fun s => 0 <= s.1 <= u64_max /\ utf8_valid s.2 = true) sy -> zlen ns <= u64_max -> zlen (emit ns cnt sy) <= u64_max ->
  decode (emit ns cnt sy) = Ok (model_of ns cnt sy).
Proof.
  intros Hne Hok Htg Hcnt Hsy Hns Hl. pose proof (emit_eq ns cnt sy Hl) as He. rewrite He in Hl |- *.
  assert (Hall : forall f, f ∈ model_fields ns cnt sy -> zlen f.2 <= u64_max) by (intros f Hf; pose proof (wire_elem f _ Hf); lia).
  unfold decode. rewrite (each_tlv_wire model_step _ _ (mkParts (Some LVS_VERSION) (Some 0) (Some cnt) (nodes_of 0 ns) (map (fun s => mkTagSymbol s.1 s.2) sy) false)); [| |done|].
  - cbn [m_version m_start m_count m_nodes m_symbols m_fns ok_or]. rewrite Z.eqb_refl. cbn [negb]. rewrite nodes_of_ids.
    assert (zlen (nodes_of 0 ns) = zlen ns) as -> by (unfold zlen; by rewrite nodes_of_length).
    rewrite check_range_intro; [|apply Forall_concat; apply Forall_map].
    + destruct ns as [|n ns]; [done|]. rewrite zlen_cons. pose proof (zlen_nonneg ns). rewrite (proj2 (Z.leb_gt _ _)) by lia. done.
    + clear -Htg. generalize (zlen ns) Htg. intros z. clear Htg. generalize 0 at 2. induction ns as [|n ns IH]; intros i Htg; simpl; constructor.
      * apply Forall_cons in Htg as [H _]. exact H.
      * apply IH. by apply Forall_cons in Htg as [_ H].
  - unfold model_fields. rewrite !Forall_app. repeat split; [fields_u64|apply fields_types|]. apply Forall_map, Forall_forall. intros x _. cbn [fst symbol_field]. u64_const.
  - unfold model_fields in *. erewrite run_steps_app; [|cbn [run_steps]; unfold model_step; change (VERSION =? VERSION) with true; change (NODE_ID =? VERSION) with false;
      change (NODE_ID =? NODE_ID) with true; change (NAMED_PATTERN_NUM =? VERSION) with false; change (NAMED_PATTERN_NUM =? NODE_ID) with false;
      change (NAMED_PATTERN_NUM =? NAMED_PATTERN_NUM) with true; cbv iota; rewrite !read_uint_bytes by (done || (vm_compute; split; discriminate)); reflexivity].
    erewrite run_steps_app; [|apply run_nodes; [done|done|lia|apply Forall_forall; intros f Hf; apply Hall; rewrite !elem_of_app; auto]].
    rewrite run_symbols; [done|done|]. apply Forall_forall. intros s Hs. apply Hall. rewrite !elem_of_app. right. right. by apply map_elem.
Qed.

(** ** What the compiled schema permits *)

Definition accepts (c : Comp) (x : NameComponent) : Prop := match c with Literal v => x = Component.generic v | Var _ => True end.
Definition pattern_accepts (p : list Comp) (name : Name) : Prop := Forall2 accepts p name.

Section compiled.
Context (ns : list NodeB) (lab : list (list Comp)) (k : nat) (G : graph ns lab k) (cnt : Z) (sy : list (Z * bytes)) (r : UserFnRegistry).

Lemma M_lookup i node : nodes (model_of ns cnt sy) !! i = Some node -> exists n, ns !! i = Some n /\ node = node_of (Z.of_nat i) n.
Proof. simpl. rewrite nodes_of_lookup. destruct (ns !! i) as [n|]; [|done]. intros [= <-]. by exists n. Qed.
Lemma M_lookup_some i n : ns !! i = Some n -> nodes (model_of ns cnt sy) !! i = Some (node_of (Z.of_nat i) n).
Proof. intros Hn. simpl. by rewrite nodes_of_lookup, Hn. Qed.
Lemma node_value ve id n : ve ∈ value_edges (node_of id n) <-> exists e, e ∈ b_values n /\ ve = mkValueEdge e.2 (Component.generic e.1).
Proof. simpl. rewrite (list_elem_of_fmap (fun e => mkValueEdge e.2 (Component.generic e.1))). naive_solver. Qed.
Lemma node_pattern pe id n : pe ∈ pattern_edges (node_of id n) -> pe_dest pe ∈ b_patterns n /\ constraints pe = [].
Proof.
  simpl. rewrite (list_elem_of_fmap (fun e => mkPatternEdge e.1 e.2 [])). intros ([d t] & -> & He). split; [|done].
  apply list_elem_of_In in He. apply in_combine_l in He. by apply list_elem_of_In.
Qed.
Lemma node_pattern_some i n d id : ns !! i = Some n -> d ∈ b_patterns n -> exists pe, pe ∈ pattern_edges (node_of id n) /\ pe_dest pe = d /\ constraints pe = [].
Proof.
  intros Hn Hd. apply list_elem_of_lookup_1 in Hd as [j Hj]. pose proof (g_tags _ _ _ G _ _ Hn) as Ht.
  destruct (lookup_lt_is_Some_2 (b_tags n) j) as [t Htj]; [rewrite Ht; by eapply lookup_lt_Some|].
  exists (mkPatternEdge d t []). split_conj; [|done|done]. simpl. apply (list_elem_of_fmap_2' (fun e => mkPatternEdge e.1 e.2 []) _ (d, t)); [|done].
  apply (list_elem_of_lookup_2 _ j). change (combine (b_patterns n) (b_tags n)) with (zip (b_patterns n) (b_tags n)).
  by apply lookup_zip_with_Some; exists d, t.
Qed.

Lemma reaches_labels name i b d p : reaches (model_of ns cnt sy) r name i b d -> 0 <= i -> lab !! Z.to_nat i = Some p ->
  exists q, 0 <= d /\ lab !! Z.to_nat d = Some (p ++ q) /\ pattern_accepts q name.
Proof.
  intros Hr. revert p. induction Hr as [n b|comp rest n b node ve n' Hn Hve Hv Hr IH|comp rest n b node pe n' Hn Hpe Hm Hr IH]; intros p H0 Hl.
  - exists []. rewrite app_nil_r. split_conj; [done|done|constructor].
  - apply M_lookup in Hn as (nb & Hnb & ->). apply node_value in Hve as ([v d'] & Hd' & ->). simpl in *.
    destruct (g_values _ _ _ G _ _ _ _ Hnb Hd') as (Hd0 & p' & Hp' & Hl'). rewrite Hl in Hp'. injection Hp' as <-.
    destruct (IH _ Hd0 Hl') as (q & Hq0 & Hq & Hacc). exists (Literal v :: q). rewrite <- app_assoc in Hq. split_conj; [done|done|]. constructor; [by simpl|done].
  - apply M_lookup in Hn as (nb & Hnb & ->). apply node_pattern in Hpe as [Hd' _].
    destruct (g_patterns _ _ _ G _ _ _ Hnb Hd') as (Hd0 & p' & x & Hp' & Hl'). rewrite Hl in Hp'. injection Hp' as <-.
    destruct (IH _ Hd0 Hl') as (q & Hq0 & Hq & Hacc). exists (Var x :: q). rewrite <- app_assoc in Hq. split_conj; [done|done|]. constructor; [by simpl|done].
Qed.

Lemma reaches_snoc name n b i x j : reaches (model_of ns cnt sy) r name n b i -> (forall b', reaches (model_of ns cnt sy) r [x] i b' j) -> reaches (model_of ns cnt sy) r (name ++ [x]) n b j.
Proof. induction 1; intros Hx; simpl; [apply Hx|eapply reaches_value; eauto|eapply reaches_pattern; eauto]. Qed.

Lemma labels_reach d : forall q name b, lab !! d = Some q -> pattern_accepts q name -> reaches (model_of ns cnt sy) r name 0 b (Z.of_nat d).
Proof.
  induction (lt_wf d) as [d _ IH]. intros q name b Hq Hacc. destruct d as [|d].
  { rewrite (g_root _ _ _ G) in Hq. injection Hq as <-. inversion Hacc; subst. apply reaches_end. }
  destruct (g_incoming _ _ _ G (S d) q ltac:(lia) Hq) as (i & n & p & c & Hi & Hn & Hp & -> & Hc).
  apply Forall2_app_inv_l in Hacc as (name' & xs & Hacc' & Hx & ->). inversion Hx as [|? x ? ? Hcx Hnil]; subst. inversion Hnil; subst.
  eapply reaches_snoc; [by apply (IH i Hi p)|]. intros b'. destruct c as [v|y]; simpl in Hcx.
  - eapply reaches_value; [rewrite Nat2Z.id; by apply M_lookup_some|apply node_value; exists (v, Z.of_nat (S d)); split; [exact Hc|reflexivity]|by simpl|]. apply reaches_end.
  - destruct (node_pattern_some i n _ (Z.of_nat i) Hn Hc) as (pe & Hpe & <- & Hcs).
    eapply reaches_pattern; [rewrite Nat2Z.id; by apply M_lookup_some|exact Hpe|by unfold pattern_edge_matches; rewrite Hcs|]. apply reaches_end.
Qed.

(** *** The walk is short *)

Lemma next_fan i n comp b : ns !! Z.to_nat i = Some n -> (length (next (model_of ns cnt sy) r i comp b) <= fan n)%nat.
Proof.
  intros Hn. unfold next. rewrite (M_lookup_some _ _ Hn). rewrite length_app, !length_map. unfold fan.
  pose proof (List.filter_length_le (fun ve => bool_decide (ve_value ve = comp)) (value_edges (node_of (Z.of_nat (Z.to_nat i)) n))).
  pose proof (List.filter_length_le (fun pe => pattern_edge_matches pe comp b r) (pattern_edges (node_of (Z.of_nat (Z.to_nat i)) n))).
  simpl in *. rewrite !length_map in *. rewrite length_combine in *. lia.
Qed.
Lemma next_inner i comp b e : e ∈ next (model_of ns cnt sy) r i comp b -> (0 < Z.to_nat e.1)%nat.
Proof.
  intros He. assert (exists p c, lab !! Z.to_nat e.1 = Some (p ++ [c])) as (p & c & Hl).
  { apply next_elem in He as (node & (n & Hn & ->)%M_lookup & [(ve & ([v d] & Hd & ->)%node_value & _ & ->)|(pe & (Hd & _)%node_pattern & _ & ->)]).
    - destruct (g_values _ _ _ G _ _ _ _ Hn Hd) as (_ & p & _ & Hl). eauto.
    - destruct (g_patterns _ _ _ G _ _ _ Hn Hd) as (_ & p & x & _ & Hl). eauto. }
  destruct (Z.to_nat e.1) as [|j] eqn:Hj; [|lia]. rewrite (g_root _ _ _ G) in Hl. by destruct p.
Qed.
Lemma sum_le (l : list (Z * Bindings)) f z : (forall e, e ∈ l -> f e <= z) -> sum (map f l) <= Z.of_nat (length l) * z.
Proof.
  induction l as [|e l IH]; intros Hf; simpl; [lia|]. specialize (IH ltac:(intros e' He'; apply Hf; by right)). pose proof (Hf e ltac:(by left)). lia.
Qed.
Lemma concat_le (l : list (Z * Bindings)) (f : Z * Bindings -> list (Z * Bindings)) : (forall e, e ∈ l -> zlen (f e) <= 1) -> zlen (concat (map f l)) <= Z.of_nat (length l).
Proof.
  induction l as [|e l IH]; intros Hf; simpl; [unfold zlen; simpl; lia|]. rewrite zlen_app. specialize (IH ltac:(intros e' He'; apply Hf; by right)). pose proof (Hf e ltac:(by left)). lia.
Qed.
Lemma next_none i comp b : ns !! Z.to_nat i = None -> next (model_of ns cnt sy) r i comp b = [].
Proof. intros Hn. unfold next. simpl. by rewrite nodes_of_lookup, Hn. Qed.

Lemma chain_walk comps : forall i b, (0 < Z.to_nat i)%nat -> steps (model_of ns cnt sy) r comps i b <= 1 + zlen comps /\ zlen (endings (model_of ns cnt sy) r comps i b) <= 1.
Proof.
  induction comps as [|comp rest IH]; intros i b Hi; [simpl; unfold zlen; simpl; lia|]. cbn [steps endings]. rewrite zlen_cons. pose proof (zlen_nonneg rest).
  assert (length (next (model_of ns cnt sy) r i comp b) <= 1)%nat as Hlen.
  { destruct (ns !! Z.to_nat i) as [n|] eqn:Hn; [|by rewrite next_none; [simpl; lia|]]. pose proof (next_fan i n comp b Hn). pose proof (g_fan _ _ _ G _ _ Hn) as Hf.
    rewrite decide_False in Hf by lia. lia. }
  assert (Hin : forall e, e ∈ next (model_of ns cnt sy) r i comp b -> steps (model_of ns cnt sy) r rest e.1 e.2 <= 1 + zlen rest /\ zlen (endings (model_of ns cnt sy) r rest e.1 e.2) <= 1) by (intros e He; apply IH; by eapply next_inner).
  split.
  - pose proof (sum_le (next (model_of ns cnt sy) r i comp b) (fun e => steps (model_of ns cnt sy) r rest e.1 e.2) (1 + zlen rest) ltac:(intros e He; by apply Hin)). nia.
  - pose proof (concat_le (next (model_of ns cnt sy) r i comp b) (fun e => endings (model_of ns cnt sy) r rest e.1 e.2) ltac:(intros e He; by apply Hin)). lia.
Qed.
Lemma compiled_limits name : 1 + Z.of_nat k * zlen name <= MAX_WALK_STEPS -> Z.of_nat k <= MAX_WALK_ENDINGS -> within_limits (model_of ns cnt sy) r name.
Proof.
  intros Hs He. unfold within_limits. change (start_id (model_of ns cnt sy)) with 0. destruct name as [|comp rest]; [simpl; unfold zlen, MAX_WALK_STEPS, MAX_WALK_ENDINGS; simpl; lia|].
  cbn [steps endings]. rewrite zlen_cons in Hs. pose proof (zlen_nonneg rest).
  assert (length (next (model_of ns cnt sy) r 0 comp ∅) <= k)%nat as Hlen.
  { destruct (ns !! Z.to_nat 0) as [n|] eqn:Hn; [|by rewrite next_none; [simpl; lia|]]. pose proof (next_fan 0 n comp ∅ Hn). pose proof (g_fan _ _ _ G _ _ Hn) as Hf. simpl in *. lia. }
  assert (Hin : forall e, e ∈ next (model_of ns cnt sy) r 0 comp ∅ -> steps (model_of ns cnt sy) r rest e.1 e.2 <= 1 + zlen rest /\ zlen (endings (model_of ns cnt sy) r rest e.1 e.2) <= 1) by (intros e He'; apply chain_walk; by eapply next_inner).
  split.
  - pose proof (sum_le (next (model_of ns cnt sy) r 0 comp ∅) (fun e => steps (model_of ns cnt sy) r rest e.1 e.2) (1 + zlen rest) ltac:(intros e He'; by apply Hin)). nia.
  - pose proof (concat_le (next (model_of ns cnt sy) r 0 comp ∅) (fun e => endings (model_of ns cnt sy) r rest e.1 e.2) ltac:(intros e He'; by apply Hin)). lia.
Qed.
End compiled.

(** What the source says: a rule accepts the data name, and a rule that it names
    among its signers accepts the key name. *)
Definition rules_permit (rules : list Rule) (data_name key_name : Name) : Prop :=
  exists ru signer, ru ∈ rules /\ signer ∈ rules /\ rule_id signer ∈ signers ru /\ pattern_accepts (pattern ru) data_name /\ pattern_accepts (pattern signer) key_name.

Lemma parse_line_ids line raw rules rules' : parse_line line raw rules = Ok rules' -> NoDup (map rule_id rules) -> NoDup (map rule_id rules').
Proof.
  unfold parse_line. destruct (trim _) as [|x text]; [by intros [= <-]|]. destruct (strip_prefix _ _) as [rest|]; [|done]. simpl.
  destruct (split_once _ _) as [[i rest']|]; [|done]. simpl. destruct (trim i) as [|y i']; [done|].
  destruct (match split_once (str "<=") rest' with Some _ => _ | None => _ end) as [ps sg]. destruct (parse_pattern _) as [pat|]; [|done]. simpl. destruct pat as [|c pat]; [done|].
  destruct (existsb _ rules) eqn:He; [done|]. intros [= <-] Hnd. rewrite map_app. apply NoDup_app. split_conj; [done| |apply NoDup_singleton].
  intros z Hz Hz'. simpl in Hz'. apply list_elem_of_singleton in Hz' as ->. apply list_elem_of_fmap in Hz as (r & Hid & Hr).
  assert (existsb (fun r => bool_decide (rule_id r = y :: i')) rules = true) as Hx; [|by rewrite Hx in He].
  apply List.existsb_exists. exists r. split; [by apply list_elem_of_In|]. by apply bool_decide_eq_true.
Qed.
Lemma parse_ids source rules : parse source = Ok rules -> NoDup (map rule_id rules).
Proof.
  unfold parse. assert (NoDup (map rule_id [])) as Hnd by constructor. revert Hnd. generalize (@nil Rule), 0, (lines source). intros acc i ls. revert i acc.
  induction ls as [|raw ls IH]; intros i acc Hnd; simpl; [by intros [= <-]|]. destruct (parse_line (i + 1) raw acc) as [acc'|] eqn:Hl; [|done].
  apply IH. by eapply parse_line_ids.
Qed.

Lemma emit_node_pos id n : 1 <= zlen (emit_node id n).
Proof.
  unfold emit_node. eapply Z.le_trans; [|apply fold_grows; intros; apply tlv_grows]. eapply Z.le_trans; [|apply fold_grows; intros; apply tlv_grows].
  eapply Z.le_trans; [|apply fold_grows; intros; apply tlv_grows]. unfold write_uint. eapply Z.le_trans; [|apply write_tlv_grows]. fold (uint_bytes id). pose proof (zlen_uint id). unfold zlen in *. simpl. lia.
Qed.
Lemma emit_nodes_size ns : forall id out, zlen out + zlen ns <= zlen (emit_nodes id ns out).
Proof.
  induction ns as [|n ns IH]; intros id out; simpl; [unfold zlen; simpl; lia|]. rewrite zlen_cons. specialize (IH (id + 1) (write_tlv out NODE (emit_node id n))).
  pose proof (write_tlv_grows out NODE (emit_node id n)). pose proof (emit_node_pos id n). lia.
Qed.
Lemma emit_size ns cnt sy : zlen ns <= zlen (emit ns cnt sy).
Proof.
  unfold emit. eapply Z.le_trans; [|apply fold_grows; intros; apply tlv_grows]. pose proof (emit_nodes_size ns 0 (write_uint (write_uint (write_uint [] VERSION LVS_VERSION) NODE_ID 0) NAMED_PATTERN_NUM cnt)) as H.
  pose proof (zlen_nonneg (write_uint (write_uint (write_uint [] VERSION LVS_VERSION) NODE_ID 0) NAMED_PATTERN_NUM cnt)). lia.
Qed.

(** *** The lowered rules *)

Section rules.
Context (rules : list Rule) (lab : list (list Comp)) (ns : list NodeB).
Context (Hlo : lowered (lower_rules rules) lab (length rules)) (Ht : terminals (terminal (lower_rules rules)) lab rules).
Context (Hs : sign_rules (terminal (lower_rules rules)) rules (l_nodes (lower_rules rules)) = Ok ns).

Lemma rules_keyed : keyed (l_nodes (lower_rules rules)) ns (signs (terminal (lower_rules rules)) rules).
Proof. apply sign_rules_ok; [|exact Hs]. intros ru Hru. destruct Ht as [Ht1 _]. destruct (Ht1 ru Hru) as (n & Hn & Hn0 & _). eauto. Qed.
Lemma rules_graph : graph ns lab (length rules).
Proof. destruct rules_keyed as [Hl Hk]. eapply graph_same; [exact Hl| |apply Hlo]. intros i n' Hi. destruct (Hk i n' Hi) as (n & Hn & Hse & _). eauto. Qed.
(** A node that a name in the terminals stands for. *)
Lemma terminal_node x n : terminal (lower_rules rules) !! x = Some n -> exists ru, ru ∈ rules /\ rule_id ru = x /\ 0 <= n < zlen ns /\ lab !! Z.to_nat n = Some (pattern ru).
Proof.
  destruct Ht as [Ht1 Ht2]. intros Hx. destruct (Ht2 x n Hx) as (ru & Hru & <-). destruct (Ht1 ru Hru) as (n' & Hn' & H0 & Hl). rewrite Hx in Hn'. injection Hn' as <-.
  exists ru. split_conj; [done|done|done| |done]. apply lookup_lt_Some in Hl. rewrite (g_length _ _ _ rules_graph) in Hl. unfold zlen. lia.
Qed.
Lemma label_bound d q : 0 <= d -> lab !! Z.to_nat d = Some q -> 0 <= d < zlen ns.
Proof. intros H0 Hl. apply lookup_lt_Some in Hl. rewrite (g_length _ _ _ rules_graph) in Hl. unfold zlen. lia. Qed.

Lemma keys_elem i n key : ns !! i = Some n -> key ∈ b_keys n <-> signs (terminal (lower_rules rules)) rules (Z.of_nat i) key.
Proof.
  intros Hn. destruct rules_keyed as [_ Hk]. destruct (Hk i n Hn) as (n0 & Hn0 & _ & Hx). rewrite Hx, (lo_keys _ _ _ Hlo _ _ Hn0), elem_of_nil. tauto.
Qed.

Lemma rules_nodeb_ok : zlen ns <= u64_max -> Forall nodeb_ok ns.
Proof.
  intros Hu. apply Forall_lookup. intros i n' Hi. destruct rules_keyed as [Hl Hk]. destruct (Hk i n' Hi) as (n & Hn & (Hv & Hp & Htg) & _). unfold nodeb_ok. split_conj.
  - apply Forall_forall. intros [v d] Hd. simpl. destruct (g_values _ _ _ rules_graph _ _ _ _ Hi Hd) as (H0 & p & _ & Hl'). pose proof (label_bound d _ H0 Hl').
    rewrite Hv in Hd. split; [by eapply (lo_lits _ _ _ Hlo)|lia].
  - apply Forall_forall. intros [d t] Hd. apply list_elem_of_In in Hd. pose proof (in_combine_l _ _ _ _ Hd) as Hd1. pose proof (in_combine_r _ _ _ _ Hd) as Hd2.
    apply list_elem_of_In in Hd1, Hd2. destruct (g_patterns _ _ _ rules_graph _ _ _ Hi Hd1) as (H0 & p & x & _ & Hl'). pose proof (label_bound d _ H0 Hl').
    rewrite Htg in Hd2. pose proof (lo_tags _ _ _ Hlo _ _ _ Hn Hd2). pose proof (lo_next _ _ _ Hlo). unfold zlen in *. simpl. lia.
  - apply Forall_forall. intros key Hkey. apply (keys_elem i n' key Hi) in Hkey as (ru & s & _ & _ & _ & Hk'). destruct (terminal_node s key Hk') as (_ & _ & _ & ? & _). lia.
Qed.
Lemma rules_targets : Forall (fun n => Forall (fun d => d < zlen ns) (targets (node_of 0 n))) ns.
Proof.
  apply Forall_lookup. intros i n Hi. unfold targets. simpl. rewrite !map_map, !Forall_app. repeat split.
  - apply Forall_map, Forall_forall. intros [v d] Hd. simpl. destruct (g_values _ _ _ rules_graph _ _ _ _ Hi Hd) as (H0 & p & _ & Hl'). by destruct (label_bound d _ H0 Hl').
  - apply Forall_map, Forall_forall. intros [d t] Hd. simpl. apply list_elem_of_In in Hd. pose proof (in_combine_l _ _ _ _ Hd) as Hd1. apply list_elem_of_In in Hd1.
    destruct (g_patterns _ _ _ rules_graph _ _ _ Hi Hd1) as (H0 & p & x & _ & Hl'). by destruct (label_bound d _ H0 Hl').
  - apply Forall_forall. intros key Hkey. apply (keys_elem i n key Hi) in Hkey as (ru & s & _ & _ & _ & Hk'). destruct (terminal_node s key Hk') as (_ & _ & _ & ? & _). lia.
Qed.

Lemma rules_permitted cnt sy r data_name key_name : permitted (model_of ns cnt sy) r data_name key_name <-> rules_permit rules data_name key_name.
Proof.
  pose proof (g_root _ _ _ rules_graph) as Hroot. split.
  - intros (d & key & node & Hd & (n & Hn & ->)%M_lookup & Hkey & Hk). simpl in Hkey. apply (keys_elem _ _ _ Hn) in Hkey as (ru & s & Hru & Hte & Hsi & Hks).
    destruct (reaches_labels _ _ _ rules_graph _ _ _ _ _ _ _ [] Hd (Z.le_refl 0) Hroot) as (q & Hd0 & Hq & Hacc).
    destruct (reaches_labels _ _ _ rules_graph _ _ _ _ _ _ _ [] Hk (Z.le_refl 0) Hroot) as (q' & Hk0 & Hq' & Hacc').
    rewrite Z2Nat.id in Hte by done. destruct (terminal_node s key Hks) as (signer & Hsr & <- & _ & Hl'). destruct Ht as [Ht1 _]. destruct (Ht1 ru Hru) as (n' & Hn' & _ & Hl).
    rewrite Hte in Hn'. injection Hn' as <-. simpl in Hq, Hq'. rewrite Hl in Hq. rewrite Hl' in Hq'. injection Hq as <-. injection Hq' as <-.
    exists ru, signer. done.
  - intros (ru & signer & Hru & Hsr & Hsi & Hacc & Hacc'). destruct Ht as [Ht1 _]. destruct (Ht1 ru Hru) as (d & Hd & Hd0 & Hl). destruct (Ht1 signer Hsr) as (key & Hk & Hk0 & Hl').
    pose proof (labels_reach ns lab (length rules) rules_graph cnt sy r _ _ _ ∅ Hl Hacc) as Hr. pose proof (labels_reach ns lab (length rules) rules_graph cnt sy r _ _ _ ∅ Hl' Hacc') as Hr'.
    rewrite Z2Nat.id in Hr, Hr' by done. destruct (label_bound d _ Hd0 Hl) as [_ Hdlt]. destruct (lookup_lt_is_Some_2 ns (Z.to_nat d)) as [n Hn]; [unfold zlen in Hdlt; lia|].
    exists d, key, (node_of (Z.of_nat (Z.to_nat d)) n). split_conj; [exact Hr|by apply M_lookup_some| |exact Hr'].
    apply (keys_elem _ _ _ Hn). exists ru, (rule_id signer). split_conj; [done|by rewrite Z2Nat.id|done|done].
Qed.
End rules.

(** C9: compiling a schema is correct.  When the source parses to rules whose literals
    have at most 252 bytes, and they can be lowered to a binary schema, the compiler
    returns a model that accepts a key for a Data name only if some rule matches the
    Data name and one of the rules it names as signers matches the key name; and it
    accepts all of these as long as rules and names stay within the limits of a walk. *)
Theorem lvs_compile_correct source rules wire :
  parse source = Ok rules -> Forall rule_ok rules -> compile_to_binary source = Ok wire -> zlen wire <= u64_max ->
  exists m, compile source = Ok m /\ forall data_name key_name,
    (check m data_name key_name = true -> rules_permit rules data_name key_name) /\
    (zlen rules <= MAX_WALK_ENDINGS -> 1 + zlen rules * zlen data_name <= MAX_WALK_STEPS -> 1 + zlen rules * zlen key_name <= MAX_WALK_STEPS ->
     rules_permit rules data_name key_name -> check m data_name key_name = true).
Proof.
  intros Hp Hok Hw Hz. unfold compile_to_binary in Hw. unfold compile. rewrite Hp in Hw |- *. simpl in Hw |- *. rewrite Hw. simpl. unfold lower in Hw.
  destruct (lower_rules_ok rules Hok (parse_ids _ _ Hp)) as (lab & Hlo & Ht). destruct (sign_rules _ _ _) as [ns|] eqn:Hs; [|done]. injection Hw as Hw.
  pose proof (emit_size ns (next_tag (lower_rules rules)) (l_symbols (lower_rules rules))) as Hsz. rewrite Hw in Hsz.
  pose proof (rules_graph rules lab ns Hlo Ht Hs) as Hg. pose proof (lo_next _ _ _ Hlo) as Hn. assert (zlen ns = zlen (l_nodes (lower_rules rules))) as Hlen by (unfold zlen; by rewrite (proj1 (rules_keyed rules lab ns Ht Hs))).
  rewrite <- Hw, decode_emit.
  - exists (model_of ns (next_tag (lower_rules rules)) (l_symbols (lower_rules rules))). split; [done|]. intros dn kn.
    destruct (lvs_check_facts (model_of ns (next_tag (lower_rules rules)) (l_symbols (lower_rules rules))) dn kn registry_new) as [Hsound Hcomplete]. unfold check. split.
    + intros Hx. by eapply (rules_permitted rules lab ns Hlo Ht Hs), Hsound.
    + intros H1 H2 H3 Hx. apply Hcomplete; [by apply (compiled_limits ns lab (length rules) Hg)|by apply (compiled_limits ns lab (length rules) Hg)|].
      by apply (rules_permitted rules lab ns Hlo Ht Hs).
  - intros ->. unfold zlen in *. simpl in *. lia.
  - apply (rules_nodeb_ok rules lab ns Hlo Ht Hs). lia.
  - by apply (rules_targets rules lab ns Hlo Ht Hs).
  - lia.
  - eapply Forall_impl; [apply (lo_symbols _ _ _ Hlo)|]. intros s (H1 & H2 & _). split; [lia|done].
  - lia.
  - by rewrite Hw.
Qed.

(** ** Rules of the textual grammar *)

(** A name is an instance of a pattern under an assignment of its variables. *)
Fixpoint instance (σ : trust_schema.Bindings) (p : trust_schema.NamePattern) (name : Name) : Prop :=
  match p, name with
  | [], _ => name = []
  | trust_schema.MultiCapture _ :: p, _ => instance σ p []
  | trust_schema.Literal c :: p, x :: name => x = c /\ instance σ p name
  | trust_schema.Capture v :: p, x :: name => σ !! v = Some x /\ instance σ p name
  | _ :: _, [] => False
  end.

Lemma instance_mono σ σ' p : forall name, σ ⊆ σ' -> instance σ p name -> instance σ' p name.
Proof.
  induction p as [|[c|v|v] p IH]; intros name Hs; simpl; [done|..].
  - destruct name as [|x name]; [done|]. intros [? ?]. auto.
  - destruct name as [|x name]; [done|]. intros [? ?]. split; [by eapply lookup_weaken|auto].
  - auto.
Qed.
Lemma matches_sound p : forall name b b', trust_schema.matches p name b = (true, b') -> b ⊆ b' /\ instance b' p name.
Proof.
  induction p as [|[c|v|v] p IH]; intros name b b'; simpl.
  - destruct name; [|done]. by intros [= <-].
  - destruct name as [|x name]; [done|]. destruct (bool_decide_reflect (x = c)) as [->|]; [|done]. intros Hm. destruct (IH _ _ _ Hm). auto.
  - destruct name as [|x name]; [done|]. destruct (b !! v) as [e|] eqn:Hb.
    + destruct (bool_decide_reflect (e = x)) as [->|]; [|done]. intros Hm. destruct (IH _ _ _ Hm) as [Hs Hi]. split_conj; [done|by eapply lookup_weaken|done].
    + intros Hm. destruct (IH _ _ _ Hm) as [Hs Hi]. split_conj; [|eapply lookup_weaken; [apply lookup_insert_eq|exact Hs]|done].
      etransitivity; [by apply insert_subseteq|exact Hs].
  - apply IH.
Qed.
Lemma matches_complete σ p : forall name b, b ⊆ σ -> instance σ p name -> exists b', trust_schema.matches p name b = (true, b') /\ b' ⊆ σ.
Proof.
  induction p as [|[c|v|v] p IH]; intros name b Hs; simpl.
  - intros ->. eauto.
  - destruct name as [|x name]; [done|]. intros [-> Hi]. rewrite bool_decide_eq_true_2 by done. auto.
  - destruct name as [|x name]; [done|]. intros [Hv Hi]. destruct (b !! v) as [e|] eqn:Hb.
    + assert (σ !! v = Some e) as He by (by eapply lookup_weaken). rewrite Hv in He. injection He as <-. rewrite bool_decide_eq_true_2 by done. auto.
    + apply IH; [|done]. by apply insert_subseteq_l.
  - auto.
Qed.
Lemma rule_check_instance ru data_name key_name : trust_schema.rule_check ru data_name key_name = true <->
  exists σ, instance σ (trust_schema.data_pattern ru) data_name /\ instance σ (trust_schema.key_pattern ru) key_name.
Proof.
  unfold trust_schema.rule_check. split.
  - destruct (trust_schema.matches _ data_name ∅) as [ok b] eqn:Hd. destruct ok; [|done]. simpl. destruct (trust_schema.matches _ key_name b) as [ok' b'] eqn:Hk. simpl. intros ->.
    apply matches_sound in Hd as [_ Hd], Hk as [Hs Hk]. exists b'. split; [by eapply instance_mono|done].
  - intros (σ & Hd & Hk). destruct (matches_complete σ _ _ ∅ (map_empty_subseteq σ) Hd) as (b & -> & Hb). destruct (matches_complete σ _ _ b Hb Hk) as (b' & -> & _). done.
Qed.

(** A schema of textual rules and an LVS model accepts a key for a Data name exactly
    when one of its rules has an assignment of components to variables under which both
    names are instances of its two patterns, a variable standing for the same component
    in both, or when the model accepts the pair. *)
Theorem schema_allows_iff s data_name key_name :
  trust_schema.allows s data_name key_name = true <->
  (exists ru σ, ru ∈ trust_schema.rules s /\ instance σ (trust_schema.data_pattern ru) data_name /\ instance σ (trust_schema.key_pattern ru) key_name) \/
  (exists m, trust_schema.lvs_model s = Some m /\ check_with m data_name key_name (trust_schema.user_fns s) = true).
Proof.
  unfold trust_schema.allows. rewrite orb_true_iff, List.existsb_exists. split.
  - intros [(ru & Hin & (σ & Hd & Hk)%rule_check_instance)|Hm].
    + left. exists ru, σ. by rewrite list_elem_of_In.
    + right. destruct (trust_schema.lvs_model s) as [m|]; [|done]. eauto.
  - intros [(ru & σ & Hin & Hd & Hk)|(m & -> & Hm)].
    + left. exists ru. split; [by apply list_elem_of_In|]. apply rule_check_instance. eauto.
    + by right.
Qed.

(** The hierarchical schema compares the first components and nothing else. *)
Lemma hierarchical_iff data_name key_name : trust_schema.allows trust_schema.hierarchical data_name key_name = true <->
  exists c d k, data_name = c :: d /\ key_name = c :: k.
Proof.
  unfold trust_schema.allows. simpl. rewrite !orb_false_r, rule_check_instance. simpl. split.
  - intros (σ & Hd & Hk). destruct data_name as [|x dn]; [done|]. destruct key_name as [|y kn]; [done|]. destruct Hd as [Hx _], Hk as [Hy _].
    rewrite Hx in Hy. injection Hy as <-. eauto.
  - intros (c & d & k & -> & ->). exists (<[str "org" := c]> ∅). split; (split; [apply (lookup_insert_eq (∅ : trust_schema.Bindings))|done]).
Qed.
(** A key of a sibling is accepted, although the policy that uses this schema is
    described as accepting names under the identity of the key only. *)
Lemma hierarchical_sibling :
  let g s := Component.generic (str s) in
  validation_policy.HierarchicalPolicy trust_schema.hierarchical [g "org"%string; g "alice"%string; g "doc"%string] [g "org"%string; g "bob"%string; g "KEY"%string; g "1"%string] 0 = validation_policy.Allow.
Proof. vm_compute. reflexivity. Qed.
(** A trailing variable that is documented to take one or more components takes none. *)
Lemma multi_capture_empty v b : trust_schema.matches [trust_schema.MultiCapture v] [] b = (true, b).
Proof. done. Qed.

(** A chain of policies allows what each of its members allows. *)
Lemma chained_iff ps data_name key_name depth : validation_policy.ChainedPolicy ps data_name key_name depth = validation_policy.Allow <->
  Forall (fun p => p data_name key_name depth = validation_policy.Allow) ps.
Proof.
  induction ps as [|p ps IH]; simpl; [by split; [constructor|]|]. rewrite Forall_cons, <- IH. destruct (p data_name key_name depth); [tauto|..]; split; [done|by intros [? _]|done|by intros [? _]].
Qed.

(** ** Examples *)

Module Example.
Definition quoted (s : string) : bytes := [34] ++ str s ++ [34].
Definition source : bytes :=
  str "// keys" ++ [10] ++ str "#root: /" ++ quoted "ndn" ++ str "/" ++ quoted "KEY" ++ str "/_" ++ [13; 10] ++
  str "#doc: /" ++ quoted "ndn" ++ str "/_site/" ++ quoted "doc" ++ str "/_ <= #admin, #root" ++ [10] ++
  str "#admin: /" ++ quoted "ndn" ++ str "/_site/" ++ quoted "admin" ++ str "/" ++ quoted "KEY" ++ str "/_ <= #root".
Definition g (s : string) : NameComponent := Component.generic (str s).
Definition ok_list {A E} (x : result (list A) E) : list A := match x with Ok l => l | Err _ => [] end.
Definition rules : list Rule := ok_list (parse source).
Definition wire : bytes := ok_list (compile_to_binary source).
Definition data_name : Name := [g "ndn"; g "ucla"; g "doc"; g "readme"].
Definition key_name : Name := [g "ndn"; g "ucla"; g "admin"; g "KEY"; g "1"].
Definition model : LvsModel := match compile source with Ok m => m | Err _ => mkModel 0 0 0 [] [] false end.

(** The literal in this source is KEY and 256 more letters. *)
Definition long_source : bytes := str "#key: /" ++ [34] ++ str "KEY" ++ repeat 65 256 ++ [34] ++ [10] ++ str "#doc: /" ++ quoted "doc" ++ str " <= #key".
End Example.

Lemma example_rules_ok : Forall rule_ok Example.rules.
Proof.
  assert (Hc : forall c, (match c with Literal v => forallb (fun b => (0 <=? b) && (b <=? 255)) v && (zlen v <=? 252)
                          | Var (Some x) => utf8_valid x && forallb (fun b => (0 <=? b) && (b <=? 255)) x | Var None => true end) = true -> comp_ok c).
  { intros [v|[x|]]; simpl; [|intros [? ?]%andb_true_iff; split; [done|by apply wf_bytes_check]|done].
    intros [? ?]%andb_true_iff. split; [by apply wf_bytes_check|by apply Z.leb_le]. }
  repeat (apply Forall_cons; split; [repeat (apply Forall_cons; split; [apply Hc; vm_compute; reflexivity|]); apply Forall_nil_2|]). apply Forall_nil_2.
Qed.

Lemma lvs_compile_correct_witness :
  exists m, compile Example.source = Ok m /\ check m Example.data_name Example.key_name = true /\ rules_permit Example.rules Example.data_name Example.key_name.
Proof.
  destruct (lvs_compile_correct Example.source Example.rules Example.wire) as (m & Hm & Hall);
    [vm_compute; reflexivity|exact example_rules_ok|vm_compute; reflexivity|vm_compute; discriminate|].
  assert (check m Example.data_name Example.key_name = true) as Hc by (vm_compute in Hm; injection Hm as <-; vm_compute; reflexivity).
  exists m. split; [exact Hm|]. split; [exact Hc|]. exact (proj1 (Hall Example.data_name Example.key_name) Hc).
Defined.

Lemma lvs_check_spec_witness : permitted Example.model registry_new Example.data_name Example.key_name.
Proof.
  apply (proj1 (lvs_check_spec Example.model Example.data_name Example.key_name registry_new)). vm_compute. reflexivity.
Defined.

Lemma lvs_decode_wf_witness : model_wf Example.model.
Proof.
  destruct (lvs_decode_wf Example.wire Example.model) as [Hm _]; [apply wf_bytes_check; vm_compute; reflexivity|vm_compute; reflexivity|exact Hm].
Defined.

(** A literal of 256 bytes or more is emitted under its length modulo 256: the schema
    compiles, and the rule matches the first bytes of the literal instead of it. *)
Lemma long_literal_truncated :
  match compile Example.long_source with
  | Ok m => check m [Example.g "doc"] [Example.g "KEY"] = true /\ check m [Example.g "doc"] [Component.generic (str "KEY" ++ repeat 65 256)] = false
  | Err _ => False
  end.
Proof. vm_compute. by split. Qed.
