(* ===== verification/Measure.v ===== *)
(** * Signals and measurements
    ([crates/core/ndn-signals-core/src/lib.rs], and in
    [crates/forwarding/ndn-strategy/src]: [signals.rs], [measurements.rs], [congestion.rs])

    What the strategies decide on besides the FIB: the link and node signals that
    sources push, the round-trip times and satisfaction rates measured per prefix,
    and the bridge that turns congestion marks on Data into a link signal.

    Concurrent maps are finite maps and a method is one step.  Floating point is
    that of [Float64].  The order in which a [DashMap] is walked is the parameter
    [iter]; the clock is an argument. *)

From S2P Require Import Prelude Tlv Name Float64.
#[local] Open Scope Z_scope.

(** ** Signals *)

Inductive CongestionLevel : Type := Low | Medium | High.
#[export] Instance CongestionLevel_eq_dec : EqDecision CongestionLevel.
Proof. solve_decision. Defined.

Definition MAX_EXT_SIGNALS : nat := 4.

Record LinkSignals : Type := mkLinkSignals {
  rssi_dbm : option Z;
  snr_db : option Z;
  retransmit_rate : option f32;
  congestion : option CongestionLevel;
  observed_rtt_ms : option f32;
  observed_tput_bps : option Z;
  ls_updated_ms : Z;
  ext : list (option (bytes * f32))
}.

Module LinkSignals.

Definition default_ : LinkSignals := mkLinkSignals None None None None None None 0 (replicate MAX_EXT_SIGNALS None).

Fixpoint find_key (key : bytes) (slots : list (option (bytes * f32))) : option f32 :=
  match slots with
  | [] => None
  | Some (k, v) :: slots => if decide (k = key) then Some v else find_key key slots
  | None :: slots => find_key key slots
  end.
Definition ext_get (self : LinkSignals) (key : bytes) : option f32 := find_key key (ext self).

(** The first loop of [ext_set]: overwrite the slot of the key, if there is one. *)
Fixpoint overwrite (key : bytes) (value : f32) (slots : list (option (bytes * f32))) : option (list (option (bytes * f32))) :=
  match slots with
  | [] => None
  | Some (k, v) :: slots =>
      if decide (k = key) then Some (Some (k, value) :: slots) else cons (Some (k, v)) <$> overwrite key value slots
  | None :: slots => cons None <$> overwrite key value slots
  end.
(** The second loop: fill the first free slot. *)
Fixpoint fill (key : bytes) (value : f32) (slots : list (option (bytes * f32))) : list (option (bytes * f32)) :=
  match slots with
  | [] => []
  | None :: slots => Some (key, value) :: slots
  | s :: slots => s :: fill key value slots
  end.
Definition set_ext (self : LinkSignals) (e : list (option (bytes * f32))) : LinkSignals :=
  mkLinkSignals (rssi_dbm self) (snr_db self) (retransmit_rate self) (congestion self) (observed_rtt_ms self)
    (observed_tput_bps self) (ls_updated_ms self) e.
Definition ext_set (self : LinkSignals) (key : bytes) (value : f32) : LinkSignals :=
  set_ext self (match overwrite key value (ext self) with Some e => e | None => fill key value (ext self) end).

Definition set_congestion (level : option CongestionLevel) (self : LinkSignals) : LinkSignals :=
  mkLinkSignals (rssi_dbm self) (snr_db self) (retransmit_rate self) level (observed_rtt_ms self)
    (observed_tput_bps self) (ls_updated_ms self) (ext self).
End LinkSignals.

Record GeoPos : Type := mkGeoPos { lat_e7 : Z; lon_e7 : Z; alt_cm : Z }.

(** Wrapping arithmetic of [i64], as in the release profile. *)
Definition wrap_i64 (z : Z) : Z := (z + 2 ^ 63) mod 2 ^ 64 - 2 ^ 63.

Definition planar_dist2 (self other : GeoPos) : Z :=
  let dlat := wrap_i64 (lat_e7 self - lat_e7 other) in
  let dlon := wrap_i64 (lon_e7 self - lon_e7 other) in
  wrap 64 (wrap_i64 (wrap_i64 (dlat * dlat) + wrap_i64 (dlon * dlon))).

Record NodeSignals : Type := mkNodeSignals {
  position : option GeoPos;
  heading_cdeg : option Z;
  speed_cms : option Z;
  battery_pct : option Z;
  clock_ms : Z;
  ns_updated_ms : Z
}.
Definition NodeSignals_default : NodeSignals := mkNodeSignals None None None None 0 0.

(** The trait [SignalView], as the record of its methods; [source_link] and
    [neighbour_count] keep their defaults in both implementations. *)
Record SignalView : Type := mkView {
  view_link : Z -> option LinkSignals;
  view_node : NodeSignals;
  view_neighbor : Z -> option NodeSignals
}.
Definition NoSignals : SignalView := mkView (fun _ => None) NodeSignals_default (fun _ => None).

Record SignalsTable : Type := mkSignals {
  link : gmap Z LinkSignals;
  neighbor : gmap Z NodeSignals;
  node : option NodeSignals
}.

Module SignalsTable.
Definition new : SignalsTable := mkSignals ∅ ∅ None.
Definition view (self : SignalsTable) : SignalView :=
  mkView (fun f => link self !! f) (default NodeSignals_default (node self)) (fun f => neighbor self !! f).
Definition dump_links (self : SignalsTable) : list (Z * LinkSignals) := map_to_list (link self).
Definition set_link (self : SignalsTable) (face : Z) (s : LinkSignals) : SignalsTable :=
  mkSignals (<[face := s]> (link self)) (neighbor self) (node self).
Definition set_node (self : SignalsTable) (s : NodeSignals) : SignalsTable :=
  mkSignals (link self) (neighbor self) (Some s).
Definition set_neighbor (self : SignalsTable) (face : Z) (s : NodeSignals) : SignalsTable :=
  mkSignals (link self) (<[face := s]> (neighbor self)) (node self).
Definition update_link (self : SignalsTable) (face : Z) (f : LinkSignals -> LinkSignals) : SignalsTable :=
  set_link self face (f (default LinkSignals.default_ (link self !! face))).
End SignalsTable.

(** ** The congestion-feedback bridge *)

Record CongestionConfig : Type := mkCongestionConfig { window : Z; medium : Z; high : Z }.

Module CongestionConfig.
(** The window is in nanoseconds. *)
Definition default_ : CongestionConfig := mkCongestionConfig 200000000 4 13.
Definition classify (self : CongestionConfig) (marks : Z) : option CongestionLevel :=
  if marks =? 0 then None
  else if high self <=? marks then Some High
  else if medium self <=? marks then Some Medium
  else Some Low.
End CongestionConfig.

Abbreviation Counts := (gmap Z Z).

Definition observe (counts : Counts) (face : Z) : Counts :=
  match counts !! face with
  | Some c => <[face := wrap 64 (c + 1)]> counts
  | None => <[face := wrap 64 (0 + 1)]> counts
  end.

(** One turn of the loop over the snapshot; the counts are already reset. *)
Definition poll_face (cfg : CongestionConfig) (s : Counts * SignalsTable) (fm : Z * Z) : Counts * SignalsTable :=
  let level := CongestionConfig.classify cfg fm.2 in
  let store := SignalsTable.update_link s.2 fm.1 (LinkSignals.set_congestion level) in
  (if (fm.2 =? 0) && bool_decide (s.1 !! fm.1 = Some 0) then delete fm.1 s.1 else s.1, store).

Definition poll (cfg : CongestionConfig) (counts : Counts) (store : SignalsTable) : Counts * SignalsTable :=
  fold_left (poll_face cfg) (map_to_list counts) ((fun _ => 0) <$> counts, store).

(** ** Measurements *)

Record EwmaRtt : Type := mkEwma { srtt_ns : f64; rttvar_ns : f64; samples : Z }.

Module EwmaRtt.
Definition default_ : EwmaRtt := mkEwma (f64_of 0) (f64_of 0) 0.
Definition ALPHA : f64 := f64_scaled 1 (-3).
Definition BETA : f64 := f64_scaled 1 (-2).
Definition update (self : EwmaRtt) (sample_ns : f64) : EwmaRtt :=
  if samples self =? 0 then mkEwma sample_ns (f64_div sample_ns (f64_of 2)) (wrap 32 (samples self + 1))
  else
    let diff := f64_abs (f64_sub sample_ns (srtt_ns self)) in
    mkEwma (f64_add (f64_mul (f64_sub (f64_of 1) ALPHA) (srtt_ns self)) (f64_mul ALPHA sample_ns))
           (f64_add (f64_mul (f64_sub (f64_of 1) BETA) (rttvar_ns self)) (f64_mul BETA diff))
           (wrap 32 (samples self + 1)).
Definition rto_ns (self : EwmaRtt) : f64 := f64_add (srtt_ns self) (f64_mul (f64_of 4) (rttvar_ns self)).
End EwmaRtt.

Record MeasurementsEntry : Type := mkMeasurements {
  rtt_per_face : gmap Z EwmaRtt;
  satisfaction_rate : f32;
  last_updated : Z
}.
Definition MeasurementsEntry_default : MeasurementsEntry := mkMeasurements ∅ (f32_of 0) 0.

Definition DEFAULT_CAPACITY : Z := 16384.

Record MeasurementsTable : Type := mkTable {
  m_entries : gmap Name MeasurementsEntry;
  m_capacity : Z
}.

Module MeasurementsTable.
Section table.
Context (iter : gmap Name MeasurementsEntry -> list (Name * MeasurementsEntry)).

Definition with_capacity (capacity : Z) : MeasurementsTable := mkTable ∅ (Z.max capacity 1).
Definition new : MeasurementsTable := with_capacity DEFAULT_CAPACITY.
Definition len (self : MeasurementsTable) : Z := Z.of_nat (size (m_entries self)).
Definition is_empty (self : MeasurementsTable) : bool := len self =? 0.

(** The loop that looks for the smallest [last_updated]. *)
Definition older (oldest : option (Name * Z)) (r : Name * MeasurementsEntry) : option (Name * Z) :=
  let ts := last_updated r.2 in
  match oldest with
  | None => Some (r.1, ts)
  | Some (_, t) => if ts <? t then Some (r.1, ts) else oldest
  end.

Definition evict_if_full (self : MeasurementsTable) (incoming : Name) : MeasurementsTable :=
  if (len self <? m_capacity self) || bool_decide (is_Some (m_entries self !! incoming)) then self
  else
    match fold_left older (iter (m_entries self)) None with
    | Some (victim, _) => mkTable (delete victim (m_entries self)) (m_capacity self)
    | None => self
    end.

Definition get (self : MeasurementsTable) (name : Name) : option MeasurementsEntry := m_entries self !! name.

(** [entries.entry(name).or_default()], then the update. *)
Definition upsert (self : MeasurementsTable) (name : Name) (f : MeasurementsEntry -> MeasurementsEntry)
    : MeasurementsTable :=
  let self := evict_if_full self name in
  mkTable (<[name := f (default MeasurementsEntry_default (m_entries self !! name))]> (m_entries self)) (m_capacity self).

Definition update_rtt (self : MeasurementsTable) (name : Name) (face : Z) (rtt_ns : f64) (now_ns : Z)
    : MeasurementsTable :=
  upsert self name (fun e =>
    mkMeasurements (<[face := EwmaRtt.update (default EwmaRtt.default_ (rtt_per_face e !! face)) rtt_ns]> (rtt_per_face e))
      (satisfaction_rate e) now_ns).

Definition dump (self : MeasurementsTable) : list (Name * MeasurementsEntry) := iter (m_entries self).

(** [0.1f32], the nearest float. *)
Definition ALPHA : f32 := f32_scaled 13421773 (-27).
Definition update_satisfaction (self : MeasurementsTable) (name : Name) (satisfied : bool) (now_ns : Z)
    : MeasurementsTable :=
  upsert self name (fun e =>
    let sample := if satisfied then f32_of 1 else f32_of 0 in
    mkMeasurements (rtt_per_face e)
      (f32_add (f32_mul (f32_sub (f32_of 1) ALPHA) (satisfaction_rate e)) (f32_mul ALPHA sample)) now_ns).
End table.
End MeasurementsTable.

(** ** Distances *)

Lemma wrap_i64_mod z : wrap_i64 z mod 2 ^ 64 = z mod 2 ^ 64.
Proof.
  unfold wrap_i64. rewrite Zminus_mod, Z.mod_mod, <- Zminus_mod by lia. f_equal. lia.
Qed.
Lemma wrap_i64_small z : - 2 ^ 63 <= z < 2 ^ 63 -> wrap_i64 z = z.
Proof. intros. unfold wrap_i64. rewrite Z.mod_small; lia. Qed.

Lemma square_bound x b : - b <= x <= b -> 0 <= x * x <= b * b.
Proof. nia. Qed.

Definition on_earth (p : GeoPos) : Prop :=
  -900000000 <= lat_e7 p <= 900000000 /\ -1800000000 <= lon_e7 p <= 1800000000.

(** The square of a longitude difference can exceed [i64], but the sum read back
    as [u64] is exact. *)
Lemma planar_dist2_exact p q :
  on_earth p -> on_earth q ->
  planar_dist2 p q = (lat_e7 p - lat_e7 q) ^ 2 + (lon_e7 p - lon_e7 q) ^ 2.
Proof.
  intros [??] [??]. unfold planar_dist2, wrap. rewrite (wrap_i64_small (lat_e7 p - _)), (wrap_i64_small (lon_e7 p - _)) by lia.
  rewrite wrap_i64_mod, Zplus_mod, !wrap_i64_mod, <- Zplus_mod, !Z.pow_2_r. apply Z.mod_small.
  pose proof (square_bound (lat_e7 p - lat_e7 q) 1800000000 ltac:(lia)).
  pose proof (square_bound (lon_e7 p - lon_e7 q) 3600000000 ltac:(lia)). lia.
Qed.

(** With overflow checks the multiplication would panic: antipodal longitudes. *)
Lemma planar_dist2_overflows :
  let p := mkGeoPos 0 1800000000 0 in let q := mkGeoPos 0 (-1800000000) 0 in
  on_earth p /\ on_earth q /\ 2 ^ 63 <= (lon_e7 p - lon_e7 q) * (lon_e7 p - lon_e7 q).
Proof. unfold on_earth. cbn. lia. Qed.

(** ** Extension metrics *)

Lemma find_overwrite key key' v slots slots' :
  LinkSignals.overwrite key v slots = Some slots' ->
  LinkSignals.find_key key' slots' = if decide (key' = key) then Some v else LinkSignals.find_key key' slots.
Proof.
  revert slots'. induction slots as [|[[k w]|] slots IH]; intros slots'; cbn; [done| |].
  - destruct (decide (k = key)) as [->|Hne].
    + intros [= <-]. cbn. repeat case_decide; by simplify_eq.
    + intros (r & Hr & ->)%fmap_Some. cbn. rewrite (IH r) by done. repeat case_decide; by simplify_eq.
  - intros (r & Hr & ->)%fmap_Some. cbn. by apply IH.
Qed.

Lemma find_fill key key' v slots :
  LinkSignals.overwrite key v slots = None -> None ∈ slots ->
  LinkSignals.find_key key' (LinkSignals.fill key v slots) =
    if decide (key' = key) then Some v else LinkSignals.find_key key' slots.
Proof.
  induction slots as [|[[k w]|] slots IH]; cbn; [by intros _ ?%elem_of_nil| |].
  - destruct (decide (k = key)) as [->|Hne]; [done|]. intros Ho%fmap_None Hin.
    apply elem_of_cons in Hin as [?|Hin]; [done|]. rewrite IH by done. repeat case_decide; by simplify_eq.
  - intros _ _. repeat case_decide; by simplify_eq.
Qed.

(** A metric is read back as published, and the others are kept, unless all the
    slots hold other keys. *)
Lemma ext_get_set s key key' v :
  is_Some (LinkSignals.overwrite key v (ext s)) \/ None ∈ ext s ->
  LinkSignals.ext_get (LinkSignals.ext_set s key v) key' = if decide (key' = key) then Some v else LinkSignals.ext_get s key'.
Proof.
  unfold LinkSignals.ext_get, LinkSignals.ext_set. cbn [ext LinkSignals.set_ext].
  destruct (LinkSignals.overwrite key v (ext s)) eqn:Ho; intros H.
  - by apply find_overwrite.
  - apply find_fill; [done|]. destruct H as [[? ?]|]; done.
Qed.

(** ** The congestion bridge *)

Section congestion.
Context (cfg : CongestionConfig).

(** The state of a face: its pending count and its published signals. *)
Definition reset (m : Z) : option Z := if m =? 0 then None else Some 0.

Lemma poll_loop l c st :
  NoDup l.*1 -> (forall f m, (f, m) ∈ l -> c !! f = Some 0) ->
  let '(c', st') := fold_left (poll_face cfg) l (c, st) in
  forall f, match (list_to_map l : gmap Z Z) !! f with
            | Some m => c' !! f = reset m /\
                link st' !! f = Some (LinkSignals.set_congestion (CongestionConfig.classify cfg m)
                                        (default LinkSignals.default_ (link st !! f)))
            | None => c' !! f = c !! f /\ link st' !! f = link st !! f
            end.
Proof.
  revert c st. induction l as [|[g m] l IH]; intros c st Hnd Hc; [by split|].
  cbn [fold_left fmap list_fmap] in Hnd |- *. apply NoDup_cons in Hnd as [Hg Hnd].
  pose proof (Hc g m (list_elem_of_here _ _)) as Hcg.
  unfold poll_face at 2. cbn [fst snd]. rewrite Hcg. set (c1 := if _ && _ then _ else _). set (st1 := SignalsTable.update_link _ _ _).
  assert (Hother : forall f, f <> g -> c1 !! f = c !! f /\ link st1 !! f = link st !! f).
  { intros f Hf. split; [|by apply lookup_insert_ne]. unfold c1. case_match; [by apply lookup_delete_ne|done]. }
  assert (Hhere : c1 !! g = reset m /\ link st1 !! g = Some (LinkSignals.set_congestion (CongestionConfig.classify cfg m)
            (default LinkSignals.default_ (link st !! g)))).
  { split; [|by apply lookup_insert_eq]. unfold c1, reset. rewrite bool_decide_true, andb_true_r by done.
    destruct (m =? 0); [apply lookup_delete_eq|done]. }
  specialize (IH c1 st1 Hnd). destruct (fold_left _ _ _) as [c' st'].
  assert (Hc1 : forall f m, (f, m) ∈ l -> c1 !! f = Some 0).
  { intros f k Hin. assert (f <> g) as Hne by (intros ->; apply Hg; apply list_elem_of_fmap; by exists (g, k)).
    rewrite (proj1 (Hother f Hne)). eapply Hc. by apply list_elem_of_further. }
  intros f. specialize (IH Hc1 f). cbn [list_to_map foldr uncurry]. destruct (decide (f = g)) as [->|Hne].
  - rewrite lookup_insert_eq. rewrite not_elem_of_list_to_map_1 in IH by done. destruct IH as [-> ->]. done.
  - rewrite lookup_insert_ne by done. destruct (Hother f Hne) as [E1 E2].
    destruct (list_to_map l !! f); by rewrite ?E1, ?E2 in IH.
Qed.

Lemma poll_spec c st f :
  match c !! f with
  | Some m => (poll cfg c st).1 !! f = reset m /\
      link (poll cfg c st).2 !! f = Some (LinkSignals.set_congestion (CongestionConfig.classify cfg m)
                              (default LinkSignals.default_ (link st !! f)))
  | None => (poll cfg c st).1 !! f = None /\ link (poll cfg c st).2 !! f = link st !! f
  end.
Proof.
  unfold poll. pose proof (poll_loop (map_to_list c) ((fun _ => 0) <$> c) st (NoDup_fst_map_to_list c)) as H.
  destruct (fold_left _ _ _) as [c' st']. cbn [fst snd].
  assert (Hz : forall g m, (g, m) ∈ map_to_list c -> ((fun _ => 0) <$> c) !! g = Some 0).
  { intros g m Hin%elem_of_map_to_list. by rewrite lookup_fmap, Hin. }
  specialize (H Hz f). rewrite (list_to_map_to_list c) in H. destruct (c !! f) eqn:E; [done|].
  destruct H as [H1 H2]. by rewrite H1, lookup_fmap, E.
Qed.

(** What happens at the bridge: a mark on a face, or the driver's poll. *)
Inductive MarkEvent : Type := Mark (face : Z) | Poll.
Definition bridge_step (s : Counts * SignalsTable) (e : MarkEvent) : Counts * SignalsTable :=
  match e with
  | Mark f => (observe s.1 f, s.2)
  | Poll => poll cfg s.1 s.2
  end.
Definition bridge_run (st : SignalsTable) (evs : list MarkEvent) : Counts * SignalsTable :=
  fold_left bridge_step evs (∅, st).

(** The marks of a face since the last poll, and those of the window before it. *)
Definition marks_step (f : Z) (s : Z * Z) (e : MarkEvent) : Z * Z :=
  match e with
  | Mark g => (s.1, if g =? f then s.2 + 1 else s.2)
  | Poll => (s.2, 0)
  end.
Definition marks (f : Z) (evs : list MarkEvent) : Z * Z := fold_left (marks_step f) evs (0, 0).

Lemma marks_bound f evs : 0 <= (marks f evs).1 <= zlen evs /\ 0 <= (marks f evs).2 <= zlen evs.
Proof.
  unfold marks. induction evs as [|e evs IH] using rev_ind; [cbn; zlen_lia|].
  rewrite fold_left_app. cbn [fold_left]. destruct e; cbn [marks_step fst snd]; bcase; zlen_lia.
Qed.

Definition bridge_inv (f : Z) (st0 : SignalsTable) (p m : Z) (s : Counts * SignalsTable) : Prop :=
  link s.2 !! f ≫= congestion = CongestionConfig.classify cfg p /\
  default 0 (s.1 !! f) = m /\ (s.1 !! f = None -> p = 0).

Lemma observe_lookup c f g :
  observe c f !! g = if decide (g = f) then Some (wrap 64 (default 0 (c !! f) + 1)) else c !! g.
Proof.
  unfold observe. destruct (c !! f) eqn:E; case_decide; subst; by rewrite ?lookup_insert_eq, ?lookup_insert_ne.
Qed.

Lemma bridge_inv_run f st evs :
  (link st !! f ≫= congestion) = None -> zlen evs <= u64_max ->
  bridge_inv f st (marks f evs).1 (marks f evs).2 (bridge_run st evs).
Proof.
  intros H0. induction evs as [|e evs IH] using rev_ind; intros Hlen; [by split_conj|].
  rewrite zlen_app in Hlen. change (zlen [e]) with 1 in Hlen. pose proof (marks_bound f evs) as [Hb1 Hb2].
  specialize (IH ltac:(lia)). unfold marks, bridge_run in *. rewrite !fold_left_app. cbn [fold_left].
  destruct (fold_left (marks_step f) evs (0, 0)) as [p m]. destruct (fold_left bridge_step evs _) as [c s].
  cbn [fst snd] in *. destruct IH as (Hp & Hm & Hn). cbn [fst snd] in *. destruct e as [g|]; unfold bridge_inv; cbn [marks_step bridge_step fst snd].
  - rewrite observe_lookup. split_conj; [done| |].
    + case_decide as E; [subst g; rewrite Z.eqb_refl; cbn; rewrite wrap_small; unfold_bounds; lia|].
      destruct (Z.eqb_spec g f); [congruence|done].
    + case_decide; [done|exact Hn].
  - pose proof (poll_spec c s f) as Hs. destruct (c !! f) as [k|] eqn:E; destruct Hs as [Hs1 Hs2].
    + rewrite Hs1, Hs2. cbn in Hm. subst k. cbn. unfold reset. split_conj; [done| |]; bcase; done.
    + rewrite Hs1, Hs2. cbn in Hm. subst m. rewrite Hp, (Hn eq_refl). done.
Qed.

End congestion.

(** The bridge publishes, at each poll and for every face, exactly the level of
    the marks of the window that ends there: none is lost, none counted twice, and
    a window without marks clears the signal. *)
Lemma bridge_exact cfg st evs f :
  (link st !! f ≫= congestion) = None -> zlen evs < u64_max ->
  (link (bridge_run cfg st (evs ++ [Poll])).2 !! f ≫= congestion) =
    CongestionConfig.classify cfg (marks f evs).2.
Proof.
  intros H0 Hl. destruct (bridge_inv_run cfg f st (evs ++ [Poll]) H0) as [-> _]; [zlen_norm; change (zlen [Poll]) with 1; lia|].
  f_equal. unfold marks. by rewrite fold_left_app.
Qed.

(** ** The bound on the measurements *)

Section bounded.
Context (iter : gmap Name MeasurementsEntry -> list (Name * MeasurementsEntry)).
Context (iter_perm : forall m, iter m ≡ₚ map_to_list m).

Lemma older_fold l acc :
  match fold_left MeasurementsTable.older l acc with
  | Some (v, t) =>
      (acc = Some (v, t) \/ exists e, (v, e) ∈ l /\ last_updated e = t) /\
      (forall n e, (n, e) ∈ l -> t <= last_updated e) /\ (forall n u, acc = Some (n, u) -> t <= u)
  | None => acc = None /\ l = []
  end.
Proof.
  revert acc. induction l as [|[n e] l IH]; intros acc; cbn [fold_left].
  - destruct acc as [[v t]|]; [|done]. split_conj; [by left|by intros ?? ?%elem_of_nil|by intros ?? [= -> ->]].
  - specialize (IH (MeasurementsTable.older acc (n, e))). destruct (fold_left _ _ _) as [[v t]|].
    + destruct IH as (H1 & H2 & H3). unfold MeasurementsTable.older in *. cbn [fst snd] in *.
      assert (Hle : t <= last_updated e /\ (forall m u, acc = Some (m, u) -> t <= u)).
      { destruct acc as [[m u]|]; [|split; [by eapply H3|done]].
        destruct (Z.ltb_spec (last_updated e) u); specialize (H3 _ _ eq_refl); (split; [lia|intros ? ? [= <- <-]; lia]). }
      split_conj.
      * destruct H1 as [H1|(e' & Hin & He)]; [|right; exists e'; split; [by apply list_elem_of_further|done]].
        destruct acc as [[m u]|]; [|right; exists e; simplify_eq; split; [apply list_elem_of_here|done]].
        destruct (last_updated e <? u); [|by left]. right; exists e; simplify_eq; split; [apply list_elem_of_here|done].
      * intros m f [[= -> ->]|Hin]%elem_of_cons; [apply Hle|by eapply H2].
      * apply Hle.
    + destruct IH as [H _]. unfold MeasurementsTable.older in H. destruct acc as [[m u]|]; [destruct (_ <? u)|]; done.
Qed.

(** Making room removes at most one prefix, the one updated longest ago, and only
    when the table is full and the prefix is new. *)
Lemma evict_if_full_spec t n :
  1 <= m_capacity t ->
  let t' := MeasurementsTable.evict_if_full iter t n in
  m_capacity t' = m_capacity t /\
  (t' = t /\ (MeasurementsTable.len t < m_capacity t \/ is_Some (m_entries t !! n)) \/
   exists v e, m_entries t !! v = Some e /\ v <> n /\ m_entries t' = delete v (m_entries t) /\
     (forall m f, m_entries t !! m = Some f -> last_updated e <= last_updated f)).
Proof.
  intros Hc. unfold MeasurementsTable.evict_if_full. destruct (Z.ltb_spec (MeasurementsTable.len t) (m_capacity t)).
  { split; [done|]. left. split; [done|by left]. }
  cbn [orb]. case_bool_decide as Hn; [split; [done|]; left; split; [done|by right]|].
  pose proof (older_fold (iter (m_entries t)) None) as H'. destruct (fold_left _ _ _) as [[v u]|].
  - split; [done|]. right. destruct H' as ([?|(e & Hin & He)] & Hmin & _); [done|].
    rewrite iter_perm, elem_of_map_to_list in Hin. exists v, e. split_conj; [done| |done|].
    + intros ->. apply Hn. by eexists.
    + intros m f Hm. rewrite He. apply (Hmin m). by rewrite iter_perm, elem_of_map_to_list.
  - destruct H' as [_ Hnil]. exfalso. unfold MeasurementsTable.len in *.
    pose proof (iter_perm (m_entries t)) as Hp. rewrite Hnil in Hp. apply Permutation_nil_l in Hp.
    symmetry in Hp. apply map_to_list_empty_iff in Hp. rewrite Hp, map_size_empty in *. lia.
Qed.

(** An update keeps the table within its capacity. *)
Lemma upsert_bounded t n f :
  1 <= m_capacity t -> MeasurementsTable.len t <= m_capacity t ->
  let t' := MeasurementsTable.upsert iter t n f in
  m_capacity t' = m_capacity t /\ MeasurementsTable.len t' <= m_capacity t'.
Proof.
  intros Hc Hl. unfold MeasurementsTable.upsert.
  destruct (evict_if_full_spec t n Hc) as [Hcap H]. set (t1 := MeasurementsTable.evict_if_full iter t n) in *.
  cbn zeta. cbn [m_capacity]. split; [done|]. unfold MeasurementsTable.len in *. cbn [m_entries]. rewrite Hcap.
  destruct H as [[-> [Hlt|[e He]]]|(v & e & Hv & Hne & Hd & _)].
  - rewrite map_size_insert. destruct (m_entries t !! n); unfold id; lia.
  - rewrite map_size_insert, He. unfold id. lia.
  - rewrite map_size_insert, Hd, lookup_delete_ne by done. rewrite map_size_delete, Hv.
    assert (size (m_entries t) <> 0)%nat by (apply (map_size_ne_0_lookup_2 _ v); by eexists).
    destruct (m_entries t !! n); unfold id; lia.
Qed.
End bounded.

(** What a forwarder does to the table. *)
Inductive MeasureOp : Type :=
| UpdateRtt (name : Name) (face : Z) (rtt_ns : f64) (now_ns : Z)
| UpdateSatisfaction (name : Name) (satisfied : bool) (now_ns : Z).

Definition measure_step (iter : gmap Name MeasurementsEntry -> list (Name * MeasurementsEntry))
    (t : MeasurementsTable) (op : MeasureOp) : MeasurementsTable :=
  match op with
  | UpdateRtt n f r now => MeasurementsTable.update_rtt iter t n f r now
  | UpdateSatisfaction n s now => MeasurementsTable.update_satisfaction iter t n s now
  end.

(** Whatever traffic comes, the table never holds more prefixes than its capacity. *)
Lemma measurements_bounded iter ops capacity :
  (forall m, iter m ≡ₚ map_to_list m) ->
  let t := fold_left (measure_step iter) ops (MeasurementsTable.with_capacity capacity) in
  MeasurementsTable.len t <= Z.max capacity 1.
Proof.
  intros Hi. cbn zeta.
  cut (m_capacity (fold_left (measure_step iter) ops (MeasurementsTable.with_capacity capacity)) = Z.max capacity 1 /\
       MeasurementsTable.len (fold_left (measure_step iter) ops (MeasurementsTable.with_capacity capacity)) <= Z.max capacity 1);
    [by intros [_ H]|].
  induction ops as [|op ops IH] using rev_ind; [split; [done|]; change (0 <= Z.max capacity 1); lia|].
  rewrite fold_left_app. cbn [fold_left]. destruct IH as [IH1 IH2].
  set (t := fold_left _ _ _) in *.
  assert (H1 : 1 <= m_capacity t) by lia. assert (H2 : MeasurementsTable.len t <= m_capacity t) by lia.
  destruct op as [name face rtt now|name ok now]; cbn [measure_step];
    unfold MeasurementsTable.update_rtt, MeasurementsTable.update_satisfaction;
    match goal with |- context [MeasurementsTable.upsert iter t name ?f] =>
      destruct (upsert_bounded iter Hi t name f H1 H2) as [E1 E2] end; lia.
Qed.
