(* ===== verification/Strategy.v ===== *)
(** * The forwarding strategies ([crates/forwarding/ndn-strategy/src])

    The trait [Strategy] and its object-safe form, the context a strategy decides
    on ([context.rs]), and the six strategies of the crate: best-route, multicast,
    broadcast, self-learning, measured and congestion-aware; the registry that
    finds them by name.

    A strategy decides without side effects, with one exception: the
    congestion-aware strategy advances its cursor.  What strategies mutate is one
    state [W], threaded through the calls.  An [unwrap] of nothing is [None].
    [Strategy::schedule], which runs a callback on the runtime, is not modelled. *)

From S2P Require Import Prelude Tlv Name NameUri Float64 Trie Lp Pit PitStage DecodeStage Measure.
#[local] Open Scope Z_scope.

(** ** [forwarding.rs] of [ndn-transport] and [context.rs] *)

Inductive ForwardingAction : Type :=
| Forward (faces : list Z)
| ForwardAfter (faces : list Z) (delay : Z)
| FNack (reason : NackReason)
| Suppress
| Broadcast.

(** [FibEntry] and [FibNexthop] have the fields of the FIB's. *)
Definition nexthops_excluding (self : FibEntry) (exclude : Z) : list FibNexthop :=
  filter (fun n => Trie.face_id n <> exclude) (nexthops self).
Definition nexthops_excluding_any (self : FibEntry) (exclude : Z) (tried : list Z) : list FibNexthop :=
  filter (fun n => Trie.face_id n <> exclude /\ Trie.face_id n ∉ tried) (nexthops self).

(** [extensions] holds the two positions; what further enrichers put there is read
    by none of these strategies. *)
Record StrategyContext : Type := mkStrategyContext {
  s_name : Name;
  in_face : Z;
  fib_entry : option FibEntry;
  s_pit_token : option PitToken;
  tried_faces : list Z;
  suppressed_faces : list Z;
  entry_retx_suppressed : bool;
  measurements : MeasurementsTable;
  signals : SignalView;
  prev_hop_location : option GeoFix;
  data_location : option GeoFix
}.

(** ** The trait *)

Class Strategy (S W : Type) : Type := {
  name_of : S -> Name;
  decide_fast : S -> StrategyContext -> W -> option (list ForwardingAction) * W; (* [decide] *)
  after_receive_interest : S -> StrategyContext -> W -> option (list ForwardingAction) * W;
  after_receive_data : S -> StrategyContext -> W -> list ForwardingAction * W;
  on_nack : S -> StrategyContext -> NackReason -> W -> ForwardingAction * W
}.

(** What the trait gives a strategy that does not define them. *)
Definition default_decide {S W} (self : S) (ctx : StrategyContext) (w : W) : option (list ForwardingAction) * W := (None, w).
Definition default_on_interest_timeout {W} (ctx : StrategyContext) (w : W) : ForwardingAction * W := (Suppress, w).
Definition default_on_nack {S W} (self : S) (ctx : StrategyContext) (reason : NackReason) (w : W) : ForwardingAction * W :=
  (Suppress, w).

(** [dyn ErasedStrategy]: its methods. *)
Record ErasedStrategy (W : Type) : Type := mkErased {
  es_name : Name;
  decide_sync : StrategyContext -> W -> option (list ForwardingAction) * W;
  after_receive_interest_erased : StrategyContext -> W -> option (list ForwardingAction) * W;
  on_nack_erased : StrategyContext -> NackReason -> W -> ForwardingAction * W
}.
Arguments mkErased {W}.
Arguments es_name {W}.
Arguments decide_sync {W}.
Arguments after_receive_interest_erased {W}.
Arguments on_nack_erased {W}.

Definition erase {S W} `{Strategy S W} (s : S) : ErasedStrategy W :=
  mkErased (name_of s) (decide_fast s) (after_receive_interest s) (on_nack s).

Definition strategy_name (short : bytes) (version : Z) : Name :=
  NameOps.append_version
    [Component.generic (str "localhost"); Component.generic (str "nfd"); Component.generic (str "strategy");
     Component.generic short] version.

(** ** Best route *)

Inductive BestRouteStrategy : Type := mkBestRoute.
Module BestRouteStrategy.
Definition decide (ctx : StrategyContext) : list ForwardingAction :=
  match fib_entry ctx with
  | None => [FNack NoRoute]
  | Some fib =>
      if entry_retx_suppressed ctx then []
      else
        let untried := nexthops_excluding_any fib (in_face ctx) (tried_faces ctx) in
        let nexthops := match untried with [] => nexthops_excluding fib (in_face ctx) | _ => untried end in
        match nexthops with
        | nh :: _ => [Forward [Trie.face_id nh]]
        | [] => [FNack NoRoute]
        end
  end.
Definition on_nack (ctx : StrategyContext) (reason : NackReason) : ForwardingAction :=
  match fib_entry ctx with
  | None => FNack reason
  | Some fib =>
      match nexthops_excluding_any fib (in_face ctx) (tried_faces ctx) with
      | nh :: _ => Forward [Trie.face_id nh]
      | [] => FNack reason
      end
  end.
End BestRouteStrategy.
#[export] Instance BestRoute_strategy {W} : Strategy BestRouteStrategy W := {|
  name_of _ := strategy_name (str "best-route") 5;
  decide_fast _ ctx w := (Some (BestRouteStrategy.decide ctx), w);
  after_receive_interest _ ctx w := (Some (BestRouteStrategy.decide ctx), w);
  after_receive_data _ _ w := ([], w);
  on_nack _ ctx reason w := (BestRouteStrategy.on_nack ctx reason, w)
|}.

(** ** Multicast *)

Inductive MulticastStrategy : Type := mkMulticastStrategy.
Module MulticastStrategy.
Definition decide (ctx : StrategyContext) : list ForwardingAction :=
  match fib_entry ctx with
  | None => [FNack NoRoute]
  | Some fib =>
      let candidates := map Trie.face_id (nexthops_excluding fib (in_face ctx)) in
      match candidates with
      | [] => [FNack NoRoute]
      | _ =>
          match filter (fun f => f ∉ suppressed_faces ctx) candidates with
          | [] => []
          | faces => [Forward faces]
          end
      end
  end.
End MulticastStrategy.
#[export] Instance Multicast_strategy {W} : Strategy MulticastStrategy W := {|
  name_of _ := strategy_name (str "multicast") 5;
  decide_fast _ ctx w := (Some (MulticastStrategy.decide ctx), w);
  after_receive_interest _ ctx w := (Some (MulticastStrategy.decide ctx), w);
  after_receive_data _ _ w := ([], w);
  on_nack := default_on_nack
|}.

(** ** Broadcast *)

Inductive BroadcastStrategy : Type := mkBroadcast.
Module BroadcastStrategy.
Definition decide (ctx : StrategyContext) : list ForwardingAction :=
  match fib_entry ctx with
  | None => [FNack NoRoute]
  | Some fib =>
      match map Trie.face_id (nexthops fib) with
      | [] => [FNack NoRoute]
      | faces => [Forward faces]
      end
  end.
End BroadcastStrategy.
#[export] Instance Broadcast_strategy {W} : Strategy BroadcastStrategy W := {|
  name_of _ := strategy_name (str "broadcast") 1;
  decide_fast _ ctx w := (Some (BroadcastStrategy.decide ctx), w);
  after_receive_interest _ ctx w := (Some (BroadcastStrategy.decide ctx), w);
  after_receive_data _ _ w := ([], w);
  on_nack := default_on_nack
|}.

(** ** Self-learning *)

Inductive SelfLearningStrategy : Type := mkSelfLearning.
Module SelfLearningStrategy.
Definition decide (ctx : StrategyContext) : list ForwardingAction :=
  let faces := match fib_entry ctx with
    | Some fib => map Trie.face_id (nexthops_excluding fib (in_face ctx))
    | None => []
    end in
  match faces with
  | [] => [Broadcast]
  | _ => [Forward faces]
  end.
End SelfLearningStrategy.
#[export] Instance SelfLearning_strategy {W} : Strategy SelfLearningStrategy W := {|
  name_of _ := strategy_name (str "self-learning") 1;
  decide_fast _ ctx w := (Some (SelfLearningStrategy.decide ctx), w);
  after_receive_interest _ ctx w := (Some (SelfLearningStrategy.decide ctx), w);
  after_receive_data _ _ w := ([], w);
  on_nack := default_on_nack
|}.

(** ** Measured best-route *)

(** [scored.sort_by_key(|(s, _)| *s)], stable. *)
Fixpoint insert_by_score (p : Z * Z) (l : list (Z * Z)) : list (Z * Z) :=
  match l with
  | [] => [p]
  | q :: l' => if p.1 <=? q.1 then p :: l else q :: insert_by_score p l'
  end.
Definition sort_by_score (l : list (Z * Z)) : list (Z * Z) := foldr insert_by_score [] l.

(** [s += x] on [i64]. *)
Definition i64_add (s x : Z) : Z := wrap_i64 (s + x).

Definition srtt_of (ctx : StrategyContext) (face_id : Z) : option f64 :=
  let! entry := MeasurementsTable.get (measurements ctx) (s_name ctx) in
  srtt_ns <$> rtt_per_face entry !! face_id.

(** The adjustments both scores make for what a link reports, after the
    round-trip time: throughput, retransmissions, congestion, signal strength. *)
Definition link_score (high medium : Z) (sig : LinkSignals) (s : Z) : Z :=
  let s := match observed_tput_bps sig with Some tput => i64_add s (- (tput / 1000000)) | None => s end in
  let s := match retransmit_rate sig with Some rx => i64_add s (float_as_i64 (f32_mul rx (f32_of 100))) | None => s end in
  let s := i64_add s (match congestion sig with Some High => high | Some Medium => medium | _ => 0 end) in
  match rssi_dbm sig with
  | Some rssi => let weak := - rssi - 60 in if 0 <? weak then i64_add s weak else s
  | None => s
  end.

Inductive MeasuredStrategy : Type := mkMeasured.
Module MeasuredStrategy.
Definition score (ctx : StrategyContext) (face_id static_cost : Z) : Z :=
  let s := static_cost in
  let s := match srtt_of ctx face_id with
    | Some srtt => i64_add s (float_as_i64 (f64_div srtt (f64_of 10000000)))
    | None => s
    end in
  let s := match view_link (signals ctx) face_id with
    | Some sig =>
        let s := match observed_rtt_ms sig with
          | Some rtt_ms => i64_add s (float_as_i64 (f32_div rtt_ms (f32_of 10)))
          | None => s
          end in
        link_score 100 20 sig s
    | None => s
    end in
  Z.max s 0.

Definition ranked (ctx : StrategyContext) : list Z :=
  match fib_entry ctx with
  | None => []
  | Some fib =>
      map snd (sort_by_score
        (map (fun nh => (score ctx (Trie.face_id nh) (cost nh), Trie.face_id nh))
             (nexthops_excluding fib (in_face ctx))))
  end.

Definition decide (ctx : StrategyContext) : list ForwardingAction :=
  match fib_entry ctx with
  | None => [FNack NoRoute]
  | Some _ =>
      match ranked ctx with
      | face_id :: _ => [Forward [face_id]]
      | [] => [FNack NoRoute]
      end
  end.
Definition on_nack (ctx : StrategyContext) (reason : NackReason) : ForwardingAction :=
  match ranked ctx with
  | face_id :: _ => Forward [face_id]
  | [] => FNack reason
  end.
End MeasuredStrategy.
#[export] Instance Measured_strategy {W} : Strategy MeasuredStrategy W := {|
  name_of _ := strategy_name (str "measured") 1;
  decide_fast _ ctx w := (Some (MeasuredStrategy.decide ctx), w);
  after_receive_interest _ ctx w := (Some (MeasuredStrategy.decide ctx), w);
  after_receive_data _ _ w := ([], w);
  on_nack _ ctx reason w := (MeasuredStrategy.on_nack ctx reason, w)
|}.

(** ** Congestion-aware multipath *)

(** The atomic cursor of the strategy, in the state [W]. *)
Class HasCursor (W : Type) : Type := { cursor : W -> Z; set_cursor : Z -> W -> W }.
#[export] Instance Z_cursor : HasCursor Z := {| cursor w := w; set_cursor c _ := c |}.

Definition scatter (z : Z) : Z :=
  let z := wrap 64 (Z.lxor z (Z.shiftr z 30) * 0xbf58476d1ce4e5b9) in
  let z := wrap 64 (Z.lxor z (Z.shiftr z 27) * 0x94d049bb133111eb) in
  Z.lxor z (Z.shiftr z 31).

Inductive CongestionAwareStrategy : Type := mkCongestionAware.
Module CongestionAwareStrategy.
Definition score (ctx : StrategyContext) (face_id static_cost : Z) : Z :=
  let s := static_cost in
  let '(s, rtt_added) := match srtt_of ctx face_id with
    | Some srtt => (i64_add s (float_as_i64 (f64_div srtt (f64_of 10000000))), true)
    | None => (s, false)
    end in
  let s := match view_link (signals ctx) face_id with
    | Some sig =>
        let s := match observed_rtt_ms sig with
          | Some rtt_ms => if negb rtt_added then i64_add s (float_as_i64 (f32_div rtt_ms (f32_of 10))) else s
          | None => s
          end in
        link_score 300 80 sig s
    | None => s
    end in
  Z.max s 0.

(** [scored.iter().map(|(_, s)| *s).min()]. *)
Definition min_score (l : list (Z * Z)) : option Z :=
  fold_left (fun acc p => Some (match acc with Some m => Z.min m p.2 | None => p.2 end)) l None.

(** The face and its selection weight. *)
Definition weighted (ctx : StrategyContext) : list (Z * Z) :=
  match fib_entry ctx with
  | None => []
  | Some fib =>
      let scored := map (fun nh => (Trie.face_id nh, score ctx (Trie.face_id nh) (cost nh)))
                      (nexthops_excluding_any fib (in_face ctx) (tried_faces ctx)) in
      match min_score scored with
      | None => []
      | Some min =>
          map (fun p => let delta := wrap 64 (p.2 - min) in (p.1, Z.max (1000 / (1 + delta)) 1)) scored
      end
  end.

Definition total_weight (cands : list (Z * Z)) : Z := fold_left (fun acc p => acc + p.2) cands 0.

(** The [for (f, w) in &cands] loop; [None] when it runs to its end. *)
Fixpoint select (pos acc : Z) (cands : list (Z * Z)) : option Z :=
  match cands with
  | [] => None
  | (f, w) :: cands =>
      let acc := acc + w in
      if pos <? acc then Some f else select pos acc cands
  end.

Definition pick {W} `{HasCursor W} (ctx : StrategyContext) (w : W) : option Z * W :=
  let cands := weighted ctx in
  match cands with
  | [] => (None, w)
  | [(f, _)] => (Some f, w)
  | _ =>
      let total := total_weight cands in
      let c := cursor w in
      let w := set_cursor (wrap 64 (c + 1)) w in
      let pos := scatter c mod total in
      (match select pos 0 cands with
       | Some f => Some f
       | None => fst <$> last cands
       end, w)
  end.

(** [sort_by_key] on the reversed weight, stable. *)
Fixpoint insert_by_weight (p : Z * Z) (l : list (Z * Z)) : list (Z * Z) :=
  match l with
  | [] => [p]
  | q :: l' => if q.2 <=? p.2 then p :: l else q :: insert_by_weight p l'
  end.
Definition best (ctx : StrategyContext) : option Z := fst <$> head (foldr insert_by_weight [] (weighted ctx)).

Definition decide {W} `{HasCursor W} (ctx : StrategyContext) (w : W) : list ForwardingAction * W :=
  match fib_entry ctx with
  | None => ([FNack NoRoute], w)
  | Some _ =>
      match pick ctx w with
      | (Some face_id, w) => ([Forward [face_id]], w)
      | (None, w) => ([FNack NoRoute], w)
      end
  end.
Definition on_nack (ctx : StrategyContext) (reason : NackReason) : ForwardingAction :=
  match best ctx with
  | Some face_id => Forward [face_id]
  | None => FNack reason
  end.
End CongestionAwareStrategy.
#[export] Instance CongestionAware_strategy {W} `{HasCursor W} : Strategy CongestionAwareStrategy W := {|
  name_of _ := strategy_name (str "congestion-aware") 1;
  decide_fast _ ctx w := let '(a, w) := CongestionAwareStrategy.decide ctx w in (Some a, w);
  after_receive_interest _ ctx w := let '(a, w) := CongestionAwareStrategy.decide ctx w in (Some a, w);
  after_receive_data _ _ w := ([], w);
  on_nack _ ctx reason w := (CongestionAwareStrategy.on_nack ctx reason, w)
|}.

(** ** The registry *)

Record StrategyEntry (W : Type) : Type := mkEntry { e_name : bytes; e_version : Z; e_build : ErasedStrategy W }.
Arguments mkEntry {W}.
Arguments e_name {W}.
Arguments e_version {W}.
Arguments e_build {W}.

(** The entries of this crate; the linker decides the order and adds those of
    other crates. *)
Definition BUILTINS {W} `{HasCursor W} : list (StrategyEntry W) :=
  [mkEntry (str "best-route") 5 (erase mkBestRoute);
   mkEntry (str "multicast") 5 (erase mkMulticastStrategy);
   mkEntry (str "broadcast") 1 (erase mkBroadcast);
   mkEntry (str "self-learning") 1 (erase mkSelfLearning);
   mkEntry (str "measured") 1 (erase mkMeasured);
   mkEntry (str "congestion-aware") 1 (erase mkCongestionAware)].

Definition create_by_name {W} (registered : list (StrategyEntry W)) (short_name : bytes) : option (ErasedStrategy W) :=
  e_build <$> List.find (fun e => bool_decide (e_name e = short_name)) registered.
Definition create_by_name_version {W} (registered : list (StrategyEntry W)) (short_name : bytes) (version : Z)
    : option (ErasedStrategy W) :=
  e_build <$> List.find (fun e => bool_decide (e_name e = short_name) && (e_version e =? version)) registered.

(** ** Where strategies may forward

    A decision is within the FIB when it forwards only to next hops of the entry,
    and split-horizon when none of them is the incoming face. *)

Definition fib_faces (ctx : StrategyContext) : list Z :=
  match fib_entry ctx with Some fib => map Trie.face_id (nexthops fib) | None => [] end.

(** The faces a decision names; [Broadcast] names none. *)
Definition action_faces (a : ForwardingAction) : list Z :=
  match a with
  | Forward fs | ForwardAfter fs _ => fs
  | _ => []
  end.

Lemma excluding_faces fib f x :
  x ∈ map Trie.face_id (nexthops_excluding fib f) <-> x ∈ map Trie.face_id (nexthops fib) /\ x <> f.
Proof.
  unfold nexthops_excluding. rewrite !list_elem_of_fmap. split.
  - intros (n & -> & [Hn Hin]%list_elem_of_filter). split; [by exists n|done].
  - intros [(n & -> & Hin) Hne]. exists n. split; [done|]. by apply list_elem_of_filter.
Qed.
Lemma excluding_any_faces fib f tried x :
  x ∈ map Trie.face_id (nexthops_excluding_any fib f tried) <->
  x ∈ map Trie.face_id (nexthops fib) /\ x <> f /\ x ∉ tried.
Proof.
  unfold nexthops_excluding_any. rewrite !list_elem_of_fmap. split.
  - intros (n & -> & [[H1 H2] Hin]%list_elem_of_filter). split; [by exists n|done].
  - intros [(n & -> & Hin) Hne]. exists n. split; [done|]. by apply list_elem_of_filter.
Qed.

(** ** Best route *)

Lemma head_in (h : FibNexthop) l : Trie.face_id h ∈ map Trie.face_id (h :: l).
Proof. apply list_elem_of_here. Qed.

(** What a decision of best-route is, on each branch. *)
Lemma best_route_cases ctx fib :
  fib_entry ctx = Some fib -> entry_retx_suppressed ctx = false ->
  match BestRouteStrategy.decide ctx with
  | [Forward [f]] =>
      f ∈ map Trie.face_id (nexthops fib) /\ f <> in_face ctx /\
      (f ∈ tried_faces ctx -> forall g, g ∈ map Trie.face_id (nexthops fib) -> g = in_face ctx \/ g ∈ tried_faces ctx)
  | [FNack NoRoute] => forall g, g ∈ map Trie.face_id (nexthops fib) -> g = in_face ctx
  | _ => False
  end.
Proof.
  intros Hf Hs. unfold BestRouteStrategy.decide. rewrite Hf, Hs.
  destruct (nexthops_excluding_any fib (in_face ctx) (tried_faces ctx)) as [|nh l] eqn:Ha.
  - assert (Hall : forall g, g ∈ map Trie.face_id (nexthops fib) -> g = in_face ctx \/ g ∈ tried_faces ctx).
    { intros g Hg. destruct (decide (g = in_face ctx)); [by left|]. destruct (decide (g ∈ tried_faces ctx)); [by right|].
      assert (g ∈ map Trie.face_id (nexthops_excluding_any fib (in_face ctx) (tried_faces ctx))) as Hin
        by by apply excluding_any_faces. rewrite Ha in Hin. by apply elem_of_nil in Hin. }
    destruct (nexthops_excluding fib (in_face ctx)) as [|nh l] eqn:He.
    + intros g Hg. destruct (decide (g = in_face ctx)); [done|].
      assert (g ∈ map Trie.face_id (nexthops_excluding fib (in_face ctx))) as Hin by by apply excluding_faces.
      rewrite He in Hin. by apply elem_of_nil in Hin.
    + pose proof (head_in nh l) as Hin. rewrite <- He in Hin. apply excluding_faces in Hin as [? ?]. by split_conj.
  - pose proof (head_in nh l) as Hin. rewrite <- Ha in Hin. apply excluding_any_faces in Hin as (? & ? & ?). by split_conj.
Qed.

(** Filtering keeps an order. *)
Lemma filter_sorted {A} (R : relation A) (P : A -> Prop) `{forall x, Decision (P x)} l :
  StronglySorted R l -> StronglySorted R (filter P l).
Proof.
  induction 1 as [|x l Hs IH Hx]; [constructor|]. rewrite filter_cons. case_decide; [|done].
  constructor; [done|]. rewrite Forall_forall in *. intros y [_ Hy]%list_elem_of_filter. by apply Hx.
Qed.

Definition by_cost (a b : FibNexthop) : Prop := cost a <= cost b.

(** On an entry sorted by cost, as the FIB keeps them, best-route takes a cheapest
    next hop among those it may use. *)
Lemma best_route_cheapest ctx fib f :
  fib_entry ctx = Some fib -> StronglySorted by_cost (nexthops fib) ->
  BestRouteStrategy.decide ctx = [Forward [f]] -> f ∉ tried_faces ctx ->
  exists n, n ∈ nexthops fib /\ Trie.face_id n = f /\
    forall m, m ∈ nexthops fib -> Trie.face_id m <> in_face ctx -> Trie.face_id m ∉ tried_faces ctx -> cost n <= cost m.
Proof.
  intros Hf Hs Hd Ht. unfold BestRouteStrategy.decide in Hd. rewrite Hf in Hd.
  destruct (entry_retx_suppressed ctx); [discriminate Hd|].
  destruct (nexthops_excluding_any fib (in_face ctx) (tried_faces ctx)) as [|n l] eqn:Ha.
  - destruct (nexthops_excluding fib (in_face ctx)) as [|n l] eqn:He; [discriminate Hd|]. injection Hd as <-. exfalso.
    assert (Trie.face_id n ∈ map Trie.face_id (nexthops_excluding_any fib (in_face ctx) (tried_faces ctx))) as Hin.
    { pose proof (head_in n l) as Hin. rewrite <- He in Hin. apply excluding_faces in Hin as [? ?].
      by apply excluding_any_faces. }
    rewrite Ha in Hin. by apply elem_of_nil in Hin.
  - injection Hd as <-. exists n.
    assert (Hn : n ∈ nexthops_excluding_any fib (in_face ctx) (tried_faces ctx)) by (rewrite Ha; apply list_elem_of_here).
    split_conj; [by apply list_elem_of_filter in Hn as [_ ?]|done|]. intros m Hm H1 H2.
    assert (Hin : m ∈ nexthops_excluding_any fib (in_face ctx) (tried_faces ctx)) by by apply list_elem_of_filter.
    assert (Hso : StronglySorted by_cost (n :: l)) by (rewrite <- Ha; by apply filter_sorted).
    rewrite Ha in Hin. apply StronglySorted_inv in Hso as [_ Hso]. rewrite Forall_forall in Hso.
    apply elem_of_cons in Hin as [->|Hin]; [lia|]. by apply Hso.
Qed.

(** On a Nack, best-route only ever moves to an upstream not tried before. *)
Lemma best_route_nack_fresh ctx reason fs :
  BestRouteStrategy.on_nack ctx reason = Forward fs ->
  exists f, fs = [f] /\ f ∈ fib_faces ctx /\ f <> in_face ctx /\ f ∉ tried_faces ctx.
Proof.
  unfold BestRouteStrategy.on_nack, fib_faces. destruct (fib_entry ctx) as [fib|]; [|done].
  destruct (nexthops_excluding_any _ _ _) as [|n l] eqn:Ha; [done|]. intros [= <-].
  pose proof (head_in n l) as Hin. rewrite <- Ha in Hin. apply excluding_any_faces in Hin. by eexists.
Qed.

(** ** Ranking by measurement *)

Lemma insert_by_score_perm p l : insert_by_score p l ≡ₚ p :: l.
Proof.
  induction l as [|q l IH]; [done|]. cbn [insert_by_score]. destruct (_ <=? _); [done|].
  rewrite IH. apply Permutation_swap.
Qed.
Lemma sort_by_score_perm l : sort_by_score l ≡ₚ l.
Proof. induction l as [|p l IH]; [done|]. cbn [sort_by_score foldr]. by rewrite insert_by_score_perm, IH. Qed.

Definition score_le (p q : Z * Z) : Prop := p.1 <= q.1.

Lemma insert_by_score_sorted p l : StronglySorted score_le l -> StronglySorted score_le (insert_by_score p l).
Proof.
  induction 1 as [|q l Hs IH Hq]; cbn [insert_by_score]; [by repeat constructor|].
  destruct (Z.leb_spec p.1 q.1).
  - constructor; [by constructor|]. constructor; [done|]. eapply Forall_impl; [exact Hq|]. unfold score_le. intros. lia.
  - constructor; [done|]. rewrite Forall_forall in *. intros x Hx.
    rewrite insert_by_score_perm in Hx. apply elem_of_cons in Hx as [->|Hx]; [unfold score_le; lia|by apply Hq].
Qed.
Lemma sort_by_score_sorted l : StronglySorted score_le (sort_by_score l).
Proof. induction l; [constructor|]. by apply insert_by_score_sorted. Qed.

(** A sorted list is left as it is. *)
Lemma sort_by_score_id l : StronglySorted score_le l -> sort_by_score l = l.
Proof.
  induction 1 as [|p l Hs IH Hp]; [done|]. cbn [sort_by_score foldr]. fold (sort_by_score l). rewrite IH.
  destruct l as [|q l]; [done|]. cbn [insert_by_score]. apply Forall_cons in Hp as [Hp _]. unfold score_le in Hp.
  by rewrite (proj2 (Z.leb_le _ _)).
Qed.

(** The measured strategy forwards to a next hop of lowest score. *)
Lemma measured_best ctx f :
  MeasuredStrategy.decide ctx = [Forward [f]] ->
  exists fib n, fib_entry ctx = Some fib /\ n ∈ nexthops_excluding fib (in_face ctx) /\ Trie.face_id n = f /\
    forall m, m ∈ nexthops_excluding fib (in_face ctx) ->
      MeasuredStrategy.score ctx f (cost n) <= MeasuredStrategy.score ctx (Trie.face_id m) (cost m).
Proof.
  unfold MeasuredStrategy.decide, MeasuredStrategy.ranked. destruct (fib_entry ctx) as [fib|]; [|done].
  set (hops := nexthops_excluding fib (in_face ctx)). set (scored := map _ hops).
  pose proof (sort_by_score_perm scored) as Hp. pose proof (sort_by_score_sorted scored) as Hs.
  destruct (sort_by_score scored) as [|[s g] l]; [done|]. cbn [map snd]. intros [= ->].
  assert (Hin : (s, f) ∈ scored) by (rewrite <- Hp; apply list_elem_of_here).
  apply list_elem_of_fmap in Hin as (n & [= -> ->] & Hn). exists fib, n. split_conj; [done..|]. intros m Hm.
  assert (Hin : (MeasuredStrategy.score ctx (Trie.face_id m) (cost m), Trie.face_id m) ∈ scored)
    by (apply list_elem_of_fmap; by exists m).
  rewrite <- Hp in Hin. apply StronglySorted_inv in Hs as [_ Hs]. rewrite Forall_forall in Hs.
  apply elem_of_cons in Hin as [[= <- _]|Hin]; [lia|]. by apply (Hs _ Hin).
Qed.

(** Without measurements and signals the score is the static cost, and a first
    Interest goes where best-route would send it. *)
Lemma measured_cold ctx :
  (forall fib, fib_entry ctx = Some fib -> StronglySorted by_cost (nexthops fib) /\ Forall (fun n => 0 <= cost n) (nexthops fib)) ->
  MeasurementsTable.get (measurements ctx) (s_name ctx) = None -> (forall f, view_link (signals ctx) f = None) ->
  tried_faces ctx = [] -> entry_retx_suppressed ctx = false ->
  MeasuredStrategy.decide ctx = BestRouteStrategy.decide ctx.
Proof.
  intros Hfib Hm Hv Ht Hs. unfold MeasuredStrategy.decide, BestRouteStrategy.decide, MeasuredStrategy.ranked.
  destruct (fib_entry ctx) as [fib|]; [|done]. destruct (Hfib fib eq_refl) as [Hso Hc]. rewrite Hs, Ht.
  replace (nexthops_excluding_any fib (in_face ctx) []) with (nexthops_excluding fib (in_face ctx)).
  2:{ unfold nexthops_excluding, nexthops_excluding_any. apply list_filter_iff. intros n. split; [|by intros []].
      intros Hn. split; [done|apply not_elem_of_nil]. }
  set (hops := nexthops_excluding fib (in_face ctx)). rewrite sort_by_score_id.
  { destruct hops; done. }
  assert (Hh : StronglySorted by_cost hops) by by apply filter_sorted.
  assert (Hpos : Forall (fun n => 0 <= cost n) hops).
  { rewrite Forall_forall in *. intros n [_ Hn]%list_elem_of_filter. by apply Hc. }
  assert (Hscore : forall n, 0 <= cost n -> MeasuredStrategy.score ctx (Trie.face_id n) (cost n) = cost n).
  { intros n Hn. unfold MeasuredStrategy.score, srtt_of. rewrite Hm, Hv. lia. }
  clear -Hh Hpos Hscore. induction Hh as [|n l Hl IH Hn]; cbn [map]; [constructor|].
  apply Forall_cons in Hpos as [Hn0 Hpos]. constructor; [by apply IH|].
  apply Forall_fmap. rewrite Forall_forall in *. intros m Hm. unfold score_le. cbn. rewrite !Hscore by auto. by apply Hn.
Qed.

(** ** Spreading by weight *)

Module CA := CongestionAwareStrategy.

Lemma total_weight_acc l acc : fold_left (fun acc (p : Z * Z) => acc + p.2) l acc = acc + CA.total_weight l.
Proof.
  unfold CA.total_weight. revert acc. induction l as [|p l IH]; intros acc; cbn [fold_left]; [lia|].
  rewrite IH, (IH (0 + p.2)). lia.
Qed.
Lemma total_weight_cons p l : CA.total_weight (p :: l) = p.2 + CA.total_weight l.
Proof. unfold CA.total_weight at 1. cbn [fold_left]. apply total_weight_acc. Qed.

Definition positive (l : list (Z * Z)) : Prop := Forall (fun p => 1 <= p.2) l.

Lemma total_weight_ge l : positive l -> zlen l <= CA.total_weight l.
Proof. induction 1; [done|]. rewrite total_weight_cons. zlen_lia. Qed.

(** The loop stops at a candidate for every position below the total. *)
Lemma select_some l pos acc :
  positive l -> acc <= pos < acc + CA.total_weight l -> exists p, p ∈ l /\ CA.select pos acc l = Some p.1.
Proof.
  revert acc. induction l as [|[f w] l IH]; intros acc Hp Hr; [change (CA.total_weight []) with 0 in Hr; lia|].
  rewrite total_weight_cons in Hr. apply Forall_cons in Hp as [Hw Hp]. cbn [CA.select fst snd] in *.
  destruct (Z.ltb_spec pos (acc + w)); [exists (f, w); split; [apply list_elem_of_here|done]|].
  destruct (IH (acc + w) Hp) as (p & Hin & He); [lia|]. exists p. split; [by apply list_elem_of_further|done].
Qed.

(** The positions that select [f]: as many as its weight. *)
Definition share (f : Z) (l : list (Z * Z)) (acc total : Z) : nat :=
  length (filter (fun pos => CA.select pos acc l = Some f) (seqZ acc total)).

Lemma filter_ext_in {A} (P Q : A -> Prop) `{forall x, Decision (P x), forall x, Decision (Q x)} (l : list A) :
  (forall x, x ∈ l -> P x <-> Q x) -> filter P l = filter Q l.
Proof.
  induction l as [|x l IH]; intros Hn; [done|]. pose proof (Hn x (list_elem_of_here _ _)) as Hx.
  rewrite !filter_cons, IH by (intros y Hy; by apply Hn, list_elem_of_further). repeat case_decide; tauto.
Qed.
Lemma filter_none {A} (P : A -> Prop) `{forall x, Decision (P x)} (l : list A) :
  (forall x, x ∈ l -> ~ P x) -> filter P l = [].
Proof.
  intros Hn. rewrite (filter_ext_in P (fun _ => False)) by (intros x Hx; by split; [apply Hn|]).
  induction l as [|x l IH]; [done|]. rewrite filter_cons_False by tauto. apply IH. intros y Hy. by apply Hn, list_elem_of_further.
Qed.
Lemma share_spec f l acc :
  positive l -> NoDup l.*1 ->
  share f l acc (CA.total_weight l) = match (list_to_map l : gmap Z Z) !! f with Some w => Z.to_nat w | None => 0%nat end.
Proof.
  revert acc. induction l as [|[g w] l IH]; intros acc Hp Hnd; [done|].
  apply Forall_cons in Hp as [Hw Hp]. cbn [fmap list_fmap fst snd] in *. apply NoDup_cons in Hnd as [Hg Hnd].
  rewrite total_weight_cons. cbn [snd]. pose proof (total_weight_ge l Hp). pose proof (zlen_nonneg l).
  unfold share. rewrite seqZ_app, filter_app, length_app by lia.
  assert (Hfst : forall pos, pos ∈ seqZ acc w -> CA.select pos acc ((g, w) :: l) = Some g).
  { intros pos Hpos%elem_of_seqZ. cbn [CA.select]. destruct (Z.ltb_spec pos (acc + w)); [done|lia]. }
  assert (Hrest : filter (fun pos => CA.select pos acc ((g, w) :: l) = Some f) (seqZ (acc + w) (CA.total_weight l)) =
                  filter (fun pos => CA.select pos (acc + w) l = Some f) (seqZ (acc + w) (CA.total_weight l))).
  { apply filter_ext_in. intros pos Hpos%elem_of_seqZ. cbn [CA.select].
    destruct (Z.ltb_spec pos (acc + w)); [lia|done]. }
  rewrite Hrest. fold (share f l (acc + w) (CA.total_weight l)). rewrite IH by done. cbn [list_to_map foldr uncurry].
  destruct (decide (f = g)) as [->|Hne].
  - rewrite lookup_insert_eq, filter_all by (by intros; apply Hfst).
    rewrite not_elem_of_list_to_map_1 by done. rewrite length_seqZ. apply Nat.add_0_r.
  - rewrite lookup_insert_ne, filter_none by (try done; intros x Hx; rewrite Hfst by done; congruence). done.
Qed.

Lemma min_score_le l acc m :
  fold_left (fun acc (p : Z * Z) => Some (match acc with Some m => Z.min m p.2 | None => p.2 end)) l acc = Some m ->
  (forall p, p ∈ l -> m <= p.2) /\ (forall a, acc = Some a -> m <= a).
Proof.
  revert acc. induction l as [|p l IH]; intros acc; cbn [fold_left].
  - intros ->. split; [by intros ? ?%elem_of_nil|]. intros ? [= ->]. lia.
  - intros [H1 H2]%IH. specialize (H2 _ eq_refl). split.
    + intros q [->|Hq]%elem_of_cons; [destruct acc; lia|by apply H1].
    + intros a ->. lia.
Qed.
Lemma min_score_none l : CA.min_score l = None <-> l = [].
Proof.
  destruct l as [|p l]; [done|]. split; [|done]. unfold CA.min_score. cbn [fold_left]. intros H. exfalso.
  revert H. generalize p.2. induction l as [|q l IH]; intros z; [done|]. cbn [fold_left]. apply IH.
Qed.

(** The candidates of the strategy and their weights: every next hop it may use,
    in FIB order, each with a weight from 1 to 1000. *)
Lemma weighted_spec ctx :
  match fib_entry ctx with
  | None => CA.weighted ctx = []
  | Some fib =>
      (CA.weighted ctx).*1 = map Trie.face_id (nexthops_excluding_any fib (in_face ctx) (tried_faces ctx)) /\
      Forall (fun p => 1 <= p.2 <= 1000) (CA.weighted ctx)
  end.
Proof.
  unfold CA.weighted. destruct (fib_entry ctx) as [fib|]; [|done].
  set (hops := nexthops_excluding_any _ _ _). set (scored := map _ hops).
  assert (Hfst : scored.*1 = map Trie.face_id hops) by (unfold scored; clear; induction hops; [done|cbn; by f_equal]).
  destruct (CA.min_score scored) as [m|] eqn:Hm.
  - split.
    + rewrite <- Hfst. clear. induction scored; [done|cbn; by f_equal].
    + apply Forall_fmap, Forall_forall. intros p _. cbn.
      pose proof (Z.mod_pos_bound (p.2 - m) (2 ^ 64) ltac:(lia)) as Hb. unfold wrap.
      assert (1000 / (1 + (p.2 - m) mod 2 ^ 64) <= 1000) by (apply Z.div_le_upper_bound; nia). lia.
  - apply min_score_none in Hm. rewrite <- Hfst, Hm. done.
Qed.

Lemma weighted_positive ctx : positive (CA.weighted ctx).
Proof.
  pose proof (weighted_spec ctx) as H. unfold positive. destruct (fib_entry ctx); [|rewrite H; constructor].
  eapply Forall_impl; [apply H|]. cbn. lia.
Qed.

(** A nexthop is picked whenever one may be used, and only such a one: the
    fallback after the loop is never needed. *)
Lemma choice_spec {W} `{HasCursor W} ctx (w : W) :
  match (CA.pick ctx w).1 with
  | Some f => f ∈ (CA.weighted ctx).*1
  | None => CA.weighted ctx = []
  end.
Proof.
  unfold CA.pick. pose proof (weighted_positive ctx) as Hp. destruct (CA.weighted ctx) as [|[f wt] [|q l]] eqn:He; [done|by left|].
  rewrite <- He in *. pose proof (total_weight_ge _ Hp). assert (0 < CA.total_weight (CA.weighted ctx)).
  { rewrite He in *. zlen_lia. }
  destruct (select_some (CA.weighted ctx) (scatter (cursor w) mod CA.total_weight (CA.weighted ctx)) 0 Hp) as (p & Hin & Hs).
  { pose proof (Z.mod_pos_bound (scatter (cursor w)) (CA.total_weight (CA.weighted ctx))). lia. }
  cbn [fst]. rewrite Hs. apply list_elem_of_fmap. by exists p.
Qed.

(** ** All strategies *)

(** The actions name next hops of the FIB entry, other than the incoming face. *)
Definition within_fib (ctx : StrategyContext) (acts : list ForwardingAction) : Prop :=
  Forall (fun a => Forall (fun f => f ∈ fib_faces ctx /\ f <> in_face ctx) (action_faces a)) acts.

Lemma within_fib_forward ctx fs :
  (forall f, f ∈ fs -> f ∈ fib_faces ctx /\ f <> in_face ctx) -> within_fib ctx [Forward fs].
Proof. intros H. repeat constructor. by apply Forall_forall. Qed.
Lemma within_fib_none ctx a : action_faces a = [] -> within_fib ctx [a].
Proof. intros H. repeat constructor. rewrite H. constructor. Qed.

Lemma best_route_within ctx : within_fib ctx (BestRouteStrategy.decide ctx).
Proof.
  destruct (fib_entry ctx) as [fib|] eqn:Hf; [|unfold BestRouteStrategy.decide; rewrite Hf; by apply within_fib_none].
  destruct (entry_retx_suppressed ctx) eqn:Hs; [unfold BestRouteStrategy.decide; rewrite Hf, Hs; constructor|].
  pose proof (best_route_cases ctx fib Hf Hs) as H.
  destruct (BestRouteStrategy.decide ctx) as [|[[|f [|]]| |[]| |] [|]]; try done; [|by apply within_fib_none].
  apply within_fib_forward. intros g ->%list_elem_of_singleton. unfold fib_faces. rewrite Hf. tauto.
Qed.

Lemma multicast_within ctx : within_fib ctx (MulticastStrategy.decide ctx).
Proof.
  unfold MulticastStrategy.decide. destruct (fib_entry ctx) as [fib|] eqn:Hf; [|by apply within_fib_none].
  set (cands := map _ _). destruct cands as [|c cs] eqn:Hc; [by apply within_fib_none|].
  destruct (filter _ (c :: cs)) as [|f fs] eqn:He; [constructor|]. rewrite <- He. apply within_fib_forward.
  intros g [_ Hg]%list_elem_of_filter. rewrite <- Hc in Hg. apply excluding_faces in Hg. unfold fib_faces. by rewrite Hf.
Qed.

Lemma self_learning_within ctx : within_fib ctx (SelfLearningStrategy.decide ctx).
Proof.
  unfold SelfLearningStrategy.decide. destruct (fib_entry ctx) as [fib|] eqn:Hf; [|by apply within_fib_none].
  set (cands := map _ _). destruct cands as [|c cs] eqn:Hc; [by apply within_fib_none|]. rewrite <- Hc.
  apply within_fib_forward. intros g Hg%excluding_faces. unfold fib_faces. by rewrite Hf.
Qed.

Lemma ranked_faces ctx fib :
  fib_entry ctx = Some fib -> MeasuredStrategy.ranked ctx ≡ₚ map Trie.face_id (nexthops_excluding fib (in_face ctx)).
Proof.
  intros Hf. unfold MeasuredStrategy.ranked. rewrite Hf, sort_by_score_perm. rewrite map_map. done.
Qed.

Lemma measured_within ctx : within_fib ctx (MeasuredStrategy.decide ctx).
Proof.
  unfold MeasuredStrategy.decide. destruct (fib_entry ctx) as [fib|] eqn:Hf; [|by apply within_fib_none].
  pose proof (ranked_faces ctx fib Hf) as Hp. destruct (MeasuredStrategy.ranked ctx) as [|f fs]; [by apply within_fib_none|].
  apply within_fib_forward. intros g ->%list_elem_of_singleton. unfold fib_faces. rewrite Hf.
  apply excluding_faces. rewrite <- Hp. apply list_elem_of_here.
Qed.

Lemma weighted_faces ctx f : f ∈ (CA.weighted ctx).*1 -> f ∈ fib_faces ctx /\ f <> in_face ctx /\ f ∉ tried_faces ctx.
Proof.
  pose proof (weighted_spec ctx) as H. unfold fib_faces. destruct (fib_entry ctx) as [fib|].
  - destruct H as [-> _]. apply excluding_any_faces.
  - rewrite H. by intros ?%elem_of_nil.
Qed.

Lemma congestion_aware_within {W} `{HasCursor W} ctx (w : W) : within_fib ctx (CA.decide ctx w).1.
Proof.
  unfold CA.decide. destruct (fib_entry ctx) as [fib|] eqn:Hf; [|by apply within_fib_none].
  pose proof (choice_spec ctx w) as Hp. destruct (CA.pick ctx w) as [[f|] w']; cbn [fst] in *; [|by apply within_fib_none].
  apply within_fib_forward. intros g ->%list_elem_of_singleton. apply weighted_faces in Hp. tauto.
Qed.

(** Every strategy of the crate decides at once, so the [unwrap] in
    [after_receive_interest] does not panic; all but broadcast stay within the FIB
    entry and leave the incoming face out, and broadcast names all next hops. *)
Lemma builtins_decide {W} `{HasCursor W} (e : StrategyEntry W) ctx w :
  e ∈ BUILTINS ->
  exists acts w', decide_sync (e_build e) ctx w = (Some acts, w') /\
    after_receive_interest_erased (e_build e) ctx w = (Some acts, w') /\
    (within_fib ctx acts \/ e_name e = str "broadcast" /\ acts = BroadcastStrategy.decide ctx).
Proof.
  intros Hin. unfold BUILTINS in Hin. repeat (apply elem_of_cons in Hin as [->|Hin]); [..|by apply elem_of_nil in Hin].
  - eexists _, _. split_conj; [done..|]. left. apply best_route_within.
  - eexists _, _. split_conj; [done..|]. left. apply multicast_within.
  - eexists _, _. split_conj; [done..|]. by right.
  - eexists _, _. split_conj; [done..|]. left. apply self_learning_within.
  - eexists _, _. split_conj; [done..|]. left. apply measured_within.
  - cbn. pose proof (congestion_aware_within ctx w) as Hc. destruct (CA.decide ctx w) as [a w'].
    eexists _, _. split_conj; [done..|]. by left.
Qed.

(** The registry finds every built-in strategy under the name and version it
    reports, whatever the order of the entries. *)
Lemma builtins_registered {W} `{HasCursor W} (registered : list (StrategyEntry W)) e :
  registered ≡ₚ BUILTINS -> e ∈ registered ->
  create_by_name_version registered (e_name e) (e_version e) = Some (e_build e) /\
  es_name (e_build e) = strategy_name (e_name e) (e_version e).
Proof.
  intros Hp Hin. assert (Hb : e ∈ BUILTINS) by by rewrite <- Hp.
  assert (Huniq : forall e', e' ∈ BUILTINS -> e_name e' = e_name e -> e' = e).
  { intros e' He'. unfold BUILTINS in *.
    repeat (apply elem_of_cons in Hb as [->|Hb]); [..|by apply elem_of_nil in Hb];
    repeat (apply elem_of_cons in He' as [->|He']); try done; by apply elem_of_nil in He'. }
  split.
  - unfold create_by_name_version. destruct (List.find _ registered) as [e'|] eqn:Hf.
    + apply List.find_some in Hf as [Hin' Hx]. apply andb_true_iff in Hx as [Hn%bool_decide_eq_true _].
      rewrite (Huniq e'); [done| |done]. rewrite <- Hp. by apply list_elem_of_In.
    + exfalso. apply list_elem_of_In in Hin. apply (List.find_none _ _ Hf) in Hin.
      by rewrite bool_decide_true, Z.eqb_refl in Hin.
  - unfold BUILTINS in Hb. repeat (apply elem_of_cons in Hb as [->|Hb]); [done..|by apply elem_of_nil in Hb].
Qed.

(** ** Nack failover without memory

    The measured strategy leaves out only the upstream that sent the Nack, not
    those tried before: two upstreams that both send Nacks are used in turns,
    however often both have been tried. *)
Lemma measured_ping_pong ctx a b ca cb reason :
  fib_entry ctx = Some (mkFibEntry [mkFibNexthop a ca; mkFibNexthop b cb]) -> a <> b ->
  (in_face ctx = a -> MeasuredStrategy.on_nack ctx reason = Forward [b]) /\
  (in_face ctx = b -> MeasuredStrategy.on_nack ctx reason = Forward [a]).
Proof.
  intros Hf Hne. unfold MeasuredStrategy.on_nack.
  pose proof (ranked_faces ctx _ Hf) as Hp. unfold nexthops_excluding in Hp. cbn [nexthops] in Hp.
  split; intros Hin; rewrite !filter_cons, !Hin in Hp; cbn [Trie.face_id] in Hp; repeat case_decide; try congruence;
    apply Permutation_singleton_r in Hp; by rewrite Hp.
Qed.

(** ** Forwarding at once

    The trait lets a strategy put a forward off; none of the crate's does. *)
Definition prompt {W} (s : ErasedStrategy W) : Prop :=
  forall ctx w acts, (decide_sync s ctx w).1 = Some acts \/ (after_receive_interest_erased s ctx w).1 = Some acts ->
    forall fs delay, head acts <> Some (ForwardAfter fs delay).

Lemma builtin_prompt {W} `{HasCursor W} :
  Forall (prompt (W := W)) [erase mkBestRoute; erase mkMulticastStrategy; erase mkBroadcast; erase mkSelfLearning; erase mkMeasured; erase mkCongestionAware].
Proof.
  repeat (apply Forall_cons_2; [intros ctx w acts Ha fs delay|]); [..|apply Forall_nil_2];
    (destruct Ha as [Ha|Ha]; cbn [erase decide_sync after_receive_interest_erased decide_fast after_receive_interest fst
       BestRoute_strategy Multicast_strategy Broadcast_strategy SelfLearning_strategy Measured_strategy CongestionAware_strategy] in Ha).
  1-2: injection Ha as <-; unfold BestRouteStrategy.decide; by repeat case_match.
  1-2: injection Ha as <-; unfold MulticastStrategy.decide; by repeat case_match.
  1-2: injection Ha as <-; unfold BroadcastStrategy.decide; by repeat case_match.
  1-2: injection Ha as <-; unfold SelfLearningStrategy.decide; by repeat case_match.
  1-2: injection Ha as <-; unfold MeasuredStrategy.decide; by repeat case_match.
  all: unfold CongestionAwareStrategy.decide in Ha; by repeat case_match; simplify_eq/=.
Qed.
