(* ===== verification/StrategyStage.v ===== *)
(** * The strategy stage ([crates/forwarding/ndn-engine/src/stages/strategy.rs])

    An admitted Interest is matched against the FIB, under its forwarding hint if
    it has one, and the strategy of the namespace decides; the stage applies the
    egress scope, records the upstreams in the PIT entry and keeps the Interest from
    going back to the host it came from.

    The tables the stage only reads are the record [StrategyStage]; it changes the
    PIT and the state [W] of the strategies.  A task it spawns (a delayed forward)
    is a value of [Delayed], run later by [wake].  The clock is an argument;
    [None] as the result is a panic of the strategy. *)

From S2P Require Import Prelude Tlv Name NameUri Face Trie Rib Packet Lp Pit PitStage DecodeStage Measure Strategy.
#[local] Open Scope Z_scope.

Definition localhop : bytes := [108; 111; 99; 97; 108; 104; 111; 112].
Definition is_localhop_name (name : Name) : bool :=
  match head name with Some c => bool_decide (value c = localhop) | None => false end.

(** [ndn_discovery_core::scope]. *)
Definition ndn_local : Name := [Component.generic (str "ndn"); Component.generic (str "local")].
Definition is_link_local (name : Name) : bool := NameOps.has_prefix name ndn_local.

Inductive NextHopOverride : Type := OverrideNone | OverrideForward (face : Z) | DropFaceGone.

Definition next_hop_override (tags : Tags) (face_exists : Z -> bool) : NextHopOverride :=
  match tag_next_hop_face_id tags with
  | None => OverrideNone
  | Some face_id => if face_exists face_id then OverrideForward face_id else DropFaceGone
  end.

(** ** Producer regions *)

Definition NetworkRegionTable : Type := list Name.
Module NetworkRegionTable.
Definition new (regions : list Name) : NetworkRegionTable := regions.
Definition is_in_producer_region (regions : NetworkRegionTable) (hint : list Name) : bool :=
  existsb (fun region => existsb (fun deleg => NameOps.has_prefix region deleg) hint) regions.
Definition add_region (regions : NetworkRegionTable) (region : Name) : NetworkRegionTable :=
  if bool_decide (region ∈ regions) then regions else regions ++ [region].
End NetworkRegionTable.

(** ** The host of a peer *)

(** Up to and including the first [c], if there is one. *)
Fixpoint through (c : Z) (s : bytes) : option bytes :=
  match s with
  | [] => None
  | x :: s => if x =? c then Some [x] else cons x <$> through c s
  end.

Definition host_of_remote_uri (uri : bytes) : bytes :=
  let after_scheme := match split_str (S (length uri)) (str "://") uri with _ :: s :: _ => s | _ => uri end in
  match through 93 after_scheme with
  | Some h => h
  | None => match before_last 58 after_scheme with Some h => h | None => after_scheme end
  end.

Definition peer_host (face_table : FaceTable) (face_id : Z) : option bytes :=
  let! face := FaceTable.get face_id face_table in
  let! uri := remote_uri face in
  Some (host_of_remote_uri uri).

(** ** The stage *)

Record StrategyStage (W : Type) : Type := mkStrategyStage {
  strategy_table : StrategyTable.StrategyTable (S := ErasedStrategy W);
  default_strategy : ErasedStrategy W;
  st_fib : EngineFib.Fib;
  st_measurements : MeasurementsTable;
  st_signals : SignalView;
  st_face_table : FaceTable;
  network_region : NetworkRegionTable
}.
Arguments mkStrategyStage {W}.
Arguments strategy_table {W}.
Arguments default_strategy {W}.
Arguments st_fib {W}.
Arguments st_measurements {W}.
Arguments st_signals {W}.
Arguments st_face_table {W}.
Arguments network_region {W}.

(** A [ForwardAfter] waiting for its delay. *)
Record Delayed : Type := mkDelayed {
  d_faces : list Z;
  d_delay : Z;
  d_raw_bytes : bytes;
  d_pit_token : option PitToken
}.

Definition scope_of (t : FaceTable) (face : Z) : option FaceScope := scope <$> FaceTable.get face t.

Module StrategyStage.
Section stage.
Context {W : Type} (self : StrategyStage W).

(** The [for deleg in hint] loop. *)
Definition first_resolved (hint : list Name) : option Name :=
  List.find (fun deleg => PitEntry.is_some (EngineFib.lpm (st_fib self) deleg)) hint.

Definition fib_lookup_name (ctx : PacketContext) (interest_name : Name) : Name :=
  match packet ctx with
  | PktInterest i =>
      match Interest.forwarding_hint i with
      | None => interest_name
      | Some hint =>
          match hint with
          | [] => interest_name
          | first :: _ =>
              if NetworkRegionTable.is_in_producer_region (network_region self) hint then interest_name
              else default first (first_resolved hint)
          end
      end
  | _ => interest_name
  end.

(** What the stage reads of the PIT entry: the upstreams tried, those suppressed,
    and whether the entry is. *)
Definition entry_state (p : Pit) (token : option PitToken) (now_ns : Z) : list Z * list Z * bool :=
  let read {R} (f : PitEntry -> R) : option R := let! tok := token in Pit.with_entry p tok f in
  (default [] (read (fun e => map or_face_id (out_records e))),
   default [] (read (fun e => PitEntry.suppressed_upstreams e now_ns)),
   default false (read (fun e => PitEntry.entry_retx_suppressed e now_ns))).

Definition strategy_context (ctx : PacketContext) (tags : Tags) (name fib_name : Name) (p : Pit) (now_ns : Z)
    : StrategyContext :=
  let '(tried, suppressed, entry_suppressed) := entry_state p (pit_token ctx) now_ns in
  mkStrategyContext name (PitStage.face_id ctx) (EngineFib.lpm (st_fib self) fib_name) (pit_token ctx)
    tried suppressed entry_suppressed (st_measurements self) (st_signals self)
    (tag_prev_hop_location tags) (tag_data_location tags).

Definition strategy_for (fib_name : Name) : ErasedStrategy W :=
  default (default_strategy self) (StrategyTable.lpm (strategy_table self) fib_name).

(** [/localhost], [/ndn/local], and [/localhop] from a non-local face stay local. *)
Definition restrict_to_local (ctx : PacketContext) (name : Name) : bool :=
  let in_face_scope := default NonLocal (scope_of (st_face_table self) (PitStage.face_id ctx)) in
  is_link_local name || is_localhost_name name || (is_localhop_name name && bool_decide (in_face_scope = NonLocal)).

Definition in_scope (restrict : bool) (faces : list Z) : list Z :=
  if restrict then filter (fun f => scope_of (st_face_table self) f = Some Local) faces else faces.

(** The loop that drops a face already sent this nonce, and records the others. *)
Fixpoint record_out (token : PitToken) (nonce now : Z) (faces : list Z) (p : Pit) : list Z * Pit :=
  match faces with
  | [] => ([], p)
  | fid :: faces =>
      let '(dup, p) := Pit.with_entry_mut p token (fun entry =>
        let already := existsb (fun r => (or_face_id r =? fid) && (last_nonce r =? nonce)) (out_records entry) in
        (already, if already then entry else PitEntry.add_out_record entry fid nonce now)) in
      let '(rest, p) := record_out token nonce now faces p in
      (if default false dup then rest else fid :: rest, p)
  end.

(** Not back to the host the Interest came from. *)
Definition not_back (ctx : PacketContext) (faces : list Z) : list Z :=
  match peer_host (st_face_table self) (PitStage.face_id ctx) with
  | Some ingress_host => filter (fun f => peer_host (st_face_table self) f <> Some ingress_host) faces
  | None => faces
  end.

Definition interest_nonce (ctx : PacketContext) : option Z :=
  match packet ctx with PktInterest i => Interest.nonce i | _ => None end.

(** The arm [ForwardingAction::Forward]. *)
Definition forward (ctx : PacketContext) (name : Name) (faces : list Z) (p : Pit) : Action * Pit :=
  match in_scope (restrict_to_local ctx name) faces with
  | [] => (Nack ctx NoRoute, p)
  | effective_faces =>
      let '(surviving, p) := match interest_nonce ctx, pit_token ctx with
        | Some nonce, Some token => record_out token nonce (arrival ctx) effective_faces p
        | _, _ => (effective_faces, p)
        end in
      match not_back ctx surviving with
      | [] => (Drop Suppressed, p)
      | surviving =>
          let p := match pit_token ctx with
            | Some token => (Pit.with_entry_mut p token (fun e => (tt, PitEntry.note_forward_decision e))).2
            | None => p
            end in
          let ctx := set_out ctx (out_faces ctx ++ surviving) (out_pit_tokens ctx) in
          (Send ctx (out_faces ctx), p)
      end
  end.

(** [Broadcast] becomes a [Forward] to all faces but the incoming one. *)
Definition expand (ctx : PacketContext) (action : option ForwardingAction) : option ForwardingAction :=
  match action with
  | Some Broadcast => Some (Forward (filter (fun f => f <> PitStage.face_id ctx) (FaceTable.face_ids (st_face_table self))))
  | other => other
  end.

Definition decide_actions (sctx : StrategyContext) (fib_name : Name) (w : W) : option (list ForwardingAction) * W :=
  match decide_sync (strategy_for fib_name) sctx w with
  | (Some a, w) => (Some a, w)
  | (None, w) => after_receive_interest_erased (strategy_for fib_name) sctx w
  end.

(** The action, the tasks spawned, the PIT and the strategies' state. *)
Definition perform (ctx : PacketContext) (name : Name) (action : option ForwardingAction) (p : Pit)
    : Action * list Delayed * Pit :=
  match expand ctx action with
  | None => (Nack ctx NoRoute, [], p)
  | Some (Forward faces) => let '(a, p) := forward ctx name faces p in (a, [], p)
  | Some (ForwardAfter faces delay) =>
      (Drop DropOther, [mkDelayed faces delay (raw_bytes ctx) (pit_token ctx)], p)
  | Some (FNack reason) => (Nack ctx reason, [], p)
  | Some Suppress => (Drop Suppressed, [], p)
  | Some Broadcast => (Drop DropOther, [], p) (* [unreachable!]: [expand] leaves none *)
  end.

Definition process (now_ns : Z) (ctx : PacketContext) (tags : Tags) (p : Pit) (w : W)
    : option (Action * list Delayed * Pit * W) :=
  match packet ctx with
  | PktInterest _ =>
      match ctx_name ctx with
      | None => Some (Drop DropMalformedPacket, [], p, w)
      | Some name =>
          match next_hop_override tags (fun f => PitEntry.is_some (FaceTable.get f (st_face_table self))) with
          | OverrideForward face =>
              let ctx := set_out ctx (out_faces ctx ++ [face]) (out_pit_tokens ctx) in
              Some (Send ctx (out_faces ctx), [], p, w)
          | DropFaceGone => Some (Drop UnknownFace, [], p, w)
          | OverrideNone =>
              let fib_name := fib_lookup_name ctx name in
              let sctx := strategy_context ctx tags name fib_name p now_ns in
              let '(actions, w) := decide_actions sctx fib_name w in
              let! actions := actions in
              let '(a, ds, p) := perform ctx name (head actions) p in
              Some (a, ds, p, w)
          end
      end
  | _ => Some (Continue ctx, [], p, w)
  end.

(** A spawned task after its delay: the faces it sends the Interest to, unless the
    PIT entry is gone or another node has forwarded first. *)
Definition wake (d : Delayed) (p : Pit) : list Z :=
  let proceed := match d_pit_token d with
    | Some token => default false (Pit.with_entry p token (fun e => negb (forward_cancelled e)))
    | None => true
    end in
  if proceed then filter (fun f => is_Some (FaceTable.get f (st_face_table self))) (d_faces d) else [].
End stage.
End StrategyStage.

(** ** Recording the upstreams *)

(** A record of sending this nonce to this face. *)
Definition sent (rs : list OutRecord) (f nonce : Z) : Prop :=
  exists r, r ∈ rs /\ or_face_id r = f /\ last_nonce r = nonce.

Lemma existsb_sent rs f nonce :
  existsb (fun r => (or_face_id r =? f) && (last_nonce r =? nonce)) rs = true <-> sent rs f nonce.
Proof.
  rewrite existsb_exists. unfold sent. split; intros (r & Hin & H); exists r; rewrite list_elem_of_In in *;
    (split; [done|]); [rewrite andb_true_iff, !Z.eqb_eq in H; tauto|rewrite andb_true_iff, !Z.eqb_eq; tauto].
Qed.

Lemma renew_sent rs f nonce now : mkOutRecord f nonce now ∈ PitEntry.renew_out_record rs f nonce now.
Proof.
  induction rs as [|r rs IH]; cbn [PitEntry.renew_out_record]; [apply list_elem_of_here|].
  destruct (or_face_id r =? f); [apply list_elem_of_here|by apply list_elem_of_further].
Qed.
Lemma renew_other rs f nonce now r :
  or_face_id r <> f -> r ∈ PitEntry.renew_out_record rs f nonce now <-> r ∈ rs.
Proof.
  intros Hne. induction rs as [|q rs IH]; cbn [PitEntry.renew_out_record].
  - rewrite elem_of_cons, elem_of_nil. split; [|done]. intros [->|[]]. done.
  - destruct (Z.eqb_spec (or_face_id q) f); rewrite !elem_of_cons; [|tauto].
    split; (intros [->|H]; [done|by right]).
Qed.

(** The effect of [record_out] on the records of the entry. *)
Fixpoint note_out (nonce now : Z) (faces : list Z) (rs : list OutRecord) : list Z * list OutRecord :=
  match faces with
  | [] => ([], rs)
  | f :: faces =>
      if existsb (fun r => (or_face_id r =? f) && (last_nonce r =? nonce)) rs then note_out nonce now faces rs
      else let '(rest, rs) := note_out nonce now faces (PitEntry.renew_out_record rs f nonce now) in (f :: rest, rs)
  end.

Lemma set_out_records_id e : set_out_records e (out_records e) = e.
Proof. by destruct e. Qed.
Lemma set_entries_id p : Pit.set_entries p (entries p) = p.
Proof. by destruct p. Qed.

Lemma record_out_entry token nonce now faces p e :
  entries p !! token = Some e ->
  StrategyStage.record_out token nonce now faces p =
    ((note_out nonce now faces (out_records e)).1,
     Pit.set_entries p (<[token := set_out_records e (note_out nonce now faces (out_records e)).2]> (entries p))).
Proof.
  revert p e. induction faces as [|f faces IH]; intros p e He; cbn [StrategyStage.record_out note_out].
  - cbn [fst snd]. by rewrite set_out_records_id, insert_id, set_entries_id.
  - unfold Pit.with_entry_mut. rewrite He. destruct (existsb _ (out_records e)) eqn:Hx; cbn [default].
    + rewrite insert_id, set_entries_id by done. by rewrite (IH p e He).
    + set (p1 := Pit.set_entries p _). set (e1 := PitEntry.add_out_record e f nonce now).
      assert (He1 : entries p1 !! token = Some e1) by apply lookup_insert_eq. rewrite (IH p1 e1 He1).
      change (out_records e1) with (PitEntry.renew_out_record (out_records e) f nonce now).
      destruct (note_out nonce now faces _) as [rest rs]. cbn [fst snd]. f_equal.
      unfold p1, Pit.set_entries. cbn [pit_log entries orphans]. by rewrite insert_insert_eq.
Qed.
Lemma record_out_absent token nonce now faces p :
  entries p !! token = None -> StrategyStage.record_out token nonce now faces p = (faces, p).
Proof.
  intros He. induction faces as [|f faces IH]; [done|]. cbn [StrategyStage.record_out]. unfold Pit.with_entry_mut.
  by rewrite He, IH.
Qed.

(** The faces kept are those this nonce was not sent to, once each, and all the
    faces asked for are recorded afterwards. *)
Lemma note_out_spec nonce now faces rs :
  let '(rest, rs') := note_out nonce now faces rs in
  NoDup rest /\ (forall f, f ∈ rest <-> f ∈ faces /\ ~ sent rs f nonce) /\
  (forall f, f ∈ rest -> mkOutRecord f nonce now ∈ rs') /\
  (forall r, r ∈ rs -> or_face_id r ∉ rest -> r ∈ rs') /\
  (forall r, r ∈ rs' -> r ∈ rs \/ (or_face_id r ∈ rest /\ last_nonce r = nonce)).
Proof.
  revert rs. induction faces as [|f faces IH]; intros rs; cbn [note_out].
  { split_conj; try done; [constructor|set_solver|set_solver|tauto]. }
  destruct (existsb _ rs) eqn:Hx.
  - apply existsb_sent in Hx. specialize (IH rs). destruct (note_out nonce now faces rs) as [rest rs'].
    destruct IH as (H1 & H2 & H3 & H4 & H5). split_conj; try done. intros g. rewrite H2, elem_of_cons.
    split; [tauto|]. intros [[->|?] ?]; tauto.
  - assert (Hns : ~ sent rs f nonce) by (rewrite <- existsb_sent, Hx; done).
    set (rs1 := PitEntry.renew_out_record rs f nonce now). specialize (IH rs1).
    destruct (note_out nonce now faces rs1) as [rest rs']. destruct IH as (H1 & H2 & H3 & H4 & H5).
    assert (Hsf : sent rs1 f nonce) by (eexists; split; [apply renew_sent|done]).
    assert (Hso : forall g, g <> f -> sent rs1 g nonce <-> sent rs g nonce).
    { intros g Hg. unfold sent. split; intros (r & Hin & Hf & Hn); exists r; (split; [|done]);
        [apply (renew_other rs f nonce now) in Hin|apply (renew_other rs f nonce now)]; try done; by rewrite Hf. }
    assert (Hfr : f ∉ rest) by (rewrite H2; tauto).
    split_conj.
    + by constructor.
    + intros g. rewrite !elem_of_cons, H2. destruct (decide (g = f)) as [->|Hg]; [tauto|]. rewrite Hso by done. tauto.
    + intros g [->|Hg]%elem_of_cons; [|by apply H3]. apply H4; [apply renew_sent|done].
    + intros r Hr Hn. rewrite not_elem_of_cons in Hn. apply H4; [|tauto]. apply (renew_other rs f nonce now); tauto.
    + intros r [Hr|[Hr Hn]]%H5; [|right; split; [by apply list_elem_of_further|done]].
      destruct (decide (or_face_id r = f)) as [E|E]; [|left; by apply (renew_other rs f nonce now) in Hr].
      clear -Hr E. unfold rs1 in Hr. revert Hr. induction rs as [|q rs IH]; cbn [PitEntry.renew_out_record].
      * intros ->%list_elem_of_singleton. right. split; [apply list_elem_of_here|done].
      * destruct (Z.eqb_spec (or_face_id q) f); rewrite !elem_of_cons.
        -- intros [->|?]; [right; split; [by left|done]|left; by right].
        -- intros [->|Hr]; [left; by left|]. destruct (IH Hr) as [?|[??]]; [left; by right|right; set_solver].
Qed.

(** ** What leaves the stage *)

Section egress.
Context {W : Type} (self : StrategyStage W).

(** A face the Interest may leave on. *)
Record may_leave (ctx : PacketContext) (name : Name) (f : Z) : Prop := {
  ml_scope : StrategyStage.restrict_to_local self ctx name = true -> scope_of (st_face_table self) f = Some Local;
  ml_host : forall h, peer_host (st_face_table self) (PitStage.face_id ctx) = Some h -> peer_host (st_face_table self) f <> Some h
}.

Lemma in_scope_spec restrict faces f :
  f ∈ StrategyStage.in_scope self restrict faces <->
  f ∈ faces /\ (restrict = true -> scope_of (st_face_table self) f = Some Local).
Proof.
  unfold StrategyStage.in_scope. destruct restrict; [rewrite list_elem_of_filter|]; naive_solver.
Qed.
Lemma not_back_spec ctx faces f :
  f ∈ StrategyStage.not_back self ctx faces <->
  f ∈ faces /\ (forall h, peer_host (st_face_table self) (PitStage.face_id ctx) = Some h -> peer_host (st_face_table self) f <> Some h).
Proof.
  unfold StrategyStage.not_back. destruct (peer_host _ (PitStage.face_id ctx)); [rewrite list_elem_of_filter|]; naive_solver.
Qed.

(** How the PIT changes when the Interest goes to [new]: the entry of the token gets
    a record for each, none of which it had for this nonce; the rest stays. *)
Record recorded (ctx : PacketContext) (new : list Z) (p p' : Pit) : Prop := {
  rec_others : forall t, Some t <> pit_token ctx -> entries p' !! t = entries p !! t;
  rec_orphans : orphans p' = orphans p;
  rec_entry : forall token e, pit_token ctx = Some token -> entries p !! token = Some e ->
    exists e', entries p' !! token = Some e' /\ in_records e' = in_records e /\
      nonces_seen e' = nonces_seen e /\ expires_at e' = expires_at e /\
      forall nonce, StrategyStage.interest_nonce ctx = Some nonce ->
        NoDup new /\
        (forall f, f ∈ new -> ~ sent (out_records e) f nonce /\ mkOutRecord f nonce (arrival ctx) ∈ out_records e')
}.

(** The step that records: what survives, and the PIT after. *)
Lemma record_step ctx eff p :
  let '(surviving, p1) := match StrategyStage.interest_nonce ctx, pit_token ctx with
     | Some nonce, Some token => StrategyStage.record_out token nonce (arrival ctx) eff p
     | _, _ => (eff, p)
     end in
  (forall f, f ∈ surviving -> f ∈ eff) /\ recorded ctx surviving p p1.
Proof.
  assert (Hid : StrategyStage.interest_nonce ctx = None \/ pit_token ctx = None -> recorded ctx eff p p).
  { intros H. split; [done|done|]. intros token e Ht He. exists e. split_conj; try done. intros nonce Hn. naive_solver. }
  destruct (StrategyStage.interest_nonce ctx) as [nonce|] eqn:Hn; [|by auto].
  destruct (pit_token ctx) as [token|] eqn:Ht; [|by auto].
  destruct (entries p !! token) as [e|] eqn:He.
  - rewrite (record_out_entry _ _ _ _ _ _ He). pose proof (note_out_spec nonce (arrival ctx) eff (out_records e)) as H.
    destruct (note_out _ _ _ _) as [rest rs']. cbn [fst snd]. destruct H as (H1 & H2 & H3 & _).
    split; [intros f Hf; by apply H2|]. split; rewrite ?Ht.
    + intros t Hne. cbn. rewrite lookup_insert_ne by congruence. done.
    + done.
    + intros token' e' [= <-] [= <-]%(fun E => eq_trans (eq_sym He) E). eexists. split; [apply lookup_insert_eq|].
      split_conj; try done. intros n [= <-]%(fun E => eq_trans (eq_sym Hn) E). split; [done|].
      intros f Hf. split; [by apply H2|]. by apply H3.
  - rewrite record_out_absent by done. split; [done|]. split; rewrite ?Ht; [done|done|congruence].
Qed.

(** [note_forward_decision] touches only the suppression window. *)
Lemma note_decision_recorded ctx new p p1 :
  recorded ctx new p p1 ->
  recorded ctx new p (match pit_token ctx with
    | Some token => (Pit.with_entry_mut p1 token (fun e => (tt, PitEntry.note_forward_decision e))).2
    | None => p1
    end).
Proof.
  intros [H1 H2 H3]. destruct (pit_token ctx) as [token|] eqn:Ht; [|by split; rewrite ?Ht].
  unfold Pit.with_entry_mut. destruct (entries p1 !! token) as [e1|] eqn:He1; [|by split; rewrite ?Ht].
  split; rewrite ?Ht.
  - intros t Hne. cbn. rewrite lookup_insert_ne by congruence. by apply H1.
  - done.
  - intros token' e [= <-] He. destruct (H3 token e eq_refl He) as (e' & He' & Hr).
    rewrite He1 in He'. injection He' as ->. eexists. split; [apply lookup_insert_eq|]. exact Hr.
Qed.

Lemma recorded_sub ctx new new' p p1 :
  recorded ctx new p p1 -> (forall f, f ∈ new' -> f ∈ new) -> (NoDup new -> NoDup new') -> recorded ctx new' p p1.
Proof.
  intros [H1 H2 H3] Hs Hnd. split; [done..|]. intros token e Ht He. destruct (H3 token e Ht He) as (e' & ? & ? & ? & ? & Hr).
  exists e'. split_conj; try done. intros nonce Hn. destruct (Hr nonce Hn) as [Hd Hf]. split; [by apply Hnd|].
  intros f Hin. by apply Hf, Hs.
Qed.

Lemma not_back_nodup ctx l : NoDup l -> NoDup (StrategyStage.not_back self ctx l).
Proof. unfold StrategyStage.not_back. destruct (peer_host _ _); [apply NoDup_filter|done]. Qed.

(** The forwarding arm, branch by branch. *)
Lemma forward_spec ctx name faces p :
  match StrategyStage.forward self ctx name faces p with
  | (Send ctx' fs, p') => exists new, fs = out_faces ctx ++ new /\ new <> [] /\ ctx' = set_out ctx fs (out_pit_tokens ctx) /\
      (forall f, f ∈ new -> f ∈ faces /\ may_leave ctx name f) /\ recorded ctx new p p'
  | (Nack ctx' r, p') => ctx' = ctx /\ r = NoRoute /\ p' = p /\ (forall f, f ∈ faces ->
      StrategyStage.restrict_to_local self ctx name = true /\ scope_of (st_face_table self) f <> Some Local)
  | (Drop r, p') => r = Suppressed /\ exists tried, recorded ctx tried p p'
  | _ => False
  end.
Proof.
  unfold StrategyStage.forward.
  pose proof (in_scope_spec (StrategyStage.restrict_to_local self ctx name) faces) as Hscope.
  destruct (StrategyStage.in_scope _ _ _) as [|f0 eff0].
  { split_conj; try done. intros f Hf. specialize (Hscope f). rewrite elem_of_nil in Hscope.
    destruct (StrategyStage.restrict_to_local self ctx name); naive_solver. }
  set (eff := f0 :: eff0) in *. pose proof (record_step ctx eff p) as Hrec.
  destruct (match StrategyStage.interest_nonce ctx with Some _ => _ | None => _ end) as [surviving p1].
  destruct Hrec as [Hsub Hrec]. pose proof (not_back_spec ctx surviving) as Hback. pose proof (not_back_nodup ctx surviving) as Hnd.
  destruct (StrategyStage.not_back self ctx surviving) as [|g0 new0]; [by eauto|].
  set (new := g0 :: new0) in *. cbn [out_faces set_out]. exists new. split_conj; try done.
  - intros f Hf. apply Hback in Hf as [Hf Hh]. apply Hsub, Hscope in Hf as [Hf Hs]. by split.
  - apply note_decision_recorded. eapply recorded_sub; [exact Hrec| |exact Hnd]. intros f Hf. by apply Hback.
Qed.

(** The faces the strategy's first action names, a broadcast naming all but the
    incoming face. *)
Definition chosen (ctx : PacketContext) (a : option ForwardingAction) : list Z :=
  match StrategyStage.expand self ctx a with Some (Forward fs) => fs | _ => [] end.

Lemma perform_send ctx name a p ctx' fs ds p' :
  StrategyStage.perform self ctx name a p = (Send ctx' fs, ds, p') ->
  exists new, fs = out_faces ctx ++ new /\ new <> [] /\ ctx' = set_out ctx fs (out_pit_tokens ctx) /\
    (forall f, f ∈ new -> f ∈ chosen ctx a /\ may_leave ctx name f) /\ recorded ctx new p p'.
Proof.
  unfold StrategyStage.perform, chosen. destruct (StrategyStage.expand self ctx a) as [[faces|faces d|r| |]|]; try done.
  pose proof (forward_spec ctx name faces p) as H. destruct (StrategyStage.forward self ctx name faces p) as [act p1].
  intros [= -> _ ->]. exact H.
Qed.

(** What the strategy decided for this Interest. *)
Definition decision (now_ns : Z) (ctx : PacketContext) (tags : Tags) (name : Name) (p : Pit) (w : W)
    : option ForwardingAction :=
  let fib_name := StrategyStage.fib_lookup_name self ctx name in
  let! acts := (StrategyStage.decide_actions self
    (StrategyStage.strategy_context self ctx tags name fib_name p now_ns) fib_name w).1 in
  head acts.

Lemma process_send now_ns ctx tags p w ctx' fs ds p' w' name :
  ctx_name ctx = Some name -> tag_next_hop_face_id tags = None -> is_Some (match packet ctx with PktInterest i => Some i | _ => None end) ->
  StrategyStage.process self now_ns ctx tags p w = Some (Send ctx' fs, ds, p', w') ->
  exists new, fs = out_faces ctx ++ new /\ new <> [] /\ ctx' = set_out ctx fs (out_pit_tokens ctx) /\
    (forall f, f ∈ new -> f ∈ chosen ctx (decision now_ns ctx tags name p w) /\ may_leave ctx name f) /\ recorded ctx new p p'.
Proof.
  intros Hname Htag [i Hi] H. unfold StrategyStage.process in H. destruct (packet ctx); try done.
  rewrite Hname in H. unfold next_hop_override in H. rewrite Htag in H. unfold decision.
  destruct (StrategyStage.decide_actions _ _ _ _) as [[acts|] w1]; [|discriminate H]. cbn [fst].
  destruct (StrategyStage.perform self ctx name (head acts) p) as [[a ds1] p1] eqn:Hp. injection H as -> -> -> ->.
  by eapply perform_send.
Qed.

(** What is held back for later. *)
Lemma process_delayed now_ns ctx tags p w a ds p' w' name i :
  packet ctx = PktInterest i -> ctx_name ctx = Some name -> tag_next_hop_face_id tags = None ->
  StrategyStage.process self now_ns ctx tags p w = Some (a, ds, p', w') ->
  ds = [] \/ exists faces delay, decision now_ns ctx tags name p w = Some (ForwardAfter faces delay) /\
    ds = [mkDelayed faces delay (raw_bytes ctx) (pit_token ctx)] /\ a = Drop DropOther /\ p' = p.
Proof.
  intros Hp Hname Htag H. unfold StrategyStage.process in H. rewrite Hp, Hname in H. unfold next_hop_override in H. rewrite Htag in H.
  unfold decision. destruct (StrategyStage.decide_actions _ _ _ _) as [[acts|] w1]; [|discriminate H]. cbn [fst option_bind].
  unfold StrategyStage.perform in H. destruct (head acts) as [[fs|fs d|r| |]|]; cbn [StrategyStage.expand] in H;
    try (destruct (StrategyStage.forward self ctx name _ p) as [act p1]); injection H as <- <- <- <-; try (by left).
  right. by exists fs, d.
Qed.

(** With strategies that forward at once, nothing is. *)
Lemma process_prompt now_ns ctx tags p w a ds p' w' :
  (forall n, prompt (StrategyStage.strategy_for self n)) -> StrategyStage.process self now_ns ctx tags p w = Some (a, ds, p', w') -> ds = [].
Proof.
  intros Hpr H. unfold StrategyStage.process in H. destruct (packet ctx); try (by injection H as _ <- _ _).
  destruct (ctx_name ctx) as [name|]; [|by injection H as _ <- _ _].
  destruct (next_hop_override _ _); try (by injection H as _ <- _ _).
  set (fn := StrategyStage.fib_lookup_name self ctx name) in *. set (sctx := StrategyStage.strategy_context _ _ _ _ _ _ _) in *.
  assert (forall acts w1, StrategyStage.decide_actions self sctx fn w = (Some acts, w1) -> forall fs d, head acts <> Some (ForwardAfter fs d)) as Hno.
  { intros acts w1 Hd. unfold StrategyStage.decide_actions in Hd. destruct (decide_sync _ sctx w) as [[acts0|] w0] eqn:E1.
    - injection Hd as -> _. apply (Hpr fn sctx w acts). left. by rewrite E1.
    - apply (Hpr fn sctx w0 acts). right. by rewrite Hd. }
  destruct (StrategyStage.decide_actions self sctx fn w) as [[acts|] w1]; [|discriminate H]. cbn [option_bind] in H.
  specialize (Hno acts w1 eq_refl). unfold StrategyStage.perform in H.
  destruct (head acts) as [[fs|fs d|r| |]|]; cbn [StrategyStage.expand] in H;
    try (destruct (StrategyStage.forward self ctx name _ p) as [act p1]); injection H as _ <- _ _; try done. by destruct (Hno fs d).
Qed.
End egress.

(** C7: an Interest leaves as the strategy decided, or as its NextHopFaceId tag says.
    Let an Interest reach the strategy stage with no out-face yet.  If it carries the
    tag, it is sent to that face alone, without any of the checks below, or dropped if
    the face is gone, and nothing is recorded.  If it does not and the stage sends it
    on: the faces are faces the strategy's decision names; an Interest that is confined
    to the host or link goes to local faces only; none of them has the host the Interest
    came from at its other end; none was sent this nonce before, according to the PIT
    entry, and each has now an out-record with this nonce and time; neither the rest of
    the PIT nor the in-records change.  A packet is held back for later only when the
    decision is a delayed forward: then the faces are those of the decision, without
    those checks, nothing is recorded and nothing else is sent. *)
Theorem interest_leaves_as_decided {W} (self : StrategyStage W) (now_ns : Z) (ctx : PacketContext) (tags : Tags)
    (i : Interest) (name : Name) (p p' : Pit) (w w' : W) (a : Action) (ds : list Delayed) :
  packet ctx = PktInterest i -> ctx_name ctx = Some name -> out_faces ctx = [] ->
  StrategyStage.process self now_ns ctx tags p w = Some (a, ds, p', w') ->
  match tag_next_hop_face_id tags with
  | Some f =>
      ds = [] /\ p' = p /\ w' = w /\
      a = (if PitEntry.is_some (FaceTable.get f (st_face_table self)) then Send (set_out ctx [f] (out_pit_tokens ctx)) [f]
           else Drop UnknownFace)
  | None =>
      (forall ctx' fs, a = Send ctx' fs ->
         fs <> [] /\ ctx' = set_out ctx fs (out_pit_tokens ctx) /\
         (forall f, f ∈ fs -> f ∈ chosen self ctx (decision self now_ns ctx tags name p w)) /\
         (forall f, f ∈ fs -> StrategyStage.restrict_to_local self ctx name = true -> scope_of (st_face_table self) f = Some Local) /\
         (forall f h, f ∈ fs -> peer_host (st_face_table self) (PitStage.face_id ctx) = Some h ->
            peer_host (st_face_table self) f <> Some h) /\
         (forall t, Some t <> pit_token ctx -> entries p' !! t = entries p !! t) /\
         (forall token e, pit_token ctx = Some token -> entries p !! token = Some e ->
            exists e', entries p' !! token = Some e' /\ in_records e' = in_records e /\
              forall nonce, Interest.nonce i = Some nonce ->
                NoDup fs /\ forall f, f ∈ fs -> ~ sent (out_records e) f nonce /\ mkOutRecord f nonce (arrival ctx) ∈ out_records e')) /\
      (ds = [] \/ exists faces delay, decision self now_ns ctx tags name p w = Some (ForwardAfter faces delay) /\
         ds = [mkDelayed faces delay (raw_bytes ctx) (pit_token ctx)] /\ a = Drop DropOther /\ p' = p)
  end.
Proof.
  intros Hp Hn Ho H. destruct (tag_next_hop_face_id tags) as [nf|] eqn:Ht.
  { unfold StrategyStage.process, next_hop_override in H. rewrite Hp, Hn, Ht in H. rewrite Ho in H.
    destruct (PitEntry.is_some _); injection H as <- <- <- <-; done. }
  split; [|exact (process_delayed self now_ns ctx tags p w a ds p' w' name i Hp Hn Ht H)]. intros ctx' fs ->.
  destruct (process_send self now_ns ctx tags p w ctx' fs ds p' w' name Hn Ht) as (new & -> & Hne & Hctx & Hf & [R1 _ R3]);
    [rewrite Hp; by eexists|done|].
  rewrite Ho in *. cbn [app] in *. split_conj; [done|done| | | |done|].
  - intros f Hin. by apply Hf.
  - intros f Hin. by apply Hf.
  - intros f h Hin. by apply Hf.
  - intros token e Htok He. destruct (R3 token e Htok He) as (e' & E1 & E2 & _ & _ & E3). exists e'. split_conj; [done|done|].
    intros nonce Hnonce. apply E3. unfold StrategyStage.interest_nonce. by rewrite Hp.
Qed.

Definition demo_stage : StrategyStage unit :=
  mkStrategyStage StrategyTable.new (erase mkBestRoute) (EngineFib.add_nexthop EngineFib.new [] 2 10) (mkTable ∅ 10) NoSignals
    (mkFaceTable {[1 := from_transport 1 FaceKind.App None None PointToPoint;
                   2 := from_transport 2 FaceKind.Udp (Some (str "udp4://10.0.0.2:6363")) None PointToPoint]} 3) [].
Definition demo_request : PacketContext :=
  mkContext [] 1 (Some [mkComponent 8 [97]]) (PktInterest (mkInterest [5; 11; 7; 3; 8; 1; 97; 10; 4; 0; 0; 0; 9] [mkComponent 8 [97]]))
    None (Some 5) None [] [] 0 false false false false 100.
Definition demo_pit : Pit := mkPit None {[5 := PitEntry.new [mkComponent 8 [97]] 100 4000]} ∅.
Lemma interest_leaves_as_decided_witness :
  exists c fs ds p' w', StrategyStage.process demo_stage 100 demo_request no_tags demo_pit tt = Some (Send c fs, ds, p', w') /\
    fs <> [] /\ (forall t, Some t <> pit_token demo_request -> entries p' !! t = entries demo_pit !! t).
Proof.
  destruct (StrategyStage.process demo_stage 100 demo_request no_tags demo_pit tt) as [[[[a ds] p'] w']|] eqn:E;
    [|vm_compute in E; discriminate E].
  destruct (interest_leaves_as_decided demo_stage 100 demo_request no_tags
    (mkInterest [5; 11; 7; 3; 8; 1; 97; 10; 4; 0; 0; 0; 9] [mkComponent 8 [97]]) [mkComponent 8 [97]] demo_pit p' tt w' a ds
    eq_refl eq_refl eq_refl E) as [H _].
  destruct a as [c|c fs|c|r|c r]; try (vm_compute in E; discriminate E).
  destruct (H c fs eq_refl) as (H1 & _ & _ & _ & _ & H2 & _).
  exists c, fs, ds, p', w'. split; [reflexivity|]. split; [exact H1|exact H2].
Defined.
