(* ===== verification/Reflexive.v ===== *)
(** * Reflexive forwarding ([crates/forwarding/ndn-engine/src/reflexive.rs])

    Temporary reverse routes: an Interest that carries a reflexive name installs a
    route for it back to the face it came from.  The routes are a name trie; beside
    it the table keeps the number of routes, in all and per face, which bound it and
    let the pipeline skip the lookup.  The atomic counters are integers, with their
    width; the clock is an argument. *)

From S2P Require Import Prelude Tlv Name Trie.
#[local] Open Scope Z_scope.

Record ReflexiveConfig : Type := mkReflexiveConfig {
  rc_enabled : bool;
  rc_max_per_face : Z;
  rc_max_lifetime : Z (* nanoseconds *)
}.
Definition ReflexiveConfig_default : ReflexiveConfig := mkReflexiveConfig true 256 8000000000.

Record ReflexiveRoute : Type := mkReflexiveRoute { rr_face : Z; rr_expiry_ns : Z }.

Record ReflexiveStatus : Type := mkReflexiveStatus {
  rs_enabled : bool;
  rs_max_per_face : Z;
  rs_max_lifetime_ms : Z;
  rs_live_routes : Z;
  rs_installs : Z;
  rs_refused : Z;
  rs_expired : Z;
  rs_lookup_hits : Z
}.

Record ReflexiveTable : Type := mkReflexive {
  routes : TrieNode ReflexiveRoute;
  per_face : gmap Z Z;
  live : Z;
  enabled : bool;
  max_per_face : Z;
  max_lifetime_ns : Z;
  installs : Z;
  refused : Z;
  expired : Z;
  lookup_hits : Z
}.

Module ReflexiveTable.

(** Field assignments. *)
Definition set_routes (t : ReflexiveTable) (r : TrieNode ReflexiveRoute) (pf : gmap Z Z) (l : Z) : ReflexiveTable :=
  mkReflexive r pf l (enabled t) (max_per_face t) (max_lifetime_ns t) (installs t) (refused t) (expired t) (lookup_hits t).
Definition set_stats (t : ReflexiveTable) (i r e h : Z) : ReflexiveTable :=
  mkReflexive (routes t) (per_face t) (live t) (enabled t) (max_per_face t) (max_lifetime_ns t) i r e h.

Definition new (config : ReflexiveConfig) : ReflexiveTable :=
  mkReflexive NameTrie.TrieNode_new ∅ 0 (rc_enabled config) (rc_max_per_face config)
    (wrap 64 (rc_max_lifetime config)) 0 0 0 0.

Definition is_empty (t : ReflexiveTable) : bool := live t =? 0.
Definition is_enabled (t : ReflexiveTable) : bool := enabled t.
Definition set_enabled (t : ReflexiveTable) (b : bool) : ReflexiveTable :=
  mkReflexive (routes t) (per_face t) (live t) b (max_per_face t) (max_lifetime_ns t) (installs t) (refused t)
    (expired t) (lookup_hits t).
Definition set_max_per_face (t : ReflexiveTable) (m : Z) : ReflexiveTable :=
  mkReflexive (routes t) (per_face t) (live t) (enabled t) m (max_lifetime_ns t) (installs t) (refused t)
    (expired t) (lookup_hits t).
Definition set_max_lifetime (t : ReflexiveTable) (m : Z) : ReflexiveTable :=
  mkReflexive (routes t) (per_face t) (live t) (enabled t) (max_per_face t) (wrap 64 m) (installs t) (refused t)
    (expired t) (lookup_hits t).

Definition refuse (t : ReflexiveTable) : bool * ReflexiveTable :=
  (false, set_stats t (installs t) (wrap 64 (refused t + 1)) (expired t) (lookup_hits t)).

(** [lifetime] in nanoseconds. *)
Definition install (t : ReflexiveTable) (reflexive_name : Name) (face_id lifetime now_ns : Z) : bool * ReflexiveTable :=
  if negb (enabled t) then refuse t
  else
    let ttl := Z.min lifetime (max_lifetime_ns t) in
    let expiry_ns := sat_add64 now_ns (wrap 64 ttl) in
    match NameTrie.get (routes t) reflexive_name with
    | Some existing =>
        if negb (rr_face existing =? face_id) then refuse t
        else (true, set_routes t (NameTrie.insert (routes t) reflexive_name (mkReflexiveRoute face_id expiry_ns))
                      (per_face t) (live t))
    | None =>
        let count := default 0 (per_face t !! face_id) in
        if max_per_face t <=? count
        then refuse (set_routes t (routes t) (<[face_id := count]> (per_face t)) (live t))
        else
          let t := set_routes t (NameTrie.insert (routes t) reflexive_name (mkReflexiveRoute face_id expiry_ns))
                     (<[face_id := count + 1]> (per_face t)) (wrap 64 (live t + 1)) in
          (true, set_stats t (wrap 64 (installs t + 1)) (refused t) (expired t) (lookup_hits t))
    end.

Definition lookup (t : ReflexiveTable) (name : Name) (now_ns : Z) : option Z * ReflexiveTable :=
  match NameTrie.lpm (routes t) name with
  | None => (None, t)
  | Some route =>
      if rr_expiry_ns route <=? now_ns then (None, t)
      else (Some (rr_face route), set_stats t (installs t) (refused t) (expired t) (wrap 64 (lookup_hits t + 1)))
  end.

Definition decrement (pf : gmap Z Z) (face_id : Z) : gmap Z Z :=
  match pf !! face_id with
  | Some c => <[face_id := sat_sub c 1]> pf
  | None => pf
  end.

Definition remove (t : ReflexiveTable) (reflexive_name : Name) : ReflexiveTable :=
  match NameTrie.get (routes t) reflexive_name with
  | Some route => set_routes t (NameTrie.remove (routes t) reflexive_name) (decrement (per_face t) (rr_face route))
                    (wrap 64 (live t - 1))
  | None => t
  end.

(** The loops over the dump of the trie: the routes that meet the test go, and
    [pf] is what happens to the counts. *)
Definition purge_step (drop : ReflexiveRoute -> bool) (count : bool)
    (s : TrieNode ReflexiveRoute * gmap Z Z * Z) (nr : Name * ReflexiveRoute) : TrieNode ReflexiveRoute * gmap Z Z * Z :=
  let '(r, pf, removed) := s in
  if drop nr.2 then (NameTrie.remove r nr.1, if count then decrement pf (rr_face nr.2) else pf, removed + 1) else s.
Definition purge (t : ReflexiveTable) (drop : ReflexiveRoute -> bool) (count : bool) : TrieNode ReflexiveRoute * gmap Z Z * Z :=
  fold_left (purge_step drop count) (NameTrie.dump (routes t)) (routes t, per_face t, 0).

Definition remove_face (t : ReflexiveTable) (face_id : Z) : ReflexiveTable :=
  let '(r, pf, removed) := purge t (fun route => rr_face route =? face_id) false in
  set_routes t r (delete face_id pf) (wrap 64 (live t - removed)).

Definition sweep (t : ReflexiveTable) (now : Z) : Z * ReflexiveTable :=
  let '(r, pf, removed) := purge t (fun route => rr_expiry_ns route <=? now) true in
  let t := set_routes t r pf (wrap 64 (live t - removed)) in
  (removed, set_stats t (installs t) (refused t) (wrap 64 (expired t + removed)) (lookup_hits t)).

Definition flush (t : ReflexiveTable) : Z * ReflexiveTable :=
  let all := map fst (NameTrie.dump (routes t)) in
  (zlen all, set_routes t (fold_left NameTrie.remove all (routes t)) ∅ 0).

Definition status (t : ReflexiveTable) : ReflexiveStatus :=
  mkReflexiveStatus (enabled t) (max_per_face t) (max_lifetime_ns t / 1000000) (live t) (installs t) (refused t)
    (expired t) (lookup_hits t).
Definition route_count (t : ReflexiveTable) (face_id : Z) : Z := default 0 (per_face t !! face_id).
End ReflexiveTable.

(** ** The accounts of the table *)

Definition to_face (f : Z) (nr : Name * ReflexiveRoute) : Prop := rr_face nr.2 = f.
#[export] Instance to_face_dec f nr : Decision (to_face f nr).
Proof. unfold to_face. apply _. Defined.

(** The routes as a finite map, and how many of them point at a face. *)
Definition route_map (t : TrieNode ReflexiveRoute) : gmap Name ReflexiveRoute := NameTrie.abs t.
Definition routes_to (m : gmap Name ReflexiveRoute) (f : Z) : Z := Z.of_nat (size (filter (to_face f) m)).

Lemma routes_to_insert m n r f :
  m !! n = None -> routes_to (<[n := r]> m) f = routes_to m f + if decide (rr_face r = f) then 1 else 0.
Proof.
  intros Hn. unfold routes_to. case_decide as Hf.
  - rewrite map_filter_insert_True by done. rewrite map_size_insert_None; [lia|].
    apply map_lookup_filter_None. by left.
  - rewrite map_filter_insert_False by done. rewrite delete_id by done. lia.
Qed.
Lemma routes_to_delete m n r f :
  m !! n = Some r -> routes_to (delete n m) f = routes_to m f - if decide (rr_face r = f) then 1 else 0.
Proof.
  intros Hn. rewrite <- (insert_delete_id m n r) at 2 by done.
  rewrite (routes_to_insert _ n r f) by apply lookup_delete_eq. lia.
Qed.
Lemma routes_to_refresh m n r r' f :
  m !! n = Some r -> rr_face r' = rr_face r -> routes_to (<[n := r']> m) f = routes_to m f.
Proof.
  intros Hn Hf. rewrite <- (insert_delete_eq m n r'). rewrite routes_to_insert by apply lookup_delete_eq.
  rewrite (routes_to_delete m n r) by done. rewrite Hf. lia.
Qed.
Lemma routes_to_nonneg m f : 0 <= routes_to m f <= Z.of_nat (size m).
Proof. unfold routes_to. pose proof (map_subseteq_size _ _ (map_filter_subseteq (to_face f) m)). lia. Qed.

(** The counters are exact. *)
Record accounts (r : TrieNode ReflexiveRoute) (pf : gmap Z Z) (l : Z) : Prop := {
  acc_wf : NameTrie.wf_node r;
  acc_live : l = Z.of_nat (size (route_map r));
  acc_face : forall f, default 0 (pf !! f) = routes_to (route_map r) f
}.
Definition refl_ok (t : ReflexiveTable) : Prop := accounts (routes t) (per_face t) (live t).

Lemma trie_map r n v :
  NameTrie.wf_node r ->
  NameTrie.wf_node (NameTrie.insert r n v) /\ route_map (NameTrie.insert r n v) = <[n := v]> (route_map r) /\
  NameTrie.wf_node (NameTrie.remove r n) /\ route_map (NameTrie.remove r n) = delete n (route_map r) /\
  NameTrie.get r n = route_map r !! n /\ map_to_list (route_map r) ≡ₚ NameTrie.dump r.
Proof.
  intros Hw. unfold route_map.
  destruct (NameTrie.trie_refines_map r n v id Hw) as (_ & _ & ? & ? & _ & _ & ? & ? & ? & ?). by split_conj.
Qed.

Lemma decrement_lookup pf g f :
  0 <= default 0 (pf !! f) ->
  default 0 (ReflexiveTable.decrement pf g !! f) = sat_sub (default 0 (pf !! f)) (if decide (g = f) then 1 else 0).
Proof.
  intros Hp. unfold ReflexiveTable.decrement. destruct (pf !! g) eqn:E; case_decide; subst;
    rewrite ?lookup_insert_eq, ?lookup_insert_ne by done; rewrite ?E; cbn; unfold sat_sub in *; lia.
Qed.

(** Taking one route out, counted. *)
Lemma refl_accounts_remove r pf l n v :
  accounts r pf l -> route_map r !! n = Some v ->
  accounts (NameTrie.remove r n) (ReflexiveTable.decrement pf (rr_face v)) (l - 1).
Proof.
  intros [Hw Hl Hf] Hn. destruct (trie_map r n v Hw) as (_ & _ & Hw' & Hm & _). split; [done| |].
  - rewrite Hm. pose proof (map_size_delete_Some n (route_map r) (mk_is_Some _ _ Hn)).
    assert (size (route_map r) <> 0)%nat by (apply (map_size_ne_0_lookup_2 _ n); by eexists). lia.
  - intros f. rewrite decrement_lookup by (rewrite Hf; apply routes_to_nonneg). rewrite Hm, (routes_to_delete _ n v) by done.
    rewrite Hf. pose proof (routes_to_nonneg (delete n (route_map r)) f) as Hp. rewrite (routes_to_delete _ n v) in Hp by done.
    unfold sat_sub. case_decide; lia.
Qed.

(** What is left of a map when the routes of a list that meet the test go. *)
Definition kept (drop : ReflexiveRoute -> bool) (m : gmap Name ReflexiveRoute) : gmap Name ReflexiveRoute :=
  filter (fun nr => drop nr.2 = false) m.

Lemma purge_fold drop count l r pf k :
  NameTrie.wf_node r -> NoDup l.*1 -> (forall n v, (n, v) ∈ l -> route_map r !! n = Some v) ->
  let '(r', pf', k') := fold_left (ReflexiveTable.purge_step drop count) l (r, pf, k) in
  NameTrie.wf_node r' /\
  (forall n v, (n, v) ∈ l -> drop v = true -> route_map r' !! n = None) /\
  (forall n, (forall v, (n, v) ∈ l -> drop v = false) -> route_map r' !! n = route_map r !! n) /\
  (count = true -> forall c, accounts r pf (c - k) -> accounts r' pf' (c - k')) /\
  (count = false -> pf' = pf /\ Z.of_nat (size (route_map r')) + k' = Z.of_nat (size (route_map r)) + k).
Proof.
  revert r pf k. induction l as [|[n v] l IH]; intros r pf k Hw Hnd Hin; cbn [fold_left].
  { split_conj; [done| |done..]. by intros n v ?%elem_of_nil. }
  cbn [fmap list_fmap fst] in Hnd. apply NoDup_cons in Hnd as [Hn Hnd]. cbn [ReflexiveTable.purge_step snd fst].
  pose proof (Hin n v (list_elem_of_here _ _)) as Hnv.
  assert (Hother : forall m w, (m, w) ∈ l -> m <> n) by (intros m w Hm ->; apply Hn, list_elem_of_fmap; by exists (n, w)).
  destruct (drop v) eqn:Hd.
  - destruct (trie_map r n v Hw) as (_ & _ & Hw1 & Hm1 & _).
    assert (Hin1 : forall m w, (m, w) ∈ l -> route_map (NameTrie.remove r n) !! m = Some w).
    { intros m w Hmw. rewrite Hm1, lookup_delete_ne by (by apply not_eq_sym, (Hother m w)). by apply Hin, list_elem_of_further. }
    specialize (IH (NameTrie.remove r n) (if count then ReflexiveTable.decrement pf (rr_face v) else pf) (k + 1) Hw1 Hnd Hin1).
    destruct (fold_left _ _ _) as [[r' pf'] k']. destruct IH as (H1 & H2 & H5 & H3 & H4).
    assert (Hgone : route_map r' !! n = None).
    { rewrite H5, Hm1 by (intros w Hw'; by destruct (Hother _ _ Hw')). apply lookup_delete_eq. }
    split_conj; [done| | | |].
    + intros m w [[= -> ->]|Hm]%elem_of_cons Hdw; [done|by apply (H2 m w)].
    + intros m Hm. assert (m <> n) by (intros ->; rewrite (Hm v) in Hd; [done|apply list_elem_of_here]).
      rewrite H5, Hm1, lookup_delete_ne; [done|done|]. intros w Hw'. by apply Hm, list_elem_of_further.
    + intros -> c Ha. apply H3; [done|]. replace (c - (k + 1)) with (c - k - 1) by lia. by apply refl_accounts_remove.
    + intros ->. destruct (H4 eq_refl) as [-> Hs]. split; [done|]. rewrite Hm1 in Hs.
      pose proof (map_size_delete_Some n (route_map r) (mk_is_Some _ _ Hnv)).
      assert (size (route_map r) <> 0)%nat by (apply (map_size_ne_0_lookup_2 _ n); by eexists). lia.
  - assert (Hin1 : forall m w, (m, w) ∈ l -> route_map r !! m = Some w) by (intros; by apply Hin, list_elem_of_further).
    specialize (IH r pf k Hw Hnd Hin1). destruct (fold_left _ _ _) as [[r' pf'] k']. destruct IH as (H1 & H2 & H5 & H3 & H4).
    split_conj; [done| | |done|done].
    + intros m w [[= -> ->]|Hm]%elem_of_cons Hdw; [congruence|by apply (H2 m w)].
    + intros m Hm. apply H5. intros w Hw'. by apply Hm, list_elem_of_further.
Qed.

Lemma purge_spec t drop count :
  refl_ok t ->
  let '(r, pf, removed) := ReflexiveTable.purge t drop count in
  NameTrie.wf_node r /\ route_map r = kept drop (route_map (routes t)) /\
  (count = true -> accounts r pf (live t - removed)) /\
  (count = false -> pf = per_face t /\ live t - removed = Z.of_nat (size (route_map r))).
Proof.
  intros Hok. pose proof Hok as [Hw Hl Hf]. unfold ReflexiveTable.purge.
  destruct (trie_map (routes t) [] (mkReflexiveRoute 0 0) Hw) as (_ & _ & _ & _ & _ & Hd).
  assert (Hnd : NoDup (NameTrie.dump (routes t)).*1) by (rewrite <- Hd; apply NoDup_fst_map_to_list).
  assert (Hin : forall n v, (n, v) ∈ NameTrie.dump (routes t) <-> route_map (routes t) !! n = Some v)
    by (intros n v; by rewrite <- Hd, elem_of_map_to_list).
  pose proof (purge_fold drop count (NameTrie.dump (routes t)) (routes t) (per_face t) 0 Hw Hnd (fun n v => proj1 (Hin n v))) as H.
  destruct (fold_left _ _ _) as [[r pf] k]. destruct H as (H1 & H2 & H5 & H3 & H4). split_conj; [done| | |].
  - apply map_eq. intros n. unfold kept. rewrite map_lookup_filter.
    destruct (route_map (routes t) !! n) as [v|] eqn:E; cbn [mbind option_bind].
    + destruct (drop v) eqn:Hdr.
      * rewrite (H2 n v) by (try done; by apply Hin). by rewrite option_guard_False by (cbn; by rewrite Hdr).
      * rewrite H5, E by (intros w Hw'%Hin; congruence). by rewrite option_guard_True.
    + rewrite H5, E by (intros w Hw'%Hin; congruence). done.
  - intros ->. apply H3; [done|]. by rewrite Z.sub_0_r.
  - intros ->. destruct (H4 eq_refl) as [-> Hs]. split; [done|]. lia.
Qed.

(** ** Histories *)

Inductive ReflexiveOp : Type :=
| OpInstall (name : Name) (face lifetime now : Z)
| OpLookup (name : Name) (now : Z)
| OpRemove (name : Name)
| OpRemoveFace (face : Z)
| OpSweep (now : Z)
| OpFlush
| OpEnable (b : bool)
| OpMaxPerFace (m : Z)
| OpMaxLifetime (m : Z).

Definition refl_step (t : ReflexiveTable) (op : ReflexiveOp) : ReflexiveTable :=
  match op with
  | OpInstall n f l now => (ReflexiveTable.install t n f l now).2
  | OpLookup n now => (ReflexiveTable.lookup t n now).2
  | OpRemove n => ReflexiveTable.remove t n
  | OpRemoveFace f => ReflexiveTable.remove_face t f
  | OpSweep now => (ReflexiveTable.sweep t now).2
  | OpFlush => (ReflexiveTable.flush t).2
  | OpEnable b => ReflexiveTable.set_enabled t b
  | OpMaxPerFace m => ReflexiveTable.set_max_per_face t m
  | OpMaxLifetime m => ReflexiveTable.set_max_lifetime t m
  end.
Definition refl_run (config : ReflexiveConfig) (ops : list ReflexiveOp) : ReflexiveTable :=
  fold_left refl_step ops (ReflexiveTable.new config).

Lemma refl_ok_new config : refl_ok (ReflexiveTable.new config).
Proof.
  assert (Hz : route_map NameTrie.TrieNode_new = ∅).
  { destruct (NameTrie.trie_refines_map (V := ReflexiveRoute) _ [] (mkReflexiveRoute 0 0) id NameTrie.wf_new) as (_ & E & _). exact E. }
  split; cbn [routes per_face live ReflexiveTable.new].
  - apply NameTrie.wf_new.
  - rewrite Hz. done.
  - intros f. rewrite Hz, lookup_empty. done.
Qed.

(** What an accepted installation is, and when it is refused. *)
Lemma install_spec t n f l now :
  refl_ok t -> Z.of_nat (size (route_map (routes t))) < u64_max ->
  let m := route_map (routes t) in
  let '(ok, t') := ReflexiveTable.install t n f l now in
  refl_ok t' /\
  ok = enabled t && match m !! n with Some r => rr_face r =? f | None => routes_to m f <? max_per_face t end /\
  route_map (routes t') = if ok then <[n := mkReflexiveRoute f (sat_add64 now (wrap 64 (Z.min l (max_lifetime_ns t))))]> m else m.
Proof.
  intros Hok Hs. pose proof Hok as [Hw Hl Hf]. cbn zeta. unfold ReflexiveTable.install.
  destruct (enabled t) eqn:Hen; cbn [negb andb]; [|by split_conj].
  set (r' := mkReflexiveRoute f _). destruct (trie_map (routes t) n r' Hw) as (Hw1 & Hm1 & _ & _ & Hg & _). rewrite Hg.
  destruct (route_map (routes t) !! n) as [r|] eqn:E.
  - destruct (Z.eqb_spec (rr_face r) f) as [<-|Hne]; cbn [negb]; [|by split_conj]. split_conj; [|done|done].
    split; cbn [routes per_face live ReflexiveTable.set_routes]; [done| |].
    + rewrite Hm1, map_size_insert, E. exact Hl.
    + intros g. rewrite Hm1, (routes_to_refresh _ n r) by done. apply Hf.
  - rewrite Hf. destruct (Z.leb_spec (max_per_face t) (routes_to (route_map (routes t)) f)).
    + cbn [ReflexiveTable.refuse fst snd]. split_conj; [|by rewrite (proj2 (Z.ltb_ge _ _))|done].
      split; cbn; [done..|]. intros g. destruct (decide (f = g)) as [->|]; [by rewrite lookup_insert_eq|by rewrite lookup_insert_ne].
    + split_conj; [|by rewrite (proj2 (Z.ltb_lt _ _))|done].
      split; cbn [routes per_face live ReflexiveTable.set_routes ReflexiveTable.set_stats]; [done| |].
      * rewrite Hm1, map_size_insert_None, wrap_small by (try done; unfold_bounds; lia). lia.
      * intros g. rewrite Hm1, routes_to_insert by done. cbn. destruct (decide (f = g)) as [->|].
        -- by rewrite lookup_insert_eq.
        -- rewrite lookup_insert_ne by done. rewrite Hf. lia.
Qed.

Lemma remove_all_routes l r :
  NameTrie.wf_node r -> (forall n, is_Some (route_map r !! n) -> n ∈ l) ->
  NameTrie.wf_node (fold_left NameTrie.remove l r) /\ route_map (fold_left NameTrie.remove l r) = ∅.
Proof.
  revert r. induction l as [|n l IH]; intros r Hw Hin; cbn [fold_left].
  - split; [done|]. apply map_eq. intros n. rewrite lookup_empty. apply eq_None_not_Some. intros H%Hin. by apply elem_of_nil in H.
  - destruct (trie_map r n (mkReflexiveRoute 0 0) Hw) as (_ & _ & Hw1 & Hm1 & _). apply IH; [done|].
    intros m. rewrite Hm1, lookup_delete_is_Some. intros [Hne Hm]. apply Hin in Hm. by apply elem_of_cons in Hm as [->|].
Qed.

(** Every operation keeps the counters exact and, but for an installation, adds no
    route. *)
Lemma refl_step_ok t op :
  refl_ok t -> Z.of_nat (size (route_map (routes t))) < u64_max ->
  refl_ok (refl_step t op) /\
  forall n r, route_map (routes (refl_step t op)) !! n = Some r ->
    route_map (routes t) !! n = Some r \/
    exists l now, op = OpInstall n (rr_face r) l now /\
      rr_expiry_ns r = sat_add64 now (wrap 64 (Z.min l (max_lifetime_ns t))).
Proof.
  intros Hok Hs. pose proof Hok as [Hw Hl Hf]. destruct op as [n f l now|n now|n|f|now| |b|m|m]; cbn [refl_step].
  - pose proof (install_spec t n f l now Hok Hs) as H. destruct (ReflexiveTable.install t n f l now) as [ok t'].
    destruct H as (H1 & _ & H3). split; [done|]. cbn [snd]. intros m r. rewrite H3. destruct ok; [|by left].
    destruct (decide (n = m)) as [->|]; [|rewrite lookup_insert_ne by done; by left].
    rewrite lookup_insert_eq. intros [= <-]. right. by eexists _, _.
  - unfold ReflexiveTable.lookup. destruct (NameTrie.lpm _ _) as [r|]; [destruct (_ <=? _)|]; (split; [done|by left]).
  - unfold ReflexiveTable.remove. destruct (trie_map (routes t) n (mkReflexiveRoute 0 0) Hw) as (_ & _ & _ & Hm1 & -> & _).
    destruct (route_map (routes t) !! n) as [r|] eqn:E; [|split; [done|by left]].
    pose proof (refl_accounts_remove _ _ _ n r Hok E) as Ha. split; cbn [routes ReflexiveTable.set_routes].
    + unfold refl_ok. cbn [routes per_face live ReflexiveTable.set_routes ReflexiveTable.set_stats snd]. rewrite wrap_small; [done|]. destruct Ha as [_ Hal _]. unfold_bounds. lia.
    + intros m r'. rewrite Hm1. intros [_ ?]%lookup_delete_Some. by left.
  - unfold ReflexiveTable.remove_face. pose proof (purge_spec t (fun route => rr_face route =? f) false Hok) as H.
    destruct (ReflexiveTable.purge t _ false) as [[r pf] k]. destruct H as (H1 & H2 & _ & H4). destruct (H4 eq_refl) as [-> Hk].
    split; cbn [routes ReflexiveTable.set_routes].
    + split; cbn [routes per_face live ReflexiveTable.set_routes ReflexiveTable.set_stats snd]; [done| |].
      * rewrite Hk, wrap_small; [done|]. rewrite H2. unfold kept. pose proof (map_subseteq_size _ _ (map_filter_subseteq (fun nr => (rr_face nr.2 =? f) = false) (route_map (routes t)))).
        unfold_bounds. lia.
      * intros g. rewrite H2. unfold routes_to, kept. rewrite map_filter_filter. destruct (decide (g = f)) as [->|Hne].
        -- rewrite lookup_delete_eq. symmetry. apply (f_equal Z.of_nat (y := 0%nat)), map_size_empty_iff, map_empty.
           intros n. apply map_lookup_filter_None_2. right. intros r' _ [H5 H6]. unfold to_face in *. cbn [snd] in *.
           first [rewrite H5, Z.eqb_refl in H6|rewrite H6, Z.eqb_refl in H5]; done.
        -- rewrite lookup_delete_ne by done. rewrite Hf. unfold routes_to. do 2 f_equal.
           apply map_filter_ext. intros n r' _. unfold to_face. cbn. split; [|tauto]. intros ->. split; [done|].
           by apply Z.eqb_neq.
    + intros m r'. rewrite H2. intros [? _]%map_lookup_filter_Some. by left.
  - unfold ReflexiveTable.sweep. pose proof (purge_spec t (fun route => rr_expiry_ns route <=? now) true Hok) as H.
    destruct (ReflexiveTable.purge t _ true) as [[r pf] k]. destruct H as (H1 & H2 & H3 & _). specialize (H3 eq_refl).
    split; cbn [routes ReflexiveTable.set_routes ReflexiveTable.set_stats snd].
    + unfold refl_ok. cbn [routes per_face live ReflexiveTable.set_routes ReflexiveTable.set_stats snd]. rewrite wrap_small; [done|]. destruct H3 as [_ Hal _]. rewrite Hal, H2. unfold kept.
      pose proof (map_subseteq_size _ _ (map_filter_subseteq (fun nr => (rr_expiry_ns nr.2 <=? now) = false) (route_map (routes t)))).
      unfold_bounds. lia.
    + intros m r'. rewrite H2. intros [? _]%map_lookup_filter_Some. by left.
  - unfold ReflexiveTable.flush. destruct (trie_map (routes t) [] (mkReflexiveRoute 0 0) Hw) as (_ & _ & _ & _ & _ & Hd).
    destruct (remove_all_routes (map fst (NameTrie.dump (routes t))) (routes t) Hw) as [H1 H2].
    { intros n [r Hr]. apply list_elem_of_fmap. exists (n, r). split; [done|]. by rewrite <- Hd, elem_of_map_to_list. }
    cbn [snd routes ReflexiveTable.set_routes]. split.
    + split; cbn [routes per_face live ReflexiveTable.set_routes ReflexiveTable.set_stats snd]; [done|by rewrite H2|]. intros f. rewrite H2. done.
    + intros n r. rewrite H2. by rewrite lookup_empty.
  - split; [done|by left].
  - split; [done|by left].
  - split; [done|by left].
Qed.

Definition refl_op_ok (op : ReflexiveOp) : Prop :=
  match op with OpInstall _ _ l now => 0 <= l /\ 0 <= now | OpMaxLifetime m => 0 <= m | _ => True end.

(** A route comes from an installation by its face, and does not outlive it. *)
Definition justified (ops : list ReflexiveOp) (n : Name) (r : ReflexiveRoute) : Prop :=
  exists l now, OpInstall n (rr_face r) l now ∈ ops /\ rr_expiry_ns r <= now + l.

Record refl_inv (ops : list ReflexiveOp) (t : ReflexiveTable) : Prop := {
  ri_ok : refl_ok t;
  ri_size : Z.of_nat (size (route_map (routes t))) <= zlen ops;
  ri_life : 0 <= max_lifetime_ns t;
  ri_just : forall n r, route_map (routes t) !! n = Some r -> justified ops n r
}.

Lemma refl_step_size t op :
  refl_ok t -> Z.of_nat (size (route_map (routes t))) < u64_max ->
  Z.of_nat (size (route_map (routes (refl_step t op)))) <= 1 + Z.of_nat (size (route_map (routes t))).
Proof.
  intros Hok Hs. destruct (refl_step_ok t op Hok Hs) as [_ Hin].
  set (m' := route_map (routes (refl_step t op))) in *. set (m := route_map (routes t)) in *.
  destruct op as [n f l now| | | | | | | |]; cycle 1.
  all: try (assert (m' ⊆ m) as Hsub by (apply map_subseteq_spec; intros n' r [?|(? & ? & ? & _)]%Hin; done);
            apply map_subseteq_size in Hsub; lia).
  assert (delete n m' ⊆ m) as Hsub.
  { apply map_subseteq_spec. intros n' r [Hne [?|(? & ? & [= -> _] & _)]%Hin]%lookup_delete_Some; done. }
  apply map_subseteq_size in Hsub. rewrite map_size_delete in Hsub. destruct (m' !! n); unfold id in Hsub; lia.
Qed.

Lemma refl_life t op : refl_op_ok op -> 0 <= max_lifetime_ns t -> 0 <= max_lifetime_ns (refl_step t op).
Proof.
  intros Ho Hl. destruct op as [n f l now|n now|n|f|now| |b|m|m]; cbn [refl_step]; try exact Hl.
  - unfold ReflexiveTable.install. destruct (negb (enabled t)); [exact Hl|].
    destruct (NameTrie.get _ _); [destruct (negb _)|destruct (_ <=? _)]; exact Hl.
  - unfold ReflexiveTable.lookup. destruct (NameTrie.lpm _ _); [destruct (_ <=? _)|]; exact Hl.
  - unfold ReflexiveTable.remove. destruct (NameTrie.get _ _); exact Hl.
  - unfold ReflexiveTable.remove_face. destruct (ReflexiveTable.purge _ _ _) as [[??]?]. exact Hl.
  - unfold ReflexiveTable.sweep. destruct (ReflexiveTable.purge _ _ _) as [[??]?]. exact Hl.
  - apply Z.mod_pos_bound. lia.
Qed.

Lemma refl_inv_run config ops :
  Forall refl_op_ok ops -> zlen ops <= u64_max -> refl_inv ops (refl_run config ops).
Proof.
  unfold refl_run. induction ops as [|op ops IH] using rev_ind; intros Hok Hlen.
  - cbn [fold_left]. pose proof (refl_ok_new config) as H0. pose proof H0 as [_ Hl _].
    change (live (ReflexiveTable.new config)) with 0 in Hl. symmetry in Hl. split; [done| | |].
    + rewrite Hl. done.
    + apply Z.mod_pos_bound. lia.
    + intros n r Hn. exfalso. apply (Nat2Z.inj _ 0), map_size_empty_inv in Hl. rewrite Hl in Hn. done.
  - apply Forall_app in Hok as [Hok Hop]. apply Forall_cons in Hop as [Hop _]. rewrite zlen_app in Hlen. change (zlen [op]) with 1 in Hlen.
    destruct (IH Hok ltac:(lia)) as [I1 I2 I3 I4]. rewrite fold_left_app. cbn [fold_left]. set (t := fold_left _ _ _) in *.
    assert (Hs : Z.of_nat (size (route_map (routes t))) < u64_max) by lia.
    destruct (refl_step_ok t op I1 Hs) as [Hok' Hin]. split; [done| | |].
    + pose proof (refl_step_size t op I1 Hs). zlen_norm. change (zlen [op]) with 1. lia.
    + by apply refl_life.
    + intros n r [Hn|(l & now & -> & He)]%Hin.
      * destruct (I4 n r Hn) as (l & now & Ho & He). exists l, now. split; [|done]. apply elem_of_app. by left.
      * exists l, now. split; [apply elem_of_app; right; apply list_elem_of_here|]. rewrite He. cbn in Hop.
        pose proof (Z.mod_le (Z.min l (max_lifetime_ns t)) (2 ^ 64)). unfold sat_add64, wrap. lia.
Qed.

(** C20: Whatever happens to the table of reverse routes, its counters stay exact
    (the live count is the number of routes, each face's count the number of its
    routes, so the cap binds what it means to), and a reverse Interest is sent only
    to a face that itself installed a prefix of its name as a reflexive name, and
    only while that installation lives. *)
Theorem reverse_routes_sound (config : ReflexiveConfig) (ops : list ReflexiveOp) :
  Forall refl_op_ok ops -> zlen ops <= u64_max ->
  let t := refl_run config ops in
  live t = Z.of_nat (size (route_map (routes t))) /\
  (forall f, ReflexiveTable.route_count t f = routes_to (route_map (routes t)) f) /\
  (forall name now f, (ReflexiveTable.lookup t name now).1 = Some f ->
     exists n l t0, n `prefix_of` name /\ OpInstall n f l t0 ∈ ops /\ now < t0 + l).
Proof.
  intros Hok Hlen. destruct (refl_inv_run config ops Hok Hlen) as [[Hw Hl Hf] _ _ Hj]. cbn zeta. split_conj; [done|done|].
  intros name now f. unfold ReflexiveTable.lookup. pose proof (NameTrie.lpm_spec (routes (refl_run config ops)) name) as Hlpm.
  destruct (NameTrie.lpm _ _) as [r|]; [|done]. destruct (Z.leb_spec (rr_expiry_ns r) now); [done|]. cbn [fst]. intros [= <-].
  destruct Hlpm as (k & Hk & Hg & _).
  destruct (trie_map (routes (refl_run config ops)) (take k name) r Hw) as (_ & _ & _ & _ & E & _). rewrite E in Hg.
  destruct (Hj _ _ Hg) as (l & t0 & Hin & He). exists (take k name), l, t0. split_conj; [|done|lia].
  exists (drop k name). by rewrite take_drop.
Qed.

Definition example_reflexive : list ReflexiveOp :=
  [OpInstall [Component.generic [114]] 7 1000 50; OpInstall [Component.generic [114]] 8 1000 60; OpSweep 100].
Lemma reverse_routes_sound_witness :
  (ReflexiveTable.lookup (refl_run ReflexiveConfig_default example_reflexive)
     [Component.generic [114]; Component.generic [1]] 200).1 = Some 7 /\
  live (refl_run ReflexiveConfig_default example_reflexive) =
    Z.of_nat (size (route_map (routes (refl_run ReflexiveConfig_default example_reflexive)))).
Proof.
  split; [vm_compute; reflexivity|].
  apply (reverse_routes_sound ReflexiveConfig_default example_reflexive); [repeat constructor; cbn; lia|vm_compute; discriminate].
Defined.

(** An expired route is not treated as absent: while it is still in the table, it
    hides a live route for a shorter prefix. *)
Lemma expired_route_hides :
  let a := Component.generic [97] in let b := Component.generic [98] in
  let t := refl_run ReflexiveConfig_default [OpInstall [a] 1 9000 0; OpInstall [a; b] 2 10 0] in
  (ReflexiveTable.lookup t [a; b] 100).1 = None /\ (ReflexiveTable.lookup t [a] 100).1 = Some 1 /\
  (ReflexiveTable.lookup (ReflexiveTable.sweep t 100).2 [a; b] 100).1 = Some 1.
Proof. vm_compute. by split_conj. Qed.
