(* ===== verification/Stages.v ===== *)
(** * The content-store and validation stages
    ([crates/forwarding/ndn-engine/src/stages]: [cs.rs], [validation.rs])

    [CsLookupStage] answers an Interest from the cache, [CsInsertStage] decides
    whether Data may enter it, and [ValidationStage] asks the validator, holding
    back Data whose certificate is missing in a bounded queue.

    The validator is an argument of the steps that consult it, since its verdict
    depends on the certificates fetched so far: a function from Data to a verdict,
    and which certificates it has.  The statistics are wrapping atomics.  A task
    that fetches a certificate is the name it fetches. *)

From S2P Require Import Prelude Tlv Name Packet Lp Pit PitStage DecodeStage LruCs.
#[local] Open Scope Z_scope.

(** Assignments to fields of the context. *)
Definition set_cs_hit (c : PacketContext) (b : bool) : PacketContext :=
  mkContext (raw_bytes c) (face_id c) (ctx_name c) (packet c) (name_hashes c) (pit_token c) (ctx_lp_pit_token c)
    (out_faces c) (out_pit_tokens c) (endpoint_id c) b (verified c) (validation_not_configured c) (unsolicited c) (arrival c).
Definition set_verified (c : PacketContext) (b : bool) : PacketContext :=
  mkContext (raw_bytes c) (face_id c) (ctx_name c) (packet c) (name_hashes c) (pit_token c) (ctx_lp_pit_token c)
    (out_faces c) (out_pit_tokens c) (endpoint_id c) (cs_hit c) b (validation_not_configured c) (unsolicited c) (arrival c).
Definition set_not_configured (c : PacketContext) (b : bool) : PacketContext :=
  mkContext (raw_bytes c) (face_id c) (ctx_name c) (packet c) (name_hashes c) (pit_token c) (ctx_lp_pit_token c)
    (out_faces c) (out_pit_tokens c) (endpoint_id c) (cs_hit c) (verified c) b (unsolicited c) (arrival c).

(** ** [cs.rs] *)

Module CsLookupStage.
Section stage.
Context {S : Type} `{ContentStore S}.

(** The action, the entry put into the tags, and the store; [now] is the time the
    store reads. *)
Definition process (cs : S) (now : Z) (ctx : PacketContext) : Action * option CsEntry * S :=
  match packet ctx with
  | PktInterest interest =>
      match cs_get cs now interest with
      | (Some entry, cs) =>
          let ctx := set_cs_hit ctx true in
          let ctx := set_out ctx (out_faces ctx ++ [face_id ctx]) (out_pit_tokens ctx) in
          (Satisfy ctx, Some entry, cs)
      | (None, cs) => (Continue ctx, None, cs)
      end
  | _ => (Continue ctx, None, cs)
  end.
End stage.
End CsLookupStage.

Record CsInsertStage : Type := mkCsInsertStage {
  admission : Data -> bool; (* [should_admit] of the policy *)
  admit_unverified : bool
}.

Module CsInsertStage.
Section stage.
Context {S : Type} `{ContentStore S}.

Definition freshness_ms (d : Data) : Z :=
  match Data.meta_info d with
  | Some m => match freshness_period m with Some p => wrap 64 p | None => 0 end
  | None => 0
  end.

Definition process (self : CsInsertStage) (ctx : PacketContext) (tags : Tags) (cs : S) : Action * S :=
  match packet ctx with
  | PktData d =>
      let unvalidated_ok := validation_not_configured ctx && admit_unverified self in
      if negb (verified ctx) && negb unvalidated_ok then (Satisfy ctx, cs)
      else if bool_decide (tag_cache_policy tags = Some NoCache) then (Satisfy ctx, cs)
      else if negb (admission self d) then (Satisfy ctx, cs)
      else
        let stale_at := wrap 64 (arrival ctx + wrap 64 (freshness_ms d * 1000000)) in
        (Satisfy ctx, (cs_insert cs (raw_bytes ctx) (d_name d) (mkCsMeta stale_at)).2)
  | _ => (Satisfy ctx, cs)
  end.
End stage.
End CsInsertStage.

(** ** [validation.rs] *)

Inductive ValidationResult : Type := RValid | RPending | RInvalid.

Record Validator : Type := mkValidator {
  validate_chain : Data -> ValidationResult;
  validate : Data -> ValidationResult;
  has_cert : Name -> bool (* [cert_cache().get(..).is_some()] *)
}.

Record ValidationStats : Type := mkStats {
  v_valid : Z; v_invalid : Z; v_pending : Z; dropped_no_key : Z; dropped_timeout : Z
}.
Definition ValidationStats_default : ValidationStats := mkStats 0 0 0 0 0.
Definition add_stats (s d : ValidationStats) : ValidationStats :=
  mkStats (wrap 64 (v_valid s + v_valid d)) (wrap 64 (v_invalid s + v_invalid d)) (wrap 64 (v_pending s + v_pending d))
    (wrap 64 (dropped_no_key s + dropped_no_key d)) (wrap 64 (dropped_timeout s + dropped_timeout d)).

(** The tags travel with the context. *)
Record PendingEntry : Type := mkPending {
  pe_ctx : PacketContext;
  pe_tags : Tags;
  needed_cert : Name;
  deadline : Z;
  byte_size : Z
}.

Inductive DrainResult : Type := Ready (ctx : PacketContext) (tags : Tags) | TimedOut.

Record PendingQueueConfig : Type := mkPendingConfig { c_max_entries : Z; c_max_bytes : Z; c_timeout : Z }.
Definition PendingQueueConfig_default : PendingQueueConfig := mkPendingConfig 256 (4 * 1024 * 1024) 4000000000.

Record PendingQueue : Type := mkQueue {
  q_entries : list PendingEntry;
  total_bytes : Z;
  max_entries : Z;
  q_max_bytes : Z;
  default_timeout : Z
}.

Module PendingQueue.
Definition new (config : PendingQueueConfig) : PendingQueue :=
  mkQueue [] 0 (c_max_entries config) (c_max_bytes config) (c_timeout config).
Definition set_queue (q : PendingQueue) (es : list PendingEntry) (total : Z) : PendingQueue :=
  mkQueue es total (max_entries q) (q_max_bytes q) (default_timeout q).

(** The [while] loop of [push].  A turn that finds the queue empty changes nothing
    and the loop goes on for ever: [None]. *)
Fixpoint make_room (q : PendingQueue) (size : Z) (es : list PendingEntry) (total : Z) : option (list PendingEntry * Z) :=
  let full := (max_entries q <=? zlen es) || ((q_max_bytes q <? total + size) && negb (zlen es =? 0)) in
  match es with
  | [] => if full then None else Some ([], total)
  | evicted :: rest => if full then make_room q size rest (total - byte_size evicted) else Some (es, total)
  end.

Definition push (q : PendingQueue) (ctx : PacketContext) (tags : Tags) (needed_cert : Name) (now : Z) : option PendingQueue :=
  let byte_size := zlen (raw_bytes ctx) in
  let! (es, total) := make_room q byte_size (q_entries q) (total_bytes q) in
  Some (set_queue q (es ++ [mkPending ctx tags needed_cert (now + default_timeout q) byte_size]) (total + byte_size)).

(** The loop of [drain_ready], which walks the queue in order: what leaves it, what
    stays, and the bytes left. *)
Fixpoint drain (v : Validator) (now : Z) (es : list PendingEntry) (total : Z)
    : list DrainResult * list PendingEntry * Z :=
  match es with
  | [] => ([], [], total)
  | e :: es =>
      if deadline e <=? now then
        let '(rs, kept, total) := drain v now es (total - byte_size e) in (TimedOut :: rs, kept, total)
      else if has_cert v (needed_cert e) then
        let '(rs, kept, total) := drain v now es (total - byte_size e) in (Ready (pe_ctx e) (pe_tags e) :: rs, kept, total)
      else
        let '(rs, kept, total) := drain v now es total in (rs, e :: kept, total)
  end.
Definition drain_ready (v : Validator) (now : Z) (q : PendingQueue) : list DrainResult * PendingQueue :=
  let '(rs, kept, total) := drain v now (q_entries q) (total_bytes q) in (rs, set_queue q kept total).
End PendingQueue.

Record ValidationState : Type := mkValidation {
  pending : PendingQueue;
  v_stats : ValidationStats;
  cert_fetches : list Name
}.

Module ValidationStage.
Definition new (config : PendingQueueConfig) : ValidationState :=
  mkValidation (PendingQueue.new config) ValidationStats_default [].

Definition count (s : ValidationState) (d : ValidationStats) : ValidationState :=
  mkValidation (pending s) (add_stats (v_stats s) d) (cert_fetches s).

Definition key_locator_name (d : Data) : option Name :=
  let! si := Data.sig_info d in
  match key_locator si with Some (LocatorName n) => Some n | _ => None end.

(** [None] when the push onto the queue does not return. *)
Definition process (validator : option Validator) (fetcher : bool) (now : Z) (ctx : PacketContext) (tags : Tags)
    (s : ValidationState) : option (Action * ValidationState) :=
  match validator with
  | None => Some (Satisfy (set_not_configured ctx true), s)
  | Some v =>
      match packet ctx with
      | PktData d =>
          match validate_chain v d with
          | RValid => Some (Satisfy (set_verified ctx true), count s (mkStats 1 0 0 0 0))
          | RPending =>
              match key_locator_name d with
              | Some cert_name =>
                  let s := count s (mkStats 0 0 1 0 0) in
                  let! q := PendingQueue.push (pending s) ctx tags cert_name now in
                  Some (Drop ValidationFailed,
                        mkValidation q (v_stats s) (if fetcher then cert_fetches s ++ [cert_name] else cert_fetches s))
              | None => Some (Drop ValidationFailed, count s (mkStats 0 0 0 1 0))
              end
          | RInvalid => Some (Drop ValidationFailed, count s (mkStats 0 1 0 0 0))
          end
      | _ => Some (Satisfy ctx, s)
      end
  end.

(** One result of the drain; the tags go with a context that is satisfied. *)
Definition settle (v : Validator) (r : DrainResult) (s : ValidationState) : Action * option Tags * ValidationState :=
  match r with
  | TimedOut => (Drop ValidationTimeout, None, count s (mkStats 0 0 0 0 1))
  | Ready ctx tags =>
      match packet ctx with
      | PktData d =>
          match validate_chain v d with
          | RValid => (Satisfy (set_verified ctx true), Some tags, count s (mkStats 1 0 0 0 0))
          | RPending => (Drop ValidationFailed, None, count s (mkStats 0 0 0 0 1))
          | RInvalid => (Drop ValidationFailed, None, count s (mkStats 0 1 0 0 0))
          end
      | _ => (Satisfy ctx, Some tags, s)
      end
  end.

Fixpoint settle_all (v : Validator) (rs : list DrainResult) (s : ValidationState)
    : list (Action * option Tags) * ValidationState :=
  match rs with
  | [] => ([], s)
  | r :: rs =>
      let '(a, t, s) := settle v r s in
      let '(rest, s) := settle_all v rs s in
      ((a, t) :: rest, s)
  end.

Definition drain_pending (validator : option Validator) (now : Z) (s : ValidationState)
    : list (Action * option Tags) * ValidationState :=
  match validator with
  | None => ([], s)
  | Some v =>
      let '(results, q) := PendingQueue.drain_ready v now (pending s) in
      settle_all v results (mkValidation q (v_stats s) (cert_fetches s))
  end.
End ValidationStage.

(** ** The pending queue *)

Definition sizes (es : list PendingEntry) : Z := foldr (fun e acc => byte_size e + acc) 0 es.

Lemma sizes_app a b : sizes (a ++ b) = sizes a + sizes b.
Proof. unfold sizes. induction a as [|e a IH]; cbn [app foldr]; [lia|]. rewrite IH. lia. Qed.

Definition sized (es : list PendingEntry) : Prop := Forall (fun e => byte_size e = zlen (raw_bytes (pe_ctx e))) es.

(** The byte count is exact and the queue within its bounds; one entry larger than
    the byte bound is held alone. *)
Record queue_ok (q : PendingQueue) : Prop := {
  qo_max : 0 <= q_max_bytes q;
  qo_sized : sized (q_entries q);
  qo_total : total_bytes q = sizes (q_entries q);
  qo_entries : zlen (q_entries q) <= max_entries q;
  qo_bytes : total_bytes q <= q_max_bytes q \/ zlen (q_entries q) = 1
}.

(** A packet of this size can join these entries. *)
Definition fits (q : PendingQueue) (size : Z) (es : list PendingEntry) : Prop :=
  zlen es < max_entries q /\ (sizes es + size <= q_max_bytes q \/ es = []).

(** The oldest entries go, and no more of them than must. *)
Lemma queue_room_spec q size es total :
  0 < max_entries q -> total = sizes es ->
  exists evicted kept, PendingQueue.make_room q size es total = Some (kept, sizes kept) /\ es = evicted ++ kept /\
    fits q size kept /\ forall k, (k < length evicted)%nat -> ~ fits q size (drop k es).
Proof.
  intros Hm. revert total. induction es as [|e es IH]; intros total ->; cbn [PendingQueue.make_room].
  - rewrite zlen_nil, (proj2 (Z.leb_gt _ _)), andb_false_r by lia. exists [], []. split_conj; [done|done|split; [done|by right]|cbn; lia].
  - destruct (_ || _) eqn:Hfull.
    + destruct (IH (sizes (e :: es) - byte_size e)) as (ev & kept & -> & -> & Hfit & Hmin); [unfold sizes; cbn; lia|].
      exists (e :: ev), kept. split_conj; [done|done|done|]. intros [|k] Hk; cbn [drop]; [|apply Hmin; cbn in Hk; lia].
      intros [H1 [H2|H2]]; [|done]. apply orb_true_iff in Hfull as [Hf%Z.leb_le|[Hf%Z.ltb_lt _]%andb_true_iff]; lia.
    + apply orb_false_iff in Hfull as [H1%Z.leb_gt H2]. exists [], (e :: es). split_conj; [done|done| |cbn; lia]. split; [done|].
      apply andb_false_iff in H2 as [H2%Z.ltb_ge|H2%negb_false_iff%Z.eqb_eq]; [by left|zlen_lia].
Qed.

Lemma push_ok q ctx tags cert now :
  queue_ok q -> 0 < max_entries q ->
  let size := zlen (raw_bytes ctx) in
  exists evicted kept, let es := kept ++ [mkPending ctx tags cert (now + default_timeout q) size] in
    PendingQueue.push q ctx tags cert now = Some (PendingQueue.set_queue q es (sizes es)) /\
    queue_ok (PendingQueue.set_queue q es (sizes es)) /\ q_entries q = evicted ++ kept /\
    fits q size kept /\ forall k, (k < length evicted)%nat -> ~ fits q size (drop k (q_entries q)).
Proof.
  intros [H0 H1 H2 H3 H4] Hm. unfold PendingQueue.push.
  destruct (queue_room_spec q (zlen (raw_bytes ctx)) (q_entries q) (total_bytes q) Hm H2) as (ev & kept & -> & He & Hfit & Hmin).
  exists ev, kept. cbv zeta. rewrite sizes_app. change (sizes [_]) with (zlen (raw_bytes ctx) + 0). rewrite Z.add_0_r.
  split_conj; [done| |done|done|done]. rewrite He in H1. apply Forall_app in H1 as [_ H1]. destruct Hfit as [Hl Hb].
  split; cbn [q_entries total_bytes max_entries q_max_bytes PendingQueue.set_queue].
  - done.
  - apply Forall_app. split; [done|]. by repeat constructor.
  - rewrite sizes_app. cbn. lia.
  - zlen_norm. change (zlen [_]) with 1. lia.
  - destruct Hb as [Hb| ->]; [by left|by right].
Qed.

(** With no room at all the push never returns. *)
Lemma push_diverges q ctx tags cert now : max_entries q <= 0 -> PendingQueue.push q ctx tags cert now = None.
Proof.
  intros Hm. unfold PendingQueue.push. cut (forall es t, PendingQueue.make_room q (zlen (raw_bytes ctx)) es t = None); [by intros ->|].
  intros es. induction es as [|e es IH]; intros t; cbn [PendingQueue.make_room]; rewrite (proj2 (Z.leb_le _ _)) by zlen_lia; [done|apply IH].
Qed.

Lemma drain_spec v now es total :
  sized es ->
  let '(rs, kept, total') := PendingQueue.drain v now es total in
  sized kept /\ total' - sizes kept = total - sizes es /\ zlen kept <= zlen es /\ sizes kept <= sizes es /\
  (forall e, e ∈ kept -> e ∈ es /\ now < deadline e /\ has_cert v (needed_cert e) = false) /\
  (forall ctx t, Ready ctx t ∈ rs -> exists e, e ∈ es /\ pe_ctx e = ctx /\ pe_tags e = t).
Proof.
  revert total. induction es as [|e es IH]; intros total Hz; cbn [PendingQueue.drain].
  { split_conj; try done; intros; set_solver. }
  apply Forall_cons in Hz as [He Hz]. pose proof (zlen_nonneg (raw_bytes (pe_ctx e))) as Hn.
  assert (Hs : sizes (e :: es) = byte_size e + sizes es) by done.
  destruct (Z.leb_spec (deadline e) now); [|destruct (has_cert v (needed_cert e)) eqn:Hc].
  1,2: specialize (IH (total - byte_size e) Hz); destruct (PendingQueue.drain v now es _) as [[rs kept] t'];
    destruct IH as (I1 & I2 & I3 & I4 & I5 & I6); split_conj; [done|lia|zlen_lia|lia|set_solver|]; intros ctx t Hin.
  1,2: apply elem_of_cons in Hin as [Hin|Hin]; [|destruct (I6 ctx t Hin) as (e' & ? & ?); exists e'; split; [by apply list_elem_of_further|done]];
    first [discriminate Hin|injection Hin as -> ->; exists e; split; [apply list_elem_of_here|done]].
  specialize (IH total Hz). destruct (PendingQueue.drain v now es total) as [[rs kept] t'].
  destruct IH as (I1 & I2 & I3 & I4 & I5 & I6).
  assert (Hk : sizes (e :: kept) = byte_size e + sizes kept) by done. split_conj; [by constructor|lia|zlen_lia|lia| |].
  - intros e' [->|He']%elem_of_cons; [split_conj; [apply list_elem_of_here|lia|done]|]. destruct (I5 e' He'). split; [by apply list_elem_of_further|done].
  - intros ctx t Hin. destruct (I6 ctx t Hin) as (e' & ? & ?). exists e'. split; [by apply list_elem_of_further|done].
Qed.

Lemma drain_ready_ok v now q : queue_ok q -> queue_ok (PendingQueue.drain_ready v now q).2.
Proof.
  intros [H0 H1 H2 H3 H4]. unfold PendingQueue.drain_ready. pose proof (drain_spec v now (q_entries q) (total_bytes q) H1) as H.
  destruct (PendingQueue.drain _ _ _ _) as [[rs kept] t]. destruct H as (I1 & I2 & I3 & I4 & _ & _).
  split; cbn [q_entries total_bytes max_entries q_max_bytes PendingQueue.set_queue snd]; [done|done|lia|lia|].
  destruct H4 as [H4|H4]; [left; lia|]. destruct (decide (zlen kept = 1)); [by right|left].
  assert (zlen kept = 0) as E%zlen_0_nil by zlen_lia. subst kept. change (sizes []) with 0 in *. lia.
Qed.

(** Every entry of the queue was there before, or is the one pushed. *)
Lemma make_room_suffix q size es t es' t' :
  PendingQueue.make_room q size es t = Some (es', t') -> forall e, e ∈ es' -> e ∈ es.
Proof.
  revert t. induction es as [|e0 es IH]; intros t; cbn [PendingQueue.make_room].
  - destruct (_ || _); [done|]. by intros [= <- _].
  - destruct (_ || _); [|by intros [= <- _]]. intros Hm e He. apply list_elem_of_further. by eapply IH.
Qed.
Lemma push_entries q ctx tags cert now q' :
  PendingQueue.push q ctx tags cert now = Some q' ->
  forall e, e ∈ q_entries q' -> e ∈ q_entries q \/ pe_ctx e = ctx.
Proof.
  unfold PendingQueue.push. destruct (PendingQueue.make_room _ _ _ _) as [[es t]|] eqn:Hm; [|done]. intros [= <-] e.
  cbn [q_entries PendingQueue.set_queue]. rewrite elem_of_app, list_elem_of_singleton.
  intros [He| ->]; [left; by eapply make_room_suffix|by right].
Qed.
Lemma drain_entries v now es total :
  let '(rs, kept, _) := PendingQueue.drain v now es total in
  (forall e, e ∈ kept -> e ∈ es) /\ (forall ctx t, Ready ctx t ∈ rs -> exists e, e ∈ es /\ pe_ctx e = ctx /\ pe_tags e = t).
Proof.
  revert total. induction es as [|e es IH]; intros total; cbn [PendingQueue.drain]; [set_solver|].
  destruct (deadline e <=? now); [|destruct (has_cert v (needed_cert e))].
  1,2: specialize (IH (total - byte_size e)).
  3: specialize (IH total).
  all: destruct (PendingQueue.drain v now es _) as [[rs kept] t']; destruct IH as [I1 I2]; split; [set_solver|].
  all: intros ctx t; repeat setoid_rewrite elem_of_cons; naive_solver.
Qed.

(** *** What becomes of held Data *)

(** The entry leaves the queue at this time. *)
Definition leaves (v : Validator) (now : Z) (e : PendingEntry) : Prop := deadline e <= now \/ has_cert v (needed_cert e) = true.
#[export] Instance leaves_dec v now e : Decision (leaves v now e).
Proof. unfold leaves. apply _. Defined.

(** What an entry that leaves becomes, with its tags, and what is counted. *)
Definition released (v : Validator) (now : Z) (e : PendingEntry) : Action * option Tags * option ValidationStats :=
  if decide (deadline e <= now) then (Drop ValidationTimeout, None, Some (mkStats 0 0 0 0 1))
  else match packet (pe_ctx e) with
       | PktData d =>
           match validate_chain v d with
           | RValid => (Satisfy (set_verified (pe_ctx e) true), Some (pe_tags e), Some (mkStats 1 0 0 0 0))
           | RPending => (Drop ValidationFailed, None, Some (mkStats 0 0 0 0 1))
           | RInvalid => (Drop ValidationFailed, None, Some (mkStats 0 1 0 0 0))
           end
       | _ => (Satisfy (pe_ctx e), Some (pe_tags e), None)
       end.

Definition result_of (now : Z) (e : PendingEntry) : DrainResult :=
  if decide (deadline e <= now) then TimedOut else Ready (pe_ctx e) (pe_tags e).

Lemma drain_results v now es : forall total,
  PendingQueue.drain v now es total = (result_of now <$> filter (leaves v now) es, filter (fun e => ~ leaves v now e) es, total - sizes (filter (leaves v now) es)).
Proof.
  induction es as [|e es IH]; intros total; cbn [PendingQueue.drain]; [cbn; by rewrite Z.sub_0_r|].
  rewrite !filter_cons, !IH. assert (leaves v now e <-> deadline e <= now \/ has_cert v (needed_cert e) = true) as Hl by done.
  destruct (Z.leb_spec (deadline e) now); [|destruct (has_cert v (needed_cert e)) eqn:Hc].
  - rewrite (decide_True _ _ (P := leaves v now e)), (decide_False _ _ (P := ~ leaves v now e)) by tauto. rewrite fmap_cons. assert (result_of now e = TimedOut) as -> by (unfold result_of; by rewrite decide_True).
    f_equal. unfold sizes. cbn [foldr]. lia.
  - rewrite (decide_True _ _ (P := leaves v now e)), (decide_False _ _ (P := ~ leaves v now e)) by tauto. rewrite fmap_cons. assert (result_of now e = Ready (pe_ctx e) (pe_tags e)) as -> by (unfold result_of; by rewrite decide_False by lia).
    f_equal. unfold sizes. cbn [foldr]. lia.
  - rewrite (decide_False _ _ (P := leaves v now e)), (decide_True _ _ (P := ~ leaves v now e)) by (rewrite Hl; intuition (lia || congruence)). done.
Qed.

Lemma settle_released v now e s :
  ValidationStage.settle v (result_of now e) s = ((released v now e).1, match (released v now e).2 with Some d => ValidationStage.count s d | None => s end).
Proof. unfold result_of, released. destruct (decide _); [done|]. cbn [ValidationStage.settle]. destruct (packet (pe_ctx e)); try done. by destruct (validate_chain v _). Qed.

Lemma settle_all_released v now es : forall s,
  ValidationStage.settle_all v (result_of now <$> es) s =
    (fst ∘ released v now <$> es, mkValidation (pending s) (fold_left add_stats (omap (snd ∘ released v now) es) (v_stats s)) (cert_fetches s)).
Proof.
  induction es as [|e es IH]; intros s; [by destruct s|]. rewrite !fmap_cons. cbn [ValidationStage.settle_all]. rewrite settle_released, IH. cbn [list_omap omap].
  change ((fst ∘ released v now) e) with (released v now e).1. change ((snd ∘ released v now) e) with (released v now e).2.
  by destruct (released v now e) as [[a t] [d|]].
Qed.

Lemma drain_pending_released v now s : queue_ok (pending s) ->
  let '(out, s') := ValidationStage.drain_pending (Some v) now s in
  let gone := filter (leaves v now) (q_entries (pending s)) in
  out = fst ∘ released v now <$> gone /\
  q_entries (pending s') = filter (fun e => ~ leaves v now e) (q_entries (pending s)) /\
  v_stats s' = fold_left add_stats (omap (snd ∘ released v now) gone) (v_stats s) /\ queue_ok (pending s').
Proof.
  intros Hq. apply (drain_ready_ok v now) in Hq. revert Hq. unfold ValidationStage.drain_pending, PendingQueue.drain_ready. rewrite drain_results.
  cbn [fst snd]. by rewrite settle_all_released.
Qed.

(** C21: what the validation stage does with Data, verdict by verdict, when a
    validator is configured and the queue may hold at least one packet.  It always
    returns.  Data whose chain the validator accepts goes on, marked verified, and
    is counted valid.  Other Data is dropped: rejected Data is counted invalid, and
    Data that names no key is counted as such, and nothing else changes.  Data whose
    certificate is missing is counted pending and put at the end of the queue with
    its deadline, after the oldest packets were evicted, only as many as must be
    for it to fit; the others stay in their order, and the certificate is asked for
    when there is a fetcher.  The queue stays within its bounds, its count of bytes
    exact.  At any later time a drain releases, in order, exactly the held packets
    whose deadline passed or whose certificate has come, the former counted and
    dropped as timed out, the latter validated again; the others stay, within the
    same bounds. *)
Theorem validation_outcomes (v : Validator) (fetcher : bool) (now : Z) (ctx : PacketContext) (tags : Tags) (d : Data)
    (s : ValidationState) :
  packet ctx = PktData d -> queue_ok (pending s) -> 0 < max_entries (pending s) ->
  exists a s', ValidationStage.process (Some v) fetcher now ctx tags s = Some (a, s') /\ queue_ok (pending s') /\
    match validate_chain v d, ValidationStage.key_locator_name d with
    | RValid, _ =>
        a = Satisfy (set_verified ctx true) /\
        s' = mkValidation (pending s) (add_stats (v_stats s) (mkStats 1 0 0 0 0)) (cert_fetches s)
    | RInvalid, _ =>
        a = Drop ValidationFailed /\
        s' = mkValidation (pending s) (add_stats (v_stats s) (mkStats 0 1 0 0 0)) (cert_fetches s)
    | RPending, None =>
        a = Drop ValidationFailed /\
        s' = mkValidation (pending s) (add_stats (v_stats s) (mkStats 0 0 0 1 0)) (cert_fetches s)
    | RPending, Some cert =>
        let size := zlen (raw_bytes ctx) in
        a = Drop ValidationFailed /\ v_stats s' = add_stats (v_stats s) (mkStats 0 0 1 0 0) /\
        cert_fetches s' = cert_fetches s ++ (if fetcher then [cert] else []) /\
        exists evicted kept, q_entries (pending s) = evicted ++ kept /\
          q_entries (pending s') = kept ++ [mkPending ctx tags cert (now + default_timeout (pending s)) size] /\
          fits (pending s) size kept /\
          forall k, (k < length evicted)%nat -> ~ fits (pending s) size (drop k (q_entries (pending s)))
    end /\
    forall v' later, let '(out, s2) := ValidationStage.drain_pending (Some v') later s' in
      let gone := filter (leaves v' later) (q_entries (pending s')) in
      out = fst ∘ released v' later <$> gone /\
      q_entries (pending s2) = filter (fun e => ~ leaves v' later e) (q_entries (pending s')) /\
      v_stats s2 = fold_left add_stats (omap (snd ∘ released v' later) gone) (v_stats s') /\ queue_ok (pending s2).
Proof.
  intros Hp Hq Hm. unfold ValidationStage.process. rewrite Hp. destruct (validate_chain v d) eqn:Hv.
  - eexists _, _. split; [reflexivity|]. split_conj; [done|done|done|]. intros. by apply drain_pending_released.
  - destruct (ValidationStage.key_locator_name d) as [cert|].
    + destruct (push_ok (pending s) ctx tags cert now Hq Hm) as (ev & kept & Hpush & Hok & He & Hfit & Hmin).
      cbn [pending ValidationStage.count]. rewrite Hpush. eexists _, _. split; [reflexivity|].
      split_conj; [done|done|done| |exists ev, kept; by split_conj|intros; by apply drain_pending_released].
      cbn. destruct fetcher; [done|]. by rewrite app_nil_r.
    + eexists _, _. split; [reflexivity|]. split_conj; [done|done|done|]. intros. by apply drain_pending_released.
  - eexists _, _. split; [reflexivity|]. split_conj; [done|done|done|]. intros. by apply drain_pending_released.
Qed.

(** Data [/a] signed with the key [/k], whose certificate is not there, and a queue
    that may hold two packets and holds two. *)
Definition example_wire : bytes := [6; 19; 7; 3; 8; 1; 97; 22; 10; 27; 1; 1; 28; 5; 7; 3; 8; 1; 107; 23; 0].
Definition example_data : Data := match Data.decode example_wire with Ok d => d | Err _ => mkData [] 0 0 0 0 [] end.
Definition example_ctx (arrived : Z) : PacketContext :=
  mkContext example_wire 2 None (PktData example_data) None None None [] [] arrived false false false false 0.
Definition example_key : Name := [Component.generic [107]].
Definition example_held (at_ : Z) : PendingEntry := mkPending (example_ctx at_) no_tags example_key (at_ + 100) 21.
Definition awaiting : Validator := mkValidator (fun _ => RPending) (fun _ => RPending) (fun _ => false).
Definition example_state : ValidationState :=
  mkValidation (mkQueue [example_held 1; example_held 2] 42 2 1000 100) (mkStats 0 0 2 0 0) [].

Lemma validation_outcomes_witness :
  exists a s', ValidationStage.process (Some awaiting) true 3 (example_ctx 3) no_tags example_state = Some (a, s') /\
    a = Drop ValidationFailed /\ q_entries (pending s') = [example_held 2; example_held 3].
Proof.
  destruct (validation_outcomes awaiting true 3 (example_ctx 3) no_tags example_data example_state) as (a & s' & H1 & _ & H & _).
  - reflexivity.
  - split; [vm_compute; discriminate|repeat constructor|vm_compute; reflexivity|vm_compute; discriminate|left; vm_compute; discriminate].
  - vm_compute. reflexivity.
  - exists a, s'. split; [exact H1|]. assert (ValidationStage.key_locator_name example_data = Some example_key) as Hk by (vm_compute; reflexivity).
    rewrite Hk in H. destruct H as (-> & _ & _ & evicted & kept & He & -> & [Hfit _] & Hmin). split; [reflexivity|].
    destruct evicted as [|e1 [|e2 evicted]]; cbn [app] in He.
    + subst kept. vm_compute in Hfit. discriminate Hfit.
    + injection He as <- <-. reflexivity.
    + exfalso. apply (Hmin 1%nat); [cbn; lia|]. split; [vm_compute; reflexivity|left; vm_compute; discriminate].
Defined.
