(* ===== verification/PathControl.v ===== *)
(** * Path control ([crates/forwarding/ndn-pathcontrol/src/lib.rs] and
    [crates/forwarding/ndn-engine/src/path_control.rs])

    A signed Interest that changes the state of every forwarder on a path and walks
    on: its name, the guard against loops and stale messages, the authorizers and the
    handler a forwarder runs on it.

    What the plug-ins mutate (an authorizer, the observers of sessions, the durable
    backing of the guard) is one state [W], threaded through the calls.  The handler
    works on the engine's FIB, which is an argument and a result of [decide]; its
    per-target lock makes the steps from the guard to the FIB write atomic, as they
    are here.  The emitter, which signs such Interests, is not modelled. *)

From S2P Require Import Prelude Tlv Name NameUri Trie Rib Packet PitStage.
#[local] Open Scope Z_scope.

(** ** The message *)

Inductive PathOp : Type := Redirect | Teardown | Refresh.
#[export] Instance PathOp_eq_dec : EqDecision PathOp.
Proof. solve_decision. Defined.

Module PathOp.
Definition from_u8 (b : Z) : option PathOp :=
  if b =? 1 then Some Redirect else if b =? 2 then Some Teardown else if b =? 3 then Some Refresh else None.
Definition as_u8 (op : PathOp) : Z := match op with Redirect => 1 | Teardown => 2 | Refresh => 3 end.
End PathOp.

Record PathControl : Type := mkPathControl { pc_target : Name; pc_op : PathOp; pc_seq : Z }.

Definition PATHCTL_KEYWORD : bytes := str "PC".
Definition PARAMS_SHA256_TYPE : Z := 2.

Module PathControl.
Definition to_name (pc : PathControl) : Name :=
  pc_target pc ++ [Component.keyword PATHCTL_KEYWORD] ++ [Component.generic [PathOp.as_u8 (pc_op pc)]]
    ++ [Component.generic (be_encode 8 (pc_seq pc))].

Definition is_pc (c : NameComponent) : bool :=
  (typ c =? typ (Component.keyword [])) && bool_decide (value c = PATHCTL_KEYWORD).

(** [n - 3] and the like are guarded by [n >= 3]; a component that is not there is
    no marker. *)
Definition marker (comps : Name) : option nat :=
  let n := length comps in
  let at_ i := match comps !! i with Some c => is_pc c | None => false end in
  if (3 <=? n)%nat && at_ (n - 3)%nat then Some (n - 3)%nat
  else if (4 <=? n)%nat && at_ (n - 4)%nat &&
          match comps !! (n - 1)%nat with Some c => typ c =? PARAMS_SHA256_TYPE | None => false end
  then Some (n - 4)%nat
  else None.

Definition parse (name : Name) : option PathControl :=
  let! kw := marker name in
  let! op_comp := name !! (kw + 1)%nat in
  let! seq_comp := name !! (kw + 2)%nat in
  let! o := match value op_comp with [b] => PathOp.from_u8 b | _ => None end in
  if (length (value seq_comp) =? 8)%nat then Some (mkPathControl (take kw name) o (be_decode (value seq_comp)))
  else None.
End PathControl.

(** ** The guard *)

Record SeqPersistence (W : Type) : Type := mkPersistence {
  sp_load : W -> list (Name * Z * Z);
  sp_record : Name -> Z -> Z -> W -> W
}.
Arguments sp_load {W}.
Arguments sp_record {W}.

(** The last sequence number admitted for a target and an operation. *)
Abbreviation SeqStore := (gmap (Name * Z) Z).

Module SeqStore.
Section store.
Context {W : Type}.

Definition new : SeqStore := ∅.
Definition with_persistence (p : SeqPersistence W) (w : W) : SeqStore :=
  fold_left (fun seen '(t, o, s) => <[(t, o) := s]> seen) (sp_load p w) ∅.

Definition admit_ (persist : option (SeqPersistence W)) (t : Name) (o : PathOp) (s : Z) (seen : SeqStore) (w : W)
    : bool * SeqStore * W :=
  let key := (t, PathOp.as_u8 o) in
  let '(admitted, seen) :=
    match seen !! key with
    | Some l => if l <? s then (true, <[key := s]> seen) else (false, seen)
    | None => (true, <[key := s]> seen)
    end in
  (admitted, seen,
   if admitted then match persist with Some p => sp_record p t (PathOp.as_u8 o) s w | None => w end else w).

Definition last (t : Name) (o : PathOp) (seen : SeqStore) : option Z := seen !! (t, PathOp.as_u8 o).
End store.
End SeqStore.

(** [now] is what the trusted clock says, if it says anything. *)
Definition within_freshness_window (now sig_time : option Z) (max_skew_ns : Z) : bool :=
  match now, sig_time with
  | Some now, Some ts => Z.abs (now - ts) <=? max_skew_ns
  | _, _ => true
  end.

(** ** Authorizers and observers *)

(** [dyn PathAuthorizer]: its method. *)
Definition PathAuthorizer (W : Type) : Type := PathControl -> Interest -> W -> bool * W.

Section authorizers.
Context {W : Type}.
Definition ValidatorAuthorizer (validate_interest : Interest -> InterestValidationOutcome) : PathAuthorizer W :=
  fun _ i w => (match validate_interest i with Valid => true | _ => false end, w).
Definition AllowAllAuthorizer : PathAuthorizer W := fun _ _ w => (true, w).
Definition OpRoutedAuthorizer (redirect lifecycle : PathAuthorizer W) : PathAuthorizer W :=
  fun pc i w => match pc_op pc with Redirect => redirect pc i w | Teardown | Refresh => lifecycle pc i w end.
End authorizers.

Record PathControlObserver (W : Type) : Type := mkObserver {
  on_teardown : PathControl -> bytes -> W -> W;
  on_refresh : PathControl -> bytes -> W -> W
}.
Arguments on_teardown {W}.
Arguments on_refresh {W}.

(** ** The handler *)

Record PathControlHandler (W : Type) : Type := mkHandler {
  authorizer : PathAuthorizer W;
  observers : list (PathControlObserver W);
  persist : option (SeqPersistence W)
}.
Arguments mkHandler {W}.
Arguments authorizer {W}.
Arguments observers {W}.
Arguments persist {W}.

Module PathControlHandler.
Section handler.
Context {W : Type}.

Definition new_unauthenticated (obs : list (PathControlObserver W)) : PathControlHandler W := mkHandler AllowAllAuthorizer obs None.

(** The faces to propagate to; [None] is a message that is dropped. *)
Definition decide (self : PathControlHandler W) (pc : PathControl) (interest : Interest) (in_face : Z)
    (fib : EngineFib.Fib) (seen : SeqStore) (w : W) : option (list Z) * EngineFib.Fib * SeqStore * W :=
  let '(allowed, w) := authorizer self pc interest w in
  if negb allowed then (None, fib, seen, w)
  else
    let '(admitted, seen, w) := SeqStore.admit_ (persist self) (pc_target pc) (pc_op pc) (pc_seq pc) seen w in
    if negb admitted then (None, fib, seen, w)
    else
      let old_faces := match EngineFib.lpm fib (pc_target pc) with
        | Some e => filter (fun f => f <> in_face) (map Trie.face_id (nexthops e))
        | None => []
        end in
      let params := default [] (Interest.app_parameters interest) in
      let '(fib, w) :=
        match pc_op pc with
        | Redirect => (EngineFib.add_nexthop fib (pc_target pc) in_face 0, w)
        | Teardown => (fib, fold_left (fun w o => on_teardown o pc params w) (observers self) w)
        | Refresh => (fib, fold_left (fun w o => on_refresh o pc params w) (observers self) w)
        end in
      (Some old_faces, fib, seen, w).
End handler.
End PathControlHandler.

(** ** The name carries the message *)

Lemma lookup_past (t l : Name) (i : nat) : (t ++ l) !! (length t + i)%nat = l !! i.
Proof. rewrite lookup_app_r by lia. f_equal. lia. Qed.

Lemma marker_plain t kw o s : PathControl.is_pc kw = true -> PathControl.marker (t ++ [kw; o; s]) = Some (length t).
Proof.
  intros Hk. unfold PathControl.marker. rewrite length_app. cbn [length]. replace (length t + 3 - 3)%nat with (length t + 0)%nat by lia.
  rewrite lookup_past. cbn [lookup list_lookup]. rewrite Hk, (proj2 (Nat.leb_le _ _)) by lia. cbn [andb]. f_equal. lia.
Qed.
Lemma marker_signed t kw o s c :
  PathControl.is_pc kw = true -> PathControl.is_pc o = false -> typ c = PARAMS_SHA256_TYPE ->
  PathControl.marker (t ++ [kw; o; s; c]) = Some (length t).
Proof.
  intros Hk Ho Hc. unfold PathControl.marker. rewrite length_app. cbn [length].
  replace (length t + 4 - 3)%nat with (length t + 1)%nat by lia. replace (length t + 4 - 4)%nat with (length t + 0)%nat by lia.
  replace (length t + 4 - 1)%nat with (length t + 3)%nat by lia. rewrite !lookup_past. cbn [lookup list_lookup].
  rewrite Hk, Ho, Hc, andb_false_r, (proj2 (Nat.leb_le _ _)) by lia. cbn [andb]. change (PARAMS_SHA256_TYPE =? PARAMS_SHA256_TYPE) with true.
  f_equal. lia.
Qed.

(** What is parsed is what was put into the name, with or without the digest a
    signed Interest appends. *)
Lemma path_control_roundtrip pc c :
  is_u64 (pc_seq pc) -> typ c = PARAMS_SHA256_TYPE ->
  PathControl.parse (PathControl.to_name pc) = Some pc /\ PathControl.parse (PathControl.to_name pc ++ [c]) = Some pc.
Proof.
  intros Hs Hc. destruct pc as [t o s]. cbn [pc_seq] in Hs.
  assert (PathControl.is_pc (Component.keyword PATHCTL_KEYWORD) = true) as H1 by (vm_compute; reflexivity).
  assert (PathControl.is_pc (Component.generic [PathOp.as_u8 o]) = false) as H2 by (by destruct o).
  assert (forall l kw, PathControl.marker (t ++ kw :: Component.generic [PathOp.as_u8 o] :: Component.generic (be_encode 8 s) :: l) = Some (length t) ->
    PathControl.parse (t ++ kw :: Component.generic [PathOp.as_u8 o] :: Component.generic (be_encode 8 s) :: l) = Some (mkPathControl t o s)) as Hgo.
  { intros l kw Hm. unfold PathControl.parse. rewrite Hm. cbn [option_bind]. rewrite !lookup_past. cbn [lookup list_lookup option_bind value Component.generic].
    assert (PathOp.from_u8 (PathOp.as_u8 o) = Some o) as -> by (by destruct o). cbn [option_bind]. rewrite length_be_encode, take_app_length.
    cbn [Nat.eqb]. do 2 f_equal. rewrite be_decode_encode. apply Z.mod_small. unfold is_u64 in Hs. unfold_bounds. lia. }
  unfold PathControl.to_name. cbn [pc_target pc_op pc_seq app]. rewrite <- app_assoc. cbn [app]. split; apply Hgo.
  - by apply marker_plain.
  - by apply marker_signed.
Qed.

(** ** What the handler does *)

Section decide.
Context {W : Type} (self : PathControlHandler W).
Import PathControlHandler.

(** Newer than all that was admitted for this target and operation. *)
Definition newer (pc : PathControl) (seen : SeqStore) : Prop :=
  match SeqStore.last (pc_target pc) (pc_op pc) seen with Some l => l < pc_seq pc | None => True end.

(** A message that is not authorized changes nothing, nor does one that is not newer.
    Any other is noted, and goes on to the next hops of its target but the one it came
    from; only a redirect changes the FIB, where the face it came from becomes a next
    hop of the target at no cost. *)
Lemma decide_spec pc i f fib seen w :
  let '(r, fib', seen', _) := decide self pc i f fib seen w in
  match r with
  | None => fib' = fib /\ seen' = seen /\ ((authorizer self pc i w).1 = false \/ ~ newer pc seen)
  | Some faces =>
      (authorizer self pc i w).1 = true /\ newer pc seen /\ seen' = <[(pc_target pc, PathOp.as_u8 (pc_op pc)) := pc_seq pc]> seen /\
      faces = match EngineFib.lpm fib (pc_target pc) with
              | Some e => filter (fun g => g <> f) (map Trie.face_id (nexthops e)) | None => [] end /\
      fib' = match pc_op pc with Redirect => EngineFib.add_nexthop fib (pc_target pc) f 0 | _ => fib end
  end.
Proof.
  unfold decide, newer, SeqStore.last, SeqStore.admit_. destruct (authorizer self pc i w) as [[|] w1]; cbn [negb fst]; [|by auto].
  destruct (seen !! _) as [l|].
  - destruct (Z.ltb_spec l (pc_seq pc)); cbn [negb]; [|split_conj; [done|done|right; lia]].
    by destruct (pc_op pc); split_conj.
  - by destruct (pc_op pc); cbn [negb]; split_conj.
Qed.

(** A walk never passes a forwarder twice: whatever messages come, of those of one
    target and operation that are admitted, each is newer than the one before. *)
Fixpoint messages_admitted (l : list (PathControl * Interest * Z)) (fib : EngineFib.Fib) (seen : SeqStore) (w : W) : list PathControl :=
  match l with
  | [] => []
  | (pc, i, f) :: l =>
      match decide self pc i f fib seen w with
      | (Some _, fib, seen, w) => pc :: messages_admitted l fib seen w
      | (None, fib, seen, w) => messages_admitted l fib seen w
      end
  end.

Lemma admitted_newer l : forall fib seen w t o,
  let mine := filter (fun pc => pc_target pc = t /\ pc_op pc = o) (messages_admitted l fib seen w) in
  StronglySorted (fun a b => pc_seq a < pc_seq b) mine /\
  Forall (fun pc => match SeqStore.last t o seen with Some s => s < pc_seq pc | None => True end) mine.
Proof.
  induction l as [|[[pc i] f] l IH]; intros fib seen w t o; cbn [messages_admitted]; cbn zeta; [split; constructor|].
  pose proof (decide_spec pc i f fib seen w) as Hd. destruct (decide self pc i f fib seen w) as [[[[faces|] fib'] seen'] w'].
  2:{ destruct Hd as (-> & -> & _). apply IH. }
  destruct Hd as (_ & Hn & -> & _). destruct (IH fib' (<[(pc_target pc, PathOp.as_u8 (pc_op pc)) := pc_seq pc]> seen) w' t o) as [I1 I2].
  destruct (decide_rel (=) (pc_target pc, pc_op pc) (t, o)) as [[= <- <-]|Hne].
  - rewrite filter_cons_True by done. unfold SeqStore.last in *. rewrite lookup_insert_eq in I2. split; constructor; try done.
    unfold newer, SeqStore.last in Hn. eapply Forall_impl; [exact I2|]. intros pc' Hpc. cbn in Hpc. destruct (seen !! _); [lia|done].
  - rewrite filter_cons_False by (intros [<- <-]; done). split; [done|]. unfold SeqStore.last in *. rewrite lookup_insert_ne in I2; [done|].
    intros [= Ht Ho]. apply Hne. rewrite Ht. f_equal. by destruct (pc_op pc), o.
Qed.
End decide.
