(* ===== verification/Dispatcher.v ===== *)
(** * The packet dispatcher ([crates/forwarding/ndn-engine/src/dispatcher]:
    [pipeline.rs], [outbound.rs]; and [unsolicited.rs], [traceroute.rs],
    [rate_limit_hook.rs], [engine.rs], [ndn-packet/src/prefix_announcement.rs])

    The whole path of a decoded packet through the forwarder: the discovery hook, the
    counters, the inbound rate limit, and then the Interest pipeline (PIT, content
    store, reverse routes, strategy), the Data pipeline (PIT, policy for unsolicited
    Data, validation, route learning, content store) or the Nack pipeline; and the
    execution of the actions the stages return.

    [State] is what the forwarder changes, [Env] what a step reads: tables that only
    management changes, the plug-ins, the clocks and the validator as they are at
    that moment.  What the plug-ins (strategies, rate limiter, discovery,
    path-control authorizer and observers, name-activity observer) mutate is
    the state [W].  A packet put on the send queue of a face is a value of [Egress]
    in [st_out]; the queues themselves, and what happens when one is full, are not
    modelled.  A panic, or a step that does not return, is [None]. *)

From S2P Require Import Prelude Tlv Name NameUri Face Trie Rib Encode Evict DeadNonce ReplayGuard Packet Lp Reassembly Pit PitStage DecodeStage LruCs Measure Strategy StrategyStage Reflexive Stages PathControl.
#[local] Open Scope Z_scope.

(** ** [prefix_announcement.rs] *)

Record PrefixAnnouncement : Type := mkAnnouncement {
  announced_prefix : Name;
  expiration : option Z; (* milliseconds *)
  pa_data : Data
}.

Module PrefixAnnouncement.
Definition TLV_NFD_EXPIRATION_PERIOD : Z := 109.
Definition PA_KEYWORD : bytes := str "PA".

(** The [while let Ok(..)] loop: an error ends it. *)
Fixpoint expiration_loop (fuel : nat) (r : TlvReader.TlvReader) : option Z :=
  match fuel with
  | O => None
  | S fuel =>
      match TlvReader.read_tlv r with
      | (Ok (typ, val), r) =>
          if typ =? TLV_NFD_EXPIRATION_PERIOD
          then Some (fold_left (fun acc b => Z.lor (wrap 64 (Z.shiftl acc 8)) b) val 0)
          else expiration_loop fuel r
      | (Err _, _) => None
      end
  end.
(** Every turn consumes at least two bytes. *)
Definition parse_expiration (content : bytes) : option Z := expiration_loop (S (length content)) (TlvReader.new content).

(** [iter().position(..)]. *)
Fixpoint position_pa (comps : Name) : option nat :=
  match comps with
  | [] => None
  | c :: comps => if (typ c =? tlv_type.KEYWORD) && bool_decide (value c = PA_KEYWORD) then Some O
                  else S <$> position_pa comps
  end.

Definition decode (raw : bytes) : result PrefixAnnouncement PacketError :=
  let? data := Data.decode raw in
  match position_pa (d_name data) with
  | None => Err (MalformedPacket "PrefixAnnouncement: missing 'PA' keyword")
  | Some O => Err (MalformedPacket "PrefixAnnouncement: empty announced prefix")
  | Some pa_idx =>
      Ok (mkAnnouncement (take pa_idx (d_name data)) (match Data.content data with Some c => parse_expiration c | None => None end) data)
  end.
End PrefixAnnouncement.

(** ** [unsolicited.rs], [rate_limit_hook.rs], [traceroute.rs] *)

Inductive UnsolicitedDataPolicy : Type := DropAll | AdmitLocal | AdmitNetwork | AdmitAll.
Definition admits (p : UnsolicitedDataPolicy) (s : FaceScope) : bool :=
  match p with
  | DropAll => false
  | AdmitLocal => bool_decide (s = Local)
  | AdmitNetwork => bool_decide (s = NonLocal)
  | AdmitAll => true
  end.
Definition policy_from_token (s : bytes) : option UnsolicitedDataPolicy :=
  if bool_decide (s = str "drop-all") then Some DropAll
  else if bool_decide (s = str "admit-local") then Some AdmitLocal
  else if bool_decide (s = str "admit-network") then Some AdmitNetwork
  else if bool_decide (s = str "admit-all") then Some AdmitAll
  else None.

Inductive PacketKind : Type := KInterest | KData.
Inductive RateDecision : Type := RPermit | RDrop | RNack.
Record RateLimitHook (W : Type) : Type := mkHook {
  check_inbound : Z -> Name -> PacketKind -> Z -> W -> RateDecision * W;
  check_outbound : Z -> Name -> PacketKind -> Z -> W -> RateDecision * W
}.
Arguments mkHook {W}.
Arguments check_inbound {W}.
Arguments check_outbound {W}.

Definition TRACEROUTE_KEYWORD : bytes := str "TRH".
Definition HOP_IDENTITY_MAGIC : bytes := 240 :: str "HOP".
Definition is_marker (c : NameComponent) : bool :=
  (typ c =? tlv_type.KEYWORD) && bool_decide (value c = TRACEROUTE_KEYWORD).
Definition is_trace_probe (name : Name) : bool :=
  match rev name with
  | c :: rest =>
      is_marker c || ((typ c =? tlv_type.PARAMETERS_SHA256) && match rest with d :: _ => is_marker d | [] => false end)
  | [] => false
  end.
Definition identity_reply (sha256 : bytes -> bytes) (probe_name node_name : Name) : option bytes :=
  DataBuilder.sign_digest_sha256 sha256 (DataBuilder.new probe_name (HOP_IDENTITY_MAGIC ++ NameUri.display node_name)).

(** ** [engine.rs]: egress items and face states *)

Record EgressIntent : Type := mkIntent { headers : LpHeaders; nack_reason : option nack.NackReason }.
Definition no_headers : LpHeaders := mkHeaders None None None None None.
Definition EgressIntent_default : EgressIntent := mkIntent no_headers None.

Definition frame_with_intent (payload : bytes) (intent : EgressIntent) (uses_lp : bool) : bytes :=
  match nack_reason intent with
  | Some reason =>
      match hd_pit_token (headers intent) with
      | Some token => encode_lp_nack_with_pit_token reason payload (Some token)
      | None => encode_nack reason payload
      end
  | None =>
      if is_lp_packet payload then encode_lp_packet payload
      else if uses_lp then encode_lp_with_headers payload (headers intent)
      else if PitEntry.is_some (hd_pit_token (headers intent)) then encode_lp_with_headers payload (headers intent)
      else payload
  end.

Record Egress : Type := mkEgress {
  eg_face : Z;
  eg_payload : bytes;
  eg_source : Z;
  eg_intent : EgressIntent;
  eg_class : Z
}.

(** The counters the pipelines touch. *)
Record FaceCounters : Type := mkCounters {
  in_interests : Z; in_data : Z; out_interests : Z; out_data : Z; in_bytes : Z;
  in_satisfied_interests : Z; out_nacks : Z
}.
Definition FaceCounters_default : FaceCounters := mkCounters 0 0 0 0 0 0 0.
Definition add_counters (c d : FaceCounters) : FaceCounters :=
  mkCounters (wrap 64 (in_interests c + in_interests d)) (wrap 64 (in_data c + in_data d))
    (wrap 64 (out_interests c + out_interests d)) (wrap 64 (out_data c + out_data d)) (wrap 64 (in_bytes c + in_bytes d))
    (wrap 64 (in_satisfied_interests c + in_satisfied_interests d)) (wrap 64 (out_nacks c + out_nacks d)).

Record FaceState : Type := mkFaceState {
  fs_local_fields : bool;
  fs_require_validation : bool;
  fs_counters : FaceCounters
}.

(** ** The dispatcher *)

Record State (S W : Type) : Type := mkState {
  st_shared : Shared; (* PIT, dead nonces, replay guard *)
  st_cs : S;
  st_reflexive : ReflexiveTable;
  st_tables : Tables; (* RIB and FIB *)
  st_validation : ValidationState;
  st_faces : gmap Z FaceState;
  st_marks : Counts; (* congestion feedback *)
  st_path_seq : SeqStore; (* the guard of the path-control handler *)
  st_plugins : W;
  st_delayed : list Delayed;
  st_out : list Egress
}.
Arguments mkState {S W}.
Arguments st_shared {S W}.
Arguments st_cs {S W}.
Arguments st_reflexive {S W}.
Arguments st_tables {S W}.
Arguments st_validation {S W}.
Arguments st_faces {S W}.
Arguments st_marks {S W}.
Arguments st_path_seq {S W}.
Arguments st_plugins {S W}.
Arguments st_delayed {S W}.
Arguments st_out {S W}.

Record Env (W : Type) : Type := mkDispatchEnv {
  face_table : FaceTable;
  env_strategies : StrategyTable.StrategyTable (S := ErasedStrategy W);
  env_default_strategy : ErasedStrategy W;
  env_measurements : MeasurementsTable;
  env_signals : SignalView;
  env_regions : NetworkRegionTable;
  cs_insert_stage : CsInsertStage;
  unsolicited_policy : UnsolicitedDataPolicy;
  rate_limit : option (RateLimitHook W);
  name_classifier : option (option Name -> bool -> Z);
  discovery_on_inbound : bytes -> Z -> W -> bool * W;
  congestion_feedback : bool;
  traceroute_responder : option Name;
  data_validator : option Validator;
  cert_fetcher : bool;
  interest_validator : option (Interest -> InterestValidationOutcome);
  path_control : option (PathControlHandler W);
  name_activity : option (Name -> W -> W); (* [on_activity] *)
  unix_nanos : Z; (* the runtime's wall clock *)
  instant : Z; (* the runtime's monotonic clock, in nanoseconds *)
  cs_clock : Z; (* what the content store reads *)
  orders : Orders
}.
Arguments mkDispatchEnv {W}.
Arguments face_table {W}.
Arguments env_strategies {W}.
Arguments env_default_strategy {W}.
Arguments env_measurements {W}.
Arguments env_signals {W}.
Arguments env_regions {W}.
Arguments cs_insert_stage {W}.
Arguments unsolicited_policy {W}.
Arguments rate_limit {W}.
Arguments name_classifier {W}.
Arguments discovery_on_inbound {W}.
Arguments congestion_feedback {W}.
Arguments traceroute_responder {W}.
Arguments data_validator {W}.
Arguments cert_fetcher {W}.
Arguments interest_validator {W}.
Arguments path_control {W}.
Arguments name_activity {W}.
Arguments unix_nanos {W}.
Arguments instant {W}.
Arguments cs_clock {W}.
Arguments orders {W}.

Section setters.
Context {S W : Type} (st : State S W).
Definition set_shared (x : Shared) : State S W :=
  mkState x (st_cs st) (st_reflexive st) (st_tables st) (st_validation st) (st_faces st) (st_marks st) (st_path_seq st) (st_plugins st) (st_delayed st) (st_out st).
Definition set_cs (x : S) : State S W :=
  mkState (st_shared st) x (st_reflexive st) (st_tables st) (st_validation st) (st_faces st) (st_marks st) (st_path_seq st) (st_plugins st) (st_delayed st) (st_out st).
Definition set_reflexive (x : ReflexiveTable) : State S W :=
  mkState (st_shared st) (st_cs st) x (st_tables st) (st_validation st) (st_faces st) (st_marks st) (st_path_seq st) (st_plugins st) (st_delayed st) (st_out st).
Definition set_tables (x : Tables) : State S W :=
  mkState (st_shared st) (st_cs st) (st_reflexive st) x (st_validation st) (st_faces st) (st_marks st) (st_path_seq st) (st_plugins st) (st_delayed st) (st_out st).
Definition set_validation (x : ValidationState) : State S W :=
  mkState (st_shared st) (st_cs st) (st_reflexive st) (st_tables st) x (st_faces st) (st_marks st) (st_path_seq st) (st_plugins st) (st_delayed st) (st_out st).
Definition set_faces (x : gmap Z FaceState) : State S W :=
  mkState (st_shared st) (st_cs st) (st_reflexive st) (st_tables st) (st_validation st) x (st_marks st) (st_path_seq st) (st_plugins st) (st_delayed st) (st_out st).
Definition set_marks (x : Counts) : State S W :=
  mkState (st_shared st) (st_cs st) (st_reflexive st) (st_tables st) (st_validation st) (st_faces st) x (st_path_seq st) (st_plugins st) (st_delayed st) (st_out st).
Definition set_plugins (x : W) : State S W :=
  mkState (st_shared st) (st_cs st) (st_reflexive st) (st_tables st) (st_validation st) (st_faces st) (st_marks st) (st_path_seq st) x (st_delayed st) (st_out st).
Definition set_path_seq (x : SeqStore) : State S W :=
  mkState (st_shared st) (st_cs st) (st_reflexive st) (st_tables st) (st_validation st) (st_faces st) (st_marks st) x (st_plugins st) (st_delayed st) (st_out st).
Definition set_delayed (x : list Delayed) : State S W :=
  mkState (st_shared st) (st_cs st) (st_reflexive st) (st_tables st) (st_validation st) (st_faces st) (st_marks st) (st_path_seq st) (st_plugins st) x (st_out st).
Definition push_out (x : Egress) : State S W :=
  mkState (st_shared st) (st_cs st) (st_reflexive st) (st_tables st) (st_validation st) (st_faces st) (st_marks st) (st_path_seq st) (st_plugins st) (st_delayed st)
    (st_out st ++ [x]).
End setters.

Module Dispatcher.
Section dispatcher.
Context {S W : Type} `{ContentStore S} `{Hasher}.
Context (sort_keys : list (Z * list Z) -> list (Z * list Z)).
Context (sort_nonces : list (Z * NonceFingerprint) -> list (Z * NonceFingerprint)).
Context (sha256 : bytes -> bytes).
Context (env : Env W).

(** *** [outbound.rs] *)

Definition local_fields_enabled (f : Z) (st : State S W) : bool :=
  match st_faces st !! f with Some s => fs_local_fields s | None => false end.

Definition face_link_type (f : Z) : LinkType :=
  match FaceTable.get f (face_table env) with Some face => link_type face | None => PointToPoint end.
Definition nacks_allowed_on_face (f : Z) : bool := bool_decide (face_link_type f = PointToPoint).

Definition classify (name : option Name) (is_interest : bool) : Z :=
  match name_classifier env with Some c => c name is_interest | None => 0 end.

Definition enqueue_send_with_source (f : Z) (payload : bytes) (source : Z) (intent : EgressIntent) (class : Z)
    (st : State S W) : State S W :=
  match st_faces st !! f with
  | Some _ => push_out st (mkEgress f payload source intent class)
  | None => st
  end.
Definition enqueue_send (f : Z) (payload : bytes) (intent : EgressIntent) (st : State S W) : State S W :=
  enqueue_send_with_source f payload INVALID intent 0 st.

(** [if let Some(state) = self.face_states.get(..) { state.counters.. }]. *)
Definition bump (f : Z) (d : FaceCounters) (st : State S W) : State S W :=
  match st_faces st !! f with
  | Some s => set_faces st (<[f := mkFaceState (fs_local_fields s) (fs_require_validation s)
                                     (add_counters (fs_counters s) d)]> (st_faces st))
  | None => st
  end.

Definition check_rate_limit_outbound (f : Z) (name : option Name) (is_interest : bool) (wire_bytes : Z)
    (st : State S W) : bool * State S W :=
  match rate_limit env, name with
  | Some hook, Some name =>
      let '(d, w) := check_outbound hook f name (if is_interest then KInterest else KData) wire_bytes (st_plugins st) in
      (match d with RPermit => true | _ => false end, set_plugins st w)
  | _, _ => (true, st)
  end.

Definition is_localhost_ctx (ctx : PacketContext) : bool :=
  match ctx_name ctx with Some n => is_localhost_name n | None => false end.
Definition blocked_scope (localhost : bool) (f : Z) : bool :=
  localhost && match FaceTable.get f (face_table env) with Some face => bool_decide (scope face = NonLocal) | None => false end.
Definition uses_lp (f : Z) : bool :=
  match FaceTable.get f (face_table env) with Some face => FaceKind.uses_lp_framing (f_kind face) | None => false end.

(** One turn of the loop over the faces of [Action::Send]. *)
Definition send_to (ctx : PacketContext) (st : State S W) (f : Z) : State S W :=
  if blocked_scope (is_localhost_ctx ctx) f then st
  else
    let '(ok, st) := check_rate_limit_outbound f (ctx_name ctx) true (zlen (raw_bytes ctx)) st in
    if negb ok then st
    else
      let incoming_face_id := if uses_lp f && local_fields_enabled f st then Some (PitStage.face_id ctx) else None in
      let intent := mkIntent (mkHeaders None None incoming_face_id None None) None in
      let st := bump f (mkCounters 0 0 1 0 0 0 0) st in
      enqueue_send_with_source f (raw_bytes ctx) (PitStage.face_id ctx) intent (classify (ctx_name ctx) true) st.

(** One turn of the loop of [satisfy]. *)
Definition satisfy_to (ctx : PacketContext) (data_bytes : bytes) (st : State S W) (it : nat * Z) : State S W :=
  let '(i, f) := it in
  let ad_hoc := match FaceTable.get f (face_table env) with Some face => bool_decide (link_type face = AdHoc) | None => false end in
  if negb (cs_hit ctx) && (f =? PitStage.face_id ctx) && negb ad_hoc then st
  else if blocked_scope (is_localhost_ctx ctx) f then st
  else
    let '(ok, st) := check_rate_limit_outbound f (ctx_name ctx) false (zlen data_bytes) st in
    if negb ok then st
    else
      let incoming_face_id := if uses_lp f && local_fields_enabled f st
        then Some (if cs_hit ctx then CONTENT_STORE else PitStage.face_id ctx) else None in
      let intent := mkIntent (mkHeaders (mjoin (out_pit_tokens ctx !! i)) None incoming_face_id None None) None in
      let st := bump f (mkCounters 0 0 0 1 0 1 0) st in
      enqueue_send_with_source f data_bytes INVALID intent (classify (ctx_name ctx) false) st.

Definition satisfy (ctx : PacketContext) (entry : option CsEntry) (st : State S W) : State S W :=
  let data_bytes := if cs_hit ctx then match entry with Some e => data e | None => raw_bytes ctx end else raw_bytes ctx in
  fold_left (satisfy_to ctx data_bytes) (zip (seq 0 (length (out_faces ctx))) (out_faces ctx)) st.

Definition packet_reason (r : NackReason) : nack.NackReason :=
  match r with
  | NoRoute => nack.NoRoute | Duplicate => nack.Duplicate | Congestion => nack.Congestion | NotYet => nack.NotYet
  end.

Definition dispatch_action (action : Action) (entry : option CsEntry) (st : State S W) : State S W :=
  match action with
  | Send ctx faces => fold_left (send_to ctx) faces st
  | Satisfy ctx => satisfy ctx entry st
  | Drop _ => st
  | Nack ctx reason =>
      if negb (nacks_allowed_on_face (PitStage.face_id ctx)) then st
      else
        let intent := mkIntent (mkHeaders (ctx_lp_pit_token ctx) None None None None) (Some (packet_reason reason)) in
        let st := bump (PitStage.face_id ctx) (mkCounters 0 0 0 0 0 0 1) st in
        enqueue_send (PitStage.face_id ctx) (raw_bytes ctx) intent st
  | Continue _ => st
  end.

(** *** [pipeline.rs] *)

Definition stage (st : State S W) : StrategyStage W :=
  mkStrategyStage (env_strategies env) (env_default_strategy env) (t_fib (st_tables st)) (env_measurements env)
    (env_signals env) (face_table env) (env_regions env).
Definition st_pit (st : State S W) : Pit := pit (st_shared st).
Definition set_st_pit (st : State S W) (p : Pit) : State S W := set_shared st (set_pit (st_shared st) p).

Definition link_types : gmap Z LinkType := link_type <$> faces (face_table env).

(** Install the reverse route an Interest asks for. *)
Definition install_reflexive (ctx : PacketContext) (st : State S W) : State S W :=
  match packet ctx with
  | PktInterest i =>
      match Interest.reflexive_name i with
      | Some rname =>
          let lifetime := default 4000 (Interest.lifetime i) in
          set_reflexive st (ReflexiveTable.install (st_reflexive st) rname (PitStage.face_id ctx)
                              (lifetime * 1000000) (arrival ctx)).2
      | None => st
      end
  | _ => st
  end.

Definition reverse_face (ctx : PacketContext) (st : State S W) : option Z * State S W :=
  if ReflexiveTable.is_empty (st_reflexive st) then (None, st)
  else
    match ctx_name ctx with
    | Some n => let '(f, r) := ReflexiveTable.lookup (st_reflexive st) n (arrival ctx) in (f, set_reflexive st r)
    | None => (None, st)
    end.

(** After the content store has been asked in vain. *)
Definition route_interest (ctx : PacketContext) (tags : Tags) (st : State S W) : option (State S W) :=
  let st := install_reflexive ctx st in
  match reverse_face ctx st with
  | (Some rev_face, st) => Some (dispatch_action (Send ctx [rev_face]) None st)
  | (None, st) =>
      let! (a, ds, p, w) := StrategyStage.process (stage st) (unix_nanos env) ctx tags (st_pit st) (st_plugins st) in
      let st := set_plugins (set_st_pit st p) w in
      let st := set_delayed st (st_delayed st ++ ds) in
      Some (dispatch_action a None st)
  end.

(** The path-control fast path: the handler and the message, if both are there. *)
Definition path_message (ctx : PacketContext) : option (PathControlHandler W * Interest * PathControl) :=
  match path_control env, packet ctx with
  | Some handler, PktInterest i => (fun pc => (handler, i, pc)) <$> PathControl.parse (i_name i)
  | _, _ => None
  end.
Definition set_st_fib (st : State S W) (f : EngineFib.Fib) : State S W :=
  set_tables st (mkTables (t_rib (st_tables st)) f (t_dest (st_tables st))).
Definition walk_path (handler : PathControlHandler W) (i : Interest) (pc : PathControl) (ctx : PacketContext) (st : State S W)
    : State S W :=
  let '(faces, fib, seen, w) :=
    PathControlHandler.decide handler pc i (PitStage.face_id ctx) (t_fib (st_tables st)) (st_path_seq st) (st_plugins st) in
  let st := set_plugins (set_path_seq (set_st_fib st fib) seen) w in
  match faces with
  | Some faces => fold_left (fun st f => enqueue_send f (raw_bytes ctx) EgressIntent_default st) faces st
  | None => st
  end.

Definition note_activity (ctx : PacketContext) (st : State S W) : State S W :=
  match name_activity env, packet ctx with
  | Some obs, PktInterest i => set_plugins st (obs (i_name i) (st_plugins st))
  | _, _ => st
  end.

(** From the PIT on. *)
Definition forward_interest (ctx : PacketContext) (tags : Tags) (st : State S W) : option (State S W) :=
  let '(a, sh) := PitCheckStage.process sort_keys link_types (interest_validator env) (st_shared st) ctx in
  let st := set_shared st sh in
  match a with
  | Continue ctx =>
      let '(a, entry, cs) := CsLookupStage.process (st_cs st) (cs_clock env) ctx in
      let st := set_cs st cs in
      match a with
      | Continue ctx => route_interest ctx tags st
      | Satisfy ctx =>
          let st := match pit_token ctx with
            | Some token => set_st_pit st (Pit.remove (st_pit st) token).2
            | None => st
            end in
          Some (satisfy ctx entry st)
      | Drop _ => Some st
      | other => Some (dispatch_action other entry st)
      end
  | Drop _ => Some st
  | other => Some (dispatch_action other None st)
  end.

Definition interest_pipeline (ctx : PacketContext) (tags : Tags) (st : State S W) : option (State S W) :=
  match path_message ctx with
  | Some (handler, i, pc) => Some (walk_path handler i pc ctx st)
  | None => forward_interest ctx tags (note_activity ctx st)
  end.

(** The Nack reason the strategy sees. *)
Definition strategy_reason (r : option nack.NackReason) : NackReason :=
  match default nack.NoRoute r with
  | nack.NoRoute => NoRoute
  | nack.Duplicate => Duplicate
  | nack.Congestion => Congestion
  | nack.NotYet => NotYet
  | nack.Other _ => NoRoute
  end.

(** The failover to one more upstream: its out-record, its counter, its packet. *)
Definition failover_to (token : PitToken) (interest : Interest) (name : Name) (now : Z) (st : State S W) (f : Z) : State S W :=
  let st := match Interest.nonce interest with
    | Some nonce => set_st_pit st (Pit.with_entry_mut (st_pit st) token (fun e => (tt, PitEntry.add_out_record e f nonce now))).2
    | None => st
    end in
  let st := bump f (mkCounters 0 0 1 0 0 0 0) st in
  enqueue_send_with_source f (i_raw interest) INVALID EgressIntent_default (classify (Some name) true) st.

(** The Nack passed on to one downstream. *)
Definition nack_to (interest : Interest) (reason : nack.NackReason) (st : State S W) (f : Z) : State S W :=
  if negb (nacks_allowed_on_face f) then st
  else
    let st := bump f (mkCounters 0 0 0 0 0 0 1) st in
    enqueue_send f (i_raw interest) (mkIntent no_headers (Some reason)) st.

Definition nack_context (name : Name) (f : Z) (token : PitToken) (st : State S W) : StrategyContext :=
  let '(tried, suppressed, entry_suppressed) := StrategyStage.entry_state (st_pit st) (Some token) (unix_nanos env) in
  mkStrategyContext name f (EngineFib.lpm (t_fib (st_tables st)) name) (Some token) tried suppressed entry_suppressed
    (env_measurements env) (env_signals env) None None.

Definition nack_pipeline (ctx : PacketContext) (st : State S W) : State S W :=
  match packet ctx with
  | PktNack n =>
      if negb (nacks_allowed_on_face (PitStage.face_id ctx)) then st
      else
        match ctx_name ctx with
        | None => st
        | Some name =>
            let interest := nack.interest n in
            let token := PitToken.from_interest (i_name interest) in
            if negb (Pit.contains (st_pit st) token) then st
            else
              let sctx := nack_context name (PitStage.face_id ctx) token st in
              let strategy := default (env_default_strategy env) (StrategyTable.lpm (env_strategies env) name) in
              let '(action, w) := on_nack_erased strategy sctx (strategy_reason (nack.reason n)) (st_plugins st) in
              let st := set_plugins st w in
              match action with
              | Forward faces => fold_left (failover_to token interest name (arrival ctx)) faces st
              | FNack _ =>
                  match Pit.remove (st_pit st) token with
                  | (Some entry, p) =>
                      fold_left (nack_to interest (default nack.NoRoute (nack.reason n))) (PitEntry.in_record_faces entry)
                        (set_st_pit st p)
                  | (None, p) => set_st_pit st p
                  end
              | Suppress | ForwardAfter _ _ | Broadcast => st
              end
        end
  | _ => st
  end.

(** A route from a validated prefix announcement, under the self-learning strategy
    only. *)
Definition try_self_learn (ctx : PacketContext) (tags : Tags) (st : State S W) : State S W :=
  match tag_prefix_announcement tags with
  | None => st
  | Some raw =>
      match PrefixAnnouncement.decode raw with
      | Err _ => st
      | Ok pa =>
          let is_self_learning := match StrategyTable.lpm (env_strategies env) (announced_prefix pa) with
            | Some s => existsb (fun c => bool_decide (value c = str "self-learning")) (es_name s)
            | None => false
            end in
          if negb is_self_learning then st
          else
            match data_validator env with
            | None => st
            | Some v =>
                match validate v (pa_data pa) with
                | RValid =>
                    let expires_at := (fun ms => instant env + ms * 1000000) <$> expiration pa in
                    set_tables st (Engine.install_announced (orders env) (st_tables st) (announced_prefix pa)
                                     (PitStage.face_id ctx) expires_at)
                | _ => st
                end
            end
      end
  end.

(** Admission to the content store and delivery, which end the Data pipeline. *)
Definition admit_and_deliver (ctx : PacketContext) (tags : Tags) (st : State S W) : State S W :=
  let '(a, cs) := CsInsertStage.process (cs_insert_stage env) ctx tags (st_cs st) in
  dispatch_action a None (set_cs st cs).

(** Local faces are trusted, unless the face asks for validation. *)
Definition is_local (f : Z) : bool :=
  match FaceTable.get f (face_table env) with Some face => bool_decide (scope face = Local) | None => false end.
Definition require_local_validation (f : Z) (st : State S W) : bool :=
  is_local f && match st_faces st !! f with Some s => fs_require_validation s | None => false end.

(** What validation makes of the packet: [inl] goes on, [inr] ends the pipeline. *)
Definition validate_data (ctx : PacketContext) (tags : Tags) (st : State S W) : option (PacketContext * State S W + State S W) :=
  let f := PitStage.face_id ctx in
  if is_local f && negb (require_local_validation f st) then Some (inl (set_verified ctx true, st))
  else if require_local_validation f st && negb (PitEntry.is_some (data_validator env)) then Some (inr st)
  else
    let! (a, v) := ValidationStage.process (data_validator env) (cert_fetcher env) (instant env) ctx tags (st_validation st) in
    let st := set_validation st v in
    match a with
    | Satisfy ctx => Some (inl (ctx, st))
    | Drop _ => Some (inr st)
    | other => Some (inr (dispatch_action other None st))
    end.

Definition data_pipeline (ctx : PacketContext) (tags : Tags) (st : State S W) : option (State S W) :=
  let st := if congestion_feedback env && PitEntry.is_some (tag_congestion_mark tags)
    then set_marks st (observe (st_marks st) (PitStage.face_id ctx)) else st in
  let! (a, _, sh) := PitMatchStage.process sort_nonces (st_shared st) ctx in
  let st := set_shared st sh in
  match a with
  | Continue ctx =>
      let scope := default NonLocal (scope_of (face_table env) (PitStage.face_id ctx)) in
      if unsolicited ctx && negb (admits (unsolicited_policy env) scope) then Some st
      else
        let! r := validate_data ctx tags st in
        match r with
        | inr st => Some st
        | inl (ctx, st) =>
            let st := if unsolicited ctx then st else try_self_learn ctx tags st in
            Some (admit_and_deliver ctx tags st)
        end
  | Drop _ => Some st
  | other => Some (dispatch_action other None st)
  end.

(** The inbound rate limit: [inr] is the action that ends the packet. *)
Definition check_rate_limit_inbound (ctx : PacketContext) (st : State S W) : (PacketContext + Action) * State S W :=
  match rate_limit env, ctx_name ctx with
  | Some hook, Some name =>
      match packet ctx with
      | PktInterest _ =>
          let '(d, w) := check_inbound hook (PitStage.face_id ctx) name KInterest (zlen (raw_bytes ctx)) (st_plugins st) in
          (match d with RPermit => inl ctx | RDrop => inr (Drop RateLimited) | RNack => inr (Nack ctx Congestion) end,
           set_plugins st w)
      | PktData _ =>
          let '(d, w) := check_inbound hook (PitStage.face_id ctx) name KData (zlen (raw_bytes ctx)) (st_plugins st) in
          (match d with RPermit => inl ctx | _ => inr (Drop RateLimited) end, set_plugins st w)
      | _ => (inl ctx, st)
      end
  | _, _ => (inl ctx, st)
  end.

Definition forward_decoded (ctx : PacketContext) (tags : Tags) (st : State S W) : option (State S W) :=
  let '(consumed, w) := discovery_on_inbound env (raw_bytes ctx) (PitStage.face_id ctx) (st_plugins st) in
  let st := set_plugins st w in
  if consumed then Some st
  else
    match packet ctx with
    | PktInterest _ | PktData _ =>
        let is_interest := match packet ctx with PktInterest _ => true | _ => false end in
        let st := bump (PitStage.face_id ctx)
          (mkCounters (if is_interest then 1 else 0) (if is_interest then 0 else 1) 0 0 (zlen (raw_bytes ctx)) 0 0) st in
        match check_rate_limit_inbound ctx st with
        | (inr action, st) => Some (dispatch_action action None st)
        | (inl ctx, st) => if is_interest then interest_pipeline ctx tags st else data_pipeline ctx tags st
        end
    | PktNack _ => Some (nack_pipeline ctx st)
    | PktRaw => Some st
    end.

(** What becomes of a packet the decode stage has finished with; the original bytes
    serve the traceroute responder. *)
Definition after_decode (raw : bytes) (f : Z) (a : DecodeAction) (st : State S W) : option (State S W) :=
  match a with
  | DContinue ctx tags => forward_decoded ctx tags st
  | DDrop HopLimitExceeded =>
      match traceroute_responder env, Interest.decode raw with
      | Some node_name, Ok interest =>
          if is_trace_probe (i_name interest)
          then let! reply := identity_reply sha256 (i_name interest) node_name in
               Some (enqueue_send f reply EgressIntent_default st)
          else Some st
      | _, _ => Some st
      end
  | DDrop _ => Some st
  end.

(** One tick of [run_validation_drain]. *)
Fixpoint deliver_drained (l : list (Action * option Tags)) (st : State S W) : State S W :=
  match l with
  | [] => st
  | (Satisfy ctx, tags) :: l => deliver_drained l (admit_and_deliver ctx (default no_tags tags) st)
  | (other, _) :: l => deliver_drained l (dispatch_action other None st)
  end.
Definition drain_tick (st : State S W) : State S W :=
  let '(actions, v) := ValidationStage.drain_pending (data_validator env) (instant env) (st_validation st) in
  deliver_drained actions (set_validation st v).

(** *** A packet as it comes from a face *)

Context (iter : group_map -> list ((Z * Z) * Reassembly.Pending)).

Definition process_packet (denv : DecodeStage.Env) (now : Z) (raw : bytes) (f arrival ep : Z) (st : State S W) (ds : DecodeState)
    : option (State S W * DecodeState) :=
  match TlvDecodeStage.decode_resolved sha256 iter denv now raw f arrival ep ds with
  | Ok (a, ds) => let! st := after_decode raw f a st in Some (st, ds)
  | Err _ => None
  end.

(** One packet of the batch [run_pipeline] works through in order. *)
Definition run_pipeline (denv : DecodeStage.Env) (now : Z) (raw : bytes) (f arrival ep : Z) (st : State S W) (ds : DecodeState)
    : option (State S W * DecodeState) :=
  match TlvDecodeStage.try_collect_fragment iter now f ep raw ds with
  | Ok (TlvDecodeStage.Buffered, ds) => Some (st, ds)
  | Ok (TlvDecodeStage.Complete raw, ds) | Ok (TlvDecodeStage.NotFragment raw, ds) =>
      process_packet denv now raw f arrival ep st ds
  | Err _ => None
  end.

End dispatcher.
End Dispatcher.

(** ** What executing an action changes *)

Section frame.
Context {S W : Type} `{ContentStore S} `{Hasher}.
Implicit Types st : State S W.

(** Everything but the counters, the plug-ins' state and the packets sent. *)
Record same_tables st st' : Prop := {
  sm_shared : st_shared st' = st_shared st;
  sm_cs : st_cs st' = st_cs st;
  sm_reflexive : st_reflexive st' = st_reflexive st;
  sm_tables : st_tables st' = st_tables st;
  sm_validation : st_validation st' = st_validation st;
  sm_marks : st_marks st' = st_marks st;
  sm_delayed : st_delayed st' = st_delayed st
}.
#[global] Instance same_tables_preorder : PreOrder same_tables.
Proof.
  split; [by split|]. intros a b c [H1 H2 H3 H4 H5 H6 H7] [K1 K2 K3 K4 K5 K6 K7].
  split; [by rewrite K1|by rewrite K2|by rewrite K3|by rewrite K4|by rewrite K5|by rewrite K6|by rewrite K7].
Qed.

(** More packets have been sent, all with the property [P]. *)
Definition sends (P : Egress -> Prop) st st' : Prop := exists new, st_out st' = st_out st ++ new /\ Forall P new.

Lemma sends_refl P st st' : st_out st' = st_out st -> sends P st st'.
Proof. exists []. by rewrite app_nil_r. Qed.
Lemma sends_trans P a b c : sends P a b -> sends P b c -> sends P a c.
Proof.
  intros (n1 & E1 & F1) (n2 & E2 & F2). exists (n1 ++ n2). rewrite E2, E1, app_assoc. split; [done|]. by apply Forall_app.
Qed.
Lemma sends_mono (P Q : Egress -> Prop) st st' : (forall x, P x -> Q x) -> sends P st st' -> sends Q st st'.
Proof. intros HPQ (n & E & F). exists n. split; [done|]. eapply Forall_impl; eauto. Qed.
Lemma sends_from P st st1 st' : st_out st1 = st_out st -> sends P st1 st' -> sends P st st'.
Proof. intros E (n & E' & F). exists n. by rewrite E', E. Qed.

Context (env : Env W).

Lemma bump_tables f d st : same_tables st (Dispatcher.bump f d st).
Proof. unfold Dispatcher.bump. by destruct (st_faces st !! f). Qed.
Lemma bump_out f d st : st_out (Dispatcher.bump f d st) = st_out st.
Proof. unfold Dispatcher.bump. by destruct (st_faces st !! f). Qed.
Lemma bump_faces f d st g : is_Some (st_faces (Dispatcher.bump f d st) !! g) <-> is_Some (st_faces st !! g).
Proof.
  unfold Dispatcher.bump. destruct (st_faces st !! f) eqn:E; [|done]. cbn [st_faces set_faces].
  destruct (decide (f = g)) as [->|]; [rewrite lookup_insert_eq, E|by rewrite lookup_insert_ne]. by split; eexists.
Qed.

Lemma enqueue_tables f p s i c st : same_tables st (Dispatcher.enqueue_send_with_source f p s i c st).
Proof. unfold Dispatcher.enqueue_send_with_source. by destruct (st_faces st !! f). Qed.
Lemma enqueue_sends f p s i c st :
  sends (fun x => x = mkEgress f p s i c) st (Dispatcher.enqueue_send_with_source f p s i c st).
Proof.
  unfold Dispatcher.enqueue_send_with_source. destruct (st_faces st !! f); [|by apply sends_refl].
  exists [mkEgress f p s i c]. split; [done|]. by repeat constructor.
Qed.

Lemma rate_tables f n b z st : same_tables st (Dispatcher.check_rate_limit_outbound env f n b z st).2.
Proof.
  unfold Dispatcher.check_rate_limit_outbound. destruct (rate_limit env), n; try done. by destruct (check_outbound _ _ _ _ _ _).
Qed.
Lemma rate_out f n b z st : st_out (Dispatcher.check_rate_limit_outbound env f n b z st).2 = st_out st.
Proof.
  unfold Dispatcher.check_rate_limit_outbound. destruct (rate_limit env), n; try done. by destruct (check_outbound _ _ _ _ _ _).
Qed.

(** The bump and the enqueueing that end every successful turn. *)
Lemma bump_enqueue f d g p s i c st :
  let st' := Dispatcher.enqueue_send_with_source g p s i c (Dispatcher.bump f d st) in
  same_tables st st' /\ sends (fun x => x = mkEgress g p s i c) st st'.
Proof.
  split; [etransitivity; [apply bump_tables|apply enqueue_tables]|].
  eapply sends_from; [apply bump_out|apply enqueue_sends].
Qed.

(** An Interest on its way out: on an allowed face, unchanged, and no Nack. *)
Definition interest_out (ctx : PacketContext) (fs : list Z) (x : Egress) : Prop :=
  eg_face x ∈ fs /\ eg_payload x = raw_bytes ctx /\ eg_source x = PitStage.face_id ctx /\ nack_reason (eg_intent x) = None /\
  Dispatcher.blocked_scope env (Dispatcher.is_localhost_ctx ctx) (eg_face x) = false.

Lemma send_to_spec ctx st f :
  let st' := Dispatcher.send_to env ctx st f in same_tables st st' /\ sends (interest_out ctx [f]) st st'.
Proof.
  cbn zeta. unfold Dispatcher.send_to. destruct (Dispatcher.blocked_scope _ _ _) eqn:Hb; [split; [done|by apply sends_refl]|].
  pose proof (rate_tables f (ctx_name ctx) true (zlen (raw_bytes ctx)) st) as Ht.
  pose proof (rate_out f (ctx_name ctx) true (zlen (raw_bytes ctx)) st) as Ho.
  destruct (Dispatcher.check_rate_limit_outbound _ _ _ _ _ _) as [ok st1]. cbn [snd] in *.
  destruct ok; cbn [negb]; [|split; [done|by apply sends_refl]].
  cbn zeta. match goal with |- context [Dispatcher.enqueue_send_with_source ?g ?p ?s ?i ?c (Dispatcher.bump ?f0 ?d st1)] =>
    destruct (bump_enqueue f0 d g p s i c st1) as [H1 H2] end.
  split; [by transitivity st1|]. eapply sends_from; [exact Ho|]. eapply sends_mono; [|exact H2]. intros x ->.
  unfold interest_out. cbn [eg_face]. split_conj; [apply list_elem_of_here|done..].
Qed.

(** Data on its way out: on one of the out faces and not blocked. *)
Definition data_out (ctx : PacketContext) (payload : bytes) (fs : list (nat * Z)) (x : Egress) : Prop :=
  (exists i, (i, eg_face x) ∈ fs /\ hd_pit_token (headers (eg_intent x)) = mjoin (out_pit_tokens ctx !! i)) /\
  eg_payload x = payload /\ nack_reason (eg_intent x) = None /\
  Dispatcher.blocked_scope env (Dispatcher.is_localhost_ctx ctx) (eg_face x) = false.

Lemma satisfy_to_spec ctx payload st it :
  let st' := Dispatcher.satisfy_to env ctx payload st it in same_tables st st' /\ sends (data_out ctx payload [it]) st st'.
Proof.
  cbn zeta. unfold Dispatcher.satisfy_to. destruct it as [i f]. destruct (_ && _ && _); [split; [done|by apply sends_refl]|].
  destruct (Dispatcher.blocked_scope _ _ _) eqn:Hb; [split; [done|by apply sends_refl]|].
  pose proof (rate_tables f (ctx_name ctx) false (zlen payload) st) as Ht.
  pose proof (rate_out f (ctx_name ctx) false (zlen payload) st) as Ho.
  destruct (Dispatcher.check_rate_limit_outbound _ _ _ _ _ _) as [ok st1]. cbn [snd] in *.
  destruct ok; cbn [negb]; [|split; [done|by apply sends_refl]].
  cbn zeta. match goal with |- context [Dispatcher.enqueue_send_with_source ?g ?p ?s ?i ?c (Dispatcher.bump ?f0 ?d st1)] =>
    destruct (bump_enqueue f0 d g p s i c st1) as [H1 H2] end.
  split; [by transitivity st1|]. eapply sends_from; [exact Ho|]. eapply sends_mono; [|exact H2]. intros x ->.
  unfold data_out. cbn [eg_face]. split_conj; [|done..]. exists i. split; [apply list_elem_of_here|done].
Qed.

(** Folding a loop body that keeps the tables and sends what [P] allows. *)
Lemma fold_sends {A} (body : State S W -> A -> State S W) (P : list A -> Egress -> Prop) l st :
  (forall st a, same_tables st (body st a) /\ sends (P [a]) st (body st a)) ->
  (forall l l' x, (forall a, a ∈ l -> a ∈ l') -> P l x -> P l' x) ->
  same_tables st (fold_left body l st) /\ sends (P l) st (fold_left body l st).
Proof.
  intros Hb Hm. revert st. induction l as [|a l IH]; intros st; cbn [fold_left]; [split; [done|by apply sends_refl]|].
  destruct (Hb st a) as [B1 B2]. destruct (IH (body st a)) as [I1 I2]. split; [by etransitivity|].
  eapply sends_trans.
  - eapply sends_mono; [|exact B2]. intros x. apply Hm. intros b ->%list_elem_of_singleton. apply list_elem_of_here.
  - eapply sends_mono; [|exact I2]. intros x. apply Hm. intros b Hb'. by apply list_elem_of_further.
Qed.

Lemma send_spec ctx fs st :
  let st' := Dispatcher.dispatch_action env (Send ctx fs) None st in
  same_tables st st' /\ sends (interest_out ctx fs) st st'.
Proof.
  apply (fold_sends (Dispatcher.send_to env ctx) (interest_out ctx)); [intros; apply send_to_spec|].
  intros l l' x Hsub (H1 & Hr). split; [by apply Hsub|done].
Qed.

Definition out_items (ctx : PacketContext) : list (nat * Z) := zip (seq 0 (length (out_faces ctx))) (out_faces ctx).
Definition satisfied_bytes (ctx : PacketContext) (entry : option CsEntry) : bytes :=
  if cs_hit ctx then match entry with Some e => data e | None => raw_bytes ctx end else raw_bytes ctx.

Lemma satisfy_spec ctx entry st :
  let st' := Dispatcher.satisfy env ctx entry st in
  same_tables st st' /\ sends (data_out ctx (satisfied_bytes ctx entry) (out_items ctx)) st st'.
Proof.
  apply (fold_sends (Dispatcher.satisfy_to env ctx (satisfied_bytes ctx entry)) (data_out ctx (satisfied_bytes ctx entry)));
    [intros; apply satisfy_to_spec|].
  intros l l' x Hsub ((i & H1 & H2) & Hr). split; [|done]. exists i. split; [by apply Hsub|done].
Qed.

(** A Nack goes back to where the Interest came from. *)
Definition nack_out (ctx : PacketContext) (x : Egress) : Prop :=
  eg_face x = PitStage.face_id ctx /\ eg_payload x = raw_bytes ctx /\ is_Some (nack_reason (eg_intent x)) /\
  hd_pit_token (headers (eg_intent x)) = ctx_lp_pit_token ctx.

(** What an action may send. *)
Definition action_out (a : Action) (entry : option CsEntry) (x : Egress) : Prop :=
  match a with
  | Send ctx fs => interest_out ctx fs x
  | Satisfy ctx => data_out ctx (satisfied_bytes ctx entry) (out_items ctx) x
  | Nack ctx _ => nack_out ctx x
  | _ => False
  end.

Lemma dispatch_spec a entry st :
  let st' := Dispatcher.dispatch_action env a entry st in
  same_tables st st' /\ sends (action_out a entry) st st'.
Proof.
  destruct a as [ctx|ctx fs|ctx|r|ctx r]; cbn [action_out].
  - split; [done|by apply sends_refl].
  - apply send_spec.
  - apply satisfy_spec.
  - split; [done|by apply sends_refl].
  - cbn [Dispatcher.dispatch_action]. destruct (negb _); [split; [done|by apply sends_refl]|]. unfold Dispatcher.enqueue_send.
    cbn zeta. match goal with |- context [Dispatcher.enqueue_send_with_source ?g ?p ?s ?i ?c (Dispatcher.bump ?f0 ?d st)] =>
      destruct (bump_enqueue f0 d g p s i c st) as [H1 H2] end.
    split; [done|]. eapply sends_mono; [|exact H2]. intros x ->. unfold nack_out. by split_conj.
Qed.
End frame.

(** ** The packet an action carries *)

(** The stages change the bookkeeping of a context, not the packet in it. *)
Record same_packet (c c' : PacketContext) : Prop := {
  sp_raw : raw_bytes c' = raw_bytes c;
  sp_face : PitStage.face_id c' = PitStage.face_id c;
  sp_name : ctx_name c' = ctx_name c;
  sp_packet : packet c' = packet c;
  sp_arrival : arrival c' = arrival c;
  sp_lp_token : ctx_lp_pit_token c' = ctx_lp_pit_token c
}.
#[global] Instance same_packet_preorder : PreOrder same_packet.
Proof.
  split; [by split|]. intros a b c [H1 H2 H3 H4 H5 H6] [K1 K2 K3 K4 K5 K6].
  split; [by rewrite K1|by rewrite K2|by rewrite K3|by rewrite K4|by rewrite K5|by rewrite K6].
Qed.

Definition carries (c : PacketContext) (a : Action) : Prop :=
  match a with
  | Continue c' | Send c' _ | Satisfy c' | Nack c' _ => same_packet c c'
  | Drop _ => True
  end.

Section stages.
Context {S W : Type} `{ContentStore S} `{Hasher}.

Lemma check_persistent_err v sh ctx a sh' :
  PitCheckStage.check_persistent v sh ctx = (Err a, sh') -> exists r, a = Drop r.
Proof.
  unfold PitCheckStage.check_persistent. intros E.
  repeat (case_match; simplify_eq; try by eexists).
Qed.

Lemma pit_check_cases sort_keys lt v sh ctx i a sh' :
  packet ctx = PktInterest i -> PitCheckStage.process sort_keys lt v sh ctx = (a, sh') ->
  (exists r, a = Drop r) \/ exists tok, a = Continue (set_pit_token ctx (Some tok)).
Proof.
  intros Hp. unfold PitCheckStage.process. rewrite Hp.
  destruct (PitCheckStage.check_replay sort_keys sh i) as [[|] sh1]; [intros [= <- _]; left; by eexists|].
  destruct (PitCheckStage.check_persistent v sh1 ctx) as [[per|e] sh2] eqn:Hc.
  - cbn zeta. destruct (match dead_nonce_list sh2 with Some _ => _ | None => _ end); [intros [= <- _]; left; by eexists|].
    destruct (Pit.with_entry_or_insert _ _ _ _) as [res p].
    destruct res; intros [= <- _]; [left; by eexists|left; by eexists|right; by eexists|right; by eexists].
  - apply check_persistent_err in Hc as [r ->]. intros [= <- _]. left. by eexists.
Qed.

Definition not_satisfy (a : Action) : Prop := match a with Satisfy _ => False | _ => True end.

Lemma strategy_carries (self : StrategyStage W) now ctx tags p w a ds p' w' :
  StrategyStage.process self now ctx tags p w = Some (a, ds, p', w') -> carries ctx a /\ not_satisfy a.
Proof.
  unfold StrategyStage.process. destruct (packet ctx) eqn:Hp; try (by intros [= <- _ _ _]).
  destruct (ctx_name ctx) as [name|]; [|by intros [= <- _ _ _]].
  destruct (next_hop_override _ _); [|by intros [= <- _ _ _]..].
  destruct (StrategyStage.decide_actions _ _ _ _) as [[acts|] w1]; [|done].
  unfold StrategyStage.perform. destruct (StrategyStage.expand self ctx (head acts)) as [[fs|fs d|r| |]|];
    try (by intros [= <- _ _ _]).
  pose proof (forward_spec self ctx name fs p) as Hf. destruct (StrategyStage.forward self ctx name fs p) as [act p1].
  intros [= <- _ _ _]. destruct act as [c|c l|c|r|c r]; cbn [carries]; [done| |done|done|].
  - destruct Hf as (new & _ & _ & -> & _). done.
  - destruct Hf as (-> & _). done.
Qed.

(** The Interest pipeline sends the Interest on, the answer of the cache back, or a
    Nack back; it sends nothing else. *)
Definition interest_egress (env : Env W) (ctx : PacketContext) (x : Egress) : Prop :=
  (eg_payload x = raw_bytes ctx /\ eg_source x = PitStage.face_id ctx /\ nack_reason (eg_intent x) = None /\
   Dispatcher.blocked_scope env (Dispatcher.is_localhost_ctx ctx) (eg_face x) = false) \/
  (eg_face x ∈ out_faces ctx ++ [PitStage.face_id ctx] /\ nack_reason (eg_intent x) = None /\
   Dispatcher.blocked_scope env (Dispatcher.is_localhost_ctx ctx) (eg_face x) = false) \/
  (eg_face x = PitStage.face_id ctx /\ eg_payload x = raw_bytes ctx /\ is_Some (nack_reason (eg_intent x))).

Lemma action_egress env ctx a x :
  carries ctx a -> not_satisfy a -> action_out env a None x -> interest_egress env ctx x.
Proof.
  unfold interest_egress. destruct a as [c|c fs|c|r|c r]; cbn [carries action_out]; intros Hc Hns Hx; try done.
  - destruct Hc as [E1 E2 E3 _ _ _]. destruct Hx as (_ & H1 & H2 & H3 & H4). left. unfold Dispatcher.is_localhost_ctx in *. rewrite E1, E2, E3 in *. done.
  - destruct Hc as [E1 E2 _ _ _ _]. destruct Hx as (H1 & H2 & H3 & _). right. right. rewrite E1, E2 in *. done.
Qed.

Lemma set_plugins_tables (st : State S W) w : same_tables st (set_plugins st w).
Proof. done. Qed.

Lemma install_reflexive_frame ctx (st : State S W) :
  let st' := Dispatcher.install_reflexive ctx st in
  st_out st' = st_out st /\ st_cs st' = st_cs st /\ st_tables st' = st_tables st /\ st_validation st' = st_validation st /\
  st_shared st' = st_shared st /\ st_plugins st' = st_plugins st /\ st_faces st' = st_faces st.
Proof. cbn zeta. unfold Dispatcher.install_reflexive. repeat case_match; done. Qed.
Lemma reverse_face_frame ctx (st : State S W) :
  let st' := (Dispatcher.reverse_face ctx st).2 in
  st_out st' = st_out st /\ st_cs st' = st_cs st /\ st_tables st' = st_tables st /\ st_validation st' = st_validation st /\
  st_shared st' = st_shared st /\ st_plugins st' = st_plugins st /\ st_faces st' = st_faces st.
Proof. cbn zeta. unfold Dispatcher.reverse_face. repeat case_match; try done; by simplify_eq. Qed.

(** What the Interest pipeline leaves alone after the content store. *)
Lemma route_interest_spec env ctx tags i (st st' : State S W) :
  packet ctx = PktInterest i -> Dispatcher.route_interest env ctx tags st = Some st' ->
  sends (interest_egress env ctx) st st' /\ st_cs st' = st_cs st /\ st_tables st' = st_tables st /\
  st_validation st' = st_validation st.
Proof.
  intros Hp. unfold Dispatcher.route_interest.
  destruct (install_reflexive_frame ctx st) as (A1 & A2 & A3 & A4 & _). set (st1 := Dispatcher.install_reflexive ctx st) in *.
  destruct (reverse_face_frame ctx st1) as (B1 & B2 & B3 & B4 & _).
  destruct (Dispatcher.reverse_face ctx st1) as [[f|] st2]; cbn [snd] in *.
  - intros E. assert (st' = Dispatcher.dispatch_action env (Send ctx [f]) None st2) as -> by congruence.
    destruct (dispatch_spec env (Send ctx [f]) None st2) as [[_ D2 _ D4 D5 _ _] D]. split_conj; try congruence.
    eapply sends_from; [exact (eq_trans B1 A1)|]. eapply sends_mono; [|exact D]. intros x Hx.
    apply (action_egress env ctx (Send ctx [f])); done.
  - destruct (StrategyStage.process _ _ _ _ _ _) as [[[[a ds] p] w]|] eqn:Hs; [|done]. intros [= <-].
    destruct (strategy_carries _ _ _ _ _ _ _ _ _ _ Hs) as [Hc Hns].
    match goal with |- context [Dispatcher.dispatch_action env a None ?s] => destruct (dispatch_spec env a None s) as [[_ D2 _ D4 D5 _ _] D] end.
    split_conj; [|exact (eq_trans D2 (eq_trans B2 A2))|exact (eq_trans D4 (eq_trans B3 A3))|exact (eq_trans D5 (eq_trans B4 A4))].
    eapply sends_from; [exact (eq_trans B1 A1)|]. eapply sends_mono; [|exact D]. intros x Hx. by apply (action_egress env ctx a).
Qed.

Lemma out_items_face ctx i f : (i, f) ∈ out_items ctx -> f ∈ out_faces ctx.
Proof. unfold out_items. intros H1. by apply elem_of_zip_r in H1. Qed.

Lemma forward_interest_spec sort_keys env ctx tags i (st st' : State S W) :
  packet ctx = PktInterest i -> Dispatcher.forward_interest sort_keys env ctx tags st = Some st' ->
  sends (interest_egress env ctx) st st' /\
  (st_cs st' = st_cs st \/ st_cs st' = (cs_get (st_cs st) (cs_clock env) i).2) /\
  st_tables st' = st_tables st /\ st_validation st' = st_validation st.
Proof.
  intros Hp. unfold Dispatcher.forward_interest.
  destruct (PitCheckStage.process _ _ _ _ _) as [a sh] eqn:Hc.
  destruct (pit_check_cases _ _ _ _ _ _ _ _ Hp Hc) as [[r ->]|[tok ->]].
  { intros [= <-]. split_conj; [by apply sends_refl|by left|done|done]. }
  set (ctx1 := set_pit_token ctx (Some tok)). unfold CsLookupStage.process. change (packet ctx1) with (packet ctx). rewrite Hp.
  cbn [st_cs set_shared]. destruct (cs_get (st_cs st) (cs_clock env) i) as [[entry|] cs] eqn:Hg; cbn [snd].
  - set (ctx2 := set_out _ _ _). intros E.
    match type of E with Some (Dispatcher.satisfy env ctx2 ?e ?s) = _ =>
      assert (st' = Dispatcher.satisfy env ctx2 e s) as -> by congruence; destruct (satisfy_spec env ctx2 e s) as [[_ D2 _ D4 D5 _ _] D] end.
    split_conj; [|right; exact D2|exact D4|exact D5].
    eapply sends_from; [|eapply sends_mono; [|exact D]]; [done|].
    intros x ((j & Hj & _) & _ & Hn & Hb). right. left. split_conj; [|done|done]. by apply out_items_face in Hj.
  - intros E. destruct (route_interest_spec env ctx1 tags i _ st' Hp E) as (R1 & R2 & R3 & R4).
    split_conj; [|right; exact R2|exact R3|exact R4]. exact R1.
Qed.

(** A path-control message goes out unchanged, whatever the scope of the faces. *)
Definition message_egress (ctx : PacketContext) (x : Egress) : Prop :=
  eg_payload x = raw_bytes ctx /\ eg_intent x = EgressIntent_default.

Lemma walk_path_spec handler i pc ctx (st : State S W) :
  let st' := Dispatcher.walk_path handler i pc ctx st in
  sends (message_egress ctx) st st' /\ st_cs st' = st_cs st /\ st_validation st' = st_validation st /\ st_delayed st' = st_delayed st.
Proof.
  cbn zeta. unfold Dispatcher.walk_path. destruct (PathControlHandler.decide _ _ _ _ _ _ _) as [[[[faces|] fib] seen] w].
  - match goal with |- context [fold_left ?b faces ?s] => set (st1 := s); set (body := b) end.
    destruct (fold_sends body (fun _ => message_egress ctx) faces st1) as [[_ F2 _ _ F5 _ F7] Hs].
    + intros st2 f. unfold body, Dispatcher.enqueue_send. split; [apply enqueue_tables|]. eapply sends_mono; [|apply enqueue_sends].
      by intros x ->.
    + done.
    + rewrite F2, F5, F7. split_conj; [exact Hs|done..].
  - split_conj; try done. by apply sends_refl.
Qed.

Lemma note_activity_frame env ctx (st : State S W) : exists w, Dispatcher.note_activity env ctx st = set_plugins st w.
Proof.
  unfold Dispatcher.note_activity. assert (exists w, st = set_plugins st w) as Hst by (exists (st_plugins st); by destruct st).
  destruct (name_activity env), (packet ctx); try done. by eexists.
Qed.

Lemma interest_pipeline_spec sort_keys env ctx tags i (st st' : State S W) :
  packet ctx = PktInterest i -> Dispatcher.interest_pipeline sort_keys env ctx tags st = Some st' ->
  (Dispatcher.path_message env ctx = None -> sends (interest_egress env ctx) st st') /\
  (st_cs st' = st_cs st \/ st_cs st' = (cs_get (st_cs st) (cs_clock env) i).2) /\ st_validation st' = st_validation st.
Proof.
  intros Hp. unfold Dispatcher.interest_pipeline. destruct (Dispatcher.path_message env ctx) as [[[h j] pc]|].
  - intros [= <-]. destruct (walk_path_spec h j pc ctx st) as (_ & H1 & H2 & _). split_conj; [done|by left|done].
  - destruct (note_activity_frame env ctx st) as [w ->]. intros E.
    destruct (forward_interest_spec _ _ _ _ _ _ _ Hp E) as (H1 & H2 & _ & H3). split_conj; [|exact H2|exact H3].
    intros _. by eapply sends_from; [|exact H1].
Qed.
End stages.

(** ** Data, and what enters the content store *)

Section data.
Context {S W : Type} `{ContentStore S} `{Hasher}.
Context (sort_nonces : list (Z * NonceFingerprint) -> list (Z * NonceFingerprint)).
Context (env : Env W).
Implicit Types st : State S W.

Lemma pit_match_same sh ctx d a ev sh' :
  packet ctx = PktData d -> PitMatchStage.process sort_nonces sh ctx = Some (a, ev, sh') ->
  exists c, a = Continue c /\ same_packet ctx c /\ verified c = verified ctx /\
    validation_not_configured c = validation_not_configured ctx.
Proof.
  intros Hp. unfold PitMatchStage.process. rewrite Hp.
  destruct (mapM _ _); [|done]. cbn [option_bind]. destruct (PitMatchStage.consume_all _ _ _ _ _) as [[out s]|]; [|done].
  destruct (negb _); intros [= <- _ _]; eexists; (split; [reflexivity|]); by repeat split.
Qed.

(** Why Data may be cached: it comes from a local face that does not ask for
    validation, the validator accepts its chain, or there is no validator and the
    stage admits what nobody checked. *)
Definition from_trusted_face st (f : Z) : Prop :=
  Dispatcher.is_local env f = true /\ Dispatcher.require_local_validation env f st = false.
Definition accepted (d : Data) : Prop := exists v, data_validator env = Some v /\ validate_chain v d = RValid.
Definition unchecked_admitted : Prop := data_validator env = None /\ admit_unverified (cs_insert_stage env) = true.
Definition trusted st (f : Z) (d : Data) : Prop := from_trusted_face st f \/ accepted d \/ unchecked_admitted.

(** What adding Data [d] does to the store. *)
Definition cached (raw : bytes) (d : Data) (c c' : S) : Prop :=
  exists stale_at, c' = (cs_insert c raw (d_name d) (mkCsMeta stale_at)).2.

Lemma cs_insert_spec ctx d tags (c : S) :
  packet ctx = PktData d ->
  let '(a, c') := CsInsertStage.process (cs_insert_stage env) ctx tags c in
  a = Satisfy ctx /\
  (c' = c \/ cached (raw_bytes ctx) d c c' /\ admission (cs_insert_stage env) d = true /\ tag_cache_policy tags <> Some NoCache /\
     (verified ctx = true \/ validation_not_configured ctx = true /\ admit_unverified (cs_insert_stage env) = true)).
Proof.
  intros Hp. unfold CsInsertStage.process. rewrite Hp. destruct (negb (verified ctx) && _) eqn:Hv; [by split; [|left]|].
  case_bool_decide as Hn; [by split; [|left]|]. destruct (admission (cs_insert_stage env) d) eqn:Ha; cbn [negb]; [|by split; [|left]].
  split; [done|]. right. split_conj; [by eexists|done|done|].
  destruct (verified ctx); [by left|]. right. cbn in Hv. by apply negb_false_iff, andb_true_iff in Hv.
Qed.

Definition data_egress (ctx : PacketContext) (x : Egress) : Prop :=
  eg_payload x = raw_bytes ctx /\ nack_reason (eg_intent x) = None /\
  Dispatcher.blocked_scope env (Dispatcher.is_localhost_ctx ctx) (eg_face x) = false.

Lemma admit_and_deliver_spec ctx c d tags st :
  packet ctx = PktData d -> same_packet ctx c ->
  let st' := Dispatcher.admit_and_deliver env c tags st in
  sends (data_egress ctx) st st' /\ st_validation st' = st_validation st /\
  (st_cs st' = st_cs st \/ cached (raw_bytes ctx) d (st_cs st) (st_cs st') /\ admission (cs_insert_stage env) d = true /\
     tag_cache_policy tags <> Some NoCache /\
     (verified c = true \/ validation_not_configured c = true /\ admit_unverified (cs_insert_stage env) = true)).
Proof.
  intros Hp [E1 E2 E3 E4 _ _]. cbn zeta. unfold Dispatcher.admit_and_deliver. rewrite <- E4 in Hp.
  pose proof (cs_insert_spec c d tags (st_cs st) Hp) as Hc.
  destruct (CsInsertStage.process _ _ _ _) as [a c']. destruct Hc as [-> Hc].
  destruct (dispatch_spec env (Satisfy c) None (set_cs st c')) as [[_ D2 _ _ D5 _ _] D].
  split_conj; [|exact D5|rewrite D2; cbn [st_cs set_cs]; by rewrite <- E1].
  eapply sends_from; [|eapply sends_mono; [|exact D]]; [done|]. intros x (_ & Hpay & Hn & Hb).
  unfold data_egress, Dispatcher.is_localhost_ctx in *. rewrite E3 in Hb. split_conj; [|done|done].
  rewrite Hpay. unfold satisfied_bytes. by destruct (cs_hit c).
Qed.

(** The packets the queue holds are what their bytes say. *)
Definition pending_decoded (v : ValidationState) : Prop := Forall (fun e => packet_of_bytes (pe_ctx e)) (q_entries (pending v)).

Lemma packet_of_bytes_same c c' : same_packet c c' -> packet_of_bytes c -> packet_of_bytes c'.
Proof. intros [E1 _ E3 E4 _ _]. unfold packet_of_bytes. by rewrite E4, E1, E3. Qed.

Lemma validation_stage_spec ctx d tags v a v' :
  packet ctx = PktData d -> verified ctx = false -> validation_not_configured ctx = false ->
  packet_of_bytes ctx -> pending_decoded v ->
  ValidationStage.process (data_validator env) (cert_fetcher env) (instant env) ctx tags v = Some (a, v') ->
  pending_decoded v' /\
  match a with
  | Satisfy c => same_packet ctx c /\ (verified c = true -> accepted d) /\ (validation_not_configured c = true -> data_validator env = None)
  | Drop _ => True
  | _ => False
  end.
Proof.
  intros Hp Hv Hn Hb Hq. unfold ValidationStage.process, accepted. rewrite Hp. destruct (data_validator env) as [val|].
  2:{ intros [= <- <-]. split_conj; [done|by split|by cbn; rewrite Hv|done]. }
  destruct (validate_chain val d) eqn:Hc.
  - intros [= <- <-]. split_conj; [done|by split|by eauto|by cbn; rewrite Hn].
  - destruct (ValidationStage.key_locator_name d) as [cert|]; [|by intros [= <- <-]].
    destruct (PendingQueue.push _ _ _ _ _) as [q|] eqn:Hpush; [|done]. intros [= <- <-]. split; [|done].
    apply Forall_forall. intros e He. destruct (push_entries _ _ _ _ _ _ Hpush e He) as [Ho| ->]; [|done].
    unfold pending_decoded in Hq. rewrite Forall_forall in Hq. by apply Hq.
  - by intros [= <- <-].
Qed.

Lemma validate_data_spec ctx d tags st r :
  packet ctx = PktData d -> verified ctx = false -> validation_not_configured ctx = false ->
  packet_of_bytes ctx -> pending_decoded (st_validation st) ->
  Dispatcher.validate_data env ctx tags st = Some r ->
  let st' := match r with inl (_, st') => st' | inr st' => st' end in
  st_out st' = st_out st /\ st_cs st' = st_cs st /\ pending_decoded (st_validation st') /\
  match r with
  | inl (c, _) => same_packet ctx c /\
      (verified c = true \/ validation_not_configured c = true /\ admit_unverified (cs_insert_stage env) = true ->
       trusted st (PitStage.face_id ctx) d)
  | inr _ => True
  end.
Proof.
  intros Hp Hv Hn Hb Hq. unfold Dispatcher.validate_data, trusted, from_trusted_face.
  destruct (_ && negb (Dispatcher.require_local_validation _ _ _)) eqn:Hl.
  { apply andb_true_iff in Hl as [Hl1 Hl2%negb_true_iff]. intros [= <-]. split_conj; [done..|by split|]. by left. }
  destruct (Dispatcher.require_local_validation _ _ _ && negb (PitEntry.is_some _)); [intros [= <-]; by split_conj|].
  destruct (ValidationStage.process _ _ _ _ _ _) as [[a v]|] eqn:Hs; [|done].
  destruct (validation_stage_spec _ _ _ _ _ _ Hp Hv Hn Hb Hq Hs) as [Hq' Ha].
  destruct a as [c|c fs|c|r0|c r0]; try done; intros [= <-]; split_conj; try done; [by apply Ha|].
  destruct Ha as (_ & A1 & A2). intros [Hc|[Hc Hu]]; right; [left; by apply A1|right; split; [by apply A2|done]].
Qed.

Lemma self_learn_frame ctx tags st :
  let st' := Dispatcher.try_self_learn env ctx tags st in
  st_out st' = st_out st /\ st_cs st' = st_cs st /\ st_validation st' = st_validation st.
Proof. cbn zeta. unfold Dispatcher.try_self_learn. repeat case_match; done. Qed.

(** The entry the Data pipeline may make. *)
Definition cache_entry st (f : Z) (raw : bytes) (d : Data) (tags : Tags) (c c' : S) : Prop :=
  cached raw d c c' /\ trusted st f d /\ admission (cs_insert_stage env) d = true /\ tag_cache_policy tags <> Some NoCache.

Lemma data_pipeline_spec ctx d tags st st' :
  packet ctx = PktData d -> fresh_context ctx -> packet_of_bytes ctx -> pending_decoded (st_validation st) ->
  Dispatcher.data_pipeline sort_nonces env ctx tags st = Some st' ->
  sends (data_egress ctx) st st' /\ pending_decoded (st_validation st') /\
  (st_cs st' = st_cs st \/ cache_entry st (PitStage.face_id ctx) (raw_bytes ctx) d tags (st_cs st) (st_cs st')).
Proof.
  intros Hp [_ _ _ _ Hv Hn _] Hb Hq. unfold Dispatcher.data_pipeline.
  set (st0 := if _ && _ then _ else st).
  assert (st_out st0 = st_out st /\ st_cs st0 = st_cs st /\ st_validation st0 = st_validation st /\ st_faces st0 = st_faces st)
    as (F1 & F2 & F3 & F4) by (unfold st0; by destruct (_ && _)). clearbody st0.
  destruct (PitMatchStage.process _ _ _) as [[[a ev] sh]|] eqn:Hm; [|done].
  destruct (pit_match_same _ _ _ _ _ _ Hp Hm) as (c & -> & Hsame & Hv' & Hn').
  assert (Hid : forall st1, st_out st1 = st_out st -> st_cs st1 = st_cs st -> pending_decoded (st_validation st1) ->
    sends (data_egress ctx) st st1 /\ pending_decoded (st_validation st1) /\
    (st_cs st1 = st_cs st \/ cache_entry st (PitStage.face_id ctx) (raw_bytes ctx) d tags (st_cs st) (st_cs st1))).
  { intros st1 E1 E2 E3. split_conj; [by apply sends_refl|done|by left]. }
  cbn [option_bind]. destruct (_ && negb (admits _ _)); [intros [= <-]; apply Hid; cbn; [done|done|by rewrite F3]|].
  destruct (Dispatcher.validate_data _ _ _ _) as [r|] eqn:Hval; [|done].
  destruct (validate_data_spec c d tags (set_shared st0 sh) r) as (V1 & V2 & V3 & V4);
    [by rewrite (sp_packet _ _ Hsame)|by rewrite Hv'|by rewrite Hn'|by eapply packet_of_bytes_same|by cbn; rewrite F3|done|].
  cbn [st_out st_cs set_shared] in V1, V2. rewrite F1 in V1. rewrite F2 in V2.
  destruct r as [[c2 st2]|st2]; [|intros [= <-]; by apply Hid]. destruct V4 as [Hs2 Ht].
  intros E. set (st3 := if unsolicited c2 then st2 else Dispatcher.try_self_learn env c2 tags st2) in E.
  assert (st_out st3 = st_out st /\ st_cs st3 = st_cs st /\ st_validation st3 = st_validation st2) as (G1 & G2 & G3).
  { unfold st3. destruct (unsolicited c2); [done|]. destruct (self_learn_frame c2 tags st2) as (-> & -> & ->). done. }
  clearbody st3. assert (st' = Dispatcher.admit_and_deliver env c2 tags st3) as -> by congruence.
  destruct (admit_and_deliver_spec ctx c2 d tags st3 Hp) as (A1 & A2 & A3); [by transitivity c|].
  split_conj; [by eapply sends_from|by rewrite A2, G3|]. rewrite G2 in A3. destruct A3 as [?|(A3 & A4 & A5 & A6)]; [by left|right].
  unfold cache_entry. split_conj; [done| |done|done]. rewrite (sp_face _ _ Hsame) in Ht. apply Ht in A6. unfold trusted, from_trusted_face, Dispatcher.require_local_validation in *.
  cbn [st_faces set_shared] in A6. by rewrite F4 in A6.
Qed.
End data.

(** ** The whole path of a packet *)

Section whole.
Context {S W : Type} `{ContentStore S} `{Hasher}.
Context (sort_keys : list (Z * list Z) -> list (Z * list Z)).
Context (sort_nonces : list (Z * NonceFingerprint) -> list (Z * NonceFingerprint)).
Context (sha256 : bytes -> bytes).
Context (iter : group_map -> list ((Z * Z) * Reassembly.Pending)).
Context (env : Env W).
Implicit Types st : State S W.

(** What comes before the pipelines leaves behind. *)
Record prepared st st1 : Prop := {
  pp_out : st_out st1 = st_out st;
  pp_cs : st_cs st1 = st_cs st;
  pp_validation : st_validation st1 = st_validation st;
  pp_require : forall f, Dispatcher.require_local_validation env f st1 = Dispatcher.require_local_validation env f st;
  pp_delayed : st_delayed st1 = st_delayed st
}.

Lemma bump_prepared f d st w : prepared st (Dispatcher.bump f d (set_plugins st w)).
Proof.
  unfold Dispatcher.bump. cbn [st_faces set_plugins]. destruct (st_faces st !! f) as [s|] eqn:E; [|done].
  split; [done|done|done| |done]. intros g. unfold Dispatcher.require_local_validation. cbn [st_faces set_faces].
  destruct (decide (f = g)) as [->|]; [by rewrite lookup_insert_eq, E|by rewrite lookup_insert_ne].
Qed.

(** How a packet enters its pipeline. *)
Inductive entered (ctx : PacketContext) (tags : Tags) st1 st' : Prop :=
| entered_none : st' = st1 -> entered ctx tags st1 st'
| entered_limited a : a = Drop RateLimited \/ a = Nack ctx Congestion -> st' = Dispatcher.dispatch_action env a None st1 ->
    entered ctx tags st1 st'
| entered_interest i : packet ctx = PktInterest i -> Dispatcher.interest_pipeline sort_keys env ctx tags st1 = Some st' ->
    entered ctx tags st1 st'
| entered_data d : packet ctx = PktData d -> Dispatcher.data_pipeline sort_nonces env ctx tags st1 = Some st' ->
    entered ctx tags st1 st'
| entered_nack n : packet ctx = PktNack n -> st' = Dispatcher.nack_pipeline env ctx st1 -> entered ctx tags st1 st'.

Lemma rate_limit_inbound_spec ctx st :
  let '(r, st1) := Dispatcher.check_rate_limit_inbound env ctx st in
  (exists w, st1 = set_plugins st w) /\
  (r = inl ctx \/ r = inr (Drop RateLimited) \/ r = inr (Nack ctx Congestion)).
Proof.
  unfold Dispatcher.check_rate_limit_inbound.
  assert (exists w, st = set_plugins st w) as Hst by (exists (st_plugins st); by destruct st).
  destruct (rate_limit env) as [hook|]; [|by auto]. destruct (ctx_name ctx) as [n|]; [|by auto].
  destruct (packet ctx); [by auto| | |by auto];
    destruct (check_inbound _ _ _ _ _ _) as [[| |] w]; (split; [by eexists|by auto]).
Qed.

Lemma forward_decoded_cases ctx tags st st' :
  Dispatcher.forward_decoded sort_keys sort_nonces env ctx tags st = Some st' ->
  exists st1, prepared st st1 /\ entered ctx tags st1 st'.
Proof.
  unfold Dispatcher.forward_decoded. destruct (discovery_on_inbound _ _ _ _) as [[|] w].
  { intros [= <-]. eexists. split; [|by apply entered_none]. by split. }
  assert (Hpl : prepared st (set_plugins st w)) by by split.
  assert (Hb : forall d, packet ctx = d -> (exists i, d = PktInterest i) \/ (exists e, d = PktData e) ->
    (let is_interest := match packet ctx with PktInterest _ => true | _ => false end in
     let st0 := Dispatcher.bump (PitStage.face_id ctx)
       (mkCounters (if is_interest then 1 else 0) (if is_interest then 0 else 1) 0 0 (zlen (raw_bytes ctx)) 0 0) (set_plugins st w) in
     match Dispatcher.check_rate_limit_inbound env ctx st0 with
     | (inr action, st0) => Some (Dispatcher.dispatch_action env action None st0)
     | (inl ctx, st0) => if is_interest then Dispatcher.interest_pipeline sort_keys env ctx tags st0
                         else Dispatcher.data_pipeline sort_nonces env ctx tags st0
     end) = Some st' -> exists st1, prepared st st1 /\ entered ctx tags st1 st').
  { intros p Hp Hk. cbn zeta. set (cnt := mkCounters _ _ _ _ _ _ _). destruct (bump_prepared (PitStage.face_id ctx) cnt st w) as [P1 P2 P3 P4 P5].
    set (st0 := Dispatcher.bump _ _ _) in *. pose proof (rate_limit_inbound_spec ctx st0) as Hr.
    destruct (Dispatcher.check_rate_limit_inbound _ _ _) as [r st1]. destruct Hr as [[w' ->] Hr].
    assert (Hprep : prepared st (set_plugins st0 w')) by by split.
    intros E. exists (set_plugins st0 w'). split; [done|]. destruct Hr as [-> | [-> | ->]].
    - rewrite Hp in E. destruct Hk as [[i ->]|[d ->]]; [by eapply entered_interest|by eapply entered_data].
    - eapply entered_limited; [by left|congruence].
    - eapply entered_limited; [by right|]. congruence. }
  destruct (packet ctx) eqn:Hp.
  - intros [= <-]. exists (set_plugins st w). split; [done|by apply entered_none].
  - apply (Hb _ eq_refl). by eauto.
  - apply (Hb _ eq_refl). by eauto.
  - intros [= <-]. exists (set_plugins st w). split; [done|by eapply entered_nack].
Qed.

(** The Nack pipeline leaves the store and the validation queue alone. *)
Definition keeps_cache st st' : Prop := st_cs st' = st_cs st /\ st_validation st' = st_validation st.

Lemma keeps_fold {A} (body : State S W -> A -> State S W) l st :
  (forall st a, keeps_cache st (body st a)) -> keeps_cache st (fold_left body l st).
Proof.
  intros Hb. revert st. induction l as [|a l IH]; intros st; cbn [fold_left]; [done|].
  destruct (IH (body st a)) as [E1 E2], (Hb st a) as [F1 F2]. split; [by rewrite E1|by rewrite E2].
Qed.
Lemma keeps_bump_enqueue f d g p s i c st :
  keeps_cache st (Dispatcher.enqueue_send_with_source g p s i c (Dispatcher.bump f d st)).
Proof. destruct (bump_enqueue f d g p s i c st) as [[_ E1 _ _ E2 _ _] _]. by split. Qed.

Lemma nack_pipeline_keeps ctx st : keeps_cache st (Dispatcher.nack_pipeline env ctx st).
Proof.
  unfold Dispatcher.nack_pipeline. destruct (packet ctx) as [|i|d|n]; try done. destruct (negb _); [done|].
  destruct (ctx_name ctx) as [name|]; [|done]. destruct (negb _); [done|].
  destruct (on_nack_erased _ _ _ _) as [[fs|fs dl|r| |] w]; try done.
  - apply (keeps_fold (Dispatcher.failover_to env _ _ _ _) fs (set_plugins st w)). intros st1 f. unfold Dispatcher.failover_to.
    destruct (Interest.nonce _) as [nonce|]; [|apply keeps_bump_enqueue].
    match goal with |- keeps_cache _ (Dispatcher.enqueue_send_with_source ?g ?p ?s ?i ?c (Dispatcher.bump ?f0 ?d ?st2)) =>
      exact (keeps_bump_enqueue f0 d g p s i c st2) end.
  - destruct (Pit.remove _ _) as [[e|] p]; [|done].
    apply (keeps_fold (Dispatcher.nack_to env _ _) _ (Dispatcher.set_st_pit (set_plugins st w) p)). intros st1 f. unfold Dispatcher.nack_to.
    destruct (negb _); [done|]. apply keeps_bump_enqueue.
Qed.

(** One packet, from the decoder's context. *)
Lemma forward_decoded_cache ctx tags st st' :
  fresh_context ctx -> packet_of_bytes ctx -> pending_decoded (st_validation st) ->
  Dispatcher.forward_decoded sort_keys sort_nonces env ctx tags st = Some st' ->
  pending_decoded (st_validation st') /\
  (st_cs st' = st_cs st \/
   (exists i, packet ctx = PktInterest i /\ st_cs st' = (cs_get (st_cs st) (cs_clock env) i).2) \/
   exists d, packet ctx = PktData d /\ cache_entry env st (PitStage.face_id ctx) (raw_bytes ctx) d tags (st_cs st) (st_cs st')).
Proof.
  intros Hf Hb Hq Hfw. destruct (forward_decoded_cases _ _ _ _ Hfw) as (st1 & [P1 P2 P3 P4 P5] & He). rewrite <- P2, <- P3 in *.
  destruct He as [->|a Ha ->|i Hi He|d Hd He|n Hn ->].
  - by auto.
  - destruct (dispatch_spec env a None st1) as [[_ D2 _ _ D5 _ _] _]. rewrite D5. auto.
  - destruct (interest_pipeline_spec _ _ _ _ _ _ _ Hi He) as (_ & I1 & I2). rewrite I2. split; [done|].
    destruct I1 as [I1|I1]; [by left|right; left]. by exists i.
  - destruct (data_pipeline_spec _ _ _ _ _ _ _ Hd Hf Hb Hq He) as (_ & D1 & D2). split; [done|]. destruct D2 as [D2|D2]; [by left|].
    right. right. exists d. split; [done|]. destruct D2 as (E1 & E2 & E3 & E4). unfold cache_entry. split_conj; [done| |done|done].
    unfold trusted, from_trusted_face in *. by rewrite <- P4.
  - destruct (nack_pipeline_keeps ctx st1) as [E1 E2]. rewrite E2. by auto.
Qed.

(** One tick of the task that drains the validation queue. *)
Definition cs_accepts (c c' : S) : Prop :=
  exists raw d, Data.decode raw = Ok d /\ accepted env d /\ admission (cs_insert_stage env) d = true /\ cached raw d c c'.

Lemma settle_all_spec v rs s0 :
  Forall (fun at_ => match at_.1 with
     | Satisfy c => exists c0 t, Ready c0 t ∈ rs /\ same_packet c0 c /\
         forall d, packet c0 = PktData d -> validate_chain v d = RValid
     | Drop _ => True
     | _ => False
     end) (ValidationStage.settle_all v rs s0).1 /\ pending (ValidationStage.settle_all v rs s0).2 = pending s0.
Proof.
  revert s0. induction rs as [|r rs IH]; intros s0; cbn [ValidationStage.settle_all]; [by split|].
  destruct (ValidationStage.settle v r s0) as [[a t] s1] eqn:Hs. specialize (IH s1).
  destruct (ValidationStage.settle_all v rs s1) as [rest s2]. cbn [fst snd] in *. destruct IH as [I1 I2].
  assert (pending s1 = pending s0 /\ match a with
     | Satisfy c => exists c0 t, Ready c0 t ∈ r :: rs /\ same_packet c0 c /\ forall d, packet c0 = PktData d -> validate_chain v d = RValid
     | Drop _ => True | _ => False end) as [Hp Ha].
  { unfold ValidationStage.settle in Hs. destruct r as [c tg|]; [|by simplify_eq].
    destruct (packet c) as [|i|d|n] eqn:Hp.
    3: destruct (validate_chain v d) eqn:Hv; simplify_eq; try done.
    all: simplify_eq; split; [done|]; exists c, tg; (split; [apply list_elem_of_here|]); (split; [by split|]); intros; congruence. }
  split; [|by rewrite I2]. constructor; [exact Ha|]. eapply Forall_impl; [exact I1|]. intros [b tb]. cbn [fst].
  destruct b; try done. intros (c0 & t0 & Hin & Hr). exists c0, t0. split; [by apply list_elem_of_further|done].
Qed.

Lemma deliver_drained_spec l st :
  Forall (fun at_ => match at_.1 with
     | Satisfy c => packet_of_bytes c /\ forall d, packet c = PktData d -> accepted env d
     | Drop _ => True
     | _ => False
     end) l ->
  let st' := Dispatcher.deliver_drained env l st in
  st_validation st' = st_validation st /\ rtc cs_accepts (st_cs st) (st_cs st').
Proof.
  revert st. induction l as [|[a t] l IH]; intros st Hl; cbn [Dispatcher.deliver_drained]; [by split|].
  apply Forall_cons in Hl as [Ha Hl]. cbn [fst] in Ha. destruct a as [c|c fs|c|r|c r]; try done; [|by apply IH].
  destruct Ha as [Hb Ha]. specialize (IH (Dispatcher.admit_and_deliver env c (default no_tags t) st) Hl).
  cbn zeta in *. destruct IH as [I1 I2]. rewrite I1.
  assert (st_validation (Dispatcher.admit_and_deliver env c (default no_tags t) st) = st_validation st /\
          rtc cs_accepts (st_cs st) (st_cs (Dispatcher.admit_and_deliver env c (default no_tags t) st))) as [H1 H2].
  2:{ split; [done|]. by etransitivity. }
  destruct (packet c) as [|i|d|n] eqn:Hp.
  3:{ destruct (admit_and_deliver_spec env c c d (default no_tags t) st Hp) as (_ & A1 & A2); [reflexivity|]. split; [done|].
      destruct A2 as [->|(A2 & A3 & _)]; [done|]. apply rtc_once. exists (raw_bytes c), d. unfold packet_of_bytes in Hb. rewrite Hp in Hb.
      split_conj; [by apply Hb|by apply Ha|done|done]. }
  all: unfold Dispatcher.admit_and_deliver, CsInsertStage.process; rewrite Hp; cbn zeta;
    destruct (dispatch_spec env (Satisfy c) None (set_cs st (st_cs st))) as [[_ D2 _ _ D5 _ _] _]; split; [exact D5|rewrite D2; done].
Qed.

Lemma drain_tick_spec st :
  pending_decoded (st_validation st) ->
  let st' := Dispatcher.drain_tick env st in pending_decoded (st_validation st') /\ rtc cs_accepts (st_cs st) (st_cs st').
Proof.
  intros Hq. cbn zeta. unfold Dispatcher.drain_tick, ValidationStage.drain_pending.
  destruct (data_validator env) as [v|] eqn:Hv; [|by split].
  unfold PendingQueue.drain_ready. pose proof (drain_entries v (instant env) (q_entries (pending (st_validation st))) (total_bytes (pending (st_validation st)))) as Hd.
  destruct (PendingQueue.drain _ _ _ _) as [[rs kept] t]. destruct Hd as [Hk Hr].
  unfold pending_decoded in Hq. rewrite Forall_forall in Hq.
  match goal with |- context [ValidationStage.settle_all v rs ?s] => pose proof (settle_all_spec v rs s) as Hs end.
  destruct (ValidationStage.settle_all v rs _) as [acts vs]. cbn [fst snd] in Hs. destruct Hs as [Hs Hp].
  destruct (deliver_drained_spec acts (set_validation st vs)) as [D1 D2].
  - eapply Forall_impl; [exact Hs|]. intros [a tg]. cbn [fst]. destruct a; try done. intros (c0 & t0 & Hin & Hsame & Hval).
    destruct (Hr _ _ Hin) as (e & He & <- & _). split; [by eapply packet_of_bytes_same, Hq|].
    intros d Hd. exists v. split; [done|]. apply Hval. by rewrite <- (sp_packet _ _ Hsame).
  - rewrite D1. cbn [st_validation set_validation]. split; [|exact D2]. unfold pending_decoded. rewrite Hp. cbn [pending q_entries PendingQueue.set_queue].
    apply Forall_forall. intros e He. by apply Hq, Hk.
Qed.

(** What is sent for an Interest or Data: nothing of a name under [/localhost] to a
    face of non-local scope, save a Nack back where the packet came from. *)
Definition confined (ctx : PacketContext) (x : Egress) : Prop :=
  Dispatcher.blocked_scope env (Dispatcher.is_localhost_ctx ctx) (eg_face x) = false \/ eg_face x = PitStage.face_id ctx.

(** Strategies that forward at once. *)
Definition prompt_strategies : Prop :=
  prompt (env_default_strategy env) /\ forall n s, StrategyTable.lpm (env_strategies env) n = Some s -> prompt s.

Lemma dispatch_delayed a entry st : st_delayed (Dispatcher.dispatch_action env a entry st) = st_delayed st.
Proof. apply (sm_delayed _ _ (proj1 (dispatch_spec env a entry st))). Qed.

Lemma route_interest_delayed ctx tags st st' :
  prompt_strategies -> Dispatcher.route_interest env ctx tags st = Some st' -> st_delayed st' = st_delayed st.
Proof.
  intros [Hd Ht]. unfold Dispatcher.route_interest. set (st1 := Dispatcher.install_reflexive ctx st).
  assert (st_delayed st1 = st_delayed st) as E1 by (unfold st1, Dispatcher.install_reflexive; by repeat case_match).
  assert (st_delayed (Dispatcher.reverse_face ctx st1).2 = st_delayed st1) as E2
    by (unfold Dispatcher.reverse_face; repeat case_match; try done; by simplify_eq).
  destruct (Dispatcher.reverse_face ctx st1) as [[f|] st2]; cbn [snd] in E2.
  - intros E. assert (st' = Dispatcher.dispatch_action env (Send ctx [f]) None st2) as -> by congruence. by rewrite dispatch_delayed, E2.
  - destruct (StrategyStage.process _ _ _ _ _ _) as [[[[a ds] p] w]|] eqn:Hs; [|done].
    apply process_prompt in Hs as ->.
    + intros [= <-]. rewrite dispatch_delayed. cbn. by rewrite app_nil_r, E2.
    + intros n. unfold StrategyStage.strategy_for. cbn [strategy_table default_strategy Dispatcher.stage].
      destruct (StrategyTable.lpm _ n) eqn:El; [by eapply Ht|done].
Qed.

Lemma interest_pipeline_delayed ctx tags st st' i :
  packet ctx = PktInterest i -> prompt_strategies -> Dispatcher.interest_pipeline sort_keys env ctx tags st = Some st' ->
  st_delayed st' = st_delayed st.
Proof.
  intros Hp Hpr. unfold Dispatcher.interest_pipeline. destruct (Dispatcher.path_message env ctx) as [[[h j] pc]|].
  { intros [= <-]. apply walk_path_spec. }
  destruct (note_activity_frame env ctx st) as [w ->]. unfold Dispatcher.forward_interest.
  destruct (PitCheckStage.process _ _ _ _ _) as [a sh] eqn:Hc.
  destruct (pit_check_cases _ _ _ _ _ _ _ _ Hp Hc) as [[r ->]|[tok ->]]; [by intros [= <-]|].
  set (ctx1 := set_pit_token ctx (Some tok)). unfold CsLookupStage.process. change (packet ctx1) with (packet ctx). rewrite Hp.
  destruct (cs_get _ _ _) as [[entry|] cs].
  - set (ctx2 := set_out _ _ _). intros E.
    match type of E with Some (Dispatcher.satisfy env ctx2 ?e ?s) = _ =>
      assert (st' = Dispatcher.satisfy env ctx2 e s) as -> by congruence; by rewrite (sm_delayed _ _ (proj1 (satisfy_spec env ctx2 e s))) end.
  - intros E. by apply route_interest_delayed in E as ->.
Qed.

Lemma data_pipeline_delayed ctx tags st st' :
  Dispatcher.data_pipeline sort_nonces env ctx tags st = Some st' -> st_delayed st' = st_delayed st.
Proof.
  unfold Dispatcher.data_pipeline. set (st0 := if _ && _ then _ else st).
  assert (st_delayed st0 = st_delayed st) as <- by (unfold st0; by destruct (_ && _)). clearbody st0.
  destruct (PitMatchStage.process _ _ _) as [[[a ev] sh]|]; [|done]. cbn [option_bind].
  destruct a as [c|c fs|c|r|c r]; [|intros [= <-]..].
  2:{ exact (dispatch_delayed (Send c fs) None (set_shared st0 sh)). }
  2:{ exact (dispatch_delayed (Satisfy c) None (set_shared st0 sh)). }
  2:{ done. }
  2:{ exact (dispatch_delayed (Nack c r) None (set_shared st0 sh)). }
  destruct (_ && negb (admits _ _)); [by intros [= <-]|].
  destruct (Dispatcher.validate_data _ _ _ _) as [r|] eqn:Hv; [|done].
  assert (match r with inl (_, st1) => st_delayed st1 = st_delayed st0 | inr st1 => st_delayed st1 = st_delayed st0 end) as Hr.
  { revert Hv. unfold Dispatcher.validate_data. destruct (_ && negb (Dispatcher.require_local_validation _ _ _)); [by intros [= <-]|].
    destruct (_ && negb (PitEntry.is_some _)); [by intros [= <-]|].
    destruct (ValidationStage.process _ _ _ _ _ _) as [[a v]|]; [|done].
    destruct a as [c'|c' l|c'|r0|c' r0]; intros [= <-]; [done|exact (dispatch_delayed (Send c' l) None (set_validation _ v))|done|done|].
    exact (dispatch_delayed (Nack c' r0) None (set_validation _ v)). }
  destruct r as [[c2 st2]|st2]; intros [= <-]; [|done]. unfold Dispatcher.admit_and_deliver.
  destruct (CsInsertStage.process _ _ _ _) as [a cs]. rewrite dispatch_delayed. cbn [st_delayed set_cs].
  destruct (unsolicited c2); [done|]. unfold Dispatcher.try_self_learn. by repeat case_match.
Qed.

Lemma forward_decoded_delayed ctx tags st st' :
  prompt_strategies -> match packet ctx with PktNack _ => False | _ => True end ->
  Dispatcher.forward_decoded sort_keys sort_nonces env ctx tags st = Some st' -> st_delayed st' = st_delayed st.
Proof.
  intros Hpr Hk Hfw. destruct (forward_decoded_cases _ _ _ _ Hfw) as (st1 & [P1 P2 P3 P4 P5] & He). rewrite <- P5.
  destruct He as [->|a Ha ->|i Hi He|d Hd He|n Hn ->].
  - done.
  - apply dispatch_delayed.
  - by eapply interest_pipeline_delayed.
  - by eapply data_pipeline_delayed.
  - by rewrite Hn in Hk.
Qed.

Lemma forward_decoded_confined ctx tags st st' :
  fresh_context ctx -> packet_of_bytes ctx -> pending_decoded (st_validation st) ->
  match packet ctx with PktNack _ => False | _ => True end -> Dispatcher.path_message env ctx = None ->
  Dispatcher.forward_decoded sort_keys sort_nonces env ctx tags st = Some st' -> sends (confined ctx) st st'.
Proof.
  intros Hf Hb Hq Hk Hpm Hfw. destruct (forward_decoded_cases _ _ _ _ Hfw) as (st1 & [P1 P2 P3 P4 P5] & He).
  apply (sends_from _ _ st1); [done|]. rewrite <- P3 in Hq.
  destruct He as [->|a Ha ->|i Hi He|d Hd He|n Hn ->].
  - by apply sends_refl.
  - eapply sends_mono; [|apply (dispatch_spec env a None st1)]. intros x. destruct Ha as [-> | ->]; cbn [action_out]; [done|].
    intros [Hx _]. by right.
  - eapply sends_mono; [|exact (proj1 (interest_pipeline_spec _ _ _ _ _ _ _ Hi He) Hpm)]. intros x [(_ & _ & _ & Hx)|[(_ & _ & Hx)|(Hx & _)]];
      [by left|by left|by right].
  - eapply sends_mono; [|exact (proj1 (data_pipeline_spec _ _ _ _ _ _ _ Hd Hf Hb Hq He))]. intros x (_ & _ & Hx). by left.
  - by rewrite Hn in Hk.
Qed.
End whole.

(** ** The claims on the whole path *)

(** What makes the forwarder move: a packet from a face, or the timer that drains the
    validation queue. *)
Inductive EngineEvent : Type :=
| Arrive (denv : DecodeStage.Env) (now : Z) (raw : bytes) (f arrival ep : Z)
| DrainTick.

Definition engine_step {S W} `{ContentStore S} `{Hasher} sort_keys sort_nonces sha256 iter (env : Env W) (ev : EngineEvent)
    (st : State S W) (ds : DecodeState) : option (State S W * DecodeState) :=
  match ev with
  | Arrive denv now raw f arrival ep =>
      Dispatcher.run_pipeline sort_keys sort_nonces sha256 env iter denv now raw f arrival ep st ds
  | DrainTick => Some (Dispatcher.drain_tick env st, ds)
  end.

(** C3: nothing enters the content store unless somebody vouches for it.  Whatever
    bytes arrive on whatever face, one step of the forwarder leaves the content store
    as it is, or records a lookup, or adds one Data packet, under the name its own
    bytes carry, that the admission policy admits, and only because it came from a
    local face that does not ask for validation, because the validator accepts its
    chain of certificates, or because no validator is configured and unverified Data
    is admitted.  The task that drains the validation queue adds only Data the
    validator accepts.  The queue goes on holding packets as they were decoded. *)
Theorem cache_only_trusted {S W} `{ContentStore S} `{Hasher} sort_keys sort_nonces sha256 iter (env : Env W) (ev : EngineEvent)
    (st st' : State S W) (ds ds' : DecodeState) :
  pending_decoded (st_validation st) ->
  engine_step sort_keys sort_nonces sha256 iter env ev st ds = Some (st', ds') ->
  pending_decoded (st_validation st') /\
  match ev with
  | Arrive _ _ _ f _ _ =>
      st_cs st' = st_cs st \/
      (exists i, st_cs st' = (cs_get (st_cs st) (cs_clock env) i).2) \/
      (exists raw d, Data.decode raw = Ok d /\ admission (cs_insert_stage env) d = true /\ trusted env st f d /\
         cached raw d (st_cs st) (st_cs st'))
  | DrainTick => rtc (cs_accepts env) (st_cs st) (st_cs st')
  end.
Proof.
  intros Hq. destruct ev as [denv now raw f arr ep|]; [|intros [= <- <-]; by apply drain_tick_spec].
  cbn [engine_step]. unfold Dispatcher.run_pipeline.
  assert (forall b ds1, Dispatcher.process_packet sort_keys sort_nonces sha256 env iter denv now b f arr ep st ds1 = Some (st', ds') ->
    pending_decoded (st_validation st') /\ (st_cs st' = st_cs st \/ (exists i, st_cs st' = (cs_get (st_cs st) (cs_clock env) i).2) \/
      (exists raw d, Data.decode raw = Ok d /\ admission (cs_insert_stage env) d = true /\ trusted env st f d /\
         cached raw d (st_cs st) (st_cs st')))) as Hpp.
  2:{ destruct (TlvDecodeStage.try_collect_fragment _ _ _ _ _ _) as [[k ds1]|]; [|done].
      destruct k as [b| |b]; [apply Hpp|intros [= <- <-]; by auto|apply Hpp]. }
  intros b ds1. unfold Dispatcher.process_packet.
  destruct (TlvDecodeStage.decode_resolved _ _ _ _ _ _ _ _ _) as [[a ds2]|] eqn:Hd; [|done]. destruct a as [c t|r].
  - destruct (resolved_admitted _ _ _ _ _ _ _ _ _ _ _ _ Hd) as ([Hf _ _] & Hfr & Hb). cbn [Dispatcher.after_decode].
    destruct (Dispatcher.forward_decoded _ _ _ _ _ _) as [st2|] eqn:Hfw; [|done]. intros [= <- _].
    destruct (forward_decoded_cache _ _ _ _ _ _ _ Hfr Hb Hq Hfw) as [F1 F2]. split; [done|].
    destruct F2 as [?|[(i & _ & ?)|(d & Hp & E1 & E2 & E3 & _)]]; [by auto|by eauto|right; right]. exists (raw_bytes c), d.
    unfold packet_of_bytes in Hb. rewrite Hp in Hb. rewrite Hf in E2. by destruct Hb.
  - assert (Hen : forall p i, keeps_cache st (Dispatcher.enqueue_send f p i st)).
    { intros p i. unfold Dispatcher.enqueue_send, Dispatcher.enqueue_send_with_source. by destruct (st_faces st !! f). }
    assert (Hk : forall st2, keeps_cache st st2 -> pending_decoded (st_validation st2) /\ (st_cs st2 = st_cs st \/
      (exists i, st_cs st2 = (cs_get (st_cs st) (cs_clock env) i).2) \/ (exists raw d, Data.decode raw = Ok d /\
        admission (cs_insert_stage env) d = true /\ trusted env st f d /\ cached raw d (st_cs st) (st_cs st2)))).
    { intros st2 [E1 E2]. rewrite E2. by auto. }
    destruct (Dispatcher.after_decode _ _ _ _ _ _ _ _) as [st2|] eqn:Ha; [|done]. intros [= <- _]. apply Hk.
    cbn [Dispatcher.after_decode] in Ha. repeat case_match; simplify_eq; try done; apply Hen.
Qed.


(** *** Witnesses

    A forwarder with an application on face 1, a neighbour on face 2, a route for
    everything under [/] to the neighbour, and a small cache. *)

Definition demo_hasher : Hasher := {|
  component_hash c := be_decode (value c) + typ c * 1000;
  token_hash h disc := 2 * h + match disc with Classical => 0 | PersistentAttach => 1 end
|}.
#[local] Existing Instance demo_hasher.
#[local] Existing Instance list_cache.
#[local] Existing Instance list_store.

Definition demo_faces : FaceTable := mkFaceTable
  {[1 := from_transport 1 FaceKind.App None None PointToPoint;
    2 := from_transport 2 FaceKind.Udp (Some (str "udp4://10.0.0.2:6363")) None PointToPoint]} 3.
Definition demo_orders : Orders := mkOrders (fun m => map_to_list m) (fun m => map_to_list m) (fun m => map_to_list m).
Definition demo_env : Env unit :=
  mkDispatchEnv demo_faces StrategyTable.new (erase mkBestRoute) (mkTable ∅ 10) NoSignals []
    (mkCsInsertStage AdmitAllPolicy_should_admit true) DropAll None None (fun _ _ w => (false, w)) false None None false None None None 0 0 0 demo_orders.
Definition demo_denv : DecodeStage.Env := DecodeStage.mkEnv demo_faces ∅ {[1 := false; 2 := false]} 1.
Definition demo_state : State ListCs unit :=
  mkState (mkShared Pit.new (Some DeadNonceList.new) None) (LruCs.new 1000) (ReflexiveTable.new ReflexiveConfig_default)
    (mkTables ∅ (EngineFib.add_nexthop EngineFib.new [] 2 10) None) (ValidationStage.new PendingQueueConfig_default)
    {[1 := mkFaceState false false FaceCounters_default; 2 := mkFaceState false false FaceCounters_default]} ∅ SeqStore.new tt [] [].
Definition demo_ksort : list (Z * list Z) -> list (Z * list Z) := merge_sort age_le.
Definition demo_nsort : list (Z * NonceFingerprint) -> list (Z * NonceFingerprint) := merge_sort age_le.
Definition demo_iter : group_map -> list ((Z * Z) * Reassembly.Pending) := fun m => map_to_list m.

(** [/a] as an Interest with a nonce, and as Data with a digest; and an
    Interest for [/localhost]. *)
Definition wire_interest : bytes := [5; 11; 7; 3; 8; 1; 97; 10; 4; 0; 0; 0; 9].
Definition wire_data : bytes := [6; 49; 7; 3; 8; 1; 97; 21; 3; 120; 121; 122; 22; 3; 27; 1; 0; 23; 32] ++ replicate 32 0.
Definition wire_localhost : bytes := [5; 19; 7; 11; 8; 9; 108; 111; 99; 97; 108; 104; 111; 115; 116; 10; 4; 0; 0; 0; 9].

Definition demo_step (raw : bytes) (f : Z) (st : State ListCs unit) : option (State ListCs unit * DecodeState) :=
  engine_step demo_ksort demo_nsort (fun b => b) demo_iter demo_env (Arrive demo_denv 0 raw f 100 0) st empty_state.

(** The Interest goes to the neighbour, the Data back to the application and, since
    unverified Data is admitted here, into the cache. *)
Definition demo_pending : State ListCs unit :=
  match demo_step wire_interest 1 demo_state with Some (st, _) => st | None => demo_state end.
Example demo_fetch :
  (eg_face <$> st_out demo_pending) = [2] /\
  match demo_step wire_data 2 demo_pending with
  | Some (st, _) => (eg_face <$> st_out st) = [2; 1] /\ entry_count (st_cs st) = 1
  | None => False
  end.
Proof. vm_compute. by split_conj. Qed.

Lemma cache_only_trusted_witness :
  exists st' ds', demo_step wire_data 2 demo_pending = Some (st', ds') /\ pending_decoded (st_validation st').
Proof.
  destruct (demo_step wire_data 2 demo_pending) as [[st' ds']|] eqn:E; [|vm_compute in E; discriminate E].
  exists st', ds'. split; [reflexivity|]. unfold demo_step in E.
  assert (Hq : pending_decoded (st_validation demo_pending)).
  { unfold pending_decoded. assert (q_entries (pending (st_validation demo_pending)) = []) as -> by (vm_compute; reflexivity). constructor. }
  exact (proj1 (cache_only_trusted demo_ksort demo_nsort (fun b => b) demo_iter demo_env (Arrive demo_denv 0 wire_data 2 100 0)
    demo_pending st' empty_state ds' Hq E)).
Defined.

Definition demo_localhost : PacketContext :=
  match TlvDecodeStage.decode_resolved (fun b => b) demo_iter demo_denv 0 wire_localhost 1 100 0 empty_state with
  | Ok (DContinue c _, _) => c
  | _ => PacketContext.new [] 0 0
  end.
