(* ===== verification/Forwarder.v ===== *)
(** * Fetching through the forwarder

    The stages, the tables and the dispatcher together: what a consumer and a
    producer on two faces of a forwarder see of it.  No new code is modelled here. *)

From S2P Require Import Prelude Tlv Name NameUri Face Trie Rib Encode Evict DeadNonce ReplayGuard Packet Lp Reassembly Pit PitStage DecodeStage LruCs Measure Strategy StrategyStage Reflexive Stages PathControl Dispatcher.
#[local] Open Scope Z_scope.

(** ** The PIT meets Data for a single ordinary entry *)

Section single.
Context `{Hasher} (sort_nonces : list (Z * NonceFingerprint) -> list (Z * NonceFingerprint)).

Lemma match_single s ctxd d e r :
  let tok := PitToken.from_interest (d_name d) in
  packet ctxd = PktData d -> name_hashes ctxd = None \/ name_hashes ctxd = Some (NameHashes.compute (d_name d)) ->
  entries (pit s) !! tok = Some e -> in_records e = [r] -> persistent_path false e = false ->
  (forall c, c ∈ candidates (d_name d) -> c.1 = tok \/ entries (pit s) !! c.1 = None) ->
  PitToken.persistent_attach (d_name d) <> tok ->
  exists ev s', PitMatchStage.process sort_nonces s ctxd =
      Some (Continue (set_out (set_name_hashes ctxd (Some (NameHashes.compute (d_name d)))) [ir_face_id r] [lp_pit_token r]), ev, s') /\
    entries (pit s') = delete tok (entries (pit s)).
Proof.
  intros tok Hpd Hh He Hin Hpath Hothers Hne.
  destruct (reap_some sort_nonces s tok e (arrival ctxd) He) as (s2 & Hreap & Hent & _).
  destruct (match_unfold sort_nonces s ctxd d Hpd Hh) as (out & s' & Hc & _ & Hproc).
  destruct (consume_exact sort_nonces s tok no_out (arrival ctxd) e He Hpath no_out_ok) as (out1 & Hc1 & Hout1 & _).
  unfold candidates in Hc at 1. cbn [app PitMatchStage.consume_all] in Hc. fold tok in Hc. rewrite consume_none in Hc.
  2:{ destruct (Hothers (PitToken.persistent_attach (d_name d), false) ltac:(left)) as [?|?]; [done|done]. }
  rewrite Hc1, Hreap in Hc. cbn [snd] in Hc. rewrite consume_all_none in Hc.
  2:{ intros c Hcin. rewrite Hent, lookup_delete_None. destruct (Hothers c ltac:(by do 2 right)) as [->|?]; [by left|by right]. }
  injection Hc as <- <-. rewrite Hin in Hout1.
  assert ((zlen (mo_faces out1) =? 0) = false) as Hz by (by rewrite Hout1). rewrite Hz, Hout1 in Hproc.
  do 2 eexists. split; [exact Hproc|exact Hent].
Qed.
End single.

(** ** The strategy stage meets a fresh entry *)

Section fresh.
Context {W : Type} (self : StrategyStage W).

Lemma forward_fresh ctx name b nonce tok e p :
  StrategyStage.interest_nonce ctx = Some nonce -> pit_token ctx = Some tok -> entries p !! tok = Some e ->
  out_records e = [] -> may_leave self ctx name b ->
  StrategyStage.forward self ctx name [b] p =
    (Send (set_out ctx (out_faces ctx ++ [b]) (out_pit_tokens ctx)) (out_faces ctx ++ [b]),
     Pit.set_entries p (<[tok := PitEntry.note_forward_decision (set_out_records e [mkOutRecord b nonce (arrival ctx)])]> (entries p))).
Proof.
  intros Hn Ht He Ho [Hs Hh]. unfold StrategyStage.forward.
  assert (StrategyStage.in_scope self (StrategyStage.restrict_to_local self ctx name) [b] = [b]) as ->.
  { unfold StrategyStage.in_scope. destruct (StrategyStage.restrict_to_local self ctx name); [|done].
    rewrite filter_cons. rewrite decide_True by by apply Hs. done. }
  rewrite Hn, Ht, (record_out_entry _ _ _ _ _ _ He), Ho. cbn [note_out existsb fst snd PitEntry.renew_out_record].
  assert (StrategyStage.not_back self ctx [b] = [b]) as ->.
  { unfold StrategyStage.not_back. destruct (peer_host _ (PitStage.face_id ctx)) as [h|]; [|done].
    rewrite filter_cons, decide_True by by apply Hh. done. }
  unfold Pit.with_entry_mut. cbn [entries Pit.set_entries]. rewrite lookup_insert_eq. cbn [snd out_faces set_out].
  f_equal. unfold Pit.set_entries. cbn [pit_log orphans entries]. by rewrite insert_insert_eq.
Qed.

(** Best-route on an entry nothing was sent for. *)
Lemma best_route_fresh sctx fib b :
  fib_entry sctx = Some fib -> entry_retx_suppressed sctx = false -> tried_faces sctx = [] ->
  head (nexthops_excluding fib (in_face sctx)) = Some b ->
  BestRouteStrategy.decide sctx = [Forward [Trie.face_id b]].
Proof.
  intros Hf Hs Ht Hb. unfold BestRouteStrategy.decide. rewrite Hf, Hs, Ht.
  assert (nexthops_excluding_any fib (in_face sctx) [] = nexthops_excluding fib (in_face sctx)) as ->.
  { unfold nexthops_excluding_any, nexthops_excluding. apply list_filter_iff. intros n. rewrite elem_of_nil. tauto. }
  destruct (nexthops_excluding fib (in_face sctx)) as [|n l]; [done|]. by injection Hb as ->.
Qed.
End fresh.

(** ** The way out *)

(** No plug-in stands between the pipelines and the packet: no rate limit, no
    path-control handler, and discovery takes no packet for itself. *)
Record quiet {W} (env : Env W) : Prop := {
  q_rate : rate_limit env = None;
  q_path : path_control env = None;
  q_discovery : forall raw f w, (discovery_on_inbound env raw f w).1 = false
}.

Section out.
Context {S W : Type} `{ContentStore S} `{Hasher}.
Context (sort_keys : list (Z * list Z) -> list (Z * list Z)).
Context (sort_nonces : list (Z * NonceFingerprint) -> list (Z * NonceFingerprint)).
Context (env : Env W) (Hquiet : quiet env).
Implicit Types st : State S W.

(** Exactly one packet is sent, and the faces are those there were. *)
Definition sends_one (P : Egress -> Prop) st st' : Prop :=
  (exists x, st_out st' = st_out st ++ [x] /\ P x) /\
  (forall f, is_Some (st_faces st' !! f) <-> is_Some (st_faces st !! f)) /\
  (forall f, Dispatcher.require_local_validation env f st' = Dispatcher.require_local_validation env f st).

Lemma bump_enqueue_one f d g p s i c st :
  is_Some (st_faces st !! g) ->
  let st' := Dispatcher.enqueue_send_with_source g p s i c (Dispatcher.bump f d st) in
  same_tables st st' /\ sends_one (fun x => x = mkEgress g p s i c) st st'.
Proof.
  intros Hg. cbn zeta. split; [etransitivity; [apply bump_tables|apply enqueue_tables]|].
  pose proof (bump_prepared env f d st (st_plugins st)) as [P1 _ _ P4].
  replace (set_plugins st (st_plugins st)) with st in P1, P4 by by destruct st.
  unfold Dispatcher.enqueue_send_with_source. pose proof (proj2 (bump_faces f d st g) Hg) as [fs ->].
  split; [eexists; split; [cbn; by rewrite P1|done]|]. split; [|exact P4]. intros g'. apply bump_faces.
Qed.

Lemma send_one ctx b st :
  Dispatcher.blocked_scope env (Dispatcher.is_localhost_ctx ctx) b = false -> is_Some (st_faces st !! b) ->
  let st' := Dispatcher.dispatch_action env (Send ctx [b]) None st in
  same_tables st st' /\
  sends_one (fun x => eg_face x = b /\ eg_payload x = raw_bytes ctx /\ nack_reason (eg_intent x) = None) st st'.
Proof.
  intros Hb Hf. cbn [Dispatcher.dispatch_action fold_left]. unfold Dispatcher.send_to. rewrite Hb.
  unfold Dispatcher.check_rate_limit_outbound. rewrite (q_rate _ Hquiet). cbn [negb]. cbn zeta.
  match goal with |- context [Dispatcher.enqueue_send_with_source ?g ?p ?s ?i ?c (Dispatcher.bump ?f0 ?d st)] =>
    destruct (bump_enqueue_one f0 d g p s i c st Hf) as [H1 [(x & Ho & ->) H2]] end.
  split; [done|]. split; [|done]. eexists. by split.
Qed.

Lemma satisfy_one ctx a t st :
  out_faces ctx = [a] -> out_pit_tokens ctx = [t] -> cs_hit ctx = false -> a <> PitStage.face_id ctx ->
  Dispatcher.blocked_scope env (Dispatcher.is_localhost_ctx ctx) a = false -> is_Some (st_faces st !! a) ->
  let st' := Dispatcher.dispatch_action env (Satisfy ctx) None st in
  same_tables st st' /\
  sends_one (fun x => eg_face x = a /\ eg_payload x = raw_bytes ctx /\ hd_pit_token (headers (eg_intent x)) = t /\
                      nack_reason (eg_intent x) = None) st st'.
Proof.
  intros Ho Ht Hc Hne Hb Hf. cbn [Dispatcher.dispatch_action]. unfold Dispatcher.satisfy. rewrite Ho, Hc. cbn [length seq zip zip_with fold_left].
  unfold Dispatcher.satisfy_to. rewrite Hc, Ht, (proj2 (Z.eqb_neq _ _) Hne), Hb.
  unfold Dispatcher.check_rate_limit_outbound. rewrite (q_rate _ Hquiet). cbn [negb andb]. cbn zeta.
  match goal with |- context [Dispatcher.enqueue_send_with_source ?g ?p ?s ?i ?c (Dispatcher.bump ?f0 ?d st)] =>
    destruct (bump_enqueue_one f0 d g p s i c st Hf) as [H1 [(x & Hx & ->) H2]] end.
  split; [done|]. split; [|done]. eexists. split; [exact Hx|]. by split_conj.
Qed.

(** What comes before the pipelines, when nobody objects. *)
Lemma forward_decoded_quiet ctx tags st :
  exists st0, prepared env st st0 /\ same_tables st st0 /\
    (forall f, is_Some (st_faces st0 !! f) <-> is_Some (st_faces st !! f)) /\
    match packet ctx with
    | PktInterest _ => Dispatcher.forward_decoded sort_keys sort_nonces env ctx tags st = Dispatcher.interest_pipeline sort_keys env ctx tags st0
    | PktData _ => Dispatcher.forward_decoded sort_keys sort_nonces env ctx tags st = Dispatcher.data_pipeline sort_nonces env ctx tags st0
    | _ => True
    end.
Proof.
  set (ii := match packet ctx with PktInterest _ => true | _ => false end).
  set (w := (discovery_on_inbound env (raw_bytes ctx) (PitStage.face_id ctx) (st_plugins st)).2).
  set (cnt := mkCounters (if ii then 1 else 0) (if ii then 0 else 1) 0 0 (zlen (raw_bytes ctx)) 0 0).
  exists (Dispatcher.bump (PitStage.face_id ctx) cnt (set_plugins st w)). split_conj.
  - apply bump_prepared.
  - transitivity (set_plugins st w); [done|apply bump_tables].
  - intros f. apply (bump_faces (PitStage.face_id ctx) cnt (set_plugins st w)).
  - unfold Dispatcher.forward_decoded. pose proof (q_discovery _ Hquiet (raw_bytes ctx) (PitStage.face_id ctx) (st_plugins st)) as Hd.
    destruct (packet ctx) eqn:Hp; try done; destruct (discovery_on_inbound _ _ _ _) as [cons w'];
      cbn [fst snd] in *; subst cons; unfold Dispatcher.check_rate_limit_inbound; rewrite (q_rate _ Hquiet); reflexivity.
Qed.

(** An ordinary Interest nobody has asked before. *)
Record new_request st (ctx : PacketContext) (i : Interest) : Prop := {
  nr_packet : packet ctx = PktInterest i;
  nr_name : ctx_name ctx = Some (i_name i);
  nr_fresh : fresh_context ctx;
  nr_nonce : is_Some (Interest.nonce i);
  nr_hint : Interest.forwarding_hint i = None;
  nr_reflexive : Interest.reflexive_name i = None /\ ReflexiveTable.is_empty (st_reflexive st) = true;
  nr_unguarded : unguarded (st_shared st) i;
  nr_ordinary : PitCheckStage.subscription_flavored i = false;
  nr_alive : dead (st_shared st) i (arrival ctx) = false;
  nr_pending : forall c, c ∈ candidates (i_name i) -> entries (pit (st_shared st)) !! c.1 = None;
  nr_cache : (cs_get (st_cs st) (cs_clock env) i).1 = None
}.

(** Best-route is in force, and the FIB has a next hop for the Interest other than the
    face it came from; the first of them is on a face it may leave on: in the scope of
    its name, and not of the host the Interest came from. *)
Record routed st (ctx : PacketContext) (i : Interest) (b : Z) : Prop := {
  ro_strategy : default (env_default_strategy env) (StrategyTable.lpm (env_strategies env) (i_name i)) = erase mkBestRoute;
  ro_hop : exists fib nh, EngineFib.lpm (t_fib (st_tables st)) (i_name i) = Some fib /\
    head (nexthops_excluding fib (PitStage.face_id ctx)) = Some nh /\ Trie.face_id nh = b;
  ro_leave : may_leave (Dispatcher.stage env st) ctx (i_name i) b;
  ro_scope : Dispatcher.blocked_scope env (Dispatcher.is_localhost_ctx ctx) b = false;
  ro_face : is_Some (st_faces st !! b)
}.

Lemma route_fresh ctx tags i b tok e nonce st :
  packet ctx = PktInterest i -> ctx_name ctx = Some (i_name i) -> Interest.nonce i = Some nonce -> out_faces ctx = [] ->
  Interest.forwarding_hint i = None -> Interest.reflexive_name i = None -> ReflexiveTable.is_empty (st_reflexive st) = true ->
  tag_next_hop_face_id tags = None -> pit_token ctx = Some tok -> entries (pit (st_shared st)) !! tok = Some e -> out_records e = [] ->
  routed st ctx i b ->
  exists st' e', Dispatcher.route_interest env ctx tags st = Some st' /\
    sends_one (fun x => eg_face x = b /\ eg_payload x = raw_bytes ctx /\ nack_reason (eg_intent x) = None) st st' /\
    st_validation st' = st_validation st /\
    entries (pit (st_shared st')) = <[tok := e']> (entries (pit (st_shared st))) /\
    in_records e' = in_records e /\ pe_persistent e' = pe_persistent e.
Proof.
  intros Hp Hn Hnonce Hof Hh Hr Hre Htag Ht He Ho [R1 (fib & nh & R2 & R3 & R4) R5 R6 R7].
  unfold Dispatcher.route_interest, Dispatcher.install_reflexive. rewrite Hp, Hr. unfold Dispatcher.reverse_face. rewrite Hre.
  unfold StrategyStage.process. rewrite Hp, Hn. unfold next_hop_override. rewrite Htag.
  unfold StrategyStage.fib_lookup_name. rewrite Hp, Hh.
  set (sctx := StrategyStage.strategy_context _ _ _ _ _ _ _).
  assert (fib_entry sctx = Some fib /\ entry_retx_suppressed sctx = false /\ tried_faces sctx = [] /\ in_face sctx = PitStage.face_id ctx)
    as (S1 & S2 & S3 & S4).
  { unfold sctx, StrategyStage.strategy_context, StrategyStage.entry_state, Pit.with_entry, Dispatcher.st_pit. rewrite Ht. cbn [option_bind].
    rewrite He. cbn [fib_entry entry_retx_suppressed tried_faces in_face fmap option_fmap option_map default id from_option].
    unfold PitEntry.entry_retx_suppressed, PitEntry.last_out. rewrite Ho. by split_conj. }
  unfold StrategyStage.decide_actions, StrategyStage.strategy_for. cbn [default_strategy strategy_table Dispatcher.stage]. rewrite R1.
  cbn [erase decide_sync BestRoute_strategy decide_fast].
  rewrite (best_route_fresh sctx fib nh S1 S2 S3) by by rewrite S4. rewrite R4.
  unfold StrategyStage.perform. cbn [head StrategyStage.expand].
  rewrite (forward_fresh _ ctx (i_name i) b nonce tok e (Dispatcher.st_pit st)); [|by unfold StrategyStage.interest_nonce; rewrite Hp|done|done|done|done].
  rewrite Hof. cbn [app]. set (ctx' := set_out _ _ _). set (st1 := set_delayed _ _).
  destruct (send_one ctx' b st1) as [[T1 _ _ _ T5 _ _] Hs]; [done|done|].
  eexists _, _. split; [reflexivity|]. fold st1 ctx'. split_conj; [exact Hs|by rewrite T5|rewrite T1; reflexivity|done|done].
Qed.

(** The Interest is sent on, to one face, and remembered. *)
Lemma interest_forwarded ctx tags i b st :
  new_request st ctx i -> routed st ctx i b -> tag_next_hop_face_id tags = None ->
  let tok := PitToken.from_interest (i_name i) in
  exists st1 e, Dispatcher.forward_decoded sort_keys sort_nonces env ctx tags st = Some st1 /\
    sends_one (fun x => eg_face x = b /\ eg_payload x = raw_bytes ctx /\ nack_reason (eg_intent x) = None) st st1 /\
    st_validation st1 = st_validation st /\
    entries (pit (st_shared st1)) = <[tok := e]> (entries (pit (st_shared st))) /\
    in_records e = [classical_record ctx i] /\ pe_persistent e = None.
Proof.
  intros [N1 N2 N3 [nonce N4] N5 [N6 N6'] N7 N8 N9 N10 N11] [R1 R2 R3 R4 R5] Htag tok.
  destruct (forward_decoded_quiet ctx tags st) as (st0 & [P1 P2 P3 P4 _] & [M1 M2 M3 M4 _ _ _] & Hfaces & Hfw). rewrite N1 in Hfw.
  rewrite Hfw. unfold Dispatcher.interest_pipeline, Dispatcher.path_message. rewrite (q_path _ Hquiet).
  destruct (note_activity_frame env ctx st0) as [w0 ->]. unfold Dispatcher.forward_interest. cbn [st_shared set_plugins]. rewrite M1.
  rewrite (check_classical_unfold sort_keys (Dispatcher.link_types env) (interest_validator env) (st_shared st) ctx i N1 N7 N8), N9. fold tok.
  assert (entries (pit (st_shared st)) !! tok = None) as Htok by (apply (N10 (tok, false)); right; left). rewrite Htok.
  set (e := joined ctx i _). set (ctx1 := set_pit_token ctx (Some tok)).
  unfold CsLookupStage.process. change (packet ctx1) with (packet ctx). rewrite N1. cbn [st_cs set_shared set_plugins]. rewrite M2.
  destruct (cs_get (st_cs st) (cs_clock env) i) as [[en|] c]; cbn [fst] in N11; [discriminate N11|].
  set (st2 := set_cs _ c).
  destruct (route_fresh ctx1 tags i b tok e nonce st2) as (st1 & e' & E1 & E2 & E3 & E4 & E5 & E6); try done.
  - by destruct N3.
  - subst st2. cbn [st_reflexive set_cs set_shared set_plugins]. by rewrite M3.
  - apply lookup_insert_eq.
  - destruct R2 as (fib & nh & R2). split; [done| | |done|].
    + exists fib, nh. subst st2. cbn [st_tables set_cs set_shared set_plugins]. by rewrite M4.
    + destruct R3. by split.
    + by apply Hfaces.
  - exists st1, e'. split; [done|]. destruct E2 as ((x & Hx & HP) & F1 & F2). split_conj.
    + split; [exists x; by rewrite Hx; cbn; rewrite P1|]. split; [intros f; by rewrite F1, <- Hfaces|intros f; by rewrite F2, <- P4].
    + rewrite E3. exact P3.
    + rewrite E4. subst st2. cbn. by rewrite insert_insert_eq.
    + by rewrite E5.
    + by rewrite E6.
Qed.

(** ** The way back *)

(** Validation lets the Data through. *)
Definition passes st (f : Z) (d : Data) : Prop :=
  from_trusted_face env st f \/ accepted env d \/
  data_validator env = None /\ Dispatcher.require_local_validation env f st = false.

Lemma validate_passes ctx d tags st :
  packet ctx = PktData d -> passes st (PitStage.face_id ctx) d ->
  exists c v, Dispatcher.validate_data env ctx tags st = Some (inl (c, set_validation st v)) /\
    same_packet ctx c /\ out_faces c = out_faces ctx /\ out_pit_tokens c = out_pit_tokens ctx /\ cs_hit c = cs_hit ctx.
Proof.
  intros Hp Hv. unfold Dispatcher.validate_data.
  destruct (_ && negb (Dispatcher.require_local_validation _ _ _)) eqn:Hl.
  { exists (set_verified ctx true), (st_validation st). split; [by destruct st|]. by repeat split. }
  destruct Hv as [[H1 H2]|[(v & Hval & Hc)|[Hval Hr]]].
  - rewrite H1, H2 in Hl. discriminate Hl.
  - rewrite Hval. cbn [PitEntry.is_some negb]. rewrite andb_false_r. unfold ValidationStage.process. rewrite Hp, Hc.
    eexists _, _. split; [reflexivity|]. by repeat split.
  - rewrite Hr, Hval. cbn [andb]. eexists _, _. split; [reflexivity|]. by repeat split.
Qed.

Lemma self_learn_keeps ctx tags st :
  let st' := Dispatcher.try_self_learn env ctx tags st in
  st_out st' = st_out st /\ st_shared st' = st_shared st /\ st_faces st' = st_faces st.
Proof. cbn zeta. unfold Dispatcher.try_self_learn. repeat case_match; done. Qed.

Lemma data_returned ctxd tags d e r st :
  let tok := PitToken.from_interest (d_name d) in
  packet ctxd = PktData d -> fresh_context ctxd ->
  name_hashes ctxd = None \/ name_hashes ctxd = Some (NameHashes.compute (d_name d)) ->
  entries (pit (st_shared st)) !! tok = Some e -> in_records e = [r] -> persistent_path false e = false ->
  (forall c, c ∈ candidates (d_name d) -> c.1 = tok \/ entries (pit (st_shared st)) !! c.1 = None) ->
  PitToken.persistent_attach (d_name d) <> tok ->
  ir_face_id r <> PitStage.face_id ctxd -> is_Some (st_faces st !! ir_face_id r) ->
  Dispatcher.blocked_scope env (Dispatcher.is_localhost_ctx ctxd) (ir_face_id r) = false ->
  passes st (PitStage.face_id ctxd) d ->
  exists st', Dispatcher.forward_decoded sort_keys sort_nonces env ctxd tags st = Some st' /\
    sends_one (fun x => eg_face x = ir_face_id r /\ eg_payload x = raw_bytes ctxd /\
      hd_pit_token (headers (eg_intent x)) = lp_pit_token r /\ nack_reason (eg_intent x) = None) st st' /\
    entries (pit (st_shared st')) = delete tok (entries (pit (st_shared st))).
Proof.
  intros tok Hp [_ _ _ Hch _ _ Hun] Hh He Hin Hpath Hoth Hne Hback Hface Hbl Hpass.
  destruct (forward_decoded_quiet ctxd tags st) as (st0 & [P1 P2 P3 P4 _] & [M1 _ _ _ _ _ _] & Hfaces & Hfw). rewrite Hp in Hfw.
  rewrite Hfw. unfold Dispatcher.data_pipeline. set (st1 := if _ && _ then _ else st0).
  assert (st_out st1 = st_out st0 /\ st_shared st1 = st_shared st0 /\ st_faces st1 = st_faces st0) as (F1 & F2 & F3)
    by (unfold st1; by destruct (_ && _)). clearbody st1. rewrite F2, M1.
  destruct (match_single sort_nonces (st_shared st) ctxd d e r Hp Hh He Hin Hpath Hoth Hne) as (ev & s' & -> & Hent).
  set (c := set_out _ _ _). cbn [option_bind]. change (unsolicited c) with (unsolicited ctxd). rewrite Hun. cbn [andb].
  assert (Hreq : forall sx : State S W, st_faces sx = st_faces st1 -> forall f,
    Dispatcher.require_local_validation env f sx = Dispatcher.require_local_validation env f st).
  { intros sx Hsx f. rewrite <- P4. unfold Dispatcher.require_local_validation. by rewrite Hsx, F3. }
  destruct (validate_passes c d tags (set_shared st1 s')) as (c2 & v & -> & Hsame & O1 & O2 & O3); [done| |].
  { unfold passes, from_trusted_face in *. rewrite (Hreq (set_shared st1 s') eq_refl). exact Hpass. }
  set (st2 := set_validation _ v). set (st3 := if unsolicited c2 then st2 else _).
  assert (st_out st3 = st_out st1 /\ st_shared st3 = s' /\ st_faces st3 = st_faces st1) as (G1 & G2 & G3).
  { unfold st3. destruct (unsolicited c2); [done|]. exact (self_learn_keeps c2 tags st2). }
  clearbody st3. unfold Dispatcher.admit_and_deliver.
  pose proof (cs_insert_spec env c2 d tags (st_cs st3) ltac:(by rewrite (sp_packet _ _ Hsame))) as Hcs.
  destruct (CsInsertStage.process _ _ _ _) as [act cs']. destruct Hcs as [-> _].
  destruct (satisfy_one c2 (ir_face_id r) (lp_pit_token r) (set_cs st3 cs')) as [[T1 _ _ _ _ _ _] ((x & Hx & HP) & K1 & K2)].
  - by rewrite O1.
  - by rewrite O2.
  - by rewrite O3.
  - by rewrite (sp_face _ _ Hsame).
  - unfold Dispatcher.is_localhost_ctx in *. by rewrite (sp_name _ _ Hsame).
  - cbn [st_faces set_cs]. rewrite G3, F3. by apply Hfaces.
  - eexists. split; [reflexivity|]. split.
    + split; [exists x; rewrite Hx; cbn [st_out set_cs]; rewrite G1, F1, P1; split; [done|]; by rewrite (sp_raw _ _ Hsame) in HP|].
      split; [intros f; rewrite K1; cbn [st_faces set_cs]; by rewrite G3, F3, Hfaces|].
      intros f. rewrite K2. by apply (Hreq (set_cs st3 cs')).
    + rewrite T1. cbn [st_shared set_cs]. by rewrite G2.
Qed.
End out.

(** The next hop the Interest takes is a cheapest one. *)
Definition cheapest_hop (fib : EngineFib.Fib) (name : Name) (in_face b : Z) : Prop :=
  exists e nh, EngineFib.lpm fib name = Some e /\ nh ∈ nexthops e /\ Trie.face_id nh = b /\ b <> in_face /\
    forall m, m ∈ nexthops e -> Trie.face_id m <> in_face -> cost nh <= cost m.

Lemma head_cheapest fib name in_face e nh :
  fib_sorted fib -> EngineFib.lpm fib name = Some e -> head (nexthops_excluding e in_face) = Some nh ->
  cheapest_hop fib name in_face (Trie.face_id nh).
Proof.
  intros Hf He Hh. pose proof (filter_cost_sorted (fun n => Trie.face_id n <> in_face) _ (lpm_sorted _ _ _ Hf He)) as Hs.
  change (filter _ (nexthops e)) with (nexthops_excluding e in_face) in Hs.
  assert (forall m, m ∈ nexthops_excluding e in_face <-> Trie.face_id m <> in_face /\ m ∈ nexthops e) as Hin
    by (intros m; unfold nexthops_excluding; by rewrite list_elem_of_filter).
  destruct (nexthops_excluding e in_face) as [|n l]; [done|]. injection Hh as ->. apply StronglySorted_inv in Hs as [_ Hs].
  rewrite Forall_forall in Hs. destruct (proj1 (Hin nh) ltac:(left)) as [H1 H2]. exists e, nh. split_conj; try done.
  intros m Hm Hne. assert (m ∈ nh :: l) as [->|Hl]%elem_of_cons by (by apply Hin); [lia|by apply Hs].
Qed.

(** C1: a fetch, end to end, in a forwarder without a rate limit or path control and
    whose discovery takes no packet.  Let an Interest come in that is no subscription,
    carries a nonce that is not dead, no forwarding hint, no reflexive name and no
    NextHopFaceId, is not subject to the replay guard, and that neither the cache
    answers nor any pending entry could share Data with (for its name, a prefix of it,
    or a subscription); let no reverse route be installed; let best-route be in force
    for its name, and the FIB, whose entries are in order of cost as every write leaves
    them, have a next hop other than its own face, the first of which it may leave on
    (in scope, and not of the host it came from).  Then it is sent to that next hop,
    which is a cheapest of those other than its own face, once, byte for byte as it is;
    and when Data of that name comes back from there, may go to the consumer's face by
    its scope, and passes validation, it is sent to the consumer's face, once, byte for
    byte, with the token the consumer's link gave; after that the PIT is as it was
    before. *)
Theorem fetch_through_forwarder {S W} `{ContentStore S} `{Hasher} sort_keys sort_nonces (env : Env W) (st : State S W)
    (ctx ctxd : PacketContext) (tags tagsd : Tags) (i : Interest) (d : Data) (b : Z) :
  quiet env -> new_request env st ctx i -> fib_sorted (t_fib (st_tables st)) -> routed env st ctx i b -> tag_next_hop_face_id tags = None ->
  is_Some (st_faces st !! PitStage.face_id ctx) ->
  packet ctxd = PktData d -> fresh_context ctxd -> d_name d = i_name i ->
  name_hashes ctxd = None \/ name_hashes ctxd = Some (NameHashes.compute (d_name d)) ->
  PitStage.face_id ctxd = b ->
  PitToken.persistent_attach (i_name i) <> PitToken.from_interest (i_name i) ->
  Dispatcher.blocked_scope env (Dispatcher.is_localhost_ctx ctxd) (PitStage.face_id ctx) = false ->
  passes env st b d ->
  cheapest_hop (t_fib (st_tables st)) (i_name i) (PitStage.face_id ctx) b /\
  exists st1 st2 x y,
    Dispatcher.forward_decoded sort_keys sort_nonces env ctx tags st = Some st1 /\ st_out st1 = st_out st ++ [x] /\
    eg_face x = b /\ eg_payload x = raw_bytes ctx /\ nack_reason (eg_intent x) = None /\
    Dispatcher.forward_decoded sort_keys sort_nonces env ctxd tagsd st1 = Some st2 /\ st_out st2 = st_out st1 ++ [y] /\
    eg_face y = PitStage.face_id ctx /\ eg_payload y = raw_bytes ctxd /\ nack_reason (eg_intent y) = None /\
    hd_pit_token (headers (eg_intent y)) = ctx_lp_pit_token ctx /\
    entries (pit (st_shared st2)) = entries (pit (st_shared st)).
Proof.
  intros Hq Hn Hfs Hr Htag Hfc Hp Hfr Hdn Hh Hb Hne Hbl Hpass.
  assert (cheapest_hop (t_fib (st_tables st)) (i_name i) (PitStage.face_id ctx) b) as Hch.
  { destruct (ro_hop _ _ _ _ _ Hr) as (e & nh & H1 & H2 & <-). by eapply head_cheapest. }
  split; [exact Hch|]. assert (PitStage.face_id ctx <> b) as Hab by (destruct Hch as (_ & _ & _ & _ & _ & Hne' & _); congruence).
  destruct (interest_forwarded sort_keys sort_nonces env Hq ctx tags i b st Hn Hr Htag)
    as (st1 & e & E1 & ((x & Ex & X1 & X2 & X3) & F1 & F2) & _ & E3 & E4 & E5).
  set (tok := PitToken.from_interest (i_name i)) in *. rewrite Hdn in Hh.
  destruct (data_returned sort_keys sort_nonces env Hq ctxd tagsd d e (classical_record ctx i) st1)
    as (st2 & D1 & ((y & Ey & Y1 & Y2 & Y3 & Y4) & _) & D3); rewrite ?Hdn; try done.
  - fold tok. rewrite E3. apply lookup_insert_eq.
  - unfold persistent_path, any_per_record. by rewrite E4, E5.
  - intros c Hc. fold tok. destruct (decide (c.1 = tok)); [by left|right]. rewrite E3, lookup_insert_ne by done. by apply Hn.
  - cbn [ir_face_id classical_record]. by rewrite Hb.
  - by apply F1.
  - unfold passes, from_trusted_face in *. rewrite Hb, F2. exact Hpass.
  - exists st1, st2, x, y. split_conj; try done. rewrite D3, E3, Hdn. fold tok. apply delete_insert_id.
    apply (nr_pending _ _ _ _ Hn (tok, false)). right. left.
Qed.

(** *** Witness *)

#[local] Existing Instance demo_hasher.
#[local] Existing Instance list_cache.
#[local] Existing Instance list_store.

Definition demo_interest : Interest := mkInterest wire_interest [mkComponent 8 [97]].
Definition demo_data : Data := match Data.decode wire_data with Ok d => d | Err _ => mkData [] 0 0 0 0 [] end.
Definition demo_ctx : PacketContext :=
  mkContext wire_interest 1 (Some [mkComponent 8 [97]]) (PktInterest demo_interest) None None (Some [7; 7]) [] [] 0 false false false false 100.
Definition demo_ctxd : PacketContext :=
  mkContext wire_data 2 (Some [mkComponent 8 [97]]) (PktData demo_data) None None None [] [] 0 false false false false 200.

Lemma fetch_through_forwarder_witness :
  exists st1 st2 x y,
    Dispatcher.forward_decoded demo_ksort demo_nsort demo_env demo_ctx no_tags demo_state = Some st1 /\
    Dispatcher.forward_decoded demo_ksort demo_nsort demo_env demo_ctxd no_tags st1 = Some st2 /\
    st_out st2 = [x; y] /\ eg_face x = 2 /\ eg_face y = 1 /\ eg_payload y = wire_data /\
    hd_pit_token (headers (eg_intent y)) = Some [7; 7].
Proof.
  destruct (fetch_through_forwarder demo_ksort demo_nsort demo_env demo_state demo_ctx demo_ctxd no_tags no_tags demo_interest
    demo_data 2) as [_ (st1 & st2 & x & y & H1 & H2 & H3 & _ & _ & H4 & H5 & H6 & H7 & _ & H8 & _)].
  - by split.
  - split; try (vm_compute; reflexivity).
    + by split.
    + vm_compute. by eexists.
    + split; vm_compute; reflexivity.
    + by left.
  - apply (fib_writes_sorted EngineFib.new [] 2 10 []). apply fib_sorted_new.
  - split; try (vm_compute; reflexivity).
    + eexists _, _. vm_compute. by split_conj.
    + split; vm_compute; discriminate.
    + vm_compute. by eexists.
  - reflexivity.
  - vm_compute. by eexists.
  - reflexivity.
  - by split.
  - vm_compute. reflexivity.
  - by left.
  - reflexivity.
  - vm_compute. discriminate.
  - vm_compute. reflexivity.
  - right. right. vm_compute. by split.
  - exists st1, st2, x, y. rewrite H5, H2. by split_conj.
Defined.

(** ** What the parts do to each other

    Runs of the whole forwarder in which stages that are each as intended add up to
    something that is not. *)

(** A forwarder at a time, with these faces and routes. *)
Definition env_at (faces : FaceTable) (now : Z) : Env unit :=
  mkDispatchEnv faces StrategyTable.new (erase mkBestRoute) (mkTable ∅ 10) NoSignals []
    (mkCsInsertStage AdmitAllPolicy_should_admit true) DropAll None None (fun _ _ w => (false, w)) false None None false None None None now now now
    demo_orders.
Definition denv_of (faces : FaceTable) : DecodeStage.Env := DecodeStage.mkEnv faces ∅ {[1 := false; 2 := false; 3 := false]} 1.
Definition with_routes (st : State ListCs unit) (fib : EngineFib.Fib) : State ListCs unit :=
  set_tables st (mkTables ∅ fib None).
Definition three_faces (s : State ListCs unit) : State ListCs unit :=
  set_faces s {[1 := mkFaceState false false FaceCounters_default; 2 := mkFaceState false false FaceCounters_default;
                3 := mkFaceState false false FaceCounters_default]}.
Definition start : State ListCs unit := three_faces demo_state.

(** Packets in order: the time in milliseconds, the face, the bytes. *)
Definition arrive (faces : FaceTable) (st : State ListCs unit) (p : Z * Z * bytes) : State ListCs unit :=
  let '(t, f, raw) := p in
  match engine_step demo_ksort demo_nsort (fun b => b) demo_iter (env_at faces (t * 1000000))
          (Arrive (denv_of faces) 0 raw f (t * 1000000) 0) st empty_state with
  | Some (st, _) => st
  | None => st
  end.
Definition run_packets (faces : FaceTable) (l : list (Z * Z * bytes)) (st : State ListCs unit) : State ListCs unit :=
  fold_left (arrive faces) l st.
(** Who was sent what: the face, whether it is a Nack, the token. *)
Definition sent_to (st : State ListCs unit) : list (Z * option nack.NackReason * option bytes) :=
  map (fun x => (eg_face x, nack_reason (eg_intent x), hd_pit_token (headers (eg_intent x)))) (st_out st).

Definition lan : FaceTable := mkFaceTable
  {[1 := from_transport 1 FaceKind.App None None PointToPoint;
    2 := from_transport 2 FaceKind.Udp (Some (str "udp4://10.0.0.2:6363")) None PointToPoint;
    3 := from_transport 3 FaceKind.App None None PointToPoint]} 4.
Definition asking (nonce : Z) : bytes := [5; 11; 7; 3; 8; 1; 97; 10; 4; 0; 0; 0; nonce].
Definition asking_fresh (nonce : Z) : bytes := [5; 13; 7; 3; 8; 1; 97; 18; 0; 10; 4; 0; 0; 0; nonce].

(** A retransmission 15 ms after the first transmission is past the window of the PIT
    stage (10 ms) and within the one of the strategy (20 ms): best-route decides
    nothing, and the consumer is told there is no route. *)
Example retransmission_nacked :
  sent_to (run_packets lan [(0, 1, asking 1); (15, 1, asking 2)] start) =
    [(2, None, None); (1, Some nack.NoRoute, None)].
Proof. vm_compute. reflexivity. Qed.

(** Two applications connected over the loopback have one peer host: an Interest of
    one is never sent to the other, although the FIB says so. *)
Definition loopback : FaceTable := mkFaceTable
  {[1 := from_transport 1 FaceKind.Tcp (Some (str "tcp4://127.0.0.1:50001")) None PointToPoint;
    3 := from_transport 3 FaceKind.Tcp (Some (str "tcp4://127.0.0.1:50002")) None PointToPoint]} 4.
Example same_host_unreachable :
  sent_to (run_packets loopback [(0, 1, asking 1)] (with_routes start (EngineFib.add_nexthop EngineFib.new [] 3 10))) = [].
Proof. vm_compute. reflexivity. Qed.

(** An Interest that found no route leaves its PIT entry: when a route appears, a
    new Interest is taken for a retransmission and dropped. *)
Example no_route_blocks_later :
  let st := run_packets lan [(0, 1, asking 1)] (with_routes start EngineFib.new) in
  sent_to st = [(1, Some nack.NoRoute, None)] /\
  sent_to (run_packets lan [(1000, 1, asking 2); (2000, 3, asking 3)] (with_routes st (EngineFib.add_nexthop EngineFib.new [] 2 10)))
    = sent_to st.
Proof. vm_compute. by split. Qed.

(** The consumer on face 1 wants fresh Data and waits; another consumer's Interest
    for the same name is answered from the cache, which removes the PIT entry both
    share: the fresh Data that then comes is unsolicited. *)
Example cache_hit_forgets_others :
  let primed := run_packets lan [(0, 1, asking 1); (1, 2, wire_data)] start in
  sent_to primed = [(2, None, None); (1, None, None)] /\
  sent_to (run_packets lan [(100, 1, asking_fresh 2); (120, 3, asking 3); (130, 2, wire_data)] primed) =
    [(2, None, None); (1, None, None); (2, None, None); (3, None, None)].
Proof. vm_compute. by split. Qed.

(** Data from the cache goes back without the token its Interest carried; Data from
    upstream carries it. *)
Definition asking_token (nonce : Z) : bytes := [100; 19; 98; 2; 7; 7; 80; 13] ++ asking nonce.
Example cache_hit_drops_token :
  sent_to (run_packets lan [(0, 1, asking_token 1); (1, 2, wire_data); (50, 1, asking_token 2)] start) =
    [(2, None, None); (1, None, Some [7; 7]); (1, None, None)].
Proof. vm_compute. reflexivity. Qed.

(** A Nack for an Interest under [/localhost] makes the dispatcher try the next
    upstream of the FIB, whatever its scope. *)
Definition nack_of (raw : bytes) : bytes := encode_nack nack.NoRoute raw.
Example nack_failover_leaves_host :
  let fib := EngineFib.add_nexthop (EngineFib.add_nexthop EngineFib.new [] 3 5) [] 2 10 in
  sent_to (run_packets lan [(0, 1, wire_localhost); (5, 3, nack_of wire_localhost)] (with_routes start fib)) =
    [(3, None, None); (2, None, None)].
Proof. vm_compute. reflexivity. Qed.

(** A path-control Interest under [/localhost] from an application is sent on to the
    next hop of its target, whatever its scope; it enters neither the PIT nor the
    strategy. *)
Definition with_path_control (env : Env unit) (h : PathControlHandler unit) : Env unit :=
  mkDispatchEnv (face_table env) (env_strategies env) (env_default_strategy env) (env_measurements env) (env_signals env) (env_regions env)
    (cs_insert_stage env) (unsolicited_policy env) (rate_limit env) (name_classifier env) (discovery_on_inbound env) (congestion_feedback env)
    (traceroute_responder env) (data_validator env) (cert_fetcher env) (interest_validator env) (Some h) (name_activity env)
    (unix_nanos env) (instant env) (cs_clock env) (orders env).
Definition refresh_localhost : bytes :=
  [5; 36; 7; 28; 8; 9; 108; 111; 99; 97; 108; 104; 111; 115; 116; 32; 2; 80; 67; 8; 1; 3; 8; 8; 0; 0; 0; 0; 0; 0; 0; 1; 10; 4; 0; 0; 0; 9].
Example path_control_leaves_host :
  match engine_step demo_ksort demo_nsort (fun b => b) demo_iter
          (with_path_control (env_at lan 0) (PathControlHandler.new_unauthenticated [])) (Arrive (denv_of lan) 0 refresh_localhost 1 0 0)
          start empty_state with
  | Some (st, _) => (eg_face <$> st_out st) = [2] /\ (scope <$> FaceTable.get 2 lan) = Some NonLocal /\
      entries (pit (st_shared st)) = ∅ /\ map_to_list (st_path_seq st) = [(([mkComponent 8 (str "localhost")], 3), 1)]
  | None => False
  end.
Proof. vm_compute. by split_conj. Qed.

(** The same message again is dropped: the walk passes once. *)
Example path_control_once :
  let env := with_path_control (env_at lan 0) (PathControlHandler.new_unauthenticated []) in
  let step st := match engine_step demo_ksort demo_nsort (fun b => b) demo_iter env (Arrive (denv_of lan) 0 refresh_localhost 1 0 0) st empty_state with
    | Some (st, _) => st | None => st end in
  (eg_face <$> st_out (step (step start))) = [2].
Proof. vm_compute. reflexivity. Qed.
