(* ===== verification/Egress.v ===== *)
(** * Egress scheduling ([crates/forwarding/ndn-engine/src/egress.rs])

    The order in which the packets queued on a face leave it: traffic classes, the
    classifier by name prefix, the strict-priority and the deficit round robin
    scheduler.

    The class [EgressScheduler] has the operations of the trait; [SchedulerLaws] is
    what a scheduler promises its face, in terms of one first-in first-out queue per
    class, and both schedulers discharge it.  What is derived from the laws alone
    (nothing is lost, duplicated or reordered within a class; a closed scheduler
    drains) then holds for both.  The round robin scheduler also has its fairness
    bound: the bytes any other class can send while a packet waits.

    Each operation runs under the lock of the scheduler, so a history of a face is a
    sequence of them.  The heap is the list of its elements in the order they were
    pushed and [pop] takes the greatest one; no two are equal, so the inner order
    cannot be observed.  An operation that would panic (overflow, index out of range)
    or does not return is [None]. *)

From S2P Require Import Prelude Tlv Name NameUri Packet Lp Dispatcher.
#[local] Open Scope Z_scope.

(** ** Traffic classes *)

Definition NUM_TRAFFIC_CLASSES : nat := 8.

Module TrafficClass.
Definition DEFAULT : Z := 0.
Definition BEST_EFFORT : Z := Z.of_nat NUM_TRAFFIC_CLASSES - 1.
(** [self.0.min(NUM_TRAFFIC_CLASSES - 1)], the index of the class. *)
Definition clamped (self : Z) : nat := Nat.min (Z.to_nat self) (NUM_TRAFFIC_CLASSES - 1).
End TrafficClass.
Import TrafficClass(clamped).

Record PrefixClassifier : Type := mkPrefixClassifier { rules : list (Name * Z); default_class : Z }.

Module PrefixClassifier.
Definition new (rules : list (Name * Z)) (default : Z) : PrefixClassifier := mkPrefixClassifier rules default.

(** [max_by_key]: the last of the greatest elements. *)
Definition max_by_key {A} (key : A -> Z) (l : list A) : option A :=
  fold_left (fun best x => match best with
                           | Some b => if key b <=? key x then Some x else Some b
                           | None => Some x
                           end) l None.

Definition classify (self : PrefixClassifier) (name : option Name) (is_interest : bool) : Z :=
  match name with
  | None => default_class self
  | Some name =>
      match max_by_key (fun r : Name * Z => zlen r.1) (base.filter (fun r => NameOps.has_prefix name r.1 = true) (rules self)) with
      | Some r => r.2
      | None => default_class self
      end
  end.
End PrefixClassifier.

(** ** The trait *)

(** The bare payload, the face it came from and how it is to be framed. *)
Definition EgressItem : Type := bytes * Z * EgressIntent.
Definition payload (item : EgressItem) : bytes := item.1.1.

Class EgressScheduler (S : Type) : Type := {
  enqueue : S -> EgressItem -> Z -> option (bool * S);
  try_dequeue : S -> option (option EgressItem * S);
  close : S -> S;
  is_closed : S -> bool;
  depth : S -> Z * Z;
  dropped : S -> Z;
  dropped_by_class : S -> list Z
}.

(** One poll of the future of [dequeue]: an item, the end, or parked on [notify].
    The check after the flag was seen set is under the lock again. *)
Inductive Poll : Type := Ready (item : option EgressItem) | Parked.

Fixpoint dequeue {S : Type} `{EgressScheduler S} (fuel : nat) (s : S) : option (Poll * S) :=
  match fuel with
  | O => None
  | Datatypes.S fuel =>
      match try_dequeue s with
      | None => None
      | Some (Some item, s) => Some (Ready (Some item), s)
      | Some (None, s) =>
          if is_closed s then
            if (depth s).1 =? 0 then Some (Ready None, s) else dequeue fuel s
          else Some (Parked, s)
      end
  end.

(** [dropped[c].fetch_add(1)], which wraps. *)
Definition bump_drop (c : nat) (dropped : list Z) : option (list Z) :=
  match dropped !! c with Some n => Some (<[c := wrap 64 (n + 1)]> dropped) | None => None end.

Definition sum_drops (dropped : list Z) : Z := wrap 64 (foldr Z.add 0 dropped).

(** ** Strict priority *)

Record Pending : Type := mkPending { p_class : nat; p_seq : Z; p_item : EgressItem }.

(** [Ord for Pending], inverted: the greatest is the lowest class, then the oldest. *)
Definition pending_cmp (self other : Pending) : comparison :=
  match Nat.compare (p_class other) (p_class self) with
  | Eq => Z.compare (p_seq other) (p_seq self)
  | c => c
  end.

(** [BinaryHeap::pop]: the greatest element and the others. *)
Fixpoint heap_pop (heap : list Pending) : option (Pending * list Pending) :=
  match heap with
  | [] => None
  | p :: rest =>
      match heap_pop rest with
      | None => Some (p, [])
      | Some (q, rest') => match pending_cmp p q with Lt => Some (q, p :: rest') | _ => Some (p, rest) end
      end
  end.

Record PriorityScheduler : Type := mkPriority {
  pr_capacity : Z;
  heap : list Pending;
  pr_seq : Z;
  pr_closed : bool;
  pr_dropped : list Z
}.

Module PriorityScheduler.
Definition new (capacity : Z) : PriorityScheduler :=
  mkPriority (Z.max capacity 1) [] 0 false (replicate NUM_TRAFFIC_CLASSES 0).

Definition enqueue (self : PriorityScheduler) (item : EgressItem) (class : Z) : option (bool * PriorityScheduler) :=
  if pr_capacity self <=? zlen (heap self) then
    match bump_drop (clamped class) (pr_dropped self) with
    | None => None
    | Some dropped => Some (false, mkPriority (pr_capacity self) (heap self) (pr_seq self) (pr_closed self) dropped)
    end
  else
    let seq := pr_seq self in
    match checked_add seq 1 with
    | None => None
    | Some next =>
        Some (true, mkPriority (pr_capacity self) (heap self ++ [mkPending (clamped class) seq item]) next
                      (pr_closed self) (pr_dropped self))
    end.

Definition try_dequeue (self : PriorityScheduler) : option (option EgressItem * PriorityScheduler) :=
  match heap_pop (heap self) with
  | None => Some (None, self)
  | Some (p, rest) =>
      Some (Some (p_item p), mkPriority (pr_capacity self) rest (pr_seq self) (pr_closed self) (pr_dropped self))
  end.

Definition close (self : PriorityScheduler) : PriorityScheduler :=
  mkPriority (pr_capacity self) (heap self) (pr_seq self) true (pr_dropped self).
Definition depth (self : PriorityScheduler) : Z * Z := (zlen (heap self), pr_capacity self).
Definition dropped (self : PriorityScheduler) : Z := sum_drops (pr_dropped self).
Definition dropped_by_class (self : PriorityScheduler) : list Z := pr_dropped self.
End PriorityScheduler.

#[export] Instance PriorityScheduler_scheduler : EgressScheduler PriorityScheduler := {
  enqueue := PriorityScheduler.enqueue;
  try_dequeue := PriorityScheduler.try_dequeue;
  close := PriorityScheduler.close;
  is_closed := pr_closed;
  depth := PriorityScheduler.depth;
  dropped := PriorityScheduler.dropped;
  dropped_by_class := PriorityScheduler.dropped_by_class
}.

(** ** Deficit round robin *)

Definition DRR_CLASSES : nat := NUM_TRAFFIC_CLASSES.

Record DrrInner : Type := mkDrrInner {
  queues : list (list (Z * EgressItem));
  deficit : list Z;
  current : nat;
  credited : bool;
  len : Z
}.

Record DeficitRoundRobinScheduler : Type := mkDrr {
  quantum : Z;
  drr_capacity : Z;
  inner : DrrInner;
  drr_closed : bool;
  drr_dropped : list Z
}.

Module DeficitRoundRobinScheduler.
Definition new (quantum capacity : Z) : DeficitRoundRobinScheduler :=
  mkDrr (Z.max quantum 1) (Z.max capacity 1)
    (mkDrrInner (replicate DRR_CLASSES []) (replicate DRR_CLASSES 0) 0 false 0)
    false (replicate NUM_TRAFFIC_CLASSES 0).

Definition set_inner (self : DeficitRoundRobinScheduler) (i : DrrInner) : DeficitRoundRobinScheduler :=
  mkDrr (quantum self) (drr_capacity self) i (drr_closed self) (drr_dropped self).

Definition enqueue (self : DeficitRoundRobinScheduler) (item : EgressItem) (class : Z)
    : option (bool * DeficitRoundRobinScheduler) :=
  let i := inner self in
  let c := clamped class in
  if drr_capacity self <=? len i then
    match bump_drop c (drr_dropped self) with
    | None => None
    | Some dropped => Some (false, mkDrr (quantum self) (drr_capacity self) i (drr_closed self) dropped)
    end
  else
    match queues i !! c with
    | None => None
    | Some q =>
        Some (true, set_inner self
                (mkDrrInner (<[c := q ++ [(zlen (payload item), item)]]> (queues i)) (deficit i) (current i) (credited i) (len i + 1)))
    end.

(** [(cur + 1) % DRR_CLASSES]. *)
Definition next_class (cur : nat) : nat := Nat.modulo (cur + 1) DRR_CLASSES.

(** One turn of the loop of [try_dequeue]: on to the next turn, or an item. *)
Definition turn (quantum : Z) (i : DrrInner) : option (option EgressItem * DrrInner) :=
  let cur := current i in
  match queues i !! cur, deficit i !! cur with
  | Some [], Some _ => Some (None, mkDrrInner (queues i) (<[cur := 0]> (deficit i)) (next_class cur) false (len i))
  | Some ((head, item) :: rest), Some d =>
      match (if credited i then Some d else checked_add d quantum) with
      | None => None
      | Some d =>
          if head <=? d then
            Some (Some item, mkDrrInner (<[cur := rest]> (queues i)) (<[cur := d - head]> (deficit i)) cur true (len i - 1))
          else Some (None, mkDrrInner (queues i) (<[cur := d]> (deficit i)) (next_class cur) false (len i))
      end
  | _, _ => None
  end.

Fixpoint turns (fuel : nat) (quantum : Z) (i : DrrInner) : option (EgressItem * DrrInner) :=
  match fuel with
  | O => None
  | S fuel =>
      match turn quantum i with
      | None => None
      | Some (Some item, i) => Some (item, i)
      | Some (None, i) => turns fuel quantum i
      end
  end.

(** A bound on the turns: eight for every quantum in the bytes that are queued. *)
Definition queued_bytes (i : DrrInner) : Z := foldr Z.add 0 (map (fun q => foldr Z.add 0 (map fst q)) (queues i)).
Definition fuel_of (quantum : Z) (i : DrrInner) : nat := 8 * (Z.to_nat (queued_bytes i / quantum) + 2).

Definition try_dequeue (self : DeficitRoundRobinScheduler) : option (option EgressItem * DeficitRoundRobinScheduler) :=
  let i := inner self in
  if len i =? 0 then Some (None, self)
  else match turns (fuel_of (quantum self) i) (quantum self) i with
       | None => None
       | Some (item, i) => Some (Some item, set_inner self i)
       end.

Definition close (self : DeficitRoundRobinScheduler) : DeficitRoundRobinScheduler :=
  mkDrr (quantum self) (drr_capacity self) (inner self) true (drr_dropped self).
Definition depth (self : DeficitRoundRobinScheduler) : Z * Z := (len (inner self), drr_capacity self).
Definition dropped (self : DeficitRoundRobinScheduler) : Z := sum_drops (drr_dropped self).
Definition dropped_by_class (self : DeficitRoundRobinScheduler) : list Z := drr_dropped self.
End DeficitRoundRobinScheduler.

#[export] Instance DeficitRoundRobinScheduler_scheduler : EgressScheduler DeficitRoundRobinScheduler := {
  enqueue := DeficitRoundRobinScheduler.enqueue;
  try_dequeue := DeficitRoundRobinScheduler.try_dequeue;
  close := DeficitRoundRobinScheduler.close;
  is_closed := drr_closed;
  depth := DeficitRoundRobinScheduler.depth;
  dropped := DeficitRoundRobinScheduler.dropped;
  dropped_by_class := DeficitRoundRobinScheduler.dropped_by_class
}.

(** ** What a scheduler promises

    [queued s k]: the packets of class [k] that wait, oldest first. *)

Class SchedulerLaws (S : Type) `{EgressScheduler S} : Type := {
  inv : S -> Prop;
  queued : S -> nat -> list EgressItem;
  (* the packets that can be admitted without overflow *)
  admissible : S -> EgressItem -> Prop;
  enqueue_total s item class : inv s -> admissible s item -> exists r, enqueue s item class = Some r;
  enqueue_ok s item class b s' : inv s -> admissible s item -> enqueue s item class = Some (b, s') ->
    inv s' /\ is_closed s' = is_closed s /\ (depth s').2 = (depth s).2 /\
    b = ((depth s).1 <? (depth s).2) /\
    (forall k, queued s' k = queued s k ++ (if b && (k =? clamped class)%nat then [item] else [])) /\
    (if b then dropped_by_class s' = dropped_by_class s
     else bump_drop (clamped class) (dropped_by_class s) = Some (dropped_by_class s'));
  try_dequeue_ok s : inv s -> exists r s', try_dequeue s = Some (r, s') /\ inv s' /\ is_closed s' = is_closed s /\
    (depth s').2 = (depth s).2 /\ dropped_by_class s' = dropped_by_class s /\
    match r with
    | None => s' = s /\ forall k, queued s k = []
    | Some item => exists c rest, queued s c = item :: rest /\ forall k, queued s' k = if (k =? c)%nat then rest else queued s k
    end;
  close_ok s : inv s -> inv (close s) /\ is_closed (close s) = true /\ depth (close s) = depth s /\
    (forall k, queued (close s) k = queued s k);
  depth_ok s : inv s -> (depth s).1 = zlen (concat (map (queued s) (seq 0 NUM_TRAFFIC_CLASSES))) /\ (depth s).1 <= (depth s).2;
  queued_range s k : inv s -> (NUM_TRAFFIC_CLASSES <= k)%nat -> queued s k = []
}.

(** A history of a face, and what it shows. *)
Inductive Op : Type := OpEnqueue (item : EgressItem) (class : Z) | OpDequeue | OpClose.
Inductive Event : Type := Accepted (k : nat) (item : EgressItem) | Refused (k : nat) | Sent (item : EgressItem) | Idle | Closed.

Section Histories.
Context {S : Type} `{EgressScheduler S}.

Definition op_step (op : Op) (s : S) : option (Event * S) :=
  match op with
  | OpEnqueue item class =>
      match enqueue s item class with
      | Some (true, s) => Some (Accepted (clamped class) item, s)
      | Some (false, s) => Some (Refused (clamped class), s)
      | None => None
      end
  | OpDequeue =>
      match try_dequeue s with
      | Some (Some item, s) => Some (Sent item, s)
      | Some (None, s) => Some (Idle, s)
      | None => None
      end
  | OpClose => Some (Closed, close s)
  end.

Fixpoint run (ops : list Op) (s : S) : option (list Event * S) :=
  match ops with
  | [] => Some ([], s)
  | op :: ops =>
      match op_step op s with
      | None => None
      | Some (e, s) => match run ops s with Some (es, s) => Some (e :: es, s) | None => None end
      end
  end.

End Histories.

Definition accepted (k : nat) (es : list Event) : list EgressItem :=
  omap (fun e => match e with Accepted c item => if (k =? c)%nat then Some item else None | _ => None end) es.
Definition sent (es : list Event) : list EgressItem := omap (fun e => match e with Sent item => Some item | _ => None end) es.
Definition refusals (es : list Event) : list nat := omap (fun e => match e with Refused c => Some c | _ => None end) es.
Definition of_class (k : nat) (log : list (nat * EgressItem)) : list EgressItem :=
  omap (fun x => if (k =? x.1)%nat then Some x.2 else None) log.

Section Promises.
Context {S : Type} `{L : SchedulerLaws S}.

(** The packets sent, with the class each belongs to. *)
Definition conserves (s s' : S) (es : list Event) : Prop :=
  exists log, map snd log = sent es /\ forall k, queued s k ++ accepted k es = of_class k log ++ queued s' k.

Lemma conserves_refl s : conserves s s [].
Proof. exists []. split; [done|]. intros k. by rewrite app_nil_r. Qed.

Lemma conserves_step s s1 s' e es : conserves s s1 [e] -> conserves s1 s' es -> conserves s s' (e :: es).
Proof.
  intros (l1 & M1 & Q1) (l2 & M2 & Q2). exists (l1 ++ l2). split.
  - rewrite map_app, M1, M2. change (e :: es) with ([e] ++ es). unfold sent. by rewrite omap_app.
  - intros k. change (e :: es) with ([e] ++ es). unfold accepted, of_class in *. rewrite !omap_app, app_assoc, Q1.
    by rewrite <-!app_assoc, Q2.
Qed.

Lemma op_step_conserves op s e s' : inv s ->
  (forall item class, op = OpEnqueue item class -> admissible s item) ->
  op_step op s = Some (e, s') -> inv s' /\ (depth s').2 = (depth s).2 /\ conserves s s' [e].
Proof.
  intros I A E. destruct op as [item class| |]; cbn [op_step] in E.
  - destruct (enqueue s item class) as [[b s1]|] eqn:Q; [|done].
    destruct (enqueue_ok _ _ _ _ _ I (A _ _ eq_refl) Q) as (I1 & _ & D & _ & QQ & _).
    destruct b; simplify_eq; split_conj; try done; exists []; split; try done; intros k; rewrite QQ; cbn [andb].
    + unfold accepted. cbn. by destruct (_ =? _)%nat.
    + done.
  - destruct (try_dequeue_ok s I) as (r & s1 & Q & I1 & _ & D & _ & C). rewrite Q in E.
    destruct r as [item|]; simplify_eq; split_conj; try done.
    + destruct C as (c & rest & Qc & QQ). exists [(c, item)]. split; [done|]. intros k. rewrite QQ.
      unfold of_class. cbn. destruct (Nat.eqb_spec k c) as [->|]; [by rewrite Qc, app_nil_r|by rewrite app_nil_r].
    + destruct C as [-> _]. exists []. split; [done|]. intros k. by rewrite app_nil_r.
  - simplify_eq. destruct (close_ok s I) as (I1 & _ & D & QQ). split_conj; [done|by rewrite D|].
    exists []. split; [done|]. intros k. by rewrite QQ, app_nil_r.
Qed.

(** The packets of a history can be admitted at the point where they come. *)
Fixpoint admissible_all (ops : list Op) (s : S) : Prop :=
  match ops with
  | [] => True
  | op :: ops =>
      (forall item class, op = OpEnqueue item class -> admissible s item) /\
      (forall e s', op_step op s = Some (e, s') -> admissible_all ops s')
  end.

Lemma op_step_total op s : inv s ->
  (forall item class, op = OpEnqueue item class -> admissible s item) -> exists e s', op_step op s = Some (e, s').
Proof.
  intros I A. destruct op as [item class| |]; cbn [op_step]; [| |by eauto].
  - destruct (enqueue_total s item class I (A _ _ eq_refl)) as ([[] ?] & ->); eauto.
  - destruct (try_dequeue_ok s I) as ([?|] & ? & -> & _); eauto.
Qed.

Lemma run_conserves ops s : inv s -> admissible_all ops s ->
  exists es s', run ops s = Some (es, s') /\ inv s' /\ (depth s').2 = (depth s).2 /\ conserves s s' es.
Proof.
  revert s. induction ops as [|op ops IH]; intros s I A; cbn [run].
  - eexists _, _. split_conj; [done|done|done|apply conserves_refl].
  - destruct A as [A1 A2]. destruct (op_step_total op s I A1) as (e & s1 & E). rewrite E.
    destruct (op_step_conserves _ _ _ _ I A1 E) as (I1 & D1 & C1).
    destruct (IH s1 I1 (A2 _ _ E)) as (es & s' & -> & I' & D' & C'). eexists _, _.
    split_conj; [done|done|congruence|by eapply conserves_step].
Qed.

Lemma queued_empty s : inv s -> (depth s).1 = 0 -> forall k, queued s k = [].
Proof.
  intros I D k. destruct (depth_ok s I) as [E _]. rewrite D in E. symmetry in E. apply zlen_0_nil in E.
  destruct (decide (NUM_TRAFFIC_CLASSES <= k)%nat); [by apply queued_range|].
  destruct (queued s k) as [|x l] eqn:Q; [done|]. exfalso.
  assert (x ∈ concat (map (queued s) (seq 0 NUM_TRAFFIC_CLASSES))) as HX; [|rewrite E in HX; by apply elem_of_nil in HX].
  apply list_elem_of_In, in_concat. exists (queued s k). rewrite Q. split; [|by left].
  rewrite <-Q. apply in_map, in_seq. lia.
Qed.

(** A closed scheduler: [dequeue] never parks; it ends exactly when it is empty. *)
Lemma dequeue_closed s fuel : inv s -> is_closed s = true -> fuel <> O ->
  exists r s', dequeue fuel s = Some (Ready r, s') /\ inv s' /\ is_closed s' = true /\ conserves s s' (option_list (Sent <$> r)) /\
    (r = None <-> forall k, queued s k = []).
Proof.
  intros I CL F. destruct fuel as [|fuel]; [done|]. cbn [dequeue].
  destruct (try_dequeue_ok s I) as (r & s1 & -> & I1 & C1 & _ & _ & R). destruct r as [item|].
  - eexists _, _. split_conj; [done|done|congruence| |].
    + destruct R as (c & rest & Qc & QQ). exists [(c, item)]. split; [done|]. intros k. rewrite QQ.
      unfold of_class. cbn. destruct (Nat.eqb_spec k c) as [->|]; [by rewrite Qc, app_nil_r|by rewrite app_nil_r].
    + split; [done|]. intros E. destruct R as (c & rest & Qc & _). by rewrite E in Qc.
  - destruct R as [-> E]. rewrite CL.
    assert ((depth s).1 = 0) as ->.
    { destruct (depth_ok s I) as [-> _]. cbn. by rewrite !E. }
    cbn. eexists _, _. split_conj; [done|done|done|apply conserves_refl|done].
Qed.

End Promises.

(** ** The strict-priority scheduler keeps the promise *)

Module PriorityProofs.

Definition items_of (k : nat) (h : list Pending) : list EgressItem := map p_item (base.filter (fun p => p_class p = k) h).

Record pr_inv (s : PriorityScheduler) : Prop := {
  po_sorted : StronglySorted Z.lt (map p_seq (heap s));
  po_below : Forall (fun p => p_seq p < pr_seq s) (heap s);
  po_class : Forall (fun p => (p_class p < NUM_TRAFFIC_CLASSES)%nat) (heap s);
  po_seq : 0 <= pr_seq s;
  po_cap : zlen (heap s) <= pr_capacity s;
  po_cap1 : 1 <= pr_capacity s;
  po_dropped : length (pr_dropped s) = NUM_TRAFFIC_CLASSES
}.

(** Every element in front of the one removed has a higher class number, those
    behind it at least the same. *)
Lemma heap_pop_spec h : StronglySorted Z.lt (map p_seq h) ->
  match heap_pop h with
  | None => h = []
  | Some (p, rest) => exists l1 l2, h = l1 ++ p :: l2 /\ rest = l1 ++ l2 /\
      Forall (fun q => (p_class p < p_class q)%nat) l1 /\ Forall (fun q => (p_class p <= p_class q)%nat) l2
  end.
Proof.
  induction h as [|p h IH]; intros ST; [done|]. cbn [heap_pop map] in *. apply StronglySorted_inv in ST as [ST LT].
  specialize (IH ST). destruct (heap_pop h) as [[q rest]|].
  - destruct IH as (l1 & l2 & -> & -> & F1 & F2).
    assert (p_seq p < p_seq q) as LTq.
    { rewrite map_app in LT. apply Forall_app in LT as [_ LT]. by apply Forall_cons in LT as [? _]. }
    unfold pending_cmp. destruct (Nat.compare_spec (p_class q) (p_class p)) as [E|E|E].
    + destruct (Z.compare_spec (p_seq q) (p_seq p)); [lia|lia|].
      exists [], (l1 ++ q :: l2). split_conj; [done|done|done|].
      apply Forall_app. split; [|constructor; [lia|]]; eapply Forall_impl; try done; cbn; lia.
    + exists (p :: l1), l2. split_conj; try done. constructor; [lia|done].
    + exists [], (l1 ++ q :: l2). split_conj; [done|done|done|].
      apply Forall_app. split; [|constructor; [lia|]]; eapply Forall_impl; try done; cbn; lia.
  - subst h. exists [], []. by split_conj.
Qed.

Lemma items_of_app k h1 h2 : items_of k (h1 ++ h2) = items_of k h1 ++ items_of k h2.
Proof. unfold items_of. by rewrite filter_app, map_app. Qed.

Lemma items_of_none k h : Forall (fun q => p_class q <> k) h -> items_of k h = [].
Proof.
  induction 1 as [|p h NE _ IH]; [done|]. unfold items_of in *. cbn. by rewrite decide_False.
Qed.

Lemma items_of_cons k p h : items_of k (p :: h) = if (k =? p_class p)%nat then p_item p :: items_of k h else items_of k h.
Proof.
  unfold items_of. cbn. destruct (Nat.eqb_spec k (p_class p)); [by rewrite decide_True|by rewrite decide_False by congruence].
Qed.

Lemma clamped_lt c : (clamped c < NUM_TRAFFIC_CLASSES)%nat.
Proof. unfold clamped, NUM_TRAFFIC_CLASSES. lia. Qed.

Lemma bump_total c (d : list Z) : length d = NUM_TRAFFIC_CLASSES ->
  exists d', bump_drop (clamped c) d = Some d' /\ length d' = NUM_TRAFFIC_CLASSES.
Proof.
  intros L. unfold bump_drop. destruct (lookup_lt_is_Some_2 d (clamped c)) as [n ->].
  { rewrite L. apply clamped_lt. }
  eexists. split; [done|]. by rewrite length_insert.
Qed.

Lemma sorted_remove (l1 l2 : list Z) x : StronglySorted Z.lt (l1 ++ x :: l2) -> StronglySorted Z.lt (l1 ++ l2).
Proof.
  induction l1 as [|y l1 IH]; cbn; intros ST; apply StronglySorted_inv in ST as [ST F]; [done|].
  constructor; [by apply IH|]. apply Forall_app in F as [? F]. apply Forall_cons in F as [_ ?]. by apply Forall_app.
Qed.

Lemma sorted_snoc (l : list Z) x : StronglySorted Z.lt l -> Forall (fun y => y < x) l -> StronglySorted Z.lt (l ++ [x]).
Proof.
  induction 1 as [|y l ST IH F]; cbn; intros B; [by repeat constructor|].
  apply Forall_cons in B as [? B]. constructor; [by apply IH|]. apply Forall_app. by repeat constructor.
Qed.

Lemma enqueue_priority s item class : pr_inv s -> pr_seq s < u64_max ->
  exists b s', PriorityScheduler.enqueue s item class = Some (b, s') /\ pr_inv s' /\
    pr_closed s' = pr_closed s /\ pr_capacity s' = pr_capacity s /\
    b = (zlen (heap s) <? pr_capacity s) /\ pr_seq s' <= pr_seq s + 1 /\
    (forall k, items_of k (heap s') = items_of k (heap s) ++ (if b && (k =? clamped class)%nat then [item] else [])) /\
    (if b then pr_dropped s' = pr_dropped s else bump_drop (clamped class) (pr_dropped s) = Some (pr_dropped s')).
Proof.
  intros [ST BE CL SQ CA C1 DR] U. unfold PriorityScheduler.enqueue.
  destruct (Z.leb_spec (pr_capacity s) (zlen (heap s))) as [LE|LT].
  - destruct (bump_total class _ DR) as (d & E & LD). rewrite E. eexists _, _.
    split_conj; [done|by split|done|done|bcase; lia|cbn; lia| |done]. intros k. cbn. by rewrite app_nil_r.
  - unfold checked_add. unfold_bounds. rewrite (proj2 (Z.leb_le _ _)) by lia. eexists _, _.
    split_conj; [done| |done|done|bcase; lia|cbn; lia| |done].
    + split; cbn [heap pr_seq pr_capacity pr_dropped]; [|apply Forall_app; split|apply Forall_app; split| | |done|done].
      * rewrite map_app. apply sorted_snoc; [done|]. by apply Forall_map.
      * eapply Forall_impl; [exact BE|]. cbn. lia.
      * repeat constructor; cbn; lia.
      * done.
      * constructor; [apply clamped_lt|done].
      * lia.
      * zlen_lia.
    + intros k. cbn [heap]. rewrite items_of_app. f_equal. rewrite items_of_cons. cbn [andb p_class p_item].
      by destruct (_ =? _)%nat.
Qed.

Lemma try_dequeue_priority s : pr_inv s ->
  exists r s', PriorityScheduler.try_dequeue s = Some (r, s') /\ pr_inv s' /\ pr_closed s' = pr_closed s /\
    pr_capacity s' = pr_capacity s /\ pr_dropped s' = pr_dropped s /\ pr_seq s' = pr_seq s /\
    match r with
    | None => s' = s /\ forall k, items_of k (heap s) = []
    | Some item => exists c rest, items_of c (heap s) = item :: rest /\
        (forall k, items_of k (heap s') = if (k =? c)%nat then rest else items_of k (heap s)) /\
        (forall k, (k < c)%nat -> items_of k (heap s) = [])
    end.
Proof.
  intros I. destruct I as [ST BE CL SQ CA C1 DR]. unfold PriorityScheduler.try_dequeue.
  pose proof (heap_pop_spec _ ST) as P. destruct (heap_pop (heap s)) as [[p rest]|].
  - destruct P as (l1 & l2 & E & -> & F1 & F2). eexists _, _. split; [done|]. rewrite E in *.
    rewrite !map_app in ST. cbn in ST. apply Forall_app in BE as [B1 B2]. apply Forall_app in CL as [D1 D2].
    apply Forall_cons in B2 as [? B2]. apply Forall_cons in D2 as [? D2].
    split_conj; try done.
    + split; cbn [heap pr_seq pr_capacity pr_dropped]; try done.
      * rewrite map_app. by eapply sorted_remove.
      * by apply Forall_app.
      * by apply Forall_app.
      * zlen_lia.
    + assert (forall k, (k <= p_class p)%nat -> items_of k l1 = []) as N1.
      { intros k LE. apply items_of_none. eapply Forall_impl; [exact F1|]. cbn. lia. }
      exists (p_class p), (items_of (p_class p) l2). cbn [heap]. split_conj.
      * rewrite items_of_app, N1, items_of_cons, Nat.eqb_refl by lia. done.
      * intros k. rewrite !items_of_app, items_of_cons. destruct (Nat.eqb_spec k (p_class p)) as [->|]; [|done].
        by rewrite N1 by lia.
      * intros k LT. rewrite items_of_app, N1, items_of_cons by lia. rewrite (proj2 (Nat.eqb_neq _ _)) by lia.
        apply items_of_none. eapply Forall_impl; [exact F2|]. cbn. lia.
  - eexists _, _. split; [done|]. split_conj; [by split|done|done|done|done|done|]. intros k. by rewrite P.
Qed.

Lemma items_total h n : Forall (fun p => (p_class p < n)%nat) h ->
  zlen (concat (map (fun k => items_of k h) (seq 0 n))) = zlen h.
Proof.
  induction 1 as [|p h LT _ IH].
  - induction (seq 0 n); [done|]. cbn. done.
  - transitivity (1 + zlen (concat (map (fun k => items_of k h) (seq 0 n)))); [|rewrite IH; zlen_lia].
    clear IH. replace n with (p_class p + S (n - S (p_class p)))%nat by lia.
    rewrite seq_app. cbn [seq]. rewrite !map_app, !concat_app. cbn [map concat]. rewrite items_of_cons, Nat.eqb_refl.
    assert (forall l, ~ In (p_class p) l -> map (fun k => items_of k (p :: h)) l = map (fun k => items_of k h) l) as EQ.
    { intros l NI. apply map_ext_in. intros k IK. rewrite items_of_cons. destruct (Nat.eqb_spec k (p_class p)); congruence. }
    rewrite !EQ by (rewrite in_seq; lia). zlen_lia.
Qed.

End PriorityProofs.
Import PriorityProofs.

#[export, program] Instance PriorityScheduler_laws : SchedulerLaws PriorityScheduler := {
  inv := pr_inv;
  queued s k := items_of k (heap s);
  admissible s _ := pr_seq s < u64_max
}.
Next Obligation.
  intros s item class I U. destruct (enqueue_priority s item class I U) as (b & s' & E & _). by eexists.
Qed.
Next Obligation.
  intros s item class b s' I U E. destruct (enqueue_priority s item class I U) as (b1 & s1 & E1 & P).
  cbn in E. rewrite E1 in E. simplify_eq. by destruct P as (? & ? & ? & ? & _ & ? & ?).
Qed.
Next Obligation.
  intros s I. destruct (try_dequeue_priority s I) as (r & s' & E & ? & ? & ? & ? & _ & R). exists r, s'. split_conj; try done.
  destruct r; [|done]. destruct R as (c & rest & ? & ? & _). by exists c, rest.
Qed.
Next Obligation. intros s [? ? ? ? ? ? ?]. split_conj; try done. Qed.
Next Obligation.
  intros s [? ? CL ? ? ? ?]. split; [|done]. symmetry. by apply (items_total (heap s) NUM_TRAFFIC_CLASSES).
Qed.
Next Obligation.
  intros s k [? ? CL ? ? ? ?] GE. apply items_of_none. eapply Forall_impl; [exact CL|]. cbn. lia.
Qed.

(** ** The round robin scheduler keeps the promise *)

Module DrrProofs.
Import DeficitRoundRobinScheduler.

Definition qv (c : nat) (i : DrrInner) : list (Z * EgressItem) := queues i !!! c.
Definition dv (c : nat) (i : DrrInner) : Z := deficit i !!! c.

(** Credit is only kept by the class being served, or towards a head that does not
    fit yet. *)
Record drr_ok (q : Z) (i : DrrInner) : Prop := {
  do_queues : length (queues i) = DRR_CLASSES;
  do_deficit : length (deficit i) = DRR_CLASSES;
  do_current : (current i < DRR_CLASSES)%nat;
  do_len : len i = zlen (concat (queues i));
  do_quantum : 1 <= q;
  do_sizes c : Forall (fun x => x.1 = zlen (payload x.2) /\ x.1 + q <= u64_max) (qv c i);
  do_pos c : 0 <= dv c i;
  do_low c : (c < DRR_CLASSES)%nat -> c <> current i \/ credited i = false ->
    dv c i = 0 \/ exists h it rest, qv c i = (h, it) :: rest /\ dv c i < h
}.

Lemma next_class_eq cur : (cur < DRR_CLASSES)%nat -> next_class cur = if (cur =? 7)%nat then O else S cur.
Proof. unfold next_class, DRR_CLASSES, NUM_TRAFFIC_CLASSES. intros L. do 8 (destruct cur as [|cur]; [done|]). lia. Qed.

Lemma next_class_lt cur : (cur < DRR_CLASSES)%nat -> (next_class cur < DRR_CLASSES)%nat.
Proof. intros L. rewrite next_class_eq by done. unfold DRR_CLASSES, NUM_TRAFFIC_CLASSES in *. destruct (Nat.eqb_spec cur 7); lia. Qed.

(** The three outcomes of a turn. *)
Definition skip (i : DrrInner) (d : Z) : DrrInner :=
  mkDrrInner (queues i) (<[current i := d]> (deficit i)) (next_class (current i)) false (len i).
Definition serve (i : DrrInner) (rest : list (Z * EgressItem)) (d : Z) : DrrInner :=
  mkDrrInner (<[current i := rest]> (queues i)) (<[current i := d]> (deficit i)) (current i) true (len i - 1).
Definition credit (q : Z) (i : DrrInner) : Z := if credited i then dv (current i) i else dv (current i) i + q.

Lemma turn_cases q i : drr_ok q i ->
  (qv (current i) i = [] /\ turn q i = Some (None, skip i 0)) \/
  (exists h it rest, qv (current i) i = (h, it) :: rest /\
    ((h <= credit q i /\ turn q i = Some (Some it, serve i rest (credit q i - h))) \/
     (credit q i < h /\ turn q i = Some (None, skip i (credit q i))))).
Proof.
  intros OK. pose proof (do_current _ _ OK) as LT. unfold turn.
  destruct (lookup_lt_is_Some_2 (queues i) (current i)) as [l EL]; [by rewrite (do_queues _ _ OK)|].
  destruct (lookup_lt_is_Some_2 (deficit i) (current i)) as [d ED]; [by rewrite (do_deficit _ _ OK)|].
  rewrite EL, ED. apply list_lookup_total_correct in EL as QL. apply list_lookup_total_correct in ED as DL.
  fold (qv (current i) i) in QL. fold (dv (current i) i) in DL. rewrite QL.
  destruct l as [|[h it] rest]; [by left|]. right. exists h, it, rest. split; [done|].
  unfold credit. rewrite DL. destruct (credited i) eqn:CR.
  - destruct (Z.leb_spec h d); [left|right]; done.
  - unfold checked_add. pose proof (do_pos _ _ OK (current i)) as P. rewrite DL in P.
    pose proof (do_sizes _ _ OK (current i)) as SZ. rewrite QL in SZ. apply Forall_cons in SZ as [[E1 E2] _]. cbn in E2.
    assert (d + q <= u64_max).
    { destruct (do_low _ _ OK (current i) LT) as [Z0|(h' & it' & r' & E & L)]; [by right| |]; [|rewrite QL in E; simplify_eq].
      - rewrite DL in Z0. cbn in E1. pose proof (zlen_nonneg (payload it)). lia.
      - lia. }
    rewrite (proj2 (Z.leb_le _ _)) by (unfold usize_max; lia).
    destruct (Z.leb_spec h (d + q)); [left|right]; done.
Qed.

Lemma dv_insert q i c v d ql cu cr ln : drr_ok q i -> (c < DRR_CLASSES)%nat ->
  dv d (mkDrrInner ql (<[c := v]> (deficit i)) cu cr ln) = if (d =? c)%nat then v else dv d i.
Proof.
  intros OK L. unfold dv. cbn. destruct (Nat.eqb_spec d c) as [->|].
  - apply list_lookup_total_insert_eq. by rewrite (do_deficit _ _ OK).
  - by apply list_lookup_total_insert_ne.
Qed.

Lemma qv_insert i c v d dl cu cr ln : (c < length (queues i))%nat ->
  qv d (mkDrrInner (<[c := v]> (queues i)) dl cu cr ln) = if (d =? c)%nat then v else qv d i.
Proof.
  intros L. unfold qv. cbn. destruct (Nat.eqb_spec d c) as [->|].
  - by apply list_lookup_total_insert_eq.
  - by apply list_lookup_total_insert_ne.
Qed.

Lemma qv_skip d i v : qv d (skip i v) = qv d i.
Proof. done. Qed.
Lemma dv_skip q i v d : drr_ok q i -> dv d (skip i v) = if (d =? current i)%nat then v else dv d i.
Proof. intros OK. eapply dv_insert; [done|apply OK]. Qed.
Lemma qv_serve q i rest v d : drr_ok q i -> qv d (serve i rest v) = if (d =? current i)%nat then rest else qv d i.
Proof. intros OK. apply qv_insert. rewrite (do_queues _ _ OK). apply OK. Qed.
Lemma dv_serve q i rest v d : drr_ok q i -> dv d (serve i rest v) = if (d =? current i)%nat then v else dv d i.
Proof. intros OK. eapply dv_insert; [done|apply OK]. Qed.

Lemma skip_ok q i v : drr_ok q i ->
  (qv (current i) i = [] /\ v = 0 \/ exists h it rest, qv (current i) i = (h, it) :: rest /\ 0 <= v < h) -> drr_ok q (skip i v).
Proof.
  intros OK C. split; try apply OK.
  - cbn. rewrite length_insert. apply OK.
  - by apply next_class_lt, OK.
  - intros c. rewrite (dv_skip q) by done. destruct (Nat.eqb_spec c (current i)); [|apply OK].
    destruct C as [[_ ->]|(? & ? & ? & _ & ?)]; lia.
  - intros c LT _. rewrite (dv_skip q), qv_skip by done. destruct (Nat.eqb_spec c (current i)) as [->|NE].
    + destruct C as [[_ ->]|(h & it & rest & -> & ?)]; [by left|]. right. exists h, it, rest. split; [done|lia].
    + apply OK; [done|]. by left.
Qed.

Lemma concat_insert {A} (ls : list (list A)) c l l' : ls !! c = Some l ->
  zlen (concat (<[c := l']> ls)) = zlen (concat ls) - zlen l + zlen l'.
Proof.
  revert c. induction ls as [|x ls IH]; intros [|c] E; simplify_eq/=; [zlen_lia|]. rewrite !zlen_app, (IH c) by done. lia.
Qed.

Lemma qv_lookup q i c : drr_ok q i -> (c < DRR_CLASSES)%nat -> queues i !! c = Some (qv c i).
Proof. intros OK L. apply list_lookup_lookup_total_lt. by rewrite (do_queues _ _ OK). Qed.

Lemma serve_ok q i h it rest : drr_ok q i -> qv (current i) i = (h, it) :: rest -> h <= credit q i ->
  drr_ok q (serve i rest (credit q i - h)).
Proof.
  intros OK E LE. pose proof (do_current _ _ OK) as LT. split; try apply OK.
  - cbn. rewrite length_insert. apply OK.
  - cbn. rewrite length_insert. apply OK.
  - cbn. rewrite (concat_insert _ _ ((h, it) :: rest)); [|by rewrite <-E; eapply qv_lookup].
    rewrite (do_len _ _ OK). zlen_lia.
  - intros c. rewrite (qv_serve q) by done. pose proof (do_sizes _ _ OK c) as SZ.
    destruct (Nat.eqb_spec c (current i)) as [->|]; [|done]. rewrite E in SZ. by apply Forall_cons in SZ as [_ ?].
  - intros c. rewrite (dv_serve q) by done. destruct (Nat.eqb_spec c (current i)); [lia|apply OK].
  - intros c L [NE|?]; [|done]. cbn in NE. rewrite (dv_serve q), (qv_serve q) by done.
    rewrite (proj2 (Nat.eqb_neq _ _)) by done. apply OK; [done|by left].
Qed.

Lemma turn_ok q i r i' : drr_ok q i -> turn q i = Some (r, i') -> drr_ok q i'.
Proof.
  intros OK E. destruct (turn_cases q i OK) as [[Q T]|(h & it & rest & Q & [[L T]|[L T]])]; rewrite T in E; simplify_eq.
  - apply skip_ok; [done|by left].
  - by eapply serve_ok.
  - apply skip_ok; [done|]. right. exists h, it, rest. split; [done|]. split; [|done].
    pose proof (do_pos _ _ OK (current i)). pose proof (do_quantum _ _ OK). unfold credit. destruct (credited i); lia.
Qed.

(** *** How long a packet waits

    [c] is a backlogged class whose head has [h] bytes; [visits] the turns its class
    still has to be credited in, [dist] how far the cursor is from it. *)

Definition cdiv (x q : Z) : Z := (x + q - 1) / q.

Lemma cdiv_spec x q : 1 <= q -> (cdiv x q - 1) * q < x <= cdiv x q * q.
Proof.
  intros Q. unfold cdiv. pose proof (Z.div_mod (x + q - 1) q ltac:(lia)). pose proof (Z.mod_pos_bound (x + q - 1) q ltac:(lia)).
  nia.
Qed.
Lemma cdiv_sub x q : 1 <= q -> cdiv (x - q) q = cdiv x q - 1.
Proof. intros Q. unfold cdiv. replace (x - q + q - 1) with (x + q - 1 + (-1) * q) by lia. rewrite Z.div_add by lia. lia. Qed.
Lemma cdiv_mono x y q : 1 <= q -> x <= y -> cdiv x q <= cdiv y q.
Proof. intros Q L. unfold cdiv. apply Z.div_le_mono; lia. Qed.
Lemma cdiv_pos x q : 1 <= q -> 0 < x -> 1 <= cdiv x q.
Proof. intros Q L. pose proof (cdiv_spec x q Q). nia. Qed.

Definition dist (cur c : nat) : Z := if (cur <=? c)%nat then Z.of_nat (c - cur) else Z.of_nat (c + 8 - cur).
Definition ahead (cur c d : nat) : bool := dist cur d <? dist cur c.

Ltac dist_lia :=
  unfold ahead, dist, DRR_CLASSES, NUM_TRAFFIC_CLASSES in *;
  repeat match goal with
  | |- context [(?a =? ?b)%nat] => destruct (Nat.eqb_spec a b)
  | |- context [(?a <=? ?b)%nat] => destruct (Nat.leb_spec a b)
  | |- context [?a <? ?b] => destruct (Z.ltb_spec a b)
  end; cbn; try done; try lia.

Lemma dist_self c : dist c c = 0.
Proof. dist_lia. Qed.
Lemma dist_range cur c : (cur < DRR_CLASSES)%nat -> (c < DRR_CLASSES)%nat -> 0 <= dist cur c <= 7.
Proof. intros. dist_lia. Qed.
Lemma dist_next cur c : (cur < DRR_CLASSES)%nat -> (c < DRR_CLASSES)%nat -> cur <> c -> dist (next_class cur) c = dist cur c - 1.
Proof. intros. rewrite next_class_eq by done. dist_lia. Qed.
Lemma dist_next_self c : (c < DRR_CLASSES)%nat -> dist (next_class c) c = 7.
Proof. intros. rewrite next_class_eq by done. dist_lia. Qed.
Lemma ahead_next cur c d : (cur < DRR_CLASSES)%nat -> (c < DRR_CLASSES)%nat -> (d < DRR_CLASSES)%nat -> cur <> c -> d <> c ->
  ahead (next_class cur) c d = ahead cur c d && negb (d =? cur)%nat.
Proof. intros. rewrite next_class_eq by done. dist_lia. Qed.
Lemma ahead_next_self c d : (c < DRR_CLASSES)%nat -> (d < DRR_CLASSES)%nat -> d <> c -> ahead (next_class c) c d = true.
Proof. intros. rewrite next_class_eq by done. dist_lia. Qed.
Lemma ahead_self cur c : (cur < DRR_CLASSES)%nat -> (c < DRR_CLASSES)%nat -> cur <> c -> ahead cur c cur = true.
Proof. intros. dist_lia. Qed.

(** Turns before the head of [c] is served, at most. *)
Definition being_served (c : nat) (i : DrrInner) : bool := (current i =? c)%nat && credited i.
Definition visits (q : Z) (c : nat) (h : Z) (i : DrrInner) : Z := Z.max 1 (cdiv (h - dv c i) q).
Definition turns_left (q : Z) (c : nat) (h : Z) (i : DrrInner) : Z :=
  if being_served c i then (if h <=? dv c i then 0 else 8 * cdiv (h - dv c i) q)
  else dist (current i) c + 8 * (visits q c h i - 1).

(** Bytes class [d] can send before that, at most. *)
Definition credits_left (q : Z) (c : nat) (h : Z) (d : nat) (i : DrrInner) : Z :=
  if being_served c i then (if h <=? dv c i then 0 else cdiv (h - dv c i) q)
  else visits q c h i - 1 + (if ahead (current i) c d && negb ((d =? current i)%nat && credited i) then 1 else 0).
Definition bytes_left (q : Z) (c : nat) (h : Z) (d : nat) (i : DrrInner) : Z := dv d i + q * credits_left q c h d i.

Lemma bytes_left_bound q c h d i : drr_ok q i -> (c < DRR_CLASSES)%nat -> d <> c ->
  bytes_left q c h d i <= dv d i + q * Z.max 1 (cdiv h q).
Proof.
  intros OK LC NE. unfold bytes_left, credits_left, visits. pose proof (do_quantum _ _ OK) as Q. pose proof (do_pos _ _ OK c) as P.
  pose proof (cdiv_mono (h - dv c i) h q Q ltac:(lia)). apply Zplus_le_compat_l, Z.mul_le_mono_nonneg_l; [lia|].
  destruct (being_served c i); [destruct (_ <=? _); lia|]. destruct (_ && _); lia.
Qed.

Lemma bytes_left_pos q c h d i : drr_ok q i -> dv d i <= bytes_left q c h d i.
Proof.
  intros OK. unfold bytes_left, credits_left, visits. pose proof (do_quantum _ _ OK) as Q.
  assert (forall x, 0 <= x -> dv d i <= dv d i + q * x) as X by (intros; nia). apply X.
  destruct (being_served c i); [destruct (Z.leb_spec h (dv c i)); [lia|]|destruct (_ && _); lia].
  pose proof (cdiv_pos (h - dv c i) q Q ltac:(lia)). lia.
Qed.

Lemma not_served_ne c i : current i <> c -> being_served c i = false.
Proof. intros NE. unfold being_served. by rewrite (proj2 (Nat.eqb_neq _ _)). Qed.
Lemma not_served_uncredited c i : credited i = false -> being_served c i = false.
Proof. intros E. unfold being_served. rewrite E. apply andb_false_r. Qed.

(** The cursor leaves [c]: its head did not fit, so a visit is used up. *)
Lemma skip_self q c h i : drr_ok q i -> current i = c -> credit q i < h ->
  turns_left q c h (skip i (credit q i)) < turns_left q c h i /\
  forall d, (d < DRR_CLASSES)%nat -> d <> c -> bytes_left q c h d (skip i (credit q i)) <= bytes_left q c h d i.
Proof.
  intros OK E L. pose proof (do_quantum _ _ OK) as Q. pose proof (do_current _ _ OK) as LC. rewrite E in LC.
  unfold turns_left, bytes_left, credits_left. rewrite (not_served_uncredited c (skip _ _)) by done.
  unfold visits. rewrite !(dv_skip q) by done. cbn [skip current credited]. rewrite E, Nat.eqb_refl, dist_next_self by done.
  unfold being_served. rewrite E, Nat.eqb_refl. cbn [andb].
  assert (forall d, ahead c c d = false) as NA by (intros d; unfold ahead; rewrite dist_self; unfold dist; destruct (_ <=? _)%nat; bcase; lia).
  unfold credit in *. rewrite E in *. destruct (credited i).
  - rewrite (proj2 (Z.leb_gt _ _)) by done. pose proof (cdiv_pos (h - dv c i) q Q ltac:(lia)). split; [lia|].
    intros d LD NE. rewrite (dv_skip q), E, ahead_next_self, (proj2 (Nat.eqb_neq d c) NE) by done. rewrite andb_false_r. cbn [andb negb].
    replace (Z.max 1 (cdiv (h - dv c i) q) - 1 + 1) with (cdiv (h - dv c i) q) by lia. lia.
  - replace (h - (dv c i + q)) with (h - dv c i - q) by lia. rewrite cdiv_sub by done.
    assert (1 <= cdiv (h - dv c i) q - 1) as K by (rewrite <-cdiv_sub by done; apply cdiv_pos; lia). rewrite dist_self.
    split; [lia|]. intros d LD NE. rewrite (dv_skip q), E, ahead_next_self, NA, (proj2 (Nat.eqb_neq d c) NE) by done.
    rewrite !andb_false_r. cbn [andb negb]. apply Zplus_le_compat_l, Z.mul_le_mono_nonneg_l; lia.
Qed.

Lemma credit_pos q i : drr_ok q i -> 0 <= credit q i.
Proof. intros OK. pose proof (do_pos _ _ OK (current i)). pose proof (do_quantum _ _ OK). unfold credit. destruct (credited i); lia. Qed.

(** What class [d] has after a turn of another class than [c], in front of [x] bytes
    it may have sent. *)
Lemma skip_other q c h i v : drr_ok q i -> current i <> c -> (c < DRR_CLASSES)%nat -> 0 <= v <= credit q i ->
  turns_left q c h (skip i v) < turns_left q c h i /\
  forall d, (d < DRR_CLASSES)%nat -> d <> c -> bytes_left q c h d (skip i v) <= bytes_left q c h d i.
Proof.
  intros OK E LC V. pose proof (do_current _ _ OK) as LU. pose proof (do_quantum _ _ OK) as Q.
  unfold turns_left, bytes_left, credits_left.
  rewrite (not_served_uncredited c (skip _ _)), (not_served_ne c i) by done. unfold visits. rewrite !(dv_skip q) by done.
  cbn [skip current credited]. rewrite dist_next, (proj2 (Nat.eqb_neq c (current i))) by done. split; [lia|].
  intros d LD NE. rewrite (dv_skip q), ahead_next, andb_false_r by done. cbn [negb]. rewrite andb_true_r.
  destruct (Nat.eqb_spec d (current i)) as [->|]; cbn [andb negb]; [|by rewrite !andb_true_r].
  rewrite andb_false_r, ahead_self by done. cbn [andb]. unfold credit in V. destruct (credited i); cbn [negb]; nia.
Qed.

Lemma serve_other q c h i hd it rest : drr_ok q i -> current i <> c -> (c < DRR_CLASSES)%nat ->
  qv (current i) i = (hd, it) :: rest ->
  forall d, (d < DRR_CLASSES)%nat -> d <> c ->
    bytes_left q c h d (serve i rest (credit q i - hd)) + (if (d =? current i)%nat then hd else 0) <= bytes_left q c h d i.
Proof.
  intros OK E LC QE d LD NE. pose proof (do_current _ _ OK) as LU. pose proof (do_quantum _ _ OK) as Q.
  unfold bytes_left, credits_left. rewrite !(not_served_ne c) by done. unfold visits. rewrite !(dv_serve q) by done.
  cbn [serve current credited]. rewrite (proj2 (Nat.eqb_neq c (current i))) by done.
  destruct (Nat.eqb_spec d (current i)) as [->|]; cbn [andb negb]; [|lia].
  rewrite andb_false_r, ahead_self by done. cbn [andb]. unfold credit. destruct (credited i); cbn [negb]; nia.
Qed.

Lemma turn_moves q i i' c h it rest : drr_ok q i -> (c < DRR_CLASSES)%nat -> qv c i = (h, it) :: rest -> turn q i = Some (None, i') ->
  (forall k, qv k i' = qv k i) /\ turns_left q c h i' < turns_left q c h i /\
  forall d, (d < DRR_CLASSES)%nat -> d <> c -> bytes_left q c h d i' <= bytes_left q c h d i.
Proof.
  intros OK LC QC T. pose proof (credit_pos _ _ OK).
  destruct (turn_cases q i OK) as [[Q E]|(h' & it' & rest' & Q & [[L E]|[L E]])]; rewrite E in T; simplify_eq; (split; [done|]).
  - apply skip_other; [done| |done|lia]. intros EC. rewrite EC in Q. congruence.
  - destruct (decide (current i = c)) as [EC|NE]; [|apply skip_other; [done..|lia]].
    apply skip_self; [done|done|]. congruence.
Qed.

Lemma turn_serves q i item i' : drr_ok q i -> turn q i = Some (Some item, i') ->
  exists rest, qv (current i') i = (zlen (payload item), item) :: rest /\ (current i' < DRR_CLASSES)%nat /\
    (forall k, qv k i' = if (k =? current i')%nat then rest else qv k i) /\
    forall c h, (c < DRR_CLASSES)%nat -> c <> current i' -> forall d, (d < DRR_CLASSES)%nat -> d <> c ->
      bytes_left q c h d i' + (if (d =? current i')%nat then zlen (payload item) else 0) <= bytes_left q c h d i.
Proof.
  intros OK T. destruct (turn_cases q i OK) as [[Q E]|(h & it & rest & Q & [[L E]|[L E]])]; rewrite E in T; simplify_eq.
  pose proof (do_sizes _ _ OK (current i)) as SZ. rewrite Q in SZ. apply Forall_cons in SZ as [[E1 _] _]. cbn in E1. subst h.
  exists rest. cbn [serve current]. split_conj; [done|apply OK|by intros k; apply (qv_serve q)|].
  intros c h LC NE d LD ND. by eapply serve_other.
Qed.

(** The loop of [try_dequeue] ends: the head of any backlogged class bounds it. *)
Lemma turns_return q i fuel c h it rest : drr_ok q i -> (c < DRR_CLASSES)%nat -> qv c i = (h, it) :: rest ->
  turns_left q c h i < Z.of_nat fuel ->
  exists item i' rest', turns fuel q i = Some (item, i') /\ drr_ok q i' /\
    qv (current i') i = (zlen (payload item), item) :: rest' /\ (current i' < DRR_CLASSES)%nat /\
    (forall k, qv k i' = if (k =? current i')%nat then rest' else qv k i) /\
    (c <> current i' -> forall d, (d < DRR_CLASSES)%nat -> d <> c ->
      bytes_left q c h d i' + (if (d =? current i')%nat then zlen (payload item) else 0) <= bytes_left q c h d i).
Proof.
  revert i. induction fuel as [|fuel IH]; intros i OK LC QC F.
  - exfalso. unfold turns_left, visits in F. pose proof (do_quantum _ _ OK) as Q. pose proof (do_current _ _ OK) as LU.
    pose proof (dist_range (current i) c LU LC). destruct (being_served c i); [|lia].
    destruct (Z.leb_spec h (dv c i)); [lia|]. pose proof (cdiv_pos (h - dv c i) q Q ltac:(lia)). lia.
  - cbn [turns]. destruct (turn q i) as [[[item|] i1]|] eqn:T.
    + destruct (turn_serves _ _ _ _ OK T) as (rest' & ? & ? & ? & B). exists item, i1, rest'. split_conj; try done.
      * by eapply turn_ok.
      * intros NE. by apply B.
    + destruct (turn_moves _ _ _ _ _ _ _ OK LC QC T) as (QQ & TL & BL).
      destruct (IH i1) as (item & i' & rest' & -> & OK' & Q' & L' & QQ' & B'); [by eapply turn_ok|done|by rewrite QQ|lia|].
      exists item, i', rest'. split_conj; try done; [by rewrite <-QQ| |].
      * intros k. rewrite QQ'. by rewrite QQ.
      * intros NE d LD ND. specialize (B' NE d LD ND). specialize (BL d LD ND). lia.
    + destruct (turn_cases q i OK) as [[Q E]|(? & ? & ? & Q & [[L E]|[L E]])]; congruence.
Qed.

Lemma zsum_nonneg (l : list Z) : Forall (fun x => 0 <= x) l -> 0 <= foldr Z.add 0 l.
Proof. induction 1; cbn; lia. Qed.
Lemma zsum_elem (l : list Z) x : Forall (fun x => 0 <= x) l -> In x l -> x <= foldr Z.add 0 l.
Proof.
  induction 1 as [|y l Y F IH]; [done|]. cbn. pose proof (zsum_nonneg l F). intros [->|I]; [lia|]. specialize (IH I). lia.
Qed.

Lemma head_le_bytes q i c h it rest : drr_ok q i -> (c < DRR_CLASSES)%nat -> qv c i = (h, it) :: rest -> 0 <= h <= queued_bytes i.
Proof.
  intros OK LC QC.
  assert (forall l, In l (queues i) -> Forall (fun x => 0 <= x) (map fst l)) as NN.
  { intros l I. apply list_elem_of_In, list_elem_of_lookup in I as [k K]. apply list_lookup_total_correct in K as <-.
    apply Forall_map. eapply Forall_impl; [apply (do_sizes _ _ OK k)|]. cbn. intros [? ?] [-> _]. apply zlen_nonneg. }
  pose proof (qv_lookup _ _ _ OK LC) as K. rewrite QC in K. apply list_elem_of_lookup_2, list_elem_of_In in K as IN.
  specialize (NN _ IN) as N1. cbn in N1. apply Forall_cons in N1 as [H0 N1]. split; [done|].
  transitivity (foldr Z.add 0 (map fst ((h, it) :: rest))); [cbn; pose proof (zsum_nonneg _ N1); lia|].
  apply zsum_elem; [|apply in_map_iff; by eexists]. apply Forall_forall. intros x IX.
  apply list_elem_of_In, in_map_iff in IX as (l & <- & IL). by apply zsum_nonneg, NN.
Qed.

Lemma fuel_enough q i c h it rest : drr_ok q i -> (c < DRR_CLASSES)%nat -> qv c i = (h, it) :: rest ->
  turns_left q c h i < Z.of_nat (fuel_of q i).
Proof.
  intros OK LC QC. destruct (head_le_bytes _ _ _ _ _ _ OK LC QC) as [H0 HB]. pose proof (do_quantum _ _ OK) as Q.
  pose proof (do_current _ _ OK) as LU. pose proof (dist_range _ _ LU LC). pose proof (do_pos _ _ OK c).
  assert (cdiv (h - dv c i) q <= queued_bytes i / q + 1) as B.
  { unfold cdiv. transitivity ((queued_bytes i + 1 * q) / q); [apply Z.div_le_mono; lia|]. rewrite Z.div_add by lia. lia. }
  assert (0 <= queued_bytes i / q) by (apply Z.div_pos; lia).
  unfold fuel_of, turns_left, visits. destruct (being_served c i); [destruct (_ <=? _)|]; lia.
Qed.

Lemma backlogged q i : drr_ok q i -> len i <> 0 -> exists c h it rest, (c < DRR_CLASSES)%nat /\ qv c i = (h, it) :: rest.
Proof.
  intros OK L. rewrite (do_len _ _ OK) in L. destruct (concat (queues i)) as [|x l] eqn:E; [done|].
  assert (In x (concat (queues i))) as I by (rewrite E; by left). apply in_concat in I as (k & IK & IX).
  apply list_elem_of_In, list_elem_of_lookup in IK as [c K]. apply lookup_lt_Some in K as LT. rewrite (do_queues _ _ OK) in LT.
  apply list_lookup_total_correct in K. fold (qv c i) in K. destruct k as [|[h it] rest]; [done|]. by exists c, h, it, rest.
Qed.

Record drr_inv (s : DeficitRoundRobinScheduler) : Prop := {
  di_ok : drr_ok (quantum s) (inner s);
  di_cap : len (inner s) <= drr_capacity s;
  di_cap1 : 1 <= drr_capacity s;
  di_dropped : length (drr_dropped s) = NUM_TRAFFIC_CLASSES
}.
Definition waiting (s : DeficitRoundRobinScheduler) (k : nat) : list EgressItem := map snd (qv k (inner s)).

(** What one class may send before the head [it] of class [c]. *)
Definition allowance (s : DeficitRoundRobinScheduler) (c : nat) (it : EgressItem) (d : nat) : Z :=
  bytes_left (quantum s) c (zlen (payload it)) d (inner s).

Lemma waiting_head s c it rest : drr_inv s -> waiting s c = it :: rest ->
  (c < DRR_CLASSES)%nat /\ exists rest', qv c (inner s) = (zlen (payload it), it) :: rest'.
Proof.
  intros [OK _ _ _] W. unfold waiting in W. pose proof (do_sizes _ _ OK c) as SZ.
  destruct (qv c (inner s)) as [|[h it'] r] eqn:Q; [done|]. simplify_eq/=. apply Forall_cons in SZ as [[E _] _]. cbn in E. subst h.
  split; [|by eexists]. destruct (decide (c < DRR_CLASSES)%nat) as [|GE]; [done|]. unfold qv in Q.
  rewrite list_lookup_total_alt, lookup_ge_None_2 in Q; [done|]. rewrite (do_queues _ _ OK). lia.
Qed.

Lemma try_dequeue_drr s : drr_inv s ->
  exists r s', try_dequeue s = Some (r, s') /\ drr_inv s' /\ drr_closed s' = drr_closed s /\
    drr_capacity s' = drr_capacity s /\ drr_dropped s' = drr_dropped s /\ quantum s' = quantum s /\
    match r with
    | None => s' = s /\ forall k, waiting s k = []
    | Some item => exists e rest, (e < DRR_CLASSES)%nat /\ waiting s e = item :: rest /\
        (forall k, waiting s' k = if (k =? e)%nat then rest else waiting s k) /\
        forall c it rest', waiting s c = it :: rest' -> c <> e -> forall d, (d < DRR_CLASSES)%nat -> d <> c ->
          allowance s' c it d + (if (d =? e)%nat then zlen (payload item) else 0) <= allowance s c it d
    end.
Proof.
  intros I. pose proof I as [OK CA C1 DR]. unfold try_dequeue. destruct (Z.eqb_spec (len (inner s)) 0) as [L0|L0].
  - eexists _, _. split; [done|]. split_conj; try done. intros k. unfold waiting.
    destruct (waiting s k) as [|it rest] eqn:W; [done|]. destruct (waiting_head _ _ _ _ I W) as (LK & r & Q).
    pose proof (do_len _ _ OK) as LN. pose proof (qv_lookup _ _ _ OK LK) as K. rewrite Q in K.
    rewrite L0 in LN. symmetry in LN. apply zlen_0_nil in LN.
    apply list_elem_of_lookup_2, list_elem_of_In in K.
    assert (In (zlen (payload it), it) (concat (queues (inner s)))) as X by (apply in_concat; eexists; split; [done|by left]).
    by rewrite LN in X.
  - destruct (backlogged _ _ OK L0) as (c & h & it & rest & LC & QC).
    destruct (turns_return _ _ _ _ _ _ _ OK LC QC (fuel_enough _ _ _ _ _ _ OK LC QC)) as (item & i' & rest' & T & OK' & Q' & LE & QQ & _).
    rewrite T. eexists _, _. split; [done|]. split_conj; try done.
    + split; cbn [set_inner quantum inner drr_capacity drr_dropped]; try done.
      rewrite (do_len _ _ OK'). pose proof (do_len _ _ OK) as LN.
      enough (zlen (concat (queues i')) <= zlen (concat (queues (inner s)))) by lia.
      replace (queues i') with (<[current i' := rest']> (queues (inner s))).
      { rewrite (concat_insert _ _ ((zlen (payload item), item) :: rest')); [zlen_lia|]. rewrite <-Q'. by eapply qv_lookup. }
      apply list_eq_same_length with (n := DRR_CLASSES); [apply OK'|rewrite length_insert; apply OK|].
      intros k x y LK X Y. apply list_lookup_total_correct in X, Y. fold (qv k i') in Y. rewrite QQ in Y.
      destruct (Nat.eqb_spec k (current i')) as [->|NE].
      * rewrite list_lookup_total_insert_eq in X by (by rewrite (do_queues _ _ OK)). congruence.
      * rewrite list_lookup_total_insert_ne in X by done. unfold qv in Y. congruence.
    + exists (current i'), (map snd rest'). split_conj; [done|unfold waiting; by rewrite Q'| |].
      * intros k. unfold waiting. cbn [set_inner inner]. rewrite QQ. by destruct (_ =? _)%nat.
      * intros c' it' r' W NE d LD ND. destruct (waiting_head _ _ _ _ I W) as (LC' & r2 & QC').
        destruct (turns_return _ _ _ _ _ _ _ OK LC' QC' (fuel_enough _ _ _ _ _ _ OK LC' QC')) as (item2 & i2 & rest2 & T2 & _ & _ & _ & _ & B).
        rewrite T in T2. simplify_eq. by apply B.
Qed.

Lemma enqueue_drr s item class : drr_inv s -> zlen (payload item) + quantum s <= u64_max ->
  exists b s', enqueue s item class = Some (b, s') /\ drr_inv s' /\ drr_closed s' = drr_closed s /\
    drr_capacity s' = drr_capacity s /\ quantum s' = quantum s /\ b = (len (inner s) <? drr_capacity s) /\
    (forall k, waiting s' k = waiting s k ++ (if b && (k =? clamped class)%nat then [item] else [])) /\
    (if b then drr_dropped s' = drr_dropped s else bump_drop (clamped class) (drr_dropped s) = Some (drr_dropped s')) /\
    forall c it d, allowance s' c it d = allowance s c it d.
Proof.
  intros I U. pose proof I as [OK CA C1 DR]. unfold enqueue. pose proof (clamped_lt class) as LC.
  destruct (Z.leb_spec (drr_capacity s) (len (inner s))) as [LE|LT].
  - destruct (bump_total class _ DR) as (d & E & LD). rewrite E. eexists _, _.
    split_conj; [done|by split|done|done|done|bcase; lia| |done|done]. intros k. cbn. by rewrite app_nil_r.
  - rewrite (qv_lookup _ _ _ OK LC). eexists _, _.
    assert (clamped class < length (queues (inner s)))%nat as LQ by (by rewrite (do_queues _ _ OK)).
    split_conj; [done| |done|done|done|bcase; lia| |done|done].
    + split; cbn [set_inner quantum inner drr_capacity drr_dropped len]; [|lia|done|done].
      split; cbn [queues deficit current credited len]; try apply OK.
      * rewrite length_insert. apply OK.
      * rewrite (concat_insert _ _ _ _ (qv_lookup _ _ _ OK LC)), (do_len _ _ OK). zlen_lia.
      * intros c. rewrite qv_insert by done. destruct (Nat.eqb_spec c (clamped class)) as [->|]; [|apply OK].
        apply Forall_app. split; [apply OK|]. constructor; [cbn; lia|done].
      * intros c LT' NS. rewrite qv_insert by done. unfold dv. cbn [deficit]. fold (dv c (inner s)).
        destruct (do_low _ _ OK c LT' NS) as [|(h & it & rest & Q & ?)]; [by left|right].
        destruct (Nat.eqb_spec c (clamped class)) as [<-|]; [|by eexists _, _, _]. rewrite Q. by eexists _, _, _.
    + intros k. unfold waiting. cbn [set_inner inner]. rewrite qv_insert by done. cbn [andb].
      destruct (Nat.eqb_spec k (clamped class)) as [->|]; [by rewrite map_app|by rewrite app_nil_r].
Qed.

Lemma waiting_total s : drr_inv s -> len (inner s) = zlen (concat (map (waiting s) (seq 0 NUM_TRAFFIC_CLASSES))).
Proof.
  intros [OK _ _ _]. rewrite (do_len _ _ OK). unfold waiting.
  rewrite <-(map_map (fun k => qv k (inner s)) (map snd)), <-concat_map. unfold zlen. rewrite length_map. do 3 f_equal.
  apply list_eq_same_length with (n := DRR_CLASSES); [by rewrite length_map, length_seq|apply OK|].
  intros k x y LK X Y. apply list_lookup_total_correct in X. rewrite list_lookup_fmap, lookup_seq_lt in Y by done. cbn in Y.
  unfold qv in Y. congruence.
Qed.

End DrrProofs.

Import DrrProofs.

#[export, program] Instance DeficitRoundRobinScheduler_laws : SchedulerLaws DeficitRoundRobinScheduler := {
  inv := drr_inv;
  queued := waiting;
  admissible s item := zlen (payload item) + quantum s <= u64_max
}.
Next Obligation.
  intros s item class I U. destruct (enqueue_drr s item class I U) as (b & s' & E & _). by eexists.
Qed.
Next Obligation.
  intros s item class b s' I U E. destruct (enqueue_drr s item class I U) as (b1 & s1 & E1 & P).
  cbn in E. rewrite E1 in E. simplify_eq. by destruct P as (? & ? & ? & ? & ? & ? & ? & ?).
Qed.
Next Obligation.
  intros s I. destruct (try_dequeue_drr s I) as (r & s' & E & ? & ? & ? & ? & _ & R). exists r, s'. split_conj; try done.
  destruct r; [|done]. destruct R as (c & rest & _ & ? & ? & _). by exists c, rest.
Qed.
Next Obligation. intros s [? ? ? ?]. split_conj; done. Qed.
Next Obligation.
  intros s I. split; [|apply I]. by apply waiting_total.
Qed.
Next Obligation.
  intros s k I GE. destruct (waiting s k) as [|it rest] eqn:W; [done|].
  destruct (waiting_head _ _ _ _ I W) as [LT _]. unfold DRR_CLASSES in LT. lia.
Qed.

(** ** Histories *)

(** The counters of refused packets. *)
Section Counters.
Context {S : Type} `{L : SchedulerLaws S}.

Definition refused (k : nat) (es : list Event) : Z := zlen (base.filter (fun c => c = k) (refusals es)).

Lemma drops_same (d : list Z) k : Forall is_u64 d -> d !!! k = wrap 64 (d !!! k + 0).
Proof.
  intros U. rewrite Z.add_0_r. symmetry. apply wrap_small. destruct (d !! k) as [m|] eqn:EK.
  - rewrite (list_lookup_total_correct _ _ _ EK). pose proof (Forall_lookup_1 _ _ _ _ U EK). unfold_bounds. lia.
  - rewrite list_lookup_total_alt, EK. cbn. lia.
Qed.

Lemma bump_drop_lookup c d d' k : bump_drop c d = Some d' -> Forall is_u64 d ->
  Forall is_u64 d' /\ d' !!! k = wrap 64 (d !!! k + if decide (c = k) then 1 else 0).
Proof.
  unfold bump_drop. destruct (d !! c) as [n|] eqn:E; [|done]. intros X U. simplify_eq.
  assert (forall z, is_u64 (wrap 64 z)) as W by (intros z; unfold wrap; unfold_bounds; pose proof (Z.mod_pos_bound z (2 ^ 64) ltac:(lia)); lia).
  split; [by apply Forall_insert|]. case_decide as CK.
  - subst k. rewrite list_lookup_total_insert_eq by (by eapply lookup_lt_Some). by erewrite (list_lookup_total_correct d) by done.
  - rewrite list_lookup_total_insert_ne by done. by apply drops_same.
Qed.

Lemma op_step_drops op s e s' : inv s -> (forall item class, op = OpEnqueue item class -> admissible s item) ->
  (forall t, dropped_by_class (close t) = dropped_by_class t) ->
  op_step op s = Some (e, s') -> Forall is_u64 (dropped_by_class s) ->
  Forall is_u64 (dropped_by_class s') /\ forall k, dropped_by_class s' !!! k = wrap 64 (dropped_by_class s !!! k + refused k [e]).
Proof.
  intros I A CD E U.
  pose proof (fun k => drops_same _ k U) as ID.
  destruct op as [item class| |]; cbn [op_step] in E.
  - destruct (enqueue s item class) as [[b s1]|] eqn:Q; [|done].
    destruct (enqueue_ok _ _ _ _ _ I (A _ _ eq_refl) Q) as (_ & _ & _ & _ & _ & B). destruct b; simplify_eq.
    + rewrite B. split; [done|exact ID].
    + split; [by eapply (bump_drop_lookup _ _ _ O)|]. intros k. destruct (bump_drop_lookup _ _ _ k B U) as [_ ->]. do 2 f_equal.
      unfold refused, refusals. cbn. by case_decide.
  - destruct (try_dequeue_ok s I) as (r & s1 & Q & _ & _ & _ & B & _). rewrite Q in E.
    destruct r; simplify_eq; rewrite B; (split; [done|exact ID]).
  - simplify_eq. rewrite CD. split; [done|exact ID].
Qed.

Lemma run_drops ops s es s' : (forall t, dropped_by_class (close t) = dropped_by_class t) -> inv s -> admissible_all ops s ->
  run ops s = Some (es, s') -> Forall is_u64 (dropped_by_class s) ->
  forall k, dropped_by_class s' !!! k = wrap 64 (dropped_by_class s !!! k + refused k es).
Proof.
  intros CD. revert s es. induction ops as [|op ops IH]; intros s es I A E U k; cbn [run] in E.
  - simplify_eq. by apply drops_same.
  - destruct A as [A1 A2]. destruct (op_step op s) as [[e s1]|] eqn:O; [|done].
    destruct (run ops s1) as [[es1 s2]|] eqn:R; [|done]. simplify_eq.
    destruct (op_step_conserves _ _ _ _ I A1 O) as (I1 & _). destruct (op_step_drops _ _ _ _ I A1 CD O U) as [U1 D1].
    rewrite (IH _ _ I1 (A2 _ _ eq_refl) R U1 k), D1. unfold wrap. rewrite Zplus_mod_idemp_l. f_equal.
    unfold refused, refusals. change (e :: es1) with ([e] ++ es1). rewrite omap_app, filter_app. zlen_lia.
Qed.

End Counters.

Lemma new_priority cap : pr_inv (PriorityScheduler.new cap).
Proof. split; cbn [PriorityScheduler.new heap pr_seq pr_capacity pr_dropped]; [apply SSorted_nil|done|done|lia|zlen_lia|lia|done]. Qed.

Lemma new_drr q cap : drr_inv (DeficitRoundRobinScheduler.new q cap).
Proof.
  split; cbn [DeficitRoundRobinScheduler.new inner len quantum drr_capacity drr_dropped]; [|lia|lia|done].
  assert (forall c (x : list (Z * EgressItem)), replicate DRR_CLASSES (@nil (Z * EgressItem)) !!! c = []) as QE.
  { intros c _. rewrite list_lookup_total_alt. destruct (_ !! c) eqn:E; [|done]. by apply lookup_replicate in E as [-> _]. }
  assert (forall c : nat, (c < DRR_CLASSES)%nat -> replicate DRR_CLASSES 0 !!! c = 0) as DE.
  { intros c LT. by rewrite list_lookup_total_alt, lookup_replicate_2. }
  split; try (cbn; (done || lia)).
  - cbn. unfold DRR_CLASSES, NUM_TRAFFIC_CLASSES. lia.
  - intros c. unfold qv. cbn [queues]. by rewrite (QE c []).
  - intros c. unfold dv. cbn [deficit]. destruct (decide (c < DRR_CLASSES)%nat); [by rewrite DE|].
    rewrite list_lookup_total_alt, lookup_ge_None_2; [done|]. rewrite length_replicate. lia.
  - intros c LT _. left. by apply DE.
Qed.

(** The histories with fewer than 2^64 operations, and with payloads to which the
    quantum can be added. *)
Lemma admissible_priority ops s : pr_inv s -> pr_seq s + zlen ops <= u64_max -> admissible_all ops s.
Proof.
  revert s. induction ops as [|op ops IH]; intros s I B; cbn [admissible_all]; [done|]. rewrite zlen_cons in B.
  pose proof (zlen_nonneg ops). assert (pr_seq s < u64_max) as U by lia. split; [by intros|].
  intros e s' E. assert (pr_inv s') as I' by (by apply (op_step_conserves (L := PriorityScheduler_laws) op s e s')).
  apply IH; [done|]. enough (pr_seq s' <= pr_seq s + 1) by lia. destruct op as [item class| |]; cbn [op_step] in E.
  - destruct (enqueue_priority s item class I U) as (b & s1 & Q & _ & _ & _ & _ & LE & _). cbn in E. rewrite Q in E.
    by destruct b; simplify_eq.
  - destruct (try_dequeue_priority s I) as (r & s1 & Q & _ & _ & _ & _ & LE & _). cbn in E. rewrite Q in E.
    destruct r; simplify_eq; lia.
  - simplify_eq. cbn. lia.
Qed.

Definition payloads_fit (q : Z) (ops : list Op) : Prop :=
  Forall (fun op => match op with OpEnqueue item _ => zlen (payload item) + Z.max q 1 <= u64_max | _ => True end) ops.

Lemma op_step_drr op s e s' : drr_inv s -> payloads_fit (quantum s) [op] -> op_step op s = Some (e, s') ->
  drr_inv s' /\ quantum s' = quantum s.
Proof.
  intros I F E. apply Forall_cons in F as [F _]. destruct op as [item class| |]; cbn [op_step] in E.
  - destruct (enqueue_drr s item class I) as (b & s1 & Q & I1 & _ & _ & QE & _); [lia|]. cbn in E. rewrite Q in E.
    by destruct b; simplify_eq.
  - destruct (try_dequeue_drr s I) as (r & s1 & Q & I1 & _ & _ & _ & QE & _). cbn in E. rewrite Q in E.
    by destruct r; simplify_eq.
  - simplify_eq. by destruct I.
Qed.

Lemma admissible_drr ops s : drr_inv s -> payloads_fit (quantum s) ops -> admissible_all ops s.
Proof.
  revert s. induction ops as [|op ops IH]; intros s I F; cbn [admissible_all]; [done|].
  apply Forall_cons in F as [F1 F2]. split.
  - intros item class ->. cbn. lia.
  - intros e s' E. destruct (op_step_drr op s e s' I) as [I' Q']; [by apply Forall_singleton|done|]. apply IH; [done|by rewrite Q'].
Qed.

(** *** What the face can rely on *)

Definition delivers {S} `{SchedulerLaws S} (cap : Z) (es : list Event) (s' : S) : Prop :=
  let waiting_now := zlen (concat (map (queued s') (seq 0 NUM_TRAFFIC_CLASSES))) in
  (exists log, map snd log = sent es /\ forall k, accepted k es = of_class k log ++ queued s' k) /\
  waiting_now <= Z.max cap 1 /\
  (forall k, (k < NUM_TRAFFIC_CLASSES)%nat -> dropped_by_class s' !!! k = wrap 64 (refused k es)) /\
  (forall item class b s'', admissible s' item -> enqueue s' item class = Some (b, s'') -> b = (waiting_now <? Z.max cap 1)) /\
  (exists r s'', try_dequeue s' = Some (r, s'') /\ (r = None <-> forall k, queued s' k = [])).

Lemma run_delivers {S} `{SchedulerLaws S} cap ops s : inv s -> admissible_all ops s ->
  (forall t, dropped_by_class (close t) = dropped_by_class t) ->
  (forall k, queued s k = []) -> (depth s).2 = Z.max cap 1 -> dropped_by_class s = replicate NUM_TRAFFIC_CLASSES 0 ->
  exists es s', run ops s = Some (es, s') /\ inv s' /\ delivers cap es s'.
Proof.
  intros I A CD Q D DR. destruct (run_conserves ops s I A) as (es & s' & R & I' & D' & (log & M & C)).
  exists es, s'. split_conj; [done|done|]. destruct (depth_ok s' I') as [DE DL]. unfold delivers. split_conj.
  - exists log. split; [done|]. intros k. by rewrite <-C, Q.
  - lia.
  - intros k LK. rewrite (run_drops ops s es s' CD I A R), DR; [|rewrite DR; by repeat constructor].
    by rewrite list_lookup_total_alt, lookup_replicate_2.
  - intros item class b s'' AD E. destruct (enqueue_ok _ _ _ _ _ I' AD E) as (_ & _ & _ & -> & _). rewrite DE. congruence.
  - destruct (try_dequeue_ok s' I') as (r & s'' & -> & _ & _ & _ & _ & P). exists r, s''. split; [done|].
    destruct r as [item|]; [|by destruct P]. split; [done|]. intros E. destruct P as (c & rest & X & _). by rewrite E in X.
Qed.

(** C22: whatever is enqueued on and taken off a face, both schedulers work without
    panic and without hanging, and per traffic class every packet accepted is sent
    exactly once, in order, or still waits: nothing is lost, duplicated or reordered
    in a class.  No more than the capacity waits, a packet is refused exactly when
    the queue is full and counted under its class, and a packet is handed out
    whenever one waits.  The strict-priority scheduler hands out the oldest packet of
    the most urgent class that has one. *)
Theorem egress_schedulers_deliver (q cap : Z) (ops : list Op) :
  zlen ops <= u64_max -> payloads_fit q ops ->
  (exists es s', run ops (PriorityScheduler.new cap) = Some (es, s') /\ delivers cap es s' /\
     forall item s'', try_dequeue s' = Some (Some item, s'') ->
       exists c rest, queued s' c = item :: rest /\ forall k, (k < c)%nat -> queued s' k = []) /\
  (exists es s', run ops (DeficitRoundRobinScheduler.new q cap) = Some (es, s') /\ delivers cap es s').
Proof.
  intros U F. split.
  - destruct (run_delivers cap ops (PriorityScheduler.new cap)) as (es & s' & R & I & D); try done.
    { apply new_priority. }
    { apply admissible_priority; [apply new_priority|cbn; lia]. }
    exists es, s'. split_conj; [done|done|]. intros item s'' E.
    destruct (try_dequeue_priority s' I) as (r & s1 & Q & _ & _ & _ & _ & _ & P). cbn in E. rewrite Q in E. simplify_eq.
    destruct P as (c & rest & ? & _ & ?). by exists c, rest.
  - destruct (run_delivers cap ops (DeficitRoundRobinScheduler.new q cap)) as (es & s' & R & I & D); try done.
    { apply new_drr. }
    { apply admissible_drr; [apply new_drr|]. cbn. unfold payloads_fit. by rewrite Z.max_l by lia. }
    { intros k. cbn. unfold waiting, qv. cbn. rewrite list_lookup_total_alt.
      destruct (_ !! k) eqn:E; [|done]. apply (lookup_replicate_1 8) in E as [-> _]. done. }
    by exists es, s'.
Qed.

Definition bytes_of (items : list EgressItem) : Z := foldr Z.add 0 (map (fun it => zlen (payload it)) items).

Lemma of_class_cons k c it log : of_class k ((c, it) :: log) = if (k =? c)%nat then it :: of_class k log else of_class k log.
Proof. unfold of_class. cbn. by destruct (_ =? _)%nat. Qed.

(** While class [c] sends nothing, what the others sent came out of their allowance. *)
Lemma allowance_spent ops s : drr_inv s -> payloads_fit (quantum s) ops ->
  exists es s' log, run ops s = Some (es, s') /\ drr_inv s' /\ quantum s' = quantum s /\ map snd log = sent es /\
    (forall k, waiting s k ++ accepted k es = of_class k log ++ waiting s' k) /\
    forall c it rest, waiting s c = it :: rest -> of_class c log = [] -> forall d, (d < DRR_CLASSES)%nat -> d <> c ->
      allowance s' c it d + bytes_of (of_class d log) <= allowance s c it d.
Proof.
  revert s. induction ops as [|op ops IH]; intros s I F.
  { exists [], s, []. split_conj; try done; [intros k; by rewrite app_nil_r|]. intros. cbn. lia. }
  apply Forall_cons in F as [F1 F2]. cbn [run].
  destruct op as [item class| |]; cbn [op_step].
  - destruct (enqueue_drr s item class I) as (b & s1 & E & I1 & _ & _ & Q1 & _ & W1 & _ & AL); [lia|].
    destruct (IH s1 I1) as (es & s' & log & R & I' & Q' & M & C & B); [by rewrite Q1|]. cbn [enqueue DeficitRoundRobinScheduler_scheduler].
    rewrite E. exists ((if b then Accepted (clamped class) item else Refused (clamped class)) :: es), s', log.
    split_conj; [by destruct b; rewrite R|done|congruence|by destruct b| |].
    + intros k. rewrite <-C, W1, <-app_assoc. f_equal. unfold accepted. destruct b; cbn; [|done]. by destruct (_ =? _)%nat.
    + intros c it rest W NS d LD ND. rewrite <-AL. eapply B; [rewrite W1, W; done|done|done|done].
  - destruct (try_dequeue_drr s I) as (r & s1 & E & I1 & _ & _ & _ & Q1 & P).
    destruct (IH s1 I1) as (es & s' & log & R & I' & Q' & M & C & B); [by rewrite Q1|].
    cbn [try_dequeue DeficitRoundRobinScheduler_scheduler]. rewrite E. destruct r as [item|].
    + destruct P as (e & rest & LE & We & W1 & AL). rewrite R. eexists _, s', ((e, item) :: log).
      split_conj; [done|done|congruence|by cbn; rewrite M| |].
      * intros k. rewrite of_class_cons. pose proof (C k) as Ck. rewrite W1 in Ck. destruct (Nat.eqb_spec k e); [subst k|].
        -- rewrite We. cbn. by f_equal.
        -- done.
      * intros c it rest' W NS d LD ND. rewrite of_class_cons in *. destruct (Nat.eqb_spec c e) as [->|NE]; [done|].
        specialize (AL c it rest' W NE d LD ND). assert (waiting s1 c = it :: rest') as WC.
        { rewrite W1, (proj2 (Nat.eqb_neq _ _)) by done. done. }
        specialize (B c it rest' WC NS d LD ND). destruct (Nat.eqb_spec d e); cbn in *; unfold bytes_of in *; cbn; lia.
    + destruct P as [-> _]. rewrite R. by eexists _, s', log.
  - assert (drr_inv (DeficitRoundRobinScheduler.close s)) as I1 by (by destruct I).
    destruct (IH _ I1 F2) as (es & s' & log & R & I' & Q' & M & C & B). cbn [close DeficitRoundRobinScheduler_scheduler].
    rewrite R. by eexists _, s', log.
Qed.

(** C23: the round robin scheduler starves no class.  Take any moment at which a
    packet is at the head of class [c], and anything that happens on the face from
    then on, however much is enqueued on the other classes: as long as class [c] has
    sent nothing, each other class has sent at most the credit it had at that moment
    plus one quantum for each round the packet takes to be covered, that is its
    length divided by the quantum, rounded up. *)
Theorem drr_no_starvation (q cap : Z) (before ops : list Op) (es0 : list Event) (s : DeficitRoundRobinScheduler) :
  payloads_fit q (before ++ ops) ->
  run before (DeficitRoundRobinScheduler.new q cap) = Some (es0, s) ->
  exists es s' log, run ops s = Some (es, s') /\ map snd log = sent es /\
    (forall k, queued s k ++ accepted k es = of_class k log ++ queued s' k) /\
    forall c it rest, queued s c = it :: rest -> of_class c log = [] ->
      forall d, (d < DRR_CLASSES)%nat -> d <> c ->
        bytes_of (of_class d log) <=
          deficit (inner s) !!! d + Z.max q 1 * Z.max 1 (cdiv (zlen (payload it)) (Z.max q 1)).
Proof.
  intros F R0. apply Forall_app in F as [F0 F].
  assert (quantum (DeficitRoundRobinScheduler.new q cap) = Z.max q 1) as QN by done.
  assert (forall l, payloads_fit q l -> payloads_fit (Z.max q 1) l) as FQ by (intros l; unfold payloads_fit; by rewrite (Z.max_l (Z.max q 1)) by lia).
  destruct (allowance_spent before _ (new_drr q cap)) as (? & s0 & ? & R & I & QS & _); [by apply FQ|].
  rewrite R0 in R. simplify_eq. rewrite QN in QS.
  destruct (allowance_spent ops s0 I) as (es & s' & log & R & I' & Q' & M & C & B); [rewrite QS; by apply FQ|].
  exists es, s', log. split_conj; try done. intros c it rest W NS d LD ND.
  specialize (B c it rest W NS d LD ND). destruct (waiting_head _ _ _ _ I W) as (LC & _).
  pose proof (bytes_left_bound _ c (zlen (payload it)) d _ (di_ok _ I) LC ND) as UB.
  pose proof (bytes_left_pos _ c (zlen (payload it)) d _ (di_ok _ I')) as LB. pose proof (do_pos _ _ (di_ok _ I') d).
  unfold allowance, dv in *. rewrite QS in *. lia.
Qed.

(** ** The classifier *)

Lemma max_by_key_last {A} (key : A -> Z) l b :
  exists m, fold_left (fun best x => match best with
                                     | Some b => if key b <=? key x then Some x else Some b
                                     | None => Some x
                                     end) l (Some b) = Some m /\ (m = b \/ In m l) /\ key b <= key m /\ forall x, In x l -> key x <= key m.
Proof.
  revert b. induction l as [|x l IH]; intros b; cbn [fold_left].
  - exists b. split_conj; [done|by left|lia|done].
  - destruct (Z.leb_spec (key b) (key x)).
    + destruct (IH x) as (m & -> & E & L & M). exists m. split_conj; [done|right; destruct E as [->|]; [by left|by right]|lia|].
      intros y [->|I]; [lia|by apply M].
    + destruct (IH b) as (m & -> & E & L & M). exists m. split_conj; [done|destruct E as [->|]; [by left|right; by right]|lia|].
      intros y [->|I]; [lia|by apply M].
Qed.

(** The class of a name is the one of the longest configured prefix of it, and the
    default when there is none. *)
Lemma classify_longest (self : PrefixClassifier) (name : Name) (is_interest : bool) :
  let matches := fun r => In r (rules self) /\ NameOps.has_prefix name r.1 = true in
  (exists r, matches r /\ PrefixClassifier.classify self (Some name) is_interest = r.2 /\
     forall r', matches r' -> zlen r'.1 <= zlen r.1) \/
  (PrefixClassifier.classify self (Some name) is_interest = default_class self /\ forall r, ~ matches r).
Proof.
  intros matches. unfold PrefixClassifier.classify.
  assert (forall r, In r (base.filter (fun r => NameOps.has_prefix name r.1 = true) (rules self)) <-> matches r) as FM.
  { intros r. rewrite <-list_elem_of_In, list_elem_of_filter, list_elem_of_In. unfold matches. tauto. }
  destruct (base.filter _ (rules self)) as [|r l]; cbn [PrefixClassifier.max_by_key fold_left].
  - right. split; [done|]. intros r M. by apply FM in M.
  - left. unfold PrefixClassifier.max_by_key. cbn [fold_left].
    destruct (max_by_key_last (fun r : Name * Z => zlen r.1) l r) as (m & -> & E & L & M). exists m. split_conj; [|done|].
    + apply FM. destruct E as [->|]; [by left|by right].
    + intros r' I. apply FM in I as [->|I]; [done|by apply M].
Qed.

(** ** Concrete histories *)

Definition tagged (t : string) : EgressItem := (str t, 0, EgressIntent_default).
Definition mixed : list Op :=
  [OpEnqueue (tagged "lo-1") 2; OpEnqueue (tagged "hi-1") 0; OpEnqueue (tagged "mid1") 200; OpEnqueue (tagged "hi-2") 0;
   OpDequeue; OpDequeue; OpDequeue; OpDequeue; OpDequeue].
Definition sent_by {S} `{EgressScheduler S} (ops : list Op) (s : S) : option (list EgressItem) := sent ∘ fst <$> run ops s.

Example mixed_priority : sent_by mixed (PriorityScheduler.new 16) = Some (map tagged ["hi-1"; "hi-2"; "lo-1"; "mid1"]%string).
Proof. reflexivity. Qed.
Example mixed_drr : sent_by mixed (DeficitRoundRobinScheduler.new 4 16) = Some (map tagged ["hi-1"; "lo-1"; "mid1"; "hi-2"]%string).
Proof. reflexivity. Qed.

Lemma egress_schedulers_deliver_witness :
  (exists es s', run mixed (PriorityScheduler.new 2) = Some (es, s') /\ delivers 2 es s') /\
  (exists es s', run mixed (DeficitRoundRobinScheduler.new 4 2) = Some (es, s') /\ delivers 2 es s').
Proof.
  destruct (egress_schedulers_deliver 4 2 mixed) as [(es & s' & R & D & _) P].
  - vm_compute. discriminate.
  - repeat constructor; vm_compute; discriminate.
  - split; [by exists es, s'|exact P].
Defined.

(** A packet of four bytes waits in class 2; with a quantum of four bytes class 0 sends
    at most four before it. *)
Lemma drr_no_starvation_witness :
  exists s es s' log,
    run (take 2 mixed) (DeficitRoundRobinScheduler.new 4 16) = Some ([Accepted 2 (tagged "lo-1"); Accepted 0 (tagged "hi-1")], s) /\
    run (drop 2 mixed) s = Some (es, s') /\ map snd log = sent es /\
    (of_class 2 log = [] -> bytes_of (of_class 0 log) <= 4).
Proof.
  eexists. destruct (drr_no_starvation 4 16 (take 2 mixed) (drop 2 mixed) _ _ ltac:(repeat constructor; vm_compute; discriminate) eq_refl)
    as (es & s' & log & R & M & _ & B).
  exists es, s', log. split_conj; [reflexivity|exact R|exact M|].
  intros NS. exact (B 2%nat (tagged "lo-1") [] eq_refl NS O ltac:(vm_compute; lia) ltac:(discriminate)).
Defined.
