(* ===== verification/Ble.v ===== *)
(** * Framing over Bluetooth Low Energy ([crates/core/ndn-ble-framing/src/lib.rs])

    The two framings a BLE link carries: NDNLPv2, whose fragments the forwarder
    reassembles ([Reassembly.v]), and the one-byte header of NDNts, which the face
    reassembles itself, per peer or, on a broadcast medium, per sender.

    The theorems: packets cut with the one-byte header come out of the reassembler
    as they went in, in order, also when the frames of many senders interleave; a
    reassembler never holds more than its limits whatever it is fed.  Which stream a
    full table gives up is the first key of the hash map, in an order the library
    does not specify: the parameter [next_key]. *)

From S2P Require Import Prelude Tlv Name Packet Lp Reassembly.
#[local] Open Scope Z_scope.

Inductive BleFraming : Type := Ndnlpv2 | Ndnts.

#[export] Instance BleFraming_eq_dec : EqDecision BleFraming.
Proof. solve_decision. Defined.

(** ** TLV headers *)

Definition parse_varnumber (buf : bytes) : option (Z * Z) :=
  match buf with
  | [] => None
  | b :: _ =>
      if b <=? 252 then Some (b, 1)
      else if (b =? 253) && (3 <=? zlen buf) then Some (be_decode (slice buf 1 3), 3)
      else if (b =? 254) && (5 <=? zlen buf) then Some (be_decode (slice buf 1 5), 5)
      else if (b =? 255) && (9 <=? zlen buf) then Some (be_decode (slice buf 1 9), 9)
      else None
  end.

(** [buf.get(n..)]. *)
Definition get_from (buf : bytes) (n : Z) : option bytes :=
  if n <=? zlen buf then Some (slice_from_ buf n) else None.

Definition usize_try_from (v : Z) : option Z := if v <=? usize_max then Some v else None.

Definition tlv_declared_total (buf : bytes) : option Z :=
  match parse_varnumber buf with
  | None => None
  | Some (_, type_len) =>
      match get_from buf type_len with
      | None => None
      | Some rest =>
          match parse_varnumber rest with
          | None => None
          | Some (length, length_len) =>
              match checked_add type_len length_len, usize_try_from length with
              | Some header, Some length => checked_add header length
              | _, _ => None
              end
          end
      end
  end.

Definition declared_exceeds (buf : bytes) (max : Z) : bool :=
  match tlv_declared_total buf with
  | Some total => max <? total
  | None =>
      match parse_varnumber buf with
      | Some (_, t) =>
          match get_from buf t with
          | Some rest => match parse_varnumber rest with Some _ => true | None => false end
          | None => false
          end
      | None => false
      end
  end.

Definition tlv_packet_end (buf : bytes) : option Z :=
  match tlv_declared_total buf with
  | Some total => if total <=? zlen buf then Some total else None
  | None => None
  end.

(** ** Framing *)

(** The [while offset < pkt.len()] loop; [fuel] is the length of the packet. *)
Fixpoint ndnts_fragments (fuel : nat) (pkt : bytes) (frag_payload offset seq : Z) (first : bool) : list bytes :=
  match fuel with
  | O => []
  | S fuel =>
      if offset <? zlen pkt then
        let end_ := Z.min (offset + frag_payload) (zlen pkt) in
        let header := if first then Z.lor 0x80 (Z.land seq 0x7F) else Z.land seq 0x7F in
        let seq := Z.land (seq + 1) 0x7F in
        (header :: slice pkt offset end_) :: ndnts_fragments fuel pkt frag_payload end_ seq false
      else []
  end.

Definition ndnts_frame (pkt : bytes) (max_payload : Z) : list bytes :=
  if zlen pkt <=? max_payload then [pkt]
  else ndnts_fragments (length pkt) pkt (Z.max (sat_sub max_payload 1) 1) 0 0 true.

Module BleFraming.
Definition default_ : BleFraming := Ndnlpv2.

Definition detect (first_write : bytes) : BleFraming :=
  match first_write with b :: _ => if b =? 0x64 then Ndnlpv2 else Ndnts | [] => Ndnts end.

Definition capability_byte (self : BleFraming) : Z := match self with Ndnlpv2 => 1 | Ndnts => 2 end.
Definition from_capability_byte (b : Z) : BleFraming := if b =? 2 then Ndnts else Ndnlpv2.

(** The frames and the next [seq]. *)
Definition frame (self : BleFraming) (pkt : bytes) (ble_mtu seq : Z) : result (list bytes) Panicked * Z :=
  match self with
  | Ndnlpv2 =>
      if is_lp_packet pkt then (Ok [pkt], seq)
      else if zlen pkt + 4 <=? ble_mtu then (Ok [encode_lp_packet pkt], seq)
      else (fragment_packet pkt ble_mtu seq, wrap 64 (seq + 1))
  | Ndnts => (Ok (ndnts_frame pkt ble_mtu), seq)
  end.
End BleFraming.

(** ** Reassembly *)

Definition MAX_REASSEMBLY_SIZE : Z := 16 * 1024.
Definition MAX_SENDERS : Z := 256.

Record NdntsReassembler : Type := mkReassembler { buffer : bytes; active : bool }.

Module NdntsReassembler.
Definition new : NdntsReassembler := mkReassembler [] false.

(** From the size check on: a packet that is complete is taken off the front. *)
Definition settle (self : NdntsReassembler) : option bytes * NdntsReassembler :=
  if (MAX_REASSEMBLY_SIZE <? zlen (buffer self)) || declared_exceeds (buffer self) MAX_REASSEMBLY_SIZE then
    (None, mkReassembler [] false)
  else
    match tlv_packet_end (buffer self) with
    | None => (None, self)
    | Some end_ =>
        let left := slice_from_ (buffer self) end_ in
        (Some (slice (buffer self) 0 end_), mkReassembler left (match left with [] => false | _ => active self end))
    end.

Definition feed (self : NdntsReassembler) (fragment : bytes) : option bytes * NdntsReassembler :=
  match fragment with
  | [] => (None, self)
  | first :: body =>
      if negb (Z.land first 0x80 =? 0) then settle (mkReassembler body true)
      else if active self then settle (mkReassembler (buffer self ++ body) true)
      else (Some fragment, self)
  end.
End NdntsReassembler.
Import NdntsReassembler(feed, settle).

Section PerSender.
Context {K : Type} `{Countable K} (next_key : gmap K NdntsReassembler -> option K).

Definition PerSenderReassembler : Type := gmap K NdntsReassembler.

(** A new sender on a full table takes the place of another. *)
Definition make_room (streams : gmap K NdntsReassembler) (sender : K) : gmap K NdntsReassembler :=
  match streams !! sender with
  | None =>
      if MAX_SENDERS <=? Z.of_nat (size streams) then
        match next_key streams with Some victim => delete victim streams | None => streams end
      else streams
  | Some _ => streams
  end.

(** [feed] and [forget] of [PerSenderReassembler]. *)
Definition sender_feed (streams : PerSenderReassembler) (sender : K) (fragment : bytes) : option bytes * PerSenderReassembler :=
  let streams := make_room streams sender in
  let (r, stream) := feed (default NdntsReassembler.new (streams !! sender)) fragment in
  (r, <[sender := stream]> streams).

Definition sender_forget (streams : PerSenderReassembler) (sender : K) : PerSenderReassembler := delete sender streams.

End PerSender.

(** ** A prefix of a packet *)

Lemma slice_prefix {A} (b rest : list A) x y : 0 <= x <= y -> y <= zlen b -> slice (b ++ rest) x y = slice b x y.
Proof.
  intros X Y. unfold slice, zlen in *. rewrite skipn_app, take_app_le; [done|]. rewrite length_drop. lia.
Qed.

Lemma parse_varnumber_len buf v n : parse_varnumber buf = Some (v, n) -> 1 <= n <= zlen buf.
Proof.
  destruct buf as [|b l]; [done|]. cbn [parse_varnumber]. pose proof (zlen_nonneg l). rewrite zlen_cons.
  bcase; intros; simplify_eq; lia.
Qed.

Lemma parse_varnumber_prefix b rest r : parse_varnumber b = Some r -> parse_varnumber (b ++ rest) = Some r.
Proof.
  destruct b as [|x l]; [done|]. cbn [app parse_varnumber]. change (x :: l ++ rest) with ((x :: l) ++ rest).
  rewrite zlen_app. pose proof (zlen_nonneg rest). generalize (x :: l). intros b.
  destruct (x <=? 252); [done|].
  assert (forall n, (n <=? zlen b) = true -> (n <=? zlen b + zlen rest) = true) as GE by (intros n; rewrite !Z.leb_le; lia).
  destruct (Z.eqb_spec x 253), (Z.eqb_spec x 254), (Z.eqb_spec x 255); subst; try lia; cbn [andb]; try done;
    (match goal with |- context [?n <=? zlen b] => destruct (Z.leb_spec n (zlen b)) as [L|L] end); try done;
    by rewrite GE, slice_prefix by (first [by apply Z.leb_le|lia]).
Qed.

Lemma parse_varu64 v rest : is_u64 v -> parse_varnumber (varu64_bytes v ++ rest) = Some (v, varu64_size v).
Proof.
  intros U. pose proof (read_varu64_bytes v rest U) as R. unfold read_varu64 in R. unfold parse_varnumber.
  assert (wf_bytes (varu64_bytes v)) as W by (apply wf_varu64_bytes; unfold_bounds; lia).
  pose proof (varu64_bytes_nonempty v) as NE. destruct (varu64_bytes v) as [|b l]; [done|].
  apply Forall_cons in W as [B _]. cbn [app] in *. generalize dependent (b :: l ++ rest). intros w R.
  destruct (b <=? 252) eqn:B2; [injection R as -> ->; done|]. apply Z.leb_gt in B2. unfold_bounds.
  destruct (Z.eqb_spec b 253); [|destruct (Z.eqb_spec b 254); [|destruct (Z.eqb_spec b 255); [|lia]]]; cbn [andb];
    rewrite Z.ltb_antisym in R; (destruct (_ <=? zlen w); [cbn [negb] in R|done]);
    (destruct (_ <? _) in R; [done|]); injection R as -> ->; done.
Qed.

Lemma get_from_prefix b rest n r : get_from b n = Some r -> 0 <= n -> get_from (b ++ rest) n = Some (r ++ rest).
Proof.
  unfold get_from, slice_from_. rewrite zlen_app. pose proof (zlen_nonneg rest). intros G N. bcase; [|lia].
  rewrite skipn_app. unfold zlen in *. replace (Z.to_nat n - length b)%nat with 0%nat by lia. done.
Qed.

(** What a BLE link carries: one TLV element, of a type that is no fragment header. *)
Definition ble_packet (pkt : bytes) : Prop :=
  exists typ value, pkt = tlv_bytes typ value /\ 0 <= typ < 0x80 /\ zlen pkt <= MAX_REASSEMBLY_SIZE.

Lemma declared_total_packet pkt : ble_packet pkt -> tlv_declared_total pkt = Some (zlen pkt).
Proof.
  intros (typ & value & -> & T & L). rewrite zlen_tlv_bytes in *. unfold tlv_size, MAX_REASSEMBLY_SIZE in *.
  pose proof (zlen_nonneg value). pose proof (varu64_size_range typ). pose proof (varu64_size_range (zlen value)).
  unfold tlv_declared_total, tlv_bytes. rewrite parse_varu64 by (unfold_bounds; lia).
  unfold get_from. rewrite !zlen_app, !zlen_varu64_bytes, (proj2 (Z.leb_le _ _)) by lia.
  rewrite slice_from_app_eq by (by rewrite zlen_varu64_bytes). rewrite parse_varu64 by (unfold_bounds; lia).
  unfold checked_add, usize_try_from. unfold_bounds. rewrite !(proj2 (Z.leb_le _ _)) by lia. f_equal.
Qed.

(** While a packet is coming in, its header says nothing, or its length. *)
Lemma declared_total_prefix b rest : ble_packet (b ++ rest) ->
  match parse_varnumber b with
  | Some (_, t) =>
      match get_from b t with
      | Some r => match parse_varnumber r with Some _ => tlv_declared_total b = Some (zlen (b ++ rest)) | None => True end
      | None => True
      end
  | None => True
  end.
Proof.
  intros P. pose proof (declared_total_packet _ P) as D. unfold tlv_declared_total in *.
  destruct (parse_varnumber b) as [[v t]|] eqn:E1; [|done].
  destruct (get_from b t) as [r|] eqn:E2; [|done]. destruct (parse_varnumber r) as [[l n]|] eqn:E3; [|done].
  pose proof (parse_varnumber_len _ _ _ E1). rewrite (parse_varnumber_prefix _ rest _ E1) in D.
  rewrite (get_from_prefix _ rest _ _ E2) in D by lia. by rewrite (parse_varnumber_prefix _ rest _ E3) in D.
Qed.

Lemma prefix_total b rest : ble_packet (b ++ rest) ->
  declared_exceeds b MAX_REASSEMBLY_SIZE = false /\ (tlv_declared_total b = None \/ tlv_declared_total b = Some (zlen (b ++ rest))).
Proof.
  intros P. pose proof (declared_total_prefix b rest P) as D. destruct P as (typ & value & E & T & L).
  unfold declared_exceeds, tlv_declared_total in *. destruct (parse_varnumber b) as [[v t]|]; [|by auto].
  destruct (get_from b t) as [r|]; [|by auto]. destruct (parse_varnumber r) as [[l n]|]; [|by auto].
  rewrite D. split; [bcase; lia|by right].
Qed.

Definition idle : NdntsReassembler := NdntsReassembler.new.

(** The buffer holds [b], the packet is [b ++ rest]. *)
Lemma settle_prefix b rest : ble_packet (b ++ rest) ->
  settle (mkReassembler b true) = match rest with [] => (Some b, idle) | _ => (None, mkReassembler b true) end.
Proof.
  intros P. unfold settle. cbn [buffer active]. destruct (prefix_total _ _ P) as [DX DT]. rewrite DX.
  assert (zlen b <= MAX_REASSEMBLY_SIZE) as LB.
  { destruct P as (? & ? & _ & _ & L). rewrite zlen_app in L. pose proof (zlen_nonneg rest). lia. }
  rewrite (proj2 (Z.ltb_ge _ _)) by lia. cbn [orb]. unfold tlv_packet_end. destruct rest as [|x rest].
  - rewrite app_nil_r in P. rewrite (declared_total_packet _ P), Z.leb_refl.
    unfold slice_from_, slice, zlen. change (Z.to_nat 0) with O. rewrite drop_0, drop_ge, take_ge by lia. done.
  - destruct DT as [->| ->]; [done|]. rewrite (proj2 (Z.leb_gt _ _)); [done|]. rewrite zlen_app, zlen_cons.
    pose proof (zlen_nonneg rest). lia.
Qed.

(** ** One peer *)

Fixpoint feeds (r : NdntsReassembler) (frames : list bytes) : list bytes * NdntsReassembler :=
  match frames with
  | [] => ([], r)
  | f :: frames => let (o, r) := feed r f in let (os, r) := feeds r frames in (option_list o ++ os, r)
  end.

Lemma feeds_app r f1 f2 : feeds r (f1 ++ f2) = let (o1, r) := feeds r f1 in let (o2, r) := feeds r f2 in (o1 ++ o2, r).
Proof.
  revert r. induction f1 as [|f f1 IH]; intros r; cbn [app feeds]; [by destruct (feeds r f2)|].
  destruct (feed r f) as [o r1]. rewrite IH. destruct (feeds r1 f1) as [o1 r2]. destruct (feeds r2 f2). by rewrite app_assoc.
Qed.

Lemma feeds_cons r f fs : feeds r (f :: fs) =
  (option_list (feed r f).1 ++ (feeds (feed r f).2 fs).1, (feeds (feed r f).2 fs).2).
Proof. cbn [feeds]. destruct (feed r f) as [o r1]. cbn. by destruct (feeds r1 fs). Qed.

Lemma header_next seq : Z.land (Z.land seq 0x7F) 0x80 = 0.
Proof. rewrite <-Z.land_assoc. apply Z.land_0_r. Qed.
Lemma header_first seq : Z.land (Z.lor 0x80 (Z.land seq 0x7F)) 0x80 = 0x80.
Proof. rewrite Z.land_lor_distr_l, header_next. done. Qed.

Lemma take_slice {A} (l : list A) a b : 0 <= a <= b -> take (Z.to_nat a) l ++ slice l a b = take (Z.to_nat b) l.
Proof.
  intros L. unfold slice. rewrite <-(take_drop (Z.to_nat a) (take (Z.to_nat b) l)), take_take. f_equal; [f_equal; lia|].
  rewrite skipn_firstn_comm. f_equal. lia.
Qed.

(** The frames from [offset] on complete the packet. *)
Lemma fragments_continue pkt fp fuel offset seq : ble_packet pkt -> 1 <= fp -> 0 < offset < zlen pkt ->
  zlen pkt - offset <= Z.of_nat fuel ->
  feeds (mkReassembler (take (Z.to_nat offset) pkt) true) (ndnts_fragments fuel pkt fp offset seq false) = ([pkt], idle).
Proof.
  intros P FP. revert offset seq. induction fuel as [|fuel IH]; intros offset seq O F; [lia|].
  cbn [ndnts_fragments]. rewrite (proj2 (Z.ltb_lt _ _)) by lia. cbv zeta. set (e := Z.min (offset + fp) (zlen pkt)).
  cbn [feeds feed]. rewrite header_next. cbn [negb Z.eqb active buffer]. rewrite take_slice by lia.
  rewrite (settle_prefix _ (drop (Z.to_nat e) pkt)) by (by rewrite take_drop).
  destruct (decide (e = zlen pkt)) as [E|NE].
  - rewrite E. unfold zlen. rewrite Nat2Z.id, drop_all, take_ge by lia.
    assert (ndnts_fragments fuel pkt fp (Z.of_nat (length pkt)) (Z.land (seq + 1) 127) false = []) as ->.
    { destruct fuel; [done|]. cbn. unfold zlen. by rewrite Z.ltb_irrefl. }
    done.
  - destruct (drop (Z.to_nat e) pkt) as [|x l] eqn:D.
    { apply (f_equal length) in D. rewrite length_drop in D. unfold zlen in *. cbn in D. lia. }
    rewrite IH by lia. done.
Qed.

Lemma packet_nonempty pkt : ble_packet pkt -> exists b l, pkt = b :: l /\ 0 <= b < 0x80.
Proof.
  intros (typ & value & -> & T & _). unfold tlv_bytes, varu64_bytes. rewrite (proj2 (Z.ltb_lt typ 253)) by lia. cbn [app].
  by eexists _, _.
Qed.

(** A packet cut for the link comes out as it was, whatever the MTU.  A fragmented one
    does so whatever the reassembler held before. *)
Lemma feeds_packet pkt mtu r : ble_packet pkt -> zlen pkt <= mtu -> active r = false -> feeds r (ndnts_frame pkt mtu) = ([pkt], r).
Proof.
  intros P L A. unfold ndnts_frame. rewrite (proj2 (Z.leb_le _ _)) by done.
  destruct (packet_nonempty _ P) as (b & l & -> & B). cbn [feeds feed].
  rewrite (proj2 (Z.eqb_eq (Z.land b 0x80) 0)), A; [done|].
  assert (forallb (fun b => (128 <=? b) || (Z.land b 0x80 =? 0)) (seqZ 0 256) = true) as X by reflexivity.
  pose proof (u8_forall _ X b) as Y. unfold_bounds. specialize (Y ltac:(lia)). cbn beta in Y.
  rewrite (proj2 (Z.leb_gt _ _)) in Y by lia. by apply Z.eqb_eq.
Qed.

Lemma feeds_fragments pkt mtu r : ble_packet pkt -> mtu < zlen pkt -> feeds r (ndnts_frame pkt mtu) = ([pkt], idle).
Proof.
  intros P L. unfold ndnts_frame. rewrite (proj2 (Z.leb_gt _ _)) by done. set (fp := Z.max (sat_sub mtu 1) 1).
  destruct (packet_nonempty _ P) as (b & l & E & _). assert (0 < zlen pkt) as LP by (rewrite E; zlen_lia).
  assert (length pkt = S (length l)) as EL by (by rewrite E). rewrite EL. cbn [ndnts_fragments].
  rewrite (proj2 (Z.ltb_lt _ _)) by done. cbv zeta. set (e := Z.min (0 + fp) (zlen pkt)). cbn [feeds feed].
  rewrite header_first. cbn [negb Z.eqb].
  replace (slice pkt 0 e) with (take (Z.to_nat e) pkt) by (rewrite <-(take_slice pkt 0 e) by lia; done).
  rewrite (settle_prefix _ (drop (Z.to_nat e) pkt)) by (by rewrite take_drop).
  destruct (decide (e = zlen pkt)) as [Ee|NE].
  - rewrite Ee. unfold zlen. rewrite Nat2Z.id, drop_all, take_ge by lia.
    assert (forall q, ndnts_fragments (length l) pkt fp (Z.of_nat (length pkt)) q false = []) as X.
    { intros q. destruct (length l); [done|]. cbn. unfold zlen. by rewrite Z.ltb_irrefl. }
    by rewrite X.
  - destruct (drop (Z.to_nat e) pkt) as [|x k] eqn:D.
    { apply (f_equal length) in D. rewrite length_drop in D. unfold zlen in *. cbn in D. lia. }
    rewrite fragments_continue; [done|done|lia|lia|]. unfold zlen in *. lia.
Qed.

Lemma feeds_packets mtu pkts : Forall ble_packet pkts -> feeds idle (concat (map (fun p => ndnts_frame p mtu) pkts)) = (pkts, idle).
Proof.
  induction 1 as [|p pkts P _ IH]; [done|]. cbn [map concat]. rewrite feeds_app.
  assert (feeds idle (ndnts_frame p mtu) = ([p], idle)) as ->.
  { destruct (Z.le_gt_cases (zlen p) mtu); [by apply feeds_packet|by apply feeds_fragments]. }
  by rewrite IH.
Qed.

(** No frame exceeds the MTU, which has to leave room for one byte after the header. *)
Lemma frames_fit pkt mtu : 2 <= mtu -> Forall (fun f => zlen f <= mtu) (ndnts_frame pkt mtu).
Proof.
  intros M. unfold ndnts_frame. destruct (Z.leb_spec (zlen pkt) mtu); [by constructor|].
  assert (forall fuel offset seq first, 0 <= offset ->
            Forall (fun f => zlen f <= mtu) (ndnts_fragments fuel pkt (Z.max (sat_sub mtu 1) 1) offset seq first)) as F; [|by apply F].
  induction fuel as [|fuel IH]; intros offset seq first O; cbn [ndnts_fragments]; [constructor|].
  destruct (Z.ltb_spec offset (zlen pkt)); [|constructor]. cbv zeta. constructor; [|apply IH; lia].
  rewrite zlen_cons, zlen_slice by (unfold sat_sub; lia). unfold sat_sub. lia.
Qed.

(** ** Limits, whatever arrives *)

Definition bounded (r : NdntsReassembler) : Prop := zlen (buffer r) <= MAX_REASSEMBLY_SIZE.

Lemma settle_bounded r : bounded (settle r).2.
Proof.
  unfold settle, bounded. destruct (Z.ltb_spec MAX_REASSEMBLY_SIZE (zlen (buffer r))); cbn [orb]; [done|].
  destruct (declared_exceeds _ _); [done|]. destruct (tlv_packet_end _) as [e|]; cbn [snd buffer]; [|lia].
  unfold slice_from_. rewrite zlen_drop. pose proof (zlen_nonneg (buffer r)). lia.
Qed.

Lemma feed_bounded r f : bounded r -> bounded (feed r f).2.
Proof.
  intros B. unfold feed. destruct f as [|b body]; [done|]. destruct (negb _); [apply settle_bounded|].
  destruct (active r); [apply settle_bounded|done].
Qed.

Section Broadcast.
Context {K : Type} `{Countable K} (next_key : gmap K NdntsReassembler -> option K).

(** The traffic of a medium, with the sender of each frame and what is delivered. *)
Fixpoint hear (streams : gmap K NdntsReassembler) (traffic : list (K * bytes)) : list (K * bytes) * gmap K NdntsReassembler :=
  match traffic with
  | [] => ([], streams)
  | (k, f) :: traffic =>
      let (o, streams) := sender_feed next_key streams k f in
      let (os, streams) := hear streams traffic in
      (map (pair k) (option_list o) ++ os, streams)
  end.

Definition from_sender (k : K) (l : list (K * bytes)) : list bytes := omap (fun x => if decide (x.1 = k) then Some x.2 else None) l.

Lemma from_sender_app k l1 l2 : from_sender k (l1 ++ l2) = from_sender k l1 ++ from_sender k l2.
Proof. apply omap_app. Qed.
Lemma from_sender_cons k s f l : from_sender k ((s, f) :: l) = if decide (s = k) then f :: from_sender k l else from_sender k l.
Proof. unfold from_sender. cbn. by case_decide. Qed.
Lemma from_sender_own k s (o : option bytes) : from_sender k (map (pair s) (option_list o)) = if decide (s = k) then option_list o else [].
Proof. destruct o; cbn; unfold from_sender; cbn; by case_decide. Qed.

Lemma from_sender_none k l : Forall (fun x => x.1 <> k) l -> from_sender k l = [].
Proof. induction 1 as [|[s f] l NE _ IH]; [done|]. rewrite from_sender_cons, decide_False by done. exact IH. Qed.

(** The streams in use never outgrow the table while few enough senders are heard. *)
Lemma hear_isolated traffic streams :
  Z.of_nat (size (dom streams ∪ list_to_set (map fst traffic))) <= MAX_SENDERS ->
  forall k, let '(outs, streams') := hear streams traffic in
    from_sender k outs = (feeds (default NdntsReassembler.new (streams !! k)) (from_sender k traffic)).1 /\
    default NdntsReassembler.new (streams' !! k) = (feeds (default NdntsReassembler.new (streams !! k)) (from_sender k traffic)).2.
Proof.
  revert streams. induction traffic as [|[s f] traffic IH]; intros streams SZ k; cbn [hear]; [done|].
  unfold sender_feed. cbv zeta.
  assert (make_room next_key streams s = streams) as ->.
  { unfold make_room. destruct (streams !! s) eqn:ES; [done|]. rewrite (proj2 (Z.leb_gt _ _)); [done|].
    assert (size (dom streams) < size (dom streams ∪ list_to_set (map fst ((s, f) :: traffic))))%nat as LT.
    { apply subset_size. split; [set_solver|]. intros SUB. assert (s ∈ dom streams) as IN by set_solver.
      apply elem_of_dom in IN as [? E]. congruence. }
    rewrite size_dom in LT. lia. }
  destruct (feed (default NdntsReassembler.new (streams !! s)) f) as [o r] eqn:EF.
  specialize (IH (<[s := r]> streams)).
  assert (Z.of_nat (size (dom (<[s:=r]> streams) ∪ list_to_set (map fst traffic))) <= MAX_SENDERS) as SZ'.
  { etransitivity; [|exact SZ]. apply inj_le, subseteq_size. rewrite dom_insert_L. set_solver. }
  specialize (IH SZ' k). destruct (hear (<[s:=r]> streams) traffic) as [outs streams']. destruct IH as [IH1 IH2].
  rewrite from_sender_app, from_sender_cons, from_sender_own. case_decide as DK.
  - subst s. rewrite lookup_insert_eq in IH1, IH2. cbn [default] in IH1, IH2. rewrite feeds_cons, EF, IH1, IH2. done.
  - rewrite lookup_insert_ne in IH1, IH2 by done. done.
Qed.

End Broadcast.

Section Limits.
Context {K : Type} `{Countable K} (next_key : gmap K NdntsReassembler -> option K).

(** [keys().next()] is some key of a map that has one. *)
Definition is_some_key : Prop := forall m, match next_key m with Some k => is_Some (m !! k) | None => m = ∅ end.

Definition streams_ok (streams : gmap K NdntsReassembler) : Prop :=
  Z.of_nat (size streams) <= MAX_SENDERS /\ map_Forall (fun _ => bounded) streams.

Lemma make_room_ok streams s : is_some_key -> streams_ok streams ->
  streams_ok (make_room next_key streams s) /\
  (make_room next_key streams s !! s = None -> Z.of_nat (size (make_room next_key streams s)) < MAX_SENDERS).
Proof.
  intros NK [SZ BD]. pose proof (NK streams) as NS. unfold make_room. destruct (streams !! s) as [r|] eqn:E; [by rewrite E|].
  destruct (Z.leb_spec MAX_SENDERS (Z.of_nat (size streams))) as [LE|LT]; [|done]. destruct (next_key streams) as [v|].
  - assert (size (delete v streams) = pred (size streams)) as SD.
    { destruct NS as [x EV]. by rewrite map_size_delete, EV. }
    unfold MAX_SENDERS in *. split; [split; [rewrite SD; unfold MAX_SENDERS; lia|by apply map_Forall_delete]|]. intros _. rewrite SD. lia.
  - subst streams. rewrite map_size_empty in LE. unfold MAX_SENDERS in LE. lia.
Qed.

(** Whatever is heard, from however many senders: the table holds at most
    [MAX_SENDERS] streams of at most [MAX_REASSEMBLY_SIZE] bytes. *)
Lemma ble_memory_bounded traffic streams : is_some_key -> streams_ok streams -> streams_ok (hear next_key streams traffic).2.
Proof.
  intros NK. revert streams. induction traffic as [|[s f] traffic IH]; intros streams OK; cbn [hear]; [done|].
  unfold sender_feed. cbv zeta. destruct (make_room_ok streams s NK OK) as [[SZ BD] RM].
  set (m := make_room next_key streams s) in *.
  destruct (feed (default NdntsReassembler.new (m !! s)) f) as [o r] eqn:EF.
  assert (streams_ok (<[s := r]> m)) as OK1.
  { split.
    - rewrite map_size_insert. destruct (m !! s) eqn:E; cbn; [lia|]. specialize (RM eq_refl). lia.
    - apply map_Forall_insert_2; [|done]. change r with (snd (o, r)). rewrite <-EF. apply feed_bounded.
      destruct (m !! s) as [x|] eqn:E; [by apply (BD s x)|done]. }
  specialize (IH _ OK1). by destruct (hear next_key (<[s := r]> m) traffic).
Qed.

End Limits.

(** C27: packets cut with the one-byte header are delivered over a broadcast medium:
    whatever the order in which the frames of up to [MAX_SENDERS] senders interleave,
    and whatever MTU each uses, from each sender exactly the packets it sent are
    delivered, unchanged and in order. *)
Theorem ble_frames_delivered {K : Type} `{Countable K} (next_key : gmap K NdntsReassembler -> option K)
    (mtu : K -> Z) (packets : K -> list bytes) (traffic : list (K * bytes)) :
  (forall k, Forall ble_packet (packets k)) ->
  (forall k, from_sender k traffic = concat (map (fun p => ndnts_frame p (mtu k)) (packets k))) ->
  Z.of_nat (size (list_to_set (map fst traffic) : gset K)) <= MAX_SENDERS ->
  forall k, from_sender k (hear next_key ∅ traffic).1 = packets k.
Proof.
  intros P T SZ k. pose proof (hear_isolated next_key traffic ∅) as I. rewrite dom_empty_L, union_empty_l_L in I.
  specialize (I SZ k). destruct (hear next_key ∅ traffic) as [outs streams']. destruct I as [I _]. cbn [fst].
  rewrite I, lookup_empty, T. cbn [default]. pose proof (feeds_packets (mtu k) (packets k) (P k)) as F. unfold idle in F.
  by rewrite F.
Qed.

Definition sample (n : nat) : bytes := tlv_bytes 6 (map Z.of_nat (seq 0 n)).
Definition first_key (m : gmap Z NdntsReassembler) : option Z := fst <$> head (map_to_list m).
Definition interleaved : list (Z * bytes) :=
  match ndnts_frame (sample 10) 8, ndnts_frame (sample 3) 4, ndnts_frame (sample 2) 8 with
  | [a1; a2], [b1; b2], [c] => [(1, a1); (2, b1); (1, a2); (2, b2); (1, c)]
  | _, _, _ => []
  end.

Lemma ble_frames_delivered_witness :
  from_sender 1 (hear first_key ∅ interleaved).1 = [sample 10; sample 2] /\ from_sender 2 (hear first_key ∅ interleaved).1 = [sample 3].
Proof.
  pose (pkts := fun k : Z => if k =? 1 then [sample 10; sample 2] else if k =? 2 then [sample 3] else []).
  pose (mtu := fun k : Z => if k =? 1 then 8 else 4).
  assert (forall k, from_sender k (hear first_key ∅ interleaved).1 = pkts k) as D.
  { apply (ble_frames_delivered first_key mtu pkts interleaved).
    - intros k. unfold pkts. assert (forall n, (n < 100)%nat -> ble_packet (sample n)) as B.
      { intros n L. exists 6, (map Z.of_nat (seq 0 n)). split; [done|]. split; [lia|]. unfold sample.
        rewrite zlen_tlv_bytes. unfold tlv_size, zlen. rewrite length_map, length_seq.
        pose proof (varu64_size_range 6). pose proof (varu64_size_range (Z.of_nat n)). unfold MAX_REASSEMBLY_SIZE. lia. }
      destruct (k =? 1); [|destruct (k =? 2)]; repeat constructor; apply B; lia.
    - intros k. unfold pkts, mtu. destruct (Z.eqb_spec k 1) as [->|N1]; [vm_compute; reflexivity|].
      destruct (Z.eqb_spec k 2) as [->|N2]; [vm_compute; reflexivity|].
      apply from_sender_none. assert (Forall (fun x => x.1 = 1 \/ x.1 = 2) interleaved) as F by (vm_compute; repeat constructor; auto).
      eapply Forall_impl; [exact F|]. cbn. lia.
    - vm_compute. discriminate. }
  split; [exact (D 1)|exact (D 2)].
Defined.

(** ** What the header does not protect against *)

(** The sequence number is never looked at, and a packet without header is taken for
    a continuation while one is incomplete: after the loss of a fragment the next
    whole packet is consumed, and a damaged packet can come out. *)
Example unfragmented_swallowed :
  match ndnts_frame (sample 10) 8 with
  | [a1; _] => feeds idle [a1; sample 2] = ([], mkReassembler (take 7 (sample 10) ++ drop 1 (sample 2)) true)
  | _ => False
  end.
Proof. vm_compute. reflexivity. Qed.

Example lost_fragment_spliced :
  match ndnts_frame (sample 10) 8 with
  | [a1; _] => exists damaged, damaged <> sample 10 /\ (feeds idle [a1; sample 2; sample 2]).1 = [damaged]
  | _ => False
  end.
Proof. vm_compute. eexists. split; [|reflexivity]. discriminate. Qed.

(** [frame] advances [seq] by one for a packet of several NDNLPv2 fragments, so the next
    packet reuses their sequence numbers. *)
Example lp_sequences_overlap :
  let pkt := sample 100 in
  let '(r1, seq1) := BleFraming.frame Ndnlpv2 pkt 100 0 in
  let '(r2, _) := BleFraming.frame Ndnlpv2 pkt 100 seq1 in
  match r1, r2 with
  | Ok (_ :: w1 :: _), Ok (w2 :: _) => slice w1 0 12 = slice w2 0 12 /\ slice w1 2 4 = [lp_type.LP_SEQUENCE; 8]
  | _, _ => False
  end.
Proof. vm_compute. split; reflexivity. Qed.

(** A packet of 253 bytes or more takes eight bytes of header, not four. *)
Example lp_frame_exceeds_mtu :
  match BleFraming.frame Ndnlpv2 (sample 250) 257 0 with
  | (Ok [w], _) => 257 < zlen w
  | _ => False
  end.
Proof. vm_compute. reflexivity. Qed.

Lemma capability_roundtrip f : BleFraming.from_capability_byte (BleFraming.capability_byte f) = f.
Proof. by destruct f. Qed.
