(* ===== verification/Psync.v ===== *)
(** * Set reconciliation of PSync ([crates/protocols/ndn-sync/src]: [murmur3.rs],
    [psync.rs])

    The hash family, the invertible Bloom lookup table (IBLT) over 32-bit hashes, its
    difference and its decoding by peeling, and the local set of a node.

    [cell_at] says what a table means: each cell holds the signed count, the sum and
    the check sum of the keys that fall into it ([Rep]).  From it: a table does not
    depend on the order its keys come in, the difference of two tables is the table
    of the difference of the sets, and [reconcile] returns exactly that difference
    when the check sums do not lie ([honest]).  On a table that no set gives,
    decoding need not end ([decode_diverges]).

    The order a hash set is walked in is the parameter [iter].  [i32] arithmetic that
    overflows and an index or divisor out of range are [Panic]; [Running] is a loop
    that has not ended within its fuel. *)

From S2P Require Import Prelude Flash.
#[local] Open Scope Z_scope.

(** ** [murmur3.rs] *)

Definition C1 : Z := 0xcc9e2d51.
Definition C2 : Z := 0x1b873593.
Definition N_HASHCHECK : Z := 11.
Definition N_HASH : Z := 3.

Definition wrapping_mul32 (a b : Z) : Z := wrap 32 (a * b).
Definition wrapping_add32 (a b : Z) : Z := wrap 32 (a + b).
Definition rotate_left32 (x n : Z) : Z := Z.lor (wrap 32 (Z.shiftl x n)) (Z.shiftr x (32 - n)).

(** The mixing of a block or of the tail. *)
Definition mix_k1 (k1 : Z) : Z := wrapping_mul32 (rotate_left32 (wrapping_mul32 k1 C1) 15) C2.

Fixpoint murmur3_blocks (nblocks : nat) (key : bytes) (h1 : Z) : Z :=
  match nblocks with
  | O => h1
  | S n =>
      let h1 := Z.lxor h1 (mix_k1 (le_decode (take 4 key))) in
      murmur3_blocks n (drop 4 key) (wrapping_add32 (wrapping_mul32 (rotate_left32 h1 13) 5) 0xe6546b64)
  end.

Definition murmur3_tail (tail : bytes) (h1 : Z) : Z :=
  match tail with
  | [] => h1
  | t0 :: _ =>
      let k1 := match tail !! 2%nat with Some t2 => Z.shiftl t2 16 | None => 0 end in
      let k1 := match tail !! 1%nat with Some t1 => Z.lxor k1 (Z.shiftl t1 8) | None => k1 end in
      let k1 := Z.lxor k1 t0 in
      Z.lxor h1 (mix_k1 k1)
  end.

Definition fmix32 (h1 : Z) : Z :=
  let h1 := Z.lxor h1 (Z.shiftr h1 16) in
  let h1 := wrapping_mul32 h1 0x85ebca6b in
  let h1 := Z.lxor h1 (Z.shiftr h1 13) in
  let h1 := wrapping_mul32 h1 0xc2b2ae35 in
  Z.lxor h1 (Z.shiftr h1 16).

Definition murmur3_x86_32 (key : bytes) (seed : Z) : Z :=
  let nblocks := Nat.div (length key) 4 in
  let h1 := murmur3_blocks nblocks key seed in
  let h1 := murmur3_tail (drop (nblocks * 4) key) h1 in
  fmix32 (Z.lxor h1 (wrap 32 (zlen key))).

Definition murmur3_u32 (value seed : Z) : Z := murmur3_x86_32 (le_encode 4 value) seed.
Definition murmur3_u64 (value seed : Z) : Z := murmur3_x86_32 (le_encode 8 value) seed.

Example smhasher_vectors :
  murmur3_x86_32 [] 0 = 0 /\ murmur3_x86_32 [] 1 = 0x514E28B7 /\ murmur3_x86_32 [] 0xffffffff = 0x81F16F39 /\
  murmur3_x86_32 [97; 97; 97; 97] 0x9747b28c = 0x5A97808A /\
  murmur3_x86_32 [72; 101; 108; 108; 111; 44; 32; 119; 111; 114; 108; 100; 33] 0 = 0xC0363E43 /\
  murmur3_u32 0x5C5BF267 N_HASHCHECK = 0x4224EE6C.
Proof. vm_compute. repeat split. Qed.

(** ** [psync.rs] *)

Inductive Outcome (A : Type) : Type := Done (a : A) | Panic | Running.
Arguments Done {A} _.
Arguments Panic {A}.
Arguments Running {A}.

Record IbfCell : Type := mkCell { count : Z; key_sum : Z; key_check : Z }.
Definition IbfCell_default : IbfCell := mkCell 0 0 0.

#[export] Instance IbfCell_eq_dec : EqDecision IbfCell.
Proof. solve_decision. Defined.

(** [i32] addition; [None] is the overflow. *)
Definition add_i32 (a b : Z) : option Z := if (- 2 ^ 31 <=? a + b) && (a + b <? 2 ^ 31) then Some (a + b) else None.

Definition is_pure (c : IbfCell) : bool :=
  ((count c =? 1) || (count c =? -1)) && (murmur3_u32 (key_sum c) N_HASHCHECK =? key_check c).
Definition is_empty (c : IbfCell) : bool := (count c =? 0) && (key_sum c =? 0) && (key_check c =? 0).

(** The cell of [key] for hash [i]. *)
Definition cell_index (section i key : Z) : Z := i * section + murmur3_u32 key i mod section.

Definition update_cell (cells : list IbfCell) (plus_or_minus key idx : Z) : option (list IbfCell) :=
  match cells !! Z.to_nat idx with
  | None => None
  | Some c =>
      match add_i32 (count c) plus_or_minus with
      | None => None
      | Some n =>
          Some (<[Z.to_nat idx := mkCell n (Z.lxor (key_sum c) key) (Z.lxor (key_check c) (murmur3_u32 key N_HASHCHECK))]> cells)
      end
  end.

Definition iblt_update (cells : list IbfCell) (plus_or_minus key : Z) : option (list IbfCell) :=
  let section := zlen cells / N_HASH in
  if section =? 0 then None
  else
    foldl (fun cells i => match cells with Some cells => update_cell cells plus_or_minus key (cell_index section i key) | None => None end)
      (Some cells) [0; 1; 2].

Module Ibf.
(** [Ibf { cells }]. *)
Definition Ibf : Type := list IbfCell.

Definition new (n_cells : Z) : Ibf := replicate (Z.to_nat (Z.max n_cells N_HASH)) IbfCell_default.

Definition from_expected (expected_entries : Z) : Ibf :=
  let n := expected_entries + expected_entries / 2 in
  let rem := n mod N_HASH in
  let n := if negb (rem =? 0) then n + (N_HASH - rem) else n in
  new (Z.max n N_HASH).

Definition from_raw_cells (raw : list (Z * Z * Z)) : Ibf := map (fun c => mkCell c.1.1 c.1.2 c.2) raw.
Definition raw_cells (self : Ibf) : list (Z * Z * Z) := map (fun c => (count c, key_sum c, key_check c)) self.
Definition n_cells (self : Ibf) : Z := zlen self.

Definition insert (self : Ibf) (key : Z) : option Ibf := iblt_update self 1 key.
Definition erase (self : Ibf) (key : Z) : option Ibf := iblt_update self (-1) key.

(** Cell by cell, as far as the shorter one goes. *)
Fixpoint subtract (self other : Ibf) : option Ibf :=
  match self, other with
  | a :: self, b :: other =>
      match add_i32 (count a) (- count b), subtract self other with
      | Some n, Some rest => Some (mkCell n (Z.lxor (key_sum a) (key_sum b)) (Z.lxor (key_check a) (key_check b)) :: rest)
      | _, _ => None
      end
  | _, _ => Some []
  end.

(** [cells.iter().position(|c| c.is_pure())] and the cell there. *)
Fixpoint find_pure (cells : list IbfCell) : option IbfCell :=
  match cells with
  | [] => None
  | c :: cells => if is_pure c then Some c else find_pure cells
  end.

Fixpoint peel (fuel : nat) (cells : list IbfCell) (positive negative : gset Z) : Outcome (option (gset Z * gset Z)) :=
  match fuel with
  | O => Running
  | S fuel =>
      match find_pure cells with
      | None => Done (if forallb is_empty cells then Some (positive, negative) else None)
      | Some c =>
          let key := key_sum c in
          let positive := if count c =? 1 then {[key]} ∪ positive else positive in
          let negative := if count c =? 1 then negative else {[key]} ∪ negative in
          match iblt_update cells (- count c) key with
          | None => Panic
          | Some cells => peel fuel cells positive negative
          end
      end
  end.

Definition decode (fuel : nat) (self : Ibf) : Outcome (option (gset Z * gset Z)) := peel fuel self ∅ ∅.
End Ibf.
Import Ibf(Ibf).

Record PSyncNode : Type := mkNode { local_set : gset Z; expected_entries : Z }.

Module PSyncNode.
Section Node.
Context (iter : gset Z -> list Z).

Definition new (expected : Z) : PSyncNode := mkNode ∅ (Z.max expected 3).
Definition insert (self : PSyncNode) (hash : Z) : PSyncNode := mkNode ({[hash]} ∪ local_set self) (expected_entries self).
Definition remove (self : PSyncNode) (hash : Z) : PSyncNode * bool :=
  (mkNode (local_set self ∖ {[hash]}) (expected_entries self), bool_decide (hash ∈ local_set self)).
Definition contains (self : PSyncNode) (hash : Z) : bool := bool_decide (hash ∈ local_set self).
Definition len (self : PSyncNode) : Z := Z.of_nat (size (local_set self)).
Definition is_empty (self : PSyncNode) : bool := len self =? 0.

Definition insert_all (ibf : option Ibf) (hashes : list Z) : option Ibf :=
  foldl (fun ibf h => match ibf with Some ibf => Ibf.insert ibf h | None => None end) ibf hashes.
Definition build_ibf (self : PSyncNode) : option Ibf :=
  insert_all (Some (Ibf.from_expected (expected_entries self))) (iter (local_set self)).

Definition reconcile (fuel : nat) (self : PSyncNode) (peer_ibf : Ibf) : Outcome (option (gset Z * gset Z)) :=
  match build_ibf self with
  | None => Panic
  | Some ibf => match Ibf.subtract ibf peer_ibf with Some diff => Ibf.decode fuel diff | None => Panic end
  end.
End Node.
End PSyncNode.

(** ** What a table means *)

#[local] Opaque murmur3_u32.

(** A signed key: [(1, k)] was inserted, [(-1, k)] erased. *)
Definition Signed : Type := Z * Z.
Definition signed_ok (L : list Signed) : Prop := Forall (fun x => x.1 = 1 \/ x.1 = -1) L.

Definition cell_add (c d : IbfCell) : IbfCell :=
  mkCell (count c + count d) (Z.lxor (key_sum c) (key_sum d)) (Z.lxor (key_check c) (key_check d)).
Definition unit_cell (x : Signed) : IbfCell := mkCell x.1 x.2 (murmur3_u32 x.2 N_HASHCHECK).
Definition cell_neg (c : IbfCell) : IbfCell := mkCell (- count c) (key_sum c) (key_check c).

(** [key] falls into cell [j]. *)
Definition hits (section key j : Z) : bool := existsb (fun i => cell_index section i key =? j) [0; 1; 2].
Definition in_cell (section : Z) (L : list Signed) (j : Z) : list Signed := base.filter (fun x => hits section x.2 j = true) L.
Definition total (L : list Signed) : IbfCell := foldr (fun x c => cell_add (unit_cell x) c) IbfCell_default L.
Definition cell_at (section : Z) (L : list Signed) (j : Z) : IbfCell := total (in_cell section L j).

Definition section_of (cells : list IbfCell) : Z := zlen cells / N_HASH.
Definition Rep (cells : list IbfCell) (L : list Signed) : Prop :=
  forall j, 0 <= j < zlen cells -> cells !! Z.to_nat j = Some (cell_at (section_of cells) L j).

Lemma cell_add_comm c d : cell_add c d = cell_add d c.
Proof. unfold cell_add. f_equal; [lia|apply Z.lxor_comm..]. Qed.
Lemma cell_add_assoc c d e : cell_add c (cell_add d e) = cell_add (cell_add c d) e.
Proof. unfold cell_add. cbn. f_equal; [lia|symmetry; apply Z.lxor_assoc..]. Qed.
Lemma cell_add_0 c : cell_add IbfCell_default c = c.
Proof. destruct c. unfold cell_add. cbn. by rewrite !Z.lxor_0_l. Qed.
Lemma cell_add_neg c : cell_add c (cell_neg c) = IbfCell_default.
Proof. unfold cell_add, cell_neg. cbn. rewrite !Z.lxor_nilpotent. unfold IbfCell_default. f_equal; lia. Qed.
Lemma cell_neg_add c d : cell_neg (cell_add c d) = cell_add (cell_neg c) (cell_neg d).
Proof. unfold cell_add, cell_neg. cbn. f_equal; lia. Qed.

Lemma total_cells_app L1 L2 : total (L1 ++ L2) = cell_add (total L1) (total L2).
Proof.
  induction L1 as [|x L1 IH]; [by rewrite cell_add_0|].
  change (total ((x :: L1) ++ L2)) with (cell_add (unit_cell x) (total (L1 ++ L2))). rewrite IH. apply cell_add_assoc.
Qed.

Lemma in_cell_app s L1 L2 j : in_cell s (L1 ++ L2) j = in_cell s L1 j ++ in_cell s L2 j.
Proof. apply filter_app. Qed.
Lemma cell_at_app s L1 L2 j : cell_at s (L1 ++ L2) j = cell_add (cell_at s L1 j) (cell_at s L2 j).
Proof. unfold cell_at. by rewrite in_cell_app, total_cells_app. Qed.
Lemma cell_at_cons s x L j : cell_at s (x :: L) j = if hits s x.2 j then cell_add (unit_cell x) (cell_at s L j) else cell_at s L j.
Proof.
  unfold cell_at, in_cell. destruct (hits s x.2 j) eqn:E; [by rewrite filter_cons_True|].
  rewrite filter_cons_False; [done|]. by rewrite E.
Qed.

Lemma cell_at_perm s L1 L2 j : L1 ≡ₚ L2 -> cell_at s L1 j = cell_at s L2 j.
Proof.
  intros P. induction P as [|x L1 L2 _ IH|x y L|L1 L2 L3 _ IH1 _ IH2].
  - done.
  - by rewrite !cell_at_cons, IH.
  - rewrite !cell_at_cons. destruct (hits s x.2 j), (hits s y.2 j); try done.
    rewrite !cell_add_assoc. f_equal. apply cell_add_comm.
  - congruence.
Qed.

Definition negate (L : list Signed) : list Signed := map (fun x => (- x.1, x.2)) L.

Lemma cell_at_negate s L j : cell_at s (negate L) j = cell_neg (cell_at s L j).
Proof.
  induction L as [|x L IH]; cbn [negate map]; [done|]. rewrite !cell_at_cons. cbn [snd]. fold (negate L). rewrite IH.
  destruct (hits s x.2 j); [|reflexivity]. rewrite cell_neg_add. reflexivity.
Qed.

Lemma cell_at_cancel s L j : cell_at s (L ++ negate L) j = IbfCell_default.
Proof. rewrite cell_at_app, cell_at_negate. apply cell_add_neg. Qed.

Lemma total_count_bound L : signed_ok L -> Z.abs (count (total L)) <= zlen L.
Proof.
  induction 1 as [|x L S _ IH]; [by vm_compute|]. rewrite zlen_cons.
  change (total (x :: L)) with (cell_add (unit_cell x) (total L)). cbn [cell_add unit_cell count]. lia.
Qed.

Lemma cell_count_bound s L j : signed_ok L -> Z.abs (count (cell_at s L j)) <= zlen L.
Proof.
  intros S. unfold cell_at. transitivity (zlen (in_cell s L j)).
  - apply total_count_bound. unfold in_cell, signed_ok in *. apply Forall_forall. intros x I. apply list_elem_of_filter in I as [_ I]. by eapply Forall_forall in S.
  - unfold in_cell, zlen. apply inj_le, length_filter.
Qed.

(** ** Updates *)

Lemma add_i32_ok a b : - 2 ^ 31 <= a + b < 2 ^ 31 -> add_i32 a b = Some (a + b).
Proof. intros R. unfold add_i32. rewrite (proj2 (Z.leb_le _ _)), (proj2 (Z.ltb_lt _ _)) by lia. done. Qed.

Lemma cell_index_range s i k : 1 <= s -> 0 <= i -> i * s <= cell_index s i k < (i + 1) * s.
Proof. intros S I. unfold cell_index. pose proof (Z.mod_pos_bound (murmur3_u32 k i) s ltac:(lia)). lia. Qed.

Lemma hits_range s k j : 1 <= s -> hits s k j = true -> 0 <= j < 3 * s.
Proof.
  intros S. unfold hits. cbn [existsb]. rewrite orb_false_r, !orb_true_iff, !Z.eqb_eq.
  pose proof (cell_index_range s 0 k S ltac:(lia)). pose proof (cell_index_range s 1 k S ltac:(lia)).
  pose proof (cell_index_range s 2 k S ltac:(lia)). lia.
Qed.

Definition bump (pm key : Z) (c : IbfCell) : IbfCell := cell_add (unit_cell (pm, key)) c.

Lemma update_cell_spec cells pm key idx c : 0 <= idx -> cells !! Z.to_nat idx = Some c ->
  - 2 ^ 31 <= count c + pm < 2 ^ 31 -> update_cell cells pm key idx = Some (<[Z.to_nat idx := bump pm key c]> cells).
Proof.
  intros I E R. unfold update_cell. rewrite E, add_i32_ok by done. unfold bump, cell_add, unit_cell. cbn.
  by rewrite (Z.add_comm pm), (Z.lxor_comm key), (Z.lxor_comm (murmur3_u32 key N_HASHCHECK)).
Qed.

Lemma iblt_update_rep cells L pm key : 1 <= section_of cells -> Rep cells L -> signed_ok L -> pm = 1 \/ pm = -1 ->
  zlen L + 1 < 2 ^ 31 ->
  exists cells', iblt_update cells pm key = Some cells' /\ zlen cells' = zlen cells /\ Rep cells' ((pm, key) :: L).
Proof.
  intros S R SG PM B. unfold iblt_update. fold (section_of cells). rewrite (proj2 (Z.eqb_neq (section_of cells) 0)) by lia.
  set (s := section_of cells) in *. cbn [foldl].
  pose proof (cell_index_range s 0 key S ltac:(lia)) as R0. pose proof (cell_index_range s 1 key S ltac:(lia)) as R1.
  pose proof (cell_index_range s 2 key S ltac:(lia)) as R2.
  assert (3 * s <= zlen cells) as LE by (unfold s, section_of, N_HASH; pose proof (Z.mul_div_le (zlen cells) 3 ltac:(lia)); lia).
  set (a := cell_index s 0 key) in *. set (b := cell_index s 1 key) in *. set (c := cell_index s 2 key) in *.
  assert (forall j, - 2 ^ 31 <= count (cell_at s L j) + pm < 2 ^ 31) as CB.
  { intros j. pose proof (cell_count_bound s L j SG). lia. }
  rewrite (update_cell_spec cells pm key a (cell_at s L a)) by (try apply R; try apply CB; lia).
  rewrite (update_cell_spec _ pm key b (cell_at s L b));
    [|lia|rewrite list_lookup_insert_ne by lia; apply R; lia|apply CB].
  rewrite (update_cell_spec _ pm key c (cell_at s L c));
    [|lia|rewrite !list_lookup_insert_ne by lia; apply R; lia|apply CB].
  eexists. split; [done|].
  match goal with |- zlen ?l = _ /\ _ => assert (zlen l = zlen cells) as ZL by (unfold zlen; by rewrite !length_insert) end.
  split; [exact ZL|]. intros j J. rewrite ZL in J. unfold section_of at 1. rewrite ZL. fold (section_of cells). fold s.
  rewrite cell_at_cons. cbn [snd]. unfold hits. cbn [existsb]. fold a b c.
  destruct (Z.eqb_spec a j) as [<-|NA]; [|destruct (Z.eqb_spec b j) as [<-|NB]; [|destruct (Z.eqb_spec c j) as [<-|NC]]]; cbn [orb].
  - rewrite !(list_lookup_insert_ne _ _ (Z.to_nat a)) by lia. apply list_lookup_insert_eq. unfold zlen in *. lia.
  - rewrite (list_lookup_insert_ne _ _ (Z.to_nat b)) by lia. apply list_lookup_insert_eq. rewrite length_insert. unfold zlen in *. lia.
  - apply list_lookup_insert_eq. rewrite !length_insert. unfold zlen in *. lia.
  - rewrite !list_lookup_insert_ne by lia. by apply R.
Qed.

Lemma rep_perm cells L1 L2 : L1 ≡ₚ L2 -> Rep cells L1 -> Rep cells L2.
Proof. intros P R j J. rewrite (R j J). f_equal. by apply cell_at_perm. Qed.

Lemma rep_cancel cells L1 L2 : Rep cells (L1 ++ L2 ++ negate L2) -> Rep cells L1.
Proof.
  intros R j J. rewrite (R j J), cell_at_app, cell_at_cancel. f_equal. rewrite cell_add_comm. apply cell_add_0.
Qed.

(** ** Building and subtracting *)

Lemma from_expected_cells e : 0 <= e -> exists n, Ibf.from_expected e = replicate n IbfCell_default /\ (3 <= n)%nat.
Proof. intros E. unfold Ibf.from_expected, Ibf.new, N_HASH. eexists. split; [done|]. lia. Qed.

Lemma section_pos cells : 3 <= zlen cells -> 1 <= section_of cells.
Proof. intros L. unfold section_of, N_HASH. pose proof (Z.div_le_mono 3 (zlen cells) 3 ltac:(lia) L). by vm_compute in H |- *. Qed.

Lemma rep_new n : Rep (replicate n IbfCell_default) [].
Proof. intros j J. unfold zlen in J. rewrite length_replicate in J. apply lookup_replicate_2. lia. Qed.

Definition plus (keys : list Z) : list Signed := map (pair 1) keys.

Lemma insert_all_rep hs cells L : 1 <= section_of cells -> Rep cells L -> signed_ok L -> zlen L + zlen hs < 2 ^ 31 ->
  exists cells', PSyncNode.insert_all (Some cells) hs = Some cells' /\ zlen cells' = zlen cells /\ Rep cells' (plus hs ++ L).
Proof.
  revert cells L. induction hs as [|h hs IH]; intros cells L S R SG B; [by exists cells|]. rewrite zlen_cons in B.
  pose proof (zlen_nonneg hs). change (PSyncNode.insert_all (Some cells) (h :: hs)) with (PSyncNode.insert_all (iblt_update cells 1 h) hs).
  destruct (iblt_update_rep cells L 1 h S R SG) as (c1 & -> & Z1 & R1); [by left|lia|].
  destruct (IH c1 ((1, h) :: L)) as (c2 & -> & Z2 & R2).
  - unfold section_of. by rewrite Z1.
  - done.
  - constructor; [by left|done].
  - rewrite zlen_cons. lia.
  - exists c2. split_conj; [done|congruence|]. eapply rep_perm; [|exact R2]. cbn [plus map app].
    apply Permutation_sym, Permutation_middle.
Qed.

Lemma subtract_spec a b : length a = length b ->
  (forall i x y, a !! i = Some x -> b !! i = Some y -> - 2 ^ 31 <= count x - count y < 2 ^ 31) ->
  exists d, Ibf.subtract a b = Some d /\ length d = length a /\
    forall i x y, a !! i = Some x -> b !! i = Some y -> d !! i = Some (cell_add x (cell_neg y)).
Proof.
  revert b. induction a as [|x a IH]; intros [|y b] LE B; try done; cbn [Ibf.subtract]; [by exists []|].
  rewrite add_i32_ok by (specialize (B O x y eq_refl eq_refl); lia).
  destruct (IH b) as (d & -> & LD & D); [by injection LE|intros i; apply (B (S i))|].
  eexists. split_conj; [done|by cbn; rewrite LD|]. intros [|i] x' y' E1 E2; [|by apply (D i)]. by simplify_eq/=.
Qed.

Lemma subtract_rep a b LA LB : zlen a = zlen b -> Rep a LA -> Rep b LB -> signed_ok LA -> signed_ok LB ->
  zlen LA + zlen LB < 2 ^ 31 ->
  exists d, Ibf.subtract a b = Some d /\ zlen d = zlen a /\ Rep d (LA ++ negate LB).
Proof.
  intros LE RA RB SA SB B.
  assert (forall i x, a !! i = Some x -> x = cell_at (section_of a) LA (Z.of_nat i)) as EA.
  { intros i x E. pose proof (lookup_lt_Some _ _ _ E). specialize (RA (Z.of_nat i)). rewrite Nat2Z.id in RA.
    rewrite RA in E by (unfold zlen; lia). congruence. }
  assert (forall i y, b !! i = Some y -> y = cell_at (section_of a) LB (Z.of_nat i)) as EB.
  { intros i y E. pose proof (lookup_lt_Some _ _ _ E). specialize (RB (Z.of_nat i)). rewrite Nat2Z.id in RB.
    rewrite RB in E by (unfold zlen; lia). unfold section_of in *. rewrite <-LE in E. congruence. }
  destruct (subtract_spec a b) as (d & E & LD & D).
  - unfold zlen in LE. lia.
  - intros i x y -> %EA -> %EB. pose proof (cell_count_bound (section_of a) LA (Z.of_nat i) SA).
    pose proof (cell_count_bound (section_of a) LB (Z.of_nat i) SB). lia.
  - assert (zlen d = zlen a) as ZD by (unfold zlen; lia). exists d. split_conj; [done|done|].
    intros j J. rewrite ZD in J. unfold section_of at 1. rewrite ZD. fold (section_of a).
    rewrite cell_at_app, cell_at_negate. destruct (lookup_lt_is_Some_2 a (Z.to_nat j)) as [x X]; [unfold zlen in J; lia|].
    destruct (lookup_lt_is_Some_2 b (Z.to_nat j)) as [y Y]; [unfold zlen in *; lia|].
    etransitivity; [exact (D _ _ _ X Y)|]. rewrite (EA _ _ X), (EB _ _ Y), Z2Nat.id by lia. done.
Qed.

Lemma find_pure_spec cells :
  match Ibf.find_pure cells with
  | Some c => is_pure c = true /\ exists i, cells !! i = Some c
  | None => Forall (fun c => is_pure c = false) cells
  end.
Proof.
  induction cells as [|c cells IH]; cbn [Ibf.find_pure]; [constructor|]. destruct (is_pure c) eqn:E.
  - split; [done|]. by exists O.
  - destruct (Ibf.find_pure cells) as [c1|]; [|by constructor]. destruct IH as (? & i & ?). split; [done|]. by exists (S i).
Qed.

(** ** Peeling

    The check sums do not lie about the parts of [D]: a cell that looks empty is, and
    one that looks like a single key holds a single key. *)
Definition honest (n : Z) (D : list Signed) : Prop :=
  forall L, L ⊆+ D -> forall j, 0 <= j < n ->
    (is_empty (cell_at (n / N_HASH) L j) = true -> in_cell (n / N_HASH) L j = []) /\
    (is_pure (cell_at (n / N_HASH) L j) = true -> exists x, in_cell (n / N_HASH) L j = [x]).

(** A part no peeling can start on: every cell has none or several of its keys. *)
Definition core (n : Z) (D L : list Signed) : Prop :=
  L ⊆+ D /\ L <> [] /\ forall j x, 0 <= j < n -> in_cell (n / N_HASH) L j <> [x].

Definition keys_of (sign : Z) (L : list Signed) : gset Z := list_to_set (map snd (base.filter (fun x => x.1 = sign) L)).

Lemma keys_of_perm sign L1 L2 : L1 ≡ₚ L2 -> keys_of sign L1 = keys_of sign L2.
Proof. intros P. unfold keys_of. apply list_to_set_perm_L. by rewrite P. Qed.

Lemma keys_of_cons sign x L : keys_of sign (x :: L) = (if x.1 =? sign then {[x.2]} else ∅) ∪ keys_of sign L.
Proof.
  unfold keys_of. destruct (Z.eqb_spec x.1 sign); [by rewrite filter_cons_True|].
  rewrite filter_cons_False by done. by rewrite union_empty_l_L.
Qed.

Lemma cell_single s L j x : in_cell s L j = [x] -> cell_at s L j = unit_cell x.
Proof. intros E. unfold cell_at. rewrite E. cbn. rewrite cell_add_comm. apply cell_add_0. Qed.

Lemma unit_pure x : x.1 = 1 \/ x.1 = -1 -> is_pure (unit_cell x) = true.
Proof. intros S. unfold is_pure, unit_cell. cbn [count key_sum key_check]. rewrite Z.eqb_refl. bcase; lia || done. Qed.

Lemma in_cell_elem s L j x : in_cell s L j = [x] -> exists L', L ≡ₚ x :: L'.
Proof.
  intros E. assert (x ∈ L) as I; [|by apply elem_of_Permutation in I].
  assert (x ∈ in_cell s L j) as I by (rewrite E; by left). by apply list_elem_of_filter in I as [_ ?].
Qed.

Lemma all_empty_honest n D L cells : honest n D -> L ⊆+ D -> Rep cells L -> zlen cells = n -> 3 <= n ->
  forallb is_empty cells = bool_decide (L = []).
Proof.
  intros HO SUB R ZN N3. pose proof (section_pos cells ltac:(lia)) as S. destruct L as [|x L].
  - rewrite bool_decide_true by done. apply forallb_forall. intros c I. apply list_elem_of_In, list_elem_of_lookup in I as [i E].
    pose proof (lookup_lt_Some _ _ _ E). specialize (R (Z.of_nat i) ltac:(unfold zlen; lia)). rewrite Nat2Z.id, E in R. by simplify_eq.
  - rewrite bool_decide_false by done. apply not_true_iff_false. intros F. rewrite forallb_forall in F.
    set (j := cell_index (section_of cells) 0 x.2).
    pose proof (cell_index_range (section_of cells) 0 x.2 S ltac:(lia)) as J. fold j in J.
    assert (section_of cells <= zlen cells) as LE.
    { unfold section_of, N_HASH. apply Z.div_le_upper_bound; lia. }
    specialize (R j ltac:(lia)). apply list_elem_of_lookup_2, list_elem_of_In, F in R.
    destruct (HO _ SUB j ltac:(lia)) as [HE _]. rewrite <-ZN in HE. specialize (HE R).
    unfold in_cell in HE. rewrite filter_cons_True in HE; [done|]. unfold hits. cbn [existsb]. fold j. by rewrite Z.eqb_refl.
Qed.

Lemma peel_spec fuel n D L cells pos neg : honest n D -> 3 <= n -> zlen cells = n -> Rep cells L -> L ⊆+ D -> signed_ok L ->
  zlen L + 1 < 2 ^ 31 -> (length L < fuel)%nat ->
  Ibf.peel fuel cells pos neg = Done (Some (keys_of 1 L ∪ pos, keys_of (-1) L ∪ neg)) \/
  (Ibf.peel fuel cells pos neg = Done None /\ exists L', core n D L').
Proof.
  intros HO N3. revert L cells pos neg. induction fuel as [|fuel IH]; intros L cells pos neg ZN R SUB SG B F; [lia|].
  cbn [Ibf.peel]. pose proof (find_pure_spec cells) as FP. destruct (Ibf.find_pure cells) as [c|].
  - destruct FP as (PU & i & E). pose proof (lookup_lt_Some _ _ _ E) as LT. assert (0 <= Z.of_nat i < n) as J by (unfold zlen in ZN; lia).
    pose proof (R (Z.of_nat i) ltac:(lia)) as RC. rewrite Nat2Z.id, E in RC. injection RC as ->.
    destruct (HO _ SUB (Z.of_nat i) J) as [_ HP]. rewrite <-ZN in HP. destruct (HP PU) as [x IX].
    pose proof (cell_single _ _ _ _ IX) as CS. fold (section_of cells) in CS. rewrite CS in *. destruct (in_cell_elem _ _ _ _ IX) as [L' P].
    assert (signed_ok (x :: L')) as SG' by (unfold signed_ok; by rewrite <-P). apply Forall_cons in SG' as [SX SL'].
    assert (length L = S (length L')) as LL by (by rewrite P). unfold zlen in B. rewrite LL in B, F.
    destruct (iblt_update_rep cells L (- x.1) x.2) as (cells' & U & ZC & R').
    { apply section_pos. lia. } { done. } { done. } { lia. } { unfold zlen. lia. }
    cbv zeta. cbn [unit_cell count key_sum]. rewrite U.
    destruct (IH L' cells' (if x.1 =? 1 then {[x.2]} ∪ pos else pos) (if x.1 =? 1 then neg else {[x.2]} ∪ neg))
      as [->|[-> C]]; [lia| | |done|unfold zlen; lia|lia| |by right].
    + apply (rep_cancel _ _ [x]). eapply rep_perm; [|exact R']. cbn [negate map]. rewrite P.
      change (L' ++ [x] ++ [(- x.1, x.2)]) with (L' ++ [x; (- x.1, x.2)]).
      rewrite (Permutation_app_comm L'). cbn. apply perm_swap.
    + etransitivity; [|exact SUB]. rewrite P. by apply submseteq_cons.
    + left. rewrite (keys_of_perm 1 _ _ P), (keys_of_perm (-1) _ _ P), !keys_of_cons. do 2 f_equal.
      destruct SX as [-> | ->]; cbn [Z.eqb]; f_equal; set_solver.
  - rewrite (all_empty_honest n D L cells) by done. case_bool_decide as EL.
    + subst L. left. unfold keys_of. cbn. by rewrite !union_empty_l_L.
    + right. split; [done|]. exists L. split; [done|]. split; [done|]. intros j x J IX. rewrite Forall_forall in FP.
      pose proof (R j ltac:(lia)) as RC. unfold section_of in RC. rewrite ZN in RC. apply list_elem_of_lookup_2, FP in RC.
      rewrite (cell_single _ _ _ _ IX) in RC. rewrite unit_pure in RC; [done|].
      assert (x ∈ L) as IN. { assert (x ∈ in_cell (n / N_HASH) L j) as I by (rewrite IX; by left). by apply list_elem_of_filter in I as [_ ?]. }
      by eapply Forall_forall in SG.
Qed.

(** ** Reconciliation *)

(** The signed difference of two sets. *)
Definition difference (A B : gset Z) : list Signed := plus (elements (A ∖ B)) ++ negate (plus (elements (B ∖ A))).

Lemma plus_ok l : signed_ok (plus l).
Proof. apply Forall_map, Forall_forall. intros x _. by left. Qed.
Lemma negate_ok L : signed_ok L -> signed_ok (negate L).
Proof. intros S. apply Forall_map. eapply Forall_impl; [exact S|]. cbn. lia. Qed.

Lemma keys_plus l : keys_of 1 (plus l) = list_to_set l /\ keys_of (-1) (plus l) = ∅.
Proof.
  induction l as [|k l [IH1 IH2]]; [done|]. cbn [plus map]. fold (plus l). rewrite !keys_of_cons, IH1, IH2.
  split; [done|exact (union_empty_l_L ∅)].
Qed.
Lemma keys_minus l : keys_of (-1) (negate (plus l)) = list_to_set l /\ keys_of 1 (negate (plus l)) = ∅.
Proof.
  induction l as [|k l [IH1 IH2]]; [done|]. cbn [negate plus map]. fold (plus l) (negate (plus l)).
  rewrite !keys_of_cons, IH1, IH2. split; [done|exact (union_empty_l_L ∅)].
Qed.
Lemma keys_of_app sign L1 L2 : keys_of sign (L1 ++ L2) = keys_of sign L1 ∪ keys_of sign L2.
Proof. unfold keys_of. by rewrite filter_app, map_app, list_to_set_app_L. Qed.

Lemma keys_difference A B : keys_of 1 (difference A B) = A ∖ B /\ keys_of (-1) (difference A B) = B ∖ A.
Proof.
  unfold difference. rewrite !keys_of_app, (proj1 (keys_plus _)), (proj2 (keys_plus _)), (proj1 (keys_minus _)), (proj2 (keys_minus _)).
  rewrite !list_to_set_elements_L. split; [apply union_empty_r_L|apply union_empty_l_L].
Qed.

Lemma plus_app l1 l2 : plus (l1 ++ l2) = plus l1 ++ plus l2.
Proof. apply map_app. Qed.
Lemma negate_app L1 L2 : negate (L1 ++ L2) = negate L1 ++ negate L2.
Proof. apply map_app. Qed.
Lemma plus_perm l1 l2 : l1 ≡ₚ l2 -> plus l1 ≡ₚ plus l2.
Proof. apply Permutation_map. Qed.

Lemma elements_split (A B : gset Z) : elements A ≡ₚ elements (A ∖ B) ++ elements (A ∩ B).
Proof.
  rewrite <-elements_disj_union by set_solver. assert (A ∖ B ∪ A ∩ B = A) as ->; [|done].
  apply set_eq. intros x. destruct (decide (x ∈ B)); set_solver.
Qed.

Lemma difference_cancels lA lB A B : lA ≡ₚ elements A -> lB ≡ₚ elements B ->
  plus lA ++ negate (plus lB) ≡ₚ difference A B ++ plus (elements (A ∩ B)) ++ negate (plus (elements (A ∩ B))).
Proof.
  intros PA PB. unfold difference.
  assert (plus lA ≡ₚ plus (elements (A ∖ B)) ++ plus (elements (A ∩ B))) as ->.
  { rewrite <-plus_app. apply plus_perm. by rewrite PA, (elements_split A B) at 1. }
  assert (negate (plus lB) ≡ₚ negate (plus (elements (B ∖ A))) ++ negate (plus (elements (A ∩ B)))) as ->.
  { rewrite <-negate_app, <-plus_app. apply Permutation_map, plus_perm. rewrite PB, (elements_split B A) at 1.
    by replace (A ∩ B) with (B ∩ A) by set_solver. }
  solve_Permutation.
Qed.

Lemma difference_size A B : zlen (difference A B) <= Z.of_nat (size A) + Z.of_nat (size B).
Proof.
  unfold difference, plus, negate. rewrite zlen_app. unfold zlen. rewrite !length_map.
  change (length (elements (A ∖ B))) with (size (A ∖ B)). change (length (elements (B ∖ A))) with (size (B ∖ A)).
  pose proof (subseteq_size (A ∖ B) A ltac:(set_solver)). pose proof (subseteq_size (B ∖ A) B ltac:(set_solver)). lia.
Qed.

(** The order in which a hash set is walked. *)
Definition lists (iter : gset Z -> list Z) : Prop := forall m, iter m ≡ₚ elements m.

Lemma build_ibf_rep iter A : lists iter -> 0 <= expected_entries A -> Z.of_nat (size (local_set A)) < 2 ^ 31 ->
  exists cells, PSyncNode.build_ibf iter A = Some cells /\ zlen cells = zlen (Ibf.from_expected (expected_entries A)) /\
    Rep cells (plus (iter (local_set A))).
Proof.
  intros IT E SZ. unfold PSyncNode.build_ibf. destruct (from_expected_cells _ E) as (n & -> & N3).
  assert (zlen (iter (local_set A)) = Z.of_nat (size (local_set A))) as ZI.
  { unfold zlen. by rewrite (Permutation_length (IT _)). }
  destruct (insert_all_rep (iter (local_set A)) (replicate n IbfCell_default) []) as (cells & IN & ZC & R).
  - apply section_pos. unfold zlen. rewrite length_replicate. lia.
  - apply rep_new.
  - constructor.
  - rewrite ZI, zlen_nil. lia.
  - exists cells. split_conj; [exact IN|done|]. by rewrite app_nil_r in R.
Qed.

(** Two nodes find out exactly how their sets differ.  The table a node sends does
    not depend on the order its set is walked in; the other subtracts it from its own
    and peels the difference, which ends after at most as many rounds as there are
    keys, without overflow.  As long as the check sums do not lie about parts of the
    difference, the answer is the keys only the one has and the keys only the other
    has, or none at all, and none only if some part of the difference cannot be
    peeled because every cell it touches holds several of its keys. *)
Theorem psync_reconcile_exact (iterA iterB : gset Z -> list Z) (A B : PSyncNode) (fuel : nat) :
  lists iterA -> lists iterB -> 0 <= expected_entries A -> expected_entries A = expected_entries B ->
  Z.of_nat (size (local_set A)) + Z.of_nat (size (local_set B)) + 1 < 2 ^ 31 ->
  (size (local_set A) + size (local_set B) < fuel)%nat ->
  let n := Ibf.n_cells (Ibf.from_expected (expected_entries A)) in
  let D := difference (local_set A) (local_set B) in
  honest n D ->
  exists ibf, PSyncNode.build_ibf iterB B = Some ibf /\
    (PSyncNode.reconcile iterA fuel A ibf = Done (Some (local_set A ∖ local_set B, local_set B ∖ local_set A)) \/
     (PSyncNode.reconcile iterA fuel A ibf = Done None /\ exists L, core n D L)).
Proof.
  intros IA IB E EE SZ F n D HO.
  destruct (build_ibf_rep iterA A IA E) as (ca & BA & ZA & RA); [lia|].
  destruct (build_ibf_rep iterB B IB) as (cb & BB & ZB & RB); [lia|lia|]. exists cb. split; [done|].
  unfold PSyncNode.reconcile. rewrite BA.
  assert (forall it X, lists it -> zlen (plus (it X)) = Z.of_nat (size X)) as ZP.
  { intros it X IT. unfold plus, zlen. rewrite length_map. by rewrite (Permutation_length (IT _)). }
  destruct (subtract_rep ca cb (plus (iterA (local_set A))) (plus (iterB (local_set B)))) as (d & -> & ZD & RD);
    [congruence|done|done|apply plus_ok|apply plus_ok|rewrite !ZP by done; lia|].
  assert (Rep d D) as RD'.
  { eapply rep_cancel. eapply rep_perm; [|exact RD]. by apply difference_cancels. }
  destruct (keys_difference (local_set A) (local_set B)) as [K1 K2]. fold D in K1, K2.
  pose proof (difference_size (local_set A) (local_set B)) as DS. fold D in DS.
  destruct (from_expected_cells _ E) as (k & EK & K3).
  unfold Ibf.decode. destruct (peel_spec fuel n D D d ∅ ∅) as [->|[-> C]]; try done.
  - unfold n, Ibf.n_cells. rewrite EK. unfold zlen. rewrite length_replicate. lia.
  - unfold n, Ibf.n_cells. congruence.
  - apply Forall_app. split; [apply plus_ok|apply negate_ok, plus_ok].
  - lia.
  - unfold zlen in DS. lia.
  - left. by rewrite !union_empty_r_L, K1, K2.
  - right. by split.
Qed.

(** *** Deciding [honest] *)

Fixpoint parts (L : list Signed) : list (list Signed) :=
  match L with
  | [] => [[]]
  | x :: L => map (cons x) (parts L) ++ parts L
  end.

Lemma parts_complete L D : L ⊆+ D -> exists S, In S (parts D) /\ L ≡ₚ S.
Proof.
  intros SUB. apply submseteq_sublist_r in SUB as (S & P & SL). exists S. split; [|done]. clear P L.
  induction SL as [|x l1 l2 _ IH|x l1 l2 _ IH]; cbn; [by left|..]; apply in_or_app; [left; by apply in_map|by right].
Qed.

Definition honestb (n : Z) (D : list Signed) : bool :=
  forallb (fun S => forallb (fun j =>
      let c := cell_at (n / N_HASH) S j in
      let k := length (in_cell (n / N_HASH) S j) in
      (negb (is_empty c) || (k =? 0)%nat) && (negb (is_pure c) || (k =? 1)%nat)) (seqZ 0 n)) (parts D).

Lemma honestb_sound n D : honestb n D = true -> honest n D.
Proof.
  intros HB L SUB j J. destruct (parts_complete _ _ SUB) as (S & IS & P). unfold honestb in HB. rewrite forallb_forall in HB.
  specialize (HB S IS). cbn beta in HB. rewrite forallb_forall in HB.
  specialize (HB j ltac:(apply list_elem_of_In, elem_of_seqZ; lia)). cbv zeta in HB. rewrite <-(cell_at_perm _ _ _ j P) in HB.
  assert (length (in_cell (n / N_HASH) L j) = length (in_cell (n / N_HASH) S j)) as LE by (unfold in_cell; by rewrite P).
  rewrite <-LE in HB. apply andb_true_iff in HB as [H1 H2]. split; intros X; rewrite X in *; cbn in H1, H2.
  - apply Nat.eqb_eq in H1. by apply nil_length_inv.
  - apply Nat.eqb_eq in H2. destruct (in_cell _ L j) as [|x [|? ?]]; try done. by exists x.
Qed.

Definition node_of (keys : list Z) (expected : Z) : PSyncNode := foldl PSyncNode.insert (PSyncNode.new expected) keys.

Lemma psync_reconcile_exact_witness :
  exists ibf, PSyncNode.build_ibf (fun m => rev (elements m)) (node_of [2; 3; 7] 3) = Some ibf /\
    (PSyncNode.reconcile elements 7 (node_of [1; 2; 7] 3) ibf
       = Done (Some (local_set (node_of [1; 2; 7] 3) ∖ local_set (node_of [2; 3; 7] 3), local_set (node_of [2; 3; 7] 3) ∖ local_set (node_of [1; 2; 7] 3))) \/
     (PSyncNode.reconcile elements 7 (node_of [1; 2; 7] 3) ibf = Done None /\
      exists L, core 6 (difference (local_set (node_of [1; 2; 7] 3)) (local_set (node_of [2; 3; 7] 3))) L)).
Proof.
  apply (psync_reconcile_exact elements (fun m => rev (elements m)) (node_of [1; 2; 7] 3) (node_of [2; 3; 7] 3) 7).
  - intros m. done.
  - intros m. symmetry. apply Permutation_rev.
  - vm_compute. discriminate.
  - reflexivity.
  - vm_compute. reflexivity.
  - vm_compute. lia.
  - apply honestb_sound. vm_compute. reflexivity.
Defined.

Example reconcile_run :
  match PSyncNode.build_ibf elements (node_of [2; 3; 7] 3) with
  | Some ibf => PSyncNode.reconcile elements 7 (node_of [1; 2; 7] 3) ibf = Done (Some ({[1]}, {[3]}))
  | None => False
  end.
Proof. vm_compute. reflexivity. Qed.

(** ** A table nobody built

    One cell that looks like the key 2 in a place where 2 does not belong: peeling it
    changes other cells and not this one, so it is found again. *)

Definition stray : Ibf := [mkCell (-1) 2 (murmur3_u32 2 N_HASHCHECK); IbfCell_default; IbfCell_default; IbfCell_default; IbfCell_default; IbfCell_default].

Definition parity (m x : Z) : Z := if Z.even m then 0 else x.
Definition churned (m : Z) : IbfCell := mkCell (- m) (parity m 2) (parity m (murmur3_u32 2 N_HASHCHECK)).
Definition peeled (m : Z) : list IbfCell :=
  [mkCell 1 2 (murmur3_u32 2 N_HASHCHECK); churned m; churned m; IbfCell_default; churned m; IbfCell_default].

Lemma parity_next m x : Z.lxor (parity m x) x = parity (m + 1) x.
Proof.
  unfold parity. rewrite Z.even_add. destruct (Z.even m); cbn; [apply Z.lxor_0_l|apply Z.lxor_nilpotent].
Qed.

Lemma peeled_update m : 0 <= m < 2 ^ 31 -> iblt_update (peeled m) (-1) 2 = Some (peeled (m + 1)).
Proof.
  intros M. unfold iblt_update. change (zlen (peeled m) / N_HASH) with 2. cbn [Z.eqb foldl].
  assert (cell_index 2 0 2 = 1 /\ cell_index 2 1 2 = 2 /\ cell_index 2 2 2 = 4) as (-> & -> & ->) by (vm_compute; done).
  assert (bump (-1) 2 (churned m) = churned (m + 1)) as BM.
  { unfold bump, cell_add, unit_cell, churned. cbn [count key_sum key_check fst snd].
    rewrite !(Z.lxor_comm _ (parity _ _)), !parity_next. f_equal. lia. }
  assert (- 2 ^ 31 <= count (churned m) + -1 < 2 ^ 31) as R by (cbn [count churned]; lia).
  rewrite (update_cell_spec (peeled m) (-1) 2 1 (churned m)) by done.
  rewrite (update_cell_spec _ (-1) 2 2 (churned m)) by done.
  rewrite (update_cell_spec _ (-1) 2 4 (churned m)) by done. by rewrite BM.
Qed.

Lemma peel_peeled fuel m pos neg : 0 <= m -> m + Z.of_nat fuel <= 2 ^ 31 -> Ibf.peel fuel (peeled m) pos neg = Running.
Proof.
  revert m pos neg. induction fuel as [|fuel IH]; intros m pos neg M F; [done|]. cbn [Ibf.peel].
  assert (Ibf.find_pure (peeled m) = Some (mkCell 1 2 (murmur3_u32 2 N_HASHCHECK))) as ->.
  { unfold peeled. cbn [Ibf.find_pure]. pose proof (unit_pure (1, 2) ltac:(by left)) as U. unfold unit_cell in U. cbn [fst snd] in U.
    by rewrite U. }
  cbv zeta. cbn [count key_sum Z.opp]. rewrite peeled_update by lia. apply IH; lia.
Qed.

(** A node that receives it, even with an empty set, is still peeling after 2^31 rounds,
    when the count overflows; where overflow wraps it never ends. *)
Lemma decode_diverges (iter : gset Z -> list Z) (fuel : nat) : lists iter -> Z.of_nat fuel <= 2 ^ 31 ->
  PSyncNode.reconcile iter fuel (PSyncNode.new 3) stray = Running.
Proof.
  intros IT F. unfold PSyncNode.reconcile, PSyncNode.build_ibf. cbn [PSyncNode.new local_set].
  assert (iter ∅ = []) as ->. { apply Permutation_nil_r. rewrite (IT ∅). by rewrite elements_empty. }
  change (Ibf.decode fuel (peeled 0) = Running). apply peel_peeled; lia.
Qed.
