(* ===== verification/PsyncSync.v ===== *)
(** * The PSync producer ([crates/protocols/ndn-sync/src/psync_sync.rs])

    The bounded set of the latest name of every prefix, how it answers the Sync
    Interest of a peer, how the names of an answer are learned, and the wire forms of
    the table and of the names.

    A node that holds no diff keeps the Interest; [PsyncState] has the producer and
    those it keeps.  What goes out is a [PsyncOut]: a Sync Interest, the names of a
    Sync Data, or a stored segment; the building and the segmentation of the Data, the
    timers and the tasks are not modelled.  zlib is third-party code: the parameters
    [compress] and [decompress].  The orders hash maps and sets are walked in are
    parameters.  [None] is a panic. *)

From S2P Require Import Prelude Tlv Name NameUri Packet Lp Flash Svs SvsSync Psync.
#[local] Open Scope Z_scope.

Definition T_GENERIC : Z := 0x08.

Definition parse_prefix_seq (name : Name) : option (Name * Z) :=
  match last name with
  | None => None
  | Some c =>
      let n := zlen (value c) in
      if negb (typ c =? T_GENERIC) || negb ((n =? 1) || (n =? 2) || (n =? 4) || (n =? 8)) then None
      else Some (take (length name - 1) name, tlv.decode_nni (value c))
  end.

Definition append_seq (prefix : Name) (seq : Z) : Name :=
  NameOps.append_component prefix (Component.generic (tlv.encode_nni seq)).

(** Strips the outer type and length. *)
Definition name_wire_value (name : Name) : bytes :=
  let full := NameOps.encode_to_tlv name in
  let len_byte := default 0 (full !! 1%nat) in
  let len_field_size := if len_byte <? 0xfd then 1 else if len_byte =? 0xfd then 3 else if len_byte =? 0xfe then 5 else 9 in
  slice_from_ full (1 + len_field_size).

Definition hash_name (name : Name) : Z := murmur3_x86_32 (name_wire_value name) N_HASHCHECK.

(** ** The producer *)

Record ProducerBase : Type := mkProducer {
  node : PSyncNode;
  prefixes : gmap Name Z;
  hash2name : gmap Z Name;
  name2hash : gmap Name Z;
  mappings : gmap Z bytes;
  num_own_elements : Z
}.

Module ProducerBase.
Definition new (ibf_count : Z) : ProducerBase := mkProducer (PSyncNode.new ibf_count) ∅ ∅ ∅ ∅ 0.

Definition insert_mapping (h : Z) (mapping : option bytes) (m : gmap Z bytes) : gmap Z bytes :=
  match mapping with Some x => <[h := x]> m | None => m end.

(** The name goes in under its hash. *)
Definition add_name (self : ProducerBase) (name : Name) (mapping : option bytes) : ProducerBase :=
  let h := hash_name name in
  mkProducer (PSyncNode.insert (node self) h) (prefixes self) (<[h := name]> (hash2name self)) (<[name := h]> (name2hash self))
    (insert_mapping h mapping (mappings self)) (num_own_elements self).

(** The old version goes out, if it is known under its name. *)
Definition drop_name (self : ProducerBase) (old_name : Name) : ProducerBase :=
  match name2hash self !! old_name with
  | None => self
  | Some h =>
      mkProducer (PSyncNode.remove (node self) h).1 (prefixes self) (delete h (hash2name self)) (delete old_name (name2hash self))
        (delete h (mappings self)) (num_own_elements self)
  end.

Definition set_version (self : ProducerBase) (prefix : Name) (seq : Z) : ProducerBase :=
  mkProducer (node self) (<[prefix := seq]> (prefixes self)) (hash2name self) (name2hash self) (mappings self) (num_own_elements self).
Definition count_elements (self : ProducerBase) (n : Z) : option ProducerBase :=
  match checked_add (num_own_elements self) n with
  | None => None
  | Some n => Some (mkProducer (node self) (prefixes self) (hash2name self) (name2hash self) (mappings self) n)
  end.

Definition apply (self : ProducerBase) (name : Name) (mapping : option bytes) : option (option (Name * Z * Z) * ProducerBase) :=
  match parse_prefix_seq name with
  | Some (prefix, seq) =>
      let old := default 0 (prefixes self !! prefix) in
      if seq <=? old then Some (None, self)
      else
        let self := if negb (old =? 0) then drop_name self (append_seq prefix old) else self in
        let self := set_version (add_name self name mapping) prefix seq in
        match count_elements self (seq - old) with
        | None => None
        | Some self => Some (Some (name, old + 1, seq), self)
        end
  | None =>
      if PSyncNode.contains (node self) (hash_name name) then Some (None, self)
      else
        match count_elements (add_name self name mapping) 1 with
        | None => None
        | Some self => Some (Some (name, 0, 0), self)
        end
  end.

Section Orders.
Context (iter : gset Z -> list Z) (values : gmap Z Name -> list Name).

Definition names_for_hashes (self : ProducerBase) (hashes : gset Z) : list Name :=
  omap (fun h => hash2name self !! h) (iter hashes).
Definition state_names (self : ProducerBase) : list Name := values (hash2name self).
Definition build_ibf (self : ProducerBase) : option Ibf.Ibf := PSyncNode.build_ibf iter (node self).
Definition reconcile (fuel : nat) (self : ProducerBase) (peer : Ibf.Ibf) : Outcome (option (gset Z * gset Z)) :=
  PSyncNode.reconcile iter fuel (node self) peer.
End Orders.

Definition mapping_for (self : ProducerBase) (name : Name) : option bytes :=
  match name2hash self !! name with Some h => mappings self !! h | None => None end.
End ProducerBase.

(** ** Wire forms *)

Section Wire.
Context (compress : bytes -> bytes) (decompress : bytes -> option bytes).

(** [i32::to_be_bytes], [i32::from_be_bytes]. *)
Definition i32_be (n : Z) : bytes := be_encode 4 (wrap 32 n).
Definition i32_of_be (b : bytes) : Z := let v := be_decode b in if v <? 2 ^ 31 then v else v - 2 ^ 32.

Definition encode_cell (c : Z * Z * Z) : bytes := i32_be c.1.1 ++ be_encode 4 c.1.2 ++ be_encode 4 c.2.
Definition encode_ibf (ibf : Ibf.Ibf) : bytes := compress (concat (map encode_cell (Ibf.raw_cells ibf))).

Fixpoint decode_cells (n : nat) (cursor : bytes) : option (list (Z * Z * Z)) :=
  match n with
  | O => Some []
  | S n =>
      if zlen cursor <? 12 then None
      else
        match decode_cells n (slice_from_ cursor 12) with
        | None => None
        | Some cells => Some ((i32_of_be (slice cursor 0 4), be_decode (slice cursor 4 8), be_decode (slice cursor 8 12)) :: cells)
        end
  end.

Definition decode_ibf (compressed : bytes) (expected_entries : Z) : option Ibf.Ibf :=
  match decompress compressed with
  | None => None
  | Some raw =>
      let n_cells := zlen raw / 12 in
      let expected_ibf := Ibf.from_expected expected_entries in
      if (n_cells =? 0) || negb (n_cells =? Ibf.n_cells expected_ibf) then None
      else Ibf.from_raw_cells <$> decode_cells (Z.to_nat n_cells) raw
  end.

(** Lengths from 2^32 on are cut to 32 bits. *)
Definition write_tlv_varint (buf : bytes) (n : Z) : bytes :=
  if n <? 0xfd then buf ++ [wrap 8 n]
  else if n <=? 0xffff then buf ++ [0xfd] ++ be_encode 2 (wrap 16 n)
  else buf ++ [0xfe] ++ be_encode 4 (wrap 32 n).

Definition read_varint_len (data : bytes) : option (Z * Z) :=
  match data with
  | [] => None
  | v :: _ =>
      if v <? 0xfd then Some (v, 1)
      else if (v =? 0xfd) && (3 <=? zlen data) then Some (be_decode (slice data 1 3), 3)
      else if (v =? 0xfe) && (5 <=? zlen data) then Some (be_decode (slice data 1 5), 5)
      else None
  end.

Definition build_psync_content (names : list Name) : bytes :=
  let inner := concat (map NameOps.encode_to_tlv names) in
  let psync_content := write_tlv_varint [0x80] (zlen inner) ++ inner in
  compress psync_content.

(** The loop over the names; every turn takes at least two bytes. *)
Fixpoint parse_names (fuel : nat) (cursor : bytes) : option (list Name) :=
  match fuel with
  | O => None
  | S fuel =>
      if zlen cursor <? 2 then Some []
      else if negb (default 0 (head cursor) =? 0x07) then Some []
      else
        match read_varint_len (drop 1 cursor) with
        | None => None
        | Some (len, header_size) =>
            let total := 1 + header_size + len in
            if zlen cursor <? total then Some []
            else
              match parse_names fuel (slice_from_ cursor total) with
              | None => None
              | Some names =>
                  Some (match NameOps.decode (slice cursor (1 + header_size) total) with Ok name => [name] | Err _ => [] end ++ names)
              end
        end
  end.

(** What follows the type 0x80. *)
Definition unwrap_content (content rest : bytes) : option bytes :=
  match read_varint_len rest with
  | None => None
  | Some (inner_len, hdr) =>
      let start := 1 + hdr in
      let end_ := start + inner_len in
      Some (if zlen content <? end_ then [] else slice content start end_)
  end.

Definition parse_psync_payload (payload : bytes) : option (list Name) :=
  let content := default payload (decompress payload) in
  let cursor :=
    match content with
    | b :: rest => if b =? 0x80 then unwrap_content content rest else Some content
    | [] => Some content
    end in
  match cursor with
  | None => None
  | Some cursor => parse_names (S (length cursor)) cursor
  end.

Definition parse_be_u64 (b : bytes) : option Z :=
  let n := zlen b in
  if (n =? 1) || (n =? 2) || (n =? 4) || (n =? 8) then Some (be_decode b) else None.

(** [None] when the Interest does not parse; the name is that of the answer. *)
Definition parse_sync_interest (group : Name) (raw : bytes) (ibf_count : Z) : option (Ibf.Ibf * Z * Name) :=
  match Interest.decode raw with
  | Err _ => None
  | Ok interest =>
      let interest_name := i_name interest in
      let group_len := length group in
      if (length interest_name <? group_len + 2)%nat then None
      else
        match interest_name !! group_len, interest_name !! (group_len + 1)%nat with
        | Some ibf_comp, Some num_comp =>
            match decode_ibf (value ibf_comp) ibf_count with
            | None => None
            | Some peer_ibf => Some (peer_ibf, default 0 (parse_be_u64 (value num_comp)), interest_name)
            end
        | _, _ => None
        end
  end.

Definition parse_sync_data_names (raw : bytes) : option (list Name) :=
  match Data.decode raw with
  | Err _ => None
  | Ok data => match Data.content data with Some payload => parse_psync_payload payload | None => None end
  end.

(** The name of a Sync Interest. *)
Definition sync_interest_name (group : Name) (ibf : Ibf.Ibf) (num_own_elements : Z) : Name :=
  NameOps.append (NameOps.append group (encode_ibf ibf)) (be_encode 8 num_own_elements).
End Wire.

(** ** The task *)

Definition PENDING_LIFETIME : Z := 1100. (* milliseconds *)

Inductive Action : Type := Send (names : list Name) | HoldPending (ibf : Ibf.Ibf) | Nothing.

(** [PendingEntry]: the table of the peer and when the Interest expires. *)
Record PendingEntry : Type := mkPendingEntry { peer_ibf : Ibf.Ibf; expires_at : Z }.

Record PsyncState : Type := mkPsync { pb : ProducerBase; pending : gmap Name PendingEntry }.

(** What the task sends: a Sync Interest; names in a Sync Data for an Interest, to the
    group or to the face that waits for the answer; an update to the application. *)
Inductive PsyncOut : Type :=
| OutInterest (name : Name)
| OutData (interest_name : Name) (names : list Name)
| OutReply (interest_name : Name) (names : list Name)
| OutUpdate (u : SyncUpdate).

Section Task.
Context (compress : bytes -> bytes) (decompress : bytes -> option bytes).
Context (iter : gset Z -> list Z) (values : gmap Z Name -> list Name) (held : gmap Name PendingEntry -> list (Name * PendingEntry)).

(** The [match] on the result of [reconcile]. *)
Definition sync_action (fuel : nat) (p : ProducerBase) (peer : Ibf.Ibf) (num_elems : Z) : Outcome Action :=
  match ProducerBase.reconcile iter fuel p peer with
  | Done (Some (we_have, they_have)) =>
      let names := ProducerBase.names_for_hashes iter p we_have in
      Done (match names with
            | _ :: _ => Send names
            | [] => if bool_decide (they_have = ∅) then HoldPending peer else Nothing
            end)
  | Done None =>
      Done (if num_elems <=? num_own_elements p then Send (ProducerBase.state_names values p) else Nothing)
  | Panic => Panic
  | Running => Running
  end.

Definition handle_sync_interest (fuel : nat) (group : Name) (raw : bytes) (ibf_count now : Z) (reply : bool) (s : PsyncState)
    : Outcome (list PsyncOut * PsyncState) :=
  match parse_sync_interest decompress group raw ibf_count with
  | None => Done ([], s)
  | Some (peer, num_elems, interest_name) =>
      match sync_action fuel (pb s) peer num_elems with
      | Panic => Panic
      | Running => Running
      | Done action =>
          Done (match action, reply with
                | Send names, true => ([OutReply interest_name names], s)
                | Send names, false => (match names with [] => [] | _ => [OutData interest_name names] end, s)
                | HoldPending ibf, false =>
                    ([], mkPsync (pb s) (<[interest_name := mkPendingEntry ibf (now + PENDING_LIFETIME)]> (pending s)))
                | Nothing, false => ([], s)
                | _, true => ([OutReply interest_name []], s)
                end)
      end
  end.

(** The Interests that can be answered now, and the ones that stay. *)
Fixpoint satisfy_each (fuel : nat) (p : ProducerBase) (es : list (Name * PendingEntry)) (keep : gmap Name PendingEntry)
    : Outcome (list PsyncOut * gmap Name PendingEntry) :=
  match es with
  | [] => Done ([], keep)
  | (iname, e) :: es =>
      match ProducerBase.reconcile iter fuel p (peer_ibf e) with
      | Panic => Panic
      | Running => Running
      | Done r =>
          let names := match r with Some (we_have, _) => ProducerBase.names_for_hashes iter p we_have | None => [] end in
          match names with
          | [] => satisfy_each fuel p es keep
          | _ =>
              match satisfy_each fuel p es (delete iname keep) with
              | Done (outs, keep) => Done (OutData iname names :: outs, keep)
              | r => r
              end
          end
      end
  end.

Definition satisfy_pending (fuel : nat) (s : PsyncState) : Outcome (list PsyncOut * PsyncState) :=
  match satisfy_each fuel (pb s) (held (pending s)) (pending s) with
  | Done (outs, keep) => Done (outs, mkPsync (pb s) keep)
  | Panic => Panic
  | Running => Running
  end.

Definition send_sync_interest (group : Name) (p : ProducerBase) : option (list PsyncOut) :=
  match ProducerBase.build_ibf iter p with
  | None => None
  | Some ibf => Some [OutInterest (sync_interest_name compress group ibf (num_own_elements p))]
  end.

(** The names of an answer, one by one: the producer and the updates. *)
Fixpoint learn_all (p : ProducerBase) (names : list Name) : option (list SyncUpdate * ProducerBase) :=
  match names with
  | [] => Some ([], p)
  | name :: names =>
      match ProducerBase.apply p name None with
      | None => None
      | Some (None, p) => learn_all p names
      | Some (Some (rep_name, low, high), p) =>
          let mapping := ProducerBase.mapping_for p name in
          let publisher := match parse_prefix_seq name with Some (prefix, _) => display prefix | None => display name end in
          match learn_all p names with
          | None => None
          | Some (us, p) => Some (mkUpdate publisher rep_name low high mapping None :: us, p)
          end
      end
  end.

Definition apply_learned (fuel : nat) (names : list Name) (s : PsyncState) : Outcome (list PsyncOut * PsyncState) :=
  match learn_all (pb s) names with
  | None => Panic
  | Some ([], p) => Done ([], mkPsync p (pending s))
  | Some (us, p) =>
      match satisfy_pending fuel (mkPsync p (pending s)) with
      | Done (outs, s) => Done (map OutUpdate us ++ outs, s)
      | r => r
      end
  end.

(** The branch of the timer and the one of a publication. *)
Definition on_tick (group : Name) (now : Z) (s : PsyncState) : option (list PsyncOut * PsyncState) :=
  let s := mkPsync (pb s) (base.filter (fun x => now < expires_at x.2) (pending s)) in
  match send_sync_interest group (pb s) with Some outs => Some (outs, s) | None => None end.

Definition on_publish (fuel : nat) (group : Name) (name : Name) (mapping : option bytes) (s : PsyncState)
    : Outcome (list PsyncOut * PsyncState) :=
  match ProducerBase.apply (pb s) name mapping with
  | None => Panic
  | Some (None, p) => Done ([], mkPsync p (pending s))
  | Some (Some _, p) =>
      match satisfy_pending fuel (mkPsync p (pending s)) with
      | Done (outs, s) => match send_sync_interest group (pb s) with Some more => Done (outs ++ more, s) | None => Panic end
      | r => r
      end
  end.
End Task.

(** ** The set a producer keeps *)

#[local] Opaque hash_name.

(** A name in the form [append_seq] gives it, if it reads as a version. *)
Definition good (name : Name) : Prop :=
  forall p s, parse_prefix_seq name = Some (p, s) -> name = append_seq p s /\ is_u64 s.

(** The names that occur: in that form, and without two of one hash. *)
Record universe (U : Name -> Prop) : Prop := {
  un_good n : U n -> good n;
  un_inj n m : U n -> U m -> hash_name n = hash_name m -> n = m
}.

Definition version (P : ProducerBase) (p : Name) : Z := default 0 (prefixes P !! p).
Definition known (P : ProducerBase) (n : Name) : Prop := is_Some (name2hash P !! n).

(** The three tables are one set of names. *)
Record maps_ok (U : Name -> Prop) (P : ProducerBase) : Prop := {
  mo_h2n h n : hash2name P !! h = Some n -> name2hash P !! n = Some h;
  mo_n2h n h : name2hash P !! n = Some h -> h = hash_name n /\ hash2name P !! h = Some n /\ U n;
  mo_set h : h ∈ local_set (node P) <-> is_Some (hash2name P !! h)
}.

(** Of every prefix, exactly the latest version is in it. *)
Record pb_ok (U : Name -> Prop) (P : ProducerBase) : Prop := {
  po_maps : maps_ok U P;
  po_ver p s : prefixes P !! p = Some s -> 0 < s /\ is_u64 s /\ known P (append_seq p s);
  po_cur n p s : known P n -> parse_prefix_seq n = Some (p, s) -> prefixes P !! p = Some s
}.

Lemma parse_append p s : is_u64 s -> parse_prefix_seq (append_seq p s) = Some (p, s).
Proof.
  intros U. unfold parse_prefix_seq, append_seq, NameOps.append_component. rewrite last_snoc.
  cbn [Component.generic typ value]. rewrite encode_nni_spec by done.
  assert (let n := zlen (nni_bytes s) in (n =? 1) || (n =? 2) || (n =? 4) || (n =? 8) = true) as ->.
  { rewrite nni_bytes_spec, zlen_be_encode. unfold nni_width. repeat bcase_step; done. }
  cbn [negb orb]. rewrite svs_decode_nni by done. rewrite length_app, Nat.add_sub, take_app_length. done.
Qed.

Lemma append_seq_inj p s q t : is_u64 s -> is_u64 t -> append_seq p s = append_seq q t -> p = q /\ s = t.
Proof. intros S T E. pose proof (parse_append p s S) as X. rewrite E, parse_append in X by done. by simplify_eq. Qed.

Lemma known_add P n m name : known (ProducerBase.add_name P name m) n <-> known P n \/ n = name.
Proof.
  unfold known, ProducerBase.add_name. cbn [name2hash]. destruct (decide (n = name)) as [->|NE].
  - rewrite lookup_insert_eq. split; [by right|by eexists].
  - rewrite lookup_insert_ne by done. split; [by left|]. by intros [?|?].
Qed.

Lemma maps_add U P name m : universe U -> maps_ok U P -> U name -> maps_ok U (ProducerBase.add_name P name m).
Proof.
  intros UN [H2N N2H SE] UX. split; unfold ProducerBase.add_name; cbn [hash2name name2hash node PSyncNode.insert local_set].
  - intros h n. destruct (decide (h = hash_name name)) as [->|NE].
    + rewrite lookup_insert_eq. intros [= ->]. by rewrite lookup_insert_eq.
    + rewrite lookup_insert_ne by done. intros E. pose proof (H2N _ _ E) as E2. rewrite lookup_insert_ne; [done|].
      intros ->. apply N2H in E2 as [-> _]. done.
  - intros n h. destruct (decide (n = name)) as [->|NE].
    + rewrite lookup_insert_eq. intros [= <-]. by rewrite lookup_insert_eq.
    + rewrite lookup_insert_ne by done. intros E. destruct (N2H _ _ E) as (-> & EH & UY). split_conj; try done.
      rewrite lookup_insert_ne; [done|]. intros EQ. apply NE. by apply (un_inj _ UN).
  - intros h. destruct (decide (h = hash_name name)) as [->|NE].
    + rewrite lookup_insert_eq. split; [by eexists|set_solver].
    + rewrite lookup_insert_ne by done. rewrite <-SE. set_solver.
Qed.

Lemma known_drop U P old n : maps_ok U P -> known (ProducerBase.drop_name P old) n <-> known P n /\ n <> old.
Proof.
  intros _. unfold known, ProducerBase.drop_name. destruct (name2hash P !! old) as [h|] eqn:E; cbn [name2hash].
  - destruct (decide (n = old)) as [->|NE]; [rewrite lookup_delete_eq; split; [by intros [? ?]|by intros [_ ?]]|].
    rewrite lookup_delete_ne by done. naive_solver.
  - split; [|by intros []]. intros K. split; [done|]. intros ->. rewrite E in K. by destruct K.
Qed.

Lemma maps_drop U P old : maps_ok U P -> maps_ok U (ProducerBase.drop_name P old).
Proof.
  intros OK. pose proof OK as [H2N N2H SE]. unfold ProducerBase.drop_name. destruct (name2hash P !! old) as [h0|] eqn:E; [|done].
  destruct (N2H _ _ E) as (E0 & EH & _). split; cbn [hash2name name2hash node PSyncNode.remove fst local_set].
  - intros h n D. apply lookup_delete_Some in D as [NE D]. pose proof (H2N _ _ D) as X. apply lookup_delete_Some. split; [|done].
    intros ->. congruence.
  - intros n h D. apply lookup_delete_Some in D as [NE D]. destruct (N2H _ _ D) as (-> & X & UX). split_conj; try done.
    apply lookup_delete_Some. split; [|done]. intros EQ. rewrite <-EQ in X. congruence.
  - intros h. destruct (decide (h = h0)) as [->|NE].
    + rewrite lookup_delete_eq. split; [set_solver|by intros [? ?]].
    + rewrite lookup_delete_ne by done. rewrite <-SE. set_solver.
Qed.

(** What a name says about the version of [p]. *)
Definition seq_of (name p : Name) : Z :=
  match parse_prefix_seq name with Some (q, s) => if decide (q = p) then s else 0 | None => 0 end.
(** What it adds to the count of elements, at most. *)
Definition weight (name : Name) : Z := match parse_prefix_seq name with Some (_, s) => s | None => 1 end.
Definition unversioned (name : Name) : Prop := parse_prefix_seq name = None.

(** What changes from [P] to [P'] when [name] is applied. *)
Definition applied (P P' : ProducerBase) (name : Name) : Prop :=
  expected_entries (node P') = expected_entries (node P) /\
  (forall p, version P' p = Z.max (version P p) (seq_of name p)) /\
  (forall n, unversioned n -> known P' n <-> known P n \/ n = name) /\
  num_own_elements P' <= num_own_elements P + weight name.

Lemma count_elements_spec P n P' : ProducerBase.count_elements P n = Some P' ->
  prefixes P' = prefixes P /\ hash2name P' = hash2name P /\ name2hash P' = name2hash P /\ node P' = node P /\
  num_own_elements P' = num_own_elements P + n.
Proof.
  unfold ProducerBase.count_elements, checked_add. destruct (_ <=? _); [|done]. intros [= <-]. done.
Qed.

Lemma pb_ok_ext U P P' : prefixes P' = prefixes P -> hash2name P' = hash2name P -> name2hash P' = name2hash P -> node P' = node P ->
  pb_ok U P -> pb_ok U P'.
Proof.
  intros E1 E2 E3 E4 [[? ? ?] ? ?]. split; [split|..]; unfold known in *; rewrite ?E1, ?E2, ?E3, ?E4; done.
Qed.

Lemma version_pos U P p : pb_ok U P -> 0 <= version P p /\ is_u64 (version P p).
Proof.
  intros OK. unfold version. destruct (prefixes P !! p) as [s|] eqn:E; cbn; [|unfold_bounds; lia].
  destruct (po_ver _ _ OK _ _ E) as (? & ? & _). split; [lia|done].
Qed.

(** The versions of [p] that are known: only the latest. *)
Lemma known_version U P p s : universe U -> pb_ok U P -> is_u64 s -> known P (append_seq p s) -> version P p = s.
Proof. intros UN OK S K. unfold version. by rewrite (po_cur _ _ OK _ _ _ K (parse_append p s S)). Qed.

Lemma known_good U P n : universe U -> pb_ok U P -> known P n -> good n.
Proof. intros UN OK [h E]. apply (un_good _ UN). by apply (mo_n2h _ _ (po_maps _ _ OK)) in E as (_ & _ & ?). Qed.

(** After the old version is taken out, nothing is known of the prefix. *)
Lemma drop_old U P p : universe U -> pb_ok U P ->
  let old := version P p in
  let P1 := if negb (old =? 0) then ProducerBase.drop_name P (append_seq p old) else P in
  maps_ok U P1 /\ prefixes P1 = prefixes P /\ num_own_elements P1 = num_own_elements P /\
  expected_entries (node P1) = expected_entries (node P) /\
  (forall n, known P1 n <-> known P n /\ forall s, parse_prefix_seq n <> Some (p, s)).
Proof.
  intros UN OK old P1. pose proof (po_maps _ _ OK) as MO. pose proof (version_pos _ _ p OK) as [V0 VU]. fold old in V0, VU. subst P1.
  assert (forall n s, known P n -> parse_prefix_seq n = Some (p, s) -> 0 < s /\ s = old /\ n = append_seq p old) as ONLY.
  { intros n s K PN. pose proof (po_cur _ _ OK _ _ _ K PN) as E. destruct (po_ver _ _ OK _ _ E) as (S0 & _ & _).
    destruct (known_good _ _ _ UN OK K _ _ PN) as [-> _]. unfold old, version. by rewrite E. }
  destruct (Z.eqb_spec old 0) as [Z0|NZ]; cbn [negb].
  - split_conj; try done. intros n. split; [|by intros [? _]]. intros K. split; [done|]. intros s PN.
    destruct (ONLY _ _ K PN). lia.
  - split; [by apply maps_drop|]. split_conj.
    + unfold ProducerBase.drop_name. by destruct (_ !! _).
    + unfold ProducerBase.drop_name. by destruct (_ !! _).
    + unfold ProducerBase.drop_name. by destruct (_ !! _).
    + intros n. rewrite (known_drop _ _ _ _ MO). split; intros [K N]; (split; [done|]).
      * intros s PN. destruct (ONLY _ _ K PN) as (_ & _ & ->). done.
      * intros ->. by apply (N old), parse_append.
Qed.

(** A name that is no version. *)
Lemma apply_plain_ok U P name m r P' : universe U -> pb_ok U P -> U name -> unversioned name ->
  ProducerBase.apply P name m = Some (r, P') -> pb_ok U P' /\ applied P P' name.
Proof.
  intros UN OK UX PN. unfold unversioned in PN. unfold ProducerBase.apply, applied, seq_of, weight. rewrite PN.
  destruct (PSyncNode.contains _ _) eqn:CT.
  { intros [= <- <-]. split; [done|]. split_conj; [done| | |lia].
    - intros q. pose proof (version_pos _ _ q OK). lia.
    - intros n UV. split; [by left|]. intros [| ->]; [done|]. unfold PSyncNode.contains in CT. apply bool_decide_eq_true in CT.
      pose proof (po_maps _ _ OK) as MO. apply (mo_set _ _ MO) in CT as [n' E]. pose proof (mo_h2n _ _ MO _ _ E) as E2.
      destruct (mo_n2h _ _ MO _ _ E2) as (EH & _ & UN'). rewrite (un_inj _ UN _ _ UX UN' EH). by eexists. }
  destruct (ProducerBase.count_elements _ _) as [P2|] eqn:C; [|done]. intros [= <- <-].
  destruct (count_elements_spec _ _ _ C) as (F1 & F2 & F3 & F4 & F5). cbn in F1, F2, F3, F4, F5.
  assert (forall n, known P2 n <-> known P n \/ n = name) as K2.
  { intros n. rewrite <-(known_add P n m name). unfold known. by rewrite F3. }
  split; [split|split_conj].
  - destruct (maps_add U P name m UN (po_maps _ _ OK) UX) as [A B D]. split; rewrite ?F2, ?F3, ?F4; done.
  - intros q t. rewrite F1. intros E. destruct (po_ver _ _ OK _ _ E) as (? & ? & K). split_conj; try done. apply K2. by left.
  - intros n q t K PQ. rewrite F1. apply K2 in K as [K| ->]; [by eapply po_cur|congruence].
  - by rewrite F4.
  - intros q. unfold version. rewrite F1. fold (version P q). pose proof (version_pos _ _ q OK). lia.
  - intros n _. by rewrite K2.
  - lia.
Qed.

(** A version. *)
Lemma apply_version_ok U P name m r P' p s : universe U -> pb_ok U P -> U name -> parse_prefix_seq name = Some (p, s) ->
  ProducerBase.apply P name m = Some (r, P') -> pb_ok U P' /\ applied P P' name.
Proof.
  intros UN OK UX PN. pose proof (un_good _ UN _ UX) as GD. unfold ProducerBase.apply, applied, seq_of, weight. rewrite PN.
  destruct (GD _ _ PN) as [EN SU]. fold (version P p). pose proof (version_pos _ _ p OK) as [V0 _].
  destruct (Z.leb_spec s (version P p)) as [LE|GT].
  { intros [= <- <-]. split; [done|]. split_conj; [done| | |unfold_bounds; lia].
    - intros q. case_decide; [subst q; lia|]. pose proof (version_pos _ _ q OK). lia.
    - intros n UV. split; [by left|]. intros [| ->]; [done|]. unfold unversioned in UV. congruence. }
  destruct (drop_old U P p UN OK) as (MO & E1 & EN1 & EX & KN). set (P1 := if negb _ then _ else _) in *.
  destruct (ProducerBase.count_elements _ _) as [P2|] eqn:C; [|done]. intros [= <- <-].
  destruct (count_elements_spec _ _ _ C) as (F1 & F2 & F3 & F4 & F5). cbn in F1, F2, F3, F4, F5. rewrite E1 in F1.
  assert (forall n, known P2 n <-> known P1 n \/ n = name) as K2.
  { intros n. rewrite <-(known_add P1 n m name). unfold known. by rewrite F3. }
  split; [split|split_conj].
  - destruct (maps_add U P1 name m UN MO UX) as [A B D]. split; rewrite ?F2, ?F3, ?F4; done.
  - intros q t. rewrite F1. destruct (decide (q = p)) as [->|NE].
    + rewrite lookup_insert_eq. intros [= <-]. split_conj; [lia|done|]. apply K2. by right.
    + rewrite lookup_insert_ne by done. intros E. destruct (po_ver _ _ OK _ _ E) as (? & TU & K). split_conj; try done.
      apply K2. left. apply KN. split; [done|]. intros x. rewrite parse_append by done. congruence.
  - intros n q t K PQ. rewrite F1. apply K2 in K as [K| ->].
    + apply KN in K as [K NP]. rewrite lookup_insert_ne; [by eapply po_cur|]. intros ->. by apply (NP t).
    + rewrite PN in PQ. simplify_eq. apply lookup_insert_eq.
  - rewrite F4. cbn. congruence.
  - intros q. unfold version at 1. rewrite F1. case_decide as D.
    + subst q. rewrite lookup_insert_eq. cbn. lia.
    + rewrite lookup_insert_ne by done. fold (version P q). pose proof (version_pos _ _ q OK). lia.
  - intros n UV. rewrite K2, KN. unfold unversioned in UV. split; [intros [[? _]|?]; by auto|].
    intros [K| ->]; [|by right]. left. split; [done|]. intros x. rewrite UV. done.
  - lia.
Qed.

Lemma apply_ok U P name m r P' : universe U -> pb_ok U P -> U name -> ProducerBase.apply P name m = Some (r, P') ->
  pb_ok U P' /\ applied P P' name.
Proof.
  intros UN OK UX E. destruct (parse_prefix_seq name) as [[p s]|] eqn:PN; [by eapply apply_version_ok|by eapply apply_plain_ok].
Qed.

Lemma apply_total P name m : num_own_elements P + weight name <= u64_max -> (forall p, 0 <= version P p) ->
  ProducerBase.apply P name m <> None.
Proof.
  intros B V. unfold ProducerBase.apply, weight in *. destruct (parse_prefix_seq name) as [[p s]|].
  - fold (version P p). specialize (V p). destruct (s <=? version P p); [done|].
    set (P1 := if negb _ then _ else _). assert (num_own_elements P1 = num_own_elements P) as E.
    { unfold P1. destruct (negb _); [|done]. unfold ProducerBase.drop_name. by destruct (_ !! _). }
    unfold ProducerBase.count_elements, checked_add. cbn [num_own_elements ProducerBase.set_version ProducerBase.add_name].
    rewrite E, (proj2 (Z.leb_le _ _)) by (unfold usize_max; lia). done.
  - destruct (PSyncNode.contains _ _); [done|]. unfold ProducerBase.count_elements, checked_add.
    cbn [num_own_elements ProducerBase.add_name]. rewrite (proj2 (Z.leb_le _ _)) by (unfold usize_max; lia). done.
Qed.

(** ** Learning *)

Definition max_seq (names : list Name) (p : Name) : Z := foldr Z.max 0 (map (fun n => seq_of n p) names).
Definition load (names : list Name) : Z := foldr Z.add 0 (map weight names).

Lemma max_seq_ge names p n : n ∈ names -> seq_of n p <= max_seq names p.
Proof.
  intros I. unfold max_seq. induction names as [|m names IH]; [by apply elem_of_nil in I|]. cbn.
  apply elem_of_cons in I as [->|I]; [lia|]. specialize (IH I). lia.
Qed.
Lemma max_seq_le names p v : 0 <= v -> (forall n, n ∈ names -> seq_of n p <= v) -> max_seq names p <= v.
Proof.
  intros V. unfold max_seq. induction names as [|m names IH]; intros B; cbn; [lia|].
  pose proof (B m ltac:(by left)). specialize (IH ltac:(intros n I; apply B; by right)). lia.
Qed.

Lemma seq_of_pos n p : good n -> 0 <= seq_of n p.
Proof. intros G. unfold seq_of. destruct (parse_prefix_seq n) as [[q s]|] eqn:E; [|lia]. destruct (G _ _ E) as [_ U]. case_decide; unfold_bounds; lia. Qed.
Lemma weight_pos n : good n -> 0 <= weight n.
Proof. intros G. unfold weight. destruct (parse_prefix_seq n) as [[q s]|] eqn:E; [|lia]. destruct (G _ _ E) as [_ U]. unfold_bounds; lia. Qed.

Lemma learn_all_ok U names P : universe U -> pb_ok U P -> Forall U names ->
  num_own_elements P + load names <= u64_max ->
  exists us P', learn_all P names = Some (us, P') /\ pb_ok U P' /\
    expected_entries (node P') = expected_entries (node P) /\
    (forall p, version P' p = Z.max (version P p) (max_seq names p)) /\
    (forall n, unversioned n -> known P' n <-> known P n \/ n ∈ names).
Proof.
  intros UN. revert P. induction names as [|name names IH]; intros P OK F B.
  { exists [], P. split_conj; try done.
    - intros p. unfold max_seq. cbn. pose proof (version_pos _ _ p OK). lia.
    - intros n _. rewrite elem_of_nil. tauto. }
  apply Forall_cons in F as [UX F]. unfold load in B. cbn [map foldr] in B. fold (load names) in B.
  assert (0 <= load names) as L0.
  { clear -F UN. unfold load. induction F as [|n names G _ IH]; cbn; [lia|]. pose proof (weight_pos n (un_good _ UN _ G)). lia. }
  assert (exists r P1, ProducerBase.apply P name None = Some (r, P1)) as (r & P1 & E).
  { destruct (ProducerBase.apply P name None) as [[r P1]|] eqn:E; [by eexists _, _|]. exfalso.
    eapply (apply_total P name None); [lia|intros p; apply (version_pos _ _ p OK)|done]. }
  destruct (apply_ok _ _ _ _ _ _ UN OK UX E) as (OK1 & EX & V1 & K1 & N1).
  destruct (IH P1 OK1 F ltac:(lia)) as (us & P' & LE & OK' & EX' & V' & K').
  assert (forall p, version P' p = Z.max (version P p) (max_seq (name :: names) p)) as VV.
  { intros p. rewrite V', V1. unfold max_seq. cbn. lia. }
  assert (forall n, unversioned n -> known P' n <-> known P n \/ n ∈ name :: names) as KK.
  { intros n UV. rewrite (K' n UV), (K1 n UV), elem_of_cons. tauto. }
  cbn [learn_all]. rewrite E. destruct r as [[[rn lo] hi]|]; rewrite LE; eexists _, P'; split_conj; try done; congruence.
Qed.

(** A producer after some publications and answers. *)
Fixpoint grow (P : ProducerBase) (news : list (Name * option bytes)) : option ProducerBase :=
  match news with
  | [] => Some P
  | (name, m) :: news => match ProducerBase.apply P name m with Some (_, P) => grow P news | None => None end
  end.

Lemma new_producer_ok U c : pb_ok U (ProducerBase.new c).
Proof.
  split; [split|..]; unfold ProducerBase.new, known; cbn [hash2name name2hash node prefixes PSyncNode.new local_set].
  - intros h n. by rewrite lookup_empty.
  - intros n h. by rewrite lookup_empty.
  - intros h. rewrite lookup_empty. split; [set_solver|by intros [? ?]].
  - intros p s. by rewrite lookup_empty.
  - intros n p s. rewrite lookup_empty. by intros [? ?].
Qed.

Lemma grow_ok U P news P' : universe U -> pb_ok U P -> Forall (fun x => U x.1) news -> grow P news = Some P' ->
  pb_ok U P' /\ expected_entries (node P') = expected_entries (node P).
Proof.
  intros UN. revert P. induction news as [|[n m] news IH]; intros P OK F E; cbn [grow] in E; [by simplify_eq|].
  apply Forall_cons in F as [UX F]. destruct (ProducerBase.apply P n m) as [[r P1]|] eqn:A; [|done].
  destruct (apply_ok _ _ _ _ _ _ UN OK UX A) as (OK1 & EX & _). destruct (IH P1 OK1 F E) as [OK' EX']. split; [done|congruence].
Qed.

(** ** An exchange *)

Definition lists_values (values : gmap Z Name -> list Name) : Prop := forall m n, n ∈ values m <-> exists h, m !! h = Some n.

(** [names] are names of [A], with all that [B] lacks. *)
Lemma learn_difference U A B names : universe U -> pb_ok U A -> pb_ok U B ->
  (forall n, n ∈ names -> known A n) -> (forall n, known A n -> ~ known B n -> n ∈ names) ->
  num_own_elements B + load names <= u64_max ->
  exists us B', learn_all B names = Some (us, B') /\ pb_ok U B' /\
    (forall p, version B' p = Z.max (version A p) (version B p)) /\
    (forall n, unversioned n -> known B' n <-> known A n \/ known B n).
Proof.
  intros UN OA OB I1 I2 LB.
  assert (Forall U names) as F.
  { apply Forall_forall. intros n [h E]%I1. by apply (mo_n2h _ _ (po_maps _ _ OA)) in E as (_ & _ & ?). }
  destruct (learn_all_ok U names B UN OB F LB) as (us & B' & E & OK' & _ & V & K). exists us, B'. split_conj; try done.
  - intros p. rewrite V. pose proof (version_pos _ _ p OA) as [VA VU]. pose proof (version_pos _ _ p OB) as [VB _].
    assert (max_seq names p <= version A p) as UB.
    { apply max_seq_le; [done|]. intros n IN. specialize (I1 _ IN). unfold seq_of.
      destruct (parse_prefix_seq n) as [[q s]|] eqn:PN; [|lia]. case_decide; [|lia]. subst q.
      unfold version. rewrite (po_cur _ _ OA _ _ _ I1 PN). cbn. lia. }
    destruct (Z.le_gt_cases (version A p) (version B p)) as [LE|GT]; [lia|].
    assert (version A p <= max_seq names p); [|lia].
    assert (known A (append_seq p (version A p))) as KA.
    { unfold version in *. destruct (prefixes A !! p) as [s|] eqn:EP; cbn in *; [|lia]. by destruct (po_ver _ _ OA _ _ EP) as (_ & _ & ?). }
    assert (~ known B (append_seq p (version A p))) as KB.
    { intros KB. pose proof (known_version _ _ _ _ UN OB VU KB). lia. }
    pose proof (max_seq_ge names p _ (I2 _ KA KB)) as GE. unfold seq_of in GE. rewrite parse_append in GE by done.
    rewrite decide_True in GE by done. done.
  - intros n UV. rewrite (K n UV). split; [intros [?|?]; [by right|left; by apply I1]|].
    intros [KA|KB]; [|by left]. destruct (name2hash B !! n) as [h|] eqn:EB; [left; by eexists|]. right. apply I2; [done|].
    intros [? X]. congruence.
Qed.

Lemma known_hash U P n : universe U -> pb_ok U P -> U n -> known P n <-> hash_name n ∈ local_set (node P).
Proof.
  intros UN OK UX. pose proof (po_maps _ _ OK) as MO. rewrite (mo_set _ _ MO). split.
  - intros [h E]. destruct (mo_n2h _ _ MO _ _ E) as (-> & EH & _). by eexists.
  - intros [n' E]. pose proof (mo_h2n _ _ MO _ _ E) as E2. destruct (mo_n2h _ _ MO _ _ E2) as (EH & _ & UY).
    rewrite (un_inj _ UN _ _ UX UY EH). by eexists.
Qed.

Lemma names_for_hashes_elem U iter P X n : universe U -> lists iter -> pb_ok U P -> X ⊆ local_set (node P) ->
  n ∈ ProducerBase.names_for_hashes iter P X <-> known P n /\ hash_name n ∈ X.
Proof.
  intros UN IT OK SUB. pose proof (po_maps _ _ OK) as MO. unfold ProducerBase.names_for_hashes. rewrite list_elem_of_omap. split.
  - intros (h & IH & E). rewrite (IT X), elem_of_elements in IH. pose proof (mo_h2n _ _ MO _ _ E) as E2.
    destruct (mo_n2h _ _ MO _ _ E2) as (-> & _). split; [by eexists|done].
  - intros [[h E] IX]. destruct (mo_n2h _ _ MO _ _ E) as (-> & EH & _). exists (hash_name n). split; [|done].
    by rewrite (IT X), elem_of_elements.
Qed.


(** ** Wire forms *)

Section WireProofs.
Context (compress : bytes -> bytes) (decompress : bytes -> option bytes).
(** zlib gives back what it was given. *)
Hypothesis zlib : forall x, decompress (compress x) = Some x.

Definition cell_in_range (c : IbfCell) : Prop := - 2 ^ 31 <= count c < 2 ^ 31 /\ is_u32 (key_sum c) /\ is_u32 (key_check c).

Lemma i32_roundtrip n : - 2 ^ 31 <= n < 2 ^ 31 -> i32_of_be (i32_be n) = n.
Proof.
  intros R. unfold i32_of_be, i32_be. rewrite be_decode_encode. change (256 ^ Z.of_nat 4) with (2 ^ 32). unfold wrap.
  rewrite Z.mod_mod by lia. destruct (Z.le_gt_cases 0 n).
  - rewrite Z.mod_small by lia. bcase; lia.
  - replace (n mod 2 ^ 32) with (n + 2 ^ 32) by (rewrite <-(Z.mod_add n 1 (2 ^ 32)), Z.mod_small by lia; lia). bcase; lia.
Qed.
Lemma u32_roundtrip n : is_u32 n -> be_decode (be_encode 4 n) = n.
Proof. intros R. rewrite be_decode_encode. apply Z.mod_small. unfold_bounds. cbn. lia. Qed.

Lemma zlen_encode_cell c : zlen (encode_cell c) = 12.
Proof. unfold encode_cell, i32_be. by rewrite !zlen_app, !zlen_be_encode. Qed.

Lemma decode_cells_ok cells rest : Forall cell_in_range cells ->
  decode_cells (length cells) (concat (map encode_cell (Ibf.raw_cells cells)) ++ rest) = Some (Ibf.raw_cells cells).
Proof.
  induction 1 as [|c cells (RC & RS & RK) _ IH]; [done|]. cbn [length decode_cells Ibf.raw_cells map concat]. rewrite <-app_assoc.
  set (e := encode_cell _). assert (zlen e = 12) as LE by apply zlen_encode_cell.
  rewrite (proj2 (Z.ltb_ge _ _)) by zlen_lia. rewrite (slice_from_app_eq e) by lia.
  fold (Ibf.raw_cells cells). rewrite IH. unfold e, encode_cell. cbn [fst snd]. rewrite <-!app_assoc.
  assert (forall n v, zlen (be_encode n v) = Z.of_nat n) as ZB by (intros; apply zlen_be_encode).
  unfold i32_be at 1 2 3.
  rewrite (slice_app_l (be_encode 4 (wrap 32 (count c)))) by (by rewrite ZB).
  rewrite (slice_mid (be_encode 4 (wrap 32 (count c))) (be_encode 4 (key_sum c))) by (rewrite ?ZB; lia).
  rewrite (app_assoc (be_encode 4 (wrap 32 (count c)))).
  rewrite (slice_mid (_ ++ be_encode 4 (key_sum c)) (be_encode 4 (key_check c))) by (rewrite ?zlen_app, ?ZB; lia).
  fold (i32_be (count c)). rewrite i32_roundtrip, !u32_roundtrip by done. done.
Qed.

(** A table comes out of a Sync Interest as it went in. *)
Lemma ibf_wire_roundtrip (ibf : Ibf.Ibf) (expected : Z) : 0 <= expected -> Forall cell_in_range ibf ->
  Ibf.n_cells ibf = Ibf.n_cells (Ibf.from_expected expected) ->
  decode_ibf decompress (encode_ibf compress ibf) expected = Some ibf.
Proof.
  intros E R N. unfold decode_ibf, encode_ibf. rewrite zlib.
  assert (zlen (concat (map encode_cell (Ibf.raw_cells ibf))) = 12 * zlen ibf) as LE.
  { clear. unfold Ibf.raw_cells. induction ibf as [|c ibf IH]; [done|]. cbn [map concat]. rewrite zlen_app, IH, zlen_encode_cell, zlen_cons. lia. }
  rewrite LE, Z.mul_comm, Z.div_mul by lia. unfold Ibf.n_cells in N. destruct (from_expected_cells expected E) as (k & EK & K3).
  assert (3 <= zlen ibf) as L3 by (rewrite N, EK; unfold zlen; rewrite length_replicate; lia).
  unfold Ibf.n_cells. rewrite <-N, Z.eqb_refl, (proj2 (Z.eqb_neq _ _)) by lia. cbn [orb negb].
  pose proof (decode_cells_ok ibf [] R) as D. rewrite app_nil_r in D. unfold zlen. rewrite Nat2Z.id, D. cbn. f_equal.
  unfold Ibf.from_raw_cells, Ibf.raw_cells. rewrite map_map. cbn. rewrite <-(map_id ibf) at 2. apply map_ext. by intros [].
Qed.

Lemma read_varint_varu64 v rest : 0 <= v < 2 ^ 32 -> read_varint_len (varu64_bytes v ++ rest) = Some (v, varu64_size v).
Proof.
  intros R. pose proof (zlen_nonneg rest). unfold varu64_bytes, varu64_size.
  destruct (Z.ltb_spec v 253); [|destruct (Z.ltb_spec v 0x10000); [|destruct (Z.ltb_spec v 0x100000000); [|lia]]]; cbn [app read_varint_len].
  - by rewrite (proj2 (Z.ltb_lt _ _)) by lia.
  - cbn [Z.ltb Z.eqb Z.compare Pos.compare Pos.compare_cont andb]. rewrite (proj2 (Z.leb_le _ _)) by zlen_lia.
    cbn. change (253 :: be_encode 2 v ++ rest) with ([253] ++ be_encode 2 v ++ rest).
    rewrite (slice_mid [253] (be_encode 2 v)) by (rewrite ?zlen_be_encode; done). rewrite be_decode_encode, Z.mod_small by (cbn; lia). done.
  - cbn [Z.ltb Z.eqb Z.compare Pos.compare Pos.compare_cont andb]. rewrite (proj2 (Z.leb_le 5 _)) by zlen_lia.
    cbn. change (254 :: be_encode 4 v ++ rest) with ([254] ++ be_encode 4 v ++ rest).
    rewrite (slice_mid [254] (be_encode 4 v)) by (rewrite ?zlen_be_encode; done). rewrite be_decode_encode, Z.mod_small by (cbn; lia). done.
Qed.

Lemma write_varint_varu64 v : 0 <= v < 2 ^ 32 -> write_tlv_varint [0x80] v = [0x80] ++ varu64_bytes v.
Proof.
  intros R. unfold write_tlv_varint, varu64_bytes, wrap.
  destruct (Z.ltb_spec v 253); [by rewrite Z.mod_small by lia|].
  destruct (Z.leb_spec v 65535), (Z.ltb_spec v 0x10000); try lia; [by rewrite Z.mod_small by lia|].
  rewrite (proj2 (Z.ltb_lt _ _)) by lia. by rewrite Z.mod_small by lia.
Qed.

(** The names of a Sync Data. *)
Definition sendable (n : Name) : Prop := wf_name n /\ zlen (name_wire n) < 2 ^ 32 - 20.

Lemma encode_name_wire n : sendable n -> NameOps.encode_to_tlv n = tlv_bytes tlv_type.NAME (name_wire n).
Proof. intros [W L]. apply encode_to_tlv_spec. split; [done|]. unfold_bounds. lia. Qed.

Lemma parse_names_ok names fuel : Forall sendable names -> (length (concat (map NameOps.encode_to_tlv names)) < fuel)%nat ->
  parse_names fuel (concat (map NameOps.encode_to_tlv names)) = Some names.
Proof.
  intros F. revert fuel. induction F as [|n names SN _ IH]; intros fuel LF; (destruct fuel as [|fuel]; [lia|]); [done|].
  cbn [map concat] in *. rewrite (encode_name_wire n SN) in *. set (rest := concat (map NameOps.encode_to_tlv names)) in *.
  pose proof SN as [WF SZ]. pose proof (zlen_nonneg (name_wire n)). pose proof (zlen_nonneg rest).
  pose proof (varu64_size_range (zlen (name_wire n))) as VS. set (w := name_wire n) in *.
  assert (tlv_bytes tlv_type.NAME w ++ rest = 7 :: varu64_bytes (zlen w) ++ w ++ rest) as EQ.
  { unfold tlv_bytes. cbn [app]. change (varu64_bytes tlv_type.NAME) with [7]. cbn [app]. by rewrite <-app_assoc. }
  assert (zlen (tlv_bytes tlv_type.NAME w) = 1 + varu64_size (zlen w) + zlen w) as LT.
  { rewrite zlen_tlv_bytes. unfold tlv_size. change (varu64_size tlv_type.NAME) with 1. lia. }
  assert (length rest < fuel)%nat as LR.
  { assert (0 < zlen (tlv_bytes tlv_type.NAME w)) as POS by lia. rewrite length_app in LF. unfold zlen in POS. lia. }
  cbn [parse_names]. rewrite (proj2 (Z.ltb_ge _ 2)) by (rewrite zlen_app; lia).
  assert (head (tlv_bytes tlv_type.NAME w ++ rest) = Some 7) as -> by (by rewrite EQ).
  assert (drop 1 (tlv_bytes tlv_type.NAME w ++ rest) = varu64_bytes (zlen w) ++ w ++ rest) as -> by (by rewrite EQ).
  cbn [default Z.eqb Pos.eqb negb from_option id].
  rewrite read_varint_varu64 by lia. cbv zeta. rewrite (proj2 (Z.ltb_ge _ _)) by (rewrite zlen_app; lia).
  rewrite (slice_from_app_eq (tlv_bytes tlv_type.NAME w)) by lia. rewrite IH by done.
  rewrite EQ. change (7 :: varu64_bytes (zlen w) ++ w ++ rest) with ([7] ++ varu64_bytes (zlen w) ++ w ++ rest).
  rewrite app_assoc, (slice_mid ([7] ++ varu64_bytes (zlen w)) w);
    [|rewrite zlen_app, zlen_varu64_bytes; done|rewrite zlen_app, zlen_varu64_bytes; zlen_lia].
  unfold w. rewrite decode_wire by (done || (fold w; unfold_bounds; lia)). done.
Qed.

(** A peer reads the names that were sent. *)
Lemma content_roundtrip names : Forall sendable names -> zlen (concat (map NameOps.encode_to_tlv names)) < 2 ^ 32 ->
  parse_psync_payload decompress (build_psync_content compress names) = Some names.
Proof.
  intros F L. unfold parse_psync_payload, build_psync_content. cbv zeta. rewrite zlib. cbn [default].
  set (inner := concat (map NameOps.encode_to_tlv names)) in *. pose proof (zlen_nonneg inner).
  rewrite write_varint_varu64 by lia. cbn [app Z.eqb Pos.eqb id]. unfold unwrap_content.
  rewrite read_varint_varu64 by lia. cbv zeta. pose proof (varu64_size_range (zlen inner)).
  rewrite (proj2 (Z.ltb_ge _ _)) by zlen_lia.
  change (128 :: varu64_bytes (zlen inner) ++ inner) with ([128] ++ varu64_bytes (zlen inner) ++ inner).
  rewrite app_assoc, <-(app_nil_r (_ ++ inner)), <-(app_assoc _ inner).
  rewrite (slice_mid ([128] ++ varu64_bytes (zlen inner)) inner);
    [|rewrite zlen_app, zlen_varu64_bytes; done|rewrite zlen_app, zlen_varu64_bytes; zlen_lia].
  apply parse_names_ok; [done|]. unfold inner. lia.
Qed.

End WireProofs.

(** ** Concrete producers *)

Definition goodb (n : Name) : bool :=
  match parse_prefix_seq n with
  | Some (p, s) => bool_decide (n = append_seq p s) && (0 <=? s) && (s <=? u64_max)
  | None => true
  end.
Definition universeb (names : list Name) : bool :=
  forallb goodb names && forallb (fun n => forallb (fun m => negb (hash_name n =? hash_name m) || bool_decide (n = m)) names) names.

Lemma universeb_sound names : universeb names = true -> universe (fun n => n ∈ names).
Proof.
  intros [G I]%andb_true_iff. rewrite forallb_forall in G, I. split.
  - intros n IN p s E. apply list_elem_of_In, G in IN. unfold goodb in IN. rewrite E in IN.
    apply andb_true_iff in IN as [IN L2]. apply andb_true_iff in IN as [IN L1]. apply bool_decide_eq_true in IN.
    apply Z.leb_le in L1, L2. by split.
  - intros n m IN IM EQ. apply list_elem_of_In, I in IN. rewrite forallb_forall in IN. apply list_elem_of_In, IN in IM.
    rewrite EQ, Z.eqb_refl in IM. cbn in IM. by apply bool_decide_eq_true in IM.
Qed.

Definition comp (t : string) : NameComponent := Component.generic (str t).
Definition news_a : list (Name * option bytes) :=
  [(append_seq [comp "alice"] 1, None); (append_seq [comp "alice"] 4, Some [1]); (append_seq [comp "carol"] 300, None)].
Definition news_b : list (Name * option bytes) := [(append_seq [comp "alice"] 2, None); ([comp "hello"], None)].

Definition prod_a : ProducerBase := default (ProducerBase.new 6) (grow (ProducerBase.new 6) news_a).
Definition prod_b : ProducerBase := default (ProducerBase.new 6) (grow (ProducerBase.new 6) news_b).
Definition map_values (m : gmap Z Name) : list Name := map snd (map_to_list m).

Lemma grow_a : grow (ProducerBase.new 6) news_a = Some prod_a.
Proof. vm_compute. reflexivity. Qed.
Lemma grow_b : grow (ProducerBase.new 6) news_b = Some prod_b.
Proof. vm_compute. reflexivity. Qed.
Lemma map_values_lists : lists_values map_values.
Proof.
  intros m n. unfold map_values. rewrite list_elem_of_fmap. split.
  - intros ([h x] & -> & I). exists h. by apply elem_of_map_to_list in I.
  - intros [h E]. exists (h, n). split; [done|]. by apply elem_of_map_to_list.
Qed.
Lemma news_universe : universe (fun n => n ∈ map fst (news_a ++ news_b)).
Proof. apply universeb_sound. vm_compute. reflexivity. Qed.
Lemma news_honest : honest (Ibf.n_cells (Ibf.from_expected (Z.max 6 3))) (difference (local_set (node prod_a)) (local_set (node prod_b))).
Proof. apply honestb_sound. vm_compute. reflexivity. Qed.
Lemma news_sizes : Z.of_nat (size (local_set (node prod_a))) + Z.of_nat (size (local_set (node prod_b))) + 1 < 2 ^ 31 /\
  (size (local_set (node prod_a)) + size (local_set (node prod_b)) < 9)%nat.
Proof. vm_compute. split; [reflexivity|lia]. Qed.


(** [A] sends the two names [B] does not have. *)
Example exchange_run :
  match ProducerBase.build_ibf elements prod_b with
  | Some ibf =>
      match sync_action elements map_values 9 prod_a ibf 3 with
      | Done (Send names) => bool_decide (names ≡ₚ [append_seq [comp "alice"] 4; append_seq [comp "carol"] 300])
      | _ => false
      end
  | None => false
  end = true.
Proof. vm_compute. reflexivity. Qed.

(** ** Where the code and its comments part *)

(** A version in a wider form than needed is accepted, but is looked up in the short
    form when it is superseded: it stays in the set. *)
Example old_version_kept :
  let wide := [comp "alice"; Component.generic [0; 1]] in
  match grow (ProducerBase.new 6) [(wide, None); (append_seq [comp "alice"] 2, None)] with
  | Some P => size (prefixes P) = 1%nat /\ size (local_set (node P)) = 2%nat /\ known P wide
  | None => False
  end.
Proof. vm_compute. split; [reflexivity|]. split; [reflexivity|]. eexists. reflexivity. Qed.

(** A last component of four bytes is read as a version: of two unrelated names the
    second is taken for an older version of the first and ignored. *)
Example word_taken_for_version :
  match ProducerBase.apply (ProducerBase.new 6) [comp "alice"; comp "chat"] None with
  | Some (_, P) => ProducerBase.apply P [comp "alice"; comp "blog"] None = Some (None, P)
  | None => False
  end.
Proof. vm_compute. reflexivity. Qed.

(** Two names with the highest version make the count of elements overflow. *)
Example element_count_overflows :
  grow (ProducerBase.new 6) [(append_seq [comp "alice"] u64_max, None); (append_seq [comp "carol"] u64_max, None)] = None.
Proof. vm_compute. reflexivity. Qed.

(** One Sync Interest with a stray cell keeps the task busy for 2^31 rounds at least. *)
Lemma stray_interest_hangs decompress iter values held fuel group raw num name now reply :
  lists iter -> Z.of_nat fuel <= 2 ^ 31 ->
  parse_sync_interest decompress group raw 3 = Some (stray, num, name) ->
  handle_sync_interest decompress iter values fuel group raw 3 now reply (mkPsync (ProducerBase.new 3) held) = Running.
Proof.
  intros IT F P. unfold handle_sync_interest. rewrite P. unfold sync_action, ProducerBase.reconcile. cbn [pb ProducerBase.new node].
  by rewrite decode_diverges.
Qed.

(** Its table goes through the wire form. *)
Example stray_encodable : decode_ibf Some (encode_ibf id stray) 3 = Some stray.
Proof. vm_compute. reflexivity. Qed.
